(* ===== verification/_CoqProject ===== *)
-Q . S2P
Prelude.v
Buffers.v
DiskCacheIndex.v
DiskCacheIndexChains.v
DiskCacheIndexOps.v
DiskCacheIndexReads.v
DiskCacheIndexSystem.v
DiskCacheIndexSpec.v
DiskCacheIndexTheorems.v
DiskCacheFill.v
DiskCacheRead.v
DiskCacheReadTheorems.v
UnicodePath.v
PathCache.v
ListingIndex.v
PathCacheOps.v
PathCacheListings.v
PathCachePublish.v
PathCacheSystem.v
PathCacheSeed.v
PathCacheProtocol.v
PathCacheTheorems.v
PathCacheBudget.v
ListingTheorems.v
ChangeFeed.v
TlsCrypto.v
TlsCryptoHandles.v
TlsCryptoTheorems.v
TlsCodec.v
TlsClientHello.v
TlsParse.v
TlsRoundTrip.v
TlsDer.v
TlsRecords.v
Registry.v
ReadAdapt.v
ReadFair.v
ReadFairSystem.v
ReadFairTheorems.v
ReadPath.v
ReadPathSystem.v
ReadPathHandlers.v
ReadPathTheorems.v
ClientText.v
ClientTextTheorems.v
ClientRequest.v
ClientRequestSystem.v
ClientRequestHandlers.v
ClientRequestFrame.v
ClientRequestTheorems.v
TlsHandshake.v
TlsHandshakeSpec.v
TlsHandshakeChains.v
TlsHandshakeSystem.v
TlsHandshakeServer.v
TlsHandshakeHandlers.v
TlsHandshakeTheorems.v
Nodes.v
NodesTree.v
Opens.v
OpensSystem.v
OpensTokens.v
OpensInvariant.v
OpensCalls.v
OpensCallsCounts.v
OpensCallsTable.v
OpensCreate.v
OpensRun.v
OpensTheorems.v
OpensTeardown.v
ListingDecode.v
DirCtrl.v
DirCtrlTheorems.v
DirCtrlQuery.v
DirCtrlHandle.v
Sockets.v
SocketsInvariant.v
SocketsHandlers.v
SocketsSystem.v
SocketsTheorems.v
