(* ===== verification/Prelude.v ===== *)
(** * BlorgFS: a verification development

    BlorgFS is a read-only Windows file system driver that shows a remote
    HTTP(S) server as a volume.  A read of a file goes through the Windows
    cache or past it; what is missing is fetched over the link, admitted in
    fair order between files, and may be served from and stored to a cache
    file on a local disk.  Opens and directory listings are answered from two
    caches of paths, which a change feed from the server keeps honest.  TLS
    1.3 is the driver's own, on the kernel's crypto primitives.  All of it is
    C, under src/; this library is a shallow embedding of it.

    ** How code becomes definitions

    Integers are [Z] with the C wrap-around written out ([u8] .. [u64],
    [s32], [s64] below); arrays are lists, read and written by [rd] and [wr],
    which are [None] out of range ([Buffers] has copies of several bytes).
    [None] always stands for undefined behaviour, a failed assertion or a loop
    that did not end, so a theorem that an operation is [Some] is a
    memory-safety and termination theorem.
    Error returns are [NTSTATUS] values.  What the driver does not decide
    (allocations, the clock, what the kernel, the network and the registry
    answer) is an argument, so theorems hold for every answer.  Loops that
    are not structural take fuel, which the callers compute from the data (a
    length, a number of slots) and which is proved to be enough: no theorem
    is conditional on it.  Counters of src/Statistics.c and the debug prints
    are left out throughout.

    ** Parts, files and source

    - The disk cache's index (src/DiskCacheIndex.c): [DiskCacheIndex] has the
      slots, hash chains, clock, ghosts and every operation; [..Chains],
      [..Ops] and [..Reads] its representation invariant and the operations
      against it; [..System] its clients (reads that pin, fills that own a
      slot) as a step relation; [..Spec] the abstract machine, a finite map
      from keys to slots; [..Theorems] the refinement, safety and functional
      theorems.
    - Reads and fills of the disk cache (src/DiskCache.c): [DiskCacheFill],
      [DiskCacheRead], [DiskCacheReadTheorems]: every byte of a read comes
      from the right place, the parts complete it exactly once in any order,
      counters and pins balance.
    - Paths and the path and listing caches (src/PathCache.c, the path helpers
      of src/Structs.c): [UnicodePath] (the kernel's case tables are the class
      [Nls]), [PathCache] (one definition per critical section and per
      exported operation), [PathCacheOps], [PathCacheListings],
      [PathCachePublish], [PathCacheSystem], [PathCacheSeed];
      [PathCacheBudget] runs the listing cache's sections access by access,
      every bucket's against every other's, on the byte counter they share, and
      shows that without a break they are the definitions of [PathCache];
      [PathCacheProtocol] interleaves the critical sections of concurrent
      operations; [PathCacheTheorems] and [ListingTheorems] the
      theorems, first of all that a result read before an invalidation never
      survives it.
    - Listings (src/Client.c's block allocator and name index, src/Create.c's
      search): [ListingIndex]; [ListingDecode] the decoding of a listing from
      the server's table into its block, from which every listing comes.  The
      kernel's UTF-8 conversion is the class [Utf8].
    - The change feed (src/ChangeFeed.c): [ChangeFeed].
    - Directory queries (src/DirCtrl.c): [DirCtrl] the records, the matching,
      the enumeration loop, the bytes of a record and the caller's walk;
      [DirCtrlTheorems] what matching means and what the caller sees; [DirCtrlQuery] the handlers and
      [DirCtrlHandle] their accounts.  The kernel's wildcard matcher is the
      class [NameExpressions].
    - TLS (src/Tls.c): [TlsCrypto] and [TlsCryptoHandles] the crypto layer
      over the class [Bcrypt], as programs of a state and error monad whose
      oracle decides every BCrypt call; [TlsCodec] the messages, DER and
      records; [TlsClientHello], [TlsParse], [TlsRoundTrip], [TlsDer],
      [TlsRecords], [TlsCryptoTheorems] what is proved of them.
    - The TLS handshake (src/TlsHandshake.c): [TlsHandshake] has the context,
      the pin and every handler, over the record accumulator of the requests,
      the messages and the crypto layer; [TlsHandshakeSpec] what RFC 8446 says
      of the key schedule and of the server's flight, as functions on byte
      strings; [TlsHandshakeChains] that the driver's steps compute it;
      [TlsHandshakeSystem] the events a handshake can see and the invariant,
      [TlsHandshakeHandlers] that each handler keeps it;
      [TlsHandshakeServer] an honest server, and [TlsHandshakeTheorems] runs
      from start to end.
    - The settings (src/Registry.c): [Registry].
    - Reads (src/Read.c): [ReadAdapt] the end-of-file trim, the stream
      trackers and the read-ahead policy; [ReadFair], [ReadFairSystem] and
      [ReadFairTheorems] the fair share of the link; [ReadPath] every handler
      of the read path as a program over the calls it makes; [ReadPathSystem]
      all handlers interleaved, against the interface [DiskCacheService], of
      which [ReadPathHandlers] makes the disk cache an instance before it gives
      a weakest precondition for each handler;
      [ReadPathTheorems] the theorems of the whole.
    - Nodes and opens (src/Structs.c, src/Create.c, src/Cleanup.c, src/Close.c,
      the create's share of src/FspWorkQueue.c): [Nodes] has the FCBs and DCBs,
      their tree, the child index, the table of published nodes, the counts and
      the reap list; [NodesTree] the tree's invariant and what searching,
      adopting and freeing do to it.  [Opens] has every handler - opens, first
      pass and re-driven, the completion of the lookup at the server,
      cancellation, oplocks, cleanup, close, the reap worker - as a program over
      the calls it makes on what they share; [OpensSystem] what they share, one
      step of a call, all handlers interleaved call by call, and a function that
      runs one handler after the other.  [OpensTokens] says what a handler may
      hold and what each call needs of it (a weakest precondition),
      [OpensInvariant] ties every count, lock, list and block to who holds it;
      [OpensCalls], [OpensCallsCounts] and [OpensCallsTable] show that each call
      keeps it, [OpensCreate] that each handler makes its calls in order, [OpensRun] that so it holds in every
      reachable state and that every call is defined; [OpensTheorems] has the
      theorems and [OpensTeardown] the unloading of the volume.
    - Sockets (src/Socket.c): [Sockets] has the handlers of the connection pool,
      of connects, sends, receives and closes with their watchdog timers, and of
      the pre-warm, as programs over the calls they make on what they share, and
      all of them interleaved with the provider, the timers, the requests and
      the driver's entry and unload; [SocketsInvariant] counts who holds each
      socket, reference, block and pending step; [SocketsHandlers] shows that
      each call keeps the counts and is defined; [SocketsSystem] that each
      handler makes its calls in order, with a function that plays a list of
      events; [SocketsTheorems] has the theorems.
    - The HTTP client's text (src/Client.c): [ClientText] and
      [ClientTextTheorems].
    - HTTP requests (src/Client.c, the record accumulator of src/Socket.c):
      [ClientRequest] has the context and every handler of the stage machine,
      from acquiring a socket to freeing the context, plain and TLS;
      [ClientRequestSystem] the events a request can see, the step relation
      and the invariant; [ClientRequestHandlers] that each handler keeps it;
      [ClientRequestFrame] what no handler changes; [ClientRequestTheorems]
      the theorems.  The HTTP parser is a method of the class
      [HttpEnvironment].

    ** What the theorems show

    - The index: refinement (C1), no undefined behaviour
      ([index_calls_defined]).
    - The read path under any interleaving: each read in one place
      (C2), the link's limit (C5), every read
      finished (C3); the disk cache's part (C6,
      C7); the fair share's invariant
      (C8) and the order it sends held reads in, with the
      bound on what other files get ahead (C9).
    - Requests: the body announced and nothing else (C17),
      settled once (C18), inside their memory
      (C19), never calling for ever (C31).
    - The caches' ticket protocol (C4), the
      listing cache's budget while charges are made and taken back
      (C38), the accounts between critical sections
      ([cache_accounts_exact]) and the effect of an invalidation
      ([invalidate_prefix_forgets_subtree]); the change feed (C40).
    - Directory queries on whatever the client decodes ([decode_listing_exact]):
      what a caller reads (C35), all of it once
      (C36), and everything given back
      (C37).
    - TLS: no handle lost on any error path (C39), nonces
      that never repeat ([nonces_never_repeat]),
      parsers that stay inside their input ([handshake_parsers_stay_inside]).
    - The handshake, against any server and any order of completions: success
      means an authenticated server and RFC 8446's keys
      (C14); one end and nothing kept
      (C16), inside its buffers
      (C15), and a connection the request can go on with
      (C34); the flight's verdict is the reference's
      (C32), an honest server gets in
      (C33) and a wrong key is a trust failure
      ([wrong_pin_is_trust_failure]).
    - Opens and nodes, in any interleaving of the handlers: no call on a freed
      node (C10), no deadlock (C11), each
      open in one place (C27), what is opened is what was asked
      (C12) or nothing (C29);
      at rest the counts are exact (C26), nothing idle is resident
      (C13), and with nothing open nothing is left
      (C25); the table agrees with the tree
      (C28); unloading frees every node
      (C30).

    - Sockets, in any interleaving: every call on what is there
      (C20), a socket in one place (C21),
      a request answered once and with the peer it asked for
      (C22), nothing lost at rest
      (C23), and a pre-warm that fills one by one, ends, and
      once drained stays so (C24).

    ** Bounds and fuel

    A chain walk takes the number of slots plus one; a sweep of the clock its
    documented reach; planning a read one pass per run; the release loop of
    the fair share one turn per held read; text scans one turn per character.
    Termination of the read path is by a potential: each place a read can be
    is worth the steps it may still cause ([ReadPathHandlers]), so every run
    of the driver's own steps is bounded.  A request's calls are bounded by a
    weight of the handler and the ciphertext still to be read, a handshake's by
    the bytes in its accumulator.  A walk along a path takes a turn per
    character, a walk up the tree one per character of the path it starts from,
    and the teardown one per node, with a descent of one turn per name of a path.

    ** Hypotheses

    [Nls], [Bcrypt], [Utf8], [HttpEnvironment] and [DiskCacheService] state what
    the documentation of the kernel and of the parser promises (folding is
    idempotent, sealed records open, primitives have fixed lengths, a
    conversion stays within the room it is given, a parsed header lies in the
    bytes parsed) and what the disk cache promises the read
    path; each has an instance here, used by the witnesses.  Tags and counters
    of 64 bits are assumed not to run out: the step relations bound the total
    of bytes ever asked below 2^63.

    ** Not modelled

    Name resolution and the registration with WSK (the rest of src/Socket.c),
    request lines and the decoding of metadata, subtree answers and changes (the rest of src/Client.c), the FSP
    queue's own locking and threads (src/FspWorkQueue.c), the statistics, and
    the short handlers that forward to the kernel.  The HTTP and FlatBuffers
    parsers are third-party code.  Of what is modelled, these details are left
    to the kernel: the section pointers of a file object, the IRPs a teardown
    of an oplock completes, and the bytes of a fetched part, which are accounted
    for by the range they go to. *)

From stdpp Require Export base tactics numbers list gmap.
From Stdlib Require Export ZArith Lia.

(** ** Machine integers

    An unsigned [w]-bit integer of the source is a [Z]; [uwrap w] is the
    reduction the C arithmetic performs.  [ULONG] is 32 bits, [USHORT] 16,
    [UCHAR] 8, [ULONG64] and [SIZE_T] 64 (the driver is built for x64). *)

#[global] Open Scope Z_scope.

Definition uwrap (w z : Z) : Z := z mod 2 ^ w.
Definition u8 (z : Z) : Z := z mod 256.
Definition u16 (z : Z) : Z := z mod 65536.
Definition u32 (z : Z) : Z := z mod 4294967296.
Definition u64 (z : Z) : Z := z mod 18446744073709551616.

(** Signed two's-complement reductions, for [LONG] and [LONG64]. *)
Definition s32 (z : Z) : Z := (z + 2147483648) mod 4294967296 - 2147483648.
Definition s64 (z : Z) : Z := (z + 9223372036854775808) mod 18446744073709551616 - 9223372036854775808.

#[global] Arguments Z.eqb !_ !_ : simpl nomatch.
#[global] Arguments Z.ltb !_ !_ : simpl nomatch.
#[global] Arguments Z.leb !_ !_ : simpl nomatch.
Arguments u8 : simpl never.
Arguments u16 : simpl never.
Arguments u32 : simpl never.
Arguments u64 : simpl never.
Arguments s32 : simpl never.
Arguments s64 : simpl never.

Definition MAXULONG : Z := 4294967295.
Definition PAGE_SIZE : Z := 4096.
Definition MAXLONG : Z := 2147483647.
Definition MAXLONG64 : Z := 9223372036854775807.
Definition MAXULONG64 : Z := 18446744073709551615.

Lemma u8_id z : 0 <= z < 256 -> u8 z = z.
Proof. intros. by apply Z.mod_small. Qed.
Lemma u16_id z : 0 <= z < 65536 -> u16 z = z.
Proof. intros. by apply Z.mod_small. Qed.
Lemma u32_id z : 0 <= z < 4294967296 -> u32 z = z.
Proof. intros. by apply Z.mod_small. Qed.
Lemma u64_id z : 0 <= z < 18446744073709551616 -> u64 z = z.
Proof. intros. by apply Z.mod_small. Qed.
Lemma s32_id z : - 2147483648 <= z < 2147483648 -> s32 z = z.
Proof. intros. unfold s32. rewrite Z.mod_small; lia. Qed.
Lemma s64_id z : - 9223372036854775808 <= z < 9223372036854775808 -> s64 z = z.
Proof. intros. unfold s64. rewrite Z.mod_small; lia. Qed.
Lemma u8_range z : 0 <= u8 z < 256.
Proof. by apply Z.mod_pos_bound. Qed.
Lemma u16_range z : 0 <= u16 z < 65536.
Proof. by apply Z.mod_pos_bound. Qed.
Lemma u32_range z : 0 <= u32 z < 4294967296.
Proof. by apply Z.mod_pos_bound. Qed.
Lemma u64_range z : 0 <= u64 z < 18446744073709551616.
Proof. by apply Z.mod_pos_bound. Qed.

(** [NTSTATUS] is a signed 32-bit value; [NT_SUCCESS] tests its sign. *)

Definition NTSTATUS : Type := Z.
Definition nt (z : Z) : NTSTATUS := z - 4294967296.
Definition STATUS_SUCCESS : NTSTATUS := 0.
Definition STATUS_PENDING : NTSTATUS := 0x103.
Definition STATUS_END_OF_FILE : NTSTATUS := nt 0xC0000011.
Definition STATUS_INVALID_PARAMETER : NTSTATUS := nt 0xC000000D.
Definition STATUS_INSUFFICIENT_RESOURCES : NTSTATUS := nt 0xC000009A.
Definition NT_SUCCESS (s : NTSTATUS) : bool := 0 <=? s.

(** ** Arrays

    A C array is a list.  [rd] and [wr] are an access and an update at an
    index of the source's integer type; out of range they are [None], which
    in every definition of the development stands for undefined behaviour
    (or a failed [NT_ASSERT]).  A theorem that an operation is [Some] is
    therefore also a memory-safety theorem. *)

Definition rd {A} (l : list A) (i : Z) : option A :=
  if 0 <=? i then l !! Z.to_nat i else None.

Definition wr {A} (l : list A) (i : Z) (x : A) : option (list A) :=
  if (0 <=? i) && (i <? Z.of_nat (length l)) then Some (<[Z.to_nat i := x]> l) else None.

Section Arrays.
Context {A : Type}.
Implicit Types (l : list A) (i j : Z) (x y : A).

Lemma rd_middle l1 x l2 : rd (l1 ++ x :: l2) (Z.of_nat (length l1)) = Some x.
Proof. unfold rd. destruct (Z.leb_spec 0 (Z.of_nat (length l1))); [|lia]. rewrite Nat2Z.id. by apply list_lookup_middle. Qed.

Lemma rd_Some l i x : rd l i = Some x -> 0 <= i < Z.of_nat (length l).
Proof.
  unfold rd. destruct (Z.leb_spec 0 i); [|done].
  intros Hl%lookup_lt_Some. lia.
Qed.

Lemma rd_replicate n x y i : rd (replicate n x) i = Some y -> y = x.
Proof. unfold rd. destruct (0 <=? i); [|done]. intros [-> _]%lookup_replicate. done. Qed.

Lemma rd_in_range l i : 0 <= i < Z.of_nat (length l) -> exists x, rd l i = Some x.
Proof.
  intros [Hi Hlt]. unfold rd. destruct (Z.leb_spec 0 i); [|lia].
  apply lookup_lt_is_Some_2. lia.
Qed.

Lemma wr_in_range l i x :
  0 <= i < Z.of_nat (length l) -> wr l i x = Some (<[Z.to_nat i := x]> l).
Proof.
  intros [Hi Hlt]. unfold wr.
  destruct (Z.leb_spec 0 i), (Z.ltb_spec i (Z.of_nat (length l))); try lia. done.
Qed.

Lemma wr_exists l i x y : rd l i = Some y -> exists l', wr l i x = Some l'.
Proof. intros H%rd_Some. eexists. by apply wr_in_range. Qed.

Lemma wr_Some l l' i x :
  wr l i x = Some l' -> 0 <= i < Z.of_nat (length l) /\ l' = <[Z.to_nat i := x]> l.
Proof.
  unfold wr. destruct (Z.leb_spec 0 i), (Z.ltb_spec i (Z.of_nat (length l))); simpl;
    intros; simplify_eq; split; done || lia.
Qed.

Lemma wr_length l l' i x : wr l i x = Some l' -> length l' = length l.
Proof. intros [_ ->]%wr_Some. apply length_insert. Qed.

Lemma rd_wr_eq l l' i x : wr l i x = Some l' -> rd l' i = Some x.
Proof.
  intros [[Hi Hlt] ->]%wr_Some. unfold rd. destruct (Z.leb_spec 0 i); [|lia].
  apply list_lookup_insert_eq. lia.
Qed.

Lemma rd_wr_ne l l' i j x : wr l i x = Some l' -> i <> j -> rd l' j = rd l j.
Proof.
  intros [[Hi Hlt] ->]%wr_Some Hne. unfold rd. destruct (Z.leb_spec 0 j); [|done].
  apply list_lookup_insert_ne. lia.
Qed.

Lemma rd_wr l l' i j x :
  wr l i x = Some l' -> rd l' j = if decide (i = j) then Some x else rd l j.
Proof.
  intros Hw. case_decide; subst; eauto using rd_wr_eq, rd_wr_ne.
Qed.
End Arrays.

(** ** Sums over a list *)

Definition total {A} (f : A -> Z) (l : list A) : Z := fold_right (fun x n => f x + n) 0 l.

Section Totals.
Context {A : Type} (f : A -> Z).
Implicit Types (l : list A) (x y : A).

Lemma total_cons x l : total f (x :: l) = f x + total f l.
Proof. done. Qed.

Lemma total_app l l' : total f (l ++ l') = total f l + total f l'.
Proof. induction l as [|x l IH]; [done|]. rewrite <- app_comm_cons, !total_cons. lia. Qed.

Lemma total_insert l i x y : l !! i = Some x -> total f (<[i := y]> l) = total f l - f x + f y.
Proof.
  revert i. induction l as [|z l IH]; intros [|i] H; try done.
  - injection H as ->. cbn [insert list_insert]. rewrite !total_cons. lia.
  - cbn [insert list_insert]. rewrite !total_cons, IH; [lia|done].
Qed.

Lemma total_perm l l' : l ≡ₚ l' -> total f l = total f l'.
Proof. induction 1; rewrite ?total_cons in *; lia. Qed.

Lemma total_nonneg l : (forall x, x ∈ l -> 0 <= f x) -> 0 <= total f l.
Proof.
  induction l as [|x l IH]; [done|]. intros H. rewrite total_cons.
  pose proof (H x ltac:(left)). pose proof (IH ltac:(intros; apply H; by right)). lia.
Qed.

Lemma total_lookup l i x : (forall x, x ∈ l -> 0 <= f x) -> l !! i = Some x -> f x <= total f l.
Proof.
  intros Hn Hl. apply list_elem_of_split_length in Hl as (l1 & l2 & -> & _).
  rewrite total_app, total_cons.
  pose proof (total_nonneg l1 ltac:(intros; apply Hn, elem_of_app; by left)).
  pose proof (total_nonneg l2 ltac:(intros; apply Hn, elem_of_app; right; by right)). lia.
Qed.

Lemma total_bound l c : (forall x, x ∈ l -> f x <= c) -> total f l <= c * Z.of_nat (length l).
Proof.
  induction l as [|x l IH]; [cbn; lia|]. intros H. rewrite total_cons. cbn [length].
  pose proof (H x ltac:(left)). pose proof (IH ltac:(intros; apply H; by right)). lia.
Qed.
End Totals.

(** ** Decimal numerals *)

Definition is_digit (c : Z) : Prop := 48 <= c <= 57.
#[global] Instance is_digit_dec c : Decision (is_digit c).
Proof. unfold is_digit. apply _. Defined.

(** The number a string of digits denotes, after the digits of [n]. *)
Definition decimal_from (n : Z) (l : list Z) : Z := foldl (fun n c => n * 10 + (c - 48)) n l.
Definition decimal (l : list Z) : Z := decimal_from 0 l.

Lemma decimal_from_cons n c l : decimal_from n (c :: l) = decimal_from (n * 10 + (c - 48)) l.
Proof. done. Qed.

Lemma decimal_grows l n : 0 <= n -> Forall is_digit l -> n <= decimal_from n l.
Proof.
  revert n. induction l as [|c l IH]; intros n Hn Hl; [done|].
  apply Forall_cons in Hl as [Hc Hl]. unfold is_digit in Hc. rewrite decimal_from_cons.
  specialize (IH (n * 10 + (c - 48)) ltac:(lia) Hl). lia.
Qed.

(** ** Automation *)

Create HintDb blorg discriminated.
#[export] Hint Resolve u8_range u16_range u32_range u64_range : blorg.
#[export] Hint Resolve rd_wr_eq rd_wr_ne wr_length : blorg.

(** Case analysis on the boolean tests of the source, leaving the
    propositions they decide. *)
Ltac bool_cases :=
  repeat match goal with
  | H : context [?a =? ?b] |- _ => destruct (Z.eqb_spec a b); simpl in *
  | |- context [?a =? ?b] => destruct (Z.eqb_spec a b); simpl in *
  | H : context [?a <? ?b] |- _ => destruct (Z.ltb_spec a b); simpl in *
  | |- context [?a <? ?b] => destruct (Z.ltb_spec a b); simpl in *
  | H : context [?a <=? ?b] |- _ => destruct (Z.leb_spec a b); simpl in *
  | |- context [?a <=? ?b] => destruct (Z.leb_spec a b); simpl in *
  end.

(** Inversion of a successful run in the option monad. *)
Ltac run_inv :=
  repeat match goal with
  | H : mbind _ _ = Some _ |- _ => apply bind_Some in H as (? & ? & H)
  | H : Some _ = Some _ |- _ => injection H as H
  | H : mret _ = Some _ |- _ => injection H as H
  | H : (_, _) = (_, _) |- _ => injection H as ? ?
  end; simplify_eq.
