(* ===== verification/Buffers.v ===== *)
(** * Byte buffers

    Blocks of memory as lists of bytes: copies from and to an offset, [None]
    outside the block, and where a string of bytes sits in one. *)

From S2P Require Import Prelude.

Abbreviation BYTES := (list Z).

(** [RtlCopyMemory] from and to a buffer at an offset. *)
Definition rd_list (buf : BYTES) (off n : Z) : option BYTES :=
  if (0 <=? off) && (0 <=? n) && (off + n <=? Z.of_nat (length buf)) then Some (take (Z.to_nat n) (drop (Z.to_nat off) buf)) else None.
Definition wr_list (buf : BYTES) (off : Z) (src : BYTES) : option BYTES :=
  if (0 <=? off) && (off + Z.of_nat (length src) <=? Z.of_nat (length buf))
  then Some (take (Z.to_nat off) buf ++ src ++ drop (Z.to_nat off + length src) buf) else None.

Definition is_byte (b : Z) : Prop := 0 <= b < 256.
Definition bytes_ok (l : BYTES) : Prop := Forall is_byte l.

Lemma rd_byte l i : bytes_ok l -> 0 <= i < Z.of_nat (length l) -> exists b, rd l i = Some b /\ is_byte b.
Proof.
  intros Hb Hi. destruct (rd_in_range l i Hi) as [b Hr]. exists b. split; [done|].
  unfold rd in Hr. destruct (0 <=? i); [|done]. by eapply Forall_lookup_1.
Qed.

Lemma rd_list_in_range l off n :
  0 <= off -> 0 <= n -> off + n <= Z.of_nat (length l) ->
  rd_list l off n = Some (take (Z.to_nat n) (drop (Z.to_nat off) l)).
Proof.
  intros. unfold rd_list. destruct (Z.leb_spec 0 off), (Z.leb_spec 0 n), (Z.leb_spec (off + n) (Z.of_nat (length l))); try lia. done.
Qed.

Lemma length_rd_list l off n r : rd_list l off n = Some r -> length r = Z.to_nat n.
Proof.
  unfold rd_list. destruct (Z.leb_spec 0 off), (Z.leb_spec 0 n), (Z.leb_spec (off + n) (Z.of_nat (length l))); try done.
  intros [= <-]. rewrite length_take, length_drop. lia.
Qed.

Lemma bytes_rd_list l off n r : bytes_ok l -> rd_list l off n = Some r -> bytes_ok r.
Proof.
  intros Hb. unfold rd_list. destruct (_ && _); [|done]. intros [= <-]. by apply Forall_take, Forall_drop.
Qed.

Lemma wr_list_in_range l off src :
  0 <= off -> off + Z.of_nat (length src) <= Z.of_nat (length l) ->
  exists r, wr_list l off src = Some r /\ length r = length l.
Proof.
  intros. unfold wr_list. destruct (Z.leb_spec 0 off), (Z.leb_spec (off + Z.of_nat (length src)) (Z.of_nat (length l))); try lia.
  eexists. split; [done|]. rewrite !length_app, length_take, length_drop. lia.
Qed.

Lemma bytes_cons b l : bytes_ok (b :: l) -> is_byte b /\ bytes_ok l.
Proof. by intros [? ?]%Forall_cons. Qed.

Lemma wr_list_hole pre hole post off bytes :
  off = Z.of_nat (length pre) -> length bytes = length hole ->
  wr_list (pre ++ hole ++ post) off bytes = Some (pre ++ bytes ++ post).
Proof.
  intros -> Hl. unfold wr_list. rewrite !length_app, Hl.
  destruct (Z.leb_spec 0 (Z.of_nat (length pre))); [|lia].
  destruct (Z.leb_spec (Z.of_nat (length pre) + Z.of_nat (length hole)) (Z.of_nat (length pre + (length hole + length post)))); [|lia].
  cbn [andb]. rewrite Nat2Z.id, take_app_length, <- drop_drop, drop_app_length. by rewrite drop_app_length.
Qed.

Lemma bytes_wr b off src b' : bytes_ok b -> bytes_ok src -> wr_list b off src = Some b' -> bytes_ok b'.
Proof.
  intros Hb Hs. unfold wr_list. destruct (_ && _); [|done]. intros [= <-]. apply Forall_app. split; [by apply Forall_take|].
  apply Forall_app. split; [done|by apply Forall_drop].
Qed.

(** Disjoint bit fields add. *)
Lemma lor_shiftl a b k : 0 <= k -> 0 <= b < 2 ^ k -> Z.lor (Z.shiftl a k) b = a * 2 ^ k + b.
Proof.
  intros Hk Hb. rewrite Z.shiftl_mul_pow2 by done. rewrite <- Z.add_lor_land.
  assert (Hz : Z.land (a * 2 ^ k) b = 0); [|lia].
  apply Z.bits_inj'. intros n Hn. rewrite Z.land_spec, Z.bits_0. destruct (Z.lt_ge_cases n k).
  - rewrite Z.mul_pow2_bits_low by done. done.
  - rewrite <- (Z.mod_small b (2 ^ k)) by done. rewrite Z.mod_pow2_bits_high by lia. apply andb_false_r.
Qed.

(** Rounding down to a multiple of eight. *)
Lemma land_lnot_7 x : Z.land x (Z.lnot 7) = x / 8 * 8.
Proof. change 7 with (Z.ones 3). rewrite <- Z.ldiff_land, Z.ldiff_ones_r, Z.shiftr_div_pow2, Z.shiftl_mul_pow2 by lia. done. Qed.
Lemma aligned_up x : x <= Z.land (x + 7) (Z.lnot 7) <= x + 7.
Proof. rewrite land_lnot_7. pose proof (Z.div_mod (x + 7) 8 ltac:(lia)). pose proof (Z.mod_pos_bound (x + 7) 8 ltac:(lia)). lia. Qed.

(** ** Bytes at an offset *)

Definition sits (buf : BYTES) (off : Z) (l : BYTES) : Prop :=
  exists pre post, buf = pre ++ l ++ post /\ off = Z.of_nat (length pre).

Lemma sits_whole l : sits l 0 l.
Proof. exists [], []. by rewrite app_nil_r. Qed.

Lemma sits_app buf off a b : sits buf off (a ++ b) -> sits buf off a /\ sits buf (off + Z.of_nat (length a)) b.
Proof.
  intros (pre & post & -> & ->). split.
  - exists pre, (b ++ post). by rewrite <- app_assoc.
  - exists (pre ++ a), post. rewrite length_app, <- !app_assoc. split; [done|lia].
Qed.

Lemma sits_rd buf off x l : sits buf off (x :: l) -> rd buf off = Some x.
Proof.
  intros (pre & post & -> & ->). unfold rd. destruct (Z.leb_spec 0 (Z.of_nat (length pre))); [|lia].
  rewrite Nat2Z.id. cbn [app]. by apply list_lookup_middle.
Qed.

Lemma sits_bound buf off l : sits buf off l -> 0 <= off /\ off + Z.of_nat (length l) <= Z.of_nat (length buf).
Proof. intros (pre & post & -> & ->). rewrite !length_app. lia. Qed.

Lemma sits_list buf off l n : sits buf off l -> n = Z.of_nat (length l) -> rd_list buf off n = Some l.
Proof.
  intros Hs ->. pose proof (sits_bound _ _ _ Hs). rewrite rd_list_in_range by lia.
  destruct Hs as (pre & post & -> & ->). by rewrite !Nat2Z.id, drop_app_length, take_app_length.
Qed.

(** Split every [sits] of a concatenation. *)
Ltac splits :=
  repeat match goal with
  | H : sits _ _ (_ ++ _) |- _ => apply sits_app in H as [? H]
  end.

Lemma sits_nil buf off : 0 <= off <= Z.of_nat (length buf) -> sits buf off [].
Proof.
  intros. exists (take (Z.to_nat off) buf), (drop (Z.to_nat off) buf). cbn [app]. rewrite take_drop. split; [done|].
  rewrite length_take. lia.
Qed.

(** Writing after what sits somewhere extends it. *)
Lemma sits_extend buf off l src :
  sits buf off l -> off + Z.of_nat (length l) + Z.of_nat (length src) <= Z.of_nat (length buf) ->
  exists buf', wr_list buf (off + Z.of_nat (length l)) src = Some buf' /\ length buf' = length buf /\ sits buf' off (l ++ src).
Proof.
  intros (pre & post & -> & ->) Hfit. rewrite !length_app in Hfit.
  rewrite <- (take_drop (length src) post). set (hole := take (length src) post).
  assert (Hhole : length hole = length src) by (unfold hole; rewrite length_take; lia).
  exists (pre ++ l ++ src ++ drop (length src) post). split_and!.
  - replace (pre ++ l ++ hole ++ drop (length src) post) with ((pre ++ l) ++ hole ++ drop (length src) post) by (by rewrite <- app_assoc).
    rewrite wr_list_hole; [by rewrite <- !app_assoc|rewrite length_app; lia|done].
  - rewrite !length_app, Hhole. done.
  - exists pre, (drop (length src) post). by rewrite <- !app_assoc.
Qed.

(** Writing where it sits replaces it. *)
Lemma sits_written buf off src buf' : wr_list buf off src = Some buf' -> sits buf' off src /\ length buf' = length buf.
Proof.
  unfold wr_list. destruct (Z.leb_spec 0 off), (Z.leb_spec (off + Z.of_nat (length src)) (Z.of_nat (length buf))); try done.
  intros [= <-]. split.
  - exists (take (Z.to_nat off) buf), (drop (Z.to_nat off + length src) buf). split; [done|]. rewrite length_take. lia.
  - rewrite !length_app, length_take, length_drop. lia.
Qed.

Lemma sits_prefix buf off l k : sits buf off (l ++ k) -> sits buf off l.
Proof. intros Hs. by apply sits_app in Hs as [? _]. Qed.

Lemma rd_list_sits buf off n l : rd_list buf off n = Some l -> sits buf off l.
Proof.
  unfold rd_list. destruct (Z.leb_spec 0 off), (Z.leb_spec 0 n), (Z.leb_spec (off + n) (Z.of_nat (length buf))); try done. intros [= <-].
  exists (take (Z.to_nat off) buf), (drop (Z.to_nat n) (drop (Z.to_nat off) buf)). rewrite !take_drop. split; [done|]. rewrite length_take. lia.
Qed.

(** Accesses inside what sits somewhere. *)
Lemma sits_rd_at buf off l i : sits buf off l -> 0 <= i < Z.of_nat (length l) -> rd buf (off + i) = rd l i.
Proof.
  intros (pre & post & -> & ->) Hi. unfold rd. destruct (Z.leb_spec 0 i), (Z.leb_spec 0 (Z.of_nat (length pre) + i)); try lia.
  rewrite lookup_app_r by lia. rewrite lookup_app_l by lia. f_equal. lia.
Qed.

Lemma sits_rd_list buf off l i n :
  sits buf off l -> 0 <= i -> 0 <= n -> i + n <= Z.of_nat (length l) -> rd_list buf (off + i) n = rd_list l i n.
Proof.
  intros Hs Hi Hn Hl. pose proof (sits_bound _ _ _ Hs). rewrite !rd_list_in_range by lia. f_equal. destruct Hs as (pre & post & -> & ->).
  replace (Z.to_nat (Z.of_nat (length pre) + i)) with (length pre + Z.to_nat i)%nat by lia. rewrite <- drop_drop, drop_app_length.
  rewrite drop_app_le by lia. rewrite take_app_le; [done|]. rewrite length_drop. lia.
Qed.
