(* ===== verification/DiskCacheIndex.v ===== *)
(** * The disk cache's index (src/DiskCacheIndex.c) *)

From S2P Require Import Prelude.

Definition DISK_CACHE_BLOCK_SHIFT : Z := 16.
Definition DISK_CACHE_BLOCK_SIZE : Z := Z.shiftl 1 DISK_CACHE_BLOCK_SHIFT.
Definition DISK_CACHE_MAX_MB : Z := 16384.
Definition DISK_CACHE_NO_SLOT : Z := MAXULONG.
Definition DISK_CACHE_GHOST_WAYS : Z := 4.
Definition DISK_CACHE_CLOCK_REACH : Z := 256.
Definition DISK_CACHE_MAX_READ_BLOCKS : Z := 64.
Definition DISK_CACHE_GOLDEN : Z := 0x9E3779B97F4A7C15.

Record DISK_CACHE_KEY := mkKey {
  File0 : Z;
  File1 : Z;
  Size : Z;
  ModifiedTime : Z;
  Block : Z
}.

Inductive DISK_CACHE_SLOT_STATE :=
  | DiskCacheSlotFree
  | DiskCacheSlotFilling
  | DiskCacheSlotValid.

Record DISK_CACHE_SLOT := mkSlot {
  Key : DISK_CACHE_KEY;
  Next : Z;
  Pins : Z;
  State : DISK_CACHE_SLOT_STATE;
  Referenced : bool
}.

Record DISK_CACHE_INDEX := mkIndex {
  Slots : list DISK_CACHE_SLOT;
  Heads : list Z;
  Ghosts : list Z;
  SlotCount : Z;
  HashMask : Z;
  Hand : Z;
  GhostMask : Z
}.

Inductive DISK_CACHE_ADMIT :=
  | DiskCacheReserved
  | DiskCacheHeld
  | DiskCacheFirstMiss
  | DiskCacheNoVictim.

#[export] Instance DISK_CACHE_KEY_eq_dec : EqDecision DISK_CACHE_KEY.
Proof. solve_decision. Defined.
#[export] Instance DISK_CACHE_SLOT_STATE_eq_dec : EqDecision DISK_CACHE_SLOT_STATE.
Proof. solve_decision. Defined.
#[export] Instance DISK_CACHE_KEY_countable : Countable DISK_CACHE_KEY.
Proof.
  refine (inj_countable'
    (fun k => (File0 k, File1 k, Size k, ModifiedTime k, Block k))
    (fun '(a, b, c, d, e) => mkKey a b c d e) _).
  by intros [].
Defined.

(** ** Field updates *)

Definition set_Next (e : DISK_CACHE_SLOT) (n : Z) : DISK_CACHE_SLOT :=
  mkSlot (Key e) n (Pins e) (State e) (Referenced e).
Definition set_Pins (e : DISK_CACHE_SLOT) (p : Z) : DISK_CACHE_SLOT :=
  mkSlot (Key e) (Next e) p (State e) (Referenced e).
Definition set_State (e : DISK_CACHE_SLOT) (st : DISK_CACHE_SLOT_STATE) : DISK_CACHE_SLOT :=
  mkSlot (Key e) (Next e) (Pins e) st (Referenced e).
Definition set_Referenced (e : DISK_CACHE_SLOT) (r : bool) : DISK_CACHE_SLOT :=
  mkSlot (Key e) (Next e) (Pins e) (State e) r.

Definition with_Slots (ix : DISK_CACHE_INDEX) (l : list DISK_CACHE_SLOT) : DISK_CACHE_INDEX :=
  mkIndex l (Heads ix) (Ghosts ix) (SlotCount ix) (HashMask ix) (Hand ix) (GhostMask ix).
Definition with_Heads (ix : DISK_CACHE_INDEX) (l : list Z) : DISK_CACHE_INDEX :=
  mkIndex (Slots ix) l (Ghosts ix) (SlotCount ix) (HashMask ix) (Hand ix) (GhostMask ix).
Definition with_Ghosts (ix : DISK_CACHE_INDEX) (l : list Z) : DISK_CACHE_INDEX :=
  mkIndex (Slots ix) (Heads ix) l (SlotCount ix) (HashMask ix) (Hand ix) (GhostMask ix).
Definition with_Hand (ix : DISK_CACHE_INDEX) (h : Z) : DISK_CACHE_INDEX :=
  mkIndex (Slots ix) (Heads ix) (Ghosts ix) (SlotCount ix) (HashMask ix) h (GhostMask ix).

Definition put_slot (ix : DISK_CACHE_INDEX) (s : Z) (e : DISK_CACHE_SLOT) : option DISK_CACHE_INDEX :=
  l ← wr (Slots ix) s e; Some (with_Slots ix l).
Definition put_head (ix : DISK_CACHE_INDEX) (h v : Z) : option DISK_CACHE_INDEX :=
  l ← wr (Heads ix) h v; Some (with_Heads ix l).
Definition put_ghost (ix : DISK_CACHE_INDEX) (g v : Z) : option DISK_CACHE_INDEX :=
  l ← wr (Ghosts ix) g v; Some (with_Ghosts ix l).

(** ** Operations

    Each exported operation runs under the index's one spin lock, so it is a
    function from index to index. *)

Definition DiskCacheIndexMix (k : DISK_CACHE_KEY) : Z :=
  let hash := File0 k in
  let hash := u64 (Z.lxor hash (File1 k) * DISK_CACHE_GOLDEN) in
  let hash := u64 (Z.lxor hash (Size k) * DISK_CACHE_GOLDEN) in
  let hash := u64 (Z.lxor hash (ModifiedTime k) * DISK_CACHE_GOLDEN) in
  let hash := u64 (Z.lxor hash (Block k) * DISK_CACHE_GOLDEN) in
  Z.lxor hash (Z.shiftr hash 29).

(** The index in [Heads] of the chain head a mix selects (the source returns
    the head's address). *)
Definition DiskCacheIndexHead (ix : DISK_CACHE_INDEX) (mix : Z) : Z :=
  Z.land (u32 (Z.shiftr mix 32)) (HashMask ix).

(** The chain walk of [DiskCacheIndexFind]; the fuel bounds the links
    followed and running out of it is [None]. *)
Fixpoint find_walk (fuel : nat) (ix : DISK_CACHE_INDEX) (k : DISK_CACHE_KEY) (slot : Z) : option Z :=
  match fuel with
  | O => None
  | S fuel =>
      if slot =? DISK_CACHE_NO_SLOT then Some DISK_CACHE_NO_SLOT
      else e ← rd (Slots ix) slot;
           if decide (Key e = k) then Some slot else find_walk fuel ix k (Next e)
  end.

Definition chain_fuel (ix : DISK_CACHE_INDEX) : nat := S (length (Slots ix)).

Definition DiskCacheIndexFind (ix : DISK_CACHE_INDEX) (k : DISK_CACHE_KEY) (mix : Z) : option Z :=
  h ← rd (Heads ix) (DiskCacheIndexHead ix mix);
  find_walk (chain_fuel ix) ix k h.

(** A [PULONG] into the index: a chain head or a slot's [Next]. *)
Inductive LINK :=
  | LinkHead (h : Z)
  | LinkNext (s : Z).

Definition get_link (ix : DISK_CACHE_INDEX) (l : LINK) : option Z :=
  match l with
  | LinkHead h => rd (Heads ix) h
  | LinkNext s => e ← rd (Slots ix) s; Some (Next e)
  end.

Definition set_link (ix : DISK_CACHE_INDEX) (l : LINK) (v : Z) : option DISK_CACHE_INDEX :=
  match l with
  | LinkHead h => put_head ix h v
  | LinkNext s => e ← rd (Slots ix) s; put_slot ix s (set_Next e v)
  end.

Fixpoint unlink_walk (fuel : nat) (ix : DISK_CACHE_INDEX) (slot : Z) (link : LINK) : option LINK :=
  match fuel with
  | O => None
  | S fuel =>
      cur ← get_link ix link;
      if slot =? cur then Some link
      else if cur =? DISK_CACHE_NO_SLOT then None (* NT_ASSERT *)
      else unlink_walk fuel ix slot (LinkNext cur)
  end.

Definition DiskCacheIndexUnlink (ix : DISK_CACHE_INDEX) (slot : Z) : option DISK_CACHE_INDEX :=
  e ← rd (Slots ix) slot;
  link ← unlink_walk (chain_fuel ix) ix slot
           (LinkHead (DiskCacheIndexHead ix (DiskCacheIndexMix (Key e))));
  ix ← set_link ix link (Next e);
  e ← rd (Slots ix) slot;
  put_slot ix slot (set_Next e DISK_CACHE_NO_SLOT).

Fixpoint victim_walk (reach : nat) (ix : DISK_CACHE_INDEX) (fallback : Z) : option (DISK_CACHE_INDEX * Z) :=
  match reach with
  | O => Some (ix, fallback)
  | S reach =>
      let slot := Hand ix in
      e ← rd (Slots ix) slot;
      let ix := with_Hand ix (if u32 (slot + 1) =? SlotCount ix then 0 else u32 (slot + 1)) in
      if negb (Pins e =? 0) then victim_walk reach ix fallback
      else if bool_decide (State e <> DiskCacheSlotFree) && Referenced e then
        ix ← put_slot ix slot (set_Referenced e false);
        victim_walk reach ix (if DISK_CACHE_NO_SLOT =? fallback then slot else fallback)
      else Some (ix, slot)
  end.

Definition DiskCacheIndexVictim (ix : DISK_CACHE_INDEX) : option (DISK_CACHE_INDEX * Z) :=
  victim_walk (Z.to_nat (Z.min (SlotCount ix) DISK_CACHE_CLOCK_REACH)) ix DISK_CACHE_NO_SLOT.

(** ** Initialize and Cleanup

    A pool allocation can fail; its outcome is an argument, [true] for
    memory.  A freed or never allocated array is the empty list. *)

Definition zero_key : DISK_CACHE_KEY := mkKey 0 0 0 0 0.
Definition zero_index : DISK_CACHE_INDEX := mkIndex [] [] [] 0 0 0 0.

Definition max_slots : Z := Z.shiftl DISK_CACHE_MAX_MB (20 - DISK_CACHE_BLOCK_SHIFT).

Fixpoint heads_walk (fuel : nat) (heads slotCount : Z) : option Z :=
  match fuel with
  | O => None
  | S fuel => if heads <? slotCount then heads_walk fuel (u32 (Z.shiftl heads 1)) slotCount else Some heads
  end.

Definition BlorgDiskCacheIndexCleanup (ix : DISK_CACHE_INDEX) : DISK_CACHE_INDEX :=
  mkIndex [] [] [] 0 (HashMask ix) (Hand ix) (GhostMask ix).

Definition BlorgDiskCacheIndexInitialize (slotsOk headsOk ghostsOk : bool) (slotCount : Z)
    : option (NTSTATUS * DISK_CACHE_INDEX) :=
  if (slotCount =? 0) || (max_slots <? slotCount)
  then Some (STATUS_INVALID_PARAMETER, zero_index)
  else
    heads ← heads_walk 33 1 slotCount;
    let ghostSets := if 1 <? heads then heads / 2 else 1 in
    if negb slotsOk || negb headsOk || negb ghostsOk
    then Some (STATUS_INSUFFICIENT_RESOURCES, BlorgDiskCacheIndexCleanup zero_index)
    else Some (STATUS_SUCCESS,
      mkIndex
        (replicate (Z.to_nat slotCount) (mkSlot zero_key DISK_CACHE_NO_SLOT 0 DiskCacheSlotFree false))
        (replicate (Z.to_nat heads) DISK_CACHE_NO_SLOT)
        (replicate (Z.to_nat (ghostSets * DISK_CACHE_GHOST_WAYS)) 0)
        slotCount (heads - 1) 0 (ghostSets - 1)).

(** ** Pinning a read *)

Definition set_Block (k : DISK_CACHE_KEY) (b : Z) : DISK_CACHE_KEY :=
  mkKey (File0 k) (File1 k) (Size k) (ModifiedTime k) b.

(** One pass of the loop: [Pins] is a [LONG], and incrementing it past its
    maximum is undefined. *)
Definition pin_one (ix : DISK_CACHE_INDEX) (k : DISK_CACHE_KEY) : option (DISK_CACHE_INDEX * Z) :=
  slot ← DiskCacheIndexFind ix k (DiskCacheIndexMix k);
  if slot =? DISK_CACHE_NO_SLOT then Some (ix, DISK_CACHE_NO_SLOT)
  else
    e ← rd (Slots ix) slot;
    if decide (State e = DiskCacheSlotValid) then
      if Pins e <? MAXLONG
      then ix ← put_slot ix slot (set_Pins e (Pins e + 1)); Some (ix, slot)
      else None
    else Some (ix, DISK_CACHE_NO_SLOT).

(** [Slots[i]] is written in order, so the array is the list of results. *)
Fixpoint pin_walk (fuel : nat) (ix : DISK_CACHE_INDEX) (k : DISK_CACHE_KEY) (lastBlock pinned : Z)
    : option (DISK_CACHE_INDEX * list Z * Z) :=
  if lastBlock <? Block k then Some (ix, [], pinned)
  else match fuel with
  | O => None
  | S fuel =>
      '(ix, slot) ← pin_one ix k;
      '(ix, rest, pinned) ← pin_walk fuel ix (set_Block k (u64 (Block k + 1))) lastBlock
        (if slot =? DISK_CACHE_NO_SLOT then pinned else u32 (pinned + 1));
      Some (ix, slot :: rest, pinned)
  end.

Definition BlorgDiskCacheIndexPinHeld (ix : DISK_CACHE_INDEX) (k : DISK_CACHE_KEY) (lastBlock : Z)
    : option (DISK_CACHE_INDEX * list Z * Z) :=
  pin_walk (Z.to_nat (lastBlock - Block k + 1)) ix k lastBlock 0.

Definition unpin_one (ix : DISK_CACHE_INDEX) (slot : Z) (served : bool) : option DISK_CACHE_INDEX :=
  if slot =? DISK_CACHE_NO_SLOT then Some ix
  else
    e ← rd (Slots ix) slot;
    if 0 <? Pins e then (* NT_ASSERT *)
      put_slot ix slot
        (let e := set_Pins e (Pins e - 1) in if served then set_Referenced e true else e)
    else None.

Fixpoint BlorgDiskCacheIndexUnpin (ix : DISK_CACHE_INDEX) (slots : list Z) (served : bool)
    : option DISK_CACHE_INDEX :=
  match slots with
  | [] => Some ix
  | slot :: slots => ix ← unpin_one ix slot served; BlorgDiskCacheIndexUnpin ix slots served
  end.

(** ** Planning a read *)

(** [while (0 < start && NO_SLOT != Slots[start - 1]) start--] *)
Fixpoint gap_start (start : nat) (slots : list Z) : nat :=
  match start with
  | O => O
  | S p => match slots !! p with
           | Some v => if v =? DISK_CACHE_NO_SLOT then S p else gap_start p slots
           | None => S p
           end
  end.

(** The scan of one pass: [(runs, gapStart, gapLength)] from index [i]. *)
Fixpoint plan_scan (n i : nat) (slots : list Z) (acc : Z * Z * Z) : Z * Z * Z :=
  match n with
  | O => acc
  | S n =>
      let '(runs, gapStart, gapLength) := acc in
      let missing j := bool_decide (slots !! j = Some DISK_CACHE_NO_SLOT) in
      if negb (missing i) || (negb (i =? 0)%nat && missing (i - 1)%nat)
      then plan_scan n (S i) slots acc
      else
        let start := gap_start i slots in
        let shorter := negb (runs =? 0) && (Z.of_nat (i - start) <? gapLength) in
        plan_scan n (S i) slots
          (u32 (runs + 1),
           if shorter then Z.of_nat start else gapStart,
           if shorter then Z.of_nat (i - start) else gapLength)
  end.

Definition plan_pass (slots : list Z) : Z * Z * Z :=
  plan_scan (length slots) 0 slots (0, 0, MAXULONG).

(** [Slots[gapStart .. gapStart + gapLength) = DISK_CACHE_NO_SLOT] *)
Definition blank_gap (slots : list Z) (start len : nat) : list Z :=
  take start slots ++ replicate len DISK_CACHE_NO_SLOT ++ drop (start + len) slots.

Fixpoint plan_loop (fuel : nat) (ix : DISK_CACHE_INDEX) (slots : list Z) (held maxRuns : Z)
    : option (DISK_CACHE_INDEX * list Z * Z) :=
  match fuel with
  | O => None
  | S fuel =>
      let '(runs, gapStart, gapLength) := plan_pass slots in
      if runs <=? maxRuns then Some (ix, slots, held)
      else
        if gapStart + gapLength <=? Z.of_nat (length slots) then
          let start := Z.to_nat gapStart in
          let len := Z.to_nat gapLength in
          ix ← BlorgDiskCacheIndexUnpin ix (take len (drop start slots)) false;
          plan_loop fuel ix (blank_gap slots start len) (u32 (held - gapLength)) maxRuns
        else None
  end.

(** Every pass but the last joins two runs, so a pass per block is enough. *)
Definition BlorgDiskCacheIndexPlanRead (ix : DISK_CACHE_INDEX) (slots : list Z) (held maxRuns : Z)
    : option (DISK_CACHE_INDEX * list Z * Z) :=
  plan_loop (S (length slots)) ix slots held maxRuns.

(** ** Reserve and Commit *)

Fixpoint ghost_walk (n : nat) (ghosts : list Z) (base tag way : Z) : option Z :=
  match n with
  | O => Some way
  | S n => g ← rd ghosts (base + way);
           if tag =? g then Some way else ghost_walk n ghosts base tag (way + 1)
  end.

(** [RtlMoveMemory(&ghosts[1], &ghosts[0], 3 * sizeof(ULONG64)); ghosts[0] = tag] *)
Definition ghost_push (ix : DISK_CACHE_INDEX) (base tag : Z) : option DISK_CACHE_INDEX :=
  g0 ← rd (Ghosts ix) base;
  g1 ← rd (Ghosts ix) (base + 1);
  g2 ← rd (Ghosts ix) (base + 2);
  ix ← put_ghost ix (base + 1) g0;
  ix ← put_ghost ix (base + 2) g1;
  ix ← put_ghost ix (base + 3) g2;
  put_ghost ix base tag.

Definition reserve_slot (ix : DISK_CACHE_INDEX) (k : DISK_CACHE_KEY) (mix slot : Z) : option DISK_CACHE_INDEX :=
  e ← rd (Slots ix) slot;
  ix ← (if decide (State e = DiskCacheSlotFree) then Some ix else DiskCacheIndexUnlink ix slot);
  let head := DiskCacheIndexHead ix mix in
  h ← rd (Heads ix) head;
  ix ← put_slot ix slot (mkSlot k h 1 DiskCacheSlotFilling false);
  put_head ix head slot.

(** The returned slot is what the source writes through its [Slot]
    argument, and only [DiskCacheReserved] writes it. *)
Definition BlorgDiskCacheIndexReserve (ix : DISK_CACHE_INDEX) (k : DISK_CACHE_KEY)
    : option (DISK_CACHE_INDEX * DISK_CACHE_ADMIT * option Z) :=
  let mix := DiskCacheIndexMix k in
  let tag := Z.lor mix 1 in
  let base := Z.land (u32 mix) (GhostMask ix) * DISK_CACHE_GHOST_WAYS in
  way ← ghost_walk (Z.to_nat DISK_CACHE_GHOST_WAYS) (Ghosts ix) base tag 0;
  found ← DiskCacheIndexFind ix k mix;
  if negb (found =? DISK_CACHE_NO_SLOT) then Some (ix, DiskCacheHeld, None)
  else if way =? DISK_CACHE_GHOST_WAYS then
    ix ← ghost_push ix base tag; Some (ix, DiskCacheFirstMiss, None)
  else
    '(ix, slot) ← DiskCacheIndexVictim ix;
    if slot =? DISK_CACHE_NO_SLOT then Some (ix, DiskCacheNoVictim, None)
    else
      ix ← reserve_slot ix k mix slot;
      ix ← put_ghost ix (base + way) 0;
      Some (ix, DiskCacheReserved, Some slot).

Definition BlorgDiskCacheIndexCommit (ix : DISK_CACHE_INDEX) (slot : Z) (written : bool) : option DISK_CACHE_INDEX :=
  e ← rd (Slots ix) slot;
  if bool_decide (State e = DiskCacheSlotFilling) && (0 <? Pins e) then (* NT_ASSERTs *)
    ix ← (if written then put_slot ix slot (set_State e DiskCacheSlotValid)
          else ix ← DiskCacheIndexUnlink ix slot;
               e ← rd (Slots ix) slot;
               put_slot ix slot (set_State e DiskCacheSlotFree));
    e ← rd (Slots ix) slot;
    put_slot ix slot (set_Pins e (Pins e - 1))
  else None.

Arguments DiskCacheIndexMix : simpl never.
Arguments DiskCacheIndexHead : simpl never.
Arguments chain_fuel : simpl never.
Arguments max_slots : simpl never.
