(* ===== verification/DiskCacheIndexChains.v ===== *)
(** * The disk cache index: hash chains

    The representation invariant of the index's chains, and what
    [DiskCacheIndexFind], [DiskCacheIndexUnlink] and a relink do to it. *)

From S2P Require Import Prelude DiskCacheIndex.

(** A slot that holds a key, being filled or valid. *)
Definition live (ix : DISK_CACHE_INDEX) (s : Z) (e : DISK_CACHE_SLOT) : Prop :=
  rd (Slots ix) s = Some e /\ State e <> DiskCacheSlotFree.

(** The chain a key belongs to. *)
Definition bucket (ix : DISK_CACHE_INDEX) (k : DISK_CACHE_KEY) : Z :=
  DiskCacheIndexHead ix (DiskCacheIndexMix k).

(** [seg slots h l m]: following [Next] from slot [h] visits [l] and then
    reaches the link value [m]. *)
Fixpoint seg (slots : list DISK_CACHE_SLOT) (h : Z) (l : list Z) (m : Z) : Prop :=
  match l with
  | [] => h = m
  | x :: l => h = x /\ x <> DISK_CACHE_NO_SLOT /\
              exists e, rd slots x = Some e /\ seg slots (Next e) l m
  end.

(** Every chain is a terminated list of exactly the live slots whose key
    selects it, slot [ex] (mid-update) apart. *)
Definition chains (ix : DISK_CACHE_INDEX) (ex : option Z) : Prop :=
  forall h head, rd (Heads ix) h = Some head ->
  exists l, seg (Slots ix) head l DISK_CACHE_NO_SLOT /\ NoDup l /\
    forall s, s ∈ l <-> exists e, live ix s e /\ bucket ix (Key e) = h /\ ex <> Some s.

(** A slot without its link: what unlinking leaves alone. *)
Definition core (e : DISK_CACHE_SLOT) : DISK_CACHE_SLOT := set_Next e 0.

Definition same_cores (l l' : list DISK_CACHE_SLOT) : Prop :=
  length l' = length l /\ forall i, core <$> rd l' i = core <$> rd l i.

(** Everything but the slots' links and the chain heads is equal. *)
Definition relinked (ix ix' : DISK_CACHE_INDEX) : Prop :=
  same_cores (Slots ix) (Slots ix') /\ length (Heads ix') = length (Heads ix) /\
  Ghosts ix' = Ghosts ix /\ SlotCount ix' = SlotCount ix /\ HashMask ix' = HashMask ix /\
  Hand ix' = Hand ix /\ GhostMask ix' = GhostMask ix.

Section Segments.
Implicit Types (slots : list DISK_CACHE_SLOT) (l : list Z).

Lemma seg_app slots l1 : forall h l2 m,
  seg slots h (l1 ++ l2) m <-> exists n, seg slots h l1 n /\ seg slots n l2 m.
Proof.
  induction l1 as [|x l1 IH]; intros h l2 m; simpl.
  - naive_solver.
  - setoid_rewrite IH. naive_solver.
Qed.

(** A segment only depends on the links of the slots it visits. *)
Lemma seg_frame slots slots' l : forall h m,
  (forall s, s ∈ l -> Next <$> rd slots' s = Next <$> rd slots s) ->
  seg slots h l m -> seg slots' h l m.
Proof.
  induction l as [|x l IH]; intros h m Hfr; simpl; [done|].
  intros (-> & Hx & e & He & Hl). split; [done|]. split; [done|].
  pose proof (Hfr x ltac:(left)) as Hn. rewrite He in Hn.
  destruct (rd slots' x) as [e'|] eqn:He'; simplify_eq/=.
  exists e'. split; [done|]. rewrite Hn.
  apply IH; [|done]. intros. apply Hfr. by right.
Qed.

Lemma seg_in_range slots l : forall h m,
  seg slots h l m -> Forall (fun s => 0 <= s < Z.of_nat (length slots)) l.
Proof.
  induction l as [|x l IH]; intros h m; simpl; [constructor|].
  intros (_ & _ & e & He & Hl). constructor; eauto using rd_Some.
Qed.

Lemma range_NoDup_length (n : nat) l :
  NoDup l -> Forall (fun s => 0 <= s < Z.of_nat n) l -> (length l <= n)%nat.
Proof.
  intros Hnd Hr. rewrite <- (Nat2Z.id n). rewrite <- (length_seqZ 0 (Z.of_nat n)).
  apply submseteq_length, NoDup_submseteq; [done|].
  intros x Hx. rewrite Forall_forall in Hr. apply elem_of_seqZ. specialize (Hr x Hx). lia.
Qed.

Lemma seg_NoDup_length slots l h m :
  seg slots h l m -> NoDup l -> (length l <= length slots)%nat.
Proof. intros Hs Hnd. eapply range_NoDup_length; eauto using seg_in_range. Qed.
End Segments.

Lemma bucket_same ix ix' k : HashMask ix' = HashMask ix -> bucket ix' k = bucket ix k.
Proof. intros H. unfold bucket, DiskCacheIndexHead. by rewrite H. Qed.

Lemma find_walk_spec ix k l : forall h fuel,
  seg (Slots ix) h l DISK_CACHE_NO_SLOT -> (length l < fuel)%nat ->
  exists r, find_walk fuel ix k h = Some r /\
    ((r = DISK_CACHE_NO_SLOT /\
      forall s e, s ∈ l -> rd (Slots ix) s = Some e -> Key e <> k) \/
     (r <> DISK_CACHE_NO_SLOT /\ r ∈ l /\ exists e, rd (Slots ix) r = Some e /\ Key e = k)).
Proof.
  induction l as [|x l IH]; intros h [|fuel] Hs Hf; simpl in *; try lia.
  - subst. rewrite Z.eqb_refl. exists DISK_CACHE_NO_SLOT. split; [done|]. left. split; [done|].
    intros s e Hin. by apply elem_of_nil in Hin.
  - destruct Hs as (-> & Hx & e & He & Hl).
    destruct (Z.eqb_spec x DISK_CACHE_NO_SLOT); [done|]. rewrite He. simpl. case_decide as Hk.
    + exists x. split; [done|]. right. split_and!; [done|by left|eauto].
    + destruct (IH (Next e) fuel Hl ltac:(lia)) as (r & -> & Hr). exists r. split; [done|].
      destruct Hr as [[-> Hn]|(Hn & Hin & Hr)]; [left|right]; split_and!; eauto; [|by right].
      intros s e' [->|Hin]%elem_of_cons He'; [congruence|eauto].
Qed.

(** [DiskCacheIndexFind] finds the live slot of a key whenever there is one. *)
Lemma find_spec ix k :
  chains ix None -> 0 <= bucket ix k < Z.of_nat (length (Heads ix)) ->
  exists r, DiskCacheIndexFind ix k (DiskCacheIndexMix k) = Some r /\
    ((r = DISK_CACHE_NO_SLOT /\ forall s e, live ix s e -> Key e <> k) \/
     (r <> DISK_CACHE_NO_SLOT /\ exists e, live ix r e /\ Key e = k)).
Proof.
  intros Hc Hb. unfold DiskCacheIndexFind. fold (bucket ix k).
  destruct (rd_in_range _ _ Hb) as [head Hh]. rewrite Hh. simpl.
  destruct (Hc _ _ Hh) as (l & Hs & Hnd & Hl).
  destruct (find_walk_spec ix k l head (chain_fuel ix) Hs) as (r & Hr & Hcase).
  { unfold chain_fuel. apply seg_NoDup_length in Hs; [lia|done]. }
  exists r. split; [done|]. destruct Hcase as [[-> Hno]|(Hne & Hin & e & He & Hk)].
  - left. split; [done|]. intros s e Hlive Hk. apply (Hno s e); [|apply Hlive|done].
    apply Hl. exists e. subst. done.
  - right. split; [done|]. apply Hl in Hin as (e' & [He' Hst] & _). exists e. split; [|done].
    split; [done|]. congruence.
Qed.

Lemma unlink_walk_spec ix slot l1 : forall link h l2 fuel,
  get_link ix link = Some h -> seg (Slots ix) h (l1 ++ slot :: l2) DISK_CACHE_NO_SLOT ->
  slot ∉ l1 -> (length l1 < fuel)%nat ->
  unlink_walk fuel ix slot link =
    Some (match last l1 with None => link | Some p => LinkNext p end).
Proof.
  induction l1 as [|x l1 IH]; intros link h l2 [|fuel] Hg Hs Hni Hf; simpl in *; try lia;
    rewrite Hg; simpl.
  - destruct Hs as (-> & _). by rewrite Z.eqb_refl.
  - destruct Hs as (-> & Hx & e & He & Hl).
    destruct (Z.eqb_spec slot x); [subst; set_solver|].
    destruct (Z.eqb_spec x DISK_CACHE_NO_SLOT); [done|].
    rewrite (IH (LinkNext x) (Next e) l2 fuel); [|simpl; by rewrite He|done|set_solver|lia].
    destruct l1 as [|y l1]; [done|]. rewrite last_cons_cons.
    destruct (last (y :: l1)) eqn:E; [done|]. by apply last_None in E.
Qed.

Lemma core_eq e e' :
  core e' = core e <->
  Key e' = Key e /\ Pins e' = Pins e /\ State e' = State e /\ Referenced e' = Referenced e.
Proof.
  destruct e, e'; unfold core, set_Next; simpl. split; [by intros [= -> -> -> ->]|].
  by intros (-> & -> & -> & ->).
Qed.

Lemma same_cores_live ix ix' s e' :
  same_cores (Slots ix) (Slots ix') -> live ix' s e' ->
  exists e, live ix s e /\ core e' = core e.
Proof.
  intros [_ Hc] [He' Hst]. specialize (Hc s). rewrite He' in Hc. simpl in Hc.
  destruct (rd (Slots ix) s) as [e|] eqn:He; [|done]. apply (inj Some) in Hc. exists e.
  split; [|done]. split; [done|]. apply core_eq in Hc as (_ & _ & <- & _). done.
Qed.

Lemma same_cores_sym l l' : same_cores l l' -> same_cores l' l.
Proof. intros [??]. split; [done|]. by intros. Qed.

(** The chain membership of a slot survives any change of links. *)
Lemma same_cores_member ix ix' ex h s :
  same_cores (Slots ix) (Slots ix') -> HashMask ix' = HashMask ix ->
  (exists e, live ix' s e /\ bucket ix' (Key e) = h /\ ex <> Some s) <->
  (exists e, live ix s e /\ bucket ix (Key e) = h /\ ex <> Some s).
Proof.
  intros Hc Hm. split.
  - intros (e' & Hl & Hb & Hx). destruct (same_cores_live _ _ _ _ Hc Hl) as (e & Hl' & Hk).
    exists e. split_and!; [done| |done]. rewrite <- Hb, (bucket_same ix ix') by done.
    f_equal. by apply core_eq in Hk as [-> _].
  - intros (e & Hl & Hb & Hx).
    destruct (same_cores_live ix' ix s e (same_cores_sym _ _ Hc) Hl) as (e' & Hl' & Hk).
    exists e'. split_and!; [done| |done]. rewrite <- Hb, (bucket_same ix ix') by done.
    f_equal. by apply core_eq in Hk as [-> _].
Qed.

Lemma same_cores_set_Next l l' s e n :
  rd l s = Some e -> wr l s (set_Next e n) = Some l' -> same_cores l l'.
Proof.
  intros He Hw. split; [eauto using wr_length|]. intros i. rewrite (rd_wr _ _ _ _ _ Hw).
  case_decide; [subst; by rewrite He|done].
Qed.

Lemma same_cores_trans l1 l2 l3 : same_cores l1 l2 -> same_cores l2 l3 -> same_cores l1 l3.
Proof. intros [L1 C1] [L2 C2]. split; [congruence|]. intros i. by rewrite C2, C1. Qed.

(** What the two writes of an unlink leave, in terms of the links. *)
Definition spliced (ix ix' : DISK_CACHE_INDEX) (slot : Z) (e : DISK_CACHE_SLOT) (h : Z) (l1 : list Z) : Prop :=
  rd (Slots ix') slot = Some (set_Next e DISK_CACHE_NO_SLOT) /\
  (forall i, i <> slot -> Next <$> rd (Slots ix') i =
     if decide (last l1 = Some i) then (fun _ => Next e) <$> rd (Slots ix) i else Next <$> rd (Slots ix) i) /\
  (forall i, rd (Heads ix') i =
     if decide (l1 = [] /\ i = h) then (fun _ => Next e) <$> rd (Heads ix) i else rd (Heads ix) i).

Lemma set_link_spliced ix slot e h head l1 :
  rd (Slots ix) slot = Some e -> rd (Heads ix) h = Some head -> slot ∉ l1 ->
  (forall p, last l1 = Some p -> exists ep, rd (Slots ix) p = Some ep) ->
  exists ix', (ix1 ← set_link ix (match last l1 with None => LinkHead h | Some p => LinkNext p end) (Next e);
               e1 ← rd (Slots ix1) slot;
               put_slot ix1 slot (set_Next e1 DISK_CACHE_NO_SLOT)) = Some ix' /\
    spliced ix ix' slot e h l1 /\ relinked ix ix'.
Proof.
  intros He Hh Hni Hlast. destruct (last l1) as [p|] eqn:Ep; simpl.
  - destruct (Hlast p eq_refl) as [ep Hp]. rewrite Hp. simpl.
    assert (p <> slot) as Hne.
    { intros ->. apply Hni. rewrite last_Some in Ep. destruct Ep as [? ->]. set_solver. }
    unfold put_slot. destruct (wr_exists _ p (set_Next ep (Next e)) _ Hp) as [m1 W1].
    rewrite W1. simpl. pose proof (rd_wr_ne _ _ _ _ _ W1 Hne) as He1. rewrite He in He1.
    rewrite He1. simpl. destruct (wr_exists _ slot (set_Next e DISK_CACHE_NO_SLOT) _ He1) as [m2 W2].
    rewrite W2. simpl. eexists. split; [done|]. split; [split_and!|]; simpl.
    + eauto using rd_wr_eq.
    + intros i Hi. rewrite (rd_wr_ne _ _ _ _ _ W2), (rd_wr _ _ _ _ _ W1) by done.
      destruct (decide (p = i)) as [->|]; [rewrite Hp, decide_True by done; done|].
      rewrite decide_False by congruence. done.
    + intros i. rewrite decide_False; [done|]. intros [-> _]. done.
    + split_and!; try done. eapply same_cores_trans; eauto using same_cores_set_Next.
  - apply last_None in Ep as ->. unfold put_head, put_slot.
    destruct (wr_exists _ h (Next e) _ Hh) as [m1 W1]. rewrite W1. simpl. rewrite He. simpl.
    destruct (wr_exists _ slot (set_Next e DISK_CACHE_NO_SLOT) _ He) as [m2 W2].
    rewrite W2. simpl. eexists. split; [done|]. split; [split_and!|]; simpl.
    + eauto using rd_wr_eq.
    + intros i Hi. rewrite (rd_wr_ne _ _ _ _ _ W2) by done. done.
    + intros i. rewrite (rd_wr _ _ _ _ _ W1). destruct (decide (h = i)) as [->|].
      * rewrite decide_True by done. by rewrite Hh.
      * rewrite decide_False by naive_solver. done.
    + split_and!; eauto using same_cores_set_Next, wr_length.
Qed.

Lemma seg_spliced ix ix' slot e h l1 l2 head head' :
  spliced ix ix' slot e h l1 -> NoDup (l1 ++ slot :: l2) ->
  rd (Slots ix) slot = Some e -> rd (Heads ix) h = Some head -> rd (Heads ix') h = Some head' ->
  seg (Slots ix) head (l1 ++ slot :: l2) DISK_CACHE_NO_SLOT ->
  seg (Slots ix') head' (l1 ++ l2) DISK_CACHE_NO_SLOT.
Proof.
  intros (Hs & Hn & Hh) Hnd He Hhd Hhd' Hseg. rewrite Hh in Hhd'.
  apply NoDup_app in Hnd as (Hnd1 & Hdis & Hnd2). apply NoDup_cons in Hnd2 as [Hni2 Hnd2].
  apply seg_app in Hseg as (n & Hseg1 & -> & Hno & e0 & He0 & Hseg2). simplify_eq.
  assert (forall s, s ∈ l2 -> last l1 <> Some s) as Hl2.
  { intros s Hin2 [l' ->]%last_Some. apply (Hdis s); [set_solver|by right]. }
  assert (seg (Slots ix') (Next e) l2 DISK_CACHE_NO_SLOT) as Htail.
  { eapply seg_frame; [|done]. intros s Hin.
    rewrite Hn, decide_False; eauto. intros ->. done. }
  destruct (last l1) as [p|] eqn:Ep.
  - apply last_Some in Ep as [l0 ->]. rewrite decide_False in Hhd' by (intros [[]%app_nil _]; done).
    simplify_eq. rewrite <- app_assoc. apply seg_app in Hseg1 as (n & Hseg0 & -> & Hpno & ep & Hp & Hslot).
    assert (p <> slot) as Hpne by (intros ->; apply (Hdis slot); set_solver).
    assert (p ∉ l0) as Hp0 by (apply NoDup_app in Hnd1; set_solver).
    apply seg_app. exists p. split.
    + eapply seg_frame; [|done]. intros s Hin.
      assert (s <> slot) by (intros ->; apply (Hdis slot); set_solver).
      rewrite Hn, decide_False by (done || congruence). done.
    + split; [done|]. split; [done|]. specialize (Hn p Hpne). rewrite decide_True in Hn by done.
      rewrite Hp in Hn. destruct (rd (Slots ix') p) as [ep'|]; [|done].
      exists ep'. split; [done|]. apply (inj Some) in Hn. by rewrite Hn.
  - apply last_None in Ep as ->. rewrite decide_True, Hhd in Hhd' by done. simplify_eq/=. done.
Qed.

(** Unlinking a live slot takes it out of its chain and touches nothing but
    links: no assertion fails and the walk ends within its fuel. *)
Lemma unlink_spec ix slot e :
  chains ix None -> live ix slot e ->
  0 <= bucket ix (Key e) < Z.of_nat (length (Heads ix)) ->
  exists ix', DiskCacheIndexUnlink ix slot = Some ix' /\ chains ix' (Some slot) /\
    relinked ix ix' /\ rd (Slots ix') slot = Some (set_Next e DISK_CACHE_NO_SLOT).
Proof.
  intros Hc Hlive Hb. destruct (rd_in_range _ _ Hb) as [head Hh].
  destruct (Hc _ _ Hh) as (l & Hseg & Hnd & Hmem).
  assert (slot ∈ l) as Hin by (apply Hmem; exists e; done).
  apply list_elem_of_split in Hin as (l1 & l2 & ->). destruct Hlive as [He Hst].
  unfold DiskCacheIndexUnlink. rewrite He. cbn [mbind option_bind]. fold (bucket ix (Key e)).
  assert (slot ∉ l1) as Hni by (apply NoDup_app in Hnd; set_solver).
  assert (length l1 < chain_fuel ix)%nat as Hfuel.
  { apply seg_NoDup_length in Hseg; [|done]. rewrite length_app in Hseg. simpl in Hseg.
    unfold chain_fuel. lia. }
  rewrite (unlink_walk_spec ix slot l1 (LinkHead (bucket ix (Key e))) head l2 _ Hh Hseg Hni Hfuel).
  simpl. destruct (set_link_spliced ix slot e (bucket ix (Key e)) head l1) as (ix' & -> & Hsp & Hre);
    [done..| |].
  { intros p [l0 ->]%last_Some. apply seg_in_range in Hseg. apply rd_in_range.
    rewrite Forall_forall in Hseg. apply Hseg. set_solver. }
  exists ix'. split; [done|]. split; [|split; [done|apply Hsp]].
  destruct Hre as (Hcores & Hlen & _ & _ & Hmask & _).
  intros h' head' Hh'. destruct (decide (h' = bucket ix (Key e))) as [->|Hne].
  - exists (l1 ++ l2). split; [eauto using seg_spliced|].
    apply NoDup_app in Hnd as (? & Hdis & [Hni2 ?]%NoDup_cons).
    split; [apply NoDup_app; set_solver|]. intros s. rewrite same_cores_member by done.
    specialize (Hmem s). rewrite elem_of_app in *. rewrite elem_of_cons in Hmem.
    destruct (decide (s = slot)) as [->|]; [naive_solver|]. naive_solver.
  - pose proof Hh' as Hh0. destruct Hsp as (Hs & Hn & Hhd). rewrite Hhd, decide_False in Hh0 by naive_solver.
    destruct (Hc _ _ Hh0) as (l' & Hseg' & Hnd' & Hmem').
    assert (slot ∉ l') as Hni'. { intros (e0 & [? ?] & ? & _)%Hmem'. naive_solver. }
    exists l'. split; [|split; [done|]].
    + eapply seg_frame; [|done]. intros s Hin. rewrite Hn by (intros ->; done).
      rewrite decide_False; [done|]. intros Hl.
      apply last_Some in Hl as [l0 ->]. apply Hmem' in Hin as (e1 & [? ?] & Hb1 & _).
      destruct (proj1 (Hmem s) ltac:(set_solver)) as (e2 & [? ?] & Hb2 & _). naive_solver.
    + intros s. rewrite same_cores_member, Hmem' by done. split.
      * intros (e0 & ? & ? & ?). exists e0. split_and!; [done..|].
        intros [= <-]. apply Hni', Hmem'. eauto.
      * intros (e0 & ? & ? & ?). eauto.
Qed.

(** Writing a slot that is in no chain. *)
Lemma chains_put_excluded ix ix' s e :
  chains ix (Some s) -> put_slot ix s e = Some ix' -> chains ix' (Some s).
Proof.
  unfold put_slot. intros Hc Hp. apply bind_Some in Hp as (m & H & [= <-]). intros h head Hh. simpl in *.
  destruct (Hc _ _ Hh) as (l & Hseg & Hnd & Hmem). exists l. split; [|split; [done|]].
  - eapply seg_frame; [|done]. intros x Hx. rewrite (rd_wr_ne _ _ _ _ _ H); [done|].
    intros ->. apply Hmem in Hx as (? & _ & _ & ?). done.
  - intros x. rewrite Hmem. unfold live. simpl. split; intros (e0 & [Hr Hst] & Hb & Hx); exists e0;
      (split_and!; [|done|done|done]); revert Hr; rewrite (rd_wr_ne _ _ _ _ _ H) by congruence; done.
Qed.

(** Pushing the excluded slot on its chain completes the chains. *)
Lemma chains_link ix ix' s e head :
  chains ix (Some s) -> live ix s e -> s <> DISK_CACHE_NO_SLOT ->
  rd (Heads ix) (bucket ix (Key e)) = Some head -> Next e = head ->
  put_head ix (bucket ix (Key e)) s = Some ix' -> chains ix' None.
Proof.
  unfold put_head. intros Hc Hlive Hno Hh Hn Hp. apply bind_Some in Hp as (m & H & [= <-]). intros h head' Hh'. simpl in *.
  rewrite (rd_wr _ _ _ _ _ H) in Hh'. unfold live, bucket in *. simpl. case_decide; simplify_eq.
  - destruct (Hc _ _ Hh) as (l & Hseg & Hnd & Hmem). exists (head' :: l). split_and!.
    + simpl. split_and!; [done..|]. exists e. split; [apply Hlive|done].
    + constructor; [|done]. intros (? & _ & _ & ?)%Hmem. done.
    + intros x. rewrite elem_of_cons, Hmem. split.
      * intros [->|(e0 & ? & ? & ?)]; eauto.
      * intros (e0 & ? & ? & _). destruct (decide (x = head')); [by left|right]. exists e0.
        split_and!; [done..|congruence].
  - destruct (Hc _ _ Hh') as (l & Hseg & Hnd & Hmem). exists l. split_and!; [done..|].
    intros x. rewrite Hmem. split; [naive_solver|].
    intros (e0 & ? & ? & _). exists e0. split_and!; [done..|]. intros [= ->].
    destruct Hlive, H2. naive_solver.
Qed.

(** A slot that is not live is in no chain either way. *)
Lemma chains_exclude ix s : chains ix None -> (forall e, ~ live ix s e) -> chains ix (Some s).
Proof.
  intros Hc Hn h head Hh. destruct (Hc _ _ Hh) as (l & ? & ? & Hmem). exists l.
  split_and!; [done..|]. intros x. rewrite Hmem. split; intros (e & ? & ? & ?); exists e; split_and!;
    [done..| |done|done|done]. intros [= ->]. by apply (Hn e).
Qed.

Lemma chains_include ix s : chains ix (Some s) -> (forall e, ~ live ix s e) -> chains ix None.
Proof.
  intros Hc Hn h head Hh. destruct (Hc _ _ Hh) as (l & ? & ? & Hmem). exists l.
  split_and!; [done..|]. intros x. rewrite Hmem. split; intros (e & ? & ? & ?); exists e; split_and!;
    [done..| |done|done|]; [done|]. intros [= ->]. by apply (Hn e).
Qed.

(** Rewriting a slot's pins, mark or state, not its key, link or liveness. *)
Lemma chains_mark ix ix' s e e' ex :
  chains ix ex -> rd (Slots ix) s = Some e -> Key e' = Key e -> Next e' = Next e ->
  (State e' = DiskCacheSlotFree <-> State e = DiskCacheSlotFree) ->
  put_slot ix s e' = Some ix' -> chains ix' ex.
Proof.
  unfold put_slot. intros Hc He Hk Hn Hst Hp. apply bind_Some in Hp as (m & H & [= <-]). intros h head Hh. simpl in *.
  destruct (Hc _ _ Hh) as (l & Hseg & Hnd & Hmem). exists l. split; [|split; [done|]].
  - eapply seg_frame; [|done]. intros i _. rewrite (rd_wr _ _ _ _ _ H).
    case_decide; [subst; by rewrite He; simpl; f_equal|done].
  - intros i. rewrite Hmem. unfold live, bucket. simpl. rewrite (rd_wr _ _ _ _ _ H).
    case_decide; subst; [rewrite He|done].
    split; intros (e0 & [[= <-] Hs0] & Hb0 & Hx0); [exists e'|exists e]; split_and!;
      first [done|by rewrite Hk|by rewrite <- Hk|by rewrite Hst|by rewrite <- Hst].
Qed.
