(* ===== verification/DiskCacheIndexOps.v ===== *)
(** * The disk cache index: invariant and operations

    The index invariant [wf] and, for every operation of
    src/DiskCacheIndex.c, that it succeeds on an index that satisfies it
    (no access out of range, no failed assertion, every loop ends), keeps
    it, and does what its contract says. *)

From S2P Require Import Prelude DiskCacheIndex DiskCacheIndexChains.

(** A free slot is unpinned and unlinked; a filling one carries exactly the
    pin of its fill; a valid one the pins of its readers. *)
Definition pins_ok (e : DISK_CACHE_SLOT) : Prop :=
  match State e with
  | DiskCacheSlotFree => Pins e = 0
  | DiskCacheSlotFilling => Pins e = 1
  | DiskCacheSlotValid => 0 <= Pins e
  end.

Record wf (ix : DISK_CACHE_INDEX) : Prop := {
  wf_count : 0 < SlotCount ix <= max_slots;
  wf_slots : Z.of_nat (length (Slots ix)) = SlotCount ix;
  wf_heads : exists n, 0 <= n /\ HashMask ix = Z.ones n /\ Z.of_nat (length (Heads ix)) = 2 ^ n;
  wf_ghosts : exists n, 0 <= n /\ GhostMask ix = Z.ones n /\
                Z.of_nat (length (Ghosts ix)) = 2 ^ n * DISK_CACHE_GHOST_WAYS;
  wf_hand : 0 <= Hand ix < SlotCount ix;
  wf_pins : forall s e, rd (Slots ix) s = Some e -> pins_ok e;
  wf_keys : forall s1 s2 e1 e2, live ix s1 e1 -> live ix s2 e2 -> Key e1 = Key e2 -> s1 = s2;
  wf_chains : chains ix None
}.

Lemma max_slots_val : max_slots = 262144.
Proof. reflexivity. Qed.

Lemma slot_not_NO ix s e : wf ix -> rd (Slots ix) s = Some e -> s <> DISK_CACHE_NO_SLOT.
Proof.
  intros Hwf Hs%rd_Some ->. destruct Hwf as [Hc Hl _ _ _ _ _ _]. rewrite Hl in Hs.
  rewrite max_slots_val in Hc. unfold DISK_CACHE_NO_SLOT, MAXULONG in Hs. lia.
Qed.

Lemma bucket_range ix k : wf ix -> 0 <= bucket ix k < Z.of_nat (length (Heads ix)).
Proof.
  intros [_ _ (n & Hn & Hm & Hl) _ _ _ _ _]. unfold bucket, DiskCacheIndexHead.
  rewrite Hm, Z.land_ones, Hl by done. apply Z.mod_pos_bound. by apply Z.pow_pos_nonneg.
Qed.

Lemma wf_find ix k :
  wf ix -> exists r, DiskCacheIndexFind ix k (DiskCacheIndexMix k) = Some r /\
    ((r = DISK_CACHE_NO_SLOT /\ forall s e, live ix s e -> Key e <> k) \/
     (r <> DISK_CACHE_NO_SLOT /\ exists e, live ix r e /\ Key e = k)).
Proof. intros Hwf. apply find_spec; [apply Hwf|by apply bucket_range]. Qed.

(** ** Changes of a slot's pins, mark or state *)

Definition touched (ix ix' : DISK_CACHE_INDEX) (s : Z) (e' : DISK_CACHE_SLOT) : Prop :=
  rd (Slots ix') s = Some e' /\ (forall i, i <> s -> rd (Slots ix') i = rd (Slots ix) i) /\
  length (Slots ix') = length (Slots ix) /\
  Heads ix' = Heads ix /\ Ghosts ix' = Ghosts ix /\ SlotCount ix' = SlotCount ix /\
  HashMask ix' = HashMask ix /\ Hand ix' = Hand ix /\ GhostMask ix' = GhostMask ix.

Lemma put_slot_touched ix ix' s e' : put_slot ix s e' = Some ix' -> touched ix ix' s e'.
Proof.
  unfold put_slot. intros (m & Hm & [= <-])%bind_Some. unfold touched; simpl.
  split_and!; eauto using rd_wr_eq, rd_wr_ne, wr_length.
Qed.

Lemma put_slot_ok ix s e e' : rd (Slots ix) s = Some e -> exists ix', put_slot ix s e' = Some ix'.
Proof. intros He. unfold put_slot. destruct (wr_exists _ s e' _ He) as [m ->]. simpl. eauto. Qed.

Lemma wf_mark ix ix' s e e' :
  wf ix -> rd (Slots ix) s = Some e -> Key e' = Key e -> Next e' = Next e ->
  (State e' = DiskCacheSlotFree <-> State e = DiskCacheSlotFree) -> pins_ok e' ->
  put_slot ix s e' = Some ix' -> wf ix'.
Proof.
  intros Hwf He Hk Hn Hst Hp Hput.
  pose proof (chains_mark _ _ _ _ _ _ (wf_chains _ Hwf) He Hk Hn Hst Hput) as Hch.
  apply put_slot_touched in Hput as (Hs & Ho & Hl & Hh & Hg & Hc & Hm & Hd & Hgm).
  destruct Hwf as [W1 W2 W3 W4 W5 W6 W7 W8].
  split; rewrite ?Hc, ?Hm, ?Hd, ?Hgm, ?Hh, ?Hg, ?Hl; try done.
  - intros i e0. destruct (decide (i = s)) as [->|]; [rewrite Hs; by intros [= <-]|].
    rewrite Ho by done. apply W6.
  - assert (forall i ei, live ix' i ei -> exists e0, live ix i e0 /\ Key e0 = Key ei) as Hback.
    { intros i ei [Hi Hsi]. destruct (decide (i = s)) as [->|].
      - rewrite Hs in Hi. injection Hi as <-. exists e. unfold live. rewrite <- Hst. done.
      - rewrite Ho in Hi by done. by exists ei. }
    intros s1 s2 e1 e2 H1 H2 Hkk. destruct (Hback _ _ H1) as (? & ? & ?), (Hback _ _ H2) as (? & ? & ?).
    eapply W7; eauto. congruence.
Qed.

Lemma wf_with_Hand ix h : wf ix -> 0 <= h < SlotCount ix -> wf (with_Hand ix h).
Proof. intros [W1 W2 W3 W4 W5 W6 W7 W8] Hh. by split. Qed.

(** ** The clock *)

Definition next_slot (ix : DISK_CACHE_INDEX) (slot : Z) : Z :=
  if slot + 1 =? SlotCount ix then 0 else slot + 1.

Lemma next_slot_u32 ix slot :
  wf ix -> 0 <= slot < SlotCount ix ->
  (if u32 (slot + 1) =? SlotCount ix then 0 else u32 (slot + 1)) = next_slot ix slot.
Proof.
  intros [[_ Hc] _ _ _ _ _ _ _] Hs. rewrite max_slots_val in Hc. by rewrite u32_id by lia.
Qed.

Lemma next_slot_range ix slot :
  0 <= slot < SlotCount ix -> 0 <= next_slot ix slot < SlotCount ix.
Proof. unfold next_slot. intros. bool_cases; lia. Qed.

(** The slots a sweep of [n] looks at, in the order it looks at them. *)
Fixpoint sweep (n : nat) (ix : DISK_CACHE_INDEX) (hand : Z) : list Z :=
  match n with
  | O => []
  | S n => hand :: sweep n ix (next_slot ix hand)
  end.

Definition unpinned (ix : DISK_CACHE_INDEX) (s : Z) : bool :=
  match rd (Slots ix) s with Some e => Pins e =? 0 | None => false end.
Definition unmarked (ix : DISK_CACHE_INDEX) (s : Z) : bool :=
  match rd (Slots ix) s with
  | Some e => bool_decide (State e = DiskCacheSlotFree) || negb (Referenced e)
  | None => false
  end.

(** What the comment over [DiskCacheIndexVictim] promises: the first slot in
    reach that is unpinned and free or unmarked, else the first unpinned. *)
Definition victim_spec (ix : DISK_CACHE_INDEX) : option Z :=
  let reach := sweep (Z.to_nat (Z.min (SlotCount ix) DISK_CACHE_CLOCK_REACH)) ix (Hand ix) in
  match List.find (fun s => unpinned ix s && unmarked ix s) reach with
  | Some s => Some s
  | None => List.find (unpinned ix) reach
  end.

Lemma next_slot_mod ix h : 0 <= h < SlotCount ix -> next_slot ix h = (h + 1) mod SlotCount ix.
Proof.
  intros Hh. unfold next_slot. destruct (Z.eqb_spec (h + 1) (SlotCount ix)) as [->|].
  - by rewrite Z.mod_same by lia.
  - by rewrite Z.mod_small by lia.
Qed.

Lemma sweep_elem n ix : forall h x,
  0 <= h < SlotCount ix -> x ∈ sweep n ix h ->
  exists j, 0 <= j < Z.of_nat n /\ x = (h + j) mod SlotCount ix.
Proof.
  induction n as [|n IH]; intros h x Hh; simpl; [by intros ?%elem_of_nil|].
  intros [->|Hx]%elem_of_cons.
  - exists 0. rewrite Z.add_0_r, Z.mod_small by lia. lia.
  - destruct (IH _ _ (next_slot_range _ _ Hh) Hx) as (j & Hj & ->). exists (j + 1).
    split; [lia|]. rewrite next_slot_mod, Z.add_mod_idemp_l by lia. f_equal. lia.
Qed.

Lemma sweep_NoDup n ix : forall h,
  0 <= h < SlotCount ix -> Z.of_nat n <= SlotCount ix -> NoDup (sweep n ix h).
Proof.
  induction n as [|n IH]; intros h Hh Hn; simpl; [constructor|]. constructor.
  - intros (j & Hj & Hx)%sweep_elem; [|by apply next_slot_range].
    rewrite next_slot_mod, Z.add_mod_idemp_l in Hx by lia.
    destruct (Z.lt_ge_cases (h + 1 + j) (SlotCount ix)).
    + rewrite Z.mod_small in Hx by lia. lia.
    + rewrite <- (Z.mod_add _ (-1)), Z.mod_small in Hx by lia. lia.
  - apply IH; [by apply next_slot_range|lia].
Qed.

Lemma sweep_same n ix ix' : SlotCount ix' = SlotCount ix -> forall h, sweep n ix' h = sweep n ix h.
Proof.
  intros Hc. induction n as [|n IH]; intros h; simpl; [done|]. f_equal. rewrite IH. f_equal.
  unfold next_slot. by rewrite Hc.
Qed.

Lemma find_agree {A} (f g : A -> bool) l :
  (forall x, x ∈ l -> f x = g x) -> List.find f l = List.find g l.
Proof.
  induction l as [|x l IH]; intros H; simpl; [done|]. rewrite (H x) by left.
  destruct (g x); [done|]. apply IH. intros. apply H. by right.
Qed.

(** All a sweep changes is the hand and the marks of unpinned live slots. *)
Definition swept (ix ix' : DISK_CACHE_INDEX) : Prop :=
  length (Slots ix') = length (Slots ix) /\
  (forall i, rd (Slots ix') i = rd (Slots ix) i \/
     exists e, rd (Slots ix) i = Some e /\ Pins e = 0 /\ rd (Slots ix') i = Some (set_Referenced e false)) /\
  Heads ix' = Heads ix /\ Ghosts ix' = Ghosts ix /\ SlotCount ix' = SlotCount ix /\
  HashMask ix' = HashMask ix /\ GhostMask ix' = GhostMask ix.

Lemma swept_refl ix : swept ix ix.
Proof. split_and!; try done. by left. Qed.

Lemma swept_trans ix1 ix2 ix3 : swept ix1 ix2 -> swept ix2 ix3 -> swept ix1 ix3.
Proof.
  intros (A1 & A2 & A3 & A4 & A5 & A6 & A7) (B1 & B2 & B3 & B4 & B5 & B6 & B7).
  split_and!; try congruence. intros i. destruct (A2 i) as [E|(e & E1 & Hp & E2)], (B2 i) as [F|(e' & F1 & Hp' & F2)].
  - left. congruence.
  - right. exists e'. split_and!; congruence.
  - right. exists e. split_and!; congruence.
  - right. exists e. rewrite E2 in F1. injection F1 as <-. split_and!; done.
Qed.

Lemma swept_put ix ix' s e :
  rd (Slots ix) s = Some e -> Pins e = 0 -> put_slot ix s (set_Referenced e false) = Some ix' -> swept ix ix'.
Proof.
  intros He Hp (Hs & Ho & Hl & Hh & Hg & Hc & Hm & _ & Hgm)%put_slot_touched.
  split_and!; try done. intros i. destruct (decide (i = s)) as [->|]; [right; eauto|left; auto].
Qed.

Definition sweep_result (ix : DISK_CACHE_INDEX) (l : list Z) (fallback : Z) : Z :=
  match List.find (fun s => unpinned ix s && unmarked ix s) l with
  | Some s => s
  | None => if DISK_CACHE_NO_SLOT =? fallback
            then default DISK_CACHE_NO_SLOT (List.find (unpinned ix) l) else fallback
  end.

Lemma sweep_result_frame ix ix' l fb :
  (forall s, s ∈ l -> rd (Slots ix') s = rd (Slots ix) s) -> sweep_result ix' l fb = sweep_result ix l fb.
Proof.
  intros H. unfold sweep_result.
  rewrite (find_agree (fun s => unpinned ix' s && unmarked ix' s) (fun s => unpinned ix s && unmarked ix s)).
  2:{ intros x Hx. unfold unpinned, unmarked. by rewrite H. }
  rewrite (find_agree (unpinned ix') (unpinned ix) l); [done|].
  intros x Hx. unfold unpinned. by rewrite H.
Qed.

Lemma victim_walk_spec n : forall ix fb,
  wf ix -> Z.of_nat n <= SlotCount ix ->
  exists ix', victim_walk n ix fb = Some (ix', sweep_result ix (sweep n ix (Hand ix)) fb) /\
    wf ix' /\ swept ix ix'.
Proof.
  induction n as [|n IH]; intros ix fb Hwf Hn.
  { exists ix. unfold sweep_result. cbn [sweep List.find victim_walk]. split; [|auto using swept_refl].
    destruct (Z.eqb_spec DISK_CACHE_NO_SLOT fb); by subst. }
  pose proof (wf_hand _ Hwf) as Hh. pose proof (sweep_NoDup (S n) ix (Hand ix) Hh Hn) as Hnd.
  cbn [sweep] in Hnd. apply NoDup_cons in Hnd as [Hni Hnd].
  destruct (rd_in_range (Slots ix) (Hand ix)) as [e He]; [by rewrite (wf_slots _ Hwf)|].
  cbn [victim_walk sweep]. rewrite He. cbn [mbind option_bind].
  rewrite next_slot_u32 by done. set (ix1 := with_Hand ix (next_slot ix (Hand ix))).
  assert (wf ix1) as Hwf1 by (apply wf_with_Hand; auto using next_slot_range).
  unfold sweep_result at 1. cbn [List.find]. unfold unpinned at 1 3, unmarked at 1. rewrite He.
  destruct (Z.eqb_spec (Pins e) 0) as [Hp|Hp]; cbn [negb andb].
  2:{ destruct (IH ix1 fb Hwf1 ltac:(simpl; lia)) as (ix' & -> & Hw & Hs).
      exists ix'. split; [|split; [done|exact Hs]]. by rewrite (sweep_same n ix ix1). }
  destruct (decide (State e = DiskCacheSlotFree)) as [Hst|Hst].
  { rewrite bool_decide_eq_false_2, bool_decide_eq_true_2 by auto. simpl.
    exists ix1. split; [done|split; [done|exact (swept_refl ix)]]. }
  rewrite bool_decide_eq_true_2, bool_decide_eq_false_2 by auto. cbn [andb orb].
  destruct (Referenced e) eqn:Hr; cbn [negb].
  2:{ exists ix1. split; [done|split; [done|exact (swept_refl ix)]]. }
  destruct (put_slot_ok ix1 (Hand ix) e (set_Referenced e false) He) as [ix2 Hput]. rewrite Hput.
  cbn [mbind option_bind].
  assert (wf ix2) as Hwf2.
  { apply (wf_mark ix1 ix2 (Hand ix) e (set_Referenced e false)); try done.
    exact (wf_pins _ Hwf _ _ He). }
  pose proof (swept_put ix1 ix2 _ e He Hp Hput) as Hsw.
  apply put_slot_touched in Hput as (Hs2 & Ho2 & _ & _ & _ & Hc2 & _ & Hd2 & _).
  destruct (IH ix2 (if DISK_CACHE_NO_SLOT =? fb then Hand ix else fb) Hwf2 ltac:(rewrite Hc2; simpl; lia))
    as (ix' & -> & Hw & Hs).
  exists ix'. split; [|split; [done|exact (swept_trans ix1 ix2 ix' Hsw Hs)]]. do 2 f_equal.
  rewrite Hd2. rewrite (sweep_same n ix ix2) by done. simpl.
  rewrite (sweep_result_frame ix ix2).
  2:{ intros s Hin. rewrite Ho2; [done|]. intros ->. done. }
  unfold sweep_result. destruct (List.find _ _); [done|].
  assert (DISK_CACHE_NO_SLOT <> Hand ix) by (symmetry; eauto using slot_not_NO).
  destruct (Z.eqb_spec DISK_CACHE_NO_SLOT fb).
  - by rewrite (proj2 (Z.eqb_neq DISK_CACHE_NO_SLOT (Hand ix))) by done.
  - by rewrite (proj2 (Z.eqb_neq DISK_CACHE_NO_SLOT fb)) by done.
Qed.

Lemma victim_refines ix :
  wf ix ->
  exists ix', DiskCacheIndexVictim ix = Some (ix', default DISK_CACHE_NO_SLOT (victim_spec ix)) /\
    wf ix' /\ swept ix ix'.
Proof.
  intros Hwf. unfold DiskCacheIndexVictim, victim_spec.
  destruct (victim_walk_spec (Z.to_nat (Z.min (SlotCount ix) DISK_CACHE_CLOCK_REACH)) ix DISK_CACHE_NO_SLOT)
    as (ix' & -> & Hw & Hs); [done| |].
  { pose proof (wf_count _ Hwf). unfold DISK_CACHE_CLOCK_REACH. lia. }
  exists ix'. split; [|done]. unfold sweep_result. rewrite Z.eqb_refl.
  by destruct (List.find _ _).
Qed.

Lemma victim_spec_unpinned ix s :
  victim_spec ix = Some s -> exists e, rd (Slots ix) s = Some e /\ Pins e = 0.
Proof.
  unfold victim_spec. intros H.
  assert (unpinned ix s = true) as Hu.
  { destruct (List.find (fun s => unpinned ix s && unmarked ix s) _) as [s'|] eqn:E; simplify_eq.
    - apply List.find_some in E as [_ E]. by apply andb_prop in E as [E _].
    - by apply List.find_some in H as [_ H]. }
  unfold unpinned in Hu. destruct (rd (Slots ix) s) as [e|]; [|done]. exists e. split; [done|lia].
Qed.

(** ** Reserve *)

(** The four tags of a key's ghost set, and whether the key's is there. *)
Definition ghost_tag (k : DISK_CACHE_KEY) : Z := Z.lor (DiskCacheIndexMix k) 1.
Definition ghost_base (ix : DISK_CACHE_INDEX) (k : DISK_CACHE_KEY) : Z :=
  Z.land (u32 (DiskCacheIndexMix k)) (GhostMask ix) * DISK_CACHE_GHOST_WAYS.
Definition ghost_set (ix : DISK_CACHE_INDEX) (k : DISK_CACHE_KEY) : list Z :=
  take 4 (drop (Z.to_nat (ghost_base ix k)) (Ghosts ix)).
Definition missed (ix : DISK_CACHE_INDEX) (k : DISK_CACHE_KEY) : bool :=
  bool_decide (ghost_tag k ∈ ghost_set ix k).

Definition holds (ix : DISK_CACHE_INDEX) (k : DISK_CACHE_KEY) : Prop :=
  exists s e, live ix s e /\ Key e = k.

Lemma take_drop_4 (l : list Z) (n : nat) :
  (n + 4 <= length l)%nat ->
  exists a b c d, take 4 (drop n l) = [a; b; c; d] /\
    l !! n = Some a /\ l !! (n + 1)%nat = Some b /\ l !! (n + 2)%nat = Some c /\ l !! (n + 3)%nat = Some d.
Proof.
  intros H. pose proof (length_drop l n) as Hl.
  pose proof (lookup_drop l n) as Hlk.
  destruct (drop n l) as [|a [|b [|c [|d r]]]]; simpl in Hl; try lia.
  exists a, b, c, d. pose proof (Hlk 0%nat). pose proof (Hlk 1%nat). pose proof (Hlk 2%nat).
  pose proof (Hlk 3%nat). simpl in *. rewrite Nat.add_0_r in *. done.
Qed.

Lemma ghost_base_range ix k :
  wf ix -> 0 <= ghost_base ix k /\ ghost_base ix k + 4 <= Z.of_nat (length (Ghosts ix)).
Proof.
  intros [_ _ _ (n & Hn & Hm & Hl) _ _ _ _]. unfold ghost_base, DISK_CACHE_GHOST_WAYS in *.
  rewrite Hm, Z.land_ones, Hl by done.
  pose proof (Z.mod_pos_bound (u32 (DiskCacheIndexMix k)) (2 ^ n) ltac:(by apply Z.pow_pos_nonneg)). lia.
Qed.

Lemma ghost_set_read ix k :
  wf ix -> exists a b c d, ghost_set ix k = [a; b; c; d] /\
    rd (Ghosts ix) (ghost_base ix k) = Some a /\ rd (Ghosts ix) (ghost_base ix k + 1) = Some b /\
    rd (Ghosts ix) (ghost_base ix k + 2) = Some c /\ rd (Ghosts ix) (ghost_base ix k + 3) = Some d.
Proof.
  intros Hwf. destruct (ghost_base_range ix k Hwf) as [H0 H4].
  destruct (take_drop_4 (Ghosts ix) (Z.to_nat (ghost_base ix k))) as (a & b & c & d & Hs & Ha & Hb & Hc & Hd).
  { lia. }
  exists a, b, c, d. split; [exact Hs|]. unfold rd.
  rewrite !(proj2 (Z.leb_le _ _)) by lia. rewrite !Z2Nat.inj_add by lia. done.
Qed.

Lemma ghost_walk_spec ix k :
  wf ix -> exists way, ghost_walk (Z.to_nat DISK_CACHE_GHOST_WAYS) (Ghosts ix) (ghost_base ix k) (ghost_tag k) 0 = Some way /\
    0 <= way <= 4 /\ (way =? DISK_CACHE_GHOST_WAYS) = negb (missed ix k).
Proof.
  intros Hwf. destruct (ghost_set_read ix k Hwf) as (a & b & c & d & Hs & Ha & Hb & Hc & Hd).
  unfold missed. rewrite Hs. change (Z.to_nat DISK_CACHE_GHOST_WAYS) with 4%nat. cbn [ghost_walk].
  rewrite Z.add_0_r, Ha. cbn [mbind option_bind].
  destruct (Z.eqb_spec (ghost_tag k) a) as [->|].
  { exists 0. rewrite bool_decide_eq_true_2 by left. split; [done|]. split; [lia|done]. }
  change (0 + 1) with 1. rewrite Hb. cbn [mbind option_bind].
  destruct (Z.eqb_spec (ghost_tag k) b) as [->|].
  { exists 1. rewrite bool_decide_eq_true_2 by set_solver. split; [done|]. split; [lia|done]. }
  change (1 + 1) with 2. rewrite Hc. cbn [mbind option_bind].
  destruct (Z.eqb_spec (ghost_tag k) c) as [->|].
  { exists 2. rewrite bool_decide_eq_true_2 by set_solver. split; [done|]. split; [lia|done]. }
  change (2 + 1) with 3. rewrite Hd. cbn [mbind option_bind].
  destruct (Z.eqb_spec (ghost_tag k) d) as [->|].
  { exists 3. rewrite bool_decide_eq_true_2 by set_solver. split; [done|]. split; [lia|done]. }
  exists 4. rewrite bool_decide_eq_false_2 by set_solver. split; [done|]. split; [lia|done].
Qed.

(** The ghost table is independent of everything else in the invariant. *)
Lemma wf_with_Ghosts ix l : wf ix -> length l = length (Ghosts ix) -> wf (with_Ghosts ix l).
Proof. intros [W1 W2 W3 W4 W5 W6 W7 W8] Hl. split; try done. simpl. by rewrite Hl. Qed.

Lemma put_ghost_ok ix g v :
  0 <= g < Z.of_nat (length (Ghosts ix)) ->
  put_ghost ix g v = Some (with_Ghosts ix (<[Z.to_nat g := v]> (Ghosts ix))).
Proof. intros H. unfold put_ghost. by rewrite wr_in_range. Qed.

Lemma ghost_push_spec ix k :
  wf ix -> exists l, ghost_push ix (ghost_base ix k) (ghost_tag k) = Some (with_Ghosts ix l) /\
    length l = length (Ghosts ix) /\ take 4 (drop (Z.to_nat (ghost_base ix k)) l) = ghost_tag k :: take 3 (ghost_set ix k).
Proof.
  intros Hwf. destruct (ghost_set_read ix k Hwf) as (a & b & c & d & Hs & Ha & Hb & Hc & Hd).
  destruct (ghost_base_range ix k Hwf) as [H0 H4]. unfold ghost_push. rewrite Hs, Ha, Hb, Hc.
  cbn [mbind option_bind take].
  rewrite put_ghost_ok by lia. cbn [mbind option_bind].
  rewrite put_ghost_ok by (simpl; rewrite length_insert; lia). cbn [mbind option_bind].
  rewrite put_ghost_ok by (simpl; rewrite !length_insert; lia). cbn [mbind option_bind].
  rewrite put_ghost_ok by (simpl; rewrite !length_insert; lia). cbn [with_Ghosts Ghosts].
  eexists. split; [reflexivity|]. simpl. rewrite !length_insert. split; [done|].
  rewrite !Z2Nat.inj_add by lia. set (n := Z.to_nat (ghost_base ix k)) in *.
  match goal with |- take 4 (drop n ?l) = _ =>
    destruct (take_drop_4 l n) as (w & x & y & z & -> & Hw & Hx & Hy & Hz) end.
  { rewrite !length_insert. lia. }
  revert Hw Hx Hy Hz.
  repeat first [rewrite list_lookup_insert_eq by (rewrite ?length_insert; lia)
               |rewrite list_lookup_insert_ne by lia].
  by intros [= <-] [= <-] [= <-] [= <-].
Qed.

(** [cored s ix ix']: everything but slot [s], links and chain heads is
    equal; in particular every other slot's key, state, pins and mark. *)
Definition cored (s : Z) (ix ix' : DISK_CACHE_INDEX) : Prop :=
  length (Slots ix') = length (Slots ix) /\ length (Heads ix') = length (Heads ix) /\
  (forall i, i <> s -> core <$> rd (Slots ix') i = core <$> rd (Slots ix) i) /\
  Ghosts ix' = Ghosts ix /\ SlotCount ix' = SlotCount ix /\ HashMask ix' = HashMask ix /\
  Hand ix' = Hand ix /\ GhostMask ix' = GhostMask ix.

Lemma cored_trans s ix1 ix2 ix3 : cored s ix1 ix2 -> cored s ix2 ix3 -> cored s ix1 ix3.
Proof.
  intros (A1 & A2 & A3 & A4 & A5 & A6 & A7 & A8) (B1 & B2 & B3 & B4 & B5 & B6 & B7 & B8).
  split_and!; try congruence. intros i Hi. by rewrite B3, A3.
Qed.

Lemma cored_relinked s ix ix' : relinked ix ix' -> cored s ix ix'.
Proof. intros ((Hl & Hc) & ?). unfold cored. naive_solver. Qed.

Lemma cored_touched s ix ix' e : touched ix ix' s e -> cored s ix ix'.
Proof.
  intros (_ & Ho & Hl & Hh & ?). unfold cored. rewrite Hh.
  split_and!; try tauto. intros i Hi. by rewrite Ho.
Qed.

Lemma cored_put_head s ix ix' h v : put_head ix h v = Some ix' -> cored s ix ix'.
Proof.
  unfold put_head. intros (m & Hm & [= <-])%bind_Some. unfold cored. simpl.
  split_and!; eauto using wr_length.
Qed.

(** Transport of a slot other than [s]. *)
Lemma cored_back s ix ix' i e' :
  cored s ix ix' -> i <> s -> rd (Slots ix') i = Some e' ->
  exists e, rd (Slots ix) i = Some e /\ core e' = core e.
Proof.
  intros (_ & _ & Hc & _) Hi He'. specialize (Hc i Hi). rewrite He' in Hc.
  destruct (rd (Slots ix) i) as [e|]; [|done]. apply (inj Some) in Hc. eauto.
Qed.

(** The invariant after slot [s] was rewritten and its chains repaired. *)
Lemma wf_cored ix ix' s e' :
  wf ix -> cored s ix ix' -> rd (Slots ix') s = Some e' -> pins_ok e' ->
  (State e' <> DiskCacheSlotFree -> forall i e, i <> s -> live ix i e -> Key e <> Key e') ->
  chains ix' None -> wf ix'.
Proof.
  intros [W1 W2 W3 W4 W5 W6 W7 _] Hco He' Hp Hk Hch.
  pose proof Hco as (Hl & Hh & Hc & Hg & Hcnt & Hm & Hd & Hgm).
  split; rewrite ?Hcnt, ?Hm, ?Hd, ?Hgm, ?Hh, ?Hg, ?Hl; try done.
  - intros i e Hi. destruct (decide (i = s)) as [->|Hne]; [congruence|].
    destruct (cored_back _ _ _ _ _ Hco Hne Hi) as (e0 & He0 & (_ & Hp0 & Hs0 & _)%core_eq).
    specialize (W6 _ _ He0). unfold pins_ok in *. by rewrite Hp0, Hs0.
  - assert (forall i e, live ix' i e -> i <> s -> exists e0, live ix i e0 /\ Key e0 = Key e) as Hb.
    { intros i e [Hi Hst] Hne. destruct (cored_back _ _ _ _ _ Hco Hne Hi) as (e0 & He0 & Hce).
      apply core_eq in Hce as (Hke & _ & Hse & _). exists e0. split; [|done].
      split; [done|congruence]. }
    intros s1 s2 e1 e2 H1 H2 Hkk.
    destruct (decide (s1 = s)) as [->|N1], (decide (s2 = s)) as [->|N2]; [done|..].
    + destruct (Hb _ _ H2 N2) as (e0 & Hl0 & Hk0). destruct H1 as [H1 Hs1].
      rewrite He' in H1. injection H1 as <-. exfalso. apply (Hk Hs1 s2 e0); [done..|congruence].
    + destruct (Hb _ _ H1 N1) as (e0 & Hl0 & Hk0). destruct H2 as [H2 Hs2].
      rewrite He' in H2. injection H2 as <-. exfalso. apply (Hk Hs2 s1 e0); [done..|congruence].
    + destruct (Hb _ _ H1 N1) as (? & ? & ?), (Hb _ _ H2 N2) as (? & ? & ?).
      eapply W7; eauto. congruence.
Qed.

(** A slot taken out of its chain, if it was in one. *)
Lemma detach_spec ix s e :
  wf ix -> rd (Slots ix) s = Some e ->
  exists ix1, (if decide (State e = DiskCacheSlotFree) then Some ix else DiskCacheIndexUnlink ix s) = Some ix1 /\
    chains ix1 (Some s) /\ relinked ix ix1 /\ exists e1, rd (Slots ix1) s = Some e1.
Proof.
  intros Hwf He. case_decide as Hst.
  - exists ix. split; [done|]. split; [|split; [|eauto]].
    + apply chains_exclude; [apply Hwf|]. intros e0 [He0 Hs0]. congruence.
    + unfold relinked, same_cores. done.
  - destruct (unlink_spec ix s e) as (ix1 & -> & Hc & Hr & Hs); eauto using wf_chains, bucket_range.
    { by split. }
    eauto 6.
Qed.

Lemma reserve_slot_spec ix k s e :
  wf ix -> rd (Slots ix) s = Some e -> ~ holds ix k ->
  exists ix' n, reserve_slot ix k (DiskCacheIndexMix k) s = Some ix' /\ wf ix' /\ cored s ix ix' /\
    rd (Slots ix') s = Some (mkSlot k n 1 DiskCacheSlotFilling false).
Proof.
  intros Hwf He Hno. unfold reserve_slot. rewrite He. cbn [mbind option_bind].
  destruct (detach_spec ix s e Hwf He) as (ix1 & -> & Hch1 & Hre & e1 & He1). cbn [mbind option_bind].
  pose proof Hre as (_ & Hlen1 & _ & _ & Hm1 & _).
  fold (bucket ix1 k). assert (bucket ix1 k = bucket ix k) as Hb by (by apply bucket_same).
  destruct (rd_in_range (Heads ix1) (bucket ix1 k)) as [h Hh].
  { rewrite Hb, Hlen1. by apply bucket_range. }
  rewrite Hh. cbn [mbind option_bind].
  set (e2 := mkSlot k h 1 DiskCacheSlotFilling false).
  destruct (put_slot_ok ix1 s e1 e2 He1) as [ix2 Hput]. rewrite Hput. cbn [mbind option_bind].
  pose proof (chains_put_excluded _ _ _ _ Hch1 Hput) as Hch2.
  pose proof (put_slot_touched _ _ _ _ Hput) as Ht2.
  pose proof Ht2 as (Hs2 & _ & _ & Hh2 & _ & _ & Hm2 & _).
  assert (bucket ix2 k = bucket ix1 k) as Hb2 by (by apply bucket_same).
  rewrite <- Hh2 in Hh. destruct (wr_exists _ (bucket ix1 k) s _ Hh) as [m Hw].
  assert (put_head ix2 (bucket ix1 k) s = Some (with_Heads ix2 m)) as Hph by (unfold put_head; by rewrite Hw).
  rewrite Hph. exists (with_Heads ix2 m), h. split; [done|].
  assert (cored s ix (with_Heads ix2 m)) as Hco.
  { eapply cored_trans; [by apply cored_relinked|].
    eapply cored_trans; [by eapply cored_touched|by eapply cored_put_head]. }
  split; [|done]. eapply (wf_cored ix _ s e2); [done..| |].
  - intros _ i e0 _ Hl Hk. apply Hno. by exists i, e0.
  - rewrite <- Hb2 in Hph, Hh. eapply (chains_link ix2 _ s e2 h); eauto using slot_not_NO. by split.
Qed.

(** What a slot holds and how often it is pinned: all a client can see. *)
Definition vitals (e : DISK_CACHE_SLOT) : DISK_CACHE_KEY * DISK_CACHE_SLOT_STATE * Z := (Key e, State e, Pins e).

Definition kept_but (s : option Z) (ix ix' : DISK_CACHE_INDEX) : Prop :=
  forall i, s <> Some i -> vitals <$> rd (Slots ix') i = vitals <$> rd (Slots ix) i.

Lemma kept_but_trans s ix1 ix2 ix3 : kept_but s ix1 ix2 -> kept_but s ix2 ix3 -> kept_but s ix1 ix3.
Proof. intros A B i Hi. by rewrite B, A. Qed.

Lemma kept_but_weaken s ix ix' : kept_but None ix ix' -> kept_but s ix ix'.
Proof. intros A i _. by apply A. Qed.

Lemma kept_swept ix ix' : swept ix ix' -> kept_but None ix ix'.
Proof. intros (_ & H & _) i _. destruct (H i) as [->|(e & -> & _ & ->)]; done. Qed.

Lemma kept_cored s ix ix' : cored s ix ix' -> kept_but (Some s) ix ix'.
Proof.
  intros (_ & _ & H & _) i Hi. specialize (H i ltac:(congruence)).
  destruct (rd (Slots ix') i) as [e'|], (rd (Slots ix) i) as [e|]; try done.
  apply (inj Some), core_eq in H as (? & ? & ? & _). simpl. unfold vitals. congruence.
Qed.

Lemma kept_live ix ix' s e' :
  kept_but None ix ix' -> live ix' s e' -> exists e, live ix s e /\ vitals e' = vitals e.
Proof.
  intros H [He' Hst]. specialize (H s ltac:(done)). rewrite He' in H.
  destruct (rd (Slots ix) s) as [e|] eqn:He; [|done]. apply (inj Some) in H. exists e.
  split; [|done]. split; [done|]. unfold vitals in H. congruence.
Qed.

Lemma kept_holds ix ix' k : kept_but None ix ix' -> holds ix' k -> holds ix k.
Proof.
  intros H (s & e' & Hl & Hk). destruct (kept_live _ _ _ _ H Hl) as (e & Hl' & Hv).
  exists s, e. split; [done|]. unfold vitals in Hv. congruence.
Qed.

(** The outcome of [Reserve], branch by branch. *)
Definition reserve_post (ix : DISK_CACHE_INDEX) (k : DISK_CACHE_KEY) (ix' : DISK_CACHE_INDEX)
    (a : DISK_CACHE_ADMIT) (r : option Z) : Prop :=
  match a with
  | DiskCacheHeld => holds ix k /\ ix' = ix /\ r = None
  | DiskCacheFirstMiss =>
      ~ holds ix k /\ missed ix k = false /\ r = None /\
      missed ix' k = true /\ exists l, ix' = with_Ghosts ix l
  | DiskCacheNoVictim =>
      ~ holds ix k /\ missed ix k = true /\ r = None /\
      victim_spec ix = None /\ kept_but None ix ix' /\ Ghosts ix' = Ghosts ix
  | DiskCacheReserved =>
      ~ holds ix k /\ missed ix k = true /\
      exists s e', r = Some s /\ victim_spec ix = Some s /\ kept_but (Some s) ix ix' /\
        rd (Slots ix') s = Some e' /\ vitals e' = (k, DiskCacheSlotFilling, 1)
  end.

Lemma missed_ghosts ix l k :
  missed (with_Ghosts ix l) k = bool_decide (ghost_tag k ∈ take 4 (drop (Z.to_nat (ghost_base ix k)) l)).
Proof. reflexivity. Qed.

Lemma reserve_spec ix k :
  wf ix -> exists ix' a r, BlorgDiskCacheIndexReserve ix k = Some (ix', a, r) /\
    wf ix' /\ reserve_post ix k ix' a r.
Proof.
  intros Hwf. unfold BlorgDiskCacheIndexReserve. fold (ghost_tag k). fold (ghost_base ix k).
  destruct (ghost_walk_spec ix k Hwf) as (way & -> & Hway & Hmiss). cbn [mbind option_bind].
  destruct (wf_find ix k Hwf) as (r & -> & Hr). cbn [mbind option_bind].
  destruct Hr as [[-> Hno]|(Hne & e & Hl & Hk)].
  2:{ rewrite (proj2 (Z.eqb_neq _ _) Hne). simpl. exists ix, DiskCacheHeld, None.
      split; [done|]. split; [done|]. split; [by exists r, e|done]. }
  rewrite Z.eqb_refl, Hmiss. cbn [negb].
  assert (~ holds ix k) as Hnh by (intros (s & e & ? & ?); by eapply Hno).
  destruct (missed ix k) eqn:Hm; cbn [negb].
  2:{ destruct (ghost_push_spec ix k Hwf) as (l & -> & Hlen & Hset). cbn [mbind option_bind].
      exists (with_Ghosts ix l), DiskCacheFirstMiss, None. split; [done|].
      split; [by apply wf_with_Ghosts|]. split_and!; try done; [|by exists l].
      rewrite missed_ghosts, Hset. apply bool_decide_eq_true_2. left. }
  destruct (victim_refines ix Hwf) as (ix1 & -> & Hwf1 & Hsw). cbn [mbind option_bind].
  pose proof (kept_swept _ _ Hsw) as Hk1.
  destruct (victim_spec ix) as [s|] eqn:Hv; simpl.
  2:{ exists ix1, DiskCacheNoVictim, None. split; [done|]. split; [done|]. split_and!; try done.
      apply Hsw. }
  destruct (victim_spec_unpinned _ _ Hv) as (e & He & Hp).
  rewrite (proj2 (Z.eqb_neq _ _) (slot_not_NO _ _ _ Hwf He)).
  destruct (rd_in_range (Slots ix1) s) as [e1 He1].
  { destruct Hsw as (-> & _). eauto using rd_Some. }
  destruct (reserve_slot_spec ix1 k s e1 Hwf1 He1) as (ix2 & n & -> & Hwf2 & Hco & Hs2).
  { intros ?%(kept_holds _ _ _ Hk1). done. }
  cbn [mbind option_bind].
  assert (Ghosts ix2 = Ghosts ix) as Hg.
  { destruct Hco as (_ & _ & _ & -> & _). apply Hsw. }
  assert (way <> 4) as Hw4 by (intros ->; done).
  destruct (ghost_base_range ix k Hwf) as [Hb0 Hb4].
  rewrite put_ghost_ok by (rewrite Hg; lia). cbn [mbind option_bind].
  eexists _, DiskCacheReserved, (Some s). split; [done|].
  split; [apply wf_with_Ghosts; [done|apply length_insert]|]. split_and!; try done.
  eexists s, _. split_and!; [done..| | |]; [|exact Hs2|done].
  eapply kept_but_trans; [by apply kept_but_weaken|]. apply (kept_cored s ix1 ix2 Hco).
Qed.

(** ** Commit *)

Lemma unlink_wf ix s e :
  wf ix -> live ix s e ->
  exists ix1, DiskCacheIndexUnlink ix s = Some ix1 /\ chains ix1 (Some s) /\ relinked ix ix1 /\
    rd (Slots ix1) s = Some (set_Next e DISK_CACHE_NO_SLOT).
Proof. intros Hwf Hl. apply unlink_spec; eauto using wf_chains, bucket_range. Qed.

Lemma commit_spec ix s e written :
  wf ix -> rd (Slots ix) s = Some e -> State e = DiskCacheSlotFilling ->
  exists ix' e', BlorgDiskCacheIndexCommit ix s written = Some ix' /\ wf ix' /\
    kept_but (Some s) ix ix' /\ rd (Slots ix') s = Some e' /\
    vitals e' = (Key e, if written then DiskCacheSlotValid else DiskCacheSlotFree, 0).
Proof.
  intros Hwf He Hst. unfold BlorgDiskCacheIndexCommit. rewrite He. cbn [mbind option_bind].
  pose proof (wf_pins _ Hwf _ _ He) as Hp. unfold pins_ok in Hp. rewrite Hst in Hp. rewrite Hp.
  rewrite bool_decide_eq_true_2 by done. cbn [andb Z.ltb Z.compare].
  destruct written.
  - destruct (put_slot_ok ix s e (set_State e DiskCacheSlotValid) He) as [ix1 Hput1].
    rewrite Hput1. cbn [mbind option_bind]. pose proof (put_slot_touched _ _ _ _ Hput1) as Ht1.
    pose proof Ht1 as (Hs1 & _). rewrite Hs1. cbn [mbind option_bind].
    destruct (put_slot_ok ix1 s _ (set_Pins (set_State e DiskCacheSlotValid) (Pins e - 1)) Hs1) as [ix2 Hput2].
    rewrite Hp in Hput2. cbn [Pins set_State]. rewrite Hp, Hput2.
    assert (wf ix1) as Hwf1.
    { apply (wf_mark ix ix1 s e (set_State e DiskCacheSlotValid)); try done.
      - simpl. rewrite Hst. by split.
      - unfold pins_ok. simpl. lia. }
    pose proof (put_slot_touched _ _ _ _ Hput2) as Ht2.
    eexists ix2, _. split; [done|]. split; [|split; [|split; [apply Ht2|done]]].
    + by apply (wf_mark ix1 ix2 s _ _ Hwf1 Hs1) in Hput2.
    + apply kept_cored. eapply cored_trans; by eapply cored_touched.
  - destruct (unlink_wf ix s e Hwf) as (ix1 & -> & Hch1 & Hre & Hs1); [split; [done|congruence]|].
    cbn [mbind option_bind]. rewrite Hs1. cbn [mbind option_bind].
    destruct (put_slot_ok ix1 s _ (set_State (set_Next e DISK_CACHE_NO_SLOT) DiskCacheSlotFree) Hs1) as [ix2 Hput2].
    rewrite Hput2. cbn [mbind option_bind]. pose proof (put_slot_touched _ _ _ _ Hput2) as Ht2.
    pose proof Ht2 as (Hs2 & _). rewrite Hs2. cbn [mbind option_bind].
    set (e3 := set_Pins _ _).
    destruct (put_slot_ok ix2 s _ e3 Hs2) as [ix3 Hput3]. rewrite Hput3.
    pose proof (put_slot_touched _ _ _ _ Hput3) as Ht3.
    assert (cored s ix ix3) as Hco.
    { eapply cored_trans; [by apply cored_relinked|]. eapply cored_trans; by eapply cored_touched. }
    exists ix3, e3. split; [done|]. split; [|split; [by apply kept_cored|split; [apply Ht3|]]].
    2:{ unfold vitals. simpl. by rewrite Hp. }
    apply (wf_cored ix ix3 s e3); [done|done|apply Ht3|unfold pins_ok; simpl; lia|done|].
    apply (chains_include ix3 s); [eauto using chains_put_excluded|].
    intros e0 [He0 Hst0]. destruct Ht3 as (Hs3 & _). rewrite Hs3 in He0. by injection He0 as <-.
Qed.
