(* ===== verification/DiskCacheIndexReads.v ===== *)
(** * The disk cache index: reads

    [BlorgDiskCacheIndexPinHeld], [BlorgDiskCacheIndexUnpin] and
    [BlorgDiskCacheIndexPlanRead] against the index invariant. *)

From S2P Require Import Prelude DiskCacheIndex DiskCacheIndexChains DiskCacheIndexOps.

Definition pins_of (ix : DISK_CACHE_INDEX) (i : Z) : Z :=
  match rd (Slots ix) i with Some e => Pins e | None => 0 end.

(** Keys and states are unchanged. *)
Definition same_keys (ix ix' : DISK_CACHE_INDEX) : Prop :=
  forall i, (fun e => (Key e, State e)) <$> rd (Slots ix') i = (fun e => (Key e, State e)) <$> rd (Slots ix) i.

Definition slot_count (l : list Z) (i : Z) : Z := Z.of_nat (count_occ Z.eq_dec l i).

(** How many blocks of a pinned read are to be served. *)
Fixpoint held_count (l : list Z) : Z :=
  match l with
  | [] => 0
  | x :: l => (if x =? DISK_CACHE_NO_SLOT then 0 else 1) + held_count l
  end.

(** Slot [s] holds [k]'s bytes on disk. *)
Definition serves (ix : DISK_CACHE_INDEX) (k : DISK_CACHE_KEY) (s : Z) : Prop :=
  exists e, rd (Slots ix) s = Some e /\ Key e = k /\ State e = DiskCacheSlotValid.

(** What [PinHeld] writes for a block: its slot, or that none holds it. *)
Definition answers (ix : DISK_CACHE_INDEX) (k : DISK_CACHE_KEY) (s : Z) : Prop :=
  (s = DISK_CACHE_NO_SLOT /\ forall s', ~ serves ix k s') \/
  (s <> DISK_CACHE_NO_SLOT /\ serves ix k s).

Lemma slot_count_cons x l i : slot_count (x :: l) i = (if decide (x = i) then 1 else 0) + slot_count l i.
Proof.
  unfold slot_count. simpl. destruct (Z.eq_dec x i); case_decide; try done. lia.
Qed.

Lemma slot_count_app l1 l2 i : slot_count (l1 ++ l2) i = slot_count l1 i + slot_count l2 i.
Proof. unfold slot_count. rewrite count_occ_app. lia. Qed.

Lemma slot_count_nonneg l i : 0 <= slot_count l i.
Proof. unfold slot_count. lia. Qed.

Lemma slot_count_elem l i : i ∈ l -> 0 < slot_count l i.
Proof.
  intros Hin. unfold slot_count. rewrite list_elem_of_In, (count_occ_In Z.eq_dec) in Hin. lia.
Qed.

Lemma held_count_app l1 l2 : held_count (l1 ++ l2) = held_count l1 + held_count l2.
Proof. induction l1 as [|x l1 IH]; simpl; [done|]. rewrite IH. lia. Qed.

Lemma held_count_bounds l : 0 <= held_count l <= Z.of_nat (length l).
Proof. induction l as [|x l IH]; simpl; [done|]. bool_cases; lia. Qed.

Lemma same_keys_refl ix : same_keys ix ix.
Proof. done. Qed.

Lemma same_keys_trans ix1 ix2 ix3 : same_keys ix1 ix2 -> same_keys ix2 ix3 -> same_keys ix1 ix3.
Proof. intros A B i. by rewrite B, A. Qed.

Lemma same_keys_sym ix ix' : same_keys ix ix' -> same_keys ix' ix.
Proof. intros A i. by rewrite A. Qed.

Lemma serves_same ix ix' k s : same_keys ix ix' -> serves ix' k s -> serves ix k s.
Proof.
  intros A (e' & He' & Hk & Hst). specialize (A s). rewrite He' in A.
  destruct (rd (Slots ix) s) as [e|] eqn:He; [|done]. exists e. simpl in A. split; [done|].
  injection A as A1 A2. split; congruence.
Qed.

Lemma answers_same ix ix' k s : same_keys ix ix' -> answers ix' k s -> answers ix k s.
Proof.
  intros A [[-> H]|[H1 H2]]; [left|right]; split; eauto using serves_same.
  intros s' ?. eapply H, serves_same; eauto using same_keys_sym.
Qed.

#[export] Hint Resolve same_keys_refl same_keys_trans serves_same answers_same : blorg.

Lemma pins_of_NO ix : wf ix -> pins_of ix DISK_CACHE_NO_SLOT = 0.
Proof.
  intros Hwf. unfold pins_of. destruct (rd (Slots ix) DISK_CACHE_NO_SLOT) as [e|] eqn:He; [|done].
  by apply (slot_not_NO _ _ _ Hwf) in He.
Qed.

(** A change of one slot's pins (and mark). *)
Lemma touch_pins ix ix' s e e' :
  rd (Slots ix) s = Some e -> Key e' = Key e -> State e' = State e -> touched ix ix' s e' ->
  same_keys ix ix' /\ pins_of ix' s = Pins e' /\ (forall i, i <> s -> pins_of ix' i = pins_of ix i).
Proof.
  intros He Hk Hst (Hs & Ho & _). split_and!.
  - intros i. destruct (decide (i = s)) as [->|]; [|by rewrite Ho].
    rewrite Hs, He. simpl. congruence.
  - unfold pins_of. by rewrite Hs.
  - intros i Hi. unfold pins_of. by rewrite Ho.
Qed.

Lemma pin_one_spec ix k :
  wf ix -> (forall i, pins_of ix i < MAXLONG) ->
  exists ix' s, pin_one ix k = Some (ix', s) /\ wf ix' /\ answers ix k s /\ same_keys ix ix' /\
    forall i, i <> DISK_CACHE_NO_SLOT -> pins_of ix' i = pins_of ix i + slot_count [s] i.
Proof.
  intros Hwf Hpins. unfold pin_one. destruct (wf_find ix k Hwf) as (r & -> & Hr).
  cbn [mbind option_bind]. destruct Hr as [[-> Hno]|(Hne & e & [He Hst] & Hk)].
  { rewrite Z.eqb_refl. exists ix, DISK_CACHE_NO_SLOT. split_and!; eauto with blorg.
    - left. split; [done|]. intros s (e & He & Hk & Hst). apply (Hno s e); [|done].
      split; [done|congruence].
    - intros i Hi. rewrite slot_count_cons, decide_False by done. unfold slot_count. simpl. lia. }
  rewrite (proj2 (Z.eqb_neq _ _) Hne), He. cbn [mbind option_bind]. case_decide as Hv.
  - pose proof (Hpins r) as Hp. unfold pins_of in Hp. rewrite He in Hp.
    rewrite (proj2 (Z.ltb_lt _ _) Hp). set (e' := set_Pins e (Pins e + 1)).
    destruct (put_slot_ok ix r e e' He) as [ix' Hput]. rewrite Hput. cbn [mbind option_bind].
    exists ix', r. split; [done|].
    destruct (touch_pins ix ix' r e e' He eq_refl eq_refl (put_slot_touched _ _ _ _ Hput)) as (Hsk & Hpr & Hpo).
    split_and!; [|right; split; [done|by exists e]|done|].
    + apply (wf_mark ix ix' r e e'); try done.
      pose proof (wf_pins _ Hwf _ _ He) as Hok. unfold pins_ok in *. simpl. rewrite Hv in *. lia.
    + intros i Hi. rewrite slot_count_cons. unfold slot_count. simpl. case_decide; subst.
      * rewrite Hpr. unfold pins_of. rewrite He. simpl. lia.
      * rewrite Hpo by done. lia.
  - exists ix, DISK_CACHE_NO_SLOT. split_and!; eauto with blorg.
    + left. split; [done|]. intros s (e0 & He0 & Hk0 & Hst0).
      assert (s = r) as ->; [|congruence].
      eapply (wf_keys _ Hwf s r e0 e); [split; [done|congruence]|by split|congruence].
    + intros i Hi. rewrite slot_count_cons, decide_False by done. unfold slot_count. simpl. lia.
Qed.

Lemma pin_walk_spec n : forall ix k last pinned,
  wf ix -> 0 <= Block k -> Block k + Z.of_nat n = last + 1 -> last < MAXULONG64 ->
  (forall i, pins_of ix i + Z.of_nat n <= MAXLONG) -> 0 <= pinned -> pinned + Z.of_nat n <= MAXULONG ->
  exists ix' sl, pin_walk n ix k last pinned = Some (ix', sl, pinned + held_count sl) /\ wf ix' /\
    length sl = n /\ same_keys ix ix' /\
    (forall j s, sl !! j = Some s -> answers ix (set_Block k (Block k + Z.of_nat j)) s) /\
    (forall i, i <> DISK_CACHE_NO_SLOT -> pins_of ix' i = pins_of ix i + slot_count sl i).
Proof.
  induction n as [|n IH]; intros ix k last pinned Hwf Hb Hn Hlast Hpins Hp0 Hp.
  { exists ix, []. unfold pin_walk. rewrite (proj2 (Z.ltb_lt _ _)) by lia. simpl. rewrite Z.add_0_r.
    split_and!; try done. intros. unfold slot_count. simpl. lia. }
  cbn [pin_walk]. rewrite (proj2 (Z.ltb_ge _ _)) by lia.
  destruct (pin_one_spec ix k Hwf) as (ix1 & s & -> & Hwf1 & Ha & Hsk & Hpo).
  { intros i. specialize (Hpins i). lia. }
  cbn [mbind option_bind]. unfold MAXULONG64, MAXULONG, MAXLONG in *.
  rewrite u64_id by lia.
  set (p1 := if s =? DISK_CACHE_NO_SLOT then pinned else u32 (pinned + 1)).
  assert (p1 = pinned + held_count [s]) as Hp1.
  { unfold p1. simpl. rewrite Z.add_0_r. bool_cases; [lia|]. by rewrite u32_id by lia. }
  pose proof (held_count_bounds [s]) as Hhb. simpl length in Hhb.
  destruct (IH ix1 (set_Block k (Block k + 1)) last p1) as (ix' & sl & -> & Hwf' & Hlen & Hsk' & Hans & Hpo');
    simpl; try done; try lia.
  { intros i. destruct (decide (i = DISK_CACHE_NO_SLOT)) as [->|Hi].
    - specialize (Hpins DISK_CACHE_NO_SLOT). rewrite pins_of_NO in * by done. lia.
    - rewrite Hpo by done. specialize (Hpins i). rewrite slot_count_cons. unfold slot_count. simpl.
      case_decide; lia. }
  cbn [mbind option_bind]. exists ix', (s :: sl). split_and!; eauto with blorg.
  - do 2 f_equal. rewrite Hp1. simpl. lia.
  - simpl. by rewrite Hlen.
  - intros [|j] s' Hj; simpl in Hj.
    + injection Hj as <-. rewrite Z.add_0_r. by destruct k.
    + apply Hans in Hj. eapply answers_same in Hj; [|done]. revert Hj. unfold set_Block. simpl.
      by replace (Block k + 1 + Z.of_nat j) with (Block k + Z.of_nat (S j)) by lia.
  - intros i Hi. rewrite Hpo', Hpo by done. rewrite !slot_count_cons. unfold slot_count at 1. simpl. lia.
Qed.

Lemma unpin_spec served sl : forall ix,
  wf ix -> (forall i, i ∈ sl -> i <> DISK_CACHE_NO_SLOT -> exists k, serves ix k i) ->
  (forall i, i <> DISK_CACHE_NO_SLOT -> slot_count sl i <= pins_of ix i) ->
  exists ix', BlorgDiskCacheIndexUnpin ix sl served = Some ix' /\ wf ix' /\ same_keys ix ix' /\
    forall i, i <> DISK_CACHE_NO_SLOT -> pins_of ix' i = pins_of ix i - slot_count sl i.
Proof.
  induction sl as [|s sl IH]; intros ix Hwf Hv Hc.
  { exists ix. split_and!; eauto with blorg. intros. unfold slot_count. simpl. lia. }
  cbn [BlorgDiskCacheIndexUnpin]. unfold unpin_one. destruct (Z.eqb_spec s DISK_CACHE_NO_SLOT) as [->|Hs].
  { cbn [mbind option_bind]. destruct (IH ix Hwf) as (ix' & -> & Hwf' & Hsk & Hp).
    - intros i Hin. apply Hv. by right.
    - intros i Hi. specialize (Hc i Hi). rewrite slot_count_cons, decide_False in Hc by done. lia.
    - exists ix'. split_and!; eauto. intros i Hi.
      rewrite Hp, slot_count_cons, decide_False by done. lia. }
  destruct (Hv s ltac:(left) Hs) as (k & e & He & Hk & Hst). rewrite He. cbn [mbind option_bind].
  pose proof (Hc s Hs) as Hcs. rewrite slot_count_cons, decide_True in Hcs by done.
  pose proof (slot_count_nonneg sl s) as Hnn. unfold pins_of in Hcs. rewrite He in Hcs.
  rewrite (proj2 (Z.ltb_lt 0 (Pins e))) by lia.
  set (e' := if served then set_Referenced (set_Pins e (Pins e - 1)) true else set_Pins e (Pins e - 1)).
  assert (Key e' = Key e /\ Next e' = Next e /\ State e' = State e /\ Pins e' = Pins e - 1) as (Ek & En & Es & Ep)
    by (unfold e'; by destruct served).
  destruct (put_slot_ok ix s e e' He) as [ix1 Hput]. rewrite Hput. cbn [mbind option_bind].
  destruct (touch_pins ix ix1 s e e' He Ek Es (put_slot_touched _ _ _ _ Hput)) as (Hsk & Hps & Hpo).
  assert (wf ix1) as Hwf1.
  { apply (wf_mark ix ix1 s e e'); try done; [by rewrite Es|]. unfold pins_ok. rewrite Es, Hst. lia. }
  destruct (IH ix1 Hwf1) as (ix' & -> & Hwf' & Hsk' & Hp).
  - intros i Hin Hi. destruct (Hv i ltac:(by right) Hi) as [k' Hk'].
    exists k'. eapply serves_same; [|done]. by apply same_keys_sym.
  - intros i Hi. specialize (Hc i Hi). rewrite slot_count_cons in Hc. case_decide; subst.
    + rewrite Hps. lia.
    + rewrite Hpo by done. lia.
  - exists ix'. split_and!; eauto with blorg. intros i Hi. rewrite Hp, slot_count_cons by done.
    case_decide; subst.
    + rewrite Hps. unfold pins_of. rewrite He. lia.
    + rewrite Hpo by done. lia.
Qed.

(** ** Planning a read *)

Abbreviation NO := DISK_CACHE_NO_SLOT.
Abbreviation is_held := (fun s : Z => s <> DISK_CACHE_NO_SLOT).

(** The number of maximal runs of blocks to fetch. *)
Fixpoint runs_from (prev : bool) (l : list Z) : Z :=
  match l with
  | [] => 0
  | x :: l => if x =? NO then (if prev then 0 else 1) + runs_from true l else runs_from false l
  end.
Definition runs (l : list Z) : Z := runs_from false l.

(** A gap: held blocks between two blocks to fetch, as start and length. *)
Definition gap (l : list Z) (gs gl : Z) : Prop :=
  exists A G B, l = A ++ NO :: G ++ NO :: B /\ G <> [] /\ Forall is_held G /\
    gs = Z.of_nat (S (length A)) /\ gl = Z.of_nat (length G).

(** What the scan has established after the blocks [pre]. *)
Definition scanned (pre : list Z) (acc : Z * Z * Z) : Prop :=
  let '(r, gs, gl) := acc in
  r = runs pre /\ (r <= 1 -> gs = 0 /\ gl = MAXULONG) /\ (2 <= r -> gap pre gs gl) /\
  forall gs' gl', gap pre gs' gl' -> gl <= gl'.

Definition ends_missing (l : list Z) : bool := bool_decide (last l = Some NO).

Lemma runs_from_app b l1 l2 :
  runs_from b (l1 ++ l2) = runs_from b l1 + runs_from (if l1 is [] then b else ends_missing l1) l2.
Proof.
  revert b. induction l1 as [|x l1 IH]; intros b; simpl; [lia|].
  assert (ends_missing (x :: l1) = if l1 is [] then x =? NO else ends_missing l1) as Hem.
  { unfold ends_missing. destruct l1 as [|y l1]; [|by rewrite last_cons_cons].
    simpl. destruct (Z.eqb_spec x NO); case_bool_decide; naive_solver. }
  rewrite Hem, !IH. destruct (Z.eqb_spec x NO), l1; lia.
Qed.

Lemma runs_nonneg b l : 0 <= runs_from b l <= Z.of_nat (length l).
Proof. revert b. induction l as [|x l IH]; intros b; simpl; [lia|]. destruct (x =? NO), b; pose proof (IH true); pose proof (IH false); lia. Qed.

Lemma runs_held b l : Forall is_held l -> runs_from b l = 0.
Proof.
  revert b. induction l as [|x l IH]; intros b; [done|]. intros [Hx Hl]%Forall_cons. simpl.
  rewrite (proj2 (Z.eqb_neq _ _) Hx). auto.
Qed.

(** Every prefix is its last block to fetch and the held blocks after it. *)
Lemma split_trailing (l : list Z) :
  exists P G, l = P ++ G /\ Forall is_held G /\ (P = [] \/ exists P', P = P' ++ [NO]).
Proof.
  induction l as [|x l (P & G & -> & HG & HP)] using rev_ind.
  { exists [], []. auto. }
  destruct (decide (x = NO)) as [->|Hx].
  - exists ((P ++ G) ++ [NO]), []. rewrite app_nil_r. split_and!; eauto.
  - exists P, (G ++ [x]). rewrite app_assoc. split_and!; [done| |done].
    apply Forall_app. auto.
Qed.

Lemma gap_start_spec P G suf :
  Forall is_held G -> (P = [] \/ exists P', P = P' ++ [NO]) ->
  gap_start (length (P ++ G)) ((P ++ G) ++ suf) = length P.
Proof.
  intros HG HP. revert suf. induction G as [|g G IH] using rev_ind; intros suf.
  - rewrite app_nil_r. destruct HP as [->|[P' ->]]; [done|].
    rewrite length_app, Nat.add_comm, <- app_assoc. cbn [length Nat.add gap_start app].
    by rewrite list_lookup_middle.
  - apply Forall_app in HG as [HG Hg%Forall_inv].
    rewrite app_assoc, length_app, Nat.add_comm, <- (app_assoc (P ++ G)).
    cbn [length Nat.add gap_start app]. rewrite list_lookup_middle by done.
    rewrite (proj2 (Z.eqb_neq _ _) Hg). by apply (IH HG).
Qed.

Lemma gap_snoc pre x gs gl :
  gap (pre ++ [x]) gs gl ->
  gap pre gs gl \/ (x = NO /\ exists A G, pre = A ++ NO :: G /\ G <> [] /\ Forall is_held G /\
    gs = Z.of_nat (S (length A)) /\ gl = Z.of_nat (length G)).
Proof.
  intros (A & G & B & Heq & HG & Hh & -> & ->).
  destruct B as [|b B _] using rev_ind.
  - replace (A ++ NO :: G ++ [NO]) with ((A ++ NO :: G) ++ [NO]) in Heq by by rewrite <- app_assoc.
    apply app_inj_tail in Heq as [-> ->]. right. eauto 10.
  - replace (A ++ NO :: G ++ NO :: B ++ [b]) with ((A ++ NO :: G ++ NO :: B) ++ [b]) in Heq.
    2:{ rewrite <- app_assoc. simpl. by rewrite <- app_assoc. }
    apply app_inj_tail in Heq as [-> ->]. left. unfold gap. eauto 10.
Qed.

Lemma gap_mono pre x gs gl : gap pre gs gl -> gap (pre ++ [x]) gs gl.
Proof.
  intros (A & G & B & -> & HG & Hh & -> & ->). exists A, G, (B ++ [x]). split_and!; try done.
  rewrite <- app_assoc. simpl. by rewrite <- app_assoc.
Qed.

(** The held blocks at the end of a prefix are determined by it. *)
Lemma trailing_unique P G P' G' :
  P ++ NO :: G = P' ++ NO :: G' -> Forall is_held G -> Forall is_held G' -> P = P' /\ G = G'.
Proof.
  revert G'. induction G as [|g G IH] using rev_ind; intros G' Heq HG HG';
    destruct G' as [|g' G' _] using rev_ind.
  - apply app_inj_tail in Heq as [-> _]. done.
  - replace (P' ++ NO :: G' ++ [g']) with ((P' ++ NO :: G') ++ [g']) in Heq by by rewrite <- app_assoc.
    apply app_inj_tail in Heq as [_ <-]. apply Forall_app in HG' as [_ H%Forall_inv]. done.
  - replace (P ++ NO :: G ++ [g]) with ((P ++ NO :: G) ++ [g]) in Heq by by rewrite <- app_assoc.
    apply app_inj_tail in Heq as [_ ->]. apply Forall_app in HG as [_ H%Forall_inv]. done.
  - replace (P ++ NO :: G ++ [g]) with ((P ++ NO :: G) ++ [g]) in Heq by by rewrite <- app_assoc.
    replace (P' ++ NO :: G' ++ [g']) with ((P' ++ NO :: G') ++ [g']) in Heq by by rewrite <- app_assoc.
    apply app_inj_tail in Heq as [Heq ->]. apply Forall_app in HG as [HG _], HG' as [HG' _].
    destruct (IH G' Heq HG HG') as [-> ->]. done.
Qed.

Lemma missing_prev pre suf :
  negb (length pre =? 0)%nat && bool_decide ((pre ++ suf) !! (length pre - 1)%nat = Some NO) = ends_missing pre.
Proof.
  unfold ends_missing. destruct pre as [|x pre _] using rev_ind; [done|].
  rewrite length_app, Nat.add_comm, <- app_assoc. cbn [length Nat.add Nat.eqb negb andb app].
  rewrite Nat.sub_succ, Nat.sub_0_r, list_lookup_middle, last_snoc by done. done.
Qed.

Lemma runs_snoc pre x :
  runs (pre ++ [x]) = runs pre + (if (x =? NO) && negb (ends_missing pre) then 1 else 0).
Proof.
  unfold runs. rewrite runs_from_app. f_equal. simpl.
  destruct (Z.eqb_spec x NO); [|done]. destruct pre; [done|]. by destruct (ends_missing _).
Qed.

Lemma scanned_skip pre x acc :
  (x =? NO) && negb (ends_missing pre) = false -> scanned pre acc -> scanned (pre ++ [x]) acc.
Proof.
  destruct acc as [[r gs] gl]. intros Hx (-> & Hlo & Hhi & Hmin).
  unfold scanned. rewrite runs_snoc, Hx, Z.add_0_r. split_and!; eauto using gap_mono.
  intros gs' gl' [Hg|(-> & A & G & -> & HG & Hh & _)]%gap_snoc; [eauto|].
  rewrite Z.eqb_refl in Hx. simpl in Hx. apply negb_false_iff, bool_decide_eq_true in Hx.
  destruct G as [|g G _] using rev_ind; [done|].
  rewrite app_comm_cons, app_assoc, last_snoc in Hx. injection Hx as ->.
  apply Forall_app in Hh as [_ Hh%Forall_inv]. done.
Qed.

Lemma runs_pos l : NO ∈ l -> 0 < runs l.
Proof.
  unfold runs. induction l as [|x l IH]; [by intros ?%elem_of_nil|]. simpl.
  intros Hin. destruct (Z.eqb_spec x NO) as [->|Hx].
  - pose proof (runs_nonneg true l). lia.
  - apply elem_of_cons in Hin as [<-|Hin]; [done|auto].
Qed.

Lemma scanned_new pre r gs gl suf :
  Z.of_nat (length pre) < MAXULONG -> ends_missing pre = false -> scanned pre (r, gs, gl) ->
  let start := gap_start (length pre) (pre ++ suf) in
  let shorter := negb (r =? 0) && (Z.of_nat (length pre - start) <? gl) in
  scanned (pre ++ [NO])
    (u32 (r + 1), if shorter then Z.of_nat start else gs,
     if shorter then Z.of_nat (length pre - start) else gl).
Proof.
  intros Hlen Hem (-> & Hlo & Hhi & Hmin) start shorter. unfold MAXULONG in *.
  pose proof (runs_nonneg false pre) as Hr. fold (runs pre) in Hr. rewrite u32_id by lia.
  assert (runs (pre ++ [NO]) = runs pre + 1) as Hruns by (rewrite runs_snoc, Z.eqb_refl, Hem; done).
  destruct (split_trailing pre) as (P & G & Hpre & HG & HP).
  assert (start = length P) as Hstart by (unfold start; rewrite Hpre; by apply gap_start_spec).
  assert (length pre - start = length G)%nat as HlenG by (rewrite Hstart, Hpre, length_app; lia).
  destruct (Z.eqb_spec (runs pre) 0) as [H0|H0]; subst shorter; cbn [negb andb].
  - unfold scanned. rewrite Hruns. split; [done|]. split; [intros _; apply Hlo; lia|]. split; [lia|].
    intros gs' gl' [Hg|(_ & A & G' & -> & _)]%gap_snoc; [eauto|].
    pose proof (runs_pos (A ++ NO :: G') ltac:(set_solver)). lia.
  - rewrite HlenG, Hstart. destruct HP as [->|[P' ->]].
    { exfalso. apply H0. simpl in Hpre. subst. by apply runs_held. }
    assert (G <> []) as HGne.
    { intros ->. rewrite app_nil_r in Hpre. subst. unfold ends_missing in Hem.
      rewrite last_snoc in Hem. by case_bool_decide. }
    assert (pre = P' ++ NO :: G) as Hpre' by (by rewrite Hpre, <- app_assoc). clear Hpre.
    assert (length (P' ++ [NO]) = S (length P')) as HlP by (rewrite length_app; simpl; lia).
    rewrite HlP.
    assert (gap (pre ++ [NO]) (Z.of_nat (S (length P'))) (Z.of_nat (length G))) as Hnew.
    { exists P', G, []. subst pre. rewrite <- app_assoc. done. }
    assert (forall gs' gl', gap (pre ++ [NO]) gs' gl' -> gap pre gs' gl' \/ gl' = Z.of_nat (length G)) as Hcase.
    { intros gs' gl' [Hg|(_ & A & G' & Heq & _ & HG' & _ & ->)]%gap_snoc; [by left|right].
      rewrite Hpre' in Heq. apply trailing_unique in Heq as [_ ->]; done. }
    assert (Z.of_nat (length G) < 4294967295) as HlG by (rewrite Hpre', length_app in Hlen; simpl in Hlen; lia).
    unfold scanned. rewrite Hruns. destruct (Z.ltb_spec (Z.of_nat (length G)) gl) as [Hlt|Hge].
    + split_and!; try done; try lia. intros gs' gl' [Hg| ->]%Hcase; [|lia].
      specialize (Hmin _ _ Hg). lia.
    + assert (2 <= runs pre) as H2.
      { destruct (Z.le_gt_cases 2 (runs pre)); [done|]. destruct Hlo as [_ Hgl]; lia. }
      split_and!; try lia; [eauto using gap_mono|].
      intros gs' gl' [Hg| ->]%Hcase; [eauto|lia].
Qed.

Lemma plan_scan_spec suf : forall pre acc,
  scanned pre acc -> Z.of_nat (length (pre ++ suf)) < MAXULONG ->
  scanned (pre ++ suf) (plan_scan (length suf) (length pre) (pre ++ suf) acc).
Proof.
  induction suf as [|x suf IH]; intros pre [[r gs] gl] Hs Hlen.
  { by rewrite app_nil_r. }
  cbn [plan_scan length]. rewrite missing_prev. rewrite list_lookup_middle by done.
  assert (S (length pre) = length (pre ++ [x])) as Hl by (rewrite length_app; simpl; lia).
  assert (pre ++ x :: suf = (pre ++ [x]) ++ suf) as Heq by by rewrite <- app_assoc.
  assert (bool_decide (Some x = Some NO) = (x =? NO)) as Hd.
  { destruct (Z.eqb_spec x NO); case_bool_decide; naive_solver. }
  rewrite Hd. destruct (negb (x =? NO) || ends_missing pre) eqn:E.
  - rewrite Hl, Heq in *. apply IH; [|done]. apply scanned_skip; [|done].
    destruct (x =? NO), (ends_missing pre); done.
  - apply orb_false_iff in E as [Ex%negb_false_iff%Z.eqb_eq Em]. subst x.
    rewrite Hl. rewrite Heq at 1 2. apply IH; [|by rewrite <- Heq].
    apply scanned_new; [|done..]. rewrite length_app in Hlen. lia.
Qed.

Lemma plan_pass_spec sl :
  Z.of_nat (length sl) < MAXULONG -> scanned sl (plan_pass sl).
Proof.
  intros Hlen. apply (plan_scan_spec sl []); [|done]. unfold scanned, runs. simpl.
  split_and!; try done; try lia. intros gs gl (A & G & B & H & _). by destruct A.
Qed.

Lemma runs_after_NO A X : runs (A ++ NO :: X) = runs (A ++ [NO]) + runs_from true X.
Proof.
  unfold runs. replace (A ++ NO :: X) with ((A ++ [NO]) ++ X) by by rewrite <- app_assoc.
  rewrite runs_from_app. f_equal. destruct (A ++ [NO]) as [|y l] eqn:E; [by destruct A|].
  rewrite <- E. unfold ends_missing. rewrite last_snoc. by rewrite bool_decide_eq_true_2.
Qed.

Lemma runs_replicate n l : runs_from true (replicate n NO ++ l) = runs_from true l.
Proof. induction n as [|n IH]; cbn [replicate app runs_from]; [done|]. rewrite Z.eqb_refl. lia. Qed.

Lemma runs_across_gap G B : G <> [] -> Forall is_held G -> runs_from true (G ++ NO :: B) = 1 + runs_from true B.
Proof.
  intros HG Hh. rewrite runs_from_app, runs_held by done. destruct G as [|g G _] using rev_ind; [done|].
  destruct (G ++ [g]) as [|y l] eqn:E; [by destruct G|]. rewrite <- E in *.
  unfold ends_missing. rewrite last_snoc. apply Forall_app in Hh as [_ Hg%Forall_inv].
  rewrite bool_decide_eq_false_2 by congruence. cbn [runs_from]. rewrite Z.eqb_refl. lia.
Qed.

(** Giving a gap up joins the two runs around it. *)
Lemma gap_blank sl gs gl :
  gap sl gs gl ->
  exists A G B, sl = A ++ G ++ B /\ Forall is_held G /\
    take (Z.to_nat gl) (drop (Z.to_nat gs) sl) = G /\
    blank_gap sl (Z.to_nat gs) (Z.to_nat gl) = A ++ replicate (length G) NO ++ B /\
    gl = Z.of_nat (length G) /\ gs + gl <= Z.of_nat (length sl) /\
    runs (blank_gap sl (Z.to_nat gs) (Z.to_nat gl)) = runs sl - 1.
Proof.
  intros (A & G & B & Heq & HG & Hh & -> & ->). rewrite !Nat2Z.id.
  exists (A ++ [NO]), G, (NO :: B).
  assert (sl = (A ++ [NO]) ++ G ++ NO :: B) as Heq' by (by rewrite Heq, <- app_assoc).
  assert (length (A ++ [NO]) = S (length A)) as HlA by (rewrite length_app; simpl; lia).
  assert (blank_gap sl (S (length A)) (length G) = (A ++ [NO]) ++ replicate (length G) NO ++ NO :: B) as Hbl.
  { unfold blank_gap. rewrite Heq', <- HlA. rewrite take_app_length. do 2 f_equal.
    rewrite <- drop_drop, drop_app_length, drop_app_length. done. }
  split_and!; try done.
  - rewrite Heq', <- HlA, drop_app_length, take_app_length. done.
  - rewrite Heq, length_app. simpl. rewrite length_app. simpl. lia.
  - rewrite Hbl, Heq, <- app_assoc. cbn [app].
    rewrite (runs_after_NO A (G ++ _)), (runs_after_NO A (replicate _ _ ++ _)).
    rewrite runs_replicate, runs_across_gap by done.
    cbn [runs_from]. rewrite Z.eqb_refl. lia.
Qed.

(** A pinned read: every slot in it holds its block and is pinned for it. *)
Definition readable (ix : DISK_CACHE_INDEX) (sl : list Z) : Prop :=
  (forall i, i ∈ sl -> i <> NO -> exists k, serves ix k i) /\
  (forall i, i <> NO -> slot_count sl i <= pins_of ix i).

(** Blocks of [sl] given up are [NO] in [sl']; the others are kept. *)
Definition given_up (sl sl' : list Z) : Prop := Forall2 (fun a b => b = a \/ b = NO) sl sl'.

Lemma given_up_refl sl : given_up sl sl.
Proof. induction sl; constructor; auto. Qed.

Lemma given_up_trans l1 l2 l3 : given_up l1 l2 -> given_up l2 l3 -> given_up l1 l3.
Proof.
  intros H. revert l3. induction H as [|a b l1 l2 Hab H IH]; intros l3 H3; inversion H3; subst; constructor;
    [naive_solver|]. by apply IH.
Qed.

Lemma given_up_blank A G B : given_up (A ++ G ++ B) (A ++ replicate (length G) NO ++ B).
Proof.
  unfold given_up. apply Forall2_app; [apply given_up_refl|].
  apply Forall2_app; [|apply given_up_refl]. induction G; simpl; constructor; auto.
Qed.

Lemma slot_count_replicate n i : i <> NO -> slot_count (replicate n NO) i = 0.
Proof.
  intros Hi. induction n; cbn [replicate]; [done|].
  rewrite slot_count_cons, decide_False by done. lia.
Qed.

Lemma held_count_replicate n : held_count (replicate n NO) = 0.
Proof. induction n; cbn [replicate held_count]; [done|]. rewrite Z.eqb_refl. lia. Qed.

Lemma held_count_held G : Forall is_held G -> held_count G = Z.of_nat (length G).
Proof.
  induction 1 as [|x G Hx _ IH]; [done|]. cbn [held_count length].
  rewrite (proj2 (Z.eqb_neq _ _) Hx), IH. lia.
Qed.

Lemma plan_loop_spec maxRuns fuel : forall ix sl held,
  wf ix -> Z.of_nat (length sl) < MAXULONG -> runs sl < Z.of_nat fuel ->
  1 <= maxRuns \/ (maxRuns = 0 /\ runs sl = 0) -> readable ix sl -> held_count sl <= held <= MAXULONG ->
  exists ix' sl', plan_loop fuel ix sl held maxRuns = Some (ix', sl', held - (held_count sl - held_count sl')) /\
    wf ix' /\ same_keys ix ix' /\ runs sl' <= maxRuns /\ given_up sl sl' /\
    forall i, i <> NO -> pins_of ix' i = pins_of ix i - (slot_count sl i - slot_count sl' i).
Proof.
  induction fuel as [|fuel IH]; intros ix sl held Hwf Hlen Hfuel Hmax Hrd Hheld.
  { pose proof (runs_nonneg false sl). unfold runs in *. lia. }
  cbn [plan_loop]. pose proof (plan_pass_spec sl Hlen) as Hpass.
  destruct (plan_pass sl) as [[r gs] gl]. destruct Hpass as (-> & _ & Hgap & _).
  destruct (Z.leb_spec (runs sl) maxRuns) as [Hle|Hgt].
  { exists ix, sl. split_and!; eauto using given_up_refl with blorg; [do 2 f_equal; lia|intros; lia]. }
  destruct (gap_blank sl gs gl (Hgap ltac:(lia))) as (A & G & B & Hsl & Hh & Htk & Hbl & Hgl & Hle & Hruns).
  rewrite (proj2 (Z.leb_le _ _) Hle), Htk.
  destruct Hrd as [Hserv Hcnt].
  destruct (unpin_spec false G ix Hwf) as (ix1 & -> & Hwf1 & Hsk & Hpins).
  { intros i Hin. apply Hserv. subst sl. set_solver. }
  { intros i Hi. specialize (Hcnt i Hi). subst sl. rewrite !slot_count_app in Hcnt.
    pose proof (slot_count_nonneg A i). pose proof (slot_count_nonneg B i). lia. }
  cbn [mbind option_bind]. rewrite Hbl in *.
  assert (forall i, i <> NO -> slot_count (A ++ replicate (length G) NO ++ B) i = slot_count sl i - slot_count G i) as Hsc.
  { intros i Hi. subst sl. rewrite !slot_count_app, slot_count_replicate by done. lia. }
  assert (held_count (A ++ replicate (length G) NO ++ B) = held_count sl - gl) as Hhc.
  { subst sl. rewrite !held_count_app, held_count_replicate, (held_count_held G) by done. lia. }
  assert (length (A ++ replicate (length G) NO ++ B) = length sl) as Hlen'.
  { subst sl. by rewrite !length_app, length_replicate. }
  pose proof (held_count_bounds (A ++ replicate (length G) NO ++ B)).
  unfold MAXULONG in *. rewrite u32_id by lia.
  destruct (IH ix1 (A ++ replicate (length G) NO ++ B) (held - gl)) as (ix' & sl' & -> & Hwf' & Hsk' & Hr' & Hgu & Hp');
    try done; try lia.
  { split.
    - intros i Hin Hi. destruct (Hserv i) as [k Hk]; [|done|].
      { subst sl. apply elem_of_app in Hin as [?|[Hin|?]%elem_of_app]; [set_solver| |set_solver].
        apply elem_of_replicate in Hin as [-> _]. done. }
      exists k. eapply serves_same; [by apply same_keys_sym|done].
    - intros i Hi. rewrite Hsc, Hpins by done. specialize (Hcnt i Hi). lia. }
  exists ix', sl'. split_and!; eauto with blorg.
  - do 2 f_equal. lia.
  - eapply given_up_trans; [|done]. subst sl. apply given_up_blank.
  - intros i Hi. rewrite Hp', Hpins, Hsc by done. lia.
Qed.

Lemma plan_read_spec ix sl held maxRuns :
  wf ix -> Z.of_nat (length sl) < MAXULONG -> 1 <= maxRuns \/ (maxRuns = 0 /\ runs sl = 0) ->
  readable ix sl -> held_count sl <= held <= MAXULONG ->
  exists ix' sl', BlorgDiskCacheIndexPlanRead ix sl held maxRuns =
      Some (ix', sl', held - (held_count sl - held_count sl')) /\
    wf ix' /\ same_keys ix ix' /\ runs sl' <= maxRuns /\ given_up sl sl' /\
    forall i, i <> NO -> pins_of ix' i = pins_of ix i - (slot_count sl i - slot_count sl' i).
Proof.
  intros. apply plan_loop_spec; try done. pose proof (runs_nonneg false sl) as Hr.
  fold (runs sl) in Hr. lia.
Qed.

(** ** The planning pass *)

(** One planning pass counts the maximal runs of blocks
    to fetch, and with two or more picks a shortest gap of held blocks between
    two of them. *)
Theorem plan_pass_shortest_gap (sl : list Z) (r gs gl : Z) :
  Z.of_nat (length sl) < MAXULONG -> plan_pass sl = (r, gs, gl) ->
  r = runs sl /\ (2 <= r -> gap sl gs gl /\ forall gs' gl', gap sl gs' gl' -> gl <= gl').
Proof.
  intros Hlen Hp. pose proof (plan_pass_spec sl Hlen) as Hs. rewrite Hp in Hs.
  destruct Hs as (-> & _ & Hg & Hm). split; [done|]. intros H2. split; [by apply Hg|exact Hm].
Qed.

Lemma plan_pass_shortest_gap_witness :
  let sl := [NO; 1; 2; NO; 3; NO; 4; 5; NO] in
  4 = runs sl /\ (2 <= 4 -> gap sl 4 1 /\ forall gs' gl', gap sl gs' gl' -> 1 <= gl').
Proof. exact (plan_pass_shortest_gap [NO; 1; 2; NO; 3; NO; 4; 5; NO] 4 4 1 eq_refl eq_refl). Defined.
