(* ===== verification/DiskCacheIndexSystem.v ===== *)
(** * The disk cache index and its clients

    The index as the rest of the driver uses it: reads that pin, plan and
    unpin, fills that reserve and commit, in any interleaving (each call
    holds the index's lock, so calls are atomic).  The step relation tracks
    what each client owns; the invariant ties the pin counts to it. *)

From S2P Require Import Prelude DiskCacheIndex DiskCacheIndexChains DiskCacheIndexOps DiskCacheIndexReads.

(** ** Initialization *)

Lemma heads_walk_spec c fuel : forall i,
  0 <= i -> 0 < c <= max_slots -> c <= 2 ^ (i + Z.of_nat fuel) ->
  exists n, 0 <= n /\ heads_walk (S fuel) (2 ^ i) c = Some (2 ^ n).
Proof.
  rewrite max_slots_val. induction fuel as [|fuel IH]; intros i Hi Hc Hpow; cbn [heads_walk].
  { rewrite Z.add_0_r in Hpow. rewrite (proj2 (Z.ltb_ge _ _)) by lia. eauto. }
  destruct (Z.ltb_spec (2 ^ i) c); [|eauto].
  assert (u32 (Z.shiftl (2 ^ i) 1) = 2 ^ (i + 1)) as ->.
  { rewrite Z.shiftl_mul_pow2, <- Z.pow_add_r by lia. apply u32_id. split; [lia|].
    rewrite Z.pow_add_r by lia. lia. }
  apply (IH (i + 1)); [lia..|]. replace (i + 1 + Z.of_nat fuel) with (i + Z.of_nat (S fuel)) by lia. done.
Qed.

Lemma initialize_wf c n m :
  0 < c <= max_slots -> 0 <= n -> 0 <= m ->
  wf (mkIndex (replicate (Z.to_nat c) (mkSlot zero_key DISK_CACHE_NO_SLOT 0 DiskCacheSlotFree false))
        (replicate (Z.to_nat (2 ^ n)) DISK_CACHE_NO_SLOT)
        (replicate (Z.to_nat (2 ^ m * DISK_CACHE_GHOST_WAYS)) 0) c (2 ^ n - 1) 0 (2 ^ m - 1)).
Proof.
  intros Hc Hn Hm. unfold DISK_CACHE_GHOST_WAYS.
  assert (0 < 2 ^ n) by (by apply Z.pow_pos_nonneg). assert (0 < 2 ^ m) by (by apply Z.pow_pos_nonneg).
  split; simpl; try done; rewrite ?length_replicate, ?Z2Nat.id by lia; try lia.
  - exists n. rewrite Z.ones_equiv, Z.sub_1_r. done.
  - exists m. rewrite Z.ones_equiv, Z.sub_1_r. done.
  - intros s e ->%rd_replicate. done.
  - intros s1 s2 e1 e2 [H1 Hs1]. simpl in H1. by apply rd_replicate in H1 as ->.
  - intros h head Hh. simpl in *. apply rd_replicate in Hh as ->. exists []. split; [done|].
    split; [constructor|]. intros s. split; [by intros ?%elem_of_nil|].
    intros (e & [He Hst] & _). simpl in He. by apply rd_replicate in He as ->.
Qed.

Lemma initialize_spec slotsOk headsOk ghostsOk c :
  0 <= c ->
  exists st ix, BlorgDiskCacheIndexInitialize slotsOk headsOk ghostsOk c = Some (st, ix) /\
    if (c =? 0) || (max_slots <? c) then st = STATUS_INVALID_PARAMETER /\ ix = zero_index
    else if slotsOk && headsOk && ghostsOk
    then st = STATUS_SUCCESS /\ wf ix /\ SlotCount ix = c /\ forall s e, ~ live ix s e
    else st = STATUS_INSUFFICIENT_RESOURCES /\ ix = zero_index.
Proof.
  intros Hc. unfold BlorgDiskCacheIndexInitialize.
  destruct ((c =? 0) || (max_slots <? c)) eqn:E; [by eexists _, _|].
  apply orb_false_iff in E as [E1%Z.eqb_neq E2%Z.ltb_ge].
  destruct (heads_walk_spec c 32 0) as (n & Hn & Hhw); [lia..| |].
  { rewrite max_slots_val in E2. etransitivity; [exact E2|]. done. }
  change (2 ^ 0) with 1 in Hhw. rewrite Hhw. cbn [mbind option_bind].
  destruct slotsOk, headsOk, ghostsOk; cbn [negb orb andb]; try (by eexists _, _).
  assert (exists m, 0 <= m /\ (if 1 <? 2 ^ n then 2 ^ n / 2 else 1) = 2 ^ m) as (m & Hm & ->).
  { destruct (Z.ltb_spec 1 (2 ^ n)); [|exists 0; done]. exists (n - 1).
    assert (n <> 0) by (intros ->; done). split; [lia|].
    replace n with ((n - 1) + 1) at 1 by lia. rewrite Z.pow_add_r by lia. by rewrite Z.div_mul. }
  eexists _, _. split; [reflexivity|]. split; [done|]. split; [apply initialize_wf; lia|].
  split; [done|]. intros s e [He Hst]. simpl in He. by apply rd_replicate in He as ->.
Qed.

(** ** Clients *)

(** [sys_reads]: the slot arrays of the reads in flight, each from [PinHeld]
    until [Unpin]; [sys_fills]: the slots being filled, each from [Reserve]
    until [Commit]. *)
Record SYSTEM := mkSystem {
  sys_index : DISK_CACHE_INDEX;
  sys_reads : list (list Z);
  sys_fills : list Z
}.

Inductive sys_step : SYSTEM -> SYSTEM -> Prop :=
  | step_pin ix reads fills k last ix' sl n :
      0 <= Block k <= last + 1 -> last < MAXULONG64 ->
      last - Block k < DISK_CACHE_MAX_READ_BLOCKS ->
      (forall i, pins_of ix i + DISK_CACHE_MAX_READ_BLOCKS <= MAXLONG) ->
      BlorgDiskCacheIndexPinHeld ix k last = Some (ix', sl, n) ->
      sys_step (mkSystem ix reads fills) (mkSystem ix' (sl :: reads) fills)
  | step_plan ix r1 sl r2 fills maxRuns ix' sl' held' :
      1 <= maxRuns ->
      BlorgDiskCacheIndexPlanRead ix sl (held_count sl) maxRuns = Some (ix', sl', held') ->
      sys_step (mkSystem ix (r1 ++ sl :: r2) fills) (mkSystem ix' (r1 ++ sl' :: r2) fills)
  | step_unpin ix r1 sl r2 fills served ix' :
      BlorgDiskCacheIndexUnpin ix sl served = Some ix' ->
      sys_step (mkSystem ix (r1 ++ sl :: r2) fills) (mkSystem ix' (r1 ++ r2) fills)
  | step_reserve ix reads fills k ix' a r :
      BlorgDiskCacheIndexReserve ix k = Some (ix', a, r) ->
      sys_step (mkSystem ix reads fills) (mkSystem ix' reads (option_list r ++ fills))
  | step_commit ix reads f1 s f2 written ix' :
      BlorgDiskCacheIndexCommit ix s written = Some ix' ->
      sys_step (mkSystem ix reads (f1 ++ s :: f2)) (mkSystem ix' reads (f1 ++ f2)).

(** A loaded cache before its first client. *)
Definition sys_initial (s : SYSTEM) : Prop :=
  exists c, 0 < c <= max_slots /\
    BlorgDiskCacheIndexInitialize true true true c = Some (STATUS_SUCCESS, sys_index s) /\
    sys_reads s = [] /\ sys_fills s = [].

Definition pinned_slots (s : SYSTEM) : list Z := concat (sys_reads s).

Record sys_inv (s : SYSTEM) : Prop := {
  inv_wf : wf (sys_index s);
  inv_pins : forall i, i <> NO ->
    pins_of (sys_index s) i = slot_count (pinned_slots s) i + slot_count (sys_fills s) i;
  inv_reads : forall i, i ∈ pinned_slots s -> i <> NO -> exists k, serves (sys_index s) k i;
  inv_fills : forall i, i ∈ sys_fills s ->
    exists e, rd (Slots (sys_index s)) i = Some e /\ State e = DiskCacheSlotFilling;
  inv_lens : Forall (fun sl => Z.of_nat (length sl) <= DISK_CACHE_MAX_READ_BLOCKS) (sys_reads s)
}.

(** The invariant lets every call a client may make find what it needs. *)
Lemma inv_readable s sl r1 r2 :
  sys_inv s -> sys_reads s = r1 ++ sl :: r2 -> readable (sys_index s) sl.
Proof.
  intros Hi Hr. split.
  - intros i Hin. apply (inv_reads _ Hi). unfold pinned_slots. rewrite Hr, concat_app. set_solver.
  - intros i Hno. rewrite (inv_pins _ Hi i Hno). unfold pinned_slots. rewrite Hr, concat_app. simpl.
    rewrite !slot_count_app. pose proof (slot_count_nonneg (concat r1) i).
    pose proof (slot_count_nonneg (concat r2) i). pose proof (slot_count_nonneg (sys_fills s) i). lia.
Qed.

Lemma same_keys_fills ix ix' i :
  same_keys ix ix' -> (exists e, rd (Slots ix) i = Some e /\ State e = DiskCacheSlotFilling) ->
  exists e, rd (Slots ix') i = Some e /\ State e = DiskCacheSlotFilling.
Proof.
  intros Hs (e & He & Hst). specialize (Hs i). rewrite He in Hs.
  destruct (rd (Slots ix') i) as [e'|]; [|done]. exists e'. split; [done|]. simpl in Hs. congruence.
Qed.

Lemma same_keys_serves ix ix' i :
  same_keys ix ix' -> (exists k, serves ix k i) -> exists k, serves ix' k i.
Proof. intros Hs [k Hk]. exists k. eapply serves_same; [by apply same_keys_sym|done]. Qed.

(** Steps that change only pins: [pins] moves by what [reads] gains. *)
Lemma inv_repin ix reads fills ix' reads' :
  sys_inv (mkSystem ix reads fills) -> wf ix' -> same_keys ix ix' ->
  (forall i, i <> NO -> pins_of ix' i = pins_of ix i + (slot_count (concat reads') i - slot_count (concat reads) i)) ->
  (forall i, i ∈ concat reads' -> i <> NO -> exists k, serves ix k i) ->
  Forall (fun sl => Z.of_nat (length sl) <= DISK_CACHE_MAX_READ_BLOCKS) reads' ->
  sys_inv (mkSystem ix' reads' fills).
Proof.
  intros [I1 I2 I3 I4 I5] Hwf Hsk Hp Hs Hl. unfold pinned_slots in *. simpl in *.
  split; simpl; unfold pinned_slots; simpl; try done.
  - intros i Hi. rewrite Hp, I2 by done. lia.
  - intros i Hin Hi. eapply same_keys_serves; eauto.
  - intros i Hin. eapply same_keys_fills; eauto.
Qed.

(** Steps that rewrite one slot no client but the stepping one owns. *)
Lemma inv_rewrite ix reads fills ix' s fills' e' :
  sys_inv (mkSystem ix reads fills) -> wf ix' -> kept_but (Some s) ix ix' -> s <> NO ->
  rd (Slots ix') s = Some e' -> s ∉ concat reads ->
  Pins e' = slot_count fills' s -> (s ∈ fills' -> State e' = DiskCacheSlotFilling) ->
  (forall i, i <> s -> slot_count fills' i = slot_count fills i) ->
  (forall i, i ∈ fills' -> i <> s -> i ∈ fills) ->
  sys_inv (mkSystem ix' reads fills').
Proof.
  intros [I1 I2 I3 I4 I5] Hwf Hk Hno He' Hnr Hp Hst Hcnt Hsub. unfold pinned_slots in *. simpl in *.
  assert (slot_count (concat reads) s = 0) as Hs0.
  { unfold slot_count. rewrite (proj1 (count_occ_not_In Z.eq_dec _ _)); [done|].
    by rewrite <- list_elem_of_In. }
  assert (forall i, i <> s -> exists v, vitals <$> rd (Slots ix) i = v /\ vitals <$> rd (Slots ix') i = v) as Hv.
  { intros i Hi. eexists. split; [done|]. apply Hk. congruence. }
  split; simpl; unfold pinned_slots; simpl; try done.
  - intros i Hi. destruct (decide (i = s)) as [->|Hne].
    + unfold pins_of. rewrite He', Hs0. lia.
    + rewrite Hcnt, <- I2 by done. destruct (Hv i Hne) as (v & <- & Hv'). unfold pins_of.
      destruct (rd (Slots ix') i), (rd (Slots ix) i); simpl in Hv'; try done. unfold vitals in *. congruence.
  - intros i Hin Hi. destruct (I3 i Hin Hi) as (k & e & He & Hke & Hse).
    assert (i <> s) as Hne by (intros ->; done). destruct (Hv i Hne) as (v & <- & Hv').
    rewrite He in Hv'. destruct (rd (Slots ix') i) as [e2|] eqn:He2; [|done]. simpl in Hv'.
    injection Hv' as Hk2 Hs2 _. exists k, e2. rewrite Hk2, Hs2. done.
  - intros i Hin. destruct (decide (i = s)) as [->|Hne]; [eauto|].
    destruct (I4 i (Hsub i Hin Hne)) as (e & He & Hse). destruct (Hv i Hne) as (v & <- & Hv').
    rewrite He in Hv'. destruct (rd (Slots ix') i) as [e2|]; [|done]. simpl in Hv'.
    injection Hv' as Hk2 Hs2 _. exists e2. by rewrite Hs2.
Qed.

Lemma reads_split_len r1 (sl : list Z) r2 n :
  Forall (fun sl => Z.of_nat (length sl) <= n) (r1 ++ sl :: r2) ->
  Forall (fun sl => Z.of_nat (length sl) <= n) (r1 ++ r2) /\ Z.of_nat (length sl) <= n.
Proof. rewrite !Forall_app, Forall_cons. tauto. Qed.

Lemma slot_count_concat_mid r1 (sl : list Z) r2 i :
  slot_count (concat (r1 ++ sl :: r2)) i = slot_count (concat (r1 ++ r2)) i + slot_count sl i.
Proof. rewrite !concat_app. simpl. rewrite !slot_count_app. lia. Qed.

Lemma given_up_elem sl sl' i : given_up sl sl' -> i ∈ sl' -> i <> NO -> i ∈ sl.
Proof.
  induction 1 as [|a b l l' Hab _ IH]; [by intros ?%elem_of_nil|].
  intros [->|Hin]%elem_of_cons Hi; [destruct Hab as [->| ->]; [by left|done]|right; auto].
Qed.

Lemma given_up_length sl sl' : given_up sl sl' -> length sl' = length sl.
Proof. intros H. symmetry. by apply Forall2_length in H. Qed.

(** A fill owns its slot alone. *)
Lemma fill_slot_alone ix reads f1 s f2 :
  sys_inv (mkSystem ix reads (f1 ++ s :: f2)) ->
  s <> NO /\ (s ∉ concat reads) /\ slot_count (f1 ++ f2) s = 0.
Proof.
  intros [I1 I2 I3 I4 _]. unfold pinned_slots in *. simpl in *.
  destruct (I4 s ltac:(set_solver)) as (e & He & Hst).
  assert (s <> NO) as Hno by eauto using slot_not_NO.
  pose proof (wf_pins _ I1 _ _ He) as Hp. unfold pins_ok in Hp. rewrite Hst in Hp.
  specialize (I2 s Hno). unfold pins_of in I2. rewrite He, Hp in I2.
  rewrite slot_count_app, slot_count_cons, decide_True in I2 by done.
  pose proof (slot_count_nonneg (concat reads) s). pose proof (slot_count_nonneg f1 s).
  pose proof (slot_count_nonneg f2 s). split_and!; [done| |rewrite slot_count_app; lia].
  intros ?%slot_count_elem. lia.
Qed.

Lemma unpinned_slot_free ix reads fills s e :
  sys_inv (mkSystem ix reads fills) -> s <> NO -> rd (Slots ix) s = Some e -> Pins e = 0 ->
  (s ∉ concat reads) /\ slot_count fills s = 0.
Proof.
  intros [_ I2 _ _ _] Hno He Hp. unfold pinned_slots in *. simpl in *. specialize (I2 s Hno).
  unfold pins_of in I2. rewrite He, Hp in I2. pose proof (slot_count_nonneg (concat reads) s).
  pose proof (slot_count_nonneg fills s). split; [intros ?%slot_count_elem; lia|lia].
Qed.

Lemma not_elem_count l i : slot_count l i = 0 -> i ∉ l.
Proof. intros H ?%slot_count_elem. lia. Qed.

Lemma inv_slots_only ix reads fills ix' :
  sys_inv (mkSystem ix reads fills) -> wf ix' -> kept_but None ix ix' -> sys_inv (mkSystem ix' reads fills).
Proof.
  intros Hi Hwf Hk. apply (inv_repin ix reads fills ix' reads Hi Hwf).
  - intros i. specialize (Hk i ltac:(done)).
    destruct (rd (Slots ix') i), (rd (Slots ix) i); try done. simpl in *. unfold vitals in *. congruence.
  - intros i _. specialize (Hk i ltac:(done)). unfold pins_of.
    destruct (rd (Slots ix') i), (rd (Slots ix) i); try done; simpl in *; [|lia].
    injection Hk as _ _ ->. lia.
  - apply (inv_reads _ Hi).
  - apply (inv_lens _ Hi).
Qed.

Lemma step_reserve_inv ix reads fills k ix' a r :
  sys_inv (mkSystem ix reads fills) -> BlorgDiskCacheIndexReserve ix k = Some (ix', a, r) ->
  sys_inv (mkSystem ix' reads (option_list r ++ fills)).
Proof.
  intros Hi Hr. destruct (reserve_spec ix k (inv_wf _ Hi)) as (ix0 & a0 & r0 & Hr0 & Hwf & Hpost).
  rewrite Hr in Hr0. injection Hr0 as <- <- <-. destruct a; simpl in Hpost.
  - destruct Hpost as (_ & _ & s & e' & -> & Hv & Hk & He' & Hvit).
    destruct (victim_spec_unpinned _ _ Hv) as (e & He & Hp).
    assert (s <> NO) as Hno by eauto using slot_not_NO, inv_wf.
    destruct (unpinned_slot_free _ _ _ _ _ Hi Hno He Hp) as [Hnr Hnf].
    injection Hvit as Hk' Hst' Hp'.
    apply (inv_rewrite ix reads fills ix' s ([s] ++ fills) e'); try done.
    + rewrite slot_count_app, Hnf, Hp'. unfold slot_count. simpl. destruct (Z.eq_dec s s); done.
    + intros i Hne. rewrite slot_count_app. unfold slot_count at 1. simpl. destruct (Z.eq_dec s i); [congruence|done].
    + set_solver.
  - destruct Hpost as (_ & -> & ->). done.
  - destruct Hpost as (_ & _ & -> & _ & l & ->). by apply (inv_slots_only ix).
  - destruct Hpost as (_ & _ & -> & _ & Hk & _). by apply (inv_slots_only ix).
Qed.

Lemma step_commit_inv ix reads f1 s f2 written ix' :
  sys_inv (mkSystem ix reads (f1 ++ s :: f2)) -> BlorgDiskCacheIndexCommit ix s written = Some ix' ->
  sys_inv (mkSystem ix' reads (f1 ++ f2)).
Proof.
  intros Hi Hc. destruct (fill_slot_alone _ _ _ _ _ Hi) as (Hno & Hnr & Hnf).
  destruct (inv_fills _ Hi s ltac:(simpl; set_solver)) as (e & He & Hst). simpl in He.
  destruct (commit_spec ix s e written (inv_wf _ Hi) He Hst) as (ix0 & e' & Hc0 & Hwf & Hk & He' & Hv).
  rewrite Hc in Hc0. injection Hc0 as <-. injection Hv as _ Hst' Hp'.
  apply (inv_rewrite ix reads (f1 ++ s :: f2) ix' s (f1 ++ f2) e'); try done.
  - by rewrite Hnf.
  - intros Hin. by apply not_elem_count in Hnf.
  - intros i Hne. rewrite !slot_count_app, slot_count_cons, decide_False by done. lia.
  - intros i. set_solver.
Qed.

Lemma pin_held_spec ix k last :
  wf ix -> 0 <= Block k <= last + 1 -> last < MAXULONG64 -> last - Block k < DISK_CACHE_MAX_READ_BLOCKS ->
  (forall i, pins_of ix i + DISK_CACHE_MAX_READ_BLOCKS <= MAXLONG) ->
  exists ix' sl, BlorgDiskCacheIndexPinHeld ix k last = Some (ix', sl, held_count sl) /\ wf ix' /\
    Z.of_nat (length sl) = last - Block k + 1 /\ same_keys ix ix' /\
    (forall j s, sl !! j = Some s -> answers ix (set_Block k (Block k + Z.of_nat j)) s) /\
    (forall i, i <> NO -> pins_of ix' i = pins_of ix i + slot_count sl i).
Proof.
  unfold DISK_CACHE_MAX_READ_BLOCKS, BlorgDiskCacheIndexPinHeld, MAXLONG. intros Hwf Hb Hlast Hn Hp.
  destruct (pin_walk_spec (Z.to_nat (last - Block k + 1)) ix k last 0) as (ix' & sl & Hpin & Hwf' & Hlen & Hrest);
    unfold MAXULONG, MAXLONG; try done; try lia.
  { intros i. specialize (Hp i). lia. }
  exists ix', sl. rewrite Hpin. split; [done|]. split; [done|]. split; [lia|done].
Qed.

(** The calls that only pin and unpin, with what they answer. *)
Lemma pin_inv ix reads fills k last :
  sys_inv (mkSystem ix reads fills) ->
  0 <= Block k <= last + 1 -> last < MAXULONG64 -> last - Block k < DISK_CACHE_MAX_READ_BLOCKS ->
  (forall i, pins_of ix i + DISK_CACHE_MAX_READ_BLOCKS <= MAXLONG) ->
  exists ix' sl, BlorgDiskCacheIndexPinHeld ix k last = Some (ix', sl, held_count sl) /\
    sys_inv (mkSystem ix' (sl :: reads) fills) /\ same_keys ix ix' /\ Z.of_nat (length sl) = last - Block k + 1 /\
    (forall j s, sl !! j = Some s -> answers ix (set_Block k (Block k + Z.of_nat j)) s).
Proof.
  intros Hi Hb Hlast Hn Hp.
  destruct (pin_held_spec ix k last (inv_wf _ Hi) Hb Hlast Hn Hp) as (ix' & sl & Hpin & Hwf & Hlen & Hsk & Hans & Hpins).
  exists ix', sl. split_and!; try done. apply (inv_repin ix reads fills ix' (sl :: reads) Hi Hwf Hsk).
  - intros i Hno. rewrite Hpins by done. simpl. rewrite slot_count_app. lia.
  - intros i Hin Hno. simpl in Hin. apply elem_of_app in Hin as [Hin|Hin]; [|by apply (inv_reads _ Hi)].
    apply list_elem_of_lookup in Hin as [j Hj]. destruct (Hans j i Hj) as [[-> _]|[_ Hs]]; [done|eauto].
  - constructor; [lia|apply (inv_lens _ Hi)].
Qed.

Lemma plan_inv ix r1 sl r2 fills maxRuns :
  sys_inv (mkSystem ix (r1 ++ sl :: r2) fills) -> 1 <= maxRuns \/ (maxRuns = 0 /\ runs sl = 0) ->
  exists ix' sl', BlorgDiskCacheIndexPlanRead ix sl (held_count sl) maxRuns = Some (ix', sl', held_count sl') /\
    sys_inv (mkSystem ix' (r1 ++ sl' :: r2) fills) /\ same_keys ix ix' /\ runs sl' <= maxRuns /\ given_up sl sl'.
Proof.
  intros Hi Hm. pose proof (inv_lens _ Hi) as [Hl1 Hl2]%reads_split_len. simpl in *.
  pose proof (inv_readable _ sl r1 r2 Hi eq_refl) as Hrd. pose proof (held_count_bounds sl) as Hhb. unfold DISK_CACHE_MAX_READ_BLOCKS in *.
  destruct (plan_read_spec ix sl (held_count sl) maxRuns (inv_wf _ Hi)) as (ix' & sl' & Hp & Hwf & Hsk & Hruns & Hgu & Hpins);
    unfold MAXULONG in *; [lia|done|done|lia|].
  exists ix', sl'. split; [rewrite Hp; do 2 f_equal; lia|]. split_and!; try done.
  apply (inv_repin ix (r1 ++ sl :: r2) fills ix' (r1 ++ sl' :: r2) Hi Hwf Hsk).
  - intros i Hno. rewrite Hpins, !slot_count_concat_mid by done. lia.
  - intros i Hin Hno. apply (inv_reads _ Hi); [|done]. unfold pinned_slots. simpl.
    rewrite !concat_app in *. simpl in *. pose proof (given_up_elem sl sl' i Hgu). set_solver.
  - rewrite Forall_app, Forall_cons. rewrite Forall_app in Hl1. split_and!; try tauto.
    by rewrite (given_up_length _ _ Hgu).
Qed.

Lemma unpin_inv ix r1 sl r2 fills served :
  sys_inv (mkSystem ix (r1 ++ sl :: r2) fills) ->
  exists ix', BlorgDiskCacheIndexUnpin ix sl served = Some ix' /\ sys_inv (mkSystem ix' (r1 ++ r2) fills) /\ same_keys ix ix'.
Proof.
  intros Hi. pose proof (inv_lens _ Hi) as [Hl1 Hl2]%reads_split_len. simpl in *.
  pose proof (inv_readable _ sl r1 r2 Hi eq_refl) as [Hrd1 Hrd2].
  destruct (unpin_spec served sl ix (inv_wf _ Hi) Hrd1 Hrd2) as (ix' & Hu & Hwf & Hsk & Hpins).
  exists ix'. split_and!; try done. apply (inv_repin ix (r1 ++ sl :: r2) fills ix' (r1 ++ r2) Hi Hwf Hsk); [| |done].
  - intros i Hno. rewrite Hpins, slot_count_concat_mid by done. lia.
  - intros i Hin Hno. apply (inv_reads _ Hi); [|done]. unfold pinned_slots. simpl. rewrite !concat_app in *. set_solver.
Qed.

Lemma sys_step_inv s s' : sys_inv s -> sys_step s s' -> sys_inv s'.
Proof.
  intros Hi Hstep. destruct Hstep as
    [ix reads fills k last ix' sl n Hb Hlast Hn Hp Hpin|ix r1 sl r2 fills maxRuns ix' sl' held' Hm Hplan
    |ix r1 sl r2 fills served ix' Hun|ix reads fills k ix' a r Hr|ix reads f1 s f2 written ix' Hc];
    eauto using step_reserve_inv, step_commit_inv.
  - destruct (pin_inv _ _ _ _ _ Hi Hb Hlast Hn Hp) as (ix0 & sl0 & Hpin0 & Hinv & _). by simplify_eq.
  - destruct (plan_inv _ _ _ _ _ maxRuns Hi ltac:(by left)) as (ix0 & sl0 & Hp0 & Hinv & _). by simplify_eq.
  - destruct (unpin_inv _ _ _ _ _ served Hi) as (ix0 & Hu0 & Hinv & _). by simplify_eq.
Qed.
