(* ===== verification/DiskCacheIndexSpec.v ===== *)
(** * The disk cache index: abstract specification and refinement

    What src/DiskCache.h promises of the index, without chains, clock, marks,
    ghosts or pin counts: a finite map from keys to the slot that holds or
    is filling them, the reads in flight and the fills in flight.  Every
    step of the real index is a step of this machine. *)

From S2P Require Import Prelude DiskCacheIndex DiskCacheIndexChains DiskCacheIndexOps DiskCacheIndexReads DiskCacheIndexSystem.

Record SPEC := mkSpec {
  spec_held : gmap DISK_CACHE_KEY (Z * DISK_CACHE_SLOT_STATE);
  spec_reads : list (list Z);
  spec_fills : list Z
}.

Definition without_slot (s : Z) (m : gmap DISK_CACHE_KEY (Z * DISK_CACHE_SLOT_STATE))
    : gmap DISK_CACHE_KEY (Z * DISK_CACHE_SLOT_STATE) :=
  filter (fun kv => kv.2.1 <> s) m.

(** What a read of key [k] finds: a slot only if its bytes are on disk. *)
Definition spec_answer (m : gmap DISK_CACHE_KEY (Z * DISK_CACHE_SLOT_STATE)) (k : DISK_CACHE_KEY) : Z :=
  match m !! k with
  | Some (s, DiskCacheSlotValid) => s
  | _ => NO
  end.

Inductive spec_step : SPEC -> SPEC -> Prop :=
  | spec_pin m reads fills k sl :
      (forall j s, sl !! j = Some s -> s = spec_answer m (set_Block k (Block k + Z.of_nat j))) ->
      spec_step (mkSpec m reads fills) (mkSpec m (sl :: reads) fills)
  | spec_plan m r1 sl r2 fills sl' :
      given_up sl sl' ->
      spec_step (mkSpec m (r1 ++ sl :: r2) fills) (mkSpec m (r1 ++ sl' :: r2) fills)
  | spec_unpin m r1 sl r2 fills :
      spec_step (mkSpec m (r1 ++ sl :: r2) fills) (mkSpec m (r1 ++ r2) fills)
  | spec_refuse m reads fills :
      spec_step (mkSpec m reads fills) (mkSpec m reads fills)
  | spec_reserve m reads fills k s :
      m !! k = None -> s <> NO -> s ∉ concat reads -> s ∉ fills ->
      spec_step (mkSpec m reads fills)
        (mkSpec (<[k := (s, DiskCacheSlotFilling)]> (without_slot s m)) reads (s :: fills))
  | spec_commit m reads f1 s f2 k :
      m !! k = Some (s, DiskCacheSlotFilling) -> s ∉ concat reads -> s ∉ f1 ++ f2 ->
      spec_step (mkSpec m reads (f1 ++ s :: f2)) (mkSpec (<[k := (s, DiskCacheSlotValid)]> m) reads (f1 ++ f2))
  | spec_discard m reads f1 s f2 k :
      m !! k = Some (s, DiskCacheSlotFilling) -> s ∉ concat reads -> s ∉ f1 ++ f2 ->
      spec_step (mkSpec m reads (f1 ++ s :: f2)) (mkSpec (delete k m) reads (f1 ++ f2)).

(** The abstraction: what the slots hold. *)
Definition slot_entry (ie : Z * DISK_CACHE_SLOT) : option (DISK_CACHE_KEY * (Z * DISK_CACHE_SLOT_STATE)) :=
  if decide (State ie.2 = DiskCacheSlotFree) then None else Some (Key ie.2, (ie.1, State ie.2)).

Definition contents (ix : DISK_CACHE_INDEX) : gmap DISK_CACHE_KEY (Z * DISK_CACHE_SLOT_STATE) :=
  list_to_map (omap slot_entry (imap (fun n e => (Z.of_nat n, e)) (Slots ix))).

Definition abstract (s : SYSTEM) : SPEC := mkSpec (contents (sys_index s)) (sys_reads s) (sys_fills s).

Lemma elem_of_entries ix k s st :
  (k, (s, st)) ∈ omap slot_entry (imap (fun n e => (Z.of_nat n, e)) (Slots ix)) <->
  exists e, live ix s e /\ Key e = k /\ State e = st.
Proof.
  rewrite list_elem_of_omap. split.
  - intros ([i e] & Hin & He). apply elem_of_lookup_imap in Hin as (n & e0 & [= -> ->] & Hn).
    unfold slot_entry in He. simpl in He. case_decide; simplify_eq. exists e0. split_and!; try done.
    split; [|done]. unfold rd. rewrite (proj2 (Z.leb_le _ _)), Nat2Z.id by lia. done.
  - intros (e & [He Hst] & <- & <-). exists (s, e). split.
    + apply elem_of_lookup_imap. exists (Z.to_nat s), e. pose proof (rd_Some _ _ _ He).
      rewrite Z2Nat.id by lia. split; [done|]. unfold rd in He.
      by rewrite (proj2 (Z.leb_le _ _)) in He by lia.
    + unfold slot_entry. simpl. by rewrite decide_False.
Qed.

Lemma contents_lookup ix k s st :
  wf ix -> contents ix !! k = Some (s, st) <-> exists e, live ix s e /\ Key e = k /\ State e = st.
Proof.
  intros Hwf. unfold contents. rewrite <- elem_of_entries. split.
  - apply elem_of_list_to_map_2.
  - intros Hin. apply elem_of_list_to_map_1'; [|done].
    intros [s' st'] Hin'. apply elem_of_entries in Hin as (e & Hl & Hk & <-), Hin' as (e' & Hl' & Hk' & <-).
    assert (s' = s) as -> by (eapply (wf_keys _ Hwf); [done..|congruence]).
    destruct Hl, Hl'. congruence.
Qed.

Lemma contents_none ix k : wf ix -> ~ holds ix k -> contents ix !! k = None.
Proof.
  intros Hwf Hn. destruct (contents ix !! k) as [[s st]|] eqn:E; [|done].
  apply contents_lookup in E as (e & ? & ? & _); [|done]. exfalso. apply Hn. by exists s, e.
Qed.

(** Two indexes with the same answers have the same contents. *)
Lemma contents_eq ix m :
  wf ix -> (forall k s st, m !! k = Some (s, st) <-> exists e, live ix s e /\ Key e = k /\ State e = st) ->
  contents ix = m.
Proof.
  intros Hwf Hm. apply map_eq. intros k. apply option_eq. intros [s st].
  by rewrite Hm, contents_lookup.
Qed.

Lemma contents_same ix ix' : wf ix -> wf ix' -> same_keys ix ix' -> contents ix' = contents ix.
Proof.
  intros Hwf Hwf' Hs. apply contents_eq; [done|]. intros k s st. rewrite contents_lookup by done.
  specialize (Hs s). unfold live. split; intros (e & [He Hst] & Hk & <-); rewrite He in Hs.
  - destruct (rd (Slots ix') s) as [e'|]; [|done]. injection Hs as Hk' Hs'. exists e'. split_and!; congruence.
  - destruct (rd (Slots ix) s) as [e'|]; [|done]. injection Hs as Hk' Hs'. exists e'. split_and!; congruence.
Qed.

Lemma kept_same_keys ix ix' : kept_but None ix ix' -> same_keys ix ix'.
Proof.
  intros Hk i. specialize (Hk i ltac:(done)).
  destruct (rd (Slots ix') i), (rd (Slots ix) i); try done. simpl in *. unfold vitals in *. congruence.
Qed.

(** A slot other than the rewritten one, in both indexes. *)
Lemma kept_but_live s ix ix' i k st :
  kept_but (Some s) ix ix' -> i <> s ->
  (exists e, live ix' i e /\ Key e = k /\ State e = st) <-> (exists e, live ix i e /\ Key e = k /\ State e = st).
Proof.
  intros Hk Hi. specialize (Hk i ltac:(congruence)). unfold live. split; intros (e & [He Hst] & Hke & Hse);
    rewrite He in Hk; simpl in Hk.
  - destruct (rd (Slots ix) i) as [e0|]; [|done]. injection Hk as ? ? ?. exists e0. split_and!; congruence.
  - destruct (rd (Slots ix') i) as [e0|]; [|done]. injection Hk as ? ? ?. exists e0. split_and!; congruence.
Qed.

Lemma spec_answer_answers ix k s : wf ix -> answers ix k s -> s = spec_answer (contents ix) k.
Proof.
  intros Hwf Ha. unfold spec_answer. destruct Ha as [[-> Hno]|[Hs (e & He & Hk & Hst)]].
  - destruct (contents ix !! k) as [[s' st']|] eqn:E; [|done].
    apply contents_lookup in E as (e & [He _] & Hk & Hst); [|done].
    destruct st'; try done. exfalso. apply (Hno s'). by exists e.
  - assert (contents ix !! k = Some (s, DiskCacheSlotValid)) as ->; [|done].
    apply contents_lookup; [done|]. exists e. split_and!; [|done..]. split; [done|congruence].
Qed.

Lemma live_at ix i e k st : rd (Slots ix) i = Some e -> (exists e0, live ix i e0 /\ Key e0 = k /\ State e0 = st) ->
  Key e = k /\ State e = st.
Proof. intros He (e0 & [He0 _] & <- & <-). by simplify_eq. Qed.

Lemma reserve_refines ix reads fills k ix' a r :
  sys_inv (mkSystem ix reads fills) -> BlorgDiskCacheIndexReserve ix k = Some (ix', a, r) ->
  spec_step (mkSpec (contents ix) reads fills) (mkSpec (contents ix') reads (option_list r ++ fills)).
Proof.
  intros Hi Hr. pose proof (inv_wf _ Hi) as Hwf. simpl in Hwf.
  destruct (reserve_spec ix k Hwf) as (ix0 & a0 & r0 & Hr0 & Hwf' & Hpost).
  rewrite Hr in Hr0. injection Hr0 as <- <- <-. destruct a; simpl in Hpost.
  - destruct Hpost as (Hnh & _ & s & e' & -> & Hv & Hk & He' & [= Hke' Hst' Hp']).
    destruct (victim_spec_unpinned _ _ Hv) as (e & He & Hp).
    assert (s <> NO) as Hno by eauto using slot_not_NO.
    destruct (unpinned_slot_free _ _ _ _ _ Hi Hno He Hp) as [Hnr Hnf].
    replace (contents ix') with (<[k := (s, DiskCacheSlotFilling)]> (without_slot s (contents ix))).
    { apply spec_reserve; eauto using contents_none, not_elem_count. }
    symmetry. apply contents_eq; [done|]. intros k0 i st. rewrite lookup_insert. case_decide as Hkk.
    + subst k0. split.
      * intros [= <- <-]. exists e'. split_and!; try done. split; [done|congruence].
      * intros Hex. destruct (decide (i = s)) as [->|Hne].
        -- destruct (live_at _ _ _ _ _ He' Hex) as [_ <-]. by rewrite Hst'.
        -- rewrite (kept_but_live s ix ix') in Hex by done. destruct Hex as (e0 & ? & ? & _).
           exfalso. apply Hnh. by exists i, e0.
    + unfold without_slot. rewrite map_lookup_filter_Some. simpl. rewrite contents_lookup by done.
      destruct (decide (i = s)) as [->|Hne].
      * split; [by intros [_ ?]|]. intros Hex.
        destruct (live_at _ _ _ _ _ He' Hex) as [? _]. congruence.
      * rewrite (kept_but_live s ix ix') by done. naive_solver.
  - destruct Hpost as (_ & -> & ->). apply spec_refuse.
  - destruct Hpost as (_ & _ & -> & _ & l & ->). apply spec_refuse.
  - destruct Hpost as (_ & _ & -> & _ & Hk & _). rewrite (contents_same ix ix') by eauto using kept_same_keys.
    apply spec_refuse.
Qed.

Lemma commit_refines ix reads f1 s f2 written ix' :
  sys_inv (mkSystem ix reads (f1 ++ s :: f2)) -> BlorgDiskCacheIndexCommit ix s written = Some ix' ->
  spec_step (mkSpec (contents ix) reads (f1 ++ s :: f2)) (mkSpec (contents ix') reads (f1 ++ f2)).
Proof.
  intros Hi Hc. destruct (fill_slot_alone _ _ _ _ _ Hi) as (Hno & Hnr & Hnf%not_elem_count).
  pose proof (inv_wf _ Hi) as Hwf. simpl in Hwf.
  destruct (inv_fills _ Hi s ltac:(simpl; set_solver)) as (e & He & Hst). simpl in He.
  destruct (commit_spec ix s e written Hwf He Hst) as (ix0 & e' & Hc0 & Hwf' & Hk & He' & [= Hke' Hst' Hp']).
  rewrite Hc in Hc0. injection Hc0 as <-.
  assert (contents ix !! Key e = Some (s, DiskCacheSlotFilling)) as Hold.
  { apply contents_lookup; [done|]. exists e. split_and!; try done. split; [done|congruence]. }
  assert (forall i st, i <> s -> ~ exists e0, live ix' i e0 /\ Key e0 = Key e /\ State e0 = st) as Huniq.
  { intros i st Hne Hex. rewrite (kept_but_live s ix ix') in Hex by done.
    destruct Hex as (e0 & Hl0 & Hk0 & _). apply Hne. apply (wf_keys _ Hwf i s e0 e Hl0); [|done].
    split; [done|congruence]. }
  assert (forall k0 i st, k0 <> Key e ->
    contents ix !! k0 = Some (i, st) <-> exists e0, live ix' i e0 /\ Key e0 = k0 /\ State e0 = st) as Hother.
  { intros k0 i st Hk0. rewrite contents_lookup by done. destruct (decide (i = s)) as [->|Hne].
    - split; intros Hex; [destruct (live_at _ _ _ _ _ He Hex)|destruct (live_at _ _ _ _ _ He' Hex)]; congruence.
    - by rewrite (kept_but_live s ix ix'). }
  destruct written.
  - replace (contents ix') with (<[Key e := (s, DiskCacheSlotValid)]> (contents ix)); [by apply spec_commit|].
    symmetry. apply contents_eq; [done|]. intros k0 i st. rewrite lookup_insert. case_decide as Hkk; [|by apply Hother].
    subst k0. split.
    + intros [= <- <-]. exists e'. split_and!; try done. split; [done|congruence].
    + intros Hex. destruct (decide (i = s)) as [->|Hne]; [|by apply Huniq in Hex].
      destruct (live_at _ _ _ _ _ He' Hex) as [_ <-]. by rewrite Hst'.
  - replace (contents ix') with (delete (Key e) (contents ix)); [by apply spec_discard|].
    symmetry. apply contents_eq; [done|]. intros k0 i st. rewrite lookup_delete. case_decide as Hkk; [|by apply Hother].
    subst k0. split; [done|]. intros Hex. destruct (decide (i = s)) as [->|Hne]; [|by apply Huniq in Hex].
    destruct Hex as (e0 & [He0 Hs0] & _). rewrite He' in He0. injection He0 as <-. congruence.
Qed.

Lemma step_refines s s' : sys_inv s -> sys_step s s' -> spec_step (abstract s) (abstract s').
Proof.
  intros Hi Hstep. pose proof (sys_step_inv _ _ Hi Hstep) as Hi'. destruct Hstep as
    [ix reads fills k last ix' sl n Hb Hlast Hn Hp Hpin|ix r1 sl r2 fills maxRuns ix' sl' held' Hm Hplan
    |ix r1 sl r2 fills served ix' Hun|ix reads fills k ix' a r Hr|ix reads f1 s f2 written ix' Hc];
    unfold abstract; simpl; eauto using reserve_refines, commit_refines;
    pose proof (inv_wf _ Hi) as Hwf; pose proof (inv_wf _ Hi') as Hwf'; simpl in Hwf, Hwf'.
  - destruct (pin_held_spec ix k last Hwf Hb Hlast Hn Hp) as (ix0 & sl0 & Hpin0 & _ & _ & Hsk & Hans & _).
    rewrite Hpin in Hpin0. injection Hpin0 as <- <- _.
    rewrite (contents_same ix ix') by done. apply (spec_pin _ _ _ k).
    intros j s Hj. apply spec_answer_answers; auto.
  - pose proof (inv_lens _ Hi) as [Hl1 Hl2]%reads_split_len. simpl in *.
    pose proof (inv_readable _ sl r1 r2 Hi eq_refl) as Hrd. pose proof (held_count_bounds sl) as Hhb.
    unfold DISK_CACHE_MAX_READ_BLOCKS in *.
    destruct (plan_read_spec ix sl (held_count sl) maxRuns Hwf) as (ix0 & sl0 & Hp0 & _ & Hsk & _ & Hgu & _);
      unfold MAXULONG in *; [lia..|by left|done|lia|].
    rewrite Hplan in Hp0. injection Hp0 as <- <- _.
    rewrite (contents_same ix ix') by done. by apply spec_plan.
  - pose proof (inv_readable _ sl r1 r2 Hi eq_refl) as [Hrd1 Hrd2].
    destruct (unpin_spec served sl ix Hwf Hrd1 Hrd2) as (ix0 & Hu0 & _ & Hsk & _).
    rewrite Hun in Hu0. injection Hu0 as <-. rewrite (contents_same ix ix') by done. apply spec_unpin.
Qed.
