(* ===== verification/DiskCacheIndexTheorems.v ===== *)
(** * The disk cache index: what is proved of it *)

From S2P Require Import Prelude DiskCacheIndex DiskCacheIndexChains DiskCacheIndexOps DiskCacheIndexReads DiskCacheIndexSystem DiskCacheIndexSpec.

(** States some sequence of client calls reaches from a fresh index. *)
Definition reachable (s : SYSTEM) : Prop := exists s0, sys_initial s0 /\ rtc sys_step s0 s.

Lemma initial_inv s : sys_initial s -> sys_inv s /\ contents (sys_index s) = ∅.
Proof.
  intros (c & Hc & Hinit & Hr & Hf).
  destruct (initialize_spec true true true c ltac:(lia)) as (st & ix & Hi & Hpost).
  rewrite Hinit in Hi. injection Hi as <- <-.
  rewrite (proj2 (Z.eqb_neq c 0)), (proj2 (Z.ltb_ge max_slots c)) in Hpost by lia. simpl in Hpost.
  destruct Hpost as (_ & Hwf & _ & Hno). destruct s as [ix reads fills]; simpl in *. subst. split.
  - split; simpl; [done| |by intros i Hin; inversion Hin|by intros i Hin; inversion Hin|constructor].
    intros i _. unfold pins_of, slot_count, pinned_slots. simpl.
    destruct (rd (Slots ix) i) as [e|] eqn:He; [|done].
    pose proof (wf_pins _ Hwf _ _ He) as Hp. unfold pins_ok in Hp.
    destruct (State e) eqn:Hst; [done|exfalso; apply (Hno i e); split; [done|congruence]..].
  - apply contents_eq; [done|]. intros k s st. rewrite lookup_empty. split; [done|].
    intros (e & Hl & _). by apply Hno in Hl.
Qed.

Lemma steps_inv s s' : rtc sys_step s s' -> sys_inv s -> sys_inv s'.
Proof. induction 1; eauto using sys_step_inv. Qed.

Lemma reachable_inv s : reachable s -> sys_inv s.
Proof. intros (s0 & H0 & Hs). eapply steps_inv; [done|]. by apply initial_inv. Qed.

(** A key a slot was given stays while some client owns the slot. *)
Definition owned (s : SYSTEM) (i : Z) : Prop := i ∈ pinned_slots s \/ i ∈ sys_fills s.
Definition key_of (s : SYSTEM) (i : Z) : option DISK_CACHE_KEY := Key <$> rd (Slots (sys_index s)) i.

Lemma same_keys_key ix ix' i : same_keys ix ix' -> Key <$> rd (Slots ix') i = Key <$> rd (Slots ix) i.
Proof.
  intros H. specialize (H i). destruct (rd (Slots ix') i), (rd (Slots ix) i); try done. simpl in *. congruence.
Qed.

Lemma kept_but_key s ix ix' i : kept_but s ix ix' -> s <> Some i -> Key <$> rd (Slots ix') i = Key <$> rd (Slots ix) i.
Proof.
  intros H Hi. specialize (H i Hi). destruct (rd (Slots ix') i), (rd (Slots ix) i); try done.
  simpl in *. unfold vitals in *. congruence.
Qed.

Lemma step_owned_key s s' i : sys_inv s -> sys_step s s' -> i <> NO -> owned s i -> key_of s' i = key_of s i.
Proof.
  intros Hi Hstep Hno Hown. unfold key_of, owned, pinned_slots in *. pose proof (inv_wf _ Hi) as Hwf.
  destruct Hstep as
    [ix reads fills k last ix' sl n Hb Hlast Hn Hp Hpin|ix r1 sl r2 fills maxRuns ix' sl' held' Hm Hplan
    |ix r1 sl r2 fills served ix' Hun|ix reads fills k ix' a r Hr|ix reads f1 s f2 written ix' Hc]; simpl in *.
  - destruct (pin_held_spec ix k last Hwf Hb Hlast Hn Hp) as (ix0 & sl0 & Hpin0 & _ & _ & Hsk & _).
    rewrite Hpin in Hpin0. injection Hpin0 as <- <- _. by apply same_keys_key.
  - pose proof (inv_lens _ Hi) as [Hl1 Hl2]%reads_split_len. simpl in *.
    pose proof (inv_readable _ sl r1 r2 Hi eq_refl) as Hrd. pose proof (held_count_bounds sl) as Hhb.
    unfold DISK_CACHE_MAX_READ_BLOCKS in *.
    destruct (plan_read_spec ix sl (held_count sl) maxRuns Hwf) as (ix0 & sl0 & Hp0 & _ & Hsk & _);
      unfold MAXULONG in *; [lia..|by left|done|lia|].
    rewrite Hplan in Hp0. injection Hp0 as <- _ _. by apply same_keys_key.
  - pose proof (inv_readable _ sl r1 r2 Hi eq_refl) as [Hrd1 Hrd2].
    destruct (unpin_spec served sl ix Hwf Hrd1 Hrd2) as (ix0 & Hu0 & _ & Hsk & _).
    rewrite Hun in Hu0. injection Hu0 as <-. by apply same_keys_key.
  - destruct (reserve_spec ix k Hwf) as (ix0 & a0 & r0 & Hr0 & _ & Hpost).
    rewrite Hr in Hr0. injection Hr0 as <- <- <-. destruct a; simpl in Hpost.
    + destruct Hpost as (_ & _ & s & e' & _ & Hv & Hk & _). apply (kept_but_key (Some s)); [done|].
      intros [= ->]. destruct (victim_spec_unpinned _ _ Hv) as (e & He & Hp).
      destruct (unpinned_slot_free _ _ _ _ _ Hi Hno He Hp) as [Hnr Hnf%not_elem_count]. tauto.
    + by destruct Hpost as (_ & -> & _).
    + by destruct Hpost as (_ & _ & _ & _ & l & ->).
    + destruct Hpost as (_ & _ & _ & _ & Hk & _). by apply (kept_but_key None).
  - destruct (inv_fills _ Hi s ltac:(simpl; set_solver)) as (e & He & Hst). simpl in He.
    destruct (commit_spec ix s e written Hwf He Hst) as (ix0 & e' & Hc0 & _ & Hk & He' & [= Hke' _ _]).
    rewrite Hc in Hc0. injection Hc0 as <-. destruct (decide (i = s)) as [->|Hne].
    + rewrite He, He'. simpl. congruence.
    + apply (kept_but_key (Some s)); [done|congruence].
Qed.

(** ** A small run, for the examples below *)

Definition demo_key : DISK_CACHE_KEY := mkKey 11 22 131072 77 0.
Definition demo_index : DISK_CACHE_INDEX :=
  match BlorgDiskCacheIndexInitialize true true true 4 with Some (_, ix) => ix | None => zero_index end.
Definition after_reserve (ix : DISK_CACHE_INDEX) (k : DISK_CACHE_KEY) : DISK_CACHE_INDEX :=
  match BlorgDiskCacheIndexReserve ix k with Some (ix, _, _) => ix | None => ix end.
(** [demo_key] missed once, reserved on its second miss, written, pinned. *)
Definition demo1 : DISK_CACHE_INDEX := after_reserve demo_index demo_key.
Definition demo2 : DISK_CACHE_INDEX := after_reserve demo1 demo_key.
Definition demo3 : DISK_CACHE_INDEX := default demo2 (BlorgDiskCacheIndexCommit demo2 0 true).
Definition demo4 : DISK_CACHE_INDEX :=
  match BlorgDiskCacheIndexPinHeld demo3 demo_key 1 with Some (ix, _, _) => ix | None => demo3 end.

Lemma demo_pins_bound ix : (forall i e, rd (Slots ix) i = Some e -> Pins e <= 1) ->
  forall i, pins_of ix i + DISK_CACHE_MAX_READ_BLOCKS <= MAXLONG.
Proof.
  intros H i. unfold pins_of, DISK_CACHE_MAX_READ_BLOCKS, MAXLONG.
  destruct (rd (Slots ix) i) as [e|] eqn:He; [apply H in He|]; lia.
Qed.

Lemma rd_Forall {A} (P : A -> Prop) l : Forall P l -> forall i e, rd l i = Some e -> P e.
Proof.
  intros HF i e. unfold rd. destruct (0 <=? i); [|done]. intros Hl. eapply Forall_lookup_1; eauto.
Qed.

Lemma demo_initial : sys_initial (mkSystem demo_index [] []).
Proof. exists 4. split; [by rewrite max_slots_val|]. split; [vm_compute; reflexivity|done]. Qed.

Lemma demo_pin_bound3 : forall i, pins_of demo3 i + DISK_CACHE_MAX_READ_BLOCKS <= MAXLONG.
Proof.
  apply demo_pins_bound, rd_Forall. vm_compute.
  repeat (constructor; [discriminate|]). constructor.
Qed.

Lemma demo_reserved : rtc sys_step (mkSystem demo_index [] []) (mkSystem demo2 [] [0]).
Proof.
  eapply rtc_l; [apply (step_reserve demo_index [] [] demo_key demo1 DiskCacheFirstMiss None); vm_compute; reflexivity|].
  eapply rtc_once. apply (step_reserve demo1 [] [] demo_key demo2 DiskCacheReserved (Some 0)). vm_compute. reflexivity.
Qed.

Lemma demo_pinned : rtc sys_step (mkSystem demo_index [] []) (mkSystem demo4 [[0; NO]] []).
Proof.
  transitivity (mkSystem demo2 [] [0]); [apply demo_reserved|].
  eapply rtc_l; [apply (step_commit demo2 [] [] 0 [] true demo3); vm_compute; reflexivity|].
  eapply rtc_once. apply (step_pin demo3 [] [] demo_key 1 demo4 [0; NO] 1);
    [by simpl; lia|done|done|apply demo_pin_bound3|vm_compute; reflexivity].
Qed.

Lemma demo_reachable : reachable (mkSystem demo4 [[0; NO]] []).
Proof. exists (mkSystem demo_index [] []). split; [apply demo_initial|apply demo_pinned]. Qed.

(** ** Theorems *)

(** C1: Every sequence of client calls on a freshly
    initialized index is, step by step, a run of the abstract cache (a map
    from keys to slots with reads and fills in flight) from the empty map;
    in particular a read is only ever given the slot of the very key it asked
    for, once its bytes are written, and a reused slot is one nobody owns. *)
Theorem index_refines_spec (s : SYSTEM) :
  reachable s -> rtc spec_step (mkSpec ∅ [] []) (abstract s).
Proof.
  intros (s0 & H0 & Hs). destruct (initial_inv _ H0) as [Hi Hempty].
  assert (mkSpec ∅ [] [] = abstract s0) as ->.
  { destruct H0 as (c & _ & _ & Hr & Hf). unfold abstract. by rewrite Hempty, Hr, Hf. }
  clear H0 Hempty. induction Hs as [|s1 s2 s3 Hst _ IH]; [done|].
  eapply rtc_l; [by apply step_refines|]. apply IH. by eapply sys_step_inv.
Qed.

Lemma index_refines_spec_witness : rtc spec_step (mkSpec ∅ [] []) (abstract (mkSystem demo4 [[0; NO]] [])).
Proof. exact (index_refines_spec _ demo_reachable). Defined.

(** In every reachable state every call a client may make is
    defined: no access is out of range, no assertion fails, every chain walk,
    clock sweep and planning loop ends. *)
Theorem index_calls_defined (s : SYSTEM) :
  reachable s ->
  (forall k, is_Some (BlorgDiskCacheIndexReserve (sys_index s) k)) /\
  (forall f1 i f2 written, sys_fills s = f1 ++ i :: f2 ->
     is_Some (BlorgDiskCacheIndexCommit (sys_index s) i written)) /\
  (forall r1 sl r2 served, sys_reads s = r1 ++ sl :: r2 ->
     is_Some (BlorgDiskCacheIndexUnpin (sys_index s) sl served)) /\
  (forall r1 sl r2 maxRuns, sys_reads s = r1 ++ sl :: r2 -> 1 <= maxRuns ->
     is_Some (BlorgDiskCacheIndexPlanRead (sys_index s) sl (held_count sl) maxRuns)) /\
  (forall k last, 0 <= Block k <= last + 1 -> last < MAXULONG64 -> last - Block k < DISK_CACHE_MAX_READ_BLOCKS ->
     (forall i, pins_of (sys_index s) i + DISK_CACHE_MAX_READ_BLOCKS <= MAXLONG) ->
     is_Some (BlorgDiskCacheIndexPinHeld (sys_index s) k last)).
Proof.
  intros Hr. pose proof (reachable_inv _ Hr) as Hi. pose proof (inv_wf _ Hi) as Hwf. split_and!.
  - intros k. destruct (reserve_spec _ k Hwf) as (? & ? & ? & -> & _). by eexists.
  - intros f1 i f2 written Hf. destruct (inv_fills _ Hi i) as (e & He & Hst); [rewrite Hf; set_solver|].
    destruct (commit_spec _ i e written Hwf He Hst) as (? & ? & -> & _). by eexists.
  - intros r1 sl r2 served Hrd. destruct (inv_readable _ _ _ _ Hi Hrd) as [H1 H2].
    destruct (unpin_spec served sl _ Hwf H1 H2) as (? & -> & _). by eexists.
  - intros r1 sl r2 maxRuns Hrd Hm. pose proof (inv_lens _ Hi) as Hl. rewrite Hrd in Hl.
    apply reads_split_len in Hl as [_ Hl]. unfold DISK_CACHE_MAX_READ_BLOCKS in Hl.
    pose proof (held_count_bounds sl).
    destruct (plan_read_spec _ sl (held_count sl) maxRuns Hwf) as (? & ? & -> & _);
      unfold MAXULONG; [lia|by left|by eapply inv_readable|lia|by eexists].
  - intros k last H1 H2 H3 H4. destruct (pin_held_spec _ k last Hwf H1 H2 H3 H4) as (? & ? & -> & _). by eexists.
Qed.

Lemma index_calls_defined_witness : is_Some (BlorgDiskCacheIndexUnpin demo4 [0; NO] true).
Proof. exact (proj1 (proj2 (proj2 (index_calls_defined _ demo_reachable))) [] [0; NO] [] true eq_refl). Defined.

(** While a read or a fill in flight owns a slot, no call by
    anyone changes which key the slot holds: the bytes behind a pinned slot
    are its key's until the pin is dropped. *)
Theorem owned_slot_keeps_key (s s' : SYSTEM) (i : Z) :
  reachable s -> i <> DISK_CACHE_NO_SLOT -> owned s i ->
  rtc (fun a b => sys_step a b /\ owned b i) s s' -> key_of s' i = key_of s i.
Proof.
  intros Hr%reachable_inv Hno Hown Hs. induction Hs as [|s1 s2 s3 [Hst Hown'] _ IH]; [done|].
  rewrite IH by eauto using sys_step_inv. by apply step_owned_key.
Qed.

Lemma owned_slot_keeps_key_witness :
  key_of (mkSystem (after_reserve demo4 (set_Block demo_key 1)) [[0; NO]] []) 0 = Some demo_key.
Proof.
  rewrite (owned_slot_keeps_key (mkSystem demo4 [[0; NO]] []) _ 0).
  - vm_compute. reflexivity.
  - apply demo_reachable.
  - discriminate.
  - left. unfold pinned_slots. simpl. left.
  - apply rtc_once. split; [|left; unfold pinned_slots; simpl; left].
    apply (step_reserve demo4 [[0; NO]] [] (set_Block demo_key 1) _ DiskCacheFirstMiss None).
    vm_compute. reflexivity.
Defined.

(** [Reserve] on every branch: a key already held is
    [Held] and changes nothing; a key whose tag is not in its ghost set is
    recorded there and is [FirstMiss]; otherwise the clock's victim, if any,
    is given to the key as filling with one pin and every other slot keeps
    key, state and pins, and with none in reach the answer is [NoVictim]. *)
Theorem reserve_outcome (s : SYSTEM) (k : DISK_CACHE_KEY) :
  reachable s ->
  exists ix' a r, BlorgDiskCacheIndexReserve (sys_index s) k = Some (ix', a, r) /\ reserve_post (sys_index s) k ix' a r.
Proof.
  intros Hr. destruct (reserve_spec _ k (inv_wf _ (reachable_inv _ Hr))) as (ix' & a & r & H & _ & Hpost). by exists ix', a, r.
Qed.

Lemma reserve_outcome_witness :
  exists ix' a r, BlorgDiskCacheIndexReserve demo4 (set_Block demo_key 1) = Some (ix', a, r) /\
    reserve_post demo4 (set_Block demo_key 1) ix' a r.
Proof. exact (reserve_outcome _ (set_Block demo_key 1) demo_reachable). Defined.

(** The bounded clock sweep with its in-loop fallback
    computes what its comment says: the first slot within
    [DISK_CACHE_CLOCK_REACH] of the hand that is unpinned and free or
    unmarked, else the first unpinned one, and fails only when every slot in
    reach is pinned; it clears marks of unpinned slots and moves the hand,
    nothing else. *)
Theorem victim_is_clock_choice (s : SYSTEM) :
  reachable s ->
  exists ix', DiskCacheIndexVictim (sys_index s) = Some (ix', default DISK_CACHE_NO_SLOT (victim_spec (sys_index s))) /\
    swept (sys_index s) ix'.
Proof.
  intros Hr. destruct (victim_refines _ (inv_wf _ (reachable_inv _ Hr))) as (ix' & H & _ & Hs). by exists ix'.
Qed.

Lemma victim_is_clock_choice_witness :
  exists ix', DiskCacheIndexVictim demo4 = Some (ix', default DISK_CACHE_NO_SLOT (victim_spec demo4)) /\ swept demo4 ix'.
Proof. exact (victim_is_clock_choice _ demo_reachable). Defined.

(** [PlanRead] ends, leaves at most [maxRuns] runs to
    fetch, turns blocks only from held to fetched, drops exactly the pins of
    the blocks it gives up and returns the number left to serve. *)
Theorem plan_read_correct (s : SYSTEM) (r1 : list (list Z)) (sl : list Z) (r2 : list (list Z)) (maxRuns : Z) :
  reachable s -> sys_reads s = r1 ++ sl :: r2 -> 1 <= maxRuns \/ (maxRuns = 0 /\ runs sl = 0) ->
  exists ix' sl', BlorgDiskCacheIndexPlanRead (sys_index s) sl (held_count sl) maxRuns = Some (ix', sl', held_count sl') /\
    same_keys (sys_index s) ix' /\ runs sl' <= maxRuns /\ given_up sl sl' /\
    forall i, i <> DISK_CACHE_NO_SLOT ->
      pins_of ix' i = pins_of (sys_index s) i - (slot_count sl i - slot_count sl' i).
Proof.
  intros Hr Hin Hmax. pose proof (reachable_inv _ Hr) as Hi. pose proof (inv_wf _ Hi) as Hwf.
  pose proof (inv_readable _ _ _ _ Hi Hin) as Hrd. pose proof (inv_lens _ Hi) as Hl. rewrite Hin in Hl.
  apply reads_split_len in Hl as [_ Hlen]. unfold DISK_CACHE_MAX_READ_BLOCKS in Hlen. set (ix := sys_index s) in *. pose proof (held_count_bounds sl) as Hb. unfold MAXULONG in *.
  destruct (plan_read_spec ix sl (held_count sl) maxRuns Hwf) as (ix' & sl' & Hp & Hrest); unfold MAXULONG; try done; try lia.
  destruct Hrest as (_ & Hk & Hheld & Hrest). exists ix', sl'. rewrite Hp. split; [do 2 f_equal; lia|]. tauto.
Qed.

Lemma demo4_inv : sys_inv (mkSystem demo4 [[0; NO]] []).
Proof. apply reachable_inv, demo_reachable. Qed.

Lemma plan_read_correct_witness :
  exists ix' sl', BlorgDiskCacheIndexPlanRead demo4 [0; NO] 1 1 = Some (ix', sl', held_count sl') /\
    same_keys demo4 ix' /\ runs sl' <= 1 /\ given_up [0; NO] sl' /\
    forall i, i <> NO -> pins_of ix' i = pins_of demo4 i - (slot_count [0; NO] i - slot_count sl' i).
Proof.
  apply (plan_read_correct (mkSystem demo4 [[0; NO]] []) [] [0; NO] [] 1 demo_reachable eq_refl). left. lia.
Defined.

(** [Initialize] on every branch: a slot count of zero or past
    [DISK_CACHE_MAX_MB] is refused, a failed allocation leaves the index empty
    with nothing allocated, and otherwise the index is well formed, has that
    many slots and holds nothing. *)
Theorem initialize_outcome (slotsOk headsOk ghostsOk : bool) (c : Z) :
  0 <= c ->
  exists st ix, BlorgDiskCacheIndexInitialize slotsOk headsOk ghostsOk c = Some (st, ix) /\
    if (c =? 0) || (max_slots <? c) then st = STATUS_INVALID_PARAMETER /\ ix = zero_index
    else if slotsOk && headsOk && ghostsOk
    then st = STATUS_SUCCESS /\ reachable (mkSystem ix [] []) /\ SlotCount ix = c /\ forall s e, ~ live ix s e
    else st = STATUS_INSUFFICIENT_RESOURCES /\ ix = zero_index.
Proof.
  intros Hc. destruct (initialize_spec slotsOk headsOk ghostsOk c Hc) as (st & ix & H & Hpost). exists st, ix. split; [done|].
  destruct (_ || _) eqn:Hrange; [done|]. apply orb_false_iff in Hrange as [Hz Hm]. apply Z.eqb_neq in Hz. apply Z.ltb_ge in Hm.
  destruct (slotsOk && headsOk && ghostsOk) eqn:Hall; [|done]. destruct Hpost as (-> & Hwf & Hcount & Hno).
  apply andb_true_iff in Hall as [Hall ->]. apply andb_true_iff in Hall as [-> ->].
  split_and!; try done. exists (mkSystem ix [] []). split; [|apply rtc_refl]. exists c. split; [lia|done].
Qed.

Lemma initialize_outcome_witness :
  exists ix, BlorgDiskCacheIndexInitialize true false true 5 = Some (STATUS_INSUFFICIENT_RESOURCES, ix) /\ ix = zero_index.
Proof.
  destruct (initialize_outcome true false true 5) as (st & ix & H & Hpost); [lia|]. vm_compute in Hpost.
  destruct Hpost as [-> ->]. exists zero_index. split; [exact H|reflexivity].
Defined.
