(* ===== verification/DiskCacheFill.v ===== *)
(** * The disk cache around its index: fills (src/DiskCache.c)

    The cache's own counters ([Live], [Busy], [FillBytes]), the fills queued
    for the worker and the writes in flight, and the code that copies a
    fetched body into fills, queues them, writes them and settles them.
    Proved here: each of these calls is defined, keeps the index's invariant
    with the fills as its clients, and balances the counters. *)

From S2P Require Import Prelude DiskCacheIndex DiskCacheIndexChains DiskCacheIndexOps DiskCacheIndexReads DiskCacheIndexSystem.

Definition DISK_CACHE_FILL_BACKLOG : Z := 32 * 1024 * 1024.

(** [f_Buffer] is the block's bytes by offset. *)
Record DISK_CACHE_FILL := mkFill { f_Buffer : Z -> Z; f_Slot : Z }.

(** [Writes]: the fills whose write was sent to the device and is not done;
    [Disk]: the cache file's bytes. *)
Record DISK_CACHE := mkDiskCache {
  dc_Index : DISK_CACHE_INDEX;
  Fills : list DISK_CACHE_FILL;
  FillWorkerQueued : bool;
  FillBytes : Z;
  Live : bool;
  Busy : Z;
  Idle : bool;
  Writes : list DISK_CACHE_FILL;
  Disk : Z -> Z
}.

Definition with_Index (dc : DISK_CACHE) (ix : DISK_CACHE_INDEX) : DISK_CACHE :=
  mkDiskCache ix (Fills dc) (FillWorkerQueued dc) (FillBytes dc) (Live dc) (Busy dc) (Idle dc) (Writes dc) (Disk dc).
Definition with_Fills (dc : DISK_CACHE) (l : list DISK_CACHE_FILL) (queued : bool) : DISK_CACHE :=
  mkDiskCache (dc_Index dc) l queued (FillBytes dc) (Live dc) (Busy dc) (Idle dc) (Writes dc) (Disk dc).
Definition with_FillBytes (dc : DISK_CACHE) (n : Z) : DISK_CACHE :=
  mkDiskCache (dc_Index dc) (Fills dc) (FillWorkerQueued dc) n (Live dc) (Busy dc) (Idle dc) (Writes dc) (Disk dc).
Definition with_Busy (dc : DISK_CACHE) (n : Z) : DISK_CACHE :=
  mkDiskCache (dc_Index dc) (Fills dc) (FillWorkerQueued dc) (FillBytes dc) (Live dc) n (Idle dc) (Writes dc) (Disk dc).
Definition with_Writes (dc : DISK_CACHE) (l : list DISK_CACHE_FILL) : DISK_CACHE :=
  mkDiskCache (dc_Index dc) (Fills dc) (FillWorkerQueued dc) (FillBytes dc) (Live dc) (Busy dc) (Idle dc) l (Disk dc).

Definition with_Disk (dc : DISK_CACHE) (d : Z -> Z) : DISK_CACHE :=
  mkDiskCache (dc_Index dc) (Fills dc) (FillWorkerQueued dc) (FillBytes dc) (Live dc) (Busy dc) (Idle dc) (Writes dc) d.

(** ** Counting work *)

Definition DiskCacheLeave (dc : DISK_CACHE) : DISK_CACHE :=
  let n := s32 (Busy dc - 1) in
  mkDiskCache (dc_Index dc) (Fills dc) (FillWorkerQueued dc) (FillBytes dc) (Live dc) n (if n =? 0 then true else Idle dc) (Writes dc) (Disk dc).

(** [stillLive] is the second look at [Live], after the count went up. *)
Definition DiskCacheEnter (dc : DISK_CACHE) (stillLive : bool) : DISK_CACHE * bool :=
  if negb (Live dc) then (dc, false)
  else
    let dc := with_Busy dc (s32 (Busy dc + 1)) in
    if negb stillLive then (DiskCacheLeave dc, false) else (dc, true).

Definition DiskCacheLost (dc : DISK_CACHE) : DISK_CACHE :=
  mkDiskCache (dc_Index dc) (Fills dc) (FillWorkerQueued dc) (FillBytes dc) false (Busy dc) (Idle dc) (Writes dc) (Disk dc).

(** ** Sending, and settling a fill *)

(** [irp]: whether an IRP could be had; nothing is sent without one. *)
Definition DiskCacheIssue (irp : bool) : NTSTATUS := if irp then STATUS_SUCCESS else STATUS_INSUFFICIENT_RESOURCES.

Definition DiskCacheUnchargeFill (dc : DISK_CACHE) : DISK_CACHE := with_FillBytes dc (s64 (FillBytes dc - DISK_CACHE_BLOCK_SIZE)).

Definition DiskCacheFillSettle (dc : DISK_CACHE) (f : DISK_CACHE_FILL) (written : bool) : option DISK_CACHE :=
  ix ← BlorgDiskCacheIndexCommit (dc_Index dc) (f_Slot f) written;
  Some (DiskCacheLeave (DiskCacheUnchargeFill (with_Index dc ix))).

(** The cache file after a write of one block at [slot]. *)
Definition disk_write (disk : Z -> Z) (slot : Z) (block : Z -> Z) : Z -> Z :=
  fun x => if (Z.shiftl slot DISK_CACHE_BLOCK_SHIFT <=? x) && (x <? Z.shiftl slot DISK_CACHE_BLOCK_SHIFT + DISK_CACHE_BLOCK_SIZE)
           then block (x - Z.shiftl slot DISK_CACHE_BLOCK_SHIFT) else disk x.

(** The write at position [i] of [Writes] is done.  A full one left the
    fill's bytes in the slot; [torn] is what one that failed or fell short
    left there. *)
Definition DiskCacheFillDone (dc : DISK_CACHE) (i : nat) (st : NTSTATUS) (information : Z) (torn : Z -> Z) : option DISK_CACHE :=
  f ← Writes dc !! i;
  let written := NT_SUCCESS st && (DISK_CACHE_BLOCK_SIZE =? information) in
  let dc := with_Disk (with_Writes dc (delete i (Writes dc))) (disk_write (Disk dc) (f_Slot f) (if written then f_Buffer f else torn)) in
  DiskCacheFillSettle (if written then dc else DiskCacheLost dc) f written.

(** ** The worker *)

(** One turn per queued fill; [irps k] is whether the [k]th turn gets an IRP. *)
Fixpoint worker_loop (fuel : nat) (dc : DISK_CACHE) (irps : nat -> bool) (k : nat) : option DISK_CACHE :=
  match fuel with
  | O => None
  | S fuel =>
      match Fills dc with
      | [] => Some (with_Fills dc [] false)
      | f :: rest =>
          let dc := with_Fills dc rest (FillWorkerQueued dc) in
          dc ← (if negb (Live dc) || negb (NT_SUCCESS (DiskCacheIssue (irps k)))
                then DiskCacheFillSettle dc f false
                else Some (with_Writes dc (Writes dc ++ [f])));
          worker_loop fuel dc irps (S k)
      end
  end.
Definition DiskCacheFillWorker (dc : DISK_CACHE) (irps : nat -> bool) : option DISK_CACHE :=
  dc ← worker_loop (S (length (Fills dc))) dc irps 0; Some (DiskCacheLeave dc).

Fixpoint abandon (dc : DISK_CACHE) (l : list DISK_CACHE_FILL) : option DISK_CACHE :=
  match l with
  | [] => Some dc
  | f :: l => dc ← DiskCacheFillSettle dc f false; abandon dc l
  end.

(** [workItem]: whether a work item could be allocated. *)
Definition DiskCacheQueueFill (dc : DISK_CACHE) (f : DISK_CACHE_FILL) (workItem : bool) : option DISK_CACHE :=
  let start := negb (FillWorkerQueued dc) in
  let dc := with_Fills dc (Fills dc ++ [f]) true in
  if negb start then Some dc
  else if workItem then Some (with_Busy dc (s32 (Busy dc + 1)))
  else abandon (with_Fills dc [] false) (Fills dc).

(** ** Copying a body into fills *)

(** What the kernel answers while one block is copied: the second look at
    [Live], the three allocations, the work item. *)
Record FILL_ENV := mkFillEnv { fe_live : bool; fe_fill : bool; fe_buffer : bool; fe_mdl : bool; fe_work : bool }.

(** The copy of the block at [start]: [held] bytes of [source], which is the
    body from file offset [offset] on, then zeros. *)
Definition block_copy (source : Z -> Z) (offset start held : Z) : Z -> Z :=
  fun i => if i <? held then source (start - offset + i) else 0.

Fixpoint fill_loop (fuel : nat) (dc : DISK_CACHE) (key : DISK_CACHE_KEY) (source : Z -> Z) (offset stopAt : Z) (env : nat -> FILL_ENV) (k : nat)
    : option DISK_CACHE :=
  match fuel with
  | O => None
  | S fuel =>
      let start := u64 (Z.shiftl (Block key) DISK_CACHE_BLOCK_SHIFT) in
      let stop := Z.min (u64 (start + DISK_CACHE_BLOCK_SIZE)) (Size key) in
      let next dc := fill_loop fuel dc (set_Block key (u64 (Block key + 1))) source offset stopAt env (S k) in
      if (stop <=? start) || (stopAt <? stop) then Some dc
      else
        let dc := with_FillBytes dc (s64 (FillBytes dc + DISK_CACHE_BLOCK_SIZE)) in
        if DISK_CACHE_FILL_BACKLOG <? FillBytes dc then Some (DiskCacheUnchargeFill dc)
        else
          let '(dc, entered) := DiskCacheEnter dc (fe_live (env k)) in
          if negb entered then Some (DiskCacheUnchargeFill dc)
          else
            '(ix, verdict, slot) ← BlorgDiskCacheIndexReserve (dc_Index dc) key;
            let dc := with_Index dc ix in
            match verdict with
            | DiskCacheReserved =>
                slot ← slot;
                if negb (fe_fill (env k) && fe_buffer (env k) && fe_mdl (env k)) then
                  ix ← BlorgDiskCacheIndexCommit ix slot false;
                  Some (DiskCacheLeave (DiskCacheUnchargeFill (with_Index dc ix)))
                else
                  dc ← DiskCacheQueueFill dc (mkFill (block_copy source offset start (u32 (stop - start))) slot) (fe_work (env k));
                  next dc
            | _ => next (DiskCacheLeave (DiskCacheUnchargeFill dc))
            end
  end.

Definition DiskCacheFill (dc : DISK_CACHE) (key : DISK_CACHE_KEY) (source : option (Z -> Z)) (offset len : Z) (env : nat -> FILL_ENV)
    : option DISK_CACHE :=
  match source with
  | None => Some dc
  | Some source =>
      if (len =? 0) || (Size key <? offset) || (u64 (Size key - offset) <? len) then Some dc
      else
        let first := Z.shiftr (u64 (u64 (offset + DISK_CACHE_BLOCK_SIZE) - 1)) DISK_CACHE_BLOCK_SHIFT in
        fill_loop (S (S (Z.to_nat (Z.shiftr len DISK_CACHE_BLOCK_SHIFT)))) dc (set_Block key first) source offset (u64 (offset + len)) env 0
  end.

(** ** Offering a fetch *)

(** [BodyBuffer] is [None] when the body went straight to the reader. *)
Record FILE_BUFFER := mkFileBuffer { BodyBuffer : option (Z -> Z); BodyBufferSize : Z; VersionSize : Z; VersionTime : Z; HasVersion : bool }.

Definition DiskCacheIsVersion (k : DISK_CACHE_KEY) (f : FILE_BUFFER) : bool :=
  HasVersion f && (VersionSize f =? Size k) && (VersionTime f =? ModifiedTime k).

(** A node's key as the last read noted it. *)
Record NODE_KEY := mkNodeKey { DiskCacheFile0 : Z; DiskCacheFile1 : Z; DiskCacheSize : Z; DiskCacheModifiedTime : Z }.

Definition DiskCacheKeyOf (n : NODE_KEY) : option DISK_CACHE_KEY :=
  if DiskCacheFile0 n =? 0 then None
  else Some (mkKey (DiskCacheFile0 n) (DiskCacheFile1 n) (DiskCacheSize n) (DiskCacheModifiedTime n) 0).

Definition BlorgDiskCacheAdmit (dc : DISK_CACHE) (n : NODE_KEY) (f : FILE_BUFFER) (offset len : Z) (env : nat -> FILL_ENV)
    : option (DISK_CACHE * bool) :=
  if negb (Live dc) || negb (bool_decide (is_Some (BodyBuffer f))) || (len =? 0) then Some (dc, true)
  else
    match DiskCacheKeyOf n with
    | None => Some (dc, true)
    | Some key =>
        if negb (DiskCacheIsVersion key f) then Some (dc, false)
        else dc ← DiskCacheFill dc key (BodyBuffer f) offset len env; Some (dc, true)
    end.

(** ** The invariant *)

Section Invariant.

(** The bytes of each version of each file, by the key with block zero: a key
    stands for its bytes. *)
Context (file : DISK_CACHE_KEY -> Z -> Z).

(** Byte [i] of the block [k] names: the file's, or zero past its end. *)
Definition block_byte (k : DISK_CACHE_KEY) (i : Z) : Z :=
  let x := Block k * 65536 + i in if x <? Size k then file (set_Block k 0) x else 0.

Definition stored (ix : DISK_CACHE_INDEX) (disk : Z -> Z) : Prop :=
  forall s e, rd (Slots ix) s = Some e -> State e = DiskCacheSlotValid -> forall i, 0 <= i < 65536 -> disk (s * 65536 + i) = block_byte (Key e) i.
Definition copied (ix : DISK_CACHE_INDEX) (f : DISK_CACHE_FILL) : Prop :=
  exists e, rd (Slots ix) (f_Slot f) = Some e /\ forall i, 0 <= i < 65536 -> f_Buffer f i = block_byte (Key e) i.

(** Every fill admitted and not settled; [limbo] are those the running call
    holds. *)
Definition unsettled (dc : DISK_CACHE) (limbo : list DISK_CACHE_FILL) : list DISK_CACHE_FILL := limbo ++ Fills dc ++ Writes dc.

(** [reads]: the slots of the reads in flight; [base]: one until cleanup, then
    zero. *)
Record cache_ok (dc : DISK_CACHE) (base : Z) (reads : list (list Z)) (limbo : list DISK_CACHE_FILL) : Prop := {
  co_sys : sys_inv (mkSystem (dc_Index dc) reads (f_Slot <$> unsettled dc limbo));
  co_disk : stored (dc_Index dc) (Disk dc);
  co_fills : Forall (copied (dc_Index dc)) (unsettled dc limbo);
  co_bytes : FillBytes dc = 65536 * Z.of_nat (length (unsettled dc limbo));
  co_backlog : FillBytes dc <= DISK_CACHE_FILL_BACKLOG;
  co_busy : Busy dc = base + Z.of_nat (length reads) + Z.of_nat (length (unsettled dc limbo)) + (if FillWorkerQueued dc then 1 else 0);
  co_worker : FillWorkerQueued dc = false -> Fills dc = [];
  co_base : 0 <= base <= 1 /\ Z.of_nat (length reads) < 1073741824
}.

Lemma sys_inv_perm ix reads fills fills' : fills ≡ₚ fills' -> sys_inv (mkSystem ix reads fills) -> sys_inv (mkSystem ix reads fills').
Proof.
  intros Hp [I1 I2 I3 I4 I5]. split; try done; cbn in *.
  - intros i Hi. rewrite I2 by done. f_equal. unfold slot_count. f_equal. by apply (proj1 (Permutation_count_occ Z.eq_dec _ _)).
  - intros i Hin. apply I4. by rewrite Hp.
Qed.

Lemma kept_state s ix ix' i e' : kept_but s ix ix' -> Some i <> s -> rd (Slots ix') i = Some e' ->
  exists e, rd (Slots ix) i = Some e /\ Key e = Key e' /\ State e = State e'.
Proof.
  intros Hk Hi He'. specialize (Hk i ltac:(congruence)). rewrite He' in Hk. destruct (rd (Slots ix) i) as [e|]; [|done].
  exists e. cbn in Hk. injection Hk as ? ? ?. done.
Qed.

Lemma stored_kept s ix ix' disk disk' :
  kept_but (Some s) ix ix' -> stored ix disk ->
  (forall e', rd (Slots ix') s = Some e' -> State e' = DiskCacheSlotValid -> forall i, 0 <= i < 65536 -> disk' (s * 65536 + i) = block_byte (Key e') i) ->
  (forall t i, t <> s -> 0 <= i < 65536 -> disk' (t * 65536 + i) = disk (t * 65536 + i)) -> stored ix' disk'.
Proof.
  intros Hk Hst Hs Hd t e' He' Hv i Hi. destruct (Z.eq_dec t s) as [->|Hne]; [by eapply Hs|].
  destruct (kept_state _ _ _ t _ Hk ltac:(congruence) He') as (e & He & <- & Hse). rewrite Hd by done. apply Hst; [done|congruence|done].
Qed.

Lemma copied_kept s ix ix' f : kept_but s ix ix' -> s <> Some (f_Slot f) -> copied ix f -> copied ix' f.
Proof.
  intros Hk Hs (e & He & Hb). specialize (Hk _ Hs). rewrite He in Hk. destruct (rd (Slots ix') (f_Slot f)) as [e'|] eqn:He'; [|done].
  exists e'. split; [done|]. cbn in Hk. injection Hk as -> _ _. done.
Qed.

Lemma disk_write_at disk s b i : 0 <= i < 65536 -> disk_write disk s b (s * 65536 + i) = b i.
Proof.
  intros Hi. unfold disk_write, DISK_CACHE_BLOCK_SHIFT, DISK_CACHE_BLOCK_SIZE, DISK_CACHE_BLOCK_SHIFT. rewrite Z.shiftl_mul_pow2 by lia.
  change (2 ^ 16) with 65536. change (Z.shiftl 1 16) with 65536.
  destruct (Z.leb_spec (s * 65536) (s * 65536 + i)); [|lia]. destruct (Z.ltb_spec (s * 65536 + i) (s * 65536 + 65536)); [|lia].
  cbn [andb]. f_equal. lia.
Qed.

Lemma disk_write_off disk s b t i : t <> s -> 0 <= i < 65536 -> disk_write disk s b (t * 65536 + i) = disk (t * 65536 + i).
Proof.
  intros Ht Hi. unfold disk_write, DISK_CACHE_BLOCK_SHIFT, DISK_CACHE_BLOCK_SIZE, DISK_CACHE_BLOCK_SHIFT. rewrite Z.shiftl_mul_pow2 by lia.
  change (2 ^ 16) with 65536. change (Z.shiftl 1 16) with 65536.
  destruct (Z.leb_spec (s * 65536) (t * 65536 + i)); [|done]. destruct (Z.ltb_spec (t * 65536 + i) (s * 65536 + 65536)); [|done]. lia.
Qed.

Lemma block_size : DISK_CACHE_BLOCK_SIZE = 65536.
Proof. done. Qed.

(** What the counters stay below. *)
Lemma cache_bounds dc base reads limbo : cache_ok dc base reads limbo -> Z.of_nat (length (unsettled dc limbo)) <= 512 /\ 0 <= FillBytes dc <= 33554432.
Proof. intros [_ _ _ Hb Hm _ _ _]. unfold DISK_CACHE_FILL_BACKLOG in Hm. lia. Qed.

(** Settling a fill the call holds. *)
Lemma settle_ok dc base reads f limbo written :
  cache_ok dc base reads (f :: limbo) -> (written = true -> forall i, 0 <= i < 65536 -> Disk dc (f_Slot f * 65536 + i) = f_Buffer f i) ->
  exists dc', DiskCacheFillSettle dc f written = Some dc' /\ cache_ok dc' base reads limbo /\
    Fills dc' = Fills dc /\ FillWorkerQueued dc' = FillWorkerQueued dc /\ Writes dc' = Writes dc /\ Live dc' = Live dc /\ Disk dc' = Disk dc.
Proof.
  intros Hok Hw. pose proof (cache_bounds _ _ _ _ Hok) as [Hn Hb]. destruct Hok as [Hs Hd Hf Hby Hbl Hbu Hwk Hba].
  unfold DiskCacheFillSettle. unfold unsettled in *. cbn [fmap list_fmap app] in *.
  destruct (inv_fills _ Hs (f_Slot f) ltac:(left)) as (e & He & Hst). cbn in He.
  destruct (commit_spec _ _ e written (inv_wf _ Hs) He Hst) as (ix' & e' & Hc & Hwf & Hk & He' & Hv). cbn [sys_index] in Hc, Hk. rewrite Hc. cbn [mbind option_bind].
  injection Hv as Hk' Hs' Hp'. pose proof (fill_slot_alone _ _ [] _ _ Hs) as (Hno & _ & Hnf%not_elem_count). cbn [app] in Hnf.
  pose proof (step_commit_inv _ _ [] _ _ _ _ Hs Hc) as Hs2. rewrite Forall_cons in Hf. destruct Hf as [Hfc Hf]. cbn [length] in Hby, Hbu, Hn.
  eexists. split; [reflexivity|]. split; [|done]. split; unfold unsettled; cbn -[Z.sub Z.add Z.mul DISK_CACHE_BLOCK_SIZE DISK_CACHE_FILL_BACKLOG Z.eqb]; rewrite ?block_size.
  - done.
  - apply (stored_kept (f_Slot f) (dc_Index dc) ix' (Disk dc)); [done|done| |done]. intros e2 He2 Hv2 i Hi. rewrite He' in He2. injection He2 as <-.
    destruct written; [|congruence]. rewrite Hw by done. destruct Hfc as (e3 & He3 & Hcp). rewrite He in He3. injection He3 as <-. by rewrite Hk', Hcp.
  - apply Forall_forall. intros g Hg. apply (copied_kept (Some (f_Slot f)) (dc_Index dc)); [done| |by rewrite Forall_forall in Hf; apply Hf].
    intros [= Heq]. apply Hnf. rewrite Heq. by apply list_elem_of_fmap_2.
  - rewrite s64_id by lia. lia.
  - rewrite s64_id by lia. lia.
  - rewrite s32_id by (destruct (FillWorkerQueued dc); lia). lia.
  - done.
  - done.
Qed.

(** Fills move between the call, the queue and the device. *)
Lemma regroup_ok dc dc' base reads limbo limbo' :
  cache_ok dc base reads limbo -> dc_Index dc' = dc_Index dc -> Disk dc' = Disk dc -> FillBytes dc' = FillBytes dc ->
  unsettled dc' limbo' ≡ₚ unsettled dc limbo ->
  Busy dc' - (if FillWorkerQueued dc' then 1 else 0) = Busy dc - (if FillWorkerQueued dc then 1 else 0) ->
  (FillWorkerQueued dc' = false -> Fills dc' = []) -> cache_ok dc' base reads limbo'.
Proof.
  intros [Hs Hd Hf Hby Hbl Hbu Hwk Hba] Hix Hdk Hfb Hp Hb Hq. split; rewrite ?Hix, ?Hdk, ?Hfb, ?(Permutation_length Hp); try done; try lia.
  - eapply sys_inv_perm; [|exact Hs]. by rewrite Hp.
  - by rewrite Hp.
Qed.

Lemma fill_done_ok dc base reads i f st information torn :
  cache_ok dc base reads [] -> Writes dc !! i = Some f ->
  exists dc', DiskCacheFillDone dc i st information torn = Some dc' /\ cache_ok dc' base reads [] /\
    Live dc' = (if NT_SUCCESS st && (DISK_CACHE_BLOCK_SIZE =? information) then Live dc else false).
Proof.
  intros Hok Hi. unfold DiskCacheFillDone. rewrite Hi. cbn [mbind option_bind]. set (written := NT_SUCCESS st && _).
  set (dc1 := with_Disk _ _). assert (Hok1 : cache_ok dc1 base reads [f]).
  { pose proof (delete_Permutation _ _ _ Hi) as Hp. destruct Hok as [Hs Hd Hf Hby Hbl Hbu Hwk Hba]. unfold unsettled in *. cbn [app] in *.
    assert (Hp' : f :: Fills dc ++ delete i (Writes dc) ≡ₚ Fills dc ++ Writes dc) by (rewrite Permutation_middle; by rewrite <- Hp).
    split; unfold unsettled; cbn [dc1 with_Disk with_Writes dc_Index Fills Writes Disk FillBytes Busy FillWorkerQueued app]; rewrite ?(Permutation_length Hp'); try done.
    - eapply sys_inv_perm; [|exact Hs]. change (f_Slot f :: (f_Slot <$> Fills dc ++ delete i (Writes dc))) with (f_Slot <$> f :: Fills dc ++ delete i (Writes dc)). by rewrite Hp'.
    - destruct (inv_fills _ Hs (f_Slot f)) as (e & He & Hst). { apply list_elem_of_fmap_2, elem_of_app. right. by eapply list_elem_of_lookup_2. }
      apply (stored_kept (f_Slot f) (dc_Index dc) _ (Disk dc)); [done|done| |intros; by apply disk_write_off]. cbn in He. intros e' He'. rewrite He in He'. injection He' as <-. congruence.
    - by rewrite Hp'. }
  assert (Hw : written = true -> forall j, 0 <= j < 65536 -> Disk dc1 (f_Slot f * 65536 + j) = f_Buffer f j).
  { intros Hw j Hj. cbn [dc1 with_Disk Disk]. rewrite Hw. by apply disk_write_at. }
  destruct (settle_ok (if written then dc1 else DiskCacheLost dc1) base reads f [] written) as (dc' & Hset & Hok' & _ & _ & _ & HL & _).
  - destruct written; [done|]. apply (regroup_ok dc1 _ _ _ [f] _ Hok1); try done. apply (co_worker _ _ _ _ Hok1).
  - intros E. rewrite E in *. auto.
  - exists dc'. rewrite Hset. split_and!; [done|done|]. rewrite HL. by destruct written.
Qed.

Lemma worker_loop_ok fuel : forall dc base reads irps k,
  cache_ok dc base reads [] -> FillWorkerQueued dc = true -> (length (Fills dc) < fuel)%nat ->
  exists dc', worker_loop fuel dc irps k = Some dc' /\ Fills dc' = [] /\ cache_ok (with_Fills dc' [] true) base reads [] /\ FillWorkerQueued dc' = false.
Proof.
  induction fuel as [|fuel IH]; intros dc base reads irps k Hok Hq Hf; [lia|]. cbn [worker_loop]. destruct (Fills dc) as [|f rest] eqn:E.
  { eexists. split_and!; [done|done| |done]. apply (regroup_ok dc _ _ _ [] _ Hok); try done; unfold unsettled; cbn; rewrite ?E, ?Hq; done. }
  assert (Hok1 : cache_ok (with_Fills dc rest (FillWorkerQueued dc)) base reads [f]).
  { apply (regroup_ok dc _ _ _ []); try done; [unfold unsettled; cbn; by rewrite E|by rewrite Hq]. }
  cbn [length] in Hf. destruct (negb _ || _) eqn:Hcase.
  - destruct (settle_ok _ base reads f [] false Hok1) as (dc' & -> & Hok' & HF & HQ & _); [done|]. cbn [mbind option_bind].
    apply IH; [done|by rewrite HQ|]. rewrite HF. cbn. lia.
  - cbn [mbind option_bind]. apply IH; [|done|cbn; lia]. apply (regroup_ok _ _ _ _ [f]  _ Hok1); try done.
    + unfold unsettled. cbn. rewrite app_assoc. by rewrite (Permutation_app_comm (rest ++ Writes dc) [f]).
    + by rewrite Hq.
Qed.

Lemma leave_ok dc base reads limbo : cache_ok (with_Fills dc (Fills dc) true) base reads limbo -> FillWorkerQueued dc = false -> Fills dc = [] ->
  cache_ok (DiskCacheLeave dc) base reads limbo.
Proof.
  intros Hok Hq HF. pose proof (cache_bounds _ _ _ _ Hok) as [Hn Hb]. pose proof (co_busy _ _ _ _ Hok) as Hbu. pose proof (co_base _ _ _ _ Hok) as Hba. unfold unsettled in *. cbn in *.
  apply (regroup_ok (with_Fills dc (Fills dc) true) _ _ _ limbo _ Hok); try done. cbn. rewrite s32_id, Hq by lia. lia.
Qed.

Lemma worker_ok dc base reads irps :
  cache_ok dc base reads [] -> FillWorkerQueued dc = true ->
  exists dc', DiskCacheFillWorker dc irps = Some dc' /\ Fills dc' = [] /\ FillWorkerQueued dc' = false /\ cache_ok dc' base reads [].
Proof.
  intros Hok Hq. unfold DiskCacheFillWorker. destruct (worker_loop_ok (S (length (Fills dc))) dc base reads irps 0 Hok Hq ltac:(lia)) as (dc' & -> & HF & Hok' & HQ).
  cbn [mbind option_bind]. eexists. split_and!; [done|done|done|]. apply leave_ok; [by rewrite HF|done|done].
Qed.

Lemma abandon_ok l : forall dc base reads, cache_ok dc base reads l ->
  exists dc', abandon dc l = Some dc' /\ cache_ok dc' base reads [] /\ Live dc' = Live dc.
Proof.
  induction l as [|f l IH]; intros dc base reads Hok; cbn [abandon]; [by exists dc|].
  destruct (settle_ok _ _ _ _ _ false Hok) as (dc1 & -> & Hok1 & _ & _ & _ & HL & _); [done|]. cbn [mbind option_bind].
  destruct (IH _ _ _ Hok1) as (dc' & -> & Hok' & HL'). exists dc'. split_and!; [done|done|congruence].
Qed.

Lemma queue_fill_ok dc base reads f workItem :
  cache_ok dc base reads [f] -> exists dc', DiskCacheQueueFill dc f workItem = Some dc' /\ cache_ok dc' base reads [] /\ Live dc' = Live dc.
Proof.
  intros Hok. unfold DiskCacheQueueFill. pose proof (cache_bounds _ _ _ _ Hok) as [Hn Hb]. pose proof (co_busy _ _ _ _ Hok) as Hbu. pose proof (co_base _ _ _ _ Hok) as Hba.
  assert (Hperm : unsettled (with_Fills dc (Fills dc ++ [f]) true) [] ≡ₚ unsettled dc [f]).
  { unfold unsettled. cbn. rewrite <- app_assoc. cbn. by rewrite <- Permutation_middle. }
  destruct (FillWorkerQueued dc) eqn:Hq; cbn [negb].
  - eexists. split_and!; [done| |done]. by apply (regroup_ok dc _ _ _ [f]); [..|cbn; rewrite Hq|].
  - destruct workItem.
    + eexists. split_and!; [done| |done]. apply (regroup_ok dc _ _ _ [f]); try done. cbn. rewrite Hq, s32_id by lia. lia.
    + destruct (abandon_ok (Fills dc ++ [f]) (with_Fills dc [] false) base reads) as (dc' & Ha & Hok' & HL).
      * apply (regroup_ok dc _ _ _ [f] _ Hok); try done. cbn. by rewrite Hq.
      * exists dc'. split; [exact Ha|done].
Qed.

(** ** A body copied *)

(** A block admitted: the index reserved [s] for [key], whose bytes [f] has. *)
Lemma reserved_ok dc base reads key ix s b :
  cache_ok dc base reads [] -> FillBytes dc + 65536 <= DISK_CACHE_FILL_BACKLOG ->
  BlorgDiskCacheIndexReserve (dc_Index dc) key = Some (ix, DiskCacheReserved, Some s) ->
  (forall i, 0 <= i < 65536 -> b i = block_byte key i) ->
  cache_ok (with_Index (with_Busy (with_FillBytes dc (FillBytes dc + 65536)) (Busy dc + 1)) ix) base reads [mkFill b s].
Proof.
  intros Hok Hmax Hr Hb. destruct Hok as [Hs Hd Hf Hby Hbl Hbu Hwk Hba]. unfold unsettled in *. cbn [app] in *.
  pose proof (step_reserve_inv _ _ _ _ _ _ _ Hs Hr) as Hs'.
  destruct (reserve_spec _ key (inv_wf _ Hs)) as (ix0 & a0 & r0 & Hr0 & Hwf & Hpost). cbn [sys_index] in Hr0, Hpost. rewrite Hr in Hr0. injection Hr0 as <- <- <-.
  destruct Hpost as (_ & _ & s' & e' & [= <-] & _ & Hk & He' & Hvit). injection Hvit as Hke Hse Hpe.
  pose proof (fill_slot_alone _ _ [] _ _ Hs') as (_ & _ & Hnf%not_elem_count). cbn [app] in Hnf.
  split; unfold unsettled; cbn -[Z.sub Z.add Z.mul Z.of_nat DISK_CACHE_FILL_BACKLOG]; try done; try lia.
  - apply (stored_kept s (dc_Index dc) ix (Disk dc)); [done|done| |done]. intros e2 He2 Hv2. rewrite He' in He2. injection He2 as <-. congruence.
  - constructor; [exists e'; split; [done|]; cbn; by rewrite Hke|]. apply Forall_forall. intros g Hg.
    apply (copied_kept (Some s) (dc_Index dc)); [done| |by rewrite Forall_forall in Hf; apply Hf]. intros [= Heq]. apply Hnf. rewrite Heq. by apply list_elem_of_fmap_2.
Qed.

(** Not admitted: the index changes nobody's slot. *)
Lemma not_reserved_ok dc base reads key ix a r :
  cache_ok dc base reads [] -> BlorgDiskCacheIndexReserve (dc_Index dc) key = Some (ix, a, r) -> a <> DiskCacheReserved ->
  cache_ok (with_Index dc ix) base reads [].
Proof.
  intros Hok Hr Ha. destruct Hok as [Hs Hd Hf Hby Hbl Hbu Hwk Hba]. unfold unsettled in *. cbn [app] in *.
  pose proof (step_reserve_inv _ _ _ _ _ _ _ Hs Hr) as Hs'.
  destruct (reserve_spec _ key (inv_wf _ Hs)) as (ix0 & a0 & r0 & Hr0 & Hwf & Hpost). cbn [sys_index] in Hr0, Hpost. rewrite Hr in Hr0. injection Hr0 as <- <- <-.
  assert (Hk : r = None /\ kept_but None (dc_Index dc) ix).
  { destruct a; [done|by destruct Hpost as (_ & -> & ->)|by destruct Hpost as (_ & _ & -> & _ & l & ->)|by destruct Hpost as (_ & _ & -> & _ & Hk & _)]. }
  destruct Hk as [-> Hk]. split; unfold unsettled; cbn; try done.
  - intros t e' He' Hv i Hi. destruct (kept_state _ _ _ t _ Hk ltac:(done) He') as (e & He & <- & Hse). apply Hd; [done|congruence|done].
  - eapply Forall_impl; [exact Hf|]. intros g. by apply (copied_kept None).
Qed.

(** The body is the file's: [source] holds the bytes of [key]'s version from
    [offset] to [stopAt]. *)
Definition body_of (key : DISK_CACHE_KEY) (source : Z -> Z) (offset stopAt : Z) : Prop :=
  forall x, offset <= x < stopAt -> source (x - offset) = file (set_Block key 0) x.

Lemma block_copy_byte key source offset stopAt i :
  0 <= Block key -> 0 <= offset <= Block key * 65536 -> Z.min (Block key * 65536 + 65536) (Size key) <= stopAt -> Block key * 65536 < Size key ->
  body_of key source offset stopAt -> 0 <= i < 65536 ->
  block_copy source offset (Block key * 65536) (Z.min (Block key * 65536 + 65536) (Size key) - Block key * 65536) i = block_byte key i.
Proof.
  intros Hb Ho Hstop Hsz Hbody Hi. unfold block_copy, block_byte.
  destruct (Z.ltb_spec i (Z.min (Block key * 65536 + 65536) (Size key) - Block key * 65536)); destruct (Z.ltb_spec (Block key * 65536 + i) (Size key)); try lia.
  rewrite <- Hbody by lia. f_equal. lia.
Qed.

Lemma enter_cases dc base reads limbo stillLive :
  cache_ok dc base reads limbo ->
  DiskCacheEnter (with_FillBytes dc (FillBytes dc + 65536)) stillLive =
    if Live dc then if stillLive then (with_Busy (with_FillBytes dc (FillBytes dc + 65536)) (Busy dc + 1), true)
                    else (DiskCacheLeave (with_Busy (with_FillBytes dc (FillBytes dc + 65536)) (Busy dc + 1)), false)
    else (with_FillBytes dc (FillBytes dc + 65536), false).
Proof.
  intros Hok. pose proof (cache_bounds _ _ _ _ Hok) as [Hn Hb]. pose proof (co_busy _ _ _ _ Hok) as Hbu. pose proof (co_base _ _ _ _ Hok) as Hba.
  unfold DiskCacheEnter. cbn [Live with_FillBytes Busy]. rewrite s32_id by (destruct (FillWorkerQueued dc); lia). by destruct (Live dc), stillLive.
Qed.

(** What is charged and entered for a block that is not kept is given back. *)
Lemma given_back_ok dc dc' base reads :
  cache_ok dc base reads [] -> dc_Index dc' = dc_Index dc -> Disk dc' = Disk dc -> Fills dc' = Fills dc -> Writes dc' = Writes dc ->
  FillWorkerQueued dc' = FillWorkerQueued dc -> FillBytes dc' = FillBytes dc -> Busy dc' = Busy dc -> cache_ok dc' base reads [].
Proof.
  intros Hok Hi Hd Hf Hw Hq Hb Hbu. apply (regroup_ok dc _ _ _ [] _ Hok); try done; unfold unsettled; rewrite ?Hf, ?Hw, ?Hq, ?Hbu; try done.
  apply (co_worker _ _ _ _ Hok).
Qed.

Lemma key_start key : 0 <= Block key * 65536 < 9223372036854841344 -> u64 (Z.shiftl (Block key) DISK_CACHE_BLOCK_SHIFT) = Block key * 65536.
Proof. intros H. unfold DISK_CACHE_BLOCK_SHIFT. rewrite Z.shiftl_mul_pow2 by lia. change (2 ^ 16) with 65536. apply u64_id. lia. Qed.

Lemma fill_loop_ok fuel : forall dc base reads key source offset stopAt env k,
  cache_ok dc base reads [] -> 0 <= offset <= Block key * 65536 -> stopAt <= Size key -> Size key < 9223372036854775808 -> Block key * 65536 < stopAt + 65536 ->
  body_of key source offset stopAt -> stopAt + 65536 - Block key * 65536 <= 65536 * Z.of_nat fuel ->
  exists dc', fill_loop fuel dc key source offset stopAt env k = Some dc' /\ cache_ok dc' base reads [] /\ Live dc' = Live dc.
Proof.
  induction fuel as [|fuel IH]; intros dc base reads key source offset stopAt env k Hok Ho Hst Hsz Hblk Hbody Hfuel; [lia|].
  cbn [fill_loop]. rewrite block_size, key_start, u64_id by lia.
  destruct (Z.leb_spec (Z.min (Block key * 65536 + 65536) (Size key)) (Block key * 65536)) as [|Hlt]; [by exists dc|].
  destruct (Z.ltb_spec stopAt (Z.min (Block key * 65536 + 65536) (Size key))) as [|Hin]; [by exists dc|]. cbn [orb].
  pose proof (cache_bounds _ _ _ _ Hok) as [Hn Hb]. pose proof (co_busy _ _ _ _ Hok) as Hbu. pose proof (co_base _ _ _ _ Hok) as Hba.
  assert (Hbound : 0 <= Busy dc < 1073800000) by (rewrite Hbu; destruct (FillWorkerQueued dc); lia).
  rewrite s64_id by lia. cbn [FillBytes with_FillBytes]. rewrite (enter_cases _ _ _ _ _ Hok).
  assert (Hun : s64 (FillBytes dc + 65536 - 65536) = FillBytes dc) by (rewrite s64_id; lia).
  assert (Hle : s32 (Busy dc + 1 - 1) = Busy dc) by (rewrite s32_id; lia).
  destruct (Z.ltb_spec DISK_CACHE_FILL_BACKLOG (FillBytes dc + 65536)) as [|Hroom].
  { eexists. split; [done|]. split; [|done]. by apply (given_back_ok dc). }
  destruct (Live dc) eqn:HL; [destruct (fe_live (env k))|]; cbn [negb].
  2,3: eexists; split; [reflexivity|]; split; [|done]; by apply (given_back_ok dc).
  cbn [dc_Index with_Busy with_FillBytes]. destruct (reserve_spec (dc_Index dc) key (inv_wf _ (co_sys _ _ _ _ Hok))) as (ix & a & r & Hr & _ & Hpost). rewrite Hr. cbn [mbind option_bind].
  assert (Hnext : forall dc1, cache_ok dc1 base reads [] -> Live dc1 = true ->
    exists dc', fill_loop fuel dc1 (set_Block key (u64 (Block key + 1))) source offset stopAt env (S k) = Some dc' /\ cache_ok dc' base reads [] /\ Live dc' = true).
  { intros dc1 Hok1 HL1. rewrite u64_id by lia. rewrite <- HL1. apply IH; try done; cbn [Block Size set_Block]; lia. }
  assert (Hskip : a <> DiskCacheReserved -> cache_ok (DiskCacheLeave (DiskCacheUnchargeFill (with_Index (with_Busy (with_FillBytes dc (FillBytes dc + 65536)) (Busy dc + 1)) ix))) base reads []).
  { intros Ha. by apply (given_back_ok (with_Index dc ix)); [eapply not_reserved_ok|..]. }
  destruct a; try (by apply Hnext; [apply Hskip|]). destruct Hpost as (_ & _ & s & e' & -> & _). cbn [mbind option_bind].
  match goal with |- context [DiskCacheQueueFill _ (mkFill ?b s) _] => assert (Hb0 : forall i, 0 <= i < 65536 -> b i = block_byte key i); [|pose proof (reserved_ok dc base reads key ix s b Hok Hroom Hr Hb0) as Hrok] end.
  { intros i Hi. rewrite u32_id by lia. eapply block_copy_byte; try done; lia. }
  destruct (_ && _ && _); cbn [negb].
  - destruct (queue_fill_ok _ _ _ _ (fe_work (env k)) Hrok) as (dc1 & -> & Hok1 & HL1). cbn [mbind option_bind]. by apply Hnext; [|rewrite HL1].
  - destruct (settle_ok _ _ _ _ _ false Hrok) as (dc1 & Hset & Hok1 & _ & _ & _ & HL1 & _); [done|]. unfold DiskCacheFillSettle in Hset. cbn [dc_Index with_Index f_Slot] in Hset.
    destruct (BlorgDiskCacheIndexCommit ix s false) as [ix2|]; [|done]. cbn [mbind option_bind] in *. injection Hset as <-. eexists. split; [reflexivity|]. done.
Qed.

Lemma fill_ok dc base reads key source offset len env :
  cache_ok dc base reads [] -> 0 <= offset -> 0 <= len < 4294967296 -> 0 <= Size key < 9223372036854775808 ->
  (forall s, source = Some s -> offset + len <= Size key -> body_of key s offset (offset + len)) ->
  exists dc', DiskCacheFill dc key source offset len env = Some dc' /\ cache_ok dc' base reads [] /\ Live dc' = Live dc.
Proof.
  intros Hok Ho Hl Hsz Hbody. unfold DiskCacheFill. destruct source as [source|]; [|by exists dc].
  destruct (Z.eqb_spec len 0); [by exists dc|]. destruct (Z.ltb_spec (Size key) offset); [by exists dc|]. cbn [orb].
  rewrite (u64_id (Size key - offset)) by lia. destruct (Z.ltb_spec (Size key - offset) len); [by exists dc|].
  rewrite block_size, (u64_id (offset + 65536)), (u64_id (offset + 65536 - 1)), (u64_id (offset + len)) by lia. unfold DISK_CACHE_BLOCK_SHIFT. rewrite !Z.shiftr_div_pow2 by lia. change (2 ^ 16) with 65536.
  apply fill_loop_ok; try done; cbn [Block Size set_Block].
  all: first [by apply (Hbody source); [|lia]|Z.div_mod_to_equations; lia].
Qed.

Lemma admit_ok dc base reads n f offset len env :
  cache_ok dc base reads [] -> 0 <= offset -> 0 <= len < 4294967296 -> 0 <= DiskCacheSize n < 9223372036854775808 ->
  (forall k s, DiskCacheKeyOf n = Some k -> DiskCacheIsVersion k f = true -> BodyBuffer f = Some s -> offset + len <= Size k -> body_of k s offset (offset + len)) ->
  exists dc' b, BlorgDiskCacheAdmit dc n f offset len env = Some (dc', b) /\ cache_ok dc' base reads [] /\ Live dc' = Live dc.
Proof.
  intros Hok Ho Hl Hsz Hbody. unfold BlorgDiskCacheAdmit. destruct (_ || _); [by exists dc, true|].
  destruct (DiskCacheKeyOf n) as [key|] eqn:Hk; [|by exists dc, true]. destruct (DiskCacheIsVersion key f) eqn:Hv; cbn [negb]; [|by exists dc, false].
  destruct (fill_ok dc base reads key (BodyBuffer f) offset len env Hok Ho Hl) as (dc' & -> & Hok' & HL).
  - unfold DiskCacheKeyOf in Hk. destruct (_ =? 0); [done|]. by injection Hk as <-.
  - intros s Hs Hle. by eapply Hbody.
  - cbn [mbind option_bind]. by exists dc', true.
Qed.
End Invariant.
