(* ===== verification/DiskCacheRead.v ===== *)
(** * Reads served by the disk cache (src/DiskCache.c)

    A read is split into parts: runs of held blocks in consecutive slots, read
    from the cache file, and runs of missing blocks, fetched.  The definitions
    are the code that plans and issues the parts, their completions, and the
    settling of the read; what the kernel answers to each part (memory, an
    IRP, the status a request starts with) is an argument.  Proved here: the
    parts deliver every byte of the read from the right place. *)

From S2P Require Import Prelude DiskCacheIndex DiskCacheIndexChains DiskCacheIndexOps DiskCacheIndexReads DiskCacheIndexSystem DiskCacheFill.

Definition DISK_CACHE_MAX_READ_FETCHES : Z := 4.
Definition DISK_CACHE_READ_FAILED : Z := 1.
Definition DISK_CACHE_READ_STALE : Z := 2.
Definition DISK_CACHE_READ_UNSTARTED : Z := 4.
Definition STATUS_UNEXPECTED_IO_ERROR : NTSTATUS := nt 0xC00000E9.

(** One part: where in the file it starts, how long it is, and either the
    offset in the cache file it is read from or that it is fetched. *)
Inductive SOURCE := FromDisk (diskOffset : Z) | FromServer (fileOffset : Z).
Record PART := mkPart { p_at : Z; p_len : Z; p_src : SOURCE }.

(** [r_Parts] stands for the IRPs sent and the fetches begun, in order; of
    the latter [FetchCount] counts those in [Fetches]. *)
Record DISK_CACHE_READ := mkRead {
  r_Key : DISK_CACHE_KEY;
  Outstanding : Z;
  r_Status : NTSTATUS;
  r_Bytes : Z;
  Span : Z;
  DiskSpan : Z;
  r_Valid : Z;
  r_SlotCount : Z;
  FetchCount : Z;
  Refetch : Z;
  r_Slots : list Z;
  r_Parts : list PART
}.

Definition with_Outstanding (r : DISK_CACHE_READ) (n : Z) : DISK_CACHE_READ :=
  mkRead (r_Key r) n (r_Status r) (r_Bytes r) (Span r) (DiskSpan r) (r_Valid r) (r_SlotCount r) (FetchCount r) (Refetch r) (r_Slots r) (r_Parts r).
Definition with_Spans (r : DISK_CACHE_READ) (span disk : Z) : DISK_CACHE_READ :=
  mkRead (r_Key r) (Outstanding r) (r_Status r) (r_Bytes r) span disk (r_Valid r) (r_SlotCount r) (FetchCount r) (Refetch r) (r_Slots r) (r_Parts r).
Definition with_Fetch (r : DISK_CACHE_READ) (n : Z) : DISK_CACHE_READ :=
  mkRead (r_Key r) (Outstanding r) (r_Status r) (r_Bytes r) (Span r) (DiskSpan r) (r_Valid r) (r_SlotCount r) n (Refetch r) (r_Slots r) (r_Parts r).
Definition with_Refetch (r : DISK_CACHE_READ) (n : Z) : DISK_CACHE_READ :=
  mkRead (r_Key r) (Outstanding r) (r_Status r) (r_Bytes r) (Span r) (DiskSpan r) (r_Valid r) (r_SlotCount r) (FetchCount r) n (r_Slots r) (r_Parts r).
Definition with_Bytes (r : DISK_CACHE_READ) (n : Z) : DISK_CACHE_READ :=
  mkRead (r_Key r) (Outstanding r) (r_Status r) n (Span r) (DiskSpan r) (r_Valid r) (r_SlotCount r) (FetchCount r) (Refetch r) (r_Slots r) (r_Parts r).
Definition with_Status (r : DISK_CACHE_READ) (s : NTSTATUS) : DISK_CACHE_READ :=
  mkRead (r_Key r) (Outstanding r) s (r_Bytes r) (Span r) (DiskSpan r) (r_Valid r) (r_SlotCount r) (FetchCount r) (Refetch r) (r_Slots r) (r_Parts r).
Definition with_Part (r : DISK_CACHE_READ) (p : PART) : DISK_CACHE_READ :=
  mkRead (r_Key r) (Outstanding r) (r_Status r) (r_Bytes r) (Span r) (DiskSpan r) (r_Valid r) (r_SlotCount r) (FetchCount r) (Refetch r) (r_Slots r) (r_Parts r ++ [p]).

(** ** Issuing *)

(** What the kernel answered to starting a part: that it is under way (the
    fetch is pending, the IRP was sent), no memory for the mapping or the MDL,
    or a failure: the status the fetch did, or no IRP. *)
Inductive PART_START := Started | StartNoMemory | StartFailed (st : NTSTATUS).

(** The target of a part is the read's own buffer at [at - Offset]. *)
Definition DiskCacheReadPart (r : DISK_CACHE_READ) (at_ length slot : Z) (start : PART_START) : option (NTSTATUS * DISK_CACHE_READ) :=
  if slot =? DISK_CACHE_NO_SLOT then
    match start with
    | StartNoMemory => Some (STATUS_INSUFFICIENT_RESOURCES, r)
    | _ =>
        if FetchCount r <? DISK_CACHE_MAX_READ_FETCHES then
          let r := with_Outstanding (with_Fetch r (u32 (FetchCount r + 1))) (Outstanding r + 1) in
          match start with
          | StartFailed st => Some (st, with_Outstanding r (Outstanding r - 1))
          | _ => Some (STATUS_SUCCESS, with_Part r (mkPart at_ length (FromServer at_)))
          end
        else None (* Fetches[FetchCount] *)
    end
  else
    match start with
    | StartNoMemory => Some (STATUS_INSUFFICIENT_RESOURCES, r)
    | _ =>
        let r := with_Outstanding r (Outstanding r + 1) in
        let diskOffset := u64 (u64 (Z.shiftl slot DISK_CACHE_BLOCK_SHIFT) + Z.land at_ (DISK_CACHE_BLOCK_SIZE - 1)) in
        match start with
        | StartFailed _ => Some (DiskCacheIssue false, with_Outstanding r (Outstanding r - 1))
        | _ => Some (DiskCacheIssue true, with_Part r (mkPart at_ length (FromDisk diskOffset)))
        end
    end.

Fixpoint runs_to_fetch (n : nat) (slots : list Z) (count i runs : Z) : option Z :=
  match n with
  | O => Some runs
  | S n =>
      if (i <? count) && (runs <? DISK_CACHE_MAX_READ_FETCHES) then
        s ← rd slots i;
        prev ← (if i =? 0 then Some 0 else rd slots (i - 1));
        runs_to_fetch n slots count (i + 1)
          (if (s =? DISK_CACHE_NO_SLOT) && ((i =? 0) || negb (prev =? DISK_CACHE_NO_SLOT)) then runs + 1 else runs)
      else Some runs
  end.
Definition DiskCacheRunsToFetch (slots : list Z) (count : Z) : option Z := runs_to_fetch (Z.to_nat count) slots count 0 0.

(** The inner loop: how many blocks from [i] go with [slot]. *)
Fixpoint run_walk (fuel : nat) (slots : list Z) (i run slot blocks : Z) : option Z :=
  match fuel with
  | O => None
  | S fuel =>
      if i + run <? blocks then
        s ← rd slots (i + run);
        if (if slot =? DISK_CACHE_NO_SLOT then s =? DISK_CACHE_NO_SLOT else s =? u32 (slot + run))
        then run_walk fuel slots i (run + 1) slot blocks
        else Some run
      else Some run
  end.

(** The read's own numbers. *)
Record GEOMETRY := mkGeometry { g_Offset : Z; g_Valid : Z; g_span : Z; g_first : Z; g_last : Z; g_blocks : Z }.

(** [None] of the result: the first part could not be started. *)
Fixpoint issue_loop (fuel : nat) (g : GEOMETRY) (starts : nat -> PART_START) (k : nat) (r : DISK_CACHE_READ) (issued : Z)
    : option (option DISK_CACHE_READ) :=
  match fuel with
  | O => None
  | S fuel =>
      if issued <? g_span g then
        let at_ := u64 (g_Offset g + issued) in
        let i := u32 (Z.shiftr at_ DISK_CACHE_BLOCK_SHIFT - g_first g) in
        slot ← rd (r_Slots r) i;
        run ← run_walk (S (length (r_Slots r))) (r_Slots r) i 1 slot (g_blocks g);
        let runEnd := u64 (Z.shiftl (g_first g + i + run) DISK_CACHE_BLOCK_SHIFT) in
        let stop := if slot =? DISK_CACHE_NO_SLOT then g_Valid g else g_span g in
        let length := u32 (Z.min (u64 (runEnd - at_)) (u32 (stop - issued))) in
        '(status, r) ← DiskCacheReadPart r at_ length slot (starts k);
        if negb (NT_SUCCESS status) then
          if issued =? 0 then Some None
          else Some (Some (with_Refetch r (Z.lor (Refetch r) DISK_CACHE_READ_UNSTARTED)))
        else
          let disk := if negb (slot =? DISK_CACHE_NO_SLOT) && (issued <? g_Valid g)
                      then u32 (DiskSpan r + Z.min length (u32 (g_Valid g - issued))) else DiskSpan r in
          let r := with_Spans r (u32 (Span r + length)) disk in
          if (slot =? DISK_CACHE_NO_SLOT) && (stop =? u32 (issued + length)) then Some (Some r)
          else issue_loop fuel g starts (S k) r (u32 (issued + length))
      else Some (Some r)
  end.

(** ** Settling *)

(** The completion call: its status, [Valid], the fetches made and whether to
    fetch it whole. *)
Record OUTCOME := mkOutcome { o_status : NTSTATUS; o_valid : Z; o_fetches : Z; o_refetch : bool }.

Definition DiskCacheReadSettle (dc : DISK_CACHE) (r : DISK_CACHE_READ) : option (DISK_CACHE * DISK_CACHE_READ * option OUTCOME) :=
  let r := with_Outstanding r (Outstanding r - 1) in
  if negb (Outstanding r =? 0) then Some (dc, r, None)
  else
    let refetch := if NT_SUCCESS (r_Status r) && (Refetch r =? 0) && negb (r_Bytes r =? Span r)
                   then Z.lor (Refetch r) DISK_CACHE_READ_FAILED else Refetch r in
    let status := if negb (refetch =? 0) then STATUS_UNEXPECTED_IO_ERROR else r_Status r in
    ix ← BlorgDiskCacheIndexUnpin (dc_Index dc) (r_Slots r) (NT_SUCCESS status);
    Some (DiskCacheLeave (with_Index dc ix), r, Some (mkOutcome status (r_Valid r) (FetchCount r) (negb (refetch =? 0)))).

(** The completion of a part read from the file. *)
Definition DiskCacheReadDone (dc : DISK_CACHE) (r : DISK_CACHE_READ) (st : NTSTATUS) (information : Z)
    : option (DISK_CACHE * DISK_CACHE_READ * option OUTCOME) :=
  if NT_SUCCESS st then DiskCacheReadSettle dc (with_Bytes r (s64 (r_Bytes r + information)))
  else DiskCacheReadSettle (DiskCacheLost dc) (with_Refetch r (Z.lor (Refetch r) DISK_CACHE_READ_FAILED)).

(** The completion of a fetched part of [length] bytes at file offset [at_];
    [env] is for the fill.  The [received] bytes go to the part's own range of
    the target; which part's bytes a range gets is [delivered]. *)
Definition DiskCacheReadFetched (dc : DISK_CACHE) (r : DISK_CACHE_READ) (at_ length : Z) (st : NTSTATUS) (f : FILE_BUFFER) (env : nat -> FILL_ENV)
    : option (DISK_CACHE * DISK_CACHE_READ * option OUTCOME) :=
  if NT_SUCCESS st then
    let received := u32 (Z.min (BodyBufferSize f) length) in
    if DiskCacheIsVersion (r_Key r) f
    then dc ← DiskCacheFill dc (r_Key r) (BodyBuffer f) at_ received env;
         DiskCacheReadSettle dc (with_Bytes r (s64 (r_Bytes r + received)))
    else DiskCacheReadSettle dc (with_Refetch r (Z.lor (Refetch r) DISK_CACHE_READ_STALE))
  else DiskCacheReadSettle dc (if r_Status r =? STATUS_SUCCESS then with_Status r st else r).

(** ** The read *)

Definition geometry_of (offset valid : Z) : GEOMETRY :=
  let span := Z.land (u32 (valid + (PAGE_SIZE - 1))) (Z.lnot (PAGE_SIZE - 1)) in
  let first := Z.shiftr offset DISK_CACHE_BLOCK_SHIFT in
  let last := Z.shiftr (u64 (offset + span - 1)) DISK_CACHE_BLOCK_SHIFT in
  mkGeometry offset valid span first last (u32 (last - first + 1)).

Definition start_read (k : DISK_CACHE_KEY) (valid blocks : Z) (slots : list Z) : DISK_CACHE_READ :=
  mkRead k 1 STATUS_SUCCESS 0 0 0 valid blocks 0 0 slots [].

(** [mdl] is the byte offset of the IRP's MDL when it has one, [memory] the
    read's own allocation, [allowed] the incoming [*Fetches].  The outputs are
    [*Fetches] and, for [TRUE], the read in flight and its completion if that
    was called before the return. *)
Definition BlorgDiskCacheRead (dc : DISK_CACHE) (key : DISK_CACHE_KEY) (mdl : option Z) (offset length valid allowed : Z)
    (stillLive memory : bool) (starts : nat -> PART_START)
    : option (DISK_CACHE * Z * option (DISK_CACHE_READ * option OUTCOME)) :=
  let no dc fetches := Some (dc, fetches, None) in
  match mdl with
  | None => no dc 0
  | Some byteOffset =>
      if negb (Live dc) || (valid =? 0) || (length <? valid) || (Size key <=? offset) || (u64 (Size key - offset) <? valid) then no dc 0
      else if negb (Z.land (Z.lor offset length) (PAGE_SIZE - 1) =? 0) || negb (byteOffset =? 0) then no dc 0
      else
        let g := geometry_of offset valid in
        if DISK_CACHE_MAX_READ_BLOCKS <? g_blocks g then no dc 0
        else
          let '(dc, entered) := DiskCacheEnter dc stillLive in
          if negb entered then no dc 0
          else if negb memory then no (DiskCacheLeave dc) 0
          else
            let key := set_Block key (g_first g) in
            '(ix, slots, held) ← BlorgDiskCacheIndexPinHeld (dc_Index dc) key (g_last g);
            '(ix, slots, served, fetches) ←
              (if held =? 0 then Some (ix, slots, 0, 0)
               else if (allowed =? 0) && negb (held =? g_blocks g) then n ← DiskCacheRunsToFetch slots (g_blocks g); Some (ix, slots, 0, n)
               else '(ix, slots, served) ← BlorgDiskCacheIndexPlanRead ix slots held allowed; Some (ix, slots, served, 0));
            if served =? 0 then
              ix ← BlorgDiskCacheIndexUnpin ix slots false;
              no (DiskCacheLeave (with_Index dc ix)) fetches
            else
              r ← issue_loop (S (Z.to_nat (g_blocks g))) g starts 0 (start_read key valid (g_blocks g) slots) 0;
              match r with
              | None =>
                  ix ← BlorgDiskCacheIndexUnpin ix slots false;
                  no (DiskCacheLeave (with_Index dc ix)) 0
              | Some r =>
                  '(dc, r', o) ← DiskCacheReadSettle (with_Index dc ix) r;
                  Some (dc, FetchCount r, Some (r', o))
              end
  end.

(** ** The parts deliver the read *)

(** The byte of the file a read of part [p] puts at file offset [x]. *)
Definition part_byte (p : PART) (x : Z) : SOURCE :=
  match p_src p with
  | FromDisk d => FromDisk (d + (x - p_at p))
  | FromServer f => FromServer (f + (x - p_at p))
  end.
Definition covers (p : PART) (x : Z) : bool := (p_at p <=? x) && (x <? p_at p + p_len p).
Fixpoint delivered (parts : list PART) (x : Z) : option SOURCE :=
  match parts with
  | [] => None
  | p :: parts => if covers p x then Some (part_byte p x) else delivered parts x
  end.

(** One part after the other, from [a] to [b]. *)
Fixpoint adjoin (parts : list PART) (a b : Z) : Prop :=
  match parts with
  | [] => a = b
  | p :: parts => p_at p = a /\ 0 < p_len p /\ adjoin parts (a + p_len p) b
  end.
Definition fetched (p : PART) : bool := match p_src p with FromServer _ => true | FromDisk _ => false end.
Definition fetches_in (parts : list PART) : Z := Z.of_nat (length (List.filter fetched parts)).

(** Where the byte at file offset [x] should come from, the blocks from
    [first] on being in [slots]. *)
Definition wanted (slots : list Z) (first x : Z) : option SOURCE :=
  s ← rd slots (x / 65536 - first);
  Some (if s =? NO then FromServer x else FromDisk (s * 65536 + x mod 65536)).

Lemma span_value v : 0 < v -> v + 4095 < 4294967296 -> Z.land (u32 (v + (PAGE_SIZE - 1))) (Z.lnot (PAGE_SIZE - 1)) = (v + 4095) / 4096 * 4096.
Proof.
  intros Hv Hb. unfold PAGE_SIZE. change (4096 - 1) with (Z.ones 12). rewrite <- Z.ldiff_land, Z.ldiff_ones_r by lia.
  rewrite Z.shiftl_mul_pow2, Z.shiftr_div_pow2 by lia. change (2 ^ 12) with 4096. change (Z.ones 12) with 4095. by rewrite u32_id by lia.
Qed.

Lemma page_aligned offset length : Z.land (Z.lor offset length) (PAGE_SIZE - 1) = 0 -> offset mod 4096 = 0 /\ length mod 4096 = 0.
Proof.
  unfold PAGE_SIZE. change (4096 - 1) with (Z.ones 12). rewrite Z.land_lor_distr_l, Z.lor_eq_0_iff, !Z.land_ones by lia. done.
Qed.

(** What is used of a read's numbers: the file positions stay below [2^63],
    and the last block holds the last valid byte as well as the last byte of
    the rounded span. *)
Record geometry_ok (g : GEOMETRY) : Prop := {
  go_off : 0 <= g_Offset g /\ g_Offset g + g_span g < 2 ^ 62;
  go_valid : 0 < g_Valid g <= g_span g;
  go_span : g_span g < 4294967296;
  go_first : g_first g = g_Offset g / 65536;
  go_blocks : 0 < g_blocks g <= 64;
  go_last : g_first g + g_blocks g - 1 = (g_Offset g + g_Valid g - 1) / 65536;
  go_end : g_Offset g + g_span g <= (g_first g + g_blocks g) * 65536
}.

Lemma geometry_of_ok offset valid :
  0 <= offset < 2 ^ 61 -> offset mod 4096 = 0 -> 0 < valid -> valid + 4095 < 4294967296 -> g_blocks (geometry_of offset valid) <= 64 ->
  geometry_ok (geometry_of offset valid) /\ g_last (geometry_of offset valid) = g_first (geometry_of offset valid) + g_blocks (geometry_of offset valid) - 1.
Proof.
  intros Ho Hm Hv Hb. unfold geometry_of. rewrite span_value by done. set (span := (valid + 4095) / 4096 * 4096).
  assert (Hs : valid <= span < 4294967296 /\ (offset + span - 1) / 65536 = (offset + valid - 1) / 65536).
  { unfold span. Z.div_mod_to_equations. lia. }
  destruct Hs as [Hs Hq]. unfold DISK_CACHE_BLOCK_SHIFT. rewrite !Z.shiftr_div_pow2 by lia. change (2 ^ 16) with 65536.
  rewrite (u64_id (offset + span - 1)) by lia. cbn [g_blocks g_last g_first].
  assert (Hr : 0 < (offset + span - 1) / 65536 - offset / 65536 + 1 < 4294967296) by (Z.div_mod_to_equations; lia).
  rewrite u32_id by lia. intros H64. split; [|cbn; lia].
  split; cbn [g_Offset g_Valid g_span g_first g_blocks g_last]; try lia; Z.div_mod_to_equations; lia.
Qed.

Lemma delivered_app l p x :
  delivered (l ++ [p]) x = match delivered l x with Some s => Some s | None => if covers p x then Some (part_byte p x) else None end.
Proof. induction l as [|q l IH]; [done|]. cbn [app delivered]. by destruct (covers q x). Qed.

Lemma adjoin_app l p a b : adjoin l a b -> p_at p = b -> 0 < p_len p -> adjoin (l ++ [p]) a (b + p_len p).
Proof.
  revert a. induction l as [|q l IH]; intros a; cbn [adjoin app]; [intros -> ? ?; by split_and!|].
  intros (? & ? & H) ? ?. split_and!; [done|done|]. by apply IH.
Qed.

Lemma adjoin_le l a b : adjoin l a b -> a <= b.
Proof. revert a. induction l as [|q l IH]; intros a; cbn [adjoin]; [lia|]. intros (? & ? & H%IH). lia. Qed.

Lemma delivered_beyond l a b x : adjoin l a b -> b <= x -> delivered l x = None.
Proof.
  revert a. induction l as [|q l IH]; intros a; cbn [adjoin delivered]; [done|]. intros (Ha & ? & H) Hx. pose proof (adjoin_le _ _ _ H).
  unfold covers. destruct (Z.ltb_spec x (p_at q + p_len q)); [lia|]. rewrite andb_false_r. by eapply IH.
Qed.

Lemma delivered_inside l a b x : adjoin l a b -> a <= x < b -> exists s, delivered l x = Some s.
Proof.
  revert a. induction l as [|q l IH]; intros a; cbn [adjoin delivered]; [lia|]. intros (Ha & ? & H) Hx.
  destruct (covers q x) eqn:E; [by eexists|]. apply (IH _ H). unfold covers in E. apply andb_false_iff in E as [E|E]; [apply Z.leb_gt in E|apply Z.ltb_ge in E]; lia.
Qed.

Section Issue.
Context (g : GEOMETRY) (Hg : geometry_ok g) (slots : list Z) (Hlen : Z.of_nat (length slots) = g_blocks g).
Context (Hslots : forall s, s ∈ slots -> s = NO \/ 0 <= s < 2147483648).
Context (maxRuns : Z) (HmaxRuns : maxRuns <= DISK_CACHE_MAX_READ_FETCHES).

Definition in_run (i slot run : Z) : Prop :=
  forall j, 0 <= j < run -> rd slots (i + j) = Some (if slot =? NO then NO else slot + j).

Lemma slots_rd i s : rd slots i = Some s -> s = NO \/ 0 <= s < 2147483648.
Proof using Hslots. intros Hr. apply Hslots. unfold rd in Hr. destruct (0 <=? i); [|done]. by eapply list_elem_of_lookup_2. Qed.

Lemma in_run_S i slot run : in_run i slot run -> rd slots (i + run) = Some (if slot =? NO then NO else slot + run) -> in_run i slot (run + 1).
Proof. intros Hin Hr j Hj. destruct (Z.eq_dec j run) as [->|]; [done|]. apply Hin. lia. Qed.

Lemma run_walk_spec fuel i slot run :
  rd slots i = Some slot -> 1 <= run -> i + run <= g_blocks g -> in_run i slot run -> g_blocks g - (i + run) < Z.of_nat fuel ->
  exists run', run_walk fuel slots i run slot (g_blocks g) = Some run' /\ 1 <= run' /\ i + run' <= g_blocks g /\ in_run i slot run' /\
    (i + run' = g_blocks g \/ exists s, rd slots (i + run') = Some s /\ s <> (if slot =? NO then NO else slot + run')).
Proof using Hlen Hslots Hg.
  intros Hi. revert run. pose proof (rd_Some _ _ _ Hi) as Hib. pose proof (go_blocks _ Hg) as Hb.
  induction fuel as [|fuel IH]; intros run H1 Hle Hin Hf; [lia|]. cbn [run_walk].
  destruct (Z.ltb_spec (i + run) (g_blocks g)) as [Hlt|Hge]; [|exists run; split_and!; try done; left; lia].
  destruct (rd_in_range slots (i + run) ltac:(lia)) as [s Hs]. rewrite Hs. cbn [mbind option_bind].
  destruct (slots_rd _ _ Hi) as [->|Hsl].
  - rewrite Z.eqb_refl in *. destruct (Z.eqb_spec s NO) as [->|Hne].
    + apply IH; try lia. by apply in_run_S.
    + exists run. split_and!; try done. right. by exists s.
  - assert (Hno : (slot =? NO) = false) by (apply Z.eqb_neq; unfold DISK_CACHE_NO_SLOT, MAXULONG; lia). rewrite Hno in *. rewrite u32_id by lia.
    destruct (Z.eqb_spec s (slot + run)) as [->|Hne].
    + apply IH; try lia. apply in_run_S; [done|]. by rewrite Hno.
    + exists run. split_and!; try done. right. by exists s.
Qed.

(** A maximal run takes one run to fetch off, or none. *)
Lemma runs_head i slot run :
  0 <= i -> 1 <= run -> i + run <= g_blocks g -> in_run i slot run ->
  (i + run = g_blocks g \/ exists s, rd slots (i + run) = Some s /\ s <> (if slot =? NO then NO else slot + run)) ->
  (slot = NO \/ 0 <= slot < 2147483648) ->
  runs (drop (Z.to_nat i) slots) = (if slot =? NO then 1 else 0) + runs (drop (Z.to_nat (i + run)) slots).
Proof using Hlen Hg.
  intros Hi Hr Hle Hin Hmax Hs. pose proof (go_blocks _ Hg) as Hb. set (n := Z.to_nat i). set (m := Z.to_nat run).
  replace (Z.to_nat (i + run)) with (n + m)%nat by lia. rewrite <- drop_drop. set (l := drop n slots).
  assert (Hl : forall j, (j < m)%nat -> l !! j = Some (if slot =? NO then NO else slot + Z.of_nat j)).
  { intros j Hj. unfold l. rewrite lookup_drop. specialize (Hin (Z.of_nat j) ltac:(lia)). unfold rd in Hin.
    destruct (Z.leb_spec 0 (i + Z.of_nat j)); [|lia]. rewrite <- Hin. f_equal. lia. }
  assert (Hlt : (m <= length l)%nat) by (unfold l; rewrite length_drop; lia).
  rewrite <- (take_drop m l) at 1. destruct (Z.eqb_spec slot NO) as [->|Hno].
  - assert (take m l = replicate m NO) as ->.
    { apply list_eq_same_length with m; [by rewrite length_replicate|rewrite length_take; lia|]. intros j x y Hj Hx Hy.
      rewrite lookup_take_lt, Hl in Hx by lia. rewrite lookup_replicate_2 in Hy by lia. congruence. }
    assert (Hm : m = Z.to_nat run) by done. clearbody m. destruct m as [|m']; [lia|]. cbn [replicate app]. unfold runs at 1. cbn [runs_from]. rewrite Z.eqb_refl, runs_replicate. f_equal.
    destruct Hmax as [Hmax|(x & Hx & Hne)].
    + by rewrite drop_ge by (unfold l; rewrite length_drop; lia).
    + assert (Hx' : drop (S m') l !! 0%nat = Some x).
      { rewrite lookup_drop. unfold l. rewrite lookup_drop. unfold rd in Hx. destruct (Z.leb_spec 0 (i + run)); [|lia]. rewrite <- Hx. f_equal. lia. }
      destruct (drop (S m') l) as [|y rest]; [done|]. injection Hx' as ->. unfold runs. cbn [runs_from]. by rewrite (proj2 (Z.eqb_neq _ _) Hne).
  - assert (Hh : Forall is_held (take m l)).
    { apply Forall_lookup. intros j x Hx. pose proof (lookup_lt_Some _ _ _ Hx) as Hj. rewrite length_take in Hj. rewrite lookup_take_lt, Hl in Hx by lia.
      injection Hx as <-. destruct Hs as [Hs|Hs]; [done|]. unfold DISK_CACHE_NO_SLOT, MAXULONG in *. lia. }
    unfold runs. rewrite runs_from_app, runs_held by done. destruct (take m l) as [|y rest] eqn:E; [done|].
    assert (ends_missing (y :: rest) = false) as ->; [|lia]. unfold ends_missing. apply bool_decide_eq_false_2. intros Hlast.
    apply last_Some_elem_of in Hlast. rewrite Forall_forall in Hh. by apply (Hh NO).
Qed.

(** What has been issued when the loop stands at block [i], [issued] bytes in. *)
Record issued_ok (i issued : Z) (r : DISK_CACHE_READ) : Prop := {
  io_slots : r_Slots r = slots;
  io_span : Span r = issued;
  io_parts : adjoin (r_Parts r) (g_Offset g) (g_Offset g + issued);
  io_bytes : forall x, g_Offset g <= x < g_Offset g + issued -> delivered (r_Parts r) x = wanted slots (g_first g) x;
  io_out : Outstanding r = 1 + Z.of_nat (length (r_Parts r));
  io_fetches : FetchCount r = fetches_in (r_Parts r);
  io_refetch : Refetch r = 0
}.

(** Where a part may begin: the read's start or a block's. *)
Definition at_part (i issued : Z) : Prop :=
  0 <= i < g_blocks g /\ 0 <= issued < g_Valid g /\ (g_Offset g + issued) / 65536 = g_first g + i /\
  (i = 0 /\ issued = 0 \/ g_Offset g + issued = (g_first g + i) * 65536).

(** The part the loop issues for a run. *)
Definition the_part (i issued slot run : Z) : PART :=
  let at_ := g_Offset g + issued in
  let stop := if slot =? NO then g_Valid g else g_span g in
  mkPart at_ (Z.min ((g_first g + i + run) * 65536 - at_) (stop - issued))
    (if slot =? NO then FromServer at_ else FromDisk (slot * 65536 + at_ mod 65536)).

Lemma the_part_bytes i issued slot run x :
  at_part i issued -> in_run i slot run -> 1 <= run -> i + run <= g_blocks g -> (slot = NO \/ 0 <= slot < 2147483648) ->
  covers (the_part i issued slot run) x = true -> Some (part_byte (the_part i issued slot run) x) = wanted slots (g_first g) x.
Proof.
  intros (Hi & Hiss & Hdiv & Hal) Hin Hr Hle Hs. unfold covers, the_part. cbn [p_at p_len]. rewrite andb_true_iff, Z.leb_le, Z.ltb_lt. intros [Hx1 Hx2].
  assert (Hj : 0 <= x / 65536 - (g_first g + i) < run) by (clear -Hx1 Hx2 Hdiv; Z.div_mod_to_equations; lia).
  unfold wanted, part_byte. cbn [p_src p_at].
  replace (x / 65536 - g_first g) with (i + (x / 65536 - (g_first g + i))) by lia. rewrite Hin by done. cbn [mbind option_bind].
  destruct (Z.eqb_spec slot NO) as [->|Hno]; [rewrite Z.eqb_refl; do 2 f_equal; lia|].
  destruct (Z.eqb_spec (slot + (x / 65536 - (g_first g + i))) NO) as [E|_].
  - exfalso. destruct Hs as [|Hs]; [done|]. pose proof (go_blocks _ Hg). unfold DISK_CACHE_NO_SLOT, MAXULONG in E. lia.
  - do 2 f_equal. clear -Hdiv. Z.div_mod_to_equations. lia.
Qed.

Lemma the_part_len i issued slot run :
  at_part i issued -> 1 <= run -> i + run <= g_blocks g ->
  0 < p_len (the_part i issued slot run) < 4294967296 /\
  (i + run < g_blocks g -> issued + p_len (the_part i issued slot run) = (g_first g + i + run) * 65536 - g_Offset g /\
                           issued + p_len (the_part i issued slot run) < g_Valid g) /\
  (i + run = g_blocks g -> issued + p_len (the_part i issued slot run) = if slot =? NO then g_Valid g else g_span g).
Proof using Hg.
  clear Hlen Hslots slots. intros (Hi & Hiss & Hdiv & Hal) Hr Hle. destruct Hg as [Ho Hv Hsp Hf Hbk Hlast Hend]. cbn [the_part p_len].
  assert (Hq : i + run < g_blocks g -> (g_first g + i + run) * 65536 <= g_Offset g + g_Valid g - 1).
  { intros. pose proof (Z.mul_div_le (g_Offset g + g_Valid g - 1) 65536). nia. }
  assert (Hq2 : i + run = g_blocks g -> g_Offset g + g_span g <= (g_first g + i + run) * 65536) by (intros; nia).
  assert (Hq3 : g_Offset g + issued < (g_first g + i + run) * 65536) by (clear -Hdiv Hr; Z.div_mod_to_equations; nia).
  destruct (slot =? NO); split_and!; intros; lia.
Qed.

Lemma run_end_value i run :
  0 <= i -> i + run <= g_blocks g -> 0 <= run -> u64 (Z.shiftl (g_first g + i + run) DISK_CACHE_BLOCK_SHIFT) = (g_first g + i + run) * 65536.
Proof using Hg.
  clear Hlen Hslots slots. intros Hi Hle Hr. unfold DISK_CACHE_BLOCK_SHIFT. rewrite Z.shiftl_mul_pow2 by lia. change (2 ^ 16) with 65536. destruct Hg as [Ho Hv Hsp Hf Hbk Hlast Hend].
  rewrite u64_id; [done|]. split; [pose proof (Z.div_pos (g_Offset g) 65536); lia|].
  pose proof (Z.mul_div_le (g_Offset g) 65536). lia.
Qed.

Lemma disk_offset_value slot at_ :
  0 <= slot < 2147483648 -> 0 <= at_ ->
  u64 (u64 (Z.shiftl slot DISK_CACHE_BLOCK_SHIFT) + Z.land at_ (DISK_CACHE_BLOCK_SIZE - 1)) = slot * 65536 + at_ mod 65536.
Proof.
  intros Hs Ha. unfold DISK_CACHE_BLOCK_SIZE, DISK_CACHE_BLOCK_SHIFT. change (Z.shiftl 1 16 - 1) with (Z.ones 16).
  rewrite Z.land_ones, Z.shiftl_mul_pow2 by lia. change (2 ^ 16) with 65536. pose proof (Z.mod_pos_bound at_ 65536).
  rewrite (u64_id (slot * 65536)) by lia. rewrite u64_id by lia. done.
Qed.

Definition failures_fail (starts : nat -> PART_START) : Prop := forall k st, starts k = StartFailed st -> NT_SUCCESS st = false.
Definition all_start (starts : nat -> PART_START) : Prop := forall k, starts k = Started.

(** A read whose parts have been issued: as far as they reach they deliver
    what the slots hold and the server what they do not, and they reach to the
    last valid byte unless the read is already marked to be fetched whole. *)
Record read_issued (r : DISK_CACHE_READ) : Prop := {
  ri_slots : r_Slots r = slots;
  ri_some : 0 < Span r <= g_span g;
  ri_parts : adjoin (r_Parts r) (g_Offset g) (g_Offset g + Span r);
  ri_bytes : forall x, g_Offset g <= x < g_Offset g + Span r -> delivered (r_Parts r) x = wanted slots (g_first g) x;
  ri_out : Outstanding r = 1 + Z.of_nat (length (r_Parts r));
  ri_fetches : fetches_in (r_Parts r) <= FetchCount r <= maxRuns;
  ri_reach : Refetch r = 0 /\ g_Valid g <= Span r <= g_span g \/ Refetch r = DISK_CACHE_READ_UNSTARTED
}.

Lemma fetches_in_app l p : fetches_in (l ++ [p]) = fetches_in l + (if fetched p then 1 else 0).
Proof. unfold fetches_in. rewrite List.filter_app, length_app. cbn [List.filter]. destruct (fetched p); cbn [length]; lia. Qed.

Lemma the_part_fetched i issued slot run : fetched (the_part i issued slot run) = (slot =? NO).
Proof. unfold the_part, fetched. cbn [p_src]. by destruct (slot =? NO). Qed.

(** Starting the part of a run. *)
Lemma start_part i issued slot run r start :
  issued_ok i issued r -> at_part i issued -> 1 <= run -> i + run <= g_blocks g -> (slot = NO \/ 0 <= slot < 2147483648) ->
  fetches_in (r_Parts r) + (if slot =? NO then 1 else 0) <= maxRuns ->
  exists st r', DiskCacheReadPart r (g_Offset g + issued) (p_len (the_part i issued slot run)) slot start = Some (st, r') /\
    Outstanding r' = 1 + Z.of_nat (length (r_Parts r')) /\ r_Slots r' = slots /\ Span r' = Span r /\ DiskSpan r' = DiskSpan r /\ Refetch r' = 0 /\
    match start with
    | Started => st = STATUS_SUCCESS /\ r_Parts r' = r_Parts r ++ [the_part i issued slot run] /\ FetchCount r' = fetches_in (r_Parts r')
    | StartNoMemory => NT_SUCCESS st = false /\ r_Parts r' = r_Parts r /\ fetches_in (r_Parts r') <= FetchCount r' <= maxRuns
    | StartFailed s => (NT_SUCCESS s = false -> NT_SUCCESS st = false) /\ r_Parts r' = r_Parts r /\ fetches_in (r_Parts r') <= FetchCount r' <= maxRuns
    end.
Proof.
  intros [Hsl Hsp Hpt Hby Hout Hfc Hrf] Hat Hr Hle Hs Hmax. unfold DiskCacheReadPart, DISK_CACHE_MAX_READ_FETCHES in *. pose proof HmaxRuns as HmaxRuns'.
  assert (Hnn : 0 <= fetches_in (r_Parts r)) by (unfold fetches_in; lia).
  assert (Hpart : the_part i issued slot run = mkPart (g_Offset g + issued) (p_len (the_part i issued slot run))
    (if slot =? NO then FromServer (g_Offset g + issued) else FromDisk (slot * 65536 + (g_Offset g + issued) mod 65536))) by done.
  assert (Hf : forall q, fetches_in (r_Parts r ++ [q]) = fetches_in (r_Parts r) + (if fetched q then 1 else 0)) by (intros; apply fetches_in_app).
  destruct (Z.eqb_spec slot NO) as [->|Hno].
  - rewrite Hfc, u32_id by lia. destruct (Z.ltb_spec (fetches_in (r_Parts r)) 4); [|lia].
    destruct start; do 2 eexists; (split; [reflexivity|]); cbn; split_and!; try done; try lia.
    all: rewrite ?length_app, ?Hf; cbn; first [lia | by rewrite Hpart].
  - assert (Hslot : 0 <= slot < 2147483648) by (by destruct Hs). destruct Hat as (_ & Hiss & _). pose proof (go_off _ Hg).
    rewrite disk_offset_value by lia.
    destruct start; do 2 eexists; (split; [reflexivity|]); cbn; split_and!; try done; try lia.
    all: rewrite ?length_app, ?Hf; cbn; first [lia | by rewrite Hpart].
Qed.

(** The part is added to what was issued. *)
Lemma part_added i issued slot run r r' :
  issued_ok i issued r -> at_part i issued -> in_run i slot run -> 1 <= run -> i + run <= g_blocks g -> (slot = NO \/ 0 <= slot < 2147483648) ->
  r_Parts r' = r_Parts r ++ [the_part i issued slot run] ->
  let len := p_len (the_part i issued slot run) in
  adjoin (r_Parts r') (g_Offset g) (g_Offset g + (issued + len)) /\
  forall x, g_Offset g <= x < g_Offset g + (issued + len) -> delivered (r_Parts r') x = wanted slots (g_first g) x.
Proof.
  intros [Hsl Hsp Hpt Hby Hout Hfc Hrf] Hat Hin Hr Hle Hs Hp len. destruct (the_part_len i issued slot run Hat Hr Hle) as (Hl & _).
  rewrite Hp. split.
  - rewrite Z.add_assoc. apply adjoin_app; [done|done|lia].
  - intros x Hx. rewrite delivered_app. destruct (Z.lt_ge_cases x (g_Offset g + issued)) as [Hlt|Hge].
    + rewrite Hby by lia. destruct (wanted slots (g_first g) x) eqn:E; [done|]. rewrite <- Hby in E by lia. exfalso.
      clear -E Hpt Hx Hlt. pose proof (delivered_inside _ _ _ _ Hpt (conj (proj1 Hx) Hlt)) as [y Hy]. congruence.
    + rewrite (delivered_beyond _ _ _ _ Hpt) by lia.
      assert (Hc : covers (the_part i issued slot run) x = true).
      { unfold covers. apply andb_true_iff. rewrite Z.leb_le, Z.ltb_lt. unfold len in Hx. cbn [the_part p_at] in *. lia. }
      rewrite Hc. by apply the_part_bytes.
Qed.

(** A part that does not start leaves a read to be fetched whole. *)
Lemma failed_part i issued r r' :
  issued_ok i issued r -> 0 < issued <= g_span g -> r_Parts r' = r_Parts r -> r_Slots r' = slots -> Span r' = Span r -> Refetch r' = 0 ->
  Outstanding r' = 1 + Z.of_nat (length (r_Parts r')) -> fetches_in (r_Parts r') <= FetchCount r' <= maxRuns ->
  read_issued (with_Refetch r' (Z.lor (Refetch r') DISK_CACHE_READ_UNSTARTED)).
Proof.
  intros [Hsl Hsp Hpt Hby Hout Hfc Hrf] Hpos Hp Hsl' Hsp' Hrf' Hout' Hfc'. split; cbn; try done.
  - by rewrite Hsp', Hsp.
  - by rewrite Hp, Hsp', Hsp.
  - by rewrite Hp, Hsp', Hsp.
  - right. by rewrite Hrf'.
Qed.

Lemma issue_loop_spec starts fuel : forall k r i issued,
  failures_fail starts -> issued_ok i issued r -> at_part i issued ->
  fetches_in (r_Parts r) + runs (drop (Z.to_nat i) slots) <= maxRuns -> g_blocks g - i < Z.of_nat fuel ->
  exists res, issue_loop fuel g starts k r issued = Some res /\
    match res with None => issued = 0 | Some r' => read_issued r' end /\
    (all_start starts -> exists r', res = Some r' /\ Refetch r' = 0 /\ fetches_in (r_Parts r') = fetches_in (r_Parts r) + runs (drop (Z.to_nat i) slots)).
Proof.
  induction fuel as [|fuel IH]; intros k r i issued Hff Hio Hat Hmax Hfuel; [pose proof Hat as (? & _); lia|].
  pose proof Hat as (Hi & Hiss & Hdiv & Hal). pose proof Hio as [Hsl Hsp Hpt Hby Hout Hfc Hrf]. pose proof Hg as [Ho Hv Hspan Hf Hbk Hlast Hend].
  cbn [issue_loop]. destruct (Z.ltb_spec issued (g_span g)); [|lia]. rewrite (u64_id (g_Offset g + issued)) by lia.
  assert (Hiv : u32 (Z.shiftr (g_Offset g + issued) DISK_CACHE_BLOCK_SHIFT - g_first g) = i).
  { unfold DISK_CACHE_BLOCK_SHIFT. rewrite Z.shiftr_div_pow2 by lia. change (2 ^ 16) with 65536. rewrite Hdiv, u32_id; lia. }
  rewrite !Hiv, Hsl. clear Hiv.
  destruct (rd_in_range slots i ltac:(lia)) as [slot Hslot]. rewrite Hslot. cbn [mbind option_bind]. pose proof (slots_rd _ _ Hslot) as Hs.
  destruct (run_walk_spec (S (length slots)) i slot 1 Hslot) as (run & -> & Hr1 & Hle & Hin & Hrmax); [lia|lia| |lia|].
  { intros j Hj. assert (j = 0) as -> by lia. rewrite Z.add_0_r, Hslot. destruct (Z.eqb_spec slot NO); [by subst|]. f_equal. lia. }
  cbn [mbind option_bind]. rewrite run_end_value by lia. pose proof (runs_head i slot run ltac:(lia) Hr1 Hle Hin Hrmax Hs) as Hruns.
  pose proof (runs_nonneg false (drop (Z.to_nat (i + run)) slots)) as Hrn. fold (runs (drop (Z.to_nat (i + run)) slots)) in Hrn.
  destruct (the_part_len i issued slot run Hat Hr1 Hle) as (Hl & Hmid & Hfin). set (len := p_len (the_part i issued slot run)) in *.
  assert (Hlenv : u32 (Z.min (u64 ((g_first g + i + run) * 65536 - (g_Offset g + issued))) (u32 ((if slot =? NO then g_Valid g else g_span g) - issued))) = len).
  { assert (0 < (g_first g + i + run) * 65536 - (g_Offset g + issued) < 2 ^ 63) by (split; [clear -Hdiv Hr1; Z.div_mod_to_equations; nia|pose proof (Z.mul_div_le (g_Offset g) 65536); lia]).
    rewrite u64_id by lia. rewrite (u32_id (_ - issued)) by (destruct (slot =? NO); lia). unfold len, the_part. cbn [p_len]. apply u32_id.
    unfold len, the_part in Hl. cbn [p_len] in Hl. lia. }
  rewrite Hlenv. clear Hlenv.
  destruct (start_part i issued slot run r (starts k) Hio Hat Hr1 Hle Hs) as (st & r1 & Hpart & Hout1 & Hsl1 & Hsp1 & Hds1 & Hrf1 & Hcase);
    [destruct (slot =? NO); lia|]. fold len in Hpart. rewrite Hpart. cbn [mbind option_bind].
  destruct (starts k) as [| |s] eqn:Est.
  - destruct Hcase as (-> & Hp1 & Hfc1). change (NT_SUCCESS STATUS_SUCCESS) with true. cbn [negb].
    destruct (part_added i issued slot run r r1 Hio Hat Hin Hr1 Hle Hs Hp1) as [Hadj Hdel]. fold len in Hadj, Hdel.
    assert (Hfi : fetches_in (r_Parts r1) = fetches_in (r_Parts r) + (if slot =? NO then 1 else 0)) by (rewrite Hp1, fetches_in_app, the_part_fetched; done).
    rewrite Hsp1, Hsp. rewrite !(u32_id (issued + len)) by (destruct (Z.eq_dec (i + run) (g_blocks g)); [rewrite Hfin by done; destruct (slot =? NO)|]; lia).
    match goal with |- context [with_Spans r1 ?a ?b] => set (r2 := with_Spans r1 a b) end.
    destruct (Z.eq_dec (i + run) (g_blocks g)) as [Heq|Hneq].
    + specialize (Hfin Heq). rewrite Hfin in *.
      assert (Hri : read_issued r2).
      { assert (HS : Span r2 = issued + len) by done. split; rewrite ?HS, ?Hfin; [exact Hsl1| |exact Hadj|exact Hdel|exact Hout1| |].
        - destruct (slot =? NO); lia.
        - change (fetches_in (r_Parts r1) <= FetchCount r1 <= maxRuns). rewrite Hfc1, Hfi. destruct (slot =? NO); lia.
        - left. split; [exact Hrf1|destruct (slot =? NO); lia]. }
      assert (Hruns0 : runs (drop (Z.to_nat (i + run)) slots) = 0) by (rewrite drop_ge by lia; done).
      destruct (Z.eqb_spec slot NO) as [->|Hno]; cbn [andb].
      * rewrite Z.eqb_refl. exists (Some r2). split; [done|]. split; [done|]. intros _. exists r2. split_and!; [done|done|]. change (r_Parts r2) with (r_Parts r1). lia.
      * destruct fuel as [|fuel]; [lia|]. cbn [issue_loop]. destruct (Z.ltb_spec (g_span g) (g_span g)); [lia|].
        exists (Some r2). split; [done|]. split; [done|]. intros _. exists r2. split_and!; [done|done|]. change (r_Parts r2) with (r_Parts r1). lia.
    + destruct (Hmid ltac:(lia)) as [Hend' Hlt].
      assert (Hstop : (slot =? NO) && ((if slot =? NO then g_Valid g else g_span g) =? issued + len) = false).
      { destruct (slot =? NO); [|done]. cbn [andb]. apply Z.eqb_neq. lia. }
      rewrite Hstop. destruct (IH (S k) r2 (i + run) (issued + len) Hff) as (res & Hres & Hok & Hall).
      * split; [exact Hsl1|done|exact Hadj|exact Hdel|exact Hout1|exact Hfc1|exact Hrf1].
      * assert (Hat' : g_Offset g + (issued + len) = (g_first g + (i + run)) * 65536) by lia.
        split; [lia|]. split; [lia|]. split; [by rewrite Hat', Z.div_mul|by right].
      * change (r_Parts r2) with (r_Parts r1). lia.
      * lia.
      * exists res. split; [done|]. split; [|intros Ha; destruct (Hall Ha) as (r' & -> & ? & Hfr); exists r'; split_and!; [done|done|change (r_Parts r2) with (r_Parts r1) in Hfr; lia]].
        destruct res; [done|]. lia.
  - destruct Hcase as (-> & Hp1 & Hfc1). cbn [negb].
    destruct (Z.eqb_spec issued 0); (eexists; split; [reflexivity|]; split; [first [done|eapply failed_part; eauto; lia]|intros Ha; rewrite Ha in Est; done]).
  - destruct Hcase as (Hst & Hp1 & Hfc1). rewrite (Hst (Hff _ _ Est)). cbn [negb].
    destruct (Z.eqb_spec issued 0); (eexists; split; [reflexivity|]; split; [first [done|eapply failed_part; eauto; lia]|intros Ha; rewrite Ha in Est; done]).
Qed.

(** The loop leaves the rest of the read alone. *)
Definition same_rest (r r' : DISK_CACHE_READ) : Prop :=
  r_Key r' = r_Key r /\ r_Status r' = r_Status r /\ r_Bytes r' = r_Bytes r /\ r_Valid r' = r_Valid r.

Lemma read_part_rest r at_ len slot start st r' : DiskCacheReadPart r at_ len slot start = Some (st, r') -> same_rest r r'.
Proof.
  unfold DiskCacheReadPart. intros H. repeat (case_match; simplify_eq; try done).
Qed.

Lemma issue_loop_rest starts fuel : forall k r issued r', issue_loop fuel g starts k r issued = Some (Some r') -> same_rest r r'.
Proof.
  induction fuel as [|fuel IH]; intros k r issued r' H; [done|]. cbn [issue_loop] in H. destruct (_ <? _); [|by injection H as <-].
  destruct (rd _ _) as [slot|]; [|done]. cbn [mbind option_bind] in H. destruct (run_walk _ _ _ _ _ _) as [run|]; [|done]. cbn [mbind option_bind] in H.
  destruct (DiskCacheReadPart _ _ _ _ _) as [[st r1]|] eqn:E; [|done]. cbn [mbind option_bind] in H. apply read_part_rest in E as (E1 & E2 & E3 & E4).
  destruct (negb _); [destruct (issued =? 0); [done|]; by injection H as <-|].
  destruct (_ && _) in H; [by injection H as <-|]. apply IH in H as (H1 & H2 & H3 & H4). cbn in *. unfold same_rest. by rewrite H1, H2, H3, H4.
Qed.
End Issue.
