(* ===== verification/DiskCacheReadTheorems.v ===== *)
(** * Reads served by the disk cache: theorems

    [BlorgDiskCacheRead] as a whole, against the cache's invariant, and the
    completions of its parts in any order. *)

From S2P Require Import Prelude DiskCacheIndex DiskCacheIndexChains DiskCacheIndexOps DiskCacheIndexReads DiskCacheIndexSystem DiskCacheIndexTheorems DiskCacheFill DiskCacheRead.

(** Equality tests that agree. *)
Ltac lia_eqb := apply eq_true_iff_eq; rewrite ?Z.eqb_eq, ?Z.leb_le; lia.

Section Reads.
Context (file : DISK_CACHE_KEY -> Z -> Z).

(** ** The cache's invariant under pins *)

Lemma stored_same ix ix' disk : same_keys ix ix' -> stored file ix disk -> stored file ix' disk.
Proof.
  intros Hsk Hst s e' He' Hv i Hi. specialize (Hsk s). rewrite He' in Hsk. destruct (rd (Slots ix) s) as [e|] eqn:He; [|done].
  cbn in Hsk. injection Hsk as Hk Hs. rewrite Hk. apply Hst; [done|congruence|done].
Qed.

Lemma copied_same ix ix' f : same_keys ix ix' -> copied file ix f -> copied file ix' f.
Proof.
  intros Hsk (e & He & Hb). specialize (Hsk (f_Slot f)). rewrite He in Hsk. destruct (rd (Slots ix') (f_Slot f)) as [e'|] eqn:He'; [|done].
  exists e'. split; [done|]. cbn in Hsk. injection Hsk as Hk _. by rewrite Hk.
Qed.

(** The reads in flight change and [Busy] with them. *)
Lemma repin_ok dc dc' base reads reads' :
  cache_ok file dc base reads [] -> same_keys (dc_Index dc) (dc_Index dc') ->
  sys_inv (mkSystem (dc_Index dc') reads' (f_Slot <$> unsettled dc [])) ->
  Fills dc' = Fills dc -> Writes dc' = Writes dc -> FillWorkerQueued dc' = FillWorkerQueued dc -> FillBytes dc' = FillBytes dc -> Disk dc' = Disk dc ->
  Busy dc' = Busy dc + (Z.of_nat (length reads') - Z.of_nat (length reads)) -> Z.of_nat (length reads') < 1073741824 ->
  cache_ok file dc' base reads' [].
Proof.
  intros [Hs Hd Hf Hby Hbl Hbu Hwk Hba] Hsk Hs' HF HW HQ HB HD HBu Hr. unfold unsettled in *. cbn [app] in *.
  split; unfold unsettled; rewrite ?HF, ?HW, ?HQ, ?HB, ?HD; cbn [app]; try done; try lia.
  - by apply (stored_same (dc_Index dc)).
  - eapply Forall_impl; [exact Hf|]. intros f. by apply copied_same.
Qed.

Lemma slot_count_le l i : slot_count l i <= Z.of_nat (length l).
Proof. unfold slot_count. pose proof (count_occ_bound Z.eq_dec i l). lia. Qed.

Lemma concat_length_le (reads : list (list Z)) n : Forall (fun sl => Z.of_nat (length sl) <= n) reads -> Z.of_nat (length (concat reads)) <= n * Z.of_nat (length reads).
Proof. induction 1 as [|sl reads Hl _ IH]; cbn [concat length]; [cbn; lia|]. rewrite length_app. lia. Qed.

(** No pin count can overflow with fewer than [2^24] reads in flight. *)
Lemma pins_bound dc base reads : cache_ok file dc base reads [] -> Z.of_nat (length reads) < 16777216 ->
  forall i, pins_of (dc_Index dc) i + DISK_CACHE_MAX_READ_BLOCKS <= MAXLONG.
Proof.
  intros Hok Hr i. unfold DISK_CACHE_MAX_READ_BLOCKS, MAXLONG. destruct (Z.eq_dec i NO) as [->|Hi].
  { rewrite pins_of_NO; [lia|]. apply (inv_wf _ (co_sys _ _ _ _ _ Hok)). }
  pose proof (inv_pins _ (co_sys _ _ _ _ _ Hok) i Hi) as Hp. cbn in Hp. rewrite Hp. unfold pinned_slots. cbn.
  pose proof (cache_bounds _ _ _ _ _ Hok) as [Hn _]. pose proof (slot_count_le (concat reads) i). pose proof (slot_count_le (f_Slot <$> unsettled dc []) i) as Hf.
  rewrite length_fmap in Hf. pose proof (concat_length_le reads _ (inv_lens _ (co_sys _ _ _ _ _ Hok))) as Hc. unfold DISK_CACHE_MAX_READ_BLOCKS in Hc. unfold unsettled in Hf, Hn. cbn [app] in Hf, Hn. lia.
Qed.

Lemma held_all_runs l : held_count l = Z.of_nat (length l) -> runs l = 0.
Proof.
  intros H. apply runs_held. induction l as [|x l IH]; [done|]. cbn [held_count length] in H. pose proof (held_count_bounds l).
  destruct (Z.eqb_spec x DISK_CACHE_NO_SLOT); [lia|]. constructor; [done|apply IH; lia].
Qed.

(** ** The index's calls on the cache *)

Lemma busy_range dc base reads : cache_ok file dc base reads [] -> 0 <= Busy dc < 1073800000.
Proof.
  intros Hok. pose proof (cache_bounds _ _ _ _ _ Hok) as [Hn Hb]. pose proof (co_busy _ _ _ _ _ Hok) as ->. pose proof (co_base _ _ _ _ _ Hok).
  destruct (FillWorkerQueued dc); lia.
Qed.

Lemma pin_ok dc base reads k last :
  cache_ok file dc base reads [] -> Z.of_nat (length reads) < 16777216 ->
  0 <= Block k <= last + 1 -> last < MAXULONG64 -> last - Block k < DISK_CACHE_MAX_READ_BLOCKS ->
  exists ix sl, BlorgDiskCacheIndexPinHeld (dc_Index dc) k last = Some (ix, sl, held_count sl) /\
    cache_ok file (with_Index (with_Busy dc (s32 (Busy dc + 1))) ix) base (sl :: reads) [] /\
    Z.of_nat (length sl) = last - Block k + 1 /\ forall j s, sl !! j = Some s -> answers ix (set_Block k (Block k + Z.of_nat j)) s.
Proof.
  intros Hok Hr Hb Hlast Hn. pose proof (busy_range _ _ _ Hok). pose proof (pins_bound _ _ _ Hok Hr) as Hp.
  destruct (pin_inv _ _ _ k last (co_sys _ _ _ _ _ Hok) Hb Hlast Hn Hp) as (ix & sl & Hpin & Hinv & Hsk & Hlen & Hans).
  exists ix, sl. split_and!; [done| |done|].
  - apply (repin_ok dc _ base reads); try done; cbn -[Z.add Z.sub Z.of_nat]; [rewrite s32_id by lia; cbn [length]; lia|cbn [length]; lia].
  - intros j s Hj. eapply answers_same; [by apply same_keys_sym|by apply Hans].
Qed.

Lemma plan_ok dc base reads sl maxRuns :
  cache_ok file dc base (sl :: reads) [] -> 1 <= maxRuns \/ (maxRuns = 0 /\ runs sl = 0) ->
  exists ix sl', BlorgDiskCacheIndexPlanRead (dc_Index dc) sl (held_count sl) maxRuns = Some (ix, sl', held_count sl') /\
    cache_ok file (with_Index dc ix) base (sl' :: reads) [] /\ same_keys (dc_Index dc) ix /\ runs sl' <= maxRuns /\ given_up sl sl'.
Proof.
  intros Hok Hm. destruct (plan_inv _ [] _ _ _ maxRuns (co_sys _ _ _ _ _ Hok) Hm) as (ix & sl' & Hplan & Hinv & Hsk & Hruns & Hgu).
  exists ix, sl'. split_and!; try done. pose proof (co_base _ _ _ _ _ Hok).
  apply (repin_ok dc _ base (sl :: reads)); try done; cbn -[Z.add Z.sub Z.of_nat]; cbn [length] in *; lia.
Qed.

Lemma unpin_ok dc base reads sl served :
  cache_ok file dc base (sl :: reads) [] ->
  exists ix, BlorgDiskCacheIndexUnpin (dc_Index dc) sl served = Some ix /\ cache_ok file (DiskCacheLeave (with_Index dc ix)) base reads [].
Proof.
  intros Hok. pose proof (busy_range _ _ _ Hok). destruct (unpin_inv _ [] _ _ _ served (co_sys _ _ _ _ _ Hok)) as (ix & Hun & Hinv & Hsk). pose proof (co_base _ _ _ _ _ Hok).
  exists ix. split; [done|]. apply (repin_ok dc _ base (sl :: reads)); try done; cbn -[Z.add Z.sub Z.of_nat]; cbn [length] in *; [rewrite s32_id by lia; lia|lia].
Qed.

Lemma leave_entered_ok dc base reads : cache_ok file dc base reads [] -> cache_ok file (DiskCacheLeave (with_Busy dc (s32 (Busy dc + 1)))) base reads [].
Proof.
  intros Hok. pose proof (busy_range _ _ _ Hok). apply (given_back_ok file dc); try done. cbn -[Z.add Z.sub]. rewrite (s32_id (Busy dc + 1)), s32_id; lia.
Qed.

(** ** A read begun *)

(** Where a byte of the read comes from, and that it is the file's: fetched
    from its own place, or on the disk as the file has it. *)
Definition right_source (disk : Z -> Z) (key : DISK_CACHE_KEY) (x : Z) (src : SOURCE) : Prop :=
  match src with
  | FromServer y => y = x
  | FromDisk d => disk d = if x <? Size key then file (set_Block key 0) x else 0
  end.

(** A read [r] of [valid] bytes at [offset] whose parts are all under way,
    of which at most [allowed] are fetches. *)
Record in_flight (dc : DISK_CACHE) (key : DISK_CACHE_KEY) (offset valid allowed : Z) (r : DISK_CACHE_READ) : Prop := {
  if_some : 0 < Span r < 4294967296;
  if_parts : adjoin (r_Parts r) offset (offset + Span r);
  if_bytes : forall x, offset <= x < offset + Span r -> exists src, delivered (r_Parts r) x = Some src /\ right_source (Disk dc) key x src;
  if_all : Refetch r = 0 -> valid <= Span r;
  if_out : Outstanding r = Z.of_nat (length (r_Parts r));
  if_fetches : fetches_in (r_Parts r) <= FetchCount r <= allowed;
  if_fresh : r_Status r = STATUS_SUCCESS /\ r_Bytes r = 0 /\ r_Valid r = valid /\ set_Block (r_Key r) 0 = set_Block key 0
}.

Lemma given_up_lookup sl sl' j s : given_up sl sl' -> sl' !! j = Some s -> s = NO \/ sl !! j = Some s.
Proof.
  intros H Hj. destruct (Forall2_lookup_r _ _ _ _ _ H Hj) as (a & Ha & Hab). destruct Hab as [->| ->]; auto.
Qed.

(** The slots a read holds deliver the file's bytes. *)
Lemma wanted_right ix disk key first slots x :
  stored file ix disk -> (forall j s, slots !! j = Some s -> s = NO \/ serves ix (set_Block key (first + Z.of_nat j)) s) ->
  first <= x / 65536 < first + Z.of_nat (length slots) -> exists src, wanted slots first x = Some src /\ right_source disk key x src.
Proof.
  intros Hst Hsv Hx. unfold wanted. destruct (rd_in_range slots (x / 65536 - first) ltac:(lia)) as [s Hs]. rewrite Hs. cbn [mbind option_bind].
  eexists. split; [reflexivity|]. unfold rd in Hs. destruct (Z.leb_spec 0 (x / 65536 - first)); [|done]. destruct (Hsv _ _ Hs) as [->|(e & He & Hk & Hv)]; [by rewrite Z.eqb_refl|].
  destruct (Z.eqb_spec s NO) as [->|Hno]; [done|]. unfold right_source. rewrite (Hst _ _ He Hv) by (by apply Z.mod_pos_bound).
  rewrite Hk. unfold block_byte. cbn [Block Size set_Block File0 File1 ModifiedTime]. rewrite Z2Nat.id by lia.
  replace ((first + (x / 65536 - first)) * 65536 + x mod 65536) with x by (Z.div_mod_to_equations; lia). done.
Qed.

Lemma serves_range ix k s : wf ix -> serves ix k s -> 0 <= s < 2147483648.
Proof.
  intros Hwf (e & He%rd_Some & _). rewrite (wf_slots _ Hwf) in He. pose proof (wf_count _ Hwf) as Hc. rewrite max_slots_val in Hc. lia.
Qed.

(** The parts of a planned read, issued. *)
Lemma issue_ok dc base reads key offset valid allowed slots starts :
  cache_ok file dc base (slots :: reads) [] -> geometry_ok (geometry_of offset valid) -> Z.of_nat (length slots) = g_blocks (geometry_of offset valid) ->
  (forall j s, slots !! j = Some s -> s = NO \/ serves (dc_Index dc) (set_Block key (g_first (geometry_of offset valid) + Z.of_nat j)) s) ->
  runs slots <= allowed -> allowed <= DISK_CACHE_MAX_READ_FETCHES -> failures_fail starts ->
  let g := geometry_of offset valid in
  exists res, issue_loop (S (Z.to_nat (g_blocks g))) g starts 0 (start_read (set_Block key (g_first g)) valid (g_blocks g) slots) 0 = Some res /\
    match res with None => True | Some r => r_Slots r = slots /\ in_flight dc key offset valid allowed (with_Outstanding r (Outstanding r - 1)) /\ Outstanding r - 1 <> 0 end.
Proof.
  intros Hok Hg Hlen Hsv Hruns Hall Hff g. pose proof (inv_wf _ (co_sys _ _ _ _ _ Hok)) as Hwf. cbn in Hwf. fold g in Hlen, Hsv, Hg.
  assert (HO : g_Offset g = offset) by done. assert (HV : g_Valid g = valid) by done. clearbody g. subst offset valid.
  assert (Hslots : forall s, s ∈ slots -> s = NO \/ 0 <= s < 2147483648).
  { intros s [j Hj]%list_elem_of_lookup. destruct (Hsv _ _ Hj) as [->|Hs]; [by left|right; by eapply serves_range]. }
  destruct (issue_loop_spec g Hg slots Hlen Hslots allowed Hall starts (S (Z.to_nat (g_blocks g))) 0 (start_read (set_Block key (g_first g)) (g_Valid g) (g_blocks g) slots) 0 0) as (res & Hres & Hpost & _); try done.
  - split; cbn; try done; intros; lia.
  - pose proof (go_valid _ Hg). pose proof (go_first _ Hg). pose proof (go_blocks _ Hg). pose proof (go_off _ Hg). unfold at_part. split_and!; try lia. rewrite Z.add_0_r. lia.
  - pose proof (go_blocks _ Hg). lia.
  - exists res. split; [done|]. destruct res as [r|]; [|done]. destruct (issue_loop_rest _ _ _ _ _ _ _ Hres) as (Hk & Hs & Hb & Hv).
    destruct Hpost as [Rsl Rso Rpt Rby Rout Rfe Rre]. pose proof (go_span _ Hg) as Hspan. split; [done|]. cbn in Rpt, Rby, Rre. split.
    + split; cbn; try done; try lia.
      * intros x Hx. rewrite Rby by done. apply (wanted_right (dc_Index dc)); [apply (co_disk _ _ _ _ _ Hok)|done|]. rewrite Hlen.
        pose proof (go_first _ Hg) as Hf. pose proof (go_end _ Hg) as He. rewrite Hf in He |- *. Z.div_mod_to_equations. lia.
      * intros H0. lia || (destruct Rre as [[_ ?]|Rre]; [lia|]; rewrite H0 in Rre; done).
      * by rewrite Hk.
    + rewrite Rout. destruct (r_Parts r); [cbn in Rpt|cbn [length]]; lia.
Qed.

(** What [BlorgDiskCacheRead] comes to, after its guards. *)
Definition read_begun (dc' : DISK_CACHE) (base : Z) (reads : list (list Z)) (key : DISK_CACHE_KEY) (offset valid allowed fetches : Z)
    (res : option (DISK_CACHE_READ * option OUTCOME)) : Prop :=
  match res with
  | None => cache_ok file dc' base reads [] /\ 0 <= fetches <= DISK_CACHE_MAX_READ_FETCHES
  | Some (r, o) => o = None /\ cache_ok file dc' base (r_Slots r :: reads) [] /\ in_flight dc' key offset valid allowed r /\ fetches = FetchCount r
  end.

Lemma runs_to_fetch_defined slots count : forall n i runs, 0 <= i -> i + Z.of_nat n <= Z.of_nat (length slots) -> 0 <= runs <= DISK_CACHE_MAX_READ_FETCHES ->
  exists m, runs_to_fetch n slots count i runs = Some m /\ 0 <= m <= DISK_CACHE_MAX_READ_FETCHES.
Proof.
  induction n as [|n IH]; intros i runs Hi Hn Hr; cbn [runs_to_fetch]; [by eexists|]. destruct (_ && _) eqn:E; [|by eexists]. apply andb_true_iff in E as [_ E%Z.ltb_lt].
  destruct (rd_in_range slots i ltac:(lia)) as [s ->]. cbn [mbind option_bind]. destruct (Z.eqb_spec i 0).
  - cbn [mbind option_bind]. apply IH; [lia|lia|]. destruct (_ && _); lia.
  - destruct (rd_in_range slots (i - 1) ltac:(lia)) as [q ->]. cbn [mbind option_bind]. apply IH; [lia|lia|]. destruct (_ && _); lia.
Qed.

Lemma read_geometry offset len valid :
  0 <= offset < 2 ^ 61 -> 0 <= len < 4294967296 -> 0 < valid <= len -> Z.land (Z.lor offset len) (PAGE_SIZE - 1) = 0 -> g_blocks (geometry_of offset valid) <= 64 ->
  geometry_ok (geometry_of offset valid) /\ g_last (geometry_of offset valid) = g_first (geometry_of offset valid) + g_blocks (geometry_of offset valid) - 1.
Proof. intros Ho Hl Hv [Hmo Hml]%page_aligned Hb. apply geometry_of_ok; try done; try lia. Z.div_mod_to_equations. lia. Qed.

(** After the pins: planned, issued, or given back. *)
Lemma read_planned dc base reads key offset valid allowed slots starts :
  cache_ok file dc base (slots :: reads) [] -> geometry_ok (geometry_of offset valid) -> Z.of_nat (length slots) = g_blocks (geometry_of offset valid) ->
  (forall j s, slots !! j = Some s -> answers (dc_Index dc) (set_Block key (g_first (geometry_of offset valid) + Z.of_nat j)) s) ->
  0 <= allowed <= DISK_CACHE_MAX_READ_FETCHES -> failures_fail starts ->
  let g := geometry_of offset valid in
  exists dc' fetches res,
    ('(ix, slots, served, fetches) ←
       (if held_count slots =? 0 then Some (dc_Index dc, slots, 0, 0)
        else if (allowed =? 0) && negb (held_count slots =? g_blocks g) then n ← DiskCacheRunsToFetch slots (g_blocks g); Some (dc_Index dc, slots, 0, n)
        else '(ix, slots, served) ← BlorgDiskCacheIndexPlanRead (dc_Index dc) slots (held_count slots) allowed; Some (ix, slots, served, 0));
     if served =? 0 then
       ix ← BlorgDiskCacheIndexUnpin ix slots false;
       Some (DiskCacheLeave (with_Index dc ix), fetches, None)
     else
       r ← issue_loop (S (Z.to_nat (g_blocks g))) g starts 0 (start_read (set_Block key (g_first g)) valid (g_blocks g) slots) 0;
       match r with
       | None =>
           ix ← BlorgDiskCacheIndexUnpin ix slots false;
           Some (DiskCacheLeave (with_Index dc ix), 0, None)
       | Some r =>
           '(dc, r', o) ← DiskCacheReadSettle (with_Index dc ix) r;
           Some (dc, FetchCount r, Some (r', o))
       end) = Some (dc', fetches, res) /\ read_begun dc' base reads key offset valid allowed fetches res.
Proof.
  intros Hok Hg Hlen Hans Hall Hff g.
  assert (Hback : forall dc sl fetches, 0 <= fetches <= DISK_CACHE_MAX_READ_FETCHES -> cache_ok file dc base (sl :: reads) [] -> exists dc' f res,
    (ix ← BlorgDiskCacheIndexUnpin (dc_Index dc) sl false; Some (DiskCacheLeave (with_Index dc ix), fetches, None)) = Some (dc', f, res) /\
    read_begun dc' base reads key offset valid allowed f res).
  { intros dc1 sl f Hf Hok1. destruct (unpin_ok dc1 base reads sl false Hok1) as (ix & -> & Hok2). cbn [mbind option_bind]. by eexists _, _, _. }
  assert (Hself : cache_ok file (with_Index dc (dc_Index dc)) base (slots :: reads) []) by (by apply (given_back_ok file dc)).
  destruct (Z.eqb_spec (held_count slots) 0) as [Hz|Hz]; [cbn; by apply (Hback (with_Index dc (dc_Index dc)) slots 0)|].
  destruct ((allowed =? 0) && negb (held_count slots =? g_blocks g)) eqn:Hfew.
  { destruct (runs_to_fetch_defined slots (g_blocks g) (Z.to_nat (g_blocks g)) 0 0) as (n & Hn & Hnb); [lia|fold g in Hlen; lia|done|].
    unfold DiskCacheRunsToFetch. rewrite Hn. cbn. by apply (Hback (with_Index dc (dc_Index dc))). }
  destruct (plan_ok dc base reads slots allowed Hok) as (ix & sl & -> & Hok1 & Hsk & Hruns & Hgu).
  { destruct (Z.eq_dec allowed 0) as [->|]; [right|left; lia]. split; [done|]. rewrite Z.eqb_refl in Hfew. cbn [andb] in Hfew. apply negb_false_iff, Z.eqb_eq in Hfew.
    apply held_all_runs. fold g in Hlen. lia. }
  cbn [mbind option_bind]. destruct (Z.eqb_spec (held_count sl) 0); [by apply (Hback (with_Index dc ix))|].
  destruct (issue_ok (with_Index dc ix) base reads key offset valid allowed sl starts Hok1 Hg) as (res & Hres & Hpost); try done.
  - by rewrite (given_up_length _ _ Hgu).
  - intros j s Hj. destruct (given_up_lookup _ _ _ _ Hgu Hj) as [->|Hj']; [by left|]. destruct (Hans _ _ Hj') as [[-> _]|[_ Hs]]; [by left|].
    right. eapply serves_same; [by apply same_keys_sym|done].
  - lia.
  - fold g in Hres. rewrite Hres. cbn [mbind option_bind]. destruct res as [r|]; [|by apply (Hback (with_Index dc ix))].
    destruct Hpost as (Hsl & Hfl & Hout). unfold DiskCacheReadSettle. cbn [Outstanding with_Outstanding]. rewrite (proj2 (Z.eqb_neq _ _) Hout). cbn.
    eexists _, _, _. split; [reflexivity|]. split; [done|]. cbn. rewrite Hsl. done.
Qed.

Lemma disk_read_begun dc base reads key mdl offset len valid allowed stillLive memory starts :
  cache_ok file dc base reads [] -> Z.of_nat (length reads) < 16777216 ->
  0 <= offset < 2 ^ 61 -> 0 <= len < 4294967296 -> 0 <= valid -> 0 <= allowed <= DISK_CACHE_MAX_READ_FETCHES -> failures_fail starts ->
  exists dc' fetches res, BlorgDiskCacheRead dc key mdl offset len valid allowed stillLive memory starts = Some (dc', fetches, res) /\
    read_begun dc' base reads key offset valid allowed fetches res.
Proof.
  intros Hok Hr Ho Hl Hv Hall Hff. unfold BlorgDiskCacheRead. destruct mdl as [byteOffset|]; [|by eexists _, _, _].
  destruct (_ || _ || _ || _ || _) eqn:Hguard; [by eexists _, _, _; split; [reflexivity|split; [exact Hok|done]]|]. repeat apply orb_false_iff in Hguard as [Hguard ?].
  destruct (_ || _) eqn:Hal; [by eexists _, _, _; split; [reflexivity|split; [exact Hok|done]]|]. apply orb_false_iff in Hal as [Hal _]. apply negb_false_iff, Z.eqb_eq in Hal.
  destruct (Z.ltb_spec DISK_CACHE_MAX_READ_BLOCKS (g_blocks (geometry_of offset valid))) as [|Hbl]; [by eexists _, _, _; split; [reflexivity|split; [exact Hok|done]]|]. unfold DISK_CACHE_MAX_READ_BLOCKS in Hbl.
  destruct (read_geometry offset len valid Ho Hl) as [Hg Hlast]; [bool_cases; lia|done|done|].
  unfold DiskCacheEnter. destruct (Live dc); cbn [negb orb] in *; [|done].
  destruct stillLive; cbn [negb]; [|eexists _, _, _; split; [reflexivity|]; split; [by apply leave_entered_ok|done]].
  destruct memory; cbn [negb]; [|eexists _, _, _; split; [reflexivity|]; split; [by apply leave_entered_ok|done]].
  pose proof (go_first _ Hg) as Hf. pose proof (go_blocks _ Hg) as Hbk. pose proof (go_off _ Hg) as [HO HO']. change (g_Offset (geometry_of offset valid)) with offset in *.
  assert (0 <= offset / 65536 < 2 ^ 61) by (Z.div_mod_to_equations; lia).
  destruct (pin_ok dc base reads (set_Block key (g_first (geometry_of offset valid))) (g_last (geometry_of offset valid)) Hok Hr) as (ix & sl & Hpin & Hok1 & Hlen & Hans);
    cbn [Block set_Block]; [rewrite Hlast; lia|rewrite Hlast; unfold MAXULONG64; lia|unfold DISK_CACHE_MAX_READ_BLOCKS; rewrite Hlast; lia|].
  cbn [dc_Index with_Busy]. rewrite Hpin. cbn [mbind option_bind].
  apply (read_planned (with_Index (with_Busy dc (s32 (Busy dc + 1))) ix)); try done. cbn [Block set_Block] in Hlen. lia.
Qed.

(** C6: [BlorgDiskCacheRead], whatever the kernel answers: it
    either hands the read back, leaving every pin and count as they were, or
    it has begun at least one part, none finished the read, the parts follow
    one another from the read's first byte, each byte comes from the server
    at its own offset or from a slot that holds that byte of that version of
    the file (zeros past its end), at most [allowed] fetches were made, and
    unless the read is already marked to be fetched whole its parts reach
    past the last valid byte. *)
Theorem disk_read_delivers dc base reads key mdl offset len valid allowed stillLive memory starts :
  cache_ok file dc base reads [] -> Z.of_nat (length reads) < 16777216 ->
  0 <= offset < 2 ^ 61 -> 0 <= len < 4294967296 -> 0 <= valid -> 0 <= allowed <= DISK_CACHE_MAX_READ_FETCHES -> failures_fail starts ->
  exists dc' fetches res, BlorgDiskCacheRead dc key mdl offset len valid allowed stillLive memory starts = Some (dc', fetches, res) /\
    read_begun dc' base reads key offset valid allowed fetches res.
Proof. apply disk_read_begun. Qed.

(** ** The parts complete *)

(** How a part ended: the IRP's status and count, or the fetch's status and
    buffer. *)
Inductive DONE :=
  | DiskDone (st : NTSTATUS) (information : Z)
  | FetchDone (st : NTSTATUS) (f : FILE_BUFFER) (env : nat -> FILL_ENV).

Definition complete_part (dc : DISK_CACHE) (r : DISK_CACHE_READ) (p : PART) (d : DONE) : option (DISK_CACHE * DISK_CACHE_READ * option OUTCOME) :=
  match p_src p, d with
  | FromDisk _, DiskDone st information => DiskCacheReadDone dc r st information
  | FromServer at_, FetchDone st f env => DiskCacheReadFetched dc r at_ (p_len p) st f env
  | _, _ => None
  end.

(** The completions in the order given, with each completion call made. *)
Fixpoint complete_all (dc : DISK_CACHE) (r : DISK_CACHE_READ) (l : list (PART * DONE)) : option (DISK_CACHE * list (option OUTCOME)) :=
  match l with
  | [] => Some (dc, [])
  | (p, d) :: l => '(dc, r, o) ← complete_part dc r p d; '(dc, os) ← complete_all dc r l; Some (dc, o :: os)
  end.

(** What may be said of any completion: it is of its part's kind, it reports
    no more than was asked, and a body that names the read's version has its
    bytes. *)
Definition done_ok (key : DISK_CACHE_KEY) (pd : PART * DONE) : Prop :=
  match p_src (fst pd), snd pd with
  | FromDisk _, DiskDone st information => 0 <= information <= p_len (fst pd)
  | FromServer at_, FetchDone st f env =>
      0 <= at_ /\ 0 <= BodyBufferSize f /\
      (DiskCacheIsVersion key f = true -> forall s, BodyBuffer f = Some s -> body_of file key s at_ (at_ + Z.min (BodyBufferSize f) (p_len (fst pd))))
  | _, _ => False
  end.

(** The part got all it asked for, of the read's version. *)
Definition part_good (key : DISK_CACHE_KEY) (pd : PART * DONE) : bool :=
  match snd pd with
  | DiskDone st information => NT_SUCCESS st && (information =? p_len (fst pd))
  | FetchDone st f env => NT_SUCCESS st && DiskCacheIsVersion key f && (p_len (fst pd) <=? BodyBufferSize f)
  end.

Definition asked (l : list (PART * DONE)) : Z := foldr (fun pd n => p_len (fst pd) + n) 0 l.

Lemma asked_nonneg l : Forall (fun pd => 0 < p_len (fst pd)) l -> 0 <= asked l.
Proof. unfold asked. induction 1 as [|pd l Hp _ IH]; cbn [foldr]; lia. Qed.

(** Whether the read, as it stands, is still to succeed. *)
Definition sound (r : DISK_CACHE_READ) : bool := NT_SUCCESS (r_Status r) && (Refetch r =? 0).

Lemma settle_more dc r : Outstanding r - 1 <> 0 -> DiskCacheReadSettle dc r = Some (dc, with_Outstanding r (Outstanding r - 1), None).
Proof. intros H. unfold DiskCacheReadSettle. cbn [Outstanding with_Outstanding]. by rewrite (proj2 (Z.eqb_neq _ _) H). Qed.

Lemma settle_last dc base reads r :
  cache_ok file dc base (r_Slots r :: reads) [] -> Outstanding r = 1 ->
  exists dc' r' o, DiskCacheReadSettle dc r = Some (dc', r', Some o) /\ cache_ok file dc' base reads [] /\
    NT_SUCCESS (o_status o) = sound r && (r_Bytes r =? Span r) /\
    (o_refetch o = true -> o_status o = STATUS_UNEXPECTED_IO_ERROR) /\ o_valid o = r_Valid r /\ o_fetches o = FetchCount r.
Proof.
  intros Hok Ho. unfold DiskCacheReadSettle. cbn [Outstanding with_Outstanding r_Status Refetch r_Bytes Span r_Slots r_Valid FetchCount]. rewrite Ho. change (negb (1 - 1 =? 0)) with false. cbv iota.
  match goal with |- context [mkOutcome ?st _ _ (negb (?rf =? 0))] => set (refetch := rf) end.
  set (status := if negb (refetch =? 0) then STATUS_UNEXPECTED_IO_ERROR else r_Status r).
  destruct (unpin_ok dc base reads (r_Slots r) (NT_SUCCESS status) Hok) as (ix & Hun & Hok'). rewrite Hun. cbn [mbind option_bind].
  eexists _, _, _. split; [reflexivity|]. cbn [o_status o_refetch o_valid o_fetches]. split; [done|]. split; [|split; [|done]].
  - unfold status, refetch, sound. destruct (NT_SUCCESS (r_Status r)) eqn:Hs; cbn [andb]; [|destruct (Refetch r =? 0); [exact Hs|done]].
    destruct (Z.eqb_spec (Refetch r) 0) as [Hz|Hz]; cbn [andb]; [|by rewrite (proj2 (Z.eqb_neq _ _) Hz)].
    rewrite Hz. destruct (r_Bytes r =? Span r); [exact Hs|done].
  - unfold status. by intros ->.
Qed.

Definition same_read (r r1 : DISK_CACHE_READ) : Prop :=
  r_Slots r1 = r_Slots r /\ Outstanding r1 = Outstanding r /\ Span r1 = Span r /\ r_Key r1 = r_Key r /\ r_Valid r1 = r_Valid r /\ FetchCount r1 = FetchCount r.

Lemma lor_nonzero a b : b <> 0 -> (Z.lor a b =? 0) = false.
Proof. intros Hb. apply Z.eqb_neq. rewrite Z.lor_eq_0_iff. tauto. Qed.

(** One completion: what it does to the read before it settles. *)
Lemma part_step dc base reads r p d :
  cache_ok file dc base (r_Slots r :: reads) [] -> done_ok (r_Key r) (p, d) -> 0 <= Size (r_Key r) < 9223372036854775808 ->
  0 < p_len p -> 0 <= r_Bytes r -> r_Bytes r + p_len p <= Span r < 4294967296 ->
  exists dc1 r1, complete_part dc r p d = DiskCacheReadSettle dc1 r1 /\ cache_ok file dc1 base (r_Slots r :: reads) [] /\ same_read r r1 /\
    0 <= r_Bytes r1 <= r_Bytes r + p_len p /\ sound r1 && (r_Bytes r1 =? r_Bytes r + p_len p) = sound r && part_good (r_Key r) (p, d).
Proof.
  intros Hok Hd Hsz Hp Hb Hs. unfold complete_part, done_ok, part_good in *. cbn [fst snd] in *. destruct (p_src p) as [off|at_], d as [st information|st f env]; try done.
  - unfold DiskCacheReadDone. destruct (NT_SUCCESS st) eqn:Hst; cbn [andb].
    + rewrite s64_id by lia. eexists dc, _. split; [reflexivity|]. split; [done|]. split; [done|]. cbn. split; [lia|]. f_equal. lia_eqb.
    + eexists (DiskCacheLost dc), _. split; [reflexivity|]. split; [by apply (given_back_ok file dc)|]. split; [done|]. cbn [r_Bytes with_Refetch]. split; [lia|].
      unfold sound. cbn [Refetch with_Refetch]. by rewrite lor_nonzero, !andb_false_r.
  - destruct Hd as (Ha & Hbs & Hbody). unfold DiskCacheReadFetched. destruct (NT_SUCCESS st) eqn:Hst; cbn [andb].
    + rewrite u32_id by lia. destruct (DiskCacheIsVersion (r_Key r) f) eqn:Hv; cbn [andb].
      * destruct (fill_ok file dc base (r_Slots r :: reads) (r_Key r) (BodyBuffer f) at_ (Z.min (BodyBufferSize f) (p_len p)) env Hok Ha) as (dc' & -> & Hok' & _); [lia|lia|auto|].
        cbn [mbind option_bind]. rewrite s64_id by lia. eexists dc', _. split; [reflexivity|]. split; [done|]. split; [done|]. cbn. split; [lia|]. f_equal. lia_eqb.
      * eexists dc, _. split; [reflexivity|]. split; [done|]. split; [done|]. cbn [r_Bytes with_Refetch]. split; [lia|].
        unfold sound. cbn [Refetch with_Refetch]. by rewrite lor_nonzero, !andb_false_r.
    + eexists dc, _. split; [reflexivity|]. split; [done|]. split; [by destruct (r_Status r =? STATUS_SUCCESS)|]. split; [destruct (r_Status r =? STATUS_SUCCESS); cbn; lia|].
      rewrite andb_false_r. destruct (Z.eqb_spec (r_Status r) STATUS_SUCCESS) as [E|E].
      * unfold sound. cbn [r_Status with_Status]. by rewrite Hst.
      * apply andb_false_iff. right. apply Z.eqb_neq. lia.
Qed.

Lemma complete_all_spec l : forall dc base reads r,
  l <> [] -> cache_ok file dc base (r_Slots r :: reads) [] -> Outstanding r = Z.of_nat (length l) -> Forall (done_ok (r_Key r)) l ->
  0 <= Size (r_Key r) < 9223372036854775808 -> Forall (fun pd => 0 < p_len (fst pd)) l -> 0 <= r_Bytes r -> r_Bytes r + asked l <= Span r < 4294967296 ->
  exists dc' o, complete_all dc r l = Some (dc', replicate (length l - 1) None ++ [Some o]) /\ cache_ok file dc' base reads [] /\
    NT_SUCCESS (o_status o) = sound r && forallb (part_good (r_Key r)) l && (r_Bytes r + asked l =? Span r) /\
    (o_refetch o = true -> o_status o = STATUS_UNEXPECTED_IO_ERROR) /\ o_valid o = r_Valid r /\ o_fetches o = FetchCount r.
Proof.
  induction l as [|[p d] l IH]; intros dc base reads r Hne Hok Hout Hd Hsz Hl Hb Hs; [done|]. rewrite !Forall_cons in *. destruct Hd as [Hd Hds], Hl as [Hl Hls]. cbn [fst] in Hl.
  pose proof (asked_nonneg l Hls) as Hasked. cbn [asked foldr fst] in Hs |- *. fold (asked l) in *.
  destruct (part_step dc base reads r p d Hok Hd Hsz Hl Hb ltac:(lia)) as (dc1 & r1 & Hstep & Hok1 & (S1 & S2 & S3 & S4 & S5 & S6) & Hb1 & Hg). cbn [complete_all]. rewrite Hstep.
  change (forallb (part_good (r_Key r)) ((p, d) :: l)) with (part_good (r_Key r) (p, d) && forallb (part_good (r_Key r)) l). rewrite (andb_assoc (sound r)), <- Hg.
  destruct l as [|pd l].
  - cbn [length] in Hout. destruct (settle_last dc1 base reads r1) as (dc' & r' & o & -> & Hok' & Hst & Hre & Hv & Hf); [by rewrite S1|by rewrite S2, Hout|].
    cbn [mbind option_bind complete_all]. eexists _, o. split; [reflexivity|]. rewrite Hst, S3. change (forallb (part_good (r_Key r)) []) with true. rewrite andb_true_r. rewrite S5 in Hv. rewrite S6 in Hf. split_and!; try done.
    cbn [asked foldr] in *. destruct (sound r1); cbn [andb]; [|done]. apply eq_true_iff_eq. rewrite andb_true_iff, !Z.eqb_eq. lia.
  - rewrite settle_more by (rewrite S2, Hout; cbn [length]; lia). cbn [mbind option_bind].
    destruct (IH dc1 base reads (with_Outstanding r1 (Outstanding r1 - 1))) as (dc' & o & -> & Hok' & Hst & Hre & Hv & Hf); cbn [r_Slots r_Key with_Outstanding r_Bytes Span Outstanding]; rewrite ?S1, ?S2, ?S3, ?S4; try done; try lia.
    { rewrite Hout. cbn [length]. lia. }
    cbn [mbind option_bind]. eexists _, o. split; [cbn [length Nat.sub]; by rewrite Nat.sub_0_r|]. rewrite Hst, Hv, Hf. cbn [r_Bytes Span r_Key with_Outstanding r_Valid FetchCount]. rewrite S3, S4, S5, S6.
    split_and!; try done. change (sound (with_Outstanding r1 (Outstanding r1 - 1))) with (sound r1). generalize (forallb (part_good (r_Key r)) (pd :: l)).
    intros F. destruct (sound r1), F; rewrite ?andb_true_r, ?andb_false_r; cbn [andb]; try done. apply eq_true_iff_eq. rewrite andb_true_iff, !Z.eqb_eq. lia.
Qed.

Lemma asked_perm l l' : l ≡ₚ l' -> asked l = asked l'.
Proof. unfold asked. induction 1; cbn [foldr]; lia. Qed.

Lemma asked_zip (dones : list DONE) parts : length dones = length parts -> forall a b, adjoin parts a b ->
  asked (zip parts dones) = b - a /\ Forall (fun pd => 0 < p_len (fst pd)) (zip parts dones).
Proof.
  revert dones. induction parts as [|p parts IH]; intros [|d dones] Hl a b; try done; cbn [adjoin zip zip_with asked foldr].
  - intros ->. split; [lia|constructor].
  - intros (Ha & Hp & H). injection Hl as Hl. destruct (IH dones Hl _ _ H) as [E F]. unfold asked in *. cbn [fst] in *. split; [lia|by constructor].
Qed.

(** C7: A read in flight ends: in whatever order its parts
    complete, and however each ends, the completion is called exactly once,
    by the last; the slots are unpinned, and the index, the fills and the
    counters are left as the invariant says.  It succeeds exactly when every
    part was started and every part got all it asked for, of the version the
    read was keyed by; a read to be fetched whole is handed back as failed. *)
Theorem read_completes_once dc base reads key offset valid allowed r dones l :
  cache_ok file dc base (r_Slots r :: reads) [] -> in_flight dc key offset valid allowed r -> 0 <= Size key < 9223372036854775808 ->
  length dones = length (r_Parts r) -> l ≡ₚ zip (r_Parts r) dones -> Forall (done_ok (r_Key r)) l ->
  exists dc' o, complete_all dc r l = Some (dc', replicate (length (r_Parts r) - 1) None ++ [Some o]) /\ cache_ok file dc' base reads [] /\
    (NT_SUCCESS (o_status o) = true <-> Refetch r = 0 /\ forall pd, pd ∈ l -> part_good (r_Key r) pd = true) /\
    (o_refetch o = true -> o_status o = STATUS_UNEXPECTED_IO_ERROR) /\ o_valid o = valid /\ o_fetches o = FetchCount r.
Proof.
  intros Hok [Fs Fp Fb Fa Fo Ff (Fst & Fby & Fv & Fk)] Hsz Hlen Hperm Hd. destruct (asked_zip dones _ Hlen _ _ Fp) as [Hask Hpos].
  assert (Hl : length l = length (r_Parts r)) by (rewrite (Permutation_length Hperm), length_zip_with; lia).
  assert (HszR : Size (r_Key r) = Size key) by (change (Size (set_Block (r_Key r) 0) = Size (set_Block key 0)); by rewrite Fk).
  rewrite <- (asked_perm _ _ Hperm) in Hask. rewrite <- Hperm in Hpos. destruct (complete_all_spec l dc base reads r) as (dc' & o & Hall & Hok' & Hst & Hre & Hv & Hf); try done; try lia.
  - intros ->. destruct (r_Parts r); [cbn in Fp|cbn in Hl]; lia.
  - exists dc', o. rewrite <- Hl. split_and!; try done; [|congruence]. rewrite Hst, Fby, Hask. unfold sound. rewrite Fst. change (NT_SUCCESS STATUS_SUCCESS) with true.
    replace (0 + (offset + Span r - offset)) with (Span r) by lia. rewrite Z.eqb_refl, andb_true_r. cbn [andb]. rewrite andb_true_iff, Z.eqb_eq, forallb_forall.
    split; intros [? Hg]; (split; [done|]); intros pd Hin; apply Hg; by apply list_elem_of_In.
Qed.
End Reads.

(** ** Witnesses

    The demonstration index with block 0 of [demo_key] in slot 0 and one read
    of blocks 0 and 1 in flight; byte [x] of every file is [x mod 65536]. *)

Definition demo_file (k : DISK_CACHE_KEY) (x : Z) : Z := x mod 65536.
Definition demo_cache : DISK_CACHE := mkDiskCache demo4 [] false 0 true 2 false [] (fun d => d mod 65536).
Definition demo_read : DISK_CACHE_READ :=
  mkRead demo_key 2 STATUS_SUCCESS 0 131072 65536 131072 2 1 0 [0; DISK_CACHE_NO_SLOT] [mkPart 0 65536 (FromDisk 0); mkPart 65536 65536 (FromServer 65536)].

Lemma demo_cache_ok : cache_ok demo_file demo_cache 1 [[0; DISK_CACHE_NO_SLOT]] [].
Proof.
  split; [exact demo4_inv| |constructor|reflexivity|vm_compute; discriminate|reflexivity|intros _; reflexivity|cbn; lia].
  intros s e He Hv i Hi. assert (Hk : State e = DiskCacheSlotValid -> Key e = demo_key).
  { revert e He Hv. enough (Forall (fun e => State e = DiskCacheSlotValid -> Key e = demo_key) (Slots demo4)) as H by (intros e He _; by eapply rd_Forall in H).
    vm_compute. repeat constructor; done. }
  rewrite (Hk Hv). unfold block_byte, demo_file, demo_key. cbn [Block Size Disk demo_cache set_Block].
  destruct (Z.ltb_spec (0 * 65536 + i) 131072); [|lia]. by rewrite Z.add_comm, Z.mod_add.
Qed.

Lemma disk_read_delivers_witness :
  exists dc' fetches res, BlorgDiskCacheRead demo_cache demo_key (Some 0) 0 131072 131072 2 true true (fun _ => Started) = Some (dc', fetches, res) /\
    read_begun demo_file dc' 1 [[0; DISK_CACHE_NO_SLOT]] demo_key 0 131072 2 fetches res.
Proof.
  apply (disk_read_delivers demo_file demo_cache 1 [[0; DISK_CACHE_NO_SLOT]]); [apply demo_cache_ok|cbn; lia|lia|lia|lia|unfold DISK_CACHE_MAX_READ_FETCHES; lia|]. intros k st H. discriminate H.
Defined.

Lemma demo_in_flight : in_flight demo_file demo_cache demo_key 0 131072 2 demo_read.
Proof.
  split; try done. intros x Hx. cbn [demo_read r_Parts Span] in *. cbn [delivered]. unfold covers. cbn [p_at p_len]. destruct (Z.ltb_spec x (0 + 65536)).
  - destruct (Z.leb_spec 0 x); [|lia]. cbn [andb]. eexists. split; [done|]. cbn. destruct (Z.ltb_spec x 131072); [|lia]. unfold demo_file. f_equal. lia.
  - destruct (Z.leb_spec 0 x); [|lia]. cbn [andb]. destruct (Z.leb_spec 65536 x); [|lia]. destruct (Z.ltb_spec x (65536 + 65536)); [|lia]. cbn [andb]. eexists. split; [done|]. cbn. lia.
Qed.

Definition demo_body : FILE_BUFFER := mkFileBuffer (Some (fun i => i)) 65536 131072 77 true.
Definition demo_env (k : nat) : FILL_ENV := mkFillEnv true true true true true.

(** The fetch completes first. *)
Lemma read_completes_once_witness :
  exists dc' o, complete_all demo_cache demo_read
      [(mkPart 65536 65536 (FromServer 65536), FetchDone STATUS_SUCCESS demo_body demo_env); (mkPart 0 65536 (FromDisk 0), DiskDone STATUS_SUCCESS 65536)]
      = Some (dc', [None; Some o]) /\ cache_ok demo_file dc' 1 [] [] /\ NT_SUCCESS (o_status o) = true.
Proof.
  destruct (read_completes_once demo_file demo_cache 1 [] demo_key 0 131072 2 demo_read [DiskDone STATUS_SUCCESS 65536; FetchDone STATUS_SUCCESS demo_body demo_env]
    [(mkPart 65536 65536 (FromServer 65536), FetchDone STATUS_SUCCESS demo_body demo_env); (mkPart 0 65536 (FromDisk 0), DiskDone STATUS_SUCCESS 65536)])
    as (dc' & o & H & Hok & [_ Hgood] & _).
  - exact demo_cache_ok.
  - exact demo_in_flight.
  - done.
  - done.
  - cbn. apply Permutation_swap.
  - repeat constructor; cbn; try done. intros _ s [= <-] x Hx. unfold demo_file. cbn in Hx |- *. Z.div_mod_to_equations. lia.
  - exists dc', o. split; [exact H|]. split; [exact Hok|]. apply Hgood. split; [reflexivity|].
    clear. intros pd Hin. rewrite !elem_of_cons in Hin. destruct Hin as [->|[->|Hin]]; [vm_compute; reflexivity|vm_compute; reflexivity|exact (False_ind _ (not_elem_of_nil _ Hin))].
Defined.
