(* ===== verification/UnicodePath.v ===== *)
(** * Paths

    A [UNICODE_STRING] is the list of its 16-bit characters; its [Length] is
    twice the list's length, and a [NULL] or empty string is the empty list.
    The case folding and hash tables of the kernel (ntoskrnl's NLS tables)
    are not part of the driver: they are the [Nls] class, whose laws are what
    their documentation says of them.  On them are built the comparisons of
    src/Structs.c and src/PathCache.c. *)

From S2P Require Import Prelude.

Abbreviation PATH := (list Z).

(** [L'\\'] *)
Definition SEP : Z := 92.

(** Length in bytes, as the driver's limits count it. *)
Definition path_bytes (p : PATH) : Z := 2 * Z.of_nat (length p).

(** [RtlUpcaseUnicodeChar], and [RtlHashUnicodeString] with
    [CaseInSensitive] and the default algorithm ([None] when it reports an
    error).  Upcasing leaves the separator alone and makes nothing else one;
    the case-insensitive hash depends on the upcased characters only. *)
Class Nls := {
  upcase : Z -> Z;
  rtl_hash : PATH -> option Z;
  upcase_sep : forall c, upcase c = SEP <-> c = SEP;
  rtl_hash_upcase : forall p q, upcase <$> p = upcase <$> q -> rtl_hash p = rtl_hash q
}.

Section Paths.
Context {nls : Nls}.

Definition fold_path (p : PATH) : PATH := upcase <$> p.

(** [RtlEqualUnicodeString(p, q, TRUE)] *)
Definition RtlEqualUnicodeString (p q : PATH) : bool := bool_decide (fold_path p = fold_path q).

(** [RtlPrefixUnicodeString(d, p, TRUE)] *)
Definition RtlPrefixUnicodeString (d p : PATH) : bool := bool_decide (fold_path d `prefix_of` fold_path p).

Definition BlorgHashPath (p : PATH) : Z :=
  let hash :=
    match rtl_hash p with
    | Some h => h
    | None => fold_left (fun hash c => u32 (u32 (hash * 131) + upcase c)) p 0
    end in
  u32 (hash * 0x9E3779B1).

(** The number of characters up to and including the last separator
    among the first [n]. *)
Fixpoint last_sep (n : nat) (p : PATH) : nat :=
  match n with
  | O => O
  | S m => if bool_decide (p !! m = Some SEP) then S m else last_sep m p
  end.

(** [None] is the source's [FALSE]. *)
Definition PathCacheParent (p : PATH) : option PATH :=
  let chars := last_sep (length p) p in
  if (chars =? 0)%nat || (chars =? length p)%nat then None
  else Some (take (if (chars =? 1)%nat then 1%nat else (chars - 1)%nat) p).

Definition ends_with_sep (d : PATH) : bool := bool_decide (last d = Some SEP).

Definition PathCacheIsUnder (dir path : PATH) : bool :=
  if path_bytes path <? path_bytes dir then false
  else if negb (RtlPrefixUnicodeString dir path) then false
  else (path_bytes path =? path_bytes dir) || ends_with_sep dir ||
       bool_decide (path !! length dir = Some SEP).

Definition PathCacheIsBelowChild (dir path : PATH) : bool :=
  bool_decide (SEP ∈ drop (if ends_with_sep dir then length dir else S (length dir)) path).

Definition MAX_NAME_LEN : Z := 260.

Definition PathCacheIsComponent (name : list Z) : bool :=
  if (length name =? 0)%nat || (MAX_NAME_LEN <=? Z.of_nat (length name)) then false
  else negb (bool_decide (SEP ∈ name)).

(** In bytes; zero for the root, which has no parent to report into. *)
Definition ChangeFeedNameOffset (p : PATH) : Z :=
  let chars := Z.of_nat (last_sep (length p) p) in
  if chars * 2 =? path_bytes p then 0 else u16 (chars * 2).
End Paths.

(** ** Facts *)

Section Facts.
Context {nls : Nls}.
Implicit Types p q d : PATH.

Lemma equal_refl p : RtlEqualUnicodeString p p = true.
Proof. by apply bool_decide_eq_true. Qed.

Lemma equal_iff p q : RtlEqualUnicodeString p q = true <-> fold_path p = fold_path q.
Proof. apply bool_decide_eq_true. Qed.

Lemma equal_sym p q : RtlEqualUnicodeString p q = RtlEqualUnicodeString q p.
Proof. apply bool_decide_ext. done. Qed.

Lemma equal_trans p q d :
  RtlEqualUnicodeString p q = true -> RtlEqualUnicodeString q d = RtlEqualUnicodeString p d.
Proof. rewrite equal_iff. intros H. unfold RtlEqualUnicodeString. by rewrite H. Qed.

Lemma fold_length p : length (fold_path p) = length p.
Proof. apply length_fmap. Qed.

Lemma fold_eq_length p q : fold_path p = fold_path q -> length p = length q.
Proof. intros H. rewrite <- (fold_length p), <- (fold_length q). by rewrite H. Qed.

Lemma fold_app p q : fold_path (p ++ q) = fold_path p ++ fold_path q.
Proof. apply fmap_app. Qed.

Lemma fold_lookup_sep p i : p !! i = Some SEP <-> fold_path p !! i = Some SEP.
Proof.
  unfold fold_path. rewrite list_lookup_fmap. destruct (p !! i) as [c|]; simpl; [|done].
  split; intros [= Hc]; f_equal; by apply upcase_sep.
Qed.

(** The hash, and so the bucket, of a path ignores its case. *)
Lemma hash_fold p q : fold_path p = fold_path q -> BlorgHashPath p = BlorgHashPath q.
Proof.
  intros H. unfold BlorgHashPath. rewrite (rtl_hash_upcase p q H).
  destruct (rtl_hash q); [done|]. do 2 f_equal. clear -H. revert q H. generalize 0.
  induction p as [|c p IH]; intros z [|c' q] Heq; try discriminate Heq; [done|]. injection Heq as Hc Hp. simpl. rewrite Hc. by apply IH.
Qed.

Lemma hash_range p : 0 <= BlorgHashPath p < 4294967296.
Proof. apply u32_range. Qed.

Lemma last_sep_le n p : (last_sep n p <= n)%nat.
Proof. induction n; simpl; [done|]. case_bool_decide; lia. Qed.
End Facts.

(** ** A concrete table: ASCII case folding and the x65599 hash *)

Definition ascii_upcase (c : Z) : Z := if (97 <=? c) && (c <=? 122) then c - 32 else c.

Definition ascii_hash (p : PATH) : option Z :=
  Some (fold_left (fun h c => u32 (h * 65599 + ascii_upcase c)) p 0).

#[export] Program Instance ascii_nls : Nls := {|
  upcase := ascii_upcase;
  rtl_hash := ascii_hash
|}.
Next Obligation.
  intros c. unfold ascii_upcase, SEP. bool_cases; lia.
Qed.
Next Obligation.
  intros p q H. unfold ascii_hash. f_equal. revert q H. generalize 0.
  induction p as [|c p IH]; intros z [|c' q] Heq; try discriminate Heq; [done|]. injection Heq as Hc Hp. simpl. rewrite Hc. by apply IH.
Qed.

(** ** What lies beneath a directory *)

Section Under.
Context {nls : Nls}.
Implicit Types p q d dir : PATH.

Definition with_sep (dir : PATH) : PATH := if ends_with_sep dir then dir else dir ++ [SEP].

Lemma upcase_SEP : upcase SEP = SEP.
Proof. by apply upcase_sep. Qed.

Lemma fold_sep_elem p : SEP ∈ fold_path p <-> SEP ∈ p.
Proof.
  unfold fold_path. rewrite list_elem_of_fmap. split.
  - intros (c & Hc & Hin). symmetry in Hc. apply upcase_sep in Hc as ->. done.
  - intros Hin. exists SEP. by rewrite upcase_SEP.
Qed.

Lemma fold_drop n p : fold_path (drop n p) = drop n (fold_path p).
Proof. unfold fold_path. by rewrite fmap_drop. Qed.

Lemma with_sep_length dir : length (with_sep dir) = if ends_with_sep dir then length dir else S (length dir).
Proof. unfold with_sep. destruct (ends_with_sep dir); [done|]. rewrite length_app. cbn. lia. Qed.

(** Beneath [dir], or [dir] itself: no matter the case, and never a
    sibling whose name merely starts with [dir]'s. *)
Lemma is_under_spec dir p :
  PathCacheIsUnder dir p = true <->
  fold_path p = fold_path dir \/ exists rest, fold_path p = fold_path (with_sep dir) ++ rest.
Proof.
  unfold PathCacheIsUnder, RtlPrefixUnicodeString, path_bytes.
  destruct (Z.ltb_spec (2 * Z.of_nat (length p)) (2 * Z.of_nat (length dir))) as [Hlt|Hge].
  { split; [done|]. intros [H|[rest H]]; apply (f_equal length) in H; rewrite ?length_app, !fold_length in H; [lia|].
    rewrite with_sep_length in H. destruct (ends_with_sep dir); lia. }
  case_bool_decide as Hpre; cbn [negb].
  - destruct Hpre as [rest Hrest]. pose proof (f_equal length Hrest) as Hlen. rewrite length_app, !fold_length in Hlen.
    rewrite !orb_true_iff, Z.eqb_eq, bool_decide_eq_true. unfold with_sep. split.
    + intros [[Heq|He]|Hs].
      * left. rewrite Hrest. destruct rest; [by rewrite app_nil_r|cbn in Hlen; lia].
      * right. rewrite He. by exists rest.
      * destruct (ends_with_sep dir); [right; by exists rest|]. right. apply fold_lookup_sep in Hs.
        rewrite Hrest, lookup_app_r in Hs by (by rewrite fold_length). rewrite fold_length, Nat.sub_diag in Hs.
        destruct rest as [|c rest]; [done|]. injection Hs as ->. exists rest. rewrite fold_app. cbn. rewrite upcase_SEP, Hrest. by rewrite <- app_assoc.
    + intros [H|[rest' H]]; [left; left; apply fold_eq_length in H; lia|].
      destruct (ends_with_sep dir) eqn:He; [by left; right|]. right. apply fold_lookup_sep. rewrite H, fold_app.
      rewrite <- app_assoc, lookup_app_r by (by rewrite fold_length). rewrite fold_length, Nat.sub_diag. cbn. by rewrite upcase_SEP.
  - split; [done|]. intros [H|[rest H]]; destruct Hpre; [by rewrite H|].
    unfold with_sep in H. destruct (ends_with_sep dir); [by exists rest|]. rewrite fold_app, <- app_assoc in H. by eexists.
Qed.

Lemma below_child_spec dir p rest :
  fold_path p = fold_path (with_sep dir) ++ rest -> PathCacheIsBelowChild dir p = bool_decide (SEP ∈ rest).
Proof.
  intros H. unfold PathCacheIsBelowChild. rewrite <- with_sep_length. apply bool_decide_ext.
  rewrite <- fold_sep_elem, fold_drop, H. rewrite <- (fold_length (with_sep dir)), drop_app_length. done.
Qed.
End Under.
