(* ===== verification/PathCache.v ===== *)
(** * The path and listing caches (src/PathCache.c)

    State and operations.  Each bucket is guarded by its own push lock; the
    body of every critical section is one definition ([find_locked],
    [insert_locked], [drop_locked], ...), and the exported operations compose
    them in the order the code takes the locks.  Pool allocation and the
    interrupt-time clock are arguments. *)

From S2P Require Import Prelude UnicodePath.

Definition PATH_CACHE_BUCKET_BITS : Z := 8.
Definition PATH_CACHE_BUCKETS : Z := Z.shiftl 1 PATH_CACHE_BUCKET_BITS.
Definition PATH_CACHE_MAX_PER_BUCKET : Z := 16.
Definition PATH_CACHE_MAX_PATH_BYTES : Z := 4096.
Definition PATH_CACHE_TTL_100NS : Z := 4 * 10 * 1000 * 1000.
Definition PATH_CACHE_FEED_TTL_100NS : Z := 5 * 60 * 10 * 1000 * 1000.
Definition PATH_CACHE_SEED_MAX : Z := (PATH_CACHE_BUCKETS * PATH_CACHE_MAX_PER_BUCKET) / 4.
Definition LISTING_CACHE_BUCKET_BITS : Z := 8.
Definition LISTING_CACHE_BUCKETS : Z := Z.shiftl 1 LISTING_CACHE_BUCKET_BITS.
Definition LISTING_CACHE_MAX_PER_BUCKET : Z := 8.
Definition LISTING_CACHE_MAX_BYTES : Z := 32 * 1024 * 1024.
Definition LISTING_STALE_GRACE_100NS : Z := 26 * 10 * 1000 * 1000.

(** ** Data *)

Record DIRECTORY_ENTRY_METADATA := mkMeta {
  MetaSize : Z;
  CreationTime : Z;
  LastAccessedTime : Z;
  LastModifiedTime : Z;
  IsDirectory : bool;
  NoStore : bool
}.
Definition zero_meta : DIRECTORY_ENTRY_METADATA := mkMeta 0 0 0 0 false false.

Record DIRECTORY_FILE_METADATA := mkFile {
  FileSize : Z;
  FileCreationTime : Z;
  FileLastAccessedTime : Z;
  FileLastModifiedTime : Z;
  FileName : list Z
}.

Record DIRECTORY_SUBDIR_METADATA := mkSubDir {
  SubDirCreationTime : Z;
  SubDirLastAccessedTime : Z;
  SubDirLastModifiedTime : Z;
  SubDirName : list Z
}.

(** A listing snapshot; immutable once shared. *)
Record DIRECTORY_INFO := mkListing {
  Files : list DIRECTORY_FILE_METADATA;
  SubDirs : list DIRECTORY_SUBDIR_METADATA;
  InfoBytes : Z;
  InfoNoStore : bool
}.

Record PATH_CACHE_TICKET := mkTicket {
  TicketSequence : Z;
  TicketIssueTime : Z
}.

Record PATH_CACHE_ENTRY := mkEntry {
  EntryPath : PATH;
  IssueTime : Z;
  EntrySequence : Z;
  Meta : DIRECTORY_ENTRY_METADATA;
  Generation : Z;
  Exists : bool
}.

(** [Listing] is the snapshot's address in [Snapshots]. *)
Record LISTING_CACHE_ENTRY := mkLEntry {
  LPath : PATH;
  Listing : Z;
  LBytes : Z;
  LIssueTime : Z;
  LSequence : Z;
  LGeneration : Z;
  RefreshClaimed : bool
}.

Record PATH_CACHE_BUCKET (E : Type) := mkBucket {
  List : list E;
  Count : Z
}.
Arguments mkBucket {E}.
Arguments List {E}.
Arguments Count {E}.

(** The cache's globals, [global.ChangeFeedLive], and the snapshots with
    their reference counts ([None] once freed). *)
Record PATH_CACHE_STATE := mkState {
  Buckets : list (PATH_CACHE_BUCKET PATH_CACHE_ENTRY);
  ListingBuckets : list (PATH_CACHE_BUCKET LISTING_CACHE_ENTRY);
  Sequence : Z;
  ListingBytes : Z;
  Ready : bool;
  CacheGeneration : Z;
  CacheCount : Z;
  ChangeFeedLive : bool;
  Snapshots : gmap Z (DIRECTORY_INFO * Z)
}.

Inductive PATH_CACHE_RESULT :=
  | PathCacheMiss
  | PathCacheExists (m : DIRECTORY_ENTRY_METADATA) (t : PATH_CACHE_TICKET)
  | PathCacheNotFound.

Section Updates.
Implicit Types st : PATH_CACHE_STATE.

Definition with_Buckets st b :=
  mkState b (ListingBuckets st) (Sequence st) (ListingBytes st) (Ready st) (CacheGeneration st)
    (CacheCount st) (ChangeFeedLive st) (Snapshots st).
Definition with_ListingBuckets st b :=
  mkState (Buckets st) b (Sequence st) (ListingBytes st) (Ready st) (CacheGeneration st)
    (CacheCount st) (ChangeFeedLive st) (Snapshots st).
Definition with_Sequence st x :=
  mkState (Buckets st) (ListingBuckets st) x (ListingBytes st) (Ready st) (CacheGeneration st)
    (CacheCount st) (ChangeFeedLive st) (Snapshots st).
Definition with_ListingBytes st x :=
  mkState (Buckets st) (ListingBuckets st) (Sequence st) x (Ready st) (CacheGeneration st)
    (CacheCount st) (ChangeFeedLive st) (Snapshots st).
Definition with_Generation st x :=
  mkState (Buckets st) (ListingBuckets st) (Sequence st) (ListingBytes st) (Ready st) x
    (CacheCount st) (ChangeFeedLive st) (Snapshots st).
Definition with_Count st x :=
  mkState (Buckets st) (ListingBuckets st) (Sequence st) (ListingBytes st) (Ready st)
    (CacheGeneration st) x (ChangeFeedLive st) (Snapshots st).
Definition with_ChangeFeedLive st x :=
  mkState (Buckets st) (ListingBuckets st) (Sequence st) (ListingBytes st) (Ready st)
    (CacheGeneration st) (CacheCount st) x (Snapshots st).
Definition with_Snapshots st x :=
  mkState (Buckets st) (ListingBuckets st) (Sequence st) (ListingBytes st) (Ready st)
    (CacheGeneration st) (CacheCount st) (ChangeFeedLive st) x.

Definition put_bucket st (i : Z) (b : PATH_CACHE_BUCKET PATH_CACHE_ENTRY) :=
  with_Buckets st (<[Z.to_nat i := b]> (Buckets st)).
Definition put_lbucket st (i : Z) (b : PATH_CACHE_BUCKET LISTING_CACHE_ENTRY) :=
  with_ListingBuckets st (<[Z.to_nat i := b]> (ListingBuckets st)).
End Updates.

(** ** Snapshot references *)

Definition BlorgReferenceDirectoryInfo (st : PATH_CACHE_STATE) (p : Z) : option PATH_CACHE_STATE :=
  '(d, r) ← Snapshots st !! p;
  Some (with_Snapshots st (<[p := (d, s32 (r + 1))]> (Snapshots st))).

Definition BlorgReleaseDirectoryInfo (st : PATH_CACHE_STATE) (p : Z) : option PATH_CACHE_STATE :=
  '(d, r) ← Snapshots st !! p;
  if s32 (r - 1) =? 0 then Some (with_Snapshots st (delete p (Snapshots st)))
  else Some (with_Snapshots st (<[p := (d, s32 (r - 1))]> (Snapshots st))).

Section Cache.
Context {nls : Nls}.

(** [BlorgHashPath(Path) >> (32 - BUCKET_BITS)] *)
Definition PathCacheBucket (path : PATH) : Z :=
  Z.shiftr (BlorgHashPath path) (32 - PATH_CACHE_BUCKET_BITS).
Definition ListingCacheBucket (path : PATH) : Z :=
  Z.shiftr (BlorgHashPath path) (32 - LISTING_CACHE_BUCKET_BITS).

(** ** Tickets, ages, lifetimes *)

Definition PathCacheTicketHonoured (st : PATH_CACHE_STATE) (t : option PATH_CACHE_TICKET) : bool :=
  match t with None => true | Some t => TicketSequence t =? Sequence st end.

Definition PathCacheAdvanceSequence (st : PATH_CACHE_STATE) : PATH_CACHE_STATE :=
  with_Sequence st (s64 (Sequence st + 1)).

Definition PathCacheAge (issueTime now : Z) : Z := if issueTime <? now then now - issueTime else 0.

Definition PathCacheLifetime (st : PATH_CACHE_STATE) : Z :=
  if ChangeFeedLive st then PATH_CACHE_FEED_TTL_100NS else PATH_CACHE_TTL_100NS.

Definition PathCacheEntryLive (e : PATH_CACHE_ENTRY) (now generation lifetime : Z) : bool :=
  let life := if Exists e then lifetime else PATH_CACHE_TTL_100NS in
  (PathCacheAge (IssueTime e) now <? life) && (Generation e =? u32 generation).

Definition ListingCacheEntryLive (e : LISTING_CACHE_ENTRY) (now generation lifetime : Z) : bool :=
  (LGeneration e =? u32 generation) &&
  (PathCacheAge (LIssueTime e) now <? lifetime + LISTING_STALE_GRACE_100NS).

Definition BlorgPathCacheTakeTicket (st : PATH_CACHE_STATE) (now : Z) : PATH_CACHE_TICKET :=
  mkTicket (Sequence st) now.

Definition BlorgPathCacheTicketCurrent (st : PATH_CACHE_STATE) (t : PATH_CACHE_TICKET) (now : Z) : bool :=
  negb (0 =? TicketIssueTime t) && (TicketSequence t =? Sequence st) &&
  (PathCacheAge (TicketIssueTime t) now <? PathCacheLifetime st).

(** ** Init and Cleanup *)

Definition empty_bucket {E} : PATH_CACHE_BUCKET E := mkBucket [] 0.

Definition BlorgPathCacheInit (st : PATH_CACHE_STATE) : PATH_CACHE_STATE :=
  mkState (replicate (Z.to_nat PATH_CACHE_BUCKETS) empty_bucket)
    (replicate (Z.to_nat LISTING_CACHE_BUCKETS) empty_bucket) 0 0 true 0 0
    (ChangeFeedLive st) (Snapshots st).

(** ** The path cache *)

(** The walk of [PathCacheFind] under the bucket's shared lock. *)
Definition find_locked (b : PATH_CACHE_BUCKET PATH_CACHE_ENTRY) (path : PATH) (now generation lifetime : Z)
    : PATH_CACHE_RESULT :=
  match List.find (fun e => RtlEqualUnicodeString (EntryPath e) path) (List b) with
  | Some e =>
      if PathCacheEntryLive e now generation lifetime then
        if Exists e then PathCacheExists (Meta e) (mkTicket (EntrySequence e) (IssueTime e))
        else PathCacheNotFound
      else PathCacheMiss
  | None => PathCacheMiss
  end.

(** The hit's metadata and ticket are what the source copies out through
    its optional [Meta] and [Ticket] arguments. *)
Definition PathCacheFind (st : PATH_CACHE_STATE) (path : PATH) (now : Z) : PATH_CACHE_RESULT :=
  if negb (Ready st) || (length path =? 0)%nat then PathCacheMiss
  else match Buckets st !! Z.to_nat (PathCacheBucket path) with
       | Some b => find_locked b path now (CacheGeneration st) (PathCacheLifetime st)
       | None => PathCacheMiss
       end.

Definition BlorgPathCacheLookupDated := PathCacheFind.
Definition BlorgPathCacheLookup := BlorgPathCacheLookupDated.
Definition BlorgPathCachePeek := PathCacheFind.

(** The walk of [PathCacheInsert]: the list it leaves, how many dead
    entries it reaped, and whether it refreshed an entry in place. *)
Fixpoint insert_walk (l : list PATH_CACHE_ENTRY) (path : PATH) (upd : PATH_CACHE_ENTRY -> PATH_CACHE_ENTRY)
    (now generation lifetime : Z) : list PATH_CACHE_ENTRY * Z * bool :=
  match l with
  | [] => ([], 0, false)
  | e :: l =>
      if RtlEqualUnicodeString (EntryPath e) path then (upd e :: l, 0, true)
      else
        let '(l', reaped, inserted) := insert_walk l path upd now generation lifetime in
        if negb (PathCacheEntryLive e now generation lifetime) then (l', reaped + 1, inserted)
        else (e :: l', reaped, inserted)
  end.

Definition new_entry (path : PATH) (exists_ : bool) (meta : option DIRECTORY_ENTRY_METADATA)
    (issueTime sequence generation : Z) : PATH_CACHE_ENTRY :=
  mkEntry path issueTime sequence (if exists_ then default zero_meta meta else zero_meta) (u32 generation) exists_.

(** In-place refresh: [Meta] is written only when there is metadata. *)
Definition refresh_entry (new : PATH_CACHE_ENTRY) (meta : option DIRECTORY_ENTRY_METADATA) (e : PATH_CACHE_ENTRY)
    : PATH_CACHE_ENTRY :=
  mkEntry (EntryPath e) (IssueTime new) (EntrySequence new)
    (match meta with Some m => if Exists new then m else Meta e | None => Meta e end)
    (Generation new) (Exists new).

(** The critical section of [PathCacheInsert], on the bucket and the
    global count. *)
Definition insert_locked (b : PATH_CACHE_BUCKET PATH_CACHE_ENTRY) (count : Z) (honoured : bool)
    (path : PATH) (new : PATH_CACHE_ENTRY) (meta : option DIRECTORY_ENTRY_METADATA)
    (now generation lifetime : Z) : PATH_CACHE_BUCKET PATH_CACHE_ENTRY * Z :=
  if negb honoured then (b, count)
  else
    let '(l, reaped, inserted) := insert_walk (List b) path (refresh_entry new meta) now generation lifetime in
    let c := u32 (Count b - reaped) in
    let count := s32 (count - reaped) in
    if inserted then (mkBucket l c, count)
    else
      let full := (PATH_CACHE_MAX_PER_BUCKET <=? c) && negb (length l =? 0)%nat in
      let l := if full then tail l else l in
      let c := if full then u32 (c - 1) else c in
      let count := if full then s32 (count - 1) else count in
      (mkBucket (l ++ [new]) (u32 (c + 1)), s32 (count + 1)).

(** [PathCacheInsert] from its lock to its unlock, with what it read
    before. *)
Definition insert_section (st : PATH_CACHE_STATE) (path : PATH) (exists_ : bool)
    (meta : option DIRECTORY_ENTRY_METADATA) (t : option PATH_CACHE_TICKET) (issueTime now generation lifetime : Z)
    : PATH_CACHE_STATE :=
  let i := PathCacheBucket path in
  match Buckets st !! Z.to_nat i with
  | Some b =>
      let sequence := match t with Some t => TicketSequence t | None => Sequence st end in
      let new := new_entry path exists_ meta issueTime sequence generation in
      let '(b, count) := insert_locked b (CacheCount st) (PathCacheTicketHonoured st t) path new meta
                           now generation lifetime in
      with_Count (put_bucket st i b) count
  | None => st
  end.

Definition PathCacheInsert (st : PATH_CACHE_STATE) (path : PATH) (exists_ : bool)
    (meta : option DIRECTORY_ENTRY_METADATA) (t : option PATH_CACHE_TICKET) (allocOk : bool) (now : Z)
    : PATH_CACHE_STATE :=
  let noStore := match meta with Some m => exists_ && NoStore m | None => false end in
  if negb (Ready st) || (length path =? 0)%nat || (PATH_CACHE_MAX_PATH_BYTES <? path_bytes path) || noStore
  then st
  else if negb allocOk then st
  else
    let lifetime := PathCacheLifetime st in
    let generation := CacheGeneration st in
    let issueTime := match t with Some t => TicketIssueTime t | None => now end in
    insert_section st path exists_ meta t issueTime now generation lifetime.

Definition BlorgPathCacheInsertExists (st : PATH_CACHE_STATE) (path : PATH) (meta : DIRECTORY_ENTRY_METADATA)
    (t : option PATH_CACHE_TICKET) (allocOk : bool) (now : Z) : PATH_CACHE_STATE :=
  PathCacheInsert st path true (Some meta) t allocOk now.

Definition BlorgPathCacheInsertNotFound (st : PATH_CACHE_STATE) (path : PATH)
    (t : option PATH_CACHE_TICKET) (allocOk : bool) (now : Z) : PATH_CACHE_STATE :=
  PathCacheInsert st path false None t allocOk now.

(** Removing the first entry with the given path: the invalidation's
    critical section. *)
Fixpoint remove_first {E} (f : E -> bool) (l : list E) : list E * option E :=
  match l with
  | [] => ([], None)
  | e :: l => if f e then (l, Some e) else let '(l', r) := remove_first f l in (e :: l', r)
  end.

Definition drop_locked (st : PATH_CACHE_STATE) (path : PATH) : PATH_CACHE_STATE :=
  let i := PathCacheBucket path in
  match Buckets st !! Z.to_nat i with
  | Some b =>
      match remove_first (fun e => RtlEqualUnicodeString (EntryPath e) path) (List b) with
      | (l, Some _) => with_Count (put_bucket st i (mkBucket l (u32 (Count b - 1)))) (s32 (CacheCount st - 1))
      | (_, None) => st
      end
  | None => st
  end.

(** Which entries [PathCacheInvalidateUnder] drops. *)
Definition swept_under (dir : PATH) (keepDir childrenOnly : bool) (e : PATH_CACHE_ENTRY) : bool :=
  PathCacheIsUnder dir (EntryPath e) &&
  negb (keepDir && (path_bytes (EntryPath e) =? path_bytes dir)) &&
  negb (childrenOnly && PathCacheIsBelowChild dir (EntryPath e)).

(** One bucket's critical section of the sweep. *)
Definition sweep_locked (st : PATH_CACHE_STATE) (f : PATH_CACHE_ENTRY -> bool) (i : nat) : PATH_CACHE_STATE :=
  match Buckets st !! i with
  | Some b =>
      let l := List.filter (fun e => negb (f e)) (List b) in
      let removed := Z.of_nat (length (List b)) - Z.of_nat (length l) in
      with_Count (with_Buckets st (<[i := mkBucket l (u32 (Count b - removed))]> (Buckets st)))
        (s32 (CacheCount st - removed))
  | None => st
  end.

Definition PathCacheInvalidateUnder (st : PATH_CACHE_STATE) (dir : PATH) (keepDir childrenOnly : bool)
    : PATH_CACHE_STATE :=
  fold_left (fun st i => sweep_locked st (swept_under dir keepDir childrenOnly) i)
    (seq 0 (Z.to_nat PATH_CACHE_BUCKETS)) st.
End Cache.

(** ** The listing cache

    Operations that drop or take snapshot references are in the option
    monad: [None] would be a reference to a freed snapshot. *)

Section Listings.
Context {nls : Nls}.

Definition ListingCacheSizeOf (d : DIRECTORY_INFO) : Z := s64 (InfoBytes d).

(** The interlocked add, and the one that takes it back, nothing between
    them; [PathCacheBudget] takes them one at a time. *)
Definition ListingCacheCharge (st : PATH_CACHE_STATE) (bytes : Z) : PATH_CACHE_STATE * bool :=
  let st' := with_ListingBytes st (s64 (ListingBytes st + bytes)) in
  if ListingBytes st + bytes <=? LISTING_CACHE_MAX_BYTES then (st', true)
  else (with_ListingBytes st' (s64 (ListingBytes st' - bytes)), false).

(** What [ListingCacheRemoveEntry] does besides unlinking the entry, which
    the walks below do by leaving it out, and [Count--]. *)
Definition ListingCacheRemoveEntry (st : PATH_CACHE_STATE) (e : LISTING_CACHE_ENTRY) : option PATH_CACHE_STATE :=
  BlorgReleaseDirectoryInfo (with_ListingBytes st (s64 (ListingBytes st - LBytes e))) (Listing e).

Fixpoint remove_entries (st : PATH_CACHE_STATE) (l : list LISTING_CACHE_ENTRY) : option PATH_CACHE_STATE :=
  match l with
  | [] => Some st
  | e :: l => st ← ListingCacheRemoveEntry st e; remove_entries st l
  end.

(** Leaves [kept] in bucket [i], whose other entries [removed] are dropped. *)
Definition replace_lbucket (st : PATH_CACHE_STATE) (i : nat) (b : PATH_CACHE_BUCKET LISTING_CACHE_ENTRY)
    (kept removed : list LISTING_CACHE_ENTRY) : option PATH_CACHE_STATE :=
  remove_entries
    (with_ListingBuckets st
      (<[i := mkBucket kept (u32 (Count b - Z.of_nat (length removed)))]> (ListingBuckets st)))
    removed.

Definition ListingCacheDrop (st : PATH_CACHE_STATE) (dir : PATH) : option PATH_CACHE_STATE :=
  let i := Z.to_nat (ListingCacheBucket dir) in
  b ← ListingBuckets st !! i;
  match remove_first (fun e => RtlEqualUnicodeString (LPath e) dir) (List b) with
  | (l, Some e) => replace_lbucket st i b l [e]
  | (_, None) => Some st
  end.

Definition ListingCacheDropParent (st : PATH_CACHE_STATE) (path : PATH) : option PATH_CACHE_STATE :=
  match PathCacheParent path with
  | Some parent => ListingCacheDrop st parent
  | None => Some st
  end.

(** One bucket's critical section of a sweep that drops what [f] selects. *)
Definition lsweep_locked (st : PATH_CACHE_STATE) (f : LISTING_CACHE_ENTRY -> bool) (i : nat) : option PATH_CACHE_STATE :=
  b ← ListingBuckets st !! i;
  replace_lbucket st i b (List.filter (fun e => negb (f e)) (List b)) (List.filter f (List b)).

Fixpoint lsweep (st : PATH_CACHE_STATE) (f : LISTING_CACHE_ENTRY -> bool) (idx : list nat) : option PATH_CACHE_STATE :=
  match idx with
  | [] => Some st
  | i :: idx => st ← lsweep_locked st f i; lsweep st f idx
  end.

Definition all_lbuckets : list nat := seq 0 (Z.to_nat LISTING_CACHE_BUCKETS).

(** [None] for [dir] is the source's [NULL]: everything. *)
Definition ListingCacheDropUnder (st : PATH_CACHE_STATE) (dir : option PATH) : option PATH_CACHE_STATE :=
  lsweep st (fun e => match dir with None => true | Some d => PathCacheIsUnder d (LPath e) end) all_lbuckets.

Definition ListingCacheReapDead (st : PATH_CACHE_STATE) (now generation lifetime : Z) : option PATH_CACHE_STATE :=
  lsweep st (fun e => negb (ListingCacheEntryLive e now generation lifetime)) all_lbuckets.

(** ** Invalidation *)

Definition BlorgPathCacheInvalidate (st : PATH_CACHE_STATE) (path : PATH) : option PATH_CACHE_STATE :=
  if negb (Ready st) || (length path =? 0)%nat then Some st
  else
    let st := PathCacheAdvanceSequence st in
    let st := drop_locked st path in
    st ← ListingCacheDrop st path;
    ListingCacheDropParent st path.

Definition BlorgPathCacheInvalidatePrefix (st : PATH_CACHE_STATE) (dir : PATH) : option PATH_CACHE_STATE :=
  if negb (Ready st) || (length dir =? 0)%nat then Some st
  else
    let st := PathCacheAdvanceSequence st in
    let st := PathCacheInvalidateUnder st dir false false in
    st ← ListingCacheDropUnder st (Some dir);
    ListingCacheDropParent st dir.

Definition BlorgPathCacheInvalidateAll (st : PATH_CACHE_STATE) : option PATH_CACHE_STATE :=
  let st := PathCacheAdvanceSequence st in
  let st := with_Generation st (s32 (CacheGeneration st + 1)) in
  if Ready st then ListingCacheDropUnder st None else Some st.

Definition BlorgPathCacheFollowFeed (st : PATH_CACHE_STATE) (live : bool) : option PATH_CACHE_STATE :=
  st ← (if live then BlorgPathCacheInvalidateAll st else Some st);
  Some (with_ChangeFeedLive st live).

(** ** Lookup and publication *)

(** First entry with the path, and the list with its [RefreshClaimed] set. *)
Fixpoint claim_first (dir : PATH) (l : list LISTING_CACHE_ENTRY) : list LISTING_CACHE_ENTRY :=
  match l with
  | [] => []
  | e :: l =>
      if RtlEqualUnicodeString (LPath e) dir
      then mkLEntry (LPath e) (Listing e) (LBytes e) (LIssueTime e) (LSequence e) (LGeneration e) true :: l
      else e :: claim_first dir l
  end.

(** What [BlorgPathCacheLookupListing] reports. *)
Record LISTING_HIT := mkHit {
  HitListing : option Z;
  HitStale : bool;
  HitRefreshOwed : bool;
  HitTicket : option PATH_CACHE_TICKET
}.
Definition no_hit : LISTING_HIT := mkHit None false false None.

Definition BlorgPathCacheLookupListing (st : PATH_CACHE_STATE) (dir : PATH) (allowStale : bool) (now : Z)
    : option (PATH_CACHE_STATE * LISTING_HIT) :=
  if negb (Ready st) || (length dir =? 0)%nat then Some (st, no_hit)
  else
    let i := Z.to_nat (ListingCacheBucket dir) in
    let lifetime := PathCacheLifetime st in
    b ← ListingBuckets st !! i;
    match List.find (fun e => RtlEqualUnicodeString (LPath e) dir) (List b) with
    | None => Some (st, no_hit)
    | Some e =>
        if negb (ListingCacheEntryLive e now (CacheGeneration st) lifetime) then Some (st, no_hit)
        else
          let stale := lifetime <=? PathCacheAge (LIssueTime e) now in
          if negb stale || allowStale then
            st ← BlorgReferenceDirectoryInfo st (Listing e);
            let owed := stale && negb (RefreshClaimed e) in
            let st := if stale
                      then with_ListingBuckets st (<[i := mkBucket (claim_first dir (List b)) (Count b)]> (ListingBuckets st))
                      else st in
            Some (st, mkHit (Some (Listing e)) stale owed (Some (mkTicket (LSequence e) (LIssueTime e))))
          else Some (st, no_hit)
    end.

(** The last entry with the path, taken out: [existing] after the walk of
    [BlorgPathCachePublishListing]. *)
Fixpoint extract_last (dir : PATH) (l : list LISTING_CACHE_ENTRY)
    : option (LISTING_CACHE_ENTRY * list LISTING_CACHE_ENTRY) :=
  match l with
  | [] => None
  | e :: l =>
      match extract_last dir l with
      | Some (x, l') => Some (x, e :: l')
      | None => if RtlEqualUnicodeString (LPath e) dir then Some (e, l) else None
      end
  end.

Definition sum_bytes (l : list LISTING_CACHE_ENTRY) : Z := fold_right (fun e n => LBytes e + n) 0 l.

(** [while (ListingBytes + bytes > MAX && !IsListEmpty) remove the head]:
    how many are removed. *)
Fixpoint evictions (held bytes : Z) (l : list LISTING_CACHE_ENTRY) : nat :=
  match l with
  | [] => O
  | e :: l => if LISTING_CACHE_MAX_BYTES <? held + bytes then S (evictions (held - LBytes e) bytes l) else O
  end.

Definition drop_head (st : PATH_CACHE_STATE) (i n : nat) : option PATH_CACHE_STATE :=
  b ← ListingBuckets st !! i;
  replace_lbucket st i b (drop n (List b)) (take n (List b)).

(** Making room in the bucket, if evicting all of it could. *)
Definition make_room (st : PATH_CACHE_STATE) (i : nat) (bytes : Z) : option PATH_CACHE_STATE :=
  b ← ListingBuckets st !! i;
  if ListingBytes st - sum_bytes (List b) + bytes <=? LISTING_CACHE_MAX_BYTES then
    st ← (if (LISTING_CACHE_MAX_PER_BUCKET <=? Count b) && negb (length (List b) =? 0)%nat
          then drop_head st i 1 else Some st);
    b ← ListingBuckets st !! i;
    drop_head st i (evictions (ListingBytes st) bytes (List b))
  else Some st.

(** Charging the new entry's bytes and, if they fit, referencing its
    listing and linking it. *)
Definition link_entry (st : PATH_CACHE_STATE) (i : nat) (e : LISTING_CACHE_ENTRY) : option PATH_CACHE_STATE :=
  let '(st, charged) := ListingCacheCharge st (LBytes e) in
  if charged then
    st ← BlorgReferenceDirectoryInfo st (Listing e);
    b ← ListingBuckets st !! i;
    Some (with_ListingBuckets st (<[i := mkBucket (List b ++ [e]) (u32 (Count b + 1))]> (ListingBuckets st)))
  else Some st.

(** The critical section of [BlorgPathCachePublishListing], uninterrupted;
    [new] is the entry built outside the lock, [None] when its allocation
    failed.  The lock is one bucket's: [PathCacheBudget] has the section access
    by access, with others in between. *)
Definition publish_locked (st : PATH_CACHE_STATE) (dir : PATH) (t : option PATH_CACHE_TICKET)
    (new : option LISTING_CACHE_ENTRY) (bytes issueTime now generation lifetime : Z)
    : option (PATH_CACHE_STATE * bool) :=
  let i := Z.to_nat (ListingCacheBucket dir) in
  b ← ListingBuckets st !! i;
  if negb (PathCacheTicketHonoured st t) then Some (st, false)
  else
    let live := ListingCacheEntryLive in
    let kept := List.filter (fun e => live e now generation lifetime) (List b) in
    let dead := List.filter (fun e => negb (live e now generation lifetime)) (List b) in
    st ← replace_lbucket st i b kept dead;
    b ← ListingBuckets st !! i;
    '(st, current) ← (match extract_last dir kept with
      | None => Some (st, true)
      | Some (existing, rest) =>
          if issueTime <? LIssueTime existing then Some (st, false)
          else st ← replace_lbucket st i b rest [existing]; Some (st, true)
      end);
    match new with
    | Some e =>
        if negb current then Some (st, current)
        else
          st ← make_room st i bytes;
          st ← link_entry st i e;
          Some (st, current)
    | None => Some (st, current)
    end.

Definition BlorgPathCachePublishListing (st : PATH_CACHE_STATE) (dir : PATH) (listing : Z)
    (t : option PATH_CACHE_TICKET) (allocOk : bool) (now : Z) : option (PATH_CACHE_STATE * bool) :=
  '(info, _) ← Snapshots st !! listing;
  if negb (Ready st) || (length dir =? 0)%nat || (PATH_CACHE_MAX_PATH_BYTES <? path_bytes dir) || InfoNoStore info
  then Some (st, false)
  else
    let lifetime := PathCacheLifetime st in
    let issueTime := match t with Some t => TicketIssueTime t | None => now end in
    let generation := CacheGeneration st in
    let bytes := ListingCacheSizeOf info in
    st ← (if allocOk && (LISTING_CACHE_MAX_BYTES <? ListingBytes st + bytes)
          then ListingCacheReapDead st now generation lifetime else Some st);
    let sequence := match t with Some t => TicketSequence t | None => Sequence st end in
    let new := if allocOk
               then Some (mkLEntry dir listing bytes issueTime sequence (u32 generation) false) else None in
    publish_locked st dir t new bytes issueTime now generation lifetime.
End Listings.

(** ** Seeding and subtree publication *)

Section Seeding.
Context {nls : Nls}.

(** What the kernel answers to the n-th insertion of a call: whether its
    pool allocations succeed, and the time it reads. *)
Definition ENV := nat -> bool * Z.

(** [dirPath] is the scratch buffer's directory part, its separator
    included. *)
Definition PathCacheSeedEntry (st : PATH_CACHE_STATE) (dirPath name : PATH) (meta : DIRECTORY_ENTRY_METADATA)
    (t : option PATH_CACHE_TICKET) (allocOk : bool) (now : Z) : PATH_CACHE_STATE :=
  if negb (PathCacheIsComponent name) ||
     (PATH_CACHE_MAX_PATH_BYTES <? path_bytes dirPath + 2 * Z.of_nat (length name))
  then st
  else PathCacheInsert st (dirPath ++ name) true (Some meta) t allocOk now.

Definition subdir_meta (s : DIRECTORY_SUBDIR_METADATA) : DIRECTORY_ENTRY_METADATA :=
  mkMeta 0 (SubDirCreationTime s) (SubDirLastAccessedTime s) (SubDirLastModifiedTime s) true false.
Definition file_meta (f : DIRECTORY_FILE_METADATA) : DIRECTORY_ENTRY_METADATA :=
  mkMeta (FileSize f) (FileCreationTime f) (FileLastAccessedTime f) (FileLastModifiedTime f) false false.

(** What a listing is seeded as, in the order it is: subdirectories last to
    first, then files last to first. *)
Definition seed_order (d : DIRECTORY_INFO) : list (PATH * DIRECTORY_ENTRY_METADATA) :=
  let files := Z.min (Z.of_nat (length (Files d))) PATH_CACHE_SEED_MAX in
  let subDirs := Z.min (Z.of_nat (length (SubDirs d))) (PATH_CACHE_SEED_MAX - files) in
  ((fun s => (SubDirName s, subdir_meta s)) <$> reverse (take (Z.to_nat subDirs) (SubDirs d))) ++
  ((fun f => (FileName f, file_meta f)) <$> reverse (take (Z.to_nat files) (Files d))).

Fixpoint seed_loop (st : PATH_CACHE_STATE) (dirPath : PATH) (l : list (PATH * DIRECTORY_ENTRY_METADATA))
    (t : option PATH_CACHE_TICKET) (env : ENV) (k : nat) : PATH_CACHE_STATE :=
  match l with
  | [] => st
  | (name, meta) :: l =>
      let st := PathCacheSeedEntry st dirPath name meta t (env k).1 (env k).2 in
      seed_loop st dirPath l t env (S k)
  end.

(** [scratchOk]: whether the scratch buffer could be allocated. *)
Definition BlorgPathCacheSeedListing (st : PATH_CACHE_STATE) (dir : PATH) (listing : option DIRECTORY_INFO)
    (t : option PATH_CACHE_TICKET) (scratchOk : bool) (env : ENV) : PATH_CACHE_STATE :=
  if negb (Ready st) || (length dir =? 0)%nat then st
  else
    let st := PathCacheInvalidateUnder st dir true (ChangeFeedLive st) in
    match listing with
    | None => st
    | Some d =>
        if PATH_CACHE_MAX_PATH_BYTES <? path_bytes dir + 2 then st
        else if negb scratchOk then st
        else seed_loop st (with_sep dir) (seed_order d) t env 0
    end.

Record DIRECTORY_DESCENDANT := mkDescendant {
  DescListing : Z;
  Parent : Z;
  SubDir : Z
}.

Definition BlorgGetSubDirEntry (d : DIRECTORY_INFO) (i : Z) : option DIRECTORY_SUBDIR_METADATA :=
  SubDirs d !! Z.to_nat i.

(** The path the [i]-th descendant is published under, given those of the
    root and of the descendants before it; [None] inside when it is
    skipped, outside when a listing it reads has been freed. *)
Definition descendant_path (st : PATH_CACHE_STATE) (root : Z) (ds : list DIRECTORY_DESCENDANT)
    (paths : list (option PATH)) (i : nat) (d : DIRECTORY_DESCENDANT) (allocOk : bool) : option (option PATH) :=
  if Z.of_nat i <? Parent d then Some None
  else
    parentPath ← paths !! Z.to_nat (Parent d);
    parent ← (if Parent d =? 0 then Some root else DescListing <$> ds !! Z.to_nat (Parent d - 1));
    '(info, _) ← Snapshots st !! parent;
    Some (pp ← parentPath;
          sub ← BlorgGetSubDirEntry info (SubDir d);
          if negb (PathCacheIsComponent (SubDirName sub)) then None
          else
            let path := with_sep pp ++ SubDirName sub in
            if PATH_CACHE_MAX_PATH_BYTES <? path_bytes path then None
            else if negb allocOk then None else Some path).

(** [pathOk k] and [env k]: the answers to the path's and to the entry's
    allocations for the k-th descendant. *)
Fixpoint descendants_loop (st : PATH_CACHE_STATE) (root : Z) (ds : list DIRECTORY_DESCENDANT)
    (todo : list DIRECTORY_DESCENDANT) (paths : list (option PATH)) (i : nat) (published : Z)
    (t : option PATH_CACHE_TICKET) (pathOk : nat -> bool) (env : ENV) : option (PATH_CACHE_STATE * Z) :=
  match todo with
  | [] => Some (st, published)
  | d :: todo =>
      path ← descendant_path st root ds paths i d (pathOk i);
      '(st, published) ← (match path with
        | None => Some (st, published)
        | Some p =>
            '(st, current) ← BlorgPathCachePublishListing st p (DescListing d) t (env i).1 (env i).2;
            Some (st, if (current : bool) then published + 1 else published)
        end);
      descendants_loop st root ds todo (paths ++ [path]) (S i) published t pathOk env
  end.

Definition BlorgPathCachePublishDescendants (st : PATH_CACHE_STATE) (dir : PATH) (root : Z)
    (ds : list DIRECTORY_DESCENDANT) (t : option PATH_CACHE_TICKET) (pathsOk : bool) (pathOk : nat -> bool) (env : ENV)
    : option (PATH_CACHE_STATE * Z) :=
  if negb (Ready st) || (length dir =? 0)%nat || (length ds =? 0)%nat then Some (st, 0)
  else if negb pathsOk then Some (st, 0)
  else descendants_loop st root ds ds [Some dir] 0 0 t pathOk env.

(** Called at unload, with no lock and nobody else running. *)
Definition BlorgPathCacheCleanup (st : PATH_CACHE_STATE) : option PATH_CACHE_STATE :=
  if negb (Ready st) then Some st
  else
    let st := mkState ((fun _ => empty_bucket) <$> Buckets st) (ListingBuckets st) (Sequence st) (ListingBytes st)
                false (CacheGeneration st) (CacheCount st) (ChangeFeedLive st) (Snapshots st) in
    st ← lsweep st (fun _ => true) all_lbuckets;
    Some (with_Count st 0).
End Seeding.
