(* ===== verification/ListingIndex.v ===== *)
(** * A listing's name index (src/Client.c, src/Create.c)

    [BlorgAllocateDirectoryInfo] sizes the block of a listing, with a hash
    index of its names; [BlorgIndexDirectoryInfo] chains the entries into it
    and [BlorgFindDirectoryEntry] walks one chain.  Positions count files
    first, then subdirectories. *)

From S2P Require Import Prelude UnicodePath PathCache.

Definition sizeof_DIRECTORY_INFO : Z := 88.
Definition sizeof_FILE_METADATA : Z := 48.
Definition sizeof_SUBDIR_METADATA : Z := 40.

(** [None] on overflow. *)
Definition HttpCheckedAddSizeT (a b : Z) : option Z :=
  let sum := u64 (a + b) in
  if sum <? a then None else Some sum.

(** [while (chains < entries) chains <<= 1], the shift 32 bits wide. *)
Fixpoint chains_loop (fuel : nat) (chains entries : Z) : option Z :=
  match fuel with
  | O => None
  | S fuel => if chains <? entries then chains_loop fuel (u32 (chains * 2)) entries else Some chains
  end.

(** The part of a listing's header that locates its index. *)
Record LISTING_LAYOUT := mkLayout {
  SubDirsOffset : Z;
  IndexOffset : Z;
  NamesOffset : Z;
  LayoutBytes : Z;
  IndexMask : Z
}.

(** [None]: no listing of this size.  [chains_loop]'s fuel covers every
    doubling of a 32-bit value. *)
Definition BlorgAllocateDirectoryInfo (fileCount subDirCount nameBytes : Z) (allocOk : bool) : option LISTING_LAYOUT :=
  entries ← HttpCheckedAddSizeT fileCount subDirCount;
  if MAXULONG / 4 <? entries then None
  else
    chains ← chains_loop 33 1 entries;
    let filesOffset := sizeof_DIRECTORY_INFO in
    let subDirsOffset := u64 (filesOffset + fileCount * sizeof_FILE_METADATA) in
    let indexOffset := u64 (subDirsOffset + subDirCount * sizeof_SUBDIR_METADATA) in
    let namesOffset := u64 (indexOffset + (chains + entries) * 4) in
    bytes ← HttpCheckedAddSizeT namesOffset nameBytes;
    if negb allocOk then None else Some (mkLayout subDirsOffset indexOffset namesOffset bytes (chains - 1)).

Section Index.
Context {nls : Nls}.

Definition HttpListingEntryNames (d : DIRECTORY_INFO) : list (list Z) :=
  (FileName <$> Files d) ++ (SubDirName <$> SubDirs d).

(** Which chain of [mask + 1] a name is in. *)
Definition HttpListingChain (mask : Z) (name : list Z) : Z :=
  let hash := default 0 (rtl_hash name) in
  let mixed := u32 (hash * 0x9E3779B1) in
  Z.shiftr (mixed * (mask + 1)) 32.

(** The chain heads and the links, as [BlorgIndexDirectoryInfo] fills
    them; both start zeroed. *)
Fixpoint index_loop (mask : Z) (names : list (list Z)) (entry : nat) (chains links : list Z) : option (list Z * list Z) :=
  match entry with
  | O => Some (chains, links)
  | S k =>
      name ← names !! k;
      let chain := HttpListingChain mask name in
      head ← rd chains chain;
      links ← wr links (Z.of_nat k) head;
      chains ← wr chains chain (Z.of_nat (S k));
      index_loop mask names k chains links
  end.

Definition BlorgIndexDirectoryInfo (mask : Z) (names : list (list Z)) : option (list Z * list Z) :=
  index_loop mask names (length names) (replicate (Z.to_nat (mask + 1)) 0) (replicate (length names) 0).

(** [Some (Some i)]: found at position [i].  The outer [None] is a read out
    of range, or more steps than [fuel]. *)
Fixpoint find_entry_loop (fuel : nat) (names : list (list Z)) (links : list Z) (next : Z) (name : list Z) : option (option Z) :=
  match fuel with
  | O => None
  | S fuel =>
      if next =? 0 then Some None
      else
        entryName ← rd names (next - 1);
        if RtlEqualUnicodeString entryName name then Some (Some (next - 1))
        else next ← rd links (next - 1); find_entry_loop fuel names links next name
  end.

Definition BlorgFindDirectoryEntry (mask : Z) (names : list (list Z)) (index : list Z * list Z) (name : list Z) : option (option Z) :=
  head ← rd index.1 (HttpListingChain mask name);
  find_entry_loop (S (length names)) names index.2 head name.

(** [None] inside is the source's [FALSE].  [NoStore] of the result is
    whatever its caller put there; it is not the listing's to say. *)
Definition CreateFindEntryByName (d : DIRECTORY_INFO) (mask : Z) (index : list Z * list Z) (name : list Z)
    : option (option DIRECTORY_ENTRY_METADATA) :=
  entry ← BlorgFindDirectoryEntry mask (HttpListingEntryNames d) index name;
  match entry with
  | None => Some None
  | Some entry =>
      let fileCount := Z.of_nat (length (Files d)) in
      if entry <? fileCount then file ← rd (Files d) entry; Some (Some (file_meta file))
      else sub ← rd (SubDirs d) (entry - fileCount); Some (Some (subdir_meta sub))
  end.
End Index.

(** ** The index is a scan *)

Section Facts.
Context {nls : Nls}.

(** The first position whose name equals [name] but for case. *)
Fixpoint first_match (k : Z) (names : list (list Z)) (name : list Z) : option Z :=
  match names with
  | [] => None
  | n :: names => if RtlEqualUnicodeString n name then Some k else first_match (k + 1) names name
  end.

(** From [next], the links run through exactly the positions [l]. *)
Fixpoint chain_is (links : list Z) (next : Z) (l : list nat) : Prop :=
  match l with
  | [] => next = 0
  | i :: l => next = Z.of_nat (S i) /\ exists v, links !! i = Some v /\ chain_is links v l
  end.

Lemma chain_is_insert links k v l : forall next,
  Forall (fun i => i <> k) l -> chain_is links next l -> chain_is (<[k := v]> links) next l.
Proof.
  induction l as [|i l IH]; intros next Hf; [done|]. apply Forall_cons in Hf as [Hi Hf].
  intros (Hn & w & Hw & Hc). split; [done|]. exists w. split; [by rewrite list_lookup_insert_ne|by apply IH].
Qed.

Definition in_chain (mask : Z) (names : list (list Z)) (c : Z) (i : nat) : bool :=
  match names !! i with Some n => HttpListingChain mask n =? c | None => false end.

(** The positions from [k] on that are in chain [c], in order. *)
Definition positions (mask : Z) (names : list (list Z)) (k : nat) (c : Z) : list nat :=
  List.filter (in_chain mask names c) (seq k (length names - k)).

Record indexed (mask : Z) (names : list (list Z)) (k : nat) (chains links : list Z) : Prop := {
  idx_chains : Z.of_nat (length chains) = mask + 1;
  idx_links : length links = length names;
  idx_is : forall c v, rd chains c = Some v -> chain_is links v (positions mask names k c)
}.

Lemma chain_range mask name : 0 <= mask -> 0 <= HttpListingChain mask name < mask + 1.
Proof.
  intros Hm. unfold HttpListingChain. rewrite Z.shiftr_div_pow2 by lia. change (2 ^ 32) with 4294967296.
  pose proof (u32_range (default 0 (rtl_hash name) * 0x9E3779B1)) as Hr. set (x := u32 _) in *. clearbody x. split.
  - apply Z.div_pos; nia.
  - apply Z.div_lt_upper_bound; nia.
Qed.

Lemma positions_step mask names k c n : names !! k = Some n ->
  positions mask names k c = (if HttpListingChain mask n =? c then [k] else []) ++ positions mask names (S k) c.
Proof.
  intros Hn. pose proof (lookup_lt_Some _ _ _ Hn). unfold positions.
  replace (length names - k)%nat with (S (length names - S k)) by lia. cbn [seq List.filter].
  unfold in_chain at 1. rewrite Hn. by destruct (_ =? c).
Qed.

Lemma positions_above mask names k c : Forall (fun i => i <> k) (positions mask names (S k) c).
Proof.
  apply Forall_forall. intros i Hi. apply list_elem_of_In, List.filter_In in Hi as [Hi _].
  apply list_elem_of_In, elem_of_seq in Hi. lia.
Qed.

Lemma index_loop_spec mask names k : 0 <= mask -> forall chains links,
  (k <= length names)%nat -> indexed mask names k chains links ->
  exists chains' links', index_loop mask names k chains links = Some (chains', links') /\ indexed mask names 0 chains' links'.
Proof.
  intros Hm. induction k as [|k IH]; intros chains links Hk Hi; cbn [index_loop]; [by eauto|].
  destruct (lookup_lt_is_Some_2 names k) as [n Hn]; [lia|]. rewrite Hn. cbn [mbind option_bind].
  pose proof (chain_range mask n Hm) as Hr. destruct Hi as [Hc Hl His].
  destruct (rd_in_range chains (HttpListingChain mask n)) as [v Hv]; [lia|]. rewrite Hv. cbn [mbind option_bind].
  rewrite (wr_in_range links) by lia. cbn [mbind option_bind].
  destruct (wr_exists chains (HttpListingChain mask n) (Z.of_nat (S k)) v Hv) as [chains' Hw]. rewrite Hw. cbn [mbind option_bind].
  apply IH; [lia|]. split; rewrite ?length_insert, ?(wr_length _ _ _ _ Hw); try done.
  intros c x. rewrite Nat2Z.id, (rd_wr _ _ _ _ _ Hw). rewrite (positions_step _ _ _ _ n Hn). case_decide as Hd.
  - intros [= <-]. rewrite (proj2 (Z.eqb_eq _ _) Hd). cbn [app chain_is]. split; [done|]. exists v.
    split; [apply list_lookup_insert_eq; lia|]. apply chain_is_insert; [apply positions_above|]. apply His. by rewrite <- Hd.
  - intros Hx. rewrite (proj2 (Z.eqb_neq _ _) Hd). cbn [app]. apply chain_is_insert; [apply positions_above|]. by apply His.
Qed.

Lemma index_spec mask names : 0 <= mask ->
  exists chains links, BlorgIndexDirectoryInfo mask names = Some (chains, links) /\ indexed mask names 0 chains links.
Proof.
  intros Hm. apply index_loop_spec; [done..|]. split.
  - rewrite length_replicate. lia.
  - by rewrite length_replicate.
  - intros c v Hv. unfold positions. rewrite Nat.sub_diag. cbn.
    unfold rd in Hv. destruct (0 <=? c); [|done]. by apply lookup_replicate in Hv as [? _].
Qed.

(** Walking a chain of increasing positions finds the first match in it. *)
Lemma find_entry_loop_spec names links name l : forall next fuel,
  chain_is links next l -> (forall i, i ∈ l -> (i < length names)%nat) -> (length l < fuel)%nat ->
  find_entry_loop fuel names links next name =
    Some (Z.of_nat <$> List.find (fun i => match names !! i with Some n => RtlEqualUnicodeString n name | None => false end) l).
Proof.
  induction l as [|i l IH]; intros next [|fuel] Hc Hl Hf; cbn [length] in Hf; try lia; cbn [find_entry_loop chain_is] in *.
  - by rewrite Hc.
  - destruct Hc as (-> & v & Hv & Hc). rewrite (proj2 (Z.eqb_neq (Z.of_nat (S i)) 0)) by lia.
    replace (Z.of_nat (S i) - 1) with (Z.of_nat i) by lia.
    destruct (lookup_lt_is_Some_2 names i) as [n Hn]; [apply Hl; left|]. unfold rd. rewrite (proj2 (Z.leb_le 0 _)) by lia.
    rewrite Nat2Z.id, Hn. cbn [mbind option_bind List.find]. rewrite Hn.
    destruct (RtlEqualUnicodeString n name); [done|]. rewrite Hv. cbn [mbind option_bind].
    apply IH; [done| |lia]. intros j Hj. apply Hl. by right.
Qed.

(** Names equal but for case are in the same chain, so the chain's first
    match is the listing's. *)
Lemma find_positions mask names name : forall k, (k <= length names)%nat ->
  Z.of_nat <$> List.find (fun i => match names !! i with Some n => RtlEqualUnicodeString n name | None => false end)
    (positions mask names k (HttpListingChain mask name)) = first_match (Z.of_nat k) (drop k names) name.
Proof.
  intros k. remember (length names - k)%nat as m eqn:Hm. revert k Hm. induction m as [|m IH]; intros k Hm Hk.
  - unfold positions. rewrite <- Hm. cbn [seq List.filter List.find]. rewrite drop_ge by lia. done.
  - destruct (lookup_lt_is_Some_2 names k) as [n Hn]; [lia|]. rewrite (positions_step _ _ _ _ n Hn), (drop_S _ n _ Hn).
    cbn [first_match]. destruct (RtlEqualUnicodeString n name) eqn:He.
    + apply equal_iff in He. assert (Hh : HttpListingChain mask n = HttpListingChain mask name)
        by (unfold HttpListingChain; by rewrite (rtl_hash_upcase _ _ He)).
      rewrite Hh, Z.eqb_refl. cbn [app List.find]. rewrite Hn, (proj2 (equal_iff _ _) He). done.
    + replace (Z.of_nat k + 1) with (Z.of_nat (S k)) by lia. rewrite <- IH by lia.
      destruct (HttpListingChain mask n =? _); [|done]. cbn [app List.find]. by rewrite Hn, He.
Qed.

Lemma find_entry_spec mask names chains links name :
  0 <= mask -> indexed mask names 0 chains links ->
  BlorgFindDirectoryEntry mask names (chains, links) name = Some (first_match 0 names name).
Proof.
  intros Hm [Hc Hl His]. unfold BlorgFindDirectoryEntry. cbn [fst snd].
  destruct (rd_in_range chains (HttpListingChain mask name)) as [v Hv]; [rewrite Hc; by apply chain_range|].
  rewrite Hv. cbn [mbind option_bind]. rewrite (find_entry_loop_spec _ _ _ _ _ _ (His _ _ Hv)).
  - rewrite find_positions by lia. by rewrite drop_0.
  - intros i Hi. apply list_elem_of_In, List.filter_In in Hi as [Hi _]. apply list_elem_of_In, elem_of_seq in Hi. lia.
  - unfold positions. pose proof (List.filter_length_le (in_chain mask names (HttpListingChain mask name)) (seq 0 (length names - 0))) as Hle.
    rewrite length_seq in Hle. lia.
Qed.

Lemma first_match_Some names name : forall k i, first_match k names name = Some i ->
  exists n, names !! Z.to_nat (i - k) = Some n /\ RtlEqualUnicodeString n name = true /\ k <= i < k + Z.of_nat (length names) /\
    forall j n', 0 <= j < i - k -> names !! Z.to_nat j = Some n' -> RtlEqualUnicodeString n' name = false.
Proof.
  induction names as [|n names IH]; intros k i; [done|]. cbn [first_match]. destruct (RtlEqualUnicodeString n name) eqn:He.
  - intros [= ->]. exists n. rewrite Z.sub_diag. split_and!; [done|done|lia|cbn [length]; lia|]. intros. lia.
  - intros H. destruct (IH _ _ H) as (m & Hm & Hem & Hr & Hf). exists m.
    replace (Z.to_nat (i - k)) with (S (Z.to_nat (i - (k + 1)))) by lia. split_and!; [done|done|lia|cbn [length]; lia|].
    intros j n' Hj Hl. destruct (Z.to_nat j) as [|j'] eqn:Hj'; [by injection Hl as <-|].
    apply (Hf (j - 1) n'); [lia|]. by replace (Z.to_nat (j - 1)) with j' by lia.
Qed.

(** The scan the index stands for, with the entry's metadata. *)
Definition scan (d : DIRECTORY_INFO) (name : list Z) : option DIRECTORY_ENTRY_METADATA :=
  match List.find (fun f => RtlEqualUnicodeString (FileName f) name) (Files d) with
  | Some f => Some (file_meta f)
  | None => subdir_meta <$> List.find (fun s => RtlEqualUnicodeString (SubDirName s) name) (SubDirs d)
  end.

Lemma first_match_find {A} (key : A -> list Z) (l : list A) rest name : forall k,
  first_match k ((key <$> l) ++ rest) name =
    match List.find (fun a => RtlEqualUnicodeString (key a) name) l with
    | Some _ => first_match k (key <$> l) name
    | None => first_match (k + Z.of_nat (length l)) rest name
    end.
Proof.
  induction l as [|a l IH]; intros k; cbn; [by rewrite Z.add_0_r|]. destruct (RtlEqualUnicodeString (key a) name); [done|].
  change (key <$> l) with (key <$> l). rewrite IH. by replace (k + 1 + Z.of_nat (length l)) with (k + Z.pos (Pos.of_succ_nat (length l))) by lia.
Qed.

Lemma first_match_rd {A} (key : A -> list Z) (l : list A) name : forall k,
  first_match k (key <$> l) name =
    match List.find (fun a => RtlEqualUnicodeString (key a) name) l with
    | Some _ => first_match k (key <$> l) name
    | None => None
    end /\
  forall a, List.find (fun a => RtlEqualUnicodeString (key a) name) l = Some a ->
    exists i, first_match k (key <$> l) name = Some i /\ rd l (i - k) = Some a.
Proof.
  induction l as [|a l IH]; intros k; cbn; [done|]. destruct (RtlEqualUnicodeString (key a) name).
  - split; [done|]. intros x [= ->]. exists k. by rewrite Z.sub_diag.
  - destruct (IH (k + 1)) as [H1 H2]. split; [apply H1|]. intros x Hx. destruct (H2 x Hx) as (i & Hi & Hr). exists i. split; [done|].
    pose proof (rd_Some _ _ _ Hr). unfold rd in *. rewrite (proj2 (Z.leb_le 0 (i - (k + 1)))) in Hr by lia.
    rewrite (proj2 (Z.leb_le 0 (i - k))) by lia. by replace (Z.to_nat (i - k)) with (S (Z.to_nat (i - (k + 1)))) by lia.
Qed.

Lemma create_find_spec d mask chains links name :
  0 <= mask -> indexed mask (HttpListingEntryNames d) 0 chains links ->
  CreateFindEntryByName d mask (chains, links) name = Some (scan d name).
Proof.
  intros Hm Hi. unfold CreateFindEntryByName. rewrite (find_entry_spec _ _ _ _ _ Hm Hi). cbn [mbind option_bind].
  unfold HttpListingEntryNames. rewrite first_match_find. unfold scan.
  destruct (List.find _ (Files d)) as [f|] eqn:Hf.
  - destruct (first_match_rd FileName (Files d) name 0) as [_ H]. destruct (H f Hf) as (i & -> & Hr).
    rewrite Z.sub_0_r in Hr. pose proof (rd_Some _ _ _ Hr). rewrite (proj2 (Z.ltb_lt _ _)) by lia. by rewrite Hr.
  - destruct (first_match_rd SubDirName (SubDirs d) name (0 + Z.of_nat (length (Files d)))) as [H1 H2]. rewrite H1.
    destruct (List.find _ (SubDirs d)) as [s|] eqn:Hs; [|done]. destruct (H2 s eq_refl) as (i & -> & Hr).
    rewrite Z.add_0_l in Hr. pose proof (rd_Some _ _ _ Hr). rewrite (proj2 (Z.ltb_ge _ _)) by lia. by rewrite Hr.
Qed.
End Facts.

(** ** The block's layout *)

Lemma chains_loop_spec entries : entries <= 1073741824 -> forall fuel j,
  (j <= 30)%nat -> (30 < j + fuel)%nat -> (j = O \/ 2 ^ (Z.of_nat j - 1) < entries) ->
  exists k, chains_loop fuel (2 ^ Z.of_nat j) entries = Some (2 ^ Z.of_nat k) /\ (k <= 30)%nat /\
    entries <= 2 ^ Z.of_nat k /\ (k = O \/ 2 ^ (Z.of_nat k - 1) < entries).
Proof.
  intros He. induction fuel as [|fuel IH]; intros j Hj Hf Hlow; [lia|]. cbn [chains_loop].
  destruct (Z.ltb_spec (2 ^ Z.of_nat j) entries) as [Hlt|Hge]; [|by exists j].
  assert (Hj' : (j < 30)%nat).
  { destruct (decide (j = 30)%nat) as [->|]; [|lia]. change (2 ^ Z.of_nat 30) with 1073741824 in Hlt. lia. }
  assert (Hpow : 2 ^ Z.of_nat j * 2 = 2 ^ Z.of_nat (S j)) by (rewrite Nat2Z.inj_succ, Z.pow_succ_r; lia).
  assert (Hb : 2 ^ Z.of_nat (S j) <= 2 ^ 30) by (apply Z.pow_le_mono_r; lia). change (2 ^ 30) with 1073741824 in Hb.
  rewrite Hpow, u32_id by (pose proof (Z.pow_pos_nonneg 2 (Z.of_nat (S j))); lia).
  apply IH; [lia|lia|]. right. by replace (Z.of_nat (S j) - 1) with (Z.of_nat j) by lia.
Qed.

Lemma checked_add_spec a b : 0 <= a < 18446744073709551616 -> 0 <= b < 18446744073709551616 ->
  HttpCheckedAddSizeT a b = if a + b <? 18446744073709551616 then Some (a + b) else None.
Proof.
  intros Ha Hb. unfold HttpCheckedAddSizeT. destruct (Z.ltb_spec (a + b) 18446744073709551616) as [Hlt|Hge].
  - rewrite u64_id by lia. by rewrite (proj2 (Z.ltb_ge _ _)) by lia.
  - assert (u64 (a + b) = a + b - 18446744073709551616) as ->.
    { unfold u64. symmetry. apply Z.mod_unique_pos with 1; lia. }
    by rewrite (proj2 (Z.ltb_lt _ _)) by lia.
Qed.

(** ** What is proved of it *)

(** The name index of a listing: for any names and any number of chains,
    building it succeeds within its arrays, and looking a name up through it
    terminates and answers the first entry of the listing, files before
    subdirectories, whose name is equal but for case. *)
Theorem name_index_is_first_match {nls : Nls} (d : DIRECTORY_INFO) (mask : Z) (name : list Z) :
  0 <= mask ->
  exists index, BlorgIndexDirectoryInfo mask (HttpListingEntryNames d) = Some index /\
    BlorgFindDirectoryEntry mask (HttpListingEntryNames d) index name = Some (first_match 0 (HttpListingEntryNames d) name) /\
    CreateFindEntryByName d mask index name =
      Some (match List.find (fun f => RtlEqualUnicodeString (FileName f) name) (Files d) with
            | Some f => Some (file_meta f)
            | None => subdir_meta <$> List.find (fun s => RtlEqualUnicodeString (SubDirName s) name) (SubDirs d)
            end).
Proof.
  intros Hm. destruct (index_spec mask (HttpListingEntryNames d) Hm) as (chains & links & H & Hi).
  exists (chains, links). split_and!; [done|by apply find_entry_spec|by apply create_find_spec].
Qed.

Definition index_demo : DIRECTORY_INFO :=
  mkListing [mkFile 10 1 1 1 [65]; mkFile 20 2 2 2 [97]; mkFile 5 3 3 3 [98]] [mkSubDir 4 4 4 [99]] 300 false.

Lemma name_index_is_first_match_witness :
  exists index, BlorgIndexDirectoryInfo 3 (HttpListingEntryNames index_demo) = Some index /\
    CreateFindEntryByName index_demo 3 index [67] = Some (Some (subdir_meta (mkSubDir 4 4 4 [99]))).
Proof.
  destruct (name_index_is_first_match index_demo 3 [67]) as (index & H1 & _ & H2); [lia|].
  exists index. split; [exact H1|]. rewrite H2. vm_compute. reflexivity.
Defined.

(** The layout of a listing's block: when it is allocated no size
    computation has wrapped, the entries, the index and the names lie one
    after the other inside the block, and the index has a power of two of
    chains, at least one per entry and less than two. *)
Theorem listing_layout_fits (fileCount subDirCount nameBytes : Z) (allocOk : bool) (lay : LISTING_LAYOUT) :
  0 <= fileCount <= MAXULONG64 -> 0 <= subDirCount <= MAXULONG64 -> 0 <= nameBytes <= MAXULONG64 ->
  BlorgAllocateDirectoryInfo fileCount subDirCount nameBytes allocOk = Some lay ->
  let entries := fileCount + subDirCount in
  entries <= MAXULONG / 4 /\
  SubDirsOffset lay = sizeof_DIRECTORY_INFO + fileCount * sizeof_FILE_METADATA /\
  IndexOffset lay = SubDirsOffset lay + subDirCount * sizeof_SUBDIR_METADATA /\
  NamesOffset lay = IndexOffset lay + (IndexMask lay + 1 + entries) * 4 /\
  LayoutBytes lay = NamesOffset lay + nameBytes /\ LayoutBytes lay <= MAXULONG64 /\
  (exists k, IndexMask lay + 1 = 2 ^ Z.of_nat k) /\ entries <= IndexMask lay + 1 /\ (1 < entries -> IndexMask lay + 1 < 2 * entries).
Proof.
  intros Hf Hs Hn. unfold MAXULONG64, BlorgAllocateDirectoryInfo in *. rewrite checked_add_spec by lia.
  destruct (Z.ltb_spec (fileCount + subDirCount) 18446744073709551616); [|done]. cbn [mbind option_bind].
  destruct (Z.ltb_spec (MAXULONG / 4) (fileCount + subDirCount)) as [|Hsmall]; [done|]. change (MAXULONG / 4) with 1073741823 in *.
  destruct (chains_loop_spec (fileCount + subDirCount) ltac:(lia) 33 0 ltac:(lia) ltac:(lia) ltac:(by left)) as (k & Hk & Hk30 & Hge & Hlow).
  change (2 ^ Z.of_nat 0) with 1 in Hk. rewrite Hk. cbn [mbind option_bind].
  assert (Hpow : 0 < 2 ^ Z.of_nat k <= 1073741824).
  { split; [apply Z.pow_pos_nonneg; lia|]. change 1073741824 with (2 ^ 30). apply Z.pow_le_mono_r; lia. }
  unfold sizeof_DIRECTORY_INFO, sizeof_FILE_METADATA, sizeof_SUBDIR_METADATA. set (c := 2 ^ Z.of_nat k) in *.
  rewrite (u64_id (88 + fileCount * 48)) by lia. rewrite (u64_id (88 + fileCount * 48 + _)) by lia. rewrite u64_id by lia.
  rewrite checked_add_spec by lia. set (x := 88 + _ + _ + _).
  destruct (Z.ltb_spec (x + nameBytes) 18446744073709551616) as [Hfit|]; [|done]. cbn [mbind option_bind].
  destruct allocOk; [|done]. cbn [negb]. intros [= <-]. cbn [SubDirsOffset IndexOffset NamesOffset LayoutBytes IndexMask].
  unfold x in *. replace (c - 1 + 1) with c by lia. split_and!; try lia; [by exists k|].
  intros H1. destruct Hlow as [->|Hlow]; [cbn in c; lia|]. destruct k as [|k]; [cbn in c; lia|].
  unfold c. replace (Z.of_nat (S k) - 1) with (Z.of_nat k) in Hlow by lia. rewrite Nat2Z.inj_succ, Z.pow_succ_r by lia. lia.
Qed.

Lemma listing_layout_fits_witness :
  exists lay, BlorgAllocateDirectoryInfo 3 2 40 true = Some lay /\ LayoutBytes lay = NamesOffset lay + 40 /\ IndexMask lay = 7.
Proof.
  pose (lay := default (mkLayout 0 0 0 0 0) (BlorgAllocateDirectoryInfo 3 2 40 true)).
  assert (H : BlorgAllocateDirectoryInfo 3 2 40 true = Some lay) by (vm_compute; reflexivity).
  exists lay. split; [exact H|]. split; [|vm_compute; reflexivity].
  apply (listing_layout_fits 3 2 40 true lay); [unfold MAXULONG64; lia..|exact H].
Defined.
