(* ===== verification/PathCacheOps.v ===== *)
(** * The path cache: buckets and what they hold

    A bucket of either cache is a list of entries with distinct
    (case-folded) paths that all hash to it.  [findk] is the walk both caches
    do; the lemmas here say what dropping, sweeping, refreshing and appending
    do to it, for any entry type with a path. *)

From S2P Require Import Prelude UnicodePath PathCache.

#[global] Arguments BlorgHashPath : simpl never.
#[global] Arguments PathCacheBucket : simpl never.
#[global] Arguments ListingCacheBucket : simpl never.
#[global] Arguments Z.to_nat : simpl never.

Section Buckets.
Context {nls : Nls} {E : Type} (key : E -> PATH).
Implicit Types (l : list E) (p q : PATH) (e : E).

Definition findk q l : option E := List.find (fun e => RtlEqualUnicodeString (key e) q) l.
Definition keys l : list PATH := (fun e => fold_path (key e)) <$> l.
Definition uniq l : Prop := NoDup (keys l).

Lemma findk_Some q l e : findk q l = Some e -> e ∈ l /\ fold_path (key e) = fold_path q.
Proof.
  intros H. apply List.find_some in H as [Hin He]. split; [by apply list_elem_of_In|by apply equal_iff].
Qed.

Lemma findk_None q l : findk q l = None <-> fold_path q ∉ keys l.
Proof.
  induction l as [|e l IH]; simpl; [split; [intros _ Hin; inversion Hin|done]|].
  unfold findk in *. simpl. rewrite not_elem_of_cons.
  destruct (RtlEqualUnicodeString (key e) q) eqn:Heq.
  - split; [done|]. intros [Hne _]. apply equal_iff in Heq. congruence.
  - rewrite IH. split; [|tauto]. intros Hl. split; [|done]. intros Hf.
    rewrite <- not_true_iff_false, equal_iff in Heq. congruence.
Qed.

Lemma findk_uniq q l e : uniq l -> e ∈ l -> fold_path (key e) = fold_path q -> findk q l = Some e.
Proof.
  unfold uniq, findk. induction l as [|x l IH]; simpl; [by intros _ Hin; inversion Hin|].
  intros Hnd%NoDup_cons Hin Hq. destruct Hnd as [Hx Hnd]. destruct (RtlEqualUnicodeString (key x) q) eqn:Heq.
  - apply elem_of_cons in Hin as [->|Hin]; [done|]. exfalso. apply Hx. apply equal_iff in Heq.
    rewrite Heq, <- Hq. by apply (list_elem_of_fmap_2 (fun e => fold_path (key e))).
  - apply elem_of_cons in Hin as [->|Hin]; [|by apply IH].
    rewrite <- not_true_iff_false, equal_iff in Heq. done.
Qed.

Lemma findk_fold p q l : fold_path p = fold_path q -> findk p l = findk q l.
Proof.
  intros H. unfold findk. induction l as [|e l IH]; simpl; [done|].
  unfold RtlEqualUnicodeString at 1 3. by rewrite H, IH.
Qed.

Lemma keys_sublist l l' : l' `sublist_of` l -> keys l' `sublist_of` keys l.
Proof. induction 1; simpl; by constructor. Qed.

Lemma uniq_sublist l l' : l' `sublist_of` l -> uniq l -> uniq l'.
Proof. intros Hs Hu. eapply sublist_NoDup; [exact Hu|by apply keys_sublist]. Qed.

Lemma filter_sublist (f : E -> bool) l : List.filter f l `sublist_of` l.
Proof. induction l as [|e l IH]; simpl; [constructor|]. destruct (f e); by constructor. Qed.

Lemma findk_sublist q l l' e : uniq l -> l' `sublist_of` l -> findk q l' = Some e -> findk q l = Some e.
Proof.
  intros Hu Hs [Hin Hk]%findk_Some. apply findk_uniq; [done| |done]. by eapply elem_of_sublist.
Qed.

Lemma findk_filter (f : E -> bool) q l :
  uniq l -> findk q (List.filter f l) = e ← findk q l; if f e then Some e else None.
Proof.
  intros Hu. destruct (findk q (List.filter f l)) as [e|] eqn:He.
  - rewrite (findk_sublist q l _ e Hu (filter_sublist f l) He). simpl.
    apply findk_Some in He as [Hin _]. apply list_elem_of_In, List.filter_In in Hin as [_ ->]. done.
  - destruct (findk q l) as [e|] eqn:Hl; [|done]. simpl. destruct (f e) eqn:Hf; [|done]. exfalso.
    apply findk_None in He. apply He. apply findk_Some in Hl as [Hin <-].
    apply (list_elem_of_fmap_2 (fun e => fold_path (key e))).
    apply list_elem_of_In, List.filter_In. by rewrite <- list_elem_of_In.
Qed.

Lemma remove_first_sublist (f : E -> bool) l : (remove_first f l).1 `sublist_of` l.
Proof.
  induction l as [|e l IH]; simpl; [constructor|].
  destruct (f e); simpl; [by constructor|]. destruct (remove_first f l) as [l' r]. simpl in *. by constructor.
Qed.

Lemma remove_first_find (f : E -> bool) l : (remove_first f l).2 = List.find f l.
Proof. induction l as [|e l IH]; simpl; [done|]. destruct (f e); [done|]. by destruct (remove_first f l). Qed.

Lemma remove_first_none (f : E -> bool) l : List.find f l = None -> (remove_first f l).1 = l.
Proof.
  induction l as [|e l IH]; simpl; [done|]. destruct (f e); [done|]. destruct (remove_first f l). simpl in *.
  intros H. by rewrite IH.
Qed.

Lemma remove_first_length (f : E -> bool) l e :
  List.find f l = Some e -> length l = S (length (remove_first f l).1).
Proof.
  induction l as [|x l IH]; simpl; [done|]. destruct (f x); [done|]. destruct (remove_first f l). simpl in *.
  intros H. by rewrite IH.
Qed.

(** The list an exact invalidation of [p] leaves. *)
Lemma findk_remove p q l :
  uniq l ->
  findk q (remove_first (fun e => RtlEqualUnicodeString (key e) p) l).1 =
    if decide (fold_path p = fold_path q) then None else findk q l.
Proof.
  unfold uniq. induction l as [|e l IH]; simpl; [by case_decide|]. intros [Hx Hnd]%NoDup_cons. specialize (IH Hnd).
  destruct (RtlEqualUnicodeString (key e) p) eqn:Hp.
  - simpl. apply equal_iff in Hp. case_decide as Hd.
    + apply findk_None. by rewrite <- Hd, <- Hp.
    + unfold findk at 2. simpl. destruct (RtlEqualUnicodeString (key e) q) eqn:Hq; [|done].
      apply equal_iff in Hq. congruence.
  - destruct (remove_first _ l) as [l' r]. simpl in *. unfold findk in *. simpl. rewrite IH.
    destruct (RtlEqualUnicodeString (key e) q) eqn:Hq; [|done]. case_decide; [|done].
    apply equal_iff in Hq. rewrite <- not_true_iff_false, equal_iff in Hp. congruence.
Qed.

Lemma keys_app l l' : keys (l ++ l') = keys l ++ keys l'.
Proof. apply fmap_app. Qed.

Lemma uniq_snoc l e : uniq l -> fold_path (key e) ∉ keys l -> uniq (l ++ [e]).
Proof.
  intros Hu He. unfold uniq. rewrite keys_app. apply NoDup_app. split_and!; [done| |apply NoDup_singleton].
  intros x Hx Hin. simpl in Hin. apply list_elem_of_singleton in Hin as ->. done.
Qed.

Lemma findk_snoc q l e :
  findk q (l ++ [e]) =
    match findk q l with Some x => Some x | None => if RtlEqualUnicodeString (key e) q then Some e else None end.
Proof.
  unfold findk. induction l as [|x l IH]; simpl; [done|]. by destruct (RtlEqualUnicodeString (key x) q).
Qed.

(** ** A well-formed bucket *)

Record bucket_ok (index : PATH -> Z) (max : Z) (i : nat) (b : PATH_CACHE_BUCKET E) : Prop := {
  ok_count : Count b = Z.of_nat (length (List b));
  ok_max : Z.of_nat (length (List b)) <= max;
  ok_hash : forall e, e ∈ List b -> Z.to_nat (index (key e)) = i;
  ok_uniq : uniq (List b)
}.

Lemma bucket_ok_sublist index max i b l :
  bucket_ok index max i b -> l `sublist_of` List b -> bucket_ok index max i (mkBucket l (Z.of_nat (length l))).
Proof.
  intros [Hc Hm Hh Hu] Hs. pose proof (sublist_length _ _ Hs). split; simpl; [done|lia| |].
  - intros e He. apply Hh. by eapply elem_of_sublist.
  - by eapply uniq_sublist.
Qed.

(** No entry of another bucket has the path. *)
Lemma ok_elsewhere index max i b q :
  (forall p, fold_path p = fold_path q -> index p = index q) ->
  bucket_ok index max i b -> Z.to_nat (index q) <> i -> findk q (List b) = None.
Proof.
  intros Hindex Hok Hne. destruct (findk q (List b)) as [e|] eqn:He; [|done].
  apply findk_Some in He as [Hin Hf]. exfalso. apply Hne. rewrite <- (Hindex _ Hf). by apply (ok_hash _ _ _ _ Hok).
Qed.
End Buckets.

(** ** The whole table *)

Section Table.
Context {nls : Nls}.

Definition LISTING_BUCKETS_OK (bs : list (PATH_CACHE_BUCKET LISTING_CACHE_ENTRY)) : Prop :=
  length bs = Z.to_nat LISTING_CACHE_BUCKETS /\
  forall i b, bs !! i = Some b -> bucket_ok LPath ListingCacheBucket LISTING_CACHE_MAX_PER_BUCKET i b.

Definition PATH_BUCKETS_OK (bs : list (PATH_CACHE_BUCKET PATH_CACHE_ENTRY)) : Prop :=
  length bs = Z.to_nat PATH_CACHE_BUCKETS /\
  forall i b, bs !! i = Some b -> bucket_ok EntryPath PathCacheBucket PATH_CACHE_MAX_PER_BUCKET i b.

Lemma path_bucket_range p : 0 <= PathCacheBucket p < PATH_CACHE_BUCKETS.
Proof.
  unfold PathCacheBucket, PATH_CACHE_BUCKETS, PATH_CACHE_BUCKET_BITS. pose proof (hash_range p).
  rewrite Z.shiftr_div_pow2 by lia. change (2 ^ (32 - 8)) with 16777216. change (Z.shiftl 1 8) with 256.
  split; [apply Z.div_pos; lia|]. apply Z.div_lt_upper_bound; lia.
Qed.

Lemma lbucket_range p : 0 <= ListingCacheBucket p < LISTING_CACHE_BUCKETS.
Proof. apply path_bucket_range. Qed.

Lemma bucket_fold p q : fold_path p = fold_path q -> PathCacheBucket p = PathCacheBucket q.
Proof. intros H. unfold PathCacheBucket. by rewrite (hash_fold _ _ H). Qed.

Lemma lbucket_fold p q : fold_path p = fold_path q -> ListingCacheBucket p = ListingCacheBucket q.
Proof. apply bucket_fold. Qed.

Lemma path_bucket bs p : PATH_BUCKETS_OK bs -> exists b, bs !! Z.to_nat (PathCacheBucket p) = Some b.
Proof. intros [Hl _]. apply lookup_lt_is_Some_2. pose proof (path_bucket_range p). lia. Qed.

Lemma listing_bucket bs p : LISTING_BUCKETS_OK bs -> exists b, bs !! Z.to_nat (ListingCacheBucket p) = Some b.
Proof. intros [Hl _]. apply lookup_lt_is_Some_2. pose proof (lbucket_range p). lia. Qed.

(** What the path cache, and the listing cache, hold for a path. *)
Definition held (st : PATH_CACHE_STATE) (q : PATH) : option PATH_CACHE_ENTRY :=
  b ← Buckets st !! Z.to_nat (PathCacheBucket q); findk EntryPath q (List b).

Definition lheld (st : PATH_CACHE_STATE) (q : PATH) : option LISTING_CACHE_ENTRY :=
  b ← ListingBuckets st !! Z.to_nat (ListingCacheBucket q); findk LPath q (List b).

Lemma held_fold st p q : fold_path p = fold_path q -> held st p = held st q.
Proof. intros H. unfold held. rewrite (bucket_fold _ _ H). destruct (Buckets st !! _); [|done]. simpl. by apply findk_fold. Qed.

(** The answer a lookup makes of what is held. *)
Definition judge (st : PATH_CACHE_STATE) (now : Z) (e : option PATH_CACHE_ENTRY) : PATH_CACHE_RESULT :=
  match e with
  | Some e =>
      if PathCacheEntryLive e now (CacheGeneration st) (PathCacheLifetime st) then
        if Exists e then PathCacheExists (Meta e) (mkTicket (EntrySequence e) (IssueTime e)) else PathCacheNotFound
      else PathCacheMiss
  | None => PathCacheMiss
  end.

Lemma find_judge st q now :
  Ready st = true -> q <> [] -> PathCacheFind st q now = judge st now (held st q).
Proof.
  intros Hr Hq. unfold PathCacheFind, held. rewrite Hr. destruct q; [done|]. cbn [negb orb length Nat.eqb].
  destruct (Buckets st !! _); [|done]. done.
Qed.

(** Replacing one bucket. *)
Lemma held_put bs st i b q :
  Buckets st = bs -> PATH_BUCKETS_OK bs -> (i < length bs)%nat ->
  held (with_Buckets st (<[i := b]> bs)) q =
    if decide (Z.to_nat (PathCacheBucket q) = i) then findk EntryPath q (List b) else held st q.
Proof.
  intros <- Hok Hi. unfold held. cbn [Buckets with_Buckets]. case_decide as Hd.
  - subst i. by rewrite list_lookup_insert_eq.
  - by rewrite list_lookup_insert_ne.
Qed.

Lemma path_buckets_put bs i b :
  PATH_BUCKETS_OK bs -> bucket_ok EntryPath PathCacheBucket PATH_CACHE_MAX_PER_BUCKET i b ->
  PATH_BUCKETS_OK (<[i := b]> bs).
Proof.
  intros [Hl Hok] Hb. split; [by rewrite length_insert|]. intros j b' Hj.
  apply list_lookup_insert_Some in Hj as [(-> & -> & _)|[_ Hj]]; eauto.
Qed.

Lemma listing_buckets_put bs i b :
  LISTING_BUCKETS_OK bs -> bucket_ok LPath ListingCacheBucket LISTING_CACHE_MAX_PER_BUCKET i b ->
  LISTING_BUCKETS_OK (<[i := b]> bs).
Proof.
  intros [Hl Hok] Hb. split; [by rewrite length_insert|]. intros j b' Hj.
  apply list_lookup_insert_Some in Hj as [(-> & -> & _)|[_ Hj]]; eauto.
Qed.
End Table.

(** Nothing past this point looks into the hash. *)
#[global] Opaque PathCacheBucket ListingCacheBucket.

(** * The path cache: its operations on paths

    Every operation keeps the table well formed, and what it does to the
    answer for any path. *)
Section Walk.
Context {nls : Nls} (path : PATH) (upd : PATH_CACHE_ENTRY -> PATH_CACHE_ENTRY) (now generation lifetime : Z).
Hypothesis upd_path : forall e, EntryPath (upd e) = EntryPath e.

Local Abbreviation live := (fun e => PathCacheEntryLive e now generation lifetime).
Local Abbreviation walk l := (insert_walk l path upd now generation lifetime).

(** The walk either finds the path and rewrites its entry, or leaves
    exactly the live entries. *)
Lemma walk_absent l : findk EntryPath path l = None ->
  walk l = (List.filter live l, Z.of_nat (length l) - Z.of_nat (length (List.filter live l)), false).
Proof.
  unfold findk. induction l as [|e l IH]; [done|]. simpl.
  destruct (RtlEqualUnicodeString (EntryPath e) path); [done|]. intros H. rewrite (IH H).
  destruct (PathCacheEntryLive e now generation lifetime); simpl; do 2 f_equal; lia.
Qed.

Lemma walk_found l e : findk EntryPath path l = Some e ->
  exists l1 l2, l = l1 ++ e :: l2 /\ findk EntryPath path l1 = None /\
    walk l = (List.filter live l1 ++ upd e :: l2, Z.of_nat (length l1) - Z.of_nat (length (List.filter live l1)), true).
Proof.
  unfold findk. induction l as [|x l IH]; [done|]. simpl.
  destruct (RtlEqualUnicodeString (EntryPath x) path) eqn:Hx.
  - intros [= ->]. exists [], l. done.
  - intros H. destruct (IH H) as (l1 & l2 & -> & Hn & ->). exists (x :: l1), l2. split; [done|].
    split; [simpl; by rewrite Hx|]. simpl.
    destruct (PathCacheEntryLive x now generation lifetime); simpl; do 2 f_equal; lia.
Qed.

(** What the walk leaves for every path. *)
Lemma walk_keys l : keys EntryPath (walk l).1.1 `sublist_of` keys EntryPath l.
Proof.
  induction l as [|e l IH]; simpl; [constructor|].
  destruct (RtlEqualUnicodeString (EntryPath e) path).
  - simpl. by rewrite upd_path.
  - destruct (insert_walk l path upd now generation lifetime) as [[l' r] ins]. simpl in IH.
    destruct (PathCacheEntryLive e now generation lifetime); simpl; by constructor.
Qed.

Lemma walk_elem l e : e ∈ (walk l).1.1 -> e ∈ l \/ exists x, x ∈ l /\ e = upd x.
Proof.
  induction l as [|x l IH]; simpl; [auto|].
  destruct (RtlEqualUnicodeString (EntryPath x) path); simpl.
  - rewrite !elem_of_cons. intros [->|H]; eauto 6. right. exists x. split; [left|done].
  - destruct (insert_walk l path upd now generation lifetime) as [[l' r] ins]. simpl in IH.
    assert (Hl : e ∈ l' -> e ∈ x :: l \/ exists y, y ∈ x :: l /\ e = upd y).
    { intros [?|(y & ? & ?)]%IH; [left; by right|right; exists y; split; [by right|done]]. }
    destruct (PathCacheEntryLive x now generation lifetime); simpl; [|done].
    rewrite elem_of_cons. intros [->|H]; [left; left|auto].
Qed.

Lemma findk_app q l1 l2 : findk EntryPath q (l1 ++ l2) =
  match findk EntryPath q l1 with Some e => Some e | None => findk EntryPath q l2 end.
Proof. unfold findk. induction l1 as [|x l1 IH]; [done|]. simpl. by destruct (RtlEqualUnicodeString _ q). Qed.

Lemma uniq_app_l l1 l2 : uniq EntryPath (l1 ++ l2) -> uniq EntryPath l1.
Proof. apply uniq_sublist, sublist_inserts_r. done. Qed.

(** Another path keeps its entry if live, and gains none. *)
Lemma walk_other l q e : uniq EntryPath l -> fold_path path <> fold_path q ->
  findk EntryPath q (walk l).1.1 = Some e -> findk EntryPath q l = Some e.
Proof.
  intros Hu Hne. destruct (findk EntryPath path l) as [x|] eqn:Hx.
  - destruct (walk_found l x Hx) as (l1 & l2 & -> & Hn & ->). simpl.
    pose proof (uniq_app_l _ _ Hu) as Hu1. apply findk_Some in Hx as [_ Hx].
    rewrite !findk_app, findk_filter by done. unfold findk at 2 4. simpl. rewrite upd_path.
    destruct (findk EntryPath q l1) as [y|] eqn:Hy; simpl.
    + destruct (PathCacheEntryLive y now generation lifetime); [done|]. destruct (RtlEqualUnicodeString (EntryPath x) q) eqn:Hq.
      { apply equal_iff in Hq. congruence. }
      intros H. exfalso. apply findk_Some in Hy as [Hy1 Hy2], H as [H1 H2].
      unfold uniq in Hu. rewrite keys_app in Hu. apply NoDup_app in Hu as (_ & Hd & _).
      apply (Hd (fold_path q)).
      * rewrite <- Hy2. by apply (list_elem_of_fmap_2 (fun e => fold_path (EntryPath e))).
      * simpl. right. rewrite <- H2. by apply (list_elem_of_fmap_2 (fun e => fold_path (EntryPath e))).
    + destruct (RtlEqualUnicodeString (EntryPath x) q) eqn:Hq; [|done]. apply equal_iff in Hq. congruence.
  - rewrite (walk_absent l Hx). simpl. rewrite findk_filter by done.
    destruct (findk EntryPath q l); simpl; [|done]. destruct (PathCacheEntryLive p now generation lifetime); congruence.
Qed.

Lemma walk_keeps l q e : uniq EntryPath l -> fold_path path <> fold_path q ->
  findk EntryPath q l = Some e -> PathCacheEntryLive e now generation lifetime = true -> findk EntryPath q (walk l).1.1 = Some e.
Proof.
  intros Hu Hne Hq Hl. destruct (findk EntryPath path l) as [x|] eqn:Hx.
  - destruct (walk_found l x Hx) as (l1 & l2 & -> & Hn & ->). simpl.
    pose proof (uniq_app_l _ _ Hu) as Hu1. apply findk_Some in Hx as [_ Hx].
    rewrite findk_app in Hq |- *. rewrite findk_filter by done. unfold findk at 2. unfold findk at 2 in Hq.
    simpl in *. rewrite upd_path. destruct (findk EntryPath q l1); simplify_eq/=; [by rewrite Hl|].
    destruct (RtlEqualUnicodeString (EntryPath x) q) eqn:Hxq; [|done]. apply equal_iff in Hxq. congruence.
  - rewrite (walk_absent l Hx). simpl. rewrite findk_filter by done. rewrite Hq. simpl. by rewrite Hl.
Qed.

Lemma walk_self l : uniq EntryPath l ->
  findk EntryPath path (walk l).1.1 = upd <$> findk EntryPath path l.
Proof.
  intros Hu. destruct (findk EntryPath path l) as [x|] eqn:Hx.
  - destruct (walk_found l x Hx) as (l1 & l2 & -> & Hn & ->). simpl. apply findk_Some in Hx as [_ Hx].
    rewrite findk_app, findk_filter, Hn by (by eapply uniq_app_l). simpl. unfold findk. simpl.
    rewrite upd_path. by rewrite (proj2 (equal_iff _ _) Hx).
  - rewrite (walk_absent l Hx). simpl. rewrite findk_filter by done. by rewrite Hx.
Qed.

Lemma walk_length l : (walk l).1.2 = Z.of_nat (length l) - Z.of_nat (length (walk l).1.1).
Proof.
  induction l as [|x l IH]; simpl; [done|].
  destruct (RtlEqualUnicodeString (EntryPath x) path); simpl; [lia|].
  destruct (insert_walk l path upd now generation lifetime) as [[l' r] ins]. simpl in IH.
  destruct (PathCacheEntryLive x now generation lifetime); simpl; lia.
Qed.

Lemma walk_inserted l : (walk l).2 = match findk EntryPath path l with Some _ => true | None => false end.
Proof.
  destruct (findk EntryPath path l) as [x|] eqn:Hx.
  - by destruct (walk_found l x Hx) as (l1 & l2 & -> & Hn & ->).
  - by rewrite (walk_absent l Hx).
Qed.
End Walk.

(** ** Insertion into a bucket *)

Section Insert.
Context {nls : Nls}.

(** The entry an insertion leaves: the new one's answer, under the path's
    spelling of whichever insertion came first. *)
Record answers (e new : PATH_CACHE_ENTRY) (meta : option DIRECTORY_ENTRY_METADATA) : Prop := {
  ans_path : fold_path (EntryPath e) = fold_path (EntryPath new);
  ans_issue : IssueTime e = IssueTime new;
  ans_seq : EntrySequence e = EntrySequence new;
  ans_gen : Generation e = Generation new;
  ans_exists : Exists e = Exists new;
  ans_meta : forall m, meta = Some m -> Exists new = true -> Meta e = m
}.

Definition full_bucket (b : PATH_CACHE_BUCKET PATH_CACHE_ENTRY) now generation lifetime (victim : PATH_CACHE_ENTRY) : Prop :=
  exists l, List.filter (fun e => PathCacheEntryLive e now generation lifetime) (List b) = victim :: l /\
    Z.of_nat (length (victim :: l)) = PATH_CACHE_MAX_PER_BUCKET.

Local Abbreviation MAX := PATH_CACHE_MAX_PER_BUCKET.
Local Abbreviation OK := (bucket_ok EntryPath PathCacheBucket PATH_CACHE_MAX_PER_BUCKET).

(** Everything the critical section of an honoured insertion does. *)
Record inserted_in (b b' : PATH_CACHE_BUCKET PATH_CACHE_ENTRY) path new meta now generation lifetime : Prop := {
  ins_self : exists e, findk EntryPath path (List b') = Some e /\ answers e new meta;
  ins_only : forall q e, fold_path path <> fold_path q ->
    findk EntryPath q (List b') = Some e -> findk EntryPath q (List b) = Some e;
  ins_keeps : forall q e, fold_path path <> fold_path q -> findk EntryPath q (List b) = Some e ->
    PathCacheEntryLive e now generation lifetime = true ->
    findk EntryPath q (List b') = Some e \/
    findk EntryPath path (List b) = None /\ full_bucket b now generation lifetime e
}.

Lemma findk_tail q l : uniq EntryPath l ->
  findk EntryPath q l = findk EntryPath q (tail l) \/
  exists e, head l = Some e /\ findk EntryPath q l = Some e /\ findk EntryPath q (tail l) = None.
Proof.
  destruct l as [|e l]; [by left|]. unfold uniq, findk. simpl. intros [Hx _]%NoDup_cons.
  destruct (RtlEqualUnicodeString (EntryPath e) q) eqn:He; [|by left]. right. exists e. split_and!; [done..|].
  apply (proj2 (findk_None EntryPath q l)). apply equal_iff in He. by rewrite <- He.
Qed.

Lemma tail_sublist {A} (l : list A) : tail l `sublist_of` l.
Proof. destruct l; [constructor|by constructor]. Qed.

Section Locked.
Context (b : PATH_CACHE_BUCKET PATH_CACHE_ENTRY) (i : nat) (count : Z) (path : PATH) (new : PATH_CACHE_ENTRY)
  (meta : option DIRECTORY_ENTRY_METADATA) (now generation lifetime : Z).
Hypothesis Hok : OK i b.
Hypothesis Hnew : EntryPath new = path.
Hypothesis Hmeta : forall m, meta = Some m -> Exists new = true -> Meta new = m.
Hypothesis Hi : Z.to_nat (PathCacheBucket path) = i.
Hypothesis Hcount : Z.of_nat (length (List b)) <= count < 2147483647.

Lemma refresh_path e : EntryPath (refresh_entry new meta e) = EntryPath e.
Proof. done. Qed.

Lemma refresh_answers e : fold_path (EntryPath e) = fold_path path -> answers (refresh_entry new meta e) new meta.
Proof. intros H. split; simpl; [by rewrite Hnew|done..|]. intros m -> ->. done. Qed.

Lemma new_answers : answers new new meta.
Proof. by split. Qed.

(** Making room for a new entry and appending it, the live entries
    [l] being what the walk left. *)
Definition appended (l : list PATH_CACHE_ENTRY) (n c : Z) : PATH_CACHE_BUCKET PATH_CACHE_ENTRY * Z :=
  let full := (MAX <=? c) && negb (length l =? 0)%nat in
  let l := if full then tail l else l in
  let c := if full then u32 (c - 1) else c in
  let n := if full then s32 (n - 1) else n in
  (mkBucket (l ++ [new]) (u32 (c + 1)), s32 (n + 1)).

Lemma appended_spec l n b' n' :
  (forall e, e ∈ l -> Z.to_nat (PathCacheBucket (EntryPath e)) = i) -> uniq EntryPath l ->
  findk EntryPath path l = None -> Z.of_nat (length l) <= MAX -> Z.of_nat (length l) <= n < 2147483647 ->
  appended l n (Z.of_nat (length l)) = (b', n') ->
  OK i b' /\ n' = n + Z.of_nat (length (List b')) - Z.of_nat (length l) /\
  findk EntryPath path (List b') = Some new /\
  forall q, fold_path path <> fold_path q ->
    findk EntryPath q (List b') = findk EntryPath q l \/
    exists e, head l = Some e /\ findk EntryPath q l = Some e /\ findk EntryPath q (List b') = None /\
      Z.of_nat (length l) = MAX.
Proof.
  clear Hcount Hok Hmeta. intros Hh Hu Hnone Hm Hn. unfold appended.
  set (full := (MAX <=? Z.of_nat (length l)) && negb (length l =? 0)%nat).
  set (l' := if full then tail l else l).
  assert (Hsub : l' `sublist_of` l) by (unfold l'; destruct full; [apply tail_sublist|done]).
  assert (Hpath : findk EntryPath path l' = None).
  { destruct (findk EntryPath path l') eqn:Hf; [|done].
    pose proof (findk_sublist EntryPath path l l' _ Hu Hsub Hf). congruence. }
  assert (Hlen : Z.of_nat (length l') = if full then Z.of_nat (length l) - 1 else Z.of_nat (length l)).
  { unfold l', full. destruct l as [|x l]; simpl; [by destruct (MAX <=? _)|]. destruct (MAX <=? _); simpl; lia. }
  assert (Hlt : Z.of_nat (length l') < MAX).
  { rewrite Hlen. unfold full, PATH_CACHE_MAX_PER_BUCKET in *. destruct (Z.leb_spec 16 (Z.of_nat (length l))); simpl; [|lia].
    destruct l; simpl in *; lia. }
  unfold PATH_CACHE_MAX_PER_BUCKET in *.
  intros [= <- <-]. simpl. split_and!.
  - split; simpl; rewrite ?length_app; simpl.
    + destruct full; rewrite ?(u32_id (_ - 1)), ?u32_id by lia; lia.
    + lia.
    + intros e [He|He]%elem_of_app; [eapply Hh, elem_of_sublist; done|].
      apply list_elem_of_singleton in He as ->. by rewrite Hnew.
    + apply uniq_snoc; [by eapply uniq_sublist|]. rewrite Hnew. by apply findk_None.
  - rewrite length_app. simpl. destruct full; rewrite ?(s32_id (_ - 1)), ?s32_id by lia; lia.
  - rewrite findk_snoc, Hpath, Hnew. by rewrite equal_refl.
  - intros q Hq. rewrite findk_snoc, Hnew.
    assert (Hne : RtlEqualUnicodeString path q = false) by (rewrite <- not_true_iff_false, equal_iff; done).
    rewrite Hne. unfold l'. destruct full eqn:Hfull; [|left; by destruct (findk EntryPath q l)].
    destruct (findk_tail q l Hu) as [->|(e & He & Hf & ->)]; [left; by destruct (findk EntryPath q (tail l))|].
    right. exists e. split_and!; try done. apply andb_true_iff in Hfull as [Hfull _]. apply Z.leb_le in Hfull. lia.
Qed.

Lemma insert_locked_spec b' count' :
  insert_locked b count true path new meta now generation lifetime = (b', count') ->
  OK i b' /\ inserted_in b b' path new meta now generation lifetime /\
  count' = count + Z.of_nat (length (List b')) - Z.of_nat (length (List b)).
Proof.
  destruct Hok as [Hc Hm Hh Hu]. unfold insert_locked. cbn [negb].
  set (upd := refresh_entry new meta).
  pose proof (walk_length path upd now generation lifetime (List b)) as Hlen.
  pose proof (walk_inserted path upd now generation lifetime (List b)) as Hins.
  pose proof (walk_keys path upd now generation lifetime refresh_path (List b)) as Hkeys.
  pose proof (fun e => walk_elem path upd now generation lifetime (List b) e) as Helem.
  pose proof (walk_self path upd now generation lifetime refresh_path (List b) Hu) as Hself.
  pose proof (fun q e => walk_other path upd now generation lifetime refresh_path (List b) q e Hu) as Hother.
  pose proof (fun q e => walk_keeps path upd now generation lifetime refresh_path (List b) q e Hu) as Hkeeps.
  pose proof (walk_absent path upd now generation lifetime (List b)) as Habs.
  destruct (insert_walk (List b) path upd now generation lifetime) as [[l reaped] ins]. simpl in *.
  pose proof (sublist_length _ _ Hkeys) as Hle. unfold keys in Hle. rewrite !length_fmap in Hle.
  assert (Hul : uniq EntryPath l) by (eapply sublist_NoDup; [exact Hu|exact Hkeys]).
  assert (Hhl : forall e, e ∈ l -> Z.to_nat (PathCacheBucket (EntryPath e)) = i).
  { intros e [He|(x & Hx & ->)]%Helem; [by apply Hh|]. unfold upd. rewrite refresh_path. by apply Hh. }
  unfold PATH_CACHE_MAX_PER_BUCKET in *. rewrite Hc, Hlen, u32_id, s32_id by lia.
  destruct (findk EntryPath path (List b)) as [x|] eqn:Hx; rewrite Hins.
  - intros [= <- <-]. split; [split; simpl; [lia|lia|done|done]|]. split; [|simpl; lia]. split; simpl.
    + exists (upd x). split; [done|]. apply refresh_answers. by apply findk_Some in Hx as [_ ?].
    + done.
    + intros q e Hq He Hl. left. by apply Hkeeps.
  - replace (Z.of_nat (length (List b)) - (Z.of_nat (length (List b)) - Z.of_nat (length l)))
      with (Z.of_nat (length l)) by lia.
    intros Happ. change (appended l (count - (Z.of_nat (length (List b)) - Z.of_nat (length l))) (Z.of_nat (length l)) = (b', count')) in Happ.
    destruct (appended_spec l (count - (Z.of_nat (length (List b)) - Z.of_nat (length l))) b' count') as (Hb' & -> & Hs & Hq);
      try done; unfold PATH_CACHE_MAX_PER_BUCKET in *; try lia.
    specialize (Habs eq_refl). injection Habs as Hl _ _.
    split; [done|]. split; [|lia]. split.
    + exists new. split; [done|]. apply new_answers.
    + intros q e Hne He. destruct (Hq q Hne) as [Heq|(x & _ & _ & Hn & _)]; [|congruence].
      apply Hother; [done|]. by rewrite <- Heq.
    + intros q e Hne He Hlive. destruct (Hq q Hne) as [->|(x & Hx' & Hf & _ & Hfull)]; [left; by apply Hkeeps|].
      right. split; [done|]. rewrite (Hkeeps q e Hne He Hlive) in Hf. injection Hf as <-.
      destruct l as [|y l]; [done|]. injection Hx' as ->. exists l. split; [by rewrite <- Hl|done].
Qed.
End Locked.
End Insert.

(** ** The operations on the table *)

Section Operations.
Context {nls : Nls}.
Implicit Types (st : PATH_CACHE_STATE) (p q dir : PATH).

Definition bucket_size (b : PATH_CACHE_BUCKET PATH_CACHE_ENTRY) : Z := Z.of_nat (length (List b)).

Definition paths_wf st : Prop :=
  PATH_BUCKETS_OK (Buckets st) /\ CacheCount st = total bucket_size (Buckets st).

(** Only the path cache differs. *)
Definition paths_only st st' : Prop := exists bs c, st' = with_Count (with_Buckets st bs) c.

Lemma paths_only_refl st : paths_only st st.
Proof. exists (Buckets st), (CacheCount st). by destruct st. Qed.

Lemma paths_only_trans st1 st2 st3 : paths_only st1 st2 -> paths_only st2 st3 -> paths_only st1 st3.
Proof. intros (b & c & ->) (b' & c' & ->). by exists b', c'. Qed.

Lemma bucket_size_le st i b : PATH_BUCKETS_OK (Buckets st) -> Buckets st !! i = Some b ->
  bucket_size b <= total bucket_size (Buckets st) <= 4096.
Proof.
  intros [Hl Hok] Hb. split.
  - eapply total_lookup; [|done]. intros x _. unfold bucket_size. lia.
  - etrans; [apply (total_bound _ _ 16)|].
    + intros x [j Hj]%list_elem_of_lookup. apply Hok in Hj as [_ Hm _ _]. exact Hm.
    + rewrite Hl. done.
Qed.

(** One critical section on bucket [i]. *)
Lemma put_wf st i b b' c :
  paths_wf st -> Buckets st !! i = Some b ->
  bucket_ok EntryPath PathCacheBucket PATH_CACHE_MAX_PER_BUCKET i b' ->
  c = CacheCount st + bucket_size b' - bucket_size b ->
  paths_wf (with_Count (with_Buckets st (<[i := b']> (Buckets st))) c).
Proof.
  intros [Hok Hc] Hb Hb' ->. split; [by apply path_buckets_put|]. simpl.
  rewrite (total_insert _ _ _ _ _ Hb). lia.
Qed.

Definition insert_refused st path (exists_ : bool) (meta : option DIRECTORY_ENTRY_METADATA) (allocOk : bool) : bool :=
  negb (Ready st) || (length path =? 0)%nat || (PATH_CACHE_MAX_PATH_BYTES <? path_bytes path) ||
  match meta with Some m => exists_ && NoStore m | None => false end || negb allocOk.

Definition inserted_entry st path exists_ meta t now : PATH_CACHE_ENTRY :=
  new_entry path exists_ meta (match t with Some t => TicketIssueTime t | None => now end)
    (match t with Some t => TicketSequence t | None => Sequence st end) (CacheGeneration st).

Lemma section_refuses st path exists_ meta t issueTime now generation lifetime :
  PATH_BUCKETS_OK (Buckets st) -> PathCacheTicketHonoured st t = false ->
  insert_section st path exists_ meta t issueTime now generation lifetime = st.
Proof.
  intros Hok Ht. destruct (path_bucket _ path Hok) as [b Hb]. unfold insert_section. rewrite Hb, Ht. unfold insert_locked. cbn [negb].
  unfold put_bucket. rewrite list_insert_id by done. by destruct st.
Qed.

Lemma insert_refuses st path exists_ meta t allocOk now :
  insert_refused st path exists_ meta allocOk = true \/ PATH_BUCKETS_OK (Buckets st) /\ PathCacheTicketHonoured st t = false ->
  PathCacheInsert st path exists_ meta t allocOk now = st.
Proof.
  unfold insert_refused, PathCacheInsert.
  destruct (negb (Ready st) || (length path =? 0)%nat || (PATH_CACHE_MAX_PATH_BYTES <? path_bytes path) ||
    match meta with Some m => exists_ && NoStore m | None => false end); [done|].
  destruct allocOk; [|done]. intros [H|[Hok Ht]]; [done|]. cbn [negb]. by apply section_refuses.
Qed.

(** The critical section of an honoured insertion, whatever was read
    before it. *)
Lemma section_spec st path exists_ meta t issueTime now generation lifetime :
  paths_wf st -> PathCacheTicketHonoured st t = true ->
  let st' := insert_section st path exists_ meta t issueTime now generation lifetime in
  let new := new_entry path exists_ meta issueTime (match t with Some t => TicketSequence t | None => Sequence st end) generation in
  exists b b', Buckets st !! Z.to_nat (PathCacheBucket path) = Some b /\
    st' = with_Count (with_Buckets st (<[Z.to_nat (PathCacheBucket path) := b']> (Buckets st))) (CacheCount st') /\
    paths_wf st' /\ inserted_in b b' path new meta now generation lifetime.
Proof.
  intros [Hok Hc] Ht. unfold insert_section. destruct (path_bucket (Buckets st) path Hok) as [b Hb].
  rewrite Hb, Ht. pose proof (bucket_size_le _ _ _ Hok Hb) as Hsz. unfold bucket_size in Hsz at 1.
  destruct (insert_locked b _ _ _ _ _ _ _ _) as [b' c'] eqn:Hins.
  apply (insert_locked_spec b (Z.to_nat (PathCacheBucket path))) in Hins as (Hb' & Hin & Hc'); try done; try lia.
  - exists b, b'. split_and!; [done|done| |done]. apply (put_wf st _ b b' c'); [done..|]. by unfold bucket_size.
  - by destruct Hok as [_ Hok]; apply Hok.
  - intros m -> He. cbn in He. subst exists_. done.
Qed.

(** The answers after it. *)
Lemma section_held st path exists_ meta t issueTime now generation lifetime :
  paths_wf st -> PathCacheTicketHonoured st t = true ->
  let st' := insert_section st path exists_ meta t issueTime now generation lifetime in
  let new := new_entry path exists_ meta issueTime (match t with Some t => TicketSequence t | None => Sequence st end) generation in
  (exists e, held st' path = Some e /\ answers e new meta) /\
  (forall q e, fold_path path <> fold_path q -> held st' q = Some e -> held st q = Some e) /\
  (forall q e, fold_path path <> fold_path q -> held st q = Some e -> PathCacheEntryLive e now generation lifetime = true ->
    held st' q = Some e \/
    held st path = None /\ exists b, Buckets st !! Z.to_nat (PathCacheBucket path) = Some b /\ full_bucket b now generation lifetime e).
Proof.
  intros Hwf Ht. destruct (section_spec st path exists_ meta t issueTime now generation lifetime Hwf Ht) as (b & b' & Hb & Heq & Hwf' & [Hs Ho Hk]).
  cbv zeta. rewrite Heq. set (c := CacheCount _). clearbody c. clear Heq.
  assert (Hheld : forall q, held (with_Count (with_Buckets st (<[Z.to_nat (PathCacheBucket path) := b']> (Buckets st))) c) q =
    if decide (Z.to_nat (PathCacheBucket q) = Z.to_nat (PathCacheBucket path)) then findk EntryPath q (List b') else held st q).
  { intros q. rewrite <- (held_put (Buckets st)); try done; [apply Hwf|]. by apply lookup_lt_Some in Hb. }
  assert (Hin : forall q, Z.to_nat (PathCacheBucket q) = Z.to_nat (PathCacheBucket path) -> held st q = findk EntryPath q (List b)).
  { intros q Hq. unfold held. by rewrite Hq, Hb. }
  split_and!.
  - destruct Hs as (e & He & Ha). exists e. split; [|done]. rewrite Hheld. by rewrite decide_True.
  - intros q e Hq. rewrite Hheld. case_decide as Hd; [|done]. intros He. rewrite Hin by done. by apply Ho.
  - intros q e Hq He Hl. rewrite Hheld. case_decide as Hd; [|by left]. rewrite Hin in He by done.
    destruct (Hk q e Hq He Hl) as [?|[Hn Hf]]; [by left|]. right. split; [by rewrite Hin|]. by exists b.
Qed.

Lemma insert_is_section st path exists_ meta t allocOk now :
  insert_refused st path exists_ meta allocOk = false ->
  PathCacheInsert st path exists_ meta t allocOk now =
    insert_section st path exists_ meta t (match t with Some t => TicketIssueTime t | None => now end) now (CacheGeneration st) (PathCacheLifetime st).
Proof.
  unfold insert_refused, PathCacheInsert.
  destruct (negb (Ready st) || (length path =? 0)%nat || (PATH_CACHE_MAX_PATH_BYTES <? path_bytes path) ||
    match meta with Some m => exists_ && NoStore m | None => false end); [done|]. by destruct allocOk.
Qed.

Lemma section_wf st path exists_ meta t issueTime now generation lifetime :
  paths_wf st ->
  let st' := insert_section st path exists_ meta t issueTime now generation lifetime in paths_wf st' /\ paths_only st st'.
Proof.
  intros Hwf. cbv zeta. destruct (PathCacheTicketHonoured st t) eqn:Ht.
  - destruct (section_spec st path exists_ meta t issueTime now generation lifetime Hwf Ht) as (b & b' & _ & Heq & Hwf' & _).
    split; [done|]. by eexists _, _.
  - rewrite section_refuses by (try done; apply Hwf). split; [done|apply paths_only_refl].
Qed.

Lemma insert_wf st path exists_ meta t allocOk now :
  paths_wf st -> paths_wf (PathCacheInsert st path exists_ meta t allocOk now) /\
    paths_only st (PathCacheInsert st path exists_ meta t allocOk now).
Proof.
  intros Hwf. destruct (insert_refused st path exists_ meta allocOk) eqn:Hr.
  { rewrite insert_refuses by auto. split; [done|apply paths_only_refl]. }
  rewrite insert_is_section by done. by apply section_wf.
Qed.

Lemma insert_held st path exists_ meta t allocOk now :
  paths_wf st ->
  insert_refused st path exists_ meta allocOk = false -> PathCacheTicketHonoured st t = true ->
  let st' := PathCacheInsert st path exists_ meta t allocOk now in
  (exists e, held st' path = Some e /\ answers e (inserted_entry st path exists_ meta t now) meta) /\
  (forall q e, fold_path path <> fold_path q -> held st' q = Some e -> held st q = Some e).
Proof.
  intros Hwf Hr Ht. cbv zeta. rewrite insert_is_section by done.
  destruct (section_held st path exists_ meta t (match t with Some t => TicketIssueTime t | None => now end) now (CacheGeneration st) (PathCacheLifetime st) Hwf Ht) as (H1 & H2 & _).
  done.
Qed.

Lemma count_remove st i b l :
  paths_wf st -> Buckets st !! i = Some b -> l `sublist_of` List b ->
  let r := Z.of_nat (length (List b)) - Z.of_nat (length l) in
  u32 (Count b - r) = Z.of_nat (length l) /\ s32 (CacheCount st - r) = CacheCount st + Z.of_nat (length l) - bucket_size b.
Proof.
  intros [Hok Hc] Hb Hs r. pose proof (bucket_size_le _ _ _ Hok Hb) as Hsz. destruct Hok as [_ Hok].
  apply Hok in Hb as [Hcnt Hm _ _]. apply sublist_length in Hs.
  unfold bucket_size, PATH_CACHE_MAX_PER_BUCKET in *. unfold r. rewrite Hcnt, u32_id, s32_id by lia. lia.
Qed.

Lemma drop_spec st path :
  paths_wf st -> paths_wf (drop_locked st path) /\ paths_only st (drop_locked st path) /\
    forall q, held (drop_locked st path) q = if decide (fold_path path = fold_path q) then None else held st q.
Proof.
  intros Hwf. destruct (path_bucket (Buckets st) path (proj1 Hwf)) as [b Hb]. unfold drop_locked. rewrite Hb.
  pose proof (proj2 (proj1 Hwf) _ _ Hb) as Hok.
  set (f := fun e => RtlEqualUnicodeString (EntryPath e) path).
  pose proof (remove_first_sublist f (List b)) as Hsub. pose proof (remove_first_find f (List b)) as Hfind.
  pose proof (remove_first_length f (List b)) as Hlen. pose proof (findk_remove EntryPath path) as Hrem. fold f in Hrem.
  specialize (fun q => Hrem q (List b) (ok_uniq _ _ _ _ _ Hok)).
  destruct (remove_first f (List b)) as [l r]. simpl in *. destruct r as [e|].
  - destruct (count_remove st _ b l Hwf Hb Hsub) as [H1 H2]. specialize (Hlen e (eq_sym Hfind)).
    replace (Z.of_nat (length (List b)) - Z.of_nat (length l)) with 1 in H1, H2 by lia. rewrite H1, H2.
    split_and!; [|by eexists _, _|].
    + apply (put_wf st _ b); [done|done|by eapply bucket_ok_sublist|done].
    + intros q. etrans; [apply (held_put (Buckets st)); [done|apply Hwf|by apply lookup_lt_Some in Hb]|].
      unfold held. simpl. case_decide as Hd.
      * rewrite Hd, Hb. cbn [mbind option_bind]. apply Hrem.
      * case_decide as Hp; [|done]. by apply bucket_fold in Hp; rewrite Hp in Hd.
  - split_and!; [done|apply paths_only_refl|]. intros q. case_decide as Hp; [|done].
    rewrite <- (held_fold _ _ _ Hp). unfold held. rewrite Hb. cbn [mbind option_bind]. by symmetry.
Qed.

Lemma sweep_spec st (f : PATH_CACHE_ENTRY -> bool) i :
  paths_wf st -> (i < Z.to_nat PATH_CACHE_BUCKETS)%nat ->
  paths_wf (sweep_locked st f i) /\ paths_only st (sweep_locked st f i) /\
  forall q, held (sweep_locked st f i) q =
    if decide (Z.to_nat (PathCacheBucket q) = i) then e ← held st q; if f e then None else Some e else held st q.
Proof.
  intros Hwf Hi. destruct (lookup_lt_is_Some_2 (Buckets st) i) as [b Hb]; [by rewrite (proj1 (proj1 Hwf))|].
  unfold sweep_locked. rewrite Hb. set (l := List.filter _ _).
  assert (Hsub : l `sublist_of` List b) by apply filter_sublist.
  destruct (count_remove st _ b l Hwf Hb Hsub) as [-> ->]. pose proof (proj2 (proj1 Hwf) _ _ Hb) as Hok.
  split_and!; [|by eexists _, _|].
  - apply (put_wf st _ b); [done|done|by eapply bucket_ok_sublist|done].
  - intros q. etrans; [apply (held_put (Buckets st)); [done|apply Hwf|by apply lookup_lt_Some in Hb]|].
    case_decide as Hd; [|done]. cbn [List]. unfold l, held. rewrite Hd, Hb. cbn [mbind option_bind].
    rewrite findk_filter by apply Hok. destruct (findk EntryPath q (List b)); simpl; [|done]. by destruct (f p).
Qed.

(** A sweep of the buckets [is]. *)
Lemma sweeps_spec (f : PATH_CACHE_ENTRY -> bool) idx : forall st,
  paths_wf st -> (forall i, i ∈ idx -> (i < Z.to_nat PATH_CACHE_BUCKETS)%nat) ->
  let st' := fold_left (fun st i => sweep_locked st f i) idx st in
  paths_wf st' /\ paths_only st st' /\
  forall q, held st' q =
    if decide (Z.to_nat (PathCacheBucket q) ∈ idx) then e ← held st q; if f e then None else Some e else held st q.
Proof.
  induction idx as [|i idx IH]; intros st Hwf Hi; cbn [fold_left].
  - split_and!; [done|apply paths_only_refl|]. intros q. by rewrite decide_False by apply not_elem_of_nil.
  - destruct (sweep_spec st f i Hwf) as (Hwf1 & Ho1 & Hh1); [apply Hi; left|].
    destruct (IH _ Hwf1) as (Hwf2 & Ho2 & Hh2); [intros; apply Hi; by right|].
    split_and!; [done|by eapply paths_only_trans|]. intros q. rewrite Hh2, Hh1.
    destruct (decide (Z.to_nat (PathCacheBucket q) = i)) as [->|Hne].
    + rewrite (decide_True (P := i ∈ i :: idx)) by left.
      case_decide; [|done]. destruct (held st q) as [e|]; [|done]. simpl. destruct (f e) eqn:Hf; [done|]. simpl. by rewrite Hf.
    + apply decide_ext. rewrite elem_of_cons. tauto.
Qed.

Lemma invalidate_under_spec st dir keepDir childrenOnly :
  paths_wf st ->
  let st' := PathCacheInvalidateUnder st dir keepDir childrenOnly in
  paths_wf st' /\ paths_only st st' /\
  forall q, held st' q = e ← held st q; if swept_under dir keepDir childrenOnly e then None else Some e.
Proof.
  intros Hwf. destruct (sweeps_spec (swept_under dir keepDir childrenOnly) (seq 0 (Z.to_nat PATH_CACHE_BUCKETS)) st Hwf) as (H1 & H2 & H3).
  { intros i Hi%elem_of_seq. lia. }
  split_and!; [done..|]. intros q. unfold PathCacheInvalidateUnder. rewrite H3.
  rewrite decide_True; [done|]. apply elem_of_seq. pose proof (path_bucket_range q). lia.
Qed.
End Operations.
