(* ===== verification/PathCacheListings.v ===== *)
(** * The listing cache: accounting and operations

    The byte budget and the snapshots' reference counts.  [hold p] is the
    number of references the cache's clients have on snapshot [p]; the rest of
    its count is the listing entries that name it. *)

From S2P Require Import Prelude UnicodePath PathCache PathCacheOps.

Definition refs_in (p : Z) (l : list LISTING_CACHE_ENTRY) : Z := total (fun e => if Listing e =? p then 1 else 0) l.
Definition bytes_in (b : PATH_CACHE_BUCKET LISTING_CACHE_ENTRY) : Z := sum_bytes (List b).
Definition lrefs (bs : list (PATH_CACHE_BUCKET LISTING_CACHE_ENTRY)) (p : Z) : Z := total (fun b => refs_in p (List b)) bs.
Definition refs_of (st : PATH_CACHE_STATE) (p : Z) : Z :=
  match Snapshots st !! p with Some (_, r) => r | None => 0 end.

Lemma sum_bytes_total l : sum_bytes l = total LBytes l.
Proof. done. Qed.

Lemma refs_in_nonneg p l : 0 <= refs_in p l <= Z.of_nat (length l).
Proof.
  unfold refs_in. induction l as [|e l IH]; [cbn; lia|]. rewrite total_cons. cbn [length].
  destruct (Listing e =? p); lia.
Qed.

Lemma lrefs_nonneg bs p : 0 <= lrefs bs p.
Proof. apply total_nonneg. intros b _. apply refs_in_nonneg. Qed.

(** What the entries [pend], already unlinked but not yet released, still
    account for. *)
Record accounts (hold : Z -> Z) (st : PATH_CACHE_STATE) (pend : list LISTING_CACHE_ENTRY) : Prop := {
  acc_bytes : ListingBytes st = total bytes_in (ListingBuckets st) + sum_bytes pend;
  acc_budget : ListingBytes st <= LISTING_CACHE_MAX_BYTES;
  acc_sizes : forall i b e, ListingBuckets st !! i = Some b -> e ∈ List b -> 0 <= LBytes e;
  acc_pend : forall e, e ∈ pend -> 0 <= LBytes e;
  acc_hold : forall p, 0 <= hold p;
  acc_refs : forall p, refs_of st p = hold p + lrefs (ListingBuckets st) p + refs_in p pend;
  acc_small : forall p, hold p + lrefs (ListingBuckets st) p + refs_in p pend < 2147483647;
  acc_live : forall p d r, Snapshots st !! p = Some (d, r) -> 0 < r
}.

(** Only the listing cache differs, and no surviving snapshot's contents. *)
Definition listings_only (st st' : PATH_CACHE_STATE) : Prop :=
  (exists bs n sn, st' = with_Snapshots (with_ListingBytes (with_ListingBuckets st bs) n) sn) /\
  forall p d r', Snapshots st' !! p = Some (d, r') -> exists r, Snapshots st !! p = Some (d, r).

Lemma listings_only_refl st : listings_only st st.
Proof. split; [|by eauto]. exists (ListingBuckets st), (ListingBytes st), (Snapshots st). by destruct st. Qed.

Lemma listings_only_trans st1 st2 st3 : listings_only st1 st2 -> listings_only st2 st3 -> listings_only st1 st3.
Proof.
  intros [(b & n & sn & ->) H12] [(b' & n' & sn' & ->) H23]. split; [by exists b', n', sn'|].
  intros p d r [r' H]%H23. by eapply H12.
Qed.

Lemma listings_only_buckets st bs : listings_only st (with_ListingBuckets st bs).
Proof. split; [|by eauto]. exists bs, (ListingBytes st), (Snapshots st). by destruct st. Qed.

Section Release.
Context (hold : Z -> Z).

Lemma bytes_nonneg st pend : accounts hold st pend -> 0 <= total bytes_in (ListingBuckets st).
Proof.
  intros Ha. apply total_nonneg. intros b [i Hi]%list_elem_of_lookup. unfold bytes_in. rewrite sum_bytes_total.
  apply total_nonneg. intros e He. by eapply acc_sizes.
Qed.

Lemma remove_entry_spec st e pend :
  accounts hold st (e :: pend) ->
  exists st', ListingCacheRemoveEntry st e = Some st' /\ accounts hold st' pend /\
    ListingBuckets st' = ListingBuckets st /\ listings_only st st'.
Proof.
  intros Ha. pose proof Ha as [Hb Hm Hs Hp Hh Hr Hsm Hl].
  pose proof (bytes_nonneg _ _ Ha) as Hb0. pose proof (Hp e ltac:(left)) as He0.
  assert (Hpend : 0 <= sum_bytes pend) by (apply total_nonneg; intros; apply Hp; by right).
  assert (Hsum : ListingBytes st = total bytes_in (ListingBuckets st) + (LBytes e + sum_bytes pend)) by exact Hb.
  assert (Hre : forall p, refs_in p (e :: pend) = (if Listing e =? p then 1 else 0) + refs_in p pend) by done.
  pose proof (Hr (Listing e)) as Hre'. rewrite Hre, Z.eqb_refl in Hre'. unfold refs_of in Hre'.
  pose proof (lrefs_nonneg (ListingBuckets st) (Listing e)). pose proof (refs_in_nonneg (Listing e) pend).
  pose proof (Hh (Listing e)). pose proof (Hsm (Listing e)) as Hsm'. rewrite Hre, Z.eqb_refl in Hsm'.
  unfold LISTING_CACHE_MAX_BYTES in *.
  unfold ListingCacheRemoveEntry, BlorgReleaseDirectoryInfo. cbn [Snapshots with_ListingBytes].
  destruct (Snapshots st !! Listing e) as [[d r]|] eqn:Hsn; [|lia]. cbn [mbind option_bind].
  rewrite s32_id by lia. rewrite s64_id by lia.
  assert (Hbytes : ListingBytes st - LBytes e = total bytes_in (ListingBuckets st) + sum_bytes pend) by lia.
  destruct (Z.eqb_spec (r - 1) 0) as [Hz|Hz]; eexists; (split; [done|]); (split; [|split; [done|]]).
  - split; cbn [ListingBytes with_Snapshots with_ListingBytes ListingBuckets Snapshots]; [done|unfold LISTING_CACHE_MAX_BYTES; lia|done|intros; apply Hp; by right|done| | |].
    + intros p. unfold refs_of. cbn [Snapshots with_Snapshots]. specialize (Hr p). rewrite Hre in Hr. unfold refs_of in Hr.
      destruct (Z.eqb_spec (Listing e) p) as [Heq|Hne]; [rewrite <- Heq, Hsn in Hr; rewrite <- Heq;rewrite lookup_delete_eq; lia|by rewrite lookup_delete_ne].
    + intros p. specialize (Hsm p). rewrite Hre in Hsm. destruct (Listing e =? p); lia.
    + intros p d' r' [_ Hp']%lookup_delete_Some. eauto.
  - split; [by eexists _, _, _|]. cbn. intros p d' r' [_ Hp']%lookup_delete_Some. eauto.
  - split; cbn [ListingBytes with_Snapshots with_ListingBytes ListingBuckets Snapshots]; [done|unfold LISTING_CACHE_MAX_BYTES; lia|done|intros; apply Hp; by right|done| | |].
    + intros p. unfold refs_of. cbn [Snapshots with_Snapshots]. specialize (Hr p). rewrite Hre in Hr. unfold refs_of in Hr.
      destruct (Z.eqb_spec (Listing e) p) as [Heq|Hne]; [rewrite <- Heq, Hsn in Hr; rewrite <- Heq;rewrite lookup_insert_eq; lia|by rewrite lookup_insert_ne].
    + intros p. specialize (Hsm p). rewrite Hre in Hsm. destruct (Listing e =? p); lia.
    + intros p d' r' [[<- [= <- <-]]|[_ Hp']]%lookup_insert_Some; [lia|eauto].
  - split; [by eexists _, _, _|]. cbn. intros p d' r' [[<- [= <- <-]]|[_ Hp']]%lookup_insert_Some; eauto.
Qed.

Lemma remove_entries_spec pend : forall st,
  accounts hold st pend ->
  exists st', remove_entries st pend = Some st' /\ accounts hold st' [] /\
    ListingBuckets st' = ListingBuckets st /\ listings_only st st'.
Proof.
  induction pend as [|e pend IH]; intros st Ha; cbn [remove_entries].
  - exists st. split_and!; try done. apply listings_only_refl.
  - destruct (remove_entry_spec st e pend Ha) as (st1 & -> & Ha1 & Hb1 & Ho1). cbn [mbind option_bind].
    destruct (IH st1 Ha1) as (st2 & -> & Ha2 & Hb2 & Ho2). exists st2.
    split_and!; [done|done|congruence|by eapply listings_only_trans].
Qed.
End Release.

(** ** Dropping entries from a bucket *)

Section Drop.
Context {nls : Nls}.

Lemma filter_perm {A} (f : A -> bool) l : l ≡ₚ List.filter (fun x => negb (f x)) l ++ List.filter f l.
Proof.
  induction l as [|x l IH]; [done|]. simpl. destruct (f x); simpl.
  - rewrite <- Permutation_middle. by constructor.
  - by constructor.
Qed.

Lemma remove_first_perm {A} (f : A -> bool) l l' e : remove_first f l = (l', Some e) -> l ≡ₚ l' ++ [e].
Proof.
  revert l'. induction l as [|x l IH]; intros l'; [done|]. simpl. destruct (f x).
  - intros [= -> ->]. by rewrite Permutation_app_comm.
  - destruct (remove_first f l) as [l1 r]. intros [= <- ->]. simpl. by rewrite <- IH.
Qed.

Lemma drop_take_perm {A} n (l : list A) : l ≡ₚ drop n l ++ take n l.
Proof. rewrite <- (take_drop n l) at 1. by rewrite Permutation_app_comm. Qed.

Definition listings_wf (hold : Z -> Z) (st : PATH_CACHE_STATE) : Prop :=
  LISTING_BUCKETS_OK (ListingBuckets st) /\ accounts hold st [].

(** The bytes charged for every bucket but [i]. *)
Definition others (st : PATH_CACHE_STATE) (i : nat) : Z :=
  ListingBytes st - match ListingBuckets st !! i with Some b => bytes_in b | None => 0 end.

Lemma lheld_put st i b st' q :
  (i < length (ListingBuckets st))%nat -> ListingBuckets st' = <[i := b]> (ListingBuckets st) ->
  lheld st' q = if decide (Z.to_nat (ListingCacheBucket q) = i) then findk LPath q (List b) else lheld st q.
Proof.
  intros Hi Hb. unfold lheld. rewrite Hb. case_decide as Hd.
  - subst i. by rewrite list_lookup_insert_eq.
  - by rewrite list_lookup_insert_ne.
Qed.

Section Hold.
Context (hold : Z -> Z).
Implicit Types st : PATH_CACHE_STATE.

Lemma replace_lbucket_spec st i b kept removed :
  listings_wf hold st -> ListingBuckets st !! i = Some b ->
  kept `sublist_of` List b -> List b ≡ₚ kept ++ removed ->
  exists st', replace_lbucket st i b kept removed = Some st' /\ listings_wf hold st' /\ listings_only st st' /\
    ListingBuckets st' = <[i := mkBucket kept (Z.of_nat (length kept))]> (ListingBuckets st) /\
    others st' i = others st i.
Proof.
  intros [Hok Ha] Hb Hsub Hperm. unfold replace_lbucket. pose proof (proj2 Hok _ _ Hb) as Hbok.
  assert (Hlen : length (List b) = (length kept + length removed)%nat) by (by rewrite Hperm, length_app).
  rewrite (ok_count _ _ _ _ _ Hbok). pose proof (ok_max _ _ _ _ _ Hbok). unfold LISTING_CACHE_MAX_PER_BUCKET in *.
  rewrite u32_id by lia. replace (Z.of_nat (length (List b)) - Z.of_nat (length removed)) with (Z.of_nat (length kept)) by lia.
  set (b' := mkBucket kept (Z.of_nat (length kept))). set (st1 := with_ListingBuckets st _).
  assert (Hi : (i < length (ListingBuckets st))%nat) by (by apply lookup_lt_Some in Hb).
  assert (Hbytes : bytes_in b = bytes_in b' + sum_bytes removed).
  { change (total LBytes (List b) = total LBytes kept + total LBytes removed). rewrite <- total_app. by apply total_perm. }
  assert (Hrefs : forall p, refs_in p (List b) = refs_in p kept + refs_in p removed).
  { intros p. unfold refs_in. rewrite <- total_app. by apply total_perm. }
  assert (Hlr : forall p, lrefs (ListingBuckets st1) p + refs_in p removed = lrefs (ListingBuckets st) p).
  { intros p. unfold lrefs, st1. cbn [ListingBuckets with_ListingBuckets]. rewrite (total_insert _ _ _ _ _ Hb).
    rewrite Hrefs. cbn [List b']. lia. }
  assert (Ha1 : accounts hold st1 removed).
  { pose proof Ha as [Hby Hm Hs Hp Hh Hr Hsm Hl]. split; try done.
    - change (ListingBytes st1) with (ListingBytes st). rewrite Hby. unfold st1. cbn [ListingBuckets with_ListingBuckets].
      rewrite (total_insert _ _ _ _ _ Hb). change (sum_bytes []) with 0. lia.
    - intros j bj e [(-> & <- & _)|[_ Hj]]%list_lookup_insert_Some He; [|by eapply Hs].
      eapply Hs; [done|]. by eapply elem_of_sublist.
    - intros e He. eapply Hs; [done|]. rewrite Hperm. apply elem_of_app. by right.
    - intros p. change (refs_of st1 p) with (refs_of st p). rewrite Hr. specialize (Hlr p). change (refs_in p []) with 0. lia.
    - intros p. specialize (Hlr p). specialize (Hsm p). change (refs_in p []) with 0 in Hsm. lia. }
  destruct (remove_entries_spec hold removed st1 Ha1) as (st' & -> & Ha' & Hb' & Ho'). exists st'.
  split; [done|]. split.
  { split; [|done]. rewrite Hb'. apply listing_buckets_put; [done|]. by eapply bucket_ok_sublist. }
  split; [eapply listings_only_trans; [apply listings_only_buckets|done]|]. split; [done|].
  unfold others. rewrite Hb'. cbn [ListingBuckets with_ListingBuckets st1]. rewrite list_lookup_insert_eq, Hb by done.
  rewrite (acc_bytes _ _ _ Ha'), (acc_bytes _ _ _ Ha), Hb'. cbn [ListingBuckets with_ListingBuckets st1].
  rewrite (total_insert _ _ _ _ _ Hb). lia.
Qed.

Lemma listing_drop_spec st dir :
  listings_wf hold st ->
  exists st', ListingCacheDrop st dir = Some st' /\ listings_wf hold st' /\ listings_only st st' /\
    forall q, lheld st' q = if decide (fold_path dir = fold_path q) then None else lheld st q.
Proof.
  intros Hwf. destruct (listing_bucket _ dir (proj1 Hwf)) as [b Hb]. unfold ListingCacheDrop. rewrite Hb.
  cbn [mbind option_bind]. set (f := fun e => RtlEqualUnicodeString (LPath e) dir).
  pose proof (proj2 (proj1 Hwf) _ _ Hb) as Hok.
  pose proof (remove_first_sublist f (List b)) as Hsub. pose proof (remove_first_find f (List b)) as Hfind.
  pose proof (remove_first_perm f (List b)) as Hperm. pose proof (findk_remove LPath dir) as Hrem. fold f in Hrem.
  specialize (fun q => Hrem q (List b) (ok_uniq _ _ _ _ _ Hok)).
  destruct (remove_first f (List b)) as [l r]. simpl in *. destruct r as [e|].
  - destruct (replace_lbucket_spec st _ b l [e] Hwf Hb Hsub (Hperm _ _ eq_refl)) as (st' & -> & Hwf' & Ho & Hb' & _).
    exists st'. split_and!; [done..|]. intros q.
    rewrite (lheld_put _ _ _ _ _ ltac:(by apply lookup_lt_Some in Hb) Hb'). cbn [List]. case_decide as Hd.
    + unfold lheld. rewrite Hd, Hb. cbn [mbind option_bind]. apply Hrem.
    + case_decide as Hp; [|done]. by apply lbucket_fold in Hp; rewrite Hp in Hd.
  - exists st. split_and!; [done..|apply listings_only_refl|]. intros q. case_decide as Hp; [|done].
    unfold lheld. rewrite <- (lbucket_fold _ _ Hp), Hb. cbn [mbind option_bind]. rewrite <- (findk_fold _ _ _ _ Hp). by symmetry.
Qed.

Lemma listing_drop_parent_spec st path :
  listings_wf hold st ->
  exists st', ListingCacheDropParent st path = Some st' /\ listings_wf hold st' /\ listings_only st st' /\
    forall q, lheld st' q = if decide (fold_path <$> PathCacheParent path = Some (fold_path q)) then None else lheld st q.
Proof.
  intros Hwf. unfold ListingCacheDropParent. destruct (PathCacheParent path) as [d|].
  - destruct (listing_drop_spec st d Hwf) as (st' & -> & ? & ? & Hq). exists st'. split_and!; [done..|].
    intros q. rewrite Hq. apply decide_ext. simpl. split; congruence.
  - exists st. split_and!; [done..|apply listings_only_refl|]. intros q. by rewrite decide_False.
Qed.

Lemma lsweep_locked_spec st (f : LISTING_CACHE_ENTRY -> bool) i :
  listings_wf hold st -> (i < Z.to_nat LISTING_CACHE_BUCKETS)%nat ->
  exists st', lsweep_locked st f i = Some st' /\ listings_wf hold st' /\ listings_only st st' /\
    (forall j, others st' j <= others st j) /\
    forall q, lheld st' q =
      if decide (Z.to_nat (ListingCacheBucket q) = i) then e ← lheld st q; if f e then None else Some e else lheld st q.
Proof.
  intros Hwf Hi. destruct (lookup_lt_is_Some_2 (ListingBuckets st) i) as [b Hb]; [by rewrite (proj1 (proj1 Hwf))|].
  unfold lsweep_locked. rewrite Hb. cbn [mbind option_bind]. pose proof (proj2 (proj1 Hwf) _ _ Hb) as Hok.
  destruct (replace_lbucket_spec st i b _ _ Hwf Hb (filter_sublist (fun e => negb (f e)) (List b)) (filter_perm f (List b)))
    as (st' & -> & Hwf' & Ho & Hb' & Hoth). exists st'. split_and!; [done..| |].
  - intros j. destruct (decide (j = i)) as [->|Hne]; [lia|]. unfold others. rewrite Hb'.
    rewrite list_lookup_insert_ne by done. rewrite (acc_bytes _ _ _ (proj2 Hwf')), (acc_bytes _ _ _ (proj2 Hwf)), Hb'.
    rewrite (total_insert _ _ _ _ _ Hb). set (b1 := mkBucket _ _).
    assert (bytes_in b1 <= bytes_in b); [|lia]. unfold b1. change (total LBytes (List.filter (fun e => negb (f e)) (List b)) <= total LBytes (List b)).
    rewrite (total_perm LBytes _ _ (filter_perm f (List b))), total_app.
    assert (0 <= total LBytes (List.filter f (List b))); [|lia]. apply total_nonneg. intros e He.
    eapply (acc_sizes _ _ _ (proj2 Hwf)); [done|]. eapply elem_of_sublist; [done|apply filter_sublist].
  - intros q. rewrite (lheld_put _ _ _ _ _ ltac:(by apply lookup_lt_Some in Hb) Hb'). cbn [List].
    case_decide as Hd; [|done]. unfold lheld. rewrite Hd, Hb. cbn [mbind option_bind].
    rewrite findk_filter by apply Hok. destruct (findk LPath q (List b)) as [e|]; simpl; [|done]. by destruct (f e).
Qed.

Lemma lsweep_spec (f : LISTING_CACHE_ENTRY -> bool) idx : forall st,
  listings_wf hold st -> (forall i, i ∈ idx -> (i < Z.to_nat LISTING_CACHE_BUCKETS)%nat) ->
  exists st', lsweep st f idx = Some st' /\ listings_wf hold st' /\ listings_only st st' /\
    (forall j, others st' j <= others st j) /\
    forall q, lheld st' q =
      if decide (Z.to_nat (ListingCacheBucket q) ∈ idx) then e ← lheld st q; if f e then None else Some e else lheld st q.
Proof.
  induction idx as [|i idx IH]; intros st Hwf Hi; cbn [lsweep].
  - exists st. split_and!; [done..|apply listings_only_refl|done|]. intros q. by rewrite decide_False by apply not_elem_of_nil.
  - destruct (lsweep_locked_spec st f i Hwf) as (st1 & -> & Hwf1 & Ho1 & Hj1 & Hh1); [apply Hi; left|]. cbn [mbind option_bind].
    destruct (IH _ Hwf1) as (st2 & -> & Hwf2 & Ho2 & Hj2 & Hh2); [intros; apply Hi; by right|]. exists st2.
    split_and!; [done..|by eapply listings_only_trans| |].
    + intros j. specialize (Hj1 j). specialize (Hj2 j). lia.
    + intros q. rewrite Hh2, Hh1.
      destruct (decide (Z.to_nat (ListingCacheBucket q) = i)) as [->|Hne].
      * rewrite (decide_True (P := i ∈ i :: idx)) by left.
        case_decide; [|done]. destruct (lheld st q) as [e|]; [|done]. simpl. destruct (f e) eqn:Hf; [done|]. simpl. by rewrite Hf.
      * apply decide_ext. rewrite elem_of_cons. tauto.
Qed.

Lemma lsweep_all_spec (f : LISTING_CACHE_ENTRY -> bool) st :
  listings_wf hold st ->
  exists st', lsweep st f all_lbuckets = Some st' /\ listings_wf hold st' /\ listings_only st st' /\
    (forall j, others st' j <= others st j) /\
    forall q, lheld st' q = e ← lheld st q; if f e then None else Some e.
Proof.
  intros Hwf. destruct (lsweep_spec f all_lbuckets st Hwf) as (st' & H1 & H2 & H3 & H4 & H5).
  { intros i Hi%elem_of_seq. lia. }
  exists st'. split_and!; [done..|]. intros q. rewrite H5, decide_True; [done|].
  apply elem_of_seq. pose proof (lbucket_range q). lia.
Qed.
End Hold.
End Drop.
