(* ===== verification/PathCachePublish.v ===== *)
(** * The listing cache: lookup and publication *)

From S2P Require Import Prelude UnicodePath PathCache PathCacheOps PathCacheListings.

(** One more reference on [p] held by a client. *)
Definition hold_add (hold : Z -> Z) (p : Z) : Z -> Z := fun q => if p =? q then hold q + 1 else hold q.
Definition hold_sub (hold : Z -> Z) (p : Z) : Z -> Z := fun q => if p =? q then hold q - 1 else hold q.

(** References one snapshot's clients may hold without the 32-bit count
    overflowing, and how large a snapshot may be. *)
Definition MAX_HOLDERS : Z := 1073741824.
Definition MAX_SNAPSHOT_BYTES : Z := 4611686018427387904.

Definition snaps_ok (st : PATH_CACHE_STATE) : Prop :=
  forall p d r, Snapshots st !! p = Some (d, r) -> 0 <= InfoBytes d < MAX_SNAPSHOT_BYTES.

Lemma snaps_ok_only st st' : listings_only st st' -> snaps_ok st -> snaps_ok st'.
Proof. intros [_ H] Hs p d r [r' Hp]%H. by eapply Hs. Qed.

Definition claimed (e : LISTING_CACHE_ENTRY) : LISTING_CACHE_ENTRY :=
  mkLEntry (LPath e) (Listing e) (LBytes e) (LIssueTime e) (LSequence e) (LGeneration e) true.

Section Claim.
Context {nls : Nls} (hold : Z -> Z).
Implicit Types (st : PATH_CACHE_STATE) (dir q : PATH) (l : list LISTING_CACHE_ENTRY).

Lemma claim_keys dir l : keys LPath (claim_first dir l) = keys LPath l.
Proof. induction l as [|e l IH]; [done|]. cbn [claim_first]. destruct (RtlEqualUnicodeString _ dir); [done|]. simpl. by rewrite IH. Qed.

Lemma claim_total {A} (g : LISTING_CACHE_ENTRY -> A) (f : A -> Z) dir l :
  (forall e, g (claimed e) = g e) -> total (fun e => f (g e)) (claim_first dir l) = total (fun e => f (g e)) l.
Proof.
  intros Hg. induction l as [|e l IH]; [done|]. cbn [claim_first].
  destruct (RtlEqualUnicodeString _ dir); rewrite !total_cons; [|by rewrite IH].
  f_equal. f_equal. apply Hg.
Qed.

Lemma claim_elem dir l e : e ∈ claim_first dir l -> exists x, x ∈ l /\ (e = x \/ e = claimed x).
Proof.
  induction l as [|x l IH]; [by intros H; inversion H|]. cbn [claim_first].
  destruct (RtlEqualUnicodeString _ dir); rewrite elem_of_cons; intros [->|H].
  - exists x. split; [left|by right].
  - exists e. split; [by right|by left].
  - exists x. split; [left|by left].
  - destruct (IH H) as (y & Hy & ?). exists y. split; [by right|done].
Qed.

Lemma claim_findk dir l q : findk LPath q (claim_first dir l) =
  if decide (fold_path dir = fold_path q) then claimed <$> findk LPath q l else findk LPath q l.
Proof.
  unfold findk. induction l as [|e l IH]; [by case_decide|]. cbn [claim_first].
  destruct (RtlEqualUnicodeString (LPath e) dir) eqn:Hd; cbn [List.find LPath].
  - apply equal_iff in Hd. destruct (RtlEqualUnicodeString (LPath e) q) eqn:Hq.
    + apply equal_iff in Hq. rewrite decide_True by congruence. done.
    + rewrite <- not_true_iff_false, equal_iff in Hq. rewrite decide_False by congruence. done.
  - destruct (RtlEqualUnicodeString (LPath e) q) eqn:Hq; [|done].
    apply equal_iff in Hq. rewrite <- not_true_iff_false, equal_iff in Hd. rewrite decide_False by congruence. done.
Qed.

Lemma claim_length dir l : length (claim_first dir l) = length l.
Proof. induction l as [|e l IH]; [done|]. cbn [claim_first]. destruct (RtlEqualUnicodeString _ dir); [done|]. simpl. by rewrite IH. Qed.

(** Marking an entry's refresh as claimed changes no account. *)
Lemma claim_wf st dir b i :
  listings_wf hold st -> ListingBuckets st !! i = Some b ->
  listings_wf hold (with_ListingBuckets st (<[i := mkBucket (claim_first dir (List b)) (Count b)]> (ListingBuckets st))).
Proof.
  intros [Hok Ha] Hb. pose proof (proj2 Hok _ _ Hb) as [Hc Hm Hh Hu].
  assert (Hby : bytes_in (mkBucket (claim_first dir (List b)) (Count b)) = bytes_in b)
    by (apply (claim_total LBytes (fun z => z)); done).
  assert (Hrf : forall p, refs_in p (claim_first dir (List b)) = refs_in p (List b))
    by (intros p; apply (claim_total Listing (fun z => if z =? p then 1 else 0)); done).
  assert (Hlr : forall p, lrefs (<[i := mkBucket (claim_first dir (List b)) (Count b)]> (ListingBuckets st)) p = lrefs (ListingBuckets st) p).
  { intros p. unfold lrefs. rewrite (total_insert _ _ _ _ _ Hb). cbn [List]. rewrite Hrf. lia. }
  split; [apply listing_buckets_put; [done|]; split; simpl|].
  - by rewrite claim_length.
  - by rewrite claim_length.
  - intros e (x & Hx & [-> | ->])%claim_elem; by apply (Hh x).
  - unfold uniq. by rewrite claim_keys.
  - destruct Ha as [Hb' Hm' Hs Hp Hh' Hr Hsm Hl]. split; try done.
    + cbn [ListingBytes ListingBuckets with_ListingBuckets]. rewrite (total_insert _ _ _ _ _ Hb), Hby. lia.
    + intros j bj e [(-> & <- & _)|[_ Hj]]%list_lookup_insert_Some He; [|by eapply Hs].
      apply claim_elem in He as (x & Hx & [-> | ->]); by apply (Hs _ _ x Hb).
    + intros p. cbn [ListingBuckets with_ListingBuckets]. rewrite Hlr. apply Hr.
    + intros p. cbn [ListingBuckets with_ListingBuckets]. rewrite Hlr. apply Hsm.
Qed.

End Claim.

Section Lookup.
Context {nls : Nls} (hold : Z -> Z).
Implicit Types (st : PATH_CACHE_STATE) (dir q : PATH) (l : list LISTING_CACHE_ENTRY).

Lemma lrefs_le st p : LISTING_BUCKETS_OK (ListingBuckets st) -> lrefs (ListingBuckets st) p <= 2048.
Proof.
  intros [Hl Hok]. unfold lrefs. etrans; [apply (total_bound _ _ 8)|].
  - intros b [i Hi]%list_elem_of_lookup. apply Hok in Hi as [_ Hm _ _]. pose proof (refs_in_nonneg p (List b)).
    unfold LISTING_CACHE_MAX_PER_BUCKET in Hm. lia.
  - rewrite Hl. done.
Qed.

(** Taking a reference on behalf of a client. *)
Lemma reference_spec st p :
  listings_wf hold st -> hold p <= MAX_HOLDERS -> 0 < refs_of st p ->
  exists st', BlorgReferenceDirectoryInfo st p = Some st' /\ listings_wf (hold_add hold p) st' /\
    ListingBuckets st' = ListingBuckets st /\ listings_only st st' /\ refs_of st' p = refs_of st p + 1.
Proof.
  intros [Hok Ha] Hmax Hpos. unfold BlorgReferenceDirectoryInfo, refs_of in *.
  destruct (Snapshots st !! p) as [[d r]|] eqn:Hsn; [|lia]. cbn [mbind option_bind]. eexists. split; [done|].
  pose proof (lrefs_le st p Hok). pose proof (lrefs_nonneg (ListingBuckets st) p). unfold MAX_HOLDERS in *.
  pose proof Ha as [Hb Hm Hs Hp Hh Hr Hsm Hl]. pose proof (Hr p) as Hrp. unfold refs_of in Hrp. rewrite Hsn in Hrp.
  change (refs_in p []) with 0 in Hrp. pose proof (Hh p).
  rewrite s32_id by lia. split; [split; [done|]|split; [done|split]].
  - split; try done; unfold hold_add.
    + intros q. specialize (Hh q). destruct (p =? q); lia.
    + intros q. specialize (Hr q). unfold refs_of in *. cbn [Snapshots with_Snapshots ListingBuckets].
      destruct (Z.eqb_spec p q) as [->|Hne]; [rewrite lookup_insert_eq|rewrite lookup_insert_ne by done; done].
      rewrite Hsn in Hr. lia.
    + intros q. specialize (Hsm q). cbn [Snapshots with_Snapshots ListingBuckets].
      destruct (Z.eqb_spec p q) as [->|Hne]; [|done]. change (refs_in q []) with 0. lia.
    + cbn [Snapshots with_Snapshots]. intros q d' r' [[<- [= <- <-]]|[_ Hq]]%lookup_insert_Some; [lia|eauto].
  - split; [exists (ListingBuckets st), (ListingBytes st); eexists; by destruct st|].
    cbn. intros q d' r' [[<- [= <- <-]]|[_ Hq]]%lookup_insert_Some; eauto.
  - unfold refs_of. cbn [Snapshots with_Snapshots]. by rewrite lookup_insert_eq.
Qed.

(** A client giving a reference back. *)
Lemma release_spec st p :
  listings_wf hold st -> 0 < hold p ->
  exists st', BlorgReleaseDirectoryInfo st p = Some st' /\ listings_wf (hold_sub hold p) st' /\
    ListingBuckets st' = ListingBuckets st /\ listings_only st st'.
Proof.
  intros [Hok Ha] Hpos. pose proof Ha as [Hb Hm Hs Hp Hh Hr Hsm Hl].
  pose proof (Hr p) as Hrp. unfold BlorgReleaseDirectoryInfo. unfold refs_of in Hrp.
  pose proof (lrefs_nonneg (ListingBuckets st) p). pose proof (Hsm p) as Hsmp. change (refs_in p []) with 0 in *.
  destruct (Snapshots st !! p) as [[d r]|] eqn:Hsn; [|lia]. cbn [mbind option_bind]. rewrite s32_id by lia.
  assert (Hh' : forall q : Z, 0 <= hold_sub hold p q).
  { intros q. unfold hold_sub. specialize (Hh q). destruct (Z.eqb_spec p q) as [->|]; lia. }
  destruct (Z.eqb_spec (r - 1) 0) as [Hz|Hz]; eexists; (split; [done|]); (split; [split; [done|]|split; [done|]]).
  - split; try done.
    + intros q. specialize (Hr q). unfold refs_of, hold_sub in *. cbn [Snapshots with_Snapshots ListingBuckets].
      destruct (Z.eqb_spec p q) as [->|Hne]; [rewrite lookup_delete_eq; rewrite Hsn in Hr; lia|by rewrite lookup_delete_ne].
    + intros q. specialize (Hsm q). unfold hold_sub. cbn [Snapshots with_Snapshots ListingBuckets]. destruct (p =? q); lia.
    + cbn [Snapshots with_Snapshots]. intros q d' r' [_ Hq]%lookup_delete_Some. eauto.
  - split; [exists (ListingBuckets st), (ListingBytes st); eexists; by destruct st|].
    cbn. intros q d' r' [_ Hq]%lookup_delete_Some. eauto.
  - split; try done.
    + intros q. specialize (Hr q). unfold refs_of, hold_sub in *. cbn [Snapshots with_Snapshots ListingBuckets].
      destruct (Z.eqb_spec p q) as [->|Hne]; [rewrite lookup_insert_eq; rewrite Hsn in Hr; lia|by rewrite lookup_insert_ne].
    + intros q. specialize (Hsm q). unfold hold_sub. cbn [Snapshots with_Snapshots ListingBuckets]. destruct (p =? q); lia.
    + cbn [Snapshots with_Snapshots]. intros q d' r' [[<- [= <- <-]]|[_ Hq]]%lookup_insert_Some; [|eauto]. pose proof (Hl _ _ _ Hsn). lia.
  - split; [exists (ListingBuckets st), (ListingBytes st); eexists; by destruct st|].
    cbn. intros q d' r' [[<- [= <- <-]]|[_ Hq]]%lookup_insert_Some; eauto.
Qed.

Lemma held_refs st q e : listings_wf hold st -> lheld st q = Some e -> 0 < refs_of st (Listing e).
Proof.
  intros [Hok Ha] Hq. unfold lheld in Hq. apply bind_Some in Hq as (b & Hb & He). apply findk_Some in He as [He _].
  rewrite (acc_refs _ _ _ Ha). change (refs_in _ []) with 0. pose proof (acc_hold _ _ _ Ha (Listing e)).
  assert (1 <= refs_in (Listing e) (List b)).
  { apply list_elem_of_split in He as (l1 & l2 & ->). unfold refs_in. rewrite total_app, total_cons, Z.eqb_refl.
    pose proof (refs_in_nonneg (Listing e) l1) as H1. pose proof (refs_in_nonneg (Listing e) l2) as H2. unfold refs_in in H1, H2. lia. }
  assert (refs_in (Listing e) (List b) <= lrefs (ListingBuckets st) (Listing e)); [|lia].
  unfold lrefs. eapply (total_lookup (fun b => refs_in (Listing e) (List b))); [|done]. intros x _. apply refs_in_nonneg.
Qed.

(** What a lookup answers, from what is held. *)
Definition served st (allowStale : bool) (now : Z) (e : LISTING_CACHE_ENTRY) : bool :=
  ListingCacheEntryLive e now (CacheGeneration st) (PathCacheLifetime st) &&
  ((PathCacheAge (LIssueTime e) now <? PathCacheLifetime st) || allowStale).

Lemma lookup_spec st dir allowStale now :
  listings_wf hold st -> (forall p, hold p <= MAX_HOLDERS) -> Ready st = true -> dir <> [] ->
  exists st' hit, BlorgPathCacheLookupListing st dir allowStale now = Some (st', hit) /\ listings_only st st' /\
    match lheld st dir with
    | Some e =>
        if served st allowStale now e then
          let stale := PathCacheLifetime st <=? PathCacheAge (LIssueTime e) now in
          hit = mkHit (Some (Listing e)) stale (stale && negb (RefreshClaimed e)) (Some (mkTicket (LSequence e) (LIssueTime e))) /\
          listings_wf (hold_add hold (Listing e)) st' /\
          refs_of st' (Listing e) = refs_of st (Listing e) + 1 /\
          forall q, lheld st' q = if stale && bool_decide (fold_path dir = fold_path q) then claimed <$> lheld st q else lheld st q
        else hit = no_hit /\ st' = st
    | None => hit = no_hit /\ st' = st
    end.
Proof.
  intros Hwf Hmax Hr Hd. unfold BlorgPathCacheLookupListing. rewrite Hr. destruct dir as [|c dir]; [done|]. cbn [negb orb length Nat.eqb].
  set (path := c :: dir) in *. destruct (listing_bucket _ path (proj1 Hwf)) as [b Hb]. rewrite Hb. cbn [mbind option_bind].
  assert (Hl : lheld st path = List.find (fun e => RtlEqualUnicodeString (LPath e) path) (List b)) by (unfold lheld; by rewrite Hb).
  rewrite <- Hl. destruct (lheld st path) as [e|] eqn:He.
  2: { exists st, no_hit. split_and!; [done|apply listings_only_refl|done|done]. }
  unfold served. set (live := ListingCacheEntryLive _ _ _ _). destruct live; cbn [negb andb].
  2: { exists st, no_hit. split_and!; [done|apply listings_only_refl|done|done]. }
  rewrite (Z.ltb_antisym (PathCacheLifetime st)). set (stale := PathCacheLifetime st <=? _).
  destruct (negb stale || allowStale).
  2: { exists st, no_hit. split_and!; [done|apply listings_only_refl|done|done]. }
  destruct (reference_spec st (Listing e) Hwf (Hmax _) (held_refs _ _ _ Hwf He)) as (st1 & -> & Hwf1 & Hb1 & Ho1 & Hrefs).
  cbn [mbind option_bind]. destruct stale; cbn [andb].
  - eexists _, _. split; [done|]. split; [eapply listings_only_trans; [done|apply listings_only_buckets]|].
    split; [done|]. split.
    { rewrite <- Hb1 in Hb. by apply (claim_wf _ st1 path b). }
    split; [exact Hrefs|].
    intros q. etrans; [by eapply (lheld_put st); [by apply lookup_lt_Some in Hb|cbn [ListingBuckets with_ListingBuckets]; by rewrite Hb1]|].
    cbn [List]. rewrite claim_findk. unfold lheld. case_decide as Hd1.
    + rewrite Hd1, Hb. cbn [mbind option_bind]. case_bool_decide; by case_decide.
    + case_bool_decide as Hd2; [|done]. apply lbucket_fold in Hd2. by rewrite Hd2 in Hd1.
  - eexists _, _. split_and!; [done|done|done|done|done|]. intros q. unfold lheld. by rewrite Hb1.
Qed.
End Lookup.

(** ** Publication *)

Section Publish.
Context {nls : Nls} (hold : Z -> Z).
Implicit Types (st : PATH_CACHE_STATE) (dir q : PATH) (l : list LISTING_CACHE_ENTRY).

Local Abbreviation MAX := LISTING_CACHE_MAX_BYTES.
Local Abbreviation eqk dir := (fun e => RtlEqualUnicodeString (LPath e) dir).

(** In a bucket of distinct paths the last match is the first. *)
Lemma extract_last_remove dir l : uniq LPath l ->
  extract_last dir l =
    match remove_first (eqk dir) l with (l', Some e) => Some (e, l') | (_, None) => None end.
Proof.
  unfold uniq. induction l as [|e l IH]; [done|]. intros [Hx Hnd]%NoDup_cons. specialize (IH Hnd). cbn [extract_last remove_first].
  rewrite IH. pose proof (remove_first_find (eqk dir) l) as Hf.
  destruct (RtlEqualUnicodeString (LPath e) dir) eqn:He.
  - destruct (remove_first (eqk dir) l) as [l' [x|]]; [|done]. exfalso. apply Hx. cbn [snd] in Hf.
    symmetry in Hf. apply (findk_Some LPath dir) in Hf as [Hin Hxd]. apply equal_iff in He. rewrite He, <- Hxd.
    by apply (list_elem_of_fmap_2 (fun e => fold_path (LPath e))).
  - by destruct (remove_first (eqk dir) l) as [l' [x|]].
Qed.

Lemma evictions_fit bytes l : forall held,
  held - total LBytes l + bytes <= MAX -> held - total LBytes (take (evictions held bytes l) l) + bytes <= MAX.
Proof.
  induction l as [|e l IH]; intros h H; [done|]. cbn [evictions]. destruct (Z.ltb_spec MAX (h + bytes)) as [Hl|Hl].
  - cbn [take]. rewrite total_cons in H |- *. specialize (IH (h - LBytes e) ltac:(lia)). lia.
  - cbn [take]. change (total LBytes []) with 0. lia.
Qed.

Lemma evictions_none held bytes l : held + bytes <= MAX -> evictions held bytes l = O.
Proof. intros H. destruct l; [done|]. cbn [evictions]. by rewrite (proj2 (Z.ltb_ge _ _)). Qed.

Lemma charged_others st i b : listings_wf hold st -> ListingBuckets st !! i = Some b ->
  ListingBytes st = others st i + total LBytes (List b) /\ 0 <= total LBytes (List b).
Proof.
  intros [Hok Ha] Hb. unfold others. rewrite Hb. change (bytes_in b) with (total LBytes (List b)).
  split; [lia|]. apply total_nonneg. intros e He. by eapply (acc_sizes _ _ _ Ha).
Qed.

Lemma drop_head_spec st i n b :
  listings_wf hold st -> ListingBuckets st !! i = Some b ->
  exists st', drop_head st i n = Some st' /\ listings_wf hold st' /\ listings_only st st' /\ others st' i = others st i /\
    ListingBuckets st' = <[i := mkBucket (drop n (List b)) (Z.of_nat (length (drop n (List b))))]> (ListingBuckets st).
Proof.
  intros Hwf Hb. unfold drop_head. rewrite Hb. cbn [mbind option_bind].
  destruct (replace_lbucket_spec hold st i b (drop n (List b)) (take n (List b)) Hwf Hb) as (st' & -> & H1 & H2 & H3 & H4).
  - apply sublist_drop.
  - apply drop_take_perm.
  - exists st'. done.
Qed.

(** After making room only this bucket has changed, by losing its oldest
    entries; and if room for the bytes could be made, it was. *)
Lemma make_room_spec st i b bytes :
  listings_wf hold st -> ListingBuckets st !! i = Some b ->
  exists st' n b', make_room st i bytes = Some st' /\ listings_wf hold st' /\ listings_only st st' /\
    List b' = drop n (List b) /\ ListingBuckets st' = <[i := b']> (ListingBuckets st) /\
    others st' i = others st i /\
    (others st i + bytes <= MAX -> ListingBytes st' + bytes <= MAX /\ Z.of_nat (length (List b')) < LISTING_CACHE_MAX_PER_BUCKET).
Proof.
  intros Hwf Hb. unfold make_room. rewrite Hb. cbn [mbind option_bind].
  destruct (charged_others st i b Hwf Hb) as [Hby Hb0]. change (sum_bytes (List b)) with (total LBytes (List b)).
  replace (ListingBytes st - total LBytes (List b) + bytes) with (others st i + bytes) by lia.
  destruct (Z.leb_spec (others st i + bytes) MAX) as [Hfit|Hno].
  2: { exists st, 0%nat, b. rewrite drop_0, list_insert_id by done.
       split_and!; [done|done|apply listings_only_refl|done|done|done|lia]. }
  pose proof (proj2 (proj1 Hwf) _ _ Hb) as Hok. rewrite (ok_count _ _ _ _ _ Hok).
  set (m := if (LISTING_CACHE_MAX_PER_BUCKET <=? Z.of_nat (length (List b))) && negb (length (List b) =? 0)%nat then 1%nat else 0%nat).
  assert (H1 : exists st1, (if (LISTING_CACHE_MAX_PER_BUCKET <=? Z.of_nat (length (List b))) && negb (length (List b) =? 0)%nat
             then drop_head st i 1 else Some st) = Some st1 /\ listings_wf hold st1 /\ listings_only st st1 /\ others st1 i = others st i /\
             ListingBuckets st1 = <[i := mkBucket (drop m (List b)) (Z.of_nat (length (drop m (List b))))]> (ListingBuckets st)).
  { unfold m. destruct (_ && _); [by apply drop_head_spec|]. exists st. rewrite drop_0, <- (ok_count _ _ _ _ _ Hok).
    split_and!; [done..|apply listings_only_refl|done|]. rewrite list_insert_id; [done|]. rewrite Hb. by destruct b. }
  destruct H1 as (st1 & -> & Hwf1 & Ho1 & Hoth1 & Hb1). cbn [mbind option_bind].
  assert (Hi : (i < length (ListingBuckets st))%nat) by (by apply lookup_lt_Some in Hb).
  set (b1 := mkBucket _ _) in Hb1. assert (Hl1 : ListingBuckets st1 !! i = Some b1) by (by rewrite Hb1, list_lookup_insert_eq).
  rewrite Hl1. cbn [mbind option_bind]. set (n := evictions _ _ _).
  destruct (drop_head_spec st1 i n b1 Hwf1 Hl1) as (st2 & -> & Hwf2 & Ho2 & Hoth2 & Hb2).
  destruct (charged_others st1 i b1 Hwf1 Hl1) as [Hby1 _].
  eexists st2, (m + n)%nat, _. split; [done|]. split; [done|]. split; [by eapply listings_only_trans|].
  split; [|split; [rewrite Hb2, Hb1, list_insert_insert_eq; done|split; [lia|]]].
  { cbn [List b1]. by rewrite drop_drop. }
  intros _. cbn [List].
  assert (Hl2 : ListingBuckets st2 !! i = Some (mkBucket (drop n (List b1)) (Z.of_nat (length (drop n (List b1)))))).
  { rewrite Hb2. apply list_lookup_insert_eq. by rewrite Hb1, length_insert. }
  destruct (charged_others st2 i _ Hwf2 Hl2) as [Hby2 _]. cbn [List] in Hby2. split.
  - pose proof (evictions_fit bytes (List b1) (ListingBytes st1) ltac:(lia)) as Hev. fold n in Hev.
    pose proof (total_app LBytes (take n (List b1)) (drop n (List b1))) as Happ. rewrite take_drop in Happ. lia.
  - rewrite length_drop. cbn [List b1]. rewrite length_drop. pose proof (ok_max _ _ _ _ _ Hok).
    unfold m, LISTING_CACHE_MAX_PER_BUCKET in *. destruct (Z.leb_spec 8 (Z.of_nat (length (List b)))); cbn [andb]; [|lia].
    destruct (List b); cbn [length] in *; [lia|]. cbn [Nat.eqb negb]. lia.
Qed.

Lemma bytes_snoc l e c : bytes_in (mkBucket (l ++ [e]) c) = sum_bytes l + LBytes e.
Proof. change (total LBytes (l ++ [e]) = total LBytes l + LBytes e). rewrite total_app, total_cons. change (total LBytes []) with 0. lia. Qed.

Lemma charge_refused st bytes : listings_wf hold st -> 0 <= bytes < MAX_SNAPSHOT_BYTES -> MAX < ListingBytes st + bytes ->
  ListingCacheCharge st bytes = (st, false).
Proof.
  intros [Hok Ha] Hby Hgt. unfold ListingCacheCharge. rewrite (proj2 (Z.leb_gt _ _) Hgt). f_equal.
  pose proof (bytes_nonneg _ _ _ Ha). pose proof (acc_bytes _ _ _ Ha) as Hb. pose proof (acc_budget _ _ _ Ha).
  change (sum_bytes []) with 0 in Hb. unfold MAX_SNAPSHOT_BYTES, LISTING_CACHE_MAX_BYTES in *.
  cbn [ListingBytes with_ListingBytes]. rewrite (s64_id (ListingBytes st + bytes)) by lia. rewrite s64_id by lia.
  rewrite Z.add_simpl_r. by destruct st.
Qed.

Lemma link_entry_spec st i b e :
  listings_wf hold st -> ListingBuckets st !! i = Some b ->
  0 <= LBytes e < MAX_SNAPSHOT_BYTES -> 0 < hold (Listing e) <= MAX_HOLDERS ->
  Z.to_nat (ListingCacheBucket (LPath e)) = i -> findk LPath (LPath e) (List b) = None ->
  (ListingBytes st + LBytes e <= MAX -> Z.of_nat (length (List b)) < LISTING_CACHE_MAX_PER_BUCKET) ->
  exists st', link_entry st i e = Some st' /\ listings_wf hold st' /\ listings_only st st' /\
    if ListingBytes st + LBytes e <=? MAX
    then ListingBuckets st' = <[i := mkBucket (List b ++ [e]) (Count b + 1)]> (ListingBuckets st)
    else st' = st.
Proof.
  intros Hwf Hb Hby Hhold Hi Hnone Hroom. unfold link_entry.
  destruct (Z.leb_spec (ListingBytes st + LBytes e) MAX) as [Hfit|Hno].
  2: { rewrite (charge_refused st) by done. exists st. split_and!; [done..|apply listings_only_refl|done]. }
  specialize (Hroom Hfit). pose proof Hwf as [Hok Ha]. pose proof (bytes_nonneg _ _ _ Ha) as Hb0.
  pose proof Ha as [Hb1 Hm Hs Hp Hh Hr Hsm Hl]. change (sum_bytes []) with 0 in Hb1.
  unfold ListingCacheCharge. rewrite (proj2 (Z.leb_le _ _) Hfit).
  unfold LISTING_CACHE_MAX_BYTES, MAX_SNAPSHOT_BYTES, MAX_HOLDERS, LISTING_CACHE_MAX_PER_BUCKET in *. rewrite s64_id by lia.
  unfold BlorgReferenceDirectoryInfo. cbn [Snapshots with_ListingBytes].
  pose proof (Hr (Listing e)) as Hre. unfold refs_of in Hre. pose proof (lrefs_nonneg (ListingBuckets st) (Listing e)).
  pose proof (lrefs_le st (Listing e) Hok). change (refs_in (Listing e) []) with 0 in Hre.
  destruct (Snapshots st !! Listing e) as [[d r]|] eqn:Hsn; [|lia]. cbn [mbind option_bind]. rewrite s32_id by lia.
  cbn [ListingBuckets with_Snapshots with_ListingBytes]. rewrite Hb. cbn [mbind option_bind].
  pose proof (proj2 Hok _ _ Hb) as [Hc Hm' Hh' Hu]. rewrite u32_id by lia. eexists. split; [done|].
  assert (Hlr : forall p, lrefs (<[i := mkBucket (List b ++ [e]) (Count b + 1)]> (ListingBuckets st)) p =
    lrefs (ListingBuckets st) p + if Listing e =? p then 1 else 0).
  { intros p. unfold lrefs. rewrite (total_insert _ _ _ _ _ Hb). cbn [List]. unfold refs_in. rewrite total_app. cbn [total fold_right]. lia. }
  split; [split|split; [split|done]]; cbn [ListingBuckets with_ListingBuckets with_Snapshots with_ListingBytes].
  - apply listing_buckets_put; [done|]. split; cbn [List Count]; rewrite ?length_app; cbn [length].
    + lia.
    + unfold LISTING_CACHE_MAX_PER_BUCKET. lia.
    + intros x [Hx|Hx]%elem_of_app; [by apply Hh'|]. apply list_elem_of_singleton in Hx as ->. done.
    + apply uniq_snoc; [done|]. by apply findk_None.
  - split; cbn [ListingBytes ListingBuckets with_ListingBuckets with_Snapshots with_ListingBytes Snapshots]; try done.
    + rewrite (total_insert _ _ _ _ _ Hb), bytes_snoc. change (sum_bytes (List b)) with (bytes_in b). change (sum_bytes []) with 0. lia.
    + intros j bj x [(-> & <- & _)|[_ Hj]]%list_lookup_insert_Some Hx; [|by eapply Hs].
      apply elem_of_app in Hx as [Hx|Hx]; [by eapply Hs|]. apply list_elem_of_singleton in Hx as ->. lia.
    + intros p. rewrite Hlr. specialize (Hr p). change (refs_in p []) with 0 in *. unfold refs_of in *. cbn [Snapshots with_ListingBuckets with_Snapshots].
      destruct (Z.eqb_spec (Listing e) p) as [Heq|Hne]; [subst p; rewrite lookup_insert_eq; lia|].
      rewrite lookup_insert_ne by done. lia.
    + intros p. rewrite Hlr. specialize (Hsm p). change (refs_in p []) with 0 in *.
      destruct (Z.eqb_spec (Listing e) p) as [Heq|Hne]; [subst p|]; lia.
    + intros p d' r' [[<- [= <- <-]]|[_ Hq]]%lookup_insert_Some; [lia|eauto].
  - by eexists _, _, _.
  - cbn. intros p d' r' [[<- [= <- <-]]|[_ Hq]]%lookup_insert_Some; eauto.
Qed.

(** What a publication into [dir]'s bucket leaves: no entry that was not
    there or is not the new one. *)
Record published st st' dir (t : option PATH_CACHE_TICKET) (new : option LISTING_CACHE_ENTRY)
    (issueTime now generation lifetime : Z) (current : bool) : Prop := {
  pub_other : forall q e, fold_path dir <> fold_path q -> lheld st' q = Some e -> lheld st q = Some e;
  pub_refused : PathCacheTicketHonoured st t = false -> current = false /\ st' = st;
  pub_verdict : PathCacheTicketHonoured st t = true ->
    current = match lheld st dir with
              | Some e => negb (ListingCacheEntryLive e now generation lifetime && (issueTime <? LIssueTime e))
              | None => true
              end;
  pub_superseded : PathCacheTicketHonoured st t = true -> current = false -> lheld st' dir = lheld st dir;
  pub_current : current = true -> lheld st' dir = None \/ lheld st' dir = new;
  pub_kept : current = true -> forall e, new = Some e ->
    others st (Z.to_nat (ListingCacheBucket dir)) + LBytes e <= MAX -> lheld st' dir = Some e
}.

Lemma lookup_put {A} (l : list A) i x (l' : list A) : l' = <[i := x]> l -> (i < length l)%nat -> l' !! i = Some x.
Proof. intros -> H. by apply list_lookup_insert_eq. Qed.

(** The bucket with the dead entries, and [dir]'s own, taken out. *)
Lemma clear_dir_spec st dir b now generation lifetime :
  let i := Z.to_nat (ListingCacheBucket dir) in
  let live e := ListingCacheEntryLive e now generation lifetime in
  let kept := List.filter live (List b) in
  listings_wf hold st -> ListingBuckets st !! i = Some b ->
  exists st1 b1, replace_lbucket st i b kept (List.filter (fun e => negb (live e)) (List b)) = Some st1 /\
    ListingBuckets st1 !! i = Some b1 /\ listings_wf hold st1 /\ listings_only st st1 /\ others st1 i = others st i /\
    List b1 = kept /\
    (forall q, lheld st1 q = if decide (Z.to_nat (ListingCacheBucket q) = i) then findk LPath q kept else lheld st q) /\
    (forall q, Z.to_nat (ListingCacheBucket q) = i -> findk LPath q kept = e ← lheld st q; if live e then Some e else None) /\
    match extract_last dir kept with
    | None => findk LPath dir kept = None
    | Some (e, rest) => findk LPath dir kept = Some e /\
        exists st2 b2, replace_lbucket st1 i b1 rest [e] = Some st2 /\ ListingBuckets st2 !! i = Some b2 /\
          listings_wf hold st2 /\ listings_only st1 st2 /\ others st2 i = others st i /\ List b2 = rest /\
          forall q, lheld st2 q = if decide (fold_path dir = fold_path q) then None else lheld st1 q
    end.
Proof.
  intros i live kept Hwf Hb. assert (Hi : (i < length (ListingBuckets st))%nat) by (by apply lookup_lt_Some in Hb).
  pose proof (proj2 (proj1 Hwf) _ _ Hb) as Hok.
  assert (Hperm : List b ≡ₚ kept ++ List.filter (fun e => negb (live e)) (List b))
    by (rewrite (filter_perm live) at 1; apply Permutation_app_comm).
  destruct (replace_lbucket_spec hold st i b kept _ Hwf Hb (filter_sublist _ _) Hperm) as (st1 & H1 & Hwf1 & Ho1 & Hb1 & Hoth1).
  set (b1 := mkBucket kept _) in Hb1. pose proof (lookup_put _ _ _ _ Hb1 Hi) as Hl1.
  assert (Huk : uniq LPath kept) by (eapply uniq_sublist; [apply filter_sublist|apply Hok]).
  assert (Hi1 : (i < length (ListingBuckets st1))%nat) by (by apply lookup_lt_Some in Hl1).
  exists st1, b1. split_and!; try done.
  - intros q. by rewrite (lheld_put st _ _ _ _ Hi Hb1).
  - intros q Hq. unfold kept. rewrite findk_filter by apply Hok. unfold lheld. by rewrite Hq, Hb.
  - rewrite (extract_last_remove dir kept Huk).
    pose proof (remove_first_find (eqk dir) kept) as Hf. pose proof (remove_first_sublist (eqk dir) kept) as Hs.
    pose proof (remove_first_perm (eqk dir) kept) as Hp. pose proof (fun q => findk_remove LPath dir q kept Huk) as Hr.
    destruct (remove_first (eqk dir) kept) as [rest [e|]]; cbn [fst snd] in *; [|by symmetry]. split; [by symmetry|].
    destruct (replace_lbucket_spec hold st1 i b1 rest [e] Hwf1 Hl1 Hs (Hp _ _ eq_refl)) as (st2 & H2 & Hwf2 & Ho2 & Hb2 & Hoth2).
    exists st2. eexists. split; [done|]. split; [by apply (lookup_put _ _ _ _ Hb2)|]. split_and!; try done; [congruence|].
    intros q. rewrite (lheld_put st1 _ _ _ _ Hi1 Hb2). cbn [List]. rewrite Hr, (lheld_put st _ _ _ _ Hi Hb1). cbn [List b1].
    destruct (decide (Z.to_nat (ListingCacheBucket q) = i)) as [Hq|Hq]; [done|].
    case_decide as Hd; [|done]. exfalso. apply Hq. unfold i. by rewrite (lbucket_fold _ _ Hd).
Qed.

(** Making room for an entry and linking it, its path being absent. *)
Lemma store_spec st dir b e :
  let i := Z.to_nat (ListingCacheBucket dir) in
  listings_wf hold st -> ListingBuckets st !! i = Some b -> LPath e = dir ->
  0 <= LBytes e < MAX_SNAPSHOT_BYTES -> 0 < hold (Listing e) <= MAX_HOLDERS -> lheld st dir = None ->
  exists st1 st', make_room st i (LBytes e) = Some st1 /\ link_entry st1 i e = Some st' /\
    listings_wf hold st' /\ listings_only st st' /\
    (lheld st' dir = None \/ lheld st' dir = Some e) /\
    (others st i + LBytes e <= MAX -> lheld st' dir = Some e) /\
    forall q x, fold_path dir <> fold_path q -> lheld st' q = Some x -> lheld st q = Some x.
Proof.
  intros i Hwf Hb Hdir Hby Hhold Hnone. assert (Hi : (i < length (ListingBuckets st))%nat) by (by apply lookup_lt_Some in Hb).
  assert (Hfb : forall q, Z.to_nat (ListingCacheBucket q) = i -> lheld st q = findk LPath q (List b)) by (intros q Hq; unfold lheld; by rewrite Hq, Hb).
  destruct (make_room_spec st i b (LBytes e) Hwf Hb) as (st1 & n & b1 & H1 & Hwf1 & Ho1 & Hl1 & Hb1 & Hoth1 & Hroom).
  pose proof (lookup_put _ _ _ _ Hb1 Hi) as Hi1. pose proof (proj2 (proj1 Hwf) _ _ Hb) as Hok.
  assert (Hsub : List b1 `sublist_of` List b) by (rewrite Hl1; apply sublist_drop).
  assert (Hn1 : findk LPath dir (List b1) = None).
  { destruct (findk LPath dir (List b1)) as [x|] eqn:Hx; [|done].
    pose proof (findk_sublist _ _ _ _ _ (ok_uniq _ _ _ _ _ Hok) Hsub Hx). rewrite Hfb in Hnone by done. congruence. }
  destruct (charged_others st1 i b1 Hwf1 Hi1) as [Hch Hpos].
  destruct (link_entry_spec st1 i b1 e Hwf1 Hi1 Hby Hhold) as (st' & H2 & Hwf' & Ho' & Hst'); [by rewrite Hdir|by rewrite Hdir|..].
  { intros Hfit. destruct (decide (others st i + LBytes e <= MAX)) as [Hd|Hd]; [by apply Hroom|].
    exfalso. apply Hd. rewrite <- Hoth1. lia. }
  assert (Hq1 : forall q x, lheld st1 q = Some x -> lheld st q = Some x).
  { intros q x. rewrite (lheld_put st _ _ _ _ Hi Hb1). case_decide as Hd; [|done]. intros Hx. rewrite Hfb by done.
    by apply (findk_sublist _ _ _ _ _ (ok_uniq _ _ _ _ _ Hok) Hsub). }
  assert (Hd1 : lheld st1 dir = None) by (rewrite (lheld_put st _ _ _ _ Hi Hb1); by rewrite decide_True).
  exists st1, st'. split_and!; [done|done|done|by eapply listings_only_trans|..]; destruct (Z.leb_spec (ListingBytes st1 + LBytes e) MAX) as [Hfit|Hno].
  - right. rewrite (lheld_put st1 _ _ _ _ ltac:(by apply lookup_lt_Some in Hi1) Hst'), decide_True by done. cbn [List].
    rewrite findk_snoc, Hn1, Hdir. by rewrite equal_refl.
  - left. by subst st'.
  - intros _. rewrite (lheld_put st1 _ _ _ _ ltac:(by apply lookup_lt_Some in Hi1) Hst'), decide_True by done. cbn [List].
    rewrite findk_snoc, Hn1, Hdir. by rewrite equal_refl.
  - intros Hfit. apply Hroom in Hfit as [? _]. lia.
  - intros q x Hq. rewrite (lheld_put st1 _ _ _ _ ltac:(by apply lookup_lt_Some in Hi1) Hst'). case_decide as Hd; [|apply Hq1].
    cbn [List]. rewrite findk_snoc, Hdir.
    assert (Hne : RtlEqualUnicodeString dir q = false) by (rewrite <- not_true_iff_false, equal_iff; done). rewrite Hne.
    intros Hx. apply Hq1. unfold lheld. rewrite Hd, Hi1. cbn [mbind option_bind]. by destruct (findk LPath q (List b1)).
  - subst st'. intros q x _. apply Hq1.
Qed.

Lemma publish_store st st2 b2 dir t new bytes issueTime now generation lifetime :
  let i := Z.to_nat (ListingCacheBucket dir) in
  listings_wf hold st2 -> ListingBuckets st2 !! i = Some b2 -> listings_only st st2 ->
  lheld st2 dir = None -> others st2 i = others st i -> (forall q x, lheld st2 q = Some x -> lheld st q = Some x) ->
  PathCacheTicketHonoured st t = true ->
  true = match lheld st dir with
         | Some e => negb (ListingCacheEntryLive e now generation lifetime && (issueTime <? LIssueTime e))
         | None => true
         end ->
  (forall e, new = Some e -> LPath e = dir /\ LBytes e = bytes /\ 0 <= bytes < MAX_SNAPSHOT_BYTES /\ 0 < hold (Listing e) <= MAX_HOLDERS) ->
  exists st' current,
    match new with
    | Some e => st1 ← make_room st2 i bytes; st' ← link_entry st1 i e; Some (st', true)
    | None => Some (st2, true)
    end = Some (st', current) /\
    listings_wf hold st' /\ listings_only st st' /\ published st st' dir t new issueTime now generation lifetime current.
Proof.
  intros i Hwf2 Hl2 Ho2 Hnone Hoth Hsub Ht Hver Hnew. destruct new as [e|].
  - destruct (Hnew e eq_refl) as (Hp & <- & Hby & Hhold).
    destruct (store_spec st2 dir b2 e Hwf2 Hl2 Hp Hby Hhold Hnone) as (st1 & st' & H1 & H2 & Hwf' & Ho' & Hd & Hk & Hq).
    unfold i in *. rewrite H1. cbn [mbind option_bind]. rewrite H2. cbn [mbind option_bind].
    exists st', true. split_and!; [done|done|by eapply listings_only_trans|]. split; try done.
    + intros q x Hne Hx. apply Hsub. by eapply Hq.
    + congruence.
    + intros _ e' [= <-] Hfit. apply Hk. by rewrite Hoth.
  - exists st2, true. split_and!; try done. split; try done; [by eauto|congruence|by left].
Qed.

Lemma publish_locked_spec st dir t new bytes issueTime now generation lifetime :
  listings_wf hold st ->
  (forall e, new = Some e -> LPath e = dir /\ LBytes e = bytes /\ 0 <= bytes < MAX_SNAPSHOT_BYTES /\ 0 < hold (Listing e) <= MAX_HOLDERS) ->
  exists st' current, publish_locked st dir t new bytes issueTime now generation lifetime = Some (st', current) /\
    listings_wf hold st' /\ listings_only st st' /\ published st st' dir t new issueTime now generation lifetime current.
Proof.
  intros Hwf Hnew. unfold publish_locked. destruct (listing_bucket _ dir (proj1 Hwf)) as [b Hb]. rewrite Hb. cbn [mbind option_bind].
  destruct (PathCacheTicketHonoured st t) eqn:Ht; cbn [negb].
  2: { exists st, false. split_and!; [done..|apply listings_only_refl|]. by split; rewrite ?Ht. }
  destruct (clear_dir_spec st dir b now generation lifetime Hwf Hb) as (st1 & b1 & -> & Hl1 & Hwf1 & Ho1 & Hoth1 & Hk1 & Hq1 & Hf1 & Hex).
  cbn [mbind option_bind]. rewrite Hl1. cbn [mbind option_bind]. set (kept := List.filter _ _) in *.
  assert (Hsub1 : forall q x, lheld st1 q = Some x -> lheld st q = Some x).
  { intros q x. rewrite Hq1. case_decide as Hd; [|done]. rewrite (Hf1 q Hd). destruct (lheld st q) as [y|]; [|done]. cbn.
    destruct (ListingCacheEntryLive y now generation lifetime); congruence. }
  assert (Hdir1 : lheld st1 dir = findk LPath dir kept) by (rewrite Hq1; by rewrite decide_True).
  specialize (Hf1 dir eq_refl). destruct (extract_last dir kept) as [[e rest]|].
  - destruct Hex as (Hfe & st2 & b2 & H2 & Hl2 & Hwf2 & Ho2 & Hoth2 & Hk2 & Hq2). rewrite Hfe in Hf1.
    symmetry in Hf1. apply bind_Some in Hf1 as (e' & Hh & Hlive). destruct (ListingCacheEntryLive e' now generation lifetime) eqn:Hlv; [|done].
    injection Hlive as ->. destruct (issueTime <? LIssueTime e) eqn:Hlt.
    + assert (Hpub : published st st1 dir t new issueTime now generation lifetime false).
      { split; rewrite ?Hh, ?Hlv, ?Hlt, ?Ht; try done; [by eauto|]. intros _ _. by rewrite Hdir1, Hfe. }
      cbn [mbind option_bind]. destruct new; cbn [negb]; by exists st1, false.
    + rewrite H2. cbn [mbind option_bind]. cbn [negb]. rewrite <- Hoth1 in Hoth2.
      eapply (publish_store st st2 b2); try done.
      * by eapply listings_only_trans.
      * by rewrite Hq2, decide_True.
      * congruence.
      * intros q x. rewrite Hq2. case_decide; [done|]. apply Hsub1.
      * by rewrite Hh, Hlv, Hlt.
  - cbn [mbind option_bind]. cbn [negb]. eapply (publish_store st st1 b1); try done.
    + by rewrite Hdir1.
    + rewrite Hex in Hf1. destruct (lheld st dir) as [e|]; [|done]. cbn in Hf1.
      by destruct (ListingCacheEntryLive e now generation lifetime).
Qed.
End Publish.
