(* ===== verification/PathCacheSystem.v ===== *)
(** * The caches as a whole

    The invariant of both caches, what each exported operation does to it and
    to the answers, and the step relation of the cache's clients. *)

From S2P Require Import Prelude UnicodePath PathCache PathCacheOps PathCacheListings PathCachePublish.

Section System.
Context {nls : Nls}.
Implicit Types (st : PATH_CACHE_STATE) (hold : Z -> Z) (p q dir path : PATH).

Record cache_wf hold st : Prop := {
  wf_paths : paths_wf st;
  wf_listings : listings_wf hold st;
  wf_snaps : snaps_ok st
}.

(** The rest of the state, which neither kind of step touches. *)
Definition same_globals st st' : Prop :=
  Ready st' = Ready st /\ CacheGeneration st' = CacheGeneration st /\ ChangeFeedLive st' = ChangeFeedLive st /\ Sequence st' = Sequence st.

Lemma paths_only_globals st st' : paths_only st st' ->
  same_globals st st' /\ ListingBuckets st' = ListingBuckets st /\ Snapshots st' = Snapshots st.
Proof. by intros (bs & c & ->). Qed.

Lemma listings_only_globals st st' : listings_only st st' -> same_globals st st' /\ Buckets st' = Buckets st.
Proof. by intros [(bs & n & sn & ->) _]. Qed.

Lemma paths_only_lheld st st' q : paths_only st st' -> lheld st' q = lheld st q.
Proof. by intros (bs & c & ->). Qed.

Lemma listings_only_held st st' q : listings_only st st' -> held st' q = held st q.
Proof. by intros [(bs & n & sn & ->) _]. Qed.

Lemma paths_only_wf hold st st' : cache_wf hold st -> paths_only st st' -> paths_wf st' -> cache_wf hold st'.
Proof. intros [Hp [Hok Ha] Hs] (bs & c & ->) Hp'. split; [done| |done]. split; [done|]. destruct Ha. by split. Qed.

Lemma listings_only_wf hold hold' st st' : cache_wf hold st -> listings_only st st' -> listings_wf hold' st' -> cache_wf hold' st'.
Proof.
  intros [Hp Hl Hs] Ho Hl'. split; [|done|by eapply snaps_ok_only].
  destruct Ho as [(bs & n & sn & ->) _]. done.
Qed.

Lemma advance_wf hold st : cache_wf hold st -> cache_wf hold (PathCacheAdvanceSequence st).
Proof. intros [Hp [Hok Ha] Hs]. split; [done| |done]. split; [done|]. destruct Ha. by split. Qed.

Lemma generation_wf hold st g : cache_wf hold st -> cache_wf hold (with_Generation st g).
Proof. intros [Hp [Hok Ha] Hs]. split; [done| |done]. split; [done|]. destruct Ha. by split. Qed.

Lemma feed_wf hold st x : cache_wf hold st -> cache_wf hold (with_ChangeFeedLive st x).
Proof. intros [Hp [Hok Ha] Hs]. split; [done| |done]. split; [done|]. destruct Ha. by split. Qed.

Lemma same_globals_refl st : same_globals st st.
Proof. done. Qed.

Lemma same_globals_trans st1 st2 st3 : same_globals st1 st2 -> same_globals st2 st3 -> same_globals st1 st3.
Proof. unfold same_globals. naive_solver congruence. Qed.

(** ** Invalidation *)

Definition invalidated st st' (drops : PATH -> bool) (ldrops : PATH -> bool) : Prop :=
  Sequence st' = s64 (Sequence st + 1) /\ Ready st' = Ready st /\ ChangeFeedLive st' = ChangeFeedLive st /\
  (forall q, held st' q = e ← held st q; if drops (EntryPath e) then None else Some e) /\
  (forall q, lheld st' q = e ← lheld st q; if ldrops (LPath e) then None else Some e).

Lemma held_key st q e : held st q = Some e -> fold_path (EntryPath e) = fold_path q.
Proof. intros (b & _ & He)%bind_Some. by apply findk_Some in He as [_ ?]. Qed.

Lemma lheld_key st q e : lheld st q = Some e -> fold_path (LPath e) = fold_path q.
Proof. intros (b & _ & He)%bind_Some. by apply findk_Some in He as [_ ?]. Qed.

(** The listing of the directory a path sits in. *)
Definition is_parent path q : bool := bool_decide (fold_path <$> PathCacheParent path = Some (fold_path q)).

Lemma invalidate_spec hold st path :
  cache_wf hold st -> Ready st = true -> path <> [] ->
  exists st', BlorgPathCacheInvalidate st path = Some st' /\ cache_wf hold st' /\ CacheGeneration st' = CacheGeneration st /\
    invalidated st st' (RtlEqualUnicodeString path) (fun q => RtlEqualUnicodeString path q || is_parent path q).
Proof.
  intros Hwf Hr Hp. unfold BlorgPathCacheInvalidate. rewrite Hr. destruct path as [|c path0]; [done|]. cbn [negb orb length Nat.eqb].
  set (path := c :: path0) in *. pose proof (advance_wf _ _ Hwf) as Hwf0.
  destruct (drop_spec (PathCacheAdvanceSequence st) path (wf_paths _ _ Hwf0)) as (Hp1 & Ho1 & Hh1).
  pose proof (paths_only_wf _ _ _ Hwf0 Ho1 Hp1) as Hwf1. set (st1 := drop_locked _ _) in *.
  destruct (listing_drop_spec hold st1 path (wf_listings _ _ Hwf1)) as (st2 & -> & Hl2 & Ho2 & Hh2). cbn [mbind option_bind].
  pose proof (listings_only_wf _ _ _ _ Hwf1 Ho2 Hl2) as Hwf2.
  destruct (listing_drop_parent_spec hold st2 path Hl2) as (st3 & -> & Hl3 & Ho3 & Hh3).
  exists st3. split; [done|]. split; [by eapply listings_only_wf|].
  pose proof (paths_only_globals _ _ Ho1) as [(? & ? & ? & ?) _]. pose proof (listings_only_globals _ _ Ho2) as [(? & ? & ? & ?) _].
  pose proof (listings_only_globals _ _ Ho3) as [(? & ? & ? & ?) _]. cbn in *.
  split; [congruence|]. split_and!; [congruence..| |].
  - intros q. rewrite (listings_only_held _ _ _ Ho3), (listings_only_held _ _ _ Ho2), Hh1. change (held (PathCacheAdvanceSequence st) q) with (held st q).
    destruct (held st q) as [e|] eqn:He; [|by case_decide]. cbn. apply held_key in He.
    unfold RtlEqualUnicodeString. rewrite He. case_bool_decide; by case_decide.
  - intros q. rewrite Hh3, Hh2, (paths_only_lheld _ _ _ Ho1). change (lheld (PathCacheAdvanceSequence st) q) with (lheld st q).
    destruct (lheld st q) as [e|] eqn:He; [|by repeat case_decide]. cbn. apply lheld_key in He.
    unfold RtlEqualUnicodeString, is_parent. rewrite He. do 2 case_bool_decide; repeat case_decide; done.
Qed.

Lemma invalidate_prefix_spec hold st dir :
  cache_wf hold st -> Ready st = true -> dir <> [] ->
  exists st', BlorgPathCacheInvalidatePrefix st dir = Some st' /\ cache_wf hold st' /\ CacheGeneration st' = CacheGeneration st /\
    invalidated st st' (PathCacheIsUnder dir) (fun q => PathCacheIsUnder dir q || is_parent dir q).
Proof.
  intros Hwf Hr Hp. unfold BlorgPathCacheInvalidatePrefix. rewrite Hr. destruct dir as [|c dir0]; [done|]. cbn [negb orb length Nat.eqb].
  set (dir := c :: dir0) in *. pose proof (advance_wf _ _ Hwf) as Hwf0.
  destruct (invalidate_under_spec (PathCacheAdvanceSequence st) dir false false (wf_paths _ _ Hwf0)) as (Hp1 & Ho1 & Hh1).
  pose proof (paths_only_wf _ _ _ Hwf0 Ho1 Hp1) as Hwf1. set (st1 := PathCacheInvalidateUnder _ _ _ _) in *.
  destruct (lsweep_all_spec hold (fun e => PathCacheIsUnder dir (LPath e)) st1 (wf_listings _ _ Hwf1)) as (st2 & H2 & Hl2 & Ho2 & _ & Hh2).
  unfold ListingCacheDropUnder. rewrite H2. cbn [mbind option_bind].
  pose proof (listings_only_wf _ _ _ _ Hwf1 Ho2 Hl2) as Hwf2.
  destruct (listing_drop_parent_spec hold st2 dir Hl2) as (st3 & -> & Hl3 & Ho3 & Hh3).
  exists st3. split; [done|]. split; [by eapply listings_only_wf|].
  pose proof (paths_only_globals _ _ Ho1) as [(? & ? & ? & ?) _]. pose proof (listings_only_globals _ _ Ho2) as [(? & ? & ? & ?) _].
  pose proof (listings_only_globals _ _ Ho3) as [(? & ? & ? & ?) _]. cbn in *.
  split; [congruence|]. split_and!; [congruence..| |].
  - intros q. rewrite (listings_only_held _ _ _ Ho3), (listings_only_held _ _ _ Ho2), Hh1.
    change (held (PathCacheAdvanceSequence st) q) with (held st q).
    destruct (held st q) as [e|]; [|done]. cbn. unfold swept_under. cbn [andb negb]. by rewrite !andb_true_r.
  - intros q. rewrite Hh3, Hh2, (paths_only_lheld _ _ _ Ho1). change (lheld (PathCacheAdvanceSequence st) q) with (lheld st q).
    destruct (lheld st q) as [e|] eqn:He; [|by case_decide]. cbn. apply lheld_key in He. unfold is_parent. rewrite He.
    destruct (PathCacheIsUnder dir (LPath e)); cbn [orb]; repeat case_decide; repeat case_bool_decide; done.
Qed.

Lemma invalidate_all_spec hold st :
  cache_wf hold st -> Ready st = true ->
  exists st', BlorgPathCacheInvalidateAll st = Some st' /\ cache_wf hold st' /\
    CacheGeneration st' = s32 (CacheGeneration st + 1) /\ ListingBytes st' = 0 /\
    invalidated st st' (fun _ => false) (fun _ => true).
Proof.
  intros Hwf Hr. unfold BlorgPathCacheInvalidateAll. cbn [Ready with_Generation PathCacheAdvanceSequence with_Sequence CacheGeneration].
  rewrite Hr. set (st1 := with_Generation _ _).
  assert (Hwf1 : cache_wf hold st1) by (apply generation_wf, advance_wf, Hwf).
  destruct (lsweep_all_spec hold (fun _ => true) st1 (wf_listings _ _ Hwf1)) as (st2 & H2 & Hl2 & Ho2 & _ & Hh2).
  unfold ListingCacheDropUnder. rewrite H2. exists st2. split; [done|]. split; [by eapply listings_only_wf|].
  pose proof (listings_only_globals _ _ Ho2) as [(? & ? & ? & ?) _]. cbn in *. split; [congruence|]. split.
  - rewrite (acc_bytes _ _ _ (proj2 Hl2)). change (sum_bytes []) with 0. rewrite Z.add_0_r.
    assert (Hz : forall b, b ∈ ListingBuckets st2 -> bytes_in b = 0).
    { intros b [i Hi]%list_elem_of_lookup. destruct (List b) as [|e l] eqn:Hl; [unfold bytes_in; by rewrite Hl|].
      pose proof (proj2 (proj1 Hl2) _ _ Hi) as Hok. exfalso.
      assert (He : e ∈ List b) by (rewrite Hl; left). specialize (Hh2 (LPath e)). unfold lheld in Hh2 at 1.
      rewrite (ok_hash _ _ _ _ _ Hok _ He), Hi in Hh2. cbn [mbind option_bind] in Hh2.
      rewrite (findk_uniq _ _ _ e (ok_uniq _ _ _ _ _ Hok) He eq_refl) in Hh2. by destruct (lheld st1 (LPath e)). }
    clear -Hz. induction (ListingBuckets st2) as [|b bs IH]; [done|]. rewrite total_cons, (Hz b) by left.
    rewrite IH; [done|]. intros x Hx. apply Hz. by right.
  - split_and!; [congruence..| |].
    + intros q. rewrite (listings_only_held _ _ _ Ho2). change (held st1 q) with (held st q). by destruct (held st q).
    + intros q. rewrite Hh2. by change (lheld st1 q) with (lheld st q).
Qed.

(** ** Publication *)

Definition publish_refused st dir (info : DIRECTORY_INFO) : bool :=
  negb (Ready st) || (length dir =? 0)%nat || (PATH_CACHE_MAX_PATH_BYTES <? path_bytes dir) || InfoNoStore info.

Definition publish_entry st dir (listing : Z) (info : DIRECTORY_INFO) (t : option PATH_CACHE_TICKET) (now : Z) : LISTING_CACHE_ENTRY :=
  mkLEntry dir listing (ListingCacheSizeOf info) (match t with Some t => TicketIssueTime t | None => now end)
    (match t with Some t => TicketSequence t | None => Sequence st end) (u32 (CacheGeneration st)) false.

Definition live_listing st now (e : LISTING_CACHE_ENTRY) : bool :=
  ListingCacheEntryLive e now (CacheGeneration st) (PathCacheLifetime st).

(** What a publication does, [e] being the entry it would make. *)
Record publish_result st st' dir (e : LISTING_CACHE_ENTRY) (t : option PATH_CACHE_TICKET) (allocOk : bool) (now : Z) (current : bool) : Prop := {
  pr_verdict : current = PathCacheTicketHonoured st t &&
    match lheld st dir with Some x => negb (live_listing st now x && (LIssueTime e <? LIssueTime x)) | None => true end;
  pr_only : forall q x, lheld st' q = Some x -> lheld st q = Some x \/ (current = true /\ allocOk = true /\ fold_path dir = fold_path q /\ x = e);
  pr_superseded : PathCacheTicketHonoured st t = true -> current = false -> lheld st' dir = lheld st dir;
  pr_replaced : current = true -> forall x, lheld st' dir = Some x -> x = e;
  pr_kept : current = true -> allocOk = true ->
    others st (Z.to_nat (ListingCacheBucket dir)) + LBytes e <= LISTING_CACHE_MAX_BYTES -> lheld st' dir = Some e
}.

Lemma reap_spec hold st now (b : bool) :
  listings_wf hold st ->
  exists st1, (if b then ListingCacheReapDead st now (CacheGeneration st) (PathCacheLifetime st) else Some st) = Some st1 /\
    listings_wf hold st1 /\ listings_only st st1 /\ (forall j, others st1 j <= others st j) /\
    (forall q x, lheld st1 q = Some x -> lheld st q = Some x) /\
    forall q x, lheld st q = Some x -> live_listing st now x = true -> lheld st1 q = Some x.
Proof.
  intros Hwf. destruct b.
  - destruct (lsweep_all_spec hold (fun e => negb (ListingCacheEntryLive e now (CacheGeneration st) (PathCacheLifetime st))) st Hwf)
      as (st1 & H1 & Hwf1 & Ho & Hj & Hh). exists st1. split_and!; try done.
    + intros q x. rewrite Hh. destruct (lheld st q) as [y|]; [|done]. cbn. by destruct (ListingCacheEntryLive y _ _ _).
    + intros q x Hx Hl. rewrite Hh, Hx. cbn. unfold live_listing in Hl. by rewrite Hl.
  - exists st. split_and!; try done. apply listings_only_refl.
Qed.

Lemma snapshot_size hold st (p : Z) : cache_wf hold st -> 0 < hold p ->
  exists info r, Snapshots st !! p = Some (info, r) /\ ListingCacheSizeOf info = InfoBytes info /\ 0 <= InfoBytes info < MAX_SNAPSHOT_BYTES.
Proof.
  intros Hwf Hp. pose proof (acc_refs _ _ _ (proj2 (wf_listings _ _ Hwf)) p) as Hr. unfold refs_of in Hr.
  pose proof (lrefs_nonneg (ListingBuckets st) p). change (refs_in p []) with 0 in Hr.
  destruct (Snapshots st !! p) as [[info r]|] eqn:Hs; [|lia]. exists info, r.
  pose proof (wf_snaps _ _ Hwf _ _ _ Hs) as Hb. split_and!; try done; [|lia..].
  unfold ListingCacheSizeOf. apply s64_id. unfold MAX_SNAPSHOT_BYTES in Hb. lia.
Qed.

Lemma publish_spec hold st dir listing t allocOk now :
  cache_wf hold st -> 0 < hold listing <= MAX_HOLDERS ->
  exists st' current info r, BlorgPathCachePublishListing st dir listing t allocOk now = Some (st', current) /\
    Snapshots st !! listing = Some (info, r) /\ cache_wf hold st' /\ listings_only st st' /\
    if publish_refused st dir info then st' = st /\ current = false
    else publish_result st st' dir (publish_entry st dir listing info t now) t allocOk now current.
Proof.
  intros Hwf Hh. destruct (snapshot_size hold st listing Hwf ltac:(lia)) as (info & r & Hs & Hsz & Hb).
  unfold BlorgPathCachePublishListing. rewrite Hs. cbn [mbind option_bind].
  destruct (publish_refused st dir info) eqn:Href; unfold publish_refused in Href; rewrite Href.
  { exists st, false, info, r. split_and!; try done; [apply listings_only_refl|unfold publish_refused; by rewrite Href]. }
  destruct (reap_spec hold st now (allocOk && (LISTING_CACHE_MAX_BYTES <? ListingBytes st + ListingCacheSizeOf info)) (wf_listings _ _ Hwf))
    as (st1 & -> & Hwf1 & Ho1 & Hj1 & Hsub1 & Hkeep1). cbn [mbind option_bind].
  pose proof (listings_only_globals _ _ Ho1) as [(HR & HG & HF & HQ) _].
  set (e := publish_entry st dir listing info t now).
  replace (mkLEntry dir listing _ _ _ _ false) with e by (unfold e, publish_entry; by rewrite HQ).
  destruct (publish_locked_spec hold st1 dir t (if allocOk then Some e else None) (ListingCacheSizeOf info) (LIssueTime e) now
    (CacheGeneration st) (PathCacheLifetime st)) as (st2 & current & Hpub & Hwf2 & Ho2 & HP); [done| |].
  { intros e' He'. destruct allocOk; [|done]. injection He' as <-. rewrite Hsz. split_and!; try done; cbn; lia. }
  cbn in Hpub. rewrite Hpub.
  exists st2, current, info, r. pose proof (listings_only_trans _ _ _ Ho1 Ho2) as Ho.
  split_and!; try done; [by eapply listings_only_wf|]. unfold publish_refused; rewrite Href. destruct HP as [P1 P2 P3 P4 P5 P6].
  assert (Hhon : PathCacheTicketHonoured st1 t = PathCacheTicketHonoured st t) by (destruct t; cbn; by rewrite ?HQ).
  rewrite Hhon in *.
  assert (Hver : current = PathCacheTicketHonoured st t &&
    match lheld st dir with Some x => negb (live_listing st now x && (LIssueTime e <? LIssueTime x)) | None => true end).
  { destruct (PathCacheTicketHonoured st t); [|by apply P2]. cbn [andb]. rewrite P3 by done.
    destruct (lheld st dir) as [x|] eqn:Hx.
    - destruct (live_listing st now x) eqn:Hl; [by rewrite (Hkeep1 dir x Hx Hl), <- Hl|].
      destruct (lheld st1 dir) as [y|] eqn:Hy; [|done]. apply Hsub1 in Hy. rewrite Hx in Hy. injection Hy as <-.
      unfold live_listing in Hl. by rewrite Hl.
    - destruct (lheld st1 dir) as [y|] eqn:Hy; [|done]. apply Hsub1 in Hy. congruence. }
  split; [done|..].
  - intros q x Hx. destruct (decide (fold_path dir = fold_path q)) as [Hd|Hd]; [|left; apply Hsub1; by eapply P1].
    assert (Hx' : lheld st2 dir = Some x).
    { rewrite <- Hx. unfold lheld. rewrite (lbucket_fold _ _ Hd). destruct (ListingBuckets st2 !! _); [|done]. cbn. by apply findk_fold. }
    assert (Hq1 : lheld st1 dir = lheld st1 q).
    { unfold lheld. rewrite (lbucket_fold _ _ Hd). destruct (ListingBuckets st1 !! _); [|done]. cbn. by apply findk_fold. }
    destruct current.
    + destruct (P5 eq_refl) as [P|P]; [congruence|]. rewrite P in Hx'. destruct allocOk; [|done]. injection Hx' as <-. by right.
    + left. apply Hsub1. rewrite <- Hq1. destruct (PathCacheTicketHonoured st t); [by rewrite <- P4|]. destruct P2 as [_ <-]; done.
  - intros Ht Hc. rewrite (P4 Ht Hc). rewrite Hc, Ht in Hver. cbn [andb] in Hver. destruct (lheld st dir) as [x|] eqn:Hx; [|done].
    destruct (live_listing st now x) eqn:Hl; [|done]. by apply Hkeep1.
  - intros Hc x Hx. destruct (P5 Hc) as [P|P]; [congruence|]. rewrite P in Hx. destruct allocOk; [by injection Hx|done].
  - intros Hc -> Hfit. apply (P6 Hc e eq_refl). specialize (Hj1 (Z.to_nat (ListingCacheBucket dir))). fold e in Hfit. lia.
Qed.
End System.
