(* ===== verification/PathCacheSeed.v ===== *)
(** * Seeding the path cache from a listing *)

From S2P Require Import Prelude UnicodePath PathCache ListingIndex PathCacheOps.

Section Seed.
Context {nls : Nls}.
Implicit Types (st : PATH_CACHE_STATE) (dir name q : PATH) (l : list (PATH * DIRECTORY_ENTRY_METADATA)).

(** The last pair of [l] with the name. *)
Definition latest l name : option DIRECTORY_ENTRY_METADATA :=
  snd <$> List.find (fun x => RtlEqualUnicodeString x.1 name) (reverse l).

Lemma latest_snoc l n m name : latest (l ++ [(n, m)]) name = if RtlEqualUnicodeString n name then Some m else latest l name.
Proof. unfold latest. rewrite reverse_snoc. cbn. by destruct (RtlEqualUnicodeString n name). Qed.

Lemma latest_elem l name m : latest l name = Some m -> fold_path name ∈ (fun x => fold_path x.1) <$> l.
Proof.
  unfold latest. intros (x & Hf & ->)%fmap_Some. apply List.find_some in Hf as [Hin He].
  apply equal_iff in He. rewrite <- He. apply (list_elem_of_fmap_2 (fun x => fold_path x.1)).
  by apply elem_of_reverse, list_elem_of_In.
Qed.

Lemma component_fold name n : fold_path name = fold_path n -> PathCacheIsComponent name = PathCacheIsComponent n.
Proof.
  intros H. unfold PathCacheIsComponent. rewrite (fold_eq_length _ _ H).
  assert (Hs : SEP ∈ name <-> SEP ∈ n) by (rewrite <- (fold_sep_elem name), <- (fold_sep_elem n), H; done). by rewrite (bool_decide_ext _ _ Hs).
Qed.

Lemma child_fold D n name : fold_path (D ++ n) = fold_path (D ++ name) <-> fold_path n = fold_path name.
Proof. rewrite !fold_app. split; [apply app_inv_head|by intros ->]. Qed.

(** What the children's entries say after the pairs [done_] are in. *)
Definition seeded st D (done_ : list (PATH * DIRECTORY_ENTRY_METADATA)) : Prop :=
  forall name e, PathCacheIsComponent name = true -> held st (D ++ name) = Some e ->
    Exists e = true /\ latest done_ name = Some (Meta e) /\ path_bytes (D ++ name) <= PATH_CACHE_MAX_PATH_BYTES.

Lemma path_bytes_app D n : path_bytes (D ++ n) = path_bytes D + 2 * Z.of_nat (length n).
Proof. unfold path_bytes. rewrite length_app. lia. Qed.

Lemma seed_entry_spec st D done_ n m t allocOk now :
  paths_wf st -> Ready st = true -> PathCacheTicketHonoured st t = true -> NoStore m = false ->
  seeded st D done_ -> allocOk = true \/ fold_path n ∉ ((fun x => fold_path x.1) <$> done_) ->
  let st' := PathCacheSeedEntry st D n m t allocOk now in
  paths_wf st' /\ paths_only st st' /\ seeded st' D (done_ ++ [(n, m)]).
Proof.
  intros Hwf Hr Ht Hns Hs Hok. unfold PathCacheSeedEntry.
  destruct (PathCacheIsComponent n) eqn:Hn; cbn [negb orb].
  2: { split_and!; [done|apply paths_only_refl|]. intros name e Hc He. rewrite latest_snoc.
       destruct (RtlEqualUnicodeString n name) eqn:Heq; [|by apply Hs].
       apply equal_iff, component_fold in Heq. congruence. }
  rewrite <- path_bytes_app. destruct (Z.ltb_spec PATH_CACHE_MAX_PATH_BYTES (path_bytes (D ++ n))) as [Hlong|Hshort].
  { split_and!; [done|apply paths_only_refl|]. intros name e Hc He. rewrite latest_snoc.
    destruct (Hs _ _ Hc He) as (H1 & H2 & H3). destruct (RtlEqualUnicodeString n name) eqn:Heq; [|done].
    apply equal_iff, fold_eq_length in Heq. rewrite path_bytes_app in *. rewrite Heq in Hlong. lia. }
  destruct (insert_wf st (D ++ n) true (Some m) t allocOk now Hwf) as [Hwf' Ho']. split_and!; [done|done|].
  assert (Hne : (length (D ++ n) =? 0)%nat = false).
  { apply Nat.eqb_neq. rewrite length_app. unfold PathCacheIsComponent in Hn. destruct n; [done|]. cbn. lia. }
  destruct allocOk.
  - destruct (insert_held st (D ++ n) true (Some m) t true now Hwf) as [(x & Hx & Hans) Hoth]; [|done|].
    { unfold insert_refused. rewrite Hr, Hne, Hns, (proj2 (Z.ltb_ge _ _)) by done. done. }
    intros name e Hc He. rewrite latest_snoc. destruct (RtlEqualUnicodeString n name) eqn:Heq.
    + apply equal_iff in Heq. rewrite <- (held_fold _ (D ++ n)) in He by (by apply child_fold). rewrite Hx in He. injection He as <-.
      split_and!; [by rewrite (ans_exists _ _ _ Hans)|by rewrite (ans_meta _ _ _ Hans m eq_refl eq_refl)|].
      rewrite path_bytes_app in *. by rewrite <- (fold_eq_length _ _ Heq).
    + apply Hs; [done|]. apply Hoth; [|done]. rewrite child_fold. rewrite <- not_true_iff_false, equal_iff in Heq. done.
  - destruct Hok as [|Hok]; [done|]. rewrite insert_refuses by (left; unfold insert_refused; by rewrite !orb_true_r).
    intros name e Hc He. rewrite latest_snoc. destruct (Hs _ _ Hc He) as (H1 & H2 & H3).
    destruct (RtlEqualUnicodeString n name) eqn:Heq; [|done]. apply equal_iff in Heq. exfalso. apply Hok.
    rewrite Heq. by eapply latest_elem.
Qed.

Lemma ticket_only st st' t : paths_only st st' -> PathCacheTicketHonoured st' t = PathCacheTicketHonoured st t.
Proof. by intros (bs & c & ->). Qed.
Lemma ready_only st st' : paths_only st st' -> Ready st' = Ready st.
Proof. by intros (bs & c & ->). Qed.

Lemma seed_loop_spec D t env l : forall st done_ k,
  paths_wf st -> Ready st = true -> PathCacheTicketHonoured st t = true ->
  Forall (fun x => NoStore x.2 = false) l -> seeded st D done_ ->
  (forall k, (env k).1 = true) \/ NoDup ((fun x => fold_path x.1) <$> done_ ++ l) ->
  let st' := seed_loop st D l t env k in
  paths_wf st' /\ paths_only st st' /\ seeded st' D (done_ ++ l).
Proof.
  induction l as [|[n m] l IH]; intros st done_ k Hwf Hr Ht Hns Hs Hok; cbn [seed_loop].
  - rewrite app_nil_r. split_and!; [done|apply paths_only_refl|done].
  - apply Forall_cons in Hns as [Hm Hns].
    destruct (seed_entry_spec st D done_ n m t (env k).1 (env k).2 Hwf Hr Ht Hm Hs) as (Hwf1 & Ho1 & Hs1).
    { destruct Hok as [Hok|Hok]; [by left|]. right. rewrite fmap_app in Hok. apply NoDup_app in Hok as (_ & Hd & _).
      intros Hin. apply (Hd _ Hin). left. }
    destruct (IH (PathCacheSeedEntry st D n m t (env k).1 (env k).2) (done_ ++ [(n, m)]) (S k)) as (Hwf2 & Ho2 & Hs2); try done.
    { by rewrite (ready_only _ _ Ho1). }
    { by rewrite (ticket_only _ _ _ Ho1). }
    { by rewrite <- app_assoc. }
    split_and!; [done|by eapply paths_only_trans|]. by rewrite <- app_assoc in Hs2.
Qed.

(** A ticket an invalidation has overtaken seeds nothing. *)
Lemma seed_loop_refused D t env l : forall st k,
  PATH_BUCKETS_OK (Buckets st) -> PathCacheTicketHonoured st t = false -> seed_loop st D l t env k = st.
Proof.
  induction l as [|[n m] l IH]; intros st k Hok Ht; [done|]. cbn [seed_loop]. unfold PathCacheSeedEntry.
  destruct (negb (PathCacheIsComponent n) || _); [by apply IH|].
  rewrite insert_refuses; [by apply IH|]. by right.
Qed.

(** Every child of [dir] is swept before seeding. *)
Lemma children_swept dir name childrenOnly e :
  PathCacheIsComponent name = true -> fold_path (EntryPath e) = fold_path (with_sep dir ++ name) ->
  swept_under dir true childrenOnly e = true.
Proof.
  intros Hc He. rewrite fold_app in He. unfold swept_under.
  rewrite (proj2 (is_under_spec dir (EntryPath e))) by (right; by eexists). cbn [andb].
  assert (Hlen : length (EntryPath e) = (length (with_sep dir) + length name)%nat).
  { apply (f_equal length) in He. by rewrite length_app, !fold_length in He. }
  assert (Hpos : (0 < length name)%nat) by (unfold PathCacheIsComponent in Hc; destruct name; [done|cbn; lia]).
  rewrite with_sep_length in Hlen. unfold path_bytes. rewrite (proj2 (Z.eqb_neq _ _)) by (destruct (ends_with_sep dir); lia).
  rewrite (below_child_spec _ _ _ He). cbn [negb andb]. rewrite bool_decide_eq_false_2; [by rewrite andb_false_r|].
  rewrite fold_sep_elem. unfold PathCacheIsComponent in Hc. destruct (_ || _); [done|].
  by apply negb_true_iff, bool_decide_eq_false in Hc.
Qed.

Lemma find_app {A} (f : A -> bool) (l1 l2 : list A) :
  List.find f (l1 ++ l2) = match List.find f l1 with Some x => Some x | None => List.find f l2 end.
Proof. induction l1 as [|x l1 IH]; [done|]. cbn. by destruct (f x). Qed.

Lemma find_fmap {A B} (g : A -> B) (f : B -> bool) (l : list A) : List.find f (g <$> l) = g <$> List.find (fun x => f (g x)) l.
Proof. induction l as [|x l IH]; [done|]. cbn. by destruct (f (g x)). Qed.

Lemma find_take {A} (f : A -> bool) (l : list A) n x : List.find f (take n l) = Some x -> List.find f l = Some x.
Proof. intros H. rewrite <- (take_drop n l), find_app. by rewrite H. Qed.

(** What the seeding order puts in last is what a scan finds first. *)
Lemma seed_order_scan d name m : latest (seed_order d) name = Some m -> scan d name = Some m.
Proof.
  unfold latest, seed_order, scan. cbv zeta. rewrite reverse_app, <- !fmap_reverse, !reverse_involutive, find_app, !find_fmap. cbn.
  set (files := Z.to_nat (Z.min _ _)). destruct (List.find _ (take files (Files d))) as [f|] eqn:Hf; cbn.
  - apply find_take in Hf. rewrite Hf. done.
  - intros Hm. apply fmap_Some in Hm as ([n' m'] & Hs & ->). apply fmap_Some in Hs as (s & Hs & Heq).
    assert (Hall : take files (Files d) = Files d).
    { apply take_ge. destruct (decide (Z.of_nat (length (Files d)) <= PATH_CACHE_SEED_MAX)); [unfold files; lia|].
      exfalso. match type of Hs with context [take ?n (SubDirs d)] => replace n with 0%nat in Hs by lia end. done. }
    rewrite Hall in Hf. rewrite Hf. apply find_take in Hs. rewrite Hs. by injection Heq as _ ->.
Qed.

Lemma seed_order_meta d : Forall (fun x => NoStore x.2 = false) (seed_order d).
Proof. unfold seed_order. apply Forall_app. split; apply Forall_fmap, Forall_forall; done. Qed.

(** The whole of [BlorgPathCacheSeedListing], for the children. *)
Lemma seed_listing_spec st dir d t scratchOk env :
  paths_wf st -> Ready st = true -> dir <> [] ->
  (forall k, (env k).1 = true) \/ NoDup ((fun x => fold_path x.1) <$> seed_order d) ->
  let st' := BlorgPathCacheSeedListing st dir (Some d) t scratchOk env in
  paths_wf st' /\ paths_only st st' /\
  forall name e, PathCacheIsComponent name = true -> held st' (with_sep dir ++ name) = Some e ->
    Exists e = true /\ scan d name = Some (Meta e).
Proof.
  intros Hwf Hr Hd Hok. unfold BlorgPathCacheSeedListing. rewrite Hr. destruct dir as [|c dir0]; [done|]. cbn [negb orb length Nat.eqb].
  set (dir := c :: dir0) in *.
  destruct (invalidate_under_spec st dir true (ChangeFeedLive st) Hwf) as (Hwf1 & Ho1 & Hh1).
  set (st1 := PathCacheInvalidateUnder st dir true (ChangeFeedLive st)) in *.
  assert (Hnone : forall name, PathCacheIsComponent name = true -> held st1 (with_sep dir ++ name) = None).
  { intros name Hc. rewrite Hh1. destruct (held st (with_sep dir ++ name)) as [e|] eqn:He; [|done]. cbn.
    rewrite (children_swept dir name); [done|done|]. unfold held in He. apply bind_Some in He as (b & _ & He).
    by apply findk_Some in He as [_ ?]. }
  assert (Hbase : paths_wf st1 /\ paths_only st st1 /\ forall name e, PathCacheIsComponent name = true ->
    held st1 (with_sep dir ++ name) = Some e -> Exists e = true /\ scan d name = Some (Meta e)).
  { split_and!; [done..|]. intros name e Hc He. rewrite (Hnone name Hc) in He. done. }
  destruct (PATH_CACHE_MAX_PATH_BYTES <? path_bytes dir + 2); [done|]. destruct scratchOk; cbn [negb]; [|done].
  destruct (PathCacheTicketHonoured st1 t) eqn:Ht.
  - destruct (seed_loop_spec (with_sep dir) t env (seed_order d) st1 [] 0) as (Hwf2 & Ho2 & Hs2); try done.
    { by rewrite (ready_only _ _ Ho1). }
    { apply seed_order_meta. }
    { intros name e Hc He. rewrite (Hnone name Hc) in He. done. }
    split_and!; [done|by eapply paths_only_trans|]. intros name e Hc He. destruct (Hs2 name e Hc He) as (H1 & H2 & _).
    split; [done|]. by apply seed_order_scan.
  - rewrite seed_loop_refused; [done|apply Hwf1|done].
Qed.
End Seed.
