(* ===== verification/PathCacheProtocol.v ===== *)
(** * The ticket protocol

    The caches under concurrency.  A step is one critical section (under one
    bucket's lock) or one interlocked update; what an operation read before
    it took its lock (the time, the generation, the lifetime) is arbitrary,
    which covers any value it may have read.  An invalidation in flight is a
    list of visits still to make; any other step may come between two of
    them.  [world_inv] is kept by every step, and its last clause is the
    protocol: what an invalidation has visited holds nothing read before the
    invalidation began. *)

From S2P Require Import Prelude UnicodePath PathCache PathCacheOps PathCacheListings PathCachePublish PathCacheSystem.

Section Protocol.
Context {nls : Nls}.
Implicit Types (st : PATH_CACHE_STATE) (q dir path : PATH).

(** ** Invalidations as sequences of critical sections *)

Inductive VISIT :=
  | VDrop (path : PATH)
  | VSweep (dir : PATH) (i : nat)
  | VLDrop (dir : PATH)
  | VLSweep (dir : option PATH) (i : nat)
  | VGeneration.

Definition lsweep_pred (dir : option PATH) (e : LISTING_CACHE_ENTRY) : bool :=
  match dir with None => true | Some d => PathCacheIsUnder d (LPath e) end.

Definition exec_visit st (v : VISIT) : option PATH_CACHE_STATE :=
  match v with
  | VDrop path => Some (drop_locked st path)
  | VSweep dir i => Some (sweep_locked st (swept_under dir false false) i)
  | VLDrop dir => ListingCacheDrop st dir
  | VLSweep dir i => lsweep_locked st (lsweep_pred dir) i
  | VGeneration => Some (with_Generation st (s32 (CacheGeneration st + 1)))
  end.

Fixpoint exec_visits st (vs : list VISIT) : option PATH_CACHE_STATE :=
  match vs with
  | [] => Some st
  | v :: vs => st ← exec_visit st v; exec_visits st vs
  end.

Definition parent_visit path : list VISIT :=
  match PathCacheParent path with Some parent => [VLDrop parent] | None => [] end.

Inductive INVALIDATION := InvalidatePath (path : PATH) | InvalidatePrefix (dir : PATH) | InvalidateAll.

Definition visits (inv : INVALIDATION) : list VISIT :=
  match inv with
  | InvalidatePath path => VDrop path :: VLDrop path :: parent_visit path
  | InvalidatePrefix dir =>
      (VSweep dir <$> seq 0 (Z.to_nat PATH_CACHE_BUCKETS)) ++ (VLSweep (Some dir) <$> all_lbuckets) ++ parent_visit dir
  | InvalidateAll => VGeneration :: (VLSweep None <$> all_lbuckets)
  end.

Lemma exec_visits_app st vs ws : exec_visits st (vs ++ ws) = st1 ← exec_visits st vs; exec_visits st1 ws.
Proof. revert st. induction vs as [|v vs IH]; intros st; [done|]. cbn. destruct (exec_visit st v); cbn; [apply IH|done]. Qed.

Lemma exec_sweeps st dir idx :
  exec_visits st (VSweep dir <$> idx) = Some (fold_left (fun st i => sweep_locked st (swept_under dir false false) i) idx st).
Proof. revert st. induction idx as [|i idx IH]; intros st; [done|]. cbn. apply IH. Qed.

Lemma exec_lsweeps st (dir : option PATH) idx : exec_visits st (VLSweep dir <$> idx) = lsweep st (lsweep_pred dir) idx.
Proof. revert st. induction idx as [|i idx IH]; intros st; [done|]. cbn. destruct (lsweep_locked st _ i); cbn; [apply IH|done]. Qed.

Lemma exec_parent st path : exec_visits st (parent_visit path) = ListingCacheDropParent st path.
Proof. unfold parent_visit, ListingCacheDropParent. destruct (PathCacheParent path) as [d|]; [|done]. cbn. by destruct (ListingCacheDrop st d). Qed.

Lemma drop_under_sweep st (dir : option PATH) : ListingCacheDropUnder st dir = lsweep st (lsweep_pred dir) all_lbuckets.
Proof. reflexivity. Qed.

Lemma under_sweeps st dir : PathCacheInvalidateUnder st dir false false =
  fold_left (fun st i => sweep_locked st (swept_under dir false false) i) (seq 0 (Z.to_nat PATH_CACHE_BUCKETS)) st.
Proof. unfold PathCacheInvalidateUnder. reflexivity. Qed.

(** Run without interruption, the visits are the operation. *)
Lemma visits_are_operations st inv :
  Ready st = true ->
  match inv with
  | InvalidatePath path => path <> [] -> BlorgPathCacheInvalidate st path = exec_visits (PathCacheAdvanceSequence st) (visits inv)
  | InvalidatePrefix dir => dir <> [] -> BlorgPathCacheInvalidatePrefix st dir = exec_visits (PathCacheAdvanceSequence st) (visits inv)
  | InvalidateAll => BlorgPathCacheInvalidateAll st = exec_visits (PathCacheAdvanceSequence st) (visits inv)
  end.
Proof.
  intros Hr. destruct inv as [path|dir|].
  - intros Hp. unfold BlorgPathCacheInvalidate. rewrite Hr. rewrite (proj2 (Nat.eqb_neq (length path) 0)) by (by destruct path).
    cbn [negb orb visits exec_visits exec_visit]. cbn [mbind option_bind].
    destruct (ListingCacheDrop _ _); [|done]. cbn [mbind option_bind]. by rewrite exec_parent.
  - intros Hp. unfold BlorgPathCacheInvalidatePrefix. rewrite Hr. rewrite (proj2 (Nat.eqb_neq (length dir) 0)) by (by destruct dir).
    cbn [negb orb visits]. rewrite exec_visits_app, exec_sweeps. cbn [mbind option_bind]. rewrite exec_visits_app, exec_lsweeps, drop_under_sweep.
    rewrite <- under_sweeps.
    destruct (lsweep _ _ _); [|done]. cbn [mbind option_bind]. by rewrite exec_parent.
  - unfold BlorgPathCacheInvalidateAll. cbn [visits exec_visits exec_visit]. cbn [mbind option_bind]. rewrite exec_lsweeps, drop_under_sweep.
    cbn [Ready with_Generation PathCacheAdvanceSequence with_Sequence]. by rewrite Hr.
Qed.

(** What a visit clears, in each cache. *)
Definition covers (v : VISIT) q : Prop :=
  match v with
  | VDrop path => fold_path path = fold_path q
  | VSweep dir i => Z.to_nat (PathCacheBucket q) = i /\ PathCacheIsUnder dir q = true
  | _ => False
  end.
Definition lcovers (v : VISIT) q : Prop :=
  match v with
  | VLDrop dir => fold_path dir = fold_path q
  | VLSweep dir i => Z.to_nat (ListingCacheBucket q) = i /\ match dir with Some d => PathCacheIsUnder d q = true | None => True end
  | _ => False
  end.

(** ** Steps *)

Record FLIGHT := mkFlight {
  fl_inv : INVALIDATION;
  fl_seq : Z;
  fl_done : list VISIT;
  fl_todo : list VISIT
}.

Record WORLD := mkWorld {
  w_st : PATH_CACHE_STATE;
  w_hold : Z -> Z;
  w_flights : list FLIGHT
}.

Inductive world_step : WORLD -> WORLD -> Prop :=
  | step_insert st hold fs path exists_ meta t issueTime now generation lifetime :
      world_step (mkWorld st hold fs)
        (mkWorld (insert_section st path exists_ meta t issueTime now generation lifetime) hold fs)
  | step_publish st hold fs dir t new bytes issueTime now generation lifetime st' current :
      (forall e, new = Some e -> LPath e = dir /\ LBytes e = bytes /\ 0 <= bytes < MAX_SNAPSHOT_BYTES /\
         0 < hold (Listing e) <= MAX_HOLDERS /\ LSequence e = match t with Some t => TicketSequence t | None => Sequence st end) ->
      publish_locked st dir t new bytes issueTime now generation lifetime = Some (st', current) ->
      world_step (mkWorld st hold fs) (mkWorld st' hold fs)
  | step_reap st hold fs now generation lifetime i st' :
      (i < Z.to_nat LISTING_CACHE_BUCKETS)%nat ->
      lsweep_locked st (fun e => negb (ListingCacheEntryLive e now generation lifetime)) i = Some st' ->
      world_step (mkWorld st hold fs) (mkWorld st' hold fs)
  | step_lookup st hold fs dir allowStale now st' hit :
      (forall p, hold p <= MAX_HOLDERS) -> BlorgPathCacheLookupListing st dir allowStale now = Some (st', hit) ->
      world_step (mkWorld st hold fs)
        (mkWorld st' (match HitListing hit with Some p => hold_add hold p | None => hold end) fs)
  | step_release st hold fs p st' :
      0 < hold p -> BlorgReleaseDirectoryInfo st p = Some st' ->
      world_step (mkWorld st hold fs) (mkWorld st' (hold_sub hold p) fs)
  | step_snapshot st hold fs p d :
      Snapshots st !! p = None -> 0 <= InfoBytes d < MAX_SNAPSHOT_BYTES ->
      world_step (mkWorld st hold fs) (mkWorld (with_Snapshots st (<[p := (d, 1)]> (Snapshots st))) (hold_add hold p) fs)
  | step_feed st hold fs live : world_step (mkWorld st hold fs) (mkWorld (with_ChangeFeedLive st live) hold fs)
  | step_begin st hold fs inv :
      Sequence st < MAXLONG64 ->
      world_step (mkWorld st hold fs)
        (mkWorld (PathCacheAdvanceSequence st) hold (mkFlight inv (Sequence st + 1) [] (visits inv) :: fs))
  | step_visit st hold fs1 inv seq done_ v todo fs2 st' :
      exec_visit st v = Some st' ->
      world_step (mkWorld st hold (fs1 ++ mkFlight inv seq done_ (v :: todo) :: fs2))
        (mkWorld st' hold (fs1 ++ mkFlight inv seq (done_ ++ [v]) todo :: fs2)).

(** ** The invariant *)

Definition cleared st (seq : Z) (v : VISIT) : Prop :=
  (forall q e, covers v q -> held st q = Some e -> seq <= EntrySequence e) /\
  (forall q e, lcovers v q -> lheld st q = Some e -> seq <= LSequence e).

Definition visit_ok (v : VISIT) : Prop :=
  match v with
  | VSweep _ i => (i < Z.to_nat PATH_CACHE_BUCKETS)%nat
  | VLSweep _ i => (i < Z.to_nat LISTING_CACHE_BUCKETS)%nat
  | _ => True
  end.

Record flight_ok st (f : FLIGHT) : Prop := {
  fl_visits : fl_done f ++ fl_todo f = visits (fl_inv f);
  fl_before : fl_seq f <= Sequence st;
  fl_cleared : forall v, v ∈ fl_done f -> cleared st (fl_seq f) v
}.

Record world_inv (w : WORLD) : Prop := {
  inv_wf : cache_wf (w_hold w) (w_st w);
  inv_seq : 0 <= Sequence (w_st w) <= MAXLONG64;
  inv_flights : forall f, f ∈ w_flights w -> flight_ok (w_st w) f
}.

(** A step that adds only what was read under the current sequence. *)
Record grows st st' : Prop := {
  gr_seq : Sequence st <= Sequence st';
  gr_held : forall q e, held st' q = Some e -> held st q = Some e \/ EntrySequence e = Sequence st;
  gr_lheld : forall q e, lheld st' q = Some e -> (exists e0, lheld st q = Some e0 /\ LSequence e0 = LSequence e) \/ LSequence e = Sequence st
}.

Lemma grows_flight st st' f : grows st st' -> flight_ok st f -> flight_ok st' f.
Proof.
  intros [H1 H2 H3] [Hv Hb Hc]. split; [done|lia|]. intros v Hd. destruct (Hc v Hd) as [Hp Hl]. split.
  - intros q e Hq [He|He]%H2; [by eapply Hp|lia].
  - intros q e Hq [(e0 & He & <-)|He]%H3; [by eapply Hl|lia].
Qed.

Lemma grows_refl st : grows st st.
Proof. split; [lia|by left|]. intros q e He. left. by exists e. Qed.

Lemma grows_paths st st' : paths_only st st' -> (forall q e, held st' q = Some e -> held st q = Some e \/ EntrySequence e = Sequence st) -> grows st st'.
Proof.
  intros Ho H. pose proof (paths_only_globals _ _ Ho) as [(_ & _ & _ & Hs) _]. split; [lia|done|].
  intros q e. rewrite (paths_only_lheld _ _ _ Ho). left. by exists e.
Qed.

Lemma grows_listings st st' : listings_only st st' ->
  (forall q e, lheld st' q = Some e -> (exists e0, lheld st q = Some e0 /\ LSequence e0 = LSequence e) \/ LSequence e = Sequence st) -> grows st st'.
Proof.
  intros Ho H. pose proof (listings_only_globals _ _ Ho) as [(_ & _ & _ & Hs) _]. split; [lia| |done].
  intros q e. rewrite (listings_only_held _ _ _ Ho). by left.
Qed.

Lemma insert_grows st path exists_ meta t issueTime now generation lifetime :
  paths_wf st -> grows st (insert_section st path exists_ meta t issueTime now generation lifetime).
Proof.
  intros Hwf. destruct (PathCacheTicketHonoured st t) eqn:Ht.
  2: { rewrite section_refuses by (try done; apply Hwf). apply grows_refl. }
  apply grows_paths; [by apply section_wf|]. intros q e He.
  destruct (section_held st path exists_ meta t issueTime now generation lifetime Hwf Ht) as ((x & Hx & Ha) & Ho & _).
  destruct (decide (fold_path path = fold_path q)) as [Hd|Hd]; [|left; by apply Ho].
  right. rewrite (held_fold _ _ _ Hd) in Hx. rewrite Hx in He. injection He as <-. rewrite (ans_seq _ _ _ Ha). cbn.
  destruct t; [|done]. cbn in Ht. by apply Z.eqb_eq in Ht.
Qed.

(** What one visit does. *)
Record visited st st' (v : VISIT) : Prop := {
  vis_seq : Sequence st' = Sequence st;
  vis_held : forall q e, held st' q = Some e -> held st q = Some e;
  vis_lheld : forall q e, lheld st' q = Some e -> lheld st q = Some e;
  vis_cover : forall q, covers v q -> held st' q = None;
  vis_lcover : forall q, lcovers v q -> lheld st' q = None
}.

Lemma swept_by_key dir q e : fold_path (EntryPath e) = fold_path q -> PathCacheIsUnder dir q = true -> swept_under dir false false e = true.
Proof.
  intros Hk Hq. unfold swept_under. cbn [andb negb]. rewrite !andb_true_r. apply is_under_spec. apply is_under_spec in Hq. by rewrite Hk.
Qed.

Lemma lswept_by_key (dir : option PATH) q e : fold_path (LPath e) = fold_path q ->
  match dir with Some d => PathCacheIsUnder d q = true | None => True end -> lsweep_pred dir e = true.
Proof.
  intros Hk. destruct dir as [d|]; [|done]. cbn. intros Hq. apply is_under_spec. apply is_under_spec in Hq. by rewrite Hk.
Qed.

Lemma exec_visit_spec hold st v :
  cache_wf hold st -> visit_ok v -> exists st', exec_visit st v = Some st' /\ cache_wf hold st' /\ visited st st' v.
Proof.
  intros Hwf Hv. destruct v as [path|dir i|dir|dir i|]; cbn [exec_visit].
  - destruct (drop_spec st path (wf_paths _ _ Hwf)) as (H1 & H2 & H3). eexists. split; [done|]. split; [by eapply paths_only_wf|].
    pose proof (paths_only_globals _ _ H2) as [(_ & _ & _ & Hs) _]. split; [done| | | |done].
    + intros q e. rewrite H3. by case_decide.
    + intros q e. by rewrite (paths_only_lheld _ _ _ H2).
    + intros q Hq. rewrite H3. by rewrite decide_True.
  - destruct (sweep_spec st (swept_under dir false false) i (wf_paths _ _ Hwf) Hv) as (H1 & H2 & H3). eexists. split; [done|].
    split; [by eapply paths_only_wf|]. pose proof (paths_only_globals _ _ H2) as [(_ & _ & _ & Hs) _]. split; [done| | | |done].
    + intros q e. rewrite H3. case_decide; [|done]. destruct (held st q) as [x|]; [|done]. cbn. by destruct (swept_under _ _ _ x).
    + intros q e. by rewrite (paths_only_lheld _ _ _ H2).
    + intros q [Hq Hu]. rewrite H3, decide_True by done. destruct (held st q) as [x|] eqn:Hx; [|done]. cbn.
      rewrite (swept_by_key dir q); [done|by eapply held_key|done].
  - destruct (listing_drop_spec hold st dir (wf_listings _ _ Hwf)) as (st' & -> & H1 & H2 & H3). eexists. split; [done|].
    split; [by eapply listings_only_wf|]. pose proof (listings_only_globals _ _ H2) as [(_ & _ & _ & Hs) _]. split; [done| | |done|].
    + intros q e. by rewrite (listings_only_held _ _ _ H2).
    + intros q e. rewrite H3. by case_decide.
    + intros q Hq. rewrite H3. by rewrite decide_True.
  - destruct (lsweep_locked_spec hold st (lsweep_pred dir) i (wf_listings _ _ Hwf) Hv) as (st' & -> & H1 & H2 & _ & H3). eexists. split; [done|].
    split; [by eapply listings_only_wf|]. pose proof (listings_only_globals _ _ H2) as [(_ & _ & _ & Hs) _]. split; [done| | |done|].
    + intros q e. by rewrite (listings_only_held _ _ _ H2).
    + intros q e. rewrite H3. case_decide; [|done]. destruct (lheld st q) as [x|]; [|done]. cbn. by destruct (lsweep_pred dir x).
    + intros q [Hq Hu]. rewrite H3, decide_True by done. destruct (lheld st q) as [x|] eqn:Hx; [|done]. cbn.
      rewrite (lswept_by_key dir q); [done|by eapply lheld_key|done].
  - eexists. split; [done|]. split; [by apply generation_wf|]. by split.
Qed.

Lemma visits_ok inv v : v ∈ visits inv -> visit_ok v.
Proof.
  assert (Hpar : forall path, v ∈ parent_visit path -> visit_ok v).
  { intros path. unfold parent_visit. destruct (PathCacheParent path); [|intros H; inversion H]. intros ->%list_elem_of_singleton. done. }
  assert (Hl : forall dir : option PATH, v ∈ VLSweep dir <$> all_lbuckets -> visit_ok v).
  { intros dir (i & -> & Hi)%list_elem_of_fmap. apply elem_of_seq in Hi. cbn [visit_ok]. lia. }
  destruct inv as [path|dir|]; cbn [visits].
  - rewrite !elem_of_cons. intros [->|[->|H]]; [done|done|by eapply Hpar].
  - rewrite !elem_of_app. intros [(i & -> & Hi)%list_elem_of_fmap|[H|H]]; [|by eapply Hl|by eapply Hpar].
    apply elem_of_seq in Hi. cbn [visit_ok]. lia.
  - rewrite elem_of_cons. intros [->|H]; [done|by eapply Hl].
Qed.

Lemma visited_grows st st' v : visited st st' v -> grows st st'.
Proof. intros [H1 H2 H3 _ _]. split; [lia|by left; apply H2|]. intros q e He. left. exists e. split; [by apply H3|done]. Qed.

Lemma publish_grows hold st dir t new bytes issueTime now generation lifetime st' current :
  cache_wf hold st ->
  (forall e, new = Some e -> LPath e = dir /\ LBytes e = bytes /\ 0 <= bytes < MAX_SNAPSHOT_BYTES /\
     0 < hold (Listing e) <= MAX_HOLDERS /\ LSequence e = match t with Some t => TicketSequence t | None => Sequence st end) ->
  publish_locked st dir t new bytes issueTime now generation lifetime = Some (st', current) ->
  cache_wf hold st' /\ grows st st' /\ Sequence st' = Sequence st.
Proof.
  intros Hwf Hnew Hpub.
  destruct (publish_locked_spec hold st dir t new bytes issueTime now generation lifetime (wf_listings _ _ Hwf)) as (st1 & c1 & H1 & Hwf1 & Ho & HP).
  { intros e He. destruct (Hnew e He) as (? & ? & ? & ? & _). done. }
  rewrite Hpub in H1. injection H1 as <- <-. split; [by eapply listings_only_wf|].
  split; [|by destruct (listings_only_globals _ _ Ho) as [(_ & _ & _ & ?) _]].
  destruct (PathCacheTicketHonoured st t) eqn:Ht; [|destruct (pub_refused _ _ _ _ _ _ _ _ _ _ HP Ht) as [_ ->]; apply grows_refl].
  apply grows_listings; [done|]. intros q e He.
  destruct (decide (fold_path dir = fold_path q)) as [Hd|Hd].
  2: { left. exists e. split; [by eapply pub_other|done]. }
  assert (Hdq : forall s, lheld s dir = lheld s q).
  { intros s. unfold lheld. rewrite (lbucket_fold _ _ Hd). destruct (ListingBuckets s !! _); [|done]. cbn. by apply findk_fold. }
  rewrite <- Hdq in He |- *. destruct current.
  - right. destruct (pub_current _ _ _ _ _ _ _ _ _ _ HP eq_refl) as [H|H]; [congruence|]. rewrite H in He.
    destruct (Hnew e He) as (_ & _ & _ & _ & ->). destruct t; [|done]. cbn in Ht. by apply Z.eqb_eq in Ht.
  - left. exists e. rewrite <- He. split; [|done]. by rewrite (pub_superseded _ _ _ _ _ _ _ _ _ _ HP Ht eq_refl).
Qed.

Lemma lookup_grows hold st dir allowStale now st' hit :
  cache_wf hold st -> (forall p, hold p <= MAX_HOLDERS) -> BlorgPathCacheLookupListing st dir allowStale now = Some (st', hit) ->
  cache_wf (match HitListing hit with Some p => hold_add hold p | None => hold end) st' /\ grows st st' /\ Sequence st' = Sequence st.
Proof.
  intros Hwf Hmax Hl. destruct (Ready st) eqn:Hr.
  2: { unfold BlorgPathCacheLookupListing in Hl. rewrite Hr in Hl. injection Hl as <- <-. split_and!; [done|apply grows_refl|done]. }
  destruct (decide (dir = [])) as [->|Hd].
  { unfold BlorgPathCacheLookupListing in Hl. rewrite orb_true_r in Hl. injection Hl as <- <-. split_and!; [done|apply grows_refl|done]. }
  destruct (lookup_spec hold st dir allowStale now (wf_listings _ _ Hwf) Hmax Hr Hd) as (st1 & hit1 & H1 & Ho & Hcase).
  rewrite Hl in H1. injection H1 as <- <-. destruct (lheld st dir) as [e|].
  2: { destruct Hcase as [-> ->]. split_and!; [done|apply grows_refl|done]. }
  destruct (served st allowStale now e).
  2: { destruct Hcase as [-> ->]. split_and!; [done|apply grows_refl|done]. }
  destruct Hcase as (-> & Hwf' & _ & Hq). cbn [HitListing].
  split_and!; [by eapply listings_only_wf| |by destruct (listings_only_globals _ _ Ho) as [(_ & _ & _ & ?) _]].
  apply grows_listings; [done|]. intros q x. rewrite Hq. clear Hl. destruct (_ && _); [|intros Hx; left; by exists x].
  destruct (lheld st q) as [y|]; [|done]. intros [= <-]. left. by exists y.
Qed.

Lemma snapshot_wf hold st p d :
  cache_wf hold st -> Snapshots st !! p = None -> 0 <= InfoBytes d < MAX_SNAPSHOT_BYTES ->
  cache_wf (hold_add hold p) (with_Snapshots st (<[p := (d, 1)]> (Snapshots st))).
Proof.
  intros [Hp [Hok Ha] Hs] Hn Hb. destruct Ha as [H1 H2 H3 H4 H5 H6 H7 H8].
  pose proof (lrefs_nonneg (ListingBuckets st) p). pose proof (H6 p) as H6p. unfold refs_of in H6p. rewrite Hn in H6p.
  change (refs_in p []) with 0 in H6p. pose proof (H5 p).
  split; [done| |].
  - split; [done|]. split; try done; unfold hold_add; cbn [Snapshots with_Snapshots ListingBuckets].
    + intros x. specialize (H5 x). destruct (p =? x); lia.
    + intros x. specialize (H6 x). unfold refs_of in *. cbn [Snapshots with_Snapshots ListingBuckets].
      destruct (Z.eqb_spec p x) as [Heq|Hne]; [subst x; rewrite lookup_insert_eq; change (refs_in p []) with 0; lia|by rewrite lookup_insert_ne].
    + intros x. specialize (H7 x). destruct (Z.eqb_spec p x) as [Heq|Hne]; [subst x|done]. change (refs_in p []) with 0. lia.
    + intros x d' r [[<- [= <- <-]]|[_ Hx]]%lookup_insert_Some; [lia|eauto].
  - intros x d' r. cbn [Snapshots with_Snapshots]. intros [[<- [= <- <-]]|[_ Hx]]%lookup_insert_Some; [done|eauto].
Qed.

Lemma begin_inv st hold fs inv :
  world_inv (mkWorld st hold fs) -> Sequence st < MAXLONG64 ->
  world_inv (mkWorld (PathCacheAdvanceSequence st) hold (mkFlight inv (Sequence st + 1) [] (visits inv) :: fs)).
Proof.
  intros [Hwf Hseq Hfl] Hlt. cbn [w_st w_hold w_flights] in *.
  assert (Hs : s64 (Sequence st + 1) = Sequence st + 1) by (apply s64_id; unfold MAXLONG64 in *; lia).
  assert (Hg : grows st (PathCacheAdvanceSequence st)).
  { split; [cbn; rewrite Hs; lia|by left|]. intros q e He. left. by exists e. }
  split; cbn [w_st w_hold w_flights]; [by apply advance_wf|cbn; rewrite Hs; lia|].
  intros f [->|Hf]%elem_of_cons; [|by eapply grows_flight; [|apply Hfl]].
  split; cbn [fl_done fl_todo fl_seq fl_inv]; [done|cbn; rewrite Hs; lia|]. intros v Hv. inversion Hv.
Qed.

Lemma visit_inv st hold fs1 inv seq done_ v todo fs2 st' :
  world_inv (mkWorld st hold (fs1 ++ mkFlight inv seq done_ (v :: todo) :: fs2)) -> exec_visit st v = Some st' ->
  world_inv (mkWorld st' hold (fs1 ++ mkFlight inv seq (done_ ++ [v]) todo :: fs2)).
Proof.
  intros [Hwf Hseq Hfl] Hex. cbn [w_st w_hold w_flights] in *.
  assert (Hf0 : flight_ok st (mkFlight inv seq done_ (v :: todo))) by (apply Hfl, elem_of_app; right; left).
  assert (Hok : visit_ok v). { apply (visits_ok inv). pose proof (fl_visits _ _ Hf0) as Hv. cbn in Hv. rewrite <- Hv. apply elem_of_app. right. left. }
  destruct (exec_visit_spec hold st v Hwf Hok) as (st1 & H1 & Hwf1 & Hvis). rewrite Hex in H1. injection H1 as <-.
  pose proof (visited_grows _ _ _ Hvis) as Hg. split; cbn [w_st w_hold w_flights]; [done|rewrite (vis_seq _ _ _ Hvis); lia|].
  intros f [Hf|[->|Hf]%elem_of_cons]%elem_of_app.
  - eapply grows_flight; [done|]. apply Hfl, elem_of_app. by left.
  - pose proof (grows_flight _ _ _ Hg Hf0) as [Hv1 Hb1 Hc1]. cbn [fl_done fl_todo fl_seq fl_inv] in *.
    split; cbn [fl_done fl_todo fl_seq fl_inv]; [by rewrite <- app_assoc|done|].
    intros x [Hx| ->%list_elem_of_singleton]%elem_of_app; [by apply Hc1|].
    split; intros q e Hq He; [rewrite (vis_cover _ _ _ Hvis q Hq) in He|rewrite (vis_lcover _ _ _ Hvis q Hq) in He]; done.
  - eapply grows_flight; [done|]. apply Hfl, elem_of_app. right. by right.
Qed.

Lemma world_step_inv w w' : world_inv w -> world_step w w' -> world_inv w'.
Proof.
  intros Hinv Hstep. pose proof Hinv as [Hwf Hseq Hfl].
  assert (Hkeep : forall hold' st', cache_wf hold' st' -> grows (w_st w) st' -> Sequence st' = Sequence (w_st w) ->
    world_inv (mkWorld st' hold' (w_flights w))).
  { intros hold' st' Hwf' Hg Hs. split; [done|cbn; lia|]. intros f Hf. by eapply grows_flight; [|apply Hfl]. }
  destruct Hstep as [st hold fs path exists_ meta t issueTime now generation lifetime
    |st hold fs dir t new bytes issueTime now generation lifetime st' current Hnew Hpub|st hold fs now generation lifetime i st' Hi Hsw
    |st hold fs dir allowStale now st' hit Hmax Hl|st hold fs p st' Hp Hrel|st hold fs p d Hn Hb|st hold fs live|st hold fs inv Hlt
    |st hold fs1 inv seq done_ v todo fs2 st' Hex]; cbn [w_st w_hold w_flights] in *.
  - destruct (section_wf st path exists_ meta t issueTime now generation lifetime (wf_paths _ _ Hwf)) as [H1 H2].
    apply Hkeep; [by eapply paths_only_wf|apply insert_grows, Hwf|]. by destruct (paths_only_globals _ _ H2) as [(_ & _ & _ & ?) _].
  - destruct (publish_grows hold st dir t new bytes issueTime now generation lifetime st' current Hwf Hnew Hpub) as (H1 & H2 & H3).
    by apply Hkeep.
  - destruct (lsweep_locked_spec hold st (fun e => negb (ListingCacheEntryLive e now generation lifetime)) i (wf_listings _ _ Hwf) Hi) as (st1 & H1 & H2 & H3 & _ & H4).
    rewrite Hsw in H1. injection H1 as <-. apply Hkeep; [by eapply listings_only_wf| |by destruct (listings_only_globals _ _ H3) as [(_ & _ & _ & ?) _]].
    apply grows_listings; [done|]. intros q e. rewrite H4. intros He. left. exists e. split; [|done].
    case_decide; [|done]. destruct (lheld st q) as [x|]; [|done]. cbn in He. by destruct (negb _).
  - destruct (lookup_grows hold st dir allowStale now st' hit Hwf Hmax Hl) as (H1 & H2 & H3). by apply Hkeep.
  - destruct (release_spec hold st p (wf_listings _ _ Hwf) Hp) as (st1 & H1 & H2 & H3 & H4). rewrite Hrel in H1. injection H1 as <-.
    apply Hkeep; [by eapply listings_only_wf| |by destruct (listings_only_globals _ _ H4) as [(_ & _ & _ & ?) _]].
    apply grows_listings; [done|]. intros q e He. left. exists e. split; [|done]. unfold lheld in *. by rewrite H3 in He.
  - apply Hkeep; [by apply snapshot_wf| |done]. destruct (grows_refl st). by split.
  - apply Hkeep; [by apply feed_wf| |done]. destruct (grows_refl st). by split.
  - by apply begin_inv.
  - by eapply visit_inv.
Qed.

(** The sequence never goes back, and an invalidation's own is newer than
    anything before it began. *)
Lemma world_step_seq w w' : world_inv w -> world_step w w' ->
  Sequence (w_st w) <= Sequence (w_st w') /\
  forall f, f ∈ w_flights w' -> (exists f0, f0 ∈ w_flights w /\ fl_seq f0 = fl_seq f) \/ Sequence (w_st w) < fl_seq f.
Proof.
  intros Hinv Hstep. pose proof (world_step_inv _ _ Hinv Hstep) as Hinv'.
  assert (Hsame : w_flights w' = w_flights w -> forall f, f ∈ w_flights w' -> (exists f0, f0 ∈ w_flights w /\ fl_seq f0 = fl_seq f) \/ Sequence (w_st w) < fl_seq f)
    by (intros -> f Hf; left; by exists f).
  destruct Hinv as [Hwf Hseq Hfl].
  destruct Hstep as [st hold fs path exists_ meta t issueTime now generation lifetime
    |st hold fs dir t new bytes issueTime now generation lifetime st' current Hnew Hpub|st hold fs now generation lifetime i st' Hi Hsw
    |st hold fs dir allowStale now st' hit Hmax Hl|st hold fs p st' Hp Hrel|st hold fs p d Hn Hb|st hold fs live|st hold fs inv Hlt
    |st hold fs1 inv seq done_ v todo fs2 st' Hex]; cbn [w_st w_hold w_flights] in *;
    try (split; [|by apply Hsame]).
  - apply insert_grows, Hwf.
  - by apply (publish_grows hold st dir t new bytes issueTime now generation lifetime st' current Hwf Hnew Hpub).
  - destruct (lsweep_locked_spec hold st (fun e => negb (ListingCacheEntryLive e now generation lifetime)) i (wf_listings _ _ Hwf) Hi) as (st1 & H1 & _ & H3 & _).
    rewrite Hsw in H1. injection H1 as <-. destruct (listings_only_globals _ _ H3) as [(_ & _ & _ & ->) _]. done.
  - by apply (lookup_grows hold st dir allowStale now st' hit Hwf Hmax Hl).
  - destruct (release_spec hold st p (wf_listings _ _ Hwf) Hp) as (st1 & H1 & _ & _ & H4). rewrite Hrel in H1. injection H1 as <-.
    destruct (listings_only_globals _ _ H4) as [(_ & _ & _ & ->) _]. done.
  - done.
  - done.
  - cbn. rewrite s64_id by (unfold MAXLONG64 in *; lia). split; [lia|]. intros f [->|Hf]%elem_of_cons; [right; cbn; lia|left; by exists f].
  - assert (Hf0 : flight_ok st (mkFlight inv seq done_ (v :: todo))) by (apply Hfl, elem_of_app; right; left).
    assert (Hok : visit_ok v). { apply (visits_ok inv). pose proof (fl_visits _ _ Hf0) as Hv. cbn in Hv. rewrite <- Hv. apply elem_of_app. right. left. }
    destruct (exec_visit_spec hold st v Hwf Hok) as (st1 & H1 & _ & Hvis). rewrite Hex in H1. injection H1 as <-.
    rewrite (vis_seq _ _ _ Hvis). split; [lia|]. intros f [Hf|[->|Hf]%elem_of_cons]%elem_of_app; left.
    + exists f. split; [|done]. apply elem_of_app. by left.
    + exists (mkFlight inv seq done_ (v :: todo)). split; [|done]. apply elem_of_app. right. left.
    + exists f. split; [|done]. apply elem_of_app. right. by right.
Qed.
End Protocol.
