(* ===== verification/PathCacheTheorems.v ===== *)
(** * The path and listing caches: what is proved of them *)

From S2P Require Import Prelude UnicodePath PathCache ListingIndex PathCacheOps PathCacheListings PathCachePublish PathCacheSystem PathCacheSeed PathCacheProtocol.

Section Reachable.
Context {nls : Nls}.

(** A freshly initialized cache: no snapshot exists yet. *)
Definition world_initial (w : WORLD) : Prop :=
  exists st, Snapshots st = ∅ /\ w = mkWorld (BlorgPathCacheInit st) (fun _ => 0) [].

Definition reachable (w : WORLD) : Prop := exists w0, world_initial w0 /\ rtc world_step w0 w.

Lemma empty_bucket_ok {E} (key : E -> PATH) index max i : 0 <= max -> bucket_ok key index max i empty_bucket.
Proof. intros H. split; cbn; [done|done| |constructor]. intros e He. inversion He. Qed.

Lemma world_initial_inv w : world_initial w -> world_inv w.
Proof.
  intros (st & Hs & ->). split; cbn [w_st w_hold w_flights]; [| |by intros f Hf; inversion Hf].
  - assert (Hz : forall n, total bytes_in (replicate n empty_bucket) = 0) by (induction n; [done|]; cbn [replicate]; by rewrite total_cons, IHn).
    assert (Hp : forall n, total bucket_size (replicate n empty_bucket) = 0) by (induction n; [done|]; cbn [replicate]; by rewrite total_cons, IHn).
    assert (Hr : forall n p, lrefs (replicate n empty_bucket) p = 0).
    { intros n p. unfold lrefs. induction n as [|n IH]; [done|]. cbn [replicate]. by rewrite total_cons, IH. }
    split; [split| |].
    + split; [apply length_replicate|]. intros i b [-> _]%lookup_replicate. by apply empty_bucket_ok.
    + unfold BlorgPathCacheInit. cbn [CacheCount Buckets]. by rewrite Hp.
    + split; [split; [apply length_replicate|]; intros i b [-> _]%lookup_replicate; by apply empty_bucket_ok|].
      unfold BlorgPathCacheInit. split; cbn [ListingBytes ListingBuckets Snapshots]; rewrite ?Hz; try done.
      * intros i b e [-> _]%lookup_replicate He. inversion He.
      * intros e He. inversion He.
      * intros p. rewrite Hr. unfold refs_of. cbn [Snapshots]. by rewrite Hs, lookup_empty.
      * rewrite Hs. intros p d r. by rewrite lookup_empty.
    + unfold snaps_ok, BlorgPathCacheInit. cbn [Snapshots]. rewrite Hs. intros p d r. by rewrite lookup_empty.
  - unfold BlorgPathCacheInit, MAXLONG64. cbn. lia.
Qed.

Lemma world_steps_inv w w' : rtc world_step w w' -> world_inv w -> world_inv w'.
Proof. induction 1; eauto using world_step_inv. Qed.

Lemma world_reachable_inv w : reachable w -> world_inv w.
Proof. intros (w0 & H0 & Hs). eapply world_steps_inv; [done|]. by apply world_initial_inv. Qed.

Lemma reachable_wf w : reachable w -> cache_wf (w_hold w) (w_st w).
Proof. intros H. by apply world_reachable_inv. Qed.

(** Over any run, the sequence only grows, and an invalidation begun in it
    has a sequence newer than the run's start. *)
Lemma steps_seq w0 w : rtc world_step w0 w -> world_inv w0 ->
  Sequence (w_st w0) <= Sequence (w_st w) /\
  forall f, f ∈ w_flights w -> (exists f0, f0 ∈ w_flights w0 /\ fl_seq f0 = fl_seq f) \/ Sequence (w_st w0) < fl_seq f.
Proof.
  induction 1 as [w|w0 w1 w Hstep Hsteps IH]; intros Hinv.
  - split; [done|]. intros f Hf. left. by exists f.
  - destruct (world_step_seq _ _ Hinv Hstep) as [H1 H2]. destruct (IH (world_step_inv _ _ Hinv Hstep)) as [H3 H4].
    split; [lia|]. intros f Hf. destruct (H4 f Hf) as [(f1 & Hf1 & Heq)|Hlt]; [|right; lia].
    destruct (H2 f1 Hf1) as [(f0 & Hf0 & Heq0)|Hlt]; [left; exists f0; split; [done|congruence]|right; lia].
Qed.

(** The paths whose cached answers, and the directories whose cached
    listings, an invalidation is to erase. *)
Definition erases (inv : INVALIDATION) (q : PATH) : Prop :=
  match inv with
  | InvalidatePath path => fold_path path = fold_path q
  | InvalidatePrefix dir => PathCacheIsUnder dir q = true
  | InvalidateAll => False
  end.
Definition lerases (inv : INVALIDATION) (q : PATH) : Prop :=
  match inv with
  | InvalidatePath path => fold_path path = fold_path q \/ is_parent path q = true
  | InvalidatePrefix dir => PathCacheIsUnder dir q = true \/ is_parent dir q = true
  | InvalidateAll => True
  end.

Lemma in_lbuckets q : Z.to_nat (ListingCacheBucket q) ∈ all_lbuckets.
Proof. apply elem_of_seq. pose proof (lbucket_range q). lia. Qed.

Lemma parent_covered path q : is_parent path q = true -> exists v, v ∈ parent_visit path /\ lcovers v q.
Proof.
  unfold is_parent, parent_visit. intros H%bool_decide_eq_true. destruct (PathCacheParent path) as [d|]; [|done].
  exists (VLDrop d). split; [left|]. by injection H.
Qed.

Lemma erases_covered inv q : erases inv q -> exists v, v ∈ visits inv /\ covers v q.
Proof.
  destruct inv as [path|dir|]; cbn [erases visits]; [|..|done].
  - intros H. exists (VDrop path). split; [left|done].
  - intros H. exists (VSweep dir (Z.to_nat (PathCacheBucket q))). split; [|done]. apply elem_of_app. left.
    apply (list_elem_of_fmap_2 (VSweep dir)), elem_of_seq. pose proof (path_bucket_range q). lia.
Qed.

Lemma lerases_covered inv q : lerases inv q -> exists v, v ∈ visits inv /\ lcovers v q.
Proof.
  destruct inv as [path|dir|]; cbn [lerases visits].
  - intros [H|H]; [exists (VLDrop path); split; [right; left|done]|].
    destruct (parent_covered path q H) as (v & Hv & Hc). exists v. split; [by do 2 right|done].
  - intros [H|H].
    + exists (VLSweep (Some dir) (Z.to_nat (ListingCacheBucket q))). split; [|done]. apply elem_of_app. right. apply elem_of_app. left.
      apply (list_elem_of_fmap_2 (VLSweep (Some dir))), in_lbuckets.
    + destruct (parent_covered dir q H) as (v & Hv & Hc). exists v. split; [|done]. apply elem_of_app. right. apply elem_of_app. by right.
  - intros _. exists (VLSweep None (Z.to_nat (ListingCacheBucket q))). split; [|done]. right.
    apply (list_elem_of_fmap_2 (VLSweep None)), in_lbuckets.
Qed.
End Reachable.

(** C4: No result read before an invalidation survives it.  Take a ticket in
    any state the caches can reach; let any steps of any threads follow, among
    them an invalidation that begins after the ticket was taken and finishes.
    From then on the ticket is refused, and whatever the path cache holds for a
    path the invalidation names, or the listing cache for a directory it
    names, was read under a later ticket.  Lookups hand out the entry's own
    sequence, so the same holds of what is inserted from a cached listing. *)
Theorem overtaken_result_never_survives {nls : Nls} (w0 w : WORLD) (now : Z) (f : FLIGHT) :
  reachable w0 -> rtc world_step w0 w ->
  f ∈ w_flights w -> (forall f0, f0 ∈ w_flights w0 -> fl_seq f0 <> fl_seq f) -> fl_todo f = [] ->
  let t := BlorgPathCacheTakeTicket (w_st w0) now in
  PathCacheTicketHonoured (w_st w) (Some t) = false /\
  (forall q e, erases (fl_inv f) q -> held (w_st w) q = Some e -> TicketSequence t < EntrySequence e) /\
  (forall q e, lerases (fl_inv f) q -> lheld (w_st w) q = Some e -> TicketSequence t < LSequence e).
Proof.
  intros Hr Hsteps Hf Hnew Htodo t. pose proof (world_reachable_inv _ Hr) as Hinv0. pose proof (world_steps_inv _ _ Hsteps Hinv0) as Hinv.
  destruct (steps_seq _ _ Hsteps Hinv0) as [Hmono Hseq].
  destruct (Hseq f Hf) as [(f0 & Hf0 & Heq)|Hlt]; [by destruct (Hnew f0 Hf0)|].
  pose proof (inv_flights _ Hinv f Hf) as [Hv Hb Hc]. rewrite Htodo, app_nil_r in Hv. rewrite Hv in Hc. split_and!.
  - cbn. apply Z.eqb_neq. lia.
  - intros q e Hq He. destruct (erases_covered _ _ Hq) as (v & Hin & Hcov). destruct (Hc v Hin) as [H _].
    specialize (H q e Hcov He). cbn. lia.
  - intros q e Hq He. destruct (lerases_covered _ _ Hq) as (v & Hin & Hcov). destruct (Hc v Hin) as [_ H].
    specialize (H q e Hcov He). cbn. lia.
Qed.

(** The concrete run the witnesses below use: a result is inserted, then its
    path is invalidated. *)
Module Demo.
Definition blank : PATH_CACHE_STATE := mkState [] [] 0 0 false 0 0 false ∅.
Definition st0 : PATH_CACHE_STATE := BlorgPathCacheInit blank.
Definition w0 : WORLD := mkWorld st0 (fun _ => 0) [].
Definition a_path : PATH := [92; 97; 92; 98].
Definition meta1 : DIRECTORY_ENTRY_METADATA := mkMeta 7 1 2 3 false false.
Definition t1 : PATH_CACHE_TICKET := BlorgPathCacheTakeTicket st0 5.
Definition st1 : PATH_CACHE_STATE := insert_section st0 a_path true (Some meta1) (Some t1) 5 9 0 PATH_CACHE_TTL_100NS.
Definition w1 : WORLD := mkWorld st1 (fun _ => 0) [].
Definition inv : INVALIDATION := InvalidatePath a_path.
Definition exec1 (st : PATH_CACHE_STATE) (v : VISIT) : PATH_CACHE_STATE := default st (exec_visit st v).
Definition st2 : PATH_CACHE_STATE := PathCacheAdvanceSequence st1.
Definition st3 : PATH_CACHE_STATE := exec1 st2 (VDrop a_path).
Definition st4 : PATH_CACHE_STATE := exec1 st3 (VLDrop a_path).
Definition st5 : PATH_CACHE_STATE := exec1 st4 (VLDrop [92; 97]).
Definition flight : FLIGHT := mkFlight inv (Sequence st1 + 1) [VDrop a_path; VLDrop a_path; VLDrop [92; 97]] [].
Definition w5 : WORLD := mkWorld st5 (fun _ => 0) [flight].

Lemma w0_reachable : reachable w0.
Proof. exists w0. split; [exists blank; split; reflexivity|apply rtc_refl]. Qed.

Lemma w0_w1 : rtc world_step w0 w1.
Proof. apply rtc_once. apply step_insert. Qed.

Lemma w1_reachable : reachable w1.
Proof. exists w0. split; [exists blank; split; reflexivity|apply w0_w1]. Qed.

Lemma w1_w5 : rtc world_step w1 w5.
Proof.
  assert (Hv : visits inv = [VDrop a_path; VLDrop a_path; VLDrop [92; 97]]) by (vm_compute; reflexivity).
  pose proof (step_begin st1 (fun _ => 0) [] inv ltac:(vm_compute; reflexivity)) as Hb. rewrite Hv in Hb.
  eapply rtc_l; [exact Hb|].
  eapply rtc_l; [apply (step_visit st2 _ [] inv _ [] (VDrop a_path) [VLDrop a_path; VLDrop [92; 97]] [] st3); vm_compute; reflexivity|].
  eapply rtc_l; [apply (step_visit st3 _ [] inv _ [VDrop a_path] (VLDrop a_path) [VLDrop [92; 97]] [] st4); vm_compute; reflexivity|].
  apply rtc_once, (step_visit st4 _ [] inv _ [VDrop a_path; VLDrop a_path] (VLDrop [92; 97]) [] [] st5). vm_compute. reflexivity.
Qed.
End Demo.

Lemma overtaken_result_never_survives_witness :
  PathCacheTicketHonoured (w_st Demo.w5) (Some Demo.t1) = false /\
  held (w_st Demo.w1) Demo.a_path <> None /\ held (w_st Demo.w5) Demo.a_path = None.
Proof.
  split; [|split; vm_compute; [discriminate|reflexivity]].
  apply (overtaken_result_never_survives Demo.w0 Demo.w5 5 Demo.flight).
  - apply Demo.w0_reachable.
  - etransitivity; [apply Demo.w0_w1|apply Demo.w1_w5].
  - left.
  - intros f0 Hf0. inversion Hf0.
  - reflexivity.
Defined.

(** With every critical section taken as one step (the listing budget between
    the steps of sections is [PathCacheBudget]'s): in every state the caches
    can reach, whatever the order of sections,
    a bucket's count is the number of its entries and never above the cap,
    no two entries of a bucket have paths equal but for case, the global
    entry count is exact, the bytes charged are exactly those of the listings
    held and never above the 32 MB budget, and every snapshot's reference
    count is the references its clients hold plus the entries naming it. *)
Theorem cache_accounts_exact {nls : Nls} (w : WORLD) :
  reachable w ->
  (forall i b, Buckets (w_st w) !! i = Some b ->
     Count b = Z.of_nat (length (List b)) /\ Count b <= PATH_CACHE_MAX_PER_BUCKET /\ NoDup ((fun e => fold_path (EntryPath e)) <$> List b)) /\
  CacheCount (w_st w) = total (fun b => Z.of_nat (length (List b))) (Buckets (w_st w)) /\
  (forall i b, ListingBuckets (w_st w) !! i = Some b ->
     Count b = Z.of_nat (length (List b)) /\ Count b <= LISTING_CACHE_MAX_PER_BUCKET /\ NoDup ((fun e => fold_path (LPath e)) <$> List b)) /\
  ListingBytes (w_st w) = total (fun b => total LBytes (List b)) (ListingBuckets (w_st w)) /\
  0 <= ListingBytes (w_st w) <= LISTING_CACHE_MAX_BYTES /\
  (forall p, refs_of (w_st w) p = w_hold w p + lrefs (ListingBuckets (w_st w)) p).
Proof.
  intros Hr. pose proof (reachable_wf _ Hr) as [[[_ Hp] Hc] [[_ Hl] Ha] _].
  pose proof (acc_bytes _ _ _ Ha) as Hb. change (sum_bytes []) with 0 in Hb. rewrite Z.add_0_r in Hb. split_and!.
  - intros i b Hi. destruct (Hp _ _ Hi) as [H1 H2 _ H3]. split_and!; [done|lia|done].
  - exact Hc.
  - intros i b Hi. destruct (Hl _ _ Hi) as [H1 H2 _ H3]. split_and!; [done|lia|done].
  - exact Hb.
  - rewrite Hb. by eapply bytes_nonneg.
  - by apply acc_budget in Ha.
  - intros p. rewrite (acc_refs _ _ _ Ha). change (refs_in p []) with 0. lia.
Qed.

Lemma cache_accounts_exact_witness : CacheCount Demo.st1 = 1 /\ 0 <= ListingBytes Demo.st1 <= LISTING_CACHE_MAX_BYTES.
Proof.
  destruct (cache_accounts_exact Demo.w1 Demo.w1_reachable) as (_ & _ & _ & _ & H & _).
  split; [vm_compute; reflexivity|exact H].
Defined.

(** No operation on the caches touches a freed snapshot or indexes out
    of a table: in every reachable state each critical section of each
    invalidation, a listing lookup, a publication of a snapshot its caller
    holds, and the release of a held reference are all defined. *)
Theorem cache_steps_defined {nls : Nls} (w : WORLD) :
  reachable w -> (forall p, w_hold w p <= MAX_HOLDERS) ->
  (forall inv v, v ∈ visits inv -> exists st', exec_visit (w_st w) v = Some st') /\
  (forall dir allowStale now, exists r, BlorgPathCacheLookupListing (w_st w) dir allowStale now = Some r) /\
  (forall dir p t allocOk now, 0 < w_hold w p -> exists r, BlorgPathCachePublishListing (w_st w) dir p t allocOk now = Some r) /\
  (forall p, 0 < w_hold w p -> exists st', BlorgReleaseDirectoryInfo (w_st w) p = Some st').
Proof.
  intros Hr Hmax. pose proof (reachable_wf _ Hr) as Hwf. split_and!.
  - intros inv v Hv. destruct (exec_visit_spec _ _ v Hwf (visits_ok inv v Hv)) as (st' & H & _). eauto.
  - intros dir allowStale now. destruct (Ready (w_st w)) eqn:Hrd; [|unfold BlorgPathCacheLookupListing; rewrite Hrd; by eexists].
    destruct (decide (dir = [])) as [->|Hd]; [unfold BlorgPathCacheLookupListing; rewrite orb_true_r; by eexists|].
    destruct (lookup_spec _ _ dir allowStale now (wf_listings _ _ Hwf) Hmax Hrd Hd) as (st' & hit & H & _). eauto.
  - intros dir p t allocOk now Hp. destruct (publish_spec _ _ dir p t allocOk now Hwf (conj Hp (Hmax p))) as (st' & c & _ & _ & H & _). eauto.
  - intros p Hp. destruct (release_spec _ _ p (wf_listings _ _ Hwf) Hp) as (st' & H & _). eauto.
Qed.

Lemma cache_steps_defined_witness : exists r, BlorgPathCacheLookupListing Demo.st1 Demo.a_path true 12 = Some r.
Proof.
  apply (cache_steps_defined Demo.w1 Demo.w1_reachable). intros p. vm_compute. discriminate.
Defined.

(** Insert then look up: an insertion that is not refused is what the
    next lookup of the path, in any case, answers (with the entry's own
    ticket), for as long as the entry's lifetime, and it adds an answer for no
    other path. *)
Theorem insert_then_find {nls : Nls} (w : WORLD) path q m (t : PATH_CACHE_TICKET) now now' :
  reachable w -> Ready (w_st w) = true -> path <> [] -> path_bytes path <= PATH_CACHE_MAX_PATH_BYTES -> NoStore m = false ->
  TicketSequence t = Sequence (w_st w) ->
  let st' := BlorgPathCacheInsertExists (w_st w) path m (Some t) true now in
  (fold_path path = fold_path q -> PathCacheAge (TicketIssueTime t) now' < PathCacheLifetime (w_st w) ->
     BlorgPathCacheLookupDated st' q now' = PathCacheExists m t) /\
  (fold_path path <> fold_path q ->
     BlorgPathCacheLookupDated st' q now' = BlorgPathCacheLookupDated (w_st w) q now' \/ BlorgPathCacheLookupDated st' q now' = PathCacheMiss).
Proof.
  intros Hr Hrd Hne Hlen Hns Hseq st'. pose proof (wf_paths _ _ (reachable_wf _ Hr)) as Hwf.
  assert (Hr' : Ready st' = true) by (destruct (insert_wf (w_st w) path true (Some m) (Some t) true now Hwf) as [_ (bs & c & H)]; unfold st', BlorgPathCacheInsertExists; by rewrite H).
  destruct (insert_held (w_st w) path true (Some m) (Some t) true now Hwf) as [(e & He & Ha) Hoth].
  { unfold insert_refused. rewrite Hrd, Hns, (proj2 (Z.ltb_ge _ _)) by done. by destruct path. }
  { cbn. by apply Z.eqb_eq. }
  assert (Hst : CacheGeneration st' = CacheGeneration (w_st w) /\ ChangeFeedLive st' = ChangeFeedLive (w_st w)).
  { destruct (insert_wf (w_st w) path true (Some m) (Some t) true now Hwf) as [_ (bs & c & H)]. unfold st', BlorgPathCacheInsertExists. by rewrite H. }
  destruct Hst as [Hg Hf]. unfold BlorgPathCacheLookupDated. split.
  - intros Hq Hage. rewrite find_judge; [|done|intros ->; by apply (f_equal length) in Hq; destruct path].
    rewrite <- (held_fold _ _ _ Hq). change (held st' path = Some e) in He. rewrite He. destruct Ha as [_ H2 H3 H4 H5 H6].
    cbn in H2, H3, H4, H5. unfold judge, PathCacheEntryLive. rewrite H5, H2, H4, Hg, Z.eqb_refl, (H6 m eq_refl eq_refl), H3.
    unfold PathCacheLifetime in *. rewrite Hf. rewrite (proj2 (Z.ltb_lt _ _)) by done. cbn. by destruct t.
  - intros Hq. destruct q as [|c q]; [left; unfold PathCacheFind; by rewrite !orb_true_r|].
    rewrite !find_judge by done. destruct (held st' (c :: q)) as [x|] eqn:Hx; [left|by right].
    rewrite (Hoth _ _ Hq Hx). unfold judge, PathCacheLifetime. by rewrite Hg, Hf.
Qed.

Lemma insert_then_find_witness :
  BlorgPathCacheLookupDated (BlorgPathCacheInsertExists Demo.st1 [92; 99] Demo.meta1 (Some (mkTicket 0 9)) true 20) [92; 67] 30 =
    PathCacheExists Demo.meta1 (mkTicket 0 9).
Proof.
  apply (insert_then_find Demo.w1 [92; 99] [92; 67] Demo.meta1 (mkTicket 0 9) 20 30).
  - apply Demo.w1_reachable.
  - reflexivity.
  - discriminate.
  - vm_compute. discriminate.
  - reflexivity.
  - vm_compute. reflexivity.
  - vm_compute. reflexivity.
  - vm_compute. reflexivity.
Defined.

(** What an insertion may cost: a live entry of another path is lost
    only when the path is new to a bucket that holds the maximum number of
    live entries, and then only the oldest of them, the bucket's first. *)
Theorem insert_evicts_only_oldest {nls : Nls} (w : WORLD) path exists_ meta t allocOk now q e :
  reachable w -> fold_path path <> fold_path q -> held (w_st w) q = Some e ->
  PathCacheEntryLive e now (CacheGeneration (w_st w)) (PathCacheLifetime (w_st w)) = true ->
  held (PathCacheInsert (w_st w) path exists_ meta t allocOk now) q = Some e \/
  held (w_st w) path = None /\
  exists b l, Buckets (w_st w) !! Z.to_nat (PathCacheBucket path) = Some b /\
    List.filter (fun e => PathCacheEntryLive e now (CacheGeneration (w_st w)) (PathCacheLifetime (w_st w))) (List b) = e :: l /\
    Z.of_nat (length (e :: l)) = PATH_CACHE_MAX_PER_BUCKET.
Proof.
  intros Hr Hq He Hl. pose proof (wf_paths _ _ (reachable_wf _ Hr)) as Hwf.
  destruct (insert_refused (w_st w) path exists_ meta allocOk) eqn:Href; [left; by rewrite insert_refuses by auto|].
  destruct (PathCacheTicketHonoured (w_st w) t) eqn:Ht; [|left; rewrite insert_refuses; [done|right; split; [apply Hwf|done]]].
  rewrite insert_is_section by done.
  destruct (section_held (w_st w) path exists_ meta t (match t with Some t => TicketIssueTime t | None => now end) now
    (CacheGeneration (w_st w)) (PathCacheLifetime (w_st w)) Hwf Ht) as (_ & _ & Hk).
  destruct (Hk q e Hq He Hl) as [?|(Hn & b & Hb & l & Hf)]; [by left|]. right. split; [done|]. by exists b, l.
Qed.

Lemma insert_evicts_only_oldest_witness :
  exists e, held Demo.st1 Demo.a_path = Some e /\
    (held (PathCacheInsert Demo.st1 [92; 99] false None None true 20) Demo.a_path = Some e \/ held Demo.st1 [92; 99] = None).
Proof.
  destruct (held Demo.st1 Demo.a_path) as [e|] eqn:He; [|vm_compute in He; discriminate]. exists e. split; [reflexivity|].
  destruct (insert_evicts_only_oldest Demo.w1 [92; 99] false None None true 20 Demo.a_path e) as [H|[H _]];
    [apply Demo.w1_reachable|vm_compute; discriminate|exact He| |left; exact H|right; exact H].
  vm_compute in He. injection He as <-. vm_compute. reflexivity.
Defined.

Section Answers.
Context {nls : Nls}.
Implicit Types (st : PATH_CACHE_STATE) (q : PATH).

(** Answers before and after a call that drops exactly what [drops] and
    [ldrops] select. *)
Definition forgets_exactly st st' (drops ldrops : PATH -> bool) : Prop :=
  forall q now, q <> [] ->
    PathCacheFind st' q now = (if drops q then PathCacheMiss else PathCacheFind st q now) /\
    lheld st' q = (if ldrops q then None else lheld st q).

Lemma invalidated_forgets st st' drops ldrops :
  Ready st = true -> CacheGeneration st' = CacheGeneration st -> invalidated st st' drops ldrops ->
  (forall p q, fold_path p = fold_path q -> drops p = drops q) -> (forall p q, fold_path p = fold_path q -> ldrops p = ldrops q) ->
  forgets_exactly st st' drops ldrops.
Proof.
  intros Hr Hg (Hs & Hr' & Hf & Hh & Hl) Hd Hld q now Hq. rewrite Hr in Hr'. split.
  - rewrite !find_judge, Hh by done. destruct (held st q) as [e|] eqn:He; [|by destruct (drops q)]. cbn.
    rewrite (Hd _ q) by (by eapply held_key). destruct (drops q); [done|]. unfold judge, PathCacheLifetime. by rewrite Hg, Hf.
  - rewrite Hl. destruct (lheld st q) as [e|] eqn:He; [|by destruct (ldrops q)]. cbn.
    rewrite (Hld _ q) by (by eapply lheld_key). done.
Qed.

Lemma equal_fold_r path p q : fold_path p = fold_path q -> RtlEqualUnicodeString path p = RtlEqualUnicodeString path q.
Proof. intros H. unfold RtlEqualUnicodeString. by rewrite H. Qed.

Lemma parent_fold_r path p q : fold_path p = fold_path q -> is_parent path p = is_parent path q.
Proof. intros H. unfold is_parent. by rewrite H. Qed.

Lemma under_fold_r dir p q : fold_path p = fold_path q -> PathCacheIsUnder dir p = PathCacheIsUnder dir q.
Proof. intros H. apply eq_true_iff_eq. rewrite !is_under_spec. by rewrite H. Qed.

Lemma old_ticket_refused st st' (t : PATH_CACHE_TICKET) :
  0 <= Sequence st < MAXLONG64 -> Sequence st' = s64 (Sequence st + 1) -> TicketSequence t <= Sequence st ->
  PathCacheTicketHonoured st' (Some t) = false.
Proof. intros Hs H Ht. cbn. rewrite H, s64_id by (unfold MAXLONG64 in *; lia). apply Z.eqb_neq. lia. Qed.
End Answers.

(** Invalidating one path makes the next lookup of it, in any case, a
    miss, and drops its listing and the listing of the directory it sits in;
    every other path's answer and every other listing stay exactly as they
    were, and every ticket taken before is refused. *)
Theorem invalidate_forgets_path {nls : Nls} (w : WORLD) path :
  reachable w -> Ready (w_st w) = true -> path <> [] ->
  exists st', BlorgPathCacheInvalidate (w_st w) path = Some st' /\
    forgets_exactly (w_st w) st' (RtlEqualUnicodeString path) (fun q => RtlEqualUnicodeString path q || is_parent path q) /\
    (Sequence (w_st w) < MAXLONG64 -> forall t, TicketSequence t <= Sequence (w_st w) -> PathCacheTicketHonoured st' (Some t) = false).
Proof.
  intros Hr Hrd Hp. pose proof (world_reachable_inv _ Hr) as [Hwf Hseq _].
  destruct (invalidate_spec _ _ path Hwf Hrd Hp) as (st' & H & _ & Hg & Hi). exists st'. split; [done|]. split.
  - apply invalidated_forgets; try done; [apply equal_fold_r|].
    intros p q Hpq. by rewrite (equal_fold_r _ _ _ Hpq), (parent_fold_r _ _ _ Hpq).
  - intros Hlt t Ht. eapply old_ticket_refused; [split; [apply Hseq|exact Hlt]|apply Hi|done].
Qed.

Lemma invalidate_forgets_path_witness :
  PathCacheFind Demo.st1 Demo.a_path 12 <> PathCacheMiss /\
  exists st', BlorgPathCacheInvalidate Demo.st1 Demo.a_path = Some st' /\ PathCacheFind st' [92; 65; 92; 66] 12 = PathCacheMiss.
Proof.
  split; [vm_compute; discriminate|].
  destruct (invalidate_forgets_path Demo.w1 Demo.a_path Demo.w1_reachable) as (st' & H & Hf & _); [reflexivity|discriminate|].
  exists st'. split; [exact H|]. destruct (Hf [92; 65; 92; 66] 12) as [Hq _]; [discriminate|]. rewrite Hq. vm_compute. reflexivity.
Defined.

(** Invalidating a directory's subtree does the same for exactly the
    directory and what lies beneath it, with the listing of the directory it
    sits in. *)
Theorem invalidate_prefix_forgets_subtree {nls : Nls} (w : WORLD) dir :
  reachable w -> Ready (w_st w) = true -> dir <> [] ->
  exists st', BlorgPathCacheInvalidatePrefix (w_st w) dir = Some st' /\
    forgets_exactly (w_st w) st' (PathCacheIsUnder dir) (fun q => PathCacheIsUnder dir q || is_parent dir q) /\
    (Sequence (w_st w) < MAXLONG64 -> forall t, TicketSequence t <= Sequence (w_st w) -> PathCacheTicketHonoured st' (Some t) = false).
Proof.
  intros Hr Hrd Hp. pose proof (world_reachable_inv _ Hr) as [Hwf Hseq _].
  destruct (invalidate_prefix_spec _ _ dir Hwf Hrd Hp) as (st' & H & _ & Hg & Hi). exists st'. split; [done|]. split.
  - apply invalidated_forgets; try done; [apply under_fold_r|].
    intros p q Hpq. by rewrite (under_fold_r _ _ _ Hpq), (parent_fold_r _ _ _ Hpq).
  - intros Hlt t Ht. eapply old_ticket_refused; [split; [apply Hseq|exact Hlt]|apply Hi|done].
Qed.

Lemma invalidate_prefix_forgets_subtree_witness :
  exists st', BlorgPathCacheInvalidatePrefix Demo.st1 [92; 65] = Some st' /\ PathCacheFind st' Demo.a_path 12 = PathCacheMiss.
Proof.
  destruct (invalidate_prefix_forgets_subtree Demo.w1 [92; 65] Demo.w1_reachable) as (st' & H & Hf & _); [reflexivity|discriminate|].
  exists st'. split; [exact H|]. destruct (Hf Demo.a_path 12) as [Hq _]; [discriminate|]. rewrite Hq. vm_compute. reflexivity.
Defined.

(** Every path that had an answer misses from then on, no listing is held and
    none of the budget is charged, and every older ticket is refused. *)
Definition forgets_everything {nls : Nls} (st st' : PATH_CACHE_STATE) : Prop :=
  ListingBytes st' = 0 /\
  (forall q now now', PathCacheFind st q now <> PathCacheMiss -> PathCacheFind st' q now' = PathCacheMiss) /\
  (forall q, lheld st' q = None) /\
  (Sequence st < MAXLONG64 -> forall t, TicketSequence t <= Sequence st -> PathCacheTicketHonoured st' (Some t) = false).

Lemma invalidate_all_forgets {nls : Nls} hold st :
  cache_wf hold st -> Ready st = true -> 0 <= Sequence st ->
  exists st', BlorgPathCacheInvalidateAll st = Some st' /\ cache_wf hold st' /\ Ready st' = true /\ ChangeFeedLive st' = ChangeFeedLive st /\
    forall live, forgets_everything st (with_ChangeFeedLive st' live).
Proof.
  intros Hwf Hrd Hseq. destruct (invalidate_all_spec _ _ Hwf Hrd) as (st' & H & Hwf' & Hg & Hb & Hs & Hr' & Hf & Hh & Hl).
  exists st'. split; [done|]. split_and!; try congruence. intros live. split_and!; [done| | |].
  - intros q now now' Hq. assert (Hne : q <> []) by (intros ->; unfold PathCacheFind in Hq; by rewrite orb_true_r in Hq).
    rewrite find_judge in Hq |- *; [|done..|cbn; congruence|done].
    change (held (with_ChangeFeedLive st' live) q) with (held st' q). rewrite Hh. unfold judge in *.
    destruct (held st q) as [e|]; [|done]. cbn [mbind option_bind].
    unfold PathCacheEntryLive in *. cbn [CacheGeneration with_ChangeFeedLive]. rewrite Hg.
    destruct (Z.eqb_spec (Generation e) (u32 (CacheGeneration st))) as [Heq|]; [|by rewrite andb_false_r in Hq].
    rewrite (proj2 (Z.eqb_neq (Generation e) _)); [by rewrite andb_false_r|]. rewrite Heq. clear. unfold u32, s32. intros Hx.
    set (g := CacheGeneration st) in *. clearbody g. pose proof (Z.mod_pos_bound (g + 1 + 2147483648) 4294967296).
    apply (f_equal (fun x => x mod 4294967296)) in Hx. Z.div_mod_to_equations. lia.
  - intros q. change (lheld (with_ChangeFeedLive st' live) q) with (lheld st' q). rewrite Hl. by destruct (lheld st q).
  - intros Hlt t Ht. eapply (old_ticket_refused st); [split; [apply Hseq|exact Hlt]|exact Hs|done].
Qed.

(** When the change feed comes up, nothing cached before is served
    under the long lifetime: every path that had an answer misses from then
    on, no listing is held and none of the budget is charged, and every ticket
    taken before is refused.  When it goes down only the flag changes. *)
Theorem feed_live_trusts_nothing_older {nls : Nls} (w : WORLD) :
  reachable w -> Ready (w_st w) = true ->
  (exists st', BlorgPathCacheFollowFeed (w_st w) true = Some st' /\ ChangeFeedLive st' = true /\ forgets_everything (w_st w) st') /\
  BlorgPathCacheFollowFeed (w_st w) false = Some (with_ChangeFeedLive (w_st w) false).
Proof.
  intros Hr Hrd. pose proof (world_reachable_inv _ Hr) as [Hwf [Hseq _] _]. split; [|done].
  destruct (invalidate_all_forgets _ _ Hwf Hrd Hseq) as (st' & H & _ & _ & _ & Hf).
  unfold BlorgPathCacheFollowFeed. rewrite H. cbn [mbind option_bind]. eexists. split; [done|]. by split.
Qed.

Lemma feed_live_trusts_nothing_older_witness :
  exists st', BlorgPathCacheFollowFeed Demo.st1 true = Some st' /\ PathCacheFind st' Demo.a_path 12 = PathCacheMiss.
Proof.
  destruct (feed_live_trusts_nothing_older Demo.w1 Demo.w1_reachable) as [(st' & H & _ & _ & Hq & _) _]; [reflexivity|].
  exists st'. split; [exact H|]. apply (Hq Demo.a_path 12). vm_compute. discriminate.
Defined.
