(* ===== verification/PathCacheBudget.v ===== *)
(** * The listing cache's byte budget, access by access (src/PathCache.c)

    [PathCache.ListingBytes] is shared by every bucket: a publish reads it,
    adds to it and takes back under its own bucket's lock only, while others
    do the same under theirs.  Here a critical section is a [SECTION]: the
    accesses it makes to what it shares, one at a time, each followed by what
    the code does with the answer; the bucket itself is the section's own
    while it has the lock.  Any number of sections, one per bucket, run
    interleaved, and between them clients look listings up, release them and
    bring new ones.  [section_publish], [section_drop] and [section_sweep] are
    the code of [publish_locked], [ListingCacheDrop] and [lsweep_locked] in
    that form; run without a break they are those definitions. *)

From S2P Require Import Prelude UnicodePath PathCache PathCacheOps PathCacheListings PathCachePublish.

Abbreviation LBUCKET := (PATH_CACHE_BUCKET LISTING_CACHE_ENTRY).

Inductive SECTION :=
  | Leave (current : bool)                       (* the lock is released *)
  | ReadSequence (k : Z -> SECTION)
  | ReadListingBytes (k : Z -> SECTION)          (* ReadNoFence64 *)
  | AddListingBytes (n : Z) (k : Z -> SECTION)   (* InterlockedExchangeAdd64: the value before *)
  | ReferenceListing (p : Z) (k : SECTION)
  | ReleaseListing (p : Z) (k : SECTION)
  | WriteBucket (b : LBUCKET) (k : SECTION).

Section Sections.
Context {nls : Nls}.
Implicit Types (l kept todo : list LISTING_CACHE_ENTRY) (e : LISTING_CACHE_ENTRY) (count : Z).

(** [ListingCacheRemoveEntry]: [l] is the list with the entry unlinked. *)
Definition section_remove l count e (k : Z -> SECTION) : SECTION :=
  let count := u32 (count - 1) in
  WriteBucket (mkBucket l count) (AddListingBytes (- LBytes e) (fun _ => ReleaseListing (Listing e) (k count))).

(** A walk of the bucket that removes what [f] selects. *)
Fixpoint section_sweep (f : LISTING_CACHE_ENTRY -> bool) kept todo count (k : list LISTING_CACHE_ENTRY -> Z -> SECTION) : SECTION :=
  match todo with
  | [] => k kept count
  | e :: todo =>
      if f e then section_remove (kept ++ todo) count e (fun count => section_sweep f kept todo count k)
      else section_sweep f (kept ++ [e]) todo count k
  end.

(** [while (ListingBytes + bytes > MAX && !IsListEmpty)] remove the head. *)
Fixpoint section_evict (bytes : Z) l count (k : list LISTING_CACHE_ENTRY -> Z -> SECTION) : SECTION :=
  ReadListingBytes (fun held =>
    if LISTING_CACHE_MAX_BYTES <? held + bytes then
      match l with
      | [] => k [] count
      | e :: l => section_remove l count e (fun count => section_evict bytes l count k)
      end
    else k l count).

(** Making room, if evicting the whole bucket could. *)
Definition section_room (bytes : Z) l count (k : list LISTING_CACHE_ENTRY -> Z -> SECTION) : SECTION :=
  ReadListingBytes (fun held =>
    if held - sum_bytes l + bytes <=? LISTING_CACHE_MAX_BYTES then
      match l with
      | e :: l' =>
          if LISTING_CACHE_MAX_PER_BUCKET <=? count then section_remove l' count e (fun count => section_evict bytes l' count k)
          else section_evict bytes l count k
      | [] => section_evict bytes l count k
      end
    else k l count).

(** [ListingCacheCharge], and what each answer leads to. *)
Definition section_charge (bytes : Z) (yes no : SECTION) : SECTION :=
  AddListingBytes bytes (fun held =>
    if held + bytes <=? LISTING_CACHE_MAX_BYTES then yes else AddListingBytes (- bytes) (fun _ => no)).

Definition section_link e l count : SECTION :=
  section_charge (LBytes e) (ReferenceListing (Listing e) (WriteBucket (mkBucket (l ++ [e]) (u32 (count + 1))) (Leave true))) (Leave true).

Definition section_insert (new : option LISTING_CACHE_ENTRY) (bytes : Z) l count : SECTION :=
  match new with None => Leave true | Some e => section_room bytes l count (fun l count => section_link e l count) end.

(** The ticket is good: the walk, what replaces [existing], the insertion. *)
Definition section_walk (dir : PATH) (new : option LISTING_CACHE_ENTRY) (bytes issueTime now generation lifetime : Z) (b : LBUCKET) : SECTION :=
  section_sweep (fun e => negb (ListingCacheEntryLive e now generation lifetime)) [] (List b) (Count b) (fun kept count =>
    match extract_last dir kept with
    | None => section_insert new bytes kept count
    | Some (existing, rest) =>
        if issueTime <? LIssueTime existing then Leave false
        else section_remove rest count existing (fun count => section_insert new bytes rest count)
    end).

(** The critical section of [BlorgPathCachePublishListing]; [new] is the entry
    built outside the lock, but for its sequence. *)
Definition section_publish (dir : PATH) (t : option PATH_CACHE_TICKET) (new : option (Z -> LISTING_CACHE_ENTRY))
    (bytes issueTime now generation lifetime : Z) (b : LBUCKET) : SECTION :=
  let honoured (new : option LISTING_CACHE_ENTRY) :=
    match t with
    | None => section_walk dir new bytes issueTime now generation lifetime b
    | Some t => ReadSequence (fun sequence => if TicketSequence t =? sequence then section_walk dir new bytes issueTime now generation lifetime b else Leave false)
    end in
  match new, t with
  | None, _ => honoured None
  | Some new, Some t => honoured (Some (new (TicketSequence t)))
  | Some new, None => ReadSequence (fun sequence => honoured (Some (new sequence)))
  end.

Definition section_drop (dir : PATH) (b : LBUCKET) : SECTION :=
  match remove_first (fun e => RtlEqualUnicodeString (LPath e) dir) (List b) with
  | (l, Some e) => section_remove l (Count b) e (fun _ => Leave true)
  | (_, None) => Leave true
  end.

Definition section_drop_all (f : LISTING_CACHE_ENTRY -> bool) (b : LBUCKET) : SECTION :=
  section_sweep f [] (List b) (Count b) (fun _ _ => Leave true).
End Sections.

(** ** Running sections *)

(** One access of a section that has bucket [i]'s lock. *)
Definition access (st : PATH_CACHE_STATE) (i : nat) (s : SECTION) : option (PATH_CACHE_STATE * SECTION) :=
  match s with
  | Leave _ => None
  | ReadSequence k => Some (st, k (Sequence st))
  | ReadListingBytes k => Some (st, k (ListingBytes st))
  | AddListingBytes n k => Some (with_ListingBytes st (s64 (ListingBytes st + n)), k (ListingBytes st))
  | ReferenceListing p k => st ← BlorgReferenceDirectoryInfo st p; Some (st, k)
  | ReleaseListing p k => st ← BlorgReleaseDirectoryInfo st p; Some (st, k)
  | WriteBucket b k => _ ← ListingBuckets st !! i; Some (with_ListingBuckets st (<[i := b]> (ListingBuckets st)), k)
  end.

(** A section run without a break. *)
Fixpoint run_section (st : PATH_CACHE_STATE) (i : nat) (s : SECTION) : option (PATH_CACHE_STATE * bool) :=
  match s with
  | Leave current => Some (st, current)
  | ReadSequence k => run_section st i (k (Sequence st))
  | ReadListingBytes k => run_section st i (k (ListingBytes st))
  | AddListingBytes n k => run_section (with_ListingBytes st (s64 (ListingBytes st + n))) i (k (ListingBytes st))
  | ReferenceListing p k => st ← BlorgReferenceDirectoryInfo st p; run_section st i k
  | ReleaseListing p k => st ← BlorgReleaseDirectoryInfo st p; run_section st i k
  | WriteBucket b k => _ ← ListingBuckets st !! i; run_section (with_ListingBuckets st (<[i := b]> (ListingBuckets st))) i k
  end.

(** A section in progress: its bucket, the listing its caller publishes and
    holds a reference on, and what it has left to do. *)
Record RUNNING := mkRunning { r_Bucket : nat; r_Caller : option Z; r_Section : SECTION }.

Record SHARED_CACHE := mkShared {
  sc_St : PATH_CACHE_STATE;
  sc_Hold : Z -> Z;
  sc_Running : list RUNNING
}.

Definition callers (running : list RUNNING) (p : Z) : Z := total (fun t => if bool_decide (r_Caller t = Some p) then 1 else 0) running.
Definition unlocked (running : list RUNNING) (i : nat) : Prop := i ∉ (r_Bucket <$> running).

Section System.
Context {nls : Nls}.

(** The other steps: a snapshot comes with the reference of whoever fetched
    it; its block is the client's, below 4 GB.  A caller that publishes keeps
    its reference until the publish returns.  Nothing else touches the
    listings: not the path cache, nor the sequence, the generation or the feed. *)
Inductive shared_step : SHARED_CACHE -> SHARED_CACHE -> Prop :=
  | share_publish st hold running dir listing d r t allocOk issueTime now generation lifetime b :
      Snapshots st !! listing = Some (d, r) -> callers running listing < hold listing ->
      unlocked running (Z.to_nat (ListingCacheBucket dir)) -> ListingBuckets st !! Z.to_nat (ListingCacheBucket dir) = Some b ->
      let bytes := ListingCacheSizeOf d in
      let new := if allocOk : bool then Some (fun sequence => mkLEntry dir listing bytes issueTime sequence (u32 generation) false) else None in
      shared_step (mkShared st hold running)
        (mkShared st hold (mkRunning (Z.to_nat (ListingCacheBucket dir)) (Some listing) (section_publish dir t new bytes issueTime now generation lifetime b) :: running))
  | share_drop st hold running dir b :
      unlocked running (Z.to_nat (ListingCacheBucket dir)) -> ListingBuckets st !! Z.to_nat (ListingCacheBucket dir) = Some b ->
      shared_step (mkShared st hold running) (mkShared st hold (mkRunning (Z.to_nat (ListingCacheBucket dir)) None (section_drop dir b) :: running))
  | share_sweep st hold running f i b :
      unlocked running i -> ListingBuckets st !! i = Some b ->
      shared_step (mkShared st hold running) (mkShared st hold (mkRunning i None (section_drop_all f b) :: running))
  | share_access st hold r1 i c s r2 st' s' :
      access st i s = Some (st', s') ->
      shared_step (mkShared st hold (r1 ++ mkRunning i c s :: r2)) (mkShared st' hold (r1 ++ mkRunning i c s' :: r2))
  | share_leave st hold r1 i c current r2 :
      shared_step (mkShared st hold (r1 ++ mkRunning i c (Leave current) :: r2)) (mkShared st hold (r1 ++ r2))
  | share_lookup st hold running dir allowStale now st' hit :
      unlocked running (Z.to_nat (ListingCacheBucket dir)) -> (forall p, hold p < MAX_HOLDERS) ->
      BlorgPathCacheLookupListing st dir allowStale now = Some (st', hit) ->
      shared_step (mkShared st hold running) (mkShared st' (match HitListing hit with Some p => hold_add hold p | None => hold end) running)
  | share_release st hold running p st' :
      callers running p < hold p -> BlorgReleaseDirectoryInfo st p = Some st' ->
      shared_step (mkShared st hold running) (mkShared st' (hold_sub hold p) running)
  | share_snapshot st hold running p d :
      Snapshots st !! p = None -> 0 < InfoBytes d < 4294967296 ->
      shared_step (mkShared st hold running) (mkShared (with_Snapshots st (<[p := (d, 1)]> (Snapshots st))) (hold_add hold p) running)
  | share_other st hold running st' :
      ListingBuckets st' = ListingBuckets st -> ListingBytes st' = ListingBytes st -> Snapshots st' = Snapshots st ->
      shared_step (mkShared st hold running) (mkShared st' hold running).

(** The cache as [BlorgPathCacheInit] leaves its listing part. *)
Definition shared_initial (w : SHARED_CACHE) : Prop :=
  exists st, w = mkShared st (fun _ => 0) [] /\ ListingBuckets st = replicate (Z.to_nat LISTING_CACHE_BUCKETS) (mkBucket [] 0) /\ ListingBytes st = 0 /\ Snapshots st = ∅.
Definition shared_reachable (w : SHARED_CACHE) : Prop := exists w0, shared_initial w0 /\ rtc shared_step w0 w.
End System.

(** ** What a section may do

    [c]: the bytes counted in [ListingBytes] for this section and not in its
    bucket's list; [a]: those of them that passed the budget's test; [o]: the
    references it has in hand.  A charge passes when the sum, others' charges
    included, is within the budget; only bytes that passed are linked. *)

Definition CHARGE_MAX : Z := 8589934592.
Abbreviation MAXB := LISTING_CACHE_MAX_BYTES.

Section Typing.
Context {nls : Nls}.

Definition shelf_ok (i : nat) (b : LBUCKET) : Prop := bucket_ok LPath ListingCacheBucket MAXB i b /\ Forall (fun e => 0 < LBytes e) (List b).

Fixpoint allowed (i : nat) (caller : option Z) (s : SECTION) (l : list LISTING_CACHE_ENTRY) (c a : Z) (o : Z -> Z) : Prop :=
  match s with
  | Leave _ => c = 0 /\ a = 0 /\ forall p, o p = 0
  | ReadSequence k | ReadListingBytes k => forall v, allowed i caller (k v) l c a o
  | AddListingBytes n k =>
      if 0 <=? n then c + n <= CHARGE_MAX /\ forall v, allowed i caller (k v) l (c + n) (if v + n <=? MAXB then a + n else a) o
      else a <= c + n /\ forall v, allowed i caller (k v) l (c + n) a o
  | ReferenceListing p k => caller = Some p /\ (forall q, o q <= 2) /\ allowed i caller k l c a (fun q => o q + if p =? q then 1 else 0)
  | ReleaseListing p k => 1 <= o p /\ allowed i caller k l c a (fun q => o q - if p =? q then 1 else 0)
  | WriteBucket b k =>
      let d := sum_bytes (List b) - sum_bytes l in
      d <= a /\ c - d <= CHARGE_MAX /\ (forall p, 0 <= o p + refs_in p l - refs_in p (List b) <= 3) /\ (sum_bytes (List b) <= MAXB -> shelf_ok i b) /\
      (sum_bytes (List b) <= MAXB -> allowed i caller k (List b) (c - d) (if 0 <=? d then a - d else a) (fun p => o p + refs_in p l - refs_in p (List b)))
  end.

Record GHOST := mkGhost { g_Charge : Z; g_Approved : Z; g_Own : Z -> Z }.

Definition keeps (st : PATH_CACHE_STATE) (t : RUNNING) (g : GHOST) : Prop :=
  exists b, ListingBuckets st !! r_Bucket t = Some b /\ allowed (r_Bucket t) (r_Caller t) (r_Section t) (List b) (g_Charge g) (g_Approved g) (g_Own g) /\
    0 <= g_Approved g <= g_Charge g /\ g_Charge g <= CHARGE_MAX /\ forall p, 0 <= g_Own g p <= 3.

Record shared_inv (w : SHARED_CACHE) (gs : list GHOST) : Prop := {
  v_bytes : ListingBytes (sc_St w) = total bytes_in (ListingBuckets (sc_St w)) + total g_Charge gs;
  v_budget : total bytes_in (ListingBuckets (sc_St w)) + total g_Approved gs <= MAXB;
  v_table : length (ListingBuckets (sc_St w)) = Z.to_nat LISTING_CACHE_BUCKETS;
  v_shelves i b : ListingBuckets (sc_St w) !! i = Some b -> shelf_ok i b;
  v_keeps : Forall2 (keeps (sc_St w)) (sc_Running w) gs;
  v_locks : NoDup (r_Bucket <$> sc_Running w);
  v_refs p : refs_of (sc_St w) p = sc_Hold w p + lrefs (ListingBuckets (sc_St w)) p + total (fun g => g_Own g p) gs;
  v_callers p : callers (sc_Running w) p <= sc_Hold w p <= MAX_HOLDERS;
  v_live p d r : Snapshots (sc_St w) !! p = Some (d, r) -> 0 < r /\ 0 < InfoBytes d < 4294967296
}.

(** ** Bounds *)

Lemma length_bytes l : Forall (fun e => 0 < LBytes e) l -> Z.of_nat (length l) <= sum_bytes l.
Proof. intros Hf. rewrite sum_bytes_total. induction Hf as [|e l He _ IH]; [done|]. rewrite total_cons. cbn [length]. lia. Qed.
Lemma shelf_bytes i b : shelf_ok i b -> Z.of_nat (length (List b)) <= bytes_in b.
Proof. intros [_ Hf]. by apply length_bytes. Qed.

Lemma shelf_refs i b p : shelf_ok i b -> 0 <= refs_in p (List b) <= bytes_in b.
Proof. intros Hb%shelf_bytes. pose proof (refs_in_nonneg p (List b)). lia. Qed.

Lemma total_mono {A} (f g : A -> Z) l : (forall x, x ∈ l -> f x <= g x) -> total f l <= total g l.
Proof. induction l as [|x l IH]; intros H; [done|]. rewrite !total_cons. pose proof (H x ltac:(left)). assert (total f l <= total g l) by (apply IH; intros; apply H; by right). lia. Qed.

Section Inv.
Context (w : SHARED_CACHE) (gs : list GHOST) (Hinv : shared_inv w gs).

Lemma held_bytes : 0 <= total bytes_in (ListingBuckets (sc_St w)) /\ forall p, 0 <= lrefs (ListingBuckets (sc_St w)) p <= total bytes_in (ListingBuckets (sc_St w)).
Proof.
  assert (Hs : forall b, b ∈ ListingBuckets (sc_St w) -> exists i, shelf_ok i b) by (intros b [i Hi]%list_elem_of_lookup; exists i; by eapply v_shelves).
  split; [apply total_nonneg; intros b [i Hb]%Hs; apply shelf_bytes in Hb; lia|]. intros p. split; [apply lrefs_nonneg|]. apply total_mono. intros b [i Hb]%Hs. by apply (shelf_refs i).
Qed.

Lemma few_running : Z.of_nat (length gs) <= 256.
Proof.
  pose proof (v_keeps _ _ Hinv) as Hk. rewrite <- (Forall2_length _ _ _ Hk), <- (length_fmap r_Bucket). pose proof (v_locks _ _ Hinv) as Hn.
  assert (Hsub : (r_Bucket <$> sc_Running w) ⊆+ seq 0 256).
  { apply NoDup_submseteq; [done|]. intros i Hi. apply list_elem_of_fmap in Hi as (t & -> & Ht). apply list_elem_of_lookup in Ht as [k Ht].
    destruct (Forall2_lookup_l _ _ _ _ _ Hk Ht) as (g & _ & b & Hb & _). apply lookup_lt_Some in Hb. rewrite (v_table _ _ Hinv) in Hb. apply elem_of_seq. change (Z.to_nat LISTING_CACHE_BUCKETS) with 256%nat in Hb. lia. }
  apply submseteq_length in Hsub. rewrite length_seq in Hsub. lia.
Qed.

Lemma ghost_bounds g : g ∈ gs -> 0 <= g_Approved g <= g_Charge g /\ g_Charge g <= CHARGE_MAX /\ forall p, 0 <= g_Own g p <= 3.
Proof. intros [k Hg]%list_elem_of_lookup. destruct (Forall2_lookup_r _ _ _ _ _ (v_keeps _ _ Hinv) Hg) as (t & _ & b & _ & _ & H). exact H. Qed.

Lemma ghost_totals : 0 <= total g_Approved gs <= total g_Charge gs /\ total g_Charge gs <= 256 * CHARGE_MAX /\ forall p, 0 <= total (fun g => g_Own g p) gs <= 768.
Proof.
  pose proof few_running. pose proof ghost_bounds as Hb. split_and!.
  - apply total_nonneg. intros g Hg. apply Hb in Hg as [? _]; lia.
  - apply total_mono. intros g Hg. apply Hb in Hg as [? _]. lia.
  - pose proof (total_bound g_Charge gs CHARGE_MAX ltac:(intros g Hg; by apply Hb in Hg as (_ & ? & _))). unfold CHARGE_MAX in *. lia.
  - intros p. split; [apply total_nonneg; intros g Hg; apply Hb in Hg as (_ & _ & Ho); by apply Ho|].
    pose proof (total_bound (fun g => g_Own g p) gs 3 ltac:(intros g Hg; apply Hb in Hg as (_ & _ & Ho); specialize (Ho p); lia)). lia.
Qed.

Lemma refs_small p : 0 <= refs_of (sc_St w) p < 1200000000 /\ callers (sc_Running w) p <= refs_of (sc_St w) p.
Proof.
  pose proof (v_refs _ _ Hinv p). pose proof (v_callers _ _ Hinv p). destruct held_bytes as [Hz Hl]. specialize (Hl p). destruct ghost_totals as (Ha & _ & Ho). specialize (Ho p). pose proof (v_budget _ _ Hinv).
  assert (0 <= callers (sc_Running w) p) by (apply total_nonneg; intros t _; case_bool_decide; lia). unfold MAX_HOLDERS, LISTING_CACHE_MAX_BYTES in *. lia.
Qed.

Lemma bytes_range : 0 <= ListingBytes (sc_St w) <= 2200000000000.
Proof. pose proof (v_bytes _ _ Hinv). pose proof (v_budget _ _ Hinv). destruct held_bytes as [Hz _]. destruct ghost_totals as (Ha & Hc & _). unfold CHARGE_MAX, LISTING_CACHE_MAX_BYTES in *. lia. Qed.
End Inv.

(** ** One access *)

Lemma keeps_frame st st' r gs : (forall j, j ∈ r_Bucket <$> r -> ListingBuckets st' !! j = ListingBuckets st !! j) -> Forall2 (keeps st) r gs -> Forall2 (keeps st') r gs.
Proof.
  intros Hj. induction 1 as [|t g r gs (b & Hb & Hrest) _ IH]; constructor; [|apply IH; intros j ?; apply Hj; by right].
  exists b. split; [rewrite Hj; [done|left]|done].
Qed.

(** A section goes on: what changes is its bucket, its ghosts, the counter and
    the references. *)
Lemma inv_resume st hold r1 i c s s' r2 g1 g g2 st' g' b b' :
  shared_inv (mkShared st hold (r1 ++ mkRunning i c s :: r2)) (g1 ++ g :: g2) -> length r1 = length g1 -> ListingBuckets st !! i = Some b ->
  ListingBuckets st' = <[i := b']> (ListingBuckets st) ->
  ListingBytes st' = ListingBytes st + (bytes_in b' - bytes_in b) + (g_Charge g' - g_Charge g) ->
  total bytes_in (ListingBuckets st') + total g_Approved (g1 ++ g' :: g2) <= MAXB -> shelf_ok i b' ->
  allowed i c s' (List b') (g_Charge g') (g_Approved g') (g_Own g') -> 0 <= g_Approved g' <= g_Charge g' -> g_Charge g' <= CHARGE_MAX -> (forall p, 0 <= g_Own g' p <= 3) ->
  (forall p, refs_of st' p = refs_of st p + (refs_in p (List b') - refs_in p (List b)) + (g_Own g' p - g_Own g p)) ->
  (forall p d r, Snapshots st' !! p = Some (d, r) -> 0 < r /\ 0 < InfoBytes d < 4294967296) ->
  shared_inv (mkShared st' hold (r1 ++ mkRunning i c s' :: r2)) (g1 ++ g' :: g2).
Proof.
  intros [V1 V2 V3 V4 V5 V6 V7 V8 V9] Hlen Hb Hbs Hby Hbud Hsh Hall Hap Hch Hown Hrefs Hlive. cbn [sc_St sc_Hold sc_Running] in *.
  assert (Hi : (i < length (ListingBuckets st))%nat) by (by apply lookup_lt_Some in Hb).
  split; cbn [sc_St sc_Hold sc_Running]; try done.
  - rewrite Hby, V1, Hbs, (total_insert _ _ _ _ _ Hb), !total_app, !total_cons. lia.
  - by rewrite Hbs, length_insert.
  - intros j bj. rewrite Hbs. intros [(-> & <- & _)|[_ Hj]]%list_lookup_insert_Some; [done|by apply V4].
  - rewrite fmap_app in V6. cbn [fmap list_fmap r_Bucket] in V6. apply NoDup_app in V6 as (N1 & N2 & N3). apply NoDup_cons in N3 as [N3 N4].
    apply Forall2_app_inv in V5 as [K1 K2]; [|done]. apply Forall2_cons in K2 as [_ K2]. apply Forall2_app; [|constructor].
    + eapply keeps_frame; [|exact K1]. intros j Hj. rewrite Hbs, list_lookup_insert_ne; [done|]. intros ->. apply (N2 _ Hj). left.
    + exists b'. cbn [r_Bucket r_Caller r_Section]. rewrite Hbs, list_lookup_insert_eq by done. split_and!; first [done|lia].
    + eapply keeps_frame; [|exact K2]. intros j Hj. rewrite Hbs, list_lookup_insert_ne; [done|]. by intros ->.
  - by rewrite fmap_app in *.
  - intros p. rewrite Hrefs, V7. unfold lrefs. rewrite Hbs, (total_insert _ _ _ _ _ Hb), !total_app, !total_cons. lia.
  - intros p. specialize (V8 p). unfold callers in *. rewrite total_app, total_cons in *. cbn [r_Caller] in *. lia.
Qed.

Lemma caller_holds st hold r1 i p s r2 gs : shared_inv (mkShared st hold (r1 ++ mkRunning i (Some p) s :: r2)) gs -> 1 <= refs_of st p.
Proof.
  intros H. pose proof (refs_small _ _ H p) as [_ Hc]. cbn [sc_Running sc_St] in Hc. unfold callers in Hc. rewrite total_app, total_cons in Hc. cbn [r_Caller] in Hc.
  rewrite bool_decide_eq_true_2 in Hc by done. assert (forall l, 0 <= total (fun t => if bool_decide (r_Caller t = Some p) then 1 else 0) l) as Hn by (intros l; apply total_nonneg; intros t _; case_bool_decide; lia).
  pose proof (Hn r1). pose proof (Hn r2). lia.
Qed.

Lemma own_part gs g1 g g2 p : gs = g1 ++ g :: g2 -> (forall x, x ∈ gs -> forall p, 0 <= g_Own x p <= 3) -> g_Own g p <= total (fun g => g_Own g p) gs.
Proof.
  intros -> Ho. rewrite total_app, total_cons. assert (Hn : forall l, (forall x, x ∈ l -> x ∈ g1 ++ g :: g2) -> 0 <= total (fun g => g_Own g p) l) by (intros l Hl; apply total_nonneg; intros x Hx; by apply Ho, Hl).
  pose proof (Hn g1 ltac:(intros; set_solver)). pose proof (Hn g2 ltac:(intros; set_solver)). lia.
Qed.

Lemma own_approved g1 g g2 : (forall x, x ∈ g1 ++ g :: g2 -> 0 <= g_Approved x <= g_Charge x) -> g_Approved g <= total g_Approved (g1 ++ g :: g2).
Proof. intros Ha. apply (total_lookup g_Approved _ (length g1)); [intros x Hx; by apply Ha|]. by rewrite lookup_app_r, Nat.sub_diag by lia. Qed.

(** A reference is dropped that the section has in hand. *)
Lemma release_listing st p r : refs_of st p = r -> 0 < r < 2147483648 ->
  exists st', BlorgReleaseDirectoryInfo st p = Some st' /\ ListingBuckets st' = ListingBuckets st /\ ListingBytes st' = ListingBytes st /\
    (forall q, refs_of st' q = refs_of st q - if p =? q then 1 else 0) /\ (forall q d r', Snapshots st' !! q = Some (d, r') -> exists r0, Snapshots st !! q = Some (d, r0) /\ (r0 = r' \/ 0 < r')).
Proof.
  unfold refs_of, BlorgReleaseDirectoryInfo. intros Hr Hb. destruct (Snapshots st !! p) as [[d r0]|] eqn:E; [|lia]. cbn [mbind option_bind]. subst r0. rewrite s32_id by lia.
  destruct (Z.eqb_spec (r - 1) 0) as [Hz|Hz]; eexists; (split; [done|]); cbn [with_Snapshots ListingBuckets ListingBytes Snapshots]; split_and!; try done.
  - intros q. destruct (Z.eqb_spec p q) as [<-|Hne]; [rewrite lookup_delete_eq, E; lia|rewrite lookup_delete_ne by done; lia].
  - intros q d' r' [_ Hq]%lookup_delete_Some. eauto.
  - intros q. destruct (Z.eqb_spec p q) as [<-|Hne]; [rewrite lookup_insert_eq, E; lia|rewrite lookup_insert_ne by done; lia].
  - intros q d' r' [[<- [= <- <-]]|[_ Hq]]%lookup_insert_Some; [exists r; split; [done|right; lia]|eauto].
Qed.

Lemma reference_listing st p r : refs_of st p = r -> 0 < r < 2147483647 ->
  exists st', BlorgReferenceDirectoryInfo st p = Some st' /\ ListingBuckets st' = ListingBuckets st /\ ListingBytes st' = ListingBytes st /\
    (forall q, refs_of st' q = refs_of st q + if p =? q then 1 else 0) /\ (forall q d r', Snapshots st' !! q = Some (d, r') -> exists r0, Snapshots st !! q = Some (d, r0) /\ (r0 = r' \/ 0 < r')).
Proof.
  unfold refs_of, BlorgReferenceDirectoryInfo. intros Hr Hb. destruct (Snapshots st !! p) as [[d r0]|] eqn:E; [|lia]. cbn [mbind option_bind]. subst r0. rewrite s32_id by lia.
  eexists. split; [done|]. cbn [with_Snapshots ListingBuckets ListingBytes Snapshots]. split_and!; try done.
  - intros q. destruct (Z.eqb_spec p q) as [<-|Hne]; [rewrite lookup_insert_eq, E; lia|rewrite lookup_insert_ne by done; lia].
  - intros q d' r' [[<- [= <- <-]]|[_ Hq]]%lookup_insert_Some; [exists r; split; [done|right; lia]|eauto].
Qed.

Lemma live_kept st st' : (forall p d r, Snapshots st !! p = Some (d, r) -> 0 < r /\ 0 < InfoBytes d < 4294967296) ->
  (forall q d r', Snapshots st' !! q = Some (d, r') -> exists r0, Snapshots st !! q = Some (d, r0) /\ (r0 = r' \/ 0 < r')) ->
  forall p d r, Snapshots st' !! p = Some (d, r) -> 0 < r /\ 0 < InfoBytes d < 4294967296.
Proof. intros Hl Hk p d r (r0 & H0 & Hr)%Hk. apply Hl in H0. destruct Hr as [<-|?]; tauto. Qed.

(** Every access of a section in progress is defined and keeps the books. *)
Lemma access_ok st hold r1 i c s r2 gs :
  shared_inv (mkShared st hold (r1 ++ mkRunning i c s :: r2)) gs -> (exists current, s = Leave current) \/
  exists st' s' gs', access st i s = Some (st', s') /\ shared_inv (mkShared st' hold (r1 ++ mkRunning i c s' :: r2)) gs'.
Proof.
  intros Hinv. pose proof (v_keeps _ _ Hinv) as Hk. cbn [sc_Running sc_St] in Hk. apply Forall2_app_inv_l in Hk as (g1 & g' & K1 & K2 & ->). apply Forall2_cons_inv_l in K2 as (g & g2 & (b & Hb & Hall & Hap & Hch & Hown) & K2 & ->).
  pose proof (Forall2_length _ _ _ K1) as Hlen. cbn [r_Bucket r_Caller r_Section] in *. clear K1 K2. pose proof (bytes_range _ _ Hinv) as Hrange. pose proof (v_budget _ _ Hinv) as Hbud. pose proof (v_bytes _ _ Hinv) as Hby. cbn [sc_St] in *.
  pose proof (v_shelves _ _ Hinv _ _ Hb) as Hsh. cbn [sc_St] in *. pose proof (v_live _ _ Hinv) as Hlive. cbn [sc_St] in Hlive.
  destruct (ghost_totals _ _ Hinv) as (Ht1 & Ht2 & _). pose proof (held_bytes _ _ Hinv) as [Hheld _]. cbn [sc_St] in Hheld. rewrite !total_app, !total_cons in Hby, Hbud. do 2 (rewrite total_app, total_cons in Ht1). rewrite total_app, total_cons in Ht2.
  assert (Hsame : ListingBuckets st = <[i := b]> (ListingBuckets st)) by (by rewrite list_insert_id).
  destruct s as [current|k|k|n k|p k|p k|b' k]; [left; by exists current|right..]; cbn [access allowed] in *.
  - eexists _, _, _. split; [done|]. eapply (inv_resume st hold r1 i c _ _ r2 g1 g g2 st g b b); try done; first [apply Hall|lia|rewrite total_app, total_cons; lia|intros; lia].
  - eexists _, _, _. split; [done|]. eapply (inv_resume st hold r1 i c _ _ r2 g1 g g2 st g b b); try done; first [apply Hall|lia|rewrite total_app, total_cons; lia|intros; lia].
  - eexists _, _, (g1 ++ mkGhost (g_Charge g + n) (if (0 <=? n) && (ListingBytes st + n <=? MAXB) then g_Approved g + n else g_Approved g) (g_Own g) :: g2). split; [done|].
    assert (Hs : s64 (ListingBytes st + n) = ListingBytes st + n) by (unfold CHARGE_MAX in *; apply s64_id; destruct (Z.leb_spec 0 n); destruct Hall as [? _]; lia).
    eapply (inv_resume st hold r1 i c _ _ r2 g1 g g2 _ _ b b); try done; cbn [with_ListingBytes ListingBytes ListingBuckets g_Charge g_Approved g_Own]; try done; rewrite ?Hs; try lia.
    + rewrite total_app, total_cons. cbn [g_Approved]. destruct (Z.leb_spec 0 n), (Z.leb_spec (ListingBytes st + n) MAXB); cbn [andb]; lia.
    + destruct (Z.leb_spec 0 n); cbn [andb]; destruct Hall as [_ Hall]; apply Hall.
    + destruct (Z.leb_spec 0 n), (Z.leb_spec (ListingBytes st + n) MAXB); cbn [andb]; destruct Hall as [? _]; lia.
    + destruct (Z.leb_spec 0 n); destruct Hall as [? _]; lia.
    + intros p. change (refs_of (with_ListingBytes st _) p) with (refs_of st p). lia.
  - destruct Hall as (-> & Ho & Hall). pose proof (caller_holds _ _ _ _ _ _ _ _ Hinv) as H1. pose proof (refs_small _ _ Hinv p) as [Hr _]. cbn [sc_St] in Hr.
    destruct (reference_listing st p _ eq_refl) as (st' & -> & Eb & Ey & Er & Es); [lia|]. cbn [mbind option_bind]. eexists _, _, (g1 ++ mkGhost (g_Charge g) (g_Approved g) (fun q => g_Own g q + if p =? q then 1 else 0) :: g2). split; [done|].
    eapply (inv_resume st hold r1 i _ _ _ r2 g1 g g2 st' _ b b); try done; cbn [g_Charge g_Approved g_Own]; rewrite ?Eb, ?Ey; try done; try lia; [rewrite total_app, total_cons; cbn [g_Approved]; lia| |intros q; rewrite Er; lia|by eapply live_kept].
    intros q. specialize (Ho q). specialize (Hown q). destruct (p =? q); lia.
  - destruct Hall as (Ho & Hall). pose proof (refs_small _ _ Hinv p) as [Hr _]. cbn [sc_St] in Hr. pose proof (v_refs _ _ Hinv p) as Hrefs. pose proof (v_callers _ _ Hinv p) as Hcal. cbn [sc_St sc_Hold sc_Running] in *.
    pose proof (own_part _ g1 g g2 p eq_refl ltac:(intros x Hx; by apply (ghost_bounds _ _ Hinv) in Hx as (_ & _ & ?))) as Hpart. pose proof (lrefs_nonneg (ListingBuckets st) p).
    assert (0 <= callers (r1 ++ mkRunning i c (ReleaseListing p k) :: r2) p) by (apply total_nonneg; intros t _; case_bool_decide; lia).
    destruct (release_listing st p _ eq_refl) as (st' & -> & Eb & Ey & Er & Es); [lia|]. cbn [mbind option_bind]. eexists _, _, (g1 ++ mkGhost (g_Charge g) (g_Approved g) (fun q => g_Own g q - if p =? q then 1 else 0) :: g2). split; [done|].
    eapply (inv_resume st hold r1 i _ _ _ r2 g1 g g2 st' _ b b); try done; cbn [g_Charge g_Approved g_Own]; rewrite ?Eb, ?Ey; try done; try lia; [rewrite total_app, total_cons; cbn [g_Approved]; lia| |intros q; rewrite Er; lia|by eapply live_kept].
    intros q. specialize (Hown q). destruct (Z.eqb_spec p q) as [<-|]; lia.
  - destruct Hall as (Hd & Hcm & Ho & Hsh' & Hall). rewrite Hb. cbn [mbind option_bind]. set (d := sum_bytes (List b') - sum_bytes (List b)) in *.
    assert (Hsum : bytes_in b' = bytes_in b + d) by (unfold bytes_in, d; lia).
    assert (Htb : total bytes_in (<[i := b']> (ListingBuckets st)) = total bytes_in (ListingBuckets st) + d) by (rewrite (total_insert _ _ _ _ _ Hb); lia).
    assert (Hmax : sum_bytes (List b') <= MAXB).
    { assert (Hothers : bytes_in b <= total bytes_in (ListingBuckets st)) by (apply (total_lookup bytes_in _ i); [intros x [j Hx]%list_elem_of_lookup; apply (v_shelves _ _ Hinv), shelf_bytes in Hx; lia|done]).
      pose proof (own_approved g1 g g2 ltac:(intros x Hx; by apply (ghost_bounds _ _ Hinv) in Hx as [? _])) as Hga. rewrite total_app, total_cons in Hga. change (bytes_in b' <= MAXB). lia. }
    eexists _, _, (g1 ++ mkGhost (g_Charge g - d) (if 0 <=? d then g_Approved g - d else g_Approved g) (fun p => g_Own g p + refs_in p (List b) - refs_in p (List b')) :: g2). split; [done|].
    eapply (inv_resume st hold r1 i _ _ _ r2 g1 g g2 _ _ b b'); try done; cbn [with_ListingBuckets ListingBuckets ListingBytes g_Charge g_Approved g_Own]; try done; try lia.
    + rewrite total_app, total_cons, Htb. cbn [g_Approved]. destruct (Z.leb_spec 0 d); lia.
    + by apply Hsh'.
    + by apply Hall.
    + destruct (Z.leb_spec 0 d); lia.
    + intros p. change (refs_of (with_ListingBuckets st _) p) with (refs_of st p). lia.
Qed.

(** ** The code's sections are allowed *)

Lemma allowed_ext i caller s : forall l c a o o', (forall p, o p = o' p) -> allowed i caller s l c a o -> allowed i caller s l c a o'.
Proof.
  induction s as [current|k IH|k IH|n k IH|p k IH|p k IH|b k IH]; intros l c a o o' Ho; cbn [allowed].
  - intros (-> & -> & H). split_and!; try done. intros p. by rewrite <- Ho.
  - intros H v. by eapply IH.
  - intros H v. by eapply IH.
  - destruct (0 <=? n); intros [H1 H2]; (split; [done|]); intros v; by eapply IH.
  - intros (H1 & H2 & H3). split_and!; [done|intros q; by rewrite <- Ho|]. eapply IH; [|exact H3]. intros q. cbn. by rewrite Ho.
  - intros (H1 & H2). split; [by rewrite <- Ho|]. eapply IH; [|exact H2]. intros q. cbn. by rewrite Ho.
  - intros (H1 & H2 & H3 & H4 & H5). split_and!; try done; [intros p; by rewrite <- Ho|]. intros Hm. eapply IH; [|by apply H5]. intros q. cbn. by rewrite Ho.
Qed.

(** The bucket as a section has it: its list, its count, and within budget. *)
Definition shelf (i : nat) (l : list LISTING_CACHE_ENTRY) (count : Z) : Prop := shelf_ok i (mkBucket l count) /\ sum_bytes l <= MAXB.

Lemma shelf_count i l count : shelf i l count -> count = Z.of_nat (length l) /\ Z.of_nat (length l) <= MAXB /\ uniq LPath l.
Proof. intros [[[Hc Hm _ Hu] _] _]. cbn in *. by split_and!. Qed.

Lemma sum_sublist l l' : Forall (fun e => 0 < LBytes e) l' -> l `sublist_of` l' -> sum_bytes l <= sum_bytes l'.
Proof.
  intros Hp Hs. change (total LBytes l <= total LBytes l'). induction Hs as [|x l l' Hs IH|x l l' Hs IH]; [done|..]; rewrite Forall_cons in Hp; rewrite ?total_cons; destruct Hp as [? Hp]; specialize (IH Hp); lia.
Qed.

Lemma shelf_sublist i l l' count : shelf i l' count -> l `sublist_of` l' -> shelf i l (Z.of_nat (length l)).
Proof.
  intros [[Hb Hp] Hm] Hs. cbn [List] in *. split; [split|]; cbn [List].
  - by eapply (bucket_ok_sublist LPath _ _ _ (mkBucket l' count)).
  - apply Forall_forall. intros e He. rewrite Forall_forall in Hp. apply Hp. by eapply elem_of_sublist.
  - pose proof (sum_sublist _ _ Hp Hs). lia.
Qed.

Lemma shelf_entry i l count e : shelf i l count -> e ∈ l -> 0 < LBytes e <= MAXB.
Proof.
  intros [[_ Hp] Hm] He. cbn [List] in Hp. assert (LBytes e <= sum_bytes l); [|rewrite Forall_forall in Hp; specialize (Hp e He); lia].
  rewrite sum_bytes_total. apply list_elem_of_lookup in He as [k He]. apply (total_lookup LBytes _ k); [|done]. intros x Hx. rewrite Forall_forall in Hp. specialize (Hp x Hx). lia.
Qed.

Section Body.
Context (i : nat) (caller : option Z).

Lemma remove_allowed l0 l count e k c a o :
  shelf i l0 count -> l `sublist_of` l0 -> l0 ≡ₚ e :: l -> 0 <= a <= c -> c + MAXB <= CHARGE_MAX -> (forall p, 0 <= o p <= 2) ->
  allowed i caller (k (Z.of_nat (length l))) l c a o -> allowed i caller (section_remove l count e k) l0 c a o.
Proof.
  intros Hs Hsub Hperm Ha Hc Ho Hk. pose proof (shelf_entry i l0 count e Hs ltac:(rewrite Hperm; left)) as He. destruct (shelf_count _ _ _ Hs) as (Hcount & Hlen & _).
  pose proof (Permutation_length Hperm) as Hl. cbn [length] in Hl. assert (Hsum : sum_bytes l0 = LBytes e + sum_bytes l) by (change (total LBytes l0 = LBytes e + total LBytes l); rewrite (total_perm _ _ _ Hperm); apply total_cons).
  assert (Hrefs : forall p, refs_in p l0 = (if Listing e =? p then 1 else 0) + refs_in p l) by (intros p; unfold refs_in; rewrite (total_perm _ _ _ Hperm); apply total_cons).
  unfold section_remove. rewrite (u32_id (count - 1)) by (unfold LISTING_CACHE_MAX_BYTES in *; lia). replace (count - 1) with (Z.of_nat (length l)) by lia. cbn [allowed List].
  split_and!; [lia|lia| |by intros _; apply (shelf_sublist _ _ _ _ Hs Hsub)|intros _].
  - intros p. specialize (Ho p). rewrite Hrefs. destruct (_ =? p); lia.
  - rewrite (proj2 (Z.leb_gt 0 (sum_bytes l - sum_bytes l0))) by lia. rewrite (proj2 (Z.leb_gt 0 (- LBytes e))) by lia. split; [lia|]. intros _. split; [rewrite Hrefs, Z.eqb_refl; specialize (Ho (Listing e)); lia|].
    replace (c - (sum_bytes l - sum_bytes l0) + - LBytes e) with c by lia. eapply allowed_ext; [|exact Hk]. intros p. cbn. rewrite Hrefs. lia.
Qed.

Lemma sweep_allowed f k c a o : 0 <= a <= c -> c + MAXB <= CHARGE_MAX -> (forall p, 0 <= o p <= 2) -> forall todo kept count,
  shelf i (kept ++ todo) count -> (forall l, l `sublist_of` kept ++ todo -> shelf i l (Z.of_nat (length l)) -> allowed i caller (k l (Z.of_nat (length l))) l c a o) ->
  allowed i caller (section_sweep f kept todo count k) (kept ++ todo) c a o.
Proof.
  intros Ha Hc Ho. induction todo as [|e todo IH]; intros kept count Hs Hk; cbn [section_sweep].
  - destruct (shelf_count _ _ _ Hs) as (-> & _). rewrite app_nil_r in *. by apply Hk.
  - assert (Hsub : kept ++ todo `sublist_of` kept ++ e :: todo) by (apply sublist_app; [done|by apply sublist_cons]). destruct (f e).
    + apply remove_allowed; try done; [by rewrite <- Permutation_middle|]. apply IH; [by eapply shelf_sublist|]. intros l Hl. apply Hk. by etrans.
    + rewrite (cons_middle e kept todo), app_assoc. apply IH; [by rewrite <- app_assoc|]. intros l. rewrite <- app_assoc. apply Hk.
Qed.

Lemma evict_allowed bytes k c a o : 0 <= a <= c -> c + MAXB <= CHARGE_MAX -> (forall p, 0 <= o p <= 2) -> forall l count,
  shelf i l count -> (forall l', l' `sublist_of` l -> shelf i l' (Z.of_nat (length l')) -> allowed i caller (k l' (Z.of_nat (length l'))) l' c a o) ->
  allowed i caller (section_evict bytes l count k) l c a o.
Proof.
  intros Ha Hc Ho. induction l as [|e l IH]; intros count Hs Hk; cbn [section_evict allowed]; intros v; destruct (shelf_count _ _ _ Hs) as (Hcount & _).
  - rewrite Hcount in *. destruct (_ <? _); by apply (Hk []).
  - destruct (_ <? _); [|rewrite Hcount in *; by apply Hk]. apply remove_allowed; try done; [by apply sublist_cons|]. apply IH; [eapply shelf_sublist; [exact Hs|by apply sublist_cons]|].
    intros l' Hl'. apply Hk. by apply sublist_cons.
Qed.

Lemma room_allowed bytes k c a o l count : 0 <= a <= c -> c + MAXB <= CHARGE_MAX -> (forall p, 0 <= o p <= 2) ->
  shelf i l count -> (forall l', l' `sublist_of` l -> shelf i l' (Z.of_nat (length l')) -> allowed i caller (k l' (Z.of_nat (length l'))) l' c a o) ->
  allowed i caller (section_room bytes l count k) l c a o.
Proof.
  intros Ha Hc Ho Hs Hk. unfold section_room. cbn [allowed]. intros v. destruct (shelf_count _ _ _ Hs) as (Hcount & _). destruct (_ <=? MAXB); [|rewrite Hcount in *; by apply Hk].
  destruct l as [|e l]; [by apply evict_allowed|]. destruct (_ <=? count); [|by apply evict_allowed]. apply remove_allowed; try done; [by apply sublist_cons|].
  apply evict_allowed; try done; [eapply shelf_sublist; [exact Hs|by apply sublist_cons]|]. intros l' Hl'. apply Hk. by apply sublist_cons.
Qed.

Lemma link_allowed e l o : caller = Some (Listing e) -> 0 < LBytes e < 4294967296 -> Z.to_nat (ListingCacheBucket (LPath e)) = i -> fold_path (LPath e) ∉ keys LPath l ->
  shelf i l (Z.of_nat (length l)) -> (forall p, o p = 0) -> allowed i caller (section_link e l (Z.of_nat (length l))) l 0 0 o.
Proof.
  intros Hcal He Hhash Hnew Hs Ho. unfold section_link, section_charge, CHARGE_MAX. cbn [allowed]. rewrite (proj2 (Z.leb_le 0 (LBytes e))) by lia. split; [unfold CHARGE_MAX; lia|]. intros v. rewrite Z.add_0_l.
  destruct (_ <=? MAXB); cbn [allowed List].
  2: { rewrite (proj2 (Z.leb_gt 0 (- LBytes e))) by lia. split; [lia|]. intros _. split_and!; [lia|done|done]. }
  assert (Hsum : sum_bytes (l ++ [e]) = sum_bytes l + LBytes e) by (change (total LBytes (l ++ [e]) = total LBytes l + LBytes e); rewrite total_app, total_cons; cbn; lia).
  assert (Hrefs : forall p, refs_in p (l ++ [e]) = refs_in p l + if Listing e =? p then 1 else 0) by (intros p; unfold refs_in; rewrite total_app, total_cons; cbn; lia).
  split_and!; [done|intros q; rewrite Ho; lia|lia|unfold CHARGE_MAX; lia| | |intros _; rewrite (proj2 (Z.leb_le 0 (sum_bytes (l ++ [e]) - sum_bytes l))) by lia; split_and!; [lia|lia|]].
  - intros p. rewrite Ho, Hrefs. destruct (_ =? p); lia.
  - intros Hmax. destruct Hs as [[[_ _ Hh Hu] Hp] _]. cbn [List] in *. assert (Hlen : Z.of_nat (length (l ++ [e])) <= sum_bytes (l ++ [e])).
    { apply length_bytes, Forall_app. split; [done|]. apply Forall_singleton. lia. }
    split; [split|]; cbn [List Count].
    + unfold LISTING_CACHE_MAX_BYTES in *. rewrite length_app in *. cbn [length] in *. rewrite u32_id by lia. lia.
    + lia.
    + intros x [Hx| ->%list_elem_of_singleton]%elem_of_app; [by apply Hh|done].
    + unfold uniq, keys in *. rewrite fmap_app. apply NoDup_app. split_and!; [done| |apply NoDup_singleton]. intros x Hx ->%list_elem_of_singleton. done.
    + apply Forall_app. split; [done|]. apply Forall_singleton. lia.
  - intros p. rewrite Ho, Hrefs. lia.
Qed.

Definition no_own : Z -> Z := fun _ => 0.
Lemma no_own_small p : 0 <= no_own p <= 2.
Proof. unfold no_own. lia. Qed.

Lemma leave_allowed x l : allowed i caller (Leave x) l 0 0 no_own.
Proof. by split_and!. Qed.

Lemma drop_all_allowed f b : shelf i (List b) (Count b) -> allowed i caller (section_drop_all f b) (List b) 0 0 no_own.
Proof.
  intros Hs. apply (sweep_allowed f _ 0 0 no_own ltac:(lia) ltac:(done) no_own_small (List b) []); [done|]. intros l _ _. apply leave_allowed.
Qed.

Lemma drop_allowed dir b : shelf i (List b) (Count b) -> allowed i caller (section_drop dir b) (List b) 0 0 no_own.
Proof.
  intros Hs. unfold section_drop. set (f := fun e => RtlEqualUnicodeString (LPath e) dir). pose proof (remove_first_sublist f (List b)) as Hsub. pose proof (remove_first_perm f (List b)) as Hperm.
  destruct (remove_first f (List b)) as [l [e|]]; [|apply leave_allowed]. cbn [fst] in Hsub. apply remove_allowed; [done|done| |done|done|apply no_own_small|apply leave_allowed]. rewrite (Hperm _ _ eq_refl). by rewrite Permutation_app_comm.
Qed.

(** The entry a publish would link. *)
Definition new_ok (dir : PATH) (new : option LISTING_CACHE_ENTRY) : Prop :=
  forall e, new = Some e -> LPath e = dir /\ caller = Some (Listing e) /\ 0 < LBytes e < 4294967296.

Lemma insert_allowed dir new bytes l : i = Z.to_nat (ListingCacheBucket dir) -> new_ok dir new -> shelf i l (Z.of_nat (length l)) -> fold_path dir ∉ keys LPath l ->
  allowed i caller (section_insert new bytes l (Z.of_nat (length l))) l 0 0 no_own.
Proof.
  intros Hi Hx Hl Hk. destruct new as [e|]; [|apply leave_allowed]. destruct (Hx e eq_refl) as (Hp & Hc & Hb). apply room_allowed; [done|done|apply no_own_small|done|]. intros l' Hsub Hl'.
  apply link_allowed; try done; [by rewrite Hp|]. rewrite Hp. intros Hin. apply Hk. eapply elem_of_sublist; [exact Hin|by apply keys_sublist].
Qed.

Lemma walk_allowed dir new bytes issueTime now generation lifetime b : i = Z.to_nat (ListingCacheBucket dir) -> new_ok dir new -> shelf i (List b) (Count b) ->
  allowed i caller (section_walk dir new bytes issueTime now generation lifetime b) (List b) 0 0 no_own.
Proof.
  intros Hi Hx Hs. apply (sweep_allowed _ _ 0 0 no_own ltac:(lia) ltac:(done) no_own_small (List b) []); [done|]. intros l _ Hl. destruct (shelf_count _ _ _ Hl) as (_ & _ & Hu).
  rewrite (extract_last_remove dir l Hu). pose proof (findk_remove LPath dir dir l Hu) as Hrem. rewrite decide_True in Hrem by done. set (f := fun e => RtlEqualUnicodeString (LPath e) dir) in *.
  pose proof (remove_first_sublist f l) as Hsub. pose proof (remove_first_perm f l) as Hperm. pose proof (remove_first_find f l) as Hfind.
  destruct (remove_first f l) as [rest [e|]]; cbn [fst snd] in *.
  - destruct (_ <? _); [apply leave_allowed|]. apply remove_allowed; [done|done| |done|done|apply no_own_small|]; [by rewrite (Hperm _ _ eq_refl), Permutation_app_comm|].
    apply (insert_allowed dir); [done|done|by eapply shelf_sublist|by apply findk_None].
  - apply (insert_allowed dir); [done|done|done|]. symmetry in Hfind. by apply (findk_None LPath dir l).
Qed.

Lemma publish_allowed dir t new bytes issueTime now generation lifetime b :
  i = Z.to_nat (ListingCacheBucket dir) -> (forall new', new = Some new' -> forall sequence, new_ok dir (Some (new' sequence))) ->
  shelf i (List b) (Count b) -> allowed i caller (section_publish dir t new bytes issueTime now generation lifetime b) (List b) 0 0 no_own.
Proof.
  intros Hi Hnew Hs. unfold section_publish. destruct new as [new|], t as [t|]; cbn [allowed]; try (intros v); try destruct (_ =? v); try apply leave_allowed; apply walk_allowed; try done; by apply Hnew.
Qed.
End Body.

(** ** The other steps *)

Lemma inv_shelf st hold running gs i b : shared_inv (mkShared st hold running) gs -> ListingBuckets st !! i = Some b -> shelf i (List b) (Count b).
Proof.
  intros H Hb. pose proof (v_shelves _ _ H _ _ Hb) as Hs. split; [by destruct b|]. pose proof (v_budget _ _ H) as Hbud. destruct (ghost_totals _ _ H) as ([Ha _] & _). cbn [sc_St] in *.
  assert (bytes_in b <= total bytes_in (ListingBuckets st)); [|change (bytes_in b <= MAXB); lia]. apply (total_lookup bytes_in _ i); [|done]. intros x [j Hx]%list_elem_of_lookup. apply (v_shelves _ _ H), shelf_bytes in Hx. lia.
Qed.

Lemma shared_inv_enter st hold running gs i c s b :
  shared_inv (mkShared st hold running) gs -> unlocked running i -> ListingBuckets st !! i = Some b -> allowed i c s (List b) 0 0 no_own ->
  (forall p, c = Some p -> callers running p < hold p) -> shared_inv (mkShared st hold (mkRunning i c s :: running)) (mkGhost 0 0 no_own :: gs).
Proof.
  intros [V1 V2 V3 V4 V5 V6 V7 V8 V9] Hu Hb Ha Hc. cbn [sc_St sc_Hold sc_Running] in *. split; cbn [sc_St sc_Hold sc_Running]; rewrite ?total_cons; cbn [g_Charge g_Approved g_Own]; try done.
  - constructor; [|done]. exists b. cbn. unfold CHARGE_MAX, no_own. split_and!; try done; intros; lia.
  - by constructor.
  - intros p. specialize (V8 p). unfold callers in *. rewrite total_cons. cbn [r_Caller]. case_bool_decide as E; [specialize (Hc p E); lia|lia].
Qed.

Lemma inv_leave st hold r1 i c current r2 gs : shared_inv (mkShared st hold (r1 ++ mkRunning i c (Leave current) :: r2)) gs -> exists gs', shared_inv (mkShared st hold (r1 ++ r2)) gs'.
Proof.
  intros [V1 V2 V3 V4 V5 V6 V7 V8 V9]. cbn [sc_St sc_Hold sc_Running] in *. apply Forall2_app_inv_l in V5 as (g1 & g' & K1 & K2 & ->). apply Forall2_cons_inv_l in K2 as (g & g2 & (b & Hb & (Hc & Ha & Ho) & _) & K2 & ->).
  exists (g1 ++ g2). rewrite total_app, total_cons in V1, V2. split; cbn [sc_St sc_Hold sc_Running]; try done.
  - rewrite total_app. lia.
  - rewrite total_app. lia.
  - by apply Forall2_app.
  - rewrite fmap_app in *. cbn [fmap list_fmap] in V6. apply NoDup_app in V6 as (N1 & N2 & N3). apply NoDup_cons in N3 as [N3 N4]. apply NoDup_app. split_and!; try done. intros x Hx Hx'. apply (N2 x Hx). by right.
  - intros p. rewrite V7, !total_app, total_cons, Ho. lia.
  - intros p. specialize (V8 p). unfold callers in *. rewrite total_app, ?total_cons in *. case_bool_decide; lia.
Qed.

(** A client's step: the buckets stand. *)
Lemma inv_client st hold running gs st' hold' :
  shared_inv (mkShared st hold running) gs -> ListingBuckets st' = ListingBuckets st -> ListingBytes st' = ListingBytes st ->
  (forall p, refs_of st' p = refs_of st p + (hold' p - hold p)) -> (forall p, callers running p <= hold' p <= MAX_HOLDERS) ->
  (forall p d r, Snapshots st' !! p = Some (d, r) -> 0 < r /\ 0 < InfoBytes d < 4294967296) -> shared_inv (mkShared st' hold' running) gs.
Proof.
  intros [V1 V2 V3 V4 V5 V6 V7 V8 V9] Eb Ey Hr Hc Hl. cbn [sc_St sc_Hold sc_Running] in *. split; cbn [sc_St sc_Hold sc_Running]; rewrite ?Eb, ?Ey; try done.
  - eapply keeps_frame; [|exact V5]. intros j _. by rewrite Eb.
  - intros p. rewrite Hr, V7. lia.
Qed.

(** Claiming a refresh changes an entry's flag and nothing that is counted. *)
Lemma claim_alike dir l : (fun e => (LPath e, Listing e, LBytes e)) <$> claim_first dir l = (fun e => (LPath e, Listing e, LBytes e)) <$> l.
Proof. induction l as [|e l IH]; [done|]. cbn [claim_first]. destruct (RtlEqualUnicodeString _ _); [done|]. cbn. by rewrite IH. Qed.

Lemma alike_total (f : PATH * Z * Z -> Z) l l' : (fun e => (LPath e, Listing e, LBytes e)) <$> l = (fun e => (LPath e, Listing e, LBytes e)) <$> l' ->
  total (fun e => f (LPath e, Listing e, LBytes e)) l = total (fun e => f (LPath e, Listing e, LBytes e)) l'.
Proof. revert l'. induction l as [|e l IH]; intros [|e' l'] E; try done. cbn [fmap list_fmap] in E. injection E as E1 E2 E3 E. rewrite !total_cons, (IH _ E). by rewrite E1, E2, E3. Qed.

Lemma inv_claim st hold running gs i b dir : shared_inv (mkShared st hold running) gs -> unlocked running i -> ListingBuckets st !! i = Some b ->
  shared_inv (mkShared (with_ListingBuckets st (<[i := mkBucket (claim_first dir (List b)) (Count b)]> (ListingBuckets st))) hold running) gs.
Proof.
  intros [V1 V2 V3 V4 V5 V6 V7 V8 V9] Hu Hb. cbn [sc_St sc_Hold sc_Running] in *. set (b' := mkBucket _ _). pose proof (claim_alike dir (List b)) as Ha.
  assert (Hby : bytes_in b' = bytes_in b) by (exact (alike_total (fun x => x.2) _ _ Ha)).
  assert (Hrf : forall p, refs_in p (List b') = refs_in p (List b)) by (intros p; exact (alike_total (fun x => if x.1.2 =? p then 1 else 0) _ _ Ha)).
  assert (Hin : forall e, e ∈ List b' -> exists e0, e0 ∈ List b /\ LPath e0 = LPath e /\ LBytes e0 = LBytes e).
  { intros e He. assert (Hx : (LPath e, Listing e, LBytes e) ∈ (fun e => (LPath e, Listing e, LBytes e)) <$> List b) by (rewrite <- Ha; by apply (list_elem_of_fmap_2 (fun e => (LPath e, Listing e, LBytes e)))).
    apply list_elem_of_fmap in Hx as (e0 & E & He0). injection E as E1 E2 E3. by exists e0. }
  split; cbn [sc_St sc_Hold sc_Running with_ListingBuckets ListingBytes ListingBuckets Snapshots]; try done.
  - rewrite (total_insert _ _ _ _ _ Hb). lia.
  - rewrite (total_insert _ _ _ _ _ Hb). lia.
  - by rewrite length_insert.
  - intros j bj [(-> & <- & _)|[_ Hj]]%list_lookup_insert_Some; [|by apply V4]. destruct (V4 _ _ Hb) as [[H1 H2 H3 H4] H5]. pose proof (f_equal length Ha) as Hl. rewrite !length_fmap in Hl.
    split; [split|]; unfold b' in *; cbn [List Count] in *; [congruence|lia|intros e (e0 & He0 & <- & _)%Hin; by apply H3| |].
    + unfold uniq, keys in *. replace ((fun e => fold_path (LPath e)) <$> claim_first dir (List b)) with ((fun e => fold_path (LPath e)) <$> List b); [done|].
      pose proof (f_equal (fmap (fun x : PATH * Z * Z => fold_path x.1.1)) Ha) as Hk. rewrite <- !list_fmap_compose in Hk. by symmetry.
    + apply Forall_forall. intros e (e0 & He0 & _ & <-)%Hin. rewrite Forall_forall in H5. by apply H5.
  - eapply keeps_frame; [|exact V5]. intros j Hj. cbn. rewrite list_lookup_insert_ne; [done|]. intros ->. done.
  - intros p. change (refs_of (with_ListingBuckets st _) p) with (refs_of st p). unfold lrefs. rewrite (total_insert _ _ _ _ _ Hb), Hrf, V7. unfold lrefs. lia.
Qed.

Lemma shared_step_inv w w' gs : shared_inv w gs -> shared_step w w' -> exists gs', shared_inv w' gs'.
Proof.
  intros Hinv Hst. destruct Hst as [st hold running dir listing d r t allocOk issueTime now generation lifetime b Hsn Hc Hu Hb bytes new|st hold running dir b Hu Hb|st hold running f i b Hu Hb|
    st hold r1 i c s r2 st' s' Hac|st hold r1 i c current r2|st hold running dir allowStale now st' hit Hu Hh Hl|st hold running p st' Hc Hr|st hold running p d Hn Hd|st hold running st' E1 E2 E3].
  - eexists. eapply shared_inv_enter; [exact Hinv|done|exact Hb| |by intros p [= <-]]. apply publish_allowed; [done| |by eapply inv_shelf]. intros new' E sequence e [= <-]. unfold new in E. destruct allocOk; [|done]. injection E as <-. cbn.
    split_and!; try done; unfold bytes, ListingCacheSizeOf; apply (v_live _ _ Hinv) in Hsn as [_ Hs]; rewrite s64_id; lia.
  - eexists. eapply shared_inv_enter; [exact Hinv|done|exact Hb| |done]. apply drop_allowed. by eapply inv_shelf.
  - eexists. eapply shared_inv_enter; [exact Hinv|done|exact Hb| |done]. apply drop_all_allowed. by eapply inv_shelf.
  - destruct (access_ok _ _ _ _ _ _ _ _ Hinv) as [[current ->]|(st2 & s2 & gs' & Hac' & Hinv')]; [done|]. rewrite Hac in Hac'. injection Hac' as <- <-. by exists gs'.
  - by eapply inv_leave.
  - exists gs. unfold BlorgPathCacheLookupListing in Hl. destruct (negb (Ready st) || _); [by injection Hl as <- <-|]. destruct (ListingBuckets st !! _) as [b|] eqn:Hb; [|done]. cbn [mbind option_bind] in Hl.
    destruct (List.find _ (List b)) as [e|] eqn:Hf; [|by injection Hl as <- <-]. destruct (negb (ListingCacheEntryLive _ _ _ _)); [by injection Hl as <- <-|]. set (stale := _ <=? _) in Hl. destruct (negb stale || allowStale); [|by injection Hl as <- <-].
    destruct (refs_small _ _ Hinv (Listing e)) as [Hrs _]. pose proof (v_refs _ _ Hinv (Listing e)) as Hrf. pose proof (v_callers _ _ Hinv (Listing e)) as Hcl. cbn [sc_St sc_Hold sc_Running] in *.
    assert (H1 : 1 <= refs_of st (Listing e)).
    { apply List.find_some in Hf as [He%list_elem_of_In _]. assert (1 <= refs_in (Listing e) (List b)). { apply list_elem_of_lookup in He as [k He]. unfold refs_in. pose proof (total_lookup (fun e0 => if Listing e0 =? Listing e then 1 else 0) _ k e ltac:(intros x _; cbn beta; destruct (Listing x =? Listing e); lia) He) as Hone. cbn beta in Hone. by rewrite Z.eqb_refl in Hone. }
      assert (refs_in (Listing e) (List b) <= lrefs (ListingBuckets st) (Listing e)) by (apply (total_lookup (fun b => refs_in (Listing e) (List b)) _ (Z.to_nat (ListingCacheBucket dir))); [intros x _; apply refs_in_nonneg|done]).
      destruct (ghost_totals _ _ Hinv) as (_ & _ & Ho). specialize (Ho (Listing e)). assert (0 <= callers running (Listing e)) by (apply total_nonneg; intros x _; case_bool_decide; lia). lia. }
    destruct (reference_listing st (Listing e) _ eq_refl) as (st1 & E1 & Eb & Ey & Er & Es); [lia|]. rewrite E1 in Hl. cbn [mbind option_bind] in Hl.
    assert (Hinv1 : shared_inv (mkShared st1 (hold_add hold (Listing e)) running) gs).
    { eapply inv_client; [exact Hinv|done|done| | |by eapply live_kept; [apply (v_live _ _ Hinv)|]]; intros p; unfold hold_add; [rewrite Er|pose proof (v_callers _ _ Hinv p) as Hp; specialize (Hh p); cbn [sc_Hold sc_Running] in Hp]; destruct (Listing e =? p); lia. }
    destruct stale; injection Hl as <- <-; cbn [HitListing]; [|done]. by apply inv_claim; [..|by rewrite Eb].
  - exists gs. destruct (refs_small _ _ Hinv p) as [Hrs _]. pose proof (v_refs _ _ Hinv p) as Hrf. destruct (ghost_totals _ _ Hinv) as (_ & _ & Ho). specialize (Ho p). pose proof (lrefs_nonneg (ListingBuckets st) p). cbn [sc_St sc_Hold sc_Running] in *.
    assert (0 <= callers running p) by (apply total_nonneg; intros x _; case_bool_decide; lia). destruct (release_listing st p _ eq_refl) as (st1 & E1 & Eb & Ey & Er & Es); [lia|]. rewrite Hr in E1. injection E1 as <-.
    eapply inv_client; [exact Hinv|done|done| | |by eapply live_kept; [apply (v_live _ _ Hinv)|]]; intros q; unfold hold_sub; [rewrite Er; destruct (_ =? q); lia|]. pose proof (v_callers _ _ Hinv q) as Hq. cbn [sc_Hold sc_Running] in Hq. destruct (Z.eqb_spec p q) as [<-|]; lia.
  - exists gs. pose proof (v_refs _ _ Hinv p) as Hrf. destruct (ghost_totals _ _ Hinv) as (_ & _ & Ho). specialize (Ho p). pose proof (lrefs_nonneg (ListingBuckets st) p). pose proof (v_callers _ _ Hinv p) as Hcl. cbn [sc_St sc_Hold sc_Running] in *.
    assert (0 <= callers running p) by (apply total_nonneg; intros x _; case_bool_decide; lia). unfold refs_of in Hrf. rewrite Hn in Hrf.
    eapply inv_client; [exact Hinv|done|done| | |]; cbn [with_Snapshots Snapshots].
    + intros q. unfold refs_of, hold_add. cbn [with_Snapshots Snapshots]. destruct (Z.eqb_spec p q) as [<-|]; [rewrite lookup_insert_eq, Hn; lia|rewrite lookup_insert_ne by done; lia].
    + intros q. pose proof (v_callers _ _ Hinv q) as Hq. cbn [sc_Hold sc_Running] in Hq. unfold hold_add, MAX_HOLDERS in *. destruct (Z.eqb_spec p q) as [<-|]; lia.
    + intros q d' r [[<- [= <- <-]]|[_ Hq]]%lookup_insert_Some; [lia|by apply (v_live _ _ Hinv) in Hq].
  - exists gs. eapply inv_client; [exact Hinv|done|done| | |rewrite E3; apply (v_live _ _ Hinv)]; intros p; [unfold refs_of; rewrite E3; lia|apply (v_callers _ _ Hinv p)].
Qed.

Lemma total_replicate {A} (f : A -> Z) n x : total f (replicate n x) = Z.of_nat n * f x.
Proof. induction n as [|n IH]; [done|]. cbn [replicate]. rewrite total_cons, IH. lia. Qed.

Lemma shared_initial_inv w : shared_initial w -> shared_inv w [].
Proof.
  intros (st & -> & Eb & Ey & Es). assert (Ht : total bytes_in (ListingBuckets st) = 0) by (rewrite Eb, total_replicate; cbn; lia). split; cbn [sc_St sc_Hold sc_Running]; rewrite ?Ht, ?Ey; try done.
  - by rewrite Eb, length_replicate.
  - intros i b. rewrite Eb. intros [-> _]%lookup_replicate. split; [split|]; cbn; [done|unfold LISTING_CACHE_MAX_BYTES; lia|by intros e ?%elem_of_nil|apply NoDup_nil_2|constructor].
  - apply NoDup_nil_2.
  - intros p. unfold refs_of, lrefs. rewrite Es, lookup_empty, Eb, total_replicate. cbn. lia.
  - intros p d r. rewrite Es, lookup_empty. done.
Qed.

Lemma shared_reachable_inv w : shared_reachable w -> exists gs, shared_inv w gs.
Proof.
  intros (w0 & H0%shared_initial_inv & Hs). revert H0. generalize (@nil GHOST) as gs. induction Hs as [w|w1 w2 w3 Hst _ IH]; intros gs H; [by exists gs|].
  destruct (shared_step_inv _ _ _ H Hst) as (gs' & H'). by eapply IH.
Qed.
End Typing.

(** ** Without a break

    A section nothing interrupts is the atomic definition of [PathCache]. *)

Section Run.
Context {nls : Nls}.
Implicit Types (st : PATH_CACHE_STATE) (b : LBUCKET) (l : list LISTING_CACHE_ENTRY).

Lemma run_remove st i b l e k : ListingBuckets st !! i = Some b ->
  run_section st i (section_remove l (Count b) e k) = (st' ← replace_lbucket st i b l [e]; run_section st' i (k (u32 (Count b - 1)))).
Proof.
  intros Hb. unfold section_remove, replace_lbucket. cbn [run_section remove_entries length]. rewrite Hb. cbn [mbind option_bind]. change (Z.of_nat 1) with 1. unfold ListingCacheRemoveEntry. unfold Z.sub at 3.
  destruct (BlorgReleaseDirectoryInfo _ _); done.
Qed.

Lemma remove_entry_buckets st bs e : ListingCacheRemoveEntry (with_ListingBuckets st bs) e = (fun st' => with_ListingBuckets st' bs) <$> ListingCacheRemoveEntry st e.
Proof.
  unfold ListingCacheRemoveEntry, BlorgReleaseDirectoryInfo. cbn [with_ListingBuckets with_ListingBytes Snapshots ListingBytes]. destruct (Snapshots st !! Listing e) as [[d r]|]; [|done]. cbn [mbind option_bind]. by destruct (_ =? 0).
Qed.
Lemma remove_entry_keeps st e st' : ListingCacheRemoveEntry st e = Some st' -> ListingBuckets st' = ListingBuckets st.
Proof. unfold ListingCacheRemoveEntry, BlorgReleaseDirectoryInfo. destruct (Snapshots _ !! _) as [[d r]|]; [|done]. cbn [mbind option_bind]. by destruct (_ =? 0); intros [= <-]. Qed.

(** Removals one after another are one removal of them all. *)
Lemma replace_then st i b l1 l2 e r st1 : ListingBuckets st !! i = Some b -> replace_lbucket st i b l1 [e] = Some st1 ->
  replace_lbucket st1 i (mkBucket l1 (u32 (Count b - 1))) l2 r = replace_lbucket st i b l2 (e :: r).
Proof.
  intros Hb H1. unfold replace_lbucket in *. cbn [remove_entries length Count] in *. rewrite remove_entry_buckets in H1 |- *. destruct (ListingCacheRemoveEntry st e) as [st'|] eqn:E; [|done]. cbn in H1. injection H1 as <-. cbn [fmap option_fmap option_map mbind option_bind].
  apply remove_entry_keeps in E. cbn [with_ListingBuckets ListingBuckets]. rewrite list_insert_insert_eq.
  replace (u32 (u32 (Count b - 1) - Z.of_nat (length r))) with (u32 (Count b - Z.of_nat (S (length r)))) by (unfold u32; rewrite Zminus_mod_idemp_l; f_equal; lia). done.
Qed.

Lemma replace_nothing st i b : ListingBuckets st !! i = Some b -> 0 <= Count b < 4294967296 -> replace_lbucket st i b (List b) [] = Some st.
Proof.
  intros Hb Hc. unfold replace_lbucket. cbn [remove_entries length]. rewrite Z.sub_0_r, u32_id by done. f_equal. rewrite list_insert_id by (rewrite Hb; by destruct b). by destruct st.
Qed.

Section Wf.
Context (hold : Z -> Z).

Lemma wf_count st i b : listings_wf hold st -> ListingBuckets st !! i = Some b -> Count b = Z.of_nat (length (List b)) /\ 0 <= Count b < 4294967296.
Proof. intros [[_ Hok] _] Hb. destruct (Hok _ _ Hb) as [Hc Hm _ _]. unfold LISTING_CACHE_MAX_PER_BUCKET in Hm. lia. Qed.

(** One removal from a well-formed cache. *)
Lemma remove_one st i b l e : listings_wf hold st -> ListingBuckets st !! i = Some b -> l `sublist_of` List b -> List b ≡ₚ l ++ [e] ->
  exists st', replace_lbucket st i b l [e] = Some st' /\ listings_wf hold st' /\ ListingBuckets st' !! i = Some (mkBucket l (u32 (Count b - 1))) /\ ListingBytes st' = ListingBytes st - LBytes e.
Proof.
  intros Hwf Hb Hsub Hperm. destruct (replace_lbucket_spec hold st i b l [e] Hwf Hb Hsub Hperm) as (st' & H1 & Hwf' & _ & Hb' & Ho). destruct (wf_count _ _ _ Hwf Hb) as [Hc _].
  exists st'. assert (Hi : (i < length (ListingBuckets st))%nat) by (by apply lookup_lt_Some in Hb). pose proof (Permutation_length Hperm) as Hl. rewrite length_app in Hl. cbn [length] in Hl.
  split_and!; [done|done| |].
  - rewrite Hb', list_lookup_insert_eq by done. rewrite u32_id by (pose proof (wf_count _ _ _ Hwf Hb); lia). do 2 f_equal. lia.
  - unfold others in Ho. rewrite Hb', list_lookup_insert_eq, Hb in Ho by done. unfold bytes_in in Ho. cbn [List] in Ho.
    assert (sum_bytes (List b) = sum_bytes l + LBytes e) by (change (total LBytes (List b) = total LBytes l + LBytes e); rewrite (total_perm _ _ _ Hperm), total_app; cbn; lia). lia.
Qed.

Lemma run_sweep f k i todo : forall st b kept, listings_wf hold st -> ListingBuckets st !! i = Some b -> List b = kept ++ todo ->
  exists st', replace_lbucket st i b (kept ++ List.filter (fun e => negb (f e)) todo) (List.filter f todo) = Some st' /\
    run_section st i (section_sweep f kept todo (Count b) k) =
    run_section st' i (k (kept ++ List.filter (fun e => negb (f e)) todo) (Z.of_nat (length (kept ++ List.filter (fun e => negb (f e)) todo)))).
Proof.
  induction todo as [|e todo IH]; intros st b kept Hwf Hb Hl; cbn [section_sweep List.filter].
  - rewrite app_nil_r in *. exists st. destruct (wf_count _ _ _ Hwf Hb) as [Hc Hr]. rewrite <- Hl, <- Hc. split; [by apply replace_nothing|done].
  - destruct (f e) eqn:Ef; cbn [negb].
    + destruct (remove_one st i b (kept ++ todo) e Hwf Hb) as (st1 & H1 & Hwf1 & Hb1 & _); [rewrite Hl; apply sublist_app; [done|by apply sublist_cons]|rewrite Hl, <- app_assoc; apply Permutation_app_head, Permutation_cons_append|].
      rewrite (run_remove _ _ _ _ _ _ Hb), H1. cbn [mbind option_bind]. destruct (IH st1 _ kept Hwf1 Hb1 eq_refl) as (st' & H2 & H3). exists st'. cbn [Count] in H3. rewrite H3. split; [|done].
      by rewrite <- (replace_then st i b _ _ e _ st1 Hb H1).
    + destruct (IH st b (kept ++ [e]) Hwf Hb) as (st' & H2 & H3); [by rewrite <- app_assoc|]. exists st'. rewrite <- !app_assoc in H2, H3. done.
Qed.

Lemma run_evict bytes k i l : forall st b, listings_wf hold st -> ListingBuckets st !! i = Some b -> List b = l ->
  exists st' n, n = evictions (ListingBytes st) bytes l /\ replace_lbucket st i b (drop n l) (take n l) = Some st' /\
    run_section st i (section_evict bytes l (Count b) k) = run_section st' i (k (drop n l) (Z.of_nat (length (drop n l)))).
Proof.
  induction l as [|e l IH]; intros st b Hwf Hb Hl; cbn [section_evict run_section evictions]; destruct (wf_count _ _ _ Hwf Hb) as [Hc Hr]; rewrite Hl in Hc; pose proof (replace_nothing st i b Hb Hr) as Hn; rewrite Hl in Hn.
  - exists st, 0%nat. cbn [drop take]. split_and!; [done|done|]. rewrite Hc. by destruct (_ <? _).
  - destruct (MAXB <? ListingBytes st + bytes) eqn:E.
    + destruct (remove_one st i b l e Hwf Hb) as (st1 & H1 & Hwf1 & Hb1 & Hy1); [rewrite Hl; by apply sublist_cons|rewrite Hl; apply Permutation_cons_append|].
      rewrite (run_remove _ _ _ _ _ _ Hb), H1. cbn [mbind option_bind]. destruct (IH st1 _ Hwf1 Hb1 eq_refl) as (st' & n & En & H2 & H3). cbn [Count] in H3. rewrite Hy1 in En. exists st', (S n). cbn [drop take]. rewrite En in *. split_and!; [done| |done].
      by rewrite <- (replace_then st i b _ _ e _ st1 Hb H1).
    + exists st, 0%nat. cbn [drop take]. split_and!; [done|done|]. by rewrite Hc.
Qed.

(** What a replacement leaves in the bucket. *)
Lemma replaced st i b kept removed st' : listings_wf hold st -> ListingBuckets st !! i = Some b -> kept `sublist_of` List b -> List b ≡ₚ kept ++ removed -> replace_lbucket st i b kept removed = Some st' ->
  listings_wf hold st' /\ ListingBuckets st' !! i = Some (mkBucket kept (Z.of_nat (length kept))) /\ Sequence st' = Sequence st.
Proof.
  intros Hwf Hb Hsub Hperm E. destruct (replace_lbucket_spec hold st i b kept removed Hwf Hb Hsub Hperm) as (st2 & E2 & Hwf2 & [(bs & n & sn & Ho) _] & Hb2 & _). rewrite E in E2. injection E2 as <-.
  split_and!; [done| |by rewrite Ho]. rewrite Hb2, list_lookup_insert_eq; [done|by apply lookup_lt_Some in Hb].
Qed.

Lemma run_room bytes k st i b : listings_wf hold st -> ListingBuckets st !! i = Some b ->
  exists st' b', make_room st i bytes = Some st' /\ listings_wf hold st' /\ ListingBuckets st' !! i = Some b' /\
    run_section st i (section_room bytes (List b) (Count b) k) = run_section st' i (k (List b') (Count b')).
Proof.
  intros Hwf Hb. assert (Hev : forall st b, listings_wf hold st -> ListingBuckets st !! i = Some b -> exists st' b', drop_head st i (evictions (ListingBytes st) bytes (List b)) = Some st' /\ listings_wf hold st' /\ ListingBuckets st' !! i = Some b' /\
    run_section st i (section_evict bytes (List b) (Count b) k) = run_section st' i (k (List b') (Count b'))).
  { intros st1 b1 Hwf1 Hb1. destruct (run_evict bytes k i (List b1) st1 b1 Hwf1 Hb1 eq_refl) as (st' & n & En & Hrep & ->). unfold drop_head. rewrite Hb1. cbn [mbind option_bind]. rewrite <- En.
    destruct (replaced _ _ _ _ _ _ Hwf1 Hb1 (sublist_drop _ _) (drop_take_perm _ _) Hrep) as (Hwf' & Hb' & _). eexists _, _. by split_and!. }
  unfold make_room, section_room. rewrite Hb. cbn [mbind option_bind run_section]. destruct (_ <=? MAXB) eqn:E; [|by exists st, b].
  destruct (List b) as [|e l] eqn:El; cbn [length Nat.eqb negb].
  - rewrite andb_false_r. cbn [mbind option_bind]. rewrite Hb. cbn [mbind option_bind]. rewrite El. pose proof (Hev st b Hwf Hb) as H. rewrite El in H. exact H.
  - destruct (_ <=? Count b); cbn [andb]; [|cbn [mbind option_bind]; rewrite Hb; cbn [mbind option_bind]; rewrite El; pose proof (Hev st b Hwf Hb) as H; rewrite El in H; exact H].
    assert (Hd1 : drop_head st i 1 = replace_lbucket st i b l [e]) by (unfold drop_head; rewrite Hb; cbn [mbind option_bind]; by rewrite El). rewrite Hd1.
    destruct (remove_one st i b l e Hwf Hb) as (st1 & H1 & Hwf1 & Hb1 & _); [rewrite El; by apply sublist_cons|rewrite El; apply Permutation_cons_append|].
    rewrite (run_remove _ _ _ _ _ _ Hb), H1. cbn [mbind option_bind]. rewrite Hb1. cbn [mbind option_bind List]. exact (Hev st1 _ Hwf1 Hb1).
Qed.
End Wf.

Lemma run_link st i b e : ListingBuckets st !! i = Some b -> run_section st i (section_link e (List b) (Count b)) = (fun st => (st, true)) <$> link_entry st i e.
Proof.
  intros Hb. unfold section_link, section_charge, link_entry, ListingCacheCharge. cbn [run_section]. destruct (_ <=? MAXB); [|cbn [run_section]; by unfold Z.sub].
  cbn [run_section]. unfold BlorgReferenceDirectoryInfo. destruct (Snapshots _ !! _) as [[d r]|]; [|done]. cbn [mbind option_bind with_Snapshots ListingBuckets with_ListingBytes]. by rewrite Hb.
Qed.

Lemma run_insert hold st i b new bytes : listings_wf hold st -> ListingBuckets st !! i = Some b ->
  run_section st i (section_insert new bytes (List b) (Count b)) =
  (match new with None => Some (st, true) | Some e => st ← make_room st i bytes; st ← link_entry st i e; Some (st, true) end).
Proof.
  intros Hwf Hb. unfold section_insert. destruct new as [e|]; [|done]. destruct (run_room hold bytes (fun l count => section_link e l count) st i b Hwf Hb) as (st' & b' & -> & _ & Hb' & ->). cbn [mbind option_bind].
  rewrite (run_link _ _ _ _ Hb'). by destruct (link_entry st' i e).
Qed.

(** The publish. *)
Lemma publish_section_runs hold st dir t new bytes issueTime now generation lifetime b :
  listings_wf hold st -> ListingBuckets st !! Z.to_nat (ListingCacheBucket dir) = Some b ->
  run_section st (Z.to_nat (ListingCacheBucket dir)) (section_publish dir t new bytes issueTime now generation lifetime b) =
  publish_locked st dir t (new' ← new; Some (new' (match t with Some t => TicketSequence t | None => Sequence st end))) bytes issueTime now generation lifetime.
Proof.
  intros Hwf Hb. set (i := Z.to_nat (ListingCacheBucket dir)) in *.
  assert (Hwalk : forall x, run_section st i (section_walk dir x bytes issueTime now generation lifetime b) = publish_locked st dir None x bytes issueTime now generation lifetime).
  { intros x. unfold section_walk, publish_locked. fold i. rewrite Hb. cbn [mbind option_bind PathCacheTicketHonoured negb].
    destruct (run_sweep hold (fun e => negb (ListingCacheEntryLive e now generation lifetime)) (fun kept count =>
      match extract_last dir kept with
      | None => section_insert x bytes kept count
      | Some (existing, rest) => if issueTime <? LIssueTime existing then Leave false else section_remove rest count existing (fun count => section_insert x bytes rest count)
      end) i (List b) st b [] Hwf Hb eq_refl) as (st1 & H1 & ->). cbn [app] in *.
    assert (Hlive : List.filter (fun e => negb (negb (ListingCacheEntryLive e now generation lifetime))) (List b) = List.filter (fun e => ListingCacheEntryLive e now generation lifetime) (List b)) by (apply filter_ext; intros; by rewrite negb_involutive).
    rewrite Hlive in *. set (kept := List.filter _ (List b)) in *. rewrite H1. cbn [mbind option_bind].
    assert (Hperm : List b ≡ₚ kept ++ List.filter (fun e => negb (ListingCacheEntryLive e now generation lifetime)) (List b)) by (rewrite <- Hlive; apply (filter_perm (fun e => negb (ListingCacheEntryLive e now generation lifetime)))).
    destruct (replaced hold _ _ _ _ _ _ Hwf Hb (filter_sublist _ _) Hperm H1) as (Hwf1 & Hb1 & _). rewrite Hb1. cbn [mbind option_bind].
    assert (Hu : uniq LPath kept) by (destruct Hwf1 as [[_ Hok] _]; exact (ok_uniq _ _ _ _ _ (Hok _ _ Hb1))). rewrite (extract_last_remove dir kept Hu).
    pose proof (remove_first_sublist (fun e => RtlEqualUnicodeString (LPath e) dir) kept) as Hsub. pose proof (remove_first_perm (fun e => RtlEqualUnicodeString (LPath e) dir) kept) as Hrp.
    destruct (remove_first _ kept) as [rest [e|]]; cbn [fst mbind option_bind negb] in *.
    - destruct (_ <? _); cbn [mbind option_bind run_section negb]; [by destruct x|]. rewrite (run_remove st1 i _ _ _ _ Hb1).
      destruct (remove_one hold st1 i _ rest e Hwf1 Hb1 Hsub (Hrp _ _ eq_refl)) as (st2 & -> & Hwf2 & Hb2 & _). cbn [mbind option_bind]. pose proof (run_insert hold st2 i _ x bytes Hwf2 Hb2) as Hins. cbn [List Count] in Hins |- *. rewrite Hins. by destruct x.
    - pose proof (run_insert hold st1 i _ x bytes Hwf1 Hb1) as Hins. etrans; [exact Hins|by destruct x]. }
  assert (Hlock : forall x, match t with None => run_section st i (section_walk dir x bytes issueTime now generation lifetime b)
      | Some t => run_section st i (if TicketSequence t =? Sequence st then section_walk dir x bytes issueTime now generation lifetime b else Leave false) end = publish_locked st dir t x bytes issueTime now generation lifetime).
  { intros x. destruct t as [t|]; [|by apply Hwalk]. destruct (TicketSequence t =? Sequence st) eqn:E; [rewrite Hwalk|]; unfold publish_locked, PathCacheTicketHonoured; fold i; rewrite Hb, E; done. }
  unfold section_publish. destruct new as [new|]; cbn [mbind option_bind]; rewrite <- Hlock; destruct t as [t|]; done.
Qed.

(** The drops and the sweeps. *)
Lemma drop_section_runs st dir b : ListingBuckets st !! Z.to_nat (ListingCacheBucket dir) = Some b ->
  run_section st (Z.to_nat (ListingCacheBucket dir)) (section_drop dir b) = (fun st => (st, true)) <$> ListingCacheDrop st dir.
Proof.
  intros Hb. unfold section_drop, ListingCacheDrop. rewrite Hb. cbn [mbind option_bind]. destruct (remove_first _ (List b)) as [l [e|]]; [|done]. rewrite (run_remove _ _ _ _ _ _ Hb). by destruct (replace_lbucket _ _ _ _ _).
Qed.

Lemma sweep_section_runs hold st f i b : listings_wf hold st -> ListingBuckets st !! i = Some b ->
  run_section st i (section_drop_all f b) = (fun st => (st, true)) <$> lsweep_locked st f i.
Proof.
  intros Hwf Hb. unfold section_drop_all, lsweep_locked. rewrite Hb. cbn [mbind option_bind]. destruct (run_sweep hold f (fun _ _ => Leave true) i (List b) st b [] Hwf Hb eq_refl) as (st1 & H1 & ->). cbn [app] in H1. by rewrite H1.
Qed.
End Run.

(** ** Schedules

    Executable runs of the system, for the demonstrations. *)

Inductive ACT :=
  | ActSnapshot (p : Z) (d : DIRECTORY_INFO)
  | ActPublish (dir : PATH) (listing now : Z)
  | ActTurn (k : nat).                   (* the [k]th section in progress *)

Section Play.
Context {nls : Nls}.

Definition act (w : SHARED_CACHE) (a : ACT) : option SHARED_CACHE :=
  let '(mkShared st hold running) := w in
  match a with
  | ActSnapshot p d =>
      if bool_decide (Snapshots st !! p = None) && (0 <? InfoBytes d) && (InfoBytes d <? 4294967296)
      then Some (mkShared (with_Snapshots st (<[p := (d, 1)]> (Snapshots st))) (hold_add hold p) running) else None
  | ActPublish dir listing now =>
      '(d, _) ← Snapshots st !! listing;
      b ← ListingBuckets st !! Z.to_nat (ListingCacheBucket dir);
      if (callers running listing <? hold listing) && bool_decide (Z.to_nat (ListingCacheBucket dir) ∉ (r_Bucket <$> running)) then
        let bytes := ListingCacheSizeOf d in
        let new := Some (fun sequence => mkLEntry dir listing bytes now sequence (u32 (CacheGeneration st)) false) in
        Some (mkShared st hold (mkRunning (Z.to_nat (ListingCacheBucket dir)) (Some listing) (section_publish dir None new bytes now now (CacheGeneration st) (PathCacheLifetime st) b) :: running))
      else None
  | ActTurn k =>
      t ← running !! k;
      match r_Section t with
      | Leave _ => Some (mkShared st hold (take k running ++ drop (S k) running))
      | s => '(st, s) ← access st (r_Bucket t) s; Some (mkShared st hold (take k running ++ mkRunning (r_Bucket t) (r_Caller t) s :: drop (S k) running))
      end
  end.

Fixpoint play (acts : list ACT) (w : SHARED_CACHE) : option SHARED_CACHE :=
  match acts with [] => Some w | a :: acts => w ← act w a; play acts w end.

Lemma act_step w a w' : act w a = Some w' -> shared_step w w'.
Proof.
  destruct w as [st hold running], a as [p d|dir listing now|k]; cbn [act].
  - destruct (bool_decide_reflect (Snapshots st !! p = None)); [|done]. destruct (Z.ltb_spec 0 (InfoBytes d)), (Z.ltb_spec (InfoBytes d) 4294967296); try done. intros [= <-]. by apply share_snapshot.
  - destruct (Snapshots st !! listing) as [[d r]|] eqn:Es; [|done]. destruct (ListingBuckets st !! _) as [b|] eqn:Eb; [|done]. cbn [mbind option_bind]. destruct (Z.ltb_spec (callers running listing) (hold listing)); [|done].
    case_bool_decide as Hu; [|done]. intros [= <-]. by apply (share_publish st hold running dir listing d r None true now now (CacheGeneration st) (PathCacheLifetime st) b).
  - destruct (running !! k) as [[i c s]|] eqn:Et; [|done]. cbn [mbind option_bind r_Section r_Bucket r_Caller]. pose proof (take_drop_middle _ _ _ Et) as Hr.
    destruct s as [current|f|f|n f|p s|p s|b s]; intros H; [injection H as <-; rewrite <- Hr at 1; apply share_leave|
      match type of H with context [access st i ?x] => destruct (access st i x) as [[st1 s1]|] eqn:Ea; [|done]; cbn [mbind option_bind] in H; injection H as <-; rewrite <- Hr at 1; by apply share_access end..].
Qed.

Lemma acts_reachable acts w w' : shared_reachable w -> play acts w = Some w' -> shared_reachable w'.
Proof.
  revert w. induction acts as [|a acts IH]; intros w Hr H; cbn [play] in H; [by injection H as <-|]. destruct (act w a) as [w1|] eqn:E; [|done]. apply act_step in E. apply (IH w1); [|done].
  destruct Hr as (w0 & H0 & Hr). exists w0. split; [done|by eapply rtc_r].
Qed.
End Play.

(** Nine small listings of directories that share a bucket, and one as large
    as the budget in another. *)
Module BudgetDemo.
Definition hash_of (p : PATH) : option Z := Some (if bool_decide (p = [92; 90]) then 1 else 0).
Lemma hash_same p q : (fun c : Z => c) <$> p = (fun c : Z => c) <$> q -> hash_of p = hash_of q.
Proof. by rewrite !list_fmap_id; intros ->. Qed.
#[local] Instance nls : Nls := {| upcase := fun c => c; rtl_hash := hash_of; upcase_sep := fun c => iff_refl _; rtl_hash_upcase := hash_same |}.

Definition w0 : SHARED_CACHE := mkShared (BlorgPathCacheInit (mkState [] [] 0 0 false 0 0 false ∅)) (fun _ => 0) [].
Definition small : DIRECTORY_INFO := mkListing [] [] 100 false.
Definition large : DIRECTORY_INFO := mkListing [] [] LISTING_CACHE_MAX_BYTES false.

Definition keep (k : Z) : list ACT := [ActSnapshot k small; ActPublish [92; k] k 5] ++ replicate 7 (ActTurn 0).
Definition eight : list ACT := [1; 2; 3; 4; 5; 6; 7; 8] ≫= keep.
(** The large one has charged and not yet taken back. *)
Definition over : list ACT := eight ++ [ActSnapshot 10 large; ActPublish [92; 90] 10 5; ActTurn 0; ActTurn 0; ActTurn 0].
(** The ninth small one sees that charge, then is linked once it is gone. *)
Definition ninth : list ACT := over ++ [ActSnapshot 9 small; ActPublish [92; 9] 9 5; ActTurn 0; ActTurn 0; ActTurn 1; ActTurn 1; ActTurn 0; ActTurn 0; ActTurn 0; ActTurn 0].

Lemma empty_reachable : shared_reachable w0.
Proof. exists w0. split; [|apply rtc_refl]. eexists. by split_and!. Qed.

Definition counted (w : SHARED_CACHE) : Z * Z * Z := (ListingBytes (sc_St w), total bytes_in (ListingBuckets (sc_St w)), default 0 (Count <$> (ListingBuckets (sc_St w) !! 0%nat))).
Lemma over_counted : counted <$> play over w0 = Some (33555232, 800, 8).
Proof. vm_compute. reflexivity. Qed.
Lemma ninth_counted : counted <$> play ninth w0 = Some (900, 900, 9).
Proof. vm_compute. reflexivity. Qed.
End BudgetDemo.

(** ** Theorems *)

Definition held_listings (st : PATH_CACHE_STATE) : Z := total (fun b => total LBytes (List b)) (ListingBuckets st).

Lemma ghost_list {nls : Nls} w gs : shared_inv w gs ->
  length (g_Charge <$> gs) = length (sc_Running w) /\ Forall (fun c => 0 <= c) (g_Charge <$> gs) /\ ListingBytes (sc_St w) = held_listings (sc_St w) + total id (g_Charge <$> gs).
Proof.
  intros H. rewrite length_fmap, (Forall2_length _ _ _ (v_keeps _ _ H)). split_and!; [done| |].
  - apply Forall_fmap, Forall_forall. intros g Hg. apply (ghost_bounds _ _ H) in Hg as [? _]. unfold compose. lia.
  - rewrite (v_bytes _ _ H). f_equal. clear H. induction gs as [|g gs IH]; [done|]. cbn [fmap list_fmap]. rewrite !total_cons, IH. done.
Qed.

(** C38: The listing cache's budget, every section interleaved with every other
    access by access.  In every state reached: the listings held are within
    the 32 MB budget; [ListingBytes] is their bytes plus, for each section in
    progress, what it has charged and not linked, or unlinked and not yet
    taken off - never less than what is held, so a test against it never lets
    too much in, though it may briefly stand above the budget - and exactly
    their bytes when no section is in progress.  Every bucket's count is the
    number of its entries, whose paths differ but for case.  A snapshot's
    references are its clients', the entries', and at most three more in each
    section in progress.  And no section ever touches a freed snapshot or a
    bucket that is not there. *)
Theorem listing_budget_holds {nls : Nls} w :
  shared_reachable w ->
  held_listings (sc_St w) <= LISTING_CACHE_MAX_BYTES /\
  (exists inflight, length inflight = length (sc_Running w) /\ Forall (fun c => 0 <= c) inflight /\ ListingBytes (sc_St w) = held_listings (sc_St w) + total id inflight) /\
  (forall i b, ListingBuckets (sc_St w) !! i = Some b ->
     Count b = Z.of_nat (length (List b)) /\ NoDup ((fun e => fold_path (LPath e)) <$> List b) /\ Forall (fun e => 0 < LBytes e) (List b)) /\
  (forall p, let held := sc_Hold w p + lrefs (ListingBuckets (sc_St w)) p in held <= refs_of (sc_St w) p <= held + 3 * Z.of_nat (length (sc_Running w))) /\
  (forall t, t ∈ sc_Running w -> (exists current, r_Section t = Leave current) \/ exists st' s', access (sc_St w) (r_Bucket t) (r_Section t) = Some (st', s')).
Proof.
  intros (gs & Hinv)%shared_reachable_inv. destruct (ghost_totals _ _ Hinv) as ([Ha _] & _ & Ho). split_and!.
  - pose proof (v_budget _ _ Hinv). change (held_listings (sc_St w)) with (total bytes_in (ListingBuckets (sc_St w))). lia.
  - exists (g_Charge <$> gs). by apply ghost_list.
  - intros i b Hb. destruct (v_shelves _ _ Hinv _ _ Hb) as [[H1 _ _ H2] H3]. by split_and!.
  - intros p held. unfold held. rewrite (v_refs _ _ Hinv p), (Forall2_length _ _ _ (v_keeps _ _ Hinv)). specialize (Ho p).
    pose proof (total_bound (fun g => g_Own g p) gs 3 ltac:(intros g Hg; apply (ghost_bounds _ _ Hinv) in Hg as (_ & _ & Hg); specialize (Hg p); lia)). lia.
  - intros t Ht. apply list_elem_of_lookup in Ht as [k Ht]. destruct w as [st hold running], t as [i c s]. cbn [sc_St sc_Running r_Section r_Bucket] in *. rewrite <- (take_drop_middle _ _ _ Ht) in Hinv.
    destruct (access_ok _ _ _ _ _ _ _ _ Hinv) as [Hl|(st' & s' & _ & Hac & _)]; [by left|right; by exists st', s'].
Qed.

(** A charge in flight: the counter is above the budget, what is held is not. *)
Lemma listing_budget_holds_witness :
  exists w, play (nls := BudgetDemo.nls) BudgetDemo.over BudgetDemo.w0 = Some w /\ LISTING_CACHE_MAX_BYTES < ListingBytes (sc_St w) /\ held_listings (sc_St w) <= LISTING_CACHE_MAX_BYTES.
Proof.
  pose proof BudgetDemo.over_counted as Hc. destruct (play BudgetDemo.over BudgetDemo.w0) as [w|] eqn:E; [|discriminate]. exists w. split; [reflexivity|]. split.
  - injection Hc as Hc _ _. rewrite Hc. reflexivity.
  - exact (proj1 (listing_budget_holds (nls := BudgetDemo.nls) w (acts_reachable (nls := BudgetDemo.nls) BudgetDemo.over _ _ BudgetDemo.empty_reachable E))).
Defined.

(** The cap on a bucket's entries is not kept: a publish that finds the counter
    raised by another's charge does not evict, and may yet be let in. *)
Lemma bucket_cap_passed : exists w b, shared_reachable (nls := BudgetDemo.nls) w /\ ListingBuckets (sc_St w) !! 0%nat = Some b /\ Count b = LISTING_CACHE_MAX_PER_BUCKET + 1.
Proof.
  pose proof BudgetDemo.ninth_counted as Hc. destruct (play BudgetDemo.ninth BudgetDemo.w0) as [w|] eqn:E; [|discriminate]. unfold BudgetDemo.counted in Hc. cbn [fmap option_fmap option_map] in Hc.
  destruct (ListingBuckets (sc_St w) !! 0%nat) as [b|] eqn:Eb; [|discriminate]. exists w, b. split; [|split; [done|]]; [by eapply (acts_reachable (nls := BudgetDemo.nls)), E; apply BudgetDemo.empty_reachable|]. injection Hc as _ _ Hc. exact Hc.
Qed.
