(* ===== verification/ListingTheorems.v ===== *)
(** * Listings: what is proved of them

    The block layout and name index of a listing, its use by the open path,
    and its publication to and seeding of the caches. *)

From S2P Require Import Prelude UnicodePath PathCache ListingIndex PathCacheOps PathCacheListings PathCachePublish PathCacheSystem PathCacheSeed PathCacheProtocol PathCacheTheorems.

(** Publishing a listing.  In any reachable state, for a snapshot the
    publisher holds, the call is defined and answers exactly: the listing is
    current when its ticket is not overtaken and no live snapshot of the
    directory came from a later-issued fetch.  A current listing replaces the
    old snapshot, which is never served again, and is kept whenever it fits
    beside the other buckets' listings; a superseded one leaves the newer
    snapshot in place; no other directory gains an entry, and the answer of
    the path cache never changes. *)
Theorem publish_listing_outcome {nls : Nls} (w : WORLD) dir listing t allocOk now :
  reachable w -> 0 < w_hold w listing <= MAX_HOLDERS ->
  exists st' current info r, BlorgPathCachePublishListing (w_st w) dir listing t allocOk now = Some (st', current) /\
    Snapshots (w_st w) !! listing = Some (info, r) /\
    (forall q now', PathCacheFind st' q now' = PathCacheFind (w_st w) q now') /\
    if publish_refused (w_st w) dir info then st' = w_st w /\ current = false
    else publish_result (w_st w) st' dir (publish_entry (w_st w) dir listing info t now) t allocOk now current.
Proof.
  intros Hr Hh. destruct (publish_spec _ _ dir listing t allocOk now (reachable_wf _ Hr) Hh) as (st' & c & info & r & H1 & H2 & _ & H4 & H5).
  exists st', c, info, r. split_and!; try done. intros q now'.
  destruct H4 as [(bs & n & sn & ->) _]. reflexivity.
Qed.

(** A listing snapshot held by one client, on the state of the path-cache
    runs. *)
Module ListingDemo.
Definition info : DIRECTORY_INFO :=
  mkListing [mkFile 10 1 1 1 [65]; mkFile 20 2 2 2 [97]; mkFile 5 3 3 3 [98]] [mkSubDir 4 4 4 [99]] 300 false.
Definition st : PATH_CACHE_STATE := with_Snapshots Demo.st1 (<[7 := (info, 1)]> (Snapshots Demo.st1)).
Definition w : WORLD := mkWorld st (hold_add (fun _ => 0) 7) [].
Definition dir : PATH := [92; 100].

Lemma snapshot_reachable : reachable w.
Proof.
  exists Demo.w0. split; [exists Demo.blank; split; reflexivity|].
  eapply rtc_r; [apply Demo.w0_w1|]. apply step_snapshot; [reflexivity|vm_compute; split; [discriminate|reflexivity]].
Qed.
End ListingDemo.

Lemma publish_listing_outcome_witness :
  exists st' e, BlorgPathCachePublishListing ListingDemo.st ListingDemo.dir 7 None true 40 = Some (st', true) /\
    lheld st' ListingDemo.dir = Some e /\ Listing e = 7.
Proof.
  destruct (publish_listing_outcome ListingDemo.w ListingDemo.dir 7 None true 40 ListingDemo.snapshot_reachable)
    as (st' & c & info & r & H & Hs & _ & Hres); [vm_compute; split; [reflexivity|discriminate]|].
  assert (info = ListingDemo.info) as -> by (vm_compute in Hs; injection Hs as <- _; reflexivity).
  replace (publish_refused _ _ _) with false in Hres by (vm_compute; reflexivity).
  exists st', (publish_entry ListingDemo.st ListingDemo.dir 7 ListingDemo.info None 40).
  assert (c = true) as -> by (rewrite (pr_verdict _ _ _ _ _ _ _ _ Hres); vm_compute; reflexivity).
  split; [exact H|]. split; [|reflexivity]. apply (pr_kept _ _ _ _ _ _ _ _ Hres); [reflexivity|reflexivity|].
  vm_compute. discriminate.
Defined.

(** Looking a listing up.  A snapshot is answered exactly while it is
    live, and past its lifetime only to a caller that allows stale ones; the
    answer carries the ticket of the fetch behind it, takes a reference for
    the caller, and owes the refresh exactly when it is stale and no earlier
    stale answer was told so.  Every other directory's snapshot is untouched. *)
Theorem lookup_listing_outcome {nls : Nls} (w : WORLD) dir allowStale now :
  reachable w -> (forall p, w_hold w p <= MAX_HOLDERS) -> Ready (w_st w) = true -> dir <> [] ->
  exists st' hit, BlorgPathCacheLookupListing (w_st w) dir allowStale now = Some (st', hit) /\
    match lheld (w_st w) dir with
    | Some e =>
        if served (w_st w) allowStale now e then
          let stale := PathCacheLifetime (w_st w) <=? PathCacheAge (LIssueTime e) now in
          hit = mkHit (Some (Listing e)) stale (stale && negb (RefreshClaimed e)) (Some (mkTicket (LSequence e) (LIssueTime e))) /\
          refs_of st' (Listing e) = refs_of (w_st w) (Listing e) + 1 /\
          forall q, lheld st' q = if stale && bool_decide (fold_path dir = fold_path q) then claimed <$> lheld (w_st w) q else lheld (w_st w) q
        else hit = no_hit /\ st' = w_st w
    | None => hit = no_hit /\ st' = w_st w
    end.
Proof.
  intros Hr Hmax Hrd Hd. pose proof (reachable_wf _ Hr) as Hwf. pose proof (wf_listings _ _ Hwf) as Hl.
  destruct (lookup_spec _ _ dir allowStale now Hl Hmax Hrd Hd) as (st' & hit & H & Ho & Hc). exists st', hit. split; [done|].
  destruct (lheld (w_st w) dir) as [e|] eqn:He; [|done]. destruct (served (w_st w) allowStale now e); [|done].
  by destruct Hc as (Hhit & _ & Hrefs & Hq).
Qed.

Module LookupDemo.
(** The listing published, then looked up past its lifetime. *)
Definition published : option (PATH_CACHE_STATE * bool) := publish_locked ListingDemo.st ListingDemo.dir None
  (Some (mkLEntry ListingDemo.dir 7 300 40 0 0 false)) 300 40 40 0 PATH_CACHE_TTL_100NS.
Definition st : PATH_CACHE_STATE := default ListingDemo.st (fst <$> published).
Definition w : WORLD := mkWorld st (hold_add (fun _ => 0) 7) [].

Lemma published_reachable : reachable w.
Proof.
  destruct ListingDemo.snapshot_reachable as (w0 & H0 & Hs). exists w0. split; [exact H0|]. eapply rtc_r; [exact Hs|].
  eapply (step_publish _ _ _ ListingDemo.dir None (Some (mkLEntry ListingDemo.dir 7 300 40 0 0 false)) 300 40 40 0 PATH_CACHE_TTL_100NS st true).
  - intros e [= <-]. vm_compute. repeat split; discriminate.
  - vm_compute. reflexivity.
Qed.
End LookupDemo.

Lemma lookup_listing_outcome_witness :
  exists st' hit, BlorgPathCacheLookupListing LookupDemo.st ListingDemo.dir true 50000000 = Some (st', hit) /\
    HitListing hit = Some 7 /\ HitRefreshOwed hit = true.
Proof.
  destruct (lookup_listing_outcome LookupDemo.w ListingDemo.dir true 50000000 LookupDemo.published_reachable) as (st' & hit & H & Hc);
    [intros p; unfold LookupDemo.w, hold_add, MAX_HOLDERS; cbn [w_hold]; destruct (7 =? p); lia|reflexivity|discriminate|].
  exists st', hit. split; [exact H|].
  replace (lheld (w_st LookupDemo.w) ListingDemo.dir) with (Some (mkLEntry ListingDemo.dir 7 300 40 0 0 false)) in Hc by (vm_compute; reflexivity).
  replace (served _ _ _ _) with true in Hc by (vm_compute; reflexivity). destruct Hc as (-> & _). split; vm_compute; reflexivity.
Defined.

(** Seeding agrees with the open path.  After a fresh listing of a
    directory has been seeded, whatever a path-cache lookup answers for a child
    of it is what the name search of that listing answers, never a stale
    not-found; provided every allocation of the seed succeeded, or no two names
    of the listing are equal but for case. *)
Theorem seed_agrees_with_name_search {nls : Nls} (w : WORLD) dir d t scratchOk env name now mask index :
  reachable w -> Ready (w_st w) = true -> dir <> [] -> PathCacheIsComponent name = true ->
  (forall k, (env k).1 = true) \/ NoDup ((fun x => fold_path x.1) <$> seed_order d) ->
  0 <= mask -> BlorgIndexDirectoryInfo mask (HttpListingEntryNames d) = Some index ->
  match PathCacheFind (BlorgPathCacheSeedListing (w_st w) dir (Some d) t scratchOk env) (with_sep dir ++ name) now with
  | PathCacheExists m _ => CreateFindEntryByName d mask index name = Some (Some m)
  | PathCacheNotFound => False
  | PathCacheMiss => True
  end.
Proof.
  intros Hr Hrd Hd Hc Hok Hm Hix. pose proof (wf_paths _ _ (reachable_wf _ Hr)) as Hwf.
  destruct (seed_listing_spec (w_st w) dir d t scratchOk env Hwf Hrd Hd Hok) as (_ & Ho & Hs).
  destruct (index_spec mask (HttpListingEntryNames d) Hm) as (chains & links & Hix' & Hi). rewrite Hix in Hix'. injection Hix' as ->.
  set (st' := BlorgPathCacheSeedListing _ _ _ _ _ _) in *.
  rewrite find_judge; [|by rewrite (ready_only _ _ Ho)|destruct dir; [done|unfold with_sep; by destruct (ends_with_sep _)]].
  unfold judge. destruct (held st' (with_sep dir ++ name)) as [e|] eqn:He; [|done].
  destruct (Hs name e Hc He) as [Hex Hscan]. destruct (PathCacheEntryLive e now _ _); [|done]. rewrite Hex.
  by rewrite (create_find_spec _ _ _ _ _ Hm Hi), Hscan.
Qed.

Lemma seed_agrees_with_name_search_witness :
  exists m t, PathCacheFind (BlorgPathCacheSeedListing Demo.st1 [92; 100] (Some ListingDemo.info) None true (fun _ => (true, 9))) [92; 100; 92; 97] 10 =
      PathCacheExists m t /\
    exists index, BlorgIndexDirectoryInfo 3 (HttpListingEntryNames ListingDemo.info) = Some index /\
      CreateFindEntryByName ListingDemo.info 3 index [97] = Some (Some m).
Proof.
  pose (index := default ([], []) (BlorgIndexDirectoryInfo 3 (HttpListingEntryNames ListingDemo.info))).
  assert (Hix : BlorgIndexDirectoryInfo 3 (HttpListingEntryNames ListingDemo.info) = Some index) by (vm_compute; reflexivity).
  exists (file_meta (mkFile 10 1 1 1 [65])), (mkTicket 0 9).
  assert (H : PathCacheFind (BlorgPathCacheSeedListing Demo.st1 [92; 100] (Some ListingDemo.info) None true (fun _ => (true, 9))) [92; 100; 92; 97] 10 =
    PathCacheExists (file_meta (mkFile 10 1 1 1 [65])) (mkTicket 0 9)) by (vm_compute; reflexivity).
  split; [exact H|]. exists index. split; [exact Hix|].
  pose proof (seed_agrees_with_name_search Demo.w1 [92; 100] ListingDemo.info None true (fun _ => (true, 9)) [97] 10 3 index Demo.w1_reachable) as HT.
  change (with_sep [92; 100] ++ [97]) with [92; 100; 92; 97] in HT. cbn [w_st Demo.w1] in HT. rewrite H in HT. apply HT.
  - reflexivity.
  - discriminate.
  - vm_compute. reflexivity.
  - left. reflexivity.
  - lia.
  - exact Hix.
Defined.

(** The boundary-checked prefix test: a path is under a directory
    exactly when it is that directory, or the directory's name and a separator
    (its own, if it ends in one) followed by anything, no matter the case; and
    a path under it is below a child exactly when a separator follows. *)
Theorem is_under_exact {nls : Nls} (dir p : PATH) :
  (PathCacheIsUnder dir p = true <-> fold_path p = fold_path dir \/ exists rest, fold_path p = fold_path (with_sep dir) ++ rest) /\
  forall rest, fold_path p = fold_path (with_sep dir) ++ rest -> (PathCacheIsBelowChild dir p = true <-> SEP ∈ rest).
Proof.
  split; [apply is_under_spec|]. intros rest H. by rewrite (below_child_spec _ _ _ H), bool_decide_eq_true.
Qed.

(** The critical sections the protocol steps through, run one after the
    other, are the exported invalidations. *)
Theorem invalidations_are_their_visits {nls : Nls} (st : PATH_CACHE_STATE) (path : PATH) :
  Ready st = true -> path <> [] ->
  BlorgPathCacheInvalidate st path = exec_visits (PathCacheAdvanceSequence st) (visits (InvalidatePath path)) /\
  BlorgPathCacheInvalidatePrefix st path = exec_visits (PathCacheAdvanceSequence st) (visits (InvalidatePrefix path)) /\
  BlorgPathCacheInvalidateAll st = exec_visits (PathCacheAdvanceSequence st) (visits InvalidateAll).
Proof.
  intros Hr Hp. split_and!.
  - by apply (visits_are_operations st (InvalidatePath path) Hr).
  - by apply (visits_are_operations st (InvalidatePrefix path) Hr).
  - by apply (visits_are_operations st InvalidateAll Hr).
Qed.

Lemma invalidations_are_their_visits_witness :
  BlorgPathCacheInvalidate Demo.st1 Demo.a_path = exec_visits (PathCacheAdvanceSequence Demo.st1) (visits (InvalidatePath Demo.a_path)).
Proof.
  destruct (invalidations_are_their_visits Demo.st1 Demo.a_path) as (H & _); [vm_compute; reflexivity|discriminate|].
  exact H.
Defined.
