(* ===== verification/ChangeFeed.v ===== *)
(** * The change feed (src/ChangeFeed.c)

    The follower's state, what it does with one answer, a poll with its
    backoff, the thread, and its start and stop.  The caches it invalidates
    are the state of PathCache.v; what it reports to the notification package
    is a list of reports.  What the server answers is an argument of a poll:
    the status the request started with and, when that is pending, the
    completion's. *)

From S2P Require Import Prelude UnicodePath PathCache PathCacheOps PathCacheListings PathCacheSystem PathCacheProtocol PathCacheTheorems.

Definition CHANGE_FEED_PRECISE_STRUCTURAL_MAX : Z := 64.
Definition CHANGE_FEED_BACKOFF_MIN_MS : Z := 1000.
Definition CHANGE_FEED_BACKOFF_MAX_MS : Z := 30000.

Inductive CHANGE_KIND := ChangeModified | ChangeCreated | ChangeRemoved.
#[global] Instance CHANGE_KIND_eq_dec : EqDecision CHANGE_KIND.
Proof. solve_decision. Defined.

Record CHANGE_ENTRY := mkChange { ChangePath : PATH; Kind : CHANGE_KIND }.
Record CHANGE_BATCH := mkBatch { BatchEpoch : Z; BatchGeneration : Z; Entries : list CHANGE_ENTRY; Reset : bool }.

(** [Batch] and [Status] are the completion's hand-over, [Thread] whether
    there is a thread to reap, [Volume] whether there is a notify list. *)
Record CHANGE_FEED_STATE := mkFeed {
  Thread : bool;
  Volume : bool;
  StopEvent : bool;
  DoneEvent : bool;
  Epoch : Z;
  Since : Z;
  Batch : option CHANGE_BATCH;
  Status : NTSTATUS;
  BackoffMs : Z
}.

Definition with_position (f : CHANGE_FEED_STATE) (epoch since : Z) : CHANGE_FEED_STATE :=
  mkFeed (Thread f) (Volume f) (StopEvent f) (DoneEvent f) epoch since (Batch f) (Status f) (BackoffMs f).
Definition with_answer (f : CHANGE_FEED_STATE) (st : NTSTATUS) (b : option CHANGE_BATCH) (done : bool) : CHANGE_FEED_STATE :=
  mkFeed (Thread f) (Volume f) (StopEvent f) done (Epoch f) (Since f) b st (BackoffMs f).
Definition with_batch (f : CHANGE_FEED_STATE) (b : option CHANGE_BATCH) (done : bool) : CHANGE_FEED_STATE :=
  mkFeed (Thread f) (Volume f) (StopEvent f) done (Epoch f) (Since f) b (Status f) (BackoffMs f).
Definition with_backoff (f : CHANGE_FEED_STATE) (ms : Z) : CHANGE_FEED_STATE :=
  mkFeed (Thread f) (Volume f) (StopEvent f) (DoneEvent f) (Epoch f) (Since f) (Batch f) (Status f) ms.

(** One call of [FsRtlNotifyFullReportChange]. *)
Record REPORT := mkReport { rpt_path : PATH; rpt_offset : Z; rpt_filter : Z; rpt_action : Z }.

Definition FILE_NOTIFY_CHANGE_FILE_NAME : Z := 1.
Definition FILE_NOTIFY_CHANGE_DIR_NAME : Z := 2.
Definition FILE_NOTIFY_CHANGE_SIZE : Z := 8.
Definition FILE_NOTIFY_CHANGE_LAST_WRITE : Z := 16.
Definition FILE_ACTION_ADDED : Z := 1.
Definition FILE_ACTION_REMOVED : Z := 2.
Definition FILE_ACTION_MODIFIED : Z := 3.

(** The follower, the caches, the reports made so far, and the batches freed. *)
Record FEED_WORLD := mkFeedWorld {
  fw_feed : CHANGE_FEED_STATE;
  fw_cache : PATH_CACHE_STATE;
  fw_reports : list REPORT;
  fw_freed : list CHANGE_BATCH
}.

Section Feed.
Context {nls : Nls}.

Definition report_of (entry : CHANGE_ENTRY) : list REPORT :=
  let nameOffset := ChangeFeedNameOffset (ChangePath entry) in
  if nameOffset =? 0 then []
  else
    let '(filter, action) :=
      match Kind entry with
      | ChangeModified => (Z.lor FILE_NOTIFY_CHANGE_SIZE FILE_NOTIFY_CHANGE_LAST_WRITE, FILE_ACTION_MODIFIED)
      | ChangeRemoved => (Z.lor FILE_NOTIFY_CHANGE_FILE_NAME FILE_NOTIFY_CHANGE_DIR_NAME, FILE_ACTION_REMOVED)
      | ChangeCreated => (Z.lor FILE_NOTIFY_CHANGE_FILE_NAME FILE_NOTIFY_CHANGE_DIR_NAME, FILE_ACTION_ADDED)
      end in
    [mkReport (ChangePath entry) nameOffset filter action].

Definition ChangeFeedNotify (w : FEED_WORLD) (b : CHANGE_BATCH) : FEED_WORLD :=
  if negb (Volume (fw_feed w)) then w
  else mkFeedWorld (fw_feed w) (fw_cache w) (fw_reports w ++ concat (report_of <$> Entries b)) (fw_freed w).

Definition is_structural (e : CHANGE_ENTRY) : bool := negb (bool_decide (Kind e = ChangeModified)).
Definition count_structural (es : list CHANGE_ENTRY) : Z := Z.of_nat (length (List.filter is_structural es)).

Fixpoint apply_entries (st : PATH_CACHE_STATE) (es : list CHANGE_ENTRY) : option PATH_CACHE_STATE :=
  match es with
  | [] => Some st
  | e :: es =>
      st ← (match Kind e with
            | ChangeModified => BlorgPathCacheInvalidate st (ChangePath e)
            | _ => BlorgPathCacheInvalidatePrefix st (ChangePath e)
            end);
      apply_entries st es
  end.

Definition ChangeFeedApply (w : FEED_WORLD) (b : CHANGE_BATCH) : option FEED_WORLD :=
  st ← (if CHANGE_FEED_PRECISE_STRUCTURAL_MAX <? count_structural (Entries b)
        then BlorgPathCacheInvalidateAll (fw_cache w)
        else apply_entries (fw_cache w) (Entries b));
  Some (ChangeFeedNotify (mkFeedWorld (fw_feed w) st (fw_reports w) (fw_freed w)) b).

Definition BlorgFreeChangeBatch (w : FEED_WORLD) (b : option CHANGE_BATCH) : FEED_WORLD :=
  match b with
  | Some b => mkFeedWorld (fw_feed w) (fw_cache w) (fw_reports w) (fw_freed w ++ [b])
  | None => w
  end.

Definition follow (w : FEED_WORLD) (live : bool) : option FEED_WORLD :=
  st ← BlorgPathCacheFollowFeed (fw_cache w) live;
  Some (mkFeedWorld (fw_feed w) st (fw_reports w) (fw_freed w)).

Definition at_position (w : FEED_WORLD) (epoch since : Z) : FEED_WORLD :=
  mkFeedWorld (with_position (fw_feed w) epoch since) (fw_cache w) (fw_reports w) (fw_freed w).

Definition BlorgChangeFeedReceive (w : FEED_WORLD) (status : NTSTATUS) (batch : option CHANGE_BATCH) : option FEED_WORLD :=
  match (if NT_SUCCESS status then batch else None) with
  | None =>
      let w := BlorgFreeChangeBatch w batch in
      follow (at_position w 0 0) false
  | Some b =>
      w ← (if Reset b || negb (BatchEpoch b =? Epoch (fw_feed w)) then follow w true else ChangeFeedApply w b);
      Some (BlorgFreeChangeBatch (at_position w (BatchEpoch b) (BatchGeneration b)) (Some b))
  end.

(** What the request came to. *)
Record ANSWER := mkAnswer { ans_start : NTSTATUS; ans_status : NTSTATUS; ans_batch : option CHANGE_BATCH }.

Definition ChangeFeedOnAnswer (f : CHANGE_FEED_STATE) (a : ANSWER) : CHANGE_FEED_STATE :=
  with_answer f (ans_status a) (ans_batch a) true.

Definition next_backoff (ms : Z) : Z :=
  let doubled := u32 (ms * 2) in
  if ms =? 0 then CHANGE_FEED_BACKOFF_MIN_MS
  else if CHANGE_FEED_BACKOFF_MAX_MS <? doubled then CHANGE_FEED_BACKOFF_MAX_MS else doubled.

Definition with_feed (w : FEED_WORLD) (f : CHANGE_FEED_STATE) : FEED_WORLD :=
  mkFeedWorld f (fw_cache w) (fw_reports w) (fw_freed w).

Definition BlorgChangeFeedPoll (w : FEED_WORLD) (a : ANSWER) : option (Z * FEED_WORLD) :=
  let f := with_batch (fw_feed w) None false in
  let '(status, f) :=
    if ans_start a =? STATUS_PENDING then (let f := ChangeFeedOnAnswer f a in (Status f, f)) else (ans_start a, f) in
  w ← BlorgChangeFeedReceive (with_feed w f) status (Batch f);
  let f := with_batch (fw_feed w) None (DoneEvent (fw_feed w)) in
  if NT_SUCCESS status then Some (0, with_feed w (with_backoff f 0))
  else
    let ms := next_backoff (BackoffMs f) in
    Some (ms, with_feed w (with_backoff f ms)).

(** The thread: [true] of an element is the stop event seen at the top of the
    loop; the answers and waits of the polls it made come back. *)
Fixpoint ChangeFeedThread (w : FEED_WORLD) (evs : list (bool * ANSWER)) : option (list Z * FEED_WORLD) :=
  match evs with
  | [] => Some ([], w)
  | (true, _) :: _ => Some ([], w)
  | (false, a) :: evs =>
      '(ms, w) ← BlorgChangeFeedPoll w a;
      '(l, w) ← ChangeFeedThread w evs;
      Some (ms :: l, w)
  end.

(** [enabled] is [global.ChangeFeed], [created] what creating the thread came to. *)
Definition BlorgChangeFeedStart (w : FEED_WORLD) (enabled : bool) (created : NTSTATUS) : FEED_WORLD :=
  let f := fw_feed w in
  if negb enabled || Thread f then w
  else with_feed w (mkFeed (NT_SUCCESS created) (NT_SUCCESS created) false false 0 0 (Batch f) (Status f) 0).

Definition BlorgChangeFeedStop (w : FEED_WORLD) : option FEED_WORLD :=
  let f := fw_feed w in
  let stop := Thread f || StopEvent f in
  follow (with_feed w (mkFeed false false stop (DoneEvent f) (Epoch f) (Since f) (Batch f) (Status f) (BackoffMs f))) false.
End Feed.

(** ** What one answer does *)

Section Receive.
Context {nls : Nls}.
Implicit Types (st : PATH_CACHE_STATE) (e : CHANGE_ENTRY) (es : list CHANGE_ENTRY) (q : PATH).

(** Whether the change [e] concerns the answer, or the listing, of [q]: an
    empty path names nothing. *)
Definition entry_drops e q : bool :=
  negb (length (ChangePath e) =? 0)%nat &&
  (if is_structural e then PathCacheIsUnder (ChangePath e) q else RtlEqualUnicodeString (ChangePath e) q).
Definition entry_ldrops e q : bool :=
  entry_drops e q || (negb (length (ChangePath e) =? 0)%nat && is_parent (ChangePath e) q).
Definition any (f : CHANGE_ENTRY -> PATH -> bool) es q : bool := existsb (fun e => f e q) es.

Lemma forgets_none st : forgets_exactly st st (fun _ => false) (fun _ => false).
Proof. intros q now Hq. done. Qed.

Lemma forgets_trans st st1 st2 d l d' l' :
  forgets_exactly st st1 d l -> forgets_exactly st1 st2 d' l' ->
  forgets_exactly st st2 (fun q => d q || d' q) (fun q => l q || l' q).
Proof.
  intros H1 H2 q now Hq. destruct (H1 q now Hq) as [Ha1 Hb1], (H2 q now Hq) as [Ha2 Hb2]. rewrite Ha2, Hb2, Ha1, Hb1.
  by destruct (d q), (d' q), (l q), (l' q).
Qed.

Lemma forgets_ext st st' d l d' l' :
  forgets_exactly st st' d l -> (forall q, d q = d' q) -> (forall q, l q = l' q) -> forgets_exactly st st' d' l'.
Proof. intros H Hd Hl q now Hq. rewrite <- Hd, <- Hl. by apply H. Qed.

(** What one invalidation of a batch keeps for the next. *)
Record follows_on hold st st' : Prop := {
  fo_wf : cache_wf hold st';
  fo_ready : Ready st' = true;
  fo_live : ChangeFeedLive st' = ChangeFeedLive st
}.

Definition apply_one st e : option PATH_CACHE_STATE :=
  match Kind e with
  | ChangeModified => BlorgPathCacheInvalidate st (ChangePath e)
  | _ => BlorgPathCacheInvalidatePrefix st (ChangePath e)
  end.

Lemma apply_one_spec hold st e :
  cache_wf hold st -> Ready st = true ->
  exists st', apply_one st e = Some st' /\ follows_on hold st st' /\ forgets_exactly st st' (entry_drops e) (entry_ldrops e) /\
    Sequence st' = if (length (ChangePath e) =? 0)%nat then Sequence st else s64 (Sequence st + 1).
Proof.
  intros Hwf Hr. unfold apply_one, entry_ldrops, entry_drops, is_structural. destruct e as [[|c p] k]; cbn [ChangePath Kind length Nat.eqb negb andb orb].
  - exists st. split; [destruct k; unfold BlorgPathCacheInvalidate, BlorgPathCacheInvalidatePrefix; by rewrite orb_true_r|].
    split; [by split|]. split; [apply forgets_none|done].
  - set (path := c :: p). destruct k; rewrite ?bool_decide_true, ?bool_decide_false by done; cbn [negb].
    + destruct (invalidate_spec hold st path Hwf Hr ltac:(done)) as (st' & H & Hwf' & Hg & Hi). exists st'.
      pose proof Hi as (Hs & Hr' & Hf & _). split; [done|]. split; [split; congruence|]. split; [|done].
      apply invalidated_forgets; try done; [apply equal_fold_r|]. intros x y Hxy. by rewrite (equal_fold_r _ _ _ Hxy), (parent_fold_r _ _ _ Hxy).
    + destruct (invalidate_prefix_spec hold st path Hwf Hr ltac:(done)) as (st' & H & Hwf' & Hg & Hi). exists st'.
      pose proof Hi as (Hs & Hr' & Hf & _). split; [done|]. split; [split; congruence|]. split; [|done].
      apply invalidated_forgets; try done; [apply under_fold_r|]. intros x y Hxy. by rewrite (under_fold_r _ _ _ Hxy), (parent_fold_r _ _ _ Hxy).
    + destruct (invalidate_prefix_spec hold st path Hwf Hr ltac:(done)) as (st' & H & Hwf' & Hg & Hi). exists st'.
      pose proof Hi as (Hs & Hr' & Hf & _). split; [done|]. split; [split; congruence|]. split; [|done].
      apply invalidated_forgets; try done; [apply under_fold_r|]. intros x y Hxy. by rewrite (under_fold_r _ _ _ Hxy), (parent_fold_r _ _ _ Hxy).
Qed.

(** The invalidations a batch makes. *)
Definition naming es : Z := Z.of_nat (length (List.filter (fun e => negb (length (ChangePath e) =? 0)%nat) es)).

Lemma apply_entries_spec hold st es :
  cache_wf hold st -> Ready st = true ->
  exists st', apply_entries st es = Some st' /\ follows_on hold st st' /\
    forgets_exactly st st' (any entry_drops es) (any entry_ldrops es) /\
    (0 <= Sequence st -> Sequence st + naming es <= MAXLONG64 -> Sequence st' = Sequence st + naming es).
Proof.
  revert st. induction es as [|e es IH]; intros st Hwf Hr.
  { exists st. split; [done|]. split; [by split|]. split; [apply forgets_none|]. unfold naming. cbn. lia. }
  destruct (apply_one_spec hold st e Hwf Hr) as (st1 & H1 & [Hwf1 Hr1 Hl1] & Hf1 & Hs1).
  destruct (IH st1 Hwf1 Hr1) as (st2 & H2 & [Hwf2 Hr2 Hl2] & Hf2 & Hs2). exists st2. split_and!.
  - cbn [apply_entries]. fold (apply_one st e). by rewrite H1.
  - split; [done|done|congruence].
  - eapply forgets_ext; [by eapply forgets_trans|done|done].
  - intros H0 Hn. assert (Hc : naming (e :: es) = (if (length (ChangePath e) =? 0)%nat then 0 else 1) + naming es).
    { unfold naming. cbn [List.filter]. destruct (_ =? _)%nat; cbn [negb length]; lia. }
    assert (0 <= naming es) by (unfold naming; lia).
    destruct (_ =? _)%nat; [|rewrite s64_id in Hs1 by (unfold MAXLONG64 in *; lia)]; rewrite Hs2; lia.
Qed.

(** ** The whole answer *)

Definition reports_of (w : FEED_WORLD) (b : CHANGE_BATCH) : list REPORT := if Volume (fw_feed w) then concat (report_of <$> Entries b) else [].

(** What a batch of the server process being followed does to the caches. *)
Definition batch_applied (st st' : PATH_CACHE_STATE) es : Prop :=
  ChangeFeedLive st' = ChangeFeedLive st /\
  if CHANGE_FEED_PRECISE_STRUCTURAL_MAX <? count_structural es then forgets_everything st st'
  else forgets_exactly st st' (any entry_drops es) (any entry_ldrops es) /\
       (Sequence st + naming es <= MAXLONG64 -> 0 < naming es ->
        forall t, TicketSequence t <= Sequence st -> PathCacheTicketHonoured st' (Some t) = false).

Lemma live_id st : with_ChangeFeedLive st (ChangeFeedLive st) = st.
Proof. by destruct st. Qed.

Lemma apply_batch hold (w : FEED_WORLD) b :
  cache_wf hold (fw_cache w) -> Ready (fw_cache w) = true -> 0 <= Sequence (fw_cache w) ->
  exists st', ChangeFeedApply w b = Some (mkFeedWorld (fw_feed w) st' (fw_reports w ++ reports_of w b) (fw_freed w)) /\
    batch_applied (fw_cache w) st' (Entries b).
Proof.
  intros Hwf Hr Hs. unfold ChangeFeedApply, batch_applied, ChangeFeedNotify, reports_of.
  destruct (_ <? _).
  - destruct (invalidate_all_forgets hold (fw_cache w) Hwf Hr Hs) as (st' & -> & _ & _ & Hl & Hf). exists st'. cbn.
    split; [destruct (Volume (fw_feed w)); cbn; by rewrite ?app_nil_r|]. split; [done|]. specialize (Hf (ChangeFeedLive st')). by rewrite live_id in Hf.
  - destruct (apply_entries_spec hold (fw_cache w) (Entries b) Hwf Hr) as (st' & -> & [_ _ Hl] & Hf & Hseq). exists st'. cbn.
    split; [destruct (Volume (fw_feed w)); cbn; by rewrite ?app_nil_r|]. split; [done|]. split; [done|].
    intros Hb Hn t Ht. cbn. rewrite Hseq by done. apply Z.eqb_neq. lia.
Qed.
End Receive.

(** C40: What one answer of the server does.  A failed poll takes the feed
    down, forgets the position followed and leaves the caches alone.  A reset,
    or a batch of another server process, forgets everything and the feed is
    live from there.  A batch of the process followed forgets exactly the
    answers and listings its paths concern (everything, past the limit of
    structural changes), refuses every ticket taken before, and reports each
    path.  The batch is freed exactly once, and the position is the one it
    brings the client up to. *)
Theorem receive_outcome {nls : Nls} (hw : WORLD) (w : FEED_WORLD) status batch :
  reachable hw -> w_st hw = fw_cache w -> Ready (fw_cache w) = true ->
  exists w', BlorgChangeFeedReceive w status batch = Some w' /\ fw_freed w' = fw_freed w ++ option_list batch /\
  match (if NT_SUCCESS status then batch else None) with
  | None => Epoch (fw_feed w') = 0 /\ Since (fw_feed w') = 0 /\ fw_reports w' = fw_reports w /\
            fw_cache w' = with_ChangeFeedLive (fw_cache w) false
  | Some b =>
      Epoch (fw_feed w') = BatchEpoch b /\ Since (fw_feed w') = BatchGeneration b /\
      if Reset b || negb (BatchEpoch b =? Epoch (fw_feed w))
      then ChangeFeedLive (fw_cache w') = true /\ forgets_everything (fw_cache w) (fw_cache w') /\ fw_reports w' = fw_reports w
      else batch_applied (fw_cache w) (fw_cache w') (Entries b) /\ fw_reports w' = fw_reports w ++ reports_of w b
  end.
Proof.
  intros Hr Hst Hrd. pose proof (world_reachable_inv _ Hr) as [Hwf [Hseq _] _]. rewrite Hst in Hwf, Hseq.
  unfold BlorgChangeFeedReceive. destruct (if NT_SUCCESS status then batch else None) as [b|] eqn:E.
  - assert (batch = Some b) as -> by (destruct (NT_SUCCESS status); congruence).
    destruct (Reset b || negb (BatchEpoch b =? Epoch (fw_feed w))).
    + destruct (invalidate_all_forgets _ _ Hwf Hrd Hseq) as (st' & H & _ & _ & _ & Hf). unfold follow, BlorgPathCacheFollowFeed. rewrite H.
      eexists. split; [reflexivity|]. split; [done|]. cbn. by split_and!.
    + destruct (apply_batch _ w b Hwf Hrd Hseq) as (st' & -> & Hb). eexists. split; [reflexivity|]. split; [done|]. cbn. by split_and!.
  - eexists. split; [reflexivity|]. destruct batch as [b|]; cbn; rewrite ?app_nil_r; by split_and!.
Qed.

(** The world of the path cache's examples, followed at epoch 5. *)
Definition demo_feed : FEED_WORLD := mkFeedWorld (mkFeed true true false false 5 7 None 0 0) Demo.st1 [] [].
Definition demo_batch : CHANGE_BATCH := mkBatch 5 9 [mkChange [92; 65] ChangeRemoved] false.

Lemma receive_outcome_witness :
  exists w', BlorgChangeFeedReceive demo_feed 0 (Some demo_batch) = Some w' /\ Since (fw_feed w') = 9 /\
    PathCacheFind (fw_cache w') Demo.a_path 12 = PathCacheMiss /\ fw_reports w' = reports_of demo_feed demo_batch.
Proof.
  destruct (receive_outcome Demo.w1 demo_feed 0 (Some demo_batch)) as (w' & H & _ & _ & Hs & [_ [Hf _]] & Hr);
    [apply Demo.w1_reachable|reflexivity|reflexivity|].
  exists w'. split; [exact H|]. split; [exact Hs|]. split; [|exact Hr]. destruct (Hf Demo.a_path 12) as [-> _]; [discriminate|]. vm_compute. reflexivity.
Defined.

(** ** Backoff *)

Section Backoff.
Context {nls : Nls}.

Definition poll_status (a : ANSWER) : NTSTATUS := if ans_start a =? STATUS_PENDING then ans_status a else ans_start a.
Definition poll_fails (a : ANSWER) : Prop := NT_SUCCESS (poll_status a) = false.

(** The wait after the [k]-th failure in a row. *)
Definition wait_after (k : nat) : Z := Z.min (CHANGE_FEED_BACKOFF_MIN_MS * 2 ^ Z.of_nat k) CHANGE_FEED_BACKOFF_MAX_MS.
Definition backoff_after (k : nat) : Z := match k with O => 0 | S k => wait_after k end.

Lemma next_backoff_after k : next_backoff (backoff_after k) = wait_after k.
Proof.
  unfold next_backoff, backoff_after, wait_after, CHANGE_FEED_BACKOFF_MIN_MS, CHANGE_FEED_BACKOFF_MAX_MS. destruct k as [|k]; [done|].
  rewrite Nat2Z.inj_succ, Z.pow_succ_r by lia. assert (0 < 2 ^ Z.of_nat k) by lia. set (p := 2 ^ Z.of_nat k) in *.
  rewrite u32_id by lia. destruct (Z.eqb_spec (Z.min (1000 * p) 30000) 0); [lia|]. destruct (Z.ltb_spec 30000 (Z.min (1000 * p) 30000 * 2)); lia.
Qed.

Lemma receive_failed w s b :
  NT_SUCCESS s = false ->
  exists w', BlorgChangeFeedReceive w s b = Some w' /\ fw_feed w' = with_position (fw_feed w) 0 0 /\
    fw_cache w' = with_ChangeFeedLive (fw_cache w) false.
Proof. intros Hf. unfold BlorgChangeFeedReceive. rewrite Hf. eexists. split; [reflexivity|]. by destruct b. Qed.

Lemma failed_poll w a k :
  poll_fails a -> BackoffMs (fw_feed w) = backoff_after k ->
  exists w', BlorgChangeFeedPoll w a = Some (wait_after k, w') /\ BackoffMs (fw_feed w') = backoff_after (S k) /\
    Epoch (fw_feed w') = 0 /\ fw_cache w' = with_ChangeFeedLive (fw_cache w) false.
Proof.
  unfold poll_fails, poll_status. intros Hf Hb. unfold BlorgChangeFeedPoll.
  destruct (ans_start a =? STATUS_PENDING); cbn [Status ChangeFeedOnAnswer with_answer Batch with_batch];
    match goal with |- context [BlorgChangeFeedReceive ?w ?s ?b] => destruct (receive_failed w s b Hf) as (w1 & -> & Hfd & Hc) end;
    cbn [mbind option_bind]; rewrite Hf, Hfd; cbn [with_batch with_position BackoffMs with_feed fw_feed ChangeFeedOnAnswer with_answer]; rewrite Hb, next_backoff_after;
    (eexists; split; [reflexivity|]); cbn; by rewrite Hc.
Qed.

Lemma succeeded_poll w a ms w' : NT_SUCCESS (poll_status a) = true -> BlorgChangeFeedPoll w a = Some (ms, w') -> ms = 0 /\ BackoffMs (fw_feed w') = 0.
Proof.
  unfold poll_status, BlorgChangeFeedPoll. intros Hs. destruct (ans_start a =? STATUS_PENDING); cbn [Status ChangeFeedOnAnswer with_answer Batch with_batch];
    intros (w1 & _ & H)%bind_Some; rewrite Hs in H; by injection H as <- <-.
Qed.

Lemma failing_thread l w k :
  Forall poll_fails l -> BackoffMs (fw_feed w) = backoff_after k ->
  exists w', ChangeFeedThread w ((fun a => (false, a)) <$> l) = Some (wait_after <$> seq k (length l), w') /\
    (l <> [] -> Epoch (fw_feed w') = 0 /\ fw_cache w' = with_ChangeFeedLive (fw_cache w) false).
Proof.
  revert w k. induction l as [|a l IH]; intros w k Hf Hb; [by exists w|]. apply Forall_cons in Hf as [Ha Hl].
  destruct (failed_poll w a k Ha Hb) as (w1 & H1 & Hb1 & He1 & Hc1). destruct (IH w1 (S k) Hl Hb1) as (w2 & H2 & Hend).
  rewrite fmap_cons. cbn [ChangeFeedThread length seq]. rewrite H1. cbn [mbind option_bind]. rewrite H2. cbn [mbind option_bind].
  exists w2. split; [done|]. intros _. destruct l as [|b l].
  - cbn in H2. injection H2 as <-. done.
  - destruct (Hend ltac:(done)) as [He Hc]. split; [done|]. rewrite Hc, Hc1. done.
Qed.
End Backoff.

(** A server that keeps failing is asked ever less often and never
    given up on: the follower's waits double from one second to thirty and
    stay there, with no wrap, the feed is down meanwhile, and a poll that
    succeeds makes the next wait zero again. *)
Theorem backoff_doubles_to_its_cap {nls : Nls} (w : FEED_WORLD) (l : list ANSWER) :
  Forall poll_fails l -> BackoffMs (fw_feed w) = 0 ->
  exists w', ChangeFeedThread w ((fun a => (false, a)) <$> l) = Some (wait_after <$> seq 0 (length l), w') /\
    (l <> [] -> Epoch (fw_feed w') = 0 /\ ChangeFeedLive (fw_cache w') = false) /\
    forall a ms w'', NT_SUCCESS (poll_status a) = true -> BlorgChangeFeedPoll w' a = Some (ms, w'') -> ms = 0 /\ BackoffMs (fw_feed w'') = 0.
Proof.
  intros Hf Hb. destruct (failing_thread l w 0 Hf Hb) as (w' & H & He). exists w'. split; [done|]. split.
  - intros Hl. destruct (He Hl) as [? ->]. done.
  - intros a ms w''. apply succeeded_poll.
Qed.

Definition refused_answer : ANSWER := mkAnswer STATUS_PENDING (nt 0xC0000225) None.
Lemma backoff_doubles_to_its_cap_witness :
  exists w', ChangeFeedThread demo_feed ((fun a => (false, a)) <$> replicate 7 refused_answer) = Some ([1000; 2000; 4000; 8000; 16000; 30000; 30000], w') /\
    ChangeFeedLive (fw_cache w') = false.
Proof.
  destruct (backoff_doubles_to_its_cap demo_feed (replicate 7 refused_answer)) as (w' & H & Hl & _).
  - apply Forall_replicate. reflexivity.
  - reflexivity.
  - exists w'. split; [exact H|]. apply Hl. discriminate.
Defined.
