(* ===== verification/TlsCrypto.v ===== *)
(** * TLS: the crypto layer (src/Tls.c, first half)

    The primitives the driver gets from BCrypt are the [Bcrypt] class, with
    the laws their documentation states (lengths, that outputs are bytes, and
    that opening a sealed record under the same key, nonce and data gives it
    back).  What the driver
    adds is handles and error paths: providers opened once or per call, hash
    and key objects, and a [goto cleanup] in every function.  The world keeps
    the set of open handles and an oracle that decides the status of every
    BCrypt call, so a theorem for all oracles covers every error path; closing
    a handle that is not open is [None]. *)

From S2P Require Import Prelude Buffers.

Definition TLS_HASH_LEN : Z := 32.
Definition TLS_KEY_LEN : Z := 16.
Definition TLS_IV_LEN : Z := 12.
Definition TLS_TAG_LEN : Z := 16.
Definition TLS_ECC_COORD_LEN : Z := 32.
Definition TLS_ECC_PUBKEY_LEN : Z := 65.
Definition STATUS_AUTH_TAG_MISMATCH : NTSTATUS := nt 0xC000A002.
Definition STATUS_INVALID_SIGNATURE : NTSTATUS := nt 0xC000A000.


Class Bcrypt := {
  sha256 : BYTES -> BYTES;
  hmac : BYTES -> BYTES -> BYTES;
  seal : BYTES -> BYTES -> BYTES -> BYTES -> BYTES * BYTES;
  unseal : BYTES -> BYTES -> BYTES -> BYTES -> BYTES -> option BYTES;
  ecc_blob : Z -> BYTES;
  ecdh_raw : BYTES -> BYTES -> BYTES;
  ecdsa_ok : BYTES -> BYTES -> BYTES -> bool;
  sha256_length : forall d, length (sha256 d) = 32%nat;
  hmac_length : forall k d, length (hmac k d) = 32%nat;
  unseal_seal : forall k n a p, unseal k n a (seal k n a p).1 (seal k n a p).2 = Some p;
  seal_length : forall k n a p, length (seal k n a p).1 = length p;
  seal_tag_length : forall k n a p, length (seal k n a p).2 = 16%nat;
  unseal_length : forall k n a c t p, unseal k n a c t = Some p -> length p = length c;
  unseal_bytes : forall k n a c t p, bytes_ok c -> unseal k n a c t = Some p -> bytes_ok p;
  sha256_bytes : forall d, bytes_ok (sha256 d);
  hmac_bytes : forall k d, bytes_ok (hmac k d);
  ecc_blob_length : forall r, length (ecc_blob r) = 96%nat;
  ecdh_raw_length : forall o p, length (ecdh_raw o p) = 32%nat
}.

(** ** The world *)

Inductive ALG := AlgAesGcm | AlgSha256 | AlgHmacSha256 | AlgEcdh | AlgEcdsa.

(** The file's five shared provider handles, [0] for [NULL]; the handles
    open in BCrypt; the next handle it will give out; the bytes of the keys
    imported, by handle; and how many calls have been made, which is what the
    oracle is asked with. *)
Record TLS_GLOBALS := mkGlobals {
  TlsAesGcmProvider : Z;
  TlsSha256Provider : Z;
  TlsHmacSha256Provider : Z;
  TlsEcdhP256Provider : Z;
  TlsEcdsaP256Provider : Z
}.

Record TLS_WORLD := mkTlsWorld {
  tw_globals : TLS_GLOBALS;
  tw_open : gset Z;
  tw_next : Z;
  tw_keys : gmap Z BYTES;
  tw_calls : nat
}.

Definition shared (g : TLS_GLOBALS) (a : ALG) : Z :=
  match a with
  | AlgAesGcm => TlsAesGcmProvider g
  | AlgSha256 => TlsSha256Provider g
  | AlgHmacSha256 => TlsHmacSha256Provider g
  | AlgEcdh => TlsEcdhP256Provider g
  | AlgEcdsa => TlsEcdsaP256Provider g
  end.

Definition set_shared (g : TLS_GLOBALS) (a : ALG) (h : Z) : TLS_GLOBALS :=
  match a with
  | AlgAesGcm => mkGlobals h (TlsSha256Provider g) (TlsHmacSha256Provider g) (TlsEcdhP256Provider g) (TlsEcdsaP256Provider g)
  | AlgSha256 => mkGlobals (TlsAesGcmProvider g) h (TlsHmacSha256Provider g) (TlsEcdhP256Provider g) (TlsEcdsaP256Provider g)
  | AlgHmacSha256 => mkGlobals (TlsAesGcmProvider g) (TlsSha256Provider g) h (TlsEcdhP256Provider g) (TlsEcdsaP256Provider g)
  | AlgEcdh => mkGlobals (TlsAesGcmProvider g) (TlsSha256Provider g) (TlsHmacSha256Provider g) h (TlsEcdsaP256Provider g)
  | AlgEcdsa => mkGlobals (TlsAesGcmProvider g) (TlsSha256Provider g) (TlsHmacSha256Provider g) (TlsEcdhP256Provider g) h
  end.

(** ** A state monad over it *)

Definition M (A : Type) : Type := TLS_WORLD -> option (A * TLS_WORLD).
Definition mreturn {A} (x : A) : M A := fun w => Some (x, w).
Definition mthen {A B} (m : M A) (k : A -> M B) : M B := fun w => match m w with Some (x, w) => k x w | None => None end.

Declare Scope tls_scope.
Delimit Scope tls_scope with tls.
Notation "x <- m ;; k" := (mthen m (fun x => k)) (at level 20, m at level 99, k at level 200) : tls_scope.
Notation "' p <- m ;; k" := (mthen m (fun x => match x with p => k end))
  (at level 20, p pattern, m at level 99, k at level 200) : tls_scope.
#[local] Open Scope tls_scope.

Section Calls.
Context (oracle : nat -> NTSTATUS).

(** A BCrypt call that makes no handle. *)
Definition bcall : M NTSTATUS := fun w =>
  Some (oracle (tw_calls w), mkTlsWorld (tw_globals w) (tw_open w) (tw_next w) (tw_keys w) (S (tw_calls w))).

(** One that makes a handle when it succeeds; the caller's variable keeps
    its [NULL] when it does not. *)
Definition bcreate : M (NTSTATUS * Z) := fun w =>
  let st := oracle (tw_calls w) in
  if NT_SUCCESS st
  then Some ((st, tw_next w), mkTlsWorld (tw_globals w) (tw_open w ∪ {[ tw_next w ]}) (tw_next w + 1) (tw_keys w) (S (tw_calls w)))
  else Some ((st, 0), mkTlsWorld (tw_globals w) (tw_open w) (tw_next w) (tw_keys w) (S (tw_calls w))).

(** [BCryptDestroyHash], [BCryptDestroyKey], [BCryptCloseAlgorithmProvider], ... *)
Definition bclose (h : Z) : M unit := fun w =>
  if bool_decide (h ∈ tw_open w)
  then Some (tt, mkTlsWorld (tw_globals w) (tw_open w ∖ {[ h ]}) (tw_next w) (delete h (tw_keys w)) (tw_calls w))
  else None.

Definition bclose_if (b : bool) (h : Z) : M unit := if b && negb (h =? 0) then bclose h else mreturn tt.

Definition get_shared (a : ALG) : M Z := fun w => Some (shared (tw_globals w) a, w).
Definition put_shared (a : ALG) (h : Z) : M unit := fun w =>
  Some (tt, mkTlsWorld (set_shared (tw_globals w) a h) (tw_open w) (tw_next w) (tw_keys w) (tw_calls w)).

(** The next call of a [goto cleanup] body, made only if all before it
    succeeded. *)
Definition also (st : NTSTATUS) (m : M NTSTATUS) : M NTSTATUS := if NT_SUCCESS st then m else mreturn st.
Definition also_create (st : NTSTATUS) : M (NTSTATUS * Z) := if NT_SUCCESS st then bcreate else mreturn (st, 0).

Definition TlsResolveProvider (a : ALG) : M (NTSTATUS * Z * bool) :=
  h <- get_shared a ;;
  if negb (h =? 0) then mreturn (STATUS_SUCCESS, h, false)
  else '(st, h) <- bcreate ;; mreturn (st, h, true).

(** ** Hashes *)

Context {bc : Bcrypt}.

Definition BlorgTlsSha256 (data : BYTES) : M (NTSTATUS * BYTES) :=
  '(st, alg, owned) <- TlsResolveProvider AlgSha256 ;;
  '(st, hash) <- also_create st ;;
  st <- also st (if (0 <? length data)%nat then bcall else mreturn st) ;;
  st <- also st bcall ;;
  _ <- bclose_if true hash ;;
  _ <- bclose_if owned alg ;;
  mreturn (st, sha256 data).

Definition BlorgTlsHmacSha256 (key data : BYTES) : M (NTSTATUS * BYTES) :=
  '(st, alg, owned) <- TlsResolveProvider AlgHmacSha256 ;;
  '(st, hash) <- also_create st ;;
  st <- also st (if (0 <? length data)%nat then bcall else mreturn st) ;;
  st <- also st bcall ;;
  _ <- bclose_if true hash ;;
  _ <- bclose_if owned alg ;;
  mreturn (st, hmac key data).

(** ** HKDF *)

Definition BlorgTlsHkdfExtract (salt ikm : BYTES) : M (NTSTATUS * BYTES) := BlorgTlsHmacSha256 salt ikm.

(** One round per [TLS_HASH_LEN] bytes; [out] is what was copied so far.  The
    output buffer of a failed call is unspecified; it is [[]] here. *)
Fixpoint expand_loop (fuel : nat) (prk info : BYTES) (t : BYTES) (counter : Z) (out : BYTES) (outLen : Z) : M (NTSTATUS * BYTES) :=
  match fuel with
  | O => fun _ => None
  | S fuel =>
      let generated := Z.of_nat (length out) in
      if generated <? outLen then
        '(st, t) <- BlorgTlsHmacSha256 prk (t ++ info ++ [counter]) ;;
        if negb (NT_SUCCESS st) then mreturn (st, [])
        else
          let copyLen := if outLen - generated <? TLS_HASH_LEN then outLen - generated else TLS_HASH_LEN in
          expand_loop fuel prk info t (u8 (counter + 1)) (out ++ take (Z.to_nat copyLen) t) outLen
      else mreturn (STATUS_SUCCESS, out)
  end.

Definition BlorgTlsHkdfExpand (prk info : BYTES) (outLen : Z) : M (NTSTATUS * BYTES) :=
  if 256 <? u32 (Z.of_nat (length info) + TLS_HASH_LEN + 1) then mreturn (STATUS_INVALID_PARAMETER, [])
  else expand_loop (S (Z.to_nat outLen)) prk info [] 1 [] outLen.

(** ["tls13 "] *)
Definition tls13_prefix : BYTES := [116; 108; 115; 49; 51; 32].

Definition HkdfLabel (label context : BYTES) (len : Z) : BYTES :=
  [u8 (Z.shiftr len 8); Z.land len 255] ++ [u8 (6 + Z.of_nat (length label))] ++ tls13_prefix ++ label ++
  [u8 (Z.of_nat (length context))] ++ context.

Definition BlorgTlsHkdfExpandLabel (secret label context : BYTES) (len : Z) : M (NTSTATUS * BYTES) :=
  if (255 <? 6 + Z.of_nat (length label)) || (255 <? Z.of_nat (length context)) then mreturn (STATUS_INVALID_PARAMETER, [])
  else BlorgTlsHkdfExpand secret (HkdfLabel label context len) len.

(** ** Records *)

(** [None] is an access out of the twelve bytes. *)
Fixpoint nonce_loop (n : nat) (seq : Z) (nonce : BYTES) : option BYTES :=
  match n with
  | O => Some nonce
  | S m =>
      nonce ← nonce_loop m seq nonce;
      let i := Z.of_nat m in
      b ← rd nonce (TLS_IV_LEN - 8 + i);
      wr nonce (TLS_IV_LEN - 8 + i) (Z.lxor b (u8 (Z.shiftr seq (8 * (7 - i)))))
  end.
Definition TlsBuildNonce (iv : BYTES) (seq : Z) : option BYTES := nonce_loop 8 seq iv.

Definition lift {A} (o : option A) : M A := fun w => match o with Some x => Some (x, w) | None => None end.

(** The property call is made on a private provider only. *)
Definition set_chaining_mode (owned : bool) (st : NTSTATUS) : M NTSTATUS := also st (if owned then bcall else mreturn st).

Definition BlorgTlsAeadEncrypt (key iv : BYTES) (seq : Z) (aad plaintext : BYTES) : M (NTSTATUS * (BYTES * BYTES)) :=
  nonce <- lift (TlsBuildNonce iv seq) ;;
  '(st, alg, owned) <- TlsResolveProvider AlgAesGcm ;;
  st <- set_chaining_mode owned st ;;
  '(st, h) <- also_create st ;;
  st <- also st bcall ;;
  _ <- bclose_if true h ;;
  _ <- bclose_if owned alg ;;
  mreturn (st, seal key nonce aad plaintext).

(** The status of a decryption whose call went through. *)
Definition open_status (r : option BYTES) (st : NTSTATUS) : NTSTATUS :=
  if NT_SUCCESS st then match r with Some _ => st | None => STATUS_AUTH_TAG_MISMATCH end else st.

Definition BlorgTlsAeadDecrypt (key iv : BYTES) (seq : Z) (aad ciphertext tag : BYTES) : M (NTSTATUS * BYTES) :=
  nonce <- lift (TlsBuildNonce iv seq) ;;
  '(st, alg, owned) <- TlsResolveProvider AlgAesGcm ;;
  st <- set_chaining_mode owned st ;;
  '(st, h) <- also_create st ;;
  let r := unseal key nonce aad ciphertext tag in
  st <- also st (st <- bcall ;; mreturn (open_status r st)) ;;
  _ <- bclose_if true h ;;
  _ <- bclose_if owned alg ;;
  mreturn (st, default [] r).

(** The variants on an imported key: [key] is the bytes behind the handle. *)
Definition BlorgTlsAeadEncryptKeyed (key iv : BYTES) (seq : Z) (aad plaintext : BYTES) : M (NTSTATUS * (BYTES * BYTES)) :=
  nonce <- lift (TlsBuildNonce iv seq) ;;
  st <- bcall ;;
  mreturn (st, seal key nonce aad plaintext).

Definition BlorgTlsAeadDecryptKeyed (key iv : BYTES) (seq : Z) (aad ciphertext tag : BYTES) : M (NTSTATUS * BYTES) :=
  nonce <- lift (TlsBuildNonce iv seq) ;;
  let r := unseal key nonce aad ciphertext tag in
  st <- bcall ;;
  mreturn (open_status r st, default [] r).

(** ** Provider lifetime *)

(** [BCryptOpenAlgorithmProvider] straight into a shared handle. *)
Definition open_shared (a : ALG) (st : NTSTATUS) : M NTSTATUS :=
  if NT_SUCCESS st then '(st, h) <- bcreate ;; (if NT_SUCCESS st then _ <- put_shared a h ;; mreturn st else mreturn st) else mreturn st.

Definition close_shared (a : ALG) : M unit :=
  h <- get_shared a ;;
  if negb (h =? 0) then _ <- bclose h ;; put_shared a 0 else mreturn tt.

Definition BlorgTlsGlobalCleanup : M unit :=
  _ <- close_shared AlgAesGcm ;; _ <- close_shared AlgSha256 ;; _ <- close_shared AlgHmacSha256 ;;
  _ <- close_shared AlgEcdh ;; close_shared AlgEcdsa.

Definition BlorgTlsGlobalInit : M NTSTATUS :=
  st <- open_shared AlgAesGcm STATUS_SUCCESS ;;
  st <- (if negb (NT_SUCCESS st) then open_shared AlgAesGcm STATUS_SUCCESS else mreturn st) ;;
  if negb (NT_SUCCESS st) then _ <- put_shared AlgAesGcm 0 ;; mreturn st
  else
    st <- bcall ;;
    st <- open_shared AlgSha256 st ;;
    st <- open_shared AlgHmacSha256 st ;;
    st <- open_shared AlgEcdh st ;;
    st <- open_shared AlgEcdsa st ;;
    if negb (NT_SUCCESS st) then _ <- BlorgTlsGlobalCleanup ;; mreturn st
    else mreturn STATUS_SUCCESS.

(** [BCryptGenerateSymmetricKey]: a handle made from the bytes of a key. *)
Definition bimport (key : BYTES) : M (NTSTATUS * Z) :=
  '(st, h) <- bcreate ;;
  if NT_SUCCESS st
  then fun w => Some ((st, h), mkTlsWorld (tw_globals w) (tw_open w) (tw_next w) (<[h := key]> (tw_keys w)) (tw_calls w))
  else mreturn (st, h).

Definition BlorgTlsImportKeyHandle (key : BYTES) : M (NTSTATUS * Z) :=
  h <- get_shared AlgAesGcm ;;
  if h =? 0 then mreturn (STATUS_INVALID_PARAMETER, 0) else bimport key.

(** ** ECDH and ECDSA *)

(** The exported blob is a header and [X || Y || d]; [rng] is the generator's
    choice. *)
Definition BlorgTlsEcdhGenerateKeyPair (rng : Z) : M (NTSTATUS * (BYTES * BYTES)) :=
  '(st, alg, owned) <- TlsResolveProvider AlgEcdh ;;
  '(st, key) <- also_create st ;;
  st <- also st bcall ;;
  st <- also st bcall ;;
  let blob := ecc_blob rng in
  let c := Z.to_nat TLS_ECC_COORD_LEN in
  let public := [4] ++ take c blob ++ take c (drop c blob) in
  let private := take c (drop (2 * c) blob) in
  _ <- bclose_if true key ;;
  _ <- bclose_if owned alg ;;
  mreturn (st, (private, public)).

(** The in-place swap loop over the first [n] bytes. *)
Fixpoint reverse_loop (n : nat) (l : BYTES) : option BYTES :=
  match n with
  | O => Some l
  | S m =>
      l ← reverse_loop m l;
      let i := Z.of_nat m in
      tmp ← rd l i;
      x ← rd l (TLS_ECC_COORD_LEN - 1 - i);
      l ← wr l i x;
      wr l (TLS_ECC_COORD_LEN - 1 - i) tmp
  end.

(** The key bytes of the two blobs the driver assembles. *)
Definition own_blob (private public : BYTES) : BYTES :=
  let c := Z.to_nat TLS_ECC_COORD_LEN in take c (drop 1 public) ++ take c (drop (1 + c) public) ++ private.
Definition peer_blob (public : BYTES) : BYTES :=
  let c := Z.to_nat TLS_ECC_COORD_LEN in take c (drop 1 public) ++ take c (drop (1 + c) public).

Definition BlorgTlsEcdhComputeSharedSecret (private public peer : BYTES) : M (NTSTATUS * BYTES) :=
  '(st, alg, owned) <- TlsResolveProvider AlgEcdh ;;
  '(st, own) <- also_create st ;;
  '(st, peerKey) <- also_create st ;;
  '(st, secret) <- also_create st ;;
  st <- also st bcall ;;
  let raw := ecdh_raw (own_blob private public) (peer_blob peer) in
  out <- (if NT_SUCCESS st then lift (reverse_loop (Z.to_nat (TLS_ECC_COORD_LEN / 2)) raw) else mreturn []) ;;
  _ <- bclose_if true secret ;;
  _ <- bclose_if true peerKey ;;
  _ <- bclose_if true own ;;
  _ <- bclose_if owned alg ;;
  mreturn (st, out).

Definition BlorgTlsEcdsaVerify (public hash signature : BYTES) : M NTSTATUS :=
  '(st, alg, owned) <- TlsResolveProvider AlgEcdsa ;;
  '(st, key) <- also_create st ;;
  st <- also st (st <- bcall ;;
    mreturn (if NT_SUCCESS st then (if ecdsa_ok (peer_blob public) hash signature then st else STATUS_INVALID_SIGNATURE) else st)) ;;
  _ <- bclose_if true key ;;
  _ <- bclose_if owned alg ;;
  mreturn st.
End Calls.
