(* ===== verification/TlsCryptoHandles.v ===== *)
(** * TLS: handles and error paths

    A weakest-precondition calculus for the monad of TlsCrypto.v, and the
    assertion the [goto cleanup] functions maintain: the world is the one the
    function was entered with, plus a stack of handles it made itself.  The
    operations of the crypto layer are gathered in [TLS_OP], so that one
    theorem covers all of them under every outcome of every BCrypt call. *)

From S2P Require Import Prelude Buffers TlsCrypto.
#[local] Open Scope tls_scope.

Definition wp {A} (m : M A) (w : TLS_WORLD) (Q : A -> TLS_WORLD -> Prop) : Prop :=
  match m w with Some (x, w') => Q x w' | None => False end.

Lemma wp_return {A} (x : A) w (Q : A -> TLS_WORLD -> Prop) : Q x w -> wp (mreturn x) w Q.
Proof. done. Qed.

Lemma wp_then {A B} (m : M A) (k : A -> M B) w (Q : B -> TLS_WORLD -> Prop) :
  wp m w (fun x w' => wp (k x) w' Q) -> wp (mthen m k) w Q.
Proof. unfold wp, mthen. by destruct (m w) as [[x w']|]. Qed.

Lemma wp_mono {A} (m : M A) w (Q Q' : A -> TLS_WORLD -> Prop) :
  wp m w Q -> (forall x w', Q x w' -> Q' x w') -> wp m w Q'.
Proof. unfold wp. destruct (m w) as [[x w']|]; naive_solver. Qed.

Lemma wp_bind {A B} (m : M A) (k : A -> M B) w (Q : A -> TLS_WORLD -> Prop) (R : B -> TLS_WORLD -> Prop) :
  wp m w Q -> (forall x w', Q x w' -> wp (k x) w' R) -> wp (mthen m k) w R.
Proof. intros Hm Hk. apply wp_then. eapply wp_mono; eauto. Qed.

Lemma wp_exists {A} (m : M A) w (Q : A -> TLS_WORLD -> Prop) :
  wp m w Q -> exists x w', m w = Some (x, w') /\ Q x w'.
Proof. unfold wp. destruct (m w) as [[x w']|]; naive_solver. Qed.

(** ** The handle stack *)

(** BCrypt never gives out [NULL] or a handle that is still open. *)
Definition handles_wf (w : TLS_WORLD) : Prop := 0 < tw_next w /\ forall h, h ∈ tw_open w -> h < tw_next w.

Record holds (w0 : TLS_WORLD) (hs : list Z) (w : TLS_WORLD) : Prop := {
  holds_globals : tw_globals w = tw_globals w0;
  holds_open : tw_open w = tw_open w0 ∪ list_to_set hs;
  holds_nodup : NoDup hs;
  holds_fresh : forall h, h ∈ hs -> tw_next w0 <= h < tw_next w;
  holds_next : tw_next w0 <= tw_next w;
  holds_keys : forall h, h < tw_next w0 -> tw_keys w !! h = tw_keys w0 !! h
}.

(** The handle a variable holds, if it is not [NULL]. *)
Definition hnd (h : Z) : list Z := if h =? 0 then [] else [h].
Definition own (owned : bool) (h : Z) : list Z := if owned then hnd h else [].

Lemma holds_nil w : holds w [] w.
Proof. split; try done; [set_solver|constructor|set_solver]. Qed.

Lemma holds_nil_same w0 w : holds w0 [] w -> tw_globals w = tw_globals w0 /\ tw_open w = tw_open w0.
Proof. intros [Hg Ho _ _ _ _]. split; [done|]. rewrite Ho. set_solver. Qed.

Section Rules.
Context (oracle : nat -> NTSTATUS) (w0 : TLS_WORLD) (Hwf : handles_wf w0).
Implicit Types (hs : list Z) (w : TLS_WORLD).

(** Every call of the run succeeds. *)
Definition granting : Prop := forall n, NT_SUCCESS (oracle n) = true.

(** What a call made after the status [st] may answer. *)
Definition follows (st st' : NTSTATUS) : Prop :=
  (NT_SUCCESS st' = true -> NT_SUCCESS st = true) /\ (granting -> NT_SUCCESS st = true -> NT_SUCCESS st' = true).

Lemma follows_refl st : follows st st.
Proof. by split. Qed.
Lemma follows_trans a b c : follows a b -> follows b c -> follows a c.
Proof. unfold follows. naive_solver. Qed.

Lemma wp_bcall hs w : holds w0 hs w -> wp (bcall oracle) w (fun st w' => holds w0 hs w' /\ follows STATUS_SUCCESS st).
Proof. intros []. split; [by split|]. split; cbn; auto. Qed.

Lemma wp_bcreate hs w :
  holds w0 hs w ->
  wp (bcreate oracle) w (fun '(st, h) w' => holds w0 (hnd h ++ hs) w' /\ follows STATUS_SUCCESS st /\ (NT_SUCCESS st = true <-> h <> 0)).
Proof.
  destruct Hwf as [Hn Hlt]. intros [Hg Ho Hd Hf Hnx Hk]. unfold wp, bcreate.
  destruct (NT_SUCCESS (oracle (tw_calls w))) eqn:E.
  - split_and!; [|split; done|split; [lia|done]].
    unfold hnd. destruct (Z.eqb_spec (tw_next w) 0); [lia|]. split; cbn; try done.
    + rewrite Ho. set_solver.
    + apply NoDup_cons. split; [|done]. intros H%Hf. lia.
    + intros h [->|H%Hf]%elem_of_cons; lia.
    + lia.
  - split_and!; [by split|split; [done|]|split; [congruence|done]]. intros Hg'. by rewrite Hg' in E.
Qed.

Lemma wp_bclose h hs w : holds w0 (h :: hs) w -> wp (bclose h) w (fun _ w' => holds w0 hs w').
Proof.
  destruct Hwf as [Hn Hlt]. intros [Hg Ho [Hni Hd]%NoDup_cons Hf Hnx Hk]. unfold wp, bclose.
  rewrite bool_decide_true by (rewrite Ho; set_solver). split; cbn; auto.
  - assert (h ∉ tw_open w0) by (intros H%Hlt; specialize (Hf h ltac:(left)); lia). rewrite Ho. set_solver.
  - intros x Hx. apply Hf. by right.
  - intros x Hx. specialize (Hf h ltac:(left)). rewrite lookup_delete_ne by lia. by apply Hk.
Qed.

Lemma wp_bclose_if b h hs w : holds w0 (own b h ++ hs) w -> wp (bclose_if b h) w (fun _ w' => holds w0 hs w').
Proof.
  unfold bclose_if, own, hnd. destruct b; [|done]. destruct (Z.eqb_spec h 0); [done|]. apply wp_bclose.
Qed.

Lemma wp_bclose_last b h w : holds w0 (own b h) w -> wp (bclose_if b h) w (fun _ w' => holds w0 [] w').
Proof. intros H. apply wp_bclose_if. by rewrite app_nil_r. Qed.

Lemma wp_also st m hs w :
  holds w0 hs w -> (NT_SUCCESS st = true -> wp m w (fun st' w' => holds w0 hs w' /\ follows STATUS_SUCCESS st')) ->
  wp (also st m) w (fun st' w' => holds w0 hs w' /\ follows st st').
Proof.
  intros Hw Hm. unfold also. destruct (NT_SUCCESS st) eqn:E; [|by split].
  eapply wp_mono; [by apply Hm|]. cbn. intros st' w' [? [? ?]]. split; [done|]. split; auto.
Qed.

Lemma wp_also_create st hs w :
  holds w0 hs w ->
  wp (also_create oracle st) w (fun '(st', h) w' => holds w0 (own true h ++ hs) w' /\ follows st st').
Proof.
  intros Hw. unfold also_create. destruct (NT_SUCCESS st) eqn:E; [|by split].
  eapply wp_mono; [by apply wp_bcreate|]. cbn. intros [st' h] w' (? & [? ?] & ?). split; [done|]. split; auto.
Qed.

Lemma wp_resolve a w :
  holds w0 [] w ->
  wp (TlsResolveProvider oracle a) w (fun '(st, h, owned) w' => holds w0 (own owned h) w' /\ follows STATUS_SUCCESS st).
Proof.
  intros Hw. unfold TlsResolveProvider. apply wp_then. cbn.
  destruct (negb _); [split; [done|apply follows_refl]|]. apply wp_then. eapply wp_mono; [by apply wp_bcreate|].
  intros [st h] w' (H & ? & _). apply wp_return. rewrite app_nil_r in H. done.
Qed.

(** The call that a hash of no data skips. *)
Lemma wp_hash_data (data : BYTES) st hs w :
  holds w0 hs w ->
  wp (also st (if (0 <? length data)%nat then bcall oracle else mreturn st)) w
    (fun st' w' => holds w0 hs w' /\ follows st st').
Proof.
  intros Hw. apply wp_also; [done|]. intros E. destruct (_ <? _)%nat; [by apply wp_bcall|]. split; [done|]. by split.
Qed.

(** The property call of a private provider. *)
Lemma wp_set_chaining_mode owned st hs w :
  holds w0 hs w -> wp (set_chaining_mode oracle owned st) w (fun st' w' => holds w0 hs w' /\ follows st st').
Proof.
  intros Hw. apply wp_also; [done|]. intros E. destruct owned; [by apply wp_bcall|]. split; [done|]. by split.
Qed.

Lemma wp_lift {A} (o : option A) x w (Q : A -> TLS_WORLD -> Prop) : o = Some x -> Q x w -> wp (lift o) w Q.
Proof. by intros ->. Qed.
End Rules.


(** One call of a [goto cleanup] body. *)
Ltac wp_call :=
  eapply wp_bind;
  [ first
    [ eapply wp_resolve; eassumption
    | eapply wp_also_create; eassumption
    | eapply wp_bclose_last; eassumption
    | eapply wp_bclose_if; eassumption
    | eapply wp_hash_data; eassumption
    | eapply wp_set_chaining_mode; eassumption
    | eapply wp_also; [eassumption | intros; eapply wp_bcall; eassumption] ]
  | cbv beta; intros; repeat match goal with x : _ * _ |- _ => destruct x end; destruct_and? ].

(** ** Every operation of the layer *)

Inductive TLS_OP :=
  | OpSha256 (data : BYTES)
  | OpHmac (key data : BYTES)
  | OpExtract (salt ikm : BYTES)
  | OpExpand (prk info : BYTES) (outLen : Z)
  | OpExpandLabel (secret label context : BYTES) (len : Z)
  | OpEncrypt (key iv : BYTES) (seq : Z) (aad plaintext : BYTES)
  | OpDecrypt (key iv : BYTES) (seq : Z) (aad ciphertext tag : BYTES)
  | OpEncryptKeyed (key iv : BYTES) (seq : Z) (aad plaintext : BYTES)
  | OpDecryptKeyed (key iv : BYTES) (seq : Z) (aad ciphertext tag : BYTES)
  | OpGenerate (rng : Z)
  | OpAgree (private public peer : BYTES)
  | OpVerify (public hash signature : BYTES).

(** The lengths the C parameter types fix. *)
Definition op_fits (op : TLS_OP) : Prop :=
  match op with
  | OpEncrypt _ iv _ _ _ | OpDecrypt _ iv _ _ _ _ | OpEncryptKeyed _ iv _ _ _ | OpDecryptKeyed _ iv _ _ _ _ => length iv = 12%nat
  | _ => True
  end.

Section Ops.
Context (oracle : nat -> NTSTATUS) {bc : Bcrypt}.

Definition status_of {A} (m : M (NTSTATUS * A)) : M NTSTATUS := r <- m ;; mreturn r.1.

Definition perform (op : TLS_OP) : M NTSTATUS :=
  match op with
  | OpSha256 d => status_of (BlorgTlsSha256 oracle d)
  | OpHmac k d => status_of (BlorgTlsHmacSha256 oracle k d)
  | OpExtract s i => status_of (BlorgTlsHkdfExtract oracle s i)
  | OpExpand p i n => status_of (BlorgTlsHkdfExpand oracle p i n)
  | OpExpandLabel s l c n => status_of (BlorgTlsHkdfExpandLabel oracle s l c n)
  | OpEncrypt k iv n a p => status_of (BlorgTlsAeadEncrypt oracle k iv n a p)
  | OpDecrypt k iv n a c t => status_of (BlorgTlsAeadDecrypt oracle k iv n a c t)
  | OpEncryptKeyed k iv n a p => status_of (BlorgTlsAeadEncryptKeyed oracle k iv n a p)
  | OpDecryptKeyed k iv n a c t => status_of (BlorgTlsAeadDecryptKeyed oracle k iv n a c t)
  | OpGenerate r => status_of (BlorgTlsEcdhGenerateKeyPair oracle r)
  | OpAgree p q r => status_of (BlorgTlsEcdhComputeSharedSecret oracle p q r)
  | OpVerify p h s => BlorgTlsEcdsaVerify oracle p h s
  end.
End Ops.

(** ** Each of them is balanced *)

Section Balanced.
Context (oracle : nat -> NTSTATUS) {bc : Bcrypt} (w0 : TLS_WORLD) (Hwf : handles_wf w0).

(** Back in the world it was entered with, a status that only a failed call
    makes a failure, and [v] as the output. *)
Definition returns {A} (v : A) (r : NTSTATUS * A) (w : TLS_WORLD) : Prop :=
  holds w0 [] w /\ follows oracle STATUS_SUCCESS r.1 /\ r.2 = v.

Lemma wp_sha256 data w : holds w0 [] w -> wp (BlorgTlsSha256 oracle data) w (returns (sha256 data)).
Proof using Hwf. intros Hw. unfold BlorgTlsSha256. do 6 wp_call. split_and!; eauto using follows_trans. Qed.

Lemma wp_hmac key data w : holds w0 [] w -> wp (BlorgTlsHmacSha256 oracle key data) w (returns (hmac key data)).
Proof using Hwf. intros Hw. unfold BlorgTlsHmacSha256. do 6 wp_call. split_and!; eauto using follows_trans. Qed.

Lemma wp_encrypt key iv seq aad p nonce w :
  TlsBuildNonce iv seq = Some nonce -> holds w0 [] w ->
  wp (BlorgTlsAeadEncrypt oracle key iv seq aad p) w (returns (seal key nonce aad p)).
Proof using Hwf.
  intros Hn Hw. unfold BlorgTlsAeadEncrypt. apply wp_then. eapply wp_lift; [done|].
  do 6 wp_call. split_and!; eauto using follows_trans.
Qed.

(** An operation whose last call also passes judgement: a forged tag or
    signature is a failure although every call went through. *)
Definition judged (ok : bool) (st st' : NTSTATUS) : Prop :=
  (NT_SUCCESS st' = true -> NT_SUCCESS st = true /\ ok = true) /\
  (granting oracle -> NT_SUCCESS st = true -> ok = true -> NT_SUCCESS st' = true).

Lemma follows_judged ok a b c : follows oracle a b -> judged ok b c -> judged ok a c.
Proof. unfold follows, judged. naive_solver. Qed.

Lemma judge_judged ok bad st :
  NT_SUCCESS bad = false -> follows oracle STATUS_SUCCESS st ->
  judged ok STATUS_SUCCESS (if NT_SUCCESS st then (if ok : bool then st else bad) else st).
Proof.
  intros Hbad [_ F]. unfold judged. destruct (NT_SUCCESS st) eqn:E, ok; rewrite ?E, ?Hbad; split; try done.
  all: intros Hg; specialize (F Hg eq_refl); congruence.
Qed.

Lemma wp_judge f ok bad st hs w :
  (forall st, f st = if NT_SUCCESS st then (if ok : bool then st else bad) else st) ->
  NT_SUCCESS bad = false -> holds w0 hs w ->
  wp (also st (st <- bcall oracle ;; mreturn (f st))) w (fun st' w' => holds w0 hs w' /\ judged ok st st').
Proof.
  intros Hf Hbad Hw. unfold also. destruct (NT_SUCCESS st) eqn:E; [|split; [done|]; unfold judged; rewrite E; naive_solver].
  apply wp_then. eapply wp_mono; [by apply wp_bcall|]. intros st' w' [H F]. apply wp_return. split; [done|].
  rewrite Hf. pose proof (judge_judged ok bad st' Hbad F) as J. unfold judged in *. rewrite E. exact J.
Qed.

Definition opened (r : option BYTES) : bool := match r with Some _ => true | None => false end.

Lemma open_status_if r st :
  open_status r st = if NT_SUCCESS st then (if opened r then st else STATUS_AUTH_TAG_MISMATCH) else st.
Proof. by destruct r. Qed.

Lemma wp_decrypt key iv seq aad c tag nonce w :
  TlsBuildNonce iv seq = Some nonce -> holds w0 [] w ->
  wp (BlorgTlsAeadDecrypt oracle key iv seq aad c tag) w (fun r w' =>
    holds w0 [] w' /\ judged (opened (unseal key nonce aad c tag)) STATUS_SUCCESS r.1 /\
    r.2 = default [] (unseal key nonce aad c tag)).
Proof using Hwf.
  intros Hn Hw. unfold BlorgTlsAeadDecrypt. apply wp_then. eapply wp_lift; [done|]. do 3 wp_call.
  eapply wp_bind; [eapply wp_judge; [apply open_status_if|done|eassumption]|]. intros st' ? [? J]. do 2 wp_call.
  split_and!; [done| |done]. eapply follows_judged; [|exact J]. eauto using follows_trans.
Qed.

Lemma wp_encrypt_keyed key iv seq aad p nonce w :
  TlsBuildNonce iv seq = Some nonce -> holds w0 [] w ->
  wp (BlorgTlsAeadEncryptKeyed oracle key iv seq aad p) w (returns (seal key nonce aad p)).
Proof using Hwf.
  intros Hn Hw. unfold BlorgTlsAeadEncryptKeyed. apply wp_then. eapply wp_lift; [done|].
  eapply wp_bind; [by apply wp_bcall|]. intros st w' [H F]. by split_and!.
Qed.

Lemma wp_decrypt_keyed key iv seq aad c tag nonce w :
  TlsBuildNonce iv seq = Some nonce -> holds w0 [] w ->
  wp (BlorgTlsAeadDecryptKeyed oracle key iv seq aad c tag) w (fun r w' =>
    holds w0 [] w' /\ judged (opened (unseal key nonce aad c tag)) STATUS_SUCCESS r.1 /\
    r.2 = default [] (unseal key nonce aad c tag)).
Proof using Hwf.
  intros Hn Hw. unfold BlorgTlsAeadDecryptKeyed. apply wp_then. eapply wp_lift; [done|].
  eapply wp_bind; [by apply wp_bcall|]. intros st w' [H F]. split_and!; [done| |done]. cbn [fst].
  rewrite open_status_if. by apply judge_judged.
Qed.

Lemma wp_generate rng w :
  holds w0 [] w ->
  wp (BlorgTlsEcdhGenerateKeyPair oracle rng) w
    (returns (take 32 (drop 64 (ecc_blob rng)), [4] ++ take 32 (ecc_blob rng) ++ take 32 (drop 32 (ecc_blob rng)))).
Proof using Hwf. intros Hw. unfold BlorgTlsEcdhGenerateKeyPair. do 6 wp_call. split_and!; eauto using follows_trans. Qed.

Lemma wp_verify public hash signature w :
  holds w0 [] w ->
  wp (BlorgTlsEcdsaVerify oracle public hash signature) w
    (fun st w' => holds w0 [] w' /\ judged (ecdsa_ok (peer_blob public) hash signature) STATUS_SUCCESS st).
Proof using Hwf.
  intros Hw. unfold BlorgTlsEcdsaVerify. do 2 wp_call.
  eapply wp_bind; [eapply wp_judge; [by intros|done|eassumption]|]. intros st' ? [? J]. do 2 wp_call.
  split; [done|]. eapply follows_judged; [|exact J]. eauto using follows_trans.
Qed.
End Balanced.
