(* ===== verification/TlsCryptoTheorems.v ===== *)
(** * TLS: what the crypto layer guarantees

    No handle is lost or closed twice on any path; the shared providers open
    all or nothing; HKDF is RFC 5869; no nonce repeats under one IV; and a
    record sealed by either variant is opened by either. *)

From S2P Require Import Prelude Buffers TlsCrypto TlsCryptoHandles.
#[local] Open Scope tls_scope.

(** ** Nonces *)

Definition seq_byte (seq i : Z) : Z := u8 (Z.shiftr seq (8 * (7 - i))).

(** RFC 8446, 5.3: the sequence number, padded to twelve bytes, over the IV. *)
Definition padded_seq (seq : Z) : BYTES := [0; 0; 0; 0] ++ (seq_byte seq <$> [0; 1; 2; 3; 4; 5; 6; 7]).

Lemma nonce_is_xor iv seq : length iv = 12%nat -> TlsBuildNonce iv seq = Some (zip_with Z.lxor iv (padded_seq seq)).
Proof.
  intros Hl. do 12 (destruct iv as [|? iv]; [done|]). destruct iv; [|done].
  unfold padded_seq. cbn [app fmap list_fmap zip_with]. rewrite !Z.lxor_0_r. reflexivity.
Qed.

Lemma testbit_u8 z n : 0 <= n < 8 -> Z.testbit (u8 z) n = Z.testbit z n.
Proof. intros. unfold u8. change 256 with (2 ^ 8). by rewrite Z.mod_pow2_bits_low by lia. Qed.

Lemma seq_bytes_inj s s' :
  0 <= s < 2 ^ 64 -> 0 <= s' < 2 ^ 64 -> (forall i, 0 <= i < 8 -> seq_byte s i = seq_byte s' i) -> s = s'.
Proof.
  intros Hs Hs' Hb. apply Z.bits_inj'. intros n Hn. destruct (Z.lt_ge_cases n 64) as [Hlt|Hge].
  - pose proof (Z.div_mod n 8 ltac:(lia)). pose proof (Z.mod_pos_bound n 8 ltac:(lia)).
    specialize (Hb (7 - n / 8) ltac:(lia)). unfold seq_byte in Hb.
    replace (8 * (7 - (7 - n / 8))) with (8 * (n / 8)) in Hb by lia.
    apply (f_equal (fun z => Z.testbit z (n mod 8))) in Hb. rewrite !testbit_u8, !Z.shiftr_spec in Hb by lia.
    by replace (n mod 8 + 8 * (n / 8)) with n in Hb by lia.
  - rewrite <- (Z.mod_small s (2 ^ 64)), <- (Z.mod_small s' (2 ^ 64)) by done.
    by rewrite !Z.mod_pow2_bits_high by lia.
Qed.

Lemma lxor_cancel a b c : Z.lxor a b = Z.lxor a c -> b = c.
Proof. intros H. apply (f_equal (Z.lxor a)) in H. by rewrite <- !Z.lxor_assoc, Z.lxor_nilpotent, !Z.lxor_0_l in H. Qed.

Lemma zip_lxor_inj iv l l' : length l = length iv -> length l' = length iv -> zip_with Z.lxor iv l = zip_with Z.lxor iv l' -> l = l'.
Proof.
  revert l l'. induction iv as [|a iv IH]; intros [|x l] [|y l'] H H'; try done. cbn.
  intros [= E%lxor_cancel E']. f_equal; [done|]. apply IH; try done; cbn in *; lia.
Qed.

(** Under one IV no nonce is used twice: distinct sequence numbers give
    distinct nonces, and the nonce is the RFC 8446 one. *)
Theorem nonces_never_repeat iv s s' :
  length iv = 12%nat -> 0 <= s < 2 ^ 64 -> 0 <= s' < 2 ^ 64 -> s <> s' ->
  exists n n', TlsBuildNonce iv s = Some n /\ TlsBuildNonce iv s' = Some n' /\
    n = zip_with Z.lxor iv (padded_seq s) /\ length n = 12%nat /\ n <> n'.
Proof.
  intros Hl Hs Hs' Hne. do 2 eexists. split; [by apply nonce_is_xor|]. split; [by apply nonce_is_xor|]. split; [done|].
  split; [by rewrite length_zip_with, Hl|]. intros E%zip_lxor_inj; [|by rewrite Hl..]. apply Hne.
  apply seq_bytes_inj; try done. intros i Hi. unfold padded_seq in E. injection E as E0 E1 E2 E3 E4 E5 E6 E7.
  assert (i = 0 \/ i = 1 \/ i = 2 \/ i = 3 \/ i = 4 \/ i = 5 \/ i = 6 \/ i = 7) by lia. naive_solver.
Qed.

Definition test_iv : BYTES := [1; 2; 3; 4; 5; 6; 7; 8; 9; 10; 11; 12].
Lemma nonces_never_repeat_witness :
  exists n n', TlsBuildNonce test_iv 0 = Some n /\ TlsBuildNonce test_iv 256 = Some n' /\
    n = zip_with Z.lxor test_iv (padded_seq 0) /\ length n = 12%nat /\ n <> n'.
Proof. apply (nonces_never_repeat test_iv 0 256); [reflexivity|lia|lia|lia]. Defined.

(** ** HKDF *)

Section Hkdf.
Context {bc : Bcrypt}.

(** RFC 5869, 2.3: [T(0)] is empty, [T(n) = HMAC(PRK, T(n-1) | info | n)],
    and the output is the first [L] octets of [T(1) | ... | T(N)]. *)
Fixpoint T (prk info : BYTES) (n : nat) : BYTES :=
  match n with O => [] | S m => hmac prk (T prk info m ++ info ++ [Z.of_nat n]) end.
Fixpoint okm (prk info : BYTES) (n : nat) : BYTES :=
  match n with O => [] | S m => okm prk info m ++ T prk info n end.
Definition rfc5869_expand (prk info : BYTES) (L : Z) : BYTES :=
  take (Z.to_nat L) (okm prk info (Z.to_nat ((L + 31) / 32))).

Lemma length_okm prk info n : length (okm prk info n) = (32 * n)%nat.
Proof. induction n as [|n IH]; [done|]. cbn [okm]. rewrite length_app, IH. cbn [T]. rewrite hmac_length. lia. Qed.

Context (oracle : nat -> NTSTATUS) (w0 : TLS_WORLD) (Hwf : handles_wf w0).

(** Back where it started, and the output is [v] if every call succeeded. *)
Definition yields (v : BYTES) (r : NTSTATUS * BYTES) (w : TLS_WORLD) : Prop :=
  holds w0 [] w /\ follows oracle STATUS_SUCCESS r.1 /\ (NT_SUCCESS r.1 = true -> r.2 = v).

(** The output after [k] rounds. *)
Definition expanded (prk info : BYTES) (L : Z) (k : nat) : BYTES := take (Z.to_nat L) (okm prk info k).

Lemma length_expanded prk info L k : 0 <= L -> Z.of_nat (length (expanded prk info L k)) = Z.min L (32 * Z.of_nat k).
Proof. intros. unfold expanded. rewrite length_take, length_okm. lia. Qed.

Lemma expanded_S prk info L k :
  32 * Z.of_nat k < L ->
  expanded prk info L (S k) =
  expanded prk info L k ++ take (Z.to_nat (if L - 32 * Z.of_nat k <? 32 then L - 32 * Z.of_nat k else 32)) (T prk info (S k)).
Proof.
  intros Hk. unfold expanded. cbn [okm]. rewrite take_app, length_okm. f_equal.
  destruct (Z.ltb_spec (L - 32 * Z.of_nat k) 32).
  - f_equal. lia.
  - rewrite !take_ge; [done| |]; cbn [T]; rewrite hmac_length; lia.
Qed.

Lemma wp_expand_loop fuel prk info L k w :
  0 <= L <= 255 * 32 -> 32 * (Z.of_nat k - 1) < L -> (Z.to_nat L < fuel + 32 * k)%nat -> (1 <= fuel)%nat -> holds w0 [] w ->
  wp (expand_loop oracle fuel prk info (T prk info k) (u8 (Z.of_nat k + 1)) (expanded prk info L k) L) w
     (yields (rfc5869_expand prk info L)).
Proof using Hwf.
  intros HL. revert k w. induction fuel as [|fuel IH]; intros k w Hk Hf Hf1 Hw; [lia|]. cbn [expand_loop].
  rewrite length_expanded by lia. destruct (Z.ltb_spec (Z.min L (32 * Z.of_nat k)) L) as [Hlt|Hge].
  - rewrite u8_id by lia. eapply wp_bind; [by apply wp_hmac|]. intros [st t] w' (H & F & Ht). cbn [fst snd] in *.
    destruct (NT_SUCCESS st) eqn:E; cbn [negb]; [|split_and!; cbn [fst snd]; done || congruence].
    rewrite Z.min_r by lia. subst t.
    replace (Z.of_nat k + 1) with (Z.of_nat (S k)) by lia.
    change (hmac prk (T prk info k ++ info ++ [Z.of_nat (S k)])) with (T prk info (S k)).
    rewrite <- expanded_S by lia. apply IH; try lia. done.
  - split_and!; [done|apply follows_refl|]. intros _. cbn [snd]. unfold rfc5869_expand. fold (expanded prk info L (Z.to_nat ((L + 31) / 32))).
    f_equal. pose proof (Z.div_mod (L + 31) 32 ltac:(lia)). pose proof (Z.mod_pos_bound (L + 31) 32 ltac:(lia)). lia.
Qed.

(** The loop ends, whatever the length asked for. *)
Lemma wp_expand_loop_any fuel prk info t c out L w :
  L - Z.of_nat (length out) < Z.of_nat fuel -> (1 <= fuel)%nat -> holds w0 [] w ->
  wp (expand_loop oracle fuel prk info t c out L) w (fun r w' => holds w0 [] w' /\ follows oracle STATUS_SUCCESS r.1).
Proof using Hwf.
  revert t c out w. induction fuel as [|fuel IH]; intros t c out w Hf Hf1 Hw; [lia|]. cbn [expand_loop].
  destruct (Z.ltb_spec (Z.of_nat (length out)) L) as [Hlt|Hge]; [|split; [done|apply follows_refl]].
  eapply wp_bind; [by apply wp_hmac|]. intros [st t'] w' (H & F & Ht). cbn [fst snd] in *.
  destruct (NT_SUCCESS st) eqn:E; cbn [negb]; [|by split].
  apply IH; [|lia|done]. rewrite length_app, length_take. subst t'. rewrite hmac_length. unfold TLS_HASH_LEN.
  destruct (Z.ltb_spec (L - Z.of_nat (length out)) 32); lia.
Qed.

Lemma wp_expand_any prk info L w :
  holds w0 [] w ->
  wp (BlorgTlsHkdfExpand oracle prk info L) w (fun r w' => holds w0 [] w' /\
    (NT_SUCCESS r.1 = true -> u32 (Z.of_nat (length info) + 33) <= 256) /\
    (granting oracle -> u32 (Z.of_nat (length info) + 33) <= 256 -> NT_SUCCESS r.1 = true)).
Proof using Hwf.
  intros Hw. unfold BlorgTlsHkdfExpand, TLS_HASH_LEN. rewrite <- Z.add_assoc. change (32 + 1) with 33.
  destruct (Z.ltb_spec 256 (u32 (Z.of_nat (length info) + 33))); [split_and!; try done; lia|].
  eapply wp_mono; [apply wp_expand_loop_any; [cbn [length]; lia|lia|done]|]. intros r w' (? & ? & Hg). split_and!; auto.
Qed.

Lemma wp_expand prk info L w :
  0 <= L <= 255 * 32 -> Z.of_nat (length info) <= 223 -> holds w0 [] w ->
  wp (BlorgTlsHkdfExpand oracle prk info L) w (yields (rfc5869_expand prk info L)).
Proof using Hwf.
  intros HL Hi Hw. unfold BlorgTlsHkdfExpand, TLS_HASH_LEN. rewrite u32_id by lia.
  destruct (Z.ltb_spec 256 (Z.of_nat (length info) + 32 + 1)); [lia|].
  pose proof (wp_expand_loop (S (Z.to_nat L)) prk info L 0 w HL) as Hx. unfold expanded in Hx. cbn [okm T] in Hx.
  rewrite take_nil in Hx. apply Hx; done || lia.
Qed.
End Hkdf.

(** ** ECDH *)

Lemma reverse_loop_reverse (l : BYTES) : length l = 32%nat -> reverse_loop 16 l = Some (reverse l).
Proof. intros Hl. do 32 (destruct l as [|? l]; [done|]). destruct l; [|done]. reflexivity. Qed.

Section Ops.
Context (oracle : nat -> NTSTATUS) {bc : Bcrypt} (w0 : TLS_WORLD) (Hwf : handles_wf w0).

Lemma wp_agree private public peer w :
  holds w0 [] w ->
  wp (BlorgTlsEcdhComputeSharedSecret oracle private public peer) w
    (yields oracle w0 (reverse (ecdh_raw (own_blob private public) (peer_blob peer)))).
Proof using Hwf.
  intros Hw. unfold BlorgTlsEcdhComputeSharedSecret. do 5 wp_call.
  match goal with H : holds w0 ?hs ?w |- wp (mthen (if NT_SUCCESS ?st then _ else _) _) ?w _ =>
    eapply (wp_bind _ _ _ (fun out w' => holds w0 hs w' /\
      (NT_SUCCESS st = true -> out = reverse (ecdh_raw (own_blob private public) (peer_blob peer))))) end.
  { match goal with |- context [if ?b then _ else _] => destruct b eqn:E end; [|by apply wp_return].
    eapply wp_lift; [apply reverse_loop_reverse, ecdh_raw_length|]. by split; [eassumption|]. }
  intros out ? [? Hout]. do 4 wp_call. split_and!; [done| |exact Hout]. cbn [fst]. eauto using follows_trans.
Qed.

(** What besides the BCrypt calls decides an operation. *)
Definition op_verdict (op : TLS_OP) : bool :=
  match op with
  | OpExpand _ info _ => u32 (Z.of_nat (length info) + 33) <=? 256
  | OpExpandLabel _ label context _ =>
      (6 + Z.of_nat (length label) <=? 255) && (Z.of_nat (length context) <=? 255) &&
      (Z.of_nat (length label) + Z.of_nat (length context) <=? 213)
  | OpDecrypt k iv n a c t | OpDecryptKeyed k iv n a c t => opened (unseal k (zip_with Z.lxor iv (padded_seq n)) a c t)
  | OpVerify p h s => ecdsa_ok (peer_blob p) h s
  | _ => true
  end.

Lemma length_HkdfLabel label context len : length (HkdfLabel label context len) = (length label + length context + 10)%nat.
Proof. unfold HkdfLabel. rewrite !length_app. cbn [length tls13_prefix]. lia. Qed.

Lemma wp_expand_label secret label context len w :
  holds w0 [] w ->
  wp (BlorgTlsHkdfExpandLabel oracle secret label context len) w (fun r w' => holds w0 [] w' /\
    judged oracle (op_verdict (OpExpandLabel secret label context len)) STATUS_SUCCESS r.1).
Proof using Hwf.
  intros Hw. unfold BlorgTlsHkdfExpandLabel, judged. cbn [op_verdict].
  destruct (Z.ltb_spec 255 (6 + Z.of_nat (length label))), (Z.leb_spec (6 + Z.of_nat (length label)) 255); try lia; cbn [orb andb];
    try (split_and!; done).
  destruct (Z.ltb_spec 255 (Z.of_nat (length context))), (Z.leb_spec (Z.of_nat (length context)) 255); try lia; cbn [orb andb];
    try (split_and!; done).
  eapply wp_mono; [by apply wp_expand_any|]. cbn beta. rewrite length_HkdfLabel, u32_id by lia.
  intros r w' (? & Hok & Hg). split; [done|]. rewrite Z.leb_le. split; [intros Hs; specialize (Hok Hs); split; [done|lia]|].
  intros. apply Hg; [done|lia].
Qed.

Lemma wp_status_of {A} (m : M (NTSTATUS * A)) w ok :
  wp m w (fun r w' => holds w0 [] w' /\ judged oracle ok STATUS_SUCCESS r.1) ->
  wp (status_of m) w (fun st w' => holds w0 [] w' /\ judged oracle ok STATUS_SUCCESS st).
Proof. intros H. apply wp_then. eapply wp_mono; [exact H|]. done. Qed.

Lemma follows_judged_true st st' : follows oracle st st' -> judged oracle true st st'.
Proof. intros [? ?]. split; auto. Qed.

Lemma wp_perform op w :
  op_fits op -> holds w0 [] w ->
  wp (perform oracle op) w (fun st w' => holds w0 [] w' /\ judged oracle (op_verdict op) STATUS_SUCCESS st).
Proof using Hwf.
  intros Hfit Hw. destruct op; cbn [perform op_verdict op_fits] in *; try apply wp_status_of.
  all: try (eapply wp_mono;
    [ first [ by apply wp_sha256 | by apply wp_hmac | by apply wp_generate | by apply wp_agree
            | solve [apply wp_encrypt; [done|by apply nonce_is_xor|done]] | solve [apply wp_encrypt_keyed; [done|by apply nonce_is_xor|done]] ]
    | intros ? ? (? & ? & ?); split; [done|]; by apply follows_judged_true ]).
  - eapply wp_mono; [by apply wp_expand_any|]. intros r w' (? & Hok & Hg). split; [done|]. unfold judged. rewrite Z.leb_le. naive_solver.
  - by apply wp_expand_label.
  - eapply wp_mono; [apply wp_decrypt; [done|by apply nonce_is_xor|done]|]. intros ? ? (? & ? & _). done.
  - eapply wp_mono; [apply wp_decrypt_keyed; [done|by apply nonce_is_xor|done]|]. intros ? ? (? & ? & _). done.
  - by apply wp_verify.
Qed.
End Ops.

(** C39: Whatever each BCrypt call answers, every operation of the crypto
    layer runs to its end, closes each handle it made exactly once and none
    other, leaves the shared providers alone, and fails only if a call failed
    or its own check did (a tag, a signature, an HKDF label too long). *)
Theorem crypto_ops_leak_nothing oracle (bc : Bcrypt) op w :
  handles_wf w -> op_fits op ->
  exists st w', perform oracle op w = Some (st, w') /\
    tw_open w' = tw_open w /\ tw_globals w' = tw_globals w /\
    (NT_SUCCESS st = true -> op_verdict op = true) /\
    (granting oracle -> op_verdict op = true -> NT_SUCCESS st = true).
Proof.
  intros Hwf Hfit. pose proof (wp_perform oracle w Hwf op w Hfit (holds_nil w)) as H.
  apply wp_exists in H as (st & w' & Hrun & [Hg Ho]%holds_nil_same & [Hok Hgr]). exists st, w'.
  split_and!; auto. intros ?. by apply Hok.
Qed.

(** ** A concrete BCrypt, for the witnesses *)

Definition pad (n : nat) (l : BYTES) : BYTES := u8 <$> take n (l ++ replicate n 0).
Lemma length_pad n l : length (pad n l) = n.
Proof. unfold pad. rewrite length_fmap, length_take, length_app, length_replicate. lia. Qed.
Lemma bytes_pad n l : bytes_ok (pad n l).
Proof. unfold pad, bytes_ok, is_byte. apply Forall_fmap, Forall_true. intros. cbn. apply u8_range. Qed.
Definition toy_tag (k n a : BYTES) : BYTES := pad 16 (k ++ n ++ a).

#[refine] Instance toy_bcrypt : Bcrypt := {|
  sha256 d := pad 32 d;
  hmac k d := pad 32 (k ++ d);
  seal k n a p := (p, toy_tag k n a);
  unseal k n a c t := if decide (t = toy_tag k n a) then Some c else None;
  ecc_blob r := replicate 96 r;
  ecdh_raw o p := pad 32 (o ++ p);
  ecdsa_ok p h s := bool_decide (h = take 32 s)
|}.
Proof.
  - apply length_pad.
  - intros. apply length_pad.
  - intros. cbn. by rewrite decide_True.
  - done.
  - intros. apply length_pad.
  - intros k n a c t p. case_decide; [by intros [= ->]|done].
  - intros k n a c t p. case_decide; [by intros ? [= ->]|done].
  - intros. apply bytes_pad.
  - intros. apply bytes_pad.
  - intros. apply length_replicate.
  - intros. apply length_pad.
Defined.

Definition idle_world : TLS_WORLD := mkTlsWorld (mkGlobals 0 0 0 0 0) ∅ 1 ∅ 0.
Lemma idle_wf : handles_wf idle_world.
Proof. split; [done|]. intros h Hh. by apply elem_of_empty in Hh. Qed.

(** The third call fails: creating the key after the provider and its mode. *)
Definition third_fails (n : nat) : NTSTATUS := if (n =? 2)%nat then STATUS_INSUFFICIENT_RESOURCES else STATUS_SUCCESS.

Lemma crypto_ops_leak_nothing_witness :
  exists st w', perform third_fails (bc := toy_bcrypt) (OpEncrypt [7] test_iv 1 [] [1; 2]) idle_world = Some (st, w') /\
    tw_open w' = tw_open idle_world /\ tw_globals w' = tw_globals idle_world /\
    (NT_SUCCESS st = true -> op_verdict (OpEncrypt [7] test_iv 1 [] [1; 2]) = true) /\
    (granting third_fails -> op_verdict (OpEncrypt [7] test_iv 1 [] [1; 2]) = true -> NT_SUCCESS st = true).
Proof. apply (crypto_ops_leak_nothing third_fails toy_bcrypt (OpEncrypt [7] test_iv 1 [] [1; 2]) idle_world idle_wf). reflexivity. Defined.

(** HKDF-Expand, for every length RFC 5869 allows and every info the
    scratch buffer holds, gives the RFC's output, and fails only if a BCrypt
    call does. *)
Theorem hkdf_expand_is_rfc5869 oracle (bc : Bcrypt) prk info L w :
  handles_wf w -> 0 <= L <= 255 * 32 -> Z.of_nat (length info) <= 223 ->
  exists st out w', BlorgTlsHkdfExpand oracle prk info L w = Some ((st, out), w') /\
    (NT_SUCCESS st = true -> out = rfc5869_expand prk info L) /\ (granting oracle -> NT_SUCCESS st = true).
Proof.
  intros Hwf HL Hi. pose proof (wp_expand oracle w Hwf prk info L w HL Hi (holds_nil w)) as H.
  apply wp_exists in H as ([st out] & w' & Hrun & _ & [_ Hg] & Hv). exists st, out, w'. by split_and!; auto.
Qed.

Definition all_succeed (n : nat) : NTSTATUS := STATUS_SUCCESS.
Lemma hkdf_expand_is_rfc5869_witness :
  exists st out w', BlorgTlsHkdfExpand (bc := toy_bcrypt) all_succeed [1; 2] [3] 70 idle_world = Some ((st, out), w') /\
    (NT_SUCCESS st = true -> out = rfc5869_expand [1; 2] [3] 70) /\ (granting all_succeed -> NT_SUCCESS st = true).
Proof. apply (hkdf_expand_is_rfc5869 all_succeed toy_bcrypt [1; 2] [3] 70 idle_world idle_wf); [lia|cbn; lia]. Defined.

(** ** Records *)

(** A sealing and an opening call, on raw key bytes or on an imported key. *)
Definition encrypt_with (bc : Bcrypt) (keyed : bool) (o : nat -> NTSTATUS) := if keyed then BlorgTlsAeadEncryptKeyed o else BlorgTlsAeadEncrypt o.
Definition decrypt_with (bc : Bcrypt) (keyed : bool) (o : nat -> NTSTATUS) := if keyed then BlorgTlsAeadDecryptKeyed o else BlorgTlsAeadDecrypt o.

Lemma wp_encrypt_with o bc keyed k iv seq aad p w :
  handles_wf w -> length iv = 12%nat ->
  wp (encrypt_with bc keyed o k iv seq aad p) w
     (returns o w (seal k (zip_with Z.lxor iv (padded_seq seq)) aad p)).
Proof.
  intros Hwf Hl. destruct keyed; [apply wp_encrypt_keyed|apply wp_encrypt]; auto using nonce_is_xor, holds_nil.
Qed.

Lemma wp_decrypt_with o bc keyed k iv seq aad c t w :
  handles_wf w -> length iv = 12%nat ->
  wp (decrypt_with bc keyed o k iv seq aad c t) w (fun r w' =>
    judged o (opened (unseal k (zip_with Z.lxor iv (padded_seq seq)) aad c t)) STATUS_SUCCESS r.1 /\
    r.2 = default [] (unseal k (zip_with Z.lxor iv (padded_seq seq)) aad c t)).
Proof.
  intros Hwf Hl. eapply wp_mono; [destruct keyed; [apply wp_decrypt_keyed|apply wp_decrypt]|];
    eauto using nonce_is_xor, holds_nil. by intros r w' (_ & ? & ?).
Qed.

(** A record sealed by either variant under a key, IV, sequence number
    and header is opened by either variant under the same: if the sealing
    call reported success, and no BCrypt call of the opening one fails, it
    succeeds with the same plaintext, and the ciphertext is as long as it. *)
Theorem aead_round_trip (bc : Bcrypt) ke kd o o' k iv seq aad p w w' st c t w1 :
  handles_wf w -> handles_wf w' -> length iv = 12%nat -> granting o' ->
  encrypt_with bc ke o k iv seq aad p w = Some ((st, (c, t)), w1) ->
  length c = length p /\
  exists st' w2, decrypt_with bc kd o' k iv seq aad c t w' = Some ((st', p), w2) /\ NT_SUCCESS st' = true.
Proof.
  intros Hw Hw' Hl Hg Henc. pose proof (wp_encrypt_with o bc ke k iv seq aad p w Hw Hl) as He. unfold wp in He.
  rewrite Henc in He. destruct He as (_ & _ & Hs). cbn [snd] in Hs.
  pose proof (unseal_seal k (zip_with Z.lxor iv (padded_seq seq)) aad p) as Hu.
  pose proof (seal_length k (zip_with Z.lxor iv (padded_seq seq)) aad p) as Hlen. rewrite <- Hs in Hu, Hlen. cbn [fst snd] in Hu, Hlen.
  split; [done|]. pose proof (wp_decrypt_with o' bc kd k iv seq aad c t w' Hw' Hl) as Hd. rewrite Hu in Hd.
  apply wp_exists in Hd as ([st' p'] & w2 & Hrun & [_ Hj] & Hp). cbn [snd fst default] in *. subst p'.
  exists st', w2. split; [done|]. by apply Hj.
Qed.

Lemma aead_round_trip_witness :
  let '(c, t) := seal (Bcrypt := toy_bcrypt) [7] (zip_with Z.lxor test_iv (padded_seq 5)) [9] [1; 2; 3] in
  length c = 3%nat /\
  exists st' w2, decrypt_with toy_bcrypt true all_succeed [7] test_iv 5 [9] c t idle_world = Some ((st', [1; 2; 3]), w2) /\ NT_SUCCESS st' = true.
Proof.
  eapply (aead_round_trip toy_bcrypt false true all_succeed all_succeed [7] test_iv 5 [9] [1; 2; 3] idle_world idle_world);
    [apply idle_wf|apply idle_wf|reflexivity|intros n; reflexivity|vm_compute; reflexivity].
Defined.

(** ** The shared providers *)

#[global] Instance ALG_eq_dec : EqDecision ALG.
Proof. solve_decision. Defined.

Lemma shared_set_shared g a b h : shared (set_shared g a h) b = if decide (a = b) then h else shared g b.
Proof. by destruct a, b. Qed.

(** The world [w] is [w0] plus the provider handles it stores. *)
Record providers (w0 w : TLS_WORLD) : Prop := {
  pv_fresh : forall a, shared (tw_globals w) a <> 0 -> tw_next w0 <= shared (tw_globals w) a < tw_next w;
  pv_inj : forall a b, shared (tw_globals w) a = shared (tw_globals w) b -> shared (tw_globals w) a <> 0 -> a = b;
  pv_open : forall h, h ∈ tw_open w <-> h ∈ tw_open w0 \/ exists a, shared (tw_globals w) a = h /\ h <> 0;
  pv_next : tw_next w0 <= tw_next w
}.

Definition all_null (w : TLS_WORLD) : Prop := forall a, shared (tw_globals w) a = 0.

Lemma providers_null w0 w : providers w0 w -> all_null w -> tw_open w = tw_open w0.
Proof. intros [_ _ Ho _] Hn. apply set_eq. intros h. rewrite Ho. split; [|by left]. intros [?|(a & <- & Hne)]; [done|]. by rewrite Hn in Hne. Qed.

Lemma put_null w a : all_null w -> set_shared (tw_globals w) a 0 = tw_globals w.
Proof. intros Hn. rewrite <- (Hn a). by destruct a, (tw_globals w). Qed.

Section Providers.
Context (oracle : nat -> NTSTATUS) (w0 : TLS_WORLD) (Hwf : handles_wf w0).

Lemma providers_start : all_null w0 -> providers w0 w0.
Proof.
  intros Hn. split.
  - intros a Ha. by rewrite Hn in Ha.
  - intros a b _ Ha. by rewrite Hn in Ha.
  - intros h. split; [by left|]. intros [?|(a & <- & Hne)]; [done|]. by rewrite Hn in Hne.
  - lia.
Qed.

Lemma wp_open_shared a st w :
  providers w0 w -> shared (tw_globals w) a = 0 ->
  wp (open_shared oracle a st) w (fun st' w' => providers w0 w' /\ follows oracle st st' /\
    (NT_SUCCESS st' = true <-> shared (tw_globals w') a <> 0) /\
    forall b, b <> a -> shared (tw_globals w') b = shared (tw_globals w) b).
Proof using Hwf.
  intros Hp Ha. destruct Hwf as [Hpos Hlt]. pose proof Hp as [Hf Hi Ho Hn]. unfold open_shared.
  destruct (NT_SUCCESS st) eqn:Est; [|apply wp_return; split_and!; [done|apply follows_refl|rewrite Est, Ha|]; done].
  unfold wp, mthen, bcreate. destruct (NT_SUCCESS (oracle (tw_calls w))) eqn:E; rewrite E; cbn [mreturn put_shared].
  - split_and!; [|by split|cbn; rewrite shared_set_shared, decide_True by done; split; [lia|done]|].
    2: { intros b Hb. cbn. by rewrite shared_set_shared, decide_False by done. }
    split; cbn.
    + intros b. rewrite shared_set_shared. case_decide; [lia|]. intros Hb%Hf. lia.
    + intros b c. rewrite !shared_set_shared. repeat case_decide; subst; try done.
      * intros Heq _. pose proof (Hf c). lia.
      * intros Heq Hb%Hf. lia.
      * apply Hi.
    + intros h. rewrite elem_of_union, elem_of_singleton, Ho. split.
      * intros [[?|(b & <- & Hb)]| ->]; [by left| |].
        -- right. exists b. rewrite shared_set_shared. case_decide; [congruence|done].
        -- right. exists a. rewrite shared_set_shared, decide_True by done. split; [done|lia].
      * intros [?|(b & Hb & Hne)]; [by left; left|]. rewrite shared_set_shared in Hb. case_decide; [by right|]. left. right. by exists b.
    + lia.
  - split_and!; [|split; [congruence|]| |].
    + split; cbn; auto.
    + intros Hg. by rewrite Hg in E.
    + cbn. rewrite E, Ha. done.
    + done.
Qed.

Lemma wp_close_shared a w :
  providers w0 w ->
  wp (close_shared a) w (fun _ w' => providers w0 w' /\ shared (tw_globals w') a = 0 /\
    forall b, b <> a -> shared (tw_globals w') b = shared (tw_globals w) b).
Proof using Hwf.
  intros Hp. destruct Hwf as [Hpos Hlt]. pose proof Hp as [Hf Hi Ho Hn]. unfold close_shared. apply wp_then. cbn.
  destruct (Z.eqb_spec (shared (tw_globals w) a) 0) as [E|E]; [by apply wp_return|].
  cbn [negb]. unfold wp, mthen, bclose. rewrite bool_decide_true by (apply Ho; right; by exists a). cbn.
  split_and!; [|by rewrite shared_set_shared, decide_True|intros b Hb; by rewrite shared_set_shared, decide_False].
  split; cbn; [| | |done].
  - intros b. rewrite shared_set_shared. case_decide; [done|]. apply Hf.
  - intros b c. rewrite !shared_set_shared. repeat case_decide; subst; try done; first [apply Hi | congruence].
  - intros h. rewrite elem_of_difference, elem_of_singleton, Ho. split.
    + intros [[?|(b & <- & Hb)] Hne]; [by left|]. right. exists b. rewrite shared_set_shared. case_decide; [congruence|done].
    + intros [Hh|(b & Hb & Hne)].
      * split; [by left|]. intros ->. specialize (Hlt _ Hh). specialize (Hf a E). lia.
      * rewrite shared_set_shared in Hb. case_decide; [congruence|]. split; [right; by exists b|]. subst h. intros Heq.
        symmetry in Heq. by apply Hi in Heq.
Qed.

Lemma wp_close_next a l w :
  providers w0 w /\ (forall b, b ∈ l -> shared (tw_globals w) b = 0) ->
  wp (close_shared a) w (fun _ w' => providers w0 w' /\ forall b, b ∈ a :: l -> shared (tw_globals w') b = 0).
Proof using Hwf.
  intros [Hp Hl]. eapply wp_mono; [by apply wp_close_shared|]. intros _ w' (Hp' & Ha & Hb). split; [done|].
  intros b Hin. destruct (decide (b = a)) as [->|]; [done|]. rewrite Hb by done. apply Hl. set_solver.
Qed.

Lemma wp_cleanup w : providers w0 w -> wp BlorgTlsGlobalCleanup w (fun _ w' => providers w0 w' /\ all_null w').
Proof using Hwf.
  intros Hp. unfold BlorgTlsGlobalCleanup.
  eapply wp_bind; [apply (wp_close_next _ []); split; [done|set_solver]|]; cbv beta; intros.
  do 3 (eapply wp_bind; [by apply wp_close_next|]; cbv beta; intros).
  eapply wp_mono; [by apply wp_close_next|]. intros _ ? (? & Hb). split; [done|]. intros []; apply Hb; set_solver.
Qed.

(** Of the providers, those of [l] have been opened while all went well. *)
Definition opened_so_far (l : list ALG) (st : NTSTATUS) (w : TLS_WORLD) : Prop :=
  providers w0 w /\ (NT_SUCCESS st = true -> forall a, a ∈ l -> shared (tw_globals w) a <> 0) /\
  (forall a, a ∉ l -> shared (tw_globals w) a = 0).

Lemma wp_open_next a l st w :
  opened_so_far l st w -> a ∉ l ->
  wp (open_shared oracle a st) w (fun st' w' => opened_so_far (a :: l) st' w' /\ follows oracle st st').
Proof using Hwf.
  intros (Hp & Hin & Hout) Ha. eapply wp_mono; [apply wp_open_shared; auto|]. intros st' w' (Hp' & Hf & Hs & Hb).
  split; [|done]. split_and!; [done| |].
  - intros Hok b. destruct (decide (b = a)) as [->|Hne]; [by rewrite <- Hs|]. rewrite Hb by done.
    intros [|]%elem_of_cons; [done|]. apply Hin; [by apply Hf|done].
  - intros b [Hne Hni]%not_elem_of_cons. rewrite Hb by done. auto.
Qed.

Lemma wp_property l w :
  opened_so_far l STATUS_SUCCESS w ->
  wp (bcall oracle) w (fun st w' => opened_so_far l st w' /\ follows oracle STATUS_SUCCESS st).
Proof. intros (Hp & Hin & Hout). split; [|split; [done|intros Hg _; apply Hg]]. split_and!; [|auto|done]. destruct Hp. by split. Qed.

Definition init_outcome (st : NTSTATUS) (w : TLS_WORLD) : Prop :=
  providers w0 w /\ (if NT_SUCCESS st then forall a, shared (tw_globals w) a <> 0 else all_null w) /\
  (granting oracle -> NT_SUCCESS st = true).

Lemma wp_first_open :
  all_null w0 ->
  wp (st <- open_shared oracle AlgAesGcm STATUS_SUCCESS ;;
      if negb (NT_SUCCESS st) then open_shared oracle AlgAesGcm STATUS_SUCCESS else mreturn st) w0
    (fun st w => opened_so_far [AlgAesGcm] st w /\ follows oracle STATUS_SUCCESS st /\ (NT_SUCCESS st = false -> all_null w)).
Proof using Hwf.
  intros Hn. assert (Hnull : forall w st, (NT_SUCCESS st = true <-> shared (tw_globals w) AlgAesGcm <> 0) ->
    (forall a, a <> AlgAesGcm -> shared (tw_globals w) a = 0) -> NT_SUCCESS st = false -> all_null w).
  { intros w st Hs Hb E a. destruct (decide (a = AlgAesGcm)) as [->|]; [|auto].
    destruct (Z.eq_dec (shared (tw_globals w) AlgAesGcm) 0); [done|]. apply Hs in n. congruence. }
  assert (Hopen : forall w, providers w0 w -> all_null w ->
    wp (open_shared oracle AlgAesGcm STATUS_SUCCESS) w (fun st w => opened_so_far [AlgAesGcm] st w /\
      follows oracle STATUS_SUCCESS st /\ (NT_SUCCESS st = false -> all_null w))).
  { intros w Hp Hw. eapply wp_mono; [by apply wp_open_shared|]. intros st w' (Hp' & Hf & Hs & Hb).
    assert (Hz : forall a, a <> AlgAesGcm -> shared (tw_globals w') a = 0) by (intros; rewrite Hb by done; apply Hw).
    split_and!; [split_and!|done|eauto]; [done| |].
    - intros Hok a ->%list_elem_of_singleton. by apply Hs.
    - intros a Ha. apply Hz. set_solver. }
  eapply wp_bind; [apply Hopen; [by apply providers_start|done]|]. intros st w (Hs & Hf & Hnl).
  destruct (NT_SUCCESS st) eqn:E; cbn [negb]; [apply wp_return; split_and!; done || congruence|].
  apply Hopen; [apply Hs|auto].
Qed.

Lemma init_tail st w :
  all_null w0 -> opened_so_far [AlgEcdsa; AlgEcdh; AlgHmacSha256; AlgSha256; AlgAesGcm] st w -> follows oracle STATUS_SUCCESS st ->
  wp (if negb (NT_SUCCESS st) then _ <- BlorgTlsGlobalCleanup ;; mreturn st else mreturn STATUS_SUCCESS) w init_outcome.
Proof using Hwf.
  intros Hn (Hp & Hin & _) [_ Hg]. destruct (NT_SUCCESS st) eqn:E; cbn [negb].
  - apply wp_return. split_and!; [done| |done]. cbn. intros []; apply Hin; set_solver.
  - eapply wp_bind; [by apply wp_cleanup|]. intros _ w' [Hp' Hnl]. apply wp_return. split_and!; rewrite ?E; auto.
Qed.

Lemma wp_global_init : all_null w0 -> wp (BlorgTlsGlobalInit oracle) w0 init_outcome.
Proof using Hwf.
  intros Hn. unfold BlorgTlsGlobalInit. pose proof (wp_first_open Hn) as H1.
  assert (Hassoc : forall {A B C} (m : M A) (f : A -> M B) (g : B -> M C) w Q, wp (mthen (mthen m f) g) w Q -> wp (mthen m (fun x => mthen (f x) g)) w Q).
  { intros A B C m f g w Q. unfold wp, mthen. by destruct (m w) as [[]|]. }
  apply Hassoc. eapply wp_bind; [exact H1|]. intros st w (Hs & Hf & Hnl).
  destruct (NT_SUCCESS st) eqn:E; cbn [negb].
  - eapply wp_bind; [apply wp_property with (l := [AlgAesGcm]); by destruct Hs as (? & Hs & ?); split_and!; auto|]. intros ? ? [? ?].
    do 4 (eapply wp_bind; [apply wp_open_next; [eassumption|set_solver]|]; intros ? ? [? ?]).
    apply init_tail; eauto 6 using follows_trans.
  - destruct Hs as [Hp _]. unfold wp, mthen, put_shared, mreturn. rewrite put_null by auto. destruct w.
    split_and!; [done|rewrite E; auto|]. intros Hg. destruct Hf as [_ Hf]. specialize (Hf Hg eq_refl). congruence.
Qed.
End Providers.

(** Opening the shared providers is all or nothing whatever each BCrypt
    call answers: on success all five are open and stored, on failure none is
    stored and none is left open; and cleaning up after either gives back the
    handles exactly as they were at the start. *)
Theorem global_init_all_or_nothing oracle w :
  handles_wf w -> all_null w ->
  exists st w1 w2, BlorgTlsGlobalInit oracle w = Some (st, w1) /\
    (if NT_SUCCESS st
     then (forall a, shared (tw_globals w1) a <> 0 /\ shared (tw_globals w1) a ∈ tw_open w1) /\
          (forall a b, shared (tw_globals w1) a = shared (tw_globals w1) b -> a = b)
     else all_null w1 /\ tw_open w1 = tw_open w) /\
    (granting oracle -> NT_SUCCESS st = true) /\
    BlorgTlsGlobalCleanup w1 = Some (tt, w2) /\ all_null w2 /\ tw_open w2 = tw_open w.
Proof.
  intros Hwf Hn. pose proof (wp_global_init oracle w Hwf Hn) as H.
  apply wp_exists in H as (st & w1 & Hrun & Hp & Hst & Hg). pose proof (wp_cleanup w Hwf w1 Hp) as H.
  apply wp_exists in H as ([] & w2 & Hrun2 & Hp2 & Hn2). exists st, w1, w2.
  split_and!; eauto using providers_null. destruct (NT_SUCCESS st); [|eauto using providers_null].
  split; [intros a; split; [done|]; apply (pv_open _ _ Hp); right; by exists a|]. intros a b Hab. by apply (pv_inj _ _ Hp).
Qed.

Definition sixth_fails (n : nat) : NTSTATUS := if (n =? 5)%nat then STATUS_INSUFFICIENT_RESOURCES else STATUS_SUCCESS.
Lemma global_init_all_or_nothing_witness :
  exists st w1 w2, BlorgTlsGlobalInit sixth_fails idle_world = Some (st, w1) /\
    (if NT_SUCCESS st
     then (forall a, shared (tw_globals w1) a <> 0 /\ shared (tw_globals w1) a ∈ tw_open w1) /\
          (forall a b, shared (tw_globals w1) a = shared (tw_globals w1) b -> a = b)
     else all_null w1 /\ tw_open w1 = tw_open idle_world) /\
    (granting sixth_fails -> NT_SUCCESS st = true) /\
    BlorgTlsGlobalCleanup w1 = Some (tt, w2) /\ all_null w2 /\ tw_open w2 = tw_open idle_world.
Proof. apply (global_init_all_or_nothing sixth_fails idle_world idle_wf). intros []; reflexivity. Defined.
