(* ===== verification/TlsCodec.v ===== *)
(** * TLS: handshake messages, DER and records (src/Tls.c, second half)

    Buffers are lists of bytes; a pointer into one is an offset.  A function
    that returns a status is a [P]: [None] is an access out of the buffer,
    [Some (Err st)] an error return, [Some (Ok x)] success with its outputs.
    The short-circuit order of every test is kept, since a test often guards
    the read that comes after it. *)

From S2P Require Import Prelude Buffers TlsCrypto.

Inductive RESULT (A : Type) := Ok (x : A) | Err (st : NTSTATUS).
Arguments Ok {A} x.
Arguments Err {A} st.

Abbreviation P A := (option (RESULT A)).
Definition pthen {A B} (m : P A) (k : A -> P B) : P B :=
  match m with Some (Ok x) => k x | Some (Err st) => Some (Err st) | None => None end.
(** [if (b) return STATUS_INVALID_PARAMETER;] *)
Definition refuse_if {A} (b : bool) (k : P A) : P A := if b then Some (Err STATUS_INVALID_PARAMETER) else k.

Declare Scope codec_scope.
Delimit Scope codec_scope with codec.
Notation "x <~ m ;; k" := (pthen m (fun x => k)) (at level 20, m at level 99, k at level 200) : codec_scope.
Notation "'REFUSE' b ;; k" := (refuse_if b k) (at level 20, b at level 99, k at level 200) : codec_scope.
#[local] Open Scope codec_scope.

(** ** SubjectPublicKeyInfo *)

Definition TLS_SPKI_DER_LEN : Z := 91.
Definition spki_header : BYTES :=
  [0x30; 0x59; 0x30; 0x13; 0x06; 0x07; 0x2A; 0x86; 0x48; 0xCE; 0x3D; 0x02; 0x01;
   0x06; 0x08; 0x2A; 0x86; 0x48; 0xCE; 0x3D; 0x03; 0x01; 0x07; 0x03; 0x42; 0x00].

Definition BlorgTlsEncodeP256SubjectPublicKeyInfo (publicKey derOut : BYTES) : P BYTES :=
  d ← wr_list derOut 0 spki_header;
  d ← wr_list d (Z.of_nat (length spki_header)) publicKey;
  Some (Ok d).

Definition BlorgTlsDecodeP256SubjectPublicKeyInfo (der : BYTES) : P BYTES :=
  REFUSE negb (Z.of_nat (length der) =? TLS_SPKI_DER_LEN) ;;
  h ← rd_list der 0 (Z.of_nat (length spki_header));
  REFUSE negb (bool_decide (h = spki_header)) ;;
  pk ← rd_list der (Z.of_nat (length spki_header)) TLS_ECC_PUBKEY_LEN;
  b ← rd pk 0;
  REFUSE negb (b =? 4) ;;
  Some (Ok pk).

(** ** Wire integers *)

Definition TLS_EXT_SERVER_NAME : Z := 0x0000.
Definition TLS_EXT_SUPPORTED_GROUPS : Z := 0x000A.
Definition TLS_EXT_SIGNATURE_ALGORITHMS : Z := 0x000D.
Definition TLS_EXT_SUPPORTED_VERSIONS : Z := 0x002B.
Definition TLS_EXT_KEY_SHARE : Z := 0x0033.
Definition TLS_GROUP_SECP256R1 : Z := 0x0017.
Definition TLS_CIPHER_SUITE_AES_128_GCM_SHA256 : Z := 0x1301.
Definition TLS_SIGALG_ECDSA_SECP256R1_SHA256 : Z := 0x0403.
Definition TLS_VERSION_1_3 : Z := 0x0304.
Definition TLS_HANDSHAKE_RANDOM_LEN : Z := 32.

(** The bytes the two writers store. *)
Definition TlsPutUint16 (v : Z) : BYTES := [u8 (Z.shiftr v 8); u8 (Z.land v 255)].
Definition TlsPutUint24 (v : Z) : BYTES := [u8 (Z.land (Z.shiftr v 16) 255); u8 (Z.land (Z.shiftr v 8) 255); u8 (Z.land v 255)].

Definition TlsGetUint16 (buf : BYTES) (off : Z) : option Z :=
  a ← rd buf off;
  b ← rd buf (off + 1);
  Some (u16 (Z.lor (Z.shiftl a 8) b)).
Definition get_uint24 (buf : BYTES) (off : Z) : option Z :=
  a ← rd buf off;
  b ← rd buf (off + 1);
  c ← rd buf (off + 2);
  Some (Z.lor (Z.lor (Z.shiftl a 16) (Z.shiftl b 8)) c).

(** ** ClientHello *)

(** The buffer and [offset]: [Buffer[offset++] = ...] and
    [TlsPutUint16(Buffer + offset, ...); offset += 2] are both [emit]. *)
Definition emit (bytes : BYTES) (s : BYTES * Z) : option (BYTES * Z) :=
  b ← wr_list s.1 s.2 bytes;
  Some (b, u32 (s.2 + Z.of_nat (length bytes))).

Definition skip (n : Z) (s : BYTES * Z) : BYTES * Z := (s.1, u32 (s.2 + n)).

(** A return with the status; the buffer keeps what was written to it. *)
Definition hello_error (s : BYTES * Z) : option (NTSTATUS * Z * BYTES) := Some (STATUS_INVALID_PARAMETER, 0, s.1).

Definition hello_sni (name : BYTES) (s : BYTES * Z) : option (BYTES * Z) :=
  let n := Z.of_nat (length name) in
  s ← emit (TlsPutUint16 TLS_EXT_SERVER_NAME) s;
  s ← emit (TlsPutUint16 (u16 (u32 (2 + 1 + 2 + n)))) s;
  s ← emit (TlsPutUint16 (u16 (u32 (1 + 2 + n)))) s;
  s ← emit [0] s;
  s ← emit (TlsPutUint16 (u16 n)) s;
  emit name s.

Definition hello_groups (s : BYTES * Z) : option (BYTES * Z) :=
  s ← emit (TlsPutUint16 TLS_EXT_SUPPORTED_GROUPS) s;
  s ← emit (TlsPutUint16 4) s;
  s ← emit (TlsPutUint16 2) s;
  emit (TlsPutUint16 TLS_GROUP_SECP256R1) s.

Definition hello_key_share (pk : BYTES) (s : BYTES * Z) : option (BYTES * Z) :=
  let listContentLen := 2 + 2 + TLS_ECC_PUBKEY_LEN in
  s ← emit (TlsPutUint16 TLS_EXT_KEY_SHARE) s;
  s ← emit (TlsPutUint16 (u16 (2 + listContentLen))) s;
  s ← emit (TlsPutUint16 (u16 listContentLen)) s;
  s ← emit (TlsPutUint16 TLS_GROUP_SECP256R1) s;
  s ← emit (TlsPutUint16 (u16 TLS_ECC_PUBKEY_LEN)) s;
  emit pk s.

Definition hello_versions_sigalgs (s : BYTES * Z) : option (BYTES * Z) :=
  s ← emit (TlsPutUint16 TLS_EXT_SUPPORTED_VERSIONS) s;
  s ← emit (TlsPutUint16 3) s;
  s ← emit [2] s;
  s ← emit (TlsPutUint16 TLS_VERSION_1_3) s;
  s ← emit (TlsPutUint16 TLS_EXT_SIGNATURE_ALGORITHMS) s;
  s ← emit (TlsPutUint16 4) s;
  s ← emit (TlsPutUint16 2) s;
  emit (TlsPutUint16 TLS_SIGALG_ECDSA_SECP256R1_SHA256) s.

(** From the protocol version to the compression methods. *)
Definition hello_fixed (random : BYTES) (s : BYTES * Z) : option (BYTES * Z) :=
  s ← emit [3] s;
  s ← emit [3] s;
  s ← emit random s;
  s ← emit [0] s;
  s ← emit (TlsPutUint16 2) s;
  s ← emit (TlsPutUint16 TLS_CIPHER_SUITE_AES_128_GCM_SHA256) s;
  s ← emit [1] s;
  emit [0] s.

(** [name] is [[]] for a [NULL] or empty server name.  The outputs are the
    status, the message length and the buffer. *)
Definition BlorgTlsBuildClientHello (random pk name buffer : BYTES) : option (NTSTATUS * Z * BYTES) :=
  let bufferLen := Z.of_nat (length buffer) in
  let s := (buffer, 0) in
  if bufferLen <? 4 then hello_error s else
  s ← emit [1] s;
  let lengthFieldOffset := s.2 in
  let s := skip 3 s in
  let bodyStart := s.2 in
  if bufferLen <? u32 (s.2 + 2 + TLS_HANDSHAKE_RANDOM_LEN + 1 + 2 + 2 + 1 + 1 + 2) then hello_error s else
  s ← hello_fixed random s;
  let extensionsLenOffset := s.2 in
  let s := skip 2 s in
  let extensionsStart := s.2 in
  let n := Z.of_nat (length name) in
  if (0 <? n) && (bufferLen <? u32 (s.2 + 4 + u32 (2 + 1 + 2 + n))) then hello_error s else
  s ← (if 0 <? n then hello_sni name s else Some s);
  if bufferLen <? u32 (s.2 + 8) then hello_error s else
  s ← hello_groups s;
  if bufferLen <? u32 (s.2 + 4 + (2 + (2 + 2 + TLS_ECC_PUBKEY_LEN))) then hello_error s else
  s ← hello_key_share pk s;
  if bufferLen <? u32 (s.2 + 7 + 8) then hello_error s else
  s ← hello_versions_sigalgs s;
  b ← wr_list s.1 extensionsLenOffset (TlsPutUint16 (u16 (u32 (s.2 - extensionsStart))));
  b ← wr_list b lengthFieldOffset (TlsPutUint24 (u32 (s.2 - bodyStart)));
  Some (STATUS_SUCCESS, s.2, b).

(** ** ServerHello *)

(** [foundVersion] and the key share found last, [[]] while there is none. *)
Record HELLO_SCAN := mkScan { foundVersion : bool; foundKeyShare : bool; ServerPublicKeyOut : BYTES }.

Definition scan_versions (msg : BYTES) (offset extLen : Z) (h : HELLO_SCAN) : P HELLO_SCAN :=
  REFUSE negb (extLen =? 2) ;;
  v ← TlsGetUint16 msg offset;
  REFUSE negb (v =? TLS_VERSION_1_3) ;;
  Some (Ok (mkScan true (foundKeyShare h) (ServerPublicKeyOut h))).

Definition scan_key_share (msg : BYTES) (offset extLen : Z) (h : HELLO_SCAN) : P HELLO_SCAN :=
  REFUSE negb (extLen =? 2 + 2 + TLS_ECC_PUBKEY_LEN) ;;
  g ← TlsGetUint16 msg offset;
  REFUSE negb (g =? TLS_GROUP_SECP256R1) ;;
  n ← TlsGetUint16 msg (offset + 2);
  REFUSE negb (n =? TLS_ECC_PUBKEY_LEN) ;;
  pk ← rd_list msg (offset + 4) TLS_ECC_PUBKEY_LEN;
  b ← rd pk 0;
  REFUSE negb (b =? 4) ;;
  Some (Ok (mkScan (foundVersion h) true pk)).

Definition scan_one (msg : BYTES) (extType offset extLen : Z) (h : HELLO_SCAN) : P HELLO_SCAN :=
  if extType =? TLS_EXT_SUPPORTED_VERSIONS then scan_versions msg offset extLen h
  else if extType =? TLS_EXT_KEY_SHARE then scan_key_share msg offset extLen h
  else Some (Ok h).

Fixpoint scan_extensions (fuel : nat) (msg : BYTES) (offset extEnd : Z) (h : HELLO_SCAN) : P HELLO_SCAN :=
  match fuel with
  | O => None
  | S fuel =>
      if u32 (offset + 4) <=? extEnd then
        extType ← TlsGetUint16 msg offset;
        extLen ← TlsGetUint16 msg (offset + 2);
        let offset := u32 (offset + 4) in
        REFUSE extEnd <? u32 (offset + extLen) ;;
        h <~ scan_one msg extType offset extLen h ;;
        scan_extensions fuel msg (u32 (offset + extLen)) extEnd h
      else Some (Ok h)
  end.

(** The server's random and its public key. *)
Definition BlorgTlsParseServerHello (msg : BYTES) : P (BYTES * BYTES) :=
  let messageLen := Z.of_nat (length msg) in
  REFUSE messageLen <? 2 + TLS_HANDSHAKE_RANDOM_LEN + 1 + 2 + 1 + 2 ;;
  random ← rd_list msg 2 TLS_HANDSHAKE_RANDOM_LEN;
  let offset := 2 + TLS_HANDSHAKE_RANDOM_LEN in
  sessionIdLen ← rd msg offset;
  let offset := offset + 1 in
  REFUSE messageLen <? u32 (offset + sessionIdLen) ;;
  let offset := u32 (offset + sessionIdLen) in
  REFUSE messageLen <? u32 (offset + 2) ;;
  suite ← TlsGetUint16 msg offset;
  REFUSE negb (suite =? TLS_CIPHER_SUITE_AES_128_GCM_SHA256) ;;
  let offset := u32 (offset + 2 + 1) in
  REFUSE messageLen <? u32 (offset + 2) ;;
  extensionsLen ← TlsGetUint16 msg offset;
  let offset := u32 (offset + 2) in
  REFUSE messageLen <? u32 (offset + extensionsLen) ;;
  h <~ scan_extensions (S (length msg)) msg offset (u32 (offset + extensionsLen)) (mkScan false false []) ;;
  REFUSE negb (foundVersion h) || negb (foundKeyShare h) ;;
  Some (Ok (random, ServerPublicKeyOut h)).

(** ** Certificate *)

(** The leaf as a span of the message: its offset and its length. *)
Definition BlorgTlsParseCertificateMessage (msg : BYTES) : P (Z * Z) :=
  let messageLen := Z.of_nat (length msg) in
  REFUSE messageLen <? 1 ;;
  contextLen ← rd msg 0;
  let offset := 1 + contextLen in
  REFUSE messageLen <? u32 (offset + 3) ;;
  certListLen ← get_uint24 msg offset;
  let offset := u32 (offset + 3) in
  REFUSE (certListLen <? 3) || (messageLen <? u32 (offset + certListLen)) ;;
  certDataLen ← get_uint24 msg offset;
  let offset := u32 (offset + 3) in
  REFUSE messageLen <? u32 (offset + certDataLen) ;;
  Some (Ok (offset, certDataLen)).

(** ** DER *)

Fixpoint der_len_loop (n : nat) (buf : BYTES) (p len : Z) : option Z :=
  match n with
  | O => Some len
  | S n => b ← rd buf p; der_len_loop n buf (p + 1) (u32 (Z.lor (Z.shiftl len 8) b))
  end.

(** The length octets at [p] and the check that the value fits before [e]:
    the value's offset and length, or [None] for [FALSE].  Both readers
    below have this text. *)
Definition der_header (buf : BYTES) (p e : Z) : option (option (Z * Z)) :=
  if e <=? p then Some None else
  b ← rd buf p;
  r ← (if Z.land b 128 =? 0 then Some (Some (p + 1, b)) else
       let lenBytes := Z.land b 127 in
       let p := p + 1 in
       if (lenBytes =? 0) || (2 <? lenBytes) || (u32 (e - p) <? lenBytes) then Some None else
       len ← der_len_loop (Z.to_nat lenBytes) buf p 0;
       Some (Some (p + lenBytes, len)));
  match r with
  | None => Some None
  | Some (p, len) => if u32 (e - p) <? len then Some None else Some (Some (p, len))
  end.

Definition TlsDerReadTlv (buf : BYTES) (p e expectedTag : Z) : option (option (Z * Z)) :=
  if e <=? p then Some None else
  t ← rd buf p;
  if negb (t =? expectedTag) then Some None else der_header buf (p + 1) e.

Definition TlsDerSkipTlv (buf : BYTES) (p e : Z) : option (option Z) :=
  if e <=? p then Some None else
  r ← der_header buf (p + 1) e;
  match r with None => Some None | Some (p, len) => Some (Some (p + len)) end.

(** [if (!Tlv(...)) return STATUS_INVALID_PARAMETER;] *)
Definition or_invalid {A} (r : option (option A)) : P A :=
  match r with Some (Some x) => Some (Ok x) | Some None => Some (Err STATUS_INVALID_PARAMETER) | None => None end.

(** The SPKI's span in the certificate. *)
Definition BlorgTlsExtractSpkiFromCertificate (cert : BYTES) : P (Z * Z) :=
  let e := Z.of_nat (length cert) in
  c <~ or_invalid (TlsDerReadTlv cert 0 e 0x30) ;;
  t <~ or_invalid (TlsDerReadTlv cert c.1 e 0x30) ;;
  let tbsEnd := t.1 + t.2 in
  v ← (if t.1 <? tbsEnd then rd cert t.1 else Some 0);
  p <~ (if (t.1 <? tbsEnd) && (v =? 0xA0) then or_invalid (TlsDerSkipTlv cert t.1 tbsEnd) else Some (Ok t.1)) ;;
  p <~ or_invalid (TlsDerSkipTlv cert p tbsEnd) ;;
  p <~ or_invalid (TlsDerSkipTlv cert p tbsEnd) ;;
  p <~ or_invalid (TlsDerSkipTlv cert p tbsEnd) ;;
  p <~ or_invalid (TlsDerSkipTlv cert p tbsEnd) ;;
  p <~ or_invalid (TlsDerSkipTlv cert p tbsEnd) ;;
  s <~ or_invalid (TlsDerReadTlv cert p tbsEnd 0x30) ;;
  Some (Ok (p, u32 (s.1 + s.2 - p))).

(** ** CertificateVerify *)

(** A leading zero of a 33-byte integer is dropped. *)
Definition strip_sign (msg : BYTES) (start len : Z) : option (Z * Z) :=
  if len =? 33 then b ← rd msg start; Some (if b =? 0 then (start + 1, len - 1) else (start, len)) else Some (start, len).

Definition BlorgTlsParseCertificateVerifyMessage (msg : BYTES) : P BYTES :=
  let messageLen := Z.of_nat (length msg) in
  REFUSE messageLen <? 4 ;;
  alg ← TlsGetUint16 msg 0;
  REFUSE negb (alg =? TLS_SIGALG_ECDSA_SECP256R1_SHA256) ;;
  sigLen ← TlsGetUint16 msg 2;
  REFUSE negb (4 + sigLen =? messageLen) ;;
  q <~ or_invalid (TlsDerReadTlv msg 4 (4 + sigLen) 0x30) ;;
  let seqEnd := q.1 + q.2 in
  r <~ or_invalid (TlsDerReadTlv msg q.1 seqEnd 0x02) ;;
  t <~ or_invalid (TlsDerReadTlv msg (r.1 + r.2) seqEnd 0x02) ;;
  r ← strip_sign msg r.1 r.2;
  t ← strip_sign msg t.1 t.2;
  REFUSE (32 <? r.2) || (32 <? t.2) || (r.2 =? 0) || (t.2 =? 0) ;;
  rb ← rd_list msg r.1 r.2;
  sb ← rd_list msg t.1 t.2;
  out ← wr_list (replicate 64 0) (32 - r.2) rb;
  out ← wr_list out (32 + (32 - t.2)) sb;
  Some (Ok out).

Definition TLS_CERT_VERIFY_CONTENT_LEN : Z := 130.
Definition contextString : BYTES :=
  [0x54; 0x4c; 0x53; 0x20; 0x31; 0x2e; 0x33; 0x2c; 0x20; 0x73; 0x65; 0x72;
   0x76; 0x65; 0x72; 0x20; 0x43; 0x65; 0x72; 0x74; 0x69; 0x66; 0x69; 0x63;
   0x61; 0x74; 0x65; 0x56; 0x65; 0x72; 0x69; 0x66; 0x79].

Definition BlorgTlsBuildServerCertVerifyContent (hash content : BYTES) : option (NTSTATUS * BYTES) :=
  c ← wr_list content 0 (replicate 64 0x20);
  let offset := 64 in
  c ← wr_list c offset contextString;
  let offset := offset + Z.of_nat (length contextString) in
  c ← wr c offset 0;
  let offset := offset + 1 in
  c ← wr_list c offset hash;
  let offset := offset + TLS_HASH_LEN in
  Some (if TLS_CERT_VERIFY_CONTENT_LEN =? offset then STATUS_SUCCESS else STATUS_INVALID_PARAMETER, c).

(** ** Comparison and record padding *)

Fixpoint equal_loop (n : nat) (a b : BYTES) (diff : Z) : option Z :=
  match n with
  | O => Some diff
  | S m =>
      diff ← equal_loop m a b diff;
      x ← rd a (Z.of_nat m);
      y ← rd b (Z.of_nat m);
      Some (Z.lor diff (u8 (Z.lxor x y)))
  end.
Definition BlorgTlsConstantTimeEqual (a b : BYTES) (len : Z) : option bool :=
  diff ← equal_loop (Z.to_nat len) a b 0;
  Some (0 =? diff).

(** [i] counts down from the length. *)
Fixpoint strip_loop (i : nat) (p : BYTES) : option nat :=
  match i with
  | O => Some O
  | S j => b ← rd p (Z.of_nat j); if b =? 0 then strip_loop j p else Some i
  end.
Definition BlorgTlsStripInnerPlaintext (p : BYTES) : option (option (Z * Z)) :=
  i ← strip_loop (length p) p;
  match i with
  | O => Some None
  | S j => b ← rd p (Z.of_nat j); Some (Some (b, Z.of_nat j))
  end.
