(* ===== verification/TlsClientHello.v ===== *)
(** * TLS: the ClientHello the driver sends

    Buffers as "written prefix and untouched rest", the RFC 8446 grammar of
    the message as an encoder, and the theorem that
    [BlorgTlsBuildClientHello] writes exactly that encoding or refuses. *)

From S2P Require Import Prelude Buffers TlsCrypto TlsCodec.

(** ** Grammar *)

Definition vec16 (c : BYTES) : BYTES := TlsPutUint16 (Z.of_nat (length c)) ++ c.
Definition vec24 (c : BYTES) : BYTES := TlsPutUint24 (Z.of_nat (length c)) ++ c.
Definition extension (ty : Z) (c : BYTES) : BYTES := TlsPutUint16 ty ++ vec16 c.

Definition sni_extension (name : BYTES) : BYTES :=
  match name with [] => [] | _ => extension TLS_EXT_SERVER_NAME (vec16 ([0] ++ vec16 name)) end.

Definition hello_extensions (pk name : BYTES) : BYTES :=
  sni_extension name ++
  extension TLS_EXT_SUPPORTED_GROUPS (vec16 (TlsPutUint16 TLS_GROUP_SECP256R1)) ++
  extension TLS_EXT_KEY_SHARE (vec16 (TlsPutUint16 TLS_GROUP_SECP256R1 ++ vec16 pk)) ++
  extension TLS_EXT_SUPPORTED_VERSIONS ([2] ++ TlsPutUint16 TLS_VERSION_1_3) ++
  extension TLS_EXT_SIGNATURE_ALGORITHMS (vec16 (TlsPutUint16 TLS_SIGALG_ECDSA_SECP256R1_SHA256)).

Definition client_hello (random pk name : BYTES) : BYTES :=
  [1] ++ vec24 ([3; 3] ++ random ++ [0] ++ vec16 (TlsPutUint16 TLS_CIPHER_SUITE_AES_128_GCM_SHA256) ++ [1; 0] ++
                vec16 (hello_extensions pk name)).

(** ** The writer *)

Section Writer.
Context (b0 : BYTES).

(** [w] written at the front of [b0]. *)
Definition over (w : BYTES) : BYTES := w ++ drop (length w) b0.
Definition st (w : BYTES) : BYTES * Z := (over w, Z.of_nat (length w)).

Lemma st_fst w : (st w).1 = over w.
Proof. done. Qed.
Lemma st_snd w : (st w).2 = Z.of_nat (length w).
Proof. done. Qed.

Hypothesis Hsmall : Z.of_nat (length b0) < 4294967296.

Lemma length_over w : (length w <= length b0)%nat -> length (over w) = length b0.
Proof. intros. unfold over. rewrite length_app, length_drop. lia. Qed.

Lemma emit_st bytes w :
  (length w + length bytes <= length b0)%nat -> emit bytes (st w) = Some (st (w ++ bytes)).
Proof using Hsmall.
  intros Hl. unfold emit, st, over. cbn [fst snd].
  rewrite <- (take_drop (length bytes) (drop (length w) b0)) at 1.
  rewrite wr_list_hole by (rewrite ?length_take, ?length_drop; lia). cbn [mbind option_bind].
  rewrite drop_drop, length_app, u32_id by lia. rewrite <- app_assoc. do 2 f_equal. lia.
Qed.

Lemma skip_st n w :
  (length w + n <= length b0)%nat -> skip (Z.of_nat n) (st w) = st (w ++ take n (drop (length w) b0)).
Proof using Hsmall.
  intros Hl. unfold skip, st, over. cbn [fst snd]. rewrite <- app_assoc, length_app, length_take, length_drop.
  rewrite Nat.min_l by lia. rewrite <- drop_drop, take_drop, u32_id by lia. f_equal. lia.
Qed.

Lemma start_st : (b0, 0) = st [].
Proof. done. Qed.

Ltac len := rewrite ?length_app; cbn [length TlsPutUint16 TlsPutUint24]; lia.
Ltac emits := repeat (rewrite emit_st by len; cbn [mbind option_bind]).

Definition fixed_bytes (random : BYTES) : BYTES :=
  [3; 3] ++ random ++ [0] ++ vec16 (TlsPutUint16 TLS_CIPHER_SUITE_AES_128_GCM_SHA256) ++ [1; 0].

Lemma hello_fixed_st random w :
  (length w + length random + 9 <= length b0)%nat ->
  hello_fixed random (st w) = Some (st (w ++ fixed_bytes random)).
Proof using Hsmall. intros Hl. unfold hello_fixed. emits. unfold fixed_bytes, vec16. by rewrite <- !app_assoc. Qed.

Lemma hello_sni_st name w :
  name <> [] -> Z.of_nat (length name) <= 65428 -> (length w + length name + 9 <= length b0)%nat ->
  hello_sni name (st w) = Some (st (w ++ sni_extension name)).
Proof using Hsmall.
  intros Hne Hn Hl. unfold hello_sni. rewrite !u32_id, !u16_id by lia. emits.
  do 2 f_equal. unfold sni_extension. destruct name; [done|]. unfold extension, vec16. rewrite <- !app_assoc.
  do 3 f_equal; [|f_equal]; f_equal; f_equal; len.
Qed.

Lemma hello_groups_st w :
  (length w + 8 <= length b0)%nat ->
  hello_groups (st w) = Some (st (w ++ extension TLS_EXT_SUPPORTED_GROUPS (vec16 (TlsPutUint16 TLS_GROUP_SECP256R1)))).
Proof using Hsmall. intros Hl. unfold hello_groups. emits. unfold extension, vec16. by rewrite <- !app_assoc. Qed.

Lemma hello_key_share_st pk w :
  length pk = 65%nat -> (length w + 75 <= length b0)%nat ->
  hello_key_share pk (st w) =
  Some (st (w ++ extension TLS_EXT_KEY_SHARE (vec16 (TlsPutUint16 TLS_GROUP_SECP256R1 ++ vec16 pk)))).
Proof using Hsmall.
  intros Hpk Hl. unfold hello_key_share. emits. unfold extension, vec16. rewrite !length_app, Hpk. by rewrite <- !app_assoc.
Qed.

Lemma hello_versions_sigalgs_st w :
  (length w + 15 <= length b0)%nat ->
  hello_versions_sigalgs (st w) =
  Some (st (w ++ extension TLS_EXT_SUPPORTED_VERSIONS ([2] ++ TlsPutUint16 TLS_VERSION_1_3) ++
            extension TLS_EXT_SIGNATURE_ALGORITHMS (vec16 (TlsPutUint16 TLS_SIGALG_ECDSA_SECP256R1_SHA256)))).
Proof using Hsmall. intros Hl. unfold hello_versions_sigalgs. emits. unfold extension, vec16. by rewrite <- !app_assoc. Qed.
End Writer.

(** ** The message *)

Lemma length_sni name : length (sni_extension name) = match name with [] => 0%nat | _ => (9 + length name)%nat end.
Proof. destruct name; [done|]. unfold sni_extension, extension, vec16. rewrite !length_app. cbn [length TlsPutUint16]. lia. Qed.

Lemma length_hello_extensions pk name :
  length pk = 65%nat -> length (hello_extensions pk name) = (length (sni_extension name) + 98)%nat.
Proof. intros H. unfold hello_extensions, extension, vec16. rewrite !length_app, H. cbn [length TlsPutUint16]. lia. Qed.

Lemma length_client_hello random pk name :
  length random = 32%nat -> length pk = 65%nat ->
  length (client_hello random pk name) = (145 + length (sni_extension name))%nat.
Proof.
  intros Hr Hp. unfold client_hello, vec24, vec16. rewrite !length_app, length_hello_extensions, Hr by done.
  cbn [length TlsPutUint16 TlsPutUint24]. lia.
Qed.

(** What each early return leaves: an error, no length, and the buffer only
    overwritten. *)
Definition hello_refused (b0 : BYTES) (r : option (NTSTATUS * Z * BYTES)) : Prop :=
  exists b, r = Some (STATUS_INVALID_PARAMETER, 0, b) /\ length b = length b0.

Lemma hello_error_refused b0 w : (length w <= length b0)%nat -> hello_refused b0 (hello_error (st b0 w)).
Proof. intros H. eexists. split; [reflexivity|]. by apply length_over. Qed.

(** The two length fields, patched over the bytes skipped for them. *)
Lemma patch_lengths random exts h3 h2 b0 w :
  length random = 32%nat -> length h3 = 3%nat -> length h2 = 2%nat -> Z.of_nat (length exts) <= 65535 ->
  w = ([1] ++ h3 ++ fixed_bytes random) ++ h2 ++ exts ->
  (b ← wr_list (over b0 w) 45 (TlsPutUint16 (u16 (u32 (Z.of_nat (length w) - 47))));
   b ← wr_list b 1 (TlsPutUint24 (u32 (Z.of_nat (length w) - 4)));
   Some (STATUS_SUCCESS, Z.of_nat (length w), b)) =
  Some (STATUS_SUCCESS, Z.of_nat (length w), ([1] ++ vec24 (fixed_bytes random ++ vec16 exts)) ++ drop (length w) b0).
Proof.
  intros Hr H3 H2 He Hw.
  assert (Hlw : length w = (47 + length exts)%nat).
  { subst w. unfold fixed_bytes, vec16. rewrite !length_app, Hr, H3, H2. cbn [length TlsPutUint16]. lia. }
  assert (Hf : length (fixed_bytes random) = 41%nat) by (unfold fixed_bytes, vec16; rewrite !length_app, Hr; reflexivity).
  unfold over. rewrite Hlw, !u32_id, u16_id by lia. rewrite Hw, <- !app_assoc.
  rewrite (app_assoc h3), (app_assoc [1] (h3 ++ _)), wr_list_hole by (rewrite ?length_app, ?Hf, ?H3, ?H2; done).
  cbn [mbind option_bind]. rewrite <- (app_assoc [1]), <- (app_assoc h3). rewrite wr_list_hole by (rewrite ?H3; done).
  unfold vec24, vec16. rewrite !length_app, Hf. rewrite <- !app_assoc. cbn [mbind option_bind TlsPutUint16 length].
  do 5 f_equal; [do 2 f_equal; lia|]. do 2 f_equal. do 2 f_equal. lia.
Qed.

Lemma length_fixed random : length random = 32%nat -> length (fixed_bytes random) = 41%nat.
Proof. intros Hr. unfold fixed_bytes, vec16. rewrite !length_app, Hr. reflexivity. Qed.

Ltac lens := first [lia | rewrite ?length_app; cbn [length]; try lia].

Lemma sni_step b0 name w :
  Z.of_nat (length b0) < 4294967296 -> Z.of_nat (length name) <= 65428 -> (length w <= length b0)%nat -> length w = 47%nat ->
  if (length w + length (sni_extension name) <=? length b0)%nat
  then (0 <? Z.of_nat (length name)) && (Z.of_nat (length b0) <? u32 (Z.of_nat (length w) + 4 + u32 (2 + 1 + 2 + Z.of_nat (length name)))) = false /\
       (if 0 <? Z.of_nat (length name) then hello_sni name (st b0 w) else Some (st b0 w)) = Some (st b0 (w ++ sni_extension name))
  else (0 <? Z.of_nat (length name)) && (Z.of_nat (length b0) <? u32 (Z.of_nat (length w) + 4 + u32 (2 + 1 + 2 + Z.of_nat (length name)))) = true.
Proof.
  intros Hs Hn Hw H47. rewrite length_sni. rewrite !u32_id by (rewrite ?u32_id by lia; lia).
  destruct name as [|x name]; [|set (nm := x :: name) in *; assert (0 < length nm)%nat by (cbn; lia)].
  - destruct (Nat.leb_spec (length w + 0) (length b0)); [|lia]. split; [done|]. by rewrite app_nil_r.
  - destruct (Z.ltb_spec 0 (Z.of_nat (length nm))); [|lia]. cbn [andb].
    destruct (Nat.leb_spec (length w + (9 + length nm)) (length b0)); [split|].
    + apply Z.ltb_ge. lia.
    + apply hello_sni_st; [done|done|done|lia].
    + apply Z.ltb_lt. lia.
Qed.

(** An early return where the whole message does not fit. *)
Ltac refused :=
  match goal with |- if ?b then _ else _ => destruct b eqn:?Hfit end;
  [exfalso; match goal with H : (_ <=? _)%nat = true |- _ => apply Nat.leb_le in H end; lens
  |apply hello_error_refused; lens].

Lemma length_sni_bound name : Z.of_nat (length name) <= 65428 -> Z.of_nat (length (sni_extension name)) <= 65437.
Proof. intros. rewrite length_sni. destruct name; lia. Qed.

(** The code after the server name. *)
Definition hello_end (pk : BYTES) (bufferLen : Z) (s : BYTES * Z) : option (NTSTATUS * Z * BYTES) :=
  if bufferLen <? u32 (s.2 + 8) then hello_error s else
  s ← hello_groups s;
  if bufferLen <? u32 (s.2 + 4 + (2 + (2 + 2 + TLS_ECC_PUBKEY_LEN))) then hello_error s else
  s ← hello_key_share pk s;
  if bufferLen <? u32 (s.2 + 7 + 8) then hello_error s else
  s ← hello_versions_sigalgs s;
  b ← wr_list s.1 45 (TlsPutUint16 (u16 (u32 (s.2 - 47))));
  b ← wr_list b 1 (TlsPutUint24 (u32 (s.2 - 4)));
  Some (STATUS_SUCCESS, s.2, b).

Lemma hello_end_outcome random pk name h3 h2 b0 :
  length random = 32%nat -> length pk = 65%nat -> length h3 = 3%nat -> length h2 = 2%nat ->
  Z.of_nat (length name) <= 65428 -> Z.of_nat (length b0) < 4294967296 ->
  (47 + length (sni_extension name) <= length b0)%nat ->
  let hello := client_hello random pk name in
  let r := hello_end pk (Z.of_nat (length b0)) (st b0 (([1] ++ h3 ++ fixed_bytes random) ++ h2 ++ sni_extension name)) in
  if (length hello <=? length b0)%nat
  then r = Some (STATUS_SUCCESS, Z.of_nat (length hello), hello ++ drop (length hello) b0)
  else hello_refused b0 r.
Proof.
  intros Hr Hp H3 H2 Hn Hs Hfit. cbv zeta. rewrite (length_client_hello random pk name Hr Hp).
  pose proof (length_sni_bound name Hn) as Hb. pose proof (length_fixed random Hr) as Hf.
  set (w2 := ([1] ++ h3 ++ fixed_bytes random) ++ h2 ++ sni_extension name).
  assert (Hw2 : length w2 = (47 + length (sni_extension name))%nat) by (unfold w2; lens).
  unfold hello_end. rewrite !st_snd. rewrite u32_id by lia.
  destruct (Z.ltb_spec (Z.of_nat (length b0)) (Z.of_nat (length w2) + 8)); [refused|].
  rewrite hello_groups_st by (done || lia). cbn [mbind option_bind]; rewrite ?st_snd. set (g := extension TLS_EXT_SUPPORTED_GROUPS _).
  assert (Hg : length (w2 ++ g) = (length w2 + 8)%nat) by (rewrite length_app; reflexivity).
  unfold TLS_ECC_PUBKEY_LEN. rewrite u32_id by lia.
  destruct (Z.ltb_spec (Z.of_nat (length b0)) (Z.of_nat (length (w2 ++ g)) + 4 + (2 + (2 + 2 + 65)))); [refused|].
  rewrite hello_key_share_st by (done || lia). cbn [mbind option_bind]; rewrite ?st_snd. set (k := extension TLS_EXT_KEY_SHARE _).
  assert (Hk : length ((w2 ++ g) ++ k) = (length w2 + 83)%nat)
    by (rewrite length_app, Hg; unfold k, extension, vec16; rewrite !length_app, Hp; cbn [length TlsPutUint16]; lia).
  rewrite u32_id by lia. destruct (Z.ltb_spec (Z.of_nat (length b0)) (Z.of_nat (length ((w2 ++ g) ++ k)) + 7 + 8)); [refused|].
  rewrite hello_versions_sigalgs_st by (done || lia). cbn [mbind option_bind]; rewrite !st_fst, !st_snd.
  destruct (Nat.leb_spec (145 + length (sni_extension name)) (length b0)); [|lia].
  rewrite (patch_lengths random (hello_extensions pk name) h3 h2); [| | | | |unfold w2, hello_extensions; by rewrite <- !app_assoc];
    [|done..|rewrite length_hello_extensions by done; lia].
  set (vs := extension TLS_EXT_SUPPORTED_VERSIONS _ ++ _).
  assert (Hv : length (((w2 ++ g) ++ k) ++ vs) = (145 + length (sni_extension name))%nat) by (rewrite length_app, Hk; assert (length vs = 15%nat) as -> by reflexivity; lia).
  rewrite Hv. do 2 f_equal. unfold client_hello, fixed_bytes. by rewrite <- !app_assoc.
Qed.

(** [BlorgTlsBuildClientHello] never writes outside the buffer.  It
    succeeds exactly when the RFC 8446 encoding of the hello fits, and then
    the buffer starts with that encoding, every nested length included, the
    rest of it is untouched, and the length reported is the encoding's. *)
Theorem client_hello_outcome random pk name b0 :
  length random = 32%nat -> length pk = 65%nat -> Z.of_nat (length name) <= 65428 -> Z.of_nat (length b0) < 4294967296 ->
  let hello := client_hello random pk name in
  if (length hello <=? length b0)%nat
  then BlorgTlsBuildClientHello random pk name b0 = Some (STATUS_SUCCESS, Z.of_nat (length hello), hello ++ drop (length hello) b0)
  else hello_refused b0 (BlorgTlsBuildClientHello random pk name b0).
Proof.
  intros Hr Hp Hn Hs. cbv zeta. pose proof (length_client_hello random pk name Hr Hp) as Hlen. rewrite Hlen.
  pose proof (length_fixed random Hr) as Hf. unfold BlorgTlsBuildClientHello. rewrite start_st.
  destruct (Z.ltb_spec (Z.of_nat (length b0)) 4) as [H4|H4]; [refused|].
  rewrite emit_st by (done || cbn; lia). cbn [mbind option_bind app]. change (skip 3) with (skip (Z.of_nat 3)).
  rewrite skip_st by (done || cbn; lia). set (h3 := take 3 (drop (length [1]) b0)).
  assert (Hh3 : length h3 = 3%nat) by (unfold h3; rewrite length_take, length_drop; cbn [length]; lia).
  rewrite !st_snd. rewrite u32_id by (lens; unfold TLS_HANDSHAKE_RANDOM_LEN; lia).
  destruct (Z.ltb_spec (Z.of_nat (length b0)) (Z.of_nat (length ([1] ++ h3)) + 2 + TLS_HANDSHAKE_RANDOM_LEN + 1 + 2 + 2 + 1 + 1 + 2)) as [H47|H47];
    unfold TLS_HANDSHAKE_RANDOM_LEN in H47; rewrite length_app, Hh3 in H47; cbn [length] in H47; [refused|].
  rewrite hello_fixed_st by (done || lens). cbn [mbind option_bind]. change (skip 2) with (skip (Z.of_nat 2)).
  set (w1 := ([1] ++ h3) ++ fixed_bytes random). assert (Hw1 : length w1 = 45%nat) by (unfold w1; lens).
  rewrite skip_st by (done || lia). set (h2 := take 2 (drop (length w1) b0)). assert (Hh2 : length h2 = 2%nat)
    by (unfold h2; rewrite length_take, length_drop; lia).
  pose proof (sni_step b0 name (w1 ++ h2) Hs Hn ltac:(lens) ltac:(lens)) as Hsni. rewrite !st_snd.
  destruct (Nat.leb_spec (length (w1 ++ h2) + length (sni_extension name)) (length b0)) as [Hfs|Hfs];
    rewrite length_app, Hw1, Hh2 in Hfs; [destruct Hsni as [Hc Hsni]; rewrite Hc|rewrite Hsni; refused].
  rewrite Hsni. cbn [mbind option_bind]; rewrite ?st_snd.
  assert (Hw : (w1 ++ h2) ++ sni_extension name = ([1] ++ h3 ++ fixed_bytes random) ++ h2 ++ sni_extension name)
    by (unfold w1; by rewrite <- !app_assoc).
  pose proof (hello_end_outcome random pk name h3 h2 b0 Hr Hp Hh3 Hh2 Hn Hs ltac:(lia)) as Hend.
  cbv zeta in Hend. rewrite Hlen, <- Hw in Hend. assert (length (w1 ++ h2) = 47%nat) as -> by lens.
  assert (length ([1] ++ h3) = 4%nat) as -> by lens. rewrite Hw1. exact Hend.
Qed.

Lemma client_hello_outcome_witness :
  let hello := client_hello (replicate 32 7) (4 :: replicate 64 9) [97; 46; 98] in
  if (length hello <=? length (replicate 200 0))%nat
  then BlorgTlsBuildClientHello (replicate 32 7) (4 :: replicate 64 9) [97; 46; 98] (replicate 200 0) =
       Some (STATUS_SUCCESS, Z.of_nat (length hello), hello ++ drop (length hello) (replicate 200 0))
  else hello_refused (replicate 200 0) (BlorgTlsBuildClientHello (replicate 32 7) (4 :: replicate 64 9) [97; 46; 98] (replicate 200 0)).
Proof. apply (client_hello_outcome (replicate 32 7) (4 :: replicate 64 9) [97; 46; 98] (replicate 200 0)); [reflexivity|reflexivity|cbn; lia|vm_compute; reflexivity]. Defined.
