(* ===== verification/TlsParse.v ===== *)
(** * TLS: the parsers never read outside a message

    Total correctness of the memory accesses of the message parsers on
    arbitrary bytes, and the shape of what they give back. *)

From S2P Require Import Prelude Buffers TlsCrypto TlsCodec.
#[local] Open Scope codec_scope.

Lemma get16_in_range l off :
  bytes_ok l -> 0 <= off -> off + 2 <= Z.of_nat (length l) -> exists v, TlsGetUint16 l off = Some v /\ 0 <= v < 65536.
Proof.
  intros Hb Ho Hl. unfold TlsGetUint16.
  destruct (rd_byte l off Hb ltac:(lia)) as (a & -> & Ha), (rd_byte l (off + 1) Hb ltac:(lia)) as (b & -> & Hbb).
  eexists. split; [reflexivity|]. apply u16_range.
Qed.

Lemma get24_in_range l off :
  bytes_ok l -> 0 <= off -> off + 3 <= Z.of_nat (length l) -> exists v, get_uint24 l off = Some v /\ 0 <= v < 16777216.
Proof.
  intros Hb Ho Hl. unfold get_uint24.
  destruct (rd_byte l off Hb ltac:(lia)) as (a & -> & Ha), (rd_byte l (off + 1) Hb ltac:(lia)) as (b & -> & Hbb),
    (rd_byte l (off + 2) Hb ltac:(lia)) as (c & -> & Hc). unfold is_byte in *.
  eexists. split; [reflexivity|].
  replace (Z.lor (Z.shiftl a 16) (Z.shiftl b 8)) with (Z.shiftl (a * 2 ^ 8 + b) 8).
  - rewrite lor_shiftl by (cbn; lia). lia.
  - rewrite <- lor_shiftl by (cbn; lia). rewrite Z.shiftl_lor, Z.shiftl_shiftl by lia. done.
Qed.

(** ** Results of a parser *)

(** Defined, and on success the outputs satisfy [Q]. *)
Definition safe {A} (m : P A) (Q : A -> Prop) : Prop :=
  match m with Some (Ok x) => Q x | Some (Err st) => st = STATUS_INVALID_PARAMETER | None => False end.

Lemma safe_then {A B} (m : P A) (k : A -> P B) Q R : safe m Q -> (forall x, Q x -> safe (k x) R) -> safe (pthen m k) R.
Proof. intros Hm Hk. destruct m as [[x|st]|]; [by apply Hk|done|done]. Qed.
Lemma safe_refuse {A} b (k : P A) Q : (b = false -> safe k Q) -> safe (refuse_if b k) Q.
Proof. destruct b; [done|]. auto. Qed.
Lemma safe_mono {A} (m : P A) Q R : safe m Q -> (forall x, Q x -> R x) -> safe m R.
Proof. unfold safe. destruct m as [[x|st]|]; auto. Qed.

Ltac refusals :=
  repeat match goal with
  | H : negb _ = false |- _ => apply negb_false_iff in H
  | H : _ || _ = false |- _ => apply orb_false_iff in H as [? H]
  | H : (_ <? _) = false |- _ => apply Z.ltb_ge in H
  | H : (_ <=? _) = true |- _ => apply Z.leb_le in H
  | H : (_ =? _) = true |- _ => apply Z.eqb_eq in H
  | H : (_ =? _) = false |- _ => apply Z.eqb_neq in H
  end.
Ltac refuse := apply safe_refuse; intros; refusals.

(** ** DER *)

Lemma der_len_loop_in_range n buf p len :
  bytes_ok buf -> 0 <= p -> p + Z.of_nat n <= Z.of_nat (length buf) -> 0 <= len < 4294967296 ->
  exists v, der_len_loop n buf p len = Some v /\ 0 <= v < 4294967296.
Proof.
  intros Hb. revert p len. induction n as [|n IH]; intros p len Hp Hl Hlen; [by eexists|]. cbn [der_len_loop].
  destruct (rd_byte buf p Hb ltac:(lia)) as (b & -> & _). apply IH; try lia. apply u32_range.
Qed.

(** A value span [(q, len)] inside [(p, e)]. *)
Definition span_in (p e : Z) (r : Z * Z) : Prop := p < r.1 /\ 0 <= r.2 /\ r.1 + r.2 <= e.

Section Der.
Context (buf : BYTES) (Hb : bytes_ok buf) (Hsmall : Z.of_nat (length buf) < 2147483648).

Lemma der_header_safe p e :
  0 <= p -> e <= Z.of_nat (length buf) ->
  exists r, der_header buf p e = Some r /\ match r with Some s => span_in p e s | None => True end.
Proof using Hb Hsmall.
  intros Hp He. unfold der_header. destruct (Z.leb_spec e p) as [|Hpe]; [by eexists|].
  destruct (rd_byte buf p Hb ltac:(lia)) as (b & -> & Hbb). cbn [mbind option_bind]. unfold is_byte in Hbb.
  assert (Hfin : forall q len, p < q <= e -> 0 <= len ->
    exists r, (if u32 (e - q) <? len then Some None else Some (Some (q, len))) = Some r /\ match r with Some s => span_in p e s | None => True end).
  { intros q len Hq Hlen. rewrite u32_id by lia. destruct (Z.ltb_spec (e - q) len); eexists; (split; [reflexivity|]); [done|].
    unfold span_in. cbn. lia. }
  destruct (Z.eqb_spec (Z.land b 128) 0) as [|_]; [apply Hfin; lia|].
  pose proof (Z.land_nonneg b 127) as Hn. set (lenBytes := Z.land b 127) in *.
  destruct ((lenBytes =? 0) || (2 <? lenBytes) || (u32 (e - (p + 1)) <? lenBytes)) eqn:E; [by eexists|]. refusals.
  rewrite u32_id in E by lia.
  destruct (der_len_loop_in_range (Z.to_nat lenBytes) buf (p + 1) 0 Hb) as (v & -> & Hv); try lia.
  cbn [mbind option_bind]. apply Hfin; lia.
Qed.

Lemma read_tlv_safe p e tag :
  0 <= p -> e <= Z.of_nat (length buf) -> safe (or_invalid (TlsDerReadTlv buf p e tag)) (span_in (p + 1) e).
Proof using Hb Hsmall.
  intros Hp He. unfold TlsDerReadTlv. destruct (Z.leb_spec e p); [done|].
  destruct (rd_byte buf p Hb ltac:(lia)) as (t & -> & _). cbn [mbind option_bind]. destruct (negb _); [done|].
  destruct (der_header_safe (p + 1) e ltac:(lia) He) as ([s|] & -> & Hs); done.
Qed.

Lemma skip_tlv_safe p e :
  0 <= p -> e <= Z.of_nat (length buf) -> safe (or_invalid (TlsDerSkipTlv buf p e)) (fun q => p < q <= e).
Proof using Hb Hsmall.
  intros Hp He. unfold TlsDerSkipTlv. destruct (Z.leb_spec e p); [done|].
  destruct (der_header_safe (p + 1) e ltac:(lia) He) as ([[q len]|] & -> & Hs); [|done]. unfold span_in in Hs. cbn in *. lia.
Qed.

Ltac skip_one := eapply safe_then; [by apply skip_tlv_safe; lia|]; cbv beta; intros ? ?.

Lemma extract_spki_safe :
  safe (BlorgTlsExtractSpkiFromCertificate buf) (fun r => 0 <= r.1 /\ 0 < r.2 /\ r.1 + r.2 <= Z.of_nat (length buf)).
Proof using Hb Hsmall.
  unfold BlorgTlsExtractSpkiFromCertificate. eapply safe_then; [by apply read_tlv_safe; lia|]. intros c [? [? ?]].
  eapply safe_then; [by apply read_tlv_safe; lia|]. intros t [? [? ?]].
  assert (Hv : exists v, (if t.1 <? t.1 + t.2 then rd buf t.1 else Some 0) = Some v).
  { destruct (Z.ltb_spec t.1 (t.1 + t.2)); [|by eexists]. destruct (rd_in_range buf t.1 ltac:(lia)) as [b ?]. by exists b. }
  destruct Hv as [v ->]. cbn [mbind option_bind].
  eapply (safe_then _ _ (fun p => t.1 <= p <= t.1 + t.2)).
  { destruct (_ && _); [|cbn; lia]. eapply safe_mono; [by apply skip_tlv_safe; lia|]. cbn; intros; lia. }
  intros p Hp. do 5 skip_one. eapply safe_then; [by apply read_tlv_safe; lia|]. intros s [? [? ?]]. cbn. rewrite u32_id by lia. lia.
Qed.

Lemma strip_sign_safe start len :
  0 <= start -> 0 <= len -> start + len <= Z.of_nat (length buf) ->
  exists r, strip_sign buf start len = Some r /\ 0 <= r.1 /\ 0 <= r.2 /\ r.1 + r.2 <= Z.of_nat (length buf).
Proof using Hb.
  intros. unfold strip_sign. destruct (Z.eqb_spec len 33); [|eexists; split; [done|cbn; lia]].
  destruct (rd_byte buf start Hb ltac:(lia)) as (b & -> & _). cbn [mbind option_bind]. eexists. split; [done|].
  destruct (b =? 0); cbn; lia.
Qed.

Lemma parse_verify_safe : safe (BlorgTlsParseCertificateVerifyMessage buf) (fun r => length r = 64%nat).
Proof using Hb Hsmall.
  unfold BlorgTlsParseCertificateVerifyMessage. refuse. destruct (get16_in_range buf 0 Hb ltac:(lia) ltac:(lia)) as (a & -> & _).
  cbn [mbind option_bind]. refuse. destruct (get16_in_range buf 2 Hb ltac:(lia) ltac:(lia)) as (sigLen & -> & _).
  cbn [mbind option_bind]. refuse.
  eapply safe_then; [by apply read_tlv_safe; lia|]. intros q [? [? ?]].
  eapply safe_then; [by apply read_tlv_safe; lia|]. intros r [? [? ?]].
  eapply safe_then; [by apply read_tlv_safe; lia|]. intros t [? [? ?]].
  destruct (strip_sign_safe r.1 r.2 ltac:(lia) ltac:(lia) ltac:(lia)) as (r' & -> & ? & ? & ?). cbn [mbind option_bind].
  destruct (strip_sign_safe t.1 t.2 ltac:(lia) ltac:(lia) ltac:(lia)) as (t' & -> & ? & ? & ?). cbn [mbind option_bind].
  refuse. rewrite !rd_list_in_range by lia. cbn [mbind option_bind].
  destruct (wr_list_in_range (replicate 64 0) (32 - r'.2) (take (Z.to_nat r'.2) (drop (Z.to_nat r'.1) buf))) as (o & -> & Ho);
    [lia|rewrite length_take, length_drop, length_replicate; lia|]. cbn [mbind option_bind].
  destruct (wr_list_in_range o (32 + (32 - t'.2)) (take (Z.to_nat t'.2) (drop (Z.to_nat t'.1) buf))) as (o' & -> & Ho');
    [lia|rewrite length_take, length_drop, Ho, length_replicate; lia|]. cbn. by rewrite Ho', Ho, length_replicate.
Qed.
End Der.

(** ** ServerHello and Certificate *)

Definition scan_ok (h : HELLO_SCAN) : Prop :=
  foundKeyShare h = true -> length (ServerPublicKeyOut h) = 65%nat /\ ServerPublicKeyOut h !! 0%nat = Some 4.

Section Hello.
Context (msg : BYTES) (Hb : bytes_ok msg) (Hsmall : Z.of_nat (length msg) < 2147483648).

Lemma scan_one_safe ty off len h :
  0 <= off -> 0 <= len -> off + len <= Z.of_nat (length msg) -> scan_ok h -> safe (scan_one msg ty off len h) scan_ok.
Proof using Hb.
  intros Ho Hl He Hh. unfold scan_one. destruct (ty =? _); [|destruct (ty =? _); [|done]].
  - unfold scan_versions. refuse. destruct (get16_in_range msg off Hb ltac:(lia) ltac:(lia)) as (v & -> & _). cbn [mbind option_bind].
    refuse. done.
  - unfold scan_key_share, TLS_ECC_PUBKEY_LEN. refuse. destruct (get16_in_range msg off Hb ltac:(lia) ltac:(lia)) as (v & -> & _).
    cbn [mbind option_bind]. refuse. destruct (get16_in_range msg (off + 2) Hb ltac:(lia) ltac:(lia)) as (n & -> & _).
    cbn [mbind option_bind]. refuse. rewrite rd_list_in_range by lia. cbn [mbind option_bind]. set (pk := take _ _).
    assert (Hpk : length pk = 65%nat) by (unfold pk; rewrite length_take, length_drop; lia).
    destruct (rd pk 0) as [b|] eqn:E; cbn [mbind option_bind]; [|destruct (rd_in_range pk 0 ltac:(lia)); congruence].
    refuse. subst b. intros _. by split.
Qed.

Lemma scan_extensions_safe fuel off e h :
  0 <= off <= e -> e <= Z.of_nat (length msg) -> e - off < Z.of_nat fuel -> scan_ok h ->
  safe (scan_extensions fuel msg off e h) scan_ok.
Proof using Hb Hsmall.
  revert off h. induction fuel as [|fuel IH]; intros off h Ho He Hf Hh; [lia|]. cbn [scan_extensions].
  rewrite (u32_id (off + 4)) by lia. destruct (Z.leb_spec (off + 4) e); [|done].
  destruct (get16_in_range msg off Hb ltac:(lia) ltac:(lia)) as (ty & -> & _). cbn [mbind option_bind].
  destruct (get16_in_range msg (off + 2) Hb ltac:(lia) ltac:(lia)) as (len & -> & Hlen). cbn [mbind option_bind].
  rewrite (u32_id (off + 4 + len)) by lia. refuse.
  eapply safe_then; [apply scan_one_safe; [..|exact Hh]; lia|]. intros h' Hh'. apply IH; done || lia.
Qed.

Lemma parse_server_hello_safe :
  safe (BlorgTlsParseServerHello msg) (fun r => length r.1 = 32%nat /\ length r.2 = 65%nat /\ r.2 !! 0%nat = Some 4).
Proof using Hb Hsmall.
  unfold BlorgTlsParseServerHello, TLS_HANDSHAKE_RANDOM_LEN. refuse. rewrite rd_list_in_range by lia. cbn [mbind option_bind].
  destruct (rd_byte msg (2 + 32) Hb ltac:(lia)) as (n & -> & Hn). cbn [mbind option_bind]. unfold is_byte in Hn.
  rewrite (u32_id (2 + 32 + 1 + n)) by lia. refuse. rewrite (u32_id (2 + 32 + 1 + n + 2)) by lia. refuse.
  destruct (get16_in_range msg (2 + 32 + 1 + n) Hb ltac:(lia) ltac:(lia)) as (s & -> & _). cbn [mbind option_bind]. refuse.
  rewrite (u32_id (2 + 32 + 1 + n + 2 + 1)) by lia. rewrite (u32_id (2 + 32 + 1 + n + 2 + 1 + 2)) by lia. refuse.
  destruct (get16_in_range msg (2 + 32 + 1 + n + 2 + 1) Hb ltac:(lia) ltac:(lia)) as (e & -> & He). cbn [mbind option_bind].
  rewrite (u32_id (2 + 32 + 1 + n + 2 + 1 + 2 + e)) by lia. refuse.
  eapply safe_then; [apply scan_extensions_safe; [lia|lia|lia|done]|]. intros h Hh. refuse.
  cbn. split; [rewrite length_take, length_drop; lia|]. by apply Hh.
Qed.

Lemma parse_certificate_safe :
  safe (BlorgTlsParseCertificateMessage msg) (fun r => 0 <= r.1 /\ 0 <= r.2 /\ r.1 + r.2 <= Z.of_nat (length msg)).
Proof using Hb Hsmall.
  unfold BlorgTlsParseCertificateMessage. refuse. destruct (rd_byte msg 0 Hb ltac:(lia)) as (n & -> & Hn). unfold is_byte in Hn.
  cbn [mbind option_bind]. rewrite (u32_id (1 + n + 3)) by lia. refuse.
  destruct (get24_in_range msg (1 + n) Hb ltac:(lia) ltac:(lia)) as (l & -> & Hl). cbn [mbind option_bind].
  rewrite (u32_id (1 + n + 3 + l)) by lia. refuse.
  destruct (get24_in_range msg (1 + n + 3) Hb ltac:(lia) ltac:(lia)) as (d & -> & Hd). cbn [mbind option_bind].
  rewrite (u32_id (1 + n + 3 + 3)) by lia. rewrite (u32_id (1 + n + 3 + 3 + d)) by lia. refuse. cbn. lia.
Qed.
End Hello.

(** On any bytes at all, the ServerHello, Certificate, certificate and
    CertificateVerify parsers read only inside the message, and either refuse
    it with [STATUS_INVALID_PARAMETER] or return outputs of the right size:
    a 32-byte random with an uncompressed 65-byte point, spans that lie inside
    the message, a 64-byte signature. *)
Theorem handshake_parsers_stay_inside msg :
  bytes_ok msg -> Z.of_nat (length msg) < 2147483648 ->
  safe (BlorgTlsParseServerHello msg) (fun r => length r.1 = 32%nat /\ length r.2 = 65%nat /\ r.2 !! 0%nat = Some 4) /\
  safe (BlorgTlsParseCertificateMessage msg) (fun r => 0 <= r.1 /\ 0 <= r.2 /\ r.1 + r.2 <= Z.of_nat (length msg)) /\
  safe (BlorgTlsExtractSpkiFromCertificate msg) (fun r => 0 <= r.1 /\ 0 < r.2 /\ r.1 + r.2 <= Z.of_nat (length msg)) /\
  safe (BlorgTlsParseCertificateVerifyMessage msg) (fun r => length r = 64%nat).
Proof.
  intros Hb Hs. split_and!; [by apply parse_server_hello_safe|by apply parse_certificate_safe|by apply extract_spki_safe|by apply parse_verify_safe].
Qed.

(** A certificate message whose leaf claims one byte more than there is. *)
Definition short_certificate : BYTES := [0; 0; 0; 5; 0; 0; 3; 48; 0].
Lemma handshake_parsers_stay_inside_witness :
  safe (BlorgTlsParseServerHello short_certificate) (fun r => length r.1 = 32%nat /\ length r.2 = 65%nat /\ r.2 !! 0%nat = Some 4) /\
  safe (BlorgTlsParseCertificateMessage short_certificate) (fun r => 0 <= r.1 /\ 0 <= r.2 /\ r.1 + r.2 <= Z.of_nat (length short_certificate)) /\
  safe (BlorgTlsExtractSpkiFromCertificate short_certificate) (fun r => 0 <= r.1 /\ 0 < r.2 /\ r.1 + r.2 <= Z.of_nat (length short_certificate)) /\
  safe (BlorgTlsParseCertificateVerifyMessage short_certificate) (fun r => length r = 64%nat).
Proof. apply (handshake_parsers_stay_inside short_certificate); [repeat (apply Forall_cons; split; [unfold is_byte; lia|]); apply Forall_nil; exact I|vm_compute; reflexivity]. Defined.
