(* ===== verification/TlsRoundTrip.v ===== *)
(** * TLS: the parsers read what the grammar writes

    The messages of the server side as encoders, and the theorems that the
    driver's parsers invert them: a ServerHello with any extensions, a
    certificate with any fields around its key, a DER signature. *)

From S2P Require Import Prelude Buffers TlsCrypto TlsCodec TlsClientHello TlsParse.
#[local] Open Scope codec_scope.

(** ** Wire integers *)

Lemma put16_value v : 0 <= v < 65536 -> TlsPutUint16 v = [v / 256; v mod 256].
Proof.
  intros Hv. unfold TlsPutUint16. change 255 with (Z.ones 8). rewrite Z.shiftr_div_pow2, (Z.land_ones v 8) by lia.
  change (2 ^ 8) with 256. rewrite !u8_id; [done| |]; [apply Z.mod_pos_bound; lia|]. split; [apply Z.div_pos; lia|].
  apply Z.div_lt_upper_bound; lia.
Qed.

Lemma put24_value v : 0 <= v < 16777216 -> TlsPutUint24 v = [v / 65536; v / 256 mod 256; v mod 256].
Proof.
  intros Hv. unfold TlsPutUint24. change 255 with (Z.ones 8). rewrite !(Z.land_ones _ 8), !Z.shiftr_div_pow2 by lia.
  change (2 ^ 8) with 256. change (2 ^ 16) with 65536. rewrite !u8_id by (apply Z.mod_pos_bound; lia).
  rewrite (Z.mod_small (v / 65536)); [done|]. split; [apply Z.div_pos; lia|apply Z.div_lt_upper_bound; lia].
Qed.

Lemma get16_sits buf off a b l :
  sits buf off (a :: b :: l) -> is_byte a -> is_byte b -> TlsGetUint16 buf off = Some (a * 256 + b).
Proof.
  intros Hs Ha Hb. unfold TlsGetUint16. rewrite (sits_rd _ _ _ _ Hs). cbn [mbind option_bind].
  change (a :: b :: l) with ([a] ++ b :: l) in Hs. apply sits_app in Hs as [_ Hs].
  change (Z.of_nat (length [a])) with 1 in Hs. rewrite (sits_rd _ _ _ _ Hs). cbn [mbind option_bind]. unfold is_byte in *.
  rewrite lor_shiftl by (cbn; lia). rewrite u16_id; [done|cbn; lia].
Qed.

Lemma get16_put16 buf off v : 0 <= v < 65536 -> sits buf off (TlsPutUint16 v) -> TlsGetUint16 buf off = Some v.
Proof.
  intros Hv Hs. rewrite put16_value in Hs by done. apply get16_sits in Hs as ->.
  - f_equal. pose proof (Z.div_mod v 256). lia.
  - unfold is_byte. split; [apply Z.div_pos; lia|apply Z.div_lt_upper_bound; lia].
  - apply Z.mod_pos_bound. lia.
Qed.

Lemma get24_put24 buf off v : 0 <= v < 16777216 -> sits buf off (TlsPutUint24 v) -> get_uint24 buf off = Some v.
Proof.
  intros Hv Hs. rewrite put24_value in Hs by done. unfold get_uint24.
  change [v / 65536; v / 256 mod 256; v mod 256] with ([v / 65536] ++ [v / 256 mod 256] ++ [v mod 256]) in Hs. splits.
  rewrite <- Z.add_assoc in Hs. cbn in *.
  erewrite !sits_rd by eassumption. cbn [mbind option_bind].
  pose proof (Z.mod_pos_bound (v / 256) 256). pose proof (Z.mod_pos_bound v 256).
  f_equal. replace (Z.lor (Z.shiftl (v / 65536) 16) (Z.shiftl (v / 256 mod 256) 8)) with (Z.shiftl (v / 65536 * 2 ^ 8 + v / 256 mod 256) 8).
  - rewrite lor_shiftl by (change (2 ^ 8) with 256; lia). pose proof (Z.div_mod v 256 ltac:(lia)). pose proof (Z.div_mod (v / 256) 256 ltac:(lia)).
    assert (v / 65536 = v / 256 / 256) as -> by (by rewrite Z.div_div by lia). change (2 ^ 8) with 256. lia.
  - rewrite <- lor_shiftl by (change (2 ^ 8) with 256; lia). rewrite Z.shiftl_lor, Z.shiftl_shiftl by lia. done.
Qed.

(** ** ServerHello *)

Abbreviation EXT := (Z * BYTES)%type.
Definition encode_exts (exts : list EXT) : BYTES := concat ((fun x => extension x.1 x.2) <$> exts).

Definition server_hello (random sid : BYTES) (exts : list EXT) : BYTES :=
  [3; 3] ++ random ++ [Z.of_nat (length sid)] ++ sid ++ TlsPutUint16 TLS_CIPHER_SUITE_AES_128_GCM_SHA256 ++ [0] ++
  vec16 (encode_exts exts).

Definition ext_wf (x : EXT) : Prop := 0 <= x.1 < 65536 /\ Z.of_nat (length x.2) < 65536 /\ bytes_ok x.2.

(** What the driver asks of an extension it knows: TLS 1.3 as the version,
    and an uncompressed point on the one group it offered. *)
Definition accept (x : EXT) (h : HELLO_SCAN) : option HELLO_SCAN :=
  let '(ty, c) := x in
  if ty =? TLS_EXT_SUPPORTED_VERSIONS then
    if decide (c = TlsPutUint16 TLS_VERSION_1_3) then Some (mkScan true (foundKeyShare h) (ServerPublicKeyOut h)) else None
  else if ty =? TLS_EXT_KEY_SHARE then
    if decide (take 5 c = TlsPutUint16 TLS_GROUP_SECP256R1 ++ TlsPutUint16 TLS_ECC_PUBKEY_LEN ++ [4] /\ length c = 69%nat)
    then Some (mkScan (foundVersion h) true (drop 4 c)) else None
  else Some h.

Fixpoint negotiate (exts : list EXT) (h : HELLO_SCAN) : option HELLO_SCAN :=
  match exts with
  | [] => Some h
  | x :: exts => match accept x h with Some h => negotiate exts h | None => None end
  end.

Definition accepted {A} (r : option A) : P A := match r with Some x => Some (Ok x) | None => Some (Err STATUS_INVALID_PARAMETER) end.

(** A test on a big-endian pair is a test on its two bytes. *)
Lemma word_eqb a b v : is_byte a -> is_byte b -> (a * 256 + b =? v) = bool_decide (a = v / 256 /\ b = v mod 256).
Proof.
  unfold is_byte. intros Ha Hb. destruct (Z.eqb_spec (a * 256 + b) v) as [<-|Hne]; symmetry.
  - apply bool_decide_true. rewrite Z.div_add_l, Z.div_small by lia. rewrite (Z.add_comm (a * 256)), Z_mod_plus_full, Z.mod_small by lia. lia.
  - apply bool_decide_false. intros [-> ->]. apply Hne. pose proof (Z.div_mod v 256). lia.
Qed.

Lemma scan_versions_accept msg off c h :
  sits msg off c -> bytes_ok c ->
  scan_versions msg off (Z.of_nat (length c)) h = accepted (accept (TLS_EXT_SUPPORTED_VERSIONS, c) h).
Proof.
  intros Hs Hb. unfold scan_versions, accept. cbn [Z.eqb TLS_EXT_SUPPORTED_VERSIONS]. destruct c as [|a [|b [|]]]; [by rewrite decide_False|by rewrite decide_False| |].
  - apply bytes_cons in Hb as [Ha [Hb _]%bytes_cons]. rewrite (get16_sits _ _ _ _ _ Hs Ha Hb). cbn [mbind option_bind length refuse_if Z.of_nat negb Z.eqb].
    rewrite word_eqb by done. rewrite put16_value by (unfold TLS_VERSION_1_3; lia). cbn [refuse_if].
    case_bool_decide as E; case_decide as E'; try done; exfalso; [destruct E as [-> ->]; done|]. apply E. by injection E' as -> ->.
  - match goal with |- context [Z.of_nat ?n =? 2] => destruct (Z.eqb_spec (Z.of_nat n) 2) as [E|_]; [cbn [length] in E; lia|] end. cbn [negb refuse_if]. by rewrite decide_False.
Qed.

Lemma scan_key_share_accept msg off c h :
  sits msg off c -> bytes_ok c ->
  scan_key_share msg off (Z.of_nat (length c)) h = accepted (accept (TLS_EXT_KEY_SHARE, c) h).
Proof.
  intros Hs Hb. unfold scan_key_share, accept. change (TLS_EXT_KEY_SHARE =? TLS_EXT_SUPPORTED_VERSIONS) with false.
  change (TLS_EXT_KEY_SHARE =? TLS_EXT_KEY_SHARE) with true. cbv iota. unfold TLS_ECC_PUBKEY_LEN.
  destruct (Z.eqb_spec (Z.of_nat (length c)) (2 + 2 + 65)) as [Hl|Hl]; cbn [negb refuse_if];
    [|rewrite decide_False; [done|]; intros [_ H]; lia].
  destruct c as [|a [|b [|x [|y c]]]]; cbn [length] in Hl; try lia.
  apply bytes_cons in Hb as [Ha [Hbb [Hx [Hy Hc]%bytes_cons]%bytes_cons]%bytes_cons].
  rewrite (get16_sits _ _ _ _ _ Hs Ha Hbb). cbn [mbind option_bind].
  change (a :: b :: x :: y :: c) with ([a; b] ++ [x; y] ++ c) in Hs. splits.
  change (Z.of_nat (length [a; b])) with 2 in *. change (Z.of_nat (length [x; y])) with 2 in *.
  rewrite (get16_sits msg (off + 2) x y []) by done. cbn [mbind option_bind]. rewrite <- Z.add_assoc in Hs. change (2 + 2) with 4 in Hs.
  rewrite (sits_list _ _ _ 65 Hs) by lia. cbn [mbind option_bind]. rewrite !word_eqb by done.
  rewrite !put16_value by (unfold TLS_GROUP_SECP256R1; lia).
  destruct c as [|z c]; [cbn [length] in Hl; lia|]. cbn [rd Z.leb Z.compare Z.to_nat lookup list_lookup mbind option_bind take app drop].
  unfold TLS_GROUP_SECP256R1. cbn [refuse_if].
  assert (Hiff : (a = 23 / 256 /\ b = 23 mod 256) /\ (x = 65 / 256 /\ y = 65 mod 256) /\ z = 4 <->
                 [a; b; x; y; z] = [23 / 256; 23 mod 256; 65 / 256; 65 mod 256; 4] /\ length (a :: b :: x :: y :: z :: c) = 69%nat).
  { split; [intros ([-> ->] & [-> ->] & ->); split; [done|cbn [length] in *; lia]|]. by intros [[= -> -> -> -> ->] _]. }
  destruct (decide _) as [E|E]; [apply Hiff in E as (E1 & E2 & ->); by rewrite !bool_decide_true by done|].
  case_bool_decide as E1; cbn [negb refuse_if]; [|done]. case_bool_decide as E2; cbn [negb refuse_if]; [|done].
  change ((z :: c) !! Z.to_nat 0) with (Some z). cbn [mbind option_bind]. destruct (Z.eqb_spec z 4) as [->|]; [|done]. exfalso. apply E, Hiff. done.
Qed.

Lemma scan_one_accept msg off ty c h :
  sits msg off c -> bytes_ok c -> scan_one msg ty off (Z.of_nat (length c)) h = accepted (accept (ty, c) h).
Proof.
  intros Hs Hb. unfold scan_one.
  destruct (Z.eqb_spec ty TLS_EXT_SUPPORTED_VERSIONS) as [->|Hv]; [by apply scan_versions_accept|].
  destruct (Z.eqb_spec ty TLS_EXT_KEY_SHARE) as [->|Hk]; [by apply scan_key_share_accept|].
  unfold accept. apply Z.eqb_neq in Hv, Hk. by rewrite Hv, Hk.
Qed.

Lemma length_extension ty c : length (extension ty c) = (4 + length c)%nat.
Proof. unfold extension, vec16. by rewrite !length_app. Qed.

Lemma scan_extensions_negotiate fuel msg off exts h :
  Z.of_nat (length msg) < 2147483648 -> sits msg off (encode_exts exts) -> Forall ext_wf exts -> (length exts < fuel)%nat ->
  scan_extensions fuel msg off (off + Z.of_nat (length (encode_exts exts))) h = accepted (negotiate exts h).
Proof.
  intros Hm. revert off exts h. induction fuel as [|fuel IH]; intros off exts h Hs Hwf Hf; [lia|]. cbn [scan_extensions].
  pose proof (sits_bound _ _ _ Hs) as Hbd. destruct exts as [|[ty c] exts].
  { cbn [encode_exts fmap list_fmap concat length] in *. rewrite u32_id by lia. destruct (Z.leb_spec (off + 4) (off + Z.of_nat 0)); [lia|]. done. }
  apply Forall_cons in Hwf as [(Hty & Hlc & Hbc) Hwf]. cbn [fst snd] in *. cbn [length] in Hf.
  assert (He : encode_exts ((ty, c) :: exts) = extension ty c ++ encode_exts exts) by done. rewrite He in Hs, Hbd |- *.
  rewrite length_app, length_extension in Hbd |- *. rewrite (u32_id (off + 4)) by lia.
  destruct (Z.leb_spec (off + 4) (off + Z.of_nat (4 + length c + length (encode_exts exts)))); [|lia].
  apply sits_app in Hs as [Hx Hs]. unfold extension, vec16 in Hx. splits.
  rewrite length_extension in Hs.
  change (Z.of_nat (length (TlsPutUint16 ty))) with 2 in *. change (Z.of_nat (length (TlsPutUint16 (Z.of_nat (length c))))) with 2 in *.
  rewrite (get16_put16 msg off ty) by done. cbn [mbind option_bind].
  rewrite (get16_put16 msg (off + 2) (Z.of_nat (length c))) by (done || lia). cbn [mbind option_bind].
  rewrite (u32_id (off + 4 + Z.of_nat (length c))) by lia.
  destruct (Z.ltb_spec (off + Z.of_nat (4 + length c + length (encode_exts exts))) (off + 4 + Z.of_nat (length c))); [lia|]. cbn [refuse_if].
  rewrite <- Z.add_assoc in Hx. change (2 + 2) with 4 in Hx. rewrite scan_one_accept by done. cbn [negotiate].
  destruct (accept (ty, c) h) as [h'|]; [|done]. cbn [accepted pthen].
  specialize (IH (off + Z.of_nat (4 + length c)) exts h' Hs Hwf ltac:(lia)).
  replace (off + 4 + Z.of_nat (length c)) with (off + Z.of_nat (4 + length c)) by lia.
  replace (off + Z.of_nat (4 + length c + length (encode_exts exts))) with (off + Z.of_nat (4 + length c) + Z.of_nat (length (encode_exts exts))) by lia.
  exact IH.
Qed.

(** A ServerHello on the offered suite, with any session id and any
    extensions, parses to what its extensions say: refused if one it knows
    does not say TLS 1.3 or an uncompressed secp256r1 point, or if either is
    missing, and otherwise its random and the key share that came last. *)
Theorem server_hello_parsed random sid exts :
  length random = 32%nat -> (length sid <= 255)%nat -> Forall ext_wf exts -> Z.of_nat (length (encode_exts exts)) < 65536 ->
  BlorgTlsParseServerHello (server_hello random sid exts) =
  match negotiate exts (mkScan false false []) with
  | Some h => if foundVersion h && foundKeyShare h then Some (Ok (random, ServerPublicKeyOut h)) else Some (Err STATUS_INVALID_PARAMETER)
  | None => Some (Err STATUS_INVALID_PARAMETER)
  end.
Proof.
  intros Hr Hsid Hwf Hx. set (msg := server_hello random sid exts). pose proof (sits_whole msg) as Hs.
  assert (Hlen : length msg = (40 + length sid + length (encode_exts exts))%nat).
  { unfold msg, server_hello, vec16. rewrite !length_app, Hr. cbn [length TlsPutUint16]. lia. }
  unfold msg at 2, server_hello, vec16 in Hs. splits. rewrite Hr in *.
  change (Z.of_nat (length [3; 3])) with 2 in *. change (Z.of_nat 32) with 32 in *.
  change (Z.of_nat (length [Z.of_nat (length sid)])) with 1 in *. change (Z.of_nat (length [0])) with 1 in *.
  repeat match goal with H : context [Z.of_nat (length (TlsPutUint16 ?v))] |- _ => change (Z.of_nat (length (TlsPutUint16 v))) with 2 in H end.
  rewrite Z.add_0_l in *. unfold BlorgTlsParseServerHello, TLS_HANDSHAKE_RANDOM_LEN.
  set (n := Z.of_nat (length sid)) in *. set (m := Z.of_nat (length (encode_exts exts))) in *.
  assert (Hm : Z.of_nat (length msg) = 40 + n + m) by lia. rewrite !Hm.
  destruct (Z.ltb_spec (40 + n + m) (2 + 32 + 1 + 2 + 1 + 2)); [lia|]. cbn [refuse_if].
  erewrite sits_list by (eassumption || lia). cbn [mbind option_bind]. erewrite sits_rd by eassumption. cbn [mbind option_bind].
  rewrite !(u32_id (2 + 32 + 1 + n)) by lia. destruct (Z.ltb_spec (40 + n + m) (2 + 32 + 1 + n)); [lia|]. cbn [refuse_if].
  rewrite !(u32_id (2 + 32 + 1 + n + 2)) by lia. destruct (Z.ltb_spec (40 + n + m) (2 + 32 + 1 + n + 2)); [lia|]. cbn [refuse_if].
  rewrite (get16_put16 msg (2 + 32 + 1 + n) TLS_CIPHER_SUITE_AES_128_GCM_SHA256) by (done || (unfold TLS_CIPHER_SUITE_AES_128_GCM_SHA256; lia)). cbn [mbind option_bind].
  rewrite Z.eqb_refl. cbn [negb refuse_if]. rewrite !(u32_id (2 + 32 + 1 + n + 2 + 1)) by lia.
  rewrite !(u32_id (2 + 32 + 1 + n + 2 + 1 + 2)) by lia. destruct (Z.ltb_spec (40 + n + m) (2 + 32 + 1 + n + 2 + 1 + 2)); [lia|]. cbn [refuse_if].
  rewrite (get16_put16 msg (2 + 32 + 1 + n + 2 + 1) m) by (done || lia). cbn [mbind option_bind].
  rewrite !(u32_id (2 + 32 + 1 + n + 2 + 1 + 2 + m)) by lia. destruct (Z.ltb_spec (40 + n + m) (2 + 32 + 1 + n + 2 + 1 + 2 + m)); [lia|]. cbn [refuse_if].
  unfold m. rewrite scan_extensions_negotiate; [|lia|done|done|].
  - destruct (negotiate exts _) as [h|]; [|done]. cbn [accepted pthen]. by destruct (foundVersion h), (foundKeyShare h).
  - rewrite Hlen. enough (length exts <= length (encode_exts exts))%nat by lia. clear. induction exts as [|[ty c] exts IH]; [done|].
    change (encode_exts ((ty, c) :: exts)) with (extension ty c ++ encode_exts exts). rewrite length_app, length_extension. cbn [length]. lia.
Qed.

Definition good_exts : list EXT :=
  [(TLS_EXT_SUPPORTED_VERSIONS, [3; 4]); (99, [1]); (TLS_EXT_KEY_SHARE, [0; 23; 0; 65; 4] ++ replicate 64 9)].
Lemma server_hello_parsed_witness :
  BlorgTlsParseServerHello (server_hello (replicate 32 1) [5; 6] good_exts) = Some (Ok (replicate 32 1, 4 :: replicate 64 9)).
Proof.
  refine (eq_trans (server_hello_parsed (replicate 32 1) [5; 6] good_exts _ _ _ _) _); [reflexivity|cbn; lia| |vm_compute; reflexivity|vm_compute; reflexivity].
  unfold ext_wf, good_exts. repeat (apply Forall_cons; split; [split; [vm_compute; split; [discriminate|reflexivity]|split; [vm_compute; reflexivity|]]|]);
    [repeat (apply Forall_cons; split; [unfold is_byte; lia|])..|apply Forall_nil; exact I]; apply Forall_nil; exact I.
Defined.
