(* ===== verification/TlsDer.v ===== *)
(** * TLS: DER, certificates and signatures

    DER TLVs as an encoder; certificates, SubjectPublicKeyInfo and
    CertificateVerify messages built from it; and the theorems that the
    driver recovers the key and the signature they carry. *)

From S2P Require Import Prelude Buffers TlsCrypto TlsCodec TlsClientHello TlsParse TlsRoundTrip.
#[local] Open Scope codec_scope.

(** ** TLVs *)

Definition der_len (n : Z) : BYTES :=
  if n <? 128 then [n] else if n <? 256 then [129; n] else [130; n / 256; n mod 256].
Definition tlv (tag : Z) (c : BYTES) : BYTES := [tag] ++ der_len (Z.of_nat (length c)) ++ c.

Lemma land_low b : 0 <= b < 128 -> Z.land b 128 = 0.
Proof.
  intros Hb. apply Z.bits_inj'. intros n Hn. rewrite Z.land_spec, Z.bits_0. change 128 with (2 ^ 7).
  destruct (Z.eq_dec n 7) as [->|]; [|rewrite Z.pow2_bits_false by lia; apply andb_false_r].
  rewrite <- (Z.mod_small b (2 ^ 7)) by (cbn; lia). by rewrite Z.mod_pow2_bits_high by lia.
Qed.

Lemma length_der_len n : length (der_len n) = if n <? 128 then 1%nat else if n <? 256 then 2%nat else 3%nat.
Proof. unfold der_len. by destruct (n <? 128), (n <? 256). Qed.

Lemma length_tlv tag c : Z.of_nat (length (tlv tag c)) = 1 + Z.of_nat (length (der_len (Z.of_nat (length c)))) + Z.of_nat (length c).
Proof. unfold tlv. rewrite !length_app. cbn [length]. lia. Qed.

Section Der.
Context (buf : BYTES) (Hsmall : Z.of_nat (length buf) < 2147483648).

Lemma der_header_tlv p e (n : Z) c :
  sits buf p (der_len n ++ c) -> n = Z.of_nat (length c) -> n < 65536 -> p + Z.of_nat (length (der_len n)) + n <= e -> e <= Z.of_nat (length buf) ->
  der_header buf p e = Some (Some (p + Z.of_nat (length (der_len n)), n)).
Proof using Hsmall.
  intros Hs Hn Hlt He Hb. pose proof (sits_bound _ _ _ Hs) as [Hp _]. apply sits_app in Hs as [Hs _]. rewrite length_der_len in *.
  unfold der_header, der_len in *.
  destruct (Z.ltb_spec n 128) as [H1|H1].
  - destruct (Z.leb_spec e p); [lia|]. rewrite (sits_rd _ _ _ _ Hs). cbn [mbind option_bind]. rewrite land_low by lia. cbn [Z.eqb mbind option_bind].
    rewrite u32_id by lia. destruct (Z.ltb_spec (e - (p + 1)) n); [lia|]. done.
  - destruct (Z.leb_spec e p); [lia|]. destruct (Z.ltb_spec n 256) as [H2|H2].
    + rewrite (sits_rd _ _ _ _ Hs). cbn [mbind option_bind].
      change (Z.land 129 128 =? 0) with false. change (Z.land 129 127) with 1. cbv iota zeta.
      rewrite u32_id by lia. destruct (Z.ltb_spec (e - (p + 1)) 1); [lia|].
      change [129; n] with ([129] ++ [n]) in Hs. splits. change (Z.of_nat (length [129])) with 1 in Hs. change ((1 =? 0) || (2 <? 1) || false) with false.
      change (Z.to_nat 1) with 1%nat. cbn [der_len_loop].
      rewrite (sits_rd _ _ _ _ Hs). cbn [mbind option_bind der_len_loop]. rewrite Z.shiftl_0_l, Z.lor_0_l. cbn [mbind option_bind]. rewrite !u32_id by lia.
      destruct (Z.ltb_spec (e - (p + 1 + 1)) n); [lia|]. do 3 f_equal. lia.
    + rewrite (sits_rd _ _ _ _ Hs). cbn [mbind option_bind].
      change (Z.land 130 128 =? 0) with false. change (Z.land 130 127) with 2. cbv iota zeta.
      rewrite u32_id by lia. destruct (Z.ltb_spec (e - (p + 1)) 2); [lia|].
      change [130; n / 256; n mod 256] with ([130] ++ [n / 256] ++ [n mod 256]) in Hs. splits.
      change (Z.of_nat (length [130])) with 1 in *. change (Z.of_nat (length [n / 256])) with 1 in *.
      change ((2 =? 0) || (2 <? 2) || false) with false.
      change (Z.to_nat 2) with 2%nat. cbn [der_len_loop].
      erewrite (sits_rd _ (p + 1)) by eassumption. cbn [mbind option_bind]. erewrite (sits_rd _ (p + 1 + 1)) by eassumption. cbn [mbind option_bind].
      pose proof (Z.mod_pos_bound n 256 ltac:(lia)). assert (0 <= n / 256 < 256) by (split; [apply Z.div_pos; lia|apply Z.div_lt_upper_bound; lia]).
      rewrite Z.shiftl_0_l, Z.lor_0_l, (u32_id (n / 256)) by lia. rewrite lor_shiftl by (change (2 ^ 8) with 256; lia). change (2 ^ 8) with 256.
      replace (n / 256 * 256 + n mod 256) with n by (pose proof (Z.div_mod n 256); lia). cbn [der_len_loop mbind option_bind]. rewrite !u32_id by lia.
      destruct (Z.ltb_spec (e - (p + 1 + 2)) n); [lia|]. do 3 f_equal. lia.
Qed.

(** The offset of the value of a TLV at [p]. *)
Definition value_at (p : Z) (c : BYTES) : Z := p + 1 + Z.of_nat (length (der_len (Z.of_nat (length c)))).

Lemma read_tlv_tlv p e tag c :
  sits buf p (tlv tag c) -> Z.of_nat (length c) < 65536 -> p + Z.of_nat (length (tlv tag c)) <= e -> e <= Z.of_nat (length buf) ->
  TlsDerReadTlv buf p e tag = Some (Some (value_at p c, Z.of_nat (length c))).
Proof using Hsmall.
  intros Hs Hc He Hb. pose proof (sits_bound _ _ _ Hs) as [Hp _]. rewrite length_tlv in He. unfold TlsDerReadTlv.
  destruct (Z.leb_spec e p); [lia|]. unfold tlv in Hs. apply sits_app in Hs as [Ht Hs]. rewrite (sits_rd _ _ _ _ Ht). cbn [mbind option_bind].
  rewrite Z.eqb_refl. cbn [negb]. change (Z.of_nat (length [tag])) with 1 in Hs. eapply der_header_tlv in Hs; [exact Hs|done|done|lia|done].
Qed.

Lemma skip_tlv_tlv p e tag c :
  sits buf p (tlv tag c) -> Z.of_nat (length c) < 65536 -> p + Z.of_nat (length (tlv tag c)) <= e -> e <= Z.of_nat (length buf) ->
  TlsDerSkipTlv buf p e = Some (Some (p + Z.of_nat (length (tlv tag c)))).
Proof using Hsmall.
  intros Hs Hc He Hb. pose proof (sits_bound _ _ _ Hs) as [Hp _]. rewrite length_tlv in *. unfold TlsDerSkipTlv.
  destruct (Z.leb_spec e p); [lia|]. unfold tlv in Hs. apply sits_app in Hs as [Ht Hs].
  change (Z.of_nat (length [tag])) with 1 in Hs. erewrite der_header_tlv by (eassumption || done || lia). cbn. do 2 f_equal. lia.
Qed.

Lemma sits_value p tag c : sits buf p (tlv tag c) -> sits buf (value_at p c) c.
Proof.
  unfold tlv. intros Hs. splits. change (Z.of_nat (length [tag])) with 1 in *. unfold value_at. done.
Qed.
End Der.

(** ** Certificates *)

Abbreviation FIELD := (Z * BYTES)%type.
Definition field (f : FIELD) : BYTES := tlv f.1 f.2.

Record CERT := mkCert {
  c_version : option BYTES;
  c_serial : FIELD;
  c_signature : FIELD;
  c_issuer : FIELD;
  c_validity : FIELD;
  c_subject : FIELD;
  c_spki : BYTES;
  c_extensions : BYTES;
  c_signed : BYTES
}.

Definition version_field (v : option BYTES) : BYTES := match v with Some c => tlv 0xA0 c | None => [] end.
Definition tbs (c : CERT) : BYTES :=
  version_field (c_version c) ++ field (c_serial c) ++ field (c_signature c) ++ field (c_issuer c) ++ field (c_validity c) ++
  field (c_subject c) ++ tlv 0x30 (c_spki c) ++ c_extensions c.
Definition certificate (c : CERT) : BYTES := tlv 0x30 (tlv 0x30 (tbs c) ++ c_signed c).

(** The serial number is an INTEGER, so its tag is not the version's. *)
Definition cert_wf (c : CERT) : Prop :=
  (c_version c = None -> (c_serial c).1 <> 0xA0) /\ Z.of_nat (length (certificate c)) < 65536.

(** [l] lies at [p], before [e]. *)
Definition lies (buf : BYTES) (p e : Z) (l : BYTES) : Prop :=
  sits buf p l /\ p + Z.of_nat (length l) <= e /\ e <= Z.of_nat (length buf) /\ Z.of_nat (length l) < 65536.

Section Walk.
Context (buf : BYTES) (Hsmall : Z.of_nat (length buf) < 2147483648).

Lemma lies_app p e a b : lies buf p e (a ++ b) -> lies buf p e a /\ lies buf (p + Z.of_nat (length a)) e b.
Proof. intros ([Ha Hb]%sits_app & Hl & He & Hn). rewrite length_app in *. unfold lies. split_and!; done || lia. Qed.

Lemma lies_tlv_small p e tag c : lies buf p e (tlv tag c) -> Z.of_nat (length c) < 65536.
Proof. intros (_ & _ & _ & Hn). rewrite length_tlv in Hn. lia. Qed.

Lemma lies_skip p e f l :
  lies buf p e (field f ++ l) ->
  exists q, or_invalid (TlsDerSkipTlv buf p e) = Some (Ok q) /\ lies buf q e l.
Proof using Hsmall.
  intros [Hf Hl]%lies_app. eexists. split; [|exact Hl]. pose proof (lies_tlv_small _ _ _ _ Hf). destruct Hf as (Hs & ? & ? & ?).
  by erewrite skip_tlv_tlv by (done || lia).
Qed.

Lemma lies_read p e tag c :
  lies buf p e (tlv tag c) ->
  or_invalid (TlsDerReadTlv buf p e tag) = Some (Ok (value_at p c, Z.of_nat (length c))) /\
  lies buf (value_at p c) (value_at p c + Z.of_nat (length c)) c /\ value_at p c + Z.of_nat (length c) = p + Z.of_nat (length (tlv tag c)).
Proof using Hsmall.
  intros Hl. pose proof (lies_tlv_small _ _ _ _ Hl). destruct Hl as (Hs & ? & ? & ?). erewrite read_tlv_tlv by (done || lia).
  rewrite length_tlv in *. split_and!; [done| |unfold value_at; lia]. apply sits_value in Hs. unfold lies, value_at in *. split_and!; done || lia.
Qed.
End Walk.

Lemma tlv_head tag c : exists l, tlv tag c = tag :: l.
Proof. by eexists. Qed.

(** The version is skipped if it is there. *)
Lemma version_skip buf p e c :
  Z.of_nat (length buf) < 2147483648 -> cert_wf c -> lies buf p e (tbs c) -> p < e ->
  exists q, (v ← (if p <? e then rd buf p else Some 0);
             q <~ (if (p <? e) && (v =? 0xA0) then or_invalid (TlsDerSkipTlv buf p e) else Some (Ok p)) ;; Some (Ok q)) = Some (Ok q) /\
    lies buf q e (field (c_serial c) ++ field (c_signature c) ++ field (c_issuer c) ++ field (c_validity c) ++
                  field (c_subject c) ++ tlv 0x30 (c_spki c) ++ c_extensions c).
Proof.
  intros Hb [Hser _] Hl Hpe. destruct (Z.ltb_spec p e); [|lia]. unfold tbs in Hl. destruct (c_version c) as [v|]; cbn [version_field] in Hl.
  - apply (lies_skip buf Hb p e (0xA0, v)) in Hl as Hq. destruct Hq as (q & Hskip & Hq). destruct Hl as [Hs _].
    destruct (tlv_head 0xA0 v) as [l Ht]. rewrite Ht in Hs. cbn [app] in Hs. rewrite (sits_rd _ _ _ _ Hs). cbn [mbind option_bind andb Z.eqb Pos.eqb].
    rewrite Hskip. by exists q.
  - cbn [app] in Hl. destruct Hl as [Hs Hl]. pose proof Hs as Hs'. unfold field at 1 in Hs. destruct (tlv_head (c_serial c).1 (c_serial c).2) as [l Ht].
    rewrite Ht in Hs. cbn [app] in Hs. rewrite (sits_rd _ _ _ _ Hs). cbn [mbind option_bind andb].
    destruct (Z.eqb_spec (c_serial c).1 0xA0) as [E|_]; [by apply Hser in E|]. by exists p.
Qed.

Lemma extract_spki_certificate c :
  cert_wf c ->
  exists off len, BlorgTlsExtractSpkiFromCertificate (certificate c) = Some (Ok (off, len)) /\
    rd_list (certificate c) off len = Some (tlv 0x30 (c_spki c)).
Proof.
  intros Hwf. pose proof Hwf as [_ Hn]. set (buf := certificate c) in *. assert (Hb : Z.of_nat (length buf) < 2147483648) by lia.
  assert (Hl : lies buf 0 (Z.of_nat (length buf)) buf) by (split_and!; [apply sits_whole|lia..]).
  unfold BlorgTlsExtractSpkiFromCertificate. unfold buf at 3, certificate in Hl.
  apply (lies_read buf Hb) in Hl as (-> & Hl & Hend). cbn [pthen fst snd]. apply lies_app in Hl as [Hl _].
  assert (Hl2 : lies buf (value_at 0 (tlv 48 (tbs c) ++ c_signed c)) (Z.of_nat (length buf)) (tlv 48 (tbs c))).
  { destruct Hl as (? & ? & ? & ?). split_and!; done || lia. }
  apply (lies_read buf Hb) in Hl2 as (-> & Hl2 & _). cbn [pthen fst snd]. clear Hl. set (p := value_at _ (tbs c)) in *. set (e := p + _) in *.
  assert (Hpe : p < e) by (unfold e, tbs; rewrite !length_app; unfold field; pose proof (length_tlv 48 (c_spki c)); lia).
  destruct (version_skip buf p e c Hb Hwf Hl2 Hpe) as (q0 & Hv & Hq0).
  apply bind_Some in Hv as (v & -> & Hv). cbn [mbind option_bind].
  assert (Hv' : (if (p <? e) && (v =? 160) then or_invalid (TlsDerSkipTlv buf p e) else Some (Ok p)) = Some (Ok q0)).
  { destruct (if _ : bool then _ else _) as [[q|]|]; cbn in Hv; congruence. }
  rewrite Hv'. cbn [pthen]. clear Hv Hv'.
  do 5 (apply (lies_skip buf Hb) in Hq0 as (? & -> & Hq0); cbn [pthen]). apply lies_app in Hq0 as [Hq0 _].
  match type of Hq0 with lies _ ?q _ _ => set (q6 := q) in * end.
  pose proof (lies_read buf Hb _ _ _ _ Hq0) as (-> & _ & Hlen). cbn [pthen fst snd].
  destruct Hq0 as (Hs & H1 & H2 & H3). pose proof (sits_bound _ _ _ Hs). do 2 eexists. split; [reflexivity|].
  apply sits_list; [done|]. rewrite u32_id by lia. lia.
Qed.

(** ** SubjectPublicKeyInfo *)

Definition spki_der (pk : BYTES) : BYTES := spki_header ++ pk.

Lemma spki_encode pk der :
  length pk = 65%nat -> length der = 91%nat -> BlorgTlsEncodeP256SubjectPublicKeyInfo pk der = Some (Ok (spki_der pk)).
Proof.
  intros Hp Hd. unfold BlorgTlsEncodeP256SubjectPublicKeyInfo. rewrite <- (take_drop 26 der).
  change (take 26 der ++ drop 26 der) with ([] ++ take 26 der ++ drop 26 der).
  rewrite wr_list_hole by (rewrite ?length_take, ?Hd; done). cbn [mbind option_bind].
  change ([] ++ spki_header ++ drop 26 der) with (spki_header ++ drop 26 der). rewrite <- (app_nil_r (drop 26 der)).
  rewrite wr_list_hole by (rewrite ?length_drop, ?Hd, ?Hp; done). cbn [mbind option_bind]. by rewrite app_nil_r.
Qed.

(** The decoder's verdict. *)
Definition is_spki (der : BYTES) : bool :=
  bool_decide (length der = 91%nat /\ take 26 der = spki_header /\ drop 26 der !! 0%nat = Some 4).

Lemma spki_decode der :
  BlorgTlsDecodeP256SubjectPublicKeyInfo der = if is_spki der then Some (Ok (drop 26 der)) else Some (Err STATUS_INVALID_PARAMETER).
Proof.
  unfold BlorgTlsDecodeP256SubjectPublicKeyInfo, TLS_SPKI_DER_LEN, TLS_ECC_PUBKEY_LEN, is_spki. change (Z.of_nat (length spki_header)) with 26.
  destruct (Z.eqb_spec (Z.of_nat (length der)) 91) as [Hl|Hl]; cbn [negb refuse_if]; [|rewrite bool_decide_false; [done|lia]].
  rewrite !rd_list_in_range by lia. cbn [mbind option_bind]. change (Z.to_nat 26) with 26%nat. change (Z.to_nat 0) with 0%nat. change (Z.to_nat 65) with 65%nat.
  rewrite drop_0. assert (Ht : take 65 (drop 26 der) = drop 26 der) by (apply take_ge; rewrite length_drop; lia). rewrite Ht.
  destruct (decide (take 26 der = spki_header)) as [Hh|Hh];
    [rewrite (bool_decide_true (_ = _)) by done|rewrite !bool_decide_false by naive_solver; done]. cbn [negb refuse_if].
  assert (Hq : length (drop 26 der) = 65%nat) by (rewrite length_drop; lia). destruct (drop 26 der) as [|x q]; [done|].
  change (rd (x :: q) 0) with (Some x). cbn [mbind option_bind]. change ((x :: q) !! 0%nat) with (Some x).
  destruct (Z.eqb_spec x 4) as [->|Hx]; cbn [negb refuse_if]; [rewrite bool_decide_true; [done|]|rewrite bool_decide_false; [done|naive_solver]].
  split_and!; done || lia.
Qed.

Lemma is_spki_iff der pk :
  is_spki der = true /\ drop 26 der = pk <-> der = spki_der pk /\ length pk = 65%nat /\ pk !! 0%nat = Some 4.
Proof.
  unfold is_spki. rewrite bool_decide_eq_true. split.
  - intros [(Hl & Ht & H4) <-]. split_and!; [|rewrite length_drop; lia|done]. unfold spki_der. by rewrite <- Ht, take_drop.
  - intros (-> & Hl & H4). unfold spki_der. rewrite length_app, Hl. change 26%nat with (length spki_header).
    by rewrite take_app_length, drop_app_length.
Qed.

(** The SPKI decoder reads only inside its input and accepts exactly
    the encodings of uncompressed P-256 points, giving back the point; and
    the encoder writes that encoding. *)
Theorem spki_decode_exact der pk :
  (BlorgTlsDecodeP256SubjectPublicKeyInfo der = Some (Ok pk) <->
   der = spki_der pk /\ length pk = 65%nat /\ pk !! 0%nat = Some 4) /\
  BlorgTlsDecodeP256SubjectPublicKeyInfo der <> None /\
  (length pk = 65%nat -> length der = 91%nat -> BlorgTlsEncodeP256SubjectPublicKeyInfo pk der = Some (Ok (spki_der pk))).
Proof.
  rewrite <- is_spki_iff, spki_decode. split_and!; [|by destruct (is_spki der)|apply spki_encode].
  destruct (is_spki der); [|naive_solver]. split; [by intros [= ->]|]. by intros [_ ->].
Qed.

Definition toy_point : BYTES := 4 :: replicate 64 9.
Lemma spki_decode_exact_witness :
  length toy_point = 65%nat /\ length (replicate 91 0) = 91%nat /\
  BlorgTlsEncodeP256SubjectPublicKeyInfo toy_point (replicate 91 0) = Some (Ok (spki_der toy_point)).
Proof. split; [reflexivity|]. split; [reflexivity|]. apply (spki_decode_exact (replicate 91 0) toy_point); reflexivity. Defined.

(** ** The server's Certificate message *)

Definition certificate_message (context leaf others : BYTES) : BYTES :=
  [Z.of_nat (length context)] ++ context ++ vec24 (vec24 leaf ++ others).

Lemma parse_certificate_message context leaf others :
  (length context <= 255)%nat -> Z.of_nat (length leaf + length others) < 16000000 ->
  exists off len, BlorgTlsParseCertificateMessage (certificate_message context leaf others) = Some (Ok (off, len)) /\
    rd_list (certificate_message context leaf others) off len = Some leaf.
Proof.
  intros Hc Hlen. set (msg := certificate_message context leaf others). pose proof (sits_whole msg) as Hs.
  assert (Hm : Z.of_nat (length msg) = 7 + Z.of_nat (length context) + Z.of_nat (length leaf) + Z.of_nat (length others)).
  { unfold msg, certificate_message, vec24. rewrite !length_app. cbn [length TlsPutUint24]. lia. }
  unfold msg at 2, certificate_message, vec24 in Hs. set (inner := (TlsPutUint24 (Z.of_nat (length leaf)) ++ leaf) ++ others) in Hs.
  assert (Hi : Z.of_nat (length inner) = 3 + Z.of_nat (length leaf) + Z.of_nat (length others)) by (unfold inner; rewrite !length_app; cbn [length TlsPutUint24]; lia).
  apply sits_app in Hs as [H0 Hs]. apply sits_app in Hs as [_ Hs]. apply sits_app in Hs as [H1 Hs]. unfold inner in Hs.
  apply sits_app in Hs as [Hs _]. apply sits_app in Hs as [H2 Hs].
  change (Z.of_nat (length [Z.of_nat (length context)])) with 1 in *.
  repeat match goal with H : context [Z.of_nat (length (TlsPutUint24 ?v))] |- _ => change (Z.of_nat (length (TlsPutUint24 v))) with 3 in H end.
  rewrite Z.add_0_l in *. set (n := Z.of_nat (length context)) in *. unfold BlorgTlsParseCertificateMessage. rewrite !Hm.
  destruct (Z.ltb_spec (7 + n + Z.of_nat (length leaf) + Z.of_nat (length others)) 1); [lia|]. cbn [refuse_if].
  rewrite (sits_rd _ _ _ _ H0). cbn [mbind option_bind]. rewrite !(u32_id (1 + n + 3)) by lia.
  match goal with |- context [?a <? 1 + n + 3] => destruct (Z.ltb_spec a (1 + n + 3)); [lia|] end. cbn [refuse_if].
  rewrite (get24_put24 msg (1 + n) (Z.of_nat (length inner))) by (done || lia). cbn [mbind option_bind].
  destruct (Z.ltb_spec (Z.of_nat (length inner)) 3); [lia|]. rewrite !(u32_id (1 + n + 3 + Z.of_nat (length inner))) by lia.
  match goal with |- context [?a <? 1 + n + 3 + _] => destruct (Z.ltb_spec a (1 + n + 3 + Z.of_nat (length inner))); [lia|] end. cbn [orb refuse_if].
  rewrite (get24_put24 msg (1 + n + 3) (Z.of_nat (length leaf))) by (done || lia). cbn [mbind option_bind].
  rewrite !(u32_id (1 + n + 3 + 3)) by lia. rewrite !(u32_id (1 + n + 3 + 3 + Z.of_nat (length leaf))) by lia.
  match goal with |- context [?a <? 1 + n + 3 + 3 + _] => destruct (Z.ltb_spec a (1 + n + 3 + 3 + Z.of_nat (length leaf))); [lia|] end. cbn [refuse_if].
  do 2 eexists. split; [reflexivity|]. by apply sits_list.
Qed.

Lemma spki_is_tlv pk : length pk = 65%nat -> spki_der pk = tlv 0x30 (drop 2 (spki_der pk)).
Proof.
  intros H. unfold tlv. assert (Hl : length (drop 2 (spki_der pk)) = 89%nat) by (unfold spki_der; rewrite length_drop, length_app, H; reflexivity).
  by rewrite Hl.
Qed.

(** The key the pin is checked against is the leaf's: from a
    Certificate message the driver takes the first certificate, whatever
    follows it; from a certificate, with or without a version and whatever
    its other fields hold, the SubjectPublicKeyInfo; and from a P-256 one the
    point. *)
Theorem leaf_key_recovered context c others pk :
  (length context <= 255)%nat -> cert_wf c -> Z.of_nat (length others) < 15000000 ->
  length pk = 65%nat -> pk !! 0%nat = Some 4 -> tlv 0x30 (c_spki c) = spki_der pk ->
  exists off len off' len',
    BlorgTlsParseCertificateMessage (certificate_message context (certificate c) others) = Some (Ok (off, len)) /\
    rd_list (certificate_message context (certificate c) others) off len = Some (certificate c) /\
    BlorgTlsExtractSpkiFromCertificate (certificate c) = Some (Ok (off', len')) /\
    rd_list (certificate c) off' len' = Some (spki_der pk) /\
    BlorgTlsDecodeP256SubjectPublicKeyInfo (spki_der pk) = Some (Ok pk).
Proof.
  intros Hctx Hwf Ho Hpk H4 Hspki. pose proof Hwf as [_ Hn].
  destruct (parse_certificate_message context (certificate c) others Hctx ltac:(lia)) as (off & len & Hp & Hr).
  destruct (extract_spki_certificate c Hwf) as (off' & len' & Hp' & Hr'). rewrite Hspki in Hr'.
  exists off, len, off', len'. split_and!; try done. rewrite spki_decode.
  destruct (proj2 (is_spki_iff (spki_der pk) pk)) as [-> ->]; done.
Qed.

Definition toy_cert : CERT :=
  mkCert (Some [2; 1; 2]) (2, [7]) (48, [6; 1; 1]) (48, []) (48, [23; 0]) (48, replicate 200 1) (drop 2 (spki_der toy_point)) [163; 0] [48; 0].
Lemma leaf_key_recovered_witness :
  exists off len off' len',
    BlorgTlsParseCertificateMessage (certificate_message [] (certificate toy_cert) [0; 0]) = Some (Ok (off, len)) /\
    rd_list (certificate_message [] (certificate toy_cert) [0; 0]) off len = Some (certificate toy_cert) /\
    BlorgTlsExtractSpkiFromCertificate (certificate toy_cert) = Some (Ok (off', len')) /\
    rd_list (certificate toy_cert) off' len' = Some (spki_der toy_point) /\
    BlorgTlsDecodeP256SubjectPublicKeyInfo (spki_der toy_point) = Some (Ok toy_point).
Proof.
  apply (leaf_key_recovered [] toy_cert [0; 0] toy_point);
    [cbn; lia|split; [discriminate|vm_compute; reflexivity]|vm_compute; reflexivity|reflexivity|reflexivity|vm_compute; reflexivity].
Defined.

(** ** CertificateVerify *)

(** A 32-byte integer as DER writes it: no leading zeros, but one where the
    top bit is set. *)
Fixpoint strip_zeros (l : BYTES) : BYTES :=
  match l with x :: r => if x =? 0 then strip_zeros r else l | [] => [] end.
Definition der_int (raw : BYTES) : BYTES :=
  match strip_zeros raw with x :: r => if 128 <=? x then 0 :: x :: r else x :: r | [] => [0] end.

Definition signature_der (r s : BYTES) : BYTES := tlv 0x30 (tlv 0x02 (der_int r) ++ tlv 0x02 (der_int s)).
Definition verify_message (r s : BYTES) : BYTES := TlsPutUint16 TLS_SIGALG_ECDSA_SECP256R1_SHA256 ++ vec16 (signature_der r s).

Lemma strip_zeros_split l : exists k, l = replicate k 0 ++ strip_zeros l /\ (forall x, strip_zeros l !! 0%nat = Some x -> x <> 0).
Proof.
  induction l as [|x l (k & IH & Hh)]; [by exists 0%nat|]. cbn [strip_zeros]. destruct (Z.eqb_spec x 0) as [->|Hx].
  - exists (S k). cbn [replicate app]. by rewrite <- IH.
  - exists 0%nat. split; [done|]. by intros ? [= ->].
Qed.

Lemma strip_zeros_nil l : strip_zeros l = [] -> l = replicate (length l) 0.
Proof. intros H. destruct (strip_zeros_split l) as (k & E & _). rewrite H, app_nil_r in E. rewrite E at 1. rewrite E, length_replicate. done. Qed.

(** What the driver keeps of the integer: some of it, that only zeros come
    before in the 32 bytes.  A sign byte of a shorter integer stays, as one of
    those zeros. *)
Lemma strip_sign_der_int msg p raw :
  length raw = 32%nat -> strip_zeros raw <> [] -> sits msg p (der_int raw) ->
  exists q kept j, strip_sign msg p (Z.of_nat (length (der_int raw))) = Some (q, Z.of_nat (length kept)) /\
    sits msg q kept /\ raw = replicate j 0 ++ kept /\ kept <> [].
Proof.
  intros Hl Hne Hs. destruct (strip_zeros_split raw) as (k & E & Hh). unfold der_int in *.
  destruct (strip_zeros raw) as [|x r]; [done|]. unfold strip_sign.
  assert (Hk : (k + length (x :: r) = 32)%nat) by (rewrite <- Hl, E, length_app, length_replicate; done).
  destruct (128 <=? x).
  - destruct (Z.eqb_spec (Z.of_nat (length (0 :: x :: r))) 33) as [E33|E33].
    + rewrite (sits_rd _ _ _ _ Hs). cbn [mbind option_bind Z.eqb]. exists (p + 1), (x :: r), k. split_and!; [cbn [length]; do 2 f_equal; lia| |done|done].
      change (0 :: x :: r) with ([0] ++ x :: r) in Hs. by apply sits_app in Hs as [_ Hs].
    + destruct k as [|k]; [cbn [length] in *; lia|]. exists p, (0 :: x :: r), k. split_and!; [done|done| |done].
      rewrite E, replicate_S_end, <- app_assoc. done.
  - destruct (Z.eqb_spec (Z.of_nat (length (x :: r))) 33); [lia|]. by exists p, (x :: r), k.
Qed.

Lemma length_der_int raw : length raw = 32%nat -> (1 <= length (der_int raw) <= 33)%nat.
Proof.
  intros Hl. destruct (strip_zeros_split raw) as (k & E & _). apply (f_equal length) in E. rewrite length_app, length_replicate, Hl in E.
  unfold der_int. destruct (strip_zeros raw) as [|x r]; [cbn; lia|]. destruct (128 <=? x); cbn [length] in *; lia.
Qed.

(** Zero fill and the two copies. *)
Lemma raw_signature j j' r s rk sk :
  r = replicate j 0 ++ rk -> s = replicate j' 0 ++ sk -> length r = 32%nat -> length s = 32%nat ->
  (out ← wr_list (replicate 64 0) (32 - Z.of_nat (length rk)) rk; out ← wr_list out (32 + (32 - Z.of_nat (length sk))) sk; Some (Ok out)) =
  Some (Ok (r ++ s)).
Proof.
  intros -> -> Hr Hs. rewrite !length_app, !length_replicate in *.
  assert (replicate 64 0 = replicate j 0 ++ replicate (length rk) 0 ++ replicate 32 0) as ->.
  { rewrite <- !replicate_add. f_equal. lia. }
  rewrite wr_list_hole by (rewrite length_replicate; lia). cbn [mbind option_bind].
  assert (replicate j 0 ++ rk ++ replicate 32 0 = (replicate j 0 ++ rk ++ replicate j' 0) ++ replicate (length sk) 0 ++ []) as ->.
  { rewrite app_nil_r, <- !app_assoc, <- replicate_add. do 3 f_equal. lia. }
  rewrite wr_list_hole by (rewrite ?length_app, ?length_replicate; lia). cbn [mbind option_bind]. by rewrite app_nil_r, <- !app_assoc.
Qed.

(** A CertificateVerify message carrying the DER form of two nonzero
    32-byte integers parses to those integers side by side, whatever leading
    zeros or sign bytes their encodings have. *)
Theorem certificate_verify_parsed r s :
  length r = 32%nat -> length s = 32%nat -> strip_zeros r <> [] -> strip_zeros s <> [] ->
  BlorgTlsParseCertificateVerifyMessage (verify_message r s) = Some (Ok (r ++ s)).
Proof.
  intros Hr Hs Hzr Hzs. set (msg := verify_message r s). pose proof (sits_whole msg) as Hw.
  pose proof (length_der_int r Hr). pose proof (length_der_int s Hs).
  assert (Hq : Z.of_nat (length (tlv 2 (der_int r) ++ tlv 2 (der_int s))) < 128).
  { rewrite length_app, Nat2Z.inj_add, !length_tlv, !length_der_len.
    destruct (Z.ltb_spec (Z.of_nat (length (der_int r))) 128); [|lia]. destruct (Z.ltb_spec (Z.of_nat (length (der_int s))) 128); lia. }
  assert (Hd : Z.of_nat (length (signature_der r s)) < 132).
  { unfold signature_der. rewrite length_tlv, length_der_len. destruct (Z.ltb_spec (Z.of_nat (length (tlv 2 (der_int r) ++ tlv 2 (der_int s)))) 128); lia. }
  assert (Hm : Z.of_nat (length msg) = 4 + Z.of_nat (length (signature_der r s))).
  { unfold msg, verify_message, vec16. rewrite !length_app. cbn [length TlsPutUint16]. lia. }
  unfold msg at 2, verify_message, vec16 in Hw. apply sits_app in Hw as [H1 Hw]. apply sits_app in Hw as [H2 Hw].
  change (Z.of_nat (length (TlsPutUint16 TLS_SIGALG_ECDSA_SECP256R1_SHA256))) with 2 in *.
  change (Z.of_nat (length (TlsPutUint16 (Z.of_nat (length (signature_der r s)))))) with 2 in *. rewrite Z.add_0_l in *. change (2 + 2) with 4 in Hw.
  unfold BlorgTlsParseCertificateVerifyMessage. rewrite !Hm.
  destruct (Z.ltb_spec (4 + Z.of_nat (length (signature_der r s))) 4); [lia|]. cbn [refuse_if].
  rewrite (get16_put16 msg 0 TLS_SIGALG_ECDSA_SECP256R1_SHA256) by (done || (unfold TLS_SIGALG_ECDSA_SECP256R1_SHA256; lia)).
  cbn [mbind option_bind]. rewrite Z.eqb_refl. cbn [negb refuse_if].
  rewrite (get16_put16 msg 2 (Z.of_nat (length (signature_der r s)))) by (done || lia). cbn [mbind option_bind]. rewrite Z.eqb_refl. cbn [negb refuse_if].
  assert (Hl : lies msg 4 (4 + Z.of_nat (length (signature_der r s))) (signature_der r s)) by (split_and!; done || lia).
  assert (Hb : Z.of_nat (length msg) < 2147483648) by lia.
  apply (lies_read msg Hb) in Hl as (-> & Hl & _). cbn [pthen fst snd]. apply lies_app in Hl as [Hlr Hls].
  pose proof (lies_read msg Hb _ _ _ _ Hlr) as (-> & (Hsr & _) & Hend). cbn [pthen fst snd]. rewrite Hend.
  pose proof (lies_read msg Hb _ _ _ _ Hls) as (-> & (Hss & _) & _). cbn [pthen fst snd].
  destruct (strip_sign_der_int _ _ _ Hr Hzr Hsr) as (qr & kr & jr & -> & Hkr & Er & Hner). cbn [mbind option_bind].
  destruct (strip_sign_der_int _ _ _ Hs Hzs Hss) as (qs & ks & js & -> & Hks & Es & Hnes). cbn [mbind option_bind fst snd].
  assert (Hlr' : (jr + length kr = 32)%nat) by (rewrite <- Hr, Er, length_app, length_replicate; done).
  assert (Hls' : (js + length ks = 32)%nat) by (rewrite <- Hs, Es, length_app, length_replicate; done).
  rewrite (sits_list _ _ _ _ Hkr), (sits_list _ _ _ _ Hks) by done. cbn [mbind option_bind].
  assert (Hc : (32 <? Z.of_nat (length kr)) || (32 <? Z.of_nat (length ks)) || (Z.of_nat (length kr) =? 0) || (Z.of_nat (length ks) =? 0) = false).
  { destruct kr, ks; try done. cbn [length] in *. repeat (apply orb_false_iff; split); (apply Z.ltb_ge || apply Z.eqb_neq); lia. }
  rewrite Hc. cbn [refuse_if]. by apply (raw_signature jr js).
Qed.

Definition toy_r : BYTES := [0; 200] ++ replicate 30 1.
Definition toy_s : BYTES := 255 :: replicate 31 2.
Lemma certificate_verify_parsed_witness : BlorgTlsParseCertificateVerifyMessage (verify_message toy_r toy_s) = Some (Ok (toy_r ++ toy_s)).
Proof. apply (certificate_verify_parsed toy_r toy_s); [reflexivity|reflexivity|discriminate|discriminate]. Defined.
