(* ===== verification/TlsRecords.v ===== *)
(** * TLS: record padding, comparisons and a connection's keys

    The remaining helpers of src/Tls.c: the constant-time comparison, the
    inner-plaintext padding, the content a server signs, and the life of the
    key handles a connection caches. *)

From S2P Require Import Prelude Buffers TlsCrypto TlsCryptoHandles TlsCodec TlsClientHello TlsParse.
#[local] Open Scope tls_scope.

(** ** Connection state *)

Inductive TLS_HANDSHAKE_STATE := TlsHandshakeNotStarted | TlsHandshakeInProgress | TlsHandshakeComplete | TlsHandshakeFailed.

Record TLS_CONNECTION_STATE := mkConnection {
  tls_State : TLS_HANDSHAKE_STATE;
  WriteKey : BYTES;
  WriteIv : BYTES;
  WriteSeq : Z;
  ReadKey : BYTES;
  ReadIv : BYTES;
  ReadSeq : Z;
  WriteKeyHandle : Z;
  ReadKeyHandle : Z
}.

Definition zeroed_connection : TLS_CONNECTION_STATE :=
  mkConnection TlsHandshakeNotStarted (replicate 16 0) (replicate 12 0) 0 (replicate 16 0) (replicate 12 0) 0 0 0.

Definition BlorgTlsInitializeConnectionState (_ : TLS_CONNECTION_STATE) : TLS_CONNECTION_STATE :=
  let s := zeroed_connection in
  mkConnection TlsHandshakeNotStarted (WriteKey s) (WriteIv s) (WriteSeq s) (ReadKey s) (ReadIv s) (ReadSeq s) (WriteKeyHandle s) (ReadKeyHandle s).

Definition BlorgTlsDestroyConnectionState (s : TLS_CONNECTION_STATE) : M TLS_CONNECTION_STATE :=
  _ <- bclose_if true (WriteKeyHandle s) ;;
  _ <- bclose_if true (ReadKeyHandle s) ;;
  mreturn zeroed_connection.

(** A connection that holds just the handles it imported gives them both
    back, and is then as if it had never been used. *)
Lemma destroy_connection w0 w s :
  handles_wf w0 -> holds w0 (hnd (WriteKeyHandle s) ++ hnd (ReadKeyHandle s)) w ->
  wp (BlorgTlsDestroyConnectionState s) w (fun s' w' => s' = BlorgTlsInitializeConnectionState s /\ holds w0 [] w').
Proof.
  intros Hwf Hw. unfold BlorgTlsDestroyConnectionState.
  eapply wp_bind; [by eapply (wp_bclose_if w0 Hwf true)|]. cbv beta. intros _ w1 H1.
  eapply wp_bind; [by eapply (wp_bclose_last w0 Hwf true)|]. cbv beta. intros _ w2 H2. by apply wp_return.
Qed.

(** ** The content of CertificateVerify *)

Lemma cert_verify_content hash content :
  length hash = 32%nat -> length content = 130%nat ->
  BlorgTlsBuildServerCertVerifyContent hash content = Some (STATUS_SUCCESS, replicate 64 0x20 ++ contextString ++ [0] ++ hash).
Proof.
  intros Hh Hc. unfold BlorgTlsBuildServerCertVerifyContent.
  rewrite <- (take_drop 64 content). change (take 64 content ++ drop 64 content) with ([] ++ take 64 content ++ drop 64 content).
  rewrite wr_list_hole by (rewrite ?length_take, ?Hc; done). cbn [mbind option_bind].
  change ([] ++ replicate 64 32 ++ drop 64 content) with (replicate 64 32 ++ drop 64 content).
  rewrite <- (take_drop 33 (drop 64 content)), drop_drop. rewrite wr_list_hole by (rewrite ?length_take, ?length_drop, ?length_replicate, ?Hc; done).
  cbn [mbind option_bind]. assert (Hl : length (drop (64 + 33) content) = 33%nat) by (rewrite length_drop, Hc; done).
  destruct (drop (64 + 33) content) as [|x rest]; [done|]. rewrite wr_in_range by (rewrite !length_app; cbn; lia). cbn [mbind option_bind].
  change (Z.to_nat (64 + Z.of_nat (length contextString))) with 97%nat. rewrite app_assoc, insert_app_r_alt by (cbn; lia).
  change (97 - length (replicate 64 32%Z ++ contextString))%nat with 0%nat. cbn [insert list_insert].
  change ((replicate 64 32 ++ contextString) ++ 0 :: rest) with ((replicate 64 32 ++ contextString ++ [0]) ++ rest).
  rewrite <- (app_nil_r rest), wr_list_hole by (cbn in *; lia). cbn [mbind option_bind]. rewrite app_nil_r. f_equal.
Qed.

(** ** Comparison *)

Definition same_prefix (n : nat) (a b : BYTES) : bool := bool_decide (take n a = take n b).

Lemma u8_lxor_zero x y : is_byte x -> is_byte y -> u8 (Z.lxor x y) = 0 <-> x = y.
Proof.
  unfold is_byte. intros Hx Hy. assert (Hb : 0 <= Z.lxor x y < 256).
  { split; [by apply Z.lxor_nonneg; lia|]. destruct (Z.eq_dec (Z.lxor x y) 0) as [->|Hne]; [lia|].
    assert (0 <= Z.lxor x y) by (apply Z.lxor_nonneg; lia). change 256 with (2 ^ 8). apply Z.log2_lt_pow2; [lia|].
    eapply Z.le_lt_trans; [apply Z.log2_lxor; lia|]. apply Z.max_lub_lt.
    - destruct (Z.eq_dec x 0) as [->|]; [done|]. apply Z.log2_lt_pow2; lia.
    - destruct (Z.eq_dec y 0) as [->|]; [done|]. apply Z.log2_lt_pow2; lia. }
  rewrite u8_id by done. apply Z.lxor_eq_0_iff.
Qed.

Lemma equal_loop_spec n a b :
  bytes_ok a -> bytes_ok b -> (n <= length a)%nat -> (n <= length b)%nat ->
  exists d, equal_loop n a b 0 = Some d /\ (d = 0 <-> take n a = take n b).
Proof.
  intros Ha Hb. induction n as [|n IH]; intros Hla Hlb; [by exists 0|]. cbn [equal_loop].
  destruct IH as (d & -> & Hd); [lia|lia|]. cbn [mbind option_bind].
  destruct (rd_byte a (Z.of_nat n) Ha ltac:(lia)) as (x & Hx & Hbx), (rd_byte b (Z.of_nat n) Hb ltac:(lia)) as (y & Hy & Hby).
  rewrite Hx, Hy. cbn [mbind option_bind]. eexists. split; [reflexivity|].
  unfold rd in Hx, Hy. destruct (Z.leb_spec 0 (Z.of_nat n)); [|lia]. rewrite Nat2Z.id in Hx, Hy.
  rewrite (take_S_r _ _ _ Hx), (take_S_r _ _ _ Hy), Z.lor_eq_0_iff, Hd, u8_lxor_zero by done.
  split; [by intros [-> ->]|]. intros E. apply app_inj_tail in E. naive_solver.
Qed.

(** The comparison without early exit is equality of the two buffers'
    first bytes: no accumulated difference is lost, whatever the length. *)
Theorem constant_time_equal_exact a b n :
  bytes_ok a -> bytes_ok b -> (n <= length a)%nat -> (n <= length b)%nat ->
  BlorgTlsConstantTimeEqual a b (Z.of_nat n) = Some (same_prefix n a b).
Proof.
  intros Ha Hb Hla Hlb. unfold BlorgTlsConstantTimeEqual. rewrite Nat2Z.id.
  destruct (equal_loop_spec n a b Ha Hb Hla Hlb) as (d & -> & Hd). cbn [mbind option_bind]. f_equal. unfold same_prefix.
  destruct (Z.eqb_spec 0 d) as [<-|Hne]; symmetry; [apply bool_decide_true; by apply Hd|apply bool_decide_false]. intros E%Hd. lia.
Qed.

Lemma constant_time_equal_exact_witness : BlorgTlsConstantTimeEqual [1; 2; 3] [1; 2; 131] (Z.of_nat 3) = Some (same_prefix 3 [1; 2; 3] [1; 2; 131]).
Proof.
  apply (constant_time_equal_exact [1; 2; 3] [1; 2; 131] 3); [| |cbn; lia|cbn; lia];
    repeat (apply Forall_cons; split; [unfold is_byte; lia|]); apply Forall_nil; exact I.
Defined.

(** ** Padding *)

Definition inner_plaintext (content : BYTES) (ty : Z) (padding : nat) : BYTES := content ++ [ty] ++ replicate padding 0.

Lemma strip_loop_stop i j p b : p !! j = Some b -> b <> 0 -> i = S j -> strip_loop i p = Some i.
Proof. intros Hp Hb ->. cbn [strip_loop]. unfold rd. destruct (Z.leb_spec 0 (Z.of_nat j)); [|lia]. rewrite Nat2Z.id, Hp. cbn. by destruct (Z.eqb_spec b 0). Qed.

Lemma strip_loop_zeros p k i : (forall j, (i <= j < i + k)%nat -> p !! j = Some 0) -> strip_loop (i + k) p = strip_loop i p.
Proof.
  induction k as [|k IH]; intros H; [by rewrite Nat.add_0_r|]. rewrite Nat.add_succ_r. cbn [strip_loop]. unfold rd.
  destruct (Z.leb_spec 0 (Z.of_nat (i + k))); [|lia]. rewrite Nat2Z.id, H by lia. cbn. apply IH. intros j Hj. apply H. lia.
Qed.

(** Stripping a decrypted record gives back its content type and the
    length of its content for every amount of padding, even where the content
    itself ends in zeros; a record of zeros only is refused. *)
Theorem strip_inner_plaintext_exact content ty padding :
  ty <> 0 ->
  BlorgTlsStripInnerPlaintext (inner_plaintext content ty padding) = Some (Some (ty, Z.of_nat (length content))) /\
  BlorgTlsStripInnerPlaintext (replicate padding 0) = Some None.
Proof.
  intros Hty. unfold BlorgTlsStripInnerPlaintext. split.
  - set (p := inner_plaintext content ty padding).
    assert (Hp : p !! length content = Some ty) by (unfold p, inner_plaintext; by apply list_lookup_middle).
    assert (length p = S (length content) + padding)%nat as -> by (unfold p, inner_plaintext; rewrite !length_app, length_replicate; cbn; lia).
    rewrite strip_loop_zeros, (strip_loop_stop _ (length content) p ty) by done || (intros j Hj; unfold p, inner_plaintext;
      rewrite app_assoc, lookup_app_r by (rewrite length_app; cbn; lia); apply lookup_replicate_2; rewrite length_app; cbn; lia).
    cbn [mbind option_bind]. unfold rd. destruct (Z.leb_spec 0 (Z.of_nat (length content))); [|lia]. by rewrite Nat2Z.id, Hp.
  - rewrite length_replicate. rewrite (strip_loop_zeros _ padding 0); [done|]. intros j Hj. apply lookup_replicate_2. lia.
Qed.

Lemma strip_inner_plaintext_exact_witness :
  BlorgTlsStripInnerPlaintext (inner_plaintext [5; 0; 0] 23 4) = Some (Some (23, Z.of_nat (length [5; 0; 0]))) /\
  BlorgTlsStripInnerPlaintext (replicate 4 0) = Some None.
Proof. apply (strip_inner_plaintext_exact [5; 0; 0] 23 4). lia. Defined.
