(* ===== verification/Registry.v ===== *)
(** * The configuration read at load (src/Registry.c, and its defaults in
    src/Driver.c)

    Every value is optional and untrusted: what the registry answered to each
    query is an argument, byte for byte.  Proved here: whatever the registry
    holds, the settings the rest of the driver runs with are usable ones. *)

From S2P Require Import Prelude.

Definition MAXUSHORT : Z := 65535.
Definition REG_SZ : Z := 1.
Definition REG_BINARY : Z := 3.
Definition REG_DWORD : Z := 4.
Definition BLORGFS_REG_PORT_MAX_CHARS : Z := 8.
Definition BLORGFS_REG_HOST_MAX_CHARS : Z := 128.
Definition BLORGFS_REG_DISK_CACHE_PATH_MAX_CHARS : Z := 260.
Definition READ_AHEAD_GRANULARITY : Z := PAGE_SIZE * 32.
Definition READ_AHEAD_MAX_GRANULARITY : Z := PAGE_SIZE * 512.
Definition READ_FAIR_BUDGET : Z := PAGE_SIZE * 512.
Definition SUBTREE_ENTRIES : Z := 2048.
Definition STATUS_INFO_LENGTH_MISMATCH : NTSTATUS := nt 0xC0000004.
Definition STATUS_OBJECT_TYPE_MISMATCH : NTSTATUS := nt 0xC0000024.

(** ** One value *)

(** What [ZwQueryValueKey] left behind: its status and result length, and the
    value's type, length and bytes. *)
Record QUERY := mkQuery { q_Status : NTSTATUS; q_ResultLength : Z; q_Type : Z; q_DataLength : Z; q_Data : list Z }.

(** [FIELD_OFFSET(KEY_VALUE_PARTIAL_INFORMATION, Data)] and the size of the
    buffer it is read into. *)
Definition headerSize : Z := 12.
Definition infoBufferSize : Z := 16 + BLORGFS_REG_DISK_CACHE_PATH_MAX_CHARS * 2.

Definition RegistryReadValue (q : QUERY) (expectedType bufferSize : Z) : NTSTATUS * list Z :=
  if negb (NT_SUCCESS (q_Status q)) then (q_Status q, [])
  else if (q_ResultLength q <? headerSize) || (infoBufferSize <? q_ResultLength q) then (STATUS_INFO_LENGTH_MISMATCH, [])
  else if negb (q_Type q =? expectedType) || (bufferSize <? q_DataLength q) || (u32 (q_ResultLength q - headerSize) <? q_DataLength q)
          || ((REG_DWORD =? expectedType) && negb (4 =? q_DataLength q)) then (STATUS_OBJECT_TYPE_MISMATCH, [])
  else (STATUS_SUCCESS, take (Z.to_nat (q_DataLength q)) (q_Data q)).

(** Little-endian integers of the value's bytes. *)
Definition byte_at (l : list Z) (i : nat) : Z := default 0 (l !! i).
Definition dword (l : list Z) : Z := byte_at l 0 + 256 * byte_at l 1 + 65536 * byte_at l 2 + 16777216 * byte_at l 3.
Fixpoint wchars (l : list Z) : list Z :=
  match l with
  | a :: b :: l => (a + 256 * b) :: wchars l
  | _ => []
  end.

Definition read_dword (q : QUERY) : option Z :=
  let '(st, data) := RegistryReadValue q REG_DWORD 4 in if NT_SUCCESS st then Some (dword data) else None.

(** ** Strings *)

Fixpoint port_loop (port : list Z) (value : Z) : option Z :=
  match port with
  | [] => Some value
  | c :: port => if (c <? 48) || (57 <? c) then None else port_loop port (u32 (u32 (value * 10) + (c - 48)))
  end.
Definition RegistryValidPortString (port : list Z) (portChars : Z) : bool :=
  if (portChars =? 0) || (5 <? portChars) then false
  else match port_loop (take (Z.to_nat portChars) port) 0 with
       | None => false
       | Some value => (1 <=? value) && (value <=? 65535)
       end.

(** [None]: [Value] is shorter than its length says. *)
Definition RegistryStringChars (value : list Z) (bytes : Z) : option Z :=
  if (bytes <? 2) || negb (bytes mod 2 =? 0) then Some 0
  else
    let chars := u16 (bytes / 2) in
    last ← rd value (chars - 1);
    let chars := if last =? 0 then u16 (chars - 1) else chars in
    if existsb (fun c => c =? 0) (take (Z.to_nat chars) value) then Some 0 else Some chars.

(** A counted string: its characters and [MaximumLength]. *)
Record COUNTED := mkCounted { cs_Chars : list Z; cs_MaximumLength : Z }.

Definition RegistryCopyString (output : COUNTED) (value : list Z) (chars : Z) : COUNTED :=
  let bytes := u16 (chars * 2) in
  if (chars =? 0) || (cs_MaximumLength output <? bytes) then output
  else mkCounted (take (Z.to_nat chars) value) (cs_MaximumLength output).

(** ** All of it *)

Record CONFIG := mkConfig {
  TlsEnabled : bool;
  ReadAheadGranularity : Z;
  ReadAheadMaxGranularity : Z;
  ReadFairBudget : Z;
  ReadAheadAdapt : bool;
  ChangeFeedEnabled : bool;
  SubtreeEntries : Z;
  DiskCacheMb : Z;
  ReadAheadSlackGrowth : bool;
  TlsPin : option (list Z);
  PortOut : COUNTED;
  HostOut : COUNTED;
  DiskCachePathOut : COUNTED
}.

Inductive VALUE_NAME :=
  | nTlsEnabled | nReadAheadGranularityKb | nReadAheadMaxGranularityKb | nReadFairBudgetKb | nReadAheadAdapt | nChangeFeed
  | nSubtreeEntries | nDiskCacheMb | nDiskCachePath | nReadAheadSlackGrowth | nTlsPin | nRemotePort | nRemoteHost.

(** What DriverEntry seeds. *)
Definition default_config : CONFIG :=
  mkConfig false READ_AHEAD_GRANULARITY READ_AHEAD_MAX_GRANULARITY READ_FAIR_BUDGET true true SUBTREE_ENTRIES 0 true None
    (mkCounted [] (BLORGFS_REG_PORT_MAX_CHARS * 2)) (mkCounted [] (BLORGFS_REG_HOST_MAX_CHARS * 2)) (mkCounted [] (BLORGFS_REG_DISK_CACHE_PATH_MAX_CHARS * 2)).

Definition read_string (q : QUERY) (maxChars : Z) : option (list Z * Z) :=
  let '(st, data) := RegistryReadValue q REG_SZ (maxChars * 2) in
  if NT_SUCCESS st then Some (wchars data, Z.of_nat (length data)) else None.

(** A granularity is taken when it is a power of two of at least a page. *)
Definition granularity_of (kb : option Z) (zeroToo : bool) (old : Z) : Z :=
  match kb with
  | Some kb =>
      if kb <=? MAXULONG / 1024 then
        let g := u32 (kb * 1024) in
        if (zeroToo && (g =? 0)) || ((PAGE_SIZE <=? g) && (Z.land g (u32 (g - 1)) =? 0)) then g else old
      else old
  | None => old
  end.

(** [path]: the length of the services key's own path; [memory] and [opened]:
    whether the suffixed path and the key could be had. *)
Definition BlorgReadRegistryConfig (c : CONFIG) (path : Z) (memory opened : bool) (value : VALUE_NAME -> QUERY) : option CONFIG :=
  if (MAXUSHORT - 22 - 2 <? path) || negb memory || negb opened then Some c
  else
    let flag n old := match read_dword (value n) with Some v => negb (v =? 0) | None => old end in
    let number n old := match read_dword (value n) with Some v => v | None => old end in
    let text n maxChars out ok :=
      match read_string (value n) maxChars with
      | Some (chars, bytes) => k ← RegistryStringChars chars bytes; Some (if ok chars k : bool then RegistryCopyString out chars k else out)
      | None => Some out
      end in
    diskCachePath ← text nDiskCachePath BLORGFS_REG_DISK_CACHE_PATH_MAX_CHARS (DiskCachePathOut c) (fun _ _ => true);
    port ← text nRemotePort BLORGFS_REG_PORT_MAX_CHARS (PortOut c) RegistryValidPortString;
    host ← text nRemoteHost BLORGFS_REG_HOST_MAX_CHARS (HostOut c) (fun _ _ => true);
    let '(pinSt, pin) := RegistryReadValue (value nTlsPin) REG_BINARY 32 in
    Some (mkConfig
      (flag nTlsEnabled (TlsEnabled c))
      (granularity_of (read_dword (value nReadAheadGranularityKb)) true (ReadAheadGranularity c))
      (granularity_of (read_dword (value nReadAheadMaxGranularityKb)) false (ReadAheadMaxGranularity c))
      (match read_dword (value nReadFairBudgetKb) with Some kb => if kb <=? MAXULONG / 1024 then u32 (kb * 1024) else ReadFairBudget c | None => ReadFairBudget c end)
      (flag nReadAheadAdapt (ReadAheadAdapt c))
      (flag nChangeFeed (ChangeFeedEnabled c))
      (number nSubtreeEntries (SubtreeEntries c))
      (number nDiskCacheMb (DiskCacheMb c))
      (flag nReadAheadSlackGrowth (ReadAheadSlackGrowth c))
      (if NT_SUCCESS pinSt && (32 =? Z.of_nat (length pin)) then Some pin else TlsPin c)
      port host diskCachePath).

(** ** Whatever the registry holds *)

(** The information buffer after its header, whatever was written in it. *)
Definition query_ok (q : QUERY) : Prop :=
  Z.of_nat (length (q_Data q)) = infoBufferSize - headerSize /\ Forall (fun b => 0 <= b < 256) (q_Data q) /\ 0 <= q_DataLength q /\ 0 <= q_ResultLength q < 4294967296.

Definition power_of_two (g : Z) : Prop := exists n, 0 <= n /\ g = 2 ^ n.

Definition text_ok (s : COUNTED) : Prop := Forall (fun c => c <> 0) (cs_Chars s) /\ 2 * Z.of_nat (length (cs_Chars s)) <= cs_MaximumLength s.

(** What the driver relies on of its settings. *)
Record usable (c : CONFIG) : Prop := {
  us_granularity : ReadAheadGranularity c = 0 \/ (PAGE_SIZE <= ReadAheadGranularity c < 4294967296 /\ power_of_two (ReadAheadGranularity c));
  us_max : PAGE_SIZE <= ReadAheadMaxGranularity c < 4294967296 /\ power_of_two (ReadAheadMaxGranularity c);
  us_budget : 0 <= ReadFairBudget c < 4294967296;
  us_port : cs_Chars (PortOut c) = [] \/ (Forall is_digit (cs_Chars (PortOut c)) /\ 1 <= decimal (cs_Chars (PortOut c)) <= 65535);
  us_texts : text_ok (PortOut c) /\ text_ok (HostOut c) /\ text_ok (DiskCachePathOut c);
  us_pin : forall p, TlsPin c = Some p -> length p = 32%nat
}.

Lemma land_pred_power g : 0 < g -> Z.land g (g - 1) = 0 -> power_of_two g.
Proof.
  intros Hg Hl. exists (Z.log2 g). split; [apply Z.log2_nonneg|]. pose proof (Z.log2_spec g Hg) as [H1 H2]. destruct (Z.eq_dec g (2 ^ Z.log2 g)) as [|Hne]; [done|].
  assert (Hlog : Z.log2 (g - 1) = Z.log2 g) by (apply Z.log2_unique; [apply Z.log2_nonneg|lia]).
  assert (Hb : Z.testbit (Z.land g (g - 1)) (Z.log2 g) = true).
  { rewrite Z.land_spec, Z.bit_log2 by done. rewrite <- Hlog. apply Z.bit_log2. assert (0 < 2 ^ Z.log2 g) by (apply Z.pow_pos_nonneg; [lia|apply Z.log2_nonneg]). lia. }
  rewrite Hl, Z.bits_0 in Hb. done.
Qed.

Lemma granularity_of_ok kb zeroToo old :
  (forall v, kb = Some v -> 0 <= v) -> (zeroToo = true /\ old = 0 \/ (PAGE_SIZE <= old < 4294967296 /\ power_of_two old)) ->
  let g := granularity_of kb zeroToo old in zeroToo = true /\ g = 0 \/ (PAGE_SIZE <= g < 4294967296 /\ power_of_two g).
Proof.
  intros Hv Hold. unfold granularity_of. destruct kb as [kb|]; [|done]. destruct (Z.leb_spec kb (MAXULONG / 1024)); [|done]. pose proof (u32_range (kb * 1024)) as Hr.
  destruct (zeroToo && _) eqn:E; cbn [orb]; [left; apply andb_true_iff in E as [-> E%Z.eqb_eq]; done|].
  destruct (Z.leb_spec PAGE_SIZE (u32 (kb * 1024))) as [Hp|]; cbn [andb]; [|done]. destruct (Z.eqb_spec (Z.land (u32 (kb * 1024)) (u32 (u32 (kb * 1024) - 1))) 0) as [Hz|]; [|done].
  right. unfold PAGE_SIZE in Hp. rewrite (u32_id (u32 (kb * 1024) - 1)) in Hz by lia. split; [unfold PAGE_SIZE; lia|]. apply land_pred_power; [lia|done].
Qed.

Lemma take_range l n : Forall (fun b => 0 <= b < 256) l -> Forall (fun b => 0 <= b < 256) (take n l).
Proof. apply Forall_take. Qed.

(** What a value read into [bufferSize] bytes is. *)
Lemma read_value_ok q type size st data :
  query_ok q -> RegistryReadValue q type size = (st, data) -> NT_SUCCESS st = true ->
  Z.of_nat (length data) = q_DataLength q /\ q_DataLength q <= size /\ Forall (fun b => 0 <= b < 256) data /\ (type = REG_DWORD -> length data = 4%nat).
Proof.
  intros (Hlen & Hb & H0 & Hr). unfold RegistryReadValue. destruct (NT_SUCCESS (q_Status q)) eqn:Hst; cbn [negb]; [|intros [= <- <-] ?; congruence].
  destruct (_ || _) eqn:E1; [intros [= <- <-] Hf; vm_compute in Hf; discriminate|]. apply orb_false_iff in E1 as [E1%Z.ltb_ge E2%Z.ltb_ge].
  destruct (_ || _) eqn:E3; [intros [= <- <-] Hf; vm_compute in Hf; discriminate|]. repeat apply orb_false_iff in E3 as [E3 ?]. intros [= <- <-] _. unfold infoBufferSize, headerSize, BLORGFS_REG_DISK_CACHE_PATH_MAX_CHARS in *.
  assert (Hdl : q_DataLength q <= q_ResultLength q - 12) by (rewrite u32_id in *; bool_cases; lia). rewrite length_take.
  split_and!; [lia|bool_cases; lia|by apply take_range|]. intros ->. cbn [andb] in *. assert (q_DataLength q = 4) by (bool_cases; lia). lia.
Qed.

Lemma byte_at_range l i : Forall (fun b => 0 <= b < 256) l -> 0 <= byte_at l i < 256.
Proof. intros Hl. unfold byte_at. destruct (l !! i) as [b|] eqn:E; cbn [default]; [|lia]. exact (Forall_lookup_1 _ _ _ _ Hl E). Qed.

Lemma read_dword_range q v : query_ok q -> read_dword q = Some v -> 0 <= v < 4294967296.
Proof.
  intros Hq. unfold read_dword. destruct (RegistryReadValue q REG_DWORD 4) as [st data] eqn:E. destruct (NT_SUCCESS st) eqn:Hs; [|done]. intros [= <-].
  destruct (read_value_ok _ _ _ _ _ Hq E Hs) as (_ & _ & Hb & _). unfold dword.
  pose proof (byte_at_range data 0 Hb). pose proof (byte_at_range data 1 Hb). pose proof (byte_at_range data 2 Hb). pose proof (byte_at_range data 3 Hb). lia.
Qed.

(** ** Strings *)

Lemma wchars_length l n : length l = (2 * n)%nat -> length (wchars l) = n.
Proof. revert l. induction n as [|n IH]; intros [|a [|b l]] H; cbn in *; try lia. f_equal. apply IH. lia. Qed.

(** The characters kept are inside the value and none is zero. *)
Lemma string_chars_ok l bytes :
  Z.of_nat (length l) = bytes -> bytes < 131072 ->
  exists k, RegistryStringChars (wchars l) bytes = Some k /\ 0 <= k <= bytes / 2 /\ Forall (fun c => c <> 0) (take (Z.to_nat k) (wchars l)).
Proof.
  intros Hl Hb. unfold RegistryStringChars. destruct (Z.ltb_spec bytes 2); [by exists 0; split_and!; try done; Z.div_mod_to_equations; lia|].
  destruct (Z.eqb_spec (bytes mod 2) 0) as [Hm|]; cbn [orb negb]; [|by exists 0; split_and!; try done; Z.div_mod_to_equations; lia].
  assert (Hh : 1 <= bytes / 2 < 65536) by (Z.div_mod_to_equations; lia). rewrite (u16_id (bytes / 2)) by lia.
  assert (Hw : Z.of_nat (length (wchars l)) = bytes / 2) by (rewrite (wchars_length l (Z.to_nat (bytes / 2))); Z.div_mod_to_equations; lia).
  destruct (rd_in_range (wchars l) (bytes / 2 - 1) ltac:(lia)) as [c ->]. cbn [mbind option_bind]. rewrite (u16_id (bytes / 2 - 1)) by lia.
  set (k := if c =? 0 then bytes / 2 - 1 else bytes / 2). assert (Hk : 0 <= k <= bytes / 2) by (unfold k; destruct (c =? 0); lia).
  destruct (existsb _ _) eqn:E; [by exists 0; split_and!; try done; lia|]. exists k. split_and!; [done|lia|lia|]. apply Forall_forall. intros x Hx ->.
  enough (existsb (fun c => c =? 0) (take (Z.to_nat k) (wchars l)) = true) by congruence. apply existsb_exists. exists 0. split; [by apply list_elem_of_In|done].
Qed.

Lemma copy_string_ok out l k : text_ok out -> 0 <= k -> 2 * k < 65536 -> Forall (fun c => c <> 0) (take (Z.to_nat k) l) -> text_ok (RegistryCopyString out l k).
Proof.
  intros Ho Hk Hb Hn. unfold RegistryCopyString. rewrite u16_id by lia. destruct (_ || _) eqn:E; [done|]. apply orb_false_iff in E as [_ E%Z.ltb_ge].
  split; cbn [cs_Chars cs_MaximumLength]; [done|]. rewrite length_take. lia.
Qed.

Lemma port_loop_ok l : forall v, 0 <= v -> (v + 1) * 10 ^ Z.of_nat (length l) <= 4294967296 ->
  match port_loop l v with Some r => Forall is_digit l /\ r = decimal_from v l | None => True end.
Proof.
  induction l as [|c l IH]; intros v Hv Hb; cbn [port_loop]; [by split|]. destruct (_ || _) eqn:E; [done|]. apply orb_false_iff in E as [E1%Z.ltb_ge E2%Z.ltb_ge].
  cbn [length] in Hb. rewrite Nat2Z.inj_succ, Z.pow_succ_r in Hb by lia. assert (0 < 10 ^ Z.of_nat (length l)) by (apply Z.pow_pos_nonneg; lia).
  assert ((v + 1) * 10 <= 4294967296) by nia. rewrite (u32_id (v * 10)), u32_id by lia. specialize (IH (v * 10 + (c - 48)) ltac:(lia) ltac:(nia)).
  destruct (port_loop l _); [|done]. destruct IH as [IH ->]. split; [constructor; [unfold is_digit; lia|done]|done].
Qed.

Lemma valid_port_ok l k : RegistryValidPortString l k = true -> 0 <= k ->
  Forall is_digit (take (Z.to_nat k) l) /\ 1 <= decimal (take (Z.to_nat k) l) <= 65535.
Proof.
  unfold RegistryValidPortString. destruct (_ || _) eqn:E; [done|]. apply orb_false_iff in E as [_ E%Z.ltb_ge]. intros H Hk.
  pose proof (port_loop_ok (take (Z.to_nat k) l) 0 ltac:(lia)) as Hp. assert (Hlen : Z.of_nat (length (take (Z.to_nat k) l)) <= 5) by (rewrite length_take; lia).
  assert (H10 : 10 ^ Z.of_nat (length (take (Z.to_nat k) l)) <= 10 ^ 5) by (apply Z.pow_le_mono_r; lia). specialize (Hp ltac:(lia)).
  destruct (port_loop _ 0) as [v|]; [|done]. destruct Hp as [Hd ->]. split; [done|]. apply andb_true_iff in H. unfold decimal. lia.
Qed.

(** One string setting: the old one, or an accepted one that fits. *)
Lemma text_setting_ok q maxChars out ok :
  query_ok q -> 0 <= maxChars <= 260 -> text_ok out -> exists out',
  match read_string q maxChars with
  | Some (chars, bytes) => k ← RegistryStringChars chars bytes; Some (if ok chars k : bool then RegistryCopyString out chars k else out)
  | None => Some out
  end = Some out' /\ text_ok out' /\ (out' = out \/ exists chars k, ok chars k = true /\ 0 <= k /\ cs_Chars out' = take (Z.to_nat k) chars).
Proof.
  intros Hq Hm Ho. unfold read_string. destruct (RegistryReadValue q REG_SZ (maxChars * 2)) as [st data] eqn:E. destruct (NT_SUCCESS st) eqn:Hs; [|exists out; auto].
  destruct (read_value_ok _ _ _ _ _ Hq E Hs) as (Hl & Hd & _). destruct (string_chars_ok data (Z.of_nat (length data)) eq_refl ltac:(lia)) as (k & -> & Hk & Hn). cbn [mbind option_bind].
  eexists. split; [reflexivity|]. destruct (ok (wchars data) k) eqn:Hok; [|auto]. split; [apply copy_string_ok; try done; Z.div_mod_to_equations; lia|].
  unfold RegistryCopyString. destruct (_ || _); [by left|]. right. exists (wchars data), k. split_and!; [done|lia|done].
Qed.

Lemma default_usable : usable default_config.
Proof.
  split; [right; split; [done|by exists 17]|split; [done|by exists 21]|done|by left| |done]. split_and!; (split; [constructor|done]).
Qed.

(** Whatever the registry holds under the driver's key, of
    whatever type, length and content, reading it is defined and from the
    defaults leaves usable settings: read-ahead granularities that are powers
    of two of at least a page (or zero, for none), a port that is absent or
    the decimal digits of 1..65535, strings without a NUL inside their
    buffers, and a pin of 32 bytes or none. *)
Theorem config_usable path memory opened value :
  (forall n, query_ok (value n)) -> exists c, BlorgReadRegistryConfig default_config path memory opened value = Some c /\ usable c.
Proof.
  intros Hq. unfold BlorgReadRegistryConfig. pose proof default_usable as Hdef.
  destruct (_ || _); [by exists default_config|]. destruct Hdef as [D1 D2 D3 D4 (D5 & D6 & D7) D8].
  destruct (text_setting_ok (value nDiskCachePath) BLORGFS_REG_DISK_CACHE_PATH_MAX_CHARS (DiskCachePathOut default_config) (fun _ _ => true) (Hq _) ltac:(done) D7) as (o1 & -> & Ho1 & _).
  destruct (text_setting_ok (value nRemotePort) BLORGFS_REG_PORT_MAX_CHARS (PortOut default_config) RegistryValidPortString (Hq _) ltac:(done) D5) as (o2 & -> & Ho2 & Hport).
  destruct (text_setting_ok (value nRemoteHost) BLORGFS_REG_HOST_MAX_CHARS (HostOut default_config) (fun _ _ => true) (Hq _) ltac:(done) D6) as (o3 & -> & Ho3 & _).
  cbn [mbind option_bind]. destruct (RegistryReadValue (value nTlsPin) REG_BINARY 32) as [st pin]. eexists. split; [reflexivity|]. split; cbn -[default_config].
  - destruct (granularity_of_ok (read_dword (value nReadAheadGranularityKb)) true (ReadAheadGranularity default_config)) as [[_ H]|H]; [|tauto|by left|by right].
    intros v Hv. apply (read_dword_range _ _ (Hq _)) in Hv. lia.
  - destruct (granularity_of_ok (read_dword (value nReadAheadMaxGranularityKb)) false (ReadAheadMaxGranularity default_config)) as [[? _]|H]; [|by right|done|done].
    intros v Hv. apply (read_dword_range _ _ (Hq _)) in Hv. lia.
  - destruct (read_dword _) as [kb|]; [|done]. destruct (kb <=? _); [apply u32_range|done].
  - destruct Hport as [->|(chars & k & Hok & Hk & ->)]; [by left|]. right. by apply valid_port_ok.
  - done.
  - intros p. destruct (NT_SUCCESS st && _) eqn:E; [|done]. intros [= <-]. apply andb_true_iff in E as [_ E%Z.eqb_eq]. lia.
Qed.

(** A registry with a port, a granularity of 64 KB and nothing else. *)
Definition demo_query (type : Z) (data : list Z) : QUERY :=
  mkQuery STATUS_SUCCESS (12 + Z.of_nat (length data)) type (Z.of_nat (length data)) (data ++ replicate (524 - length data) 0).
Definition demo_registry (n : VALUE_NAME) : QUERY :=
  match n with
  | nRemotePort => demo_query REG_SZ [52; 0; 52; 0; 51; 0; 0; 0]
  | nReadAheadGranularityKb => demo_query REG_DWORD [64; 0; 0; 0]
  | _ => demo_query 0 []
  end.

Lemma demo_query_ok type data : Forall (fun b => 0 <= b < 256) data -> (length data <= 524)%nat -> query_ok (demo_query type data).
Proof.
  intros Hd Hl. split_and!; cbn [demo_query q_Data q_DataLength q_ResultLength]; unfold infoBufferSize, headerSize, BLORGFS_REG_DISK_CACHE_PATH_MAX_CHARS; try lia.
  - rewrite length_app, length_replicate. lia.
  - apply Forall_app. split; [done|]. by apply Forall_replicate.
Qed.

Lemma config_usable_witness :
  exists c, BlorgReadRegistryConfig default_config 60 true true demo_registry = Some c /\ usable c.
Proof.
  apply (config_usable 60 true true demo_registry). intros [| | | | | | | | | | | |]; apply demo_query_ok; cbn; try lia; repeat constructor; lia.
Defined.
