(* ===== verification/ReadAdapt.v ===== *)
(** * Read lengths, streams and read-ahead granularity (src/Read.c)

    The end-of-file trim, the stream trackers, and the policy that moves a
    handle's read-ahead granularity from what its reader does. *)

From S2P Require Import Prelude Registry.

Definition READ_STREAM_TRACKER_COUNT : Z := 4.
Definition READ_AHEAD_ADAPT_WINDOW_GRANULES : Z := 2.
Definition READ_AHEAD_ADAPT_WINDOW_FLOOR : Z := 256 * 1024.
Definition READ_AHEAD_ADAPT_LEAD_GRANULES : Z := 1.
Definition READ_AHEAD_ADAPT_AGREEMENT : Z := 2.
Definition READ_AHEAD_ADAPT_WASTE_RATIO : Z := 2.
Definition READ_AHEAD_ADAPT_GROW_STREAK : Z := 16.
Definition READ_AHEAD_ADAPT_GREEDY_IDLE_PERCENT : Z := 25.
Definition READ_AHEAD_ADAPT_QUIET_DEPTH : Z := 6.

(** ** End of file *)

(** [RealLengthOut] is written only on success. *)
Definition ReadTrimToFileSize (fileSize startingByte bytesLength : Z) : NTSTATUS * option Z :=
  if fileSize <=? startingByte then (STATUS_END_OF_FILE, None)
  else if MAXLONG64 - bytesLength <? startingByte then (STATUS_END_OF_FILE, None)
  else if fileSize <? s64 (startingByte + bytesLength) then
    let trimLength := u32 (s64 (startingByte + bytesLength) - fileSize) in (STATUS_SUCCESS, Some (u32 (bytesLength - trimLength)))
  else (STATUS_SUCCESS, Some bytesLength).

(** ** Streams *)

Record READ_STREAM_TRACKER := mkTracker { End : Z; Streak : Z }.

(** The fields of an FCB the read path keeps. *)
Record FCB := mkFcb {
  Streams : list READ_STREAM_TRACKER;
  ReadLastStreamIndex : Z;
  ReadAheadConsumedBytes : Z;
  ReadAheadFetchedBytes : Z;
  ReadMaxPagingBytes : Z;
  ReadIdleTicks : Z;
  ReadBusyTicks : Z;
  ReadIdleLastEndQpc : Z
}.

Definition ReadIsSequential (fcb : FCB) (offset : Z) : bool := foldl (fun b s => b || (offset =? End s)) false (Streams fcb).

(** One pass: the last tracker that ends at [offset], and the first of the
    coldest. *)
Fixpoint claim_loop (all l : list READ_STREAM_TRACKER) (offset i match_ coldest : Z) : option (Z * Z) :=
  match l with
  | [] => Some (match_, coldest)
  | s :: l =>
      c ← rd all coldest;
      claim_loop all l offset (i + 1) (if offset =? End s then i else match_) (if Streak s <? Streak c then i else coldest)
  end.
Definition ReadClaimStream (fcb : FCB) (offset : Z) : option Z :=
  '(match_, coldest) ← claim_loop (Streams fcb) (Streams fcb) offset 0 READ_STREAM_TRACKER_COUNT 0;
  Some (if negb (READ_STREAM_TRACKER_COUNT =? match_) then match_ else coldest).

Definition ReadTrackStream (fcb : FCB) (offset len : Z) : option FCB :=
  index ← ReadClaimStream fcb offset;
  s ← rd (Streams fcb) index;
  streams ← wr (Streams fcb) index (mkTracker (u64 (offset + len)) (if offset =? End s then u64 (Streak s + 1) else 1));
  Some (mkFcb streams index (ReadAheadConsumedBytes fcb) (ReadAheadFetchedBytes fcb) (ReadMaxPagingBytes fcb) (ReadIdleTicks fcb) (ReadBusyTicks fcb) (ReadIdleLastEndQpc fcb)).

Definition ReadCurrentStreak (fcb : FCB) : option Z := s ← rd (Streams fcb) (ReadLastStreamIndex fcb); Some (Streak s).

(** ** The granularity policy *)

Record CCB := mkCcb { ccb_ReadAheadGranularity : Z; ReadAheadAgreement : Z }.

Definition ReadIsGreedy (fcb : FCB) : bool :=
  let total := u64 (ReadIdleTicks fcb + ReadBusyTicks fcb) in
  if (total =? 0) || (ReadIdleTicks fcb =? 0) then false
  else u64 (ReadIdleTicks fcb * 100) <? u64 (total * READ_AHEAD_ADAPT_GREEDY_IDLE_PERCENT).

(** The window's counters, back to zero. *)
Definition new_window (fcb : FCB) : FCB :=
  mkFcb (Streams fcb) (ReadLastStreamIndex fcb) 0 0 0 0 0 (ReadIdleLastEndQpc fcb).

(** What a full window says: 1 that the granule is too large, -1 that it could
    be larger, 0 neither. *)
Definition window_vote (current consumed fetched honoured streak : Z) (greedy : bool) : Z :=
  let lead := u64 (current * READ_AHEAD_ADAPT_LEAD_GRANULES) in
  if u64 (u64 (consumed * READ_AHEAD_ADAPT_WASTE_RATIO) + lead) <? fetched then 1
  else if greedy && (current <=? honoured) && (READ_AHEAD_ADAPT_GROW_STREAK <=? streak) then -1
  else 0.

(** The tally of consecutive votes, and the granule once two agree. *)
Definition cast_vote (c : CONFIG) (ccb : CCB) (vote : Z) : CCB :=
  if vote =? 0 then mkCcb (ccb_ReadAheadGranularity ccb) 0
  else
    let current := ccb_ReadAheadGranularity ccb in
    let agreement := if 0 <? ReadAheadAgreement ccb * vote then ReadAheadAgreement ccb + vote else vote in
    if (- READ_AHEAD_ADAPT_AGREEMENT <? agreement) && (agreement <? READ_AHEAD_ADAPT_AGREEMENT) then mkCcb current agreement
    else
      let ceiling := if ReadAheadMaxGranularity c <? ReadAheadGranularity c then ReadAheadGranularity c else ReadAheadMaxGranularity c in
      let next := if 0 <? vote then (if PAGE_SIZE <? current then current / 2 else PAGE_SIZE)
                  else (if current <? ceiling then u32 (current * 2) else ceiling) in
      mkCcb next 0.

(** [active]: the fetches in flight, [BlorgStatisticsFetchesActive]. *)
Definition ReadAdaptGranularity (c : CONFIG) (fcb : FCB) (ccb : CCB) (active : Z) : option (FCB * CCB) :=
  if (ReadAheadGranularity c =? 0) || (ccb_ReadAheadGranularity ccb =? 0) || negb (ReadAheadAdapt c) then Some (fcb, ccb)
  else
    let current := ccb_ReadAheadGranularity ccb in
    let window := Z.max (u64 (current * READ_AHEAD_ADAPT_WINDOW_GRANULES)) READ_AHEAD_ADAPT_WINDOW_FLOOR in
    if ReadAheadConsumedBytes fcb <? window then Some (fcb, ccb)
    else
      let greedy := ReadAheadSlackGrowth c && (active <? READ_AHEAD_ADAPT_QUIET_DEPTH) && ReadIsGreedy fcb in
      streak ← ReadCurrentStreak fcb;
      let vote := window_vote current (ReadAheadConsumedBytes fcb) (ReadAheadFetchedBytes fcb) (ReadMaxPagingBytes fcb) streak greedy in
      Some (new_window fcb, cast_vote c ccb vote).

(** The cache map's first read on a handle. *)
Definition init_cache_map (c : CONFIG) (fcb : FCB) (ccb : CCB) : FCB * CCB :=
  if ReadAheadGranularity c =? 0 then (fcb, ccb)
  else (mkFcb (Streams fcb) (ReadLastStreamIndex fcb) 0 0 (ReadMaxPagingBytes fcb) (ReadIdleTicks fcb) (ReadBusyTicks fcb) (ReadIdleLastEndQpc fcb),
        mkCcb (ReadAheadGranularity c) (ReadAheadAgreement ccb)).

(** ** Trimming *)

Lemma trim_value fileSize startingByte bytesLength :
  0 <= startingByte <= MAXLONG64 -> 0 < bytesLength < 4294967296 -> fileSize <= MAXLONG64 ->
  ReadTrimToFileSize fileSize startingByte bytesLength =
    (if (fileSize <=? startingByte) || (MAXLONG64 <? startingByte + bytesLength) then (STATUS_END_OF_FILE, None)
     else (STATUS_SUCCESS, Some (Z.min bytesLength (fileSize - startingByte)))).
Proof.
  intros Hs Hb Hf. unfold ReadTrimToFileSize, MAXLONG64 in *. destruct (Z.leb_spec fileSize startingByte); cbn [orb]; [done|].
  destruct (Z.ltb_spec 9223372036854775807 (startingByte + bytesLength)), (Z.ltb_spec (9223372036854775807 - bytesLength) startingByte); try lia; [done|].
  rewrite s64_id by lia. destruct (Z.ltb_spec fileSize (startingByte + bytesLength)); [|do 2 f_equal; lia].
  rewrite (u32_id (startingByte + bytesLength - fileSize)), u32_id by lia. do 2 f_equal. lia.
Qed.

(** The trim on every branch, without overflow: a read that
    starts inside the file and whose end a LONGLONG can hold is cut to what
    the file has of it, which is never empty nor longer than asked; any other
    is end of file. *)
Theorem trim_exact fileSize startingByte bytesLength :
  0 <= startingByte <= MAXLONG64 -> 0 < bytesLength < 4294967296 -> fileSize <= MAXLONG64 ->
  ReadTrimToFileSize fileSize startingByte bytesLength =
    (if (fileSize <=? startingByte) || (MAXLONG64 <? startingByte + bytesLength) then (STATUS_END_OF_FILE, None)
     else (STATUS_SUCCESS, Some (Z.min bytesLength (fileSize - startingByte)))).
Proof. apply trim_value. Qed.

Lemma trim_exact_witness : ReadTrimToFileSize 10000 8192 4096 = (STATUS_SUCCESS, Some 1808).
Proof. rewrite (trim_exact 10000 8192 4096); [reflexivity|unfold MAXLONG64; lia|lia|unfold MAXLONG64; lia]. Defined.

(** ** Streams *)

Definition fcb_ok (fcb : FCB) : Prop := length (Streams fcb) = 4%nat /\ 0 <= ReadLastStreamIndex fcb < 4.

(** The tracker a read claims: the one that ends where it starts, or the
    coldest. *)
Definition claimed (l : list READ_STREAM_TRACKER) (offset index : Z) : Prop :=
  exists s, rd l index = Some s /\ (End s = offset \/ ((forall t, t ∈ l -> End t <> offset) /\ forall t, t ∈ l -> Streak s <= Streak t)).

Lemma claim_loop_spec all offset l : forall pre i m c,
  all = pre ++ l -> i = Z.of_nat (length pre) -> all <> [] -> Z.of_nat (length all) <= READ_STREAM_TRACKER_COUNT ->
  (if READ_STREAM_TRACKER_COUNT =? m then forall t, t ∈ pre -> End t <> offset else exists s, rd all m = Some s /\ End s = offset) ->
  (exists s, rd all c = Some s /\ forall t, t ∈ pre -> Streak s <= Streak t) ->
  exists m' c', claim_loop all l offset i m c = Some (m', c') /\
    (if READ_STREAM_TRACKER_COUNT =? m' then forall t, t ∈ all -> End t <> offset else exists s, rd all m' = Some s /\ End s = offset) /\
    exists s, rd all c' = Some s /\ forall t, t ∈ all -> Streak s <= Streak t.
Proof.
  induction l as [|s l IH]; intros pre i m c Hall Hi Hne Hlen Hm Hc; cbn [claim_loop]; [exists m, c; rewrite app_nil_r in Hall; by subst|].
  destruct Hc as (cs & Hcs & Hcold). rewrite Hcs. cbn [mbind option_bind]. assert (Hr : rd all i = Some s) by (subst; apply rd_middle).
  assert (Hlt : i < READ_STREAM_TRACKER_COUNT) by (apply rd_Some in Hr; lia).
  apply (IH (pre ++ [s])); [by rewrite <- app_assoc|rewrite length_app; cbn; lia|done|done| |].
  - destruct (Z.eqb_spec offset (End s)) as [->|Hoff].
    + rewrite (proj2 (Z.eqb_neq _ _)) by lia. by exists s.
    + destruct (READ_STREAM_TRACKER_COUNT =? m); [|done]. intros t [Ht| ->%list_elem_of_singleton]%elem_of_app; [by apply Hm|congruence].
  - destruct (Z.ltb_spec (Streak s) (Streak cs)) as [Hcmp|Hcmp]; [exists s|exists cs]; (split; [done|]); intros t [Ht| ->%list_elem_of_singleton]%elem_of_app; try lia; specialize (Hcold t Ht); lia.
Qed.

Lemma claim_stream fcb offset : length (Streams fcb) = 4%nat -> exists index, ReadClaimStream fcb offset = Some index /\ claimed (Streams fcb) offset index.
Proof.
  intros Hl. unfold ReadClaimStream. assert (Hne : Streams fcb <> []) by (destruct (Streams fcb); done).
  destruct (rd_in_range (Streams fcb) 0 ltac:(lia)) as [s0 H0].
  destruct (claim_loop_spec (Streams fcb) offset (Streams fcb) [] 0 READ_STREAM_TRACKER_COUNT 0) as (m & c & -> & Hm & s & Hc & Hcold); try done.
  - unfold READ_STREAM_TRACKER_COUNT. lia.
  - by intros t ?%elem_of_nil.
  - exists s0. split; [done|]. by intros t ?%elem_of_nil.
  - cbn [mbind option_bind]. eexists. split; [reflexivity|]. destruct (READ_STREAM_TRACKER_COUNT =? m); cbn [negb].
    + exists s. split; [done|]. by right.
    + destruct Hm as (s' & Hs' & He). exists s'. split; [done|]. by left.
Qed.

(** Tracking a read: the claimed tracker moves to its end, its streak one
    longer if the read continued it and one if not; the others stay. *)
Lemma track_stream fcb offset len :
  fcb_ok fcb -> exists fcb' index s, ReadTrackStream fcb offset len = Some fcb' /\ fcb_ok fcb' /\ claimed (Streams fcb) offset index /\ rd (Streams fcb) index = Some s /\
    ReadLastStreamIndex fcb' = index /\ rd (Streams fcb') index = Some (mkTracker (u64 (offset + len)) (if offset =? End s then u64 (Streak s + 1) else 1)) /\
    forall i, i <> index -> rd (Streams fcb') i = rd (Streams fcb) i.
Proof.
  intros [Hl Hi]. unfold ReadTrackStream. destruct (claim_stream fcb offset Hl) as (index & -> & Hcl). cbn [mbind option_bind]. pose proof Hcl as (s & Hs & _).
  rewrite Hs. cbn [mbind option_bind]. destruct (wr_exists (Streams fcb) index (mkTracker (u64 (offset + len)) (if offset =? End s then u64 (Streak s + 1) else 1)) s Hs) as [l' Hw].
  rewrite Hw. cbn [mbind option_bind]. eexists _, index, s. split; [reflexivity|]. split_and!; cbn [Streams ReadLastStreamIndex]; try done.
  - split; cbn; [by rewrite (wr_length _ _ _ _ Hw)|]. apply rd_Some in Hs. lia.
  - by eapply rd_wr_eq.
  - intros i Hne. by eapply rd_wr_ne; [exact Hw|congruence].
Qed.

(** ** The granule *)

(** Where a handle's granule may be. *)
Definition ceiling_of (c : CONFIG) : Z := Z.max (ReadAheadGranularity c) (ReadAheadMaxGranularity c).
Definition granule_ok (c : CONFIG) (ccb : CCB) : Prop :=
  (ccb_ReadAheadGranularity ccb = 0 \/ (PAGE_SIZE <= ccb_ReadAheadGranularity ccb <= ceiling_of c /\ power_of_two (ccb_ReadAheadGranularity ccb))) /\
  -1 <= ReadAheadAgreement ccb <= 1.

Lemma power_le a b : power_of_two a -> power_of_two b -> a < b -> 2 * a <= b.
Proof.
  intros (n & Hn & ->) (m & Hm & ->) Hlt. rewrite <- Z.pow_succ_r by done. apply Z.pow_le_mono_r; [lia|]. apply Z.pow_lt_mono_r_iff in Hlt; lia.
Qed.

Lemma power_half a : power_of_two a -> 1 < a -> power_of_two (a / 2) /\ 2 * (a / 2) = a.
Proof.
  intros (n & Hn & ->) Ha. assert (n <> 0) by (intros ->; done). replace (2 ^ n) with (2 ^ (n - 1) * 2) by (replace n with (Z.succ (n - 1)) at 2 by lia; rewrite Z.pow_succ_r by lia; lia).
  rewrite Z.div_mul by done. split; [exists (n - 1); split; [lia|done]|lia].
Qed.

Lemma page_power : power_of_two PAGE_SIZE.
Proof. by exists 12. Qed.

(** One decided step: halved, but not below a page, or doubled, but not past
    the ceiling. *)
Definition move (c : CONFIG) (g vote : Z) : Z :=
  if 0 <? vote then (if PAGE_SIZE <? g then g / 2 else PAGE_SIZE) else (if g <? ceiling_of c then u32 (g * 2) else ceiling_of c).

Lemma ceiling_ok c : usable c -> ReadAheadGranularity c <> 0 -> PAGE_SIZE <= ceiling_of c < 4294967296 /\ power_of_two (ceiling_of c).
Proof.
  intros Hu Hne. destruct (us_granularity _ Hu) as [?|[Hg Hgp]]; [done|]. destruct (us_max _ Hu) as [Hm Hmp]. unfold ceiling_of.
  destruct (Z.max_spec (ReadAheadGranularity c) (ReadAheadMaxGranularity c)) as [[_ ->]|[_ ->]]; done.
Qed.

Lemma move_ok c g vote : usable c -> ReadAheadGranularity c <> 0 -> PAGE_SIZE <= g <= ceiling_of c -> power_of_two g ->
  PAGE_SIZE <= move c g vote <= ceiling_of c /\ power_of_two (move c g vote).
Proof.
  intros Hu Hne Hg Hp. destruct (ceiling_ok c Hu Hne) as [Hc Hcp]. unfold move. destruct (0 <? vote).
  - destruct (Z.ltb_spec PAGE_SIZE g) as [Hlt|]; [|split; [lia|apply page_power]]. unfold PAGE_SIZE in *. destruct (power_half g Hp ltac:(lia)) as [Hh He].
    pose proof (power_le _ _ page_power Hp Hlt). unfold PAGE_SIZE in *. split; [lia|done].
  - destruct (Z.ltb_spec g (ceiling_of c)) as [Hlt|]; [|split; [lia|done]]. pose proof (power_le _ _ Hp Hcp Hlt). unfold PAGE_SIZE in *. rewrite u32_id by lia. split; [lia|].
    destruct Hp as (n & Hn & ->). exists (n + 1). split; [lia|]. rewrite Z.pow_add_r by lia. lia.
Qed.

Lemma cast_vote_move c ccb vote :
  cast_vote c ccb vote = if vote =? 0 then mkCcb (ccb_ReadAheadGranularity ccb) 0
    else let a := if 0 <? ReadAheadAgreement ccb * vote then ReadAheadAgreement ccb + vote else vote in
         if (-2 <? a) && (a <? 2) then mkCcb (ccb_ReadAheadGranularity ccb) a else mkCcb (move c (ccb_ReadAheadGranularity ccb) vote) 0.
Proof.
  unfold cast_vote, move, ceiling_of, READ_AHEAD_ADAPT_AGREEMENT. destruct (vote =? 0); [done|]. cbv zeta. destruct (_ && _); [done|].
  assert ((if ReadAheadMaxGranularity c <? ReadAheadGranularity c then ReadAheadGranularity c else ReadAheadMaxGranularity c) = Z.max (ReadAheadGranularity c) (ReadAheadMaxGranularity c)) as ->; [|done].
  destruct (Z.ltb_spec (ReadAheadMaxGranularity c) (ReadAheadGranularity c)); lia.
Qed.

Lemma window_vote_range current consumed fetched honoured streak greedy : -1 <= window_vote current consumed fetched honoured streak greedy <= 1.
Proof. unfold window_vote. destruct (_ <? _); [lia|]. destruct (_ && _); lia. Qed.

Lemma cast_vote_ok c ccb vote : usable c -> ReadAheadGranularity c <> 0 -> granule_ok c ccb -> ccb_ReadAheadGranularity ccb <> 0 -> -1 <= vote <= 1 -> granule_ok c (cast_vote c ccb vote).
Proof.
  intros Hu Hne [Hg Ha] Hnz Hv. destruct Hg as [?|[Hr Hp]]; [done|]. rewrite cast_vote_move. destruct (Z.eqb_spec vote 0); [split; [by right|cbn; lia]|]. cbv zeta.
  set (a := if 0 <? ReadAheadAgreement ccb * vote then ReadAheadAgreement ccb + vote else vote).
  destruct (Z.ltb_spec (-2) a), (Z.ltb_spec a 2); cbn [andb]; split; cbn [ccb_ReadAheadGranularity ReadAheadAgreement]; try lia; try (by right); right; by apply move_ok.
Qed.

(** What happens to a handle's granule: its cache map is set up, and reads
    consume, fetch, idle and adapt; anything else of the file's may change
    meanwhile, through other handles. *)
Inductive handle_step (c : CONFIG) : CCB -> CCB -> Prop :=
  | step_init fcb ccb fcb' ccb' : init_cache_map c fcb ccb = (fcb', ccb') -> handle_step c ccb ccb'
  | step_adapt fcb ccb active fcb' ccb' : fcb_ok fcb -> ReadAdaptGranularity c fcb ccb active = Some (fcb', ccb') -> handle_step c ccb ccb'.

(** Under any settings the registry can leave, the granule
    Cc is told on a handle is, through any history of its reads, a power of
    two from one page up to the configured ceiling (never past it, never a
    wrapped product), and the tally of votes stays below the agreement. *)
Theorem granule_stays_in_range c ccb :
  usable c -> rtc (handle_step c) (mkCcb 0 0) ccb -> granule_ok c ccb.
Proof.
  intros Hu Hs. assert (H0 : granule_ok c (mkCcb 0 0)) by (split; [by left|cbn; lia]). revert H0. induction Hs as [|c1 c2 c3 Hst _ IH]; [done|]. intros Hok. apply IH. clear IH.
  destruct Hst as [fcb ccb fcb' ccb' H|fcb ccb active fcb' ccb' Hf H].
  - unfold init_cache_map in H. destruct (Z.eqb_spec (ReadAheadGranularity c) 0) as [|Hne]; injection H as <- <-; [done|]. destruct Hok as [_ Ha]. split; [|done]. right. cbn.
    destruct (us_granularity _ Hu) as [?|[Hg Hp]]; [done|]. split; [unfold ceiling_of; lia|done].
  - unfold ReadAdaptGranularity in H. destruct (_ || _) eqn:E; [by injection H as <- <-|]. apply orb_false_iff in E as [E _]. apply orb_false_iff in E as [E1%Z.eqb_neq E2%Z.eqb_neq].
    destruct (_ <? _); [by injection H as <- <-|]. destruct (ReadCurrentStreak fcb); [|done]. injection H as <- <-. apply cast_vote_ok; try done. apply window_vote_range.
Qed.

Lemma granule_stays_in_range_witness : granule_ok default_config (mkCcb READ_AHEAD_GRANULARITY 0).
Proof.
  apply (granule_stays_in_range default_config); [apply default_usable|]. apply rtc_once. apply (step_init default_config (mkFcb [] 0 0 0 0 0 0 0) (mkCcb 0 0) (mkFcb [] 0 0 0 0 0 0 0)). reflexivity.
Defined.

(** ** Agreement *)

(** The votes that move the granule: every second of two equal ones in a row,
    a pair being used up by its move. *)
Fixpoint decided (votes : list Z) : list Z :=
  match votes with
  | v :: ((w :: rest) as tail) => if (v =? w) && negb (v =? 0) then v :: decided rest else decided tail
  | _ => []
  end.

Lemma decided_cons_zero votes : decided (0 :: votes) = decided votes.
Proof. destruct votes as [|w votes]; [done|]. cbn [decided]. by rewrite andb_false_r. Qed.

Lemma decided_pair v votes : v <> 0 -> decided (v :: v :: votes) = v :: decided votes.
Proof. intros Hv. cbn [decided]. rewrite Z.eqb_refl, (proj2 (Z.eqb_neq _ _) Hv). done. Qed.

Lemma decided_change v w votes : v <> w -> decided (v :: w :: votes) = decided (w :: votes).
Proof. intros Hv. cbn [decided]. by rewrite (proj2 (Z.eqb_neq _ _) Hv). Qed.

Lemma cast_votes_from c votes : Forall (fun v => -1 <= v <= 1) votes -> forall g a, -1 <= a <= 1 ->
  ccb_ReadAheadGranularity (foldl (cast_vote c) (mkCcb g a) votes) = foldl (move c) g (decided (if a =? 0 then votes else a :: votes)).
Proof.
  induction 1 as [|v votes Hv _ IH]; intros g a Ha; cbn [foldl]; [by destruct (a =? 0)|]. rewrite cast_vote_move. cbn [ccb_ReadAheadGranularity ReadAheadAgreement].
  destruct (Z.eqb_spec v 0) as [->|Hv0].
  - rewrite IH by lia. rewrite Z.eqb_refl. destruct (Z.eqb_spec a 0); [|rewrite decided_change by done]; by rewrite decided_cons_zero.
  - cbv zeta. assert (Hcase : a = v \/ a = 0 \/ (a <> 0 /\ a <> v)) by lia. destruct Hcase as [->|[->|[Ha0 Hav]]].
    + destruct (Z.ltb_spec 0 (v * v)); [|nia]. assert (Hout : (-2 <? v + v) && (v + v <? 2) = false) by (destruct (Z.ltb_spec (-2) (v + v)), (Z.ltb_spec (v + v) 2); try done; lia).
      rewrite Hout, IH by lia. rewrite (proj2 (Z.eqb_neq _ _) Hv0), decided_pair by done. done.
    + change (0 <? 0 * v) with false. cbv iota. rewrite Z.eqb_refl. assert (Hin : (-2 <? v) && (v <? 2) = true) by (destruct (Z.ltb_spec (-2) v), (Z.ltb_spec v 2); try done; lia).
      rewrite Hin, IH by lia. rewrite (proj2 (Z.eqb_neq _ _) Hv0). done.
    + destruct (Z.ltb_spec 0 (a * v)); [nia|]. assert (Hin : (-2 <? v) && (v <? 2) = true) by (destruct (Z.ltb_spec (-2) v), (Z.ltb_spec v 2); try done; lia).
      rewrite Hin, IH by lia. rewrite (proj2 (Z.eqb_neq _ _) Hv0), (proj2 (Z.eqb_neq _ _) Ha0), decided_change by done. done.
Qed.

(** The running tally is the rule it stands for: from a
    handle with no votes, after any windows the granule is what it was, moved
    once for each two consecutive windows that agreed, and a window that says
    neither undoes the one before it. *)
Theorem two_windows_must_agree c g votes :
  Forall (fun v => -1 <= v <= 1) votes ->
  ccb_ReadAheadGranularity (foldl (cast_vote c) (mkCcb g 0) votes) = foldl (move c) g (decided votes).
Proof. intros Hv. by rewrite cast_votes_from by (done || lia). Qed.

Lemma two_windows_must_agree_witness :
  ccb_ReadAheadGranularity (foldl (cast_vote default_config) (mkCcb 131072 0) [1; -1; -1; 1; 0; 1; 1]) = 131072.
Proof. rewrite (two_windows_must_agree default_config 131072 [1; -1; -1; 1; 0; 1; 1]); [reflexivity|repeat constructor; lia]. Defined.
