(* ===== verification/ReadFair.v ===== *)
(** * The fair share of the link (src/Read.c, ReadFair)

    Which fetches go out at once and which wait: the counters, the two queues
    of held reads and the tags of start-time fair queueing.  Every decision is
    made under one spin lock, so each definition below is one atomic step,
    except where [ReadFairAdmit] drops the lock to allocate. *)

From S2P Require Import Prelude.

Definition READ_FAIR_MAX_FETCHES : Z := 32.

(** A read as the scheduler sees it: the IRP, the file's node, and
    [Parameters.Read.Length]. *)
Record READ_IRP := mkIrp { i_Id : Z; i_Node : Z; i_Length : Z }.

(** A held read carries its start tag in [DriverContext[1]]. *)
Record HELD_IRP := mkHeld { h_Irp : READ_IRP; h_Start : Z }.

Record FAIR_NODE := mkNode { ReadFinishTag : Z; ReadFetchesInFlight : Z }.

(** [FetchAdmitted]: the IRPs with [IRP_CONTEXT_FLAG_FETCH_ADMITTED] set. *)
Record READ_FAIR := mkFair {
  InFlightBytes : Z;
  VirtualTime : Z;
  InFlightFetches : Z;
  Held : list HELD_IRP;
  Waiting : list HELD_IRP;
  Nodes : gmap Z FAIR_NODE;
  FetchAdmitted : gset Z
}.

(** A node starts zeroed. *)
Definition node_of (fair : READ_FAIR) (n : Z) : FAIR_NODE := default (mkNode 0 0) (Nodes fair !! n).
Definition with_node (fair : READ_FAIR) (n : Z) (v : FAIR_NODE) : READ_FAIR :=
  mkFair (InFlightBytes fair) (VirtualTime fair) (InFlightFetches fair) (Held fair) (Waiting fair) (<[n := v]> (Nodes fair)) (FetchAdmitted fair).

Definition BlorgReadInit (nodes : gmap Z FAIR_NODE) (flags : gset Z) : READ_FAIR := mkFair 0 0 0 [] [] nodes flags.

Section Budget.
(** [global.ReadFairBudget]. *)
Context (budget : Z).

Definition ReadFairMustHold (fair : READ_FAIR) (n : Z) (mayHold : bool) : bool :=
  (mayHold && negb (budget =? 0) && (budget <=? InFlightBytes fair) && negb (ReadFetchesInFlight (node_of fair n) =? 0))
  || (READ_FAIR_MAX_FETCHES <=? InFlightFetches fair).

(** What admission changes: the virtual time, the counters, the flag. *)
Definition admit_fetch (fair : READ_FAIR) (irp : READ_IRP) (virtualTime : Z) : READ_FAIR :=
  let node := node_of fair (i_Node irp) in
  mkFair (u64 (InFlightBytes fair + i_Length irp)) virtualTime (u32 (InFlightFetches fair + 1)) (Held fair) (Waiting fair)
    (<[i_Node irp := mkNode (ReadFinishTag node) (u32 (ReadFetchesInFlight node + 1))]> (Nodes fair)) ({[i_Id irp]} ∪ FetchAdmitted fair).

(** The part under the last hold of the lock: the tags, then the queue or the
    link. *)
Definition fair_charge (fair : READ_FAIR) (irp : READ_IRP) (mayHold hold : bool) : READ_FAIR * NTSTATUS :=
  let node := node_of fair (i_Node irp) in
  let start := if VirtualTime fair <? ReadFinishTag node then ReadFinishTag node else VirtualTime fair in
  let fair := with_node fair (i_Node irp) (mkNode (u64 (start + i_Length irp)) (ReadFetchesInFlight node)) in
  if hold then
    let h := mkHeld irp start in
    (mkFair (InFlightBytes fair) (VirtualTime fair) (InFlightFetches fair)
       (if mayHold then Held fair ++ [h] else Held fair) (if mayHold then Waiting fair else Waiting fair ++ [h]) (Nodes fair) (FetchAdmitted fair), STATUS_PENDING)
  else (admit_fetch fair irp start, STATUS_SUCCESS).

(** [workItem]: whether one could be allocated; [others]: what was done to the
    scheduler while the lock was dropped for it. *)
Definition ReadFairAdmit (fair : READ_FAIR) (irp : READ_IRP) (mayHold workItem : bool) (others : READ_FAIR -> READ_FAIR) : READ_FAIR * NTSTATUS :=
  if ReadFairMustHold fair (i_Node irp) mayHold then
    if negb workItem then (fair, STATUS_INSUFFICIENT_RESOURCES)
    else
      let fair := others fair in
      fair_charge fair irp mayHold (ReadFairMustHold fair (i_Node irp) mayHold)
  else fair_charge fair irp mayHold false.

(** ** Release *)

(** The scan of [Held]: the entry with the lowest start tag among those that
    may go, the first of equals. *)
Fixpoint held_scan (fair : READ_FAIR) (room : bool) (l : list HELD_IRP) (next : option HELD_IRP) (nextStart : Z) : option HELD_IRP :=
  match l with
  | [] => next
  | h :: l =>
      if (h_Start h <? nextStart) && (room || (ReadFetchesInFlight (node_of fair (i_Node (h_Irp h))) =? 0))
      then held_scan fair room l (Some h) (h_Start h)
      else held_scan fair room l next nextStart
  end.

(** The read to admit next, with the queues it leaves behind. *)
Definition fair_next (fair : READ_FAIR) : option (HELD_IRP * list HELD_IRP * list HELD_IRP) :=
  match Waiting fair with
  | h :: rest => Some (h, Held fair, rest)
  | [] =>
      h ← held_scan fair (InFlightBytes fair <? budget) (Held fair) None MAXULONG64;
      Some (h, List.filter (fun h' => negb (i_Id (h_Irp h') =? i_Id (h_Irp h))) (Held fair), [])
  end.

Definition with_queues (fair : READ_FAIR) (held waiting : list HELD_IRP) : READ_FAIR :=
  mkFair (InFlightBytes fair) (VirtualTime fair) (InFlightFetches fair) held waiting (Nodes fair) (FetchAdmitted fair).

(** The loop ends because each turn takes a read off a queue; the result has
    the reads moved to [Released], in order. *)
Fixpoint admit_held_loop (fuel : nat) (fair : READ_FAIR) (released : list READ_IRP) : option (READ_FAIR * list READ_IRP) :=
  match fuel with
  | O => None
  | S fuel =>
      if InFlightFetches fair <? READ_FAIR_MAX_FETCHES then
        match fair_next fair with
        | None => Some (fair, released)
        | Some (h, held, waiting) =>
            let fair := with_queues fair held waiting in
            let virtualTime := if VirtualTime fair <? h_Start h then h_Start h else VirtualTime fair in
            admit_held_loop fuel (admit_fetch fair (h_Irp h) virtualTime) (released ++ [h_Irp h])
        end
      else Some (fair, released)
  end.
Definition ReadFairAdmitHeld (fair : READ_FAIR) : option (READ_FAIR * list READ_IRP) :=
  admit_held_loop (S (length (Held fair) + length (Waiting fair))) fair [].

(** The released reads are each handed to [ReadFairWorker]. *)
Definition ReadFairSettle (fair : READ_FAIR) (irp : READ_IRP) : option (READ_FAIR * list READ_IRP) :=
  if negb (bool_decide (i_Id irp ∈ FetchAdmitted fair)) then Some (fair, [])
  else
    let node := node_of fair (i_Node irp) in
    ReadFairAdmitHeld
      (mkFair (u64 (InFlightBytes fair - i_Length irp)) (VirtualTime fair) (u32 (InFlightFetches fair - 1)) (Held fair) (Waiting fair)
         (<[i_Node irp := mkNode (ReadFinishTag node) (u32 (ReadFetchesInFlight node - 1))]> (Nodes fair)) (FetchAdmitted fair ∖ {[i_Id irp]})).

Definition ReadFairReserve (fair : READ_FAIR) (fetches : Z) : READ_FAIR * Z :=
  let room := if InFlightFetches fair <? READ_FAIR_MAX_FETCHES then READ_FAIR_MAX_FETCHES - InFlightFetches fair else 0 in
  let reserved := Z.min fetches room in
  (mkFair (InFlightBytes fair) (VirtualTime fair) (u32 (InFlightFetches fair + reserved)) (Held fair) (Waiting fair) (Nodes fair) (FetchAdmitted fair), reserved).

Definition ReadFairGiveBack (fair : READ_FAIR) (fetches : Z) : option (READ_FAIR * list READ_IRP) :=
  if fetches =? 0 then Some (fair, [])
  else ReadFairAdmitHeld
    (mkFair (InFlightBytes fair) (VirtualTime fair) (u32 (InFlightFetches fair - fetches)) (Held fair) (Waiting fair) (Nodes fair) (FetchAdmitted fair)).
End Budget.
