(* ===== verification/ReadFairSystem.v ===== *)
(** * The fair share of the link: its clients and their invariant

    The scheduler as the read path drives it: reads admitted or held, fetches
    settled, extra fetches reserved and given back, in any order.  The step
    relation keeps the fetches in flight and a log of every charge; the
    invariant says the counters are exact, the fetch limit holds, and no held
    read is stranded. *)

From S2P Require Import Prelude ReadFair.

(** [fs_Flying]: reads admitted and not settled; [fs_Reserved]: fetches
    reserved beside them; [fs_Log]: every read charged, with its start tag. *)
Record FAIR_SYSTEM := mkFairSystem {
  fs_Fair : READ_FAIR;
  fs_Flying : list READ_IRP;
  fs_Reserved : Z;
  fs_Log : list HELD_IRP
}.

Definition start_tag (fair : READ_FAIR) (irp : READ_IRP) : Z := Z.max (ReadFinishTag (node_of fair (i_Node irp))) (VirtualTime fair).

Definition bytes_of (l : list READ_IRP) : Z := foldr (fun i n => i_Length i + n) 0 l.
Definition flying_of (l : list READ_IRP) (n : Z) : Z := Z.of_nat (length (List.filter (fun i => i_Node i =? n) l)).
Definition charged (l : list HELD_IRP) : Z := bytes_of (h_Irp <$> l).
Definition queued (fair : READ_FAIR) : list READ_IRP := h_Irp <$> Held fair ++ Waiting fair.

Section System.
Context (budget : Z).

(** A read arrives once, with a length of its own, and the tags have room for
    it: [2^63] bytes charged is where they would not. *)
Definition arrives (s : FAIR_SYSTEM) (irp : READ_IRP) : Prop :=
  0 < i_Length irp < 4294967296 /\ charged (fs_Log s) + i_Length irp < 9223372036854775808 /\
  i_Id irp ∉ (i_Id <$> fs_Flying s ++ queued (fs_Fair s)).

Inductive fair_step : FAIR_SYSTEM -> FAIR_SYSTEM -> Prop :=
  | step_admit s irp mayHold hold fair' st :
      arrives s irp -> hold = ReadFairMustHold budget (fs_Fair s) (i_Node irp) mayHold ->
      fair_charge (fs_Fair s) irp mayHold hold = (fair', st) ->
      fair_step s (mkFairSystem fair' (if hold then fs_Flying s else irp :: fs_Flying s) (fs_Reserved s)
                     (fs_Log s ++ [mkHeld irp (start_tag (fs_Fair s) irp)]))
  | step_settle fair l1 irp l2 res log fair' released :
      ReadFairSettle budget fair irp = Some (fair', released) ->
      fair_step (mkFairSystem fair (l1 ++ irp :: l2) res log) (mkFairSystem fair' (released ++ l1 ++ l2) res log)
  | step_reserve fair l res log fetches fair' n :
      0 <= fetches -> ReadFairReserve fair fetches = (fair', n) ->
      fair_step (mkFairSystem fair l res log) (mkFairSystem fair' l (res + n) log)
  | step_give_back fair l res log fetches fair' released :
      0 <= fetches <= res -> ReadFairGiveBack budget fair fetches = Some (fair', released) ->
      fair_step (mkFairSystem fair l res log) (mkFairSystem fair' (released ++ l) (res - fetches) log).

Definition fair_initial (s : FAIR_SYSTEM) : Prop := s = mkFairSystem (BlorgReadInit ∅ ∅) [] 0 [].
Definition fair_reachable (s : FAIR_SYSTEM) : Prop := exists s0, fair_initial s0 /\ rtc fair_step s0 s.

(** A read held for the budget has its file's next completion to release it,
    and one held for the limit has any. *)
Definition not_stranded (fair : READ_FAIR) : Prop :=
  (Waiting fair <> [] -> InFlightFetches fair = READ_FAIR_MAX_FETCHES) /\
  forall h, h ∈ Held fair -> InFlightFetches fair = READ_FAIR_MAX_FETCHES \/ 0 < ReadFetchesInFlight (node_of fair (i_Node (h_Irp h))).

(** The counters against what is in flight; [pending] are the reads charged
    and not in flight. *)
Record counts_ok (fair : READ_FAIR) (flying : list READ_IRP) (reserved : Z) (pending : list READ_IRP) : Prop := {
  c_fetches : InFlightFetches fair = Z.of_nat (length flying) + reserved;
  c_limit : InFlightFetches fair <= READ_FAIR_MAX_FETCHES;
  c_reserved : 0 <= reserved;
  c_bytes : InFlightBytes fair = bytes_of flying;
  c_nodes : forall n, ReadFetchesInFlight (node_of fair n) = flying_of flying n;
  c_flags : forall i, i ∈ FetchAdmitted fair <-> i ∈ i_Id <$> flying;
  c_ids : NoDup (i_Id <$> flying ++ pending);
  c_lengths : Forall (fun i => 0 < i_Length i < 4294967296) (flying ++ pending)
}.

(** The tags against the charges: every tag is a point already charged. *)
Record tags_ok (fair : READ_FAIR) (log : list HELD_IRP) : Prop := {
  t_total : 0 <= charged log < 9223372036854775808;
  t_virtual : 0 <= VirtualTime fair <= charged log;
  t_finish : forall n, 0 <= ReadFinishTag (node_of fair n) <= charged log;
  t_queued : Forall (fun h => 0 <= h_Start h <= charged log) (Held fair ++ Waiting fair)
}.

Record fair_inv (s : FAIR_SYSTEM) : Prop := {
  f_counts : counts_ok (fs_Fair s) (fs_Flying s) (fs_Reserved s) (queued (fs_Fair s));
  f_tags : tags_ok (fs_Fair s) (fs_Log s);
  f_live : not_stranded (fs_Fair s)
}.
End System.

(** ** Sums *)

Lemma bytes_of_cons i l : bytes_of (i :: l) = i_Length i + bytes_of l.
Proof. done. Qed.
Lemma bytes_of_app l1 l2 : bytes_of (l1 ++ l2) = bytes_of l1 + bytes_of l2.
Proof. unfold bytes_of. induction l1; cbn; lia. Qed.
Lemma bytes_of_perm l l' : l ≡ₚ l' -> bytes_of l = bytes_of l'.
Proof. induction 1; rewrite ?bytes_of_cons in *; lia. Qed.
Lemma bytes_of_bound l : Forall (fun i => 0 < i_Length i < 4294967296) l -> 0 <= bytes_of l <= 4294967296 * Z.of_nat (length l).
Proof. induction 1; rewrite ?bytes_of_cons; cbn [length]; [cbn|]; lia. Qed.
Lemma flying_of_cons i l n : flying_of (i :: l) n = (if i_Node i =? n then 1 else 0) + flying_of l n.
Proof. unfold flying_of. cbn [List.filter]. destruct (i_Node i =? n); cbn [length]; lia. Qed.
Lemma flying_of_perm l l' n : l ≡ₚ l' -> flying_of l n = flying_of l' n.
Proof. induction 1; rewrite ?flying_of_cons in *; lia. Qed.
Lemma flying_of_bound l n : 0 <= flying_of l n <= Z.of_nat (length l).
Proof. induction l as [|i l IH]; [done|]. rewrite flying_of_cons. cbn [length]. destruct (i_Node i =? n); lia. Qed.
Lemma charged_app l1 l2 : charged (l1 ++ l2) = charged l1 + charged l2.
Proof. unfold charged. by rewrite fmap_app, bytes_of_app. Qed.

Lemma node_of_insert fair n v m : node_of (with_node fair n v) m = if n =? m then v else node_of fair m.
Proof. unfold node_of. cbn. destruct (Z.eqb_spec n m) as [->|]; [by rewrite lookup_insert_eq|by rewrite lookup_insert_ne]. Qed.

Lemma node_of_charge fair irp vt m :
  node_of (admit_fetch fair irp vt) m =
  if i_Node irp =? m then mkNode (ReadFinishTag (node_of fair (i_Node irp))) (u32 (ReadFetchesInFlight (node_of fair (i_Node irp)) + 1)) else node_of fair m.
Proof. unfold node_of at 1. cbn. destruct (Z.eqb_spec (i_Node irp) m) as [->|]; [by rewrite lookup_insert_eq|by rewrite lookup_insert_ne]. Qed.

(** ** The counters *)

Lemma counts_perm fair flying flying' reserved pending pending' :
  flying ≡ₚ flying' -> pending ≡ₚ pending' -> counts_ok fair flying reserved pending -> counts_ok fair flying' reserved pending'.
Proof.
  intros Hf Hp [H1 H2 H3 H4 H5 H6 H7 H8]. split; try done.
  - by rewrite <- Hf.
  - by rewrite <- (bytes_of_perm _ _ Hf).
  - intros n. by rewrite <- (flying_of_perm _ _ n Hf).
  - intros i. by rewrite <- Hf.
  - by rewrite <- Hf, <- Hp.
  - by rewrite <- Hf, <- Hp.
Qed.

(** Only the counters matter. *)
Lemma counts_same fair fair' flying reserved pending :
  InFlightFetches fair' = InFlightFetches fair -> InFlightBytes fair' = InFlightBytes fair -> FetchAdmitted fair' = FetchAdmitted fair ->
  (forall n, ReadFetchesInFlight (node_of fair' n) = ReadFetchesInFlight (node_of fair n)) ->
  counts_ok fair flying reserved pending -> counts_ok fair' flying reserved pending.
Proof. intros E1 E2 E3 E4 [H1 H2 H3 H4 H5 H6 H7 H8]. split; rewrite ?E1, ?E2, ?E3; try done. intros n. by rewrite E4. Qed.

Lemma counts_bounds fair flying reserved pending : counts_ok fair flying reserved pending ->
  Z.of_nat (length flying) <= 32 /\ 0 <= bytes_of flying <= 137438953472 /\ 0 <= InFlightFetches fair <= 32.
Proof.
  intros [H1 H2 H3 H4 H5 H6 H7 H8]. unfold READ_FAIR_MAX_FETCHES in H2. rewrite Forall_app in H8. pose proof (bytes_of_bound _ (proj1 H8)). lia.
Qed.

Lemma admit_counts fair flying reserved pending irp vt :
  counts_ok fair flying reserved (irp :: pending) -> InFlightFetches fair < READ_FAIR_MAX_FETCHES ->
  counts_ok (admit_fetch fair irp vt) (irp :: flying) reserved pending.
Proof.
  intros Hc Hlt. pose proof (counts_bounds _ _ _ _ Hc) as (Hb1 & Hb2 & Hb3). destruct Hc as [H1 H2 H3 H4 H5 H6 H7 H8].
  assert (Hl : 0 < i_Length irp < 4294967296) by (rewrite Forall_app, Forall_cons in H8; tauto).
  unfold READ_FAIR_MAX_FETCHES in *. split; cbn [admit_fetch InFlightFetches InFlightBytes FetchAdmitted length].
  - rewrite u32_id; lia.
  - rewrite u32_id; unfold READ_FAIR_MAX_FETCHES; lia.
  - done.
  - rewrite bytes_of_cons, u64_id; lia.
  - intros n. rewrite node_of_charge, flying_of_cons. destruct (Z.eqb_spec (i_Node irp) n) as [->|]; [|by rewrite H5]. cbn [ReadFetchesInFlight].
    rewrite H5. pose proof (flying_of_bound flying n). rewrite u32_id; lia.
  - intros i. rewrite elem_of_union, elem_of_singleton, fmap_cons, elem_of_cons, H6. done.
  - cbn [app]. by rewrite Permutation_middle.
  - cbn [app]. by rewrite Permutation_middle.
Qed.

Lemma flying_of_elem l i : i ∈ l -> 0 < flying_of l (i_Node i).
Proof.
  induction l as [|j l IH]; [by intros ?%elem_of_nil|]. rewrite flying_of_cons. pose proof (flying_of_bound l (i_Node i)).
  intros [->|Hin]%elem_of_cons; [rewrite Z.eqb_refl; lia|]. specialize (IH Hin). destruct (_ =? _); lia.
Qed.

(** A fetch leaves the link. *)
Definition settled (fair : READ_FAIR) (irp : READ_IRP) : READ_FAIR :=
  let node := node_of fair (i_Node irp) in
  mkFair (u64 (InFlightBytes fair - i_Length irp)) (VirtualTime fair) (u32 (InFlightFetches fair - 1)) (Held fair) (Waiting fair)
    (<[i_Node irp := mkNode (ReadFinishTag node) (u32 (ReadFetchesInFlight node - 1))]> (Nodes fair)) (FetchAdmitted fair ∖ {[i_Id irp]}).

Lemma node_of_settled fair irp m :
  node_of (settled fair irp) m =
  if i_Node irp =? m then mkNode (ReadFinishTag (node_of fair (i_Node irp))) (u32 (ReadFetchesInFlight (node_of fair (i_Node irp)) - 1)) else node_of fair m.
Proof. unfold node_of at 1. cbn. destruct (Z.eqb_spec (i_Node irp) m) as [->|]; [by rewrite lookup_insert_eq|by rewrite lookup_insert_ne]. Qed.

Lemma settle_counts fair flying reserved pending irp :
  counts_ok fair (irp :: flying) reserved pending -> counts_ok (settled fair irp) flying reserved pending.
Proof.
  intros Hc. pose proof (counts_bounds _ _ _ _ Hc) as (Hb1 & Hb2 & Hb3). destruct Hc as [H1 H2 H3 H4 H5 H6 H7 H8]. cbn [length app fmap list_fmap] in *.
  rewrite bytes_of_cons in *. rewrite Forall_cons in H8. destruct H8 as [Hl H8]. apply NoDup_cons in H7 as [Hn H7].
  pose proof (bytes_of_bound flying (proj1 (proj1 (Forall_app _ _ _) H8))) as Hfb.
  unfold READ_FAIR_MAX_FETCHES in *. split; cbn [settled InFlightFetches InFlightBytes FetchAdmitted]; try done.
  - rewrite u32_id; lia.
  - unfold READ_FAIR_MAX_FETCHES. rewrite u32_id; lia.
  - rewrite u64_id; lia.
  - intros n. rewrite node_of_settled. specialize (H5 n). rewrite flying_of_cons in H5. pose proof (flying_of_bound flying n).
    destruct (Z.eqb_spec (i_Node irp) n) as [->|]; [|lia]. cbn [ReadFetchesInFlight]. rewrite H5, u32_id; lia.
  - intros i. rewrite elem_of_difference, elem_of_singleton, H6, elem_of_cons. split; [tauto|]. intros Hi. split; [by right|]. intros ->.
    apply Hn. rewrite fmap_app, elem_of_app. by left.
Qed.

(** ** Choosing the next read *)

Section Choice.
Context (budget : Z).

(** A held read may go while the link has room, or when its file has nothing
    in flight. *)
Definition may_go (fair : READ_FAIR) (h : HELD_IRP) : bool :=
  (InFlightBytes fair <? budget) || (ReadFetchesInFlight (node_of fair (i_Node (h_Irp h))) =? 0).

(** The read that goes next: waiting demand in arrival order; otherwise, of
    the held reads that may go, the one with the lowest start tag, the
    earliest of equals. *)
Definition chosen (fair : READ_FAIR) (h : HELD_IRP) (held waiting : list HELD_IRP) : Prop :=
  (Waiting fair = h :: waiting /\ held = Held fair) \/
  (Waiting fair = [] /\ waiting = [] /\
   exists l1 l2, Held fair = l1 ++ h :: l2 /\ held = l1 ++ l2 /\ may_go fair h = true /\
     (forall h', h' ∈ l1 -> may_go fair h' = true -> h_Start h < h_Start h') /\
     (forall h', h' ∈ l2 -> may_go fair h' = true -> h_Start h <= h_Start h')).

Definition none_chosen (fair : READ_FAIR) : Prop := Waiting fair = [] /\ forall h, h ∈ Held fair -> may_go fair h = false.

(** The scan's accumulator is the best of what it passed. *)
Lemma held_scan_keep fair l next ns :
  (forall h, h ∈ l -> may_go fair h = true -> ns <= h_Start h) -> held_scan fair (InFlightBytes fair <? budget) l next ns = next.
Proof.
  induction l as [|h l IH]; intros Hl; [done|]. cbn [held_scan]. fold (may_go fair h). destruct (Z.ltb_spec (h_Start h) ns) as [Hlt|]; cbn [andb].
  - destruct (may_go fair h) eqn:E; [specialize (Hl h ltac:(left) E); lia|]. apply IH. intros h' Hh'. apply Hl. by right.
  - apply IH. intros h' Hh'. apply Hl. by right.
Qed.

Lemma held_scan_spec fair l : forall next ns,
  (forall h, h ∈ l -> may_go fair h = true -> ns <= h_Start h) \/
  exists l1 h l2, l = l1 ++ h :: l2 /\ may_go fair h = true /\ h_Start h < ns /\ held_scan fair (InFlightBytes fair <? budget) l next ns = Some h /\
    (forall h', h' ∈ l1 -> may_go fair h' = true -> h_Start h < h_Start h') /\ (forall h', h' ∈ l2 -> may_go fair h' = true -> h_Start h <= h_Start h').
Proof.
  induction l as [|h l IH]; intros next ns; [left; by intros h ?%elem_of_nil|idtac]. cbn [held_scan]. fold (may_go fair h).
  destruct (Z.ltb_spec (h_Start h) ns) as [Hlt|Hge]; cbn [andb]; [destruct (may_go fair h) eqn:E|].
  - right. destruct (IH (Some h) (h_Start h)) as [Hall|(l1 & b & l2 & -> & Hb & Hs & Hscan & H1 & H2)].
    + exists [], h, l. split_and!; try done; [by apply held_scan_keep|by intros h' ?%elem_of_nil].
    + exists (h :: l1), b, l2. split_and!; try done; [lia|]. intros h' [->|Hh']%elem_of_cons; [lia|by apply H1].
  - destruct (IH next ns) as [Hall|(l1 & b & l2 & -> & Hb & Hs & Hscan & H1 & H2)].
    + left. intros h' [->|Hh']%elem_of_cons Hm; [congruence|by apply Hall].
    + right. exists (h :: l1), b, l2. split_and!; try done. intros h' [->|Hh']%elem_of_cons Hm; [congruence|by apply H1].
  - destruct (IH next ns) as [Hall|(l1 & b & l2 & -> & Hb & Hs & Hscan & H1 & H2)].
    + left. intros h' [->|Hh']%elem_of_cons Hm; [lia|by apply Hall].
    + right. exists (h :: l1), b, l2. split_and!; try done. intros h' [->|Hh']%elem_of_cons Hm; [lia|by apply H1].
Qed.

Lemma filter_other l1 h l2 : NoDup (i_Id <$> (h_Irp <$> l1 ++ h :: l2)) ->
  List.filter (fun h' => negb (i_Id (h_Irp h') =? i_Id (h_Irp h))) (l1 ++ h :: l2) = l1 ++ l2.
Proof.
  assert (Hall : forall l, (i_Id (h_Irp h) ∉ (i_Id <$> (h_Irp <$> l))) -> List.filter (fun h' => negb (i_Id (h_Irp h') =? i_Id (h_Irp h))) l = l).
  { induction l as [|x l IH]; intros Hn; [done|]. cbn [List.filter fmap list_fmap] in *. rewrite not_elem_of_cons in Hn. destruct Hn as [Hx Hn].
    rewrite (proj2 (Z.eqb_neq _ _)) by congruence. cbn [negb]. by rewrite IH. }
  rewrite fmap_app, fmap_app, NoDup_app. intros (_ & Hd & Hn). cbn [fmap list_fmap] in *. apply NoDup_cons in Hn as [Hn _].
  rewrite List.filter_app. cbn [List.filter]. rewrite Z.eqb_refl. cbn [negb]. rewrite !Hall; [done|done|]. intros Hin. apply (Hd _ Hin). left.
Qed.

Lemma fair_next_spec fair :
  NoDup (i_Id <$> queued fair) -> Forall (fun h => h_Start h < MAXULONG64) (Held fair) ->
  match fair_next budget fair with
  | Some (h, held, waiting) => chosen fair h held waiting
  | None => none_chosen fair
  end.
Proof.
  intros Hn Hs. unfold fair_next. destruct (Waiting fair) as [|w rest] eqn:Hw; [|by left].
  destruct (held_scan_spec fair (Held fair) None MAXULONG64) as [Hall|(l1 & h & l2 & Hl & Hm & _ & -> & H1 & H2)].
  - rewrite held_scan_keep by done. cbn. split; [done|]. intros h Hh. rewrite Forall_forall in Hs. specialize (Hs h Hh). destruct (may_go fair h) eqn:E; [|done].
    specialize (Hall h Hh E). lia.
  - cbn. right. split_and!; try done. exists l1, l2. split_and!; try done. rewrite Hl. apply filter_other. unfold queued in Hn. by rewrite Hw, app_nil_r, Hl in Hn.
Qed.

(** ** Releasing *)

(** What one release of held reads does: the chosen read, again and again,
    until the fetch limit is reached or none may go. *)
Inductive release_run : READ_FAIR -> list READ_IRP -> READ_FAIR -> Prop :=
  | run_done fair : InFlightFetches fair = READ_FAIR_MAX_FETCHES \/ none_chosen fair -> release_run fair [] fair
  | run_next fair h held waiting l fair' :
      InFlightFetches fair < READ_FAIR_MAX_FETCHES -> chosen fair h held waiting ->
      release_run (admit_fetch (with_queues fair held waiting) (h_Irp h) (Z.max (VirtualTime fair) (h_Start h))) l fair' ->
      release_run fair (h_Irp h :: l) fair'.

Lemma chosen_queues fair h held waiting : chosen fair h held waiting -> Held fair ++ Waiting fair ≡ₚ h :: held ++ waiting.
Proof.
  intros [[-> ->]|(-> & -> & l1 & l2 & -> & -> & _)]; [by rewrite Permutation_middle|]. rewrite !app_nil_r. by rewrite Permutation_middle.
Qed.

Lemma queued_perm fair h held waiting : chosen fair h held waiting -> queued fair ≡ₚ h_Irp h :: (h_Irp <$> held ++ waiting).
Proof. intros Hc. unfold queued. by rewrite (chosen_queues _ _ _ _ Hc). Qed.

(** One turn of the release keeps the books. *)
Lemma release_turn fair flying reserved log h held waiting :
  counts_ok fair flying reserved (queued fair) -> tags_ok fair log -> InFlightFetches fair < READ_FAIR_MAX_FETCHES -> chosen fair h held waiting ->
  let fair' := admit_fetch (with_queues fair held waiting) (h_Irp h) (Z.max (VirtualTime fair) (h_Start h)) in
  counts_ok fair' (h_Irp h :: flying) reserved (queued fair') /\ tags_ok fair' log.
Proof.
  intros Hc Ht Hlt Hch fair'. split.
  - apply admit_counts; [|done]. apply (counts_same fair); try done. eapply counts_perm; [done| |exact Hc]. by apply queued_perm.
  - destruct Ht as [T1 T2 T3 T4]. rewrite (chosen_queues _ _ _ _ Hch), Forall_cons in T4. destruct T4 as [Hs T4]. split; cbn; try done.
    + lia.
    + intros n. unfold fair'. rewrite node_of_charge. change (node_of (with_queues fair held waiting)) with (node_of fair). destruct (_ =? n); apply T3.
Qed.

Lemma done_not_stranded fair flying reserved pending :
  counts_ok fair flying reserved pending -> InFlightFetches fair = READ_FAIR_MAX_FETCHES \/ none_chosen fair -> not_stranded fair.
Proof.
  intros Hc [Hm|[Hw Hn]]; [split; [done|by left]|]. split; [by rewrite Hw|]. intros h Hh. right. specialize (Hn h Hh). unfold may_go in Hn.
  apply orb_false_iff in Hn as [_ Hn%Z.eqb_neq]. rewrite (c_nodes _ _ _ _ Hc) in *. pose proof (flying_of_bound flying (i_Node (h_Irp h))). lia.
Qed.

Lemma virtual_max v s : (if v <? s then s else v) = Z.max v s.
Proof. destruct (Z.ltb_spec v s); lia. Qed.

Lemma admit_held_spec fuel : forall fair released flying reserved log,
  counts_ok fair flying reserved (queued fair) -> tags_ok fair log -> (length (Held fair ++ Waiting fair) < fuel)%nat ->
  exists fair' l, admit_held_loop budget fuel fair released = Some (fair', released ++ l) /\ release_run fair l fair' /\
    counts_ok fair' (l ++ flying) reserved (queued fair') /\ tags_ok fair' log /\ not_stranded fair' /\ queued fair ≡ₚ l ++ queued fair'.
Proof.
  induction fuel as [|fuel IH]; intros fair released flying reserved log Hc Ht Hf; [lia|]. cbn [admit_held_loop].
  destruct (Z.ltb_spec (InFlightFetches fair) READ_FAIR_MAX_FETCHES) as [Hlt|Hge].
  - assert (Hnd : NoDup (i_Id <$> queued fair)).
    { pose proof (c_ids _ _ _ _ Hc) as Hids. rewrite fmap_app, NoDup_app in Hids. tauto. }
    assert (Hst : Forall (fun h => h_Start h < MAXULONG64) (Held fair)).
    { pose proof (t_queued _ _ Ht) as Hq. rewrite Forall_app in Hq. pose proof (t_total _ _ Ht). eapply Forall_impl; [exact (proj1 Hq)|]. cbn. unfold MAXULONG64. lia. }
    pose proof (fair_next_spec fair Hnd Hst) as Hnext. destruct (fair_next budget fair) as [[[h held] waiting]|].
    + cbn [VirtualTime with_queues]. rewrite virtual_max. destruct (release_turn _ _ _ _ _ _ _ Hc Ht Hlt Hnext) as [Hc' Ht'].
      pose proof (Permutation_length (chosen_queues _ _ _ _ Hnext)) as Hlen. cbn [length] in Hlen.
      destruct (IH _ (released ++ [h_Irp h]) _ _ _ Hc' Ht') as (fair' & l & Hrun & Hrel & Hc2 & Ht2 & Hns & Hq); [cbn; lia|].
      exists fair', (h_Irp h :: l). rewrite Hrun, <- app_assoc. split_and!; try done; [by econstructor| |].
      * eapply counts_perm; [|done|exact Hc2]. cbn. by rewrite Permutation_middle.
      * rewrite (queued_perm _ _ _ _ Hnext). cbn [app]. by rewrite <- Hq.
    + exists fair, []. rewrite app_nil_r. split_and!; try done; [apply run_done; by right|]. eapply done_not_stranded; [exact Hc|by right].
  - assert (Hm : InFlightFetches fair = READ_FAIR_MAX_FETCHES) by (pose proof (c_limit _ _ _ _ Hc); lia).
    exists fair, []. rewrite app_nil_r. split_and!; try done; [apply run_done; by left|]. eapply done_not_stranded; [exact Hc|by left].
Qed.

Lemma admit_held_ok fair flying reserved log :
  counts_ok fair flying reserved (queued fair) -> tags_ok fair log ->
  exists fair' l, ReadFairAdmitHeld budget fair = Some (fair', l) /\ release_run fair l fair' /\
    counts_ok fair' (l ++ flying) reserved (queued fair') /\ tags_ok fair' log /\ not_stranded fair' /\ queued fair ≡ₚ l ++ queued fair'.
Proof. intros Hc Ht. apply (admit_held_spec _ _ []); [done|done|]. rewrite length_app. lia. Qed.

(** ** The operations *)

Lemma fair_settle_ok fair l1 irp l2 reserved log :
  counts_ok fair (l1 ++ irp :: l2) reserved (queued fair) -> tags_ok fair log ->
  exists fair' l, ReadFairSettle budget fair irp = Some (fair', l) /\ release_run (settled fair irp) l fair' /\
    counts_ok fair' (l ++ l1 ++ l2) reserved (queued fair') /\ tags_ok fair' log /\ not_stranded fair' /\ queued fair ≡ₚ l ++ queued fair'.
Proof.
  intros Hc Ht. assert (Hc' : counts_ok fair (irp :: l1 ++ l2) reserved (queued fair)) by (eapply counts_perm; [|done|exact Hc]; by rewrite Permutation_middle).
  unfold ReadFairSettle. rewrite bool_decide_eq_true_2 by (rewrite (c_flags _ _ _ _ Hc'); left). cbn [negb]. fold (settled fair irp).
  destruct (admit_held_ok (settled fair irp) (l1 ++ l2) reserved log) as (fair' & l & H & Hrest); [by apply settle_counts| |exists fair', l; exact (conj H Hrest)].
  destruct Ht as [T1 T2 T3 T4]. split; cbn; try done. intros n. rewrite node_of_settled. destruct (_ =? n); apply T3.
Qed.

(** A read that was not admitted settles nothing. *)
Lemma settle_unadmitted fair irp flying reserved pending :
  counts_ok fair flying reserved pending -> i_Id irp ∉ i_Id <$> flying -> ReadFairSettle budget fair irp = Some (fair, []).
Proof. intros Hc Hn. unfold ReadFairSettle. rewrite bool_decide_eq_false_2; [done|]. by rewrite (c_flags _ _ _ _ Hc). Qed.

Lemma reserve_ok fair flying reserved log fetches fair' n :
  counts_ok fair flying reserved (queued fair) -> tags_ok fair log -> not_stranded fair -> 0 <= fetches -> ReadFairReserve fair fetches = (fair', n) ->
  0 <= n <= fetches /\ counts_ok fair' flying (reserved + n) (queued fair') /\ tags_ok fair' log /\ not_stranded fair'.
Proof.
  intros Hc Ht Hns Hf Hr. pose proof (counts_bounds _ _ _ _ Hc) as (_ & _ & Hb). pose proof (c_limit _ _ _ _ Hc) as Hlim. injection Hr as <- <-. unfold READ_FAIR_MAX_FETCHES in *.
  set (room := if InFlightFetches fair <? 32 then 32 - InFlightFetches fair else 0). assert (Hroom : 0 <= room /\ InFlightFetches fair + room <= 32) by (unfold room; destruct (Z.ltb_spec (InFlightFetches fair) 32); lia).
  destruct Hc as [H1 H2 H3 H4 H5 H6 H7 H8]. split; [lia|]. split; [|split; [by destruct Ht|]].
  - split; cbn; try done; [rewrite u32_id; lia|rewrite u32_id; unfold READ_FAIR_MAX_FETCHES; lia|lia].
  - destruct Hns as [N1 N2]. rewrite (u32_id (InFlightFetches fair + _)) by lia. split; cbn; unfold READ_FAIR_MAX_FETCHES in *.
    + intros Hw. specialize (N1 Hw). unfold room. destruct (Z.ltb_spec (InFlightFetches fair) 32); lia.
    + intros h Hh. destruct (N2 h Hh) as [Hm|Hn]; [left|by right]. unfold room. destruct (Z.ltb_spec (InFlightFetches fair) 32); lia.
Qed.

Lemma give_back_ok fair flying reserved log fetches :
  counts_ok fair flying reserved (queued fair) -> tags_ok fair log -> not_stranded fair -> 0 <= fetches <= reserved ->
  exists fair' l, ReadFairGiveBack budget fair fetches = Some (fair', l) /\
    counts_ok fair' (l ++ flying) (reserved - fetches) (queued fair') /\ tags_ok fair' log /\ not_stranded fair' /\ queued fair ≡ₚ l ++ queued fair'.
Proof.
  intros Hc Ht Hns Hf. unfold ReadFairGiveBack. destruct (Z.eqb_spec fetches 0) as [->|Hz].
  { exists fair, []. rewrite Z.sub_0_r. by split_and!. }
  pose proof (counts_bounds _ _ _ _ Hc) as (_ & _ & Hb).
  edestruct (admit_held_ok (mkFair (InFlightBytes fair) (VirtualTime fair) (u32 (InFlightFetches fair - fetches)) (Held fair) (Waiting fair) (Nodes fair) (FetchAdmitted fair))
    flying (reserved - fetches) log) as (fair' & l & H & _ & Hrest); [| |exists fair', l; split; [exact H|exact Hrest]].
  - destruct Hc as [H1 H2 H3 H4 H5 H6 H7 H8]. unfold READ_FAIR_MAX_FETCHES in *. split; cbn; try done; [rewrite u32_id; lia|rewrite u32_id; unfold READ_FAIR_MAX_FETCHES; lia|lia].
  - by destruct Ht.
Qed.

(** ** Admission *)

Lemma fresh_counts fair flying reserved irp :
  counts_ok fair flying reserved (queued fair) -> 0 < i_Length irp < 4294967296 -> i_Id irp ∉ i_Id <$> flying ++ queued fair ->
  counts_ok fair flying reserved (irp :: queued fair).
Proof.
  intros [H1 H2 H3 H4 H5 H6 H7 H8] Hl Hn. split; try done; rewrite <- Permutation_middle; [|by constructor]. cbn [fmap list_fmap]. by constructor.
Qed.

Lemma must_hold_cases fair flying reserved n (mayHold : bool) :
  counts_ok fair flying reserved (queued fair) ->
  if ReadFairMustHold budget fair n mayHold
  then InFlightFetches fair = READ_FAIR_MAX_FETCHES \/ (mayHold = true /\ 0 < ReadFetchesInFlight (node_of fair n))
  else InFlightFetches fair < READ_FAIR_MAX_FETCHES.
Proof.
  intros Hc. pose proof (c_limit _ _ _ _ Hc). pose proof (c_nodes _ _ _ _ Hc n) as Hn. pose proof (flying_of_bound flying n). unfold ReadFairMustHold.
  destruct (Z.leb_spec READ_FAIR_MAX_FETCHES (InFlightFetches fair)); [rewrite orb_true_r; left; lia|]. rewrite orb_false_r.
  destruct mayHold; cbn [andb]; [|done]. destruct (_ && _) eqn:E; [|done]. apply andb_true_iff in E as [_ E%negb_true_iff%Z.eqb_neq]. right. split; [done|lia].
Qed.

Lemma charge_ok fair flying reserved log irp mayHold fair' st :
  counts_ok fair flying reserved (queued fair) -> tags_ok fair log -> not_stranded fair ->
  0 < i_Length irp < 4294967296 -> charged log + i_Length irp < 9223372036854775808 -> i_Id irp ∉ i_Id <$> flying ++ queued fair ->
  let hold := ReadFairMustHold budget fair (i_Node irp) mayHold in
  fair_charge fair irp mayHold hold = (fair', st) ->
  counts_ok fair' (if hold then flying else irp :: flying) reserved (queued fair') /\ tags_ok fair' (log ++ [mkHeld irp (start_tag fair irp)]) /\
  not_stranded fair' /\ (forall n, ReadFinishTag (node_of fair' n) = if i_Node irp =? n then start_tag fair irp + i_Length irp else ReadFinishTag (node_of fair n)).
Proof.
  intros Hc Ht Hns Hl Hch Hn hold Hcg. pose proof (fresh_counts _ _ _ _ Hc Hl Hn) as Hc1. pose proof (must_hold_cases _ _ _ (i_Node irp) mayHold Hc) as Hcase. fold hold in Hcase.
  destruct Ht as [T1 T2 T3 T4]. unfold fair_charge in Hcg. rewrite virtual_max, Z.max_comm in Hcg. fold (start_tag fair irp) in Hcg. set (start := start_tag fair irp) in *.
  assert (Hstart : 0 <= start <= charged log) by (unfold start, start_tag; specialize (T3 (i_Node irp)); lia). rewrite u64_id in Hcg by lia.
  assert (Hlog : charged (log ++ [mkHeld irp start]) = charged log + i_Length irp) by (rewrite charged_app; cbn; lia).
  set (fair1 := with_node fair (i_Node irp) (mkNode (start + i_Length irp) (ReadFetchesInFlight (node_of fair (i_Node irp))))) in *.
  assert (Hnode : forall m, node_of fair1 m = if i_Node irp =? m then mkNode (start + i_Length irp) (ReadFetchesInFlight (node_of fair (i_Node irp))) else node_of fair m) by (intros; apply node_of_insert).
  assert (Hinfl : forall m, ReadFetchesInFlight (node_of fair1 m) = ReadFetchesInFlight (node_of fair m)) by (intros m; rewrite Hnode; destruct (Z.eqb_spec (i_Node irp) m) as [->|]; done).
  assert (Hc2 : counts_ok fair1 flying reserved (irp :: queued fair)) by (by apply (counts_same fair)).
  assert (Hfin : forall m, 0 <= ReadFinishTag (node_of fair1 m) <= charged log + i_Length irp) by (intros m; rewrite Hnode; specialize (T3 m); destruct (_ =? m); cbn; lia).
  assert (Hq4 : Forall (fun h => 0 <= h_Start h <= charged log + i_Length irp) (Held fair ++ Waiting fair)) by (eapply Forall_impl; [exact T4|]; cbn; lia).
  destruct hold; injection Hcg as <- <-.
  - split; [|split; [|split]].
    + eapply counts_perm; [done| |]; [|eapply counts_same; [..|exact Hc2]; try done]. unfold queued. destruct mayHold; cbn [Held Waiting fair1 with_node].
      * rewrite <- app_assoc, !fmap_app. cbn [fmap list_fmap app]. by rewrite Permutation_middle.
      * rewrite !app_assoc, !fmap_app. cbn [fmap list_fmap]. by rewrite (Permutation_app_comm _ [irp]).
    + split; rewrite ?Hlog; cbn [VirtualTime with_node fair1]; try lia; [exact Hfin|]. cbn [Held Waiting].
      assert (Hh : 0 <= start <= charged log + i_Length irp) by lia. rewrite Forall_app in Hq4. destruct mayHold; rewrite !Forall_app, Forall_singleton; cbn; tauto.
    + destruct Hns as [N1 N2]. split; cbn [Held Waiting InFlightFetches with_node fair1].
      * intros Hw. destruct mayHold; [by apply N1|]. destruct Hcase as [?|[? _]]; done.
      * intros h Hh. match goal with |- context [node_of ?f ?n] => change (node_of f n) with (node_of fair1 n) end. rewrite Hinfl. destruct mayHold; [|by apply N2]. apply elem_of_app in Hh as [Hh| ->%list_elem_of_singleton]; [by apply N2|].
        destruct Hcase as [?|[_ ?]]; [by left|by right].
    + intros n. change (ReadFinishTag (node_of fair1 n) = if i_Node irp =? n then start + i_Length irp else ReadFinishTag (node_of fair n)). rewrite Hnode. by destruct (_ =? n).
  - assert (Hw : Waiting fair = []). { destruct Hns as [N1 _]. destruct (Waiting fair); [done|]. specialize (N1 ltac:(done)). lia. }
    split; [|split; [|split]].
    + by apply admit_counts.
    + split; rewrite ?Hlog; cbn [VirtualTime admit_fetch Held Waiting fair1 with_node]; try lia; [|done]. intros m. rewrite node_of_charge. destruct (_ =? m); [cbn [ReadFinishTag]|]; apply Hfin.
    + destruct Hns as [N1 N2]. split; cbn [Held Waiting InFlightFetches with_node fair1 admit_fetch]; [by rewrite Hw|]. intros h Hh. right.
      destruct (N2 h Hh) as [?|Hp]; [lia|]. pose proof (admit_counts _ _ _ _ _ start Hc2 Hcase) as Hc3. rewrite (c_nodes _ _ _ _ Hc3), flying_of_cons.
      rewrite (c_nodes _ _ _ _ Hc) in Hp. destruct (_ =? _); lia.
    + intros n. rewrite node_of_charge, !Hnode, Z.eqb_refl. by destruct (_ =? n).
Qed.

Lemma fair_step_inv s s' : fair_inv s -> fair_step budget s s' -> fair_inv s'.
Proof.
  intros [Hc Ht Hns] Hstep. destruct Hstep as [s irp mayHold hold fair' st (Hl & Hch & Hn) Hh Hcg|fair l1 irp l2 res log fair' released Hs|fair l res log fetches fair' n Hf Hr|fair l res log fetches fair' released Hf Hg]; cbn in *.
  - subst hold. destruct (charge_ok _ _ _ _ _ _ _ _ Hc Ht Hns Hl Hch Hn Hcg) as (H1 & H2 & H3 & _). by split.
  - destruct (fair_settle_ok _ _ _ _ _ _ Hc Ht) as (f & l & Hs' & _ & H1 & H2 & H3 & _). simplify_eq. by split.
  - destruct (reserve_ok _ _ _ _ _ _ _ Hc Ht Hns Hf Hr) as (_ & H1 & H2 & H3). by split.
  - destruct (give_back_ok _ _ _ _ _ Hc Ht Hns Hf) as (f & l' & Hg' & H1 & H2 & H3 & _). simplify_eq. by split.
Qed.

Lemma node_of_init n : node_of (BlorgReadInit ∅ ∅) n = mkNode 0 0.
Proof. unfold node_of, BlorgReadInit. cbn [Nodes]. by rewrite lookup_empty. Qed.

Lemma fair_initial_inv s : fair_initial s -> fair_inv s.
Proof.
  intros ->. split; [split|split|split]; cbn [fs_Fair fs_Flying fs_Reserved fs_Log]; try done.
  all: first [by intros n; rewrite node_of_init|by constructor|by intros h ?%elem_of_nil|idtac].
  intros i. cbn [FetchAdmitted BlorgReadInit]. rewrite elem_of_empty. split; [done|by intros ?%elem_of_nil].
Qed.

Lemma fair_reachable_inv s : fair_reachable budget s -> fair_inv s.
Proof. intros (s0 & H0%fair_initial_inv & Hs). induction Hs as [|s1 s2 s3 Hst _ IH]; [done|]. apply IH. by eapply fair_step_inv. Qed.
End Choice.

(** ** A demonstration

    A budget of 100 bytes; file 1 reads 100 bytes and, its first fetch in
    flight, 60 more, which are held; file 2's first read goes straight out. *)

Definition admit_sys (budget : Z) (s : FAIR_SYSTEM) (irp : READ_IRP) (mayHold : bool) : FAIR_SYSTEM :=
  let hold := ReadFairMustHold budget (fs_Fair s) (i_Node irp) mayHold in
  mkFairSystem (fst (fair_charge (fs_Fair s) irp mayHold hold)) (if hold then fs_Flying s else irp :: fs_Flying s) (fs_Reserved s)
    (fs_Log s ++ [mkHeld irp (start_tag (fs_Fair s) irp)]).

Lemma admit_sys_step budget s irp mayHold : arrives s irp -> fair_step budget s (admit_sys budget s irp mayHold).
Proof. intros Ha. eapply step_admit; [done|done|]. apply surjective_pairing. Qed.

Definition demo_fair0 : FAIR_SYSTEM := mkFairSystem (BlorgReadInit ∅ ∅) [] 0 [].
Definition demo_fair1 : FAIR_SYSTEM := admit_sys 100 demo_fair0 (mkIrp 1 1 100) true.
Definition demo_fair2 : FAIR_SYSTEM := admit_sys 100 demo_fair1 (mkIrp 2 1 60) true.
Definition demo_fair : FAIR_SYSTEM := admit_sys 100 demo_fair2 (mkIrp 3 2 50) true.

Lemma demo_fair_reachable : fair_reachable 100 demo_fair.
Proof.
  exists demo_fair0. split; [done|]. assert (Hd : forall s irp, bool_decide (i_Id irp ∉ (i_Id <$> fs_Flying s ++ queued (fs_Fair s))) = true ->
    (0 <? i_Length irp) && (i_Length irp <? 4294967296) && (charged (fs_Log s) + i_Length irp <? 9223372036854775808) = true -> arrives s irp).
  { intros s irp Hn Hl. apply bool_decide_eq_true in Hn. repeat apply andb_true_iff in Hl as [Hl ?]. split_and!; try done; lia. }
  apply (rtc_l _ _ demo_fair1); [apply (admit_sys_step 100 demo_fair0 (mkIrp 1 1 100) true), Hd; vm_compute; reflexivity|].
  apply (rtc_l _ _ demo_fair2); [apply (admit_sys_step 100 demo_fair1 (mkIrp 2 1 60) true), Hd; vm_compute; reflexivity|].
  apply (rtc_l _ _ demo_fair); [apply (admit_sys_step 100 demo_fair2 (mkIrp 3 2 50) true), Hd; vm_compute; reflexivity|apply rtc_refl].
Qed.

(** ** Theorems *)

Section Theorems.
Context (budget : Z).

(** C8: In every state the scheduler can reach, its counters are
    exactly what is in flight (fetches with those reserved, bytes, fetches
    per file, the admitted flags), at most [READ_FAIR_MAX_FETCHES] are in
    flight, no read is queued twice, no tag has wrapped, and no held read is
    stranded: demand waits only at the fetch limit, and read-ahead only there
    or while its own file has a fetch in flight. *)
Theorem fair_share_invariant s : fair_reachable budget s -> fair_inv s.
Proof. apply fair_reachable_inv. Qed.

(** When a fetch in flight settles, the release ends, and
    admits reads one at a time in fair order: waiting demand first, as it
    arrived; then, of the held reads whose file is idle or for which the link
    has room, the lowest start tag, the earliest of equals; and it stops only
    at the fetch limit or when no held read may go. *)
Theorem release_in_fair_order s l1 irp l2 :
  fair_reachable budget s -> fs_Flying s = l1 ++ irp :: l2 ->
  exists fair' released, ReadFairSettle budget (fs_Fair s) irp = Some (fair', released) /\ release_run budget (settled (fs_Fair s) irp) released fair'.
Proof.
  intros [Hc Ht _]%fair_reachable_inv Hf. rewrite Hf in Hc. destruct (fair_settle_ok budget _ _ _ _ _ _ Hc Ht) as (fair' & l & H1 & H2 & _). by exists fair', l.
Qed.
End Theorems.

Lemma fair_share_invariant_witness : fair_inv demo_fair.
Proof. exact (fair_share_invariant 100 demo_fair demo_fair_reachable). Defined.

(** The other file's fetch settles, and nothing may go; then the file's own
    does, and its held read goes. *)
Lemma release_in_fair_order_witness :
  exists fair' released, ReadFairSettle 100 (fs_Fair demo_fair) (mkIrp 1 1 100) = Some (fair', released) /\
    release_run 100 (settled (fs_Fair demo_fair) (mkIrp 1 1 100)) released fair'.
Proof. exact (release_in_fair_order 100 demo_fair [mkIrp 3 2 50] (mkIrp 1 1 100) [] demo_fair_reachable eq_refl). Defined.
