(* ===== verification/ReadFairTheorems.v ===== *)
(** * The fair share of the link: progress and fairness

    Held reads all go out once the fetches in flight settle; and, over the
    whole history of what was sent, they go in fair order: no file gets ahead
    of a held read that could have gone by more than its own file was charged
    in the same stretch of virtual time, to within two reads. *)

From S2P Require Import Prelude ReadFair ReadFairSystem.

(** ** Admission as one step *)

Section Admission.
Context (budget : Z).

(** [ReadFairAdmit] either fails for want of a work item, changing nothing, or
    charges the read in the state the lock last showed, as that state's own
    decision says. *)
Lemma admit_is_charge fair irp mayHold workItem others :
  ReadFairAdmit budget fair irp mayHold workItem others = (fair, STATUS_INSUFFICIENT_RESOURCES) \/
  exists at_lock, (at_lock = fair \/ at_lock = others fair) /\
    ReadFairAdmit budget fair irp mayHold workItem others = fair_charge at_lock irp mayHold (ReadFairMustHold budget at_lock (i_Node irp) mayHold).
Proof.
  unfold ReadFairAdmit. destruct (ReadFairMustHold budget fair (i_Node irp) mayHold) eqn:E; [destruct workItem; [right; exists (others fair); auto|by left]|].
  right. exists fair. rewrite E. auto.
Qed.

(** ** Progress *)

(** Fetches settle one after another, no read arriving; [pick k] says which
    of those in flight settles [k]th. *)
Fixpoint drain (n : nat) (pick : nat -> nat) (fair : READ_FAIR) (flying : list READ_IRP) : option (READ_FAIR * list READ_IRP) :=
  match n with
  | O => Some (fair, flying)
  | S n =>
      irp ← flying !! (pick n `mod` length flying)%nat;
      '(fair, released) ← ReadFairSettle budget fair irp;
      drain n pick fair (released ++ delete (pick n `mod` length flying)%nat flying)
  end.

Lemma none_stranded_idle fair reserved : counts_ok fair [] reserved (queued fair) -> reserved < READ_FAIR_MAX_FETCHES -> not_stranded fair -> queued fair = [].
Proof.
  intros Hc Hr [N1 N2]. pose proof (c_fetches _ _ _ _ Hc) as Hf. cbn in Hf. unfold queued. destruct (Waiting fair) as [|w l]; [|specialize (N1 ltac:(done)); lia].
  destruct (Held fair) as [|h l]; [done|]. destruct (N2 h ltac:(left)) as [?|Hp]; [lia|]. rewrite (c_nodes _ _ _ _ Hc) in Hp. done.
Qed.

Lemma drain_spec n pick : forall fair flying reserved log,
  counts_ok fair flying reserved (queued fair) -> tags_ok fair log -> not_stranded fair -> reserved < READ_FAIR_MAX_FETCHES -> n = (length flying + length (queued fair))%nat ->
  exists fair', drain n pick fair flying = Some (fair', []) /\ queued fair' = [] /\ InFlightFetches fair' = reserved /\ InFlightBytes fair' = 0.
Proof.
  induction n as [|n IH]; intros fair flying reserved log Hc Ht Hns Hr Hn.
  - destruct flying; [|done]. exists fair. cbn [drain]. split; [done|]. split; [by eapply none_stranded_idle|]. split; [by rewrite (c_fetches _ _ _ _ Hc)|by rewrite (c_bytes _ _ _ _ Hc)].
  - destruct (decide (flying = [])) as [->|Hne].
    { rewrite (none_stranded_idle _ _ Hc Hr Hns) in Hn. done. }
    cbn [drain]. assert (Hlt : (pick n `mod` length flying < length flying)%nat) by (apply Nat.mod_upper_bound; by destruct flying).
    destruct (lookup_lt_is_Some_2 _ _ Hlt) as [irp Hirp]. rewrite Hirp. cbn [mbind option_bind]. set (k := (pick n `mod` length flying)%nat) in *.
    assert (Hsplit : flying = take k flying ++ irp :: drop (S k) flying) by (symmetry; by apply take_drop_middle).
    rewrite Hsplit in Hc. destruct (fair_settle_ok budget _ _ _ _ _ _ Hc Ht) as (fair' & l & -> & _ & Hc' & Ht' & Hns' & Hq). cbn [mbind option_bind].
    rewrite <- delete_take_drop in Hc'. apply (IH _ _ _ _ Hc' Ht' Hns' Hr). apply Permutation_length in Hq. rewrite length_app in *. rewrite length_delete by done. rewrite Hq in Hn. lia.
Qed.

(** No read waits for ever: from any reachable state with no
    fetches reserved aside, once as many fetches have settled as there were
    reads in flight or held, in whatever order they settle and whatever is
    released on the way, every held read has gone out and settled, and the
    link is empty. *)
Theorem held_reads_all_go s pick :
  fair_reachable budget s -> fs_Reserved s = 0 ->
  exists fair', drain (length (fs_Flying s) + length (queued (fs_Fair s))) pick (fs_Fair s) (fs_Flying s) = Some (fair', []) /\
    queued fair' = [] /\ InFlightFetches fair' = 0 /\ InFlightBytes fair' = 0.
Proof.
  intros [Hc Ht Hns]%fair_reachable_inv Hr. rewrite Hr in Hc. by eapply drain_spec.
Qed.
End Admission.

Lemma held_reads_all_go_witness :
  exists fair', drain 100 3 (fun k => k) (fs_Fair demo_fair) (fs_Flying demo_fair) = Some (fair', []) /\ queued fair' = [] /\ InFlightFetches fair' = 0 /\ InFlightBytes fair' = 0.
Proof. exact (held_reads_all_go 100 demo_fair (fun k => k) demo_fair_reachable eq_refl). Defined.

(** ** Fairness *)

Definition node_log (n : Z) (log : list HELD_IRP) : list HELD_IRP := List.filter (fun h => i_Node (h_Irp h) =? n) log.
Definition h_finish (h : HELD_IRP) : Z := h_Start h + i_Length (h_Irp h).

(** A file's charges do not overlap: each starts at or after the finish of
    the one before. *)
Fixpoint spaced (t : Z) (l : list HELD_IRP) : Prop :=
  match l with
  | [] => True
  | h :: l => t <= h_Start h /\ 0 < i_Length (h_Irp h) /\ spaced (h_finish h) l
  end.
Definition last_finish (t : Z) (l : list HELD_IRP) : Z := foldl (fun _ h => h_finish h) t l.

Definition log_ok (s : FAIR_SYSTEM) : Prop :=
  forall n, spaced 0 (node_log n (fs_Log s)) /\ ReadFinishTag (node_of (fs_Fair s) n) = last_finish 0 (node_log n (fs_Log s)).

Lemma spaced_app l1 l2 t : spaced t (l1 ++ l2) <-> spaced t l1 /\ spaced (last_finish t l1) l2.
Proof. revert t. induction l1 as [|h l1 IH]; intros t; cbn [app spaced last_finish foldl]; [tauto|]. rewrite IH. unfold last_finish. tauto. Qed.

Section Tags.
Context (budget : Z).

Lemma admit_held_finish fuel : forall fair released fair' l, admit_held_loop budget fuel fair released = Some (fair', l) ->
  forall n, ReadFinishTag (node_of fair' n) = ReadFinishTag (node_of fair n).
Proof.
  induction fuel as [|fuel IH]; intros fair released fair' l H n; [done|]. cbn [admit_held_loop] in H. destruct (_ <? _); [|by injection H as <- _].
  destruct (fair_next budget fair) as [[[h held] waiting]|]; [|by injection H as <- _]. rewrite (IH _ _ _ _ H n), node_of_charge.
  destruct (Z.eqb_spec (i_Node (h_Irp h)) n) as [<-|]; done.
Qed.

Lemma fair_step_log s s' : fair_inv s -> log_ok s -> fair_step budget s s' -> log_ok s'.
Proof.
  intros [Hc Ht Hns] Hlog Hstep n. specialize (Hlog n). destruct Hstep as [s irp mayHold hold fair' st (Hl & Hch & Hn) Hh Hcg|fair l1 irp l2 res log fair' released Hs|fair l res log fetches fair' m Hf Hr|fair l res log fetches fair' released Hf Hg]; cbn [fs_Fair fs_Log] in *.
  - subst hold. destruct (charge_ok budget _ _ _ _ _ _ _ _ Hc Ht Hns Hl Hch Hn Hcg) as (_ & _ & _ & Hfin). rewrite Hfin. unfold node_log in *. rewrite List.filter_app. cbn [List.filter h_Irp].
    destruct (Z.eqb_spec (i_Node irp) n) as [<-|]; [|rewrite app_nil_r; done]. destruct Hlog as [Hsp Hft]. split.
    + apply spaced_app. split; [done|]. cbn [spaced h_Start h_Irp]. split_and!; [|lia|done]. rewrite <- Hft. unfold start_tag. lia.
    + unfold last_finish. rewrite foldl_app. done.
  - destruct Hlog as [Hsp Hft]. split; [done|]. unfold ReadFairSettle in Hs. destruct (negb _); [by injection Hs as <- _|]. fold (settled fair irp) in Hs.
    unfold ReadFairAdmitHeld in Hs. rewrite (admit_held_finish _ _ _ _ _ Hs n), node_of_settled. destruct (Z.eqb_spec (i_Node irp) n) as [<-|]; done.
  - by injection Hr as <- _.
  - destruct Hlog as [Hsp Hft]. split; [done|]. unfold ReadFairGiveBack in Hg. destruct (_ =? 0); [by injection Hg as <- _|]. by rewrite (admit_held_finish _ _ _ _ _ Hg n).
Qed.

Lemma fair_reachable_log s : fair_reachable budget s -> log_ok s.
Proof.
  intros (s0 & H0 & Hs). assert (Hl : log_ok s0) by (rewrite H0; intros n; cbn [fs_Fair fs_Log]; rewrite node_of_init; done). apply fair_initial_inv in H0.
  induction Hs as [|s1 s2 s3 Hst _ IH]; [done|]. apply IH; [by eapply fair_step_inv|by eapply fair_step_log].
Qed.
End Tags.

(** Bytes of the file's reads whose start tags lie in [a, b). *)
Fixpoint share (l : list HELD_IRP) (a b : Z) : Z :=
  match l with
  | [] => 0
  | h :: l => (if (a <=? h_Start h) && (h_Start h <? b) then i_Length (h_Irp h) else 0) + share l a b
  end.

(** The file has reads queued through [a, b]: consecutive charges, each
    starting where the one before finished, from at or before [a] to at or
    after [b]. *)
Fixpoint joined (t : Z) (l : list HELD_IRP) : Prop :=
  match l with [] => True | h :: l => h_Start h = t /\ joined (h_finish h) l end.
Definition backlogged (l : list HELD_IRP) (a b : Z) : Prop :=
  exists l1 h l2 l3, l = l1 ++ h :: l2 ++ l3 /\ h_Start h <= a /\ joined (h_finish h) l2 /\ b <= last_finish (h_finish h) l2.

Lemma share_past l a b t : spaced t l -> b <= t -> share l a b = 0.
Proof.
  revert t. induction l as [|h l IH]; intros t; [done|]. cbn [spaced share]. intros (Hs & Hl & Hsp) Hb. unfold h_finish in Hsp.
  destruct (Z.ltb_spec (h_Start h) b); [lia|]. rewrite andb_false_r, (IH _ Hsp) by lia. done.
Qed.

Lemma share_nonneg l a b t : spaced t l -> 0 <= share l a b.
Proof. revert t. induction l as [|h l IH]; intros t; [done|]. cbn [spaced share]. intros (_ & Hl & Hsp). specialize (IH _ Hsp). destruct (_ && _); lia. Qed.

Lemma share_upper l a b L t :
  spaced t l -> Forall (fun h => i_Length (h_Irp h) <= L) l -> 0 <= L -> t < b -> a < b -> share l a b <= b - 1 - Z.max a t + L \/ share l a b = 0.
Proof.
  revert t. induction l as [|h l IH]; intros t; [by right|]. cbn [spaced share]. rewrite Forall_cons. intros (Hs & Hl & Hsp) [HL HF] H0 Ht Ha.
  destruct (Z.ltb_spec (h_Start h) b) as [Hb|Hb].
  - unfold h_finish in Hsp. destruct (Z.leb_spec a (h_Start h)) as [Has|Has]; cbn [andb].
    + left. destruct (Z.le_gt_cases b (h_Start h + i_Length (h_Irp h))) as [Hle|Hgt].
      * rewrite (share_past _ _ _ _ Hsp Hle). lia.
      * destruct (IH _ Hsp HF H0 ltac:(lia) Ha) as [H|H]; lia.
    + destruct (Z.le_gt_cases b (h_Start h + i_Length (h_Irp h))) as [Hle|Hgt].
      * right. rewrite (share_past _ _ _ _ Hsp Hle). lia.
      * destruct (IH _ Hsp HF H0 ltac:(lia) Ha) as [H|H]; [left|right]; lia.
  - rewrite andb_false_r. right. rewrite (share_past _ _ _ _ Hsp); unfold h_finish; lia.
Qed.

Lemma spaced_positive l t x : spaced t l -> x ∈ l -> 0 < i_Length (h_Irp x).
Proof. revert t. induction l as [|h l IH]; intros t; [by intros _ ?%elem_of_nil|]. cbn [spaced]. intros (_ & Hl & Hsp) [->|Hx]%elem_of_cons; [done|by eapply IH]. Qed.

Lemma spaced_finish l t : spaced t l -> t <= last_finish t l.
Proof. revert t. induction l as [|h l IH]; intros t; cbn [spaced last_finish foldl]; [lia|]. intros (Hs & Hl & Hsp%IH). unfold last_finish, h_finish in *. lia. Qed.

Lemma share_app l1 l2 a b : share (l1 ++ l2) a b = share l1 a b + share l2 a b.
Proof. induction l1 as [|h l1 IH]; cbn [app share]; lia. Qed.

Lemma share_joined l a b t L :
  joined t l -> spaced t l -> Forall (fun h => i_Length (h_Irp h) <= L) l -> a <= t -> b <= last_finish t l -> b - t <= share l a b.
Proof.
  revert t. induction l as [|h l IH]; intros t; cbn [joined spaced share last_finish foldl]; [lia|]. rewrite Forall_cons.
  intros [Hs Hj] (_ & Hl & Hsp) [HL HF] Ha Hb. pose proof (share_nonneg l a b _ Hsp). rewrite Hs. destruct (Z.leb_spec a t); [|lia]. destruct (Z.ltb_spec t b); cbn [andb]; [|lia].
  unfold h_finish in *. rewrite Hs in *. specialize (IH _ Hj Hsp HF). unfold last_finish, h_finish in IH. specialize (IH ltac:(lia) Hb). lia.
Qed.

(** Charges before [a] only waste less than one read of the stretch. *)
Lemma share_lower l h a b L :
  h_Start h <= a -> joined (h_finish h) l -> spaced (h_finish h) l -> Forall (fun h => 0 < i_Length (h_Irp h) <= L) (h :: l) -> b <= last_finish (h_finish h) l ->
  b - a - L <= share (h :: l) a b.
Proof.
  revert h. induction l as [|h' l IH]; intros h Hs Hj Hsp HF Hb; rewrite Forall_cons in HF; destruct HF as [HL HF].
  - cbn [last_finish foldl] in Hb. unfold h_finish in Hb. cbn [share]. destruct (_ && _); lia.
  - destruct (Z.le_gt_cases (h_finish h) a) as [Hle|Hgt].
    + cbn [joined spaced last_finish foldl] in Hj, Hsp, Hb. destruct Hj as [Hs' Hj], Hsp as (_ & _ & Hsp). specialize (IH h' ltac:(lia) Hj Hsp HF Hb).
      cbn [share] in *. destruct ((a <=? h_Start h) && (h_Start h <? b)); lia.
    + assert (HF' : Forall (fun h => i_Length (h_Irp h) <= L) (h' :: l)) by (eapply Forall_impl; [exact HF|]; cbn; lia).
      pose proof (share_joined (h' :: l) a b (h_finish h) L Hj Hsp HF' ltac:(lia) Hb) as Hlow.
      change (share (h :: h' :: l) a b) with ((if (a <=? h_Start h) && (h_Start h <? b) then i_Length (h_Irp h) else 0) + share (h' :: l) a b).
      unfold h_finish in *. destruct (_ && _); lia.
Qed.

(** ** The order of release *)

(** A read sent out on the link, with the scheduler as it was just before. *)
Record SENT := mkSent { snt_Fair : READ_FAIR; snt_Read : HELD_IRP }.

#[export] Instance READ_IRP_eq_dec : EqDecision READ_IRP.
Proof. solve_decision. Defined.
#[export] Instance HELD_IRP_eq_dec : EqDecision HELD_IRP.
Proof. solve_decision. Defined.

Section Order.
Context (budget : Z).

(** The first [n] reads the loop of [ReadFairAdmitHeld] sends from [fair]. *)
Fixpoint release_trace (n : nat) (fair : READ_FAIR) : list SENT :=
  match n with
  | O => []
  | S n =>
      match fair_next budget fair with
      | None => []
      | Some (h, held, waiting) =>
          mkSent fair h :: release_trace n (admit_fetch (with_queues fair held waiting) (h_Irp h) (Z.max (VirtualTime fair) (h_Start h)))
      end
  end.

Definition given_back (fair : READ_FAIR) (fetches : Z) : READ_FAIR :=
  mkFair (InFlightBytes fair) (VirtualTime fair) (u32 (InFlightFetches fair - fetches)) (Held fair) (Waiting fair) (Nodes fair) (FetchAdmitted fair).

(** A step of the scheduler's clients, with the reads it sends in order. *)
Inductive fair_sends : FAIR_SYSTEM -> list SENT -> FAIR_SYSTEM -> Prop :=
  | sends_admit s irp mayHold hold fair' st :
      arrives s irp -> hold = ReadFairMustHold budget (fs_Fair s) (i_Node irp) mayHold ->
      fair_charge (fs_Fair s) irp mayHold hold = (fair', st) ->
      fair_sends s (if hold then [] else [mkSent (fs_Fair s) (mkHeld irp (start_tag (fs_Fair s) irp))])
        (mkFairSystem fair' (if hold then fs_Flying s else irp :: fs_Flying s) (fs_Reserved s) (fs_Log s ++ [mkHeld irp (start_tag (fs_Fair s) irp)]))
  | sends_settle fair l1 irp l2 res log fair' released :
      ReadFairSettle budget fair irp = Some (fair', released) ->
      fair_sends (mkFairSystem fair (l1 ++ irp :: l2) res log) (release_trace (length released) (settled fair irp))
        (mkFairSystem fair' (released ++ l1 ++ l2) res log)
  | sends_reserve fair l res log fetches fair' n :
      0 <= fetches -> ReadFairReserve fair fetches = (fair', n) ->
      fair_sends (mkFairSystem fair l res log) [] (mkFairSystem fair' l (res + n) log)
  | sends_give_back fair l res log fetches fair' released :
      0 <= fetches <= res -> ReadFairGiveBack budget fair fetches = Some (fair', released) ->
      fair_sends (mkFairSystem fair l res log) (release_trace (length released) (given_back fair fetches))
        (mkFairSystem fair' (released ++ l) (res - fetches) log).

(** Everything sent since the driver was loaded, in order. *)
Inductive fair_history : list SENT -> FAIR_SYSTEM -> Prop :=
  | history_start s : fair_initial s -> fair_history [] s
  | history_step tr s sent s' : fair_history tr s -> fair_sends s sent s' -> fair_history (tr ++ sent) s'.

(** The reads sent ahead of the held read [w] at moments at which [w] could
    have gone itself, demand that was waiting apart. *)
Definition passing (w : HELD_IRP) (tr : list SENT) : list HELD_IRP :=
  snt_Read <$> List.filter (fun x => bool_decide (Waiting (snt_Fair x) = []) && bool_decide (w ∈ Held (snt_Fair x)) && may_go budget (snt_Fair x) w) tr.

(** The link is never left idle: at the limit, or nothing held may go. *)
Definition work_conserving (fair : READ_FAIR) : Prop := InFlightFetches fair = READ_FAIR_MAX_FETCHES \/ none_chosen budget fair.

(** What went was the right one to send: demand that was waiting goes first
    and as it arrived, and no held read that could go had a lower tag. *)
Definition in_order (x : SENT) : Prop :=
  (forall d rest, Waiting (snt_Fair x) = d :: rest -> snt_Read x = d) /\
  (Waiting (snt_Fair x) = [] -> forall w, w ∈ Held (snt_Fair x) -> may_go budget (snt_Fair x) w = true -> h_Start (snt_Read x) <= h_Start w).

Lemma chosen_in_order fair h held waiting : chosen budget fair h held waiting -> in_order (mkSent fair h).
Proof.
  intros [[Hw ->]|(Hw & -> & l1 & l2 & Hl & -> & Hm & H1 & H2)]; split; cbn; try congruence.
  intros _ w Hin Hg. rewrite Hl, elem_of_app, elem_of_cons in Hin. destruct Hin as [Hin|[->|Hin]]; [specialize (H1 w Hin Hg); lia|lia|by apply H2].
Qed.

Lemma admit_held_grows fuel : forall fair released fair' l, admit_held_loop budget fuel fair released = Some (fair', l) -> exists l', l = released ++ l'.
Proof.
  induction fuel as [|fuel IH]; intros fair released fair' l H; [done|]. cbn [admit_held_loop] in H. destruct (_ <? _); [|injection H as _ <-; exists []; by rewrite app_nil_r].
  destruct (fair_next budget fair) as [[[h held] waiting]|]; [|injection H as _ <-; exists []; by rewrite app_nil_r].
  destruct (IH _ _ _ _ H) as [l' ->]. exists (h_Irp h :: l'). by rewrite <- app_assoc.
Qed.

Lemma release_turn_inv fair flying reserved log :
  counts_ok fair flying reserved (queued fair) -> tags_ok fair log ->
  match fair_next budget fair with Some (h, held, waiting) => chosen budget fair h held waiting | None => none_chosen budget fair end.
Proof.
  intros Hc Ht. apply fair_next_spec.
  - pose proof (c_ids _ _ _ _ Hc) as Hids. rewrite fmap_app, NoDup_app in Hids. tauto.
  - pose proof (t_queued _ _ Ht) as Hq. rewrite Forall_app in Hq. pose proof (t_total _ _ Ht). eapply Forall_impl; [exact (proj1 Hq)|]. cbn. unfold MAXULONG64. lia.
Qed.

(** The loop's trace: in order, the reads moved, and where they came from. *)
Lemma release_trace_spec fuel : forall fair released fair' l flying reserved log,
  counts_ok fair flying reserved (queued fair) -> tags_ok fair log -> admit_held_loop budget fuel fair released = Some (fair', released ++ l) ->
  let tr := release_trace (length l) fair in
  Forall in_order tr /\ h_Irp ∘ snt_Read <$> tr = l /\ Held fair ++ Waiting fair ≡ₚ (snt_Read <$> tr) ++ Held fair' ++ Waiting fair' /\ work_conserving fair'.
Proof.
  induction fuel as [|fuel IH]; intros fair released fair' l flying reserved log Hc Ht Hrun; [done|]. cbn [admit_held_loop] in Hrun.
  pose proof (release_turn_inv _ _ _ _ Hc Ht) as Hnext. destruct (Z.ltb_spec (InFlightFetches fair) READ_FAIR_MAX_FETCHES) as [Hlt|Hge].
  - destruct (fair_next budget fair) as [[[h held] waiting]|] eqn:E.
    + cbn [VirtualTime with_queues] in Hrun. rewrite virtual_max in Hrun. destruct (release_turn budget _ _ _ _ _ _ _ Hc Ht Hlt Hnext) as [Hc' Ht'].
      destruct (admit_held_grows _ _ _ _ _ Hrun) as [l' Hl']. rewrite <- app_assoc in Hl'. apply app_inv_head in Hl' as ->.
      rewrite app_assoc in Hrun. specialize (IH _ _ _ _ _ _ _ Hc' Ht' Hrun). cbn zeta in IH. destruct IH as (I1 & I2 & I3 & I4).
      cbn [app length release_trace]. rewrite E. cbn zeta. split_and!; [constructor; [by eapply chosen_in_order|done]|cbn; by rewrite I2| |done].
      rewrite (chosen_queues _ _ _ _ _ Hnext). cbn [fmap list_fmap app snt_Read]. by constructor.
    + injection Hrun as <- Hl. rewrite <- (app_nil_r released) in Hl at 1. apply app_inv_head in Hl as <-. split_and!; try done. by right.
  - injection Hrun as <- Hl. rewrite <- (app_nil_r released) in Hl at 1. apply app_inv_head in Hl as <-. split_and!; try done. left. pose proof (c_limit _ _ _ _ Hc). lia.
Qed.

(** More in flight lets no more reads go. *)
Lemma may_go_antitone fair flying reserved pending fair' flying' reserved' pending' h :
  counts_ok fair flying reserved pending -> counts_ok fair' flying' reserved' pending' ->
  bytes_of flying <= bytes_of flying' -> (forall n, flying_of flying n <= flying_of flying' n) -> may_go budget fair h = false -> may_go budget fair' h = false.
Proof.
  intros Hc Hc' Hb Hn. unfold may_go. rewrite !orb_false_iff, (c_bytes _ _ _ _ Hc), (c_bytes _ _ _ _ Hc'), (c_nodes _ _ _ _ Hc), (c_nodes _ _ _ _ Hc').
  specialize (Hn (i_Node (h_Irp h))). pose proof (flying_of_bound flying (i_Node (h_Irp h))). rewrite !Z.ltb_ge, !Z.eqb_neq. lia.
Qed.

Lemma charge_queues fair irp mayHold hold fair' st : fair_charge fair irp mayHold hold = (fair', st) ->
  Held fair' = (if hold && mayHold then Held fair ++ [mkHeld irp (start_tag fair irp)] else Held fair) /\
  Waiting fair' = (if hold && negb mayHold then Waiting fair ++ [mkHeld irp (start_tag fair irp)] else Waiting fair) /\
  (hold = true -> InFlightFetches fair' = InFlightFetches fair).
Proof. unfold fair_charge. rewrite virtual_max, Z.max_comm. intros H. destruct hold; injection H as <- _; [destruct mayHold|]; done. Qed.

Lemma charge_conserves fair flying reserved log irp mayHold fair' st :
  counts_ok fair flying reserved (queued fair) -> tags_ok fair log -> not_stranded fair -> work_conserving fair ->
  0 < i_Length irp < 4294967296 -> charged log + i_Length irp < 9223372036854775808 -> i_Id irp ∉ i_Id <$> flying ++ queued fair ->
  fair_charge fair irp mayHold (ReadFairMustHold budget fair (i_Node irp) mayHold) = (fair', st) -> work_conserving fair'.
Proof.
  intros Hc Ht Hns Hw Hl Hch Hn Hcg. destruct (charge_ok budget _ _ _ _ _ _ _ _ Hc Ht Hns Hl Hch Hn Hcg) as (Hc' & _ & Hns' & _).
  destruct (charge_queues _ _ _ _ _ _ Hcg) as (Hh & Hwt & Hf). pose proof (must_hold_cases budget _ _ _ (i_Node irp) mayHold Hc) as Hcase.
  assert (Hkeep : forall h, may_go budget fair h = false -> may_go budget fair' h = false).
  { intros h. eapply may_go_antitone; [exact Hc|exact Hc'| |]; destruct (ReadFairMustHold _ _ _ _); rewrite ?bytes_of_cons; try lia. intros n. rewrite flying_of_cons. destruct (_ =? n); lia. }
  destruct Hw as [Hw|[Hw Hnone]].
  { destruct (ReadFairMustHold _ _ _ _); [left; by rewrite Hf|lia]. }
  destruct (ReadFairMustHold budget fair (i_Node irp) mayHold) eqn:E; cbn [andb] in Hh, Hwt.
  - specialize (Hf eq_refl). destruct (decide (InFlightFetches fair = READ_FAIR_MAX_FETCHES)) as [Hm|Hm]; [left; by rewrite Hf|]. destruct Hcase as [?|[-> Hpos]]; [done|].
    right. split; [by rewrite Hwt|]. rewrite Hh. intros h [Hin| ->%list_elem_of_singleton]%elem_of_app; [by apply Hkeep, Hnone|].
    apply Hkeep. unfold may_go. cbn [h_Irp]. rewrite (proj2 (Z.eqb_neq _ 0)) by lia. rewrite orb_false_r. unfold ReadFairMustHold in E.
    apply orb_true_iff in E as [E|E%Z.leb_le]; [|pose proof (c_limit _ _ _ _ Hc); lia]. repeat apply andb_true_iff in E as [E ?]. lia.
  - right. split; [by rewrite Hwt|]. rewrite Hh. intros h Hin. by apply Hkeep, Hnone.
Qed.

Lemma sends_step s sent s' : fair_sends s sent s' -> fair_step budget s s'.
Proof. destruct 1; econstructor; eauto. Qed.

Record history_ok (tr : list SENT) (s : FAIR_SYSTEM) : Prop := {
  ho_inv : fair_inv s;
  ho_busy : work_conserving (fs_Fair s);
  ho_order : Forall in_order tr;
  ho_sent : fs_Log s ≡ₚ (snt_Read <$> tr) ++ Held (fs_Fair s) ++ Waiting (fs_Fair s)
}.

(** A release from [fair], in which the counters are already right. *)
Lemma history_release tr fair fair0 flying reserved log fair' released :
  Forall in_order tr -> log ≡ₚ (snt_Read <$> tr) ++ Held fair0 ++ Waiting fair0 -> Held fair = Held fair0 -> Waiting fair = Waiting fair0 ->
  counts_ok fair flying reserved (queued fair) -> tags_ok fair log -> ReadFairAdmitHeld budget fair = Some (fair', released) ->
  let tr' := tr ++ release_trace (length released) fair in
  work_conserving fair' /\ Forall in_order tr' /\ log ≡ₚ (snt_Read <$> tr') ++ Held fair' ++ Waiting fair'.
Proof.
  intros Hord Hlog Eh Ew Hc Ht Hrun. destruct (release_trace_spec _ _ [] _ _ _ _ _ Hc Ht Hrun) as (I1 & _ & I3 & I4). cbn zeta.
  split_and!; [done|by apply Forall_app|]. rewrite Hlog, <- Eh, <- Ew, I3, fmap_app. by rewrite app_assoc.
Qed.

Lemma given_back_counts fair flying reserved pending fetches :
  counts_ok fair flying reserved pending -> 0 <= fetches <= reserved -> counts_ok (given_back fair fetches) flying (reserved - fetches) pending.
Proof.
  intros Hc Hf. pose proof (counts_bounds _ _ _ _ Hc) as (_ & _ & Hb). destruct Hc as [H1 H2 H3 H4 H5 H6 H7 H8]. unfold READ_FAIR_MAX_FETCHES in *.
  split; cbn; try done; [rewrite u32_id; lia|rewrite u32_id; unfold READ_FAIR_MAX_FETCHES; lia|lia].
Qed.

Lemma settled_tags fair log irp : tags_ok fair log -> tags_ok (settled fair irp) log.
Proof. intros [T1 T2 T3 T4]. split; cbn; try done. intros n. rewrite node_of_settled. destruct (_ =? n); apply T3. Qed.

Lemma sends_history tr s sent s' : history_ok tr s -> fair_sends s sent s' -> history_ok (tr ++ sent) s'.
Proof.
  intros [Hinv Hw Hord Hlog] Hs. pose proof (fair_step_inv _ _ _ Hinv (sends_step _ _ _ Hs)) as Hinv'. destruct Hinv as [Hc Ht Hns].
  destruct Hs as [s irp mayHold hold fair' st (Hl & Hch & Hn) -> Hcg|fair l1 irp l2 res log fair' released Hs|fair l res log fetches fair' n Hf Hr|fair l res log fetches fair' released Hf Hg]; cbn [fs_Fair fs_Flying fs_Reserved fs_Log] in *.
  - pose proof (charge_conserves _ _ _ _ _ _ _ _ Hc Ht Hns Hw Hl Hch Hn Hcg) as Hw'. destruct (charge_queues _ _ _ _ _ _ Hcg) as (Hh & Hwt & _). pose proof (must_hold_cases budget _ _ _ (i_Node irp) mayHold Hc) as Hcase.
    set (hold := ReadFairMustHold budget (fs_Fair s) (i_Node irp) mayHold) in *. split; [done|done| |]; cbn [fs_Fair fs_Log].
    + apply Forall_app. split; [done|]. destruct hold; [done|]. apply Forall_singleton. destruct Hns as [N1 _]. split; cbn; [intros d rest E; specialize (N1 ltac:(by rewrite E)); lia|].
      intros _ w Hin Hg. destruct Hw as [?|[_ Hnone]]; [lia|]. rewrite (Hnone w Hin) in Hg. done.
    + rewrite Hlog, Hh, Hwt, !fmap_app. destruct hold, mayHold; cbn [andb negb fmap list_fmap snt_Read]; solve_Permutation.
  - assert (Hc' : counts_ok fair (irp :: l1 ++ l2) res (queued fair)) by (eapply counts_perm; [|done|exact Hc]; by rewrite Permutation_middle).
    unfold ReadFairSettle in Hs. rewrite bool_decide_eq_true_2 in Hs by (rewrite (c_flags _ _ _ _ Hc'); left). cbn [negb] in Hs. fold (settled fair irp) in Hs.
    destruct (history_release tr (settled fair irp) fair (l1 ++ l2) res log fair' released Hord Hlog) as (H1 & H2 & H3); [done|done|by apply settle_counts|by apply settled_tags|done|by split].
  - rewrite app_nil_r. injection Hr as <- <-. split; [done| |done|done]. destruct (reserve_ok _ _ _ _ _ _ _ Hc Ht Hns Hf eq_refl) as (_ & Hc2 & _). cbn [fs_Fair].
    destruct Hw as [Hm|Hw]; [left|by right]. cbn. rewrite Hm. cbn. rewrite Z.min_r, Z.add_0_r by done. done.
  - unfold ReadFairGiveBack in Hg. destruct (Z.eqb_spec fetches 0) as [->|Hz]; [injection Hg as <- <-; rewrite app_nil_r; by split|]. fold (given_back fair fetches) in Hg.
    destruct (history_release tr (given_back fair fetches) fair l (res - fetches) log fair' released Hord Hlog) as (H1 & H2 & H3); [done|done|by apply given_back_counts|by destruct Ht|done|by split].
Qed.

Lemma history_holds tr s : fair_history tr s -> history_ok tr s /\ fair_reachable budget s.
Proof.
  induction 1 as [s H0|tr s sent s' _ [IH Hr] Hs]; [split; [|by exists s]|].
  - rewrite H0. split; cbn; try done; [by apply fair_initial_inv|right; split; [done|by intros h ?%elem_of_nil]].
  - split; [by eapply sends_history|]. destruct Hr as (s0 & H0 & Hr). exists s0. split; [done|]. eapply rtc_r; [exact Hr|by eapply sends_step].
Qed.

(** What passed a held read is part of what was sent, at tags no later. *)
Lemma passing_sent w tr : passing w tr ⊆+ (snt_Read <$> tr).
Proof.
  unfold passing. induction tr as [|x tr IH]; cbn [List.filter]; [done|]. destruct (_ && _); cbn [fmap list_fmap]; [by apply submseteq_skip|by apply submseteq_cons].
Qed.

Lemma passing_in_order w tr : Forall in_order tr -> Forall (fun h => h_Start h <= h_Start w) (passing w tr).
Proof.
  unfold passing. induction 1 as [|x tr Hx _ IH]; cbn [List.filter]; [constructor|]. destruct (_ && _) eqn:E; [|done]. cbn [fmap list_fmap]. constructor; [|done].
  apply andb_true_iff in E as [[E1%bool_decide_eq_true E2%bool_decide_eq_true]%andb_true_iff E3]. by apply (proj2 Hx).
Qed.

Lemma node_log_sub n l l' : l ⊆+ l' -> node_log n l ⊆+ node_log n l'.
Proof.
  unfold node_log. induction 1 as [|x l l' _ IH|x y l|x l l' _ IH|l1 l2 l3 _ IH1 _ IH2]; cbn [List.filter]; [done| | | |by etrans].
  - destruct (_ =? n); [by apply submseteq_skip|done].
  - destruct (i_Node (h_Irp x) =? n), (i_Node (h_Irp y) =? n); try done. apply submseteq_swap.
  - destruct (_ =? n); [by apply submseteq_cons|done].
Qed.

Lemma share_sub l l' a b : Forall (fun h => 0 < i_Length (h_Irp h)) l' -> l ⊆+ l' -> share l a b <= share l' a b.
Proof.
  intros Hp Hs. revert Hp. induction Hs as [|x l l' _ IH|x y l|x l l' _ IH|l1 l2 l3 H12 IH1 H23 IH2]; cbn [share]; rewrite ?Forall_cons; intros Hp.
  - lia.
  - destruct Hp as [_ Hp]. specialize (IH Hp). lia.
  - lia.
  - destruct Hp as [Hx Hp]. specialize (IH Hp). destruct (_ && _); lia.
  - etrans; [apply IH1|by apply IH2]. rewrite Forall_forall in *. intros x Hx. apply Hp. by eapply elem_of_submseteq.
Qed.

Lemma log_lengths s L k : fair_reachable budget s -> Forall (fun h => i_Length (h_Irp h) <= L) (fs_Log s) -> Forall (fun h => 0 < i_Length (h_Irp h) <= L) (node_log k (fs_Log s)).
Proof.
  intros Hr HL. destruct (fair_reachable_log _ _ Hr k) as [Hsp _]. apply Forall_forall. intros x Hx. split; [by eapply spaced_positive|].
  apply list_elem_of_In, filter_In in Hx as [Hx _]. rewrite Forall_forall in HL. by apply HL, list_elem_of_In.
Qed.

(** What a file that kept its queue full was charged in the stretch. *)
Lemma backlogged_share s m a b L :
  fair_reachable budget s -> Forall (fun h => i_Length (h_Irp h) <= L) (fs_Log s) -> backlogged (node_log m (fs_Log s)) a b ->
  0 < L /\ 0 <= a /\ b - a - L <= share (node_log m (fs_Log s)) a b.
Proof.
  intros Hr HL (l1 & h & l2 & l3 & Hlog & Hs & Hj & Hb). pose proof (log_lengths _ _ m Hr HL) as HF. destruct (fair_reachable_log _ _ Hr m) as [Hsm _].
  rewrite Hlog in *. rewrite app_comm_cons in *. rewrite !spaced_app in Hsm. destruct Hsm as (Hs1 & Hs2 & Hs3). rewrite !Forall_app in HF. destruct HF as (_ & HF & _).
  pose proof (spaced_finish _ _ Hs1). cbn [spaced] in Hs2. destruct Hs2 as (Ht & Hl & Hs2).
  pose proof (share_lower l2 h a b L Hs Hj Hs2 HF Hb). rewrite !share_app. pose proof (share_nonneg l1 a b _ Hs1). pose proof (share_nonneg l3 a b _ Hs3).
  rewrite Forall_cons in HF. lia.
Qed.
End Order.

(** C9: Over the whole history of the scheduler, with every read sent out on
    the link in the order it went: every read charged was sent once or is
    still queued; the link is never left idle, it is at the fetch limit or no
    held read may go; demand that waits goes first, as it arrived; and held
    reads go in fair order.  Take a read held for a file whose queue has been
    full since virtual time [a].  Whatever was sent while it was held and
    could have gone itself, waiting demand apart, has no later start tag, and no
    other file sent more bytes ahead of it in that stretch than its own file
    was charged in it, beyond twice the longest read. *)
Theorem held_reads_go_in_fair_order budget tr s w n a L :
  fair_history budget tr s -> Forall (fun h => i_Length (h_Irp h) <= L) (fs_Log s) ->
  a <= h_Start w -> backlogged (node_log (i_Node (h_Irp w)) (fs_Log s)) a (h_Start w) ->
  fs_Log s ≡ₚ (snt_Read <$> tr) ++ Held (fs_Fair s) ++ Waiting (fs_Fair s) /\
  work_conserving budget (fs_Fair s) /\
  Forall (fun x => forall d rest, Waiting (snt_Fair x) = d :: rest -> snt_Read x = d) tr /\
  Forall (fun h => h_Start h <= h_Start w) (passing budget w tr) /\
  share (node_log n (passing budget w tr)) a (h_Start w + 1) <= share (node_log (i_Node (h_Irp w)) (fs_Log s)) a (h_Start w) + 2 * L.
Proof.
  intros Hh HL Ha Hb. destruct (history_holds _ _ _ Hh) as [[Hinv Hw Hord Hlog] Hr]. destruct (backlogged_share _ _ _ _ _ _ Hr HL Hb) as (HL0 & Ha0 & Hlow).
  split_and!; [done|done|eapply Forall_impl; [exact Hord|]; by intros x [Hx _]|by apply passing_in_order|].
  pose proof (log_lengths _ _ _ n Hr HL) as HF. destruct (fair_reachable_log _ _ Hr n) as [Hsn _].
  assert (Hsub : share (node_log n (passing budget w tr)) a (h_Start w + 1) <= share (node_log n (fs_Log s)) a (h_Start w + 1)).
  { apply share_sub; [eapply Forall_impl; [exact HF|]; cbn; lia|]. apply node_log_sub. rewrite Hlog. etrans; [apply passing_sent|by apply submseteq_inserts_r]. }
  pose proof (share_nonneg (node_log (i_Node (h_Irp w)) (fs_Log s)) a (h_Start w) _ (proj1 (fair_reachable_log _ _ Hr _))).
  destruct (share_upper (node_log n (fs_Log s)) a (h_Start w + 1) L 0 Hsn); [eapply Forall_impl; [exact HF|]; cbn; lia|lia..].
Qed.

(** ** A demonstration

    The demonstration's file 2 reads 40 bytes more, held at tag 50.  Then file
    1's fetch settles: of the two held reads file 2's goes first, and file 1's
    own, at tag 100, second. *)

Definition demo_order : FAIR_SYSTEM := admit_sys 100 demo_fair (mkIrp 4 2 40) true.
Definition demo_settle : READ_FAIR * list READ_IRP := default (BlorgReadInit ∅ ∅, []) (ReadFairSettle 100 (fs_Fair demo_order) (mkIrp 1 1 100)).
Definition demo_settled : FAIR_SYSTEM := mkFairSystem (fst demo_settle) (snd demo_settle ++ [mkIrp 3 2 50]) 0 (fs_Log demo_order).
Definition demo_late : HELD_IRP := mkHeld (mkIrp 2 1 60) 100.

Definition sent_directly (s : FAIR_SYSTEM) (irp : READ_IRP) (mayHold : bool) : list SENT :=
  if ReadFairMustHold 100 (fs_Fair s) (i_Node irp) mayHold then [] else [mkSent (fs_Fair s) (mkHeld irp (start_tag (fs_Fair s) irp))].
Definition demo_tr : list SENT :=
  ((([] ++ sent_directly demo_fair0 (mkIrp 1 1 100) true) ++ sent_directly demo_fair1 (mkIrp 2 1 60) true) ++ sent_directly demo_fair2 (mkIrp 3 2 50) true)
  ++ sent_directly demo_fair (mkIrp 4 2 40) true.
Definition demo_sent : list SENT := demo_tr ++ release_trace 100 (length (snd demo_settle)) (settled (fs_Fair demo_order) (mkIrp 1 1 100)).

Lemma admit_sys_sends s irp mayHold : arrives s irp -> fair_sends 100 s (sent_directly s irp mayHold) (admit_sys 100 s irp mayHold).
Proof. intros Ha. eapply sends_admit; [done|done|]. apply surjective_pairing. Qed.

Definition arrivesb (s : FAIR_SYSTEM) (irp : READ_IRP) : bool :=
  (0 <? i_Length irp) && (i_Length irp <? 4294967296) && (charged (fs_Log s) + i_Length irp <? 9223372036854775808) &&
  bool_decide (i_Id irp ∉ (i_Id <$> fs_Flying s ++ queued (fs_Fair s))).
Lemma arrivesb_ok s irp : arrivesb s irp = true -> arrives s irp.
Proof. unfold arrivesb. intros Hl. apply andb_true_iff in Hl as [Hl Hn%bool_decide_eq_true]. repeat apply andb_true_iff in Hl as [Hl ?]. split_and!; try done; lia. Qed.

Lemma demo_order_history : fair_history 100 demo_tr demo_order.
Proof.
  unfold demo_tr. repeat (eapply history_step; [|apply admit_sys_sends, arrivesb_ok; vm_compute; reflexivity]). by apply history_start.
Qed.

Lemma demo_settled_history : fair_history 100 demo_sent demo_settled.
Proof.
  eapply history_step; [exact demo_order_history|]. apply (sends_settle 100 (fs_Fair demo_order) [mkIrp 3 2 50] (mkIrp 1 1 100) [] 0 (fs_Log demo_order) (fst demo_settle) (snd demo_settle)).
  vm_compute. reflexivity.
Qed.

(** File 2's 40 bytes passed file 1's held read. *)
Lemma held_reads_go_in_fair_order_witness :
  passing 100 demo_late demo_sent = [mkHeld (mkIrp 4 2 40) 50; demo_late] /\
  share (node_log 2 (passing 100 demo_late demo_sent)) 0 101 <= share (node_log 1 (fs_Log demo_settled)) 0 100 + 2 * 100.
Proof.
  split; [vm_compute; reflexivity|]. refine (proj2 (proj2 (proj2 (proj2 (held_reads_go_in_fair_order 100 demo_sent demo_settled demo_late 2 0 100 demo_settled_history _ _ _))))).
  - vm_compute. repeat constructor; discriminate.
  - vm_compute. discriminate.
  - exists [], (mkHeld (mkIrp 1 1 100) 0), [], [demo_late]. vm_compute. repeat split; discriminate.
Defined.
