(* ===== verification/ReadPath.v ===== *)
(** * A read, from dispatch to completion (src/Read.c)

    The handlers of the read path as programs: each is a tree of the calls it
    makes on what it shares with the others (the fair share, the disk cache,
    the network, the work queues, the IRP itself), in the order it makes
    them, so that handlers running on several processors can be interleaved
    call by call.  The counters of src/Statistics.c are left out; the QPC
    stamps with them. *)

From S2P Require Import Prelude Registry ReadAdapt ReadFair.

Definition STATUS_INVALID_DEVICE_REQUEST : NTSTATUS := nt 0xC0000010.
Definition STATUS_FILE_LOCK_CONFLICT : NTSTATUS := nt 0xC0000054.
Definition READ_BUFFERED_FETCH_MAX : Z := 4 * 1024 * 1024.

(** ** What a read is *)

Inductive NODE_TYPE := NodeFcb | NodeVcb | NodeOther.
Inductive DEVICE_KIND := BlorgDeviceVolume | BlorgDeviceDisk | BlorgDeviceFileSystem | BlorgDeviceUnknown.

(** What does not change while an IRP is with the driver: where it reads, its
    flags ([IRP_PAGING_IO], [IRP_NOCACHE], [IRP_MN_MDL]), whether it is Cc's
    read-ahead, whether its issuer may be made to wait, and its file object. *)
Record READ_PARAMS := mkParams {
  p_ByteOffset : Z;
  p_Paging : bool;
  p_NoCache : bool;
  p_Mdl : bool;
  p_Speculative : bool;
  p_Synchronous : bool;
  p_NodeType : NODE_TYPE;
  p_FileObject : Z;
  p_SynchronousFile : bool
}.

Record READ_FILE_VERSION := mkVersion { v_Size : Z; v_ModifiedTime : Z }.

(** How [CcCopyReadEx] and [CcMdlRead] end. *)
Inductive CC_RESULT := CcDone (st : NTSTATUS) (information : Z) | CcCannotWait | CcRaised (st : NTSTATUS).

(** ** Calls *)

(** Asked of the kernel, with no effect on what the handlers share. *)
Inductive QUESTION :=
  | AskPassive                                        (* KeGetCurrentIrql *)
  | AskFlush                                          (* CcFlushCache on a mapped file *)
  | AskLockAccess                                     (* FsRtlCheckLockForReadAccess *)
  | AskSnapshot                                       (* the FCB's size and write time, under its resource *)
  | AskLockBuffer                                     (* BlorgLockUserBuffer *)
  | AskWorkItem                                       (* IoAllocateWorkItem *)
  | AskMapping                                        (* MmGetSystemAddressForMdlSafe *)
  | AskCacheMap                                       (* whether the file object has a cache map *)
  | AskCc (wait : bool)                               (* CcCopyReadEx *)
  | AskCcMdl                                          (* CcMdlRead *)
  | AskActive.                                        (* BlorgStatisticsFetchesActive *)
Definition reply (q : QUESTION) : Type :=
  match q with
  | AskPassive | AskLockAccess | AskWorkItem | AskMapping | AskCacheMap => bool
  | AskFlush | AskLockBuffer => NTSTATUS
  | AskSnapshot => READ_FILE_VERSION
  | AskCc _ | AskCcMdl => CC_RESULT
  | AskActive => Z
  end.

Inductive CALL :=
  | Ask (q : QUESTION)
  | CheckOplock (irp : READ_IRP)
  | PostRequest (irp : READ_IRP)                      (* BlorgFsdPostRequest *)
  | UpdateFile (irp : READ_IRP) (f : FCB -> CCB -> option (FCB * CCB))
  | DiskCacheRead (irp : READ_IRP) (valid allowed : Z)
  | DiskCacheAdmit (irp : READ_IRP) (size : Z)
  | FairDecide (irp : READ_IRP) (mayHold again : bool) (* one hold of ReadFairAdmit's lock *)
  | FairReserve (fetches : Z)
  | FairGiveBack (fetches : Z)
  | FairSettle (irp : READ_IRP)
  | FetchAdmittedFlag (irp : READ_IRP)
  | Fetch (irp : READ_IRP) (length : Z)               (* BlorgHttpGetFile or BlorgHttpGetFileMdl *)
  | QueueWorkItem (irp : READ_IRP)                    (* for ReadRefetchWorker *)
  | SetInformation (irp : READ_IRP) (n : Z)
  | GetInformation (irp : READ_IRP)
  | SetFilePosition (irp : READ_IRP) (n : Z)
  | CompleteRequest (irp : READ_IRP) (st : NTSTATUS).
Definition answer (c : CALL) : Type :=
  match c with
  | Ask q => reply q
  | CheckOplock _ | PostRequest _ | Fetch _ _ => NTSTATUS
  | DiskCacheRead _ _ _ => bool * Z
  | FairDecide _ _ _ => option NTSTATUS
  | FairReserve _ | GetInformation _ => Z
  | FetchAdmittedFlag _ => bool
  | UpdateFile _ _ | DiskCacheAdmit _ _ | FairGiveBack _ | FairSettle _ | QueueWorkItem _ | SetInformation _ _ | SetFilePosition _ _ | CompleteRequest _ _ => unit
  end.

Inductive prog (R : Type) : Type :=
  | Ret (r : R)
  | Call (c : CALL) (k : answer c -> prog R).
Arguments Ret {R} r.
Arguments Call {R} c k.

Fixpoint prog_bind {A B} (f : A -> prog B) (p : prog A) : prog B :=
  match p with
  | Ret a => f a
  | Call c k => Call c (fun x => prog_bind f (k x))
  end.
#[export] Instance prog_mbind : MBind prog := fun A B => @prog_bind A B.
#[export] Instance prog_mret : MRet prog := @Ret.
Definition call (c : CALL) : prog (answer c) := Call c Ret.

(** ** The handlers *)

Section Handlers.
Context (settings : CONFIG) (params : Z -> READ_PARAMS).

Definition prm (irp : READ_IRP) : READ_PARAMS := params (i_Id irp).

(** The file position, and [FO_FILE_FAST_IO_READ], are set for reads an
    application made; [information] is [IoStatus.Information]. *)
Definition ReadSucceeded (irp : READ_IRP) : prog () :=
  (if negb (p_Paging (prm irp)) then
     information ← call (GetInformation irp);
     if p_SynchronousFile (prm irp) then call (SetFilePosition irp (s64 (p_ByteOffset (prm irp) + information))) else Ret ()
   else Ret ());;
  call (CompleteRequest irp STATUS_SUCCESS).

(** [size]: [BodyBufferSize]; [buffered]: whether the body came in a buffer of
    its own. *)
Definition ReadComplete (irp : READ_IRP) (st : NTSTATUS) (size : Z) (buffered : bool) : prog () :=
  call (FairSettle irp);;
  if negb (NT_SUCCESS st) then call (CompleteRequest irp st)
  else
    mapped ← (if buffered then call (Ask AskMapping) else Ret true);
    if negb mapped then call (CompleteRequest irp STATUS_INSUFFICIENT_RESOURCES)
    else
      call (SetInformation irp size);;
      call (DiskCacheAdmit irp size);;
      ReadSucceeded irp.

Definition ReadDiskComplete (irp : READ_IRP) (st : NTSTATUS) (valid fetches : Z) (refetch : bool) : prog () :=
  call (FairGiveBack (if 1 <? fetches then u32 (fetches - 1) else 0));;
  if NT_SUCCESS st then
    call (FairSettle irp);;
    call (SetInformation irp valid);;
    ReadSucceeded irp
  else
    workItem ← (if refetch then call (Ask AskWorkItem) else Ret false);
    if negb workItem then
      call (FairSettle irp);;
      call (CompleteRequest irp st)
    else call (QueueWorkItem irp).

(** The trim writes [IoStatus.Information] when it fails. *)
Definition trim (irp : READ_IRP) (fileSize : Z) : prog (NTSTATUS * Z) :=
  match ReadTrimToFileSize fileSize (p_ByteOffset (prm irp)) (i_Length irp) with
  | (st, Some realLength) => Ret (st, realLength)
  | (st, None) => call (SetInformation irp 0);; Ret (st, 0)
  end.

(** The lock is dropped to allocate the work item, and the decision made
    again. *)
Definition FairAdmit (irp : READ_IRP) (mayHold : bool) : prog NTSTATUS :=
  decided ← call (FairDecide irp mayHold false);
  match decided with
  | Some st => Ret st
  | None =>
      workItem ← call (Ask AskWorkItem);
      if negb workItem then Ret STATUS_INSUFFICIENT_RESOURCES
      else decided ← call (FairDecide irp mayHold true); Ret (default STATUS_SUCCESS decided)
  end.

Definition ReadIssueFetch (irp : READ_IRP) (length : Z) : prog NTSTATUS := call (Fetch irp length).

Definition ReadFromDiskCache (irp : READ_IRP) (valid runs : Z) : prog bool :=
  reserved ← call (FairReserve (u32 (runs - 1)));
  '(started, fetches) ← call (DiskCacheRead irp valid (u32 (1 + reserved)));
  call (FairGiveBack (if started : bool then u32 (reserved - (if 1 <? fetches then u32 (fetches - 1) else 0)) else reserved));;
  Ret started.

Definition ReadFromDiskCacheReleased (irp : READ_IRP) (valid : Z) : prog bool :=
  '(started, runs) ← call (DiskCacheRead irp valid 0);
  if started : bool then Ret true
  else if negb (runs =? 0) then ReadFromDiskCache irp valid runs else Ret false.

Definition ReadIssueReleased (irp : READ_IRP) (fromDiskCache : bool) : prog () :=
  version ← call (Ask AskSnapshot);
  '(st, realLength) ← trim irp (v_Size version);
  admitted ← call (FetchAdmittedFlag irp);
  st ← (if NT_SUCCESS st && negb admitted then FairAdmit irp false else Ret st);
  if NT_SUCCESS st && negb admitted && (st =? STATUS_PENDING) then Ret ()
  else
    taken ← (if NT_SUCCESS st && fromDiskCache then ReadFromDiskCacheReleased irp realLength else Ret false);
    if taken : bool then Ret ()
    else
      st ← (if NT_SUCCESS st then ReadIssueFetch irp realLength else Ret st);
      if negb (st =? STATUS_PENDING) then
        call (FairSettle irp);;
        call (CompleteRequest irp st)
      else Ret ().

Definition ReadFairWorker (irp : READ_IRP) : prog () := ReadIssueReleased irp true.
Definition ReadRefetchWorker (irp : READ_IRP) : prog () := ReadIssueReleased irp false.

(** What a paging read leaves in its FCB. *)
Definition paging_read (offset realLength : Z) (fcb : FCB) (ccb : CCB) : option (FCB * CCB) :=
  fcb ← ReadTrackStream fcb offset realLength;
  Some (mkFcb (Streams fcb) (ReadLastStreamIndex fcb) (ReadAheadConsumedBytes fcb) (u64 (ReadAheadFetchedBytes fcb + realLength))
          (if ReadMaxPagingBytes fcb <? realLength then realLength else ReadMaxPagingBytes fcb) (ReadIdleTicks fcb) (ReadBusyTicks fcb) (ReadIdleLastEndQpc fcb), ccb).

(** What a cached read does to the read-ahead policy; [active] is the number
    of fetches in flight. *)
Definition cached_read (active realLength : Z) (fcb : FCB) (ccb : CCB) : option (FCB * CCB) :=
  ReadAdaptGranularity settings
    (mkFcb (Streams fcb) (ReadLastStreamIndex fcb) (u64 (ReadAheadConsumedBytes fcb + realLength)) (ReadAheadFetchedBytes fcb)
       (ReadMaxPagingBytes fcb) (ReadIdleTicks fcb) (ReadBusyTicks fcb) (ReadIdleLastEndQpc fcb)) ccb active.

(** ** BlorgVolumeRead, in the order its code runs *)

(** The non-cached path from the offer to the disk cache on. *)
Definition noncached_issue (irp : READ_IRP) (realLength : Z) : prog NTSTATUS :=
  '(started, runs) ← call (DiskCacheRead irp realLength 0);
  if started : bool then Ret STATUS_PENDING
  else
    admitStatus ← FairAdmit irp (p_Paging (prm irp) && p_Speculative (prm irp));
    if negb (admitStatus =? STATUS_SUCCESS) then Ret admitStatus
    else
      taken ← (if negb (runs =? 0) then ReadFromDiskCache irp realLength runs else Ret false);
      if taken : bool then Ret STATUS_PENDING
      else
        fetchStatus ← ReadIssueFetch irp realLength;
        (if negb (fetchStatus =? STATUS_PENDING) then call (FairSettle irp) else Ret ());;
        Ret fetchStatus.

(** Before that: a paging read is tracked, any other's buffer locked. *)
Definition noncached_begin (irp : READ_IRP) (realLength : Z) : prog NTSTATUS :=
  lockStatus ← (if p_Paging (prm irp)
                then call (UpdateFile irp (paging_read (p_ByteOffset (prm irp)) realLength));; Ret STATUS_SUCCESS
                else call (Ask AskLockBuffer));
  if negb (NT_SUCCESS lockStatus) then Ret lockStatus else noncached_issue irp realLength.

Definition read_noncached (irp : READ_IRP) (inFsp : bool) : prog NTSTATUS :=
  version ← call (Ask AskSnapshot);
  '(st, realLength) ← trim irp (v_Size version);
  if st =? STATUS_END_OF_FILE then Ret STATUS_END_OF_FILE
  else
    post ← (if inFsp then Ret false else passive ← call (Ask AskPassive); Ret (negb passive));
    if post : bool then call (PostRequest irp) else noncached_begin irp realLength.

(** The cached path after Cc copied [information] bytes. *)
Definition cached_finish (irp : READ_IRP) (realLength : Z) (st : NTSTATUS) (information : Z) : prog NTSTATUS :=
  call (SetInformation irp information);;
  active ← call (Ask AskActive);
  call (UpdateFile irp (cached_read active realLength));;
  (if negb (p_Paging (prm irp)) && p_SynchronousFile (prm irp) then call (SetFilePosition irp (s64 (p_ByteOffset (prm irp) + information))) else Ret ());;
  Ret st.

Definition cached_copy (irp : READ_IRP) (realLength : Z) (wait : bool) : prog NTSTATUS :=
  if negb (p_Mdl (prm irp)) then
    mapping ← call (Ask AskMapping);
    if negb mapping then Ret STATUS_INSUFFICIENT_RESOURCES
    else
      r ← call (Ask (AskCc wait));
      match r with
      | CcDone st information => cached_finish irp realLength st information
      | CcCannotWait => call (PostRequest irp)
      | CcRaised st => Ret st
      end
  else
    r ← call (Ask AskCcMdl);
    match r with
    | CcDone st information => cached_finish irp realLength st information
    | CcCannotWait => Ret STATUS_SUCCESS (* not an outcome of CcMdlRead *)
    | CcRaised st => Ret st
    end.

(** The size is read here without the resource. *)
Definition read_cached (irp : READ_IRP) (wait : bool) : prog NTSTATUS :=
  mapped ← call (Ask AskCacheMap);
  (if mapped : bool then Ret () else call (UpdateFile irp (fun fcb ccb => Some (init_cache_map settings fcb ccb))));;
  version ← call (Ask AskSnapshot);
  '(st, realLength) ← trim irp (v_Size version);
  if st =? STATUS_END_OF_FILE then Ret STATUS_END_OF_FILE else cached_copy irp realLength wait.

(** An application's read asks the oplock package and the byte-range locks. *)
Definition check_access (irp : READ_IRP) : prog NTSTATUS :=
  if negb (p_Paging (prm irp)) then
    oplock ← call (CheckOplock irp);
    if negb (oplock =? STATUS_SUCCESS) then Ret oplock
    else free ← call (Ask AskLockAccess); Ret (if free : bool then STATUS_SUCCESS else STATUS_FILE_LOCK_CONFLICT)
  else Ret STATUS_SUCCESS.

(** The whole handler; [inFsp] and [wait] are the flags of the IRP's context
    on this pass. *)
Definition BlorgVolumeRead (irp : READ_IRP) (inFsp wait : bool) : prog NTSTATUS :=
  if i_Length irp =? 0 then call (SetInformation irp 0);; Ret STATUS_SUCCESS
  else if p_ByteOffset (prm irp) <? 0 then call (SetInformation irp 0);; Ret STATUS_INVALID_PARAMETER
  else
    match p_NodeType (prm irp) with
    | NodeVcb | NodeOther => Ret STATUS_INVALID_PARAMETER
    | NodeFcb =>
        flushed ← (if negb (p_Paging (prm irp)) && p_NoCache (prm irp) then call (Ask AskFlush) else Ret STATUS_SUCCESS);
        if negb (NT_SUCCESS flushed) then Ret flushed
        else
          result ← check_access irp;
          if negb (result =? STATUS_SUCCESS) then Ret result
          else if p_NoCache (prm irp) then read_noncached irp inFsp else read_cached irp wait
    end.

Definition BlorgRead (kind : DEVICE_KIND) (irp : READ_IRP) : prog () :=
  match kind with
  | BlorgDeviceVolume =>
      result ← BlorgVolumeRead irp false (p_Synchronous (prm irp));
      if negb (result =? STATUS_PENDING) then call (CompleteRequest irp result) else Ret ()
  | _ => call (CompleteRequest irp STATUS_INVALID_DEVICE_REQUEST)
  end.

(** A posted read's pass: BlorgFspRead, and the worker's completion of what
    does not pend. *)
Definition BlorgFspRead (irp : READ_IRP) : prog () :=
  result ← BlorgVolumeRead irp true true;
  if negb (result =? STATUS_PENDING) then call (CompleteRequest irp result) else Ret ().
End Handlers.
