(* ===== verification/ReadPathSystem.v ===== *)
(** * The read path as a whole: handlers interleaved

    Where every read is (a thread, a work item, the network, the disk cache,
    the FSP queue, the oplock package, a queue of the fair share), and the
    step relation of all the handlers running at once, one call at a time.
    The invariant is carried by what each thread holds: at most one read,
    admitted or not, and the fetches it has reserved. *)

From S2P Require Import Prelude Registry ReadAdapt ReadFair ReadFairSystem ReadPath.

Definition STATUS_CANCELLED : NTSTATUS := nt 0xC0000120.

(** What the read path relies on of the disk cache: [offers irp valid allowed
    started fetches] says it may answer a read so.  It starts no more fetches
    than it was allowed, and never asks for more than it may be allowed. *)
Definition MAX_RUNS : Z := 4.
Class DiskCacheService := {
  offers : READ_IRP -> Z -> Z -> bool -> Z -> Prop;
  offers_some irp valid allowed : 0 <= valid -> 0 <= allowed <= MAX_RUNS -> exists started fetches, offers irp valid allowed started fetches;
  offers_bound irp valid allowed started fetches : 0 <= valid -> 0 <= allowed <= MAX_RUNS -> offers irp valid allowed started fetches ->
    0 <= fetches <= (if started then allowed else MAX_RUNS)
}.

(** [w_Admitted] and [sv_Admitted] record the read's flag when it was put
    there. *)
Record WORK := mkWork { w_Irp : READ_IRP; w_FromDiskCache : bool; w_Admitted : bool }.
Record SERVING := mkServing { sv_Irp : READ_IRP; sv_Valid : Z; sv_Fetches : Z; sv_Admitted : bool }.

Record SHARED := mkShared {
  s_Fair : READ_FAIR;
  s_Files : gmap Z FCB;
  s_Handles : gmap Z CCB;
  s_Information : gmap Z Z;
  s_Position : gmap Z Z;
  s_Work : list WORK;
  s_Fetching : list (READ_IRP * Z);
  s_Serving : list SERVING;
  s_Posted : list READ_IRP;
  s_Parked : list READ_IRP;
  s_Done : list (READ_IRP * NTSTATUS)
}.

Definition with_Fair (s : SHARED) (fair : READ_FAIR) (work : list WORK) : SHARED :=
  mkShared fair (s_Files s) (s_Handles s) (s_Information s) (s_Position s) work (s_Fetching s) (s_Serving s) (s_Posted s) (s_Parked s) (s_Done s).
Definition with_Fetching (s : SHARED) (l : list (READ_IRP * Z)) : SHARED :=
  mkShared (s_Fair s) (s_Files s) (s_Handles s) (s_Information s) (s_Position s) (s_Work s) l (s_Serving s) (s_Posted s) (s_Parked s) (s_Done s).
Definition with_Serving (s : SHARED) (l : list SERVING) : SHARED :=
  mkShared (s_Fair s) (s_Files s) (s_Handles s) (s_Information s) (s_Position s) (s_Work s) (s_Fetching s) l (s_Posted s) (s_Parked s) (s_Done s).
Definition with_Posted (s : SHARED) (l : list READ_IRP) : SHARED :=
  mkShared (s_Fair s) (s_Files s) (s_Handles s) (s_Information s) (s_Position s) (s_Work s) (s_Fetching s) (s_Serving s) l (s_Parked s) (s_Done s).
Definition with_Parked (s : SHARED) (l : list READ_IRP) : SHARED :=
  mkShared (s_Fair s) (s_Files s) (s_Handles s) (s_Information s) (s_Position s) (s_Work s) (s_Fetching s) (s_Serving s) (s_Posted s) l (s_Done s).
Definition with_Done (s : SHARED) (l : list (READ_IRP * NTSTATUS)) : SHARED :=
  mkShared (s_Fair s) (s_Files s) (s_Handles s) (s_Information s) (s_Position s) (s_Work s) (s_Fetching s) (s_Serving s) (s_Posted s) (s_Parked s) l.
Definition with_File (s : SHARED) (files : gmap Z FCB) (handles : gmap Z CCB) : SHARED :=
  mkShared (s_Fair s) files handles (s_Information s) (s_Position s) (s_Work s) (s_Fetching s) (s_Serving s) (s_Posted s) (s_Parked s) (s_Done s).
Definition with_Information (s : SHARED) (m : gmap Z Z) : SHARED :=
  mkShared (s_Fair s) (s_Files s) (s_Handles s) m (s_Position s) (s_Work s) (s_Fetching s) (s_Serving s) (s_Posted s) (s_Parked s) (s_Done s).
Definition with_Position (s : SHARED) (m : gmap Z Z) : SHARED :=
  mkShared (s_Fair s) (s_Files s) (s_Handles s) (s_Information s) m (s_Work s) (s_Fetching s) (s_Serving s) (s_Posted s) (s_Parked s) (s_Done s).

(** An FCB and a CCB start zeroed. *)
Definition fcb_zero : FCB := mkFcb (replicate 4 (mkTracker 0 0)) 0 0 0 0 0 0 0.
Definition file_of (s : SHARED) (n : Z) : FCB := default fcb_zero (s_Files s !! n).
Definition handle_of (s : SHARED) (n : Z) : CCB := default (mkCcb 0 0) (s_Handles s !! n).

Definition flagged (s : SHARED) (irp : READ_IRP) : bool := bool_decide (i_Id irp ∈ FetchAdmitted (s_Fair s)).
Definition issue_held (s : SHARED) (released : list READ_IRP) : list WORK := s_Work s ++ ((fun i => mkWork i true true) <$> released).

(** The kernel's replies: sizes are representable, [CcCopyReadEx] finishes when
    it may wait, what fails fails with an error. *)
Definition reply_ok (q : QUESTION) : reply q -> Prop :=
  match q with
  | AskSnapshot => fun v => v_Size v <= MAXLONG64
  | AskCc wait => fun r => match r with CcDone st _ => st <> STATUS_PENDING | CcCannotWait => wait = false | CcRaised st => NT_SUCCESS st = false end
  | AskCcMdl => fun r => match r with CcDone st _ => st <> STATUS_PENDING | CcCannotWait => False | CcRaised st => NT_SUCCESS st = false end
  | _ => fun _ => True
  end.

Section System.
Context {service : DiskCacheService} (budget : Z) (settings : CONFIG) (params : Z -> READ_PARAMS).

(** One call, with its answer and what it leaves. *)
Definition call_step (s : SHARED) (c : CALL) : answer c -> SHARED -> Prop :=
  match c with
  | Ask q => fun a s' => reply_ok q a /\ s' = s
  | CheckOplock irp => fun st s' => s' = if st =? STATUS_PENDING then with_Parked s (irp :: s_Parked s) else s
  | PostRequest irp => fun st s' => (st = STATUS_PENDING /\ s' = with_Posted s (s_Posted s ++ [irp])) \/ (NT_SUCCESS st = false /\ s' = s)
  | UpdateFile irp f => fun _ s' =>
      exists fcb ccb, f (file_of s (i_Node irp)) (handle_of s (p_FileObject (params (i_Id irp)))) = Some (fcb, ccb) /\
        s' = with_File s (<[i_Node irp := fcb]> (s_Files s)) (<[p_FileObject (params (i_Id irp)) := ccb]> (s_Handles s))
  | DiskCacheRead irp valid allowed => fun a s' =>
      offers irp valid allowed (fst a) (snd a) /\
      s' = if fst a then with_Serving s (mkServing irp valid (snd a) (flagged s irp) :: s_Serving s) else s
  | DiskCacheAdmit _ _ => fun _ s' => s' = s
  | FairDecide irp mayHold again => fun a s' =>
      let hold := ReadFairMustHold budget (s_Fair s) (i_Node irp) mayHold in
      if hold && negb again then a = None /\ s' = s
      else let '(fair, st) := fair_charge (s_Fair s) irp mayHold hold in a = Some st /\ s' = with_Fair s fair (s_Work s)
  | FairReserve fetches => fun n s' => let '(fair, reserved) := ReadFairReserve (s_Fair s) fetches in n = reserved /\ s' = with_Fair s fair (s_Work s)
  | FairGiveBack fetches => fun _ s' =>
      exists fair released, ReadFairGiveBack budget (s_Fair s) fetches = Some (fair, released) /\ s' = with_Fair s fair (issue_held s released)
  | FairSettle irp => fun _ s' =>
      exists fair released, ReadFairSettle budget (s_Fair s) irp = Some (fair, released) /\ s' = with_Fair s fair (issue_held s released)
  | FetchAdmittedFlag irp => fun a s' => a = flagged s irp /\ s' = s
  | Fetch irp len => fun st s' => s' = if st =? STATUS_PENDING then with_Fetching s ((irp, len) :: s_Fetching s) else s
  | QueueWorkItem irp => fun _ s' => s' = with_Fair s (s_Fair s) (s_Work s ++ [mkWork irp false (flagged s irp)])
  | SetInformation irp n => fun _ s' => s' = with_Information s (<[i_Id irp := n]> (s_Information s))
  | GetInformation irp => fun n s' => n = default 0 (s_Information s !! i_Id irp) /\ s' = s
  | SetFilePosition irp n => fun _ s' => s' = with_Position s (<[p_FileObject (params (i_Id irp)) := n]> (s_Position s))
  | CompleteRequest irp st => fun _ s' => s' = with_Done s ((irp, st) :: s_Done s)
  end.

(** Every read that came, and the handlers under way. *)
Record READ_SYSTEM := mkReads { rs_Shared : SHARED; rs_Threads : list (prog ()); rs_Arrived : list READ_IRP }.

Definition spawn (l : list (prog ())) (t : prog ()) : list (prog ()) := t :: l.

(** The driver's own steps: a handler makes its next call; a work item, an FSP
    worker, a finished fetch or a read the disk cache is done with starts the
    handler for it. *)
Inductive driver_step : READ_SYSTEM -> READ_SYSTEM -> Prop :=
  | step_call s c k a s' l1 l2 arrived :
      call_step s c a s' -> driver_step (mkReads s (l1 ++ Call c k :: l2) arrived) (mkReads s' (l1 ++ k a :: l2) arrived)
  | step_work s l1 w l2 threads arrived :
      s_Work s = l1 ++ w :: l2 ->
      driver_step (mkReads s threads arrived)
        (mkReads (with_Fair s (s_Fair s) (l1 ++ l2)) (spawn threads (ReadIssueReleased params (w_Irp w) (w_FromDiskCache w))) arrived)
  | step_fetched s l1 irp len l2 st size buffered threads arrived :
      s_Fetching s = l1 ++ (irp, len) :: l2 ->
      driver_step (mkReads s threads arrived) (mkReads (with_Fetching s (l1 ++ l2)) (spawn threads (ReadComplete params irp st size buffered)) arrived)
  | step_served s l1 v l2 st refetch threads arrived :
      s_Serving s = l1 ++ v :: l2 ->
      driver_step (mkReads s threads arrived)
        (mkReads (with_Serving s (l1 ++ l2)) (spawn threads (ReadDiskComplete params (sv_Irp v) st (sv_Valid v) (sv_Fetches v) refetch)) arrived)
  | step_dispatch s l1 irp l2 threads arrived :
      s_Posted s = l1 ++ irp :: l2 ->
      driver_step (mkReads s threads arrived) (mkReads (with_Posted s (l1 ++ l2)) (spawn threads (BlorgFspRead settings params irp)) arrived)
  | step_cancel s l1 irp l2 threads arrived :
      s_Posted s = l1 ++ irp :: l2 ->
      driver_step (mkReads s threads arrived) (mkReads (with_Posted s (l1 ++ l2)) (spawn threads (call (CompleteRequest irp STATUS_CANCELLED))) arrived).

(** The rest of the system: a read arrives, which no other in the driver's
    hands is; the oplock package gives one back (BlorgOplockComplete).  The
    byte total is what keeps the 64-bit tags from wrapping. *)
Inductive outside_step : READ_SYSTEM -> READ_SYSTEM -> Prop :=
  | step_arrive s threads arrived irp kind :
      i_Id irp ∉ i_Id <$> arrived -> 0 <= i_Length irp < 4294967296 -> bytes_of arrived + i_Length irp < 9223372036854775808 ->
      outside_step (mkReads s threads arrived) (mkReads s (spawn threads (BlorgRead settings params kind irp)) (irp :: arrived))
  | step_unpark s l1 irp l2 threads arrived :
      s_Parked s = l1 ++ irp :: l2 ->
      outside_step (mkReads s threads arrived) (mkReads (with_Posted (with_Parked s (l1 ++ l2)) (s_Posted s ++ [irp])) threads arrived)
  | step_unpark_fail s l1 irp l2 st threads arrived :
      s_Parked s = l1 ++ irp :: l2 ->
      outside_step (mkReads s threads arrived) (mkReads (with_Parked s (l1 ++ l2)) (spawn threads (call (CompleteRequest irp st))) arrived).

Definition reads_initial : READ_SYSTEM := mkReads (mkShared (BlorgReadInit ∅ ∅) ∅ ∅ ∅ ∅ [] [] [] [] [] []) [] [].
Definition reads_step (s s' : READ_SYSTEM) : Prop := driver_step s s' \/ outside_step s s'.
Definition reads_reachable (s : READ_SYSTEM) : Prop := rtc reads_step reads_initial s.
End System.

(** ** What is held, and the books of the fair share *)

(** A read is charged to the fair share once: before that it is fresh, then
    admitted, then settled. *)
Inductive PHASE := Fresh | InFlight | Settled.
Definition is_admitted (p : PHASE) : bool := match p with InFlight => true | _ => false end.
Definition is_fresh (p : PHASE) : bool := match p with Fresh => true | _ => false end.
Definition phase_of (b : bool) : PHASE := if b then InFlight else Fresh.

(** Reads outside the fair share's queues, with their phase. *)
Definition holding : Type := READ_IRP * PHASE.
Definition adm (H : list holding) : list READ_IRP := fst <$> List.filter (fun h => is_admitted (snd h)) H.
Definition un (H : list holding) : list READ_IRP := fst <$> List.filter (fun h => is_fresh (snd h)) H.

Lemma filter_permuted {A} (f : A -> bool) l l' : l ≡ₚ l' -> List.filter f l ≡ₚ List.filter f l'.
Proof. induction 1 as [|x l l' _ IH|x y l|l l' l'' _ IH _ IH']; cbn [List.filter]; [done|destruct (f x); by rewrite ?IH|destruct (f x), (f y); done || apply Permutation_swap|by rewrite IH]. Qed.
Lemma adm_cons irp b H : adm ((irp, b) :: H) = (if is_admitted b then [irp] else []) ++ adm H.
Proof. by destruct b. Qed.
Lemma un_cons irp b H : un ((irp, b) :: H) = (if is_fresh b then [irp] else []) ++ un H.
Proof. by destruct b. Qed.
Lemma adm_perm H H' : H ≡ₚ H' -> adm H ≡ₚ adm H'.
Proof. intros E. apply fmap_Permutation. by apply filter_permuted. Qed.
Lemma un_perm H H' : H ≡ₚ H' -> un H ≡ₚ un H'.
Proof. intros E. apply fmap_Permutation. by apply filter_permuted. Qed.

Definition released_holdings (l : list READ_IRP) : list holding := (fun i => (i, InFlight)) <$> l.
Lemma adm_released l H : adm (released_holdings l ++ H) = l ++ adm H.
Proof. induction l as [|i l IH]; [done|]. cbn [released_holdings fmap list_fmap app]. rewrite adm_cons. cbn [is_admitted app]. by rewrite <- IH. Qed.
Lemma un_released l H : un (released_holdings l ++ H) = un H.
Proof. induction l as [|i l IH]; [done|]. cbn [released_holdings fmap list_fmap app]. rewrite un_cons. cbn [is_fresh app]. by rewrite <- IH. Qed.
Lemma fst_released l : fst <$> released_holdings l = l.
Proof. induction l as [|i l IH]; [done|]. cbn. by f_equal. Qed.
Lemma adm_in irp H : irp ∈ adm H -> irp ∈ (fst <$> H).
Proof.
  induction H as [|[i b] H IH]; [done|]. rewrite adm_cons, elem_of_app. cbn [fmap list_fmap fst]. rewrite elem_of_cons. destruct b; cbn [is_admitted]; rewrite ?list_elem_of_singleton, ?elem_of_nil; tauto.
Qed.
Lemma un_len H : Forall (fun i => 0 <= i_Length i < 4294967296) (fst <$> H) -> 0 <= bytes_of (un H).
Proof.
  induction H as [|[i b] H IH]; [done|]. cbn [fmap list_fmap fst]. intros [Hi Hl]%Forall_cons. specialize (IH Hl). rewrite un_cons, bytes_of_app. destruct b; cbn; lia.
Qed.

Record books (fair : READ_FAIR) (H : list holding) (res : Z) (finished arrived : list READ_IRP) : Prop := {
  k_counts : counts_ok fair (adm H) res (queued fair);
  k_log : exists log, tags_ok fair log /\ charged log + bytes_of (un H) <= bytes_of arrived;
  k_live : not_stranded fair;
  k_all : arrived ≡ₚ (fst <$> H) ++ queued fair ++ finished;
  k_ids : NoDup (i_Id <$> arrived);
  k_len : Forall (fun i => 0 <= i_Length i < 4294967296) arrived;
  k_total : bytes_of arrived < 9223372036854775808
}.

Section Books.
Context (budget : Z).

Lemma books_perm fair H H' res fin arr : H ≡ₚ H' -> books fair H res fin arr -> books fair H' res fin arr.
Proof.
  intros E [K1 (log & K2 & K2') K3 K4 K5 K6 K7]. split; try done.
  - eapply counts_perm; [by apply adm_perm|done|done].
  - exists log. split; [done|]. by rewrite <- (bytes_of_perm _ _ (un_perm _ _ E)).
  - by rewrite <- E.
Qed.

(** A held read is no other read. *)
Lemma books_distinct fair irp b H res fin arr : books fair ((irp, b) :: H) res fin arr -> i_Id irp ∉ i_Id <$> adm H ++ queued fair.
Proof.
  intros [K1 K2 K3 K4 K5 K6 K7] Hin. rewrite K4 in K5. cbn [fmap list_fmap app fst] in K5. apply NoDup_cons in K5 as [Hn _]. apply Hn.
  apply list_elem_of_fmap in Hin as (j & Hj & Hin). apply list_elem_of_fmap. exists j. split; [done|]. rewrite !elem_of_app in *. destruct Hin as [Hin%adm_in|Hin]; [by left|by right; left].
Qed.

Lemma books_flag fair irp b H res fin arr : books fair ((irp, b) :: H) res fin arr -> bool_decide (i_Id irp ∈ FetchAdmitted fair) = is_admitted b.
Proof.
  intros K. pose proof (books_distinct _ _ _ _ _ _ _ K) as Hn. rewrite fmap_app, not_elem_of_app in Hn. destruct Hn as [Hn _].
  pose proof (c_flags _ _ _ _ (k_counts _ _ _ _ _ K) (i_Id irp)) as Hf. rewrite adm_cons in Hf. destruct b; cbn [app is_admitted] in *.
  - apply bool_decide_eq_false. by rewrite Hf.
  - apply bool_decide_eq_true. rewrite Hf. left.
  - apply bool_decide_eq_false. by rewrite Hf.
Qed.

Lemma books_held_len fair irp b H res fin arr : books fair ((irp, b) :: H) res fin arr -> 0 <= i_Length irp < 4294967296.
Proof. intros K. pose proof (k_len _ _ _ _ _ K) as Hl. rewrite (k_all _ _ _ _ _ K) in Hl. cbn [fmap list_fmap app] in Hl. by apply Forall_cons in Hl as [? _]. Qed.

Lemma books_un_len fair H res fin arr : books fair H res fin arr -> 0 <= bytes_of (un H).
Proof. intros K. pose proof (k_len _ _ _ _ _ K) as Hl. rewrite (k_all _ _ _ _ _ K), Forall_app in Hl. exact (un_len _ (proj1 Hl)). Qed.

(** Charging a read a handler holds. *)
Lemma books_charge fair irp H res fin arr mayHold :
  let hold := ReadFairMustHold budget fair (i_Node irp) mayHold in
  books fair ((irp, Fresh) :: H) res fin arr -> 0 < i_Length irp ->
  exists fair', fair_charge fair irp mayHold hold = (fair', if hold then STATUS_PENDING else STATUS_SUCCESS) /\
    books fair' (if hold then H else (irp, InFlight) :: H) res fin arr /\ queued fair' ≡ₚ (if hold then [irp] else []) ++ queued fair.
Proof.
  intros hold K Hl. pose proof (books_held_len _ _ _ _ _ _ _ K) as Hlen. pose proof (books_distinct _ _ _ _ _ _ _ K) as Hn. pose proof (books_un_len _ _ _ _ _ K) as Hun.
  destruct K as [K1 (log & K2 & K2') K3 K4 K5 K6 K7]. rewrite un_cons in Hun, K2'. cbn [app is_fresh] in Hun, K2'. rewrite bytes_of_cons in Hun, K2'.
  assert (Hun' : 0 <= bytes_of (un H)). { apply un_len. rewrite K4 in K6. cbn [fmap list_fmap app] in K6. apply Forall_cons in K6 as [_ K6]. by apply Forall_app in K6 as [? _]. }
  destruct (fair_charge fair irp mayHold hold) as [fair' st] eqn:E.
  destruct (charge_ok budget fair (adm H) res log irp mayHold fair' st K1 K2 K3 ltac:(lia) ltac:(lia) Hn E) as (C1 & C2 & C3 & _). fold hold in C1.
  assert (Hch : charged (log ++ [mkHeld irp (start_tag fair irp)]) = charged log + i_Length irp) by (rewrite charged_app; cbn; lia).
  exists fair'. unfold fair_charge in E. split; [destruct hold; injection E as <- <-; done|]. destruct hold; injection E as <- <-; split.
  - split; try done; [exists (log ++ [mkHeld irp (start_tag fair irp)]); split; [done|lia]|]. rewrite K4. cbn [fmap list_fmap app fst]. unfold queued. cbn [Held Waiting with_node]. destruct mayHold; rewrite ?fmap_app; cbn [fmap list_fmap]; solve_Permutation.
  - unfold queued. cbn [Held Waiting with_node]. destruct mayHold; rewrite ?fmap_app; cbn [fmap list_fmap]; solve_Permutation.
  - split; try done. exists (log ++ [mkHeld irp (start_tag fair irp)]). split; [done|]. rewrite un_cons. cbn [app is_fresh]. lia.
  - done.
Qed.

(** Settling: an admitted read frees its place, which releases others. *)
Lemma books_settle fair irp b H res fin arr :
  books fair ((irp, b) :: H) res fin arr ->
  exists fair' l, ReadFairSettle budget fair irp = Some (fair', l) /\
    books fair' ((irp, Settled) :: released_holdings l ++ H) res fin arr /\ queued fair ≡ₚ l ++ queued fair'.
Proof.
  intros K. pose proof (books_distinct _ _ _ _ _ _ _ K) as Hn. pose proof (books_held_len _ _ _ _ _ _ _ K) as Hlen. pose proof (books_flag _ _ _ _ _ _ _ K) as Hfl.
  destruct K as [K1 (log & K2 & K2') K3 K4 K5 K6 K7]. rewrite adm_cons in K1. rewrite un_cons, bytes_of_app in K2'. destruct (is_admitted b) eqn:Hb; cbn [app] in K1.
  - destruct (fair_settle_ok budget fair [] irp (adm H) res log K1 K2) as (fair' & l & HS & _ & S1 & S2 & S3 & S4). exists fair', l. split; [done|]. split; [|done].
    split; try done.
    + rewrite adm_cons. cbn [is_admitted app]. by rewrite adm_released.
    + exists log. split; [done|]. rewrite un_cons. cbn [is_fresh app]. rewrite un_released. destruct b; cbn in K2'; first [done|lia].
    + rewrite K4. cbn [fmap list_fmap app fst]. rewrite fmap_app, fst_released, S4. solve_Permutation.
  - exists fair, []. unfold ReadFairSettle. rewrite Hfl. split; [done|]. split; [|done]. split; try done.
    exists log. split; [done|]. rewrite un_cons. cbn [is_fresh app]. rewrite un_released. destruct b; cbn in K2'; lia.
Qed.

Lemma books_reserve fair H res fin arr n :
  books fair H res fin arr -> 0 <= n ->
  exists fair' m, ReadFairReserve fair n = (fair', m) /\ 0 <= m <= n /\ books fair' H (res + m) fin arr /\ queued fair' = queued fair.
Proof.
  intros [K1 (log & K2 & K2') K3 K4 K5 K6 K7] Hn. destruct (ReadFairReserve fair n) as [fair' m] eqn:E. destruct (reserve_ok fair (adm H) res log n fair' m K1 K2 K3 Hn E) as (R1 & R2 & R3 & R4).
  assert (Hq : queued fair' = queued fair) by (unfold ReadFairReserve in E; by injection E as <- <-).
  exists fair', m. split_and!; try done; try lia. split; try done; [by exists log|by rewrite Hq].
Qed.

Lemma books_give_back fair H res fin arr n :
  books fair H res fin arr -> 0 <= n <= res ->
  exists fair' l, ReadFairGiveBack budget fair n = Some (fair', l) /\ books fair' (released_holdings l ++ H) (res - n) fin arr /\
    queued fair ≡ₚ l ++ queued fair'.
Proof.
  intros [K1 (log & K2 & K2') K3 K4 K5 K6 K7] Hn. destruct (give_back_ok budget fair (adm H) res log n K1 K2 K3 Hn) as (fair' & l & HG & G1 & G2 & G3 & G4).
  exists fair', l. split; [done|]. split; [|done]. split; try done.
  - by rewrite adm_released.
  - exists log. split; [done|]. by rewrite un_released.
  - rewrite K4, fmap_app, fst_released, G4. solve_Permutation.
Qed.

Lemma books_finish fair irp b H res fin arr : b <> InFlight -> books fair ((irp, b) :: H) res fin arr -> books fair H res (irp :: fin) arr.
Proof.
  intros Hb K. pose proof (books_held_len _ _ _ _ _ _ _ K) as Hlen. destruct K as [K1 (log & K2 & K2') K3 K4 K5 K6 K7]. rewrite adm_cons in K1. rewrite un_cons, bytes_of_app in K2'. split; try done.
  - by destruct b.
  - exists log. split; [done|]. destruct b; cbn in K2'; lia.
  - rewrite K4. cbn [fmap list_fmap app fst]. solve_Permutation.
Qed.

Lemma books_arrive fair H res fin arr irp :
  i_Id irp ∉ i_Id <$> arr -> 0 <= i_Length irp < 4294967296 -> bytes_of arr + i_Length irp < 9223372036854775808 ->
  books fair H res fin arr -> books fair ((irp, Fresh) :: H) res fin (irp :: arr).
Proof.
  intros Hn Hl Ht [K1 (log & K2 & K2') K3 K4 K5 K6 K7]. split; try done.
  - exists log. split; [done|]. rewrite un_cons, bytes_of_cons. cbn [is_fresh app]. rewrite bytes_of_cons. lia.
  - rewrite K4. done.
  - cbn [fmap list_fmap]. by constructor.
  - by constructor.
  - rewrite bytes_of_cons. lia.
Qed.
End Books.
