(* ===== verification/ReadPathHandlers.v ===== *)
(** * The disk cache as the read path's service

    [BlorgDiskCacheRead] keeps the promise the read path relies on: from any
    consistent state of the cache it answers, and starts no more fetches than
    it was allowed. *)

From S2P Require Import Prelude DiskCacheIndex DiskCacheIndexChains DiskCacheIndexOps DiskCacheIndexReads DiskCacheIndexSystem DiskCacheIndexTheorems DiskCacheFill DiskCacheRead DiskCacheReadTheorems ReadFair ReadPathSystem Registry ReadAdapt ReadFairSystem ReadPath.

(** What [BlorgDiskCacheRead] can answer with the cache in some consistent
    state; the cache's own state is not the read path's. *)
Definition cache_offers (irp : READ_IRP) (valid allowed : Z) (started : bool) (fetches : Z) : Prop :=
  exists file dc base reads key mdl offset len stillLive memory starts dc' res,
    cache_ok file dc base reads [] /\ Z.of_nat (length reads) < 16777216 /\ 0 <= offset < 2 ^ 61 /\ 0 <= len < 4294967296 /\ failures_fail starts /\
    BlorgDiskCacheRead dc key mdl offset len valid allowed stillLive memory starts = Some (dc', fetches, res) /\ started = bool_decide (is_Some res).

Lemma cache_offers_some irp valid allowed : 0 <= valid -> 0 <= allowed <= MAX_RUNS -> exists started fetches, cache_offers irp valid allowed started fetches.
Proof.
  intros _ _. exists false, 0, demo_file, demo_cache, 1, [[0; DISK_CACHE_NO_SLOT]], demo_key, None, 0, 0, true, true, (fun _ => Started), demo_cache, None.
  split_and!; [exact demo_cache_ok|done|done|done|done|done| |reflexivity|done]. intros k st H. discriminate H.
Qed.

Lemma cache_offers_bound irp valid allowed started fetches :
  0 <= valid -> 0 <= allowed <= MAX_RUNS -> cache_offers irp valid allowed started fetches -> 0 <= fetches <= (if started then allowed else MAX_RUNS).
Proof.
  intros Hv Ha (file & dc & base & reads & key & mdl & offset & len & stillLive & memory & starts & dc' & res & Hok & Hr & Ho & Hl & Hff & Hread & ->).
  destruct (disk_read_begun file dc base reads key mdl offset len valid allowed stillLive memory starts Hok Hr Ho Hl Hv Ha Hff) as (dc2 & f2 & r2 & Hread2 & Hb).
  rewrite Hread in Hread2. injection Hread2 as <- <- <-. destruct res as [[r o]|]; cbn in Hb |- *; [|tauto]. destruct Hb as (_ & _ & Hfl & ->).
  pose proof (if_fetches _ _ _ _ _ _ _ Hfl). unfold fetches_in in *. lia.
Qed.

#[export] Instance disk_cache_service : DiskCacheService :=
  {| offers := cache_offers; offers_some := cache_offers_some; offers_bound := cache_offers_bound |}.

(** * The read path's handlers, one at a time

    What a handler may do with the read it holds, as a weakest precondition
    over its calls: [TOKENS] are the read, its phase, the fetches reserved
    beside it, and a budget of steps that also pays for wherever the handler
    leaves the read.  Every handler is shown to end with nothing in hand,
    whatever it is answered. *)
Record TOKENS := mkTok { t_Read : option holding; t_Res : Z; t_Fuel : nat }.
Definition spend (n : nat) (T : TOKENS) : TOKENS := mkTok (t_Read T) (t_Res T) (t_Fuel T - n).
Definition forgo (n : nat) (T : TOKENS) : TOKENS := mkTok None (t_Res T) (t_Fuel T - n).
Definition in_phase (irp : READ_IRP) (ph : PHASE) (T : TOKENS) : TOKENS := mkTok (Some (irp, ph)) (t_Res T) (t_Fuel T).
Definition with_res (n : Z) (T : TOKENS) : TOKENS := mkTok (t_Read T) n (t_Fuel T).

(** The steps left to a read in each place: a fetch, a work item, a read at
    the disk cache, a queued one, a posted one. *)
Definition c_fetch : nat := 11.
Definition c_work (fromDiskCache admitted : bool) : nat :=
  match fromDiskCache, admitted with false, true => 21 | true, true => 41 | _, false => 56 end.
Definition c_serve (admitted : bool) : nat := if admitted then 26 else 63.
Definition c_queue : nat := 41.
Definition c_post : nat := 91.
Definition c_arrive : nat := 120.

(** Fetches a read at the disk cache has out beside its own admission. *)
Definition beside (fetches : Z) : Z := Z.max 0 (fetches - 1).

Section Handlers.
Context (settings : CONFIG) (params : Z -> READ_PARAMS).

(** A read that is past the handler's first checks. *)
Definition sane (irp : READ_IRP) : Prop := 0 < i_Length irp < 4294967296 /\ 0 <= p_ByteOffset (params (i_Id irp)) <= MAXLONG64.

(** When a call may be made with [T] in hand, and that [K] holds of every
    answer with what is then in hand. *)
Definition call_pre (c : CALL) (T : TOKENS) : (answer c -> TOKENS -> Prop) -> Prop :=
  match c with
  | Ask q => fun K => forall a, reply_ok q a -> K a T
  | CheckOplock irp => fun K => t_Read T = Some (irp, Fresh) /\ forall st, K st (if st =? STATUS_PENDING then forgo 0 T else T)
  | PostRequest irp => fun K => t_Read T = Some (irp, Fresh) /\ (c_post <= t_Fuel T)%nat /\ K STATUS_PENDING (forgo c_post T) /\ forall st, NT_SUCCESS st = false -> K st T
  | UpdateFile irp f => fun K => (forall fcb ccb, fcb_ok fcb -> exists fcb' ccb', f fcb ccb = Some (fcb', ccb') /\ fcb_ok fcb') /\ K tt T
  | DiskCacheRead irp valid allowed => fun K =>
      exists b, t_Read T = Some (irp, phase_of b) /\ sane irp /\ 0 <= valid /\ 0 <= allowed <= MAX_RUNS /\ (allowed = 0 \/ (b = true /\ allowed <= 1 + t_Res T)) /\
        (c_serve b <= t_Fuel T)%nat /\ (forall fetches, 0 <= fetches <= allowed -> K (true, fetches) (with_res (t_Res T - beside fetches) (forgo (c_serve b) T))) /\
        (forall fetches, 0 <= fetches <= MAX_RUNS -> K (false, fetches) T)
  | DiskCacheAdmit _ _ => fun K => K tt T
  | FairDecide irp mayHold again => fun K =>
      t_Read T = Some (irp, Fresh) /\ sane irp /\ (c_queue <= t_Fuel T)%nat /\ (again = false -> K None T) /\
      K (Some STATUS_PENDING) (forgo c_queue T) /\ K (Some STATUS_SUCCESS) (in_phase irp InFlight T)
  | FairReserve n => fun K => 0 <= n /\ forall m, 0 <= m <= n -> K m (with_res (t_Res T + m) T)
  | FairGiveBack n => fun K => 0 <= n <= t_Res T /\ K tt (with_res (t_Res T - n) T)
  | FairSettle irp => fun K => exists ph, t_Read T = Some (irp, ph) /\ K tt (in_phase irp Settled T)
  | FetchAdmittedFlag irp => fun K => exists ph, t_Read T = Some (irp, ph) /\ K (is_admitted ph) T
  | Fetch irp len => fun K => t_Read T = Some (irp, InFlight) /\ (c_fetch <= t_Fuel T)%nat /\ forall st, K st (if st =? STATUS_PENDING then forgo c_fetch T else T)
  | QueueWorkItem irp => fun K => exists b, t_Read T = Some (irp, phase_of b) /\ sane irp /\ (c_work false b <= t_Fuel T)%nat /\ K tt (forgo (c_work false b) T)
  | SetInformation _ _ => fun K => K tt T
  | GetInformation _ => fun K => forall n, K n T
  | SetFilePosition _ _ => fun K => K tt T
  | CompleteRequest irp st => fun K => (exists ph, t_Read T = Some (irp, ph) /\ ph <> InFlight) /\ K tt (forgo 0 T)
  end.

(** Each call costs a step. *)
Fixpoint wp {R} (p : prog R) (T : TOKENS) (Q : R -> TOKENS -> Prop) : Prop :=
  match p with
  | Ret r => Q r T
  | Call c k => (1 <= t_Fuel T)%nat /\ call_pre c (spend 1 T) (fun a T => wp (k a) T Q)
  end.

(** Nothing in hand. *)
Definition empty_handed (T : TOKENS) : Prop := t_Read T = None /\ t_Res T = 0.
Definition ends {R} (_ : R) (T : TOKENS) : Prop := empty_handed T.

(** A handler that returns its status either keeps the read and returns a
    status to complete it with, or has left it somewhere and returns pending. *)
Definition returns (irp : READ_IRP) (st : NTSTATUS) (T : TOKENS) : Prop :=
  t_Res T = 0 /\ if st =? STATUS_PENDING then t_Read T = None else (exists ph, t_Read T = Some (irp, ph) /\ ph <> InFlight) /\ (1 <= t_Fuel T)%nat.

Lemma call_pre_mono c T (K K' : answer c -> TOKENS -> Prop) : (forall a T, K a T -> K' a T) -> call_pre c T K -> call_pre c T K'.
Proof. intros HK. destruct c; cbn; naive_solver. Qed.

Lemma run_mono {R} (p : prog R) : forall T (Q Q' : R -> TOKENS -> Prop), (forall r T, Q r T -> Q' r T) -> wp p T Q -> wp p T Q'.
Proof. induction p as [r|c k IH]; intros T Q Q' HQ; cbn [wp]; [apply HQ|]. intros [Hf Hc]. split; [done|]. eapply call_pre_mono; [|exact Hc]. intros a T'. by apply IH. Qed.

Lemma run_bind {A B} (p : prog A) (f : A -> prog B) : forall T Q, wp p T (fun a T => wp (f a) T Q) -> wp (p ≫= f) T Q.
Proof.
  unfold mbind, prog_mbind. induction p as [r|c k IH]; intros T Q; cbn [wp prog_bind]; [done|]. intros [Hf Hc]. split; [done|]. eapply call_pre_mono; [|exact Hc]. intros a T'. by apply IH.
Qed.

Lemma wp_step {B} c (f : answer c -> prog B) T Q : (1 <= t_Fuel T)%nat -> call_pre c (spend 1 T) (fun a T => wp (f a) T Q) -> wp (call c ≫= f) T Q.
Proof. done. Qed.
Lemma wp_one c T Q : (1 <= t_Fuel T)%nat -> call_pre c (spend 1 T) Q -> wp (call c) T Q.
Proof. done. Qed.
Lemma run_return {R} (r : R) T (Q : R -> TOKENS -> Prop) : Q r T -> wp (Ret r) T Q.
Proof. done. Qed.

(** Trimming, on every branch. *)
Lemma wp_trim irp size T Q :
  sane irp -> size <= MAXLONG64 -> (1 <= t_Fuel T)%nat ->
  (forall n, 0 < n <= i_Length irp -> Q (STATUS_SUCCESS, n) T) -> Q (STATUS_END_OF_FILE, 0) (spend 1 T) -> wp (trim params irp size) T Q.
Proof.
  intros [Hl Ho] Hs Hf H1 H2. unfold trim, prm. rewrite trim_value by (done || lia). destruct (_ || _) eqn:E; [by cbn|]. apply orb_false_iff in E as [E%Z.leb_gt _]. cbn. apply H1. lia.
Qed.
(** One call of the program in the goal. *)
Ltac tok := cbv beta iota delta [t_Read t_Res t_Fuel spend forgo in_phase with_res].
Ltac wp_call := apply wp_step; [tok; lia|]; cbn [call_pre].
Ltac wp_last := apply wp_one; [tok; lia|]; cbn [call_pre].
Ltac wp_ret := apply run_bind, run_return.

Lemma wp_complete_request irp ph st n : ph <> InFlight -> (1 <= n)%nat -> wp (call (CompleteRequest irp st)) (mkTok (Some (irp, ph)) 0 n) ends.
Proof. intros Hp Hn. wp_last. split; [by exists ph|done]. Qed.

Lemma wp_succeeded irp ph n : ph <> InFlight -> (3 <= n)%nat -> wp (ReadSucceeded params irp) (mkTok (Some (irp, ph)) 0 n) ends.
Proof.
  intros Hp Hn. unfold ReadSucceeded. apply run_bind. destruct (negb _).
  - wp_call. intros information. destruct (p_SynchronousFile _); [wp_last|]; tok; try apply run_return; apply (wp_complete_request irp ph STATUS_SUCCESS); first [done|tok; lia].
  - apply run_return, (wp_complete_request irp ph STATUS_SUCCESS); [done|lia].
Qed.

Lemma wp_read_complete irp st size buffered n : (10 <= n)%nat -> wp (ReadComplete params irp st size buffered) (mkTok (Some (irp, InFlight)) 0 n) ends.
Proof.
  intros Hn. unfold ReadComplete. wp_call. exists InFlight. split; [done|]. tok. destruct (NT_SUCCESS st); cbn [negb]; [|apply wp_complete_request; [done|lia]].
  assert (Hrest : forall m, (n - 3 <= m)%nat -> wp (call (SetInformation irp size);; call (DiskCacheAdmit irp size);; ReadSucceeded params irp) (mkTok (Some (irp, Settled)) 0 m) ends).
  { intros m Hm. wp_call. tok. wp_call. tok. apply wp_succeeded; [done|lia]. }
  destruct buffered; [wp_call; intros mapped _|wp_ret]; cbn [negb]; [|apply Hrest; lia].
  destruct mapped; cbn [negb]; tok; [apply Hrest; lia|]. apply wp_complete_request; [done|lia].
Qed.

Lemma wp_disk_complete irp b st valid fetches refetch n :
  sane irp -> 0 <= fetches <= MAX_RUNS -> (c_serve b <= S n)%nat ->
  wp (ReadDiskComplete params irp st valid fetches refetch) (mkTok (Some (irp, phase_of b)) (beside fetches) n) ends.
Proof.
  intros Hs Hf Hn. assert (Hn' : (4 + c_work false b <= n)%nat) by (unfold c_serve, c_work in *; destruct b; lia). unfold MAX_RUNS in Hf. unfold ReadDiskComplete.
  assert (E : (if 1 <? fetches then u32 (fetches - 1) else 0) = beside fetches) by (unfold beside; destruct (Z.ltb_spec 1 fetches); [rewrite u32_id by lia|]; lia).
  wp_call. rewrite E. tok. split; [unfold beside; lia|]. rewrite Z.sub_diag. assert (Hcw : (21 <= c_work false b)%nat) by (destruct b; cbn; lia).
  destruct (NT_SUCCESS st).
  - wp_call. exists (phase_of b). split; [done|]. tok. wp_call. tok. apply wp_succeeded; [done|lia].
  - assert (Hfail : forall m, (2 <= m)%nat -> wp (call (FairSettle irp);; call (CompleteRequest irp st)) (mkTok (Some (irp, phase_of b)) 0 m) ends).
    { intros m Hm. wp_call. exists (phase_of b). split; [done|]. tok. apply wp_complete_request; [done|lia]. }
    destruct refetch; [wp_call; intros workItem _|wp_ret]; cbn [negb]; tok; [|apply Hfail; lia].
    destruct workItem; cbn [negb]; [|apply Hfail; lia]. wp_last. exists b. split_and!; [done|done|tok; lia|]. done.
Qed.

(** Admission: the read is queued, admitted, or still the handler's. *)
Lemma wp_admit irp mayHold n Q :
  sane irp -> (3 + c_queue <= n)%nat ->
  (forall m, (n - 3 <= m)%nat -> Q STATUS_INSUFFICIENT_RESOURCES (mkTok (Some (irp, Fresh)) 0 m)) ->
  (forall m, Q STATUS_PENDING (mkTok None 0 m)) -> (forall m, (n - 3 <= m)%nat -> Q STATUS_SUCCESS (mkTok (Some (irp, InFlight)) 0 m)) ->
  wp (FairAdmit irp mayHold) (mkTok (Some (irp, Fresh)) 0 n) Q.
Proof.
  intros Hs Hn H1 H2 H3. unfold c_queue in *. unfold FairAdmit. wp_call. tok. split_and!; [done|done|unfold c_queue; lia| |by apply H2|apply H3; tok; lia]. intros _.
  wp_call. intros workItem _. destruct workItem; cbn [negb]; [|cbn; tok; apply H1; lia]. wp_call. tok. split_and!; [done|done|unfold c_queue; lia|done|by apply H2|apply H3; tok; lia].
Qed.

Lemma wp_from_disk_cache irp valid runs n Q :
  sane irp -> 0 <= valid -> 1 <= runs <= MAX_RUNS -> (3 + c_serve true <= n)%nat ->
  (forall m, Q true (mkTok None 0 m)) -> (forall m, (n - 3 <= m)%nat -> Q false (mkTok (Some (irp, InFlight)) 0 m)) ->
  wp (ReadFromDiskCache irp valid runs) (mkTok (Some (irp, InFlight)) 0 n) Q.
Proof.
  intros Hs Hv Hr Hn H1 H2. unfold MAX_RUNS in *. unfold ReadFromDiskCache. wp_call. rewrite u32_id by lia. split; [lia|]. intros reserved Hres. tok. rewrite (u32_id (1 + reserved)) by lia.
  wp_call. exists true. tok. unfold MAX_RUNS. split_and!; [done|done|done|lia|lia|right; split; [done|lia]|lia| |].
  - intros fetches Hf. assert (E : u32 (reserved - (if 1 <? fetches then u32 (fetches - 1) else 0)) = reserved - beside fetches).
    { unfold beside. destruct (Z.ltb_spec 1 fetches); [rewrite (u32_id (fetches - 1)) by lia|]; rewrite u32_id; lia. }
    wp_call. rewrite E. tok. split; [unfold beside; lia|]. apply run_return. rewrite Z.sub_diag. apply H1.
  - intros fetches Hf. wp_call. tok. split; [lia|]. apply run_return. rewrite Z.sub_diag. apply H2. lia.
Qed.

(** A read offered to the disk cache whole, then in part. *)
Lemma wp_released irp valid n Q :
  sane irp -> 0 <= valid -> (4 + c_serve true <= n)%nat ->
  (forall m, Q true (mkTok None 0 m)) -> (forall m, (n - 4 <= m)%nat -> Q false (mkTok (Some (irp, InFlight)) 0 m)) ->
  wp (ReadFromDiskCacheReleased irp valid) (mkTok (Some (irp, InFlight)) 0 n) Q.
Proof.
  intros Hs Hv Hn H1 H2. unfold ReadFromDiskCacheReleased. wp_call. exists true. tok. split_and!; [done|done|done|lia|done|by left|cbn [c_serve] in *; lia| |].
  - intros fetches Hf. assert (fetches = 0) as -> by lia. cbn. apply H1.
  - intros runs Hr. destruct (Z.eqb_spec runs 0) as [->|Hr0]; cbn [negb]; [apply H2; lia|]. apply wp_from_disk_cache; [done|done|lia|cbn [c_serve] in *; lia|done|]. intros m Hm. apply H2. lia.
Qed.

(** A fetch that does not start is settled and completed. *)
Lemma wp_issue_or_fail irp len n :
  (2 + c_fetch <= n)%nat ->
  wp (st ← ReadIssueFetch irp len; if negb (st =? STATUS_PENDING) then call (FairSettle irp);; call (CompleteRequest irp st) else Ret ()) (mkTok (Some (irp, InFlight)) 0 n) ends.
Proof.
  intros Hn. unfold c_fetch in *. unfold ReadIssueFetch. wp_call. tok. split_and!; [done|unfold c_fetch; lia|]. intros st. destruct (Z.eqb_spec st STATUS_PENDING) as [->|Hst]; cbn [negb]; [done|].
  wp_call. exists InFlight. split; [done|]. tok. apply wp_complete_request; [done|lia].
Qed.

Lemma wp_issue_released irp (fromDiskCache b : bool) n :
  sane irp -> (fromDiskCache = true -> b = true) -> (c_work fromDiskCache b <= S n)%nat ->
  wp (ReadIssueReleased params irp fromDiskCache) (mkTok (Some (irp, phase_of b)) 0 n) ends.
Proof.
  intros Hs Hd Hn. assert (H20 : (20 <= n)%nat) by (destruct fromDiskCache, b; cbn in Hn; lia). unfold ReadIssueReleased. wp_call. intros version Hver. cbn in Hver.
  apply run_bind. apply wp_trim; [done|done|tok; lia| |].
  - intros len Hlen. wp_call. exists (phase_of b). split; [done|]. tok. change (NT_SUCCESS STATUS_SUCCESS) with true. destruct b; cbn [phase_of is_admitted andb negb].
    + wp_ret. change (NT_SUCCESS STATUS_SUCCESS) with true. cbn [andb negb]. apply run_bind.
      destruct fromDiskCache; [|apply run_return, wp_issue_or_fail; unfold c_fetch; lia].
      unfold c_work in Hn. apply wp_released; [done|lia|unfold c_serve; lia|by intros|]. intros m Hm. apply wp_issue_or_fail. unfold c_fetch. lia.
    + destruct fromDiskCache; [specialize (Hd eq_refl); discriminate|]. unfold c_work in Hn. apply run_bind, wp_admit; [done|unfold c_queue; lia| | |].
      * intros m Hm. cbn. apply run_bind. wp_last. exists Fresh. split; [done|]. tok. apply wp_complete_request; [done|lia].
      * intros m. cbn. done.
      * intros m Hm. cbn -[ReadIssueFetch]. apply (wp_issue_or_fail irp len). unfold c_fetch. lia.
  - tok. wp_call. exists (phase_of b). split; [done|]. tok. cbn. apply run_bind. wp_last. exists (phase_of b). split; [done|]. tok. apply wp_complete_request; [done|lia].
Qed.

(** ** The dispatch routine *)

Lemma returns_failed irp ph st m : NT_SUCCESS st = false -> ph <> InFlight -> (1 <= m)%nat -> returns irp st (mkTok (Some (irp, ph)) 0 m).
Proof. intros Hst Hp Hm. split; [done|]. destruct (Z.eqb_spec st STATUS_PENDING) as [->|]; [done|]. split; [by exists ph|done]. Qed.

Lemma returns_status irp ph st m : st <> STATUS_PENDING -> ph <> InFlight -> (1 <= m)%nat -> returns irp st (mkTok (Some (irp, ph)) 0 m).
Proof. intros Hst Hp Hm. split; [done|]. rewrite (proj2 (Z.eqb_neq _ _) Hst). split; [by exists ph|done]. Qed.

Lemma paging_read_ok offset len fcb ccb : fcb_ok fcb -> exists fcb' ccb', paging_read offset len fcb ccb = Some (fcb', ccb') /\ fcb_ok fcb'.
Proof. intros Hf. unfold paging_read. destruct (track_stream fcb offset len Hf) as (fcb' & i & s & -> & Hok & _). cbn. eexists _, _. split; [reflexivity|]. exact Hok. Qed.

Lemma cached_read_ok active len fcb ccb : fcb_ok fcb -> exists fcb' ccb', cached_read settings active len fcb ccb = Some (fcb', ccb') /\ fcb_ok fcb'.
Proof.
  intros [Hl Hi]. unfold cached_read, ReadAdaptGranularity. destruct (_ || _); [by eexists _, _|]. destruct (_ <? _); [by eexists _, _|]. unfold ReadCurrentStreak. cbn [ReadLastStreamIndex Streams].
  destruct (rd_in_range (Streams fcb) (ReadLastStreamIndex fcb) ltac:(lia)) as [t ->]. cbn. by eexists _, _.
Qed.

Lemma init_cache_map_ok fcb ccb : fcb_ok fcb -> exists fcb' ccb', Some (init_cache_map settings fcb ccb) = Some (fcb', ccb') /\ fcb_ok fcb'.
Proof. intros Hf. unfold init_cache_map. destruct (_ =? 0); by eexists _, _. Qed.

Lemma wp_post irp n : (1 + c_post < n)%nat -> wp (call (PostRequest irp)) (mkTok (Some (irp, Fresh)) 0 n) (returns irp).
Proof. intros Hn. wp_last. tok. split_and!; [done|lia|done|]. intros st Hst. apply returns_failed; [done|done|lia]. Qed.

Lemma wp_fetch_or_settle irp len n :
  (15 <= n)%nat ->
  wp (fetchStatus ← ReadIssueFetch irp len; (if negb (fetchStatus =? STATUS_PENDING) then call (FairSettle irp) else Ret ());; Ret fetchStatus)
    (mkTok (Some (irp, InFlight)) 0 n) (returns irp).
Proof.
  intros Hn. unfold ReadIssueFetch. wp_call. tok. split_and!; [done|unfold c_fetch; lia|]. intros st. destruct (Z.eqb_spec st STATUS_PENDING) as [->|Hst]; cbn [negb]; [wp_ret; done|].
  wp_call. exists InFlight. split; [done|]. tok. apply returns_status; [done|done|lia].
Qed.

Lemma wp_noncached_issue irp len n : sane irp -> 0 <= len -> (75 <= n)%nat -> wp (noncached_issue params irp len) (mkTok (Some (irp, Fresh)) 0 n) (returns irp).
Proof.
  intros Hs Hlen Hn. unfold noncached_issue. wp_call. exists false. tok. unfold c_serve, MAX_RUNS.
  split_and!; [done|done|done|lia|lia|by left|lia|intros fetches Hf; assert (fetches = 0) as -> by lia; done|].
  intros runs Hr. apply run_bind, wp_admit; [done|unfold c_queue; lia|intros m Hm; apply returns_failed; [done|done|lia]|done|].
  intros m Hm. change (STATUS_SUCCESS =? STATUS_SUCCESS) with true. cbn [negb].
  apply run_bind. destruct (Z.eqb_spec runs 0); cbn [negb]; [apply run_return, wp_fetch_or_settle; lia|].
  apply wp_from_disk_cache; [done|done|unfold MAX_RUNS; lia|unfold c_serve; lia|done|]. intros k Hk. apply wp_fetch_or_settle. lia.
Qed.

Lemma wp_noncached_begin irp len n : sane irp -> 0 <= len -> (79 <= n)%nat -> wp (noncached_begin params irp len) (mkTok (Some (irp, Fresh)) 0 n) (returns irp).
Proof.
  intros Hs Hlen Hn. unfold noncached_begin. apply run_bind. destruct (p_Paging _).
  - wp_call. split; [intros; by apply paging_read_ok|]. tok. apply run_return. apply wp_noncached_issue; [done|lia|lia].
  - wp_last. intros st _. tok. destruct (NT_SUCCESS st) eqn:E; cbn [negb]; [apply wp_noncached_issue; [done|lia|lia]|apply returns_failed; [done|done|lia]].
Qed.

Lemma wp_noncached irp (inFsp : bool) n :
  sane irp -> ((if inFsp then 85 else 100) <= n)%nat -> wp (read_noncached params irp inFsp) (mkTok (Some (irp, Fresh)) 0 n) (returns irp).
Proof.
  intros Hs Hn. assert (Hn' : (85 <= n)%nat) by (destruct inFsp; lia). unfold read_noncached. wp_call. intros version Hver. cbn in Hver.
  apply run_bind, wp_trim; [done|done|tok; lia| |]; [|tok; apply returns_status; [done|done|lia]]. intros len Hlen. tok. change (STATUS_SUCCESS =? STATUS_END_OF_FILE) with false. cbv iota.
  apply run_bind. destruct inFsp; [apply run_return, wp_noncached_begin; [done|lia|lia]|]. wp_call. intros passive _. tok. apply run_return.
  destruct passive; cbn [negb]; [apply wp_noncached_begin; [done|lia|lia]|apply wp_post; unfold c_post; lia].
Qed.

Lemma wp_cached_finish irp len st info n : st <> STATUS_PENDING -> (5 <= n)%nat -> wp (cached_finish settings params irp len st info) (mkTok (Some (irp, Fresh)) 0 n) (returns irp).
Proof.
  intros Hst Hn. unfold cached_finish. wp_call. tok. wp_call. intros active _. wp_call. split; [intros; by apply cached_read_ok|]. tok.
  destruct (_ && _); [wp_call|wp_ret]; tok; apply returns_status; first [done|lia].
Qed.

Lemma wp_cached_copy irp len (wait : bool) n :
  ((if wait then 8 else 96) <= n)%nat -> wp (cached_copy settings params irp len wait) (mkTok (Some (irp, Fresh)) 0 n) (returns irp).
Proof.
  intros Hn. assert (Hn' : (8 <= n)%nat) by (destruct wait; lia). unfold cached_copy. destruct (p_Mdl _); cbn [negb].
  - wp_call. intros [st info| |st] Hr; cbn in Hr; tok; [apply wp_cached_finish; [done|lia]|done|apply returns_failed; [done|done|lia]].
  - wp_call. intros mapping _. tok. destruct mapping; cbn [negb]; [|apply returns_failed; [done|done|lia]]. wp_call. intros [st info| |st] Hr; cbn in Hr; tok.
    + apply wp_cached_finish; [done|lia].
    + subst wait. apply wp_post. unfold c_post. lia.
    + apply returns_failed; [done|done|lia].
Qed.

Lemma wp_cached irp (wait : bool) n :
  sane irp -> ((if wait then 12 else 100) <= n)%nat -> wp (read_cached settings params irp wait) (mkTok (Some (irp, Fresh)) 0 n) (returns irp).
Proof.
  intros Hs Hn. assert (Hn' : (12 <= n)%nat) by (destruct wait; lia). unfold read_cached. wp_call. intros mapped _. tok. apply run_bind.
  assert (Hrest : forall m, (n - 2 <= m)%nat -> wp (version ← call (Ask AskSnapshot); '(st, realLength) ← trim params irp (v_Size version);
    if st =? STATUS_END_OF_FILE then Ret STATUS_END_OF_FILE else cached_copy settings params irp realLength wait) (mkTok (Some (irp, Fresh)) 0 m) (returns irp)).
  { intros m Hm. wp_call. intros version Hver. cbn in Hver. apply run_bind, wp_trim; [done|done|tok; lia| |tok; apply returns_status; [done|done|lia]]. intros len Hlen. tok.
    apply wp_cached_copy. destruct wait; lia. }
  destruct mapped; [apply run_return, Hrest; lia|]. wp_last. split; [intros; by apply init_cache_map_ok|]. tok. apply Hrest. lia.
Qed.

Lemma wp_check_access irp n (Q : NTSTATUS -> TOKENS -> Prop) :
  (2 <= n)%nat -> (forall m, (n - 2 <= m)%nat -> Q STATUS_SUCCESS (mkTok (Some (irp, Fresh)) 0 m)) ->
  (forall st T, st <> STATUS_SUCCESS -> returns irp st T -> Q st T) -> (3 <= n)%nat -> wp (check_access params irp) (mkTok (Some (irp, Fresh)) 0 n) Q.
Proof.
  intros Hn H1 H2 Hn'. unfold check_access. destruct (negb (p_Paging _)); [|apply run_return, H1; lia]. wp_call. split; [done|]. intros st.
  destruct (Z.eqb_spec st STATUS_PENDING) as [->|Hst]; [apply run_return, H2; done|]. destruct (Z.eqb_spec st STATUS_SUCCESS) as [->|Hns]; cbn [negb].
  - wp_call. intros free _. tok. apply run_return. destruct free; [apply H1; lia|apply H2; [done|apply returns_failed; [done|done|lia]]].
  - tok. apply run_return, H2; [done|]. apply returns_status; [done|done|lia].
Qed.

(** The whole handler, on a read it has not seen and on one the FSP returns. *)
Lemma wp_volume_read irp (inFsp wait : bool) n :
  0 <= i_Length irp < 4294967296 -> p_ByteOffset (params (i_Id irp)) <= MAXLONG64 -> ((if inFsp && wait then 89 else 104) <= n)%nat ->
  wp (BlorgVolumeRead settings params irp inFsp wait) (mkTok (Some (irp, Fresh)) 0 n) (returns irp).
Proof.
  intros Hl Ho Hn. assert (Hn' : (89 <= n)%nat) by (destruct (inFsp && wait); lia). unfold BlorgVolumeRead, prm. destruct (Z.eqb_spec (i_Length irp) 0); [wp_call; tok; apply returns_status; [done|done|lia]|].
  destruct (Z.ltb_spec (p_ByteOffset (params (i_Id irp))) 0); [wp_call; tok; apply returns_failed; [done|done|lia]|]. assert (Hs : sane irp) by (split; lia).
  destruct (p_NodeType _); [|apply returns_failed; [done|done|lia]..].
  assert (Hrest : forall m, (n - 1 <= m)%nat -> wp (result ← check_access params irp;
      if negb (result =? STATUS_SUCCESS) then Ret result else if p_NoCache (params (i_Id irp)) then read_noncached params irp inFsp else read_cached settings params irp wait)
    (mkTok (Some (irp, Fresh)) 0 m) (returns irp)).
  { intros m Hm. apply run_bind, wp_check_access; [lia| | |lia].
    - intros k Hk. change (STATUS_SUCCESS =? STATUS_SUCCESS) with true. cbn [negb]. destruct (p_NoCache _); [apply wp_noncached|apply wp_cached]; try done; destruct inFsp, wait; cbn [andb] in Hn; lia.
    - intros st T Hst HT. rewrite (proj2 (Z.eqb_neq _ _) Hst). done. }
  apply run_bind. destruct (negb (p_Paging (params (i_Id irp))) && p_NoCache (params (i_Id irp))); [|apply run_return, Hrest; lia]. wp_last. intros st _. tok. destruct (NT_SUCCESS st) eqn:E; cbn [negb]; [apply Hrest; lia|apply returns_failed; [done|done|lia]].
Qed.

(** What the dispatch routine and the worker do with the status. *)
Lemma wp_finish irp st T : returns irp st T -> wp (if negb (st =? STATUS_PENDING) then call (CompleteRequest irp st) else Ret ()) T ends.
Proof.
  intros [Hr H]. destruct (Z.eqb_spec st STATUS_PENDING); cbn [negb]; [by split|]. destruct H as [(ph & Hph & Hna) Hf]. apply wp_one; [done|]. cbn [call_pre]. split; [by exists ph|by split].
Qed.

Lemma wp_read kind irp n : 0 <= i_Length irp < 4294967296 -> p_ByteOffset (params (i_Id irp)) <= MAXLONG64 -> (c_arrive <= n)%nat -> wp (BlorgRead settings params kind irp) (mkTok (Some (irp, Fresh)) 0 n) ends.
Proof.
  intros Hl Ho Hn. unfold c_arrive in Hn. unfold BlorgRead. destruct kind; [|apply wp_complete_request; [done|lia]..].
  apply run_bind. eapply run_mono; [apply wp_finish|]. apply wp_volume_read; [done|done|cbn; lia].
Qed.

Lemma wp_fsp_read irp n : 0 <= i_Length irp < 4294967296 -> p_ByteOffset (params (i_Id irp)) <= MAXLONG64 -> (c_post <= S n)%nat -> wp (BlorgFspRead settings params irp) (mkTok (Some (irp, Fresh)) 0 n) ends.
Proof.
  intros Hl Ho Hn. unfold c_post in Hn. unfold BlorgFspRead. apply run_bind. eapply run_mono; [apply wp_finish|]. apply wp_volume_read; [done|done|cbn; lia].
Qed.
End Handlers.
