(* ===== verification/ReadPathTheorems.v ===== *)
(** * The read path: every read is completed, once

    The invariant of the interleaved handlers, the bound on the requests out
    on the link, and that the driver's own steps always come to an end, with
    every read it was given completed exactly once. *)

From S2P Require Import Prelude Registry DiskCacheIndex DiskCacheIndexTheorems DiskCacheFill DiskCacheRead DiskCacheReadTheorems.
From S2P Require Import ReadAdapt ReadFair ReadFairSystem ReadPath ReadPathSystem ReadPathHandlers.

(** ** Places *)

Definition work_holding (w : WORK) : holding := (w_Irp w, phase_of (w_Admitted w)).
Definition serving_holding (v : SERVING) : holding := (sv_Irp v, phase_of (sv_Admitted v)).
Definition fetching_holding (f : READ_IRP * Z) : holding := (fst f, InFlight).
Definition fresh (i : READ_IRP) : holding := (i, Fresh).
Definition token_list (T : TOKENS) : list holding := option_list (t_Read T).

Definition in_hand (toks : list TOKENS) : list holding := toks ≫= token_list.
#[export] Instance in_hand_proper : Proper ((≡ₚ) ==> (≡ₚ)) in_hand.
Proof. intros toks toks' E. unfold in_hand. by rewrite E. Qed.

(** Every read in the driver's hands outside the fair share's queues. *)
Definition holdings (s : SHARED) (toks : list TOKENS) : list holding :=
  in_hand toks ++ (work_holding <$> s_Work s) ++ (fetching_holding <$> s_Fetching s) ++ (serving_holding <$> s_Serving s) ++
  (fresh <$> s_Posted s) ++ (fresh <$> s_Parked s).
Definition reserved (s : SHARED) (toks : list TOKENS) : Z := total t_Res toks + total (fun v => beside (sv_Fetches v)) (s_Serving s).

(** The steps left to the driver before everything is done. *)
Definition potential (s : SHARED) (toks : list TOKENS) : nat :=
  (sum_list_with t_Fuel toks + sum_list_with (fun w => c_work (w_FromDiskCache w) (w_Admitted w)) (s_Work s) + c_fetch * length (s_Fetching s) +
   sum_list_with (fun v => c_serve (sv_Admitted v)) (s_Serving s) + c_post * length (s_Posted s) + c_queue * length (queued (s_Fair s)))%nat.

Section Invariant.
Context {service : DiskCacheService} (budget : Z) (settings : CONFIG) (params : Z -> READ_PARAMS).
Context (Hparams : forall i, p_ByteOffset (params i) <= MAXLONG64).

Record shared_ok (s : SHARED) (toks : list TOKENS) (arrived : list READ_IRP) : Prop := {
  so_books : books (s_Fair s) (holdings s toks) (reserved s toks) (fst <$> s_Done s) arrived;
  so_files : forall n, fcb_ok (file_of s n);
  so_work : Forall (fun w => sane params (w_Irp w) /\ (w_FromDiskCache w = true -> w_Admitted w = true)) (s_Work s);
  so_serving : Forall (fun v => sane params (sv_Irp v) /\ 0 <= sv_Fetches v <= MAX_RUNS /\ (sv_Admitted v = false -> sv_Fetches v = 0)) (s_Serving s);
  so_queued : Forall (sane params) (queued (s_Fair s));
  so_tokens : Forall (fun T => 0 <= t_Res T) toks
}.

Lemma holdings_perm s toks toks' : toks ≡ₚ toks' -> holdings s toks ≡ₚ holdings s toks'.
Proof. intros E. unfold holdings. by rewrite E. Qed.

Lemma shared_perm s toks toks' arr : toks ≡ₚ toks' -> shared_ok s toks arr -> shared_ok s toks' arr.
Proof.
  intros E [S1 S2 S3 S4 S5 S6]. split; try done; [|by rewrite <- E]. unfold reserved in *. rewrite <- (total_perm _ _ _ E). eapply books_perm; [|exact S1]. by apply holdings_perm.
Qed.

Lemma sum_list_perm {A} (f : A -> nat) l l' : l ≡ₚ l' -> sum_list_with f l = sum_list_with f l'.
Proof. induction 1; cbn; lia. Qed.
Lemma potential_perm s toks toks' : toks ≡ₚ toks' -> potential s toks = potential s toks'.
Proof. intros E. unfold potential. by rewrite (sum_list_perm _ _ _ E). Qed.

Lemma books_res fair H res res' fin arr : res = res' -> books fair H res fin arr -> books fair H res' fin arr.
Proof. by intros ->. Qed.

(** Only the books, the places' own conditions and the files matter. *)
Lemma shared_rest s s' T T' toks arr :
  books (s_Fair s') (holdings s' (T' :: toks)) (reserved s' (T' :: toks)) (fst <$> s_Done s') arr -> s_Files s' = s_Files s -> 0 <= t_Res T' ->
  Forall (sane params) (queued (s_Fair s')) ->
  Forall (fun w => sane params (w_Irp w) /\ (w_FromDiskCache w = true -> w_Admitted w = true)) (s_Work s') ->
  Forall (fun v => sane params (sv_Irp v) /\ 0 <= sv_Fetches v <= MAX_RUNS /\ (sv_Admitted v = false -> sv_Fetches v = 0)) (s_Serving s') ->
  shared_ok s (T :: toks) arr -> shared_ok s' (T' :: toks) arr.
Proof.
  intros Hb Hf Hr Hq Hw Hv [S1 S2 S3 S4 S5 S6]. apply Forall_cons in S6 as [_ S6]. split; try done; [|by constructor]. intros n. unfold file_of. rewrite Hf. apply S2.
Qed.

(** The thread's read, at the head. *)
Lemma holdings_read s T toks irp ph : t_Read T = Some (irp, ph) -> holdings s (T :: toks) = (irp, ph) :: holdings s (mkTok None 0 0 :: toks).
Proof. intros E. unfold holdings. unfold in_hand. cbn [mbind list_bind]. unfold token_list. by rewrite E. Qed.
Lemma holdings_none s T toks : t_Read T = None -> holdings s (T :: toks) = holdings s (mkTok None 0 0 :: toks).
Proof. intros E. unfold holdings. unfold in_hand. cbn [mbind list_bind]. unfold token_list. by rewrite E. Qed.

Lemma released_work l : work_holding <$> ((fun i => mkWork i true true) <$> l) = released_holdings l.
Proof. unfold released_holdings. rewrite <- list_fmap_compose. done. Qed.

Lemma released_places s fair l toks : holdings (with_Fair s fair (issue_held s l)) toks ≡ₚ released_holdings l ++ holdings s toks.
Proof. unfold holdings, issue_held. cbn [s_Work s_Fetching s_Serving s_Posted s_Parked with_Fair]. rewrite fmap_app, released_work. solve_Permutation. Qed.

Lemma released_ok s fair l :
  Forall (fun w => sane params (w_Irp w) /\ (w_FromDiskCache w = true -> w_Admitted w = true)) (s_Work s) -> Forall (sane params) (queued (s_Fair s)) -> queued (s_Fair s) ≡ₚ l ++ queued fair ->
  Forall (sane params) (queued fair) /\ Forall (fun w => sane params (w_Irp w) /\ (w_FromDiskCache w = true -> w_Admitted w = true)) (issue_held s l).
Proof.
  intros Hw Hq Hp. rewrite Hp, Forall_app in Hq. destruct Hq as [Hl Hq]. split; [done|]. apply Forall_app. split; [done|]. apply Forall_fmap. eapply Forall_impl; [exact Hl|]. by intros i Hi.
Qed.

Lemma released_potential s fair l toks : queued (s_Fair s) ≡ₚ l ++ queued fair -> potential (with_Fair s fair (issue_held s l)) toks = potential s toks.
Proof.
  intros Hp. unfold potential, issue_held. cbn [s_Work s_Fetching s_Serving s_Posted s_Fair with_Fair]. rewrite Hp, length_app.
  assert (E : sum_list_with (fun w => c_work (w_FromDiskCache w) (w_Admitted w)) (s_Work s ++ ((fun i => mkWork i true true) <$> l)) =
    (sum_list_with (fun w => c_work (w_FromDiskCache w) (w_Admitted w)) (s_Work s) + 41 * length l)%nat).
  { rewrite sum_list_with_app. f_equal. clear. induction l as [|i l IH]; [done|]. cbn -[Nat.mul Nat.add] in *. rewrite IH. lia. }
  rewrite E. unfold c_queue. lia.
Qed.

(** ** One call *)

(** What a call does to the handler's tokens and the shared state. *)
Definition call_outcome (s : SHARED) (T : TOKENS) (toks : list TOKENS) (arr : list READ_IRP) (s' : SHARED) (K : TOKENS -> Prop) : Prop :=
  exists T', K T' /\ shared_ok s' (T' :: toks) arr /\ (potential s' (T' :: toks) <= potential s (T :: toks))%nat.

Lemma call_same s T toks arr (K : TOKENS -> Prop) : shared_ok s (T :: toks) arr -> K T -> call_outcome s T toks arr s K.
Proof. intros Hs HK. exists T. by split_and!. Qed.

Lemma token_res s T toks arr : shared_ok s (T :: toks) arr -> 0 <= t_Res T.
Proof. intros [S1 S2 S3 S4 S5 S6]. by apply Forall_cons in S6 as [? _]. Qed.

Lemma oplock_ok s T toks arr irp st (K : TOKENS -> Prop) :
  shared_ok s (T :: toks) arr -> t_Read T = Some (irp, Fresh) -> K (if st =? STATUS_PENDING then forgo 0 T else T) ->
  call_outcome s T toks arr (if st =? STATUS_PENDING then with_Parked s (irp :: s_Parked s) else s) K.
Proof.
  intros Hs Hr HK. destruct (st =? STATUS_PENDING); [|by apply call_same]. pose proof (token_res _ _ _ _ Hs) as Hres. exists (forgo 0 T). split_and!; [done| |unfold potential; cbn; lia].
  apply (shared_rest s _ T); try done; [|by destruct Hs..]. eapply books_perm; [|exact (so_books _ _ _ Hs)]. rewrite (holdings_read s T toks irp Fresh Hr).
  unfold holdings. cbn [s_Parked s_Posted s_Work s_Fetching s_Serving with_Parked fmap list_fmap]. unfold in_hand. cbn [mbind list_bind]. unfold token_list. cbn [t_Read forgo option_list]. solve_Permutation.
Qed.

Lemma post_ok s T toks arr irp st s' (K : TOKENS -> Prop) :
  shared_ok s (T :: toks) arr -> t_Read T = Some (irp, Fresh) -> (c_post <= t_Fuel T)%nat ->
  (st = STATUS_PENDING -> K (forgo c_post T)) -> (NT_SUCCESS st = false -> K T) ->
  (st = STATUS_PENDING /\ s' = with_Posted s (s_Posted s ++ [irp])) \/ (NT_SUCCESS st = false /\ s' = s) -> call_outcome s T toks arr s' K.
Proof.
  intros Hs Hr Hf H1 H2 [[Hst ->]|[Hst ->]]; [|apply call_same; auto]. pose proof (token_res _ _ _ _ Hs) as Hres. exists (forgo c_post T). split_and!; [auto| |].
  - apply (shared_rest s _ T); try done; [|by destruct Hs..]. eapply books_perm; [|exact (so_books _ _ _ Hs)]. rewrite (holdings_read s T toks irp Fresh Hr).
    unfold holdings. cbn [s_Parked s_Posted s_Work s_Fetching s_Serving with_Posted fmap list_fmap]. unfold in_hand. cbn [mbind list_bind]. unfold token_list. cbn [t_Read forgo option_list]. rewrite fmap_app. cbn [fmap list_fmap]. solve_Permutation.
  - unfold potential. cbn [s_Work s_Fetching s_Serving s_Posted s_Fair with_Posted sum_list_with t_Fuel forgo]. rewrite length_app. cbn [length]. lia.
Qed.

Lemma fetch_ok s T toks arr irp len st (K : TOKENS -> Prop) :
  shared_ok s (T :: toks) arr -> t_Read T = Some (irp, InFlight) -> (c_fetch <= t_Fuel T)%nat -> K (if st =? STATUS_PENDING then forgo c_fetch T else T) ->
  call_outcome s T toks arr (if st =? STATUS_PENDING then with_Fetching s ((irp, len) :: s_Fetching s) else s) K.
Proof.
  intros Hs Hr Hf HK. destruct (st =? STATUS_PENDING); [|by apply call_same]. pose proof (token_res _ _ _ _ Hs) as Hres. exists (forgo c_fetch T). split_and!; [done| |].
  - apply (shared_rest s _ T); try done; [|by destruct Hs..]. eapply books_perm; [|exact (so_books _ _ _ Hs)]. rewrite (holdings_read s T toks irp InFlight Hr).
    unfold holdings. cbn [s_Parked s_Posted s_Work s_Fetching s_Serving with_Fetching fmap list_fmap]. unfold in_hand. cbn [mbind list_bind]. unfold token_list. cbn [t_Read forgo option_list]. solve_Permutation.
  - unfold potential. cbn [s_Work s_Fetching s_Serving s_Posted s_Fair with_Fetching sum_list_with t_Fuel forgo length]. lia.
Qed.

Lemma flagged_phase s T toks arr irp ph : shared_ok s (T :: toks) arr -> t_Read T = Some (irp, ph) -> flagged s irp = is_admitted ph.
Proof. intros Hs Hr. pose proof (so_books _ _ _ Hs) as Hb. rewrite (holdings_read s T toks irp ph Hr) in Hb. by apply books_flag in Hb. Qed.

Lemma flagged_bool s T toks arr irp b : shared_ok s (T :: toks) arr -> t_Read T = Some (irp, phase_of b) -> flagged s irp = b.
Proof. intros Hs Hr. rewrite (flagged_phase _ _ _ _ _ _ Hs Hr). by destruct b. Qed.

Lemma disk_read_ok s T toks arr irp valid allowed (started b : bool) fetches (K : TOKENS -> Prop) :
  shared_ok s (T :: toks) arr -> t_Read T = Some (irp, phase_of b) -> sane params irp -> 0 <= allowed <= MAX_RUNS ->
  (allowed = 0 \/ (b = true /\ allowed <= 1 + t_Res T)) -> (c_serve b <= t_Fuel T)%nat -> 0 <= fetches <= (if started then allowed else MAX_RUNS) ->
  K (if started then with_res (t_Res T - beside fetches) (forgo (c_serve b) T) else T) ->
  call_outcome s T toks arr (if started then with_Serving s (mkServing irp valid fetches (flagged s irp) :: s_Serving s) else s) K.
Proof.
  intros Hs Hr Hsane Ha Hal Hf Hfet HK. destruct started; [|by apply call_same]. pose proof (token_res _ _ _ _ Hs) as Hres. rewrite (flagged_bool _ _ _ _ _ _ Hs Hr).
  assert (Hbes : 0 <= t_Res T - beside fetches) by (unfold beside; destruct Hal as [->|[_ ?]]; lia). exists (with_res (t_Res T - beside fetches) (forgo (c_serve b) T)). split_and!; [done| |].
  - apply (shared_rest s _ T); try done; [|by destruct Hs..|].
    + eapply books_res; [|eapply books_perm; [|exact (so_books _ _ _ Hs)]].
      * unfold reserved. cbn [s_Serving with_Serving]. rewrite !total_cons. cbn [t_Res with_res forgo sv_Fetches]. lia.
      * rewrite (holdings_read s T toks irp _ Hr). unfold holdings. cbn [s_Parked s_Posted s_Work s_Fetching s_Serving with_Serving fmap list_fmap]. unfold in_hand. cbn [mbind list_bind].
        unfold token_list. cbn [t_Read forgo with_res option_list]. change (serving_holding (mkServing irp valid fetches b)) with (irp, phase_of b). solve_Permutation.
    + constructor; [|by destruct Hs]. cbn [sv_Irp sv_Fetches sv_Admitted]. split_and!; [done|lia|lia|]. intros ->. destruct Hal as [->|[? _]]; [lia|done].
  - unfold potential. cbn [s_Work s_Fetching s_Serving s_Posted s_Fair with_Serving sum_list_with t_Fuel forgo with_res sv_Admitted]. lia.
Qed.

Lemma decide_ok s T toks arr irp mayHold (again : bool) a s' (K : option NTSTATUS -> TOKENS -> Prop) :
  shared_ok s (T :: toks) arr -> t_Read T = Some (irp, Fresh) -> sane params irp -> (c_queue <= t_Fuel T)%nat -> (again = false -> K None T) ->
  K (Some STATUS_PENDING) (forgo c_queue T) -> K (Some STATUS_SUCCESS) (in_phase irp InFlight T) ->
  call_step budget params s (FairDecide irp mayHold again) a s' -> call_outcome s T toks arr s' (K a).
Proof.
  intros Hs Hr Hsane Hf H1 H2 H3 Hst. pose proof (token_res _ _ _ _ Hs) as Hres. pose proof (so_books _ _ _ Hs) as Hb. rewrite (holdings_read s T toks irp Fresh Hr) in Hb.
  destruct (books_charge budget _ _ _ _ _ _ mayHold Hb) as (fair' & Hch & Hb' & Hq); [exact (proj1 (proj1 Hsane))|]. cbn [call_step] in Hst.
  destruct (ReadFairMustHold budget (s_Fair s) (i_Node irp) mayHold) eqn:Hhold; cbn [andb] in Hst.
  - destruct again; cbn [negb] in Hst; [|destruct Hst as [-> ->]; apply call_same; auto]. rewrite Hch in Hst. destruct Hst as [-> ->]. exists (forgo c_queue T). split_and!; [done| |].
    + apply (shared_rest s _ T); try done; [|by destruct Hs|by destruct Hs]. cbn [s_Fair with_Fair]. rewrite Hq. constructor; [done|by destruct Hs].
    + unfold potential. cbn [s_Work s_Fetching s_Serving s_Posted s_Fair with_Fair sum_list_with t_Fuel forgo]. rewrite Hq. cbn [length app]. unfold c_queue in *. lia.
  - rewrite Hch in Hst. destruct Hst as [-> ->]. exists (in_phase irp InFlight T). split_and!; [done| |].
    + apply (shared_rest s _ T); try done; [|by destruct Hs|by destruct Hs]. cbn [s_Fair with_Fair]. rewrite Hq. by destruct Hs.
    + unfold potential. cbn [s_Work s_Fetching s_Serving s_Posted s_Fair with_Fair sum_list_with t_Fuel in_phase]. rewrite Hq. cbn [length app]. lia.
Qed.

Lemma reserve_call_ok s T toks arr n a s' (K : Z -> TOKENS -> Prop) :
  shared_ok s (T :: toks) arr -> 0 <= n -> (forall m, 0 <= m <= n -> K m (with_res (t_Res T + m) T)) ->
  call_step budget params s (FairReserve n) a s' -> call_outcome s T toks arr s' (K a).
Proof.
  intros Hs Hn HK Hst. pose proof (token_res _ _ _ _ Hs) as Hres. destruct (books_reserve _ _ _ _ _ n (so_books _ _ _ Hs) Hn) as (fair' & m & Hr & Hm & Hb & Hq).
  cbn [call_step] in Hst. rewrite Hr in Hst. destruct Hst as [-> ->]. exists (with_res (t_Res T + m) T). split_and!; [by apply HK| |unfold potential; cbn [s_Fair with_Fair s_Work s_Fetching s_Serving s_Posted sum_list_with t_Fuel with_res]; rewrite Hq; lia].
  apply (shared_rest s _ T); try done; [| |cbn [s_Fair with_Fair]; rewrite Hq; by destruct Hs|by destruct Hs..].
  - eapply books_res; [|exact Hb]. unfold reserved. cbn [s_Serving with_Fair]. rewrite !total_cons. cbn [t_Res with_res]. lia.
  - cbn. lia.
Qed.

(** What a handler reserved is reserved. *)
Lemma reserved_ge s T toks arr : shared_ok s (T :: toks) arr -> t_Res T <= reserved s (T :: toks).
Proof.
  intros [_ _ _ _ _ S6]. apply Forall_cons in S6 as [_ S6]. unfold reserved. rewrite total_cons. assert (0 <= total t_Res toks) by (apply total_nonneg; by apply Forall_forall).
  assert (0 <= total (fun v => beside (sv_Fetches v)) (s_Serving s)) by (apply total_nonneg; intros v _; unfold beside; lia). lia.
Qed.

Lemma give_back_call_ok s T toks arr n s' (K : TOKENS -> Prop) :
  shared_ok s (T :: toks) arr -> 0 <= n <= t_Res T -> K (with_res (t_Res T - n) T) -> call_step budget params s (FairGiveBack n) tt s' -> call_outcome s T toks arr s' K.
Proof.
  intros Hs Hn HK Hst. pose proof (reserved_ge _ _ _ _ Hs) as Htot.
  destruct (books_give_back budget _ _ _ _ _ n (so_books _ _ _ Hs)) as (fair' & l & Hg & Hb & Hq); [lia|]. destruct Hst as (fair2 & l2 & Hg2 & ->). rewrite Hg in Hg2. injection Hg2 as <- <-.
  destruct (released_ok s fair' l) as [R1 R2]; [by destruct Hs|by destruct Hs|done|]. exists (with_res (t_Res T - n) T). split_and!; [done| |].
  - apply (shared_rest s _ T); try done; [|cbn; lia|by destruct Hs]. eapply books_res; [|eapply books_perm; [|exact Hb]].
    + unfold reserved. cbn [s_Serving with_Fair]. rewrite !total_cons. cbn [t_Res with_res]. lia.
    + rewrite released_places. done.
  - rewrite released_potential by done. unfold potential. cbn [sum_list_with t_Fuel with_res]. lia.
Qed.

Lemma settle_call_ok s T toks arr irp ph s' (K : TOKENS -> Prop) :
  shared_ok s (T :: toks) arr -> t_Read T = Some (irp, ph) -> K (in_phase irp Settled T) -> call_step budget params s (FairSettle irp) tt s' -> call_outcome s T toks arr s' K.
Proof.
  intros Hs Hr HK Hst. pose proof (token_res _ _ _ _ Hs) as Hres. pose proof (so_books _ _ _ Hs) as Hb. rewrite (holdings_read s T toks irp ph Hr) in Hb.
  destruct (books_settle budget _ _ _ _ _ _ _ Hb) as (fair' & l & Hse & Hb' & Hq). destruct Hst as (fair2 & l2 & Hg2 & ->). rewrite Hse in Hg2. injection Hg2 as <- <-.
  destruct (released_ok s fair' l) as [R1 R2]; [by destruct Hs|by destruct Hs|done|]. exists (in_phase irp Settled T). split_and!; [done| |].
  - apply (shared_rest s _ T); try done; [|by destruct Hs]. eapply books_perm; [|exact Hb']. rewrite released_places, (holdings_read s (in_phase irp Settled T) toks irp Settled) by done. solve_Permutation.
  - rewrite released_potential by done. unfold potential. cbn [sum_list_with t_Fuel in_phase]. lia.
Qed.

Lemma queue_work_ok s T toks arr irp b (K : TOKENS -> Prop) :
  shared_ok s (T :: toks) arr -> t_Read T = Some (irp, phase_of b) -> sane params irp -> (c_work false b <= t_Fuel T)%nat -> K (forgo (c_work false b) T) ->
  call_outcome s T toks arr (with_Fair s (s_Fair s) (s_Work s ++ [mkWork irp false (flagged s irp)])) K.
Proof.
  intros Hs Hr Hsane Hf HK. pose proof (token_res _ _ _ _ Hs) as Hres. rewrite (flagged_bool _ _ _ _ _ _ Hs Hr). exists (forgo (c_work false b) T). split_and!; [done| |].
  - apply (shared_rest s _ T); try done; [|by destruct Hs| |by destruct Hs].
    + eapply books_perm; [|exact (so_books _ _ _ Hs)]. rewrite (holdings_read s T toks irp _ Hr). unfold holdings. cbn [s_Parked s_Posted s_Work s_Fetching s_Serving with_Fair fmap list_fmap]. unfold in_hand. cbn [mbind list_bind].
      unfold token_list. cbn [t_Read forgo option_list]. rewrite fmap_app. cbn [fmap list_fmap]. change (work_holding (mkWork irp false b)) with (irp, phase_of b). solve_Permutation.
    + apply Forall_app. split; [by destruct Hs|]. by constructor.
  - unfold potential. cbn [s_Work s_Fetching s_Serving s_Posted s_Fair with_Fair sum_list_with t_Fuel forgo]. rewrite sum_list_with_app. cbn [sum_list_with w_FromDiskCache w_Admitted]. lia.
Qed.

Lemma complete_ok s T toks arr irp ph st (K : TOKENS -> Prop) :
  shared_ok s (T :: toks) arr -> t_Read T = Some (irp, ph) -> ph <> InFlight -> K (forgo 0 T) -> call_outcome s T toks arr (with_Done s ((irp, st) :: s_Done s)) K.
Proof.
  intros Hs Hr Hph HK. pose proof (token_res _ _ _ _ Hs) as Hres. exists (forgo 0 T). split_and!; [done| |unfold potential; cbn; lia].
  apply (shared_rest s _ T); try done; [|by destruct Hs..]. pose proof (so_books _ _ _ Hs) as Hb. rewrite (holdings_read s T toks irp ph Hr) in Hb. apply (books_finish _ _ ph) in Hb; done.
Qed.

Lemma update_file_ok s T toks arr irp f s' (K : TOKENS -> Prop) :
  shared_ok s (T :: toks) arr -> (forall fcb ccb, fcb_ok fcb -> exists fcb' ccb', f fcb ccb = Some (fcb', ccb') /\ fcb_ok fcb') -> K T ->
  call_step budget params s (UpdateFile irp f) tt s' -> call_outcome s T toks arr s' K.
Proof.
  intros Hs Hf HK (fcb & ccb & He & ->). destruct (Hf _ (handle_of s (p_FileObject (params (i_Id irp)))) (so_files _ _ _ Hs (i_Node irp))) as (fcb' & ccb' & He' & Hok). rewrite He in He'. injection He' as <- <-.
  exists T. split_and!; [done| |done]. destruct Hs as [S1 S2 S3 S4 S5 S6]. split; try done. intros n. unfold file_of. cbn [s_Files with_File].
  destruct (decide (n = i_Node irp)) as [->|Hne]; [by rewrite lookup_insert_eq|rewrite lookup_insert_ne by done; apply S2].
Qed.

(** Every call keeps the invariant and pays for what it leaves behind. *)
Lemma call_ok s c a s' T toks arr (K : answer c -> TOKENS -> Prop) :
  shared_ok s (T :: toks) arr -> call_pre params c T K -> call_step budget params s c a s' -> call_outcome s T toks arr s' (K a).
Proof.
  intros Hs Hpre Hst. destruct c; cbn [call_pre] in Hpre.
  - destruct Hst as [Hok ->]. apply call_same; auto.
  - cbn in Hst. subst s'. destruct Hpre. by apply oplock_ok.
  - destruct Hpre as (? & ? & Hp & Hn). eapply post_ok; try done; [by intros ->|auto].
  - destruct Hpre, a. by eapply update_file_ok.
  - destruct Hpre as (b & H1 & H2 & H3 & H4 & H5 & H6 & H7 & H8). destruct a as [started fetches]. destruct Hst as [Ho ->]. cbn [fst snd] in *.
    pose proof (offers_bound _ _ _ _ _ H3 H4 Ho) as Hb. eapply disk_read_ok; try done. destruct started; auto.
  - cbn in Hst. subst s'. destruct a. by apply call_same.
  - destruct Hpre as (H1 & H2 & H3 & H4 & H5 & H6). by eapply decide_ok.
  - destruct Hpre. by eapply reserve_call_ok.
  - destruct Hpre, a. by eapply give_back_call_ok.
  - destruct Hpre as (ph & H1 & H2), a. by eapply settle_call_ok.
  - destruct Hpre as (ph & H1 & H2). destruct Hst as [-> ->]. rewrite (flagged_phase _ _ _ _ _ _ Hs H1). by apply call_same.
  - destruct Hpre as (H1 & H2 & H3). cbn in Hst. subst s'. by apply fetch_ok.
  - destruct Hpre as (b & H1 & H2 & H3 & H4), a. cbn in Hst. subst s'. by eapply queue_work_ok.
  - cbn in Hst. subst s'. destruct a. exists T. split_and!; [done| |done]. destruct Hs as [S1 S2 S3 S4 S5 S6]. by split.
  - destruct Hst as [-> ->]. apply call_same; auto.
  - cbn in Hst. subst s'. destruct a. exists T. split_and!; [done| |done]. destruct Hs as [S1 S2 S3 S4 S5 S6]. by split.
  - destruct Hpre as [(ph & H1 & H2) H3]. cbn in Hst. subst s'. destruct a. by eapply complete_ok.
Qed.

(** And every call can be made. *)
Lemma call_can s c T toks arr (K : answer c -> TOKENS -> Prop) :
  shared_ok s (T :: toks) arr -> call_pre params c T K -> exists a s', call_step budget params s c a s'.
Proof.
  intros Hs Hpre. destruct c; cbn [call_pre call_step] in *.
  - assert (exists a, reply_ok q a) as [a Ha]; [|by exists a, s]. destruct q; cbn; try (by exists true); try (by exists 0); [by exists (mkVersion 0 0)|by exists (CcDone 0 0)|by exists (CcDone 0 0)].
  - by eexists STATUS_SUCCESS, _.
  - exists STATUS_PENDING. eexists. by left.
  - destruct Hpre as [Hf _]. destruct (Hf _ (handle_of s (p_FileObject (params (i_Id irp)))) (so_files _ _ _ Hs (i_Node irp))) as (fcb & ccb & He & _). by eexists tt, _, fcb, ccb.
  - destruct Hpre as (b & H1 & H2 & H3 & H4 & _). destruct (offers_some irp valid allowed H3 H4) as (st & f & Ho). by eexists (st, f), _.
  - by eexists tt, _.
  - destruct (_ && _); [by eexists None, _|]. destruct (fair_charge _ _ _ _) as [fair st]. by eexists (Some st), _.
  - by eexists _, _.
  - destruct Hpre as [Hn _]. pose proof (reserved_ge _ _ _ _ Hs). destruct (books_give_back budget _ _ _ _ _ fetches (so_books _ _ _ Hs)) as (fair & l & He & _); [lia|]. by eexists tt, _, fair, l.
  - destruct Hpre as (ph & Hr & _). pose proof (so_books _ _ _ Hs) as Hb. rewrite (holdings_read s T toks irp ph Hr) in Hb.
    destruct (books_settle budget _ _ _ _ _ _ _ Hb) as (fair & l & He & _). by eexists tt, _, fair, l.
  - by eexists _, _.
  - by eexists STATUS_SUCCESS, _.
  - by eexists tt, _.
  - by eexists tt, _.
  - by eexists _, _.
  - by eexists tt, _.
  - by eexists tt, _.
Qed.

(** ** The whole system *)

Definition threads_ok (threads : list (prog ())) (toks : list TOKENS) : Prop := Forall2 (fun t T => wp params t T ends) threads toks.
Definition reads_ok (s : READ_SYSTEM) (toks : list TOKENS) : Prop := threads_ok (rs_Threads s) toks /\ shared_ok (rs_Shared s) toks (rs_Arrived s).
Definition rest_of (s : READ_SYSTEM) (toks : list TOKENS) : nat := potential (rs_Shared s) toks.

(** A handler starts with the read its place held. *)
Lemma spawn_ok s s' toks arr irp ph n res :
  holdings s toks ≡ₚ (irp, ph) :: holdings s' toks -> reserved s toks = res + reserved s' toks -> 0 <= res -> s_Fair s' = s_Fair s -> s_Files s' = s_Files s -> s_Done s' = s_Done s ->
  (forall P, Forall P (s_Work s) -> Forall P (s_Work s')) -> (forall P, Forall P (s_Serving s) -> Forall P (s_Serving s')) ->
  shared_ok s toks arr -> shared_ok s' (mkTok (Some (irp, ph)) res n :: toks) arr.
Proof.
  intros Hh Hr Hres Hf Hfi Hd Hw Hv [S1 S2 S3 S4 S5 S6]. split; rewrite ?Hf, ?Hd; auto; [|intros n'; unfold file_of; rewrite Hfi; apply S2].
  eapply books_res; [|eapply books_perm; [|exact S1]]; [unfold reserved in *; rewrite total_cons; cbn [t_Res]; lia|]. rewrite Hh. unfold holdings. done.
Qed.

Lemma Forall_middle {A} (P : A -> Prop) l1 x l2 : Forall P (l1 ++ x :: l2) -> P x /\ Forall P (l1 ++ l2).
Proof. rewrite !Forall_app, Forall_cons. tauto. Qed.

Lemma held_sane_len s toks arr irp ph H : holdings s toks ≡ₚ (irp, ph) :: H -> shared_ok s toks arr -> 0 <= i_Length irp < 4294967296.
Proof. intros Hh Hs. pose proof (so_books _ _ _ Hs) as Hb. eapply books_perm in Hb; [|exact Hh]. by apply books_held_len in Hb. Qed.

(** The places with one entry taken out. *)
Lemma holdings_work s l1 w l2 toks : s_Work s = l1 ++ w :: l2 -> holdings s toks ≡ₚ work_holding w :: holdings (with_Fair s (s_Fair s) (l1 ++ l2)) toks.
Proof. intros E. unfold holdings. rewrite E. cbn [s_Work s_Fetching s_Serving s_Posted s_Parked with_Fair]. rewrite !fmap_app. cbn [fmap list_fmap]. solve_Permutation. Qed.
Lemma holdings_fetching s l1 f l2 toks : s_Fetching s = l1 ++ f :: l2 -> holdings s toks ≡ₚ fetching_holding f :: holdings (with_Fetching s (l1 ++ l2)) toks.
Proof. intros E. unfold holdings. rewrite E. cbn [s_Work s_Fetching s_Serving s_Posted s_Parked with_Fetching]. rewrite !fmap_app. cbn [fmap list_fmap]. solve_Permutation. Qed.
Lemma holdings_serving s l1 v l2 toks : s_Serving s = l1 ++ v :: l2 -> holdings s toks ≡ₚ serving_holding v :: holdings (with_Serving s (l1 ++ l2)) toks.
Proof. intros E. unfold holdings. rewrite E. cbn [s_Work s_Fetching s_Serving s_Posted s_Parked with_Serving]. rewrite !fmap_app. cbn [fmap list_fmap]. solve_Permutation. Qed.
Lemma holdings_posted s l1 irp l2 toks : s_Posted s = l1 ++ irp :: l2 -> holdings s toks ≡ₚ (irp, Fresh) :: holdings (with_Posted s (l1 ++ l2)) toks.
Proof. intros E. unfold holdings. rewrite E. cbn [s_Work s_Fetching s_Serving s_Posted s_Parked with_Posted]. rewrite !fmap_app. cbn [fmap list_fmap]. change (fresh irp) with (irp, Fresh). solve_Permutation. Qed.
Lemma holdings_parked s l1 irp l2 toks : s_Parked s = l1 ++ irp :: l2 -> holdings s toks ≡ₚ (irp, Fresh) :: holdings (with_Parked s (l1 ++ l2)) toks.
Proof. intros E. unfold holdings. rewrite E. cbn [s_Work s_Fetching s_Serving s_Posted s_Parked with_Parked]. rewrite !fmap_app. cbn [fmap list_fmap]. change (fresh irp) with (irp, Fresh). solve_Permutation. Qed.

Lemma sum_list_middle {A} (f : A -> nat) l1 x l2 : sum_list_with f (l1 ++ x :: l2) = (f x + sum_list_with f (l1 ++ l2))%nat.
Proof. rewrite !sum_list_with_app. cbn. lia. Qed.
Lemma length_middle {A} l1 (x : A) l2 : length (l1 ++ x :: l2) = S (length (l1 ++ l2)).
Proof. rewrite !length_app. cbn. lia. Qed.

Ltac places := cbn [rs_Shared s_Work s_Fetching s_Serving s_Posted s_Parked s_Fair with_Fair with_Fetching with_Serving with_Posted with_Parked sum_list_with t_Fuel].

(** The driver's steps keep the invariant and use up what was left. *)
Lemma driver_ok s s' toks :
  reads_ok s toks -> driver_step budget settings params s s' -> exists toks', reads_ok s' toks' /\ (rest_of s' toks' < rest_of s toks)%nat.
Proof.
  intros [Ht Hs] Hst. destruct Hst as [s c k a s' l1 l2 arr Hc|s l1 w l2 th arr E|s l1 irp len l2 st size buffered th arr E|s l1 v l2 st refetch th arr E|s l1 irp l2 th arr E|s l1 irp l2 th arr E];
    cbn [rs_Threads rs_Shared rs_Arrived] in *.
  - apply Forall2_app_inv_l in Ht as (k1 & k2 & H1 & H2 & ->). apply Forall2_cons_inv_l in H2 as (T & k3 & [Hf Hpre] & H3 & ->).
    eapply shared_perm in Hs; [|symmetry; apply Permutation_middle]. assert (Hs1 : shared_ok s (spend 1 T :: k1 ++ k3) arr).
    { destruct Hs as [S1 S2 S3 S4 S5 S6]. apply Forall_cons in S6 as [S6 S7]. split; try done. by constructor. }
    destruct (call_ok _ _ _ _ _ _ _ _ Hs1 Hpre Hc) as (T' & HT & Hs' & Hp). exists (k1 ++ T' :: k3). split; [split|]; cbn [rs_Threads rs_Shared rs_Arrived].
    + apply Forall2_app; [done|]. by constructor.
    + eapply shared_perm; [|exact Hs']. apply Permutation_middle.
    + unfold rest_of. cbn [rs_Shared]. rewrite (potential_perm s (k1 ++ T :: k3) (T :: k1 ++ k3)), (potential_perm s' (k1 ++ T' :: k3) (T' :: k1 ++ k3)) by (symmetry; apply Permutation_middle).
      unfold potential in *. cbn [sum_list_with t_Fuel spend] in *. lia.
  - pose proof (so_work _ _ _ Hs) as Hw. rewrite E in Hw. apply Forall_middle in Hw as [[Hsane Hd] _]. set (n := (c_work (w_FromDiskCache w) (w_Admitted w) - 1)%nat).
    exists (mkTok (Some (w_Irp w, phase_of (w_Admitted w))) 0 n :: toks). split; [split|]; cbn [rs_Threads rs_Shared rs_Arrived].
    + constructor; [|done]. apply wp_issue_released; [done|done|]. unfold n. lia.
    + eapply (spawn_ok s); try done; [by apply holdings_work|]. intros P HP. rewrite E in HP. by apply Forall_middle in HP as [_ ?].
    + unfold rest_of, potential. places. rewrite E, sum_list_middle. assert (1 <= c_work (w_FromDiskCache w) (w_Admitted w))%nat by (destruct (w_FromDiskCache w), (w_Admitted w); cbn; lia). unfold n. lia.
  - exists (mkTok (Some (irp, InFlight)) 0 10 :: toks). split; [split|]; cbn [rs_Threads rs_Shared rs_Arrived].
    + constructor; [|done]. apply wp_read_complete. lia.
    + eapply (spawn_ok s); try done. by apply (holdings_fetching s l1 (irp, len) l2).
    + unfold rest_of, potential. places. rewrite E, length_middle. unfold c_fetch. lia.
  - pose proof (so_serving _ _ _ Hs) as Hv. rewrite E in Hv. apply Forall_middle in Hv as [(Hsane & Hfe & Hz) _]. set (n := (c_serve (sv_Admitted v) - 1)%nat).
    exists (mkTok (Some (sv_Irp v, phase_of (sv_Admitted v))) (beside (sv_Fetches v)) n :: toks). split; [split|]; cbn [rs_Threads rs_Shared rs_Arrived].
    + constructor; [|done]. apply wp_disk_complete; [done|done|]. unfold n. lia.
    + eapply (spawn_ok s); try done; [by apply holdings_serving| |unfold beside; lia|].
      * unfold reserved. rewrite E, !total_app, total_cons. cbn [s_Serving with_Serving]. rewrite total_app. lia.
      * intros P HP. rewrite E in HP. by apply Forall_middle in HP as [_ ?].
    + unfold rest_of, potential. places. rewrite E, sum_list_middle. assert (1 <= c_serve (sv_Admitted v))%nat by (destruct (sv_Admitted v); cbn; lia). unfold n. lia.
  - pose proof (holdings_posted s l1 irp l2 toks E) as Hh. exists (mkTok (Some (irp, Fresh)) 0 90 :: toks). split; [split|]; cbn [rs_Threads rs_Shared rs_Arrived].
    + constructor; [|done]. apply wp_fsp_read; [by eapply held_sane_len|done|unfold c_post; lia].
    + by eapply (spawn_ok s).
    + unfold rest_of, potential. places. rewrite E, length_middle. unfold c_post. lia.
  - pose proof (holdings_posted s l1 irp l2 toks E) as Hh. exists (mkTok (Some (irp, Fresh)) 0 1 :: toks). split; [split|]; cbn [rs_Threads rs_Shared rs_Arrived].
    + constructor; [|done]. by apply wp_complete_request.
    + by eapply (spawn_ok s).
    + unfold rest_of, potential. places. rewrite E, length_middle. unfold c_post. lia.
Qed.

Lemma outside_ok s s' toks : reads_ok s toks -> outside_step settings params s s' -> exists toks', reads_ok s' toks'.
Proof.
  intros [Ht Hs] Hst. destruct Hst as [s th arr irp kind Hn Hl Hb|s l1 irp l2 th arr E|s l1 irp l2 st th arr E]; cbn [rs_Threads rs_Shared rs_Arrived] in *.
  - exists (mkTok (Some (irp, Fresh)) 0 c_arrive :: toks). split; cbn [rs_Threads rs_Shared rs_Arrived].
    + constructor; [|done]. by apply wp_read.
    + destruct Hs as [S1 S2 S3 S4 S5 S6]. split; try done; [|by constructor]. by apply books_arrive.
  - exists toks. split; [done|]. cbn [rs_Shared rs_Arrived]. destruct Hs as [S1 S2 S3 S4 S5 S6]. split; try done. eapply books_perm; [|exact S1]. rewrite (holdings_parked s l1 irp l2 toks E).
    unfold holdings. places. rewrite !fmap_app. cbn [fmap list_fmap]. change (fresh irp) with (irp, Fresh). solve_Permutation.
  - pose proof (holdings_parked s l1 irp l2 toks E) as Hh. exists (mkTok (Some (irp, Fresh)) 0 1 :: toks). split; cbn [rs_Threads rs_Shared rs_Arrived].
    + constructor; [|done]. by apply wp_complete_request.
    + by eapply (spawn_ok s).
Qed.

Lemma reads_initial_ok : reads_ok reads_initial [].
Proof.
  split; [constructor|]. assert (Hf : fair_inv (mkFairSystem (BlorgReadInit ∅ ∅) [] 0 [])) by (by apply fair_initial_inv). destruct Hf as [F1 F2 F3]. split; try by constructor.
  - split; try done; [by exists []|constructor..].
Qed.

Lemma reads_reachable_ok s : reads_reachable budget settings params s -> exists toks, reads_ok s toks.
Proof.
  intros Hr. assert (Hi : exists toks, reads_ok reads_initial toks) by (exists []; apply reads_initial_ok). unfold reads_reachable in Hr. induction Hr as [|s1 s2 s3 Hst _ IH]; [done|]. apply IH.
  destruct Hi as [toks Hi]. destruct Hst as [Hd|Ho]; [|by eapply outside_ok]. destruct (driver_ok _ _ _ Hi Hd) as (toks' & H & _). by exists toks'.
Qed.

Lemma driver_steps_bounded s s' n toks : reads_ok s toks -> nsteps (driver_step budget settings params) n s s' -> (n <= rest_of s toks)%nat.
Proof.
  intros Hok Hn. revert toks Hok. induction Hn as [|n s1 s2 s3 Hst _ IH]; intros toks Hok; [lia|]. destruct (driver_ok _ _ _ Hok Hst) as (toks' & Hok' & Hlt). specialize (IH _ Hok'). lia.
Qed.

Lemma driver_steps_ok s s' toks : reads_ok s toks -> rtc (driver_step budget settings params) s s' -> exists toks', reads_ok s' toks'.
Proof.
  intros Hok Hr. revert toks Hok. induction Hr as [|s1 s2 s3 Hst _ IH]; intros toks Hok; [by exists toks|]. destruct (driver_ok _ _ _ Hok Hst) as (toks' & Hok' & _). by eapply IH.
Qed.

(** ** Theorems *)

(** The reads in a place of their own. *)
Definition placed (s : SHARED) : list READ_IRP :=
  (w_Irp <$> s_Work s) ++ (fst <$> s_Fetching s) ++ (sv_Irp <$> s_Serving s) ++ s_Posted s ++ s_Parked s ++ queued (s_Fair s).

(** Requests out on the link: whole fetches, and those of reads the disk cache
    serves in part. *)
Definition link_requests (s : SHARED) : Z := Z.of_nat (length (s_Fetching s)) + total sv_Fetches (s_Serving s).

Lemma placed_holdings s toks : (fst <$> holdings s toks) ++ queued (s_Fair s) ≡ₚ (fst <$> in_hand toks) ++ placed s.
Proof.
  unfold holdings, placed. rewrite !fmap_app, <- !list_fmap_compose.
  change (fst ∘ fetching_holding) with (@fst READ_IRP Z). change (fst ∘ work_holding) with w_Irp. change (fst ∘ serving_holding) with sv_Irp. change (fst ∘ fresh) with (fun i : READ_IRP => i).
  rewrite !list_fmap_id. solve_Permutation.
Qed.

Lemma finished_tokens threads toks : threads_ok threads toks -> Forall (fun t => t = Ret ()) threads -> in_hand toks = [].
Proof.
  induction 1 as [|t T threads toks Hw _ IH]; [done|]. intros [-> Hf]%Forall_cons. destruct Hw as [Hr _]. unfold in_hand. cbn [mbind list_bind]. unfold token_list at 1. rewrite Hr. by apply IH.
Qed.

Lemma adm_app H1 H2 : adm (H1 ++ H2) = adm H1 ++ adm H2.
Proof. unfold adm. by rewrite List.filter_app, fmap_app. Qed.
Lemma adm_fetching l : length (adm (fetching_holding <$> l)) = length l.
Proof. induction l as [|f l IH]; [done|]. cbn [fmap list_fmap length]. unfold fetching_holding at 1. rewrite adm_cons. cbn [is_admitted app length]. by f_equal. Qed.
Lemma adm_serving l : length (adm (serving_holding <$> l)) = length (List.filter sv_Admitted l).
Proof. induction l as [|v l IH]; [done|]. cbn [fmap list_fmap List.filter]. unfold serving_holding at 1. rewrite adm_cons. destruct (sv_Admitted v); cbn [phase_of is_admitted app length]; [by f_equal|done]. Qed.

Lemma requests_le s toks arr : shared_ok s toks arr -> link_requests s <= InFlightFetches (s_Fair s).
Proof.
  intros Hs. pose proof (k_counts _ _ _ _ _ (so_books _ _ _ Hs)) as Hc. rewrite (c_fetches _ _ _ _ Hc). unfold link_requests, reserved.
  assert (0 <= total t_Res toks) by (apply total_nonneg, Forall_forall; by destruct Hs).
  assert (Hl : Z.of_nat (length (s_Fetching s)) + Z.of_nat (length (List.filter sv_Admitted (s_Serving s))) <= Z.of_nat (length (adm (holdings s toks)))).
  { unfold holdings. rewrite !adm_app, !length_app, adm_fetching, adm_serving. lia. }
  assert (Hv : total sv_Fetches (s_Serving s) <= Z.of_nat (length (List.filter sv_Admitted (s_Serving s))) + total (fun v => beside (sv_Fetches v)) (s_Serving s)).
  { destruct Hs as [_ _ _ S4 _ _]. clear -S4. induction S4 as [|v l (_ & Hf & Hz) _ IH]; [done|]. rewrite !total_cons. cbn [List.filter]. unfold beside at 1. destruct (sv_Admitted v); cbn [length]; [lia|]. specialize (Hz eq_refl). lia. }
  lia.
Qed.

(** Nothing the driver can do is nothing it still holds. *)
Lemma stuck_empty s toks :
  reads_ok s toks -> (forall s', ~ driver_step budget settings params s s') ->
  Forall (fun t => t = Ret ()) (rs_Threads s) /\ s_Work (rs_Shared s) = [] /\ s_Fetching (rs_Shared s) = [] /\ s_Serving (rs_Shared s) = [] /\ s_Posted (rs_Shared s) = [].
Proof.
  intros [Ht Hs] Hstuck. destruct s as [s threads arr]. cbn in *. split_and!.
  - apply Forall_forall. intros t Hin. apply list_elem_of_split in Hin as (l1 & l2 & ->). apply Forall2_app_inv_l in Ht as (k1 & k2 & H1 & H2 & ->).
    apply Forall2_cons_inv_l in H2 as (T & k3 & Hw & H3 & ->). destruct t as [[]|c k]; [done|]. exfalso. destruct Hw as [Hf Hpre]. eapply shared_perm in Hs; [|symmetry; apply Permutation_middle].
    assert (Hs1 : shared_ok s (spend 1 T :: k1 ++ k3) arr). { destruct Hs as [S1 S2 S3 S4 S5 S6]. apply Forall_cons in S6 as [S6 S7]. split; try done. by constructor. }
    destruct (call_can _ _ _ _ _ _ Hs1 Hpre) as (a & s' & Hc). eapply Hstuck. by apply step_call.
  - destruct (s_Work s) as [|w l] eqn:E; [done|]. exfalso. eapply Hstuck. by apply (step_work _ _ _ s [] w l).
  - destruct (s_Fetching s) as [|[i n] l] eqn:E; [done|]. exfalso. eapply Hstuck. by apply (step_fetched _ _ _ s [] i n l STATUS_SUCCESS 0 false).
  - destruct (s_Serving s) as [|v l] eqn:E; [done|]. exfalso. eapply Hstuck. by apply (step_served _ _ _ s [] v l STATUS_SUCCESS false).
  - destruct (s_Posted s) as [|i l] eqn:E; [done|]. exfalso. eapply Hstuck. by apply (step_dispatch _ _ _ s [] i l).
Qed.

Lemma idle_empty s toks :
  threads_ok (rs_Threads s) toks -> shared_ok (rs_Shared s) toks (rs_Arrived s) -> Forall (fun t => t = Ret ()) (rs_Threads s) ->
  s_Work (rs_Shared s) = [] -> s_Fetching (rs_Shared s) = [] -> s_Serving (rs_Shared s) = [] -> queued (s_Fair (rs_Shared s)) = [] /\ InFlightFetches (s_Fair (rs_Shared s)) = 0.
Proof.
  intros Ht Hs Hf Hw Hfe Hv. pose proof (finished_tokens _ _ Ht Hf) as Hn. pose proof (so_books _ _ _ Hs) as Hb.
  assert (Hr : reserved (rs_Shared s) toks = 0).
  { unfold reserved. rewrite Hv. cbn. rewrite Z.add_0_r. clear -Ht Hf. induction Ht as [|t T threads toks Hw' _ IH]; [done|]. apply Forall_cons in Hf as [-> Hf]. destruct Hw' as [_ Hr]. rewrite total_cons, Hr. by apply IH. }
  assert (Ha : adm (holdings (rs_Shared s) toks) = []).
  { unfold holdings. rewrite Hn, Hw, Hfe, Hv. cbn [fmap list_fmap app]. generalize (s_Posted (rs_Shared s)), (s_Parked (rs_Shared s)). intros l1 l2. rewrite <- fmap_app. induction (l1 ++ l2) as [|i l IH]; done. }
  pose proof (k_counts _ _ _ _ _ Hb) as Hc. pose proof (k_live _ _ _ _ _ Hb) as Hl. rewrite Ha, Hr in Hc. pose proof (c_fetches _ _ _ _ Hc) as Hin. cbn in Hin. split; [|done].
  destruct Hl as [N1 N2]. unfold queued. destruct (Waiting _) as [|w l]; [|specialize (N1 ltac:(done)); unfold READ_FAIR_MAX_FETCHES in N1; lia].
  destruct (Held _) as [|h l]; [done|]. destruct (N2 h ltac:(left)) as [?|Hp]; [unfold READ_FAIR_MAX_FETCHES in *; lia|]. rewrite (c_nodes _ _ _ _ Hc) in Hp. done.
Qed.

(** C2: However the handlers interleave, every read the driver was
    given is in exactly one place: with one handler under way, in one queue or
    with one component, or completed; none is lost and none is completed
    twice. *)
Theorem reads_in_one_place s :
  reads_reachable budget settings params s ->
  exists held, rs_Arrived s ≡ₚ held ++ placed (rs_Shared s) ++ (fst <$> s_Done (rs_Shared s)) /\ NoDup (i_Id <$> held ++ placed (rs_Shared s) ++ (fst <$> s_Done (rs_Shared s))) /\
    (Forall (fun t => t = Ret ()) (rs_Threads s) -> held = []).
Proof.
  intros Hr. destruct (reads_reachable_ok _ Hr) as (toks & Ht & Hs). pose proof (so_books _ _ _ Hs) as Hb. exists (fst <$> in_hand toks).
  assert (Hp : rs_Arrived s ≡ₚ (fst <$> in_hand toks) ++ placed (rs_Shared s) ++ (fst <$> s_Done (rs_Shared s))).
  { rewrite (k_all _ _ _ _ _ Hb), (app_assoc _ (queued _)), placed_holdings. by rewrite <- app_assoc. }
  split_and!; [done| |].
  - rewrite <- Hp. apply (k_ids _ _ _ _ _ Hb).
  - intros Hf. by rewrite (finished_tokens _ _ Ht Hf).
Qed.

(** C5: However many reads arrive and however they interleave, the
    requests out on the link, the extra fetches of reads the disk cache serves
    in part included, never exceed [READ_FAIR_MAX_FETCHES]. *)
Theorem link_limit s : reads_reachable budget settings params s -> link_requests (rs_Shared s) <= READ_FAIR_MAX_FETCHES.
Proof.
  intros Hr. destruct (reads_reachable_ok _ Hr) as (toks & Ht & Hs). pose proof (requests_le _ _ _ Hs). pose proof (c_limit _ _ _ _ (k_counts _ _ _ _ _ (so_books _ _ _ Hs))). lia.
Qed.

(** C3: From any reachable state the driver's own steps come
    to an end, whatever the kernel, the network and the disk answer; and where
    none is left, every read that arrived has been completed exactly once or
    is with the oplock package, the fair share's queues are empty and nothing
    is counted in flight. *)
Theorem reads_all_finish s :
  reads_reachable budget settings params s ->
  (exists bound, forall n s', nsteps (driver_step budget settings params) n s s' -> (n <= bound)%nat) /\
  forall s', rtc (driver_step budget settings params) s s' -> (forall s'', ~ driver_step budget settings params s' s'') ->
    rs_Arrived s' ≡ₚ s_Parked (rs_Shared s') ++ (fst <$> s_Done (rs_Shared s')) /\ NoDup (i_Id <$> rs_Arrived s') /\
    placed (rs_Shared s') = s_Parked (rs_Shared s') /\ InFlightFetches (s_Fair (rs_Shared s')) = 0.
Proof.
  intros Hr. destruct (reads_reachable_ok _ Hr) as (toks & Hok). split; [exists (rest_of s toks); intros n s'; by apply driver_steps_bounded|]. intros s' Hs' Hstuck.
  destruct (driver_steps_ok _ _ _ Hok Hs') as (toks' & Hok'). destruct (stuck_empty _ _ Hok' Hstuck) as (H1 & H2 & H3 & H4 & H5). destruct Hok' as [Ht Hs].
  destruct (idle_empty _ _ Ht Hs H1 H2 H3 H4) as [Hq Hin]. pose proof (so_books _ _ _ Hs) as Hb.
  assert (Hpl : placed (rs_Shared s') = s_Parked (rs_Shared s')) by (unfold placed; rewrite H2, H3, H4, H5, Hq; cbn; by rewrite app_nil_r).
  split_and!; [|apply (k_ids _ _ _ _ _ Hb)|done|done].
  rewrite (k_all _ _ _ _ _ Hb), (app_assoc _ (queued _)), placed_holdings, (finished_tokens _ _ Ht H1), Hpl. done.
Qed.
End Invariant.

(** ** A demonstration

    A paging read of a page arrives at an empty driver and is fetched. *)

Definition demo_params (i : Z) : READ_PARAMS := mkParams 0 true true false false true NodeFcb 7 false.
Definition demo_irp : READ_IRP := mkIrp 1 1 4096.

Lemma reach_call {service : DiskCacheService} budget settings params s c k a s' arr :
  reads_reachable budget settings params (mkReads s [Call c k] arr) -> call_step budget params s c a s' -> reads_reachable budget settings params (mkReads s' [k a] arr).
Proof. intros Hr Hc. eapply rtc_r; [exact Hr|]. left. exact (step_call _ _ _ s c k a s' [] [] arr Hc). Qed.

Lemma demo_offer : offers demo_irp 4096 0 false 0.
Proof.
  exists demo_file, demo_cache, 1, [[0; DISK_CACHE_NO_SLOT]], demo_key, None, 0, 0, true, true, (fun _ => Started), demo_cache, None.
  split_and!; [exact demo_cache_ok|done|done|done|done|done| |reflexivity|done]. intros k st H. discriminate H.
Qed.

Lemma demo_reads : exists s, reads_reachable READ_FAIR_BUDGET default_config demo_params s /\ s_Fetching (rs_Shared s) = [(demo_irp, 4096)] /\ rs_Arrived s = [demo_irp].
Proof.
  assert (H : reads_reachable READ_FAIR_BUDGET default_config demo_params (mkReads (rs_Shared reads_initial) [BlorgRead default_config demo_params BlorgDeviceVolume demo_irp] [demo_irp])).
  { apply rtc_once. right. apply (step_arrive default_config demo_params (rs_Shared reads_initial) [] [] demo_irp BlorgDeviceVolume); [by intros ?%elem_of_nil|cbn; lia|cbn; lia]. }
  eapply (reach_call _ _ _ _ (Ask AskSnapshot) _ (mkVersion 4096 0)) in H; [|split; [done|reflexivity]].
  eapply (reach_call _ _ _ _ (Ask AskPassive) _ true) in H; [|split; [done|reflexivity]].
  eapply (reach_call _ _ _ _ (UpdateFile demo_irp _) _ tt) in H; [|eexists _, _; split; reflexivity].
  eapply (reach_call _ _ _ _ (DiskCacheRead demo_irp _ _) _ (false, 0)) in H; [|split; [exact demo_offer|reflexivity]].
  eapply (reach_call _ _ _ _ (FairDecide demo_irp _ _) _ (Some STATUS_SUCCESS)) in H; [|split; reflexivity].
  eapply (reach_call _ _ _ _ (Fetch demo_irp _) _ STATUS_PENDING) in H; [|reflexivity].
  eexists. split; [exact H|]. split; reflexivity.
Qed.

Lemma demo_offsets i : p_ByteOffset (demo_params i) <= MAXLONG64.
Proof. cbn. unfold MAXLONG64. lia. Qed.

Lemma reads_in_one_place_witness :
  exists s held, rs_Arrived s = [demo_irp] /\ rs_Arrived s ≡ₚ held ++ placed (rs_Shared s) ++ (fst <$> s_Done (rs_Shared s)).
Proof.
  destruct demo_reads as (s & Hr & Hf & Ha). destruct (reads_in_one_place READ_FAIR_BUDGET default_config demo_params demo_offsets s Hr) as (held & Hp & _). by exists s, held.
Defined.

Lemma link_limit_witness : exists s, s_Fetching (rs_Shared s) = [(demo_irp, 4096)] /\ link_requests (rs_Shared s) <= READ_FAIR_MAX_FETCHES.
Proof.
  destruct demo_reads as (s & Hr & Hf & Ha). exists s. split; [exact Hf|]. exact (link_limit READ_FAIR_BUDGET default_config demo_params demo_offsets s Hr).
Defined.

Lemma reads_all_finish_witness :
  exists s, s_Fetching (rs_Shared s) = [(demo_irp, 4096)] /\
    exists bound, forall n s', nsteps (driver_step READ_FAIR_BUDGET default_config demo_params) n s s' -> (n <= bound)%nat.
Proof.
  destruct demo_reads as (s & Hr & Hf & Ha). exists s. split; [exact Hf|]. exact (proj1 (reads_all_finish READ_FAIR_BUDGET default_config demo_params demo_offsets s Hr)).
Defined.
