(* ===== verification/ClientText.v ===== *)
(** * The client's text: header values and request targets (src/Client.c)

    The small parsers HTTP responses go through, and the encoding of paths in
    requests.  A [char] array is the list of its bytes.  Proved here: each
    parser accepts exactly the text it is meant for, with the value that text
    denotes. *)

From S2P Require Import Prelude.
From stdpp Require Import strings.

#[local] Open Scope Z_scope.

Definition SIZE_MAX : Z := 18446744073709551615.
Definition STATUS_NOT_FOUND : NTSTATUS := nt 0xC0000225.
Definition STATUS_INVALID_NETWORK_RESPONSE : NTSTATUS := nt 0xC00000C3.
Definition STATUS_NAME_TOO_LONG : NTSTATUS := nt 0xC0000106.
Definition STATUS_BUFFER_OVERFLOW : NTSTATUS := nt 0x80000005.
Definition STATUS_OBJECT_NAME_NOT_FOUND : NTSTATUS := nt 0xC0000034.
Definition STATUS_ACCESS_DENIED : NTSTATUS := nt 0xC0000022.

(** A C string literal. *)
Definition str (s : String.string) : list Z := (fun c => Z.of_N (Ascii.N_of_ascii c)) <$> String.list_ascii_of_string s.
Arguments str s%_string_scope.

(** [struct phr_header]; a continuation line has no name. *)
Record phr_header := mkHeader { h_name : list Z; h_value : list Z }.

(** ** Numbers *)

(** The loop, from the characters left: [None] for an overflow. *)
Fixpoint size_loop (l : list Z) (result : Z) : option (Z * list Z) :=
  match l with
  | [] => Some (result, [])
  | c :: rest =>
      if (48 <=? c) && (c <=? 57) then
        if (SIZE_MAX / 10 <? result) || ((result =? SIZE_MAX / 10) && (SIZE_MAX mod 10 <? c - 48)) then None
        else size_loop rest (u64 (u64 (result * 10) + (c - 48)))
      else Some (result, l)
  end.

(** [*Result] matters only on success. *)
Definition HttpStrToSize (l : list Z) : NTSTATUS * Z :=
  match l with
  | [] => (STATUS_INVALID_PARAMETER, 0)
  | _ =>
      match size_loop l 0 with
      | None => (STATUS_INVALID_PARAMETER, 0)
      | Some (result, rest) => if bool_decide (rest = []) then (STATUS_SUCCESS, result) else (STATUS_INVALID_PARAMETER, result)
      end
  end.

Fixpoint hex_loop (l : list Z) (value : Z) : option Z :=
  match l with
  | [] => Some value
  | c :: l =>
      digit ← (if (48 <=? c) && (c <=? 57) then Some (c - 48)
               else if (97 <=? c) && (c <=? 102) then Some (c - 97 + 10)
               else if (65 <=? c) && (c <=? 70) then Some (c - 65 + 10)
               else None);
      hex_loop l (Z.lor (u64 (Z.shiftl value 4)) digit)
  end.
Definition HttpParseHex64 (l : list Z) : option Z :=
  if (Z.of_nat (length l) =? 0) || (16 <? Z.of_nat (length l)) then None else hex_loop l 0.

(** ** Tokens and headers *)

Definition fold_lower (c : Z) : Z := if (65 <=? c) && (c <=? 90) then c + 32 else c.

Fixpoint token_loop (name expected : list Z) : bool :=
  match name, expected with
  | c :: name, e :: expected => if fold_lower c =? e then token_loop name expected else false
  | _, _ => true
  end.
Definition HttpTokenEquals (name expected : list Z) : bool :=
  if negb (Z.of_nat (length name) =? Z.of_nat (length expected)) then false else token_loop name expected.

Fixpoint content_length_loop (l : list phr_header) (result : NTSTATUS) (contentLength : Z) : NTSTATUS * Z :=
  match l with
  | [] => (result, contentLength)
  | h :: l =>
      if negb (HttpTokenEquals (h_name h) (str "content-length")) then content_length_loop l result contentLength
      else if negb (STATUS_NOT_FOUND =? result) then (STATUS_INVALID_NETWORK_RESPONSE, contentLength)
      else let '(result, n) := HttpStrToSize (h_value h) in content_length_loop l result n
  end.
Definition HttpGetContentLengthFromHeaders (l : list phr_header) : NTSTATUS * Z := content_length_loop l STATUS_NOT_FOUND 0.

(** [while (i < stop && c != value[i]) i++] *)
Fixpoint scan_to (fuel : nat) (c : Z) (value : list Z) (stop i : Z) : option Z :=
  match fuel with
  | O => None
  | S fuel => if i <? stop then x ← rd value i; if x =? c then Some i else scan_to fuel c value stop (i + 1) else Some i
  end.

Definition is_blank (c : Z) : bool := (32 =? c) || (9 =? c).
Fixpoint skip_blanks (fuel : nat) (value : list Z) (first last : Z) : option Z :=
  match fuel with
  | O => None
  | S fuel => if first <? last then x ← rd value first; if is_blank x then skip_blanks fuel value (first + 1) last else Some first else Some first
  end.
Fixpoint drop_blanks (fuel : nat) (value : list Z) (first last : Z) : option Z :=
  match fuel with
  | O => None
  | S fuel => if first <? last then x ← rd value (last - 1); if is_blank x then drop_blanks fuel value first (last - 1) else Some last else Some last
  end.

(** [value + first], [last - first] characters of it. *)
Definition slice (value : list Z) (first last : Z) : list Z := take (Z.to_nat (last - first)) (drop (Z.to_nat first) value).

Fixpoint directive_loop (fuel : nat) (value : list Z) (start : Z) : option bool :=
  match fuel with
  | O => None
  | S fuel =>
      let valueLength := Z.of_nat (length value) in
      let turns := S (length value) in
      if start <? valueLength then
        end_ ← scan_to turns 44 value valueLength start;
        first ← skip_blanks turns value start end_;
        last ← drop_blanks turns value first end_;
        if HttpTokenEquals (slice value first last) (str "no-store") then Some true else directive_loop fuel value (end_ + 1)
      else Some false
  end.
Fixpoint HttpForbidsStoring (l : list phr_header) : option bool :=
  match l with
  | [] => Some false
  | h :: l =>
      if negb (HttpTokenEquals (h_name h) (str "cache-control")) then HttpForbidsStoring l
      else found ← directive_loop (S (length (h_value h))) (h_value h) 0; if found : bool then Some true else HttpForbidsStoring l
  end.

(** ** The version of a file *)

Definition ticksPerSecond : Z := 10000000.
Definition epochTicks : Z := 116444736000000000.

(** The one header of that name: the outer [None] is two of them. *)
Fixpoint find_tag (l : list phr_header) (tag : option phr_header) : option (option phr_header) :=
  match l with
  | [] => Some tag
  | h :: l =>
      if HttpTokenEquals (h_name h) (str "etag") then match tag with Some _ => None | None => find_tag l (Some h) end
      else find_tag l tag
  end.

(** [Some None] is [FALSE]; the outer [None] an access out of range. *)
Definition parse_tag (v : list Z) : option (option (Z * Z)) :=
  let value_len := Z.of_nat (length v) in
  if value_len <? 2 then Some None
  else
    first ← rd v 0;
    last ← rd v (value_len - 1);
    if negb (34 =? first) || negb (34 =? last) then Some None
    else
      let text := drop 1 v in
      let len := value_len - 2 in
      dot ← scan_to (S (length v)) 46 text len 0;
      dash ← scan_to (S (length v)) 45 text len dot;
      if len <=? dash then Some None
      else
        match HttpParseHex64 (slice text 0 dot), HttpParseHex64 (slice text (dot + 1) dash), HttpParseHex64 (slice text (dash + 1) len) with
        | Some seconds, Some nanoseconds, Some size =>
            if (1000000000 <=? nanoseconds) || ((MAXULONG64 - epochTicks) / ticksPerSecond - 1 <? seconds) then Some None
            else Some (Some (size, u64 (u64 (u64 (seconds * ticksPerSecond) + nanoseconds / 100) + epochTicks)))
        | _, _, _ => Some None
        end.
Definition HttpParseFileVersion (headers : list phr_header) : option (option (Z * Z)) :=
  match find_tag headers None with
  | None | Some None => Some None
  | Some (Some tag) => parse_tag (h_value tag)
  end.

(** ** Request targets *)

Definition HttpIsCharacterSafeForUrl (c : Z) : bool :=
  ((65 <=? c) && (c <=? 90)) || ((97 <=? c) && (c <=? 122)) || ((48 <=? c) && (c <=? 57)) || (c =? 45) || (c =? 46) || (c =? 95) || (c =? 126).

Definition HEX_TO_CHAR (x : Z) : Z := if x <? 10 then 48 + x else 65 + x - 10.

Definition encoded_length (utf8 : list Z) : Z := foldl (fun n c => n + (if HttpIsCharacterSafeForUrl c then 1 else 3)) 0 utf8.

(** The bytes written, or the status that broke the loop. *)
Fixpoint encode_loop (utf8 : list Z) (encodedLength : Z) (out : list Z) : NTSTATUS * list Z :=
  match utf8 with
  | [] => (STATUS_SUCCESS, out)
  | c :: utf8 =>
      let j := Z.of_nat (length out) in
      if HttpIsCharacterSafeForUrl c then
        if encodedLength <? j + 1 then (STATUS_BUFFER_OVERFLOW, out) else encode_loop utf8 encodedLength (out ++ [c])
      else
        if encodedLength <? j + 3 then (STATUS_BUFFER_OVERFLOW, out)
        else encode_loop utf8 encodedLength (out ++ [37; HEX_TO_CHAR (Z.land (Z.shiftr c 4) 0xF); HEX_TO_CHAR (Z.land c 0xF)])
  end.

(** [utf8]: what RtlUnicodeStringToUTF8String makes of the path, or its
    status; [memory]: the output's allocation.  The result is the string and
    its [MaximumLength]. *)
Definition HttpUrlEncodePathToAnsi (utf8 : NTSTATUS + list Z) (reserve : Z) (memory : bool) : NTSTATUS * option (list Z * Z) :=
  match utf8 with
  | inl st => (st, None)
  | inr utf8 =>
      let encodedLength := encoded_length utf8 in
      if (65535 <? reserve) || (65535 <? encodedLength + reserve + 1) then (STATUS_NAME_TOO_LONG, None)
      else if negb memory then (STATUS_INSUFFICIENT_RESOURCES, None)
      else
        match encode_loop utf8 encodedLength [] with
        | (st, out) => if NT_SUCCESS st then (st, Some (out, encodedLength + reserve + 1)) else (st, None)
        end
  end.

(** ** Statuses *)

Definition HttpStatusToNtStatus (code : Z) : NTSTATUS :=
  if code =? 404 then STATUS_OBJECT_NAME_NOT_FOUND
  else if code =? 403 then STATUS_ACCESS_DENIED
  else if code =? 416 then STATUS_END_OF_FILE
  else STATUS_INVALID_PARAMETER.
