(* ===== verification/ClientTextTheorems.v ===== *)
(** * The client's text parsers accept exactly their texts

    Reference definitions of the texts (decimal and hexadecimal numerals, the
    comma-separated directives of a Cache-Control header, percent-encoding),
    and the parsers and the encoder of [ClientText] against them. *)

From S2P Require Import Prelude ClientText.
From stdpp Require Import strings.

#[local] Open Scope Z_scope.

(** ** Decimal lengths *)

(** The overflow test of the loop: the next value would not fit. *)
Lemma size_guard n d :
  0 <= n -> 0 <= d <= 9 ->
  (SIZE_MAX / 10 <? n) || ((n =? SIZE_MAX / 10) && (SIZE_MAX mod 10 <? d)) = (SIZE_MAX <? n * 10 + d).
Proof.
  intros. change (SIZE_MAX / 10) with 1844674407370955161. change (SIZE_MAX mod 10) with 5. unfold SIZE_MAX.
  bool_cases; done || lia.
Qed.

Lemma size_loop_digits l n :
  0 <= n -> Forall is_digit l -> size_loop l n = if SIZE_MAX <? decimal_from n l then (if bool_decide (l = []) then Some (n, []) else None) else Some (decimal_from n l, []).
Proof.
  revert n. induction l as [|c l IH]; intros n Hn Hl; [by cbn; case_match|].
  apply Forall_cons in Hl as [Hc Hl]. unfold is_digit in Hc. rewrite decimal_from_cons. cbn [size_loop].
  rewrite (proj2 (Z.leb_le 48 c)), (proj2 (Z.leb_le c 57)) by lia. cbn [andb].
  rewrite size_guard by lia. destruct (Z.ltb_spec SIZE_MAX (n * 10 + (c - 48))) as [Hbig|Hfit].
  { pose proof (decimal_grows l (n * 10 + (c - 48)) ltac:(lia) Hl).
    rewrite (proj2 (Z.ltb_lt _ _)) by lia. by rewrite bool_decide_false. }
  unfold SIZE_MAX in Hfit. rewrite !u64_id by (rewrite ?u64_id; lia). rewrite IH by (lia || done).
  rewrite (bool_decide_false (c :: l = [])) by done. destruct (Z.ltb_spec SIZE_MAX (decimal_from (n * 10 + (c - 48)) l)) as [Hbig|]; [|done].
  case_bool_decide; [subst; cbn in Hbig; unfold SIZE_MAX in *; lia|done].
Qed.

Lemma size_loop_stops l n r : size_loop l n = Some (r, []) -> Forall is_digit l.
Proof.
  revert n. induction l as [|c l IH]; intros n; cbn [size_loop]; [done|].
  destruct (Z.leb_spec 48 c), (Z.leb_spec c 57); cbn [andb]; try done.
  case_match; [done|]. intros HL%IH. constructor; [split; lia|done].
Qed.

Definition names_size (l : list Z) (n : Z) : Prop := l <> [] /\ Forall is_digit l /\ decimal l = n /\ n <= SIZE_MAX.

Lemma str_to_size l n : HttpStrToSize l = (STATUS_SUCCESS, n) <-> names_size l n.
Proof.
  unfold HttpStrToSize, names_size. destruct l as [|c l]; [by split; [intros [=]|intros (? & ?)]|].
  split.
  - destruct (size_loop (c :: l) 0) as [[r rest]|] eqn:E; [|by intros [=]].
    case_bool_decide as Hrest; [|by intros [=]]. intros [= <-]. subst rest.
    pose proof (size_loop_stops _ _ _ E) as Hd. rewrite size_loop_digits in E by (done || lia).
    destruct (Z.ltb_spec SIZE_MAX (decimal_from 0 (c :: l))); [by rewrite bool_decide_false in E|].
    injection E as <-. done.
  - intros (_ & Hd & Hn & Hmax). rewrite size_loop_digits by (done || lia). fold (decimal (c :: l)). rewrite Hn.
    destruct (Z.ltb_spec SIZE_MAX n); [lia|]. by rewrite bool_decide_true.
Qed.

(** ** Names *)

Lemma token_equals name expected : HttpTokenEquals name expected = bool_decide (fold_lower <$> name = expected).
Proof.
  unfold HttpTokenEquals. destruct (Z.eqb_spec (Z.of_nat (length name)) (Z.of_nat (length expected))) as [Hlen|Hlen]; cbn [negb].
  2: { symmetry. apply bool_decide_false. intros <-. rewrite length_fmap in Hlen. done. }
  apply Nat2Z.inj in Hlen. revert expected Hlen. induction name as [|c name IH]; intros [|e expected] Hlen; try done.
  cbn [token_loop fmap list_fmap]. rewrite IH by (injection Hlen; done).
  destruct (Z.eqb_spec (fold_lower c) e) as [->|Hne].
  - apply bool_decide_ext. naive_solver.
  - symmetry. apply bool_decide_false. naive_solver.
Qed.

(** The values of the headers of a (lower-case) name, whatever their case. *)
Definition values_of (name : list Z) (headers : list phr_header) : list (list Z) :=
  h_value <$> filter (fun h => fold_lower <$> h_name h = name) headers.

Lemma values_of_cons name h headers :
  values_of name (h :: headers) = if HttpTokenEquals (h_name h) name then h_value h :: values_of name headers else values_of name headers.
Proof. unfold values_of. rewrite filter_cons, token_equals. by case_decide; [rewrite bool_decide_true|rewrite bool_decide_false]. Qed.

Lemma content_length_late headers st n :
  st <> STATUS_NOT_FOUND ->
  content_length_loop headers st n =
  if decide (values_of (str "content-length") headers = []) then (st, n) else (STATUS_INVALID_NETWORK_RESPONSE, n).
Proof.
  intros Hst. induction headers as [|h headers IH]; [done|]. cbn [content_length_loop]. rewrite values_of_cons.
  destruct (HttpTokenEquals (h_name h) _); cbn [negb]; [|done]. rewrite (proj2 (Z.eqb_neq _ _)) by done. cbn [negb]. by rewrite decide_False.
Qed.

Lemma content_length_loop_values headers n :
  content_length_loop headers STATUS_NOT_FOUND n =
  match values_of (str "content-length") headers with
  | [] => (STATUS_NOT_FOUND, n)
  | [v] => HttpStrToSize v
  | v :: _ => (STATUS_INVALID_NETWORK_RESPONSE, snd (HttpStrToSize v))
  end.
Proof.
  induction headers as [|h headers IH]; [done|]. cbn [content_length_loop]. rewrite values_of_cons.
  destruct (HttpTokenEquals (h_name h) _); cbn [negb]; [|done]. rewrite Z.eqb_refl. cbn [negb].
  destruct (HttpStrToSize (h_value h)) as [st m] eqn:E. rewrite content_length_late.
  2: { unfold HttpStrToSize in E. repeat case_match; simplify_eq; done. }
  destruct (values_of _ headers) eqn:V; [by rewrite decide_True|]. by rewrite decide_False.
Qed.

(** A response has a length exactly when one of its headers, and only
    one, is named Content-Length (in any case) and its value is a non-empty
    string of digits whose number fits a [SIZE_T]: that number is the length,
    with no wrap.  A second such header is always an error, and without any
    the status says so. *)
Theorem content_length_exact headers :
  (forall n, HttpGetContentLengthFromHeaders headers = (STATUS_SUCCESS, n) <->
             exists v, values_of (str "content-length") headers = [v] /\ names_size v n) /\
  (fst (HttpGetContentLengthFromHeaders headers) = STATUS_NOT_FOUND <-> values_of (str "content-length") headers = []) /\
  (fst (HttpGetContentLengthFromHeaders headers) = STATUS_INVALID_NETWORK_RESPONSE <->
   (1 < length (values_of (str "content-length") headers))%nat).
Proof.
  unfold HttpGetContentLengthFromHeaders. rewrite content_length_loop_values.
  assert (Hst : forall v, fst (HttpStrToSize v) = STATUS_SUCCESS \/ fst (HttpStrToSize v) = STATUS_INVALID_PARAMETER).
  { intros v. unfold HttpStrToSize. repeat case_match; auto. }
  destruct (values_of _ headers) as [|v [|w l]]; cbn [fst length].
  - split_and!; [intros n; split; [intros [=]|intros (v & [=] & _)]|done|split; [intros [=]|lia]].
  - split_and!; [|split; [|done]; intros E; by destruct (Hst v) as [Hs|Hs]; rewrite Hs in E|split; [|lia]; intros E; by destruct (Hst v) as [Hs|Hs]; rewrite Hs in E].
    intros n. rewrite str_to_size. split; [by exists v|intros (? & [= ->] & ?); done].
  - split_and!; [intros n; split; [intros [=]|intros (? & [=] & _)]|done|split; [lia|done]].
Qed.

(** ** Pieces of a text *)

Section Slices.
Implicit Types (l : list Z) (i j : Z).

Lemma slice_step l i j x : 0 <= i < j -> rd l i = Some x -> slice l i j = x :: slice l (i + 1) j.
Proof.
  intros Hij Hx. unfold rd in Hx. rewrite (proj2 (Z.leb_le 0 i)) in Hx by lia. unfold slice.
  rewrite (drop_S l x (Z.to_nat i)) by done. replace (Z.to_nat (j - i)) with (S (Z.to_nat (j - (i + 1)))) by lia.
  cbn [take]. do 3 f_equal. lia.
Qed.

Lemma slice_last l i j x : 0 <= i < j -> rd l (j - 1) = Some x -> slice l i j = slice l i (j - 1) ++ [x].
Proof.
  intros Hij Hx. unfold rd in Hx. rewrite (proj2 (Z.leb_le 0 (j - 1))) in Hx by lia. unfold slice.
  replace (Z.to_nat (j - i)) with (S (Z.to_nat (j - 1 - i))) by lia. apply take_S_r.
  rewrite lookup_drop. rewrite <- Hx. f_equal. lia.
Qed.

Lemma slice_empty l i j : j <= i -> slice l i j = [].
Proof. intros. unfold slice. by replace (Z.to_nat (j - i)) with 0%nat by lia. Qed.

Lemma slice_whole l i j : Z.of_nat (length l) <= j -> slice l i j = drop (Z.to_nat i) l.
Proof. intros. unfold slice. apply take_ge. rewrite length_drop. lia. Qed.

Lemma length_slice l i j : 0 <= i <= j -> j <= Z.of_nat (length l) -> Z.of_nat (length (slice l i j)) = j - i.
Proof. intros. unfold slice. rewrite length_take, length_drop. lia. Qed.

Lemma slice_at l1 l2 l3 i j :
  i = Z.of_nat (length l1) -> j = i + Z.of_nat (length l2) -> slice (l1 ++ l2 ++ l3) i j = l2.
Proof.
  intros -> ->. unfold slice. rewrite Nat2Z.id, drop_app_length.
  replace (Z.to_nat _) with (length l2) by lia. apply take_app_length.
Qed.
End Slices.

(** What comes before the first [c]. *)
Fixpoint before (c : Z) (l : list Z) : list Z :=
  match l with [] => [] | x :: l => if decide (x = c) then [] else x :: before c l end.

Lemma before_split c l : exists rest, l = before c l ++ rest /\ (rest = [] \/ exists rest', rest = c :: rest').
Proof.
  induction l as [|x l (rest & E & H)]; [exists []; auto|]. cbn [before]. case_decide as Hx.
  - subst. exists (c :: l). split; [done|]. right. by exists l.
  - exists rest. cbn. by rewrite <- E.
Qed.

Lemma before_at c l l' : c ∉ l -> before c (l ++ c :: l') = l.
Proof.
  induction l as [|x l IH]; intros H; cbn [before app]; [by rewrite decide_True|].
  rewrite not_elem_of_cons in H. rewrite decide_False by naive_solver. f_equal. naive_solver.
Qed.

Lemma before_not_elem c l : c ∉ before c l.
Proof. induction l as [|x l IH]; cbn [before]; [set_solver|]. case_decide; set_solver. Qed.

Lemma scan_before c value stop fuel i :
  0 <= i <= stop -> stop <= Z.of_nat (length value) -> stop - i < Z.of_nat fuel ->
  scan_to fuel c value stop i = Some (i + Z.of_nat (length (before c (slice value i stop)))).
Proof.
  revert i. induction fuel as [|fuel IH]; intros i Hi Hs Hf; [lia|]. cbn [scan_to].
  destruct (Z.ltb_spec i stop) as [Hlt|Hge].
  2: { rewrite slice_empty by lia. cbn. f_equal. lia. }
  destruct (rd_in_range value i) as [x Hx]; [lia|]. rewrite Hx. cbn [mbind option_bind].
  rewrite (slice_step _ _ _ x) by done || lia. cbn [before].
  destruct (Z.eqb_spec x c) as [->|Hne]; [rewrite decide_True by done; cbn; f_equal; lia|].
  rewrite decide_False by done. rewrite IH by lia. cbn [length]. f_equal. lia.
Qed.

(** ** Cache-Control directives *)

Fixpoint ltrim (l : list Z) : list Z := match l with x :: l' => if is_blank x then ltrim l' else l | [] => [] end.
Definition rtrim (l : list Z) : list Z := reverse (ltrim (reverse l)).
Definition trimmed (l : list Z) : list Z := rtrim (ltrim l).

Lemma rtrim_snoc l x : rtrim (l ++ [x]) = if is_blank x then rtrim l else l ++ [x].
Proof. unfold rtrim. rewrite reverse_snoc. cbn [ltrim]. case_match; [done|]. by rewrite reverse_cons, reverse_involutive. Qed.

Lemma skip_blanks_trim value stop fuel i :
  0 <= i <= stop -> stop <= Z.of_nat (length value) -> stop - i < Z.of_nat fuel ->
  exists j, skip_blanks fuel value i stop = Some j /\ i <= j <= stop /\ slice value j stop = ltrim (slice value i stop).
Proof.
  revert i. induction fuel as [|fuel IH]; intros i Hi Hs Hf; [lia|]. cbn [skip_blanks].
  destruct (Z.ltb_spec i stop) as [Hlt|Hge].
  2: { exists i. rewrite slice_empty by lia. split_and!; done || lia. }
  destruct (rd_in_range value i) as [x Hx]; [lia|]. rewrite Hx. cbn [mbind option_bind].
  rewrite (slice_step _ i _ x) by done || lia. cbn [ltrim]. destruct (is_blank x).
  - destruct (IH (i + 1)) as (j & Hj & ? & E); [lia..|]. exists j. split_and!; done || lia.
  - exists i. split_and!; [done|lia..|]. by apply slice_step; [lia|].
Qed.

Lemma drop_blanks_trim value first fuel last :
  0 <= first <= last -> last <= Z.of_nat (length value) -> last - first < Z.of_nat fuel ->
  exists j, drop_blanks fuel value first last = Some j /\ first <= j <= last /\ slice value first j = rtrim (slice value first last).
Proof.
  revert last. induction fuel as [|fuel IH]; intros last Hi Hs Hf; [lia|]. cbn [drop_blanks].
  destruct (Z.ltb_spec first last) as [Hlt|Hge].
  2: { exists last. rewrite slice_empty by lia. split_and!; done || lia. }
  destruct (rd_in_range value (last - 1)) as [x Hx]; [lia|]. rewrite Hx. cbn [mbind option_bind].
  rewrite (slice_last _ _ last x), rtrim_snoc by done || lia. destruct (is_blank x).
  - destruct (IH (last - 1)) as (j & Hj & ? & E); [lia..|]. exists j. split_and!; done || lia.
  - exists last. split_and!; [done|lia..|]. by apply slice_last; [lia|].
Qed.

(** The value cut at its commas. *)
Fixpoint directives (l : list Z) : list (list Z) :=
  match l with
  | [] => [[]]
  | c :: l => if decide (c = 44) then [] :: directives l else match directives l with d :: ds => (c :: d) :: ds | [] => [[c]] end
  end.

Lemma directives_none l : 44 ∉ l -> directives l = [l].
Proof. induction l as [|c l IH]; intros H; [done|]. rewrite not_elem_of_cons in H. cbn. rewrite decide_False by naive_solver. by rewrite IH by naive_solver. Qed.

Lemma directives_comma l l' : 44 ∉ l -> directives (l ++ 44 :: l') = l :: directives l'.
Proof.
  induction l as [|c l IH]; intros H; cbn [app directives]; [by rewrite decide_True|].
  rewrite not_elem_of_cons in H. rewrite decide_False by naive_solver. by rewrite IH by naive_solver.
Qed.

Definition is_no_store (d : list Z) : bool := bool_decide (fold_lower <$> trimmed d = str "no-store").

Lemma directive_turn value start stop :
  0 <= start <= stop -> stop <= Z.of_nat (length value) ->
  exists first last, skip_blanks (S (length value)) value start stop = Some first /\
    drop_blanks (S (length value)) value first stop = Some last /\
    HttpTokenEquals (slice value first last) (str "no-store") = is_no_store (slice value start stop).
Proof.
  intros Hi Hs. destruct (skip_blanks_trim value stop (S (length value)) start) as (first & Hf & ? & Ef); [lia..|].
  destruct (drop_blanks_trim value first (S (length value)) stop) as (last & Hl & ? & El); [lia..|].
  exists first, last. split_and!; [done..|]. by rewrite token_equals, El, Ef.
Qed.

Lemma directive_loop_spec fuel value start :
  0 <= start -> 0 < Z.of_nat fuel -> Z.of_nat (length value) - start < Z.of_nat fuel ->
  directive_loop fuel value start = Some (existsb is_no_store (directives (drop (Z.to_nat start) value))).
Proof.
  revert start. induction fuel as [|fuel IH]; intros start Hs Hpos Hf; [lia|]. cbn [directive_loop].
  set (n := Z.of_nat (length value)). assert (Hn : n = Z.of_nat (length value)) by done. destruct (Z.ltb_spec start n) as [Hlt|Hge].
  2: { rewrite drop_ge by lia. done. }
  rewrite scan_before by lia. cbn [mbind option_bind]. rewrite (slice_whole value start n) by lia.
  set (rest := drop (Z.to_nat start) value). destruct (before_split 44 rest) as (tail & E & Htail).
  set (d := before 44 rest) in *. assert (Hd : Z.of_nat (length d) <= n - start).
  { apply (f_equal length) in E. rewrite length_app in E. unfold rest in E. rewrite length_drop in E. lia. }
  assert (Hslice : slice value start (start + Z.of_nat (length d)) = d).
  { unfold slice. replace (Z.to_nat _) with (length d) by lia. fold rest. rewrite E. apply take_app_length. }
  destruct (directive_turn value start (start + Z.of_nat (length d))) as (first & last & Hfirst & Hlast & Htok); [lia..|].
  rewrite Hfirst. cbn [mbind option_bind]. rewrite Hlast. cbn [mbind option_bind]. rewrite Htok, Hslice.
  pose proof (before_not_elem 44 rest) as Hno. fold d in Hno.
  assert (Hnext : drop (Z.to_nat (start + Z.of_nat (length d) + 1)) value = drop 1 tail).
  { replace (Z.to_nat _) with (Z.to_nat start + (length d + 1))%nat by lia. rewrite <- drop_drop. fold rest. rewrite E.
    by rewrite <- drop_drop, drop_app_length. }
  rewrite IH by lia. rewrite Hnext, E. destruct Htail as [->|[tail' ->]].
  - rewrite app_nil_r. rewrite (directives_none d) by done. cbn. by destruct (is_no_store d).
  - rewrite (directives_comma d) by done. cbn. by destruct (is_no_store d).
Qed.

(** A response is kept out of the disk cache exactly when some
    Cache-Control header of it (the name in any case), cut at its commas, has
    a directive that with its surrounding blanks removed and its case folded
    is [no-store].  The scan ends on every value and reads inside it. *)
Theorem forbids_storing_exact headers :
  HttpForbidsStoring headers =
  Some (existsb (fun v => existsb is_no_store (directives v)) (values_of (str "cache-control") headers)).
Proof.
  induction headers as [|h headers IH]; [done|]. cbn [HttpForbidsStoring]. rewrite values_of_cons.
  destruct (HttpTokenEquals (h_name h) _); cbn [negb]; [|done].
  rewrite directive_loop_spec by lia. rewrite drop_0. cbn [mbind option_bind existsb]. by case_match.
Qed.

Lemma forbids_defined headers : is_Some (HttpForbidsStoring headers).
Proof.
  induction headers as [|h headers IH]; [done|]. cbn [HttpForbidsStoring]. destruct (negb _); [done|].
  rewrite directive_loop_spec by lia. cbn [mbind option_bind]. by case_match.
Qed.

(** ** Hexadecimal numerals and the version of a file *)

Definition hex_digit (c d : Z) : Prop :=
  (0 <= d <= 9 /\ c = 48 + d) \/ (10 <= d <= 15 /\ (c = 97 + (d - 10) \/ c = 65 + (d - 10))).

Definition hex_from (n : Z) (ds : list Z) : Z := foldl (fun n d => n * 16 + d) n ds.

(** One to sixteen hexadecimal digits, in either case, and their number. *)
Definition hex_numeral (l : list Z) (n : Z) : Prop :=
  (1 <= length l <= 16)%nat /\ exists ds, Forall2 hex_digit l ds /\ n = hex_from 0 ds.

Lemma hex_shift n d : 0 <= n -> 0 <= d <= 15 -> n * 16 + d < 18446744073709551616 -> Z.lor (u64 (Z.shiftl n 4)) d = n * 16 + d.
Proof.
  intros. rewrite Z.shiftl_mul_pow2 by lia. change (2 ^ 4) with 16. rewrite u64_id by lia.
  rewrite Z.add_comm, <- Z.lxor_lor, <- Z.add_nocarry_lxor; [lia|..];
    apply Z.bits_inj'; intros i Hi; rewrite Z.land_spec, Z.bits_0; apply andb_false_iff;
    (destruct (decide (i < 4)); [left; change 16 with (2 ^ 4); by rewrite Z.mul_pow2_bits_low by lia|right]).
  all: destruct (decide (d = 0)) as [->|]; [by rewrite Z.bits_0|]; apply Z.bits_above_log2; [lia|].
  all: assert (Z.log2 d < 4) by (apply Z.log2_lt_pow2; lia); lia.
Qed.

(** The digit the loop reads. *)
Definition digit_of (c : Z) : option Z :=
  if (48 <=? c) && (c <=? 57) then Some (c - 48)
  else if (97 <=? c) && (c <=? 102) then Some (c - 97 + 10)
  else if (65 <=? c) && (c <=? 70) then Some (c - 65 + 10)
  else None.

Lemma digit_of_iff c d : digit_of c = Some d <-> hex_digit c d.
Proof. unfold digit_of, hex_digit. bool_cases; split; intros; simplify_eq; first [lia | f_equal; lia | exfalso; lia]. Qed.

Lemma hex_digit_range c d : hex_digit c d -> 0 <= d <= 15.
Proof. unfold hex_digit. lia. Qed.

Lemma hex_loop_spec l v n :
  (length l <= 16)%nat -> 0 <= v < 16 ^ (16 - Z.of_nat (length l)) ->
  hex_loop l v = Some n <-> exists ds, Forall2 hex_digit l ds /\ n = hex_from v ds.
Proof.
  revert v. induction l as [|c l IH]; intros v Hl Hv.
  - cbn. split; [intros [= <-]; by exists []|]. intros (ds & H%Forall2_nil_inv_l & ->). by subst.
  - cbn [length] in *. cbn [hex_loop]. fold (digit_of c).
    assert (H16 : 16 ^ (16 - Z.of_nat (length l)) = 16 * 16 ^ (16 - Z.of_nat (S (length l)))).
    { replace (16 - Z.of_nat (length l)) with (Z.succ (16 - Z.of_nat (S (length l)))) by lia. apply Z.pow_succ_r. lia. }
    assert (Hmax : 16 ^ (16 - Z.of_nat (length l)) <= 16 ^ 16) by (apply Z.pow_le_mono_r; lia). change (16 ^ 16) with 18446744073709551616 in Hmax.
    destruct (digit_of c) as [d|] eqn:Ed; cbn [mbind option_bind].
    + apply digit_of_iff in Ed as Hd. pose proof (hex_digit_range _ _ Hd). rewrite hex_shift by lia. rewrite IH by lia. split.
      * intros (ds & Hds & ->). exists (d :: ds). split; [by constructor|done].
      * intros (ds0 & (d' & ds & Hc & Hds & ->)%Forall2_cons_inv_l & ->). apply digit_of_iff in Hc. assert (d' = d) as -> by congruence. by exists ds.
    + split; [done|]. intros (ds0 & (d' & ds & Hc & Hds & ->)%Forall2_cons_inv_l & ->). apply digit_of_iff in Hc. congruence.
Qed.

Lemma parse_hex_iff l n : HttpParseHex64 l = Some n <-> hex_numeral l n.
Proof.
  unfold HttpParseHex64, hex_numeral.
  destruct (Z.eqb_spec (Z.of_nat (length l)) 0) as [|Hne], (Z.ltb_spec 16 (Z.of_nat (length l))) as [|Hle]; cbn [orb].
  1-3: split; [done|lia].
  rewrite hex_loop_spec; [|lia|split; [lia|apply Z.pow_pos_nonneg; lia]].
  split; [intros H; split; [lia|done]|naive_solver].
Qed.

Lemma hex_numeral_bound l n : hex_numeral l n -> 0 <= n < 18446744073709551616.
Proof.
  intros (Hl & ds & Hds & ->). assert (H : forall v, 0 <= v < 16 ^ (16 - Z.of_nat (length l)) -> 0 <= hex_from v ds < 16 ^ 16).
  { destruct Hl as [_ Hl]. revert Hl. induction Hds as [|c d l ds Hc Hds IH]; intros Hl v Hv; [done|]. cbn [length] in *.
    apply hex_digit_range in Hc. apply (IH ltac:(lia)).
    replace (16 - Z.of_nat (length l)) with (Z.succ (16 - Z.of_nat (S (length l)))) by lia. rewrite Z.pow_succ_r by lia. lia. }
  apply H. split; [lia|]. apply Z.pow_pos_nonneg; lia.
Qed.

Lemma hex_numeral_char l n c : hex_numeral l n -> c ∈ l -> 48 <= c <= 57 \/ 97 <= c <= 102 \/ 65 <= c <= 70.
Proof.
  intros (_ & ds & Hds & _) [i Hi]%list_elem_of_lookup. destruct (Forall2_lookup_l _ _ _ _ _ Hds Hi) as (d & _ & Hd).
  unfold hex_digit in Hd. lia.
Qed.

(** The entity tag of a file: ["<seconds>.<nanoseconds>-<size>"] in hexadecimal,
    a time since 1970 that a [FILETIME] can hold. *)
Definition tag_text (s ns sz : list Z) : list Z := [34] ++ (s ++ [46] ++ ns ++ [45] ++ sz) ++ [34].
Definition tag_names (v : list Z) (size modified : Z) : Prop :=
  exists s ns sz seconds nanoseconds,
    v = tag_text s ns sz /\ hex_numeral s seconds /\ hex_numeral ns nanoseconds /\ hex_numeral sz size /\
    nanoseconds < 1000000000 /\ (seconds + 1) * ticksPerSecond + epochTicks <= MAXULONG64 /\
    modified = seconds * ticksPerSecond + nanoseconds / 100 + epochTicks.

Lemma find_tag_late headers h :
  find_tag headers (Some h) = if decide (values_of (str "etag") headers = []) then Some (Some h) else None.
Proof.
  induction headers as [|h' headers IH]; [done|]. cbn [find_tag]. rewrite values_of_cons.
  destruct (HttpTokenEquals (h_name h') _); [by rewrite decide_False|done].
Qed.

Lemma parse_version_values headers :
  HttpParseFileVersion headers = match values_of (str "etag") headers with [v] => parse_tag v | _ => Some None end.
Proof.
  unfold HttpParseFileVersion. induction headers as [|h headers IH]; [done|]. cbn [find_tag]. rewrite values_of_cons.
  destruct (HttpTokenEquals (h_name h) _); [|done]. rewrite find_tag_late.
  destruct (values_of (str "etag") headers) eqn:E; [by rewrite decide_True|by rewrite decide_False].
Qed.

(** A quoted value is its quotes around a text. *)
Lemma quoted v :
  2 <= Z.of_nat (length v) -> rd v 0 = Some 34 -> rd v (Z.of_nat (length v) - 1) = Some 34 ->
  exists text, v = [34] ++ text ++ [34].
Proof.
  intros Hl H0 H1. destruct v as [|x v]; [done|]. injection H0 as ->.
  destruct (decide (v = [])) as [->|Hv]; [cbn in Hl; lia|]. destruct (exists_last Hv) as (text & y & ->).
  exists text. assert (y = 34) as ->; [|done]. cbn [length] in H1. rewrite length_app in H1. cbn [length] in H1.
  replace (Z.of_nat (S (length text + 1)) - 1) with (Z.of_nat (length (34 :: text))) in H1 by (cbn [length]; lia).
  change (34 :: text ++ [y]) with ((34 :: text) ++ [y]) in H1. rewrite rd_middle in H1. congruence.
Qed.

(** The end of the parse, from the three texts. *)
Definition version_of (s ns sz : list Z) : option (Z * Z) :=
  match HttpParseHex64 s, HttpParseHex64 ns, HttpParseHex64 sz with
  | Some seconds, Some nanoseconds, Some size =>
      if (1000000000 <=? nanoseconds) || ((MAXULONG64 - epochTicks) / ticksPerSecond - 1 <? seconds) then None
      else Some (size, u64 (u64 (u64 (seconds * ticksPerSecond) + nanoseconds / 100) + epochTicks))
  | _, _, _ => None
  end.

Lemma version_of_iff s ns sz size modified :
  version_of s ns sz = Some (size, modified) <->
  exists seconds nanoseconds, hex_numeral s seconds /\ hex_numeral ns nanoseconds /\ hex_numeral sz size /\
    nanoseconds < 1000000000 /\ (seconds + 1) * ticksPerSecond + epochTicks <= MAXULONG64 /\
    modified = seconds * ticksPerSecond + nanoseconds / 100 + epochTicks.
Proof.
  unfold version_of. setoid_rewrite <- parse_hex_iff.
  destruct (HttpParseHex64 s) as [a|] eqn:Es; [|naive_solver]. destruct (HttpParseHex64 ns) as [b|] eqn:Ens; [|naive_solver].
  destruct (HttpParseHex64 sz) as [c|] eqn:Esz; [|naive_solver].
  apply parse_hex_iff, hex_numeral_bound in Es. apply parse_hex_iff, hex_numeral_bound in Ens.
  change ((MAXULONG64 - epochTicks) / ticksPerSecond) with 1833029933770. unfold ticksPerSecond, epochTicks, MAXULONG64.
  assert (0 <= b / 100) by (apply Z.div_pos; lia).
  destruct (Z.leb_spec 1000000000 b), (Z.ltb_spec (1833029933770 - 1) a); cbn [orb].
  1-3: split; [done|]; intros (? & ? & ? & ? & ? & ? & ? & ?); simplify_eq; lia.
  assert (b / 100 < 10000000) by (apply Z.div_lt_upper_bound; lia).
  rewrite (u64_id (a * 10000000)), (u64_id (_ + b / 100)), u64_id by lia. split.
  - intros [= <- <-]. exists a, b. split_and!; done || lia.
  - intros (? & ? & ? & ? & ? & ? & ? & ?); simplify_eq. done.
Qed.

Definition splits_tag (text s ns sz : list Z) : Prop := text = s ++ [46] ++ ns ++ [45] ++ sz /\ (46 ∉ s) /\ (45 ∉ ns).

Lemma slice_quoted text i : 0 <= i -> i <= Z.of_nat (length text) -> slice (text ++ [34]) i (Z.of_nat (length text)) = drop (Z.to_nat i) text.
Proof. intros. unfold slice. rewrite drop_app_le by lia. apply take_app_length'. rewrite length_drop. lia. Qed.

Lemma splits_tag_unique text s ns sz s' ns' sz' : splits_tag text s ns sz -> splits_tag text s' ns' sz' -> s = s' /\ ns = ns' /\ sz = sz'.
Proof.
  intros (E & Hs & Hns) (E' & Hs' & Hns').
  assert (s = s') as <-.
  { rewrite <- (before_at 46 s (ns ++ [45] ++ sz) Hs), <- (before_at 46 s' (ns' ++ [45] ++ sz') Hs'). cbn in *. congruence. }
  rewrite E in E'. apply app_inv_head, app_inv_head in E'.
  assert (ns = ns') as <-.
  { rewrite <- (before_at 45 ns sz Hns), <- (before_at 45 ns' sz' Hns'). cbn in *. congruence. }
  apply app_inv_head, app_inv_head in E'. done.
Qed.

Lemma tag_slices text s ns sz :
  text = s ++ [46] ++ ns ++ [45] ++ sz ->
  slice (text ++ [34]) 0 (Z.of_nat (length s)) = s /\
  slice (text ++ [34]) (Z.of_nat (length s) + 1) (Z.of_nat (length s) + Z.of_nat (S (length ns))) = ns /\
  slice (text ++ [34]) (Z.of_nat (length s) + Z.of_nat (S (length ns)) + 1) (Z.of_nat (length text)) = sz.
Proof.
  intros ->. split_and!.
  - rewrite <- app_assoc. by apply (slice_at []).
  - replace (_ ++ [34]) with ((s ++ [46]) ++ ns ++ [45] ++ sz ++ [34]) by (rewrite <- !app_assoc; done).
    apply slice_at; rewrite ?length_app; cbn; lia.
  - replace (_ ++ [34]) with ((s ++ [46] ++ ns ++ [45]) ++ sz ++ [34]) by (do 3 (rewrite <- ?app_assoc; cbn [app]); done).
    apply slice_at; rewrite !length_app; cbn; rewrite ?length_app; cbn; lia.
Qed.

Lemma parse_tag_quoted text :
  let v := [34] ++ text ++ [34] in
  (exists s ns sz, splits_tag text s ns sz /\ parse_tag v = Some (version_of s ns sz)) \/
  ((forall s ns sz, ~ splits_tag text s ns sz) /\ parse_tag v = Some None).
Proof.
  intros v. set (n := Z.of_nat (length text)).
  assert (Hn : n = Z.of_nat (length text)) by done.
  assert (Hlen : Z.of_nat (length v) = n + 2) by (unfold v; rewrite !length_app; cbn; lia).
  assert (Hlast : rd v (n + 2 - 1) = Some 34).
  { change v with ((34 :: text) ++ [34]). rewrite <- (rd_middle (34 :: text) 34 []). f_equal. cbn [length]. lia. }
  unfold parse_tag. rewrite Hlen, (proj2 (Z.ltb_ge _ _)) by lia. change (rd v 0) with (Some 34). cbn [mbind option_bind].
  rewrite Hlast. cbn [mbind option_bind Z.eqb negb orb]. replace (n + 2 - 2) with n by lia. change (drop 1 v) with (text ++ [34]).
  assert (Hw : Z.of_nat (length (text ++ [34])) = n + 1) by (rewrite length_app; cbn; lia).
  rewrite (scan_before 46) by lia. cbn [mbind option_bind].
  rewrite slice_quoted, drop_0 by lia. destruct (before_split 46 text) as (rest & Et & Hrest).
  pose proof (before_not_elem 46 text) as Hs. set (s := before 46 text) in *. rewrite Z.add_0_l.
  assert (Hsn : Z.of_nat (length s) <= n) by (apply (f_equal length) in Et; rewrite length_app in Et; lia).
  rewrite (scan_before 45) by lia. cbn [mbind option_bind]. rewrite slice_quoted, Nat2Z.id by lia.
  replace (drop (length s) text) with rest by (rewrite Et; by rewrite drop_app_length).
  destruct Hrest as [->|[r ->]].
  { right. split; [|rewrite (proj2 (Z.leb_le _ _)); [done|]; cbn; apply (f_equal length) in Et; rewrite app_nil_r in Et; lia].
    intros s' ns sz (E & _). apply Hs. rewrite app_nil_r in Et. rewrite <- Et, E. set_solver. }
  cbn [before]. rewrite decide_False by done. destruct (before_split 45 r) as (rest & Er & Hrest).
  pose proof (before_not_elem 45 r) as Hns. set (ns := before 45 r) in *.
  destruct Hrest as [->|[sz ->]].
  { right. rewrite app_nil_r in Er. apply (f_equal length) in Et as El. rewrite length_app in El. cbn [length] in *.
    split; [|rewrite (proj2 (Z.leb_le _ _)); [done|]; rewrite <- Er; lia].
    intros s' ns' sz (E & Hs' & _). apply Hns. rewrite <- Er.
    assert (s = s') by (unfold s; rewrite E; by apply before_at). subst s'. rewrite Et in E at 1.
    apply app_inv_head in E. injection E as ->. set_solver. }
  left. exists s, ns, sz. assert (E : text = s ++ [46] ++ ns ++ [45] ++ sz) by (rewrite Et, Er at 1; done).
  split; [done|]. apply (f_equal length) in E as El. rewrite !length_app in El. cbn [length] in *.
  rewrite (proj2 (Z.leb_gt _ _)) by lia.
  destruct (tag_slices text s ns sz E) as (S1 & S2 & S3). fold n in S3. rewrite S1, S2, S3. unfold version_of. by repeat case_match.
Qed.

Lemma quoted_ends text (v := [34] ++ text ++ [34]) :
  2 <= Z.of_nat (length v) /\ rd v 0 = Some 34 /\ rd v (Z.of_nat (length v) - 1) = Some 34.
Proof.
  subst v. rewrite !length_app. cbn [length]. split_and!; [lia|done|].
  change ([34] ++ text ++ [34]) with ((34 :: text) ++ [34]). rewrite <- (rd_middle (34 :: text) 34 []). f_equal. cbn [length]. lia.
Qed.

Lemma parse_tag_unquoted v : (forall text, v <> [34] ++ text ++ [34]) -> parse_tag v = Some None.
Proof.
  intros Hq. unfold parse_tag. destruct (Z.ltb_spec (Z.of_nat (length v)) 2); [done|].
  destruct (rd_in_range v 0) as [x Hx]; [lia|]. destruct (rd_in_range v (Z.of_nat (length v) - 1)) as [y Hy]; [lia|].
  rewrite Hx. cbn [mbind option_bind]. rewrite Hy. cbn [mbind option_bind].
  destruct (Z.eqb_spec 34 x) as [<-|], (Z.eqb_spec 34 y) as [<-|]; cbn [negb orb]; try done.
  destruct (quoted v) as [text ->]; [done..|]. by destruct (Hq text).
Qed.

Lemma quoted_or v : (exists text, v = [34] ++ text ++ [34]) \/ forall text, v <> [34] ++ text ++ [34].
Proof.
  destruct (decide (2 <= Z.of_nat (length v) /\ rd v 0 = Some 34 /\ rd v (Z.of_nat (length v) - 1) = Some 34)) as [(? & ? & ?)|Hno].
  - left. by apply quoted.
  - right. intros text ->. apply Hno, quoted_ends.
Qed.

Lemma tag_names_splits text size modified :
  tag_names ([34] ++ text ++ [34]) size modified <->
  exists s ns sz, splits_tag text s ns sz /\ version_of s ns sz = Some (size, modified).
Proof.
  unfold tag_names. setoid_rewrite version_of_iff. split.
  - intros (s & ns & sz & a & b & E & Ha & Hb & Hc & H). exists s, ns, sz. split; [|by exists a, b].
    apply app_inv_head, app_inv_tail in E. split_and!; [done|intros Hin..].
    + destruct (hex_numeral_char _ _ _ Ha Hin); lia.
    + destruct (hex_numeral_char _ _ _ Hb Hin); lia.
  - intros (s & ns & sz & (E & _) & a & b & H). exists s, ns, sz, a, b. unfold tag_text. by rewrite E.
Qed.

(** The version of a file is taken from a response exactly when it has one
    ETag header and its value is ["<seconds>.<nanoseconds>-<size>"] in quotes,
    each part one to sixteen hexadecimal digits, with a fraction below one
    second and a time a [FILETIME] can hold; the version is then that size and
    that time in 100 ns ticks since 1601, computed without wrap.  Whatever the
    headers, the parser ends and reads inside the value. *)
Theorem file_version_exact headers :
  exists result, HttpParseFileVersion headers = Some result /\
    forall size modified, result = Some (size, modified) <->
      exists v, values_of (str "etag") headers = [v] /\ tag_names v size modified.
Proof.
  rewrite parse_version_values. destruct (values_of (str "etag") headers) as [|v [|w l]]; [exists None; split; [done|naive_solver]| |exists None; split; [done|naive_solver]].
  destruct (quoted_or v) as [[text ->]|Hq].
  - destruct (parse_tag_quoted text) as [(s & ns & sz & Hs & E)|[Hno E]]; rewrite E.
    + exists (version_of s ns sz). split; [done|]. intros size modified. split.
      * intros Hv. eexists. split; [done|]. apply tag_names_splits. by exists s, ns, sz.
      * intros (? & [= <-] & (s' & ns' & sz' & Hs' & Hv)%tag_names_splits). by destruct (splits_tag_unique _ _ _ _ _ _ _ Hs Hs') as (-> & -> & ->).
    + exists None. split; [done|]. split; [done|]. intros (? & [= <-] & (s' & ns' & sz' & Hs' & Hv)%tag_names_splits). by destruct (Hno s' ns' sz').
  - rewrite (parse_tag_unquoted v) by done. exists None. split; [done|]. split; [done|].
    intros (? & [= <-] & (s & ns & sz & a & b & -> & _)). by destruct (Hq (s ++ [46] ++ ns ++ [45] ++ sz)).
Qed.

Lemma version_defined headers : is_Some (HttpParseFileVersion headers).
Proof.
  rewrite parse_version_values. destruct (values_of _ headers) as [|v [|w l]]; try done. destruct (quoted_or v) as [[text ->]|Hq].
  - by destruct (parse_tag_quoted text) as [(s & ns & sz & _ & ->)|[_ ->]].
  - by rewrite parse_tag_unquoted.
Qed.

(** A length that was read is one a [SIZE_T] holds. *)
Lemma content_length_success headers st n :
  HttpGetContentLengthFromHeaders headers = (st, n) -> NT_SUCCESS st = true -> st = STATUS_SUCCESS /\ 0 <= n <= SIZE_MAX.
Proof.
  unfold HttpGetContentLengthFromHeaders. rewrite content_length_loop_values. intros E Hst.
  destruct (values_of _ headers) as [|v [|w l]]; [by injection E as <- <-| |by injection E as <- <-].
  assert (st = STATUS_SUCCESS) as ->.
  { unfold HttpStrToSize in E. repeat case_match; simplify_eq; try done. }
  apply str_to_size in E as (_ & Hd & <- & Hmax). split; [done|]. split; [|done]. by apply (decimal_grows v 0).
Qed.

(** ** Percent-encoding *)

Definition percent (c : Z) : list Z :=
  if HttpIsCharacterSafeForUrl c then [c] else [37; HEX_TO_CHAR (Z.land (Z.shiftr c 4) 0xF); HEX_TO_CHAR (Z.land c 0xF)].

Definition unhex (c : Z) : option Z :=
  if decide (is_digit c) then Some (c - 48) else if decide (65 <= c <= 70) then Some (c - 55) else None.

(** What a server reads out of a request target (RFC 3986). *)
Fixpoint percent_decode (l : list Z) : option (list Z) :=
  match l with
  | [] => Some []
  | 37 :: a :: b :: l => x ← unhex a; y ← unhex b; cons (x * 16 + y) <$> percent_decode l
  | c :: l => if decide (c = 37) then None else cons c <$> percent_decode l
  end.

Lemma unhex_char x : 0 <= x < 16 -> unhex (HEX_TO_CHAR x) = Some x.
Proof.
  intros. unfold unhex, HEX_TO_CHAR, is_digit. destruct (Z.ltb_spec x 10).
  - rewrite decide_True by lia. f_equal. lia.
  - rewrite decide_False, decide_True by lia. f_equal. lia.
Qed.

Lemma nibbles c : 0 <= c < 256 ->
  0 <= Z.land (Z.shiftr c 4) 0xF < 16 /\ 0 <= Z.land c 0xF < 16 /\ Z.land (Z.shiftr c 4) 0xF * 16 + Z.land c 0xF = c.
Proof.
  intros. change 15 with (Z.ones 4). rewrite !Z.land_ones, Z.shiftr_div_pow2 by lia. change (2 ^ 4) with 16.
  pose proof (Z.mod_pos_bound c 16). pose proof (Z.div_mod c 16). assert (0 <= c / 16 < 16) by (split; [apply Z.div_pos|apply Z.div_lt_upper_bound]; lia).
  rewrite (Z.mod_small (c / 16)) by lia. lia.
Qed.

Lemma percent_decode_app c l : 0 <= c < 256 -> percent_decode (percent c ++ l) = cons c <$> percent_decode l.
Proof.
  intros Hc. unfold percent. destruct (HttpIsCharacterSafeForUrl c) eqn:Hs.
  - assert (c <> 37) as Hne by (intros ->; done). cbn [app percent_decode]. rewrite decide_False by done.
    repeat case_match; simplify_eq; done.
  - pose proof (nibbles c Hc) as (Hh & Hl & E). cbn [app percent_decode].
    rewrite !unhex_char by done. cbn [mbind option_bind]. by rewrite E.
Qed.

Lemma decode_encoded utf8 : Forall (fun c => 0 <= c < 256) utf8 -> percent_decode (utf8 ≫= percent) = Some utf8.
Proof. induction 1 as [|c l Hc Hl IH]; [done|]. cbn [mbind list_bind]. rewrite percent_decode_app by done. by rewrite IH. Qed.

Lemma length_percent c : Z.of_nat (length (percent c)) = if HttpIsCharacterSafeForUrl c then 1 else 3.
Proof. unfold percent. by case_match. Qed.

Lemma encoded_length_from utf8 n :
  foldl (fun n c => n + (if HttpIsCharacterSafeForUrl c then 1 else 3)) n utf8 = n + Z.of_nat (length (utf8 ≫= percent)).
Proof.
  revert n. induction utf8 as [|c l IH]; intros n; [cbn; lia|]. cbn [foldl]. rewrite bind_cons, IH, length_app, Nat2Z.inj_add, length_percent. lia.
Qed.

Lemma encoded_length_value utf8 : encoded_length utf8 = Z.of_nat (length (utf8 ≫= percent)).
Proof. unfold encoded_length. by rewrite encoded_length_from. Qed.

(** The room computed by the first pass is what the second one needs. *)
Lemma encode_loop_fits utf8 room out :
  room = Z.of_nat (length out) + encoded_length utf8 -> encode_loop utf8 room out = (STATUS_SUCCESS, out ++ (utf8 ≫= percent)).
Proof.
  rewrite encoded_length_value. revert out. induction utf8 as [|c l IH]; intros out E; [by rewrite app_nil_r|].
  rewrite bind_cons in *. rewrite length_app, Nat2Z.inj_add, length_percent in E. cbn [encode_loop].
  assert (Hp : forall p, p = percent c -> encode_loop l room (out ++ p) = (STATUS_SUCCESS, out ++ percent c ++ (l ≫= percent))).
  { intros p ->. rewrite IH, <- app_assoc; [done|]. rewrite length_app, Nat2Z.inj_add, length_percent. lia. }
  destruct (HttpIsCharacterSafeForUrl c) eqn:Hs; rewrite (proj2 (Z.ltb_ge _ _)) by lia; apply Hp; unfold percent; by rewrite Hs.
Qed.

Definition target_char (c : Z) : Prop := HttpIsCharacterSafeForUrl c = true \/ c = 37.

Lemma percent_chars c : 0 <= c < 256 -> Forall target_char (percent c).
Proof.
  intros Hc. unfold percent, target_char. destruct (HttpIsCharacterSafeForUrl c) eqn:Hs; [constructor; [by left|constructor]|].
  pose proof (nibbles c Hc) as (Hh & Hl & _).
  assert (Hx : forall x, 0 <= x < 16 -> HttpIsCharacterSafeForUrl (HEX_TO_CHAR x) = true).
  { intros x Hx. unfold HEX_TO_CHAR, HttpIsCharacterSafeForUrl. bool_cases; done || lia. }
  constructor; [by right|]. repeat (constructor; [left; by apply Hx|]). constructor.
Qed.

(** A path becomes a request target without loss: unless it is too long
    for a [USHORT] with the room asked for after it, or memory is out, the
    target has only unreserved characters and percent escapes, decodes to the
    path's UTF-8 bytes, and leaves that room and a terminator in a buffer of
    the recorded length.  The overflow exit of the writing loop is never
    taken. *)
Theorem url_encoding_round_trip utf8 reserve memory (Hbytes : Forall (fun c => 0 <= c < 256) utf8) (Hreserve : 0 <= reserve) :
  exists out, percent_decode out = Some utf8 /\ Forall target_char out /\
    HttpUrlEncodePathToAnsi (inr utf8) reserve memory =
    if 65535 <? Z.of_nat (length out) + reserve + 1 then (STATUS_NAME_TOO_LONG, None)
    else if memory then (STATUS_SUCCESS, Some (out, Z.of_nat (length out) + reserve + 1))
    else (STATUS_INSUFFICIENT_RESOURCES, None).
Proof.
  exists (utf8 ≫= percent). split; [by apply decode_encoded|]. split.
  { induction Hbytes; rewrite ?bind_cons; [constructor|]. apply Forall_app. split; [by apply percent_chars|done]. }
  cbn [HttpUrlEncodePathToAnsi]. rewrite encode_loop_fits by (cbn; lia). rewrite encoded_length_value. cbn [app].
  destruct (Z.ltb_spec 65535 reserve), (Z.ltb_spec 65535 (Z.of_nat (length (utf8 ≫= percent)) + reserve + 1)); cbn [orb]; try done; [lia|].
  by destruct memory.
Qed.

(** "a b" takes five characters. *)
Lemma url_encoding_round_trip_witness :
  HttpUrlEncodePathToAnsi (inr (str "a b")) 10 true = (STATUS_SUCCESS, Some (str "a%20b", 16)) /\
  exists out, percent_decode out = Some (str "a b") /\ Forall target_char out /\
    HttpUrlEncodePathToAnsi (inr (str "a b")) 10 true =
    if 65535 <? Z.of_nat (length out) + 10 + 1 then (STATUS_NAME_TOO_LONG, None)
    else if true then (STATUS_SUCCESS, Some (out, Z.of_nat (length out) + 10 + 1))
    else (STATUS_INSUFFICIENT_RESOURCES, None).
Proof. split; [reflexivity|]. apply (url_encoding_round_trip (str "a b") 10 true); [repeat constructor; lia|lia]. Defined.
