(* ===== verification/ClientRequest.v ===== *)
(** * One HTTP request, from socket to completion (src/Client.c)

    The stage machine of the client.  Every handler ends in a call of the next
    one, in an asynchronous operation it waits for, or with the context freed,
    so a handler is a function from the context to the new one, what it did
    outside it ([EFFECT]) and what comes next ([NEXT]).  What the kernel
    answers inside a handler is [ANSWERS].  Buffers are their bytes; an access
    outside one, a receive posted outside one, or queueing a work item that
    does not exist, is [None].  Counters, time stamps and debug prints are left
    out. *)

From S2P Require Import Prelude Buffers ListingIndex ClientText TlsCrypto TlsCodec.

#[local] Open Scope Z_scope.

Definition HTTP_INITIAL_RECV_CAPACITY : Z := PAGE_SIZE * 4.
Definition HTTP_MDL_INITIAL_RECV_CAPACITY : Z := 2048.
Definition HTTP_MAX_CONTENT_LENGTH : Z := 64 * 1024 * 1024.
Definition HTTP_MAX_HEADER_BYTES : Z := 64 * 1024.
Definition HTTP_CONNECT_ATTEMPTS : Z := 4.
Definition TLS_RECORD_CIPHERTEXT_MAX : Z := 16384 + 1 + TLS_TAG_LEN.
Definition SOCKET_TLS_RECORD_MAX_BYTES : Z := 5 + TLS_RECORD_CIPHERTEXT_MAX.

Definition STATUS_BUFFER_TOO_SMALL : NTSTATUS := nt 0xC0000023.
Definition STATUS_CONNECTION_DISCONNECTED : NTSTATUS := nt 0xC000020C.
Definition STATUS_CONNECTION_RESET : NTSTATUS := nt 0xC000020D.
Definition STATUS_IO_TIMEOUT : NTSTATUS := nt 0xC00000B5.

(** ** State *)

Inductive HTTP_OPERATION := HttpOpDirInfo | HttpOpFileInfo | HttpOpFileRead | HttpOpChanges.
#[global] Instance HTTP_OPERATION_eq_dec : EqDecision HTTP_OPERATION.
Proof. solve_decision. Defined.

Inductive HTTP_STAGE :=
  | HttpStageAcquireSocket | HttpStageTlsHandshake | HttpStageSendRequest | HttpStageReceive
  | HttpStageReadResponse | HttpStageDispatch | HttpStageComplete | HttpStageFailed.

Inductive HTTP_CONNECTION_SOURCE := HttpConnectionPoolable | HttpConnectionReused | HttpConnectionFresh.
#[global] Instance HTTP_CONNECTION_SOURCE_eq_dec : EqDecision HTTP_CONNECTION_SOURCE.
Proof. solve_decision. Defined.

(** The connection: whether its handshake is complete, the record sequence
    numbers, and the accumulator of ciphertext, absent until its first use. *)
Record KSOCKET := mkSocket {
  sk_Id : Z;
  sk_TlsComplete : bool;
  sk_WriteSeq : Z;
  sk_ReadSeq : Z;
  TlsRecvBuffer : option (list Z);
  TlsRecvLength : Z;
  TlsRecvOffset : Z
}.

(** [Buffer] is its [Capacity] bytes, [TargetMdl] the bytes the MDL describes,
    [RequestBuffer] the request; [Routine] is whether the completion routine
    is still set, [Version] the two version fields when [HasVersion]. *)
Record HTTP_CONTEXT := mkContext {
  Socket : option KSOCKET;
  RequestBuffer : list Z;
  TlsSendRecordCapacity : Z;
  TlsSendPlaintextCapacity : Z;
  Buffer : list Z;
  TargetMdl : option (list Z);
  BodyOffset : Z;
  ContentLength : Z;
  BodyEndOffset : Z;
  Headers : list phr_header;
  ExpectedContentLength : Z;
  Routine : bool;
  WorkItem : bool;
  Stage : HTTP_STAGE;
  FinalStatus : NTSTATUS;
  ConnectionSource : HTTP_CONNECTION_SOURCE;
  Operation : HTTP_OPERATION;
  StatusCode : Z;
  ExpectedStatusCode : Z;
  Capacity : Z;
  Length : Z;
  ConnectTimeouts : Z;
  NoStore : bool;
  Version : option (Z * Z)
}.

Definition with_Socket (c : HTTP_CONTEXT) (s : option KSOCKET) : HTTP_CONTEXT :=
  mkContext s (RequestBuffer c) (TlsSendRecordCapacity c) (TlsSendPlaintextCapacity c) (Buffer c) (TargetMdl c) (BodyOffset c) (ContentLength c) (BodyEndOffset c) (Headers c) (ExpectedContentLength c) (Routine c) (WorkItem c) (Stage c) (FinalStatus c) (ConnectionSource c) (Operation c) (StatusCode c) (ExpectedStatusCode c) (Capacity c) (Length c) (ConnectTimeouts c) (NoStore c) (Version c).
Definition with_Send (c : HTTP_CONTEXT) (p : Z) (r : Z) : HTTP_CONTEXT :=
  mkContext (Socket c) (RequestBuffer c) r p (Buffer c) (TargetMdl c) (BodyOffset c) (ContentLength c) (BodyEndOffset c) (Headers c) (ExpectedContentLength c) (Routine c) (WorkItem c) (Stage c) (FinalStatus c) (ConnectionSource c) (Operation c) (StatusCode c) (ExpectedStatusCode c) (Capacity c) (Length c) (ConnectTimeouts c) (NoStore c) (Version c).
Definition with_Buffer (c : HTTP_CONTEXT) (b : list Z) (n : Z) : HTTP_CONTEXT :=
  mkContext (Socket c) (RequestBuffer c) (TlsSendRecordCapacity c) (TlsSendPlaintextCapacity c) b (TargetMdl c) (BodyOffset c) (ContentLength c) (BodyEndOffset c) (Headers c) (ExpectedContentLength c) (Routine c) (WorkItem c) (Stage c) (FinalStatus c) (ConnectionSource c) (Operation c) (StatusCode c) (ExpectedStatusCode c) n (Length c) (ConnectTimeouts c) (NoStore c) (Version c).
Definition with_Mdl (c : HTTP_CONTEXT) (b : list Z) : HTTP_CONTEXT :=
  mkContext (Socket c) (RequestBuffer c) (TlsSendRecordCapacity c) (TlsSendPlaintextCapacity c) (Buffer c) (Some b) (BodyOffset c) (ContentLength c) (BodyEndOffset c) (Headers c) (ExpectedContentLength c) (Routine c) (WorkItem c) (Stage c) (FinalStatus c) (ConnectionSource c) (Operation c) (StatusCode c) (ExpectedStatusCode c) (Capacity c) (Length c) (ConnectTimeouts c) (NoStore c) (Version c).
Definition with_Parse (c : HTTP_CONTEXT) (o : Z) (n : Z) (e : Z) (h : list phr_header) (s : Z) : HTTP_CONTEXT :=
  mkContext (Socket c) (RequestBuffer c) (TlsSendRecordCapacity c) (TlsSendPlaintextCapacity c) (Buffer c) (TargetMdl c) o n e h (ExpectedContentLength c) (Routine c) (WorkItem c) (Stage c) (FinalStatus c) (ConnectionSource c) (Operation c) s (ExpectedStatusCode c) (Capacity c) (Length c) (ConnectTimeouts c) (NoStore c) (Version c).
Definition with_Notes (c : HTTP_CONTEXT) (ns : bool) (v : option (Z * Z)) : HTTP_CONTEXT :=
  mkContext (Socket c) (RequestBuffer c) (TlsSendRecordCapacity c) (TlsSendPlaintextCapacity c) (Buffer c) (TargetMdl c) (BodyOffset c) (ContentLength c) (BodyEndOffset c) (Headers c) (ExpectedContentLength c) (Routine c) (WorkItem c) (Stage c) (FinalStatus c) (ConnectionSource c) (Operation c) (StatusCode c) (ExpectedStatusCode c) (Capacity c) (Length c) (ConnectTimeouts c) ns v.
Definition with_Length (c : HTTP_CONTEXT) (n : Z) : HTTP_CONTEXT :=
  mkContext (Socket c) (RequestBuffer c) (TlsSendRecordCapacity c) (TlsSendPlaintextCapacity c) (Buffer c) (TargetMdl c) (BodyOffset c) (ContentLength c) (BodyEndOffset c) (Headers c) (ExpectedContentLength c) (Routine c) (WorkItem c) (Stage c) (FinalStatus c) (ConnectionSource c) (Operation c) (StatusCode c) (ExpectedStatusCode c) (Capacity c) n (ConnectTimeouts c) (NoStore c) (Version c).
Definition with_Stage (c : HTTP_CONTEXT) (s : HTTP_STAGE) : HTTP_CONTEXT :=
  mkContext (Socket c) (RequestBuffer c) (TlsSendRecordCapacity c) (TlsSendPlaintextCapacity c) (Buffer c) (TargetMdl c) (BodyOffset c) (ContentLength c) (BodyEndOffset c) (Headers c) (ExpectedContentLength c) (Routine c) (WorkItem c) s (FinalStatus c) (ConnectionSource c) (Operation c) (StatusCode c) (ExpectedStatusCode c) (Capacity c) (Length c) (ConnectTimeouts c) (NoStore c) (Version c).
Definition with_Final (c : HTTP_CONTEXT) (s : NTSTATUS) : HTTP_CONTEXT :=
  mkContext (Socket c) (RequestBuffer c) (TlsSendRecordCapacity c) (TlsSendPlaintextCapacity c) (Buffer c) (TargetMdl c) (BodyOffset c) (ContentLength c) (BodyEndOffset c) (Headers c) (ExpectedContentLength c) (Routine c) (WorkItem c) (Stage c) s (ConnectionSource c) (Operation c) (StatusCode c) (ExpectedStatusCode c) (Capacity c) (Length c) (ConnectTimeouts c) (NoStore c) (Version c).
Definition with_Source (c : HTTP_CONTEXT) (s : HTTP_CONNECTION_SOURCE) : HTTP_CONTEXT :=
  mkContext (Socket c) (RequestBuffer c) (TlsSendRecordCapacity c) (TlsSendPlaintextCapacity c) (Buffer c) (TargetMdl c) (BodyOffset c) (ContentLength c) (BodyEndOffset c) (Headers c) (ExpectedContentLength c) (Routine c) (WorkItem c) (Stage c) (FinalStatus c) s (Operation c) (StatusCode c) (ExpectedStatusCode c) (Capacity c) (Length c) (ConnectTimeouts c) (NoStore c) (Version c).
Definition with_Routine (c : HTTP_CONTEXT) (b : bool) : HTTP_CONTEXT :=
  mkContext (Socket c) (RequestBuffer c) (TlsSendRecordCapacity c) (TlsSendPlaintextCapacity c) (Buffer c) (TargetMdl c) (BodyOffset c) (ContentLength c) (BodyEndOffset c) (Headers c) (ExpectedContentLength c) b (WorkItem c) (Stage c) (FinalStatus c) (ConnectionSource c) (Operation c) (StatusCode c) (ExpectedStatusCode c) (Capacity c) (Length c) (ConnectTimeouts c) (NoStore c) (Version c).
Definition with_WorkItem (c : HTTP_CONTEXT) (b : bool) : HTTP_CONTEXT :=
  mkContext (Socket c) (RequestBuffer c) (TlsSendRecordCapacity c) (TlsSendPlaintextCapacity c) (Buffer c) (TargetMdl c) (BodyOffset c) (ContentLength c) (BodyEndOffset c) (Headers c) (ExpectedContentLength c) (Routine c) b (Stage c) (FinalStatus c) (ConnectionSource c) (Operation c) (StatusCode c) (ExpectedStatusCode c) (Capacity c) (Length c) (ConnectTimeouts c) (NoStore c) (Version c).
Definition with_Timeouts (c : HTTP_CONTEXT) (n : Z) : HTTP_CONTEXT :=
  mkContext (Socket c) (RequestBuffer c) (TlsSendRecordCapacity c) (TlsSendPlaintextCapacity c) (Buffer c) (TargetMdl c) (BodyOffset c) (ContentLength c) (BodyEndOffset c) (Headers c) (ExpectedContentLength c) (Routine c) (WorkItem c) (Stage c) (FinalStatus c) (ConnectionSource c) (Operation c) (StatusCode c) (ExpectedStatusCode c) (Capacity c) (Length c) n (NoStore c) (Version c).

Inductive EFFECT :=
  | Acquired (socket : Z)
  | CloseSocket (socket : Z)
  | ReleaseSocket (socket : Z)
  | Sent (bytes : list Z)
  | Delivered (bytes : list Z) (* response bytes that arrived *)
  | Callback (st : NTSTATUS) (body : option (list Z))
  | FreeContext (bufferToo : bool).

(** The handlers that are called from others; [FnTlsDrain] is the head of
    HttpIssueTlsReceive's loop. *)
Inductive FN := FnKick | FnFail (st : NTSTATUS) | FnFailOrRetry (st : NTSTATUS) | FnIssueReceiveDispatch | FnTlsDrain | FnDispatchInline | FnComplete (st : NTSTATUS).

Inductive TARGET := IntoBuffer | IntoMdl.
Inductive WORKER := HttpAcquireSocketWorker | HttpTlsHandshakeWorker | HttpDispatchWorker | HttpCompleteWorker.

Inductive NEXT :=
  | Call (f : FN)
  | AwaitSocket
  | AwaitHandshake
  | AwaitSend
  | AwaitReceive (target : TARGET) (offset len : Z)
  | AwaitTlsReceive (offset len : Z)
  | AwaitWorker (w : WORKER)
  | Finished.

Abbreviation HANDLED := (option (HTTP_CONTEXT * list EFFECT * NEXT)).
Definition next (ctx : HTTP_CONTEXT) (n : NEXT) : HANDLED := Some (ctx, [], n).

(** What phr_parse_response makes of a prefix of a response: -2, another
    negative number, or the bytes of the headers, the status code and the
    headers. *)
Inductive PHR := PhrPartial | PhrError | PhrParsed (bytes code : Z) (headers : list phr_header).

(** The third-party parser, and the settings a request runs under. *)
Class HttpEnvironment := {
  phr_parse_response : list Z -> PHR;
  phr_parsed_bounds l n code headers : phr_parse_response l = PhrParsed n code headers -> 0 < n <= Z.of_nat (length l);
  TlsEnabled : bool;
  tlsRecvRecords : Z;
  tlsRecvRecords_tier : tlsRecvRecords = 4 \/ tlsRecvRecords = 8 \/ tlsRecvRecords = 16
}.

(** The answers to what one handler asks: the statuses a socket was asked for
    and an operation issued with, whether memory, a work item, a mapping,
    stack could be had, what new memory holds, the AEAD's results (opening
    gives as many bytes as it was handed) and flatcc's. *)
Record ANSWERS := mkAnswers {
  a_Acquire : NTSTATUS;
  a_Issue : NTSTATUS;
  a_Memory : bool;
  a_Memory2 : bool;
  a_WorkItem : bool;
  a_Mapping : bool;
  a_Stack : bool;
  a_Junk : nat -> Z;
  a_Seal : NTSTATUS * list Z;
  a_Open : Z -> NTSTATUS * list Z;
  a_Decoded : NTSTATUS
}.

Definition junk (a : ANSWERS) (n : Z) : list Z := a_Junk a <$> seq 0 (Z.to_nat n).

(** IRQLs. *)
Definition PASSIVE_LEVEL : Z := 0.
Definition DISPATCH_LEVEL : Z := 2.

(** ** Lengths and buffers *)

(** The new block holds the [Length] bytes kept and whatever was there. *)
Definition HttpGrowBufferIfNeeded (ctx : HTTP_CONTEXT) (required : Z) (a : ANSWERS) : option (NTSTATUS * HTTP_CONTEXT) :=
  if required <=? Capacity ctx then Some (STATUS_SUCCESS, ctx)
  else if MAXULONG <? required then Some (STATUS_INVALID_PARAMETER, ctx)
  else if negb (a_Memory a) then Some (STATUS_INSUFFICIENT_RESOURCES, ctx)
  else
    kept ← rd_list (Buffer ctx) 0 (Length ctx);
    buffer ← wr_list (junk a required) 0 kept;
    Some (STATUS_SUCCESS, with_Buffer ctx buffer required).

Section Client.
Context `{HttpEnvironment}.

Definition BlorgSocketTlsRecvCapacity : Z := tlsRecvRecords * SOCKET_TLS_RECORD_MAX_BYTES.

(** A window is handed to the network only where there is memory. *)
Definition in_window (buffer : list Z) (offset len : Z) : bool := (0 <=? offset) && (0 <=? len) && (offset + len <=? Z.of_nat (length buffer)).

(** ** The end of a request *)

Definition HttpMustBounceToPassive (ctx : HTTP_CONTEXT) (irql : Z) : bool :=
  negb (bool_decide (Operation ctx = HttpOpFileRead)) && (PASSIVE_LEVEL <? irql).

Definition queue_worker (ctx : HTTP_CONTEXT) (w : WORKER) : HANDLED := if WorkItem ctx then next ctx (AwaitWorker w) else None.

Definition HttpFreeContext (ctx : HTTP_CONTEXT) : list EFFECT :=
  let bufferOwnedByCaller := bool_decide (Operation ctx = HttpOpFileRead) && NT_SUCCESS (FinalStatus ctx) && bool_decide (TargetMdl ctx = None) in
  [FreeContext (negb bufferOwnedByCaller)].

Definition HttpComplete (ctx : HTTP_CONTEXT) (st : NTSTATUS) (irql : Z) : HANDLED :=
  let ctx := with_Final ctx st in
  if HttpMustBounceToPassive ctx irql then queue_worker ctx HttpCompleteWorker
  else if negb (NT_SUCCESS st) then
    let called := if Routine ctx then [Callback st None] else [] in
    let closed := match Socket ctx with Some s => [CloseSocket (sk_Id s)] | None => [] end in
    let ctx := with_Socket ctx None in
    Some (ctx, called ++ closed ++ HttpFreeContext ctx, Finished)
  else Some (ctx, HttpFreeContext ctx, Finished).

Definition HttpFail (ctx : HTTP_CONTEXT) (st : NTSTATUS) : HANDLED :=
  next (with_Final (with_Stage ctx HttpStageFailed) st) (Call FnKick).

(** [None] is FALSE. *)
Definition HttpTryRetryReusedConnection (ctx : HTTP_CONTEXT) : option HANDLED :=
  if negb (bool_decide (ConnectionSource ctx = HttpConnectionReused)) || negb (Length ctx =? 0) then None
  else
    let closed := match Socket ctx with Some s => [CloseSocket (sk_Id s)] | None => [] end in
    let ctx := with_Source (with_Socket ctx None) HttpConnectionFresh in
    let ctx := with_Parse (with_Length ctx 0) 0 0 0 [] 0 in
    Some (Some (with_Stage ctx HttpStageAcquireSocket, closed, Call FnKick)).

Definition HttpFailOrRetryReusedConnection (ctx : HTTP_CONTEXT) (st : NTSTATUS) : HANDLED :=
  match HttpTryRetryReusedConnection ctx with Some handled => handled | None => HttpFail ctx st end.

(** ** Sending *)

(** The request in one record; the result is its bytes. *)
Definition HttpEncryptRequestRecord (ctx : HTTP_CONTEXT) (s : KSOCKET) (a : ANSWERS) : option (NTSTATUS * HTTP_CONTEXT * list Z) :=
  let innerLen := u32 (Z.of_nat (length (RequestBuffer ctx)) + 1) in
  let recordLen := u32 (innerLen + TLS_TAG_LEN) in
  if TLS_RECORD_CIPHERTEXT_MAX - TLS_TAG_LEN <? innerLen then Some (STATUS_INVALID_PARAMETER, ctx, [])
  else
    let ctx := if TlsSendPlaintextCapacity ctx <? innerLen then with_Send ctx (if a_Memory a then innerLen else 0) (TlsSendRecordCapacity ctx) else ctx in
    if TlsSendPlaintextCapacity ctx <? innerLen then Some (STATUS_INSUFFICIENT_RESOURCES, ctx, [])
    else
      let recordAllocSize := u32 (5 + recordLen) in
      if recordAllocSize <? 5 then Some (STATUS_INVALID_PARAMETER, ctx, [])
      else
        let ctx := if TlsSendRecordCapacity ctx <? recordAllocSize then with_Send ctx (TlsSendPlaintextCapacity ctx) (if a_Memory2 a then recordAllocSize else 0) else ctx in
        if TlsSendRecordCapacity ctx <? recordAllocSize then Some (STATUS_INSUFFICIENT_RESOURCES, ctx, [])
        else
          let header := [0x17; 0x03; 0x03; u8 (Z.shiftr recordLen 8); u8 (Z.land recordLen 0xFF)] in
          let '(st, sealed) := a_Seal a in
          if negb (NT_SUCCESS st) then Some (st, ctx, [])
          else
            let s := mkSocket (sk_Id s) (sk_TlsComplete s) (u64 (sk_WriteSeq s + 1)) (sk_ReadSeq s) (TlsRecvBuffer s) (TlsRecvLength s) (TlsRecvOffset s) in
            Some (STATUS_SUCCESS, with_Socket ctx (Some s), header ++ sealed).

Definition send_request (ctx : HTTP_CONTEXT) (a : ANSWERS) : HANDLED :=
  s ← Socket ctx;
  '(st, ctx, bytes) ← (if sk_TlsComplete s then HttpEncryptRequestRecord ctx s a else Some (STATUS_SUCCESS, ctx, RequestBuffer ctx));
  if negb (NT_SUCCESS st) then next ctx (Call (FnComplete st))
  else if negb (a_Issue a =? STATUS_PENDING) then next ctx (Call (FnComplete (a_Issue a)))
  else Some (ctx, [Sent bytes], AwaitSend).

Definition acquire_socket (ctx : HTTP_CONTEXT) (a : ANSWERS) (irql : Z) : HANDLED :=
  let forceFresh := bool_decide (ConnectionSource ctx = HttpConnectionFresh) in
  if forceFresh && (DISPATCH_LEVEL <=? irql) then
    let ctx := if WorkItem ctx then ctx else with_WorkItem ctx (a_WorkItem a) in
    if negb (WorkItem ctx) then next ctx (Call (FnComplete STATUS_INSUFFICIENT_RESOURCES)) else queue_worker ctx HttpAcquireSocketWorker
  else if negb (NT_SUCCESS (a_Acquire a)) && negb (a_Acquire a =? STATUS_PENDING) then next ctx (Call (FnComplete (a_Acquire a)))
  else next ctx AwaitSocket.

Definition tls_handshake (ctx : HTTP_CONTEXT) (irql : Z) : HANDLED :=
  if PASSIVE_LEVEL <? irql then
    if negb (WorkItem ctx) then next ctx (Call (FnComplete STATUS_INSUFFICIENT_RESOURCES)) else queue_worker ctx HttpTlsHandshakeWorker
  else next ctx AwaitHandshake.

(** ** Receiving *)

Definition await_receive (ctx : HTTP_CONTEXT) (a : ANSWERS) (target : TARGET) (offset len : Z) : HANDLED :=
  buffer ← (match target with IntoBuffer => Some (Buffer ctx) | IntoMdl => TargetMdl ctx end);
  if negb (in_window buffer offset len) then None
  else if negb (a_Issue a =? STATUS_PENDING) then next ctx (Call (FnComplete (a_Issue a)))
  else next ctx (AwaitReceive target offset len).

(** Low stack is expanded and the function entered again, with enough; only
    a failed expansion shows. *)
Definition HttpIssueReceive (ctx : HTTP_CONTEXT) (a : ANSWERS) : HANDLED :=
  if negb (a_Stack a) then next ctx (Call (FnComplete STATUS_INSUFFICIENT_RESOURCES))
  else if BodyOffset ctx =? 0 then
    '(st, ctx) ← (if Length ctx =? Capacity ctx then HttpGrowBufferIfNeeded ctx (Capacity ctx + PAGE_SIZE) a else Some (STATUS_SUCCESS, ctx));
    if negb (NT_SUCCESS st) then next ctx (Call (FnComplete st))
    else await_receive ctx a IntoBuffer (Length ctx) (u32 (Capacity ctx - Length ctx))
  else if bool_decide (is_Some (TargetMdl ctx)) then
    await_receive ctx a IntoMdl (u32 (Length ctx - u32 (BodyOffset ctx))) (u32 (u32 (BodyEndOffset ctx) - Length ctx))
  else await_receive ctx a IntoBuffer (Length ctx) (u32 (u32 (BodyEndOffset ctx) - Length ctx)).

(** All three allocations, or none that counts: the MDL is built last and is
    the guard. *)
Definition BlorgEnsureTlsRecvBuffer (s : KSOCKET) (a : ANSWERS) : NTSTATUS * KSOCKET :=
  match TlsRecvBuffer s with
  | Some _ => (STATUS_SUCCESS, s)
  | None =>
      if a_Memory a
      then (STATUS_SUCCESS, mkSocket (sk_Id s) (sk_TlsComplete s) (sk_WriteSeq s) (sk_ReadSeq s) (Some (junk a BlorgSocketTlsRecvCapacity)) (TlsRecvLength s) (TlsRecvOffset s))
      else (STATUS_INSUFFICIENT_RESOURCES, s)
  end.

(** Up to the drain loop. *)
Definition HttpIssueTlsReceive (ctx : HTTP_CONTEXT) (s : KSOCKET) (a : ANSWERS) : HANDLED :=
  if negb (a_Stack a) then next ctx (Call (FnComplete STATUS_INSUFFICIENT_RESOURCES))
  else
    let '(st, s) := BlorgEnsureTlsRecvBuffer s a in
    let ctx := with_Socket ctx (Some s) in
    if negb (NT_SUCCESS st) then next ctx (Call (FnComplete st)) else next ctx (Call FnTlsDrain).

Definition HttpIssueReceiveDispatch (ctx : HTTP_CONTEXT) (a : ANSWERS) : HANDLED :=
  s ← Socket ctx;
  if sk_TlsComplete s then HttpIssueTlsReceive ctx s a else HttpIssueReceive ctx a.

Definition with_Recv (s : KSOCKET) (buffer : list Z) (len off : Z) : KSOCKET :=
  mkSocket (sk_Id s) (sk_TlsComplete s) (sk_WriteSeq s) (sk_ReadSeq s) (Some buffer) len off.
Definition with_ReadSeq (s : KSOCKET) (seq : Z) : KSOCKET :=
  mkSocket (sk_Id s) (sk_TlsComplete s) (sk_WriteSeq s) seq (TlsRecvBuffer s) (TlsRecvLength s) (TlsRecvOffset s).

(** The cursors reset where the accumulator is drained, its tail moved to the
    front where a record might not fit behind it. *)
Definition recv_make_room (s : KSOCKET) (buffer : list Z) : option KSOCKET :=
  if TlsRecvOffset s =? TlsRecvLength s then Some (with_Recv s buffer 0 0)
  else if negb (TlsRecvOffset s =? 0) && (u32 (BlorgSocketTlsRecvCapacity - TlsRecvLength s) <? 5 + TLS_RECORD_CIPHERTEXT_MAX) then
    tail ← rd_list buffer (TlsRecvOffset s) (u32 (TlsRecvLength s - TlsRecvOffset s));
    buffer ← wr_list buffer 0 tail;
    Some (with_Recv s buffer (u32 (TlsRecvLength s - TlsRecvOffset s)) 0)
  else Some s.

(** After the loop: no complete record is left, and more is asked for. *)
Definition tls_receive_more (ctx : HTTP_CONTEXT) (s : KSOCKET) (buffer : list Z) (a : ANSWERS) : HANDLED :=
  s ← recv_make_room s buffer;
  let ctx := with_Socket ctx (Some s) in
  buffer ← TlsRecvBuffer s;
  let len := u32 (BlorgSocketTlsRecvCapacity - TlsRecvLength s) in
  if negb (in_window buffer (TlsRecvLength s) len) then None
  else if negb (a_Issue a =? STATUS_PENDING) then next ctx (Call (FnComplete (a_Issue a)))
  else next ctx (AwaitTlsReceive (TlsRecvLength s) len).

(** Where a record's inner plaintext goes. *)
Inductive DESTINATION := ToMdl (offset : Z) | ToScratch (spillDest spillRoom : Z) | ToBuffer (offset : Z) | Nowhere (st : NTSTATUS).

Definition record_destination (ctx : HTTP_CONTEXT) (innerLen : Z) (a : ANSWERS) : option (HTTP_CONTEXT * DESTINATION) :=
  if bool_decide (is_Some (TargetMdl ctx)) && negb (BodyOffset ctx =? 0) then
    if BodyEndOffset ctx <? Length ctx then Some (ctx, Nowhere STATUS_INVALID_PARAMETER)
    else if negb (a_Mapping a) then Some (ctx, Nowhere STATUS_INSUFFICIENT_RESOURCES)
    else
      let mdlRoom := u32 (u32 (BodyEndOffset ctx) - Length ctx) in
      let mdlDest := u32 (Length ctx - u32 (BodyOffset ctx)) in
      if innerLen <=? mdlRoom then Some (ctx, ToMdl mdlDest) else Some (ctx, ToScratch mdlDest mdlRoom)
  else
    '(st, ctx) ← HttpGrowBufferIfNeeded ctx (Length ctx + innerLen) a;
    if negb (NT_SUCCESS st) then Some (ctx, Nowhere st) else Some (ctx, ToBuffer (Length ctx)).

(** The AEAD writes [innerLen] bytes at the destination, whatever its status;
    the result is the context and those bytes. *)
Definition decrypt_to (ctx : HTTP_CONTEXT) (d : DESTINATION) (plaintext : list Z) : option HTTP_CONTEXT :=
  match d with
  | ToMdl offset => mdl ← TargetMdl ctx; mdl ← wr_list mdl offset plaintext; Some (with_Mdl ctx mdl)
  | ToBuffer offset => buffer ← wr_list (Buffer ctx) offset plaintext; Some (with_Buffer ctx buffer (Capacity ctx))
  | ToScratch _ _ => if TLS_RECORD_CIPHERTEXT_MAX <? Z.of_nat (length plaintext) then None else Some ctx
  | Nowhere _ => None
  end.

(** The content of an application-data record, in its place. *)
Definition deliver_record (ctx : HTTP_CONTEXT) (d : DESTINATION) (content : list Z) : HANDLED :=
  let contentLen := Z.of_nat (length content) in
  let advance ctx :=
    let ctx := with_Length ctx (u32 (Length ctx + contentLen)) in
    if (BodyOffset ctx =? 0) || (BodyEndOffset ctx <=? Length ctx)
    then Some (with_Stage ctx HttpStageReadResponse, [Delivered content], Call FnKick)
    else Some (ctx, [Delivered content], Call FnTlsDrain) in
  match d with
  | ToScratch spillDest spillRoom =>
      if spillRoom <? contentLen then HttpFail ctx STATUS_INVALID_PARAMETER
      else mdl ← TargetMdl ctx; mdl ← wr_list mdl spillDest content; advance (with_Mdl ctx mdl)
  | _ => advance ctx
  end.

(** One record of type 0x17, [innerLen] bytes of ciphertext and the tag. *)
Definition open_record (ctx : HTTP_CONTEXT) (s : KSOCKET) (declaredLen : Z) (a : ANSWERS) : HANDLED :=
  let innerLen := u32 (declaredLen - TLS_TAG_LEN) in
  buffer ← TlsRecvBuffer s;
  _ ← rd_list buffer (TlsRecvOffset s) (5 + declaredLen);
  '(ctx, d) ← record_destination ctx innerLen a;
  match d with
  | Nowhere st => HttpFail ctx st
  | _ =>
      let '(st, plaintext) := a_Open a innerLen in
      ctx ← decrypt_to ctx d plaintext;
      if negb (NT_SUCCESS st) then next ctx (Call (FnFailOrRetry st))
      else
        let s := with_ReadSeq (with_Recv s buffer (TlsRecvLength s) (u32 (TlsRecvOffset s + u32 (5 + declaredLen)))) (u64 (sk_ReadSeq s + 1)) in
        let ctx := with_Socket ctx (Some s) in
        stripped ← BlorgTlsStripInnerPlaintext plaintext;
        match stripped with
        | None => next ctx (Call (FnFailOrRetry STATUS_INVALID_PARAMETER))
        | Some (contentType, contentLen) =>
            if 0x16 =? contentType then next ctx (Call FnTlsDrain)
            else if negb (0x17 =? contentType) then next ctx (Call (FnFailOrRetry STATUS_INVALID_PARAMETER))
            else content ← rd_list plaintext 0 contentLen; deliver_record ctx d content
        end
  end.

(** One turn of the loop. *)
Definition tls_drain (ctx : HTTP_CONTEXT) (a : ANSWERS) : HANDLED :=
  s ← Socket ctx;
  buffer ← TlsRecvBuffer s;
  let buffered := u32 (TlsRecvLength s - TlsRecvOffset s) in
  if buffered <? 5 then tls_receive_more ctx s buffer a
  else
    recordType ← rd buffer (TlsRecvOffset s);
    b3 ← rd buffer (TlsRecvOffset s + 3);
    b4 ← rd buffer (TlsRecvOffset s + 4);
    let declaredLen := Z.lor (Z.shiftl b3 8) b4 in
    if 0x15 =? recordType then next ctx (Call (FnFailOrRetry STATUS_CONNECTION_RESET))
    else if (TLS_RECORD_CIPHERTEXT_MAX <? declaredLen) || (negb (0x17 =? recordType) && negb (0x14 =? recordType)) then next ctx (Call (FnFailOrRetry STATUS_INVALID_PARAMETER))
    else if buffered <? 5 + declaredLen then tls_receive_more ctx s buffer a
    else if 0x14 =? recordType then
      next (with_Socket ctx (Some (with_Recv s buffer (TlsRecvLength s) (u32 (TlsRecvOffset s + (5 + declaredLen)))))) (Call FnTlsDrain)
    else if declaredLen <? TLS_TAG_LEN + 1 then next ctx (Call (FnFailOrRetry STATUS_INVALID_PARAMETER))
    else open_record ctx s declaredLen a.

(** ** The response *)

Definition HttpParseHeaders (ctx : HTTP_CONTEXT) : option (NTSTATUS * HTTP_CONTEXT) :=
  received ← rd_list (Buffer ctx) 0 (Length ctx);
  match phr_parse_response received with
  | PhrPartial => Some (if HTTP_MAX_HEADER_BYTES <=? Length ctx then STATUS_INVALID_NETWORK_RESPONSE else STATUS_BUFFER_TOO_SMALL, ctx)
  | PhrError => Some (STATUS_INVALID_PARAMETER, ctx)
  | PhrParsed bytes code headers =>
      let ctx := with_Parse ctx bytes (ContentLength ctx) (BodyEndOffset ctx) headers code in
      let '(st, contentLength) := HttpGetContentLengthFromHeaders headers in
      if negb (NT_SUCCESS st) then Some (st, ctx)
      else if HTTP_MAX_CONTENT_LENGTH <? contentLength then Some (STATUS_INVALID_PARAMETER, ctx)
      else
        match HttpCheckedAddSizeT bytes contentLength with
        | None => Some (STATUS_INVALID_PARAMETER, ctx)
        | Some bodyEndOffset =>
            let metadata := bool_decide (Operation ctx = HttpOpDirInfo) || bool_decide (Operation ctx = HttpOpFileInfo) in
            noStore ← (if metadata then HttpForbidsStoring headers else Some false);
            version ← (if bool_decide (Operation ctx = HttpOpFileRead) then HttpParseFileVersion headers else Some None);
            Some (STATUS_SUCCESS, with_Notes (with_Parse ctx bytes contentLength bodyEndOffset headers code) noStore version)
        end
  end.

(** The checks on freshly parsed headers: [inr] when they pass. *)
Definition check_headers (ctx : HTTP_CONTEXT) : option (FN * HTTP_CONTEXT + HTTP_CONTEXT) :=
  '(st, ctx) ← HttpParseHeaders ctx;
  Some (if st =? STATUS_BUFFER_TOO_SMALL then inl (FnIssueReceiveDispatch, ctx)
        else if negb (NT_SUCCESS st) then inl (FnFail st, ctx)
        else if negb (StatusCode ctx =? ExpectedStatusCode ctx) then inl (FnFail (HttpStatusToNtStatus (StatusCode ctx)), ctx)
        else if bool_decide (Operation ctx = HttpOpFileRead) && negb (ContentLength ctx =? ExpectedContentLength ctx) then inl (FnFail STATUS_INVALID_PARAMETER, ctx)
        else inr ctx).

(** The body received with the headers goes to the caller's MDL. *)
Definition spill_to_mdl (ctx : HTTP_CONTEXT) (mdl : list Z) (a : ANSWERS) : option (NTSTATUS * HTTP_CONTEXT) :=
  let spill := u64 (Length ctx - BodyOffset ctx) in
  if spill =? 0 then Some (STATUS_SUCCESS, ctx)
  else if negb (a_Mapping a) then Some (STATUS_INSUFFICIENT_RESOURCES, ctx)
  else
    bytes ← rd_list (Buffer ctx) (BodyOffset ctx) spill;
    mdl ← wr_list mdl 0 bytes;
    Some (STATUS_SUCCESS, with_Mdl ctx mdl).

(** The body of a metadata answer starts on an 8-byte boundary. *)
Definition align_body (ctx : HTTP_CONTEXT) (a : ANSWERS) : option (NTSTATUS * HTTP_CONTEXT) :=
  let alignedBodyOffset := Z.land (u64 (BodyOffset ctx + 7)) (Z.lnot 7) in
  if alignedBodyOffset =? BodyOffset ctx then Some (STATUS_SUCCESS, ctx)
  else
    match HttpCheckedAddSizeT alignedBodyOffset (ContentLength ctx) with
    | None => Some (STATUS_INVALID_PARAMETER, ctx)
    | Some alignedBodyEnd =>
        '(st, ctx) ← HttpGrowBufferIfNeeded ctx (u64 (alignedBodyEnd + 1)) a;
        if negb (NT_SUCCESS st) then Some (st, ctx)
        else
          bytes ← rd_list (Buffer ctx) (BodyOffset ctx) (u64 (Length ctx - BodyOffset ctx));
          buffer ← wr_list (Buffer ctx) alignedBodyOffset bytes;
          let ctx' := with_Length (with_Buffer ctx buffer (Capacity ctx)) (u32 (Length ctx + u32 (alignedBodyOffset - BodyOffset ctx))) in
          Some (STATUS_SUCCESS, with_Parse ctx' alignedBodyOffset (ContentLength ctx) alignedBodyEnd (Headers ctx) (StatusCode ctx))
    end.

(** What is done once, when the headers were just parsed.  The second growth
    has an answer of its own. *)
Definition prepare_body (ctx : HTTP_CONTEXT) (a a' : ANSWERS) : option (NTSTATUS * HTTP_CONTEXT) :=
  match TargetMdl ctx with
  | Some mdl => spill_to_mdl ctx mdl a
  | None =>
      '(st, ctx) ← (if bool_decide (Operation ctx = HttpOpFileRead) then Some (STATUS_SUCCESS, ctx) else align_body ctx a);
      if negb (NT_SUCCESS st) then Some (st, ctx) else HttpGrowBufferIfNeeded ctx (u64 (BodyEndOffset ctx + 1)) a'
  end.

(** From the body's completion test on. *)
Definition read_body (ctx : HTTP_CONTEXT) : HANDLED :=
  if Length ctx <? BodyEndOffset ctx then next ctx (Call FnIssueReceiveDispatch)
  else
    s ← Socket ctx;
    Some (with_Stage (with_Socket ctx None) HttpStageDispatch, [ReleaseSocket (sk_Id s)], Call FnKick).

Definition HttpReadResponse (ctx : HTTP_CONTEXT) (a a' : ANSWERS) : HANDLED :=
  let headersJustParsed := BodyOffset ctx =? 0 in
  checked ← (if headersJustParsed then check_headers ctx else Some (inr ctx));
  match checked with
  | inl (f, ctx) => next ctx (Call f)
  | inr ctx =>
      if BodyEndOffset ctx <? Length ctx then HttpFail ctx STATUS_INVALID_PARAMETER
      else
        '(st, ctx) ← (if headersJustParsed then prepare_body ctx a a' else Some (STATUS_SUCCESS, ctx));
        if negb (NT_SUCCESS st) then HttpFail ctx st else read_body ctx
  end.

(** ** Dispatch *)

(** The response's body, where it was received. *)
Definition response_body (ctx : HTTP_CONTEXT) : option (list Z) :=
  match TargetMdl ctx with
  | Some mdl => rd_list mdl 0 (ContentLength ctx)
  | None => rd_list (Buffer ctx) (BodyOffset ctx) (ContentLength ctx)
  end.

(** A file read hands its body over as it is; the others are decoded first. *)
Definition HttpDispatchInline (ctx : HTTP_CONTEXT) (a : ANSWERS) : HANDLED :=
  body ← response_body ctx;
  let result := if bool_decide (Operation ctx = HttpOpFileRead) then STATUS_SUCCESS else a_Decoded a in
  if negb (NT_SUCCESS result) then HttpFail ctx result
  else if Routine ctx then Some (with_Stage (with_Routine ctx false) HttpStageComplete, [Callback STATUS_SUCCESS (Some body)], Call FnKick)
  else None.

Definition HttpDispatch (ctx : HTTP_CONTEXT) (irql : Z) : HANDLED :=
  if HttpMustBounceToPassive ctx irql then queue_worker ctx HttpDispatchWorker else next ctx (Call FnDispatchInline).

(** ** The stage machine *)

Definition HttpKick (ctx : HTTP_CONTEXT) (a a' : ANSWERS) (irql : Z) : HANDLED :=
  match Stage ctx with
  | HttpStageAcquireSocket => acquire_socket ctx a irql
  | HttpStageTlsHandshake => tls_handshake ctx irql
  | HttpStageSendRequest => send_request ctx a
  | HttpStageReceive => HttpIssueReceiveDispatch ctx a
  | HttpStageReadResponse => HttpReadResponse ctx a a'
  | HttpStageDispatch => HttpDispatch ctx irql
  | HttpStageComplete => HttpComplete ctx STATUS_SUCCESS irql
  | HttpStageFailed => HttpComplete ctx (FinalStatus ctx) irql
  end.

(** ** Completions *)

Definition HttpOnSocket (ctx : HTTP_CONTEXT) (st : NTSTATUS) (s : KSOCKET) (reused : bool) : HANDLED :=
  if (STATUS_IO_TIMEOUT =? st) && (u32 (ConnectTimeouts ctx + 1) <? HTTP_CONNECT_ATTEMPTS) then
    let ctx := with_Source (with_Timeouts ctx (u32 (ConnectTimeouts ctx + 1))) HttpConnectionFresh in
    next (with_Stage ctx HttpStageAcquireSocket) (Call FnKick)
  else if negb (NT_SUCCESS st) then HttpFail ctx st
  else
    let ctx := with_Source (with_Socket ctx (Some s)) (if reused then HttpConnectionReused else HttpConnectionFresh) in
    Some (with_Stage ctx (if TlsEnabled && negb (sk_TlsComplete s) then HttpStageTlsHandshake else HttpStageSendRequest), [Acquired (sk_Id s)], Call FnKick).

Definition HttpOnTlsHandshakeComplete (ctx : HTTP_CONTEXT) (st : NTSTATUS) : HANDLED :=
  if negb (NT_SUCCESS st) then HttpFailOrRetryReusedConnection ctx st else next (with_Stage ctx HttpStageSendRequest) (Call FnKick).

Definition HttpOnSend (ctx : HTTP_CONTEXT) (st : NTSTATUS) : HANDLED :=
  if negb (NT_SUCCESS st) then HttpFailOrRetryReusedConnection ctx st else next (with_Stage ctx HttpStageReceive) (Call FnKick).

(** [data] is what the network put in the window. *)
Definition HttpOnReceive (ctx : HTTP_CONTEXT) (st : NTSTATUS) (data : list Z) : HANDLED :=
  let bytesTransferred := Z.of_nat (length data) in
  if negb (NT_SUCCESS st) then HttpFailOrRetryReusedConnection ctx st
  else if (bytesTransferred =? 0) && ((BodyOffset ctx =? 0) || (Length ctx <? BodyEndOffset ctx)) then
    HttpFailOrRetryReusedConnection ctx STATUS_CONNECTION_DISCONNECTED
  else
    Some (with_Stage (with_Length ctx (u32 (Length ctx + u32 bytesTransferred))) HttpStageReadResponse, [Delivered data], Call FnKick).

Definition HttpOnTlsReceive (ctx : HTTP_CONTEXT) (st : NTSTATUS) (bytesTransferred : Z) (a : ANSWERS) : HANDLED :=
  if negb (NT_SUCCESS st) then HttpFailOrRetryReusedConnection ctx st
  else if bytesTransferred =? 0 then HttpFailOrRetryReusedConnection ctx STATUS_CONNECTION_DISCONNECTED
  else
    s ← Socket ctx;
    buffer ← TlsRecvBuffer s;
    let s := with_Recv s buffer (u32 (TlsRecvLength s + u32 bytesTransferred)) (TlsRecvOffset s) in
    HttpIssueTlsReceive (with_Socket ctx (Some s)) s a.

(** A handler called from another. *)
Definition run_fn (f : FN) (ctx : HTTP_CONTEXT) (a a' : ANSWERS) (irql : Z) : HANDLED :=
  match f with
  | FnKick => HttpKick ctx a a' irql
  | FnFail st => HttpFail ctx st
  | FnFailOrRetry st => HttpFailOrRetryReusedConnection ctx st
  | FnIssueReceiveDispatch => HttpIssueReceiveDispatch ctx a
  | FnTlsDrain => tls_drain ctx a
  | FnDispatchInline => HttpDispatchInline ctx a
  | FnComplete st => HttpComplete ctx st irql
  end.

(** A work item's routine, which runs at PASSIVE_LEVEL. *)
Definition run_worker (w : WORKER) (ctx : HTTP_CONTEXT) : HANDLED :=
  match w with
  | HttpAcquireSocketWorker => next ctx (Call FnKick)
  | HttpTlsHandshakeWorker => next ctx AwaitHandshake
  | HttpDispatchWorker => next ctx (Call FnDispatchInline)
  | HttpCompleteWorker => next ctx (Call (FnComplete (FinalStatus ctx)))
  end.

(** ** Entry points *)

Definition HttpNeedsWorkItem (op : HTTP_OPERATION) : bool := negb (bool_decide (op = HttpOpFileRead)) || TlsEnabled.

(** [active]: HttpAcquireActive's answer; the three allocations have answers
    of their own. *)
Definition HttpAllocateContext (op : HTTP_OPERATION) (expectedStatusCode initialCapacity : Z) (active : bool) (a : ANSWERS) : option HTTP_CONTEXT :=
  if negb active || negb (a_Memory a) || negb (a_Memory2 a) then None
  else if HttpNeedsWorkItem op && negb (a_WorkItem a) then None
  else
    Some (mkContext None [] 0 0 (junk a initialCapacity) None 0 0 0 [] 0 false (HttpNeedsWorkItem op) HttpStageAcquireSocket STATUS_SUCCESS
            HttpConnectionPoolable op 0 expectedStatusCode (u32 initialCapacity) 0 0 false None).

(** The context a file read starts with, or the status it is refused with;
    [request]: the request's bytes or the status of building it. *)
Definition HttpGetFileCommon (startOffset len : Z) (mdl : option (list Z)) (request : NTSTATUS + list Z) (active : bool) (a : ANSWERS) : NTSTATUS + HTTP_CONTEXT :=
  if len =? 0 then inl STATUS_INVALID_PARAMETER
  else
    match HttpCheckedAddSizeT startOffset len with
    | None => inl STATUS_INVALID_PARAMETER
    | Some endOffsetExclusive =>
        if endOffsetExclusive =? 0 then inl STATUS_INVALID_PARAMETER
        else
          match (match mdl with Some _ => Some HTTP_MDL_INITIAL_RECV_CAPACITY | None => HttpCheckedAddSizeT len HTTP_MDL_INITIAL_RECV_CAPACITY end) with
          | None => inl STATUS_INVALID_PARAMETER
          | Some capacity =>
              match HttpAllocateContext HttpOpFileRead 206 capacity active a with
              | None => inl STATUS_INSUFFICIENT_RESOURCES
              | Some c =>
                  match request with
                  | inl st => inl st
                  | inr bytes =>
                      inr (mkContext None bytes 0 0 (Buffer c) mdl 0 0 0 [] len true (WorkItem c) (Stage c) (FinalStatus c) (ConnectionSource c)
                             (Operation c) 0 (ExpectedStatusCode c) (Capacity c) 0 0 false None)
                  end
              end
          end
    end.

(** The three metadata requests differ in their operation and capacity. *)
Definition http_get_metadata (op : HTTP_OPERATION) (capacity : Z) (request : NTSTATUS + list Z) (active : bool) (a : ANSWERS) : NTSTATUS + HTTP_CONTEXT :=
  match HttpAllocateContext op 200 capacity active a with
  | None => inl STATUS_INSUFFICIENT_RESOURCES
  | Some c =>
      match request with
      | inl st => inl st
      | inr bytes =>
          inr (mkContext None bytes 0 0 (Buffer c) None 0 0 0 [] 0 true (WorkItem c) (Stage c) (FinalStatus c) (ConnectionSource c)
                 (Operation c) 0 (ExpectedStatusCode c) (Capacity c) 0 0 false None)
      end
  end.
Definition BlorgHttpGetDirectoryInfo := http_get_metadata HttpOpDirInfo HTTP_INITIAL_RECV_CAPACITY.
Definition BlorgHttpGetFileInformation := http_get_metadata HttpOpFileInfo PAGE_SIZE.
Definition BlorgHttpGetChanges := http_get_metadata HttpOpChanges HTTP_INITIAL_RECV_CAPACITY.
Definition BlorgHttpGetFile (startOffset len : Z) := HttpGetFileCommon startOffset len None.
Definition BlorgHttpGetFileMdl (startOffset len : Z) (mdl : list Z) := HttpGetFileCommon startOffset len (Some mdl).
End Client.
