(* ===== verification/ClientRequestSystem.v ===== *)
(** * A request and the events that drive it

    The events a request can see in each of its states, the step relation they
    make, and the invariant: what has arrived of the response is where the
    context's offsets say it is, the windows handed to the network lie inside
    their buffers, and sockets, callback and context are given back as the
    trace of effects shows. *)

From S2P Require Import Prelude Buffers ListingIndex ClientText TlsCrypto TlsCodec TlsParse TlsRoundTrip ClientRequest.

#[local] Open Scope Z_scope.

(** ** Events *)

(** [q_Irql] is the level the running handlers run at. *)
Record REQUEST := mkRequest { q_Ctx : HTTP_CONTEXT; q_Next : NEXT; q_Irql : Z; q_Trace : list EFFECT }.

Definition irql_ok (irql : Z) : Prop := PASSIVE_LEVEL <= irql <= DISPATCH_LEVEL.

(** An operation is pending or it failed (Socket.h); opening a record gives as
    many bytes as it was handed; memory holds bytes. *)
Record answers_ok (a : ANSWERS) : Prop := {
  ao_issue : NT_SUCCESS (a_Issue a) = true -> a_Issue a = STATUS_PENDING;
  ao_open n : 0 <= n -> Z.of_nat (length (snd (a_Open a n))) = n;
  ao_junk i : is_byte (a_Junk a i)
}.

Section System.
Context `{HttpEnvironment}.

Record socket_ok (s : KSOCKET) : Prop := {
  so_offset : 0 <= TlsRecvOffset s <= TlsRecvLength s;
  so_length : TlsRecvLength s <= BlorgSocketTlsRecvCapacity;
  so_buffer b : TlsRecvBuffer s = Some b -> Z.of_nat (length b) = BlorgSocketTlsRecvCapacity /\ bytes_ok b
}.

(** What the network put in the window. *)
Definition land_data (ctx : HTTP_CONTEXT) (target : TARGET) (offset : Z) (data : list Z) : option HTTP_CONTEXT :=
  match target with
  | IntoBuffer => buffer ← wr_list (Buffer ctx) offset data; Some (with_Buffer ctx buffer (Capacity ctx))
  | IntoMdl => mdl ← TargetMdl ctx; mdl ← wr_list mdl offset data; Some (with_Mdl ctx mdl)
  end.
Definition land_ciphertext (ctx : HTTP_CONTEXT) (offset : Z) (data : list Z) : option HTTP_CONTEXT :=
  s ← Socket ctx;
  buffer ← TlsRecvBuffer s;
  buffer ← wr_list buffer offset data;
  Some (with_Socket ctx (Some (with_Recv s buffer (TlsRecvLength s) (TlsRecvOffset s)))).

(** [event q irql h]: at [q] something can happen, at [irql], to which the
    code answers [h]. *)
Inductive event : REQUEST -> Z -> HANDLED -> Prop :=
  | event_call ctx f irql tr a a' :
      answers_ok a -> answers_ok a' -> event (mkRequest ctx (Call f) irql tr) irql (run_fn f ctx a a' irql)
  | event_worker ctx w irql tr : event (mkRequest ctx (AwaitWorker w) irql tr) PASSIVE_LEVEL (run_worker w ctx)
  | event_socket ctx st s reused irql irql' tr :
      irql_ok irql' -> socket_ok s -> event (mkRequest ctx AwaitSocket irql tr) irql' (HttpOnSocket ctx st s reused)
  | event_handshake ctx s s' st irql irql' tr :
      irql_ok irql' -> Socket ctx = Some s -> socket_ok s' -> sk_Id s' = sk_Id s ->
      event (mkRequest ctx AwaitHandshake irql tr) irql' (HttpOnTlsHandshakeComplete (with_Socket ctx (Some s')) st)
  | event_sent ctx st irql irql' tr : irql_ok irql' -> event (mkRequest ctx AwaitSend irql tr) irql' (HttpOnSend ctx st)
  | event_received ctx target offset len st data irql irql' tr :
      irql_ok irql' -> Z.of_nat (length data) <= len ->
      event (mkRequest ctx (AwaitReceive target offset len) irql tr) irql' (ctx ← land_data ctx target offset data; HttpOnReceive ctx st data)
  | event_tls_received ctx offset len st data a irql irql' tr :
      irql_ok irql' -> answers_ok a -> Z.of_nat (length data) <= len -> bytes_ok data ->
      event (mkRequest ctx (AwaitTlsReceive offset len) irql tr) irql'
        (ctx ← land_ciphertext ctx offset data; HttpOnTlsReceive ctx st (Z.of_nat (length data)) a).

Definition http_step (q q' : REQUEST) : Prop :=
  exists irql ctx fx n, event q irql (Some (ctx, fx, n)) /\ q' = mkRequest ctx n irql (q_Trace q ++ fx).

(** ** What the trace shows *)

Definition arrived (fx : list EFFECT) : list Z := fx ≫= (fun e => match e with Delivered l => l | _ => [] end).
Definition acquired (fx : list EFFECT) : list Z := fx ≫= (fun e => match e with Acquired s => [s] | _ => [] end).
Definition given_back (fx : list EFFECT) : list Z := fx ≫= (fun e => match e with CloseSocket s | ReleaseSocket s => [s] | _ => [] end).
Definition callbacks (fx : list EFFECT) : list (NTSTATUS * option (list Z)) := fx ≫= (fun e => match e with Callback st b => [(st, b)] | _ => [] end).
Definition freed (fx : list EFFECT) : list bool := fx ≫= (fun e => match e with FreeContext b => [b] | _ => [] end).

Definition held_socket (ctx : HTTP_CONTEXT) : list Z := match Socket ctx with Some s => [sk_Id s] | None => [] end.

(** ** The invariant *)

(** The most a request's buffer can come to hold, from its first capacity. *)
Definition header_room (first : Z) : Z := Z.max first (HTTP_MAX_HEADER_BYTES + TLS_RECORD_CIPHERTEXT_MAX).
Definition buffer_limit (first : Z) : Z := header_room first + HTTP_MAX_CONTENT_LENGTH + TLS_RECORD_CIPHERTEXT_MAX + 8.

(** [header] heads the response [stream], and announces a body of [n] bytes. *)
Definition announces (ctx : HTTP_CONTEXT) (stream header : list Z) (n : Z) : Prop :=
  exists seen code headers, seen `prefix_of` stream /\
    phr_parse_response seen = PhrParsed (Z.of_nat (length header)) code headers /\ header `prefix_of` seen /\
    code = ExpectedStatusCode ctx /\ HttpGetContentLengthFromHeaders headers = (STATUS_SUCCESS, n) /\ n <= HTTP_MAX_CONTENT_LENGTH /\
    (Operation ctx = HttpOpFileRead -> n = ExpectedContentLength ctx).

Section Invariant.
(** The first capacity of the request's buffer. *)
Context (first : Z).

(** The memory a request has, in any phase. *)
Record memory_ok (ctx : HTTP_CONTEXT) : Prop := {
  mo_capacity : 0 <= Capacity ctx <= Z.of_nat (length (Buffer ctx));
  mo_small : Capacity ctx < 4294967296;
  mo_limit : Z.of_nat (length (Buffer ctx)) <= buffer_limit first;
  mo_length : 0 <= Length ctx < 4294967296;
  mo_mdl mdl : TargetMdl ctx = Some mdl -> Operation ctx = HttpOpFileRead /\ ExpectedContentLength ctx <= Z.of_nat (length mdl) /\ first <= HTTP_MAX_HEADER_BYTES
}.

(** Before the headers are parsed. *)
Record header_phase (ctx : HTTP_CONTEXT) (stream : list Z) : Prop := {
  hp_offset : BodyOffset ctx = 0;
  hp_length : Length ctx = Z.of_nat (length stream);
  hp_fits : Length ctx <= Capacity ctx;
  hp_sits : sits (Buffer ctx) 0 stream;
  hp_room : Z.of_nat (length (Buffer ctx)) <= header_room first
}.

(** After: [part] of the body has arrived, in its place. *)
Record body_phase (ctx : HTTP_CONTEXT) (stream part : list Z) : Prop := {
  bp_offset : 0 < BodyOffset ctx <= header_room first + 7;
  bp_content : 0 <= ContentLength ctx <= HTTP_MAX_CONTENT_LENGTH;
  bp_end : BodyEndOffset ctx = BodyOffset ctx + ContentLength ctx;
  bp_length : Length ctx = BodyOffset ctx + Z.of_nat (length part);
  bp_stream : exists header, stream = header ++ part /\ announces ctx stream header (ContentLength ctx);
  bp_sits : match TargetMdl ctx with
            | Some mdl => sits mdl 0 part /\ ContentLength ctx <= Z.of_nat (length mdl) /\ Length ctx <= BodyEndOffset ctx
            | None => sits (Buffer ctx) (BodyOffset ctx) part /\ BodyEndOffset ctx < Capacity ctx /\ Length ctx <= Capacity ctx
            end;
  bp_small : BodyEndOffset ctx < 4294967296
}.

Definition receiving (ctx : HTTP_CONTEXT) (stream : list Z) : Prop := header_phase ctx stream \/ exists part, body_phase ctx stream part.
(** More is wanted. *)
Definition wanting (ctx : HTTP_CONTEXT) (stream : list Z) : Prop :=
  (header_phase ctx stream /\ Length ctx < HTTP_MAX_HEADER_BYTES) \/ exists part, body_phase ctx stream part /\ Length ctx < BodyEndOffset ctx.
(** All of it is there. *)
Definition complete (ctx : HTTP_CONTEXT) (stream : list Z) : Prop := exists part, body_phase ctx stream part /\ Length ctx = BodyEndOffset ctx.
(** Nothing has arrived. *)
Definition untouched (ctx : HTTP_CONTEXT) (stream : list Z) : Prop := header_phase ctx stream /\ stream = [].

Definition connected (ctx : HTTP_CONTEXT) : Prop := exists s, Socket ctx = Some s /\ socket_ok s.
Definition draining (ctx : HTTP_CONTEXT) : Prop := exists s, Socket ctx = Some s /\ socket_ok s /\ is_Some (TlsRecvBuffer s).

(** The window handed to the network. *)
Definition window_ok (ctx : HTTP_CONTEXT) (stream : list Z) (target : TARGET) (offset len : Z) : Prop :=
  0 < len /\
  match target with
  | IntoBuffer => offset = Length ctx /\
      ((header_phase ctx stream /\ Length ctx < HTTP_MAX_HEADER_BYTES /\ offset + len <= Capacity ctx) \/
       (TargetMdl ctx = None /\ exists part, body_phase ctx stream part /\ offset + len = BodyEndOffset ctx))
  | IntoMdl => exists part, is_Some (TargetMdl ctx) /\ body_phase ctx stream part /\ offset = Z.of_nat (length part) /\ len = BodyEndOffset ctx - Length ctx
  end.

Definition failing (st : NTSTATUS) (ctx : HTTP_CONTEXT) : Prop := NT_SUCCESS st = false /\ Routine ctx = true.
Definition over (st : NTSTATUS) (ctx : HTTP_CONTEXT) : Prop := NT_SUCCESS st = true /\ Routine ctx = false /\ Socket ctx = None.

(** What holds where a request is. *)
Definition place_ok (ctx : HTTP_CONTEXT) (n : NEXT) (stream : list Z) : Prop :=
  match n with
  | Call FnKick =>
      match Stage ctx with
      | HttpStageAcquireSocket => Routine ctx = true /\ Socket ctx = None /\ untouched ctx stream
      | HttpStageTlsHandshake | HttpStageSendRequest | HttpStageReceive => Routine ctx = true /\ connected ctx /\ untouched ctx stream
      | HttpStageReadResponse => Routine ctx = true /\ connected ctx /\ receiving ctx stream
      | HttpStageDispatch => Routine ctx = true /\ Socket ctx = None /\ complete ctx stream
      | HttpStageComplete => over STATUS_SUCCESS ctx
      | HttpStageFailed => failing (FinalStatus ctx) ctx
      end
  | Call (FnFail st) => failing st ctx
  | Call (FnFailOrRetry st) => failing st ctx /\ receiving ctx stream
  | Call FnIssueReceiveDispatch => Routine ctx = true /\ connected ctx /\ wanting ctx stream
  | Call FnTlsDrain => Routine ctx = true /\ draining ctx /\ wanting ctx stream
  | Call FnDispatchInline => Routine ctx = true /\ Socket ctx = None /\ complete ctx stream
  | Call (FnComplete st) => failing st ctx \/ over st ctx
  | AwaitSocket => Routine ctx = true /\ Socket ctx = None /\ untouched ctx stream
  | AwaitHandshake | AwaitSend => Routine ctx = true /\ connected ctx /\ untouched ctx stream
  | AwaitReceive target offset len => Routine ctx = true /\ connected ctx /\ window_ok ctx stream target offset len
  | AwaitTlsReceive offset len =>
      Routine ctx = true /\ draining ctx /\ wanting ctx stream /\ 0 < len /\
      (forall s, Socket ctx = Some s -> offset = TlsRecvLength s /\ offset + len = BlorgSocketTlsRecvCapacity)
  | AwaitWorker HttpAcquireSocketWorker => Routine ctx = true /\ Socket ctx = None /\ untouched ctx stream /\ Stage ctx = HttpStageAcquireSocket
  | AwaitWorker HttpTlsHandshakeWorker => Routine ctx = true /\ connected ctx /\ untouched ctx stream
  | AwaitWorker HttpDispatchWorker => Routine ctx = true /\ Socket ctx = None /\ complete ctx stream
  | AwaitWorker HttpCompleteWorker => failing (FinalStatus ctx) ctx \/ over (FinalStatus ctx) ctx
  | Finished => True
  end.

(** A body handed over is what the response's headers announced. *)
Definition body_ok (ctx : HTTP_CONTEXT) (stream : list Z) (cb : NTSTATUS * option (list Z)) : Prop :=
  match cb with
  | (st, None) => NT_SUCCESS st = false
  | (st, Some body) => st = STATUS_SUCCESS /\ exists header, stream = header ++ body /\ announces ctx stream header (Z.of_nat (length body))
  end.

Record request_ok (q : REQUEST) : Prop := {
  ro_memory : memory_ok (q_Ctx q);
  ro_irql : irql_ok (q_Irql q);
  ro_work : Operation (q_Ctx q) <> HttpOpFileRead -> WorkItem (q_Ctx q) = true;
  ro_sockets : acquired (q_Trace q) ≡ₚ given_back (q_Trace q) ++ held_socket (q_Ctx q);
  ro_callbacks : Forall (body_ok (q_Ctx q) (arrived (q_Trace q))) (callbacks (q_Trace q));
  ro_once : match q_Next q with
            | Finished => length (callbacks (q_Trace q)) = 1%nat /\ length (freed (q_Trace q)) = 1%nat /\ Socket (q_Ctx q) = None
            | _ => length (callbacks (q_Trace q)) = (if Routine (q_Ctx q) then 0 else 1)%nat /\ freed (q_Trace q) = []
            end;
  ro_place : place_ok (q_Ctx q) (q_Next q) (arrived (q_Trace q))
}.
End Invariant.
End System.
