(* ===== verification/ClientRequestHandlers.v ===== *)
(** * The handlers of a request keep its invariant

    For each handler of [ClientRequest], run where the invariant of
    [ClientRequestSystem] holds with any answers: it is defined, and the
    invariant holds where it leaves the request. *)

From S2P Require Import Prelude Buffers ListingIndex ClientText ClientTextTheorems TlsCrypto TlsCodec TlsParse TlsRoundTrip ClientRequest ClientRequestSystem.

#[local] Open Scope Z_scope.

(** ** The trace *)

Lemma arrived_app fx fx' : arrived (fx ++ fx') = arrived fx ++ arrived fx'.
Proof. apply bind_app. Qed.
Lemma acquired_app fx fx' : acquired (fx ++ fx') = acquired fx ++ acquired fx'.
Proof. apply bind_app. Qed.
Lemma given_back_app fx fx' : given_back (fx ++ fx') = given_back fx ++ given_back fx'.
Proof. apply bind_app. Qed.
Lemma callbacks_app fx fx' : callbacks (fx ++ fx') = callbacks fx ++ callbacks fx'.
Proof. apply bind_app. Qed.
Lemma freed_app fx fx' : freed (fx ++ fx') = freed fx ++ freed fx'.
Proof. apply bind_app. Qed.

(** Projections of an updated context. *)
Ltac ctx_simpl :=
  cbn [Socket RequestBuffer TlsSendRecordCapacity TlsSendPlaintextCapacity Buffer TargetMdl BodyOffset ContentLength BodyEndOffset Headers
       ExpectedContentLength Routine WorkItem Stage FinalStatus ConnectionSource Operation StatusCode ExpectedStatusCode Capacity Length
       ConnectTimeouts NoStore Version with_Socket with_Send with_Buffer with_Mdl with_Parse with_Notes with_Length with_Stage with_Final
       with_Source with_Routine with_WorkItem with_Timeouts q_Ctx q_Next q_Irql q_Trace] in *.

Section Handlers.
Context `{HttpEnvironment} (first : Z).

(** A request before its callback. *)
Record live (ctx : HTTP_CONTEXT) (tr : list EFFECT) : Prop := {
  l_memory : memory_ok first ctx;
  l_work : Operation ctx <> HttpOpFileRead -> WorkItem ctx = true;
  l_sockets : acquired tr ≡ₚ given_back tr ++ held_socket ctx;
  l_callbacks : callbacks tr = [];
  l_freed : freed tr = [];
  l_routine : Routine ctx = true
}.

Definition good (tr : list EFFECT) (irql : Z) (h : HANDLED) : Prop :=
  exists ctx fx n, h = Some (ctx, fx, n) /\ request_ok first (mkRequest ctx n irql (tr ++ fx)).

Definition finished (n : NEXT) : bool := match n with Finished => true | _ => false end.

Lemma request_live ctx n irql tr : request_ok first (mkRequest ctx n irql tr) -> finished n = false -> Routine ctx = true -> live ctx tr.
Proof.
  intros [Hm _ Hw Hs _ Ho _] Hn Hr. ctx_simpl.
  assert (length (callbacks tr) = 0%nat /\ freed tr = []) as [Hc Hf] by (rewrite Hr in Ho; by destruct n). apply nil_length_inv in Hc. by split.
Qed.

Lemma live_request ctx n irql tr :
  live ctx tr -> irql_ok irql -> finished n = false -> place_ok first ctx n (arrived tr) -> request_ok first (mkRequest ctx n irql tr).
Proof.
  intros [Hm Hw Hs Hc Hf Hr] Hi Hn Hp. split; ctx_simpl; [done..|by rewrite Hc| |done].
  rewrite Hr, Hc, Hf. destruct n; done.
Qed.

(** The step most handlers take: no effect, or effects the caller accounts
    for in [live]. *)
Lemma good_step tr irql ctx fx n :
  live ctx (tr ++ fx) -> irql_ok irql -> finished n = false -> place_ok first ctx n (arrived (tr ++ fx)) -> good tr irql (Some (ctx, fx, n)).
Proof. intros. exists ctx, fx, n. split; [done|]. by apply live_request. Qed.

Lemma good_next tr irql ctx n :
  live ctx tr -> irql_ok irql -> finished n = false -> place_ok first ctx n (arrived tr) -> good tr irql (next ctx n).
Proof. intros. apply good_step; by rewrite ?app_nil_r. Qed.

(** Changes [live] does not see. *)
Record alike (c c' : HTTP_CONTEXT) : Prop := {
  al_memory : Buffer c' = Buffer c /\ Capacity c' = Capacity c /\ Length c' = Length c /\ TargetMdl c' = TargetMdl c;
  al_request : Operation c' = Operation c /\ ExpectedContentLength c' = ExpectedContentLength c /\ ExpectedStatusCode c' = ExpectedStatusCode c;
  al_work : WorkItem c = true -> WorkItem c' = true;
  al_socket : held_socket c' = held_socket c;
  al_routine : Routine c' = Routine c
}.

Lemma live_alike c c' tr : alike c c' -> live c tr -> live c' tr.
Proof.
  intros [(Eb & Ec & El & Em) (Eo & Ex & _) Hw Es Er] [[M1 M2 M3 M4 M5] Lw Ls Lc Lf Lr].
  split; [split; rewrite ?Eb, ?Ec, ?El, ?Em, ?Eo, ?Ex; done| |by rewrite Es|done|done|by rewrite Er].
  rewrite Eo. auto.
Qed.

(** What the phases are about. *)
Definition same_data (c c' : HTTP_CONTEXT) : Prop :=
  (BodyOffset c' = BodyOffset c /\ ContentLength c' = ContentLength c /\ BodyEndOffset c' = BodyEndOffset c) /\
  (Length c' = Length c /\ Capacity c' = Capacity c /\ Buffer c' = Buffer c /\ TargetMdl c' = TargetMdl c) /\
  (Operation c' = Operation c /\ ExpectedStatusCode c' = ExpectedStatusCode c /\ ExpectedContentLength c' = ExpectedContentLength c).

Lemma header_same c c' l : same_data c c' -> header_phase first c l -> header_phase first c' l.
Proof. intros ((E1 & _) & (E4 & E5 & E6 & _) & _) [H1 H2 H3 H4 H5]. split; rewrite ?E1, ?E4, ?E5, ?E6; done. Qed.

Lemma body_same c c' l part : same_data c c' -> body_phase first c l part -> body_phase first c' l part.
Proof.
  intros ((E1 & E2 & E3) & (E4 & E5 & E6 & E7) & (E8 & E9 & E10)) [H1 H2 H3 H4 H5 H6 H7].
  split; rewrite ?E1, ?E2, ?E3, ?E4, ?E5, ?E6, ?E7; try done. unfold announces in *. by rewrite E8, E9, E10.
Qed.

Lemma receiving_same c c' l : same_data c c' -> receiving first c l -> receiving first c' l.
Proof. intros Hs [Hh|[part Hb]]; [left; by eapply header_same|right; exists part; by eapply body_same]. Qed.
Lemma wanting_same c c' l : same_data c c' -> wanting first c l -> wanting first c' l.
Proof.
  intros Hs. pose proof Hs as ((_ & _ & E3) & (E4 & _) & _). intros [[Hh Hl]|(part & Hb & Hl)].
  - left. split; [by eapply header_same|]. by rewrite E4.
  - right. exists part. split; [by eapply body_same|]. by rewrite E3, E4.
Qed.
Lemma complete_same c c' l : same_data c c' -> complete first c l -> complete first c' l.
Proof. intros Hs. pose proof Hs as ((_ & _ & E3) & (E4 & _) & _). intros (part & Hb & Hl). exists part. split; [by eapply body_same|]. by rewrite E3, E4. Qed.
Lemma untouched_same c c' l : same_data c c' -> untouched first c l -> untouched first c' l.
Proof. intros Hs [Hh Hl]. split; [by eapply header_same|done]. Qed.

Lemma wanting_receiving c l : wanting first c l -> receiving first c l.
Proof. intros [[Hh _]|(part & Hb & _)]; [by left|right; by exists part]. Qed.
Lemma untouched_wanting c l : untouched first c l -> wanting first c l.
Proof. intros [Hh ->]. left. split; [done|]. rewrite (hp_length _ _ _ Hh). done. Qed.

Lemma same_trans c1 c2 c3 : same_data c1 c2 -> same_data c2 c3 -> same_data c1 c3.
Proof. unfold same_data. intros (A & B & C) (A' & B' & C'). intuition congruence. Qed.
Lemma alike_trans c1 c2 c3 : alike c1 c2 -> alike c2 c3 -> alike c1 c3.
Proof. intros [] []. split; intuition congruence. Qed.
Lemma alike_refl c : alike c c.
Proof. by split. Qed.

(** An update of fields neither cares about. *)
Ltac alike := split; ctx_simpl; unfold held_socket; ctx_simpl; by try split_and!.
Ltac same := unfold same_data; ctx_simpl; by split_and!.

Lemma fail_good ctx tr irql st : live ctx tr -> irql_ok irql -> NT_SUCCESS st = false -> good tr irql (HttpFail ctx st).
Proof.
  intros Hl Hi Hst. apply good_next; [|done|done|].
  - eapply live_alike; [|done]. alike.
  - cbn [place_ok]. ctx_simpl. split; [done|]. apply (l_routine _ _ Hl).
Qed.

Lemma retry_good ctx tr irql st :
  live ctx tr -> irql_ok irql -> NT_SUCCESS st = false -> receiving first ctx (arrived tr) -> good tr irql (HttpFailOrRetryReusedConnection ctx st).
Proof.
  intros Hl Hi Hst Hd. unfold HttpFailOrRetryReusedConnection, HttpTryRetryReusedConnection.
  destruct (bool_decide (ConnectionSource ctx = HttpConnectionReused)), (Z.eqb_spec (Length ctx) 0) as [Hz|]; cbn [negb orb]; try by apply fail_good.
  assert (Hu : untouched first ctx (arrived tr)).
  { destruct Hd as [Hh|[part Hb]].
    - split; [done|]. apply nil_length_inv. rewrite (hp_length _ _ _ Hh) in Hz. lia.
    - pose proof (bp_length _ _ _ _ Hb). pose proof (bp_offset _ _ _ _ Hb). lia. }
  destruct Hu as [[U1 U2 U3 U4 U5] Hnil].
  set (fx := match Socket ctx with Some s => [CloseSocket (sk_Id s)] | None => [] end).
  assert (Hfx : arrived fx = [] /\ acquired fx = [] /\ callbacks fx = [] /\ freed fx = [] /\ given_back fx = held_socket ctx) by (unfold fx, held_socket; by destruct (Socket ctx)).
  destruct Hfx as (F1 & F2 & F3 & F4 & F5). destruct Hl as [[M1 M2 M3 M4 M5] Lw Ls Lc Lf Lr].
  apply good_step; [|done|done|].
  - split; [split| | | | |]; ctx_simpl; try done.
    + rewrite acquired_app, given_back_app, F2, F5, app_nil_r, <- app_assoc, Ls. unfold held_socket at 3. ctx_simpl. by rewrite app_nil_r.
    + by rewrite callbacks_app, Lc, F3.
    + by rewrite freed_app, Lf, F4.
  - rewrite arrived_app, F1, app_nil_r. cbn [place_ok]. ctx_simpl. split_and!; [done|done|]. rewrite Hnil.
    split; [|done]. split; ctx_simpl; try done; [lia|]. apply sits_nil. lia.
Qed.

Lemma bounce_work ctx irql : (Operation ctx <> HttpOpFileRead -> WorkItem ctx = true) -> HttpMustBounceToPassive ctx irql = true -> WorkItem ctx = true.
Proof. unfold HttpMustBounceToPassive. intros Hw [Hb _]%andb_true_iff. apply Hw. intros Ho. by rewrite bool_decide_true in Hb. Qed.

Lemma complete_good ctx n tr irql st :
  request_ok first (mkRequest ctx n irql tr) -> finished n = false -> failing st ctx \/ over st ctx -> good tr irql (HttpComplete ctx st irql).
Proof.
  intros [Hm Hi Hw Hs Hb Ho Hp] Hn Hend. ctx_simpl. unfold HttpComplete. set (ctx' := with_Final ctx st).
  assert (Ho' : length (callbacks tr) = (if Routine ctx then 0 else 1)%nat /\ freed tr = []) by (by destruct n). destruct Ho' as [Hc Hf].
  assert (Hm' : memory_ok first ctx') by (destruct Hm; by split).
  destruct (HttpMustBounceToPassive ctx' irql) eqn:Hbounce.
  { unfold queue_worker. rewrite (bounce_work ctx' irql Hw Hbounce). exists ctx', [], (AwaitWorker HttpCompleteWorker). split; [done|]. rewrite app_nil_r.
    split; ctx_simpl; done. }
  destruct (NT_SUCCESS st) eqn:Hst; cbn [negb].
  - destruct Hend as [[? _]|(_ & Hr & Hsock)]; [congruence|]. rewrite Hr in Hc.
    exists ctx', (HttpFreeContext ctx'), Finished. split; [done|]. unfold HttpFreeContext.
    split; ctx_simpl; rewrite ?acquired_app, ?given_back_app, ?callbacks_app, ?arrived_app, ?freed_app, ?Hf; cbn; rewrite ?app_nil_r; try done.
  - destruct Hend as [[_ Hr]|(? & _)]; [|congruence]. rewrite Hr in Hc. apply nil_length_inv in Hc. change (Routine ctx') with (Routine ctx). rewrite Hr.
    set (closed := match Socket ctx' with Some s => [CloseSocket (sk_Id s)] | None => [] end).
    assert (Hcl : arrived closed = [] /\ acquired closed = [] /\ callbacks closed = [] /\ freed closed = [] /\ given_back closed = held_socket ctx).
    { unfold closed, held_socket. change (Socket ctx') with (Socket ctx). by destruct (Socket ctx). }
    destruct Hcl as (C1 & C2 & C3 & C4 & C5). eexists _, _, Finished. split; [done|]. unfold HttpFreeContext.
    split; ctx_simpl; rewrite ?acquired_app, ?given_back_app, ?callbacks_app, ?arrived_app, ?freed_app, ?Hf, ?Hc, ?C1, ?C2, ?C3, ?C4, ?C5; cbn; rewrite ?app_nil_r; try done.
    + destruct Hm'; by split.
    + repeat constructor. done.
Qed.

(** ** Memory *)

Lemma length_junk a n : length (junk a n) = Z.to_nat n.
Proof. unfold junk. by rewrite length_fmap, length_seq. Qed.

Definition grown (ctx : HTTP_CONTEXT) (required : Z) (st : NTSTATUS) (ctx' : HTTP_CONTEXT) : Prop :=
  (NT_SUCCESS st = false /\ ctx' = ctx) \/
  (st = STATUS_SUCCESS /\ exists b n, ctx' = with_Buffer ctx b n /\ required <= n <= Z.of_nat (length b) /\ Capacity ctx <= n < 4294967296 /\
     Z.of_nat (length b) <= Z.max (Z.of_nat (length (Buffer ctx))) required /\
     forall off l, sits (Buffer ctx) off l -> off + Z.of_nat (length l) <= Length ctx -> sits b off l).

Lemma grow_ok ctx required a :
  memory_ok first ctx -> Length ctx <= Capacity ctx -> exists st ctx', HttpGrowBufferIfNeeded ctx required a = Some (st, ctx') /\ grown ctx required st ctx'.
Proof.
  intros [M1 M2 M3 M4 _] Hfit. unfold HttpGrowBufferIfNeeded, MAXULONG. destruct (Z.leb_spec required (Capacity ctx)).
  { exists STATUS_SUCCESS, ctx. split; [done|]. right. split; [done|]. exists (Buffer ctx), (Capacity ctx). split_and!; try lia; [by destruct ctx|done]. }
  destruct (Z.ltb_spec 4294967295 required); [by exists STATUS_INVALID_PARAMETER, ctx; split; [done|left]|].
  destruct (a_Memory a); cbn [negb]; [|by exists STATUS_INSUFFICIENT_RESOURCES, ctx; split; [done|left]].
  rewrite rd_list_in_range by lia. cbn [mbind option_bind]. set (kept := take (Z.to_nat (Length ctx)) (drop (Z.to_nat 0) (Buffer ctx))).
  assert (Hk : Z.of_nat (length kept) = Length ctx) by (unfold kept; rewrite length_take, length_drop; lia).
  destruct (wr_list_in_range (junk a required) 0 kept) as (b & Hb & Hlen); [lia|rewrite length_junk; lia|]. rewrite Hb. cbn [mbind option_bind].
  rewrite length_junk in Hlen. eexists _, _. split; [done|]. right. split; [done|]. exists b, required. split_and!; try done; try lia.
  intros off l (pre & post & E & ->) Hin. destruct (sits_written _ _ _ _ Hb) as [(pre' & post' & -> & E') _].
  destruct pre' as [|]; [|cbn in E'; lia]. cbn [app].
  assert (Hkept : kept = (pre ++ l) ++ take (Z.to_nat (Length ctx) - length (pre ++ l)) post).
  { unfold kept. rewrite drop_0, E, app_assoc. rewrite take_app_ge by (rewrite length_app; lia). done. }
  rewrite Hkept. exists pre, (take (Z.to_nat (Length ctx) - length (pre ++ l)) post ++ post'). by rewrite <- !app_assoc.
Qed.

(** Growth within the limit keeps the request's memory in order. *)
Lemma grown_live ctx required ctx' tr :
  grown ctx required STATUS_SUCCESS ctx' -> required <= buffer_limit first -> live ctx tr -> live ctx' tr.
Proof.
  intros [[? _]|(_ & b & n & -> & Hn & Hc & Hb & _)] Hr; [done|]. intros [[M1 M2 M3 M4 M5] Lw Ls Lc Lf Lr].
  split; [split|..]; ctx_simpl; try done; lia.
Qed.

(** ** Getting a connection and sending *)

Lemma acquire_good ctx tr irql a :
  live ctx tr -> irql_ok irql -> Socket ctx = None -> untouched first ctx (arrived tr) -> Stage ctx = HttpStageAcquireSocket -> good tr irql (acquire_socket ctx a irql).
Proof.
  intros Hl Hi Hs Hu Hstage. pose proof (l_routine _ _ Hl) as Hr. unfold acquire_socket. destruct (_ && _).
  - set (ctx' := if WorkItem ctx then ctx else with_WorkItem ctx (a_WorkItem a)).
    assert (Ha : alike ctx ctx' /\ same_data ctx ctx' /\ Socket ctx' = Socket ctx /\ Stage ctx' = Stage ctx).
    { unfold ctx'. destruct (WorkItem ctx) eqn:E; [split_and!; try done; by split|]. split_and!; [|same|done|done]. split; ctx_simpl; try done. by rewrite E. }
    destruct Ha as (Ha & Hd & Es & Eg). pose proof (live_alike _ _ _ Ha Hl) as Hl'. pose proof (l_routine _ _ Hl') as Hr'.
    destruct (WorkItem ctx') eqn:Ew; cbn [negb].
    + unfold queue_worker. rewrite Ew. apply good_next; [done..|]. cbn [place_ok]. rewrite Es, Eg. split_and!; try done. by eapply untouched_same.
    + apply good_next; [done..|]. cbn [place_ok]. by left.
  - destruct (NT_SUCCESS (a_Acquire a)) eqn:E; cbn [negb andb]; [by apply good_next|].
    destruct (Z.eqb_spec (a_Acquire a) STATUS_PENDING) as [Hp|]; cbn [negb]; [by rewrite Hp in E|].
    apply good_next; [done..|]. cbn [place_ok]. by left.
Qed.

Lemma handshake_good ctx tr irql :
  live ctx tr -> irql_ok irql -> connected ctx -> untouched first ctx (arrived tr) -> good tr irql (tls_handshake ctx irql).
Proof.
  intros Hl Hi Hs Hu. pose proof (l_routine _ _ Hl). unfold tls_handshake, queue_worker. destruct (_ <? _); [destruct (WorkItem ctx) eqn:E; cbn [negb]|]; apply good_next; try done.
  cbn [place_ok]. by left.
Qed.

Lemma issue_failed a : answers_ok a -> (a_Issue a =? STATUS_PENDING) = false -> NT_SUCCESS (a_Issue a) = false.
Proof. intros [Ha _ _] E%Z.eqb_neq. destruct (NT_SUCCESS (a_Issue a)); [|done]. by destruct E, Ha. Qed.

(** Encrypting the request leaves everything but the socket's sequence number
    and the staging buffers. *)
Lemma encrypt_ok ctx s a :
  Socket ctx = Some s -> socket_ok s ->
  exists st ctx' bytes, HttpEncryptRequestRecord ctx s a = Some (st, ctx', bytes) /\ alike ctx ctx' /\ same_data ctx ctx' /\ connected ctx'.
Proof.
  intros Hs Ho. assert (Hc : forall p r, let c := with_Send ctx p r in alike ctx c /\ same_data ctx c /\ Socket c = Some s).
  { intros p r. split_and!; [by split|same|done]. }
  assert (H0 : alike ctx ctx /\ same_data ctx ctx /\ Socket ctx = Some s) by (split_and!; [by split|same|done]).
  assert (Hdone : forall (st : NTSTATUS) c (l : list Z), alike ctx c /\ same_data ctx c /\ Socket c = Some s ->
            exists st' ctx' bytes, Some (st, c, l) = Some (st', ctx', bytes) /\ alike ctx ctx' /\ same_data ctx ctx' /\ connected ctx').
  { intros st c l (? & ? & ?). exists st, c, l. split_and!; [done..|]. by exists s. }
  unfold HttpEncryptRequestRecord. destruct (_ <? _); [by apply Hdone|].
  set (c1 := if TlsSendPlaintextCapacity ctx <? _ then _ else ctx).
  assert (H1 : alike ctx c1 /\ same_data ctx c1 /\ Socket c1 = Some s) by (unfold c1; destruct (_ <? _); [apply Hc|done]). clearbody c1.
  destruct (_ <? _); [by apply Hdone|]. destruct (_ <? 5); [by apply Hdone|].
  set (c2 := if TlsSendRecordCapacity c1 <? _ then _ else c1).
  assert (H2 : alike ctx c2 /\ same_data ctx c2 /\ Socket c2 = Some s).
  { unfold c2. destruct (_ <? _); [|done]. destruct H1 as (A1 & D1 & E1). split_and!; [|by eapply same_trans; [exact D1|same]|done].
    eapply alike_trans; [exact A1|]. by split. }
  clearbody c2. destruct (_ <? _); [by apply Hdone|]. destruct (a_Seal a) as [st sealed].
  destruct (NT_SUCCESS st); cbn [negb]; [|by apply Hdone].
  destruct H2 as (A2 & D2 & E2). eexists _, _, _. split_and!; [done| | |].
  - eapply alike_trans; [exact A2|]. split; ctx_simpl; try done. unfold held_socket. ctx_simpl. by rewrite E2.
  - eapply same_trans; [exact D2|]. same.
  - eexists. split; [done|]. destruct Ho. by split.
Qed.

Lemma send_good ctx tr irql a :
  answers_ok a -> live ctx tr -> irql_ok irql -> connected ctx -> untouched first ctx (arrived tr) -> good tr irql (send_request ctx a).
Proof.
  intros Ha Hl Hi (s & Hs & Ho) Hu. unfold send_request. rewrite Hs. cbn [mbind option_bind].
  assert (Henc : exists st ctx' bytes, (if sk_TlsComplete s then HttpEncryptRequestRecord ctx s a else Some (STATUS_SUCCESS, ctx, RequestBuffer ctx)) = Some (st, ctx', bytes) /\
            alike ctx ctx' /\ same_data ctx ctx' /\ connected ctx').
  { destruct (sk_TlsComplete s); [by apply encrypt_ok|]. eexists _, _, _. split_and!; [done|apply alike_refl|same|by exists s]. }
  destruct Henc as (st & ctx' & bytes & -> & Hal & Hd & Hc). cbn [mbind option_bind].
  pose proof (live_alike _ _ _ Hal Hl) as Hl'. pose proof (l_routine _ _ Hl').
  destruct (NT_SUCCESS st) eqn:Est; cbn [negb]; [|apply good_next; [done..|]; cbn [place_ok]; by left].
  destruct (a_Issue a =? STATUS_PENDING) eqn:Ei; cbn [negb].
  - apply good_step; [|done|done|].
    + destruct Hl'. split; rewrite ?acquired_app, ?given_back_app, ?callbacks_app, ?freed_app; cbn; rewrite ?app_nil_r; done.
    + rewrite arrived_app. cbn. rewrite app_nil_r. split_and!; [done..|]. by eapply untouched_same.
  - apply good_next; [done..|]. cbn [place_ok]. left. split; [by apply issue_failed|done].
Qed.

(** ** Asking for more *)

Lemma in_window_true b off len : 0 <= off -> 0 <= len -> off + len <= Z.of_nat (length b) -> in_window b off len = true.
Proof. intros. unfold in_window. by rewrite !andb_true_iff, !Z.leb_le. Qed.

Lemma await_good ctx tr irql a target off len b :
  answers_ok a -> live ctx tr -> irql_ok irql -> connected ctx -> window_ok first ctx (arrived tr) target off len ->
  match target with IntoBuffer => Some (Buffer ctx) | IntoMdl => TargetMdl ctx end = Some b -> 0 <= off -> off + len <= Z.of_nat (length b) ->
  good tr irql (await_receive ctx a target off len).
Proof.
  intros Ha Hl Hi Hc Hw Hb H0 Hin. unfold await_receive. rewrite Hb. cbn [mbind option_bind]. destruct Hw as [Hpos Hw].
  rewrite in_window_true by lia. cbn [negb]. pose proof (l_routine _ _ Hl). destruct (a_Issue a =? STATUS_PENDING) eqn:Ei; cbn [negb]; apply good_next; try done.
  cbn [place_ok]. left. split; [by apply issue_failed|done].
Qed.

Lemma header_grown ctx required ctx' l :
  grown ctx required STATUS_SUCCESS ctx' -> header_phase first ctx l -> required <= header_room first -> header_phase first ctx' l.
Proof.
  intros [[? _]|(_ & b & n & -> & Hn & Hc & Hb & Hsits)] [P1 P2 P3 P4 P5] Hr; [done|]. split; ctx_simpl; try done; try lia.
  apply Hsits; [done|lia].
Qed.

Lemma header_room_min : HTTP_MAX_HEADER_BYTES + TLS_RECORD_CIPHERTEXT_MAX <= header_room first.
Proof. unfold header_room. lia. Qed.

Lemma issue_header_good ctx tr irql a :
  answers_ok a -> live ctx tr -> irql_ok irql -> connected ctx -> header_phase first ctx (arrived tr) -> Length ctx < HTTP_MAX_HEADER_BYTES ->
  Length ctx < Capacity ctx -> good tr irql (await_receive ctx a IntoBuffer (Length ctx) (u32 (Capacity ctx - Length ctx))).
Proof.
  intros Ha Hl Hi Hc Hh Hm Hlt. destruct (l_memory _ _ Hl) as [M1 M2 M3 M4 M5]. rewrite u32_id by lia. eapply await_good; try done; [|lia..].
  split; [lia|]. split; [done|]. left. split_and!; [done..|lia].
Qed.

Lemma issue_receive_good ctx tr irql a :
  answers_ok a -> live ctx tr -> irql_ok irql -> connected ctx -> wanting first ctx (arrived tr) -> good tr irql (HttpIssueReceive ctx a).
Proof.
  intros Ha Hl Hi Hc Hw. pose proof (l_routine _ _ Hl) as Hr. destruct (l_memory _ _ Hl) as [M1 M2 M3 M4 M5] eqn:Hm. clear Hm. unfold HttpIssueReceive.
  destruct (a_Stack a); cbn [negb]; [|apply good_next; [done..|]; cbn [place_ok]; by left].
  destruct Hw as [[Hh Hlim]|(part & Hb & Hlt)].
  - rewrite (hp_offset _ _ _ Hh), Z.eqb_refl. destruct (Z.eqb_spec (Length ctx) (Capacity ctx)) as [E|Hne]; cycle 1.
    { cbn [mbind option_bind NT_SUCCESS]. apply issue_header_good; try done. pose proof (hp_fits _ _ _ Hh). lia. }
    destruct (grow_ok ctx (Capacity ctx + PAGE_SIZE) a) as (st & ctx' & Eg & Hg); [apply (l_memory _ _ Hl)|lia|]. rewrite Eg. cbn [mbind option_bind].
    pose proof header_room_min as Hroom. unfold HTTP_MAX_HEADER_BYTES, TLS_RECORD_CIPHERTEXT_MAX, PAGE_SIZE, TLS_TAG_LEN in *.
    pose proof Hg as [[Hst ->]|(-> & b & n & -> & Hn & Hcap & _)].
    { rewrite Hst. cbn [negb]. apply good_next; [done..|]. cbn [place_ok]. by left. }
    change (NT_SUCCESS STATUS_SUCCESS) with true. cbn [negb]. apply issue_header_good; try done.
    + eapply grown_live; [done| |done]. unfold buffer_limit, HTTP_MAX_CONTENT_LENGTH, TLS_RECORD_CIPHERTEXT_MAX, TLS_TAG_LEN. lia.
    + eapply header_grown; [done|done|lia].
    + ctx_simpl. lia.
  - pose proof Hb as [B1 B2 B3 B4 B5 B6 B7]. destruct (Z.eqb_spec (BodyOffset ctx) 0); [lia|].
    rewrite (u32_id (BodyOffset ctx)), (u32_id (BodyEndOffset ctx)), (u32_id (Length ctx - _)), (u32_id (_ - Length ctx)) by lia.
    destruct (TargetMdl ctx) as [mdl|] eqn:Em.
    + rewrite bool_decide_true by done. destruct B6 as (B6 & B8 & B9). eapply await_good; [done..| |by rewrite Em|lia|lia].
      split; [lia|]. exists part. split_and!; [done|done|lia|lia].
    + rewrite bool_decide_false by (by intros [? ?]). destruct B6 as (B6 & B8 & B9). eapply await_good; [done..| |done|lia|lia].
      split; [lia|]. split; [done|]. right. split; [done|]. exists part. split; [done|lia].
Qed.

Lemma capacity_value : BlorgSocketTlsRecvCapacity = tlsRecvRecords * 16406 /\ 65624 <= BlorgSocketTlsRecvCapacity <= 262496.
Proof. unfold BlorgSocketTlsRecvCapacity. change SOCKET_TLS_RECORD_MAX_BYTES with 16406. destruct tlsRecvRecords_tier as [->|[->| ->]]; lia. Qed.

(** The accumulator is there, empty as it was or as it was left. *)
Lemma ensure_recv_ok s a st s' :
  answers_ok a -> socket_ok s -> BlorgEnsureTlsRecvBuffer s a = (st, s') ->
  socket_ok s' /\ sk_Id s' = sk_Id s /\ (NT_SUCCESS st = true -> is_Some (TlsRecvBuffer s')) /\
  TlsRecvLength s' = TlsRecvLength s /\ TlsRecvOffset s' = TlsRecvOffset s.
Proof.
  intros Ha Ho E. unfold BlorgEnsureTlsRecvBuffer in E. destruct (TlsRecvBuffer s) as [b|] eqn:Eb; [injection E as <- <-; split_and!; try done; by rewrite Eb|].
  destruct (a_Memory a); injection E as <- <-; [|by split_and!]. split_and!; try done. destruct Ho as [O1 O2 _]. split; cbn; [done..|].
  intros b [= <-]. rewrite length_junk. pose proof capacity_value. split; [lia|]. apply Forall_fmap, Forall_true. intros i. apply (ao_junk a Ha).
Qed.

Lemma issue_tls_good ctx s tr irql a :
  answers_ok a -> live ctx tr -> irql_ok irql -> Socket ctx = Some s -> socket_ok s -> wanting first ctx (arrived tr) -> good tr irql (HttpIssueTlsReceive ctx s a).
Proof.
  intros Ha Hl Hi Hs Ho Hw. pose proof (l_routine _ _ Hl) as Hr. unfold HttpIssueTlsReceive.
  destruct (a_Stack a); cbn [negb]; [|apply good_next; [done..|]; cbn [place_ok]; by left].
  destruct (BlorgEnsureTlsRecvBuffer s a) as [st s'] eqn:E.
  destruct (ensure_recv_ok s a st s' Ha Ho E) as (Ho' & Eid & Hbuf & _).
  assert (Hal : alike ctx (with_Socket ctx (Some s'))) by (split; ctx_simpl; try done; unfold held_socket; ctx_simpl; rewrite Hs, Eid; done).
  pose proof (live_alike _ _ _ Hal Hl). destruct (NT_SUCCESS st) eqn:Est; cbn [negb]; apply good_next; try done; cbn [place_ok]; ctx_simpl.
  - split_and!; [done| |eapply wanting_same; [|done]; same]. exists s'. ctx_simpl. split_and!; [done|done|by apply Hbuf].
  - by left.
Qed.

Lemma issue_good ctx tr irql a :
  answers_ok a -> live ctx tr -> irql_ok irql -> connected ctx -> wanting first ctx (arrived tr) -> good tr irql (HttpIssueReceiveDispatch ctx a).
Proof.
  intros Ha Hl Hi (s & Hs & Ho) Hw. unfold HttpIssueReceiveDispatch. rewrite Hs. cbn [mbind option_bind].
  destruct (sk_TlsComplete s); [by apply issue_tls_good|]. apply issue_receive_good; try done. by exists s.
Qed.

(** ** Records *)

(** A socket swapped for another with the same identity. *)
Lemma live_socket ctx s s' tr : Socket ctx = Some s -> sk_Id s' = sk_Id s -> live ctx tr -> live (with_Socket ctx (Some s')) tr.
Proof. intros Hs E. apply live_alike. split; ctx_simpl; try done. unfold held_socket. ctx_simpl. by rewrite Hs, E. Qed.

Lemma recv_ok s b len off :
  socket_ok s -> Z.of_nat (length b) = BlorgSocketTlsRecvCapacity -> bytes_ok b -> 0 <= off <= len -> len <= BlorgSocketTlsRecvCapacity -> socket_ok (with_Recv s b len off).
Proof. intros [_ _ _] Hb Hbytes Ho Hl. split; cbn; [done..|]. by intros ? [= <-]. Qed.

(** The free tail always has room for the rest of the record it waits for,
    and nothing unread is lost. *)
Lemma recv_make_room_ok s b :
  socket_ok s -> TlsRecvBuffer s = Some b -> TlsRecvLength s - TlsRecvOffset s < 16406 ->
  exists s' b', recv_make_room s b = Some s' /\ socket_ok s' /\ sk_Id s' = sk_Id s /\ TlsRecvBuffer s' = Some b' /\
    TlsRecvLength s' < BlorgSocketTlsRecvCapacity /\ TlsRecvLength s' - TlsRecvOffset s' = TlsRecvLength s - TlsRecvOffset s.
Proof.
  intros Ho Hb Hpart. pose proof capacity_value as [_ Hcap]. pose proof (so_buffer _ Ho b Hb) as [Hlen Hbytes]. pose proof Ho as [O1 O2 _].
  unfold recv_make_room. change (5 + TLS_RECORD_CIPHERTEXT_MAX) with 16406. rewrite !u32_id by lia.
  destruct (Z.eqb_spec (TlsRecvOffset s) (TlsRecvLength s)).
  { exists (with_Recv s b 0 0), b. split_and!; try done; [|cbn; lia..]. apply recv_ok; try done; lia. }
  destruct (Z.eqb_spec (TlsRecvOffset s) 0); cbn [negb andb]; [exists s, b; split_and!; try done; lia|].
  destruct (Z.ltb_spec (BlorgSocketTlsRecvCapacity - TlsRecvLength s) 16406); [|exists s, b; split_and!; try done; lia].
  destruct (rd_list b (TlsRecvOffset s) (TlsRecvLength s - TlsRecvOffset s)) as [tl|] eqn:Er; [|by rewrite rd_list_in_range in Er by lia].
  cbn [mbind option_bind]. pose proof (length_rd_list _ _ _ _ Er) as Htl.
  destruct (wr_list_in_range b 0 tl) as (b' & Ew & Hl'); [lia..|]. rewrite Ew. cbn [mbind option_bind].
  eexists _, b'. split_and!; [done| |done|done|cbn; lia..]. apply recv_ok; [done|lia| |lia..]. eapply bytes_wr; [exact Hbytes| |done]. by eapply bytes_rd_list.
Qed.

Lemma receive_more_good ctx s b tr irql a :
  answers_ok a -> live ctx tr -> irql_ok irql -> Socket ctx = Some s -> socket_ok s -> TlsRecvBuffer s = Some b -> wanting first ctx (arrived tr) ->
  TlsRecvLength s - TlsRecvOffset s < 16406 -> good tr irql (tls_receive_more ctx s b a).
Proof.
  intros Ha Hl Hi Hs Ho Hb Hw Hpart. pose proof capacity_value as [_ Hcap].
  pose proof (l_routine _ _ Hl) as Hr. unfold tls_receive_more.
  destruct (recv_make_room_ok s b Ho Hb Hpart) as (s' & b' & -> & Ho' & Eid & Eb & Hroom & _). cbn [mbind option_bind]. rewrite Eb. cbn [mbind option_bind].
  pose proof (so_buffer _ Ho' b' Eb) as [Hlen' _]. pose proof Ho' as [O1' O2' _]. rewrite u32_id by lia. rewrite in_window_true by lia. cbn [negb].
  pose proof (live_socket _ _ s' _ Hs Eid Hl) as Hl'.
  destruct (a_Issue a =? STATUS_PENDING) eqn:Ei; cbn [negb]; apply good_next; try done; cbn [place_ok]; ctx_simpl.
  - split_and!; [done| |eapply wanting_same; [|done]; same|lia|intros ? [= <-]; lia]. exists s'. ctx_simpl. by rewrite Eb.
  - left. split; [by apply issue_failed|done].
Qed.

(** Where the plaintext of a record can go. *)
Inductive placed (ctx : HTTP_CONTEXT) (stream : list Z) (innerLen : Z) : DESTINATION -> Prop :=
  | placed_mdl part mdl : body_phase first ctx stream part -> TargetMdl ctx = Some mdl -> Length ctx + innerLen <= BodyEndOffset ctx -> placed ctx stream innerLen (ToMdl (Z.of_nat (length part)))
  | placed_scratch part mdl : body_phase first ctx stream part -> TargetMdl ctx = Some mdl -> placed ctx stream innerLen (ToScratch (Z.of_nat (length part)) (BodyEndOffset ctx - Length ctx))
  | placed_buffer : Length ctx + innerLen <= Capacity ctx ->
      (header_phase first ctx stream \/ (TargetMdl ctx = None /\ exists part, body_phase first ctx stream part)) -> placed ctx stream innerLen (ToBuffer (Length ctx)).

Lemma body_grown ctx required ctx' l part :
  grown ctx required STATUS_SUCCESS ctx' -> TargetMdl ctx = None -> body_phase first ctx l part -> body_phase first ctx' l part.
Proof.
  intros [[? _]|(_ & b & n & -> & Hn & Hc & Hb & Hsits)] Em [B1 B2 B3 B4 B5 B6 B7]; [done|]. rewrite Em in B6. destruct B6 as (B6 & B8 & B9).
  split; ctx_simpl; try done. rewrite Em. split_and!; [|lia..]. apply Hsits; [done|lia].
Qed.

Lemma wanting_limit ctx stream innerLen :
  wanting first ctx stream -> 0 <= innerLen <= 16385 -> Length ctx + innerLen <= buffer_limit first /\ (BodyOffset ctx = 0 -> Length ctx + innerLen <= header_room first).
Proof.
  intros Hw Hn. pose proof header_room_min as Hroom. unfold buffer_limit. unfold HTTP_MAX_HEADER_BYTES, TLS_RECORD_CIPHERTEXT_MAX, HTTP_MAX_CONTENT_LENGTH, TLS_TAG_LEN in *.
  destruct Hw as [[Hh Hlim]|(part & [B1 B2 B3 B4 B5 B6 B7] & Hlt)]; unfold HTTP_MAX_HEADER_BYTES, HTTP_MAX_CONTENT_LENGTH in *; lia.
Qed.

Lemma destination_ok ctx tr innerLen a :
  live ctx tr -> wanting first ctx (arrived tr) -> 0 <= innerLen <= 16385 ->
  exists ctx' d, record_destination ctx innerLen a = Some (ctx', d) /\ live ctx' tr /\ Socket ctx' = Socket ctx /\ wanting first ctx' (arrived tr) /\
    match d with Nowhere st => NT_SUCCESS st = false | _ => placed ctx' (arrived tr) innerLen d end.
Proof.
  intros Hl Hw Hn. destruct (l_memory _ _ Hl) as [M1 M2 M3 M4 M5] eqn:Hm. clear Hm. unfold record_destination.
  destruct (bool_decide (is_Some (TargetMdl ctx)) && negb (BodyOffset ctx =? 0)) eqn:E.
  - apply andb_true_iff in E as [E1%bool_decide_eq_true E2]. destruct Hw as [[Hh Hlim]|(part & Hb & Hlt)]; [by rewrite (hp_offset _ _ _ Hh) in E2|].
    pose proof Hb as [B1 B2 B3 B4 B5 B6 B7]. destruct E1 as [mdl Em]. rewrite Em in B6. destruct B6 as (B6 & B8 & B9).
    assert (Hw : wanting first ctx (arrived tr)) by (right; by exists part).
    destruct (Z.ltb_spec (BodyEndOffset ctx) (Length ctx)); [lia|]. destruct (a_Mapping a); cbn [negb]; [|by exists ctx, (Nowhere STATUS_INSUFFICIENT_RESOURCES)].
    rewrite (u32_id (BodyOffset ctx)), (u32_id (BodyEndOffset ctx)), (u32_id (Length ctx - _)), (u32_id (_ - Length ctx)) by lia.
    replace (Length ctx - BodyOffset ctx) with (Z.of_nat (length part)) by lia.
    destruct (Z.leb_spec innerLen (BodyEndOffset ctx - Length ctx)); eexists ctx, _; split_and!; try done; [|by eapply placed_scratch]. eapply placed_mdl; [done|done|lia].
  - assert (Hfit : Length ctx <= Capacity ctx).
    { destruct Hw as [[Hh _]|(part & Hb & _)]; [apply (hp_fits _ _ _ Hh)|]. pose proof Hb as [B1 _ _ _ _ B6 _]. destruct (TargetMdl ctx); [|lia].
      rewrite bool_decide_true in E by done. destruct (Z.eqb_spec (BodyOffset ctx) 0); [lia|done]. }
    destruct (wanting_limit _ _ _ Hw Hn) as [Hlim Hroom].
    destruct (grow_ok ctx (Length ctx + innerLen) a) as (st & ctx' & -> & Hg); [by split|done|]. cbn [mbind option_bind].
    pose proof Hg as [[Hst ->]|(-> & b & n & E' & Hn' & Hcap & _)].
    { rewrite Hst. cbn [negb]. by exists ctx, (Nowhere st). }
    change (NT_SUCCESS STATUS_SUCCESS) with true. cbn [negb]. exists ctx', (ToBuffer (Length ctx')).
    assert (Hdata : wanting first ctx' (arrived tr) /\ (header_phase first ctx' (arrived tr) \/ (TargetMdl ctx' = None /\ exists part, body_phase first ctx' (arrived tr) part))).
    { destruct Hw as [[Hh Hl']|(part & Hb & Hl')].
      - pose proof (header_grown _ _ _ _ Hg Hh (Hroom (hp_offset _ _ _ Hh))) as Hh'. split; [left; split; [done|]|by left]. by rewrite E'.
      - assert (Em : TargetMdl ctx = None).
        { destruct (TargetMdl ctx); [|done]. rewrite bool_decide_true in E by done. pose proof (bp_offset _ _ _ _ Hb). destruct (Z.eqb_spec (BodyOffset ctx) 0); [lia|done]. }
        pose proof (body_grown _ _ _ _ _ Hg Em Hb) as Hb'. split; [right; exists part; split; [done|]; by rewrite E'|]. right. split; [by rewrite E'|by exists part]. }
    destruct Hdata as [Hw' Hd]. split_and!; [by rewrite E'|by eapply grown_live|by rewrite E'|done|]. apply placed_buffer; [rewrite E'; ctx_simpl; lia|done].
Qed.

Lemma strip_total p : exists r, BlorgTlsStripInnerPlaintext p = Some r /\ match r with Some (_, n) => 0 <= n < Z.of_nat (length p) | None => True end.
Proof.
  assert (Hloop : forall i, (i <= length p)%nat -> exists j, strip_loop i p = Some j /\ (j <= i)%nat).
  { induction i as [|i IH]; intros Hi; [by exists 0%nat|]. cbn [strip_loop]. destruct (rd_in_range p (Z.of_nat i)) as [b ->]; [lia|]. cbn [mbind option_bind].
    destruct (b =? 0); [destruct IH as (j & Hj & ?); [lia|exists j; split; [done|lia]]|by exists (S i)]. }
  unfold BlorgTlsStripInnerPlaintext. destruct (Hloop (length p) (le_n _)) as (j & -> & Hj). cbn [mbind option_bind].
  destruct j as [|j]; [by exists None|]. destruct (rd_in_range p (Z.of_nat j)) as [b ->]; [lia|]. cbn [mbind option_bind]. eexists. split; [done|]. cbn. lia.
Qed.

(** The plaintext is in its place. *)
Inductive opened (ctx : HTTP_CONTEXT) (stream plaintext : list Z) : DESTINATION -> Prop :=
  | opened_mdl part mdl off : body_phase first ctx stream part -> TargetMdl ctx = Some mdl -> sits mdl 0 (part ++ plaintext) ->
      Length ctx + Z.of_nat (length plaintext) <= BodyEndOffset ctx -> opened ctx stream plaintext (ToMdl off)
  | opened_scratch part mdl : body_phase first ctx stream part -> TargetMdl ctx = Some mdl ->
      opened ctx stream plaintext (ToScratch (Z.of_nat (length part)) (BodyEndOffset ctx - Length ctx))
  | opened_header off : header_phase first ctx stream -> sits (Buffer ctx) 0 (stream ++ plaintext) ->
      Length ctx + Z.of_nat (length plaintext) <= Capacity ctx -> opened ctx stream plaintext (ToBuffer off)
  | opened_body part off : body_phase first ctx stream part -> TargetMdl ctx = None -> sits (Buffer ctx) (BodyOffset ctx) (part ++ plaintext) ->
      Length ctx + Z.of_nat (length plaintext) <= Capacity ctx -> opened ctx stream plaintext (ToBuffer off).

(** Writing in the buffer past what has arrived. *)
Lemma live_buffer ctx b tr : length b = length (Buffer ctx) -> live ctx tr -> live (with_Buffer ctx b (Capacity ctx)) tr.
Proof. intros E [[M1 M2 M3 M4 M5] Lw Ls Lc Lf Lr]. split; [split|..]; ctx_simpl; try done; rewrite E; done. Qed.
Lemma live_mdl ctx mdl mdl' tr : TargetMdl ctx = Some mdl -> length mdl' = length mdl -> live ctx tr -> live (with_Mdl ctx mdl') tr.
Proof.
  intros Em E [[M1 M2 M3 M4 M5] Lw Ls Lc Lf Lr]. split; [split|..]; ctx_simpl; try done. intros ? [= <-]. rewrite E. by apply M5.
Qed.

Lemma header_buffer ctx b stream : header_phase first ctx stream -> length b = length (Buffer ctx) -> sits b 0 stream -> header_phase first (with_Buffer ctx b (Capacity ctx)) stream.
Proof. intros [P1 P2 P3 P4 P5] E Hs. split; ctx_simpl; try done. by rewrite E. Qed.
Lemma body_buffer ctx b stream part :
  body_phase first ctx stream part -> TargetMdl ctx = None -> sits b (BodyOffset ctx) part -> body_phase first (with_Buffer ctx b (Capacity ctx)) stream part.
Proof. intros [B1 B2 B3 B4 B5 B6 B7] Em Hs. split; ctx_simpl; try done. rewrite Em in *. by destruct B6 as (_ & ? & ?). Qed.
Lemma body_mdl ctx mdl mdl' stream part :
  body_phase first ctx stream part -> TargetMdl ctx = Some mdl -> length mdl' = length mdl -> sits mdl' 0 part -> body_phase first (with_Mdl ctx mdl') stream part.
Proof. intros [B1 B2 B3 B4 B5 B6 B7] Em El Hs. split; ctx_simpl; try done. rewrite Em in B6. destruct B6 as (_ & ? & ?). by rewrite El. Qed.

Lemma wanting_cases ctx stream : wanting first ctx stream ->
  (forall part, body_phase first ctx stream part -> Length ctx < BodyEndOffset ctx) /\ (header_phase first ctx stream -> Length ctx < HTTP_MAX_HEADER_BYTES).
Proof.
  intros [[Hh Hlt]|(part & Hb & Hlt)]; split; try done.
  - intros part Hb. pose proof (hp_offset _ _ _ Hh). pose proof (bp_offset _ _ _ _ Hb). lia.
  - intros Hh. pose proof (hp_offset _ _ _ Hh). pose proof (bp_offset _ _ _ _ Hb). lia.
Qed.

Lemma decrypt_ok ctx tr d plaintext :
  live ctx tr -> wanting first ctx (arrived tr) -> placed ctx (arrived tr) (Z.of_nat (length plaintext)) d -> Z.of_nat (length plaintext) <= 16385 ->
  exists ctx', decrypt_to ctx d plaintext = Some ctx' /\ live ctx' tr /\ Socket ctx' = Socket ctx /\ wanting first ctx' (arrived tr) /\ opened ctx' (arrived tr) plaintext d.
Proof.
  intros Hl Hw Hp Hlen. destruct (l_memory _ _ Hl) as [M1 M2 M3 M4 M5] eqn:Hm. clear Hm. pose proof (wanting_cases _ _ Hw) as [Wb Wh]. destruct Hp as [part mdl Hb Em Hfit|part mdl Hb Em|Hfit [Hh|(Em & part & Hb)]]; cbn [decrypt_to].
  - pose proof Hb as [B1 B2 B3 B4 B5 B6 B7]. rewrite Em in B6. destruct B6 as (B6 & B8 & B9). rewrite Em. cbn [mbind option_bind].
    destruct (sits_extend mdl 0 part plaintext B6) as (mdl' & E & El & Hs); [lia|]. rewrite Z.add_0_l in E. rewrite E. cbn [mbind option_bind].
    pose proof (body_mdl _ _ _ _ _ Hb Em El (sits_prefix _ _ _ _ Hs)) as Hb'. eexists. split_and!; [done|by eapply live_mdl|done| |].
    + right. exists part. split; [done|]. by apply (Wb part).
    + by eapply opened_mdl.
  - change TLS_RECORD_CIPHERTEXT_MAX with 16401. rewrite (proj2 (Z.ltb_ge _ _)) by lia. exists ctx. split_and!; try done. by eapply opened_scratch.
  - pose proof Hh as [P1 P2 P3 P4 P5]. destruct (sits_extend (Buffer ctx) 0 (arrived tr) plaintext P4) as (b & E & El & Hs); [lia|].
    rewrite Z.add_0_l, <- P2 in E. rewrite E. cbn [mbind option_bind]. pose proof (header_buffer _ _ _ Hh El (sits_prefix _ _ _ _ Hs)) as Hh'.
    eexists. split_and!; [done|by apply live_buffer|done| |]. { left. split; [done|]. by apply Wh. } by apply opened_header.
  - pose proof Hb as [B1 B2 B3 B4 B5 B6 B7]. rewrite Em in B6. destruct B6 as (B6 & B8 & B9).
    destruct (sits_extend (Buffer ctx) (BodyOffset ctx) part plaintext B6) as (b & E & El & Hs); [lia|].
    rewrite <- B4 in E. rewrite E. cbn [mbind option_bind]. pose proof (body_buffer _ _ _ _ Hb Em (sits_prefix _ _ _ _ Hs)) as Hb'.
    eexists. split_and!; [done|by apply live_buffer|done| |]. { right. exists part. split; [done|]. by apply (Wb part). } by eapply opened_body.
Qed.

Lemma announces_extend ctx ctx' stream more header n :
  Operation ctx' = Operation ctx -> ExpectedStatusCode ctx' = ExpectedStatusCode ctx -> ExpectedContentLength ctx' = ExpectedContentLength ctx ->
  announces ctx stream header n -> announces ctx' (stream ++ more) header n.
Proof.
  intros E1 E2 E3 (seen & code & headers & Hs & Hrest). exists seen, code, headers. rewrite E1, E2, E3. split; [by apply prefix_app_r|done].
Qed.

(** What has arrived grows by [content], which is in its place. *)
Lemma header_advance ctx stream content :
  header_phase first ctx stream -> sits (Buffer ctx) 0 (stream ++ content) -> Length ctx + Z.of_nat (length content) <= Capacity ctx ->
  header_phase first (with_Length ctx (Length ctx + Z.of_nat (length content))) (stream ++ content).
Proof. intros [P1 P2 P3 P4 P5] Hs Hfit. split; ctx_simpl; try done. rewrite length_app. lia. Qed.

Lemma body_advance ctx stream part content :
  body_phase first ctx stream part ->
  match TargetMdl ctx with
  | Some mdl => sits mdl 0 (part ++ content) /\ Length ctx + Z.of_nat (length content) <= BodyEndOffset ctx
  | None => sits (Buffer ctx) (BodyOffset ctx) (part ++ content) /\ Length ctx + Z.of_nat (length content) <= Capacity ctx
  end -> body_phase first (with_Length ctx (Length ctx + Z.of_nat (length content))) (stream ++ content) (part ++ content).
Proof.
  intros [B1 B2 B3 B4 (header & B5 & B5') B6 B7] Hs. split; ctx_simpl; try done.
  - rewrite length_app. lia.
  - exists header. split; [by rewrite B5, app_assoc|]. by eapply announces_extend.
  - destruct (TargetMdl ctx); destruct B6 as (? & ? & ?), Hs as (? & ?); split_and!; try done; lia.
Qed.

Lemma live_delivered ctx tr content : live ctx tr -> live ctx (tr ++ [Delivered content]).
Proof. intros []. split; rewrite ?acquired_app, ?given_back_app, ?callbacks_app, ?freed_app; cbn; rewrite ?app_nil_r; done. Qed.
Lemma live_length ctx tr n : 0 <= n < 4294967296 -> live ctx tr -> live (with_Length ctx n) tr.
Proof. intros Hn [[M1 M2 M3 M4 M5] Lw Ls Lc Lf Lr]. by split; [split|..]. Qed.

Lemma arrived_delivered tr content : arrived (tr ++ [Delivered content]) = arrived tr ++ content.
Proof. rewrite arrived_app. cbn. by rewrite app_nil_r. Qed.

(** More has arrived: the response is looked at, or the next record. *)
Lemma advance_good ctx tr irql content :
  live ctx tr -> irql_ok irql -> draining ctx -> Length ctx + Z.of_nat (length content) < 4294967296 ->
  receiving first (with_Length ctx (Length ctx + Z.of_nat (length content))) (arrived tr ++ content) ->
  good tr irql (let ctx := with_Length ctx (u32 (Length ctx + Z.of_nat (length content))) in
                if (BodyOffset ctx =? 0) || (BodyEndOffset ctx <=? Length ctx)
                then Some (with_Stage ctx HttpStageReadResponse, [Delivered content], Call FnKick)
                else Some (ctx, [Delivered content], Call FnTlsDrain)).
Proof.
  intros Hl Hi Hd Hlt Hr. pose proof (mo_length _ _ (l_memory _ _ Hl)). rewrite u32_id by lia. set (c := with_Length ctx _) in *.
  assert (Hl' : live c (tr ++ [Delivered content])) by (apply live_delivered, live_length; [lia|done]).
  pose proof (l_routine _ _ Hl') as Hrt. cbv zeta. destruct ((BodyOffset c =? 0) || (BodyEndOffset c <=? Length c)) eqn:E; apply good_step; try done.
  - eapply live_alike; [|exact Hl']. by split.
  - rewrite arrived_delivered. cbn [place_ok]. ctx_simpl. split_and!; [done| |eapply receiving_same; [|done]; by split_and!]. destruct Hd as (s & ? & ? & _). by exists s.
  - rewrite arrived_delivered. apply orb_false_iff in E as [E1%Z.eqb_neq E2%Z.leb_gt]. split_and!; [done..|]. destruct Hr as [Hh|[part Hb]]; [by destruct E1, Hh|].
    right. by exists part.
Qed.

Lemma deliver_good ctx tr irql d plaintext content :
  live ctx tr -> irql_ok irql -> draining ctx -> opened ctx (arrived tr) plaintext d -> (exists rest, plaintext = content ++ rest) -> good tr irql (deliver_record ctx d content).
Proof.
  intros Hl Hi Hd Ho [rest ->]. destruct (l_memory _ _ Hl) as [M1 M2 M3 M4 M5] eqn:Hm. clear Hm. unfold deliver_record.
  assert (Hpre : forall b off k, sits b off (k ++ content ++ rest) -> sits b off (k ++ content)) by (intros ? ? ? Hs; rewrite app_assoc in Hs; by eapply sits_prefix).
  destruct Ho as [part mdl off Hb Em Hs Hfit|part mdl Hb Em|off Hh Hs Hfit|part off Hb Em Hs Hfit].
  - rewrite length_app in Hfit. pose proof (bp_small _ _ _ _ Hb). apply advance_good; try done; [lia|]. right. exists (part ++ content). apply body_advance; [done|]. rewrite Em. split; [by apply Hpre|lia].
  - destruct (Z.ltb_spec (BodyEndOffset ctx - Length ctx) (Z.of_nat (length content))); [by apply fail_good|]. rewrite Em. cbn [mbind option_bind].
    pose proof Hb as [B1 B2 B3 B4 B5 B6 B7]. rewrite Em in B6. destruct B6 as (B6 & B8 & B9).
    destruct (sits_extend mdl 0 part content B6) as (mdl' & E & El & Hs); [lia|]. rewrite Z.add_0_l in E. rewrite E. cbn [mbind option_bind].
    pose proof (body_mdl _ _ _ _ _ Hb Em El (sits_prefix _ _ _ _ Hs)) as Hb'. apply advance_good; try done; [by eapply live_mdl|ctx_simpl; lia|].
    right. exists (part ++ content). apply body_advance; [done|]. ctx_simpl. split; [done|lia].
  - rewrite length_app in Hfit. apply advance_good; try done; [lia|]. left. apply header_advance; [done|by apply Hpre|lia].
  - rewrite length_app in Hfit. apply advance_good; try done; [lia|]. right. exists (part ++ content). apply body_advance; [done|]. rewrite Em. split; [by apply Hpre|lia].
Qed.

Lemma opened_same c c' l pl d : same_data c c' -> opened c l pl d -> opened c' l pl d.
Proof.
  intros Hs. pose proof Hs as ((E1 & E2 & E3) & (E4 & E5 & E6 & E7) & _). intros [part mdl off Hb Em Hm Hf|part mdl Hb Em|off Hh Hm Hf|part off Hb Em Hm Hf].
  - eapply opened_mdl; [by eapply body_same|by rewrite E7|done|by rewrite E3, E4].
  - rewrite <- E3, <- E4. eapply opened_scratch; [by eapply body_same|by rewrite E7].
  - apply opened_header; [by eapply header_same|by rewrite E6|by rewrite E4, E5].
  - eapply opened_body; [by eapply body_same|by rewrite E7|by rewrite E6, E1|by rewrite E4, E5].
Qed.

Lemma open_good ctx s b declaredLen tr irql a :
  answers_ok a -> live ctx tr -> irql_ok irql -> Socket ctx = Some s -> socket_ok s -> TlsRecvBuffer s = Some b -> wanting first ctx (arrived tr) ->
  17 <= declaredLen <= 16401 -> 5 + declaredLen <= TlsRecvLength s - TlsRecvOffset s -> good tr irql (open_record ctx s declaredLen a).
Proof.
  intros Ha Hl Hi Hs Ho Hb Hw Hd Hin. pose proof capacity_value as [_ Hcap]. pose proof (so_buffer _ Ho b Hb) as [Hlen Hbytes]. pose proof Ho as [O1 O2 _].
  unfold open_record. change TLS_TAG_LEN with 16. rewrite (u32_id (declaredLen - 16)) by lia. rewrite Hb. cbn [mbind option_bind]. rewrite rd_list_in_range by lia. cbn [mbind option_bind].
  destruct (destination_ok ctx tr (declaredLen - 16) a Hl Hw) as (c1 & d & -> & Hl1 & Es1 & Hw1 & Hd1); [lia|]. cbn [mbind option_bind].
  pose proof (ao_open a Ha (declaredLen - 16) ltac:(lia)) as Hopen. destruct (a_Open a (declaredLen - 16)) as [st plaintext]. cbn [snd] in Hopen.
  destruct d as [o|o r|o|st0]; [..|by apply fail_good]; rewrite <- Hopen in Hd1.
  all: destruct (decrypt_ok c1 tr _ plaintext Hl1 Hw1 Hd1) as (c2 & -> & Hl2 & Es2 & Hw2 & Hop); [lia|]; cbn [mbind option_bind].
  all: assert (Hs2 : Socket c2 = Some s) by congruence; pose proof (l_routine _ _ Hl2) as Hr2.
  all: destruct (NT_SUCCESS st) eqn:Est; cbn [negb]; [|apply good_next; [done..|]; cbn [place_ok]; split; [done|by apply wanting_receiving]].
  all: rewrite (u32_id (5 + declaredLen)), (u32_id (TlsRecvOffset s + _)) by lia.
  all: set (s' := with_ReadSeq _ _); set (c3 := with_Socket c2 (Some s')).
  all: assert (Hs' : socket_ok s') by (split; cbn; [lia|lia|by intros ? [= <-]]).
  all: assert (Hl3 : live c3 tr) by (by eapply live_socket).
  all: assert (Hsame : same_data c2 c3) by same.
  all: pose proof (wanting_same _ _ _ Hsame Hw2) as Hw3; assert (Hdr : draining c3) by (by exists s').
  all: destruct (strip_total plaintext) as ([[ty n]|] & -> & Hn); cbn [mbind option_bind]; [|apply good_next; [done..|]; cbn [place_ok]; split; [done|by apply wanting_receiving]].
  all: destruct (22 =? ty); [by apply good_next|].
  all: destruct (23 =? ty); cbn [negb]; [|apply good_next; [done..|]; cbn [place_ok]; split; [done|by apply wanting_receiving]].
  all: rewrite rd_list_in_range by lia; cbn [mbind option_bind]; rewrite drop_0.
  all: eapply deliver_good; [done..|by eapply opened_same|]; exists (drop (Z.to_nat n) plaintext); by rewrite take_drop.
Qed.

Lemma drain_good ctx tr irql a :
  answers_ok a -> live ctx tr -> irql_ok irql -> draining ctx -> wanting first ctx (arrived tr) -> good tr irql (tls_drain ctx a).
Proof.
  intros Ha Hl Hi (s & Hs & Ho & [b Hb]) Hw. pose proof capacity_value as [_ Hcap]. pose proof (so_buffer _ Ho b Hb) as [Hlen Hbytes]. pose proof Ho as [O1 O2 _].
  pose proof (l_routine _ _ Hl) as Hr. pose proof (wanting_receiving _ _ Hw) as Hrec.
  unfold tls_drain. rewrite Hs. cbn [mbind option_bind]. rewrite Hb. cbn [mbind option_bind]. rewrite (u32_id (TlsRecvLength s - _)) by lia.
  destruct (Z.ltb_spec (TlsRecvLength s - TlsRecvOffset s) 5); [by apply receive_more_good; try done; lia|].
  destruct (rd_byte b (TlsRecvOffset s) Hbytes) as (ty & -> & _); [lia|]. destruct (rd_byte b (TlsRecvOffset s + 3) Hbytes) as (b3 & -> & Hb3); [lia|].
  destruct (rd_byte b (TlsRecvOffset s + 4) Hbytes) as (b4 & -> & Hb4); [lia|]. cbn [mbind option_bind]. unfold is_byte in *.
  rewrite lor_shiftl by lia. change (2 ^ 8) with 256. set (declaredLen := b3 * 256 + b4). assert (Hdec : 0 <= declaredLen) by lia.
  destruct (21 =? ty); [apply good_next; [done..|]; cbn [place_ok]; by split|].
  change TLS_RECORD_CIPHERTEXT_MAX with 16401. change (TLS_TAG_LEN + 1) with 17.
  destruct (Z.ltb_spec 16401 declaredLen); cbn [orb]; [apply good_next; [done..|]; cbn [place_ok]; by split|].
  destruct (negb (23 =? ty) && negb (20 =? ty)); [apply good_next; [done..|]; cbn [place_ok]; by split|].
  destruct (Z.ltb_spec (TlsRecvLength s - TlsRecvOffset s) (5 + declaredLen)); [by apply receive_more_good; try done; lia|].
  destruct (20 =? ty).
  { rewrite u32_id by lia. set (s' := with_Recv _ _ _ _). assert (Hs' : socket_ok s') by (apply recv_ok; try done; lia). apply good_next; [by eapply live_socket|done|done|].
    cbn [place_ok]. ctx_simpl. split_and!; [done|by exists s'|]. eapply wanting_same; [|done]. same. }
  destruct (Z.ltb_spec declaredLen 17); [apply good_next; [done..|]; cbn [place_ok]; by split|].
  eapply open_good; try done; lia.
Qed.

(** ** The response *)

(** The headers were just parsed: nothing has moved yet. *)
Record parsed (ctx : HTTP_CONTEXT) (stream : list Z) : Prop := {
  pa_offset : 0 < BodyOffset ctx <= Length ctx;
  pa_content : 0 <= ContentLength ctx <= HTTP_MAX_CONTENT_LENGTH;
  pa_end : BodyEndOffset ctx = BodyOffset ctx + ContentLength ctx;
  pa_length : Length ctx = Z.of_nat (length stream);
  pa_fits : Length ctx <= Capacity ctx;
  pa_sits : sits (Buffer ctx) 0 stream;
  pa_room : Z.of_nat (length (Buffer ctx)) <= header_room first;
  pa_announces : announces ctx stream (take (Z.to_nat (BodyOffset ctx)) stream) (ContentLength ctx)
}.

Lemma checked_add a b : 0 <= a < 18446744073709551616 -> 0 <= b -> a + b < 18446744073709551616 -> HttpCheckedAddSizeT a b = Some (a + b).
Proof. intros. unfold HttpCheckedAddSizeT. rewrite u64_id by lia. destruct (Z.ltb_spec (a + b) a); [lia|done]. Qed.

(** The parse, and the fields it leaves. *)
Lemma parse_ok ctx tr :
  live ctx tr -> header_phase first ctx (arrived tr) ->
  exists st ctx', HttpParseHeaders ctx = Some (st, ctx') /\ alike ctx ctx' /\ Socket ctx' = Socket ctx /\
    (st = STATUS_BUFFER_TOO_SMALL -> ctx' = ctx /\ Length ctx < HTTP_MAX_HEADER_BYTES) /\
    (NT_SUCCESS st = true -> (StatusCode ctx' = ExpectedStatusCode ctx' -> (Operation ctx' = HttpOpFileRead -> ContentLength ctx' = ExpectedContentLength ctx') -> parsed ctx' (arrived tr))).
Proof.
  intros Hl [P1 P2 P3 P4 P5]. destruct (l_memory _ _ Hl) as [M1 M2 M3 M4 M5] eqn:Hm. clear Hm. unfold HttpParseHeaders. rewrite (sits_list _ _ _ _ P4 P2). cbn [mbind option_bind].
  destruct (phr_parse_response (arrived tr)) as [| |n code headers] eqn:Ep.
  - eexists _, ctx. split_and!; [done|by split|done| |]; destruct (Z.leb_spec HTTP_MAX_HEADER_BYTES (Length ctx)); done.
  - eexists _, ctx. by split_and!; [done|split|..].
  - pose proof (phr_parsed_bounds _ _ _ _ Ep) as Hn. set (c1 := with_Parse ctx n (ContentLength ctx) (BodyEndOffset ctx) headers code).
    assert (Hc1 : alike ctx c1) by (by split). destruct (HttpGetContentLengthFromHeaders headers) as [st cl] eqn:Ec.
    destruct (NT_SUCCESS st) eqn:Est; cbn [negb].
    2: { eexists _, c1. split_and!; try done; [intros ->|congruence]. unfold HttpGetContentLengthFromHeaders in Ec. rewrite content_length_loop_values in Ec. unfold HttpStrToSize in Ec. repeat case_match; simplify_eq. }
    destruct (content_length_success _ _ _ Ec Est) as [-> Hcl]. destruct (Z.ltb_spec HTTP_MAX_CONTENT_LENGTH cl); [by eexists _, c1; split_and!|].
    assert (Hcl' : cl <= 67108864) by done. rewrite checked_add by lia.
    set (nostore := if bool_decide (Operation c1 = HttpOpDirInfo) || bool_decide (Operation c1 = HttpOpFileInfo) then HttpForbidsStoring headers else Some false).
    assert (Hns : is_Some nostore) by (unfold nostore; destruct (_ || _); [apply forbids_defined|done]). destruct Hns as [ns ->]. cbn [mbind option_bind].
    set (version := if bool_decide (Operation c1 = HttpOpFileRead) then HttpParseFileVersion headers else Some None).
    assert (Hv : is_Some version) by (unfold version; destruct (bool_decide _); [apply version_defined|done]). destruct Hv as [v ->]. cbn [mbind option_bind].
    eexists _, _. split_and!; [done|by split|done|done|]. intros _ Hcode Hlen. subst c1. ctx_simpl. split; ctx_simpl; try done; [lia..|].
    exists (arrived tr), code, headers. split_and!; try done.
    + by rewrite Ep, length_take_le, Z2Nat.id by lia.
    + apply prefix_take.
Qed.

(** The body in the buffer, which may still be short. *)
Record ready (ctx : HTTP_CONTEXT) (stream part : list Z) : Prop := {
  re_offset : 0 < BodyOffset ctx <= header_room first + 7;
  re_content : 0 <= ContentLength ctx <= HTTP_MAX_CONTENT_LENGTH;
  re_end : BodyEndOffset ctx = BodyOffset ctx + ContentLength ctx;
  re_length : Length ctx = BodyOffset ctx + Z.of_nat (length part);
  re_stream : exists header, stream = header ++ part /\ announces ctx stream header (ContentLength ctx);
  re_sits : sits (Buffer ctx) (BodyOffset ctx) part;
  re_fits : Length ctx <= Capacity ctx;
  re_mdl : TargetMdl ctx = None
}.

Lemma parsed_part ctx stream : parsed ctx stream -> let part := drop (Z.to_nat (BodyOffset ctx)) stream in
  sits (Buffer ctx) (BodyOffset ctx) part /\ Length ctx = BodyOffset ctx + Z.of_nat (length part) /\
  stream = take (Z.to_nat (BodyOffset ctx)) stream ++ part.
Proof.
  intros [P1 P2 P3 P4 P5 P6 P7 P8] part. assert (E : stream = take (Z.to_nat (BodyOffset ctx)) stream ++ part) by (by unfold part; rewrite take_drop).
  split_and!; [|unfold part; rewrite length_drop; lia|done]. rewrite E in P6. apply sits_app in P6 as [_ P6].
  rewrite length_take_le, Z2Nat.id, Z.add_0_l in P6 by lia. done.
Qed.

Lemma parsed_ready ctx stream : parsed ctx stream -> memory_ok first ctx -> TargetMdl ctx = None -> ready ctx stream (drop (Z.to_nat (BodyOffset ctx)) stream).
Proof.
  intros Hp Hm Em. destruct (parsed_part _ _ Hp) as (H1 & H2 & H3). destruct Hp as [P1 P2 P3 P4 P5 P6 P7 P8]. destruct Hm. split; try done; [lia|]. eexists. split; [exact H3|done].
Qed.

Lemma ready_grown ctx ctx' stream part :
  ready ctx stream part -> Length ctx <= BodyEndOffset ctx -> grown ctx (BodyEndOffset ctx + 1) STATUS_SUCCESS ctx' -> body_phase first ctx' stream part.
Proof.
  intros [R1 R2 R3 R4 R5 R6 R7 R8] Hle [[? _]|(_ & b & n & -> & Hn & Hc & Hb & Hsits)]; [done|]. split; ctx_simpl; try done; [|lia].
  rewrite R8. split_and!; [|lia..]. apply Hsits; [done|lia].
Qed.

(** What preparing the body comes to: a status, or the body in its place. *)
Definition prepared (ctx : HTTP_CONTEXT) (tr : list EFFECT) (st : NTSTATUS) (ctx' : HTTP_CONTEXT) : Prop :=
  live ctx' tr /\ Socket ctx' = Socket ctx /\
  ((st = STATUS_SUCCESS /\ exists part, body_phase first ctx' (arrived tr) part /\ Length ctx' <= BodyEndOffset ctx') \/ NT_SUCCESS st = false).

Lemma announces_same ctx ctx' stream header n :
  Operation ctx' = Operation ctx -> ExpectedStatusCode ctx' = ExpectedStatusCode ctx -> ExpectedContentLength ctx' = ExpectedContentLength ctx ->
  announces ctx stream header n -> announces ctx' stream header n.
Proof. unfold announces. by intros -> -> ->. Qed.

Lemma spill_ok ctx tr mdl a :
  live ctx tr -> parsed ctx (arrived tr) -> TargetMdl ctx = Some mdl -> (Operation ctx = HttpOpFileRead -> ContentLength ctx = ExpectedContentLength ctx) ->
  Length ctx <= BodyEndOffset ctx -> exists st ctx', spill_to_mdl ctx mdl a = Some (st, ctx') /\ prepared ctx tr st ctx'.
Proof.
  intros Hl Hp Em Hx Hle. destruct (l_memory _ _ Hl) as [M1 M2 M3 M4 M5] eqn:Hm. clear Hm. destruct (M5 mdl Em) as (Hop & Hmdl & Hfirst). specialize (Hx Hop).
  destruct (parsed_part _ _ Hp) as (Hs & Hlen & Est). set (part := drop _ _) in *. pose proof Hp as [P1 P2 P3 P4 P5 P6 P7 P8].
  assert (Hroom : header_room first = 81937) by (unfold header_room; change (HTTP_MAX_HEADER_BYTES + _) with 81937; unfold HTTP_MAX_HEADER_BYTES in Hfirst; lia).
  change HTTP_MAX_CONTENT_LENGTH with 67108864 in P2.
  assert (Hbody : forall mdl', length mdl' = length mdl -> sits mdl' 0 part -> body_phase first (with_Mdl ctx mdl') (arrived tr) part).
  { intros mdl' El Hs'. split; ctx_simpl; try done; try lia.
    - exists (take (Z.to_nat (BodyOffset ctx)) (arrived tr)). split; [done|]. by eapply announces_same; [..|exact P8].
    - split_and!; [done|lia|done]. }
  assert (Hdone : forall mdl', length mdl' = length mdl -> sits mdl' 0 part -> prepared ctx tr STATUS_SUCCESS (with_Mdl ctx mdl')).
  { intros mdl' El Hs'. split_and!; [by eapply live_mdl|done|]. left. split; [done|]. exists part. split; [by apply Hbody|done]. }
  assert (Hself : with_Mdl ctx mdl = ctx) by (destruct ctx; ctx_simpl; by subst).
  unfold spill_to_mdl. rewrite u64_id by lia. destruct (Z.eqb_spec (Length ctx - BodyOffset ctx) 0) as [E|].
  { exists STATUS_SUCCESS, ctx. split; [done|]. rewrite <- Hself at 2. apply Hdone; [done|].
    assert (part = []) as -> by (apply nil_length_inv; lia). apply sits_nil. lia. }
  destruct (a_Mapping a); cbn [negb]; [|exists STATUS_INSUFFICIENT_RESOURCES, ctx; split; [done|]; split_and!; [done|done|by right]].
  rewrite (sits_list _ _ _ _ Hs) by lia. cbn [mbind option_bind].
  destruct (wr_list_in_range mdl 0 part) as (mdl' & Ew & El); [lia..|]. rewrite Ew. cbn [mbind option_bind]. destruct (sits_written _ _ _ _ Ew) as [Hs' _].
  exists STATUS_SUCCESS, (with_Mdl ctx mdl'). split; [done|]. by apply Hdone.
Qed.

Lemma limit_room : header_room first + HTTP_MAX_CONTENT_LENGTH + 16409 = buffer_limit first.
Proof. unfold buffer_limit. change TLS_RECORD_CIPHERTEXT_MAX with 16401. lia. Qed.

(** Growing for the whole body makes it ready for the rest. *)
Lemma grow_body_ok ctx tr part a :
  live ctx tr -> ready ctx (arrived tr) part -> Length ctx <= BodyEndOffset ctx -> BodyEndOffset ctx < 18446744073709551615 ->
  exists st ctx', HttpGrowBufferIfNeeded ctx (u64 (BodyEndOffset ctx + 1)) a = Some (st, ctx') /\ prepared ctx tr st ctx'.
Proof.
  intros Hl Hr Hle Hmax. pose proof Hr as [R1 R2 R3 R4 R5 R6 R7 R8]. pose proof (mo_length _ _ (l_memory _ _ Hl)). pose proof limit_room. rewrite u64_id by lia.
  destruct (grow_ok ctx (BodyEndOffset ctx + 1) a (l_memory _ _ Hl) R7) as (st & ctx' & Eg & Hg). exists st, ctx'. split; [done|].
  pose proof Hg as [[Hst ->]|(-> & b & n & E' & _)]; [split_and!; [done|done|by right]|]. split_and!; [|by rewrite E'|].
  - eapply grown_live; [done| |done]. lia.
  - left. split; [done|]. exists part. split; [by eapply ready_grown|]. by rewrite E'.
Qed.


(** Moving the body to its boundary, before anything more arrives. *)
Lemma align_ok ctx tr part a :
  live ctx tr -> ready ctx (arrived tr) part -> Length ctx <= BodyEndOffset ctx -> BodyOffset ctx <= header_room first -> Z.of_nat (length (Buffer ctx)) <= header_room first ->
  exists st ctx', align_body ctx a = Some (st, ctx') /\ live ctx' tr /\ Socket ctx' = Socket ctx /\
    ((st = STATUS_SUCCESS /\ Length ctx' <= BodyEndOffset ctx' /\ BodyEndOffset ctx' <= BodyEndOffset ctx + 7 /\ ready ctx' (arrived tr) part) \/ NT_SUCCESS st = false).
Proof.
  intros Hl Hr Hle Hoff Hbuf. pose proof Hr as [R1 R2 R3 R4 R5 R6 R7 R8]. destruct (l_memory _ _ Hl) as [M1 M2 M3 M4 M5] eqn:Hm. clear Hm.
  change HTTP_MAX_CONTENT_LENGTH with 67108864 in R2. pose proof limit_room as Hlim. change HTTP_MAX_CONTENT_LENGTH with 67108864 in Hlim.
  unfold align_body. rewrite (u64_id (BodyOffset ctx + 7)) by lia. pose proof (aligned_up (BodyOffset ctx)) as Hal. set (off := Z.land _ _) in *. clearbody off.
  destruct (Z.eqb_spec off (BodyOffset ctx)) as [|Hne]. { exists STATUS_SUCCESS, ctx. split_and!; try done. left. split_and!; [done|done|lia|done]. }
  rewrite checked_add, u64_id by lia. set (fin := off + ContentLength ctx).
  destruct (grow_ok ctx (fin + 1) a (l_memory _ _ Hl) R7) as (st & c1 & -> & Hg). cbn [mbind option_bind].
  pose proof Hg as [[Hst ->]|(-> & b & n & -> & Hn & Hc & Hb & Hsits)]. { rewrite Hst. exists st, ctx. split_and!; try done. by right. }
  change (NT_SUCCESS STATUS_SUCCESS) with true. cbn [negb]. pose proof (grown_live _ _ _ tr Hg ltac:(lia) Hl) as Hl1. ctx_simpl. rewrite u64_id by lia.
  rewrite (sits_list b (BodyOffset ctx) part _ (Hsits _ _ R6 ltac:(lia))) by lia. cbn [mbind option_bind].
  destruct (wr_list_in_range b off part) as (b' & Ew & El); [lia..|]. rewrite Ew. cbn [mbind option_bind]. destruct (sits_written _ _ _ _ Ew) as [Hs' _].
  rewrite (u32_id (off - _)), u32_id by lia. eexists STATUS_SUCCESS, _. split; [done|]. split_and!; [|done|].
  - destruct Hl as [_ Lw Ls Lc Lf Lr]. split; [split|..]; ctx_simpl; try done; lia.
  - left. ctx_simpl. split_and!; [done|lia|lia|]. split; ctx_simpl; try done; lia.
Qed.

Lemma prepare_ok ctx tr a a' :
  live ctx tr -> parsed ctx (arrived tr) -> (Operation ctx = HttpOpFileRead -> ContentLength ctx = ExpectedContentLength ctx) -> Length ctx <= BodyEndOffset ctx ->
  exists st ctx', prepare_body ctx a a' = Some (st, ctx') /\ prepared ctx tr st ctx'.
Proof.
  intros Hl Hp Hx Hle. unfold prepare_body. destruct (TargetMdl ctx) as [mdl|] eqn:Em; [by apply spill_ok|].
  pose proof (parsed_ready _ _ Hp (l_memory _ _ Hl) Em) as Hr. set (part := drop _ _) in Hr. destruct (l_memory _ _ Hl) as [M1 M2 M3 M4 M5] eqn:Hm. clear Hm.
  pose proof Hp as [P1 P2 P3 P4 P5 P6 P7 P8]. change HTTP_MAX_CONTENT_LENGTH with 67108864 in P2. destruct (bool_decide _); cbn [mbind option_bind].
  - change (NT_SUCCESS STATUS_SUCCESS) with true. cbn [negb]. by apply (grow_body_ok _ _ part); [..|lia].
  - destruct (align_ok ctx tr part a Hl Hr Hle) as (st & c1 & -> & Hl1 & Es & Hst); [lia..|]. cbn [mbind option_bind].
    destruct Hst as [(-> & Hle1 & Hend & Hr1)|Hst]; [|rewrite Hst; exists st, c1; split; [done|]; split_and!; [done|done|by right]].
    change (NT_SUCCESS STATUS_SUCCESS) with true. cbn [negb]. destruct (grow_body_ok c1 tr part a' Hl1 Hr1 Hle1) as (st & c2 & Eg & Hl2 & Es2 & Hrest); [lia|].
    exists st, c2. split; [done|]. split_and!; [done|congruence|done].
Qed.

Lemma body_read_good ctx tr irql part :
  live ctx tr -> irql_ok irql -> connected ctx -> body_phase first ctx (arrived tr) part -> Length ctx <= BodyEndOffset ctx -> good tr irql (read_body ctx).
Proof.
  intros Hl Hi Hc Hb Hle. pose proof (l_routine _ _ Hl) as Hrt. unfold read_body. destruct (Z.ltb_spec (Length ctx) (BodyEndOffset ctx)).
  - apply good_next; try done. split_and!; [done|done|]. right. by exists part.
  - destruct Hc as (s & Es & _). rewrite Es. cbn [mbind option_bind]. apply good_step; try done.
    + destruct Hl as [[M1 M2 M3 M4 M5] Lw Ls Lc Lf Lr]. split; [by split|..]; ctx_simpl; rewrite ?acquired_app, ?given_back_app, ?callbacks_app, ?freed_app; cbn; rewrite ?app_nil_r; try done.
      unfold held_socket in Ls. by rewrite Es in Ls.
    + rewrite arrived_app. cbn. rewrite app_nil_r. ctx_simpl. split_and!; [done|done|]. exists part. split; [|ctx_simpl; lia]. eapply body_same; [|done]. same.
Qed.

Lemma status_fails code : NT_SUCCESS (HttpStatusToNtStatus code) = false.
Proof. unfold HttpStatusToNtStatus. repeat case_match; done. Qed.

(** What the checks on the headers come to. *)
Lemma check_ok ctx tr irql a a' :
  answers_ok a -> live ctx tr -> irql_ok irql -> connected ctx -> header_phase first ctx (arrived tr) -> good tr irql (HttpReadResponse ctx a a').
Proof.
  intros Ha Hl Hi Hc Hh. unfold HttpReadResponse. rewrite (hp_offset _ _ _ Hh), Z.eqb_refl. unfold check_headers.
  destruct (parse_ok ctx tr Hl Hh) as (st & c1 & -> & Hal & Es & Hsmall & Hok). cbn [mbind option_bind]. pose proof (live_alike _ _ _ Hal Hl) as Hl1. pose proof (l_routine _ _ Hl1) as Hr1.
  destruct (Z.eqb_spec st STATUS_BUFFER_TOO_SMALL) as [E|].
  { destruct (Hsmall E) as [-> Hlt]. apply good_next; try done. split_and!; [done|done|]. by left. }
  destruct (NT_SUCCESS st) eqn:Est; cbn [negb]; [|by apply good_next].
  destruct (Z.eqb_spec (StatusCode c1) (ExpectedStatusCode c1)); cbn [negb]; [|apply good_next; try done; split; [apply status_fails|done]].
  destruct (bool_decide (Operation c1 = HttpOpFileRead) && negb (ContentLength c1 =? ExpectedContentLength c1)) eqn:Ex; [by apply good_next|].
  assert (Hx : Operation c1 = HttpOpFileRead -> ContentLength c1 = ExpectedContentLength c1).
  { intros Eo. rewrite bool_decide_true in Ex by done. by destruct (Z.eqb_spec (ContentLength c1) (ExpectedContentLength c1)). }
  specialize (Hok eq_refl e Hx). destruct (Z.ltb_spec (BodyEndOffset c1) (Length c1)); [by apply fail_good|].
  destruct (prepare_ok c1 tr a a' Hl1 Hok Hx) as (st' & c2 & -> & Hl2 & Es2 & Hst); [lia|]. cbn [mbind option_bind].
  destruct Hst as [(-> & part & Hb & Hle)|Hst]; [|rewrite Hst; by apply fail_good].
  change (NT_SUCCESS STATUS_SUCCESS) with true. cbn [negb]. eapply body_read_good; try done. destruct Hc as (s & ? & ?). exists s. split; [congruence|done].
Qed.

Lemma read_response_good ctx tr irql a a' :
  answers_ok a -> live ctx tr -> irql_ok irql -> connected ctx -> receiving first ctx (arrived tr) -> good tr irql (HttpReadResponse ctx a a').
Proof.
  intros Ha Hl Hi Hc [Hh|[part Hb]]; [by apply check_ok|]. unfold HttpReadResponse. pose proof (bp_offset _ _ _ _ Hb). destruct (Z.eqb_spec (BodyOffset ctx) 0); [lia|].
  cbn [mbind option_bind]. destruct (Z.ltb_spec (BodyEndOffset ctx) (Length ctx)); [by apply fail_good|]. change (NT_SUCCESS STATUS_SUCCESS) with true. cbn [negb].
  by eapply body_read_good; [..|lia].
Qed.


(** ** Handing the response over *)

Lemma dispatch_inline_good ctx tr irql a :
  live ctx tr -> irql_ok irql -> Socket ctx = None -> complete first ctx (arrived tr) -> good tr irql (HttpDispatchInline ctx a).
Proof.
  intros Hl Hi Hs (part & Hb & Hfull). pose proof Hb as [B1 B2 B3 B4 (header & Est & Han) B6 B7]. unfold HttpDispatchInline.
  assert (Hbody : response_body ctx = Some part).
  { unfold response_body. destruct (TargetMdl ctx); destruct B6 as (B6 & _); apply (sits_list _ _ _ _ B6); lia. }
  rewrite Hbody. cbn [mbind option_bind]. set (result := if bool_decide _ then _ else _). destruct (NT_SUCCESS result) eqn:E; cbn [negb]; [|by apply fail_good].
  rewrite (l_routine _ _ Hl). destruct Hl as [[M1 M2 M3 M4 M5] Lw Ls Lc Lf Lr]. eexists _, _, _. split; [done|].
  split; ctx_simpl; rewrite ?acquired_app, ?given_back_app, ?callbacks_app, ?arrived_app, ?freed_app, ?Lc, ?Lf; cbn; rewrite ?app_nil_r; try done; [].
  constructor; [|constructor]. split; [done|]. exists header. split; [done|]. replace (Z.of_nat (length part)) with (ContentLength ctx) by lia. by eapply announces_same; [..|exact Han].
Qed.

Lemma dispatch_good ctx tr irql :
  live ctx tr -> irql_ok irql -> Socket ctx = None -> complete first ctx (arrived tr) -> good tr irql (HttpDispatch ctx irql).
Proof.
  intros Hl Hi Hs Hc. unfold HttpDispatch, queue_worker. pose proof (l_routine _ _ Hl). destruct (HttpMustBounceToPassive ctx irql) eqn:E; [|by apply good_next].
  rewrite (bounce_work ctx irql (l_work _ _ Hl) E). by apply good_next.
Qed.

(** ** Completions *)

Lemma on_socket_good ctx tr irql st s reused :
  live ctx tr -> irql_ok irql -> Socket ctx = None -> untouched first ctx (arrived tr) -> socket_ok s -> good tr irql (HttpOnSocket ctx st s reused).
Proof.
  intros Hl Hi Hn Hu Hs. pose proof (l_routine _ _ Hl) as Hr. unfold HttpOnSocket. destruct (_ && _).
  { apply good_next; [eapply live_alike; [|done]; by split|done|done|]. cbn [place_ok]. ctx_simpl. split_and!; [done|done|]. eapply untouched_same; [|done]. same. }
  destruct (NT_SUCCESS st) eqn:Est; cbn [negb]; [|by apply fail_good]. apply good_step; try done.
  - destruct Hl as [[M1 M2 M3 M4 M5] Lw Ls Lc Lf Lr]. split; [by split|..]; ctx_simpl; rewrite ?acquired_app, ?given_back_app, ?callbacks_app, ?freed_app; cbn; rewrite ?app_nil_r; try done.
    unfold held_socket in *. ctx_simpl. rewrite Hn, app_nil_r in Ls. by rewrite Ls.
  - rewrite arrived_app. cbn [arrived]. cbn. rewrite app_nil_r. ctx_simpl.
    assert (Hu' : forall g, untouched first (with_Stage (with_Source (with_Socket ctx (Some s)) (if reused then HttpConnectionReused else HttpConnectionFresh)) g) (arrived tr))
      by (intros g; eapply untouched_same; [|done]; same).
    destruct (_ && _); (split_and!; [done|by exists s|apply Hu']).
Qed.

Lemma on_handshake_good ctx tr irql st :
  live ctx tr -> irql_ok irql -> connected ctx -> untouched first ctx (arrived tr) -> good tr irql (HttpOnTlsHandshakeComplete ctx st).
Proof.
  intros Hl Hi Hc Hu. pose proof (l_routine _ _ Hl). unfold HttpOnTlsHandshakeComplete. destruct (NT_SUCCESS st) eqn:E; cbn [negb].
  - apply good_next; [eapply live_alike; [|done]; by split|done|done|]. cbn [place_ok]. ctx_simpl. split_and!; [done|done|]. eapply untouched_same; [|done]. same.
  - apply retry_good; try done. left. apply Hu.
Qed.

Lemma on_send_good ctx tr irql st :
  live ctx tr -> irql_ok irql -> connected ctx -> untouched first ctx (arrived tr) -> good tr irql (HttpOnSend ctx st).
Proof.
  intros Hl Hi Hc Hu. pose proof (l_routine _ _ Hl). unfold HttpOnSend. destruct (NT_SUCCESS st) eqn:E; cbn [negb].
  - apply good_next; [eapply live_alike; [|done]; by split|done|done|]. cbn [place_ok]. ctx_simpl. split_and!; [done|done|]. eapply untouched_same; [|done]. same.
  - apply retry_good; try done. left. apply Hu.
Qed.

(** What landed in a window: the context is as it was, and the data follow
    what had arrived. *)
Lemma land_ok ctx tr target off len data :
  live ctx tr -> window_ok first ctx (arrived tr) target off len -> Z.of_nat (length data) <= len ->
  exists ctx', land_data ctx target off data = Some ctx' /\ live ctx' tr /\ Socket ctx' = Socket ctx /\ receiving first ctx' (arrived tr) /\
    Length ctx' + Z.of_nat (length data) < 4294967296 /\
    receiving first (with_Length ctx' (Length ctx' + Z.of_nat (length data))) (arrived tr ++ data).
Proof.
  intros Hl [Hpos Hw] Hlen. destruct (l_memory _ _ Hl) as [M1 M2 M3 M4 M5] eqn:Hm. clear Hm. destruct target; cbn [land_data].
  - destruct Hw as [-> [(Hh & Hmax & Hfit)|(Em & part & Hb & Hfit)]].
    + pose proof Hh as [P1 P2 P3 P4 P5]. destruct (sits_extend (Buffer ctx) 0 (arrived tr) data P4) as (b & E & El & Hs); [lia|].
      rewrite Z.add_0_l, <- P2 in E. rewrite E. cbn [mbind option_bind]. pose proof (header_buffer _ _ _ Hh El (sits_prefix _ _ _ _ Hs)) as Hh'.
      eexists. split_and!; [done|by apply live_buffer|done|by left|ctx_simpl; lia|]. left. apply header_advance; [done|done|ctx_simpl; lia].
    + pose proof Hb as [B1 B2 B3 B4 B5 B6 B7]. rewrite Em in B6. destruct B6 as (B6 & B8 & B9).
      destruct (sits_extend (Buffer ctx) (BodyOffset ctx) part data B6) as (b & E & El & Hs); [lia|].
      rewrite <- B4 in E. rewrite E. cbn [mbind option_bind]. pose proof (body_buffer _ _ _ _ Hb Em (sits_prefix _ _ _ _ Hs)) as Hb'.
      eexists. split_and!; [done|by apply live_buffer|done|right; by exists part|ctx_simpl; lia|]. right. exists (part ++ data). apply body_advance; [done|].
      ctx_simpl. rewrite Em. split; [done|lia].
  - destruct Hw as (part & [mdl Em] & Hb & -> & ->). pose proof Hb as [B1 B2 B3 B4 B5 B6 B7]. rewrite Em in B6. destruct B6 as (B6 & B8 & B9). rewrite Em. cbn [mbind option_bind].
    destruct (sits_extend mdl 0 part data B6) as (mdl' & E & El & Hs); [lia|]. rewrite Z.add_0_l in E. rewrite E. cbn [mbind option_bind].
    pose proof (body_mdl _ _ _ _ _ Hb Em El (sits_prefix _ _ _ _ Hs)) as Hb'.
    eexists. split_and!; [done|by eapply live_mdl|done|right; by exists part|ctx_simpl; lia|]. right. exists (part ++ data). apply body_advance; [done|].
    ctx_simpl. split; [done|lia].
Qed.

Lemma on_receive_good ctx tr irql target off len st data :
  live ctx tr -> irql_ok irql -> connected ctx -> window_ok first ctx (arrived tr) target off len -> Z.of_nat (length data) <= len ->
  good tr irql (ctx ← land_data ctx target off data; HttpOnReceive ctx st data).
Proof.
  intros Hl Hi Hc Hw Hlen. destruct (land_ok _ _ _ _ _ _ Hl Hw Hlen) as (c & -> & Hl' & Es & Hold & Hlt & Hnew). cbn [mbind option_bind]. unfold HttpOnReceive.
  destruct (NT_SUCCESS st) eqn:E; cbn [negb]; [|by apply retry_good]. destruct (_ && _); [by apply retry_good|].
  pose proof (mo_length _ _ (l_memory _ _ Hl')). rewrite (u32_id (Z.of_nat _)), u32_id by lia. pose proof (l_routine _ _ Hl') as Hr. apply good_step; try done.
  - eapply live_alike; [|apply live_delivered, (live_length c tr (Length c + Z.of_nat (length data)))]; [by split|lia|done].
  - rewrite arrived_delivered. cbn [place_ok]. ctx_simpl. split_and!; [done| |eapply receiving_same; [|exact Hnew]; same]. destruct Hc as (s & ? & ?). exists s. split; [ctx_simpl; congruence|done].
Qed.

Lemma on_tls_receive_good ctx tr irql off len st data a :
  answers_ok a -> live ctx tr -> irql_ok irql -> draining ctx -> wanting first ctx (arrived tr) ->
  (forall s, Socket ctx = Some s -> off = TlsRecvLength s /\ off + len = BlorgSocketTlsRecvCapacity) -> Z.of_nat (length data) <= len -> bytes_ok data ->
  good tr irql (ctx ← land_ciphertext ctx off data; HttpOnTlsReceive ctx st (Z.of_nat (length data)) a).
Proof.
  intros Ha Hl Hi (s & Hs & Ho & [b Hb]) Hw Hoff Hlen Hdata. destruct (Hoff s Hs) as [-> Hend]. pose proof capacity_value as [_ Hcap].
  pose proof (so_buffer _ Ho b Hb) as [Hblen Hbytes]. pose proof Ho as [O1 O2 _]. unfold land_ciphertext. rewrite Hs. cbn [mbind option_bind]. rewrite Hb. cbn [mbind option_bind].
  destruct (wr_list_in_range b (TlsRecvLength s) data) as (b' & Ew & El); [lia..|]. rewrite Ew. cbn [mbind option_bind]. pose proof (bytes_wr _ _ _ _ Hbytes Hdata Ew) as Hb'.
  set (s1 := with_Recv s b' _ _). set (c1 := with_Socket ctx (Some s1)). assert (Ho1 : socket_ok s1) by (apply recv_ok; try done; lia).
  assert (Hl1 : live c1 tr) by (by eapply live_socket). assert (Hw1 : wanting first c1 (arrived tr)) by (eapply wanting_same; [|done]; same).
  unfold HttpOnTlsReceive. destruct (NT_SUCCESS st) eqn:E; cbn [negb]; [|apply retry_good; try done; by apply wanting_receiving].
  destruct (_ =? 0); [apply retry_good; try done; by apply wanting_receiving|]. cbn [Socket c1 with_Socket mbind option_bind TlsRecvBuffer s1 with_Recv TlsRecvLength TlsRecvOffset].
  rewrite (u32_id (Z.of_nat _)), u32_id by lia. set (s2 := with_Recv s1 b' _ _). assert (Ho2 : socket_ok s2) by (apply recv_ok; try done; lia).
  apply issue_tls_good; try done; [by eapply live_socket|]. eapply wanting_same; [|exact Hw1]. same.
Qed.


(** ** Every event *)

Lemma kick_good ctx tr irql a a' :
  answers_ok a -> request_ok first (mkRequest ctx (Call FnKick) irql tr) -> good tr irql (HttpKick ctx a a' irql).
Proof.
  intros Ha Hq. pose proof (ro_place _ _ Hq) as Hp. pose proof (ro_irql _ _ Hq) as Hi. ctx_simpl. cbn [place_ok] in Hp. unfold HttpKick.
  destruct (Stage ctx) eqn:Eg.
  all: try (destruct Hp as (Hr & Hs & Hd); pose proof (request_live _ _ _ _ Hq eq_refl Hr) as Hl).
  - by apply acquire_good.
  - by apply handshake_good.
  - by apply send_good.
  - apply issue_good; try done. by apply untouched_wanting.
  - by apply read_response_good.
  - by apply dispatch_good.
  - eapply complete_good; [done..|]. by right.
  - eapply complete_good; [done..|]. by left.
Qed.

Lemma call_good f ctx tr irql a a' :
  answers_ok a -> request_ok first (mkRequest ctx (Call f) irql tr) -> good tr irql (run_fn f ctx a a' irql).
Proof.
  intros Ha Hq. pose proof (ro_place _ _ Hq) as Hp. pose proof (ro_irql _ _ Hq) as Hi. ctx_simpl.
  destruct f; cbn [run_fn place_ok] in *; [by apply kick_good|..|by eapply complete_good].
  - destruct Hp as [Hst Hr]. by apply fail_good; [eapply request_live|..].
  - destruct Hp as [[Hst Hr] Hd]. by apply retry_good; [eapply request_live|..].
  - destruct Hp as (Hr & Hs & Hd). by apply issue_good; [|eapply request_live|..].
  - destruct Hp as (Hr & Hs & Hd). by apply drain_good; [|eapply request_live|..].
  - destruct Hp as (Hr & Hs & Hd). by apply dispatch_inline_good; [eapply request_live|..].
Qed.

Lemma worker_good w ctx tr irql :
  request_ok first (mkRequest ctx (AwaitWorker w) irql tr) -> good tr PASSIVE_LEVEL (run_worker w ctx).
Proof.
  intros [Hm _ Hw Hs Hb Ho Hp]. ctx_simpl. assert (Hi : irql_ok PASSIVE_LEVEL) by done. unfold run_worker.
  destruct w; cbn [place_ok] in Hp; eexists _, _, _; (split; [done|]); rewrite app_nil_r; split; ctx_simpl; try done.
  cbn [place_ok]. destruct Hp as (? & ? & ? & ->). done.
Qed.

(** Whatever happens to a request, the code answers it and keeps the
    invariant. *)
Lemma event_good q irql h : request_ok first q -> event q irql h -> good (q_Trace q) irql h.
Proof.
  intros Hq Hev. destruct Hev as [ctx f irql tr a a' Ha Ha'|ctx w irql tr|ctx st s reused irql irql' tr Hi Ho|ctx s s' st irql irql' tr Hi Hs Ho Eid|ctx st irql irql' tr Hi
    |ctx target off len st data irql irql' tr Hi Hlen|ctx off len st data a irql irql' tr Hi Ha Hlen Hdata]; ctx_simpl.
  { by apply call_good. } { by eapply worker_good. }
  all: pose proof (ro_place _ _ Hq) as Hp; ctx_simpl; cbn [place_ok] in Hp; destruct Hp as (Hr & Hc & Hd); pose proof (request_live _ _ _ _ Hq eq_refl Hr) as Hl.
  - by apply on_socket_good.
  - apply on_handshake_good; [by eapply live_socket|done|by exists s'|]. eapply untouched_same; [|done]. same.
  - by apply on_send_good.
  - by eapply on_receive_good.
  - destruct Hd as (Hw & Hpos & Hoff). by eapply on_tls_receive_good.
Qed.

Lemma step_ok q q' : request_ok first q -> http_step q q' -> request_ok first q'.
Proof. intros Hq (irql & ctx & fx & n & Hev & ->). by destruct (event_good _ _ _ Hq Hev) as (? & ? & ? & [= <- <- <-] & ?). Qed.

Lemma steps_ok q q' : rtc http_step q q' -> request_ok first q -> request_ok first q'.
Proof. induction 1; eauto using step_ok. Qed.

End Handlers.
