(* ===== verification/ClientRequestFrame.v ===== *)
(** * What a request's handlers leave alone

    Frame conditions of [ClientRequest]: what a request was made for (its
    operation, the status code and the length it expects) never changes. *)

From S2P Require Import Prelude Buffers ListingIndex ClientText ClientTextTheorems TlsCrypto TlsCodec TlsParse TlsRoundTrip ClientRequest ClientRequestSystem ClientRequestHandlers.

#[local] Open Scope Z_scope.

Section Purpose.
Context `{HttpEnvironment}.

(** What a request was made for. *)
Definition purpose (ctx : HTTP_CONTEXT) : HTTP_OPERATION * Z * Z := (Operation ctx, ExpectedStatusCode ctx, ExpectedContentLength ctx).
Definition kept (ctx : HTTP_CONTEXT) (h : HANDLED) : Prop := match h with Some (ctx', _, _) => purpose ctx' = purpose ctx | None => True end.

(** What the helpers of the handlers leave as it is. *)
Definition fixed (ctx : HTTP_CONTEXT) := (purpose ctx, Socket ctx).
Lemma fixed_purpose c c' : fixed c = fixed c' -> purpose c = purpose c'.
Proof. by intros E%(f_equal fst). Qed.
Lemma fixed_socket c c' : fixed c = fixed c' -> Socket c = Socket c'.
Proof. by intros E%(f_equal snd). Qed.

Lemma kept_trans c c' h : purpose c = purpose c' -> kept c h -> kept c' h.
Proof. unfold kept. intros E. destruct h as [[[? ?] ?]|]; [|done]. by rewrite E. Qed.
Lemma kept_bind {A} c (x : option A) f : (forall y, x = Some y -> kept c (f y)) -> kept c (x ≫= f).
Proof. intros Hf. destruct x; cbn; [by apply Hf|done]. Qed.

(** Follow the branches; [kept_bind] for what is looked up on the way. *)
Ltac keep :=
  repeat match goal with
    | |- kept _ (Some (_, _, _)) => reflexivity
    | |- kept _ (next _ _) => reflexivity
    | |- kept _ (HttpFail _ _) => reflexivity
    | |- kept _ None => exact I
    | |- kept _ (mbind _ _) => apply kept_bind; intros ? ?
    | |- kept _ (let '_ := ?x in _) => destruct x eqn:?
    | |- kept _ (if ?x then _ else _) => destruct x
    | |- kept _ (match ?x with _ => _ end) => destruct x eqn:?
    | H : Some _ = Some _ |- _ => injection H as <- || injection H as -> || injection H as ->
    end.

Lemma grow_fixed ctx r a st ctx' : HttpGrowBufferIfNeeded ctx r a = Some (st, ctx') -> fixed ctx' = fixed ctx.
Proof. unfold HttpGrowBufferIfNeeded. intros E. repeat (case_match; simplify_option_eq; try done). Qed.
Lemma complete_kept ctx st irql : kept ctx (HttpComplete ctx st irql).
Proof. unfold HttpComplete, queue_worker. keep. Qed.
Lemma retry_kept ctx st : kept ctx (HttpFailOrRetryReusedConnection ctx st).
Proof. unfold HttpFailOrRetryReusedConnection, HttpTryRetryReusedConnection. repeat (case_match; simplify_eq; try done). Qed.
Lemma acquire_kept ctx a irql : kept ctx (acquire_socket ctx a irql).
Proof. unfold acquire_socket, queue_worker. cbv zeta. keep; destruct (WorkItem ctx); done. Qed.
Lemma handshake_kept ctx irql : kept ctx (tls_handshake ctx irql).
Proof. unfold tls_handshake, queue_worker. keep. Qed.

Lemma encrypt_kept ctx s a st ctx' l : HttpEncryptRequestRecord ctx s a = Some (st, ctx', l) -> purpose ctx' = purpose ctx.
Proof. unfold HttpEncryptRequestRecord. intros E. repeat (case_match; simplify_eq; try done). Qed.
Lemma send_kept ctx a : kept ctx (send_request ctx a).
Proof.
  unfold send_request. apply kept_bind. intros s _. apply kept_bind. intros [[st c] l] E. eapply kept_trans; [|keep].
  destruct (sk_TlsComplete s); [by eapply encrypt_kept|by simplify_eq].
Qed.

Lemma await_kept ctx a t o n : kept ctx (await_receive ctx a t o n).
Proof. unfold await_receive. keep. Qed.
Lemma issue_kept ctx a : kept ctx (HttpIssueReceiveDispatch ctx a).
Proof.
  unfold HttpIssueReceiveDispatch, HttpIssueTlsReceive, HttpIssueReceive. apply kept_bind. intros s _. destruct (sk_TlsComplete s); [keep|].
  destruct (a_Stack a); cbn [negb]; [|done]. destruct (BodyOffset ctx =? 0); [|destruct (bool_decide _); apply await_kept].
  apply kept_bind. intros [st c] E. eapply kept_trans; [|destruct (NT_SUCCESS st); [apply await_kept|done]].
  destruct (_ =? _); [by eapply fixed_purpose, grow_fixed|by simplify_eq].
Qed.

Lemma more_kept ctx s b a : kept ctx (tls_receive_more ctx s b a).
Proof. unfold tls_receive_more, recv_make_room. keep. Qed.
Lemma destination_fixed ctx n a c d : record_destination ctx n a = Some (c, d) -> fixed c = fixed ctx.
Proof.
  unfold record_destination. intros E. destruct (_ && _); [repeat (case_match; simplify_eq; try done)|].
  destruct (HttpGrowBufferIfNeeded ctx _ a) as [[st c']|] eqn:Eg; cbn [mbind option_bind] in E; [|done]. apply grow_fixed in Eg. by destruct (negb _); injection E as <- _.
Qed.
Lemma decrypt_fixed ctx d l c : decrypt_to ctx d l = Some c -> fixed c = fixed ctx.
Proof. unfold decrypt_to. intros E. destruct d; repeat (case_match || simplify_option_eq); done. Qed.
Lemma deliver_kept ctx d l : kept ctx (deliver_record ctx d l).
Proof. unfold deliver_record. cbv zeta. destruct d; keep. Qed.
Lemma open_kept ctx s n a : kept ctx (open_record ctx s n a).
Proof.
  unfold open_record. apply kept_bind. intros b _. apply kept_bind. intros _ _. apply kept_bind. intros [c d] Ed. apply destination_fixed, fixed_purpose in Ed. apply (kept_trans c); [done|].
  assert (Hrest : forall l st, kept c (c' ← decrypt_to c d l;
     if negb (NT_SUCCESS st) then next c' (Call (FnFailOrRetry st))
     else
       let s := with_ReadSeq (with_Recv s b (TlsRecvLength s) (u32 (TlsRecvOffset s + u32 (5 + n)))) (u64 (sk_ReadSeq s + 1)) in
       let c' := with_Socket c' (Some s) in
       stripped ← BlorgTlsStripInnerPlaintext l;
       match stripped with
       | None => next c' (Call (FnFailOrRetry STATUS_INVALID_PARAMETER))
       | Some (contentType, contentLen) =>
           if 0x16 =? contentType then next c' (Call FnTlsDrain)
           else if negb (0x17 =? contentType) then next c' (Call (FnFailOrRetry STATUS_INVALID_PARAMETER))
           else content ← rd_list l 0 contentLen; deliver_record c' d content
       end)).
  { intros l st. apply kept_bind. intros c' E. apply decrypt_fixed, fixed_purpose in E. apply (kept_trans c'); [done|]. cbv zeta. keep. eapply kept_trans; [|apply deliver_kept]. done. }
  destruct d; try done; destruct (a_Open a _) as [st l]; apply Hrest.
Qed.
Lemma drain_kept ctx a : kept ctx (tls_drain ctx a).
Proof. unfold tls_drain. keep; first [apply more_kept|apply open_kept]. Qed.

Lemma parse_fixed ctx st c : HttpParseHeaders ctx = Some (st, c) -> fixed c = fixed ctx.
Proof. unfold HttpParseHeaders. intros E. repeat (case_match || simplify_option_eq); done. Qed.
Lemma spill_fixed ctx mdl a st c : spill_to_mdl ctx mdl a = Some (st, c) -> fixed c = fixed ctx.
Proof. unfold spill_to_mdl. intros E. repeat (case_match || simplify_option_eq); done. Qed.
Lemma align_fixed ctx a st c : align_body ctx a = Some (st, c) -> fixed c = fixed ctx.
Proof.
  unfold align_body. intros E. destruct (_ =? _); [by simplify_eq|]. destruct (HttpCheckedAddSizeT _ _); [|by simplify_eq].
  destruct (HttpGrowBufferIfNeeded ctx _ a) as [[st' c']|] eqn:Eg; cbn [mbind option_bind] in E; [|done]. apply grow_fixed in Eg as <-. by repeat (case_match || simplify_option_eq).
Qed.
Lemma prepare_fixed ctx a a' st c : prepare_body ctx a a' = Some (st, c) -> fixed c = fixed ctx.
Proof.
  unfold prepare_body. destruct (TargetMdl ctx); [apply spill_fixed|]. intros E.
  destruct (if bool_decide _ then _ else _) as [[st' c']|] eqn:Ea; cbn [mbind option_bind] in E; [|done].
  assert (fixed c' = fixed ctx) by (destruct (bool_decide _); [by simplify_eq|by eapply align_fixed]).
  destruct (negb _); [by injection E as _ <-|]. apply grow_fixed in E. congruence.
Qed.
Lemma body_kept ctx : kept ctx (read_body ctx).
Proof. unfold read_body. keep. Qed.
Lemma response_kept ctx a a' : kept ctx (HttpReadResponse ctx a a').
Proof.
  unfold HttpReadResponse. cbv zeta. apply kept_bind. intros r Er. assert (Hc : match r with inl (_, c) | inr c => purpose c = purpose ctx end).
  { destruct (BodyOffset ctx =? 0); [|by simplify_eq]. unfold check_headers in Er. destruct (HttpParseHeaders ctx) as [[st c]|] eqn:Ep; cbn [mbind option_bind] in Er; [|done].
    apply parse_fixed, fixed_purpose in Ep as <-. by repeat (case_match || simplify_option_eq). }
  destruct r as [[f c]|c]; (eapply kept_trans; [exact Hc|]); [done|]. destruct (_ <? _); [done|]. apply kept_bind. intros [st c'] Ec.
  apply (kept_trans c'); [|destruct (negb _); [done|apply body_kept]]. destruct (BodyOffset ctx =? 0); [by eapply fixed_purpose, prepare_fixed|by simplify_eq].
Qed.

Lemma inline_kept ctx a : kept ctx (HttpDispatchInline ctx a).
Proof. unfold HttpDispatchInline. cbv zeta. keep. Qed.
Lemma call_kept f ctx a a' irql : kept ctx (run_fn f ctx a a' irql).
Proof.
  destruct f; cbn [run_fn]; try done; eauto using retry_kept, issue_kept, drain_kept, inline_kept, complete_kept. unfold HttpKick.
  destruct (Stage ctx); eauto using acquire_kept, handshake_kept, send_kept, issue_kept, response_kept, complete_kept.
  unfold HttpDispatch, queue_worker. keep.
Qed.

Lemma event_kept q irql h : event q irql h -> kept (q_Ctx q) h.
Proof.
  intros []; cbn [q_Ctx]; [apply call_kept|..].
  - destruct w; done.
  - unfold HttpOnSocket. cbv zeta. keep.
  - unfold HttpOnTlsHandshakeComplete. eapply (kept_trans (with_Socket ctx (Some s'))); [done|]. destruct (negb _); [apply retry_kept|done].
  - unfold HttpOnSend. destruct (negb _); [apply retry_kept|done].
  - apply kept_bind. intros c E. apply (kept_trans c); [destruct target; cbn [land_data] in E; by simplify_option_eq|].
    unfold HttpOnReceive. cbv zeta. destruct (negb _); [apply retry_kept|]. destruct (_ && _); [apply retry_kept|done].
  - apply kept_bind. intros c E. apply (kept_trans c); [unfold land_ciphertext in E; by simplify_option_eq|].
    unfold HttpOnTlsReceive. destruct (negb _); [apply retry_kept|]. destruct (_ =? 0); [apply retry_kept|]. unfold HttpIssueTlsReceive. keep.
Qed.

Lemma steps_kept q q' : rtc http_step q q' -> purpose (q_Ctx q') = purpose (q_Ctx q).
Proof. induction 1 as [|q q1 q2 (irql & c & fx & n & Hev & ->) _ IH]; [done|]. rewrite IH. apply (event_kept _ _ _ Hev). Qed.
End Purpose.
