(* ===== verification/ClientRequestTheorems.v ===== *)
(** * Requests: the theorems

    [runs first q]: [q] is a state of a request the entry points of
    src/Client.c made, whose buffer had [first] bytes at the start, after any
    events.  Such a request settles once, never leaves its memory, hands over
    exactly the body announced, and its handlers' calls run out. *)

From S2P Require Import Prelude Buffers ListingIndex ClientText ClientTextTheorems TlsCrypto TlsCodec TlsParse TlsRoundTrip ClientRequest ClientRequestSystem ClientRequestHandlers ClientRequestFrame.
From stdpp Require Import strings.

#[local] Open Scope Z_scope.

Section Theorems.
Context `{HttpEnvironment}.

(** ** Requests *)

(** A context an entry point made.  An MDL describes at least the bytes asked
    for. *)
Inductive starts : Z -> HTTP_CONTEXT -> Prop :=
  | starts_directory request active a ctx : answers_ok a -> BlorgHttpGetDirectoryInfo request active a = inr ctx -> starts HTTP_INITIAL_RECV_CAPACITY ctx
  | starts_information request active a ctx : answers_ok a -> BlorgHttpGetFileInformation request active a = inr ctx -> starts PAGE_SIZE ctx
  | starts_changes request active a ctx : answers_ok a -> BlorgHttpGetChanges request active a = inr ctx -> starts HTTP_INITIAL_RECV_CAPACITY ctx
  | starts_file startOffset len request active a ctx :
      answers_ok a -> 0 <= startOffset <= SIZE_MAX -> 0 <= len <= SIZE_MAX ->
      BlorgHttpGetFile startOffset len request active a = inr ctx -> starts (len + HTTP_MDL_INITIAL_RECV_CAPACITY) ctx
  | starts_file_mdl startOffset len mdl request active a ctx :
      answers_ok a -> 0 <= startOffset <= SIZE_MAX -> 0 <= len <= SIZE_MAX -> len <= Z.of_nat (length mdl) ->
      BlorgHttpGetFileMdl startOffset len mdl request active a = inr ctx -> starts HTTP_MDL_INITIAL_RECV_CAPACITY ctx.

Definition request_of (ctx : HTTP_CONTEXT) (irql : Z) : REQUEST := mkRequest ctx (Call FnKick) irql [].
Definition runs (first : Z) (q : REQUEST) : Prop := exists ctx irql, starts first ctx /\ irql_ok irql /\ rtc http_step (request_of ctx irql) q.

(** The fields every entry point starts with. *)
Record fresh (first : Z) (ctx : HTTP_CONTEXT) : Prop := {
  fr_buffer : length (Buffer ctx) = Z.to_nat first;
  fr_capacity : Capacity ctx = u32 first;
  fr_first : 0 <= first;
  fr_empty : Length ctx = 0 /\ BodyOffset ctx = 0 /\ Socket ctx = None;
  fr_start : Routine ctx = true /\ Stage ctx = HttpStageAcquireSocket;
  fr_work : Operation ctx <> HttpOpFileRead -> WorkItem ctx = true;
  fr_mdl mdl : TargetMdl ctx = Some mdl -> Operation ctx = HttpOpFileRead /\ ExpectedContentLength ctx <= Z.of_nat (length mdl) /\ first <= HTTP_MAX_HEADER_BYTES
}.

Lemma metadata_fresh op first request active a ctx : op <> HttpOpFileRead -> 0 <= first -> http_get_metadata op first request active a = inr ctx -> fresh first ctx.
Proof.
  intros Hop Hf. unfold http_get_metadata, HttpAllocateContext. destruct (_ || _); [done|]. destruct (_ && _); [done|]. destruct request; [done|].
  intros [= <-]. split; ctx_simpl; try done; [by rewrite length_junk|]. intros _. unfold HttpNeedsWorkItem. by rewrite bool_decide_false.
Qed.

Lemma file_fresh startOffset len mdl request active a ctx first :
  0 <= len <= SIZE_MAX -> match mdl with Some m => first = HTTP_MDL_INITIAL_RECV_CAPACITY /\ len <= Z.of_nat (length m) | None => first = len + HTTP_MDL_INITIAL_RECV_CAPACITY end ->
  HttpGetFileCommon startOffset len mdl request active a = inr ctx -> fresh first ctx.
Proof.
  unfold HttpGetFileCommon, HTTP_MDL_INITIAL_RECV_CAPACITY. intros Hlen Hf. destruct (len =? 0); [done|]. destruct (HttpCheckedAddSizeT startOffset len); [|done]. destruct (_ =? 0); [done|].
  assert (Hcap : match mdl with Some _ => Some 2048 | None => HttpCheckedAddSizeT len 2048 end = Some first \/ match mdl with Some _ => Some 2048 | None => HttpCheckedAddSizeT len 2048 end = None).
  { destruct mdl; [left; by destruct Hf as [-> _]|]. subst. unfold HttpCheckedAddSizeT, u64, SIZE_MAX in *. destruct (Z.ltb_spec ((len + 2048) mod 18446744073709551616) len); [by right|].
    left. f_equal. destruct (Z.lt_ge_cases (len + 2048) 18446744073709551616); [by rewrite Z.mod_small by lia|].
    assert ((len + 2048) mod 18446744073709551616 = len + 2048 - 18446744073709551616) by (symmetry; apply (Z.mod_unique _ _ 1); lia). lia. }
  destruct Hcap as [-> | ->]; [|done]. unfold HttpAllocateContext. destruct (_ || _); [done|]. destruct (_ && _); [done|]. destruct request; [done|].
  intros [= <-]. split; ctx_simpl; try done; [by rewrite length_junk|destruct mdl; lia|]. intros m ->. by destruct Hf as [-> ?].
Qed.

Lemma starts_fresh first ctx : starts first ctx -> fresh first ctx.
Proof.
  destruct 1 as [? ? ? ? _ E|? ? ? ? _ E|? ? ? ? _ E|? ? ? ? ? ? _ _ Hl E|? ? ? ? ? ? ? _ _ Hl Hm E]; first [by eapply metadata_fresh in E|by eapply file_fresh in E].
Qed.

Lemma starts_ok first ctx irql : starts first ctx -> irql_ok irql -> request_ok first (request_of ctx irql).
Proof.
  intros [F1 F2 F3 (F4 & F5 & F6) [F7 F8] F9 F10]%starts_fresh Hi. pose proof (header_room_min first). pose proof (limit_room first). unfold header_room, HTTP_MAX_CONTENT_LENGTH in *.
  assert (Hu : 0 <= u32 first <= first /\ u32 first < 4294967296).
  { unfold u32. pose proof (Z.mod_pos_bound first 4294967296 ltac:(lia)). pose proof (Z.mod_le first 4294967296 ltac:(lia) ltac:(lia)). lia. }
  assert (Hl : live first ctx []).
  { split; try done; [split|unfold held_socket; by rewrite F6]; rewrite ?F1, ?F2, ?F4; try done; lia. }
  apply live_request; try done. cbn [place_ok]. rewrite F8. split_and!; [done..|]. split; [|done].
  split; rewrite ?F1, ?F2, ?F4; try done; [lia|apply sits_nil; lia|unfold header_room; lia].
Qed.

Lemma runs_ok first q : runs first q -> request_ok first q.
Proof. intros (ctx & irql & Hs & Hi & Hr). eapply steps_ok; [done|]. by apply starts_ok. Qed.

(** ** The end of a request *)

(** C18: whatever the network, the memory and the parser do, a request's callback
    runs at most once and its context is freed at most once, only at the end,
    where both have happened and nothing can follow; every socket it was given
    has by then been closed or released, once each. *)
Theorem request_settles_once first q :
  runs first q ->
  acquired (q_Trace q) ≡ₚ given_back (q_Trace q) ++ held_socket (q_Ctx q) /\
  match q_Next q with
  | Finished => length (callbacks (q_Trace q)) = 1%nat /\ length (freed (q_Trace q)) = 1%nat /\ acquired (q_Trace q) ≡ₚ given_back (q_Trace q) /\ forall q', ~ http_step q q'
  | _ => (length (callbacks (q_Trace q)) <= 1)%nat /\ freed (q_Trace q) = []
  end.
Proof.
  intros [Hm Hi Hw Hs Hb Ho Hp]%runs_ok. split; [done|]. destruct (q_Next q) eqn:En; try (destruct Ho as [-> ?]; split; [by destruct (Routine _); lia|done]).
  destruct Ho as (Hc & Hf & Hsock). split_and!; [done..| |].
  - unfold held_socket in Hs. by rewrite Hsock, app_nil_r in Hs.
  - intros q' (irql & ctx & fx & n & Hev & _). by inversion Hev; subst q.
Qed.

(** ** Memory *)

(** The memory a posted window lies in. *)
Definition window_memory (ctx : HTTP_CONTEXT) (n : NEXT) : option (list Z * Z * Z) :=
  match n with
  | AwaitReceive IntoBuffer offset len => Some (Buffer ctx, offset, len)
  | AwaitReceive IntoMdl offset len => mdl ← TargetMdl ctx; Some (mdl, offset, len)
  | AwaitTlsReceive offset len => s ← Socket ctx; buffer ← TlsRecvBuffer s; Some (buffer, offset, len)
  | _ => None
  end.
Definition receiving_now (n : NEXT) : bool := match n with AwaitReceive _ _ _ | AwaitTlsReceive _ _ => true | _ => false end.

(** C19: no event makes a handler touch a byte outside its buffers or queue a
    work item it does not have; the response buffer never outgrows
    [buffer_limit]; and while the network may write, it was given a window that
    is not empty and lies inside the buffer, MDL or accumulator. *)
Theorem request_stays_in_memory first q :
  runs first q ->
  (forall irql h, event q irql h -> is_Some h) /\ Z.of_nat (length (Buffer (q_Ctx q))) <= buffer_limit first /\
  (receiving_now (q_Next q) = true -> exists memory offset len,
     window_memory (q_Ctx q) (q_Next q) = Some (memory, offset, len) /\ 0 <= offset /\ 0 < len /\ offset + len <= Z.of_nat (length memory)).
Proof.
  intros Hq%runs_ok. split_and!.
  - intros irql h Hev. destruct (event_good _ _ _ _ Hq Hev) as (? & ? & ? & -> & _). done.
  - apply Hq.
  - destruct Hq as [[M1 M2 M3 M4 M5] _ _ _ _ _ Hp]. intros Hn. destruct (q_Next q) as [| | | |[] off len|off len| |] eqn:En; try done; clear Hn; cbn [place_ok window_memory] in *.
    + destruct Hp as (_ & _ & Hpos & -> & [(_ & _ & Hin)|(Em & part & [B1 B2 B3 B4 B5 B6 B7] & Hin)]); [eexists _, _, _; split_and!; [done|lia..]|].
      rewrite Em in B6. eexists _, _, _; split_and!; [done|lia..].
    + destruct Hp as (_ & _ & Hpos & part & [mdl Em] & [B1 B2 B3 B4 B5 B6 B7] & -> & ->). rewrite Em in *. cbn. eexists _, _, _; split_and!; [done|lia..].
    + destruct Hp as (_ & (s & Es & [O1 O2 O3] & [b Eb]) & _ & Hpos & Hoff). destruct (Hoff s Es) as [-> Hin]. rewrite Es. cbn. rewrite Eb. cbn. destruct (O3 b Eb) as [Hlen _].
      eexists _, _, _; split_and!; [done|lia..].
Qed.

(** ** The response *)

(** C17: a body handed to the callback with success is exactly what arrived
    after the headers: as many bytes as their Content-Length says, with the
    status code the request expects, and for a file read the length asked for. *)
Theorem response_delivered_exactly first ctx irql q st body :
  starts first ctx -> irql_ok irql -> rtc http_step (request_of ctx irql) q -> (st, body) ∈ callbacks (q_Trace q) ->
  match body with
  | None => NT_SUCCESS st = false
  | Some body => st = STATUS_SUCCESS /\ exists header, arrived (q_Trace q) = header ++ body /\ announces ctx (arrived (q_Trace q)) header (Z.of_nat (length body))
  end.
Proof.
  intros Hs Hi Hr Hin. pose proof (steps_kept _ _ Hr) as Hk. assert (Hq : runs first q) by (by exists ctx, irql).
  apply runs_ok in Hq as [_ _ _ _ Hb _ _]. rewrite Forall_forall in Hb. specialize (Hb _ Hin). destruct body as [body|]; [|done].
  destruct Hb as (Hst & header & E & Han). split; [done|]. exists header. split; [done|]. injection Hk as H1 H2 H3. by eapply announces_same; [..|exact Han].
Qed.

(** ** Calls *)

Definition unread (ctx : HTTP_CONTEXT) : nat := match Socket ctx with Some s => Z.to_nat (TlsRecvLength s - TlsRecvOffset s) | None => 0 end.

(** How many calls can still follow one another: a constant per handler, and
    ten for every byte of ciphertext that is still to be read. *)
Definition weight (ctx : HTTP_CONTEXT) (n : NEXT) : nat :=
  match n with
  | Call FnKick =>
      match Stage ctx with
      | HttpStageComplete | HttpStageFailed => 1
      | HttpStageAcquireSocket | HttpStageTlsHandshake | HttpStageSendRequest => 2
      | HttpStageDispatch => 3
      | HttpStageReceive | HttpStageReadResponse => 6 + 10 * unread ctx
      end
  | Call (FnComplete _) => 1
  | Call (FnFail _) | Call FnDispatchInline => 2
  | Call (FnFailOrRetry _) => 3
  | Call FnTlsDrain => 4 + 10 * unread ctx
  | Call FnIssueReceiveDispatch => 5 + 10 * unread ctx
  | _ => 0
  end.
Definition below (m : nat) (h : HANDLED) : Prop := match h with Some (ctx, _, n) => (weight ctx n < m)%nat | None => True end.

Lemma below_bind {A} m (x : option A) f : (forall y, x = Some y -> below m (f y)) -> below m (x ≫= f).
Proof. intros Hf. destruct x; cbn; [by apply Hf|done]. Qed.
Lemma below_le m m' h : (m <= m')%nat -> below m h -> below m' h.
Proof. unfold below. destruct h as [[[? ?] ?]|]; [lia|done]. Qed.
Lemma unread_same c c' : Socket c = Socket c' -> unread c = unread c'.
Proof. unfold unread. by intros ->. Qed.

(** Branches that end in a handler of constant weight. *)
Ltac lower :=
  repeat match goal with
    | |- below _ None => exact I
    | |- below _ (Some _) => cbn; lia
    | |- below _ (next _ _) => cbn; lia
    | |- below _ (HttpFail _ _) => cbn; lia
    | |- below _ (queue_worker ?c _) => unfold queue_worker; destruct (WorkItem c)
    | |- below _ (mbind _ _) => apply below_bind; intros ? ?
    | |- below _ (let '_ := ?x in _) => destruct x eqn:?
    | |- below _ (if ?x then _ else _) => destruct x
    | |- below _ (match ?x with _ => _ end) => destruct x eqn:?
    end.

Lemma complete_below ctx st irql : below 1 (HttpComplete ctx st irql).
Proof. unfold HttpComplete. cbv zeta. lower. Qed.
Lemma retry_below ctx st : below 3 (HttpFailOrRetryReusedConnection ctx st).
Proof. unfold HttpFailOrRetryReusedConnection, HttpTryRetryReusedConnection. cbv zeta. destruct (_ || _); lower. Qed.
Lemma await_below ctx a t o n : below 2 (await_receive ctx a t o n).
Proof. unfold await_receive. lower. Qed.

Lemma issue_below ctx a : below (5 + 10 * unread ctx) (HttpIssueReceiveDispatch ctx a).
Proof.
  unfold HttpIssueReceiveDispatch. apply below_bind. intros s Es. destruct (sk_TlsComplete s).
  - unfold HttpIssueTlsReceive. destruct (negb _); [cbn; lia|]. destruct (BlorgEnsureTlsRecvBuffer s a) as [st s'] eqn:E. cbv zeta. destruct (negb _); [cbn; lia|].
    assert (Hu : TlsRecvLength s' = TlsRecvLength s /\ TlsRecvOffset s' = TlsRecvOffset s).
    { unfold BlorgEnsureTlsRecvBuffer in E. destruct (TlsRecvBuffer s); [by simplify_eq|]. by destruct (a_Memory a); simplify_eq. }
    destruct Hu as [Eu Ev]. cbn. unfold unread. cbn. rewrite Es, Eu, Ev. lia.
  - apply (below_le 2); [lia|]. unfold HttpIssueReceive. destruct (negb _); [cbn; lia|]. destruct (_ =? 0); [|destruct (bool_decide _); apply await_below].
    apply below_bind. intros [st c] _. destruct (negb _); [cbn; lia|apply await_below].
Qed.

Lemma more_below ctx s b a : below 2 (tls_receive_more ctx s b a).
Proof. unfold tls_receive_more, recv_make_room. lower. Qed.
Lemma deliver_below ctx d l : below (7 + 10 * unread ctx) (deliver_record ctx d l).
Proof.
  assert (Hadv : forall c n, Socket c = Socket ctx -> below (7 + 10 * unread ctx) (let c := with_Length c n in
     if (BodyOffset c =? 0) || (BodyEndOffset c <=? Length c) then Some (with_Stage c HttpStageReadResponse, [Delivered l], Call FnKick) else Some (c, [Delivered l], Call FnTlsDrain))).
  { intros c n Es. cbv zeta. rewrite <- (unread_same _ _ Es). destruct (_ || _); cbn; unfold unread; cbn; lia. }
  unfold deliver_record. cbv zeta. destruct d; try by apply Hadv. destruct (_ <? _); [cbn; lia|]. do 2 (apply below_bind; intros ? _). by apply Hadv.
Qed.

Lemma open_below ctx s n a :
  Socket ctx = Some s -> socket_ok s -> 0 <= n -> 5 + n <= TlsRecvLength s - TlsRecvOffset s -> below (4 + 10 * unread ctx) (open_record ctx s n a).
Proof.
  intros Es [O1 O2 O3] Hn Hin. pose proof capacity_value as [_ Hcap]. unfold open_record. apply below_bind. intros b _. apply below_bind. intros _ _. apply below_bind. intros [c d] Ed. apply destination_fixed, fixed_socket in Ed.
  rewrite (u32_id (5 + n)), (u32_id (TlsRecvOffset s + _)) by lia. assert (Hu : unread ctx = Z.to_nat (TlsRecvLength s - TlsRecvOffset s)) by (unfold unread; by rewrite Es). rewrite Hu.
  assert (Hrest : forall l st, below (4 + 10 * Z.to_nat (TlsRecvLength s - TlsRecvOffset s)) (c' ← decrypt_to c d l;
     if negb (NT_SUCCESS st) then next c' (Call (FnFailOrRetry st))
     else
       let s := with_ReadSeq (with_Recv s b (TlsRecvLength s) (TlsRecvOffset s + (5 + n))) (u64 (sk_ReadSeq s + 1)) in
       let c' := with_Socket c' (Some s) in
       stripped ← BlorgTlsStripInnerPlaintext l;
       match stripped with
       | None => next c' (Call (FnFailOrRetry STATUS_INVALID_PARAMETER))
       | Some (contentType, contentLen) =>
           if 0x16 =? contentType then next c' (Call FnTlsDrain)
           else if negb (0x17 =? contentType) then next c' (Call (FnFailOrRetry STATUS_INVALID_PARAMETER))
           else content ← rd_list l 0 contentLen; deliver_record c' d content
       end)).
  { intros l st. apply below_bind. intros c' _. destruct (negb _); [cbn; lia|]. cbv zeta. apply below_bind. intros [[ty k]|] _; [|cbn; lia].
    destruct (_ =? ty); [cbn; unfold unread; cbn; lia|]. destruct (negb _); [cbn; lia|]. apply below_bind. intros content _. eapply below_le; [|apply deliver_below]. unfold unread. cbn. lia. }
  destruct d; [destruct (a_Open a _) as [st l]; apply Hrest..|cbn; lia].
Qed.

Lemma drain_below ctx a : draining ctx -> below (4 + 10 * unread ctx) (tls_drain ctx a).
Proof.
  intros (s & Es & Ho & [b Eb]). pose proof Ho as [O1 O2 O3]. destruct (O3 b Eb) as [Hlen Hbytes]. pose proof capacity_value as [_ Hcap]. unfold tls_drain. rewrite Es. cbn [mbind option_bind]. rewrite Eb. cbn [mbind option_bind].
  rewrite (u32_id (TlsRecvLength s - _)) by lia. assert (Hmore : below (4 + 10 * unread ctx) (tls_receive_more ctx s b a)) by (eapply below_le; [|apply more_below]; lia).
  destruct (Z.ltb_spec (TlsRecvLength s - TlsRecvOffset s) 5); [done|].
  destruct (rd_byte b (TlsRecvOffset s) Hbytes) as (ty & -> & _); [lia|]. destruct (rd_byte b (TlsRecvOffset s + 3) Hbytes) as (b3 & -> & Hb3); [lia|].
  destruct (rd_byte b (TlsRecvOffset s + 4) Hbytes) as (b4 & -> & Hb4); [lia|]. cbn [mbind option_bind]. unfold is_byte in *.
  rewrite lor_shiftl by lia. change (2 ^ 8) with 256. set (n := b3 * 256 + b4). assert (Hn : 0 <= n < 65536) by lia. clearbody n.
  destruct (21 =? ty); [cbn; lia|]. destruct (_ || _); [cbn; lia|]. destruct (Z.ltb_spec (TlsRecvLength s - TlsRecvOffset s) (5 + n)); [done|].
  destruct (20 =? ty); [|destruct (_ <? _); [cbn; lia|apply open_below; [done..|lia|lia]]].
  rewrite u32_id by lia. cbn. unfold unread. cbn. rewrite Es. lia.
Qed.

Lemma response_below ctx a a' : below (6 + 10 * unread ctx) (HttpReadResponse ctx a a').
Proof.
  unfold HttpReadResponse. cbv zeta. apply below_bind. intros r Er.
  assert (Hc : match r with inl (FnIssueReceiveDispatch, c) => Socket c = Socket ctx | inl (f, _) => exists st, f = FnFail st | inr c => Socket c = Socket ctx end).
  { destruct (BodyOffset ctx =? 0); [|by simplify_eq]. unfold check_headers in Er. destruct (HttpParseHeaders ctx) as [[st c]|] eqn:Ep; cbn [mbind option_bind] in Er; [|done].
    apply parse_fixed, fixed_socket in Ep. repeat (case_match || simplify_option_eq); eauto. }
  destruct r as [[f c]|c].
  { destruct f; try (by destruct Hc); cbn; [lia|]. rewrite (unread_same _ _ Hc). lia. }
  destruct (_ <? _); [cbn; lia|]. apply below_bind. intros [st c'] Ec. destruct (negb _); [cbn; lia|].
  assert (Es : Socket c' = Socket ctx). { rewrite <- Hc. destruct (BodyOffset ctx =? 0); [by eapply fixed_socket, prepare_fixed|by simplify_eq]. }
  unfold read_body. destruct (_ <? _); [cbn; rewrite (unread_same _ _ Es); lia|lower].
Qed.

Lemma call_below first f ctx a a' irql tr : request_ok first (mkRequest ctx (Call f) irql tr) -> below (weight ctx (Call f)) (run_fn f ctx a a' irql).
Proof.
  intros Hq. pose proof (ro_place _ _ Hq) as Hp. cbn [q_Ctx q_Next q_Trace] in Hp. destruct f; cbn [run_fn weight place_ok] in *.
  - unfold HttpKick. destruct (Stage ctx).
    + unfold acquire_socket. cbv zeta. lower.
    + unfold tls_handshake. lower.
    + unfold send_request. lower.
    + eapply below_le; [|apply issue_below]. lia.
    + apply response_below.
    + unfold HttpDispatch. lower.
    + apply complete_below.
    + apply complete_below.
  - cbn. lia.
  - apply retry_below.
  - apply issue_below.
  - apply drain_below, Hp.
  - unfold HttpDispatchInline. cbv zeta. lower.
  - apply complete_below.
Qed.

(** One handler calling the next. *)
Definition call_step (q q' : REQUEST) : Prop := http_step q q' /\ exists f, q_Next q = Call f.

Lemma calls_bounded first k q q' : request_ok first q -> nsteps call_step k q q' -> (k + weight (q_Ctx q') (q_Next q') <= weight (q_Ctx q) (q_Next q))%nat.
Proof.
  intros Hq Hn. induction Hn as [|k q q1 q2 [Hs [f Hf]] _ IH]; [lia|]. specialize (IH (step_ok _ _ _ Hq Hs)).
  assert (weight (q_Ctx q1) (q_Next q1) < weight (q_Ctx q) (q_Next q))%nat; [|lia]. destruct Hs as (irql & ctx & fx & n & Hev & ->). cbn.
  destruct q as [c nx i tr]. cbn in *. subst nx. inversion Hev as [? ? ? ? a a' _ _ E1 E2 Er| | | | | |]; subst. pose proof (call_below first f c a a' irql tr Hq) as Hb.
  match goal with E : _ = Some (ctx, fx, n) |- _ => by rewrite E in Hb end.
Qed.

Lemma weight_bound first q : request_ok first q -> (weight (q_Ctx q) (q_Next q) <= 6 + 10 * Z.to_nat BlorgSocketTlsRecvCapacity)%nat.
Proof.
  intros [_ _ _ _ _ _ Hp]. assert (Hu : connected (q_Ctx q) \/ draining (q_Ctx q) -> (unread (q_Ctx q) <= Z.to_nat BlorgSocketTlsRecvCapacity)%nat).
  { unfold unread. intros [(s & -> & [O1 O2 _])|(s & -> & [O1 O2 _] & _)]; lia. }
  unfold weight. destruct (q_Next q) as [[]| | | | | | |]; cbn [place_ok] in Hp; try lia; [destruct (Stage (q_Ctx q)); try lia|..]; destruct Hp as (_ & Hc & _); specialize (Hu ltac:(tauto)); lia.
Qed.

(** C31: handlers do not call one another for ever: from any state of a request
    at most six calls, and ten for each byte the accumulator can hold, follow one
    another before the request waits or is over, and a call never gets stuck on
    the way. *)
Theorem handler_calls_run_out first q k q' :
  runs first q -> nsteps call_step k q q' ->
  (k <= 6 + 10 * Z.to_nat BlorgSocketTlsRecvCapacity)%nat /\
  forall f a a', q_Next q' = Call f -> answers_ok a -> answers_ok a' -> exists q'', call_step q' q''.
Proof.
  intros Hq%runs_ok Hn. split; [pose proof (calls_bounded _ _ _ _ Hq Hn); pose proof (weight_bound _ _ Hq); lia|].
  intros f a a' Ef Ha Ha'. assert (Hq' : request_ok first q').
  { clear f a a' Ef Ha Ha'. induction Hn as [|k q q1 q2 [Hs _] _ IH]; [done|]. apply IH. by eapply step_ok. }
  destruct q' as [c n irql tr]. cbn in Ef. subst n. destruct (call_good _ f c tr irql a a' Ha Hq') as (c' & fx & n & E & _).
  exists (mkRequest c' n irql (tr ++ fx)). split; [|by exists f]. exists irql, c', fx, n. split; [|done]. rewrite <- E. by constructor.
Qed.
End Theorems.

(** ** A request that succeeds *)

(** A parser of two-byte headers, H and the digit of the length. *)
Definition demo_parse (l : list Z) : PHR :=
  match l with
  | h :: n :: _ => if h =? 72 then PhrParsed 2 206 [mkHeader (str "content-length") [n]] else PhrError
  | _ => PhrPartial
  end.
Lemma demo_parse_bounds l n code headers : demo_parse l = PhrParsed n code headers -> 0 < n <= Z.of_nat (length l).
Proof. unfold demo_parse. intros E. repeat (case_match; simplify_eq/=); lia. Qed.
#[local] Instance demo_environment : HttpEnvironment := {|
  phr_parse_response := demo_parse; phr_parsed_bounds := demo_parse_bounds;
  TlsEnabled := false; tlsRecvRecords := 4; tlsRecvRecords_tier := or_introl eq_refl
|}.

Definition demo_answers : ANSWERS :=
  mkAnswers STATUS_PENDING STATUS_PENDING true true true true true (fun _ => 0) (STATUS_SUCCESS, []) (fun n => (STATUS_SUCCESS, replicate (Z.to_nat n) 0)) STATUS_SUCCESS.
Lemma demo_answers_ok : answers_ok demo_answers.
Proof. split; [done| |done]. intros n Hn. cbn. rewrite length_replicate. lia. Qed.

Definition demo_socket : KSOCKET := mkSocket 7 false 0 0 None 0 0.
Lemma demo_socket_ok : socket_ok demo_socket.
Proof. by split. Qed.

(** The network answers H, 3 and three bytes. *)
Definition demo_event (q : REQUEST) : option HANDLED :=
  match q_Next q with
  | Call f => Some (run_fn f (q_Ctx q) demo_answers demo_answers (q_Irql q))
  | AwaitSocket => Some (HttpOnSocket (q_Ctx q) STATUS_SUCCESS demo_socket true)
  | AwaitSend => Some (HttpOnSend (q_Ctx q) STATUS_SUCCESS)
  | AwaitReceive target offset len =>
      if 5 <=? len then Some (ctx ← land_data (q_Ctx q) target offset [72; 51; 97; 98; 99]; HttpOnReceive ctx STATUS_SUCCESS [72; 51; 97; 98; 99]) else None
  | _ => None
  end.
Fixpoint demo_run (n : nat) (q : REQUEST) : REQUEST :=
  match n, demo_event q with
  | S n, Some (Some (ctx, fx, nx)) => demo_run n (mkRequest ctx nx (q_Irql q) (q_Trace q ++ fx))
  | _, _ => q
  end.
Lemma demo_run_steps n q : q_Irql q = 0 -> rtc http_step q (demo_run n q).
Proof.
  revert q. induction n as [|n IH]; intros q Hi; [done|]. cbn [demo_run]. destruct (demo_event q) as [[[[ctx fx] nx]|]|] eqn:E; [|done..].
  eapply rtc_l; [|by apply IH]. exists (q_Irql q), ctx, fx, nx. split; [|done]. destruct q as [c qn irql tr]. cbn in Hi. subst irql. unfold demo_event in E. cbn [q_Next q_Ctx q_Irql] in E.
  pose proof demo_answers_ok. pose proof demo_socket_ok. destruct qn; try done; try (apply (inj Some) in E; rewrite <- E; by constructor).
  destruct (5 <=? _) eqn:Hle; [|done]. apply Z.leb_le in Hle. apply (inj Some) in E. rewrite <- E. by constructor.
Qed.

Definition demo_context : HTTP_CONTEXT :=
  match BlorgHttpGetFile 0 3 (inr [71]) true demo_answers with inr ctx => ctx | inl _ => mkContext None [] 0 0 [] None 0 0 0 [] 0 false false HttpStageFailed 0 HttpConnectionFresh HttpOpFileRead 0 0 0 0 0 false None end.
Lemma demo_starts : starts 2051 demo_context.
Proof. apply (starts_file 0 3 (inr [71]) true demo_answers demo_context); [apply demo_answers_ok|done|done|vm_compute; reflexivity]. Qed.
Lemma demo_runs n : runs 2051 (demo_run n (request_of demo_context 0)).
Proof. exists demo_context, 0. split_and!; [apply demo_starts|done|by apply demo_run_steps]. Qed.
Definition demo_at (n : nat) : REQUEST := demo_run n (request_of demo_context 0).

Lemma request_settles_once_witness : runs 2051 (demo_at 20) /\ acquired (q_Trace (demo_at 20)) ≡ₚ given_back (q_Trace (demo_at 20)) /\ length (freed (q_Trace (demo_at 20))) = 1%nat.
Proof.
  split; [apply demo_runs|]. pose proof (request_settles_once 2051 (demo_at 20) (demo_runs 20)) as [_ Hw].
  assert (En : q_Next (demo_at 20) = Finished) by (vm_compute; reflexivity). rewrite En in Hw. by destruct Hw as (_ & ? & ? & _).
Defined.

Lemma request_stays_in_memory_witness : runs 2051 (demo_at 5) /\ exists memory offset len,
  window_memory (q_Ctx (demo_at 5)) (q_Next (demo_at 5)) = Some (memory, offset, len) /\ 0 <= offset /\ 0 < len /\ offset + len <= Z.of_nat (length memory).
Proof.
  split; [apply demo_runs|]. pose proof (request_stays_in_memory 2051 (demo_at 5) (demo_runs 5)) as (_ & _ & Hw). apply Hw. vm_compute. reflexivity.
Defined.

Lemma response_delivered_exactly_witness :
  (STATUS_SUCCESS, Some [97; 98; 99]) ∈ callbacks (q_Trace (demo_at 20)) /\
  exists header, arrived (q_Trace (demo_at 20)) = header ++ [97; 98; 99] /\ announces demo_context (arrived (q_Trace (demo_at 20))) header 3.
Proof.
  assert (Hin : (STATUS_SUCCESS, Some [97; 98; 99]) ∈ callbacks (q_Trace (demo_at 20))) by (vm_compute; constructor). split; [done|].
  exact (proj2 (response_delivered_exactly 2051 demo_context 0 (demo_at 20) STATUS_SUCCESS (Some [97; 98; 99]) demo_starts ltac:(done) (demo_run_steps 20 (request_of demo_context 0) eq_refl) Hin)).
Defined.

Lemma demo_call : call_step (demo_at 0) (demo_at 1).
Proof.
  split; [|by exists FnKick]. exists 0, (q_Ctx (demo_at 1)), [], AwaitSocket. split; [|by vm_compute].
  replace (Some (q_Ctx (demo_at 1), [], AwaitSocket)) with (run_fn FnKick demo_context demo_answers demo_answers 0) by (by vm_compute).
  apply (event_call demo_context FnKick 0 [] demo_answers demo_answers); apply demo_answers_ok.
Qed.
Lemma handler_calls_run_out_witness : nsteps call_step 1 (demo_at 0) (demo_at 1) /\ (1 <= 6 + 10 * Z.to_nat BlorgSocketTlsRecvCapacity)%nat.
Proof.
  assert (Hn : nsteps call_step 1 (demo_at 0) (demo_at 1)) by (eapply nsteps_l; [apply demo_call|constructor]). split; [done|].
  exact (proj1 (handler_calls_run_out 2051 (demo_at 0) 1 (demo_at 1) (demo_runs 0) Hn)).
Defined.

