(* ===== verification/TlsHandshake.v ===== *)
(** * The TLS 1.3 client handshake (src/TlsHandshake.c)

    The state machine that authenticates a fresh connection: ClientHello out,
    ServerHello in, the key schedule, the encrypted flight reassembled from
    records and checked message by message against the configured pin, the
    client's Finished out, and the traffic keys installed on the socket.

    A handler is a function of the context and the socket into the monad of
    TlsCrypto.v, so every BCrypt call it makes has an outcome of its own; it
    answers the new context and socket, what it did outside them
    ([HS_EFFECT]) and what comes next ([HS_NEXT]).  [TLS_CHAIN_STEP] is the
    bind of an error monad.  What the kernel answers is [ANSWERS], as for the
    requests of ClientRequest.v, whose socket and accumulator these are. *)

From Stdlib Require Import Ascii String.
From S2P Require Import Prelude Buffers ListingIndex ClientText TlsCrypto TlsCodec TlsClientHello TlsRecords ClientRequest.
#[local] Open Scope Z_scope.
#[local] Open Scope list_scope.
#[local] Open Scope tls_scope.

Definition TLS_HS_FLIGHT_MAX : Z := 32768.
Definition TLS_HS_TRANSCRIPT_MAX : Z := 8192.
Definition TLS_CLIENT_HELLO_MAX_LEN : Z := 300.
Definition BLORGFS_REMOTE_HOST_ANSI_MAX_BYTES : Z := 128 + 8.
Definition STATUS_TRUST_FAILURE : NTSTATUS := nt 0xC0000190.

(** A C string constant's bytes. *)
Definition label (s : string) : BYTES := (fun c => Z.of_N (N_of_ascii c)) <$> list_ascii_of_string s.

(** ** TLS_CHAIN_STEP *)

Definition E (A : Type) : Type := M (RESULT A).
Definition eok {A} (x : A) : E A := mreturn (Ok x).
Definition eerr {A} (st : NTSTATUS) : E A := mreturn (Err st).
Definition ethen {A B} (m : E A) (k : A -> E B) : E B := r <- m ;; match r with Ok x => k x | Err st => eerr st end.
(** A call that answers a status and an output, and one that answers just a
    status. *)
Definition step {A} (m : M (NTSTATUS * A)) : E A := '(st, x) <- m ;; (if NT_SUCCESS st then eok x else eerr st).
Definition step_ (m : M NTSTATUS) : E unit := st <- m ;; (if NT_SUCCESS st then eok tt else eerr st).
Definition parsed {A} (p : P A) : E A := lift p.
Definition access {A} (o : option A) : E A := x <- lift o ;; eok x.

Declare Scope chain_scope.
Delimit Scope chain_scope with chain.
Notation "x <! m ;; k" := (ethen m (fun x => k)) (at level 20, m at level 99, k at level 200) : chain_scope.
Notation "' p <! m ;; k" := (ethen m (fun x => match x with p => k end))
  (at level 20, p pattern, m at level 99, k at level 200) : chain_scope.
#[local] Open Scope chain_scope.

(** ** The pin *)

Record TLS_PIN_STATE := mkPin { pin_Value : BYTES; pin_Configured : bool }.

Definition BlorgTlsSetPin (value : BYTES) (pin : TLS_PIN_STATE) : option (NTSTATUS * TLS_PIN_STATE) :=
  v ← rd_list value 0 TLS_HASH_LEN;
  v ← wr_list (pin_Value pin) 0 v;
  Some (STATUS_SUCCESS, mkPin v true).

(** ** The context *)

Inductive TLS_HS_STAGE := TlsHsWaitingForServerHello | TlsHsWaitingForFlightRecord.

(** The secrets and keys of the handshake. *)
Record HS_SCHEDULE := mkSchedule {
  HandshakeSecret : BYTES;
  ClientHsTraffic : BYTES;
  ServerHsTraffic : BYTES;
  ServerHsKey : BYTES;
  ServerHsIv : BYTES;
  ClientHsKey : BYTES;
  ClientHsIv : BYTES
}.

(** What the flight's messages have left behind. *)
Record HS_PEER := mkPeer {
  ServerLongTermKey : BYTES;
  TranscriptHashThroughCert : BYTES;
  TranscriptHashThroughCertVerify : BYTES;
  SawEncryptedExtensions : bool;
  SawCertificate : bool;
  SawCertVerify : bool
}.

Record TLS_HANDSHAKE_CONTEXT := mkHs {
  hs_ServerSeq : Z;
  hs_PendingBounceStatus : NTSTATUS;
  hs_Stage : TLS_HS_STAGE;
  hs_Transcript : BYTES;
  hs_TranscriptLen : Z;
  hs_RecordHeader : BYTES;
  hs_RecordPayload : BYTES;
  hs_RecordPayloadLen : Z;
  hs_Flight : BYTES;
  hs_FlightLen : Z;
  hs_ClientPrivate : BYTES;
  hs_ClientPublic : BYTES;
  hs_ServerPublic : BYTES;
  hs_Schedule : HS_SCHEDULE;
  hs_Peer : HS_PEER;
  hs_ClientHelloRecord : BYTES;
  hs_ClientFinishedRecord : BYTES
}.

Definition zeros (n : Z) : BYTES := replicate (Z.to_nat n) 0.

(** [ExAllocatePoolZero], with [Stage] the enum's zero. *)
Definition zeroed_context : TLS_HANDSHAKE_CONTEXT :=
  mkHs 0 0 TlsHsWaitingForServerHello (zeros TLS_HS_TRANSCRIPT_MAX) 0 (zeros 5) (zeros TLS_RECORD_CIPHERTEXT_MAX) 0
    (zeros TLS_HS_FLIGHT_MAX) 0 (zeros TLS_ECC_COORD_LEN) (zeros TLS_ECC_PUBKEY_LEN) (zeros TLS_ECC_PUBKEY_LEN)
    (mkSchedule (zeros 32) (zeros 32) (zeros 32) (zeros TLS_KEY_LEN) (zeros TLS_IV_LEN) (zeros TLS_KEY_LEN) (zeros TLS_IV_LEN))
    (mkPeer (zeros TLS_ECC_PUBKEY_LEN) (zeros 32) (zeros 32) false false false)
    (zeros (5 + TLS_CLIENT_HELLO_MAX_LEN)) (zeros (5 + 4 + TLS_HASH_LEN + 1 + TLS_TAG_LEN)).

Section Setters.
Context (c : TLS_HANDSHAKE_CONTEXT).
Definition hs_with_pending (st : NTSTATUS) : TLS_HANDSHAKE_CONTEXT :=
  mkHs (hs_ServerSeq c) st (hs_Stage c) (hs_Transcript c) (hs_TranscriptLen c) (hs_RecordHeader c) (hs_RecordPayload c) (hs_RecordPayloadLen c) (hs_Flight c) (hs_FlightLen c) (hs_ClientPrivate c) (hs_ClientPublic c) (hs_ServerPublic c) (hs_Schedule c) (hs_Peer c) (hs_ClientHelloRecord c) (hs_ClientFinishedRecord c).
Definition hs_with_transcript (t : BYTES) (n : Z) : TLS_HANDSHAKE_CONTEXT :=
  mkHs (hs_ServerSeq c) (hs_PendingBounceStatus c) (hs_Stage c) t n (hs_RecordHeader c) (hs_RecordPayload c) (hs_RecordPayloadLen c) (hs_Flight c) (hs_FlightLen c) (hs_ClientPrivate c) (hs_ClientPublic c) (hs_ServerPublic c) (hs_Schedule c) (hs_Peer c) (hs_ClientHelloRecord c) (hs_ClientFinishedRecord c).
Definition hs_with_record (h p : BYTES) (n : Z) : TLS_HANDSHAKE_CONTEXT :=
  mkHs (hs_ServerSeq c) (hs_PendingBounceStatus c) (hs_Stage c) (hs_Transcript c) (hs_TranscriptLen c) h p n (hs_Flight c) (hs_FlightLen c) (hs_ClientPrivate c) (hs_ClientPublic c) (hs_ServerPublic c) (hs_Schedule c) (hs_Peer c) (hs_ClientHelloRecord c) (hs_ClientFinishedRecord c).
Definition hs_with_flight (seq : Z) (f : BYTES) (n : Z) : TLS_HANDSHAKE_CONTEXT :=
  mkHs seq (hs_PendingBounceStatus c) (hs_Stage c) (hs_Transcript c) (hs_TranscriptLen c) (hs_RecordHeader c) (hs_RecordPayload c) (hs_RecordPayloadLen c) f n (hs_ClientPrivate c) (hs_ClientPublic c) (hs_ServerPublic c) (hs_Schedule c) (hs_Peer c) (hs_ClientHelloRecord c) (hs_ClientFinishedRecord c).
Definition hs_with_own (private public hello : BYTES) : TLS_HANDSHAKE_CONTEXT :=
  mkHs (hs_ServerSeq c) (hs_PendingBounceStatus c) (hs_Stage c) (hs_Transcript c) (hs_TranscriptLen c) (hs_RecordHeader c) (hs_RecordPayload c) (hs_RecordPayloadLen c) (hs_Flight c) (hs_FlightLen c) private public (hs_ServerPublic c) (hs_Schedule c) (hs_Peer c) hello (hs_ClientFinishedRecord c).
Definition hs_with_schedule (stage : TLS_HS_STAGE) (server : BYTES) (k : HS_SCHEDULE) : TLS_HANDSHAKE_CONTEXT :=
  mkHs (hs_ServerSeq c) (hs_PendingBounceStatus c) stage (hs_Transcript c) (hs_TranscriptLen c) (hs_RecordHeader c) (hs_RecordPayload c) (hs_RecordPayloadLen c) (hs_Flight c) (hs_FlightLen c) (hs_ClientPrivate c) (hs_ClientPublic c) server k (hs_Peer c) (hs_ClientHelloRecord c) (hs_ClientFinishedRecord c).
Definition hs_with_peer (p : HS_PEER) : TLS_HANDSHAKE_CONTEXT :=
  mkHs (hs_ServerSeq c) (hs_PendingBounceStatus c) (hs_Stage c) (hs_Transcript c) (hs_TranscriptLen c) (hs_RecordHeader c) (hs_RecordPayload c) (hs_RecordPayloadLen c) (hs_Flight c) (hs_FlightLen c) (hs_ClientPrivate c) (hs_ClientPublic c) (hs_ServerPublic c) (hs_Schedule c) p (hs_ClientHelloRecord c) (hs_ClientFinishedRecord c).
Definition hs_with_finished (r : BYTES) : TLS_HANDSHAKE_CONTEXT :=
  mkHs (hs_ServerSeq c) (hs_PendingBounceStatus c) (hs_Stage c) (hs_Transcript c) (hs_TranscriptLen c) (hs_RecordHeader c) (hs_RecordPayload c) (hs_RecordPayloadLen c) (hs_Flight c) (hs_FlightLen c) (hs_ClientPrivate c) (hs_ClientPublic c) (hs_ServerPublic c) (hs_Schedule c) (hs_Peer c) (hs_ClientHelloRecord c) r.
End Setters.

(** ** The socket *)

(** The connection as a request sees it, and its TLS state, of which the
    request's view shows whether it is complete and the sequence numbers. *)
Record HS_SOCKET := mkHsSocket { hk_Socket : KSOCKET; hk_Tls : TLS_CONNECTION_STATE }.

#[global] Instance TLS_HANDSHAKE_STATE_eq_dec : EqDecision TLS_HANDSHAKE_STATE.
Proof. solve_decision. Defined.

Definition tls_view (k : KSOCKET) (t : TLS_CONNECTION_STATE) : KSOCKET :=
  mkSocket (sk_Id k) (bool_decide (tls_State t = TlsHandshakeComplete)) (WriteSeq t) (ReadSeq t) (TlsRecvBuffer k) (TlsRecvLength k) (TlsRecvOffset k).
Definition with_tls (s : HS_SOCKET) (t : TLS_CONNECTION_STATE) : HS_SOCKET := mkHsSocket (tls_view (hk_Socket s) t) t.
Definition with_ksocket (s : HS_SOCKET) (k : KSOCKET) : HS_SOCKET := mkHsSocket k (hk_Tls s).
Definition tls_with_state (t : TLS_CONNECTION_STATE) (st : TLS_HANDSHAKE_STATE) : TLS_CONNECTION_STATE :=
  mkConnection st (WriteKey t) (WriteIv t) (WriteSeq t) (ReadKey t) (ReadIv t) (ReadSeq t) (WriteKeyHandle t) (ReadKeyHandle t).
Definition hs_set_state (s : HS_SOCKET) (st : TLS_HANDSHAKE_STATE) : HS_SOCKET := with_tls s (tls_with_state (hk_Tls s) st).

(** ** Effects *)

Inductive HS_EFFECT :=
  | HsAllocContext
  | HsAllocWorkItem
  | HsFreeWorkItem
  | HsFreeContext
  | HsSent (bytes : BYTES)
  | HsOpened (seq : Z) (content : BYTES) (* handshake bytes a record carried *)
  | HsPinSet (value : BYTES)
  | HsCompleted (st : NTSTATUS).

Inductive HS_NEXT :=
  | HsIssueReceive
  | HsDeliver (st : NTSTATUS)
  | HsAwaitHello
  | HsAwaitBulk (offset len : Z)
  | HsAwaitWorker
  | HsAwaitFinished
  | HsDone.

#[global] Instance HS_NEXT_eq_dec : EqDecision HS_NEXT.
Proof. solve_decision. Defined.

Abbreviation HS_HANDLED := (M (TLS_HANDSHAKE_CONTEXT * HS_SOCKET * list HS_EFFECT * HS_NEXT)).

(** The context is zeroed before it is freed. *)
Definition TlsHandshakeFail (c : TLS_HANDSHAKE_CONTEXT) (s : HS_SOCKET) (st : NTSTATUS) : HS_HANDLED :=
  mreturn (zeroed_context, hs_set_state s TlsHandshakeFailed, [HsFreeWorkItem; HsFreeContext; HsCompleted st], HsDone).

(** [if (!NT_SUCCESS(status)) { TlsHandshakeFail(...); return; }] *)
Definition or_fail {A} (c : TLS_HANDSHAKE_CONTEXT) (s : HS_SOCKET) (r : RESULT A) (k : A -> HS_HANDLED) : HS_HANDLED :=
  match r with Ok x => k x | Err st => TlsHandshakeFail c s st end.

(** The effects of a handler called from another, after the caller's. *)
Definition after (fx : list HS_EFFECT) (m : HS_HANDLED) : HS_HANDLED :=
  '(c, s, fx', n) <- m ;; mreturn (c, s, fx ++ fx', n).

Section Handshake.
Context (oracle : nat -> NTSTATUS) {bc : Bcrypt} `{HttpEnvironment}.

Definition BlorgTlsCheckPin (pin : TLS_PIN_STATE) (spki : BYTES) : M bool :=
  '(st, computed) <- BlorgTlsSha256 oracle spki ;;
  if negb (NT_SUCCESS st) then mreturn false
  else if pin_Configured pin then lift (BlorgTlsConstantTimeEqual computed (pin_Value pin) TLS_HASH_LEN) else mreturn false.

(** ** ClientHello *)

(** The length of a string, if a terminator is among its first [cb] bytes. *)
Definition RtlStringCbLengthA (s : BYTES) (cb : Z) : RESULT Z :=
  if Z.of_nat (length s) <? cb then Ok (Z.of_nat (length s)) else Err STATUS_INVALID_PARAMETER.

(** Up to the hello in its buffer: the key pair's and the random's generators
    choose [rng] and [random], [host] is global.RemoteHostSniAnsi. *)
Definition hs_build_hello (c : TLS_HANDSHAKE_CONTEXT) (rng : Z) (random : BYTES) (host : option BYTES) : E (TLS_HANDSHAKE_CONTEXT * Z) :=
  '(private, public) <! step (BlorgTlsEcdhGenerateKeyPair oracle rng) ;;
  _ <! step_ (bcall oracle) ;;
  _ <! mreturn (match host with Some name => RtlStringCbLengthA name BLORGFS_REMOTE_HOST_ANSI_MAX_BYTES | None => Ok 0 end) ;;
  buffer <! access (rd_list (hs_ClientHelloRecord c) 5 (Z.of_nat (length (hs_ClientHelloRecord c)) - 5)) ;;
  '(len, buffer) <! step ('(st, len, buffer) <- lift (BlorgTlsBuildClientHello random public (default [] host) buffer) ;; mreturn (st, (len, buffer))) ;;
  record <! access (wr_list (hs_ClientHelloRecord c) 5 buffer) ;;
  eok (hs_with_own c private public record, len).

(** The record header, the transcript's first message, and the send. *)
Definition hs_send_hello (c : TLS_HANDSHAKE_CONTEXT) (s : HS_SOCKET) (len : Z) (a : ANSWERS) : HS_HANDLED :=
  record <- lift (wr_list (hs_ClientHelloRecord c) 0 [0x16; 0x03; 0x01; u8 (Z.shiftr len 8); u8 (Z.land len 0xFF)]) ;;
  hello <- lift (rd_list record 5 len) ;;
  transcript <- lift (wr_list (hs_Transcript c) 0 hello) ;;
  let c := hs_with_transcript (hs_with_own c (hs_ClientPrivate c) (hs_ClientPublic c) record) transcript len in
  bytes <- lift (rd_list record 0 (u32 (5 + len))) ;;
  if negb (a_Issue a =? STATUS_PENDING) then TlsHandshakeFail c s (a_Issue a) else mreturn (c, s, [HsSent bytes], HsAwaitHello).

Definition BlorgTlsStartHandshakeAsync (s : HS_SOCKET) (rng : Z) (random : BYTES) (host : option BYTES) (a : ANSWERS) : HS_HANDLED :=
  let c := zeroed_context in
  if negb (a_Memory a) then mreturn (c, hs_set_state s TlsHandshakeFailed, [HsCompleted STATUS_INSUFFICIENT_RESOURCES], HsDone)
  else if negb (a_WorkItem a) then
    mreturn (c, hs_set_state s TlsHandshakeFailed, [HsAllocContext; HsFreeContext; HsCompleted STATUS_INSUFFICIENT_RESOURCES], HsDone)
  else
    let s := hs_set_state s TlsHandshakeInProgress in
    r <- hs_build_hello c rng random host ;;
    after [HsAllocContext; HsAllocWorkItem] (or_fail c s r (fun '(c, len) => hs_send_hello c s len a)).

Definition TlsHandshakeOnSendClientHello (c : TLS_HANDSHAKE_CONTEXT) (s : HS_SOCKET) (st : NTSTATUS) : HS_HANDLED :=
  if negb (NT_SUCCESS st) then TlsHandshakeFail c s st else mreturn (c, s, [], HsIssueReceive).

(** ** Records *)

(** No complete record is buffered: more is asked for, behind what there is. *)
Definition hs_receive_more (c : TLS_HANDSHAKE_CONTEXT) (s : HS_SOCKET) (buffer : BYTES) (a : ANSWERS) : HS_HANDLED :=
  k <- lift (recv_make_room (hk_Socket s) buffer) ;;
  let s := with_ksocket s k in
  buffer <- lift (TlsRecvBuffer k) ;;
  let len := u32 (BlorgSocketTlsRecvCapacity - TlsRecvLength k) in
  if negb (in_window buffer (TlsRecvLength k) len) then (fun _ => None)
  else if negb (a_Issue a =? STATUS_PENDING) then TlsHandshakeFail c s (a_Issue a)
  else mreturn (c, s, [], HsAwaitBulk (TlsRecvLength k) len).

(** The record at the accumulator's offset, handed over. *)
Definition hs_take_record (c : TLS_HANDSHAKE_CONTEXT) (s : HS_SOCKET) (buffer : BYTES) (declaredLen : Z) : HS_HANDLED :=
  let k := hk_Socket s in
  header <- lift (rd_list buffer (TlsRecvOffset k) 5) ;;
  payload <- lift (if declaredLen =? 0 then Some (hs_RecordPayload c)
                   else bytes ← rd_list buffer (TlsRecvOffset k + 5) declaredLen; wr_list (hs_RecordPayload c) 0 bytes) ;;
  mreturn (hs_with_record c header payload declaredLen, with_ksocket s (with_Recv k buffer (TlsRecvLength k) (u32 (TlsRecvOffset k + (5 + declaredLen)))), [],
           HsDeliver STATUS_SUCCESS).

(** Low stack is expanded and the function entered again, with enough; only
    a failed expansion shows. *)
Definition TlsHandshakeIssueReceiveRecordHeader (c : TLS_HANDSHAKE_CONTEXT) (s : HS_SOCKET) (a : ANSWERS) : HS_HANDLED :=
  if negb (a_Stack a) then TlsHandshakeFail c s STATUS_INSUFFICIENT_RESOURCES
  else
    let '(st, k) := BlorgEnsureTlsRecvBuffer (hk_Socket s) a in
    let s := with_ksocket s k in
    if negb (NT_SUCCESS st) then TlsHandshakeFail c s st
    else
      buffer <- lift (TlsRecvBuffer k) ;;
      let buffered := u32 (TlsRecvLength k - TlsRecvOffset k) in
      if buffered <? 5 then hs_receive_more c s buffer a
      else
        b3 <- lift (rd buffer (TlsRecvOffset k + 3)) ;;
        b4 <- lift (rd buffer (TlsRecvOffset k + 4)) ;;
        let declaredLen := Z.lor (Z.shiftl b3 8) b4 in
        if TLS_RECORD_CIPHERTEXT_MAX <? declaredLen then TlsHandshakeFail c s STATUS_INVALID_PARAMETER
        else if buffered <? 5 + declaredLen then hs_receive_more c s buffer a
        else hs_take_record c s buffer declaredLen.

(** [bytesTransferred] bytes are in the window. *)
Definition TlsHandshakeOnBulkReceive (c : TLS_HANDSHAKE_CONTEXT) (s : HS_SOCKET) (st : NTSTATUS) (bytesTransferred : Z) : HS_HANDLED :=
  if negb (NT_SUCCESS st) then TlsHandshakeFail c s st
  else if bytesTransferred =? 0 then TlsHandshakeFail c s STATUS_CONNECTION_DISCONNECTED
  else
    let k := hk_Socket s in
    buffer <- lift (TlsRecvBuffer k) ;;
    mreturn (c, with_ksocket s (with_Recv k buffer (u32 (TlsRecvLength k + u32 bytesTransferred)) (TlsRecvOffset k)), [], HsIssueReceive).

(** ** ServerHello *)

Definition expand_label (secret : BYTES) (l : string) (context : BYTES) (len : Z) : E BYTES :=
  step (BlorgTlsHkdfExpandLabel oracle secret (label l) context len).

(** The key schedule up to the handshake keys. *)
Definition hs_derive (c : TLS_HANDSHAKE_CONTEXT) (serverPublic : BYTES) : E HS_SCHEDULE :=
  sharedSecret <! step (BlorgTlsEcdhComputeSharedSecret oracle (hs_ClientPrivate c) (hs_ClientPublic c) serverPublic) ;;
  transcript <! access (rd_list (hs_Transcript c) 0 (hs_TranscriptLen c)) ;;
  transcriptHashChSh <! step (BlorgTlsSha256 oracle transcript) ;;
  emptyHash <! step (BlorgTlsSha256 oracle []) ;;
  earlySecret <! step (BlorgTlsHkdfExtract oracle (zeros 32) (zeros 32)) ;;
  derivedForHandshake <! expand_label earlySecret "derived" emptyHash TLS_HASH_LEN ;;
  handshakeSecret <! step (BlorgTlsHkdfExtract oracle derivedForHandshake sharedSecret) ;;
  clientHsTraffic <! expand_label handshakeSecret "c hs traffic" transcriptHashChSh TLS_HASH_LEN ;;
  serverHsTraffic <! expand_label handshakeSecret "s hs traffic" transcriptHashChSh TLS_HASH_LEN ;;
  serverHsKey <! expand_label serverHsTraffic "key" [] TLS_KEY_LEN ;;
  serverHsIv <! expand_label serverHsTraffic "iv" [] TLS_IV_LEN ;;
  clientHsKey <! expand_label clientHsTraffic "key" [] TLS_KEY_LEN ;;
  clientHsIv <! expand_label clientHsTraffic "iv" [] TLS_IV_LEN ;;
  eok (mkSchedule handshakeSecret clientHsTraffic serverHsTraffic serverHsKey serverHsIv clientHsKey clientHsIv).

(** The message at the front of the payload, into the transcript and parsed. *)
Definition hs_server_hello (c : TLS_HANDSHAKE_CONTEXT) : E TLS_HANDSHAKE_CONTEXT :=
  if hs_RecordPayloadLen c <? 4 then eerr STATUS_INVALID_PARAMETER
  else
    ty <! access (rd (hs_RecordPayload c) 0) ;;
    if negb (0x02 =? ty) then eerr STATUS_INVALID_PARAMETER
    else
      shBodyLen <! access (get_uint24 (hs_RecordPayload c) 1) ;;
      if negb (u32 (4 + shBodyLen) =? hs_RecordPayloadLen c) then eerr STATUS_INVALID_PARAMETER
      else if TLS_HS_TRANSCRIPT_MAX <? u32 (hs_TranscriptLen c + hs_RecordPayloadLen c) then eerr STATUS_INSUFFICIENT_RESOURCES
      else
        message <! access (rd_list (hs_RecordPayload c) 0 (hs_RecordPayloadLen c)) ;;
        transcript <! access (wr_list (hs_Transcript c) (hs_TranscriptLen c) message) ;;
        let c := hs_with_transcript c transcript (u32 (hs_TranscriptLen c + hs_RecordPayloadLen c)) in
        body <! access (rd_list (hs_RecordPayload c) 4 shBodyLen) ;;
        '(random, serverPublic) <! parsed (BlorgTlsParseServerHello body) ;;
        schedule <! hs_derive c serverPublic ;;
        eok (hs_with_schedule c TlsHsWaitingForFlightRecord serverPublic schedule).

Definition TlsHandshakeOnReceiveServerHello (c : TLS_HANDSHAKE_CONTEXT) (s : HS_SOCKET) : HS_HANDLED :=
  r <- hs_server_hello c ;;
  or_fail c s r (fun c => mreturn (c, s, [], HsIssueReceive)).

(** ** The flight *)

(** The chain of a Certificate message, up to the public key. *)
Definition hs_certificate (pin : TLS_PIN_STATE) (body : BYTES) : E BYTES :=
  '(leafOff, leafLen) <! parsed (BlorgTlsParseCertificateMessage body) ;;
  leaf <! access (rd_list body leafOff leafLen) ;;
  '(spkiOff, spkiLen) <! parsed (BlorgTlsExtractSpkiFromCertificate leaf) ;;
  spki <! access (rd_list leaf spkiOff spkiLen) ;;
  matches <! (b <- BlorgTlsCheckPin pin spki ;; eok b) ;;
  if negb matches then eerr STATUS_TRUST_FAILURE
  else parsed (BlorgTlsDecodeP256SubjectPublicKeyInfo spki).

(** The chain of a CertificateVerify message. *)
Definition hs_certificate_verify (p : HS_PEER) (body : BYTES) : E unit :=
  rawSignature <! parsed (BlorgTlsParseCertificateVerifyMessage body) ;;
  verifyContent <! step (lift (BlorgTlsBuildServerCertVerifyContent (TranscriptHashThroughCert p) (zeros TLS_CERT_VERIFY_CONTENT_LEN))) ;;
  verifyDigest <! step (BlorgTlsSha256 oracle verifyContent) ;;
  step_ (BlorgTlsEcdsaVerify oracle (ServerLongTermKey p) verifyDigest rawSignature).

(** The chain of a Finished message. *)
Definition hs_finished (k : HS_SCHEDULE) (p : HS_PEER) (body : BYTES) : E unit :=
  serverFinishedKey <! expand_label (ServerHsTraffic k) "finished" [] TLS_HASH_LEN ;;
  expectedFinishedMac <! step (BlorgTlsHmacSha256 oracle serverFinishedKey (TranscriptHashThroughCertVerify p)) ;;
  same <! access (BlorgTlsConstantTimeEqual expectedFinishedMac body TLS_HASH_LEN) ;;
  if negb same then eerr STATUS_INVALID_PARAMETER else eok tt.

(** One message, already in the transcript: the new context, and [Done]. *)
Definition hs_message (pin : TLS_PIN_STATE) (c : TLS_HANDSHAKE_CONTEXT) (msgType : Z) (body : BYTES) : E (TLS_HANDSHAKE_CONTEXT * bool) :=
  let p := hs_Peer c in
  if 0x08 =? msgType then
    if SawEncryptedExtensions p || SawCertificate p then eerr STATUS_INVALID_PARAMETER
    else eok (hs_with_peer c (mkPeer (ServerLongTermKey p) (TranscriptHashThroughCert p) (TranscriptHashThroughCertVerify p) true (SawCertificate p) (SawCertVerify p)), false)
  else if 0x0B =? msgType then
    if negb (SawEncryptedExtensions p) || SawCertificate p then eerr STATUS_INVALID_PARAMETER
    else
      key <! hs_certificate pin body ;;
      transcript <! access (rd_list (hs_Transcript c) 0 (hs_TranscriptLen c)) ;;
      hash <! step (BlorgTlsSha256 oracle transcript) ;;
      eok (hs_with_peer c (mkPeer key hash (TranscriptHashThroughCertVerify p) (SawEncryptedExtensions p) true (SawCertVerify p)), false)
  else if 0x0F =? msgType then
    if negb (SawCertificate p) || SawCertVerify p then eerr STATUS_INVALID_PARAMETER
    else
      _ <! hs_certificate_verify p body ;;
      transcript <! access (rd_list (hs_Transcript c) 0 (hs_TranscriptLen c)) ;;
      hash <! step (BlorgTlsSha256 oracle transcript) ;;
      eok (hs_with_peer c (mkPeer (ServerLongTermKey p) (TranscriptHashThroughCert p) hash (SawEncryptedExtensions p) (SawCertificate p) true), false)
  else if 0x14 =? msgType then
    if negb (SawCertVerify p) || negb (32 =? Z.of_nat (length body)) then eerr STATUS_INVALID_PARAMETER
    else
      _ <! hs_finished (hs_Schedule c) p body ;;
      eok (c, true)
  else eerr STATUS_INVALID_PARAMETER.

(** The loop over the complete messages at the front of [Flight]: the context,
    the offset it stopped at, and [Done]. *)
Fixpoint hs_messages (fuel : nat) (pin : TLS_PIN_STATE) (c : TLS_HANDSHAKE_CONTEXT) (msgOffset : Z) : E (TLS_HANDSHAKE_CONTEXT * Z * bool) :=
  match fuel with
  | O => fun _ => None
  | S fuel =>
      if hs_FlightLen c <? u32 (msgOffset + 4) then eok (c, msgOffset, false)
      else
        msgType <! access (rd (hs_Flight c) msgOffset) ;;
        msgBodyLen <! access (get_uint24 (hs_Flight c) (msgOffset + 1)) ;;
        let msgTotalLen := u32 (4 + msgBodyLen) in
        if hs_FlightLen c <? u32 (msgOffset + msgTotalLen) then eok (c, msgOffset, false)
        else if TLS_HS_TRANSCRIPT_MAX <? u32 (hs_TranscriptLen c + msgTotalLen) then eerr STATUS_INSUFFICIENT_RESOURCES
        else
          message <! access (rd_list (hs_Flight c) msgOffset msgTotalLen) ;;
          transcript <! access (wr_list (hs_Transcript c) (hs_TranscriptLen c) message) ;;
          let c := hs_with_transcript c transcript (u32 (hs_TranscriptLen c + msgTotalLen)) in
          body <! access (rd_list (hs_Flight c) (msgOffset + 4) msgBodyLen) ;;
          '(c, done) <! hs_message pin c msgType body ;;
          let msgOffset := u32 (msgOffset + msgTotalLen) in
          if done : bool then eok (c, msgOffset, true) else hs_messages fuel pin c msgOffset
  end.

(** A message is at least four bytes, so as many turns as [Flight] has bytes
    are enough. *)
Definition TlsHandshakeProcessFlightMessages (pin : TLS_PIN_STATE) (c : TLS_HANDSHAKE_CONTEXT) : E (TLS_HANDSHAKE_CONTEXT * bool) :=
  '(c, msgOffset, done) <! hs_messages (S (length (hs_Flight c))) pin c 0 ;;
  tail <! access (rd_list (hs_Flight c) msgOffset (u32 (hs_FlightLen c - msgOffset))) ;;
  flight <! access (wr_list (hs_Flight c) 0 tail) ;;
  eok (hs_with_flight c (hs_ServerSeq c) flight (u32 (hs_FlightLen c - msgOffset)), done).

(** ** The client's Finished *)

(** The keys for application data, and the MAC of the client's Finished. *)
Record APP_KEYS := mkAppKeys { app_ClientKey : BYTES; app_ClientIv : BYTES; app_ServerKey : BYTES; app_ServerIv : BYTES; app_FinishedMac : BYTES }.

Definition hs_app_keys (c : TLS_HANDSHAKE_CONTEXT) : E APP_KEYS :=
  emptyHash <! step (BlorgTlsSha256 oracle []) ;;
  derivedForMaster <! expand_label (HandshakeSecret (hs_Schedule c)) "derived" emptyHash TLS_HASH_LEN ;;
  masterSecret <! step (BlorgTlsHkdfExtract oracle derivedForMaster (zeros 32)) ;;
  transcript <! access (rd_list (hs_Transcript c) 0 (hs_TranscriptLen c)) ;;
  hash <! step (BlorgTlsSha256 oracle transcript) ;;
  clientAppTraffic <! expand_label masterSecret "c ap traffic" hash TLS_HASH_LEN ;;
  serverAppTraffic <! expand_label masterSecret "s ap traffic" hash TLS_HASH_LEN ;;
  clientAppKey <! expand_label clientAppTraffic "key" [] TLS_KEY_LEN ;;
  clientAppIv <! expand_label clientAppTraffic "iv" [] TLS_IV_LEN ;;
  serverAppKey <! expand_label serverAppTraffic "key" [] TLS_KEY_LEN ;;
  serverAppIv <! expand_label serverAppTraffic "iv" [] TLS_IV_LEN ;;
  clientFinishedKey <! expand_label (ClientHsTraffic (hs_Schedule c)) "finished" [] TLS_HASH_LEN ;;
  clientFinishedMac <! step (BlorgTlsHmacSha256 oracle clientFinishedKey hash) ;;
  eok (mkAppKeys clientAppKey clientAppIv serverAppKey serverAppIv clientFinishedMac).

(** The keys installed and their handles imported; an import that fails
    leaves its handle as it was. *)
Definition hs_install (s : HS_SOCKET) (k : APP_KEYS) : M (NTSTATUS * HS_SOCKET) :=
  let t := hk_Tls s in
  '(st, h) <- BlorgTlsImportKeyHandle oracle (app_ClientKey k) ;;
  let writeHandle := if NT_SUCCESS st then h else WriteKeyHandle t in
  '(st, h) <- (if NT_SUCCESS st then BlorgTlsImportKeyHandle oracle (app_ServerKey k) else mreturn (st, ReadKeyHandle t)) ;;
  let readHandle := if NT_SUCCESS st then h else ReadKeyHandle t in
  mreturn (st, with_tls s (mkConnection (tls_State t) (app_ClientKey k) (app_ClientIv k) 0 (app_ServerKey k) (app_ServerIv k) 0 writeHandle readHandle)).

(** The Finished record, sealed under the handshake keys. *)
Definition hs_seal_finished (c : TLS_HANDSHAKE_CONTEXT) (mac : BYTES) : E TLS_HANDSHAKE_CONTEXT :=
  let plaintext := [0x14; 0x00; 0x00; TLS_HASH_LEN] ++ mac ++ [0x16] in
  let recordLen := u32 (Z.of_nat (length plaintext) + TLS_TAG_LEN) in
  let header := [0x17; 0x03; 0x03; u8 (Z.shiftr recordLen 8); u8 (Z.land recordLen 0xFF)] in
  record <! access (wr_list (hs_ClientFinishedRecord c) 0 header) ;;
  aad <! access (rd_list record 0 5) ;;
  '(ciphertext, tag) <! step (BlorgTlsAeadEncrypt oracle (ClientHsKey (hs_Schedule c)) (ClientHsIv (hs_Schedule c)) 0 aad plaintext) ;;
  record <! access (wr_list record 5 ciphertext) ;;
  record <! access (wr_list record (5 + Z.of_nat (length plaintext)) tag) ;;
  eok (hs_with_finished c record).

Definition TlsHandshakeSendClientFinished (c : TLS_HANDSHAKE_CONTEXT) (s : HS_SOCKET) (a : ANSWERS) : HS_HANDLED :=
  r <- hs_app_keys c ;;
  or_fail c s r (fun k =>
    '(st, s) <- hs_install s k ;;
    if negb (NT_SUCCESS st) then TlsHandshakeFail c s st
    else
      r <- hs_seal_finished c (app_FinishedMac k) ;;
      or_fail c s r (fun c =>
        bytes <- lift (rd_list (hs_ClientFinishedRecord c) 0 (5 + (4 + TLS_HASH_LEN + 1) + TLS_TAG_LEN)) ;;
        if negb (a_Issue a =? STATUS_PENDING) then TlsHandshakeFail c s (a_Issue a) else mreturn (c, s, [HsSent bytes], HsAwaitFinished))).

Definition TlsHandshakeOnSendClientFinished (c : TLS_HANDSHAKE_CONTEXT) (s : HS_SOCKET) (st : NTSTATUS) : HS_HANDLED :=
  if negb (NT_SUCCESS st) then TlsHandshakeFail c s st
  else mreturn (zeroed_context, hs_set_state s TlsHandshakeComplete, [HsFreeWorkItem; HsFreeContext; HsCompleted STATUS_SUCCESS], HsDone).

(** ** A delivered record *)

(** The application-data record in the context, decrypted behind what
    [Flight] holds; the content's bytes come with it. *)
Definition hs_open_record (c : TLS_HANDSHAKE_CONTEXT) : E (TLS_HANDSHAKE_CONTEXT * BYTES) :=
  if hs_RecordPayloadLen c <? TLS_TAG_LEN then eerr STATUS_INVALID_PARAMETER
  else
    let ciphertextLen := u32 (hs_RecordPayloadLen c - TLS_TAG_LEN) in
    if TLS_HS_FLIGHT_MAX <? u32 (hs_FlightLen c + ciphertextLen) then eerr STATUS_INSUFFICIENT_RESOURCES
    else if negb (in_window (hs_Flight c) (hs_FlightLen c) ciphertextLen) then (fun _ => None)
    else
      ciphertext <! access (rd_list (hs_RecordPayload c) 0 ciphertextLen) ;;
      tag <! access (rd_list (hs_RecordPayload c) ciphertextLen TLS_TAG_LEN) ;;
      plaintext <! step (BlorgTlsAeadDecrypt oracle (ServerHsKey (hs_Schedule c)) (ServerHsIv (hs_Schedule c)) (hs_ServerSeq c)
                           (hs_RecordHeader c) ciphertext tag) ;;
      flight <! access (wr_list (hs_Flight c) (hs_FlightLen c) plaintext) ;;
      let c := hs_with_flight c (u64 (hs_ServerSeq c + 1)) flight (hs_FlightLen c) in
      inner <! access (rd_list (hs_Flight c) (hs_FlightLen c) ciphertextLen) ;;
      stripped <! access (BlorgTlsStripInnerPlaintext inner) ;;
      match stripped with
      | None => eerr STATUS_INVALID_PARAMETER
      | Some (contentType, contentLen) =>
          if negb (0x16 =? contentType) then eerr STATUS_INVALID_PARAMETER
          else
            content <! access (rd_list (hs_Flight c) (hs_FlightLen c) contentLen) ;;
            eok (hs_with_flight c (hs_ServerSeq c) (hs_Flight c) (u32 (hs_FlightLen c + contentLen)), content)
      end.

(** The record decrypted, its messages processed. *)
Definition hs_flight_record (pin : TLS_PIN_STATE) (c : TLS_HANDSHAKE_CONTEXT) (s : HS_SOCKET) (a : ANSWERS) : HS_HANDLED :=
  let seq := hs_ServerSeq c in
  r <- hs_open_record c ;;
  or_fail c s r (fun '(c, content) =>
    after [HsOpened seq content] (
      r <- TlsHandshakeProcessFlightMessages pin c ;;
      or_fail c s r (fun '(c, done) => if done : bool then TlsHandshakeSendClientFinished c s a else mreturn (c, s, [], HsIssueReceive)))).

Definition TlsHandshakeOnReceiveRecordPayload (pin : TLS_PIN_STATE) (c : TLS_HANDSHAKE_CONTEXT) (s : HS_SOCKET) (st : NTSTATUS) (irql : Z) (a : ANSWERS) : HS_HANDLED :=
  if PASSIVE_LEVEL <? irql then mreturn (hs_with_pending c st, s, [], HsAwaitWorker)
  else if negb (NT_SUCCESS st) then TlsHandshakeFail c s st
  else
    recordType <- lift (rd (hs_RecordHeader c) 0) ;;
    match hs_Stage c with
    | TlsHsWaitingForServerHello =>
        if negb (0x16 =? recordType) then TlsHandshakeFail c s STATUS_INVALID_PARAMETER else TlsHandshakeOnReceiveServerHello c s
    | TlsHsWaitingForFlightRecord =>
        if 0x15 =? recordType then TlsHandshakeFail c s STATUS_INVALID_PARAMETER
        else if 0x14 =? recordType then mreturn (c, s, [], HsIssueReceive)
        else if negb (0x17 =? recordType) then TlsHandshakeFail c s STATUS_INVALID_PARAMETER
        else hs_flight_record pin c s a
    end.

Definition TlsHandshakeOnReceiveRecordPayloadWorker (pin : TLS_PIN_STATE) (c : TLS_HANDSHAKE_CONTEXT) (s : HS_SOCKET) (a : ANSWERS) : HS_HANDLED :=
  TlsHandshakeOnReceiveRecordPayload pin c s (hs_PendingBounceStatus c) PASSIVE_LEVEL a.
End Handshake.
