(* ===== verification/TlsHandshakeSpec.v ===== *)
(** * The handshake's reference, and rules for its chains

    RFC 8446's key schedule as equations over the hash, and what a client may
    accept of a server's flight, as a function on messages: no buffers, no
    handles, no failing calls.  Then a weakest-precondition rule per call the
    chains of TlsHandshake.v make, with a postcondition for success and one
    for the status of an error when every BCrypt call was granted. *)

From Stdlib Require Import Ascii String.
From S2P Require Import Prelude Buffers ListingIndex ClientText TlsCrypto TlsCryptoHandles TlsCryptoTheorems TlsCodec TlsClientHello TlsParse TlsRoundTrip TlsDer TlsRecords ClientRequest TlsHandshake.
#[local] Open Scope Z_scope.
#[local] Open Scope list_scope.
#[local] Open Scope tls_scope.

(** ** RFC 8446, section 7 *)

Section Rfc8446.
Context {bc : Bcrypt}.

Definition hkdf_expand_label (secret : BYTES) (l : string) (context : BYTES) (len : Z) : BYTES :=
  rfc5869_expand secret (HkdfLabel (label l) context len) len.
Definition derive_secret (secret : BYTES) (l : string) (messages : BYTES) : BYTES := hkdf_expand_label secret l (sha256 messages) 32.
Definition traffic_key (secret : BYTES) : BYTES := hkdf_expand_label secret "key" [] 16.
Definition traffic_iv (secret : BYTES) : BYTES := hkdf_expand_label secret "iv" [] 12.
Definition finished_key (secret : BYTES) : BYTES := hkdf_expand_label secret "finished" [] 32.

Definition early_secret : BYTES := hmac (zeros 32) (zeros 32).
Definition handshake_secret (dhe : BYTES) : BYTES := hmac (derive_secret early_secret "derived" []) dhe.
Definition master_secret (hs : BYTES) : BYTES := hmac (derive_secret hs "derived" []) (zeros 32).

(** The handshake keys of a connection whose hellos are [hellos]. *)
Definition rfc_schedule (dhe hellos : BYTES) : HS_SCHEDULE :=
  let hs := handshake_secret dhe in
  let cs := derive_secret hs "c hs traffic" hellos in
  let ss := derive_secret hs "s hs traffic" hellos in
  mkSchedule hs cs ss (traffic_key ss) (traffic_iv ss) (traffic_key cs) (traffic_iv cs).

(** The application keys, and the client's Finished, of one whose messages up
    to the server's Finished are [messages]. *)
Definition rfc_app_keys (dhe hellos messages : BYTES) : APP_KEYS :=
  let master := master_secret (handshake_secret dhe) in
  let ca := derive_secret master "c ap traffic" messages in
  let sa := derive_secret master "s ap traffic" messages in
  mkAppKeys (traffic_key ca) (traffic_iv ca) (traffic_key sa) (traffic_iv sa)
    (hmac (finished_key (derive_secret (handshake_secret dhe) "c hs traffic" hellos)) (sha256 messages)).

(** The ECDHE secret between a key pair and a peer's point. *)
Definition dhe_secret (private public server : BYTES) : BYTES := reverse (ecdh_raw (own_blob private public) (peer_blob server)).

(** ** What a client accepts *)

Inductive PHASE :=
  | NeedExtensions
  | NeedCertificate
  | NeedVerify (key hash : BYTES)
  | NeedFinished (hash : BYTES)
  | Accepted.

(** The public key info of the leaf of a Certificate message. *)
Definition leaf_spki (body : BYTES) : P BYTES :=
  pthen (BlorgTlsParseCertificateMessage body) (fun '(o, n) =>
  leaf ← rd_list body o n;
  pthen (BlorgTlsExtractSpkiFromCertificate leaf) (fun '(o, n) =>
  spki ← rd_list leaf o n;
  Some (Ok spki))).

Definition pin_matches (pin : option BYTES) (spki : BYTES) : bool :=
  match pin with Some v => bool_decide (sha256 spki = v) | None => false end.

(** An access outside the message never happens; it is refused here. *)
Definition settle {A} (p : P A) : RESULT A := match p with Some r => r | None => Err STATUS_INVALID_PARAMETER end.

Definition accept_certificate (pin : option BYTES) (body : BYTES) : RESULT BYTES :=
  match settle (leaf_spki body) with
  | Err st => Err st
  | Ok spki => if pin_matches pin spki then settle (BlorgTlsDecodeP256SubjectPublicKeyInfo spki) else Err STATUS_TRUST_FAILURE
  end.

(** RFC 8446, 4.4.3: what the server's key signs. *)
Definition verify_content (hash : BYTES) : BYTES := replicate 64 0x20 ++ contextString ++ [0] ++ hash.

Definition accept_verify (key hash body : BYTES) : RESULT unit :=
  match settle (BlorgTlsParseCertificateVerifyMessage body) with
  | Err st => Err st
  | Ok signature => if ecdsa_ok (peer_blob key) (sha256 (verify_content hash)) signature then Ok tt else Err STATUS_INVALID_SIGNATURE
  end.

(** The verdict on one message: [traffic] is the server's handshake traffic
    secret, [t] the transcript with the message in it. *)
Definition accept_message (pin : option BYTES) (traffic t : BYTES) (ph : PHASE) (ty : Z) (body : BYTES) : RESULT PHASE :=
  match ph with
  | NeedExtensions => if ty =? 0x08 then Ok NeedCertificate else Err STATUS_INVALID_PARAMETER
  | NeedCertificate =>
      if ty =? 0x0B then match accept_certificate pin body with Ok key => Ok (NeedVerify key (sha256 t)) | Err st => Err st end
      else Err STATUS_INVALID_PARAMETER
  | NeedVerify key hash =>
      if ty =? 0x0F then match accept_verify key hash body with Ok _ => Ok (NeedFinished (sha256 t)) | Err st => Err st end
      else Err STATUS_INVALID_PARAMETER
  | NeedFinished hash =>
      if (ty =? 0x14) && bool_decide (body = hmac (finished_key traffic) hash) then Ok Accepted else Err STATUS_INVALID_PARAMETER
  | Accepted => Err STATUS_INVALID_PARAMETER
  end.

(** A handshake message: a type, a 24-bit length, and as many bytes. *)
Definition is_message (m : BYTES) : Prop := bytes_ok m /\ get_uint24 m 1 = Some (Z.of_nat (length m) - 4).
Definition msg_type (m : BYTES) : Z := default 0 (rd m 0).
Definition msg_body (m : BYTES) : BYTES := drop 4 m.

(** [msgs], one after the other from phase [ph] and transcript [t], are
    accepted, each under a pin that [pins] allows. *)
Inductive accepts (pins : option BYTES -> Prop) (traffic t0 : BYTES) : list BYTES -> PHASE -> Prop :=
  | accepts_nil : accepts pins traffic t0 [] NeedExtensions
  | accepts_snoc msgs ph m ph' pin :
      accepts pins traffic t0 msgs ph -> is_message m -> pins pin ->
      accept_message pin traffic (t0 ++ concat (msgs ++ [m])) ph (msg_type m) (msg_body m) = Ok ph' ->
      accepts pins traffic t0 (msgs ++ [m]) ph'.
End Rfc8446.

(** ** Rules *)

Section Rules.
Context (oracle : nat -> NTSTATUS) {bc : Bcrypt}.

(** In any world, [m] ends with no handle of its own left open, and its result
    satisfies [Q]; or it is an error, which satisfies [R] if every BCrypt call
    was granted. *)
Definition ewp {A} (m : E A) (Q : A -> Prop) (R : NTSTATUS -> Prop) : Prop :=
  forall w, handles_wf w -> wp m w (fun r w' => holds w [] w' /\
    match r with Ok x => Q x | Err st => NT_SUCCESS st = false /\ (granting oracle -> R st) end).

Lemma holds_wf w0 hs w : handles_wf w0 -> holds w0 hs w -> handles_wf w.
Proof.
  intros [Hn Hlt] [_ Ho _ Hf Hnx]. split; [lia|]. intros h. rewrite Ho, elem_of_union, elem_of_list_to_set.
  intros [Hh%Hlt|Hh%Hf]; lia.
Qed.

Lemma holds_compose w0 hs w w' : holds w0 hs w -> holds w [] w' -> holds w0 hs w'.
Proof.
  intros [G O D F N K] [G' O' _ _ N' K']. split; [congruence| |done| |lia|].
  - rewrite O', O. set_solver.
  - intros h Hh. specialize (F h Hh). lia.
  - intros h Hh. rewrite K' by lia. by apply K.
Qed.

Lemma ewp_ok {A} (x : A) (Q : A -> Prop) R : Q x -> ewp (eok x) Q R.
Proof. intros Hq w _. apply wp_return. split; [apply holds_nil|done]. Qed.

Lemma ewp_err {A} st (Q : A -> Prop) (R : NTSTATUS -> Prop) : NT_SUCCESS st = false -> R st -> ewp (eerr st) Q R.
Proof. intros Hs Hr w _. apply wp_return. split; [apply holds_nil|done]. Qed.

Lemma ewp_then {A B} (m : E A) (k : A -> E B) Q Q' R : ewp m Q R -> (forall x, Q x -> ewp (k x) Q' R) -> ewp (ethen m k) Q' R.
Proof.
  intros Hm Hk w Hw. eapply wp_bind; [by apply Hm|]. intros [x|st] w' [Hh Hr]; cbv beta iota.
  - eapply wp_mono; [by apply Hk; [|eapply holds_wf]|]. intros r w2 [Hh2 Hr2]. split; [by eapply holds_compose|done].
  - apply wp_return. by split.
Qed.

Lemma ewp_mono {A} (m : E A) (Q Q' : A -> Prop) (R R' : NTSTATUS -> Prop) :
  ewp m Q R -> (forall x, Q x -> Q' x) -> (forall st, NT_SUCCESS st = false -> R st -> R' st) -> ewp m Q' R'.
Proof. intros Hm HQ HR w Hw. eapply wp_mono; [by apply Hm|]. intros [x|st] w' [Hh Hr]; split; naive_solver. Qed.

Lemma ewp_access {A} (o : option A) x R : o = Some x -> ewp (access o) (eq x) R.
Proof. intros -> w _. cbn. split; [apply holds_nil|done]. Qed.

Lemma ewp_result {A} (r : RESULT A) (Q : A -> Prop) (R : NTSTATUS -> Prop) :
  match r with Ok x => Q x | Err st => NT_SUCCESS st = false /\ R st end -> ewp (mreturn r) Q R.
Proof. intros Hr w _. apply wp_return. split; [apply holds_nil|]. destruct r; naive_solver. Qed.

Lemma ewp_parsed {A} (p : P A) (Q0 Q : A -> Prop) (R : NTSTATUS -> Prop) :
  safe p Q0 -> (forall x, p = Some (Ok x) -> Q0 x -> Q x) -> (p = Some (Err STATUS_INVALID_PARAMETER) -> R STATUS_INVALID_PARAMETER) -> ewp (parsed p) Q R.
Proof.
  intros Hs HQ HR w _. unfold parsed, wp, lift. destruct p as [[x|st]|]; cbn in Hs; [| |done].
  - split; [apply holds_nil|]. by apply HQ.
  - subst st. split; [apply holds_nil|]. split; [done|]. intros _. by apply HR.
Qed.

(** A call whose status only BCrypt decides. *)
Lemma ewp_step {A} (m : M (NTSTATUS * A)) (Q : A -> Prop) R :
  (forall w, handles_wf w -> wp m w (fun r w' => holds w [] w' /\ follows oracle STATUS_SUCCESS r.1 /\ (NT_SUCCESS r.1 = true -> Q r.2))) ->
  ewp (step m) Q R.
Proof.
  intros Hm w Hw. apply wp_then. eapply wp_mono; [by apply Hm|]. intros [st x] w' (Hh & [_ Hg] & Hv). cbn [fst snd] in *.
  destruct (NT_SUCCESS st) eqn:Es; apply wp_return; (split; [done|]); [by apply Hv|]. split; [done|]. intros G. specialize (Hg G eq_refl). congruence.
Qed.

(** One that passes judgement too; [bad] is what it answers then. *)
Lemma ewp_judged {A} (m : M (NTSTATUS * A)) (ok : bool) (Q : A -> Prop) (R : NTSTATUS -> Prop) :
  (forall w, handles_wf w -> wp m w (fun r w' => holds w [] w' /\ judged oracle ok STATUS_SUCCESS r.1 /\ (NT_SUCCESS r.1 = true -> Q r.2))) ->
  (ok = false -> forall st, NT_SUCCESS st = false -> R st) -> ewp (step m) Q R.
Proof.
  intros Hm HR w Hw. apply wp_then. eapply wp_mono; [by apply Hm|]. intros [st x] w' (Hh & [_ Hg] & Hv). cbn [fst snd] in *.
  destruct (NT_SUCCESS st) eqn:Es; apply wp_return; (split; [done|]); [by apply Hv|]. split; [done|]. intros G.
  destruct ok; [specialize (Hg G eq_refl eq_refl); congruence|by apply HR].
Qed.

Lemma ewp_sha256 d R : ewp (step (BlorgTlsSha256 oracle d)) (eq (sha256 d)) R.
Proof.
  apply ewp_step. intros w Hw. eapply wp_mono; [by apply wp_sha256, holds_nil|].
  intros r w' (? & ? & ->). by split_and!.
Qed.

Lemma ewp_hmac k d R : ewp (step (BlorgTlsHmacSha256 oracle k d)) (eq (hmac k d)) R.
Proof.
  apply ewp_step. intros w Hw. eapply wp_mono; [by apply wp_hmac, holds_nil|].
  intros r w' (? & ? & ->). by split_and!.
Qed.

Lemma ewp_agree private public server R :
  ewp (step (BlorgTlsEcdhComputeSharedSecret oracle private public server)) (eq (dhe_secret private public server)) R.
Proof.
  apply ewp_step. intros w Hw. eapply wp_mono; [by apply wp_agree, holds_nil|].
  intros r w' (? & ? & Hv). split_and!; [done..|]. by intros ->%Hv.
Qed.

(** The labels of the handshake are short, and so is a hash. *)
Lemma ewp_expand_label secret l context len R :
  (length (label l) + length context <= 213)%nat -> 0 <= len <= 8160 ->
  ewp (expand_label oracle secret l context len) (eq (hkdf_expand_label secret l context len)) R.
Proof.
  intros Hl Hlen. apply ewp_step. intros w Hw. unfold BlorgTlsHkdfExpandLabel.
  destruct (Z.ltb_spec 255 (6 + Z.of_nat (length (label l)))), (Z.ltb_spec 255 (Z.of_nat (length context))); try lia. cbn [orb].
  eapply wp_mono; [apply wp_expand; [done|lia|rewrite length_HkdfLabel; lia|apply holds_nil]|].
  intros r w' (? & ? & Hv). split_and!; [done..|]. by intros ->%Hv.
Qed.

Lemma ewp_encrypt key iv seq aad p (Q : BYTES * BYTES -> Prop) R :
  length iv = 12%nat -> (forall nonce, TlsBuildNonce iv seq = Some nonce -> Q (seal key nonce aad p)) ->
  ewp (step (BlorgTlsAeadEncrypt oracle key iv seq aad p)) Q R.
Proof.
  intros Hiv Hq. pose proof (nonce_is_xor iv seq Hiv) as Hn. apply ewp_step. intros w Hw. eapply wp_mono; [apply wp_encrypt; [done|exact Hn|apply holds_nil]|].
  intros r w' (? & ? & ->). split_and!; auto.
Qed.

(** Decryption succeeds on what a seal under the same key and nonce made. *)
Lemma ewp_decrypt key iv seq aad c tag (Q : BYTES -> Prop) (R : NTSTATUS -> Prop) :
  length iv = 12%nat ->
  (forall nonce p, TlsBuildNonce iv seq = Some nonce -> unseal key nonce aad c tag = Some p -> Q p) ->
  (forall st, R st) ->
  ewp (step (BlorgTlsAeadDecrypt oracle key iv seq aad c tag)) Q R.
Proof.
  intros Hiv Hq HR. pose proof (nonce_is_xor iv seq Hiv) as Hn.
  eapply (ewp_judged _ (opened (unseal key (zip_with Z.lxor iv (padded_seq seq)) aad c tag))); [|auto].
  intros w Hw. eapply wp_mono; [apply wp_decrypt; [done|exact Hn|apply holds_nil]|].
  intros r w' (? & HJ & ->). split_and!; [done..|]. intros Hs. destruct (proj1 HJ Hs) as [_ Ho].
  destruct (unseal _ _ _ _ _) as [p|] eqn:Eu; [|done]. cbn. by eapply Hq.
Qed.

(** A refused signature has a status of its own. *)
Lemma wp_verify_refused public hash signature w :
  handles_wf w -> ecdsa_ok (peer_blob public) hash signature = false -> granting oracle ->
  wp (BlorgTlsEcdsaVerify oracle public hash signature) w (fun st w' => st = STATUS_INVALID_SIGNATURE).
Proof.
  intros Hwf Hno G. pose proof (holds_nil w). unfold BlorgTlsEcdsaVerify. do 2 wp_call.
  match goal with F : follows _ _ ?st, F' : follows _ ?st ?st' |- _ => pose proof (proj2 F G eq_refl) as E1; pose proof (proj2 F' G E1) as E2 end.
  match goal with H : holds w ?hs ?w' |- wp _ ?w' _ => eapply (wp_bind _ _ _ (fun st w' => holds w hs w' /\ st = STATUS_INVALID_SIGNATURE)) end.
  { unfold also. rewrite E2. apply wp_then. eapply wp_mono; [by apply wp_bcall|]. intros st' w2 [Hh F2]. apply wp_return. split; [done|].
    by rewrite (proj2 F2 G eq_refl), Hno. }
  intros st' ? [? ->]. do 2 wp_call. done.
Qed.

Lemma wp_both {A} (m : M A) w (Q Q' : A -> TLS_WORLD -> Prop) : wp m w Q -> wp m w Q' -> wp m w (fun x w' => Q x w' /\ Q' x w').
Proof. unfold wp. by destruct (m w) as [[x w']|]. Qed.

Lemma ewp_verify public hash signature (Q : unit -> Prop) (R : NTSTATUS -> Prop) :
  (if ecdsa_ok (peer_blob public) hash signature then Q tt else R STATUS_INVALID_SIGNATURE) ->
  ewp (step_ (BlorgTlsEcdsaVerify oracle public hash signature)) Q R.
Proof.
  intros Hq w Hw. apply wp_then.
  destruct (ecdsa_ok (peer_blob public) hash signature) eqn:Eok.
  - eapply wp_mono; [by apply wp_verify, holds_nil|]. rewrite Eok. intros st w' [Hh [_ Hg]].
    destruct (NT_SUCCESS st) eqn:Es; apply wp_return; (split; [done|]); [done|]. split; [done|]. intros G. specialize (Hg G eq_refl eq_refl). congruence.
  - pose proof (wp_verify oracle w Hw public hash signature w (holds_nil w)) as Hv. rewrite Eok in Hv. unfold wp in Hv |- *.
    destruct (BlorgTlsEcdsaVerify oracle public hash signature w) as [[st w']|] eqn:Er; [|done]. destruct Hv as [Hh [Hj _]].
    destruct (NT_SUCCESS st) eqn:Es; [destruct (Hj eq_refl); done|]. apply wp_return. split; [done|]. split; [done|]. intros G.
    pose proof (wp_verify_refused public hash signature w Hw Eok G) as Hr. unfold wp in Hr. rewrite Er in Hr. by subst st.
Qed.

Lemma ewp_bcall (Q : unit -> Prop) R : Q tt -> ewp (step_ (bcall oracle)) Q R.
Proof.
  intros Hq w Hw. apply wp_then. eapply wp_mono; [by apply wp_bcall, holds_nil|]. intros st w' [Hh [_ Hg]].
  destruct (NT_SUCCESS st) eqn:Es; apply wp_return; (split; [done|]); [done|]. split; [done|]. intros G. specialize (Hg G eq_refl). congruence.
Qed.
End Rules.

(** One call of a chain. *)
Ltac chain :=
  eapply ewp_then;
  [ first [ apply ewp_sha256 | apply ewp_hmac | apply ewp_agree
          | apply ewp_expand_label; [rewrite ?sha256_length; cbn; lia|unfold TLS_HASH_LEN, TLS_KEY_LEN, TLS_IV_LEN; lia]
          | eapply ewp_access; first [eassumption | reflexivity] ]
  | cbv beta; intros ? <- ].

(** ** The flight, message by message *)

Section Flight.
Context {bc : Bcrypt}.

(** The first complete message of a string of bytes, and the rest. *)
Definition next_message (l : BYTES) : option (BYTES * BYTES) :=
  if (length l <? 4)%nat then None
  else
    match get_uint24 l 1 with
    | Some n => if Z.of_nat (length l) <? 4 + n then None else Some (take (Z.to_nat (4 + n)) l, drop (Z.to_nat (4 + n)) l)
    | None => None
    end.

(** The verdict on the bytes of a flight, from transcript [t] and phase [ph]:
    the transcript, the phase and the bytes left, or an error.  The
    transcript buffer bounds it. *)
Fixpoint accept_flight (fuel : nat) (pin : option BYTES) (traffic t : BYTES) (ph : PHASE) (l : BYTES) : RESULT (BYTES * PHASE * BYTES) :=
  match fuel with
  | O => Ok (t, ph, l)
  | S fuel =>
      match next_message l with
      | None => Ok (t, ph, l)
      | Some (m, rest) =>
          if TLS_HS_TRANSCRIPT_MAX <? Z.of_nat (length (t ++ m)) then Err STATUS_INSUFFICIENT_RESOURCES
          else
            match accept_message pin traffic (t ++ m) ph (msg_type m) (msg_body m) with
            | Err st => Err st
            | Ok Accepted => Ok (t ++ m, Accepted, rest)
            | Ok ph' => accept_flight fuel pin traffic (t ++ m) ph' rest
            end
      end
  end.

Definition is_accepted (ph : PHASE) : bool := match ph with Accepted => true | _ => false end.

Lemma sits_get24 buf off l i : sits buf off l -> 0 <= i -> i + 3 <= Z.of_nat (length l) -> get_uint24 buf (off + i) = get_uint24 l i.
Proof.
  intros Hs Hi Hl. unfold get_uint24. rewrite <- !Z.add_assoc. by rewrite !(sits_rd_at buf off l) by (done || lia).
Qed.

Lemma next_message_split l m rest : bytes_ok l -> next_message l = Some (m, rest) -> l = m ++ rest /\ is_message m /\ (4 <= length m)%nat.
Proof.
  intros Hb. unfold next_message. destruct (Nat.ltb_spec (length l) 4) as [|H4]; [done|].
  destruct (get24_in_range l 1 Hb ltac:(lia) ltac:(lia)) as (n & E & Hn). rewrite E.
  destruct (Z.ltb_spec (Z.of_nat (length l)) (4 + n)) as [|Hl]; [done|]. intros [= <- <-]. rewrite take_drop. split; [done|].
  set (m := take (Z.to_nat (4 + n)) l). assert (Hlen : length m = Z.to_nat (4 + n)) by (unfold m; rewrite length_take; lia).
  split; [|rewrite Hlen; lia]. split; [by apply Forall_take|]. rewrite Hlen, Z2Nat.id by lia.
  rewrite <- (sits_get24 l 0 m 1); [change (0 + 1) with 1; rewrite E; f_equal; lia| |lia|lia]. exists [], (drop (Z.to_nat (4 + n)) l). unfold m. by rewrite take_drop.
Qed.

(** A message in front is the first one. *)
Lemma next_message_app m l : is_message m -> next_message (m ++ l) = Some (m, l).
Proof.
  intros [Hb Hn]. assert (Hl : (4 <= length m)%nat).
  { unfold get_uint24 in Hn. destruct (rd m 1) eqn:E1, (rd m (1 + 1)) eqn:E2, (rd m (1 + 2)) eqn:E3; cbn in Hn; try done.
    apply rd_Some in E3. lia. }
  unfold next_message. rewrite length_app. destruct (Nat.ltb_spec (length m + length l) 4); [lia|].
  change 1 with (0 + 1). rewrite (sits_get24 (m ++ l) 0 m 1); [|by exists [], l|lia|lia]. rewrite Hn.
  destruct (Z.ltb_spec (Z.of_nat (length m + length l)) (4 + (Z.of_nat (length m) - 4))); [lia|].
  replace (Z.to_nat (4 + (Z.of_nat (length m) - 4))) with (length m) by lia. by rewrite take_app_length, drop_app_length.
Qed.

(** What a verdict says of the messages: the bytes are those accepted, one
    after the other, and what is left. *)
Lemma accepts_flight pins fuel pin traffic t0 msgs ph l t' ph' rest :
  pins pin -> bytes_ok l -> accepts pins traffic t0 msgs ph ->
  accept_flight fuel pin traffic (t0 ++ concat msgs) ph l = Ok (t', ph', rest) ->
  exists new, accepts pins traffic t0 (msgs ++ new) ph' /\ t' = t0 ++ concat (msgs ++ new) /\ l = concat new ++ rest.
Proof.
  intros Hp. revert msgs ph l. induction fuel as [|fuel IH]; intros msgs ph l Hb Ha.
  { intros [= <- <- <-]. exists []. by rewrite app_nil_r. }
  cbn [accept_flight]. destruct (next_message l) as [[m l']|] eqn:En; [|intros [= <- <- <-]; exists []; by rewrite app_nil_r].
  destruct (next_message_split l m l' Hb En) as (-> & Hm & _). apply Forall_app in Hb as [_ Hb].
  assert (Et : (t0 ++ concat msgs) ++ m = t0 ++ concat (msgs ++ [m])) by (rewrite concat_app; cbn; by rewrite app_nil_r, app_assoc). rewrite Et.
  destruct (_ <? _); [done|]. destruct (accept_message _ _ _ _ _ _) as [ph2|] eqn:Ea; [|done].
  pose proof (accepts_snoc pins traffic t0 msgs ph m ph2 pin Ha Hm Hp Ea) as Ha2.
  assert (Hdone : Ok (t0 ++ concat (msgs ++ [m]), Accepted, l') = Ok (t', ph', rest) -> ph2 = Accepted ->
    exists new, accepts pins traffic t0 (msgs ++ new) ph' /\ t' = t0 ++ concat (msgs ++ new) /\ m ++ l' = concat new ++ rest).
  { intros [= <- <- <-] ->. exists [m]. split_and!; [done..|]. cbn. by rewrite app_nil_r. }
  assert (Hgo : accept_flight fuel pin traffic (t0 ++ concat (msgs ++ [m])) ph2 l' = Ok (t', ph', rest) ->
    exists new, accepts pins traffic t0 (msgs ++ new) ph' /\ t' = t0 ++ concat (msgs ++ new) /\ m ++ l' = concat new ++ rest).
  { intros Hr. destruct (IH _ _ _ Hb Ha2 Hr) as (new & Hn & -> & ->). exists ([m] ++ new). rewrite <- app_assoc in Hn |- *. split_and!; [done..|].
    rewrite concat_app. cbn. by rewrite app_nil_r, <- app_assoc. }
  destruct ph2; auto.
Qed.
End Flight.
