(* ===== verification/TlsHandshakeChains.v ===== *)
(** * The handshake's chains against the reference

    Each chain of calls of TlsHandshake.v, and the loop over the flight's
    messages, gives what TlsHandshakeSpec.v says, stays inside its buffers on
    any bytes, and leaves no handle open. *)

From Stdlib Require Import Ascii String.
From S2P Require Import Prelude Buffers ListingIndex ClientText TlsCrypto TlsCryptoHandles TlsCryptoTheorems TlsCodec TlsClientHello TlsParse TlsRoundTrip TlsDer TlsRecords ClientRequest ClientRequestSystem ClientRequestHandlers TlsHandshake TlsHandshakeSpec.
#[local] Open Scope Z_scope.
#[local] Open Scope list_scope.
#[local] Open Scope tls_scope.

(** The pin's value is a hash's worth of bytes. *)
Definition pin_ok (pin : TLS_PIN_STATE) : Prop := length (pin_Value pin) = 32%nat /\ bytes_ok (pin_Value pin).
Definition pin_of (pin : TLS_PIN_STATE) : option BYTES := if pin_Configured pin then Some (pin_Value pin) else None.

Lemma length_zeros n : length (zeros n) = Z.to_nat n.
Proof. apply length_replicate. Qed.

Section Chains.
Context (oracle : nat -> NTSTATUS) {bc : Bcrypt}.
Implicit Types (c : TLS_HANDSHAKE_CONTEXT) (p : HS_PEER) (ph : PHASE) (body t : BYTES).

(** ** Certificate *)

Lemma check_pin_spec pin spki (Q : bool -> Prop) (R : NTSTATUS -> Prop) :
  pin_ok pin -> Q (pin_matches (pin_of pin) spki) -> (~ granting oracle -> Q false) ->
  ewp oracle (b <- BlorgTlsCheckPin oracle pin spki ;; eok b) Q R.
Proof.
  intros [Hl Hb] Hq Hno w Hw. apply wp_then. unfold BlorgTlsCheckPin. apply wp_then.
  eapply wp_mono; [by apply wp_sha256, holds_nil|]. intros [st d] w' (Hh & [_ Hg] & Hd). cbn [fst snd] in *. subst d.
  destruct (NT_SUCCESS st) eqn:Es; cbn [negb].
  - unfold pin_of, pin_matches in Hq. destruct (pin_Configured pin); [|by apply wp_return].
    eapply wp_lift; [apply (constant_time_equal_exact _ _ 32); [apply sha256_bytes|done|by rewrite sha256_length|by rewrite Hl]|].
    apply wp_return. split; [done|]. unfold same_prefix. rewrite !take_ge by (rewrite ?sha256_length; lia). done.
  - apply wp_return. split; [done|]. apply Hno. intros G. specialize (Hg G eq_refl). congruence.
Qed.

Lemma leaf_spki_safe body :
  bytes_ok body -> Z.of_nat (length body) < 2147483648 -> safe (leaf_spki body) (fun spki => bytes_ok spki).
Proof.
  intros Hb Hs. unfold leaf_spki. eapply safe_then; [by apply parse_certificate_safe|]. intros [o n] (? & ? & ?). cbn [fst snd] in *.
  destruct (rd_list body o n) as [leaf|] eqn:El; [|by rewrite rd_list_in_range in El by lia]. cbn [mbind option_bind].
  pose proof (bytes_rd_list _ _ _ _ Hb El) as Hbl. pose proof (length_rd_list _ _ _ _ El).
  eapply safe_then; [apply extract_spki_safe; [done|lia]|]. intros [o' n'] (? & ? & ?). cbn [fst snd] in *.
  destruct (rd_list leaf o' n') as [spki|] eqn:Ek; [|by rewrite rd_list_in_range in Ek by lia]. cbn. by eapply bytes_rd_list.
Qed.

Lemma certificate_spec pin body :
  pin_ok pin -> bytes_ok body -> Z.of_nat (length body) < 2147483648 ->
  ewp oracle (hs_certificate oracle pin body) (fun key => accept_certificate (pin_of pin) body = Ok key)
    (fun st => accept_certificate (pin_of pin) body = Err st).
Proof.
  intros Hpin Hb Hs. pose proof (leaf_spki_safe body Hb Hs) as Hleaf. unfold accept_certificate. unfold hs_certificate.
  unfold leaf_spki in *. eapply ewp_then; [apply (ewp_parsed _ _ _ (fun x => BlorgTlsParseCertificateMessage body = Some (Ok x)) _ (parse_certificate_safe body Hb Hs)); [done|by intros ->]|].
  cbv beta. intros [o n] E1. rewrite E1 in *. cbn [pthen] in *. destruct (rd_list body o n) as [leaf|] eqn:El; [|done]. cbn [mbind option_bind] in *.
  chain.
  pose proof (bytes_rd_list _ _ _ _ Hb El) as Hbl. pose proof (length_rd_list _ _ _ _ El) as Hll.
  assert (Z.of_nat (length leaf) < 2147483648).
  { unfold rd_list in El. destruct (Z.leb_spec 0 o), (Z.leb_spec 0 n), (Z.leb_spec (o + n) (Z.of_nat (length body))); try done. lia. }
  eapply ewp_then; [apply (ewp_parsed _ _ _ (fun x => BlorgTlsExtractSpkiFromCertificate leaf = Some (Ok x)) _ (extract_spki_safe leaf Hbl ltac:(lia))); [done|by intros ->]|].
  cbv beta. intros [o' n'] E2. rewrite E2 in *. cbn [pthen] in *. destruct (rd_list leaf o' n') as [spki|] eqn:Ek; [|done]. cbn [mbind option_bind] in *.
  chain. cbn [settle].
  eapply ewp_then; [apply (check_pin_spec pin spki (fun b => (b = true -> pin_matches (pin_of pin) spki = true) /\ (granting oracle -> b = pin_matches (pin_of pin) spki))); [done|by split|naive_solver]|].
  cbv beta. intros [] [Ht Hg]; cbn [negb].
  - rewrite Ht by done. rewrite spki_decode. destruct (is_spki spki); apply (ewp_result _ (Some _)) || (intros w _; unfold parsed, wp, lift; split; [apply holds_nil|]); done.
  - intros w _. apply wp_return. split; [apply holds_nil|]. split; [done|]. intros G. by rewrite <- (Hg G).
Qed.

(** ** CertificateVerify and Finished *)

Lemma verify_spec p body :
  length (TranscriptHashThroughCert p) = 32%nat -> bytes_ok body -> Z.of_nat (length body) < 2147483648 ->
  ewp oracle (hs_certificate_verify oracle p body)
    (fun _ => accept_verify (ServerLongTermKey p) (TranscriptHashThroughCert p) body = Ok tt)
    (fun st => accept_verify (ServerLongTermKey p) (TranscriptHashThroughCert p) body = Err st).
Proof.
  intros Hh Hb Hs. unfold hs_certificate_verify, accept_verify.
  eapply ewp_then; [apply (ewp_parsed _ _ _ (fun x => BlorgTlsParseCertificateVerifyMessage body = Some (Ok x)) _ (parse_verify_safe body Hb Hs)); [done|by intros ->]|].
  cbv beta. intros sig ->. cbn [settle].
  eapply (ewp_then _ _ _ (fun x => x = verify_content (TranscriptHashThroughCert p))).
  { apply ewp_step. intros w _. eapply wp_lift; [apply cert_verify_content; [done|reflexivity]|]. split_and!; [apply holds_nil|apply follows_refl|done]. }
  cbv beta. intros ? ->. chain.
  apply ewp_verify. by destruct (ecdsa_ok _ _ _).
Qed.

Lemma finished_spec k p body :
  bytes_ok body -> length body = 32%nat ->
  ewp oracle (hs_finished oracle k p body)
    (fun _ => body = hmac (finished_key (ServerHsTraffic k)) (TranscriptHashThroughCertVerify p))
    (fun st => st = STATUS_INVALID_PARAMETER /\ body <> hmac (finished_key (ServerHsTraffic k)) (TranscriptHashThroughCertVerify p)).
Proof.
  intros Hb Hl. unfold hs_finished. chain. chain.
  eapply ewp_then; [apply (ewp_access _ _ (bool_decide (hmac (finished_key (ServerHsTraffic k)) (TranscriptHashThroughCertVerify p) = body)))|].
  { change TLS_HASH_LEN with (Z.of_nat 32). rewrite constant_time_equal_exact; [|apply hmac_bytes|done|by rewrite hmac_length|by rewrite Hl].
    unfold same_prefix. rewrite !take_ge by (rewrite ?hmac_length; lia). done. }
  cbv beta. intros ? <-. case_bool_decide as He; cbn [negb]; [by apply ewp_ok|]. apply ewp_err; [done|]. split; [done|]. congruence.
Qed.

(** ** One message *)

(** The context's flags and keys are those of a phase. *)
Definition peer_agrees p ph : Prop :=
  match ph with
  | NeedExtensions => SawEncryptedExtensions p = false /\ SawCertificate p = false /\ SawCertVerify p = false
  | NeedCertificate => SawEncryptedExtensions p = true /\ SawCertificate p = false /\ SawCertVerify p = false
  | NeedVerify key hash => SawEncryptedExtensions p = true /\ SawCertificate p = true /\ SawCertVerify p = false /\
      ServerLongTermKey p = key /\ TranscriptHashThroughCert p = hash /\ length hash = 32%nat
  | NeedFinished hash => SawEncryptedExtensions p = true /\ SawCertificate p = true /\ SawCertVerify p = true /\ TranscriptHashThroughCertVerify p = hash
  | Accepted => False
  end.

Definition transcript_is c t : Prop := rd_list (hs_Transcript c) 0 (hs_TranscriptLen c) = Some t.

(** [c'] is [c] with its peer's part in phase [ph]. *)
Definition reaches c ph c' : Prop := exists p, c' = hs_with_peer c p /\ (ph <> Accepted -> peer_agrees p ph).

Definition message_post pin c t ph ty body (r : TLS_HANDSHAKE_CONTEXT * bool) : Prop :=
  exists ph', accept_message (pin_of pin) (ServerHsTraffic (hs_Schedule c)) t ph ty body = Ok ph' /\ reaches c ph' r.1 /\ r.2 = is_accepted ph'.
Definition message_error pin c t ph ty body (st : NTSTATUS) : Prop :=
  accept_message (pin_of pin) (ServerHsTraffic (hs_Schedule c)) t ph ty body = Err st.

(** Split the tests on a message's type. *)
Ltac types := repeat match goal with |- context [?a =? ?b] => destruct (Z.eqb_spec a b); try lia; try congruence end.
Ltac flags := repeat match goal with H : _ /\ _ |- _ => destruct H | H : SawEncryptedExtensions _ = _ |- _ => rewrite H
  | H : SawCertificate _ = _ |- _ => rewrite H | H : SawCertVerify _ = _ |- _ => rewrite H end; cbn [orb negb].

Lemma message_spec pin c t ph ty body :
  pin_ok pin -> peer_agrees (hs_Peer c) ph -> transcript_is c t -> bytes_ok body -> Z.of_nat (length body) < 2147483648 ->
  ewp oracle (hs_message oracle pin c ty body) (message_post pin c t ph ty body) (message_error pin c t ph ty body).
Proof.
  intros Hpin Hp Ht Hb Hs. unfold hs_message, message_post, message_error, transcript_is in *. rewrite (Z.eqb_sym 8), (Z.eqb_sym 11), (Z.eqb_sym 15), (Z.eqb_sym 20).
  destruct (Z.eqb_spec ty 8) as [->|N8].
  { destruct ph; cbn [peer_agrees accept_message] in *; flags; cbn -[ewp]; try (by apply ewp_err); try done.
    apply ewp_ok. exists NeedCertificate. split_and!; [done| |done]. eexists. split; [done|]. by cbn. }
  destruct (Z.eqb_spec ty 11) as [->|N11].
  { destruct ph; cbn [peer_agrees accept_message] in *; flags; cbn -[ewp]; try (by apply ewp_err); try done.
    eapply ewp_then; [eapply ewp_mono; [by apply certificate_spec|intros key Hk; exact Hk|cbn; intros st _ ->; done]|].
    cbv beta. intros key ->. chain. chain. apply ewp_ok. eexists. split_and!; [done| |done]. eexists. split; [done|]. intros _. cbn.
    by rewrite sha256_length. }
  destruct (Z.eqb_spec ty 15) as [->|N15].
  { destruct ph; cbn [peer_agrees accept_message] in *; flags; cbn -[ewp]; try (by apply ewp_err); try done. subst.
    eapply ewp_then; [eapply ewp_mono; [by apply verify_spec|intros ? Hk; exact Hk|cbn; intros st _ ->; done]|].
    cbv beta. intros [] ->. chain. chain. apply ewp_ok. eexists. split_and!; [done| |done]. eexists. split; [done|]. intros _. by cbn. }
  destruct (Z.eqb_spec ty 20) as [->|N20].
  { destruct ph; cbn [peer_agrees accept_message] in *; flags; cbn -[ewp]; try (by apply ewp_err); try done. subst.
    destruct (Z.eqb_spec 32 (Z.of_nat (length body))) as [E|E]; cbn [negb].
    - eapply ewp_then; [eapply ewp_mono; [apply finished_spec; [done|lia]|intros ? Hk; exact Hk|cbn; intros st _ [-> Hne]; by rewrite bool_decide_false]|].
      cbv beta. intros _ Hf. apply ewp_ok. rewrite bool_decide_true by done. eexists. split_and!; [done| |done]. exists (hs_Peer c). split; [by destruct c|done].
    - apply ewp_err; [done|]. rewrite bool_decide_false; [done|]. intros ->. rewrite hmac_length in E. lia. }
  destruct ph; cbn [peer_agrees accept_message] in *; types; cbn -[ewp]; by apply ewp_err.
Qed.

(** ** The loop *)

(** [c'] is [c] but for the transcript and the peer's part. *)
Definition moved c c' : Prop :=
  exists tr n p, c' = hs_with_peer (hs_with_transcript c tr n) p /\ length tr = length (hs_Transcript c).

Lemma moved_trans c1 c2 c3 : moved c1 c2 -> moved c2 c3 -> moved c1 c3.
Proof. intros (t & n & p & -> & E) (t' & n' & p' & -> & E'). exists t', n', p'. split; [done|]. cbn in E'. congruence. Qed.

(** What follows [off] in the flight. *)
Definition unprocessed c off l : Prop := rd_list (hs_Flight c) off (hs_FlightLen c - off) = Some l.

Definition flight_post fuel pin c t ph l (r : TLS_HANDSHAKE_CONTEXT * Z * bool) : Prop :=
  exists t' ph' rest, accept_flight fuel (pin_of pin) (ServerHsTraffic (hs_Schedule c)) t ph l = Ok (t', ph', rest) /\
    moved c r.1.1 /\ transcript_is r.1.1 t' /\ (ph' <> Accepted -> peer_agrees (hs_Peer r.1.1) ph') /\ r.2 = is_accepted ph' /\ unprocessed c r.1.2 rest.

Definition buffers_ok c : Prop := Z.of_nat (length (hs_Transcript c)) = 8192 /\ Z.of_nat (length (hs_Flight c)) = 32768 /\ bytes_ok (hs_Flight c).

Lemma rd_list_bounds l off n r : rd_list l off n = Some r -> 0 <= off /\ 0 <= n /\ off + n <= Z.of_nat (length l) /\ Z.of_nat (length r) = n.
Proof.
  intros Hr. pose proof (length_rd_list _ _ _ _ Hr). unfold rd_list in Hr.
  destruct (Z.leb_spec 0 off), (Z.leb_spec 0 n), (Z.leb_spec (off + n) (Z.of_nat (length l))); try done. lia.
Qed.

(** Appending a message to the transcript. *)
Lemma transcript_append c t m :
  transcript_is c t -> Z.of_nat (length (hs_Transcript c)) = 8192 -> Z.of_nat (length (t ++ m)) <= 8192 ->
  exists tr, wr_list (hs_Transcript c) (hs_TranscriptLen c) m = Some tr /\ Z.of_nat (length tr) = 8192 /\
    transcript_is (hs_with_transcript c tr (hs_TranscriptLen c + Z.of_nat (length m))) (t ++ m) /\ hs_TranscriptLen c = Z.of_nat (length t).
Proof.
  intros Ht Hl Hfit. unfold transcript_is in *. destruct (rd_list_bounds _ _ _ _ Ht) as (_ & ? & ? & E). rewrite length_app in Hfit.
  destruct (sits_extend (hs_Transcript c) 0 t m (rd_list_sits _ _ _ _ Ht)) as (tr & Hw & Hl' & Hs); [lia|]. cbn [Z.add] in Hw.
  exists tr. rewrite <- E. split_and!; [done|lia| |done]. cbn. apply sits_list; [done|]. rewrite length_app. lia.
Qed.

Lemma messages_spec fuel pin c off t ph l :
  pin_ok pin -> buffers_ok c -> peer_agrees (hs_Peer c) ph -> transcript_is c t -> unprocessed c off l -> (length l < fuel)%nat ->
  ewp oracle (hs_messages oracle fuel pin c off) (flight_post fuel pin c t ph l)
    (fun st => accept_flight fuel (pin_of pin) (ServerHsTraffic (hs_Schedule c)) t ph l = Err st).
Proof.
  intros Hpin. revert c off t ph l. induction fuel as [|fuel IH]; intros c off t ph l Hbuf Hp Ht Hu Hf; [lia|].
  pose proof Hbuf as (Htl & Hfl & Hfb). destruct (rd_list_bounds _ _ _ _ Hu) as (Ho & Hn & Hend & El). pose proof (rd_list_sits _ _ _ _ Hu) as Hsits.
  pose proof (bytes_rd_list _ _ _ _ Hfb Hu) as Hlb. destruct (rd_list_bounds _ _ _ _ Ht) as (_ & ? & ? & Elt).
  assert (Hstop : next_message l = None -> flight_post (S fuel) pin c t ph l (c, off, false)).
  { intros E. exists t, ph, l. cbn [accept_flight fst snd]. rewrite E. split_and!; try done; [|by destruct ph].
    exists (hs_Transcript c), (hs_TranscriptLen c), (hs_Peer c). by destruct c. }
  cbn [hs_messages]. rewrite (u32_id (off + 4)) by lia. destruct (Z.ltb_spec (hs_FlightLen c) (off + 4)) as [H4|H4].
  { apply ewp_ok, Hstop. unfold next_message. destruct (Nat.ltb_spec (length l) 4); [done|lia]. }
  destruct (rd_byte l 0 Hlb ltac:(lia)) as (ty & Ety & _). destruct (get24_in_range l 1 Hlb ltac:(lia) ltac:(lia)) as (n & En & Hn24).
  assert (Etf : rd (hs_Flight c) off = Some ty) by (rewrite <- (Z.add_0_r off), (sits_rd_at _ _ l) by (done || lia); done).
  assert (Enf : get_uint24 (hs_Flight c) (off + 1) = Some n) by (rewrite (sits_get24 _ _ l) by (done || lia); done).
  chain. chain. rewrite (u32_id (4 + n)), (u32_id (off + (4 + n))) by lia.
  destruct (Z.ltb_spec (hs_FlightLen c) (off + (4 + n))) as [Hshort|Hwhole].
  { apply ewp_ok, Hstop. unfold next_message. rewrite En. destruct (Nat.ltb_spec (length l) 4); [done|].
    destruct (Z.ltb_spec (Z.of_nat (length l)) (4 + n)); [done|lia]. }
  set (m := take (Z.to_nat (4 + n)) l). set (l' := drop (Z.to_nat (4 + n)) l). assert (Hm : length m = Z.to_nat (4 + n)) by (unfold m; rewrite length_take; lia).
  assert (Enext : next_message l = Some (m, l')).
  { unfold next_message. rewrite En. destruct (Nat.ltb_spec (length l) 4); [lia|]. destruct (Z.ltb_spec (Z.of_nat (length l)) (4 + n)); [lia|done]. }
  unfold flight_post. cbn [accept_flight]. rewrite Enext. change TLS_HS_TRANSCRIPT_MAX with 8192. rewrite length_app, Nat2Z.inj_add, Hm, Elt, Z2Nat.id by lia.
  rewrite (u32_id (hs_TranscriptLen c + (4 + n))) by lia.
  destruct (Z.ltb_spec 8192 (hs_TranscriptLen c + (4 + n))) as [Hbig|Hroom]; [by apply ewp_err|].
  assert (Hmf : rd_list (hs_Flight c) off (4 + n) = Some m).
  { rewrite <- (Z.add_0_r off), (sits_rd_list _ _ l) by (done || lia). rewrite rd_list_in_range by lia. by rewrite drop_0. }
  chain. destruct (transcript_append c t m Ht Htl) as (tr & Hw & Htrl & Ht' & _); [rewrite length_app; lia|].
  chain. replace (Z.of_nat (length m)) with (4 + n) in Ht' by lia. set (c1 := hs_with_transcript c tr (hs_TranscriptLen c + (4 + n))) in *.
  assert (Hbf : rd_list (hs_Flight c1) (off + 4) n = Some (msg_body m)).
  { change (hs_Flight c1) with (hs_Flight c). rewrite (sits_rd_list _ _ l) by (done || lia). rewrite rd_list_in_range by lia. f_equal. unfold msg_body, m.
    rewrite skipn_firstn_comm. f_equal. lia. }
  chain. assert (Hty : msg_type m = ty). { unfold msg_type. rewrite <- (sits_rd_at l 0 m 0); [change (0 + 0) with 0; by rewrite Ety|exists [], l'; by unfold m, l'; rewrite take_drop|lia]. }
  rewrite <- Hty. eapply ewp_then; [eapply ewp_mono; [apply (message_spec pin c1 (t ++ m) ph)|intros r Hr; exact Hr|]|].
  all: try done.
  { by apply Forall_drop, Forall_take. }
  { unfold msg_body. rewrite length_drop, Hm. lia. }
  { unfold message_error. intros st _ E. change (hs_Schedule c1) with (hs_Schedule c) in E. by rewrite E. }
  intros [c2 done] (ph2 & Ea & (p & Ec & Hp2) & Ed). cbn [fst snd] in *. cbv beta iota. change (hs_Schedule c1) with (hs_Schedule c) in Ea.
  assert (Hmv : moved c c2) by (exists tr, (hs_TranscriptLen c + (4 + n)), p; split; [done|lia]).
  assert (Hu2 : unprocessed c2 (off + (4 + n)) l').
  { subst c2. unfold unprocessed. cbn. rewrite (sits_rd_list _ _ l) by (done || lia). rewrite rd_list_in_range by lia. f_equal. unfold l'.
    rewrite take_ge; [done|rewrite length_drop; lia]. }
  assert (Ht2 : transcript_is c2 (t ++ m)) by (by subst c2).
  destruct done.
  - apply ewp_ok. rewrite Ea. destruct ph2; try done. exists (t ++ m), Accepted, l'. split_and!; done || (by subst c2).
  - assert (Hne : ph2 <> Accepted) by (by intros ->). eapply ewp_mono; [apply (IH c2 _ (t ++ m) ph2 l')|..].
    all: try done.
    { subst c2. by split_and!. }
    { subst c2. cbn. auto. }
    { unfold l'. rewrite length_drop. lia. }
    { assert (hs_Schedule c2 = hs_Schedule c) as Es by (by subst c2). rewrite Ea.
      intros [[c3 off3] done3] (t3 & ph3 & rest3 & Er & Hmv3 & Ht3 & Hp3 & Ed3 & Hu3). rewrite Es in Er. exists t3, ph3, rest3. split_and!; try done.
      - by destruct ph2.
      - by eapply moved_trans.
      - subst c2. exact Hu3. }
    { assert (hs_Schedule c2 = hs_Schedule c) as Es by (by subst c2). rewrite Es. intros st _ E. rewrite Ea. by destruct ph2. }
Qed.

(** The fields a handler of the flight leaves alone. *)
Record same_keys c c' : Prop := {
  sk_seq : hs_ServerSeq c' = hs_ServerSeq c;
  sk_stage : hs_Stage c' = hs_Stage c;
  sk_schedule : hs_Schedule c' = hs_Schedule c;
  sk_private : hs_ClientPrivate c' = hs_ClientPrivate c;
  sk_public : hs_ClientPublic c' = hs_ClientPublic c;
  sk_server : hs_ServerPublic c' = hs_ServerPublic c;
  sk_payload : hs_RecordPayload c' = hs_RecordPayload c;
  sk_payload_len : hs_RecordPayloadLen c' = hs_RecordPayloadLen c;
  sk_header : hs_RecordHeader c' = hs_RecordHeader c;
  sk_finished : hs_ClientFinishedRecord c' = hs_ClientFinishedRecord c
}.

Definition processed pin c t ph l (r : TLS_HANDSHAKE_CONTEXT * bool) : Prop :=
  exists t' ph' rest, accept_flight (S (length (hs_Flight c))) (pin_of pin) (ServerHsTraffic (hs_Schedule c)) t ph l = Ok (t', ph', rest) /\
    same_keys c r.1 /\ buffers_ok r.1 /\ transcript_is r.1 t' /\ (ph' <> Accepted -> peer_agrees (hs_Peer r.1) ph') /\ r.2 = is_accepted ph' /\
    unprocessed r.1 0 rest.

(** The driver's verdict on a flight is the reference's, errors included. *)
Lemma process_spec pin c t ph l :
  pin_ok pin -> buffers_ok c -> peer_agrees (hs_Peer c) ph -> transcript_is c t -> unprocessed c 0 l ->
  ewp oracle (TlsHandshakeProcessFlightMessages oracle pin c) (processed pin c t ph l)
    (fun st => accept_flight (S (length (hs_Flight c))) (pin_of pin) (ServerHsTraffic (hs_Schedule c)) t ph l = Err st).
Proof.
  intros Hpin Hbuf Hp Ht Hu. pose proof Hbuf as (Htl & Hfl & Hfb). destruct (rd_list_bounds _ _ _ _ Hu) as (_ & ? & ? & El).
  unfold TlsHandshakeProcessFlightMessages. eapply ewp_then; [apply (messages_spec _ pin c 0 t ph l); try done; lia|].
  intros [[c2 off] done] (t' & ph' & rest & Ea & (tr & n & p & Ec & Etr) & Ht2 & Hp2 & Ed & Hu2). cbn [fst snd] in *. cbv beta iota.
  destruct (rd_list_bounds _ _ _ _ Hu2) as (? & ? & ? & Er). assert (Ef : hs_FlightLen c2 = hs_FlightLen c) by (by subst c2).
  assert (Efl : hs_Flight c2 = hs_Flight c) by (by subst c2). rewrite Ef, Efl, u32_id by lia.
  assert (Hu3 : rd_list (hs_Flight c) off (hs_FlightLen c - off) = Some rest) by done. chain.
  destruct (wr_list_in_range (hs_Flight c) 0 rest) as (f & Hw & Hlf); [lia..|]. chain. apply ewp_ok.
  exists t', ph', rest. cbn [fst snd]. split_and!; try done.
  - by subst c2.
  - subst c2. split_and!; cbn; [lia|lia|]. eapply bytes_wr; [exact Hfb| |exact Hw]. by eapply bytes_rd_list.
  - unfold unprocessed. cbn. rewrite Z.sub_0_r. apply sits_list; [by eapply sits_written|lia].
Qed.

(** ** Records *)

Record record_ok c : Prop := {
  rk_payload : Z.of_nat (length (hs_RecordPayload c)) = TLS_RECORD_CIPHERTEXT_MAX;
  rk_bytes : bytes_ok (hs_RecordPayload c);
  rk_len : 0 <= hs_RecordPayloadLen c <= TLS_RECORD_CIPHERTEXT_MAX;
  rk_header : length (hs_RecordHeader c) = 5%nat
}.

(** The content is the start of what opens under the server's key and the
    record's sequence number. *)
Definition opens c (content : BYTES) : Prop :=
  exists nonce ciphertext tag plaintext, TlsBuildNonce (ServerHsIv (hs_Schedule c)) (hs_ServerSeq c) = Some nonce /\
    unseal (ServerHsKey (hs_Schedule c)) nonce (hs_RecordHeader c) ciphertext tag = Some plaintext /\ content `prefix_of` plaintext.

Definition opened_record c l (r : TLS_HANDSHAKE_CONTEXT * BYTES) : Prop :=
  exists f, r.1 = hs_with_flight c (u64 (hs_ServerSeq c + 1)) f (hs_FlightLen c + Z.of_nat (length r.2)) /\
    buffers_ok r.1 /\ unprocessed r.1 0 (l ++ r.2) /\ bytes_ok r.2 /\ opens c r.2.

Lemma open_record_spec c l :
  buffers_ok c -> record_ok c -> unprocessed c 0 l -> length (ServerHsIv (hs_Schedule c)) = 12%nat ->
  ewp oracle (hs_open_record oracle c) (opened_record c l) (fun _ => True).
Proof.
  intros (Htl & Hfl & Hfb) [Hpl Hpb Hn Hh] Hu Hiv. unfold hs_open_record. change TLS_RECORD_CIPHERTEXT_MAX with 16401 in *. change TLS_TAG_LEN with 16.
  change TLS_HS_FLIGHT_MAX with 32768. destruct (rd_list_bounds _ _ _ _ Hu) as (_ & ? & ? & El).
  destruct (Z.ltb_spec (hs_RecordPayloadLen c) 16); [by apply ewp_err|]. rewrite (u32_id (hs_RecordPayloadLen c - 16)) by lia. set (n := hs_RecordPayloadLen c - 16) in *. rewrite (u32_id (hs_FlightLen c + n)) by lia.
  destruct (Z.ltb_spec 32768 (hs_FlightLen c + n)); [by apply ewp_err|]. rewrite in_window_true by lia. cbn [negb].
  destruct (rd_list (hs_RecordPayload c) 0 n) as [ct|] eqn:Ect; [|by rewrite rd_list_in_range in Ect by lia]. chain.
  destruct (rd_list (hs_RecordPayload c) n 16) as [tag|] eqn:Etag; [|by rewrite rd_list_in_range in Etag by lia]. chain.
  pose proof (length_rd_list _ _ _ _ Ect) as Hct. pose proof (bytes_rd_list _ _ _ _ Hpb Ect) as Hbct.
  eapply ewp_then; [apply (ewp_decrypt oracle _ _ _ _ _ _ (fun (p : BYTES) => exists nonce, TlsBuildNonce (ServerHsIv (hs_Schedule c)) (hs_ServerSeq c) = Some nonce /\
    unseal (ServerHsKey (hs_Schedule c)) nonce (hs_RecordHeader c) ct tag = Some p)); eauto|].
  cbv beta. intros p (nonce & Enonce & Ep). pose proof (unseal_length _ _ _ _ _ _ Ep) as Hp. pose proof (unseal_bytes _ _ _ _ _ _ Hbct Ep) as Hbp.
  pose proof (rd_list_sits _ _ _ _ Hu) as Hsl.
  destruct (sits_extend (hs_Flight c) 0 l p Hsl) as (f & Hw & Hlf & Hsf); [lia|]. cbn [Z.add] in Hw.
  replace (Z.of_nat (length l)) with (hs_FlightLen c) in Hw by lia. chain. cbn [hs_Flight hs_FlightLen hs_with_flight hs_ServerSeq].
  pose proof (sits_app _ _ _ _ Hsf) as [_ Hsp]. cbn [Z.add] in Hsp. replace (Z.of_nat (length l)) with (hs_FlightLen c) in Hsp by lia.
  assert (Hrp : rd_list f (hs_FlightLen c) n = Some p) by (apply sits_list; [done|lia]). chain.
  destruct (strip_total p) as (r & Er & Hr). rewrite Er. chain. destruct r as [[ty k]|]; [|by apply ewp_err].
  destruct (Z.eqb_spec 22 ty); cbn [negb]; [|by apply ewp_err].
  set (content := take (Z.to_nat k) p). assert (Hlc : length content = Z.to_nat k) by (unfold content; rewrite length_take; lia).
  assert (Hrc : rd_list f (hs_FlightLen c) k = Some content).
  { rewrite <- (Z.add_0_r (hs_FlightLen c)), (sits_rd_list _ _ p) by (done || lia). rewrite rd_list_in_range by lia. by rewrite drop_0. }
  chain. apply ewp_ok. rewrite u32_id by lia. exists f. cbn [fst snd]. rewrite Hlc, Z2Nat.id by lia. split_and!; [done| | | |].
  - split_and!; cbn; [lia|lia|]. exact (bytes_wr _ _ _ _ Hfb Hbp Hw).
  - unfold unprocessed. cbn. rewrite Z.sub_0_r. apply sits_list; [|rewrite length_app; lia]. unfold content in *.
    rewrite <- (take_drop (Z.to_nat k) p), app_assoc in Hsf. by eapply sits_prefix.
  - by apply Forall_take.
  - exists nonce, ct, tag, p. split_and!; [done..|]. exists (drop (Z.to_nat k) p). by unfold content; rewrite take_drop.
Qed.

(** ** The key schedule *)

Lemma derive_spec c t server R :
  transcript_is c t ->
  ewp oracle (hs_derive oracle c server) (eq (rfc_schedule (dhe_secret (hs_ClientPrivate c) (hs_ClientPublic c) server) t)) R.
Proof. intros Ht. unfold hs_derive, transcript_is in *. do 13 chain. by apply ewp_ok. Qed.

Lemma app_keys_spec c t dhe hellos R :
  transcript_is c t -> hs_Schedule c = rfc_schedule dhe hellos ->
  ewp oracle (hs_app_keys oracle c) (eq (rfc_app_keys dhe hellos t)) R.
Proof. intros Ht Hk. unfold hs_app_keys, transcript_is in *. rewrite Hk. do 13 chain. by apply ewp_ok. Qed.

Definition server_hello_post c t (c' : TLS_HANDSHAKE_CONTEXT) : Prop :=
  exists sh random server tr n, is_message sh /\ msg_type sh = 2 /\ BlorgTlsParseServerHello (msg_body sh) = Some (Ok (random, server)) /\
    c' = hs_with_schedule (hs_with_transcript c tr n) TlsHsWaitingForFlightRecord server
           (rfc_schedule (dhe_secret (hs_ClientPrivate c) (hs_ClientPublic c) server) (t ++ sh)) /\
    transcript_is c' (t ++ sh) /\ Z.of_nat (length tr) = 8192.

Lemma server_hello_spec c t :
  buffers_ok c -> record_ok c -> transcript_is c t -> ewp oracle (hs_server_hello oracle c) (server_hello_post c t) (fun _ => True).
Proof.
  intros (Htl & Hfl & Hfb) [Hpl Hpb Hn Hh] Ht. unfold hs_server_hello. change TLS_RECORD_CIPHERTEXT_MAX with 16401 in *. change TLS_HS_TRANSCRIPT_MAX with 8192.
  destruct (rd_list_bounds _ _ _ _ Ht) as (_ & ? & ? & Elt).
  destruct (Z.ltb_spec (hs_RecordPayloadLen c) 4); [by apply ewp_err|].
  destruct (rd_byte (hs_RecordPayload c) 0 Hpb ltac:(lia)) as (ty & Ety & _). chain. destruct (Z.eqb_spec 2 ty) as [<-|]; cbn [negb]; [|by apply ewp_err].
  destruct (get24_in_range (hs_RecordPayload c) 1 Hpb ltac:(lia) ltac:(lia)) as (n & En & Hn24). chain. rewrite u32_id by lia.
  destruct (Z.eqb_spec (4 + n) (hs_RecordPayloadLen c)) as [Elen|]; cbn [negb]; [|by apply ewp_err]. rewrite u32_id by lia.
  destruct (Z.ltb_spec 8192 (hs_TranscriptLen c + hs_RecordPayloadLen c)); [by apply ewp_err|].
  destruct (rd_list (hs_RecordPayload c) 0 (hs_RecordPayloadLen c)) as [sh|] eqn:Esh; [|by rewrite rd_list_in_range in Esh by lia]. chain.
  destruct (rd_list_bounds _ _ _ _ Esh) as (_ & _ & _ & Hsh). pose proof (rd_list_sits _ _ _ _ Esh) as Hsits.
  destruct (transcript_append c t sh Ht Htl) as (tr & Hw & Htr & Ht' & _); [rewrite length_app; lia|]. chain. rewrite Hsh in Ht'.
  set (c1 := hs_with_transcript c tr (hs_TranscriptLen c + hs_RecordPayloadLen c)) in *.
  assert (Ebody : rd_list (hs_RecordPayload c1) 4 n = Some (msg_body sh)).
  { change (hs_RecordPayload c1) with (hs_RecordPayload c). change 4 with (0 + 4). rewrite (sits_rd_list _ _ sh) by (done || lia).
    rewrite rd_list_in_range by lia. f_equal. unfold msg_body. apply take_ge. rewrite length_drop. lia. }
  chain. pose proof (bytes_rd_list _ _ _ _ Hpb Esh) as Hbsh.
  eapply ewp_then; [apply (ewp_parsed _ _ _ (fun x => BlorgTlsParseServerHello (msg_body sh) = Some (Ok x)) _ (parse_server_hello_safe (msg_body sh) ltac:(by apply Forall_drop) ltac:(unfold msg_body; rewrite length_drop; lia))); done|].
  cbv beta. intros [random server] Ep. eapply ewp_then; [by apply (derive_spec c1 (t ++ sh))|]. cbv beta. intros ? <-. apply ewp_ok.
  exists sh, random, server, tr, (hs_TranscriptLen c + hs_RecordPayloadLen c). split_and!; try done.
  - split; [done|]. rewrite <- (sits_get24 _ 0 sh 1) by (done || lia). change (0 + 1) with 1. rewrite En. f_equal. lia.
  - unfold msg_type. rewrite <- (sits_rd_at _ 0 sh 0) by (done || lia). change (0 + 0) with 0. by rewrite Ety.
Qed.

Lemma seal_finished_spec c mac R :
  length (hs_ClientFinishedRecord c) = 58%nat -> length mac = 32%nat -> length (ClientHsIv (hs_Schedule c)) = 12%nat ->
  ewp oracle (hs_seal_finished oracle c mac) (fun c' => exists r, c' = hs_with_finished c r /\ length r = 58%nat) R.
Proof.
  intros Hr Hm Hiv. unfold hs_seal_finished. set (plain := [20; 0; 0; TLS_HASH_LEN] ++ mac ++ [22]).
  assert (Hp : length plain = 37%nat) by (unfold plain; rewrite !length_app, Hm; done). rewrite Hp.
  destruct (wr_list_in_range (hs_ClientFinishedRecord c) 0 [23; 3; 3; u8 (Z.shiftr (u32 (Z.of_nat 37 + TLS_TAG_LEN)) 8); u8 (Z.land (u32 (Z.of_nat 37 + TLS_TAG_LEN)) 255)]) as (r1 & E1 & L1); [lia|cbn; lia|].
  chain. destruct (rd_list r1 0 5) as [aad|] eqn:Eaad; [|rewrite rd_list_in_range in Eaad by lia; done]. chain.
  eapply ewp_then; [apply (ewp_encrypt _ _ _ _ _ _ (fun x => length x.1 = 37%nat /\ length x.2 = 16%nat)); [done|]|].
  { intros nonce _. by rewrite seal_length, seal_tag_length. }
  cbv beta. intros [ct tag] [Hc Ht]. cbn [fst snd] in *.
  destruct (wr_list_in_range r1 5 ct) as (r2 & E2 & L2); [lia..|]. chain.
  destruct (wr_list_in_range r2 (5 + Z.of_nat 37) tag) as (r3 & E3 & L3); [lia..|]. chain. apply ewp_ok. exists r3. split; [done|]. lia.
Qed.
End Chains.
