(* ===== verification/TlsHandshakeSystem.v ===== *)
(** * A handshake and the events that drive it

    The events a handshake can see where it waits, the step relation they
    make, and the invariant: what has been sent, received and accepted so far
    is what the context holds; the context, its work item and the key handles
    are owned once. *)

From Stdlib Require Import Ascii String.
From S2P Require Import Prelude Buffers ListingIndex ClientText TlsCrypto TlsCryptoHandles TlsCryptoTheorems TlsCodec TlsClientHello TlsParse TlsRoundTrip TlsDer TlsRecords ClientRequest ClientRequestSystem ClientRequestHandlers TlsHandshake TlsHandshakeSpec TlsHandshakeChains.
#[local] Open Scope Z_scope.
#[local] Open Scope list_scope.
#[local] Open Scope tls_scope.

(** [h_Irql] is the level the running handlers run at. *)
Record HANDSHAKE := mkHandshake {
  h_Ctx : TLS_HANDSHAKE_CONTEXT;
  h_Socket : HS_SOCKET;
  h_Pin : TLS_PIN_STATE;
  h_Next : HS_NEXT;
  h_Irql : Z;
  h_World : TLS_WORLD;
  h_Trace : list HS_EFFECT
}.

Section System.
Context (oracle : nat -> NTSTATUS) {bc : Bcrypt} `{HttpEnvironment}.

(** ** Events *)

(** What the network put behind the accumulator's bytes. *)
Definition hs_land (s : HS_SOCKET) (offset : Z) (data : BYTES) : option HS_SOCKET :=
  let k := hk_Socket s in
  buffer ← TlsRecvBuffer k;
  buffer ← wr_list buffer offset data;
  Some (with_ksocket s (with_Recv k buffer (TlsRecvLength k) (TlsRecvOffset k))).

(** [hs_event h irql m]: at [h] something can happen, at [irql], to which the
    code answers [m]. *)
Inductive hs_event : HANDSHAKE -> Z -> HS_HANDLED -> Prop :=
  | event_issue c s pin irql w tr a :
      answers_ok a -> hs_event (mkHandshake c s pin HsIssueReceive irql w tr) irql (TlsHandshakeIssueReceiveRecordHeader c s a)
  | event_deliver c s pin st irql w tr a :
      answers_ok a -> hs_event (mkHandshake c s pin (HsDeliver st) irql w tr) irql (TlsHandshakeOnReceiveRecordPayload oracle pin c s st irql a)
  | event_bounced c s pin irql w tr a :
      answers_ok a -> hs_event (mkHandshake c s pin HsAwaitWorker irql w tr) PASSIVE_LEVEL (TlsHandshakeOnReceiveRecordPayloadWorker oracle pin c s a)
  | event_hello_sent c s pin st irql irql' w tr :
      irql_ok irql' -> hs_event (mkHandshake c s pin HsAwaitHello irql w tr) irql' (TlsHandshakeOnSendClientHello c s st)
  | event_bulk c s pin offset len st data irql irql' w tr :
      irql_ok irql' -> Z.of_nat (length data) <= len -> bytes_ok data ->
      hs_event (mkHandshake c s pin (HsAwaitBulk offset len) irql w tr) irql'
        (s <- lift (hs_land s offset data) ;; TlsHandshakeOnBulkReceive c s st (Z.of_nat (length data)))
  | event_finished_sent c s pin st irql irql' w tr :
      irql_ok irql' -> hs_event (mkHandshake c s pin HsAwaitFinished irql w tr) irql' (TlsHandshakeOnSendClientFinished c s st).

(** A pin can be set at any time, from the registry or by a control code. *)
Inductive hs_step : HANDSHAKE -> HANDSHAKE -> Prop :=
  | step_event h irql m c s fx n w :
      hs_event h irql m -> m (h_World h) = Some ((c, s, fx, n), w) ->
      hs_step h (mkHandshake c s (h_Pin h) n irql w (h_Trace h ++ fx))
  | step_set_pin h value st pin :
      length value = 32%nat -> bytes_ok value -> BlorgTlsSetPin value (h_Pin h) = Some (st, pin) ->
      hs_step h (mkHandshake (h_Ctx h) (h_Socket h) pin (h_Next h) (h_Irql h) (h_World h) (h_Trace h ++ [HsPinSet value])).

(** ** What the trace shows *)

Definition opened_bytes (tr : list HS_EFFECT) : BYTES := tr ≫= (fun e => match e with HsOpened _ l => l | _ => [] end).
Definition opened_seqs (tr : list HS_EFFECT) : list Z := tr ≫= (fun e => match e with HsOpened n _ => [n] | _ => [] end).
Definition completions (tr : list HS_EFFECT) : list NTSTATUS := tr ≫= (fun e => match e with HsCompleted st => [st] | _ => [] end).
Definition contexts_out (tr : list HS_EFFECT) : Z := total (fun e => match e with HsAllocContext => 1 | HsFreeContext => -1 | _ => 0 end) tr.
Definition work_items_out (tr : list HS_EFFECT) : Z := total (fun e => match e with HsAllocWorkItem => 1 | HsFreeWorkItem => -1 | _ => 0 end) tr.

(** ** The invariant *)

Section Invariant.
(** The handshake started on connection [id] with pin [pin0] and [w0]'s
    handles, with this key pair, random and host. *)
Context (id : Z) (pin0 : TLS_PIN_STATE) (w0 : TLS_WORLD) (rng : Z) (random : BYTES) (host : option BYTES).

Definition own_private : BYTES := take 32 (drop 64 (ecc_blob rng)).
Definition own_public : BYTES := [4] ++ take 32 (ecc_blob rng) ++ take 32 (drop 32 (ecc_blob rng)).
Definition own_hello : BYTES := client_hello random own_public (default [] host).

(** The pins there have been. *)
Definition pins_of (tr : list HS_EFFECT) (p : option BYTES) : Prop :=
  match p with Some v => pin_of pin0 = Some v \/ HsPinSet v ∈ tr | None => True end.

Record context_ok (c : TLS_HANDSHAKE_CONTEXT) : Prop := {
  co_buffers : buffers_ok c;
  co_record : record_ok c;
  co_finished : length (hs_ClientFinishedRecord c) = 58%nat;
  co_private : hs_ClientPrivate c = own_private;
  co_public : hs_ClientPublic c = own_public
}.

(** The hellos are exchanged: what the server's one says, and the keys. *)
Definition greeted (sh server : BYTES) (k : HS_SCHEDULE) : Prop :=
  is_message sh /\ msg_type sh = 2 /\ (exists serverRandom, BlorgTlsParseServerHello (msg_body sh) = Some (Ok (serverRandom, server))) /\
  k = rfc_schedule (dhe_secret own_private own_public server) (own_hello ++ sh).

(** Of the server's flight, [msgs] are accepted and [rest] is left. *)
Definition flight_is (tr : list HS_EFFECT) (sh : BYTES) (k : HS_SCHEDULE) (msgs : list BYTES) (ph : PHASE) (rest : BYTES) : Prop :=
  accepts (pins_of tr) (ServerHsTraffic k) (own_hello ++ sh) msgs ph /\ opened_bytes tr = concat msgs ++ rest.

(** The records opened so far have the sequence numbers from zero on. *)
Definition seqs_ok (c : TLS_HANDSHAKE_CONTEXT) (tr : list HS_EFFECT) : Prop :=
  exists n, opened_seqs tr = (fun i => u64 (Z.of_nat i)) <$> seq 0 n /\ hs_ServerSeq c = u64 (Z.of_nat n).

(** The hello of the transcript is the one that went out, in a record. *)
Definition hello_sent (tr : list HS_EFFECT) : Prop :=
  let n := Z.of_nat (length own_hello) in HsSent ([0x16; 0x03; 0x01; n / 256; n mod 256] ++ own_hello) ∈ tr.

(** What the context holds is what has happened. *)
Definition story (c : TLS_HANDSHAKE_CONTEXT) (tr : list HS_EFFECT) : Prop :=
  seqs_ok c tr /\ hello_sent tr /\
  match hs_Stage c with
  | TlsHsWaitingForServerHello => transcript_is c own_hello /\ peer_agrees (hs_Peer c) NeedExtensions /\ unprocessed c 0 [] /\ opened_bytes tr = []
  | TlsHsWaitingForFlightRecord =>
      exists sh server msgs ph rest, greeted sh server (hs_Schedule c) /\ flight_is tr sh (hs_Schedule c) msgs ph rest /\
        transcript_is c ((own_hello ++ sh) ++ concat msgs) /\ peer_agrees (hs_Peer c) ph /\ unprocessed c 0 rest
  end.

(** The server is authenticated, and the connection's keys are the ones the
    transcript with its Finished gives. *)
Definition authenticated (t : TLS_CONNECTION_STATE) (tr : list HS_EFFECT) : Prop :=
  hello_sent tr /\ exists sh server k msgs rest, greeted sh server k /\ flight_is tr sh k msgs Accepted rest /\
    let keys := rfc_app_keys (dhe_secret own_private own_public server) (own_hello ++ sh) ((own_hello ++ sh) ++ concat msgs) in
    WriteKey t = app_ClientKey keys /\ WriteIv t = app_ClientIv keys /\ ReadKey t = app_ServerKey keys /\ ReadIv t = app_ServerIv keys /\
    WriteSeq t = 0 /\ ReadSeq t = 0 /\ WriteKeyHandle t <> 0 /\ ReadKeyHandle t <> 0.

Record hs_socket_ok (s : HS_SOCKET) : Prop := {
  hk_ok : socket_ok (hk_Socket s);
  hk_id : sk_Id (hk_Socket s) = id;
  hk_view : hk_Socket s = tls_view (hk_Socket s) (hk_Tls s)
}.

(** The key behind each handle of a connection is the connection's own. *)
Definition keyed (w : TLS_WORLD) (t : TLS_CONNECTION_STATE) : Prop :=
  (WriteKeyHandle t <> 0 -> tw_keys w !! WriteKeyHandle t = Some (WriteKey t)) /\ (ReadKeyHandle t <> 0 -> tw_keys w !! ReadKeyHandle t = Some (ReadKey t)).

(** What holds of a handshake that is not over, whatever it holds. *)
Record underway (s : HS_SOCKET) (pin : TLS_PIN_STATE) (irql : Z) (w : TLS_WORLD) (tr : list HS_EFFECT) : Prop := {
  uw_irql : irql_ok irql;
  uw_pin : pin_ok pin;
  uw_pins : pins_of tr (pin_of pin);
  uw_socket : hs_socket_ok s;
  uw_handles : holds w0 (hnd (WriteKeyHandle (hk_Tls s)) ++ hnd (ReadKeyHandle (hk_Tls s))) w;
  uw_keys : keyed w (hk_Tls s);
  uw_state : tls_State (hk_Tls s) = TlsHandshakeInProgress;
  uw_open : completions tr = [] /\ contexts_out tr = 1 /\ work_items_out tr = 1
}.

Definition keyless (s : HS_SOCKET) : Prop := WriteKeyHandle (hk_Tls s) = 0 /\ ReadKeyHandle (hk_Tls s) = 0.

Definition hs_place (c : TLS_HANDSHAKE_CONTEXT) (s : HS_SOCKET) (n : HS_NEXT) (tr : list HS_EFFECT) : Prop :=
  match n with
  | HsIssueReceive | HsDeliver _ | HsAwaitHello | HsAwaitWorker => keyless s /\ context_ok c /\ story c tr
  | HsAwaitBulk offset len =>
      keyless s /\ context_ok c /\ story c tr /\ is_Some (TlsRecvBuffer (hk_Socket s)) /\ 0 < len /\
      offset = TlsRecvLength (hk_Socket s) /\ offset + len = BlorgSocketTlsRecvCapacity
  | HsAwaitFinished => authenticated (hk_Tls s) tr
  | HsDone => True
  end.

(** A handshake that is over: one completion, everything given back, and the
    connection complete and authenticated if and only if it succeeded. *)
Record settled (c : TLS_HANDSHAKE_CONTEXT) (s : HS_SOCKET) (w : TLS_WORLD) (tr : list HS_EFFECT) : Prop := {
  sd_once : exists st, completions tr = [st] /\
    if NT_SUCCESS st then tls_State (hk_Tls s) = TlsHandshakeComplete /\ authenticated (hk_Tls s) tr else tls_State (hk_Tls s) = TlsHandshakeFailed;
  sd_contexts : contexts_out tr = 0;
  sd_work_items : work_items_out tr = 0;
  sd_zeroed : c = zeroed_context;
  sd_socket : hs_socket_ok s;
  sd_handles : holds w0 (hnd (WriteKeyHandle (hk_Tls s)) ++ hnd (ReadKeyHandle (hk_Tls s))) w;
  sd_keys : keyed w (hk_Tls s)
}.

Definition hs_ok (h : HANDSHAKE) : Prop :=
  match h_Next h with
  | HsDone => settled (h_Ctx h) (h_Socket h) (h_World h) (h_Trace h)
  | n => underway (h_Socket h) (h_Pin h) (h_Irql h) (h_World h) (h_Trace h) /\ hs_place (h_Ctx h) (h_Socket h) n (h_Trace h)
  end.

(** The answer of a handler run at [irql] after [tr]. *)
Definition hs_good (pin : TLS_PIN_STATE) (irql : Z) (tr : list HS_EFFECT) (r : TLS_HANDSHAKE_CONTEXT * HS_SOCKET * list HS_EFFECT * HS_NEXT) (w : TLS_WORLD) : Prop :=
  let '(c, s, fx, n) := r in hs_ok (mkHandshake c s pin n irql w (tr ++ fx)).
End Invariant.
End System.
