(* ===== verification/TlsHandshakeServer.v ===== *)
(** * A server's flight

    The four messages of a server, built from its certificate and key; that an
    honest flight is accepted whenever BCrypt grants its calls; and the status
    a wrong pin gets. *)

From Stdlib Require Import Ascii String.
From S2P Require Import Prelude Buffers ListingIndex ClientText TlsCrypto TlsCryptoHandles TlsCryptoTheorems TlsCodec TlsClientHello TlsParse TlsRoundTrip TlsDer TlsRecords ClientRequest ClientRequestSystem TlsHandshake TlsHandshakeSpec TlsHandshakeChains.
#[local] Open Scope Z_scope.
#[local] Open Scope list_scope.

Definition handshake_message (ty : Z) (body : BYTES) : BYTES := [ty] ++ vec24 body.

Lemma handshake_message_ok ty body :
  bytes_ok (handshake_message ty body) -> Z.of_nat (length body) < 16777216 ->
  is_message (handshake_message ty body) /\ msg_type (handshake_message ty body) = ty /\ msg_body (handshake_message ty body) = body.
Proof.
  intros Hb Hl. split; [|done]. split; [done|]. unfold handshake_message, vec24 in *.
  rewrite get24_put24 with (v := Z.of_nat (length body)); [|lia|]; [f_equal; rewrite !length_app; cbn [length TlsPutUint24]; lia|].
  by exists [ty], body.
Qed.

Section Server.
Context {bc : Bcrypt}.

(** What a server sends: the body of its extensions, the certificate with the
    key [sv_Key] and what else is in that message, and the two halves of its
    signature. *)
Record SERVER := mkServer {
  sv_Extensions : BYTES;
  sv_Context : BYTES;
  sv_Cert : CERT;
  sv_Others : BYTES;
  sv_Key : BYTES;
  sv_R : BYTES;
  sv_S : BYTES
}.
Implicit Types (v : SERVER).

Definition sv_ee v : BYTES := handshake_message 8 (sv_Extensions v).
Definition sv_cert v : BYTES := handshake_message 11 (certificate_message (sv_Context v) (certificate (sv_Cert v)) (sv_Others v)).
Definition sv_cv v : BYTES := handshake_message 15 (verify_message (sv_R v) (sv_S v)).
Definition sv_fin v (traffic t : BYTES) : BYTES := handshake_message 20 (hmac (finished_key traffic) (sha256 (t ++ sv_ee v ++ sv_cert v ++ sv_cv v))).
Definition sv_flight v (traffic t : BYTES) : BYTES := sv_ee v ++ sv_cert v ++ sv_cv v ++ sv_fin v traffic t.

(** The certificate carries the key and the message fits its length fields. *)
Record server_cert_ok v : Prop := {
  vc_context : (length (sv_Context v) <= 255)%nat;
  vc_wf : cert_wf (sv_Cert v);
  vc_others : Z.of_nat (length (sv_Others v)) < 65536;
  vc_spki : tlv 0x30 (c_spki (sv_Cert v)) = spki_der (sv_Key v);
  vc_key : length (sv_Key v) = 65%nat /\ sv_Key v !! 0%nat = Some 4
}.

(** The signature is one of the key over the transcript with the Certificate. *)
Record server_signs v (t : BYTES) : Prop := {
  vs_lengths : length (sv_R v) = 32%nat /\ length (sv_S v) = 32%nat;
  vs_nonzero : strip_zeros (sv_R v) <> [] /\ strip_zeros (sv_S v) <> [];
  vs_valid : ecdsa_ok (peer_blob (sv_Key v)) (sha256 (verify_content (sha256 (t ++ sv_ee v ++ sv_cert v)))) (sv_R v ++ sv_S v) = true
}.

Lemma leaf_of_server v : server_cert_ok v ->
  leaf_spki (certificate_message (sv_Context v) (certificate (sv_Cert v)) (sv_Others v)) = Some (Ok (spki_der (sv_Key v))).
Proof.
  intros [C1 C2 C3 C4 _]. unfold leaf_spki. pose proof C2 as [_ Hlen].
  destruct (parse_certificate_message (sv_Context v) (certificate (sv_Cert v)) (sv_Others v) C1 ltac:(lia)) as (o & n & -> & Hr). cbn [pthen]. rewrite Hr. cbn [mbind option_bind].
  destruct (extract_spki_certificate (sv_Cert v) C2) as (o' & n' & -> & Hr'). cbn [pthen]. rewrite Hr'. cbn [mbind option_bind]. by rewrite C4.
Qed.

Lemma server_cert_accepted v : server_cert_ok v ->
  accept_certificate (Some (sha256 (spki_der (sv_Key v)))) (certificate_message (sv_Context v) (certificate (sv_Cert v)) (sv_Others v)) = Ok (sv_Key v).
Proof.
  intros C. unfold accept_certificate. rewrite leaf_of_server by done. cbn [settle]. unfold pin_matches. rewrite bool_decide_true by done.
  rewrite spki_decode. destruct C as [_ _ _ _ [C5 C6]]. by destruct (proj2 (is_spki_iff (spki_der (sv_Key v)) (sv_Key v))) as [-> ->].
Qed.

Lemma server_cert_refused pin v : server_cert_ok v -> pin <> Some (sha256 (spki_der (sv_Key v))) ->
  accept_certificate pin (certificate_message (sv_Context v) (certificate (sv_Cert v)) (sv_Others v)) = Err STATUS_TRUST_FAILURE.
Proof.
  intros C Hp. unfold accept_certificate. rewrite leaf_of_server by done. cbn [settle]. unfold pin_matches. destruct pin as [p|]; [|done].
  rewrite bool_decide_false; [done|]. congruence.
Qed.

Lemma length_message ty body : length (handshake_message ty body) = (4 + length body)%nat.
Proof. unfold handshake_message, vec24. rewrite !length_app. cbn [length TlsPutUint24]. lia. Qed.

Lemma accept_next fuel pin traffic t ph m l :
  is_message m -> Z.of_nat (length (t ++ m)) <= 8192 ->
  accept_flight (S fuel) pin traffic t ph (m ++ l) =
    match accept_message pin traffic (t ++ m) ph (msg_type m) (msg_body m) with
    | Err st => Err st
    | Ok Accepted => Ok (t ++ m, Accepted, l)
    | Ok ph' => accept_flight fuel pin traffic (t ++ m) ph' l
    end.
Proof.
  intros Hm Hl. cbn [accept_flight]. rewrite next_message_app by done. change TLS_HS_TRANSCRIPT_MAX with 8192.
  destruct (Z.ltb_spec 8192 (Z.of_nat (length (t ++ m)))); [lia|done].
Qed.

(** The reference accepts an honest flight, whatever follows it. *)
Lemma honest_accepted fuel v traffic t rest :
  (4 <= fuel)%nat -> server_cert_ok v -> server_signs v t -> bytes_ok (sv_flight v traffic t) ->
  Z.of_nat (length (t ++ sv_flight v traffic t)) <= 8192 ->
  accept_flight fuel (Some (sha256 (spki_der (sv_Key v)))) traffic t NeedExtensions (sv_flight v traffic t ++ rest) =
    Ok (t ++ sv_flight v traffic t, Accepted, rest).
Proof.
  intros Hf C [[S1 S2] [S3 S4] S5] Hb Hlen. do 4 (destruct fuel as [|fuel]; [lia|]). unfold sv_flight in *.
  apply Forall_app in Hb as [B1 [B2 [B3 B4]%Forall_app]%Forall_app].
  assert (Hs : Z.of_nat (length (sv_ee v)) <= 8192 /\ Z.of_nat (length (sv_cert v)) <= 8192 /\ Z.of_nat (length (sv_cv v)) <= 8192) by (rewrite !length_app in Hlen; lia).
  unfold sv_ee, sv_cert, sv_cv in Hs. rewrite !length_message in Hs.
  destruct (handshake_message_ok _ _ B1 ltac:(lia)) as (M1 & T1 & E1).
  destruct (handshake_message_ok _ _ B2 ltac:(lia)) as (M2 & T2 & E2). destruct (handshake_message_ok _ _ B3 ltac:(lia)) as (M3 & T3 & E3).
  destruct (handshake_message_ok _ _ B4) as (M4 & T4 & E4); [rewrite hmac_length; lia|]. fold (sv_ee v) in *. fold (sv_cert v) in *. fold (sv_cv v) in *. fold (sv_fin v traffic t) in *.
  rewrite !length_app in Hlen. rewrite <- !app_assoc.
  rewrite accept_next by (done || (rewrite !length_app; lia)). rewrite T1. cbn [accept_message]. change (8 =? 8) with true. cbn iota.
  rewrite accept_next by (done || (rewrite !length_app; lia)). rewrite T2, E2. cbn [accept_message]. change (11 =? 11) with true. cbn iota. rewrite server_cert_accepted by done.
  rewrite accept_next by (done || (rewrite !length_app; lia)). rewrite T3, E3. cbn [accept_message]. change (15 =? 15) with true. cbn iota.
  unfold accept_verify. rewrite certificate_verify_parsed by done. cbn [settle]. rewrite <- !app_assoc in *. rewrite S5.
  rewrite accept_next by (done || (rewrite !length_app; lia)). rewrite T4, E4. cbn [accept_message]. rewrite <- !app_assoc. rewrite bool_decide_true by done. done.
Qed.
End Server.

Section Verdicts.
Context (oracle : nat -> NTSTATUS) {bc : Bcrypt}.

(** What the driver made of a flight is what the reference says of it: it
    accepts with the same transcript, phase and bytes left over, and fails
    with the same status unless BCrypt refused a call. *)
Definition agrees_with (verdict : RESULT (BYTES * PHASE * BYTES)) (r : RESULT (TLS_HANDSHAKE_CONTEXT * bool)) : Prop :=
  match r with
  | Ok (c', done) => exists t' ph' rest, verdict = Ok (t', ph', rest) /\ done = is_accepted ph' /\ transcript_is c' t' /\ unprocessed c' 0 rest
  | Err st => NT_SUCCESS st = false /\ (granting oracle -> verdict = Err st)
  end.

(** C32: On the bytes of a flight, in any phase, the driver's loop over its
    buffers gives the verdict of the reference: when it accepts, the
    transcript, the phase and the bytes left over are the reference's; when
    every BCrypt call is granted and it fails, the status is the
    reference's too; and it leaves the open handles as they were. *)
Theorem flight_verdict_exact pin c t ph l w :
  handles_wf w -> pin_ok pin -> buffers_ok c -> peer_agrees (hs_Peer c) ph -> transcript_is c t -> unprocessed c 0 l ->
  exists r w', TlsHandshakeProcessFlightMessages oracle pin c w = Some (r, w') /\ tw_open w' = tw_open w /\
    agrees_with (accept_flight (S (length (hs_Flight c))) (pin_of pin) (ServerHsTraffic (hs_Schedule c)) t ph l) r.
Proof.
  intros Hw Hp Hb Ha Ht Hu. pose proof (process_spec oracle pin c t ph l Hp Hb Ha Ht Hu w Hw) as Hwp. apply wp_exists in Hwp as (r & w' & Hr & Hh & Hres).
  exists r, w'. split; [done|]. split; [by apply holds_nil_same in Hh as [_ ?]|]. destruct r as [[c' d]|st]; [|done].
  destruct Hres as (t' & ph' & rest & E & _ & _ & Ht' & _ & Hd & Hu'). by exists t', ph', rest.
Qed.

(** C33: An honest server gets in: when BCrypt grants its calls, the pin is the
    hash of the key in the server's certificate, and the messages fit the
    transcript buffer, a flight of EncryptedExtensions, Certificate, a
    CertificateVerify with a valid signature and the right Finished is accepted
    to the end, and all of it is in the transcript. *)
Theorem honest_flight_accepted v pin c t rest w :
  granting oracle -> handles_wf w -> pin_ok pin -> pin_of pin = Some (sha256 (spki_der (sv_Key v))) -> buffers_ok c ->
  peer_agrees (hs_Peer c) NeedExtensions -> transcript_is c t -> server_cert_ok v -> server_signs v t ->
  let flight := sv_flight v (ServerHsTraffic (hs_Schedule c)) t in
  unprocessed c 0 (flight ++ rest) -> Z.of_nat (length (t ++ flight)) <= 8192 ->
  exists c' w', TlsHandshakeProcessFlightMessages oracle pin c w = Some (Ok (c', true), w') /\ transcript_is c' (t ++ flight) /\ unprocessed c' 0 rest.
Proof.
  intros G Hw Hp Epin Hb Ha Ht C S flight Hu Hlen.
  assert (Hbf : bytes_ok (flight ++ rest)) by (destruct Hb as (_ & _ & B); exact (bytes_rd_list _ _ _ _ B Hu)). apply Forall_app in Hbf as [Hbf _].
  pose proof (process_spec oracle pin c t NeedExtensions (flight ++ rest) Hp Hb Ha Ht Hu w Hw) as Hwp. apply wp_exists in Hwp as (r & w' & Hr & _ & Hres).
  assert (Ev : accept_flight (Datatypes.S (length (hs_Flight c))) (pin_of pin) (ServerHsTraffic (hs_Schedule c)) t NeedExtensions (flight ++ rest) = Ok (t ++ flight, Accepted, rest)).
  { rewrite Epin. apply honest_accepted; try done. destruct Hb as (_ & B & _). lia. }
  destruct r as [[c' d]|st]; [|destruct Hres as [_ Hres]; specialize (Hres G); congruence].
  destruct Hres as (t' & ph' & rest' & E & _ & _ & Ht' & _ & Hd & Hu'). rewrite Ev in E. injection E as <- <- <-. cbn in Hd. subst d. by exists c', w'.
Qed.

(** A server whose certificate is well formed but whose key is not the one
    pinned, or any server when no pin is configured, is refused with
    STATUS_TRUST_FAILURE, whatever follows its Certificate. *)
Theorem wrong_pin_is_trust_failure v pin c t rest w :
  granting oracle -> handles_wf w -> pin_ok pin -> pin_of pin <> Some (sha256 (spki_der (sv_Key v))) -> buffers_ok c ->
  peer_agrees (hs_Peer c) NeedCertificate -> transcript_is c t -> server_cert_ok v ->
  unprocessed c 0 (sv_cert v ++ rest) -> Z.of_nat (length (t ++ sv_cert v)) <= 8192 ->
  exists w', TlsHandshakeProcessFlightMessages oracle pin c w = Some (Err STATUS_TRUST_FAILURE, w').
Proof.
  intros G Hw Hp Epin Hb Ha Ht C Hu Hlen.
  assert (Hbf : bytes_ok (sv_cert v ++ rest)) by (destruct Hb as (_ & _ & B); exact (bytes_rd_list _ _ _ _ B Hu)). apply Forall_app in Hbf as [Hbf _].
  pose proof (process_spec oracle pin c t NeedCertificate _ Hp Hb Ha Ht Hu w Hw) as Hwp. apply wp_exists in Hwp as (r & w' & Hr & _ & Hres).
  assert (Hs : Z.of_nat (length (sv_cert v)) <= 8192) by (rewrite length_app in Hlen; lia). unfold sv_cert in Hs. rewrite length_message in Hs.
  destruct (handshake_message_ok _ _ Hbf ltac:(lia)) as (M & T & E). fold (sv_cert v) in *.
  assert (Ev : accept_flight (S (length (hs_Flight c))) (pin_of pin) (ServerHsTraffic (hs_Schedule c)) t NeedCertificate (sv_cert v ++ rest) = Err STATUS_TRUST_FAILURE).
  { rewrite accept_next by done. rewrite T, E. cbn [accept_message]. change (11 =? 11) with true. cbn iota. by rewrite server_cert_refused. }
  destruct r as [[c' d]|st]; [destruct Hres as (? & ? & ? & E' & _); congruence|]. destruct Hres as [_ Hres]. specialize (Hres G). rewrite Ev in Hres. injection Hres as <-. by exists w'.
Qed.
End Verdicts.

(** ** A server to try them on *)

(** A signature of the concrete BCrypt starts with the digest. *)
Definition demo_server (t : BYTES) : SERVER :=
  let v := mkServer [0; 0] [] toy_cert [0; 0] toy_point [] [] in
  mkServer [0; 0] [] toy_cert [0; 0] toy_point (sha256 (Bcrypt := toy_bcrypt) (verify_content (sha256 (Bcrypt := toy_bcrypt) (t ++ sv_ee v ++ sv_cert v)))) (replicate 32 2).
Definition demo_pin : TLS_PIN_STATE := mkPin (sha256 (Bcrypt := toy_bcrypt) (spki_der toy_point)) true.

(** A context whose flight is [l]. *)
Definition demo_context (p : HS_PEER) (l : BYTES) : TLS_HANDSHAKE_CONTEXT :=
  hs_with_peer (hs_with_flight zeroed_context 0 (l ++ zeros (TLS_HS_FLIGHT_MAX - Z.of_nat (length l))) (Z.of_nat (length l))) p.
Definition demo_peer (ee : bool) : HS_PEER := mkPeer [] [] [] ee false false.
Definition demo_flight : BYTES := sv_flight (bc := toy_bcrypt) (demo_server []) (zeros 32) [].

Definition all_bytes (l : BYTES) : bool := forallb (fun b => (0 <=? b) && (b <? 256)) l.
Lemma all_bytes_ok l : all_bytes l = true -> bytes_ok l.
Proof.
  unfold all_bytes, bytes_ok. rewrite forallb_forall, Forall_forall. intros Hl x Hx%list_elem_of_In. specialize (Hl x Hx). unfold is_byte.
  apply andb_prop in Hl as [H1%Z.leb_le H2%Z.ltb_lt]. lia.
Qed.

Lemma demo_context_ok p l : bytes_ok l -> Z.of_nat (length l) <= 32768 -> buffers_ok (demo_context p l) /\ transcript_is (demo_context p l) [] /\ unprocessed (demo_context p l) 0 l.
Proof.
  intros Hb Hl. unfold buffers_ok, transcript_is, unprocessed, demo_context. cbn [hs_with_peer hs_with_flight hs_Flight hs_FlightLen hs_Transcript hs_TranscriptLen zeroed_context].
  split_and!.
  - by rewrite length_zeros.
  - rewrite length_app, length_zeros. unfold TLS_HS_FLIGHT_MAX. lia.
  - apply Forall_app. split; [done|]. apply Forall_replicate. unfold is_byte. lia.
  - by apply sits_list; [apply sits_nil; lia|].
  - rewrite Z.sub_0_r. apply sits_list; [|done]. by eexists [], _.
Qed.

Lemma demo_pin_ok : pin_ok demo_pin.
Proof. split; [reflexivity|]. apply all_bytes_ok. vm_compute. reflexivity. Qed.

Lemma demo_cert_ok t : server_cert_ok (demo_server t).
Proof. split; [vm_compute; lia|split; [discriminate|vm_compute; reflexivity]|vm_compute; reflexivity|vm_compute; reflexivity|split; reflexivity]. Qed.

Lemma demo_signs : server_signs (bc := toy_bcrypt) (demo_server []) [].
Proof. split; [split; reflexivity|split; vm_compute; discriminate|vm_compute; reflexivity]. Qed.

Lemma honest_flight_accepted_witness :
  exists c' w', TlsHandshakeProcessFlightMessages all_succeed (bc := toy_bcrypt) demo_pin (demo_context (demo_peer false) (demo_flight ++ [])) idle_world = Some (Ok (c', true), w') /\
    transcript_is c' ([] ++ demo_flight) /\ unprocessed c' 0 [].
Proof.
  assert (Hb : bytes_ok (demo_flight ++ [])) by (apply all_bytes_ok; vm_compute; reflexivity).
  destruct (demo_context_ok (demo_peer false) (demo_flight ++ []) Hb ltac:(vm_compute; discriminate)) as (H1 & H2 & H3).
  apply (honest_flight_accepted all_succeed (bc := toy_bcrypt) (demo_server []) demo_pin (demo_context (demo_peer false) (demo_flight ++ [])) [] [] idle_world);
    [intros n; reflexivity|apply idle_wf|apply demo_pin_ok|vm_compute; reflexivity|exact H1|vm_compute; repeat split|exact H2|apply demo_cert_ok|apply demo_signs|exact H3|vm_compute; discriminate].
Defined.

Lemma flight_verdict_exact_witness :
  exists r w', TlsHandshakeProcessFlightMessages third_fails (bc := toy_bcrypt) demo_pin (demo_context (demo_peer false) demo_flight) idle_world = Some (r, w') /\ tw_open w' = tw_open idle_world /\
    agrees_with third_fails (accept_flight (bc := toy_bcrypt) (S (length (hs_Flight (demo_context (demo_peer false) demo_flight)))) (pin_of demo_pin) (zeros 32) [] NeedExtensions demo_flight) r.
Proof.
  assert (Hb : bytes_ok demo_flight) by (apply all_bytes_ok; vm_compute; reflexivity).
  destruct (demo_context_ok (demo_peer false) demo_flight Hb ltac:(vm_compute; discriminate)) as (H1 & H2 & H3).
  apply (flight_verdict_exact third_fails (bc := toy_bcrypt) demo_pin (demo_context (demo_peer false) demo_flight) [] NeedExtensions demo_flight idle_world);
    [apply idle_wf|apply demo_pin_ok|exact H1|vm_compute; repeat split|exact H2|exact H3].
Defined.

Lemma wrong_pin_is_trust_failure_witness :
  exists w', TlsHandshakeProcessFlightMessages all_succeed (bc := toy_bcrypt) (mkPin (zeros 32) true) (demo_context (demo_peer true) (sv_cert (demo_server []) ++ [])) idle_world =
    Some (Err STATUS_TRUST_FAILURE, w').
Proof.
  assert (Hb : bytes_ok (sv_cert (demo_server []) ++ [])) by (apply all_bytes_ok; vm_compute; reflexivity).
  destruct (demo_context_ok (demo_peer true) (sv_cert (demo_server []) ++ []) Hb ltac:(vm_compute; discriminate)) as (H1 & H2 & H3).
  apply (wrong_pin_is_trust_failure all_succeed (bc := toy_bcrypt) (demo_server []) (mkPin (zeros 32) true) (demo_context (demo_peer true) (sv_cert (demo_server []) ++ [])) [] [] idle_world);
    [intros n; reflexivity|apply idle_wf|split; [reflexivity|apply all_bytes_ok; vm_compute; reflexivity]|vm_compute; discriminate|exact H1|vm_compute; repeat split|exact H2|apply demo_cert_ok|exact H3|vm_compute; discriminate].
Defined.
