(* ===== verification/TlsHandshakeHandlers.v ===== *)
(** * Every handler of the handshake keeps its invariant

    One lemma per handler of TlsHandshake.v: from a state of the invariant,
    whatever the kernel, BCrypt and the server answer, the handler is defined
    and the state it leaves is one of the invariant's. *)

From Stdlib Require Import Ascii String.
From S2P Require Import Prelude Buffers ListingIndex ClientText TlsCrypto TlsCryptoHandles TlsCryptoTheorems TlsCodec TlsClientHello TlsParse TlsRoundTrip TlsDer TlsRecords ClientRequest ClientRequestSystem ClientRequestHandlers TlsHandshake TlsHandshakeSpec TlsHandshakeChains TlsHandshakeSystem.
#[local] Open Scope Z_scope.
#[local] Open Scope list_scope.
#[local] Open Scope tls_scope.

Section Handlers.
Context (oracle : nat -> NTSTATUS) {bc : Bcrypt} `{HttpEnvironment}.
Context (id : Z) (pin0 : TLS_PIN_STATE) (w0 : TLS_WORLD) (Hw0 : handles_wf w0) (rng : Z) (random : BYTES) (host : option BYTES).

Abbreviation underway := (underway id pin0 w0).
Abbreviation story := (story pin0 rng random host).
Abbreviation context_ok := (context_ok rng).
Abbreviation authenticated := (authenticated pin0 rng random host).
Abbreviation good := (hs_good id pin0 w0 rng random host).
Implicit Types (c : TLS_HANDSHAKE_CONTEXT) (s : HS_SOCKET) (w : TLS_WORLD) (tr fx : list HS_EFFECT).

(** ** The trace *)

Lemma completions_app tr fx : completions (tr ++ fx) = completions tr ++ completions fx.
Proof. apply bind_app. Qed.
Lemma opened_bytes_app tr fx : opened_bytes (tr ++ fx) = opened_bytes tr ++ opened_bytes fx.
Proof. apply bind_app. Qed.
Lemma opened_seqs_app tr fx : opened_seqs (tr ++ fx) = opened_seqs tr ++ opened_seqs fx.
Proof. apply bind_app. Qed.

Lemma contexts_app tr fx : contexts_out (tr ++ fx) = contexts_out tr + contexts_out fx.
Proof. apply total_app. Qed.
Lemma work_items_app tr fx : work_items_out (tr ++ fx) = work_items_out tr + work_items_out fx.
Proof. apply total_app. Qed.

Lemma pins_more tr fx p : pins_of pin0 tr p -> pins_of pin0 (tr ++ fx) p.
Proof. destruct p as [v|]; [|done]. intros [?|?]; [by left|]. right. apply elem_of_app. by left. Qed.

Lemma accepts_more tr fx traffic t0 msgs ph : accepts (pins_of pin0 tr) traffic t0 msgs ph -> accepts (pins_of pin0 (tr ++ fx)) traffic t0 msgs ph.
Proof. induction 1; [constructor|]. econstructor; eauto using pins_more. Qed.

Lemma hello_more tr fx : hello_sent rng random host tr -> hello_sent rng random host (tr ++ fx).
Proof. intros Hs. apply elem_of_app. by left. Qed.

(** Effects that open no record leave the story as it is. *)
Definition quiet fx : Prop := opened_bytes fx = [] /\ opened_seqs fx = [] .

Lemma story_quiet c tr fx : quiet fx -> story c tr -> story c (tr ++ fx).
Proof.
  intros [Q1 Q2] [(n & Hn & Hseq) [Hh Hst]]. split; [|split; [by apply hello_more|]].
  { exists n. by rewrite opened_seqs_app, Q2, app_nil_r. }
  destruct (hs_Stage c).
  - by rewrite opened_bytes_app, Q1, app_nil_r.
  - destruct Hst as (sh & server & msgs & ph & rest & Hg & [Ha Ho] & Ht & Hp & Hu). exists sh, server, msgs, ph, rest. split_and!; try done.
    split; [by apply accepts_more|]. by rewrite opened_bytes_app, Q1, app_nil_r.
Qed.

Lemma authenticated_quiet t tr fx : opened_bytes fx = [] -> authenticated t tr -> authenticated t (tr ++ fx).
Proof.
  intros Q (Hh & sh & server & k & msgs & rest & Hg & [Ha Ho] & Hk). split; [by apply hello_more|]. exists sh, server, k, msgs, rest. split_and!; try done.
  split; [by apply accepts_more|]. by rewrite opened_bytes_app, Q, app_nil_r.
Qed.

(** Nor do such effects touch what is owned. *)
Definition neutral fx : Prop := completions fx = [] /\ contexts_out fx = 0 /\ work_items_out fx = 0.

Lemma underway_more s pin irql w tr fx : neutral fx -> underway s pin irql w tr -> underway s pin irql w (tr ++ fx).
Proof.
  intros (N1 & N2 & N3) [U1 U2 U3 U4 U5 UK U6 (U7 & U8 & U9)]. split; try done; [by apply pins_more|].
  by rewrite completions_app, U7, N1, contexts_app, U8, N2, work_items_app, U9, N3.
Qed.

Lemma underway_wf s pin irql w tr : underway s pin irql w tr -> handles_wf w.
Proof using Hw0. intros U. eapply holds_wf; [done|apply (uw_handles _ _ _ _ _ _ _ _ U)]. Qed.

Lemma underway_world s pin irql w w' tr : underway s pin irql w tr -> holds w [] w' -> underway s pin irql w' tr.
Proof.
  intros [U1 U2 U3 U4 U5 [K1 K2] U6 U7] Hw. split; try done; [by eapply holds_compose|]. destruct Hw as [_ _ _ _ _ K], U5 as [_ _ _ F _ _].
  assert (Hf : forall h, h <> 0 -> h ∈ hnd (WriteKeyHandle (hk_Tls s)) ++ hnd (ReadKeyHandle (hk_Tls s)) -> tw_keys w' !! h = tw_keys w !! h) by (intros h _ Hh; apply K; by apply F).
  unfold hnd in Hf. split; intros Hn; (rewrite Hf; [by first [apply K1|apply K2]|done|]); rewrite elem_of_app; [left|right]; rewrite (proj2 (Z.eqb_neq _ _) Hn); left.
Qed.

(** ** Rules for handlers *)

Lemma good_after pin irql tr fx m w : wp m w (good pin irql (tr ++ fx)) -> wp (after fx m) w (good pin irql tr).
Proof.
  intros Hm. unfold after. apply wp_then. eapply wp_mono; [exact Hm|]. intros [[[c s] fx'] n] w' Hg. apply wp_return. cbn in *. by rewrite app_assoc.
Qed.

Lemma socket_state s st : hs_socket_ok id s -> hs_socket_ok id (hs_set_state s st).
Proof. intros [[O1 O2 O3] Hid Hv]. split; [by split|done|done]. Qed.

Lemma hs_fail_good c s st pin irql w tr :
  NT_SUCCESS st = false -> underway s pin irql w tr -> wp (TlsHandshakeFail c s st) w (good pin irql tr).
Proof.
  intros Hst [U1 U2 U3 U4 U5 UK U6 (U7 & U8 & U9)]. apply wp_return. split; cbn -[completions contexts_out work_items_out].
  - exists st. rewrite completions_app, U7. split; [done|]. by rewrite Hst.
  - by rewrite contexts_app, U8.
  - by rewrite work_items_app, U9.
  - done.
  - by apply socket_state.
  - done.
  - done.
Qed.

(** A chain, and what is done with its result. *)
Lemma chain_good {A} (m : E A) (Q : A -> Prop) R k c s pin irql w tr :
  ewp oracle m Q R -> underway s pin irql w tr ->
  (forall x w', Q x -> underway s pin irql w' tr -> wp (k x) w' (good pin irql tr)) ->
  wp (r <- m ;; or_fail c s r k) w (good pin irql tr).
Proof using Hw0.
  intros Hm Hu Hk. eapply wp_bind; [by eapply Hm, underway_wf|]. intros [x|st] w' [Hh Hr]; cbv beta iota; pose proof (underway_world _ _ _ _ _ _ Hu Hh) as Hu'.
  - by apply Hk.
  - apply hs_fail_good; [by destruct Hr|done].
Qed.

Lemma next_good c s n pin irql w tr :
  n <> HsDone -> underway s pin irql w tr -> hs_place pin0 rng random host c s n tr -> wp (mreturn (c, s, [], n)) w (good pin irql tr).
Proof. intros Hn Hu Hp. apply wp_return. cbn. rewrite app_nil_r. unfold hs_ok. cbn. by destruct n. Qed.

(** ** The handlers *)

Definition calm c s pin irql w tr : Prop := underway s pin irql w tr /\ keyless s /\ context_ok c /\ story c tr.

Lemma hello_sent_good c s st pin irql w tr : calm c s pin irql w tr -> wp (TlsHandshakeOnSendClientHello c s st) w (good pin irql tr).
Proof.
  intros (Hu & Hk & Hc & Hs). unfold TlsHandshakeOnSendClientHello. destruct (NT_SUCCESS st) eqn:E; cbn [negb]; [by apply next_good|by apply hs_fail_good].
Qed.

Lemma finished_sent_good c s st pin irql w tr :
  underway s pin irql w tr -> authenticated (hk_Tls s) tr -> wp (TlsHandshakeOnSendClientFinished c s st) w (good pin irql tr).
Proof.
  intros Hu Ha. unfold TlsHandshakeOnSendClientFinished. destruct (NT_SUCCESS st) eqn:E; cbn [negb]; [|by apply hs_fail_good].
  destruct Hu as [U1 U2 U3 U4 U5 UK U6 (U7 & U8 & U9)]. apply wp_return. split; cbn -[completions contexts_out work_items_out].
  - exists STATUS_SUCCESS. rewrite completions_app, U7. split; [done|]. cbn. split; [done|]. apply authenticated_quiet; done.
  - by rewrite contexts_app, U8.
  - by rewrite work_items_app, U9.
  - done.
  - by apply socket_state.
  - done.
  - done.
Qed.

(** A socket swapped for another view of the same connection. *)
Lemma underway_ksocket s k pin irql w tr :
  underway s pin irql w tr -> socket_ok k -> sk_Id k = sk_Id (hk_Socket s) -> k = tls_view k (hk_Tls s) -> underway (with_ksocket s k) pin irql w tr.
Proof. intros [U1 U2 U3 [V1 V2 V3] U5 UK U6 U7] Hk Hi Hv. split; try done. split; [done|cbn; congruence|done]. Qed.

Lemma view_recv k t b n o : k = tls_view k t -> with_Recv k b n o = tls_view (with_Recv k b n o) t.
Proof. intros E. rewrite E. done. Qed.

Lemma view_ensure k t a st k' : k = tls_view k t -> BlorgEnsureTlsRecvBuffer k a = (st, k') -> k' = tls_view k' t.
Proof.
  intros E. unfold BlorgEnsureTlsRecvBuffer. destruct (TlsRecvBuffer k); [by intros [= <- <-]|]. destruct (a_Memory a); intros [= <- <-]; [|done].
  by rewrite E.
Qed.

Lemma view_room k t b k' : k = tls_view k t -> recv_make_room k b = Some k' -> k' = tls_view k' t.
Proof.
  intros E. unfold recv_make_room. destruct (_ =? _); [intros [= <-]; by apply view_recv|]. destruct (_ && _); [|by intros [= <-]].
  destruct (rd_list b _ _); [|done]. cbn [mbind option_bind]. destruct (wr_list b 0 _); [|done]. intros [= <-]. by apply view_recv.
Qed.

Lemma hs_receive_more_good c s b a pin irql w tr :
  answers_ok a -> calm c s pin irql w tr -> TlsRecvBuffer (hk_Socket s) = Some b -> TlsRecvLength (hk_Socket s) - TlsRecvOffset (hk_Socket s) < 16406 ->
  wp (hs_receive_more c s b a) w (good pin irql tr).
Proof.
  intros Ha (Hu & Hk & Hc & Hs) Hb Hpart. pose proof (uw_socket _ _ _ _ _ _ _ _ Hu) as [Ho Hid Hv]. pose proof capacity_value as [_ Hcap]. unfold hs_receive_more.
  destruct (recv_make_room_ok (hk_Socket s) b Ho Hb Hpart) as (k & b' & Ek & Ho' & Eid & Eb & Hroom & _). apply wp_then. eapply wp_lift; [exact Ek|].
  apply wp_then. eapply wp_lift; [exact Eb|]. pose proof (so_buffer _ Ho' b' Eb) as [Hlen _]. pose proof Ho' as [O1 O2 _].
  rewrite u32_id by lia. rewrite in_window_true by lia. cbn [negb].
  assert (Hu' : underway (with_ksocket s k) pin irql w tr) by (apply underway_ksocket; [done..|by eapply view_room]).
  destruct (a_Issue a =? STATUS_PENDING) eqn:Ei; cbn [negb].
  - apply next_good; [done|done|]. cbn. destruct Hk. split_and!; try done; try lia.
  - apply hs_fail_good; [by apply issue_failed|done].
Qed.

Lemma take_record_good c s b n pin irql w tr :
  calm c s pin irql w tr -> TlsRecvBuffer (hk_Socket s) = Some b -> 0 <= n <= 16401 ->
  5 + n <= TlsRecvLength (hk_Socket s) - TlsRecvOffset (hk_Socket s) -> wp (hs_take_record c s b n) w (good pin irql tr).
Proof.
  intros (Hu & Hk & Hc & Hs) Hb Hn Hin. pose proof (uw_socket _ _ _ _ _ _ _ _ Hu) as [Ho Hid Hv]. pose proof Ho as [O1 O2 _]. pose proof capacity_value as [_ Hcap].
  pose proof (so_buffer _ Ho b Hb) as [Hlen Hbytes]. pose proof Hc as [Hbuf [P1 P2 P3 P4] Hfin Hpr Hpu]. change TLS_RECORD_CIPHERTEXT_MAX with 16401 in *.
  unfold hs_take_record. destruct (rd_list b (TlsRecvOffset (hk_Socket s)) 5) as [hd|] eqn:Eh; [|by rewrite rd_list_in_range in Eh by lia].
  apply wp_then. eapply wp_lift; [done|].
  assert (Hp : exists p, (if n =? 0 then Some (hs_RecordPayload c) else bytes ← rd_list b (TlsRecvOffset (hk_Socket s) + 5) n; wr_list (hs_RecordPayload c) 0 bytes) = Some p /\
    Z.of_nat (length p) = 16401 /\ bytes_ok p).
  { destruct (Z.eqb_spec n 0); [by eexists|]. destruct (rd_list b (TlsRecvOffset (hk_Socket s) + 5) n) as [x|] eqn:Ex; [|by rewrite rd_list_in_range in Ex by lia].
    pose proof (length_rd_list _ _ _ _ Ex). cbn [mbind option_bind]. destruct (wr_list_in_range (hs_RecordPayload c) 0 x) as (p & Ew & Hl); [lia..|].
    exists p. split_and!; [done|lia|]. eapply bytes_wr; [exact P2| |exact Ew]. exact (bytes_rd_list _ _ _ _ Hbytes Ex). }
  destruct Hp as (p & Ep & Hpl & Hpb). apply wp_then. eapply wp_lift; [exact Ep|]. rewrite u32_id by lia.
  apply next_good; [done| |].
  - apply underway_ksocket; [done| |done|by apply view_recv]. apply recv_ok; try done; lia.
  - cbn. split_and!; [by destruct Hk..| |exact Hs]. split; try done. split; try done. cbn. by rewrite (length_rd_list _ _ _ _ Eh).
Qed.

Lemma hs_issue_good c s a pin irql w tr :
  answers_ok a -> calm c s pin irql w tr -> wp (TlsHandshakeIssueReceiveRecordHeader c s a) w (good pin irql tr).
Proof.
  intros Ha (Hu & Hk & Hc & Hs). unfold TlsHandshakeIssueReceiveRecordHeader. destruct (a_Stack a); cbn [negb]; [|by apply hs_fail_good].
  pose proof (uw_socket _ _ _ _ _ _ _ _ Hu) as [Ho Hid Hv].
  destruct (BlorgEnsureTlsRecvBuffer (hk_Socket s) a) as [st k] eqn:Ek. destruct (ensure_recv_ok _ _ _ _ Ha Ho Ek) as (Ho' & Eid & Hbuf & El & Eo).
  assert (Hu' : underway (with_ksocket s k) pin irql w tr) by (apply underway_ksocket; [done..|by eapply view_ensure]).
  destruct (NT_SUCCESS st) eqn:Est; cbn [negb]; [|by apply hs_fail_good]. destruct (Hbuf eq_refl) as [b Eb]. apply wp_then. eapply wp_lift; [exact Eb|].
  assert (Hcalm : calm c (with_ksocket s k) pin irql w tr) by (by split_and!).
  pose proof (so_buffer _ Ho' b Eb) as [Hlen Hbytes]. pose proof Ho' as [O1 O2 _]. pose proof capacity_value as [_ Hcap]. rewrite u32_id by lia.
  destruct (Z.ltb_spec (TlsRecvLength k - TlsRecvOffset k) 5); [apply hs_receive_more_good; try done; cbn; lia|].
  destruct (rd_byte b (TlsRecvOffset k + 3) Hbytes ltac:(lia)) as (b3 & E3 & H3), (rd_byte b (TlsRecvOffset k + 4) Hbytes ltac:(lia)) as (b4 & E4 & H4). unfold is_byte in *.
  apply wp_then. eapply wp_lift; [exact E3|]. apply wp_then. eapply wp_lift; [exact E4|]. rewrite lor_shiftl by (cbn; lia). change (2 ^ 8) with 256.
  change TLS_RECORD_CIPHERTEXT_MAX with 16401. destruct (Z.ltb_spec 16401 (b3 * 256 + b4)); [by apply hs_fail_good|].
  destruct (Z.ltb_spec (TlsRecvLength k - TlsRecvOffset k) (5 + (b3 * 256 + b4))); [apply hs_receive_more_good; try done; cbn; lia|].
  apply take_record_good; try done; cbn; lia.
Qed.

Lemma bulk_good c s offset len st data pin irql w tr :
  underway s pin irql w tr -> hs_place pin0 rng random host c s (HsAwaitBulk offset len) tr -> Z.of_nat (length data) <= len -> bytes_ok data ->
  wp (s <- lift (hs_land s offset data) ;; TlsHandshakeOnBulkReceive c s st (Z.of_nat (length data))) w (good pin irql tr).
Proof.
  intros Hu (Hk & Hc & Hs & [b Hb] & Hl & -> & Hend) Hd Hbd. pose proof (uw_socket _ _ _ _ _ _ _ _ Hu) as [Ho Hid Hv].
  pose proof (so_buffer _ Ho b Hb) as [Hlen Hbytes]. pose proof Ho as [O1 O2 _]. pose proof capacity_value as [_ Hcap].
  destruct (wr_list_in_range b (TlsRecvLength (hk_Socket s)) data) as (b' & Ew & Hlb); [lia..|].
  assert (Hb' : bytes_ok b') by (by eapply bytes_wr; [exact Hbytes| |exact Ew]).
  apply wp_then. eapply wp_lift; [unfold hs_land; rewrite Hb; cbn [mbind option_bind]; rewrite Ew; reflexivity|].
  set (s' := with_ksocket s _). assert (Hu' : underway s' pin irql w tr) by (apply underway_ksocket; [done| |done|by apply view_recv]; apply recv_ok; try done; lia).
  unfold TlsHandshakeOnBulkReceive. destruct (NT_SUCCESS st) eqn:Est; cbn [negb]; [|by apply hs_fail_good].
  destruct (Z.eqb_spec (Z.of_nat (length data)) 0); [by apply hs_fail_good|]. apply wp_then. eapply wp_lift; [reflexivity|]. cbn [hk_Socket s' with_ksocket].
  rewrite (u32_id (Z.of_nat _)) by lia. cbn [TlsRecvLength TlsRecvOffset with_Recv]. rewrite u32_id by lia.
  apply next_good; [done| |by split_and!]. apply underway_ksocket; [done| |done|].
  - apply recv_ok; try done; [|lia..]. apply recv_ok; try done; lia.
  - by apply view_recv, view_recv.
Qed.

(** ** Keys *)

Lemma length_rfc5869 prk info L : 0 <= L -> length (rfc5869_expand prk info L) = Z.to_nat L.
Proof.
  intros HL. unfold rfc5869_expand. rewrite length_take, length_okm.
  pose proof (Z.div_mod (L + 31) 32 ltac:(lia)). pose proof (Z.mod_pos_bound (L + 31) 32 ltac:(lia)). lia.
Qed.

Lemma holds_perm hs hs' w : hs ≡ₚ hs' -> holds w0 hs w -> holds w0 hs' w.
Proof.
  intros Hp [G O D F N K]. split; try done.
  - rewrite O. f_equal. apply leibniz_equiv. by rewrite Hp.
  - by rewrite <- Hp.
  - intros x. rewrite <- Hp. apply F.
Qed.

Lemma import_spec key hs w :
  holds w0 hs w -> wp (BlorgTlsImportKeyHandle oracle key) w (fun '(st, h) w' =>
    holds w0 (hnd h ++ hs) w' /\ (NT_SUCCESS st = true <-> h <> 0) /\ (h <> 0 -> tw_keys w' !! h = Some key) /\ forall x, x < tw_next w -> tw_keys w' !! x = tw_keys w !! x).
Proof using Hw0.
  intros Hw. unfold BlorgTlsImportKeyHandle, bimport. apply wp_then. cbn. destruct (_ =? 0); [by split|].
  destruct Hw as [G O D F N K]. destruct Hw0 as [Hn Hlt]. unfold wp, mthen, bcreate. destruct (NT_SUCCESS (oracle (tw_calls w))) eqn:E; cbn [fst snd]; rewrite E.
  - unfold mreturn. split_and!; cbn.
    + unfold hnd. destruct (Z.eqb_spec (tw_next w) 0); [lia|]. split; cbn; try done; [rewrite O; set_solver| | |lia|].
      * apply NoDup_cons. split; [|done]. intros H'%F. lia.
      * intros h [->|H'%F]%elem_of_cons; lia.
      * intros h Hh. rewrite lookup_insert_ne by lia. by apply K.
    + by split; [lia|].
    + intros _. by rewrite lookup_insert_eq.
    + intros x Hx. by rewrite lookup_insert_ne by lia.
  - cbn. split_and!; [by split|split; [congruence|done]|done|done].
Qed.

(** The keys and the handles made from them. *)
Definition installed (k : APP_KEYS) s w : Prop :=
  WriteKey (hk_Tls s) = app_ClientKey k /\ WriteIv (hk_Tls s) = app_ClientIv k /\ ReadKey (hk_Tls s) = app_ServerKey k /\ ReadIv (hk_Tls s) = app_ServerIv k /\
  WriteSeq (hk_Tls s) = 0 /\ ReadSeq (hk_Tls s) = 0 /\ WriteKeyHandle (hk_Tls s) <> 0 /\ ReadKeyHandle (hk_Tls s) <> 0 /\
  tw_keys w !! WriteKeyHandle (hk_Tls s) = Some (app_ClientKey k) /\ tw_keys w !! ReadKeyHandle (hk_Tls s) = Some (app_ServerKey k).

Lemma null_unless (st : NTSTATUS) h : (NT_SUCCESS st = true <-> h <> 0) -> (if NT_SUCCESS st then h else 0) = h.
Proof. intros [H1 H2]. destruct (NT_SUCCESS st); [done|]. destruct (Z.eq_dec h 0) as [->|Hn]; [done|]. by specialize (H2 Hn). Qed.

Lemma install_spec s k pin irql w tr :
  underway s pin irql w tr -> keyless s ->
  wp (hs_install oracle s k) w (fun '(st, s') w' => underway s' pin irql w' tr /\ (NT_SUCCESS st = true -> installed k s' w')).
Proof using Hw0.
  intros [U1 U2 U3 [[O1 O2 O3] V2 V3] U5 UK U6 U7] [K1 K2]. rewrite K1, K2 in U5. unfold hs_install. rewrite K1, K2.
  eapply wp_bind; [by apply import_spec|]. intros [st h] w1 (H1 & E1 & Hk1 & _). cbn [hnd app] in H1. rewrite (null_unless _ _ E1).
  destruct (NT_SUCCESS st) eqn:Est.
  - apply proj1 in E1. specialize (E1 eq_refl). eapply wp_bind; [by apply import_spec|]. intros [st2 h2] w2 (H2 & E2 & Hk2 & Hf). apply wp_return. rewrite (null_unless _ _ E2).
    assert (Hkw : tw_keys w2 !! h = Some (app_ClientKey k)).
    { rewrite Hf; [by apply Hk1|]. destruct H1 as [_ _ _ F _ _]. apply F. unfold hnd. rewrite (proj2 (Z.eqb_neq _ _) E1). left. }
    split; [|intros Hst2%E2; split_and!; cbn; auto]. split; cbn; try done.
    + eapply holds_perm; [|exact H2]. rewrite app_nil_r. apply Permutation_app_comm.
  - apply wp_return. rewrite Est. assert (h = 0) as -> by (destruct (Z.eq_dec h 0) as [|Hn]; [done|by apply E1 in Hn]). split; [|done]. split; cbn; done.
Qed.

(** The server's Finished is accepted: all that is left is the client's. *)
Definition accepted_story c tr : Prop :=
  hello_sent rng random host tr /\ exists sh server msgs rest, greeted rng random host sh server (hs_Schedule c) /\ flight_is pin0 rng random host tr sh (hs_Schedule c) msgs Accepted rest /\
    transcript_is c ((own_hello rng random host ++ sh) ++ concat msgs).

Lemma send_finished_good c s a pin irql w tr :
  answers_ok a -> underway s pin irql w tr -> keyless s -> context_ok c -> accepted_story c tr ->
  wp (TlsHandshakeSendClientFinished oracle c s a) w (good pin irql tr).
Proof using Hw0.
  intros Ha Hu Hk Hc (Hh & sh & server & msgs & rest & Hg & Hf & Ht). pose proof Hg as (_ & _ & _ & Esch). unfold TlsHandshakeSendClientFinished.
  eapply (chain_good _ _ (fun _ => True)); [by eapply app_keys_spec|done|]. intros k w1 <- Hu1.
  eapply wp_bind; [by apply install_spec|]. intros [st s1] w2 [Hu2 Hin]. destruct (NT_SUCCESS st) eqn:Est; cbn [negb]; [|by apply hs_fail_good].
  eapply (chain_good _ _ (fun _ => True)); [apply seal_finished_spec|done|].
  - apply Hc.
  - apply hmac_length.
  - rewrite Esch. by apply (length_rfc5869 _ _ 12).
  - intros c' w3 (r & -> & Hr) Hu3. cbn [hs_ClientFinishedRecord hs_with_finished].
    destruct (rd_list r 0 (5 + (4 + TLS_HASH_LEN + 1) + TLS_TAG_LEN)) as [bytes|] eqn:Er.
    2: { change (5 + (4 + TLS_HASH_LEN + 1) + TLS_TAG_LEN) with 58 in Er. rewrite rd_list_in_range in Er by lia. done. }
    apply wp_then. eapply wp_lift; [done|].
    destruct (a_Issue a =? STATUS_PENDING) eqn:Ei; cbn [negb]; [|apply hs_fail_good; [by apply issue_failed|done]].
    apply wp_return. split; [by apply underway_more|]. cbn. apply authenticated_quiet; [done|].
    split; [done|]. exists sh, server, (hs_Schedule c), msgs, rest. split_and!; try done; by destruct (Hin eq_refl) as (? & ? & ? & ? & ? & ? & ? & ? & _).
Qed.

(** ** Records *)

Lemma server_hello_good c s pin irql w tr :
  calm c s pin irql w tr -> hs_Stage c = TlsHsWaitingForServerHello -> wp (TlsHandshakeOnReceiveServerHello oracle c s) w (good pin irql tr).
Proof using Hw0.
  intros (Hu & Hk & Hc & [Hseq [Hh Hs]]) Est. rewrite Est in Hs. destruct Hs as (Ht & Hp & Hun & Ho). pose proof Hc as [Hbuf Hrec Hfin Hpr Hpu].
  unfold TlsHandshakeOnReceiveServerHello. eapply chain_good; [by apply (server_hello_spec oracle c (own_hello rng random host))|done|].
  intros c' w' (sh & sr & server & t' & n & Hm & Hty & Hparse & -> & Ht' & Hlen) Hu'. apply next_good; [done|done|]. destruct Hbuf as (B1 & B2 & B3).
  split; [done|]. split; [split; try done; by destruct Hrec|]. split; [exact Hseq|]. split; [done|].
  - cbn. exists sh, server, [], NeedExtensions, []. rewrite Hpr, Hpu in *. unfold greeted, flight_is. split_and!; try done.
    + by exists sr.
    + constructor.
    + cbn [concat]. by rewrite app_nil_r.
Qed.

Lemma seqs_next c tr f n content : seqs_ok c tr -> seqs_ok (hs_with_flight c (u64 (hs_ServerSeq c + 1)) f n) (tr ++ [HsOpened (hs_ServerSeq c) content]).
Proof.
  intros (k & Hk & Hs). exists (S k). rewrite opened_seqs_app, Hk, seq_S, fmap_app. cbn. rewrite Hs. split; [done|].
  unfold u64. rewrite Zplus_mod_idemp_l. f_equal. lia.
Qed.

Lemma flight_record_good c s a pin irql w tr :
  answers_ok a -> calm c s pin irql w tr -> hs_Stage c = TlsHsWaitingForFlightRecord -> wp (hs_flight_record oracle pin c s a) w (good pin irql tr).
Proof using Hw0.
  intros Ha (Hu & Hk & Hc & [Hseq [Hh Hs]]) Est. rewrite Est in Hs. destruct Hs as (sh & server & msgs & ph & rest & Hg & [Hacc Ho] & Ht & Hp & Hun).
  pose proof Hc as [Hbuf Hrec Hfin Hpr Hpu]. pose proof Hg as (_ & _ & _ & Esch). unfold hs_flight_record.
  eapply chain_good; [apply (open_record_spec oracle c rest); try done; rewrite Esch; by apply (length_rfc5869 _ _ 12)|done|].
  intros [c1 content] w1 (f & E1 & Hbuf1 & Hun1 & Hbc & _) Hu1. cbn [fst snd] in *. apply good_after. set (tr1 := tr ++ [HsOpened (hs_ServerSeq c) content]).
  assert (Hu1' : underway s pin irql w1 tr1) by (by apply underway_more).
  assert (Hseq1 : seqs_ok c1 tr1) by (subst c1; by apply seqs_next).
  assert (Ho1 : opened_bytes tr1 = concat msgs ++ rest ++ content).
  { unfold tr1. rewrite opened_bytes_app, Ho. cbn. by rewrite app_nil_r, app_assoc. }
  assert (Hpins : pins_of pin0 tr1 (pin_of pin)) by apply (uw_pins _ _ _ _ _ _ _ _ Hu1').
  assert (Hacc1 : accepts (pins_of pin0 tr1) (ServerHsTraffic (hs_Schedule c)) (own_hello rng random host ++ sh) msgs ph) by (by apply accepts_more).
  eapply chain_good; [apply (process_spec oracle pin c1 ((own_hello rng random host ++ sh) ++ concat msgs) ph (rest ++ content))|done|].
  all: try (by subst c1).
  { apply (uw_pin _ _ _ _ _ _ _ _ Hu1). }
  intros [c2 done] w2 (t2 & ph2 & rest2 & Ea & [S0 S1 S2 S3 S4 S5 S6 S7 S8 S9] & Hbuf2 & Ht2 & Hp2 & Ed & Hun2) Hu2. cbn [fst snd] in *.
  assert (Hb1 : bytes_ok (rest ++ content)). { unfold unprocessed in Hun1. destruct Hbuf1 as (_ & _ & B). exact (bytes_rd_list _ _ _ _ B Hun1). }
  assert (Esch1 : hs_Schedule c1 = hs_Schedule c) by (by subst c1). rewrite Esch1 in *.
  destruct (accepts_flight _ _ _ _ _ _ _ _ _ _ _ Hpins Hb1 Hacc1 Ea) as (new & Hacc2 & -> & Erest).
  assert (Hc2 : context_ok c2).
  { destruct Hrec as [R1 R2 R3 R4]. subst c1. split; try done; [split|..]; by rewrite ?S6, ?S7, ?S8, ?S9, ?S3, ?S4. }
  assert (Ho2 : opened_bytes tr1 = concat (msgs ++ new) ++ rest2) by (rewrite Ho1, concat_app, <- app_assoc; by rewrite Erest).
  destruct done.
  - destruct ph2; try done. apply send_finished_good; try done. split; [by apply hello_more|]. exists sh, server, (msgs ++ new), rest2. rewrite S2. by split_and!.
  - assert (Hne : ph2 <> Accepted) by (by intros ->). apply next_good; [done|done|]. split; [done|]. split; [done|]. split; [|split; [by apply hello_more|]].
    + destruct Hseq1 as (n & ? & ?). exists n. split; [done|]. by rewrite S0.
    + rewrite S1. subst c1. cbn [hs_Stage hs_with_flight]. rewrite Est. exists sh, server, (msgs ++ new), ph2, rest2. rewrite S2. split_and!; auto. by split.
Qed.

Lemma hs_deliver_good c s st a pin irql w tr :
  answers_ok a -> calm c s pin irql w tr -> wp (TlsHandshakeOnReceiveRecordPayload oracle pin c s st irql a) w (good pin irql tr).
Proof using Hw0.
  intros Ha Hcalm. pose proof Hcalm as (Hu & Hk & Hc & Hs). unfold TlsHandshakeOnReceiveRecordPayload. destruct (PASSIVE_LEVEL <? irql).
  { apply next_good; [done|done|]. split; [done|]. split; [|exact Hs]. by destruct Hc as [? [? ? ? ?] ? ? ?]. }
  destruct (NT_SUCCESS st) eqn:Est; cbn [negb]; [|by apply hs_fail_good]. pose proof (co_record _ _ Hc) as [_ _ _ Hh].
  destruct (rd_in_range (hs_RecordHeader c) 0) as [ty Ety]; [lia|]. apply wp_then. eapply wp_lift; [done|].
  destruct (hs_Stage c) eqn:Estage.
  - destruct (22 =? ty); cbn [negb]; [by apply server_hello_good|by apply hs_fail_good].
  - destruct (21 =? ty); [by apply hs_fail_good|]. destruct (20 =? ty); [by apply next_good|].
    destruct (23 =? ty); cbn [negb]; [by apply flight_record_good|by apply hs_fail_good].
Qed.

Lemma underway_irql s pin irql irql' w tr : irql_ok irql' -> underway s pin irql w tr -> underway s pin irql' w tr.
Proof. intros Hi []. by split. Qed.

(** ** Every step *)

Lemma hs_event_good h irql m :
  hs_ok id pin0 w0 rng random host h -> hs_event oracle h irql m -> wp m (h_World h) (good (h_Pin h) irql (h_Trace h)).
Proof using Hw0.
  intros Hok He. assert (Hp : irql_ok PASSIVE_LEVEL) by (unfold irql_ok, PASSIVE_LEVEL, DISPATCH_LEVEL; lia).
  destruct He; destruct Hok as [Hu Hpl]; cbn [h_World h_Pin h_Trace h_Socket h_Irql h_Ctx] in *.
  - apply hs_issue_good; [done|]. by destruct Hpl as (? & ? & ?).
  - apply hs_deliver_good; [done|]. by destruct Hpl as (? & ? & ?).
  - apply hs_deliver_good; [done|]. destruct Hpl as (? & ? & ?). split_and!; try done. by eapply underway_irql.
  - apply hello_sent_good. destruct Hpl as (? & ? & ?). split_and!; try done. by eapply underway_irql.
  - eapply bulk_good; [by eapply underway_irql|done..].
  - apply finished_sent_good; [by eapply underway_irql|done].
Qed.

Lemma set_pin_value value pin st pin' :
  length value = 32%nat -> pin_ok pin -> BlorgTlsSetPin value pin = Some (st, pin') -> pin' = mkPin value true.
Proof.
  intros Hv [Hl _]. unfold BlorgTlsSetPin. change TLS_HASH_LEN with 32. rewrite rd_list_in_range by lia. cbn [mbind option_bind].
  rewrite drop_0, take_ge by lia. unfold wr_list. rewrite Hv, Hl. cbn. intros [= _ <-]. f_equal. rewrite drop_ge by lia. by rewrite app_nil_r.
Qed.

Lemma hs_place_quiet c s n tr v : hs_place pin0 rng random host c s n tr -> hs_place pin0 rng random host c s n (tr ++ [HsPinSet v]).
Proof.
  destruct n; cbn [hs_place]; try done; [..|intros (? & ? & ? & ?)| |by apply authenticated_quiet];
    try (intros (? & ? & ?)); split_and!; try done; try (by apply story_quiet); naive_solver.
Qed.

Lemma hs_step_ok h h' : hs_ok id pin0 w0 rng random host h -> hs_step oracle h h' -> hs_ok id pin0 w0 rng random host h'.
Proof using Hw0.
  intros Hok Hstep. destruct Hstep as [h irql m c s fx n w He Hm|h value st pin Hv Hbv Hset].
  - pose proof (hs_event_good _ _ _ Hok He) as Hg. unfold wp in Hg. rewrite Hm in Hg. exact Hg.
  - destruct h as [c s pinx n irql w tr]. unfold hs_ok in *. cbn in *. destruct (decide (n = HsDone)) as [->|Hn].
    + destruct Hok as [(st' & Hst & Hif) D2 D3 D4 D5 D6 D7]. split; try done.
      * exists st'. rewrite completions_app, Hst. split; [done|]. destruct (NT_SUCCESS st'); [|done]. destruct Hif. split; [done|]. by apply authenticated_quiet.
      * by rewrite contexts_app, D2.
      * by rewrite work_items_app, D3.
    + assert (Hok' : underway s pinx irql w tr /\ hs_place pin0 rng random host c s n tr) by (by destruct n).
      destruct Hok' as [Hu Hpl]. pose proof (set_pin_value _ _ _ _ Hv (uw_pin _ _ _ _ _ _ _ _ Hu) Hset) as ->.
      assert (Hgoal : underway s (mkPin value true) irql w (tr ++ [HsPinSet value]) /\ hs_place pin0 rng random host c s n (tr ++ [HsPinSet value])).
      { split; [|by apply hs_place_quiet]. pose proof (underway_more _ _ _ _ _ [HsPinSet value] ltac:(done) Hu) as [U1 U2 U3 U4 U5 UK U6 U7]. split; try done.
        right. apply elem_of_app. right. by left. }
      by destruct n.
Qed.

(** ** The start *)

Definition hello_built (r : TLS_HANDSHAKE_CONTEXT * Z) : Prop :=
  exists record, r.1 = hs_with_own zeroed_context (own_private rng) (own_public rng) record /\ length record = 305%nat /\
    sits record 5 (own_hello rng random host) /\ r.2 = Z.of_nat (length (own_hello rng random host)) /\ r.2 <= 300.

(** The hello is refused only for a host longer than the string's bound; any
    other one fits. *)
Lemma build_hello_spec :
  length random = 32%nat ->
  ewp oracle (hs_build_hello oracle zeroed_context rng random host) hello_built
    (fun st => st = STATUS_INVALID_PARAMETER /\ exists name, host = Some name /\ 136 <= Z.of_nat (length name)).
Proof.
  intros Hr. unfold hs_build_hello.
  eapply (ewp_then _ _ _ (eq (own_private rng, own_public rng))).
  { apply ewp_step. intros w Hw. eapply wp_mono; [by apply wp_generate, holds_nil|]. intros r w' (? & ? & ->). by split_and!. }
  intros ? <-. cbv beta iota. eapply (ewp_then _ _ _ (fun _ => True)); [by apply ewp_bcall|]. intros _ _. cbv beta.
  set (name := default [] host).
  eapply (ewp_then _ _ _ (fun _ => Z.of_nat (length name) < 136)).
  { apply ewp_result. unfold name. destruct host as [n|]; [|done]. unfold RtlStringCbLengthA. change BLORGFS_REMOTE_HOST_ANSI_MAX_BYTES with 136.
    destruct (Z.ltb_spec (Z.of_nat (length n)) 136); [done|]. split; [done|]. split; [done|]. by exists n. }
  intros _ Hname. cbv beta. assert (Hpub : length (own_public rng) = 65%nat) by (unfold own_public; rewrite !length_app, !length_take, length_drop, ecc_blob_length; done).
  pose proof (length_client_hello random (own_public rng) name Hr Hpub) as Hlen. fold name in Hlen.
  assert (Hfit : (length (client_hello random (own_public rng) name) <= 300)%nat) by (rewrite Hlen, length_sni; destruct name; cbn [length] in *; lia).
  eapply ewp_then; [apply (ewp_access _ _ (replicate 300 0)); reflexivity|]. intros ? <-. cbv beta.
  pose proof (client_hello_outcome random (own_public rng) name (replicate 300 0) Hr Hpub ltac:(lia) ltac:(rewrite length_replicate; lia)) as Hb. cbv zeta in Hb.
  rewrite length_replicate in Hb. destruct (Nat.leb_spec (length (client_hello random (own_public rng) name)) 300); [|lia].
  set (hello := client_hello random (own_public rng) name) in *. set (buf := hello ++ drop (length hello) (replicate 300 0)) in *.
  eapply (ewp_then _ _ _ (eq (Z.of_nat (length hello), buf))).
  { apply ewp_step. intros w _. apply wp_then. eapply wp_lift; [exact Hb|]. apply wp_return. split_and!; [apply holds_nil|apply follows_refl|done]. }
  intros ? <-. cbv beta iota. assert (Hbuf : length buf = 300%nat) by (unfold buf; rewrite length_app, length_drop, length_replicate; lia).
  destruct (wr_list_in_range (hs_ClientHelloRecord zeroed_context) 5 buf) as (record & Ew & Hl); [lia|rewrite Hbuf; change (length (hs_ClientHelloRecord zeroed_context)) with 305%nat; lia|]. chain. apply ewp_ok.
  exists record. cbn [fst snd]. split_and!; [done|by rewrite Hl|..|done|lia]. unfold own_hello. fold name. fold hello.
  destruct (sits_written _ _ _ _ Ew) as [Hs _]. unfold buf in Hs. by eapply sits_prefix.
Qed.

Lemma zeros_ok n : bytes_ok (zeros n).
Proof. apply Forall_replicate. unfold is_byte. lia. Qed.

(** The context the hello is sent from, whatever its record holds. *)
Lemma started_ok record t n : Z.of_nat (length t) = 8192 -> context_ok (hs_with_transcript (hs_with_own zeroed_context (own_private rng) (own_public rng) record) t n).
Proof.
  intros Ht. split; [|split|done..].
  - unfold buffers_ok. cbn [hs_Transcript hs_Flight hs_with_own hs_with_transcript zeroed_context]. split_and!; [done|by rewrite length_zeros|apply zeros_ok].
  - cbn [hs_RecordPayload hs_with_own hs_with_transcript zeroed_context]. by rewrite length_zeros.
  - apply zeros_ok.
  - done.
  - done.
Qed.

Lemma send_hello_good s a r pin irql w tr :
  answers_ok a -> underway s pin irql w tr -> keyless s -> opened_bytes tr = [] -> opened_seqs tr = [] -> hello_built r ->
  wp (hs_send_hello r.1 s r.2 a) w (good pin irql tr).
Proof.
  intros Ha Hu Hk Hob Hos (record & Ec & Hrec & Hsits & En & Hn). destruct r as [c n]. cbn [fst snd] in *. subst c. unfold hs_send_hello. rewrite En in *. clear En.
  set (hello := own_hello rng random host) in *. cbn [hs_ClientHelloRecord hs_with_own].
  assert (Hsplit : exists pre post, record = pre ++ hello ++ post /\ length pre = 5%nat) by (destruct Hsits as (pre & post & ? & ?); exists pre, post; split; [done|lia]).
  destruct Hsplit as (pre & post & -> & Hpre). set (header := [22; 3; 1; _; _]).
  assert (Ew : wr_list (pre ++ hello ++ post) 0 header = Some (header ++ hello ++ post)) by (apply (wr_list_hole [] pre (hello ++ post) 0 header); [done|by rewrite Hpre]).
  apply wp_then. eapply wp_lift; [exact Ew|].
  assert (Er : rd_list (header ++ hello ++ post) 5 (Z.of_nat (length hello)) = Some hello) by (apply sits_list; [by exists header, post|done]).
  apply wp_then. eapply wp_lift; [exact Er|]. cbn [hs_Transcript hs_with_own].
  destruct (wr_list_in_range (hs_Transcript zeroed_context) 0 hello) as (t & Et & Hlt); [lia|cbn [hs_Transcript zeroed_context]; rewrite length_zeros; change (Z.of_nat (Z.to_nat TLS_HS_TRANSCRIPT_MAX)) with 8192; lia|].
  apply wp_then. eapply wp_lift; [exact Et|].
  assert (Es : rd_list (header ++ hello ++ post) 0 (u32 (5 + Z.of_nat (length hello))) = Some (header ++ hello)).
  { rewrite u32_id by lia. apply sits_list; [|rewrite length_app; cbn; lia]. exists [], post. by rewrite <- app_assoc. }
  apply wp_then. eapply wp_lift; [exact Es|].
  destruct (a_Issue a =? STATUS_PENDING) eqn:Ei; cbn [negb]; [|apply hs_fail_good; [by apply issue_failed|done]].
  assert (Hlt' : Z.of_nat (length t) = 8192) by (rewrite Hlt; cbn [hs_Transcript zeroed_context]; by rewrite length_zeros).
  apply wp_return. split; [by apply underway_more|]. cbn [hs_place h_Ctx h_Socket h_Trace]. split; [done|]. split; [by apply started_ok|].
  split; [exists 0%nat; by rewrite opened_seqs_app, Hos|]. split.
  - unfold hello_sent. apply elem_of_app. right. apply list_elem_of_singleton. fold hello. unfold header.
    rewrite Z.shiftr_div_pow2 by lia. rewrite (u8_id (Z.of_nat (length hello) / 2 ^ 8)) by (change (2 ^ 8) with 256; split; [apply Z.div_pos; lia|apply Z.div_lt_upper_bound; lia]). change 255 with (Z.ones 8). rewrite Z.land_ones by lia.
    change (2 ^ 8) with 256. rewrite (u8_id (_ mod _)); [done|]. apply Z.mod_pos_bound. lia.
  - cbn [hs_Stage hs_with_transcript hs_with_own zeroed_context]. split_and!; try done; [|by rewrite opened_bytes_app, Hob].
    unfold transcript_is. cbn. apply sits_list; [|done]. by eapply sits_written.
Qed.

Lemma start_good s a pin irql :
  answers_ok a -> length random = 32%nat -> hs_socket_ok id s -> keyless s -> pin = pin0 -> pin_ok pin0 -> irql_ok irql ->
  wp (BlorgTlsStartHandshakeAsync oracle s rng random host a) w0 (good pin irql []).
Proof using Hw0.
  intros Ha Hr Hs [K1 K2] -> Hpin Hi. unfold BlorgTlsStartHandshakeAsync.
  assert (Hh : holds w0 (hnd (WriteKeyHandle (hk_Tls s)) ++ hnd (ReadKeyHandle (hk_Tls s))) w0) by (rewrite K1, K2; apply holds_nil).
  destruct (a_Memory a); cbn [negb]; [|apply wp_return; split; try done; [by exists STATUS_INSUFFICIENT_RESOURCES|by apply socket_state]].
  destruct (a_WorkItem a); cbn [negb]; [|apply wp_return; split; try done; [by exists STATUS_INSUFFICIENT_RESOURCES|by apply socket_state]].
  set (s' := hs_set_state s TlsHandshakeInProgress). set (tr := [HsAllocContext; HsAllocWorkItem]).
  assert (Hu : underway s' pin0 irql w0 tr).
  { split; try done; [|by apply socket_state]. unfold pins_of. destruct (pin_of pin0); [by left|done]. }
  eapply wp_bind; [by apply build_hello_spec|]. intros r w' [Hw' Hres]. pose proof (underway_world _ _ _ _ _ _ Hu Hw') as Hu'.
  apply good_after. change ([] ++ tr) with tr. destruct r as [[c n]|st]; cbn [or_fail].
  - by apply (send_hello_good s' a (c, n)).
  - apply hs_fail_good; [by destruct Hres|done].
Qed.
End Handlers.
