(* ===== verification/TlsHandshakeTheorems.v ===== *)
(** * What a handshake guarantees

    Runs of the handshake from its start, and the theorems about them: the
    server is authenticated when it succeeds, it ends once and gives
    everything back, no bytes the server sends take it outside its buffers,
    and an honest server's flight is accepted. *)

From Stdlib Require Import Ascii String.
From S2P Require Import Prelude Buffers ListingIndex ClientText TlsCrypto TlsCryptoHandles TlsCryptoTheorems TlsCodec TlsClientHello TlsParse TlsRoundTrip TlsDer TlsRecords ClientRequest ClientRequestSystem ClientRequestHandlers TlsHandshake TlsHandshakeSpec TlsHandshakeChains TlsHandshakeSystem TlsHandshakeServer TlsHandshakeHandlers.
#[local] Open Scope Z_scope.
#[local] Open Scope list_scope.
#[local] Open Scope tls_scope.

(** What a handshake is started with: the connection, the pin and the handles
    there are, and the choices of the generators and the configuration. *)
Record OPENING := mkOpening {
  o_Socket : HS_SOCKET;
  o_Pin : TLS_PIN_STATE;
  o_World : TLS_WORLD;
  o_Rng : Z;
  o_Random : BYTES;
  o_Host : option BYTES
}.

Section Runs.
Context (oracle : nat -> NTSTATUS) {bc : Bcrypt} `{HttpEnvironment}.
Implicit Types (o : OPENING) (h : HANDSHAKE).

(** A connection without keys, as one is before its first handshake. *)
Record opening_ok o : Prop := {
  oo_socket : hs_socket_ok (sk_Id (hk_Socket (o_Socket o))) (o_Socket o);
  oo_keyless : keyless (o_Socket o);
  oo_pin : pin_ok (o_Pin o);
  oo_world : handles_wf (o_World o);
  oo_random : length (o_Random o) = 32%nat
}.

Definition handshake_starts o h : Prop :=
  exists a irql c s fx n w, answers_ok a /\ irql_ok irql /\
    BlorgTlsStartHandshakeAsync oracle (o_Socket o) (o_Rng o) (o_Random o) (o_Host o) a (o_World o) = Some ((c, s, fx, n), w) /\
    h = mkHandshake c s (o_Pin o) n irql w fx.

Definition handshake_run o h : Prop := exists h0, handshake_starts o h0 /\ rtc (hs_step oracle) h0 h.

Abbreviation invariant o := (hs_ok (sk_Id (hk_Socket (o_Socket o))) (o_Pin o) (o_World o) (o_Rng o) (o_Random o) (o_Host o)).

Lemma run_ok o h : opening_ok o -> handshake_run o h -> invariant o h.
Proof.
  intros [O1 O2 O3 O4 O5] (h0 & (a & irql & c & s & fx & n & w & Ha & Hi & Hrun & ->) & Hsteps).
  assert (H0 : invariant o (mkHandshake c s (o_Pin o) n irql w fx)).
  { pose proof (start_good oracle _ (o_Pin o) (o_World o) O4 (o_Rng o) (o_Random o) (o_Host o) (o_Socket o) a (o_Pin o) irql Ha O5 O1 O2 eq_refl O3 Hi) as Hg.
    unfold wp in Hg. rewrite Hrun in Hg. exact Hg. }
  clear Hrun. remember (mkHandshake c s (o_Pin o) n irql w fx) as h1 eqn:E1. clear E1. induction Hsteps as [|h1 h2 h3 Hs _ IH]; [done|]. apply IH. by eapply hs_step_ok.
Qed.

Lemma done_settled o h : invariant o h -> h_Next h = HsDone ->
  settled (sk_Id (hk_Socket (o_Socket o))) (o_Pin o) (o_World o) (o_Rng o) (o_Random o) (o_Host o) (h_Ctx h) (h_Socket h) (h_World h) (h_Trace h).
Proof. unfold hs_ok. intros Hok E. by rewrite E in Hok. Qed.

Lemma not_done o h : invariant o h -> h_Next h <> HsDone ->
  underway (sk_Id (hk_Socket (o_Socket o))) (o_Pin o) (o_World o) (h_Socket h) (h_Pin h) (h_Irql h) (h_World h) (h_Trace h).
Proof. unfold hs_ok. intros Hok Hn. by destruct (h_Next h); try destruct Hok. Qed.

(** ** Authentication *)

(** What four messages, accepted in order, show. *)
Record server_proved (pins : option BYTES -> Prop) (traffic t0 ee cert cv fin spki key signature : BYTES) : Prop := {
  sp_types : msg_type ee = 8 /\ msg_type cert = 11 /\ msg_type cv = 15 /\ msg_type fin = 20;
  sp_messages : is_message ee /\ is_message cert /\ is_message cv /\ is_message fin;
  sp_leaf : leaf_spki (msg_body cert) = Some (Ok spki);
  sp_pinned : pins (Some (sha256 spki));
  sp_key : spki = spki_der key;
  sp_signature : BlorgTlsParseCertificateVerifyMessage (msg_body cv) = Some (Ok signature);
  sp_signed : ecdsa_ok (peer_blob key) (sha256 (verify_content (sha256 (t0 ++ ee ++ cert)))) signature = true;
  sp_finished : msg_body fin = hmac (finished_key traffic) (sha256 (t0 ++ ee ++ cert ++ cv))
}.

Lemma settle_is_ok {A} (p : P A) x : settle p = Ok x -> p = Some (Ok x).
Proof. destruct p as [[]|]; cbn; naive_solver. Qed.

Lemma accepts_last pins traffic t0 ms ph' :
  accepts pins traffic t0 ms ph' ->
  (ms = [] /\ ph' = NeedExtensions) \/
  exists msgs ph m pin, ms = msgs ++ [m] /\ accepts pins traffic t0 msgs ph /\ is_message m /\ pins pin /\
    accept_message pin traffic (t0 ++ concat ms) ph (msg_type m) (msg_body m) = Ok ph'.
Proof. destruct 1 as [|msgs ph m ph' pin]; [by left|]. right. by exists msgs, ph, m, pin. Qed.

(** Each phase is reached from the one before, by its message. *)
Lemma accepts_step pins traffic t0 ms ph' :
  accepts pins traffic t0 ms ph' ->
  match ph' with
  | NeedExtensions => ms = []
  | NeedCertificate => exists ee, ms = [ee] /\ is_message ee /\ msg_type ee = 8
  | NeedVerify key hash => exists msgs cert pin, ms = msgs ++ [cert] /\ accepts pins traffic t0 msgs NeedCertificate /\ is_message cert /\ msg_type cert = 11 /\
      pins pin /\ accept_certificate pin (msg_body cert) = Ok key /\ hash = sha256 (t0 ++ concat ms)
  | NeedFinished hash => exists msgs cv key hv, ms = msgs ++ [cv] /\ accepts pins traffic t0 msgs (NeedVerify key hv) /\ is_message cv /\ msg_type cv = 15 /\
      accept_verify key hv (msg_body cv) = Ok tt /\ hash = sha256 (t0 ++ concat ms)
  | Accepted => exists msgs fin hv, ms = msgs ++ [fin] /\ accepts pins traffic t0 msgs (NeedFinished hv) /\ is_message fin /\ msg_type fin = 20 /\
      msg_body fin = hmac (finished_key traffic) hv
  end.
Proof.
  intros H1%accepts_last. destruct H1 as [[-> ->]|(msgs & ph & m & pin & E & Hacc & Hm & Hp & Ha)]; [done|].
  destruct ph; cbn [accept_message] in Ha; try done.
  - destruct (Z.eqb_spec (msg_type m) 8); [|done]. injection Ha as <-. apply accepts_last in Hacc as [[-> _]|(? & ph & ? & ? & ? & ? & ? & ? & Ha)]; [by exists m|].
    destruct ph; cbn [accept_message] in Ha; try done; repeat (case_match; try done).
  - destruct (Z.eqb_spec (msg_type m) 11); [|done]. destruct (accept_certificate pin (msg_body m)) as [key|] eqn:Ec; [|done]. injection Ha as <-.
    by exists msgs, m, pin.
  - destruct (Z.eqb_spec (msg_type m) 15); [|done]. destruct (accept_verify key hash (msg_body m)) as [[]|] eqn:Ec; [|done]. injection Ha as <-.
    by exists msgs, m, key, hash.
  - destruct (Z.eqb_spec (msg_type m) 20); [|done]. case_bool_decide; [|done]. injection Ha as <-. by exists msgs, m, hash.
Qed.

Lemma accepts_proved pins traffic t0 msgs :
  accepts pins traffic t0 msgs Accepted ->
  exists ee cert cv fin spki key signature, msgs = [ee; cert; cv; fin] /\ server_proved pins traffic t0 ee cert cv fin spki key signature.
Proof.
  intros H4. apply accepts_step in H4 as (m3 & fin & h & -> & H3 & Mf & Tf & Bf).
  apply accepts_step in H3 as (m2 & cv & key & h2 & -> & H2 & Mv & Tv & Bv & ->). apply accepts_step in H2 as (m1 & cert & pin & -> & H1 & Mc & Tc & Hp & Bc & ->).
  apply accepts_step in H1 as (ee & -> & Me & Te). cbn [concat app] in *. rewrite ?app_nil_r in *.
  unfold accept_certificate in Bc. destruct (settle (leaf_spki (msg_body cert))) as [spki|] eqn:El; [|done]. apply settle_is_ok in El.
  destruct (pin_matches pin spki) eqn:Ep; [|done]. apply settle_is_ok in Bc. rewrite spki_decode in Bc. destruct (is_spki spki) eqn:Ek; [|done]. injection Bc as Bc.
  unfold accept_verify in Bv. destruct (settle (BlorgTlsParseCertificateVerifyMessage (msg_body cv))) as [sig|] eqn:Es; [|done]. apply settle_is_ok in Es.
  destruct (ecdsa_ok _ _ _) eqn:Eok; [|done].
  exists ee, cert, cv, fin, spki, key, sig. split; [done|]. split; try done.
  - unfold pin_matches in Ep. destruct pin as [v|]; [|done]. apply bool_decide_eq_true in Ep. by subst v.
  - by apply (is_spki_iff spki key).
Qed.

(** What is known of a connection whose handshake succeeded: the messages
    exchanged, in order and with nothing in between, and the keys. *)
Definition server_authenticated o h : Prop :=
  exists sh serverRandom server ee cert cv fin spki key signature rest,
    let hello := own_hello (o_Rng o) (o_Random o) (o_Host o) in
    let dhe := dhe_secret (own_private (o_Rng o)) (own_public (o_Rng o)) server in
    hello_sent (o_Rng o) (o_Random o) (o_Host o) (h_Trace h) /\
    is_message sh /\ msg_type sh = 2 /\ BlorgTlsParseServerHello (msg_body sh) = Some (Ok (serverRandom, server)) /\
    opened_bytes (h_Trace h) = ee ++ cert ++ cv ++ fin ++ rest /\
    server_proved (pins_of (o_Pin o) (h_Trace h)) (derive_secret (handshake_secret dhe) "s hs traffic" (hello ++ sh)) (hello ++ sh) ee cert cv fin spki key signature /\
    tls_State (hk_Tls (h_Socket h)) = TlsHandshakeComplete /\
    installed (rfc_app_keys dhe (hello ++ sh) ((hello ++ sh) ++ ee ++ cert ++ cv ++ fin)) (h_Socket h) (h_World h).

(** C14: A handshake that completes with success has authenticated the server:
    the hello it sent and the server's hello give RFC 8446's handshake keys;
    under them came, in this order and with nothing in between, one
    EncryptedExtensions, a Certificate whose leaf's public key hashes to a pin
    that was configured, a CertificateVerify signed by that key over all
    before it, and a Finished whose MAC covers all before that; and the
    connection holds the application keys of exactly that transcript, the
    client's behind the handle it writes with and the server's behind the one
    it reads with, both sequence numbers at zero. *)
Theorem handshake_authenticates o h st :
  opening_ok o -> handshake_run o h -> h_Next h = HsDone -> completions (h_Trace h) = [st] -> NT_SUCCESS st = true -> server_authenticated o h.
Proof.
  intros Ho Hr Hd Hc Hst. pose proof (done_settled _ _ (run_ok _ _ Ho Hr) Hd) as [(st' & Hc' & Hif) _ _ _ _ _ [Kw Kr]].
  rewrite Hc in Hc'. injection Hc' as <-. rewrite Hst in Hif. destruct Hif as (Hstate & Hsent & sh & server & k & msgs & rest & Hg & [Hacc Hopen] & Hkeys).
  destruct Hg as (Hm & Hty & (sr & Hparse) & ->). destruct (accepts_proved _ _ _ _ Hacc) as (ee & cert & cv & fin & spki & key & sig & -> & Hproved).
  cbn [concat] in *. rewrite app_nil_r in *. exists sh, sr, server, ee, cert, cv, fin, spki, key, sig, rest. split_and!; try done.
  - by rewrite Hopen, <- !app_assoc.
  - destruct Hkeys as (E1 & E2 & E3 & E4 & E5 & E6 & E7 & E8). split_and!; try done; [by rewrite Kw, E1|by rewrite Kr, E3].
Qed.

(** ** One end *)

(** C16: However events, failures and the server's bytes interleave, the
    handshake calls its caller's completion routine exactly once, when it is
    over; by then the context and its work item are freed once, the context
    zeroed first, and the connection is complete if the status was a success
    and failed if not.  Until then nothing is freed and the connection is in
    progress. *)
Theorem handshake_settles_once o h :
  opening_ok o -> handshake_run o h ->
  if decide (h_Next h = HsDone)
  then exists st, completions (h_Trace h) = [st] /\ tls_State (hk_Tls (h_Socket h)) = (if NT_SUCCESS st then TlsHandshakeComplete else TlsHandshakeFailed) /\
         contexts_out (h_Trace h) = 0 /\ work_items_out (h_Trace h) = 0 /\ h_Ctx h = zeroed_context
  else completions (h_Trace h) = [] /\ contexts_out (h_Trace h) = 1 /\ work_items_out (h_Trace h) = 1 /\ tls_State (hk_Tls (h_Socket h)) = TlsHandshakeInProgress.
Proof.
  intros Ho Hr. pose proof (run_ok _ _ Ho Hr) as Hok. case_decide as Hd.
  - destruct (done_settled _ _ Hok Hd) as [(st & Hc & Hif) D2 D3 D4 _ _ _]. exists st. split_and!; try done. destruct (NT_SUCCESS st); [by destruct Hif|done].
  - destruct (not_done _ _ Hok Hd) as [_ _ _ _ _ _ U6 (U7 & U8 & U9)]. by split_and!.
Qed.

Lemma handshake_start_defined o a :
  opening_ok o -> answers_ok a -> is_Some (BlorgTlsStartHandshakeAsync oracle (o_Socket o) (o_Rng o) (o_Random o) (o_Host o) a (o_World o)).
Proof.
  intros [O1 O2 O3 O4 O5] Ha.
  pose proof (start_good oracle _ (o_Pin o) (o_World o) O4 (o_Rng o) (o_Random o) (o_Host o) (o_Socket o) a (o_Pin o) PASSIVE_LEVEL Ha O5 O1 O2 eq_refl O3 ltac:(done)) as Hg.
  apply wp_exists in Hg as (r & w & -> & _). done.
Qed.

Lemma handshake_events_defined o : opening_ok o -> forall h irql m, handshake_run o h -> hs_event oracle h irql m -> is_Some (m (h_World h)).
Proof.
  intros Ho h irql m Hr He. pose proof (hs_event_good oracle _ _ _ (oo_world _ Ho) _ _ _ _ _ _ (run_ok _ _ Ho Hr) He) as Hg.
  apply wp_exists in Hg as (r & w & -> & _). done.
Qed.

(** C15: No byte the server sends, no length it declares, no failing call and
    no order of completions makes a handler read or write outside a buffer,
    use a handle that is not open, or loop forever: the start, and every event
    of a handshake under way, is answered. *)
Theorem handshake_stays_in_memory o a :
  opening_ok o -> answers_ok a ->
  is_Some (BlorgTlsStartHandshakeAsync oracle (o_Socket o) (o_Rng o) (o_Random o) (o_Host o) a (o_World o)) /\
  forall h irql m, handshake_run o h -> hs_event oracle h irql m -> is_Some (m (h_World h)).
Proof.
  intros Ho Ha. split; [by apply handshake_start_defined|by apply handshake_events_defined].
Qed.

(** C34: What a finished handshake hands its request is what a request waiting
    for it expects: the same connection, its accumulator consistent, complete
    exactly on success, so that the two components compose; and closing the
    connection then closes just the key handles the handshake imported. *)
Theorem handshake_hands_over o h st ctx irql irql' tr :
  opening_ok o -> handshake_run o h -> h_Next h = HsDone -> completions (h_Trace h) = [st] ->
  Socket ctx = Some (hk_Socket (o_Socket o)) -> irql_ok irql' ->
  event (mkRequest ctx AwaitHandshake irql tr) irql' (HttpOnTlsHandshakeComplete (with_Socket ctx (Some (hk_Socket (h_Socket h)))) st) /\
  sk_TlsComplete (hk_Socket (h_Socket h)) = NT_SUCCESS st /\
  exists t w, BlorgTlsDestroyConnectionState (hk_Tls (h_Socket h)) (h_World h) = Some (t, w) /\ tw_open w = tw_open (o_World o).
Proof.
  intros Ho Hr Hd Hc Hs Hi. destruct (done_settled _ _ (run_ok _ _ Ho Hr) Hd) as [(st' & Hc' & Hif) _ _ _ [D1 D2 D3] D6].
  rewrite Hc in Hc'. injection Hc' as <-. split_and!.
  - by eapply event_handshake.
  - rewrite D3. cbn. destruct (NT_SUCCESS st); [destruct Hif as [-> _]|rewrite Hif]; done.
  - pose proof (destroy_connection _ _ _ (oo_world _ Ho) D6) as Hw. apply wp_exists in Hw as (t & w & Hw & _ & Hh). exists t, w. split; [done|].
    by apply holds_nil_same in Hh as [_ ?].
Qed.

(** ** Calls run out *)

(** One handler calling the next, not waiting for anything. *)
Definition hs_call h h' : Prop :=
  exists irql m c s fx n w, hs_event oracle h irql m /\ m (h_World h) = Some ((c, s, fx, n), w) /\
    h' = mkHandshake c s (h_Pin h) n irql w (h_Trace h ++ fx) /\ (h_Next h = HsIssueReceive \/ exists st, h_Next h = HsDeliver st).

Definition hs_unread (s : HS_SOCKET) : nat := Z.to_nat (TlsRecvLength (hk_Socket s) - TlsRecvOffset (hk_Socket s)).
Definition hs_weight (s : HS_SOCKET) (n : HS_NEXT) : nat :=
  match n with HsIssueReceive => 2 * hs_unread s + 2 | HsDeliver _ => 2 * hs_unread s + 3 | _ => 0 end.

(** Whenever [m] ends, its result satisfies [Q]. *)
Definition only {A} (m : M A) (Q : A -> Prop) : Prop := forall w x w', m w = Some (x, w') -> Q x.

Lemma only_return {A} (x : A) (Q : A -> Prop) : Q x -> only (mreturn x) Q.
Proof. by intros Hq w y w' [= <- <-]. Qed.
Lemma only_then {A B} (m : M A) (k : A -> M B) Q : (forall x, only (k x) Q) -> only (mthen m k) Q.
Proof. intros Hk w y w'. unfold mthen. destruct (m w) as [[x w1]|]; [apply Hk|done]. Qed.
Lemma only_lift {A B} (o' : option A) (k : A -> M B) Q : (forall x, o' = Some x -> only (k x) Q) -> only (mthen (lift o') k) Q.
Proof. intros Hk w y w'. unfold mthen, lift. destruct o' as [x|]; [by apply Hk|done]. Qed.
Lemma only_mono {A} (m : M A) (Q Q' : A -> Prop) : only m Q -> (forall x, Q x -> Q' x) -> only m Q'.
Proof. intros Hm HQ w x w' E. eauto. Qed.

Abbreviation RESULTS := (TLS_HANDSHAKE_CONTEXT * HS_SOCKET * list HS_EFFECT * HS_NEXT)%type.
Definition lighter (k : nat) (r : RESULTS) : Prop := (hs_weight r.1.1.2 r.2 < k)%nat.

Lemma fail_lighter c s st k : (0 < k)%nat -> only (TlsHandshakeFail c s st) (lighter k).
Proof. intros Hk. apply only_return. unfold lighter. cbn. lia. Qed.
Lemma or_fail_lighter {A} c s (r : RESULT A) f k : (0 < k)%nat -> (forall x, only (f x) (lighter k)) -> only (or_fail c s r f) (lighter k).
Proof. intros Hk Hf. destruct r; [apply Hf|by apply fail_lighter]. Qed.
Lemma after_lighter fx m k : only m (lighter k) -> only (after fx m) (lighter k).
Proof. intros Hm w y w'. unfold after, mthen. destruct (m w) as [[[[[c s] fx'] n] w1]|] eqn:E; [|done]. intros [= <- <-]. by apply Hm in E. Qed.

Lemma more_lighter c s b a : only (hs_receive_more c s b a) (lighter 1).
Proof.
  unfold hs_receive_more. apply only_then. intros k. cbv zeta. apply only_then. intros b'. destruct (negb _); [by intros ? ? ?|]. destruct (negb _); [apply fail_lighter; lia|].
  apply only_return. unfold lighter. cbn. lia.
Qed.

Lemma issue_lighter c s a : answers_ok a -> socket_ok (hk_Socket s) -> only (TlsHandshakeIssueReceiveRecordHeader c s a) (lighter (2 * hs_unread s + 2)).
Proof.
  intros Ha Ho. unfold TlsHandshakeIssueReceiveRecordHeader. destruct (negb (a_Stack a)); [apply fail_lighter; lia|].
  destruct (BlorgEnsureTlsRecvBuffer (hk_Socket s) a) as [st k] eqn:Ek. destruct (ensure_recv_ok _ _ _ _ Ha Ho Ek) as ([O1 O2 O3] & _ & _ & El & Eo). cbv zeta.
  destruct (negb (NT_SUCCESS st)); [apply fail_lighter; lia|]. apply only_lift. intros b Eb. destruct (O3 b Eb) as [Hlen Hb]. pose proof capacity_value as [_ Hcap].
  rewrite u32_id by lia. destruct (Z.ltb_spec (TlsRecvLength k - TlsRecvOffset k) 5); [eapply only_mono; [apply more_lighter|]; unfold lighter; intros; lia|].
  apply only_lift. intros b3 E3. apply only_lift. intros b4 E4.
  destruct (rd_byte b (TlsRecvOffset k + 3) Hb ltac:(lia)) as (x3 & E3' & H3), (rd_byte b (TlsRecvOffset k + 4) Hb ltac:(lia)) as (x4 & E4' & H4). unfold is_byte in *.
  rewrite E3 in E3'. rewrite E4 in E4'. injection E3' as ->. injection E4' as ->. rewrite lor_shiftl by (cbn; lia). change (2 ^ 8) with 256. destruct (_ <? _); [apply fail_lighter; lia|].
  destruct (Z.ltb_spec (TlsRecvLength k - TlsRecvOffset k) (5 + (x3 * 256 + x4))); [eapply only_mono; [apply more_lighter|]; unfold lighter; intros; lia|].
  unfold hs_take_record. cbv zeta. do 2 (apply only_then; intros ?). apply only_return. unfold lighter. cbn -[Nat.mul]. rewrite u32_id by (cbn; lia). unfold hs_unread.
  cbn [hk_Socket with_ksocket with_Recv TlsRecvLength TlsRecvOffset]. lia.
Qed.

Lemma finished_lighter c s a : only (TlsHandshakeSendClientFinished oracle c s a) (lighter 1).
Proof.
  unfold TlsHandshakeSendClientFinished. apply only_then. intros r. apply or_fail_lighter; [lia|]. intros k. apply only_then. intros [st s'].
  destruct (negb _); [apply fail_lighter; lia|]. apply only_then. intros r'. apply or_fail_lighter; [lia|]. intros c'. apply only_then. intros bytes.
  destruct (negb _); [apply fail_lighter; lia|]. apply only_return. unfold lighter. cbn. lia.
Qed.

Lemma deliver_lighter pin c s st irql a : only (TlsHandshakeOnReceiveRecordPayload oracle pin c s st irql a) (lighter (2 * hs_unread s + 3)).
Proof.
  assert (Hissue : forall c', only (mreturn (c', s, [], HsIssueReceive)) (lighter (2 * hs_unread s + 3))).
  { intros c'. apply only_return. unfold lighter. cbn -[Nat.mul]. lia. }
  unfold TlsHandshakeOnReceiveRecordPayload. destruct (_ <? irql); [apply only_return; unfold lighter; cbn; lia|]. destruct (negb _); [apply fail_lighter; lia|].
  apply only_then. intros ty. destruct (hs_Stage c).
  - destruct (negb _); [apply fail_lighter; lia|]. unfold TlsHandshakeOnReceiveServerHello. apply only_then. intros r. apply or_fail_lighter; [lia|done].
  - destruct (21 =? ty); [apply fail_lighter; lia|]. destruct (20 =? ty); [done|]. destruct (negb _); [apply fail_lighter; lia|].
    unfold hs_flight_record. cbv zeta. apply only_then. intros r. apply or_fail_lighter; [lia|]. intros [c1 content]. apply after_lighter.
    apply only_then. intros r'. apply or_fail_lighter; [lia|]. intros [c2 []]; [|done]. eapply only_mono; [apply finished_lighter|]. unfold lighter. intros. lia.
Qed.

Lemma call_lighter o h h' : opening_ok o -> invariant o h -> hs_call h h' -> (hs_weight (h_Socket h') (h_Next h') < hs_weight (h_Socket h) (h_Next h))%nat /\ invariant o h'.
Proof.
  intros Ho Hok (irql & m & c & s & fx & n & w & He & Hm & -> & Hn). split.
  2: { eapply hs_step_ok; [apply (oo_world _ Ho)|exact Hok|by econstructor]. }
  assert (Hsock : socket_ok (hk_Socket (h_Socket h))). { apply (not_done _ _ Hok). destruct Hn as [->|[? ->]]; done. }
  destruct He; cbn [h_Next h_Socket h_World] in *; try (by destruct Hn as [|[? ?]]).
  - by apply (issue_lighter _ _ _ ltac:(eassumption) Hsock) in Hm.
  - by apply deliver_lighter in Hm.
Qed.

(** A chain of handlers calling one another, without waiting for the
    network, a work item or a send, is never longer than twice what the
    accumulator can hold and three calls more: however many records a server
    packs into what it sends, the calls run out. *)
Theorem handshake_calls_run_out o h h' k :
  opening_ok o -> handshake_run o h -> nsteps hs_call k h h' -> (k <= 2 * Z.to_nat BlorgSocketTlsRecvCapacity + 3)%nat.
Proof.
  intros Ho Hr Hk. pose proof (run_ok _ _ Ho Hr) as Hok.
  assert (Hw : (k <= hs_weight (h_Socket h) (h_Next h))%nat).
  { clear Hr. induction Hk as [|k h1 h2 h3 Hc _ IH]; [lia|]. destruct (call_lighter o _ _ Ho Hok Hc) as [Hlt Hok2]. specialize (IH Hok2). lia. }
  assert (Hs : hs_weight (h_Socket h) (h_Next h) <> 0%nat -> socket_ok (hk_Socket (h_Socket h))).
  { intros Hz. apply (not_done _ _ Hok). intros E. rewrite E in Hz. done. }
  destruct (Nat.eq_dec (hs_weight (h_Socket h) (h_Next h)) 0) as [E|E]; [lia|]. destruct (Hs E) as [O1 O2 _].
  assert (hs_unread (h_Socket h) <= Z.to_nat BlorgSocketTlsRecvCapacity)%nat by (unfold hs_unread; lia). unfold hs_weight in *. destruct (h_Next h); lia.
Qed.
End Runs.

(** ** A handshake with a concrete server *)

Section Demo.
#[local] Existing Instance toy_bcrypt.

Definition silent_parse (l : list Z) : PHR := PhrPartial.
#[local] Instance quiet_environment : HttpEnvironment.
Proof. refine {| phr_parse_response := silent_parse; TlsEnabled := true; tlsRecvRecords := 4 |}; [done|by left]. Defined.

Definition willing : ANSWERS :=
  mkAnswers STATUS_PENDING STATUS_PENDING true true true true true (fun _ => 0) (STATUS_SUCCESS, []) (fun n => (STATUS_SUCCESS, replicate (Z.to_nat n) 0)) STATUS_SUCCESS.
Lemma willing_ok : answers_ok willing.
Proof. split; [done| |done]. intros n Hn. cbn. rewrite length_replicate. lia. Qed.

(** A fresh connection, the pin of the server's key, and the shared AES-GCM
    provider. *)
Definition demo_opening : OPENING :=
  mkOpening (mkHsSocket (mkSocket 7 false 0 0 None 0 0) zeroed_connection) demo_pin (mkTlsWorld (mkGlobals 1 0 0 0 0) {[ 1 ]} 2 ∅ 0) 5 (replicate 32 7) (Some [97; 46; 98]).

Lemma demo_opening_ok : opening_ok demo_opening.
Proof.
  split; [split; [by split|done|done]|done|apply demo_pin_ok| |done]. split; [done|]. intros x Hx. change (tw_open (o_World demo_opening)) with ({[ 1 ]} : gset Z) in Hx. apply elem_of_singleton in Hx. subst x. cbn. lia.
Qed.

(** The server's answer, in three records: its hello, a change_cipher_spec,
    and its whole flight. *)
Definition demo_hello : BYTES := own_hello 5 (replicate 32 7) (Some [97; 46; 98]).
Definition demo_sh : BYTES := handshake_message 2 (server_hello (replicate 32 1) [] good_exts).
Definition demo_keys : HS_SCHEDULE := rfc_schedule (dhe_secret (own_private 5) (own_public 5) toy_point) (demo_hello ++ demo_sh).
Definition demo_plain : BYTES := sv_flight (demo_server (demo_hello ++ demo_sh)) (ServerHsTraffic demo_keys) (demo_hello ++ demo_sh) ++ [22].
Definition record_header (ty : Z) (n : nat) : BYTES := [ty; 3; 3; Z.of_nat n / 256; Z.of_nat n mod 256].
Definition demo_data : BYTES :=
  let header := record_header 23 (length demo_plain + 16) in
  let sealed := seal (ServerHsKey demo_keys) (default [] (TlsBuildNonce (ServerHsIv demo_keys) 0)) header demo_plain in
  record_header 22 (length demo_sh) ++ demo_sh ++ record_header 20 1 ++ [1] ++ header ++ sealed.1 ++ sealed.2.

(** Sends succeed at once, and the server's bytes come in one receive. *)
Definition demo_answer (h : HANDSHAKE) : option HS_HANDLED :=
  match h_Next h with
  | HsIssueReceive => Some (TlsHandshakeIssueReceiveRecordHeader (h_Ctx h) (h_Socket h) willing)
  | HsDeliver st => Some (TlsHandshakeOnReceiveRecordPayload all_succeed (h_Pin h) (h_Ctx h) (h_Socket h) st 0 willing)
  | HsAwaitHello => Some (TlsHandshakeOnSendClientHello (h_Ctx h) (h_Socket h) STATUS_SUCCESS)
  | HsAwaitBulk offset len =>
      if Z.of_nat (length demo_data) <=? len
      then Some (mthen (lift (hs_land (h_Socket h) offset demo_data)) (fun s => TlsHandshakeOnBulkReceive (h_Ctx h) s STATUS_SUCCESS (Z.of_nat (length demo_data))))
      else None
  | HsAwaitFinished => Some (TlsHandshakeOnSendClientFinished (h_Ctx h) (h_Socket h) STATUS_SUCCESS)
  | _ => None
  end.
Definition demo_next (h : HANDSHAKE) : option HANDSHAKE :=
  m ← demo_answer h;
  r ← m (h_World h);
  let '((c, s, fx, n), w) := r in Some (mkHandshake c s (h_Pin h) n 0 w (h_Trace h ++ fx)).
Fixpoint demo_play (k : nat) (h : HANDSHAKE) : HANDSHAKE :=
  match k with O => h | S k => match demo_next h with Some h' => demo_play k h' | None => h end end.

Definition demo_start : HANDSHAKE :=
  match BlorgTlsStartHandshakeAsync all_succeed (o_Socket demo_opening) 5 (replicate 32 7) (Some [97; 46; 98]) willing (o_World demo_opening) with
  | Some ((c, s, fx, n), w) => mkHandshake c s demo_pin n 0 w fx
  | None => mkHandshake zeroed_context (o_Socket demo_opening) demo_pin HsDone 0 (o_World demo_opening) []
  end.
Definition demo_end : HANDSHAKE := demo_play 11 demo_start.

Lemma demo_data_ok : bytes_ok demo_data.
Proof. apply all_bytes_ok. vm_compute. reflexivity. Qed.

Lemma demo_next_step h h' : h_Irql h = 0 -> demo_next h = Some h' -> hs_step all_succeed h h' /\ h_Irql h' = 0.
Proof.
  intros Hi Hn. unfold demo_next in Hn. destruct (demo_answer h) as [m|] eqn:Em; [|done]. cbn [mbind option_bind] in Hn.
  destruct (m (h_World h)) as [[[[[c s] fx] n] w]|] eqn:Er; [|done]. cbn [mbind option_bind] in Hn. injection Hn as <-. split; [|done]. eapply step_event; [|exact Er].
  destruct h as [c0 s0 pin n0 irql w0 tr]. cbn in Hi. subst irql. unfold demo_answer in Em. cbn [h_Next h_Ctx h_Socket h_Pin] in Em.
  assert (Hp : irql_ok 0) by (unfold irql_ok, PASSIVE_LEVEL, DISPATCH_LEVEL; lia). pose proof willing_ok.
  destruct n0; try done; try (injection Em as <-); try (by constructor).
  destruct (Z.leb_spec (Z.of_nat (length demo_data)) len); [|done]. injection Em as <-. constructor; [done|done|apply demo_data_ok].
Qed.

Lemma demo_play_steps k h : h_Irql h = 0 -> rtc (hs_step all_succeed) h (demo_play k h).
Proof.
  revert h. induction k as [|k IH]; intros h Hi; [by constructor|]. cbn [demo_play]. destruct (demo_next h) as [h'|] eqn:E; [|by constructor].
  destruct (demo_next_step _ _ Hi E) as [Hs Hi']. econstructor; [exact Hs|by apply IH].
Qed.

Lemma demo_hs_runs k : handshake_run all_succeed demo_opening (demo_play k demo_start).
Proof.
  exists demo_start. split; [|apply demo_play_steps; vm_compute; reflexivity].
  assert (Hs : exists r, BlorgTlsStartHandshakeAsync all_succeed (o_Socket demo_opening) 5 (replicate 32 7) (Some [97; 46; 98]) willing (o_World demo_opening) = Some r).
  { apply (handshake_start_defined all_succeed demo_opening willing demo_opening_ok willing_ok). }
  destruct Hs as [[[[[c s] fx] n] w] Hs]. exists willing, 0, c, s, fx, n, w. split_and!; [apply willing_ok|unfold irql_ok, PASSIVE_LEVEL, DISPATCH_LEVEL; lia..|exact Hs|].
  unfold demo_start. by rewrite Hs.
Qed.

(** The states of the run, and where it ends. *)
Definition demo_at (k : nat) : HANDSHAKE := demo_play k demo_start.

Lemma demo_ends : h_Next demo_end = HsDone /\ completions (h_Trace demo_end) = [STATUS_SUCCESS].
Proof. split; vm_compute; reflexivity. Qed.

Lemma handshake_authenticates_witness : server_authenticated demo_opening demo_end.
Proof.
  apply (handshake_authenticates all_succeed demo_opening demo_end STATUS_SUCCESS demo_opening_ok (demo_hs_runs 11) (proj1 demo_ends) (proj2 demo_ends)). reflexivity.
Defined.

Lemma handshake_settles_once_witness :
  exists st, completions (h_Trace demo_end) = [st] /\ tls_State (hk_Tls (h_Socket demo_end)) = (if NT_SUCCESS st then TlsHandshakeComplete else TlsHandshakeFailed) /\
    contexts_out (h_Trace demo_end) = 0 /\ work_items_out (h_Trace demo_end) = 0 /\ h_Ctx demo_end = zeroed_context.
Proof.
  pose proof (handshake_settles_once all_succeed demo_opening demo_end demo_opening_ok (demo_hs_runs 11)) as Hs.
  destruct (decide (h_Next demo_end = HsDone)) as [Hd|Hd]; [exact Hs|]. destruct (Hd (proj1 demo_ends)).
Defined.

(** Just after the bytes came, a record can be taken from the accumulator. *)
Lemma demo_issues : h_Next (demo_at 3) = HsIssueReceive /\ h_Irql (demo_at 3) = 0.
Proof. split; vm_compute; reflexivity. Qed.

Lemma issues_event h : h_Next h = HsIssueReceive /\ h_Irql h = 0 -> hs_event all_succeed h 0 (TlsHandshakeIssueReceiveRecordHeader (h_Ctx h) (h_Socket h) willing).
Proof. destruct h as [c s pin n irql w tr]. cbn [h_Next h_Irql h_Ctx h_Socket]. intros [-> ->]. apply event_issue, willing_ok. Qed.

Lemma issues_call h :
  h_Next h = HsIssueReceive /\ h_Irql h = 0 -> is_Some (TlsHandshakeIssueReceiveRecordHeader (h_Ctx h) (h_Socket h) willing (h_World h)) -> hs_call all_succeed h (demo_play 1 h).
Proof.
  intros Hi [[[[[c s] fx] n] w] Er]. eexists 0, _, c, s, fx, n, w. split_and!; [by apply issues_event|exact Er| |by left; destruct Hi].
  cbn [demo_play]. unfold demo_next, demo_answer. destruct Hi as [-> _]. cbn [mbind option_bind]. rewrite Er. done.
Qed.

Lemma handshake_stays_in_memory_witness :
  is_Some (BlorgTlsStartHandshakeAsync all_succeed (o_Socket demo_opening) (o_Rng demo_opening) (o_Random demo_opening) (o_Host demo_opening) willing (o_World demo_opening)) /\
  is_Some (TlsHandshakeIssueReceiveRecordHeader (h_Ctx (demo_at 3)) (h_Socket (demo_at 3)) willing (h_World (demo_at 3))).
Proof.
  destruct (handshake_stays_in_memory all_succeed demo_opening willing demo_opening_ok willing_ok) as [H1 H2]. split; [exact H1|].
  apply (H2 (demo_at 3) 0 _ (demo_hs_runs 3)). apply issues_event, demo_issues.
Defined.

Definition demo_waiting : HTTP_CONTEXT :=
  mkContext (Some (hk_Socket (o_Socket demo_opening))) [] 0 0 [] None 0 0 0 [] 0 true true HttpStageTlsHandshake STATUS_SUCCESS HttpConnectionFresh HttpOpDirInfo 0 200 0 0 0 false None.
Lemma handshake_hands_over_witness :
  event (mkRequest demo_waiting AwaitHandshake 0 []) 0 (HttpOnTlsHandshakeComplete (with_Socket demo_waiting (Some (hk_Socket (h_Socket demo_end)))) STATUS_SUCCESS) /\
  sk_TlsComplete (hk_Socket (h_Socket demo_end)) = NT_SUCCESS STATUS_SUCCESS /\
  exists t w, BlorgTlsDestroyConnectionState (hk_Tls (h_Socket demo_end)) (h_World demo_end) = Some (t, w) /\ tw_open w = tw_open (o_World demo_opening).
Proof.
  apply (handshake_hands_over all_succeed demo_opening demo_end STATUS_SUCCESS demo_waiting 0 0 [] demo_opening_ok (demo_hs_runs 11) (proj1 demo_ends) (proj2 demo_ends)).
  - reflexivity.
  - unfold irql_ok, PASSIVE_LEVEL, DISPATCH_LEVEL. lia.
Defined.

(** The record with the server's hello is taken from the accumulator. *)
Lemma demo_hs_call : hs_call all_succeed (demo_at 3) (demo_play 1 (demo_at 3)).
Proof.
  apply issues_call; [apply demo_issues|].
  apply (handshake_events_defined all_succeed demo_opening demo_opening_ok _ 0 _ (demo_hs_runs 3)), issues_event, demo_issues.
Qed.

Lemma handshake_calls_run_out_witness : (1 <= 2 * Z.to_nat BlorgSocketTlsRecvCapacity + 3)%nat.
Proof. apply (handshake_calls_run_out all_succeed demo_opening (demo_at 3) (demo_play 1 (demo_at 3)) 1 demo_opening_ok (demo_hs_runs 3)). apply nsteps_once, demo_hs_call. Defined.
End Demo.
