(* ===== verification/Nodes.v ===== *)
(** * Resident nodes (src/Structs.c)

    The FCBs and DCBs of the volume: their allocation, the tree they form, the
    child index that resolves one path component, the table that resolves a
    whole path, and the reap list.  A node is known by its address.  The
    [COMMON_CONTEXT] of a node is kept in two halves: [NODE] has what never
    changes and what the VCB resource guards (the tree), [COUNTERS] what is
    changed by interlocked operations under other locks.  A linked list is the
    list of its members' addresses.  [None] is an access to freed memory or to
    a broken list. *)

From S2P Require Import Prelude UnicodePath PathCache.

Definition STATUS_OBJECT_PATH_NOT_FOUND : NTSTATUS := nt 0xC000003A.

(** ** Path components *)

(** [FsRtlDissectName]: the first component, less one leading separator, and
    what follows its separator. *)
Fixpoint until_sep (p : PATH) : PATH * PATH :=
  match p with
  | [] => ([], [])
  | c :: p => if c =? SEP then ([], p) else let '(f, r) := until_sep p in (c :: f, r)
  end.
Definition FsRtlDissectName (p : PATH) : PATH * PATH :=
  match p with
  | c :: p' => if c =? SEP then until_sep p' else until_sep p
  | [] => ([], [])
  end.

(** The characters after the last separator among the first [n]. *)
Definition NodeGetLastComponent (p : PATH) : PATH :=
  let n := length p in
  let n := if (1 <? n)%nat && ends_with_sep p then (n - 1)%nat else n in
  drop (last_sep n p) (take n p).

Section Components.
Context {nls : Nls}.
Definition NodeArePathComponentsEqual (a b : PATH) : bool :=
  if negb (path_bytes a =? path_bytes b) then false else RtlEqualUnicodeString a b.
End Components.

(** ** Nodes *)

Inductive SIGNATURE := FcbSignature | DcbSignature | RootDcbSignature | VcbSignature.
#[export] Instance signature_eq : EqDecision SIGNATURE.
Proof. solve_decision. Defined.

Record NODE := mkNode {
  NodeTypeCode : SIGNATURE;
  FullPath : PATH;
  ParentDcb : Z;
  TableBucketIndex : Z;
  ChildrenList : list Z
}.

(** [Published] is whether [TableLink.Flink] is set. *)
Record COUNTERS := mkCounters {
  PinCount : Z;
  RefCount : Z;
  UncleanCount : Z;
  OnReapList : bool;
  Published : bool
}.

Record METADATA := mkNodeMeta {
  FileSize : Z;
  NodeCreationTime : Z;
  NodeLastAccessedTime : Z;
  NodeLastModifiedTime : Z;
  MetaTicket : PATH_CACHE_TICKET
}.

(** Blocks of each lookaside list, name buffers, and resources initialised. *)
Record POOL := mkPool {
  NonPagedNodes : Z;
  FcbBlocks : Z;
  DcbBlocks : Z;
  CcbBlocks : Z;
  NameBuffers : Z;
  Resources : Z
}.

Definition NODE_TABLE_BUCKET_BITS : Z := 8.
Definition NODE_TABLE_BUCKETS : Z := Z.shiftl 1 NODE_TABLE_BUCKET_BITS.
Definition NODE_CHILD_BUCKET_BITS : Z := 12.
Definition NODE_CHILD_BUCKETS : Z := Z.shiftl 1 NODE_CHILD_BUCKET_BITS.

(** [WorkItems] counts what [IoQueueWorkItem] has queued and the system has
    not yet run. *)
Record NODE_REAP_STATE := mkReap { ReapList : list Z; Queued : bool; ShuttingDown : bool; WorkItems : Z }.

Record STORE := mkStore {
  Nodes : gmap Z NODE;
  Counters : gmap Z COUNTERS;
  Metadata : gmap Z METADATA;
  NodeTable : list (list Z);
  NodeChildren : list (list Z);
  NodeReap : NODE_REAP_STATE;
  Pool : POOL
}.

Definition with_Nodes (s : STORE) (n : gmap Z NODE) (ch : list (list Z)) : STORE :=
  mkStore n (Counters s) (Metadata s) (NodeTable s) ch (NodeReap s) (Pool s).
Definition with_Counters (s : STORE) (c : gmap Z COUNTERS) : STORE :=
  mkStore (Nodes s) c (Metadata s) (NodeTable s) (NodeChildren s) (NodeReap s) (Pool s).
Definition with_Metadata (s : STORE) (m : gmap Z METADATA) : STORE :=
  mkStore (Nodes s) (Counters s) m (NodeTable s) (NodeChildren s) (NodeReap s) (Pool s).
Definition with_Table (s : STORE) (t : list (list Z)) : STORE :=
  mkStore (Nodes s) (Counters s) (Metadata s) t (NodeChildren s) (NodeReap s) (Pool s).
Definition with_Reap (s : STORE) (r : NODE_REAP_STATE) : STORE :=
  mkStore (Nodes s) (Counters s) (Metadata s) (NodeTable s) (NodeChildren s) r (Pool s).
Definition with_Pool (s : STORE) (p : POOL) : STORE :=
  mkStore (Nodes s) (Counters s) (Metadata s) (NodeTable s) (NodeChildren s) (NodeReap s) p.

Definition pool_plus (p q : POOL) : POOL :=
  mkPool (NonPagedNodes p + NonPagedNodes q) (FcbBlocks p + FcbBlocks q) (DcbBlocks p + DcbBlocks q) (CcbBlocks p + CcbBlocks q)
    (NameBuffers p + NameBuffers q) (Resources p + Resources q).
Definition pool_minus (p q : POOL) : POOL :=
  mkPool (NonPagedNodes p - NonPagedNodes q) (FcbBlocks p - FcbBlocks q) (DcbBlocks p - DcbBlocks q) (CcbBlocks p - CcbBlocks q)
    (NameBuffers p - NameBuffers q) (Resources p - Resources q).
Definition pool_zero : POOL := mkPool 0 0 0 0 0 0.

(** ** The counts *)

Definition adjust (s : STORE) (n : Z) (f : COUNTERS -> COUNTERS) : option STORE :=
  c ← Counters s !! n;
  Some (with_Counters s (<[n := f c]> (Counters s))).
Definition add_pin (d : Z) (c : COUNTERS) : COUNTERS := mkCounters (s32 (PinCount c + d)) (RefCount c) (UncleanCount c) (OnReapList c) (Published c).
Definition add_ref (d : Z) (c : COUNTERS) : COUNTERS := mkCounters (PinCount c) (s64 (RefCount c + d)) (UncleanCount c) (OnReapList c) (Published c).
Definition add_unclean (d : Z) (c : COUNTERS) : COUNTERS := mkCounters (PinCount c) (RefCount c) (u32 (UncleanCount c + d)) (OnReapList c) (Published c).
Definition set_reap (b : bool) (c : COUNTERS) : COUNTERS := mkCounters (PinCount c) (RefCount c) (UncleanCount c) b (Published c).
Definition set_published (b : bool) (c : COUNTERS) : COUNTERS := mkCounters (PinCount c) (RefCount c) (UncleanCount c) (OnReapList c) b.

(** ** Hashing *)

Section Store.
Context {nls : Nls}.

Definition NodeTableBucketIndexFor (p : PATH) : Z := Z.shiftr (BlorgHashPath p) (32 - NODE_TABLE_BUCKET_BITS).

Definition BlorgNodeChildBucket (parent : Z) (name : PATH) : Z :=
  Z.shiftr (u32 (Z.lxor (BlorgHashPath name) (u32 (Z.shiftr parent 4)) * 0x9E3779B1)) (32 - NODE_CHILD_BUCKET_BITS).

(** ** The child index *)

Definition put_list (ll : list (list Z)) (i : Z) (f : list Z -> list Z) : option (list (list Z)) := l ← rd ll i; wr ll i (f l).

Definition child_bucket (n : NODE) : Z := BlorgNodeChildBucket (ParentDcb n) (NodeGetLastComponent (FullPath n)).

Definition NodeChildLink (ch : list (list Z)) (addr : Z) (n : NODE) : option (list (list Z)) := put_list ch (child_bucket n) (cons addr).

Fixpoint unlink_first (addr : Z) (l : list Z) : list Z :=
  match l with
  | [] => []
  | x :: l => if x =? addr then l else x :: unlink_first addr l
  end.
Definition NodeChildUnlink (ch : list (list Z)) (addr : Z) (n : NODE) : option (list (list Z)) := put_list ch (child_bucket n) (unlink_first addr).

(** Reading a child that was freed is [None]; the answer [Some None] is
    [NULL]. *)
Fixpoint search_chain (nodes : gmap Z NODE) (parent : Z) (name : PATH) (l : list Z) : option (option Z) :=
  match l with
  | [] => Some None
  | child :: l =>
      c ← nodes !! child;
      if negb (ParentDcb c =? parent) then search_chain nodes parent name l
      else if NodeArePathComponentsEqual name (NodeGetLastComponent (FullPath c)) then Some (Some child)
      else search_chain nodes parent name l
  end.
Definition NodeSearchByName (s : STORE) (parent : Z) (name : PATH) : option (option Z) :=
  l ← rd (NodeChildren s) (BlorgNodeChildBucket parent name);
  search_chain (Nodes s) parent name l.

(** Every turn takes at least one character off the path. *)
Fixpoint search_loop (fuel : nat) (s : STORE) (current : Z) (remaining : PATH) : option (option Z) :=
  match fuel with
  | O => None
  | S fuel =>
      if (length remaining =? 0)%nat then Some (Some current)
      else
        let '(component, next) := FsRtlDissectName remaining in
        found ← NodeSearchByName s current component;
        match found with
        | None => Some None
        | Some child =>
            c ← Nodes s !! child;
            match NodeTypeCode c with
            | FcbSignature => Some (if (length next =? 0)%nat then Some child else None)
            | _ => search_loop fuel s child next
            end
        end
  end.
Definition BlorgSearchByPath (s : STORE) (parent : Z) (path : PATH) : option (option Z) := search_loop (S (length path)) s parent path.

(** ** Creating nodes *)

(** What the allocators and [ExInitializeResourceLite] answer, and where the
    new node is. *)
Record ALLOCATION := mkAllocation {
  al_NonPaged : bool;
  al_Node : bool;
  al_Name : bool;
  al_Resource : NTSTATUS;
  al_PagingIoResource : NTSTATUS;
  al_Address : Z
}.

Definition node_pool (fcb : bool) (named : bool) : POOL :=
  mkPool 1 (if fcb then 1 else 0) (if fcb then 0 else 1) 0 (if named then 1 else 0) 2.
Definition non_paged_pool : POOL := mkPool 1 0 0 0 0 0.
Definition paged_pool (fcb : bool) : POOL := mkPool 0 (if fcb then 1 else 0) (if fcb then 0 else 1) 0 0 0.
Definition name_pool (named : bool) : POOL := mkPool 0 0 0 0 (if named then 1 else 0) 0.
Definition resource_pool : POOL := mkPool 0 0 0 0 0 1.

(** [BlorgCreateFCB] and [BlorgCreateDCB] allocate and roll back alike: the
    pool after, and whether there is a node. *)
Definition create_node (fcb : bool) (named : bool) (al : ALLOCATION) (pool : POOL) : NTSTATUS * POOL :=
  if negb (al_NonPaged al) then (STATUS_INSUFFICIENT_RESOURCES, pool)
  else
    let pool := pool_plus pool non_paged_pool in
    if negb (al_Node al) then (STATUS_INSUFFICIENT_RESOURCES, pool_minus pool non_paged_pool)
    else
      let pool := pool_plus pool (paged_pool fcb) in
      if named && negb (al_Name al) then (STATUS_INSUFFICIENT_RESOURCES, pool_minus (pool_minus pool (paged_pool fcb)) non_paged_pool)
      else
        let pool := pool_plus pool (name_pool named) in
        if negb (NT_SUCCESS (al_Resource al)) then
          (al_Resource al, pool_minus (pool_minus (pool_minus pool (name_pool named)) (paged_pool fcb)) non_paged_pool)
        else
          let pool := pool_plus pool resource_pool in
          if negb (NT_SUCCESS (al_PagingIoResource al)) then
            (al_PagingIoResource al, pool_minus (pool_minus (pool_minus (pool_minus pool resource_pool) (name_pool named)) (paged_pool fcb)) non_paged_pool)
          else (STATUS_SUCCESS, pool_plus pool resource_pool).

Definition counters_zero : COUNTERS := mkCounters 0 0 0 false false.
Definition ticket_zero : PATH_CACHE_TICKET := mkTicket 0 0.

Definition BlorgCreateFCB (name : PATH) (size : Z) (al : ALLOCATION) (pool : POOL) : NTSTATUS * POOL * NODE * METADATA :=
  (create_node true (0 <? path_bytes name) al pool, mkNode FcbSignature name 0 (NodeTableBucketIndexFor name) [], mkNodeMeta size 0 0 0 ticket_zero).
Definition BlorgCreateDCB (name : PATH) (al : ALLOCATION) (pool : POOL) : NTSTATUS * POOL * NODE * METADATA :=
  (create_node false true al pool, mkNode DcbSignature name 0 (NodeTableBucketIndexFor name) [], mkNodeMeta 0 0 0 0 ticket_zero).

Definition with_ParentDcb (n : NODE) (parent : Z) : NODE := mkNode (NodeTypeCode n) (FullPath n) parent (TableBucketIndex n) (ChildrenList n).
Definition with_ChildrenList (n : NODE) (l : list Z) : NODE := mkNode (NodeTypeCode n) (FullPath n) (ParentDcb n) (TableBucketIndex n) l.

(** The new node gets its parent, joins the parent's children and the child
    index. *)
Definition adopt (s : STORE) (parent addr : Z) (n : NODE) (m : METADATA) (pool : POOL) : option STORE :=
  p ← Nodes s !! parent;
  let n := with_ParentDcb n parent in
  ch ← NodeChildLink (NodeChildren s) addr n;
  Some (mkStore (<[addr := n]> (<[parent := with_ChildrenList p (ChildrenList p ++ [addr])]> (Nodes s)))
          (<[addr := counters_zero]> (Counters s)) (<[addr := m]> (Metadata s)) (NodeTable s) ch (NodeReap s) pool).

(** ** Freeing nodes *)

(** [FsRtlTeardownPerStreamContexts], the resources, the name and the node; the
    node leaves the child index and its parent's children. *)
Definition BlorgFreeFileContext (s : STORE) (addr : Z) : option STORE :=
  n ← Nodes s !! addr;
  match NodeTypeCode n with
  | FcbSignature | DcbSignature =>
      ch ← NodeChildUnlink (NodeChildren s) addr n;
      p ← Nodes s !! ParentDcb n;
      if bool_decide (addr ∈ ChildrenList p) then
        Some (mkStore (delete addr (<[ParentDcb n := with_ChildrenList p (unlink_first addr (ChildrenList p))]> (Nodes s)))
                (delete addr (Counters s)) (delete addr (Metadata s)) (NodeTable s) ch (NodeReap s)
                (pool_minus (Pool s) (node_pool (bool_decide (NodeTypeCode n = FcbSignature)) true)))
      else None
  | VcbSignature =>
      Some (mkStore (delete addr (Nodes s)) (delete addr (Counters s)) (delete addr (Metadata s)) (NodeTable s) (NodeChildren s) (NodeReap s)
              (pool_minus (Pool s) (node_pool true false)))
  | RootDcbSignature =>
      Some (mkStore (delete addr (Nodes s)) (delete addr (Counters s)) (delete addr (Metadata s)) (NodeTable s) (NodeChildren s) (NodeReap s)
              (pool_minus (Pool s) (node_pool false true)))
  end.

(** ** The node table *)

(** Under the bucket lock shared. *)
Fixpoint lookup_chain (nodes : gmap Z NODE) (path : PATH) (l : list Z) : option (option Z) :=
  match l with
  | [] => Some None
  | n :: l =>
      node ← nodes !! n;
      if (path_bytes (FullPath node) =? path_bytes path) && RtlEqualUnicodeString (FullPath node) path then Some (Some n)
      else lookup_chain nodes path l
  end.
Definition BlorgNodeTableLookupPin (s : STORE) (path : PATH) : option (option Z * STORE) :=
  l ← rd (NodeTable s) (NodeTableBucketIndexFor path);
  found ← lookup_chain (Nodes s) path l;
  match found with
  | None => Some (None, s)
  | Some n => s' ← adjust s n (add_pin 1); Some (Some n, s')
  end.

(** Under the bucket lock exclusive. *)
Definition BlorgNodeTablePublish (s : STORE) (addr : Z) : option STORE :=
  n ← Nodes s !! addr;
  c ← Counters s !! addr;
  if Published c then Some s
  else
    t ← put_list (NodeTable s) (TableBucketIndex n) (fun l => l ++ [addr]);
    adjust (with_Table s t) addr (set_published true).

Definition table_unlink (s : STORE) (addr : Z) (n : NODE) (c : COUNTERS) : option STORE :=
  if Published c then
    t ← put_list (NodeTable s) (TableBucketIndex n) (unlink_first addr);
    adjust (with_Table s t) addr (set_published false)
  else Some s.

Definition NodeTableTryRetire (s : STORE) (addr : Z) : option (bool * STORE) :=
  n ← Nodes s !! addr;
  c ← Counters s !! addr;
  if (RefCount c =? 0) && (PinCount c =? 0) && negb (OnReapList c) then
    s ← adjust s addr (set_reap true);
    s ← table_unlink s addr n c;
    Some (true, s)
  else Some (false, s).

(** The part of [NodeReapWorker]'s loop under the bucket lock: [freeNode]. *)
Definition reap_judge (s : STORE) (addr : Z) : option (bool * STORE) :=
  n ← Nodes s !! addr;
  c ← Counters s !! addr;
  if (RefCount c =? 0) && (PinCount c =? 0) && (negb (bool_decide (NodeTypeCode n = DcbSignature)) || (length (ChildrenList n) =? 0)%nat) then
    s ← table_unlink s addr n c;
    Some (true, s)
  else s ← adjust s addr (set_reap false); Some (false, s).

(** ** The reap list, under its own lock *)

Definition reap_push (s : STORE) (addr : Z) : option STORE :=
  _ ← Nodes s !! addr;
  let r := NodeReap s in Some (with_Reap s (mkReap (addr :: ReapList r) (Queued r) (ShuttingDown r) (WorkItems r))).

(** [NodeReapKick] up to [IoQueueWorkItem]: whether to queue. *)
Definition reap_kick (s : STORE) : bool * STORE :=
  let r := NodeReap s in
  if Queued r then (false, s)
  else if ShuttingDown r then (false, s)
  else (true, with_Reap s (mkReap (ReapList r) true (ShuttingDown r) (WorkItems r))).
Definition reap_queue (s : STORE) (d : Z) : STORE :=
  let r := NodeReap s in with_Reap s (mkReap (ReapList r) (Queued r) (ShuttingDown r) (WorkItems r + d)).
Definition reap_take (s : STORE) : list Z * STORE :=
  let r := NodeReap s in (ReapList r, with_Reap s (mkReap [] (Queued r) (ShuttingDown r) (WorkItems r))).
Definition reap_clear (s : STORE) : bool * STORE :=
  let r := NodeReap s in (negb (length (ReapList r) =? 0)%nat, with_Reap s (mkReap (ReapList r) false (ShuttingDown r) (WorkItems r))).
End Store.
