(* ===== verification/NodesTree.v ===== *)
(** * The tree of nodes

    The components of a path, the invariant of the tree and of the child
    index, and what searching, adopting and freeing do to them. *)

From S2P Require Import Prelude UnicodePath PathCache Nodes.

(** ** Components *)

(** The components [FsRtlDissectName] yields, one after the other. *)
Fixpoint comps_loop (fuel : nat) (p : PATH) : list PATH :=
  match fuel with
  | O => []
  | S fuel =>
      match p with
      | [] => []
      | _ => let '(f, r) := FsRtlDissectName p in f :: comps_loop fuel r
      end
  end.
Definition comps (p : PATH) : list PATH := comps_loop (length p) p.

Lemma until_sep_spec p : let '(f, r) := until_sep p in (SEP ∉ f) /\ (p = f ++ SEP :: r \/ (p = f /\ r = [])).
Proof.
  induction p as [|c p IH]; [split; [set_solver|by right]|]. cbn. destruct (Z.eqb_spec c SEP) as [->|Hc].
  - split; [set_solver|by left].
  - destruct (until_sep p) as [f r]. destruct IH as [Hf Hp]. split; [set_solver|]. destruct Hp as [->|[-> ->]]; [by left|by right].
Qed.

Lemma until_sep_app f r : SEP ∉ f -> until_sep (f ++ SEP :: r) = (f, r).
Proof.
  induction f as [|c f IH]; intros Hf; [done|]. cbn. destruct (Z.eqb_spec c SEP); [set_solver|]. rewrite IH by set_solver. done.
Qed.
Lemma until_sep_end f : SEP ∉ f -> until_sep f = (f, []).
Proof.
  induction f as [|c f IH]; intros Hf; [done|]. cbn. destruct (Z.eqb_spec c SEP); [set_solver|]. rewrite IH by set_solver. done.
Qed.

(** A leading separator: one, or none before a component. *)
Definition lead (l f : PATH) : Prop := l = [SEP] \/ (l = [] /\ f <> []).

Lemma dissect_spec p :
  p <> [] -> let '(f, r) := FsRtlDissectName p in exists l, lead l f /\ (SEP ∉ f) /\ (p = l ++ f ++ SEP :: r \/ (p = l ++ f /\ r = [])).
Proof.
  destruct p as [|c p]; [done|]. intros _. cbn [FsRtlDissectName]. destruct (Z.eqb_spec c SEP) as [->|Hc].
  - pose proof (until_sep_spec p) as H. destruct (until_sep p) as [f r]. destruct H as [Hf Hp]. exists [SEP]. split_and!; [by left|done|].
    destruct Hp as [->|[-> ->]]; [by left|by right].
  - pose proof (until_sep_spec (c :: p)) as H. cbn [until_sep] in H |- *. destruct (Z.eqb_spec c SEP); [done|]. destruct (until_sep p) as [f r]. destruct H as [Hf Hp].
    exists []. split_and!; [by right|done|]. destruct Hp as [Hp|[Hp ->]]; [by left|by right].
Qed.

Lemma dissect_app l f r : lead l f -> SEP ∉ f -> FsRtlDissectName (l ++ f ++ SEP :: r) = (f, r).
Proof.
  intros [->|[-> Hne]] Hf; cbn [app FsRtlDissectName].
  - by apply until_sep_app.
  - destruct f as [|c f]; [done|]. cbn [app FsRtlDissectName]. destruct (Z.eqb_spec c SEP); [set_solver|]. apply (until_sep_app (c :: f) r Hf).
Qed.
Lemma dissect_end l f : lead l f -> SEP ∉ f -> FsRtlDissectName (l ++ f) = (f, []).
Proof.
  intros [->|[-> Hne]] Hf; cbn [app FsRtlDissectName].
  - by apply until_sep_end.
  - destruct f as [|c f]; [done|]. cbn [FsRtlDissectName]. destruct (Z.eqb_spec c SEP); [set_solver|]. by apply until_sep_end.
Qed.

Lemma dissect_shorter p : p <> [] -> (length (FsRtlDissectName p).2 < length p)%nat.
Proof.
  intros Hp. pose proof (dissect_spec p Hp) as H. destruct (FsRtlDissectName p) as [f r]. destruct H as (l & Hl & _ & [->|[-> ->]]); cbn.
  - rewrite !length_app. cbn. lia.
  - destruct l; [|cbn; lia]. destruct Hl as [|[_ ?]]; [done|]. destruct f; [done|cbn; lia].
Qed.

Lemma comps_loop_fuel p n m : (length p <= n)%nat -> (length p <= m)%nat -> comps_loop n p = comps_loop m p.
Proof.
  revert p m. induction n as [|n IH]; intros p m Hn Hm. { destruct p; [|cbn in Hn; lia]. by destruct m. }
  destruct m as [|m]. { destruct p; [done|cbn in Hm; lia]. } cbn. destruct p as [|c p]; [done|].
  pose proof (dissect_shorter (c :: p) ltac:(done)) as Hlt. destruct (FsRtlDissectName (c :: p)) as [f r]. cbn in Hlt, Hn, Hm. f_equal. apply IH; lia.
Qed.

Lemma comps_step p : p <> [] -> comps p = (FsRtlDissectName p).1 :: comps (FsRtlDissectName p).2.
Proof.
  intros Hp. unfold comps at 1. pose proof (dissect_shorter p Hp) as Hlt. destruct p as [|c p]; [done|]. cbn [length comps_loop].
  destruct (FsRtlDissectName (c :: p)) as [f r] eqn:E. cbn [fst snd] in *. f_equal. apply comps_loop_fuel; cbn in Hlt; lia.
Qed.

Lemma comps_app l f r : lead l f -> SEP ∉ f -> comps (l ++ f ++ SEP :: r) = f :: comps r.
Proof. intros Hl Hf. rewrite comps_step by (destruct Hl as [->|[-> ?]]; destruct f; done). by rewrite dissect_app. Qed.
Lemma comps_end l f : lead l f -> SEP ∉ f -> comps (l ++ f) = [f].
Proof. intros Hl Hf. rewrite comps_step by (destruct Hl as [->|[-> ?]]; destruct f; done). by rewrite dissect_end. Qed.

Lemma comps_length p : (length (comps p) <= length p)%nat.
Proof.
  remember (length p) as n eqn:E. revert p E. induction n as [n IH] using lt_wf_ind. intros p ->. destruct (decide (p = [])) as [->|Hp]; [done|].
  rewrite comps_step by done. pose proof (dissect_shorter p Hp) as Hlt. cbn [length]. specialize (IH _ Hlt _ eq_refl). lia.
Qed.
Lemma comps_nonempty p : p <> [] -> comps p <> [].
Proof. intros Hp. by rewrite comps_step. Qed.

(** A path cut at the end of a component. *)
Inductive closed : PATH -> list PATH -> Prop :=
  | closed_one l f : lead l f -> SEP ∉ f -> closed (l ++ f) [f]
  | closed_snoc p cs l f : closed p cs -> lead l f -> SEP ∉ f -> closed (p ++ SEP :: l ++ f) (cs ++ [f]).

Lemma closed_more p cs x : closed p cs -> comps (p ++ SEP :: x) = cs ++ comps x.
Proof.
  intros Hc. revert x. induction Hc as [l f Hl Hf|p cs l f Hc IH Hl Hf]; intros x.
  - rewrite <- app_assoc. by apply comps_app.
  - rewrite <- app_assoc. cbn [app]. rewrite IH. rewrite <- !app_assoc. by rewrite comps_app.
Qed.
Lemma closed_comps p cs : closed p cs -> comps p = cs.
Proof. destruct 1 as [l f Hl Hf|p cs l f Hc Hl Hf]; [by apply comps_end|]. rewrite (closed_more p cs) by done. by rewrite comps_end. Qed.

(** Where a walk along a path stands: what it has walked, its components, and
    what remains. *)
Inductive walked (path : PATH) : list PATH -> PATH -> Prop :=
  | walked_start : walked path [] path
  | walked_on p cs r : path = p ++ SEP :: r -> closed p cs -> walked path cs r.

Lemma walked_comps path cs r : walked path cs r -> comps path = cs ++ comps r.
Proof. intros [|p cs' r' -> Hc]; [done|]. by apply closed_more. Qed.

(** One more component; [partial] is the prefix of the path that ends with
    it. *)
Lemma walked_next path cs r :
  walked path cs r -> r <> [] ->
  let '(f, r') := FsRtlDissectName r in
  (r' <> [] -> walked path (cs ++ [f]) r' /\ comps (take (length path - (length r' + 1)) path) = cs ++ [f]) /\
  (r' = [] -> comps path = cs ++ [f]).
Proof.
  intros Hw Hr. pose proof (dissect_spec r Hr) as Hd. destruct (FsRtlDissectName r) as [f r'] eqn:E. destruct Hd as (l & Hl & Hf & Hp). split.
  - intros Hr'. destruct Hp as [Hp|[_ ->]]; [|done].
    assert (exists q, path = q ++ SEP :: r' /\ closed q (cs ++ [f])) as (q & Hq & Hc).
    { destruct Hw as [|p cs' r0 Hpath Hc].
      - exists (l ++ f). split; [by rewrite Hp, <- app_assoc|]. by constructor.
      - exists (p ++ SEP :: l ++ f). split; [rewrite Hpath, Hp, <- !app_assoc; cbn; by rewrite <- app_assoc|]. by constructor. }
    split; [by econstructor|]. rewrite Hq. rewrite take_app_length' by (rewrite length_app; cbn; lia). by apply closed_comps.
  - intros ->. rewrite (walked_comps _ _ _ Hw), comps_step by done. by rewrite E.
Qed.

(** ** The last component *)

Definition tail_of (q : PATH) : PATH := drop (last_sep (length q) q) q.

Lemma last_sep_app n x y : (n <= length x)%nat -> last_sep n (x ++ y) = last_sep n x.
Proof. induction n as [|n IH]; intros Hn; [done|]. cbn. rewrite lookup_app_l by lia. rewrite IH by lia. done. Qed.

Lemma last_sep_shift x r n : (n <= length r)%nat -> last_sep (length x + S n) (x ++ SEP :: r) = (length x + S (last_sep n r))%nat.
Proof.
  induction n as [|n IH]; intros Hn; rewrite Nat.add_succ_r; cbn [last_sep].
  - rewrite bool_decide_true; [lia|]. rewrite list_lookup_middle by lia. done.
  - rewrite lookup_app_r by lia. replace (length x + S n - length x)%nat with (S n) by lia. cbn [lookup list_lookup]. change (list_lookup n r) with (r !! n). destruct (bool_decide (r !! n = Some SEP)); [lia|]. rewrite IH by lia. done.
Qed.

Lemma tail_of_shift x r : tail_of (x ++ SEP :: r) = tail_of r.
Proof.
  unfold tail_of. rewrite length_app. cbn [length]. rewrite last_sep_shift by lia. rewrite drop_app_ge by lia.
  replace (length x + S (last_sep (length r) r) - length x)%nat with (S (last_sep (length r) r)) by lia. done.
Qed.

Lemma tail_of_plain f : SEP ∉ f -> tail_of f = f.
Proof.
  intros Hf. unfold tail_of. assert (forall n, last_sep n f = O) as ->; [|done].
  induction n as [|n IH]; [done|]. cbn. rewrite bool_decide_false; [done|]. intros Hs. apply Hf. by eapply list_elem_of_lookup_2.
Qed.

Lemma tail_of_lead l f : lead l f -> SEP ∉ f -> tail_of (l ++ f) = f.
Proof. intros [->|[-> _]] Hf; [change (tail_of ([] ++ SEP :: f) = f); rewrite tail_of_shift|]; by apply tail_of_plain. Qed.

Lemma last_component_cut q : q <> [] -> NodeGetLastComponent (q ++ [SEP]) = tail_of q.
Proof.
  intros Hq. unfold NodeGetLastComponent. assert (He : ends_with_sep (q ++ [SEP]) = true) by (apply bool_decide_eq_true; by rewrite last_snoc).
  rewrite He, length_app. cbn [length]. destruct (Nat.ltb_spec 1 (length q + 1)); [|destruct q; [done|cbn in *; lia]]. cbn [andb].
  replace (length q + 1 - 1)%nat with (length q) by lia. rewrite take_app_length, last_sep_app by lia. done.
Qed.
Lemma last_component_whole q : ends_with_sep q = false \/ length q = 1%nat -> NodeGetLastComponent q = tail_of q.
Proof.
  intros Hq. unfold NodeGetLastComponent. assert (E : (1 <? length q)%nat && ends_with_sep q = false) by (destruct Hq as [-> | ->]; [apply andb_false_r|done]).
  rewrite E. by rewrite take_ge.
Qed.

Lemma last_component_shift x r : r <> [] -> NodeGetLastComponent (x ++ SEP :: r) = NodeGetLastComponent r.
Proof.
  intros Hr. destruct (exists_last Hr) as (r0 & c & ->). destruct (decide (c = SEP)) as [->|Hc].
  - rewrite app_comm_cons, app_assoc, last_component_cut by (destruct x; done). rewrite tail_of_shift. destruct r0 as [|a r0]; [done|]. by rewrite last_component_cut.
  - assert (He : forall y, ends_with_sep (y ++ [c]) = false) by (intros y; apply bool_decide_eq_false; rewrite last_snoc; congruence).
    rewrite app_comm_cons, app_assoc, !last_component_whole by (left; apply He). rewrite <- app_assoc. by rewrite <- app_comm_cons, tail_of_shift.
Qed.

(** The last component of a path is the last one a walk along it meets. *)
Lemma last_component_comps p : p <> [] -> last (comps p) = Some (NodeGetLastComponent p).
Proof.
  remember (length p) as n eqn:E. revert p E. induction n as [n IH] using lt_wf_ind. intros p -> Hp.
  pose proof (dissect_spec p Hp) as Hd. pose proof (dissect_shorter p Hp) as Hlt. rewrite comps_step by done. destruct (FsRtlDissectName p) as [f r]. cbn [fst snd] in *.
  destruct Hd as (l & Hl & Hf & Hd). destruct (decide (r = [])) as [->|Hr].
  - change (last (f :: comps [])) with (Some f). f_equal. symmetry. destruct Hd as [->|[-> _]].
    + rewrite app_assoc, last_component_cut by (destruct Hl as [->|[-> ?]]; destruct f; done). by apply tail_of_lead.
    + rewrite last_component_whole; [by apply tail_of_lead|]. destruct f as [|c f] using rev_ind; [destruct Hl as [->|[_ ?]]; [by right|done]|].
      left. rewrite app_assoc. apply bool_decide_eq_false. rewrite last_snoc. intros [= ->]. set_solver.
  - destruct Hd as [->|[_ ->]]; [|done]. rewrite app_assoc, last_component_shift by done. rewrite <- (IH _ Hlt r eq_refl Hr).
    destruct (comps r) eqn:Ec; [by apply comps_nonempty in Ec|done].
Qed.

(** ** Folding case *)

Section Tree.
Context {nls : Nls}.
Implicit Types (nodes : gmap Z NODE) (ch : list (list Z)) (a d : Z) (path : PATH).

Lemma until_sep_fold (p : PATH) : until_sep (fold_path p) = (fold_path (until_sep p).1, fold_path (until_sep p).2).
Proof.
  induction p as [|c p IH]; [done|]. cbn [fold_path fmap list_fmap until_sep]. fold (fold_path p).
  destruct (Z.eqb_spec c SEP) as [->|Hc]; [by rewrite upcase_SEP, Z.eqb_refl|]. destruct (Z.eqb_spec (upcase c) SEP) as [Hu|_]; [by apply (proj1 (upcase_sep c)) in Hu|].
  rewrite IH. destruct (until_sep p). done.
Qed.

Lemma dissect_fold (p : PATH) : FsRtlDissectName (fold_path p) = (fold_path (FsRtlDissectName p).1, fold_path (FsRtlDissectName p).2).
Proof.
  destruct p as [|c p]; [done|]. pose proof (until_sep_fold (c :: p)) as Hc. pose proof (until_sep_fold p) as Hp. cbn [fold_path fmap list_fmap FsRtlDissectName] in *. fold (fold_path p) in *.
  destruct (Z.eqb_spec c SEP) as [->|Hn]; [by rewrite upcase_SEP, Z.eqb_refl, Hp|]. destruct (Z.eqb_spec (upcase c) SEP) as [Hu|_]; [by apply (proj1 (upcase_sep c)) in Hu|exact Hc].
Qed.

Definition folded (p : PATH) : list PATH := fold_path <$> comps p.

Lemma comps_fold (p : PATH) : comps (fold_path p) = folded p.
Proof.
  remember (length p) as n eqn:E. revert p E. induction n as [n IH] using lt_wf_ind. intros p ->. destruct (decide (p = [])) as [->|Hp]; [done|].
  unfold folded. rewrite (comps_step p), comps_step by (done || by destruct p). rewrite dissect_fold. cbn [fst snd fmap list_fmap]. f_equal.
  by apply (IH (length (FsRtlDissectName p).2)); [apply dissect_shorter|].
Qed.
Lemma folded_ext (p q : PATH) : fold_path p = fold_path q -> folded p = folded q.
Proof. intros E. by rewrite <- !comps_fold, E. Qed.

Lemma components_equal (p q : PATH) : NodeArePathComponentsEqual p q = bool_decide (fold_path p = fold_path q).
Proof.
  unfold NodeArePathComponentsEqual, RtlEqualUnicodeString. destruct (Z.eqb_spec (path_bytes p) (path_bytes q)) as [E|E]; [done|]. cbn [negb].
  symmetry. apply bool_decide_eq_false. intros Hf%fold_eq_length. apply E. unfold path_bytes. lia.
Qed.

Lemma child_bucket_range parent name : 0 <= BlorgNodeChildBucket parent name < NODE_CHILD_BUCKETS.
Proof.
  unfold BlorgNodeChildBucket, NODE_CHILD_BUCKETS. change (32 - NODE_CHILD_BUCKET_BITS) with 20. change (Z.shiftl 1 NODE_CHILD_BUCKET_BITS) with 4096.
  pose proof (u32_range (Z.lxor (BlorgHashPath name) (u32 (Z.shiftr parent 4)) * 0x9E3779B1)). rewrite Z.shiftr_div_pow2 by lia. change (2 ^ 20) with 1048576.
  split; [by apply Z.div_pos; lia|apply Z.div_lt_upper_bound; lia].
Qed.
Lemma child_bucket_ext parent p q : fold_path p = fold_path q -> BlorgNodeChildBucket parent p = BlorgNodeChildBucket parent q.
Proof. intros E. unfold BlorgNodeChildBucket. by rewrite (hash_fold p q). Qed.
Lemma table_bucket_range (p : PATH) : 0 <= NodeTableBucketIndexFor p < NODE_TABLE_BUCKETS.
Proof.
  unfold NodeTableBucketIndexFor, NODE_TABLE_BUCKETS. change (32 - NODE_TABLE_BUCKET_BITS) with 24. change (Z.shiftl 1 NODE_TABLE_BUCKET_BITS) with 256.
  pose proof (hash_range p). rewrite Z.shiftr_div_pow2 by lia. change (2 ^ 24) with 16777216. split; [by apply Z.div_pos; lia|apply Z.div_lt_upper_bound; lia].
Qed.
Lemma table_bucket_ext (p q : PATH) : fold_path p = fold_path q -> NodeTableBucketIndexFor p = NodeTableBucketIndexFor q.
Proof. intros E. unfold NodeTableBucketIndexFor. by rewrite (hash_fold p q). Qed.

(** ** The invariant of the tree *)

Definition in_tree (n : NODE) : bool := match NodeTypeCode n with FcbSignature | DcbSignature => true | _ => false end.
Definition is_dir (n : NODE) : bool := match NodeTypeCode n with DcbSignature | RootDcbSignature => true | _ => false end.
Definition node_name (n : NODE) : PATH := fold_path (NodeGetLastComponent (FullPath n)).
Definition node_comps (n : NODE) : list PATH := match NodeTypeCode n with RootDcbSignature => [] | _ => folded (FullPath n) end.

Context (root vcb : Z).

Record tree_ok nodes ch : Prop := {
  t_root : exists r, nodes !! root = Some r /\ NodeTypeCode r = RootDcbSignature;
  t_vcb : exists v, nodes !! vcb = Some v /\ NodeTypeCode v = VcbSignature;
  t_only : forall a n, nodes !! a = Some n -> in_tree n = false -> a = root \/ a = vcb;
  t_parent : forall a n, nodes !! a = Some n -> in_tree n = true ->
    exists p, nodes !! ParentDcb n = Some p /\ is_dir p = true /\ a ∈ ChildrenList p /\ node_comps n = node_comps p ++ [node_name n];
  t_children : forall a n c, nodes !! a = Some n -> c ∈ ChildrenList n -> exists m, nodes !! c = Some m /\ in_tree m = true /\ ParentDcb m = a;
  t_distinct : forall a n, nodes !! a = Some n -> NoDup (ChildrenList n);
  t_bucket : forall a n, nodes !! a = Some n -> in_tree n = true -> TableBucketIndex n = NodeTableBucketIndexFor (FullPath n);
  t_index : forall a b l, rd ch b = Some l -> a ∈ l <-> exists n, nodes !! a = Some n /\ in_tree n = true /\ child_bucket n = b;
  t_chains : forall b l, rd ch b = Some l -> NoDup l;
  t_size : Z.of_nat (length ch) = NODE_CHILD_BUCKETS;
  t_names : forall a b m n, nodes !! a = Some m -> nodes !! b = Some n -> in_tree m = true -> in_tree n = true ->
    ParentDcb m = ParentDcb n -> node_name m = node_name n -> a = b
}.

Lemma dir_or_leaf nodes ch a n : tree_ok nodes ch -> nodes !! a = Some n -> is_dir n = false -> ChildrenList n = [].
Proof.
  intros Ht Hn Hd. destruct (ChildrenList n) as [|c l] eqn:E; [done|]. destruct (t_children _ _ Ht a n c Hn ltac:(rewrite E; left)) as (m & Hm & Hin & Hp).
  destruct (t_parent _ _ Ht c m Hm Hin) as (p & Hp' & Hdir & _). rewrite Hp, Hn in Hp'. injection Hp' as <-. congruence.
Qed.

(** ** Searching *)

Definition child_named nodes d (name : PATH) c : Prop := exists n, nodes !! c = Some n /\ in_tree n = true /\ ParentDcb n = d /\ node_name n = name.

Lemma search_chain_spec nodes d name l :
  Forall (fun c => exists n, nodes !! c = Some n /\ in_tree n = true) l ->
  exists r, search_chain nodes d name l = Some r /\
    match r with Some c => c ∈ l /\ child_named nodes d (fold_path name) c | None => forall c, c ∈ l -> ~ child_named nodes d (fold_path name) c end.
Proof.
  induction l as [|c l IH]; intros Hl. { exists None. split; [done|]. intros c Hc. by apply elem_of_nil in Hc. }
  apply Forall_cons in Hl as [(n & Hn & Hin) Hl]. specialize (IH Hl) as (r & Hr & IH). cbn [search_chain]. rewrite Hn. cbn [mbind option_bind].
  assert (Hskip : ~ child_named nodes d (fold_path name) c -> exists r, search_chain nodes d name l = Some r /\
    match r with Some c' => c' ∈ c :: l /\ child_named nodes d (fold_path name) c' | None => forall c', c' ∈ c :: l -> ~ child_named nodes d (fold_path name) c' end).
  { intros Hno. exists r. split; [done|]. destruct r as [c'|]; [split; [right|]; apply IH|]. intros c' [->|Hc']%elem_of_cons; [done|by apply IH]. }
  rewrite components_equal. destruct (Z.eqb_spec (ParentDcb n) d) as [Hd|Hd]; cbn [negb].
  - case_bool_decide as Hf.
    + exists (Some c). split; [done|]. split; [left|]. exists n. by split_and!.
    + apply Hskip. intros (n' & Hn' & _ & _ & Hnm). rewrite Hn in Hn'. injection Hn' as <-. by apply Hf.
  - apply Hskip. intros (n' & Hn' & _ & Hp & _). rewrite Hn in Hn'. by injection Hn' as <-.
Qed.

Lemma search_name_spec s d name :
  tree_ok (Nodes s) (NodeChildren s) ->
  exists r, NodeSearchByName s d name = Some r /\
    match r with Some c => child_named (Nodes s) d (fold_path name) c | None => forall c, ~ child_named (Nodes s) d (fold_path name) c end.
Proof.
  intros Ht. unfold NodeSearchByName. pose proof (child_bucket_range d name) as Hb. rewrite <- (t_size _ _ Ht) in Hb.
  destruct (rd_in_range _ _ Hb) as (l & Hl). rewrite Hl. cbn [mbind option_bind]. destruct (search_chain_spec (Nodes s) d name l) as (r & Hr & Hspec).
  { apply Forall_forall. intros c Hc. apply (t_index _ _ Ht _ _ _ Hl) in Hc as (n & ? & ? & _). by exists n. }
  exists r. split; [done|]. destruct r as [c|]; [apply Hspec|]. intros c (n & Hn & Hin & Hd & Hnm). apply (Hspec c); [|by exists n].
  apply (t_index _ _ Ht _ _ _ Hl). exists n. split_and!; try done. unfold child_bucket. rewrite Hd. by apply child_bucket_ext.
Qed.

(** The node a list of components leads to. *)
Inductive leads nodes : Z -> list PATH -> Z -> Prop :=
  | leads_here d : leads nodes d [] d
  | leads_on d name c cs a : child_named nodes d name c -> leads nodes c cs a -> leads nodes d (name :: cs) a.

Lemma child_unique nodes ch d name c c' : tree_ok nodes ch -> child_named nodes d name c -> child_named nodes d name c' -> c = c'.
Proof. intros Ht (m & Hm & Im & Pm & Nm) (n & Hn & In & Pn & Nn). eapply (t_names _ _ Ht c c' m n); congruence. Qed.

Lemma leads_unique nodes ch d cs a a' : tree_ok nodes ch -> leads nodes d cs a -> leads nodes d cs a' -> a = a'.
Proof.
  intros Ht Hl. revert a'. induction Hl as [|d name c cs a Hc _ IH]; intros a' Hl'; inversion Hl' as [|? ? c' ? ? Hc' Hl'' ]; subst; [done|].
  apply IH. by rewrite (child_unique _ _ _ _ _ _ Ht Hc Hc').
Qed.

Lemma search_loop_spec s fuel d p :
  tree_ok (Nodes s) (NodeChildren s) -> (length p < fuel)%nat ->
  exists r, search_loop fuel s d p = Some r /\ match r with Some a => leads (Nodes s) d (folded p) a | None => forall a, ~ leads (Nodes s) d (folded p) a end.
Proof.
  intros Ht. revert d p. induction fuel as [|fuel IH]; intros d p Hp; [lia|]. cbn [search_loop]. destruct (Nat.eqb_spec (length p) 0) as [E|E].
  { destruct p; [|done]. exists (Some d). split; [done|constructor]. }
  assert (Hne : p <> []) by (by destruct p). pose proof (dissect_shorter p Hne) as Hlt. unfold folded. rewrite comps_step by done.
  destruct (FsRtlDissectName p) as [f r]. cbn [fst snd fmap list_fmap] in *.
  destruct (search_name_spec s d f Ht) as (found & -> & Hfound). cbn [mbind option_bind]. destruct found as [c|].
  2: { exists None. split; [done|]. intros a Hl. inversion Hl; subst. by eapply Hfound. }
  pose proof Hfound as (n & Hn & Hin & Hd & Hnm). rewrite Hn. cbn [mbind option_bind].
  assert (Hnext : exists res, search_loop fuel s c r = Some res /\
    match res with Some a => leads (Nodes s) d (fold_path f :: folded r) a | None => forall a, ~ leads (Nodes s) d (fold_path f :: folded r) a end).
  { destruct (IH c r ltac:(lia)) as (res & Hres & Hspec). exists res. split; [done|]. destruct res as [a|]; [by econstructor|]. intros a Hl.
    inversion Hl as [|? ? c' ? ? Hc' Hl']; subst. apply (Hspec a). by rewrite (child_unique _ _ _ _ _ _ Ht Hfound Hc'). }
  destruct (NodeTypeCode n) eqn:Et; try exact Hnext.
  destruct (Nat.eqb_spec (length r) 0) as [Er|Er].
  - destruct r; [|done]. exists (Some c). split; [done|]. econstructor; [done|constructor].
  - exists None. split; [done|]. intros a Hl. inversion Hl as [|? ? c' ? ? Hc' Hl']; subst. rewrite <- (child_unique _ _ _ _ _ _ Ht Hfound Hc') in Hl'.
    destruct r as [|x r]; [done|]. unfold folded in Hl'. rewrite comps_step in Hl' by done. cbn [fmap list_fmap] in Hl'. inversion Hl' as [|? ? c'' ? ? Hc'' _]; subst.
    destruct Hc'' as (m & Hm & Im & Pm & _). destruct (t_parent _ _ Ht c'' m Hm Im) as (p' & Hp' & Hdir & _). rewrite Pm, Hn in Hp'. injection Hp' as <-. unfold is_dir in Hdir. by rewrite Et in Hdir.
Qed.

Lemma search_path_spec s d p :
  tree_ok (Nodes s) (NodeChildren s) ->
  exists r, BlorgSearchByPath s d p = Some r /\ match r with Some a => leads (Nodes s) d (folded p) a | None => forall a, ~ leads (Nodes s) d (folded p) a end.
Proof. intros Ht. apply search_loop_spec; [done|lia]. Qed.

(** ** Every node is where its path says *)

Lemma leads_snoc nodes d cs name a c : leads nodes d cs a -> child_named nodes a name c -> leads nodes d (cs ++ [name]) c.
Proof. induction 1 as [|? ? ? ? ? ? ? IH]; intros Hc; cbn [app]; econstructor; eauto; constructor. Qed.

Definition depth (n : NODE) : nat := length (node_comps n).

Lemma node_leads nodes ch a n : tree_ok nodes ch -> nodes !! a = Some n -> in_tree n = true -> leads nodes root (node_comps n) a.
Proof.
  intros Ht. remember (depth n) as k eqn:E. revert a n E. induction k as [k IH] using lt_wf_ind. intros a n -> Hn Hin.
  destruct (t_parent _ _ Ht a n Hn Hin) as (p & Hp & Hd & _ & Hc). rewrite Hc.
  assert (Hpl : leads nodes root (node_comps p) (ParentDcb n)).
  { destruct (in_tree p) eqn:Ep. { eapply (IH (depth p)); try done. unfold depth. rewrite Hc, length_app. cbn. lia. }
    destruct (t_only _ _ Ht _ _ Hp Ep) as [Er|Er].
    - rewrite Er. unfold in_tree, is_dir, node_comps in *. destruct (NodeTypeCode p); try done. constructor.
    - destruct (t_vcb _ _ Ht) as (v & Hv & Tv). rewrite Er, Hv in Hp. injection Hp as <-. unfold is_dir in Hd. by rewrite Tv in Hd. }
  eapply leads_snoc; [exact Hpl|]. exists n. by split_and!.
Qed.

(** One node per path: whatever the case and the doubled separators, a path has
    at most one resident node. *)
Lemma one_node_per_path nodes ch a b m n :
  tree_ok nodes ch -> nodes !! a = Some m -> nodes !! b = Some n -> in_tree m = true -> in_tree n = true -> folded (FullPath m) = folded (FullPath n) -> a = b.
Proof.
  intros Ht Hm Hn Im In E. apply (node_leads _ _ _ _ Ht Hm) in Im as Lm. apply (node_leads _ _ _ _ Ht Hn) in In as Ln.
  assert (node_comps m = node_comps n) as Ec by (unfold node_comps, in_tree in *; by destruct (NodeTypeCode m), (NodeTypeCode n)).
  rewrite Ec in Lm. by eapply leads_unique.
Qed.

Lemma parent_depth nodes ch a n p : tree_ok nodes ch -> nodes !! a = Some n -> in_tree n = true -> nodes !! ParentDcb n = Some p -> depth n = S (depth p).
Proof.
  intros Ht Hn Hin Hp. destruct (t_parent _ _ Ht a n Hn Hin) as (p' & Hp' & _ & _ & Hc). rewrite Hp in Hp'. injection Hp' as <-.
  unfold depth. rewrite Hc, length_app. cbn. lia.
Qed.
Lemma parent_not_self nodes ch a n : tree_ok nodes ch -> nodes !! a = Some n -> in_tree n = true -> ParentDcb n <> a.
Proof. intros Ht Hn Hin E. assert (Hp : nodes !! ParentDcb n = Some n) by (by rewrite E). pose proof (parent_depth _ _ _ _ _ Ht Hn Hin Hp). lia. Qed.
Lemma depth_path n : (depth n <= length (FullPath n))%nat.
Proof. unfold depth, node_comps, folded. destruct (NodeTypeCode n); cbn [length]; rewrite ?length_fmap; (apply comps_length || lia). Qed.

(** ** Lists changed in one place *)

Lemma unlink_first_elem x l a : NoDup l -> a ∈ unlink_first x l <-> a ∈ l /\ a <> x.
Proof.
  induction l as [|y l IH]; intros Hd; [cbn; set_solver|]. apply NoDup_cons in Hd as [Hy Hd]. cbn [unlink_first]. destruct (Z.eqb_spec y x) as [->|Hn].
  - rewrite elem_of_cons. split; [|tauto]. intros Ha. split; [by right|]. by intros ->.
  - rewrite !elem_of_cons, IH by done. split; [intros [->|[? ?]]; tauto|tauto].
Qed.
Lemma unlink_first_nodup x l : NoDup l -> NoDup (unlink_first x l).
Proof.
  induction l as [|y l IH]; intros Hd; [constructor|]. pose proof Hd as [Hy Hd']%NoDup_cons. cbn [unlink_first]. destruct (Z.eqb_spec y x); [done|].
  constructor; [|by apply IH]. by rewrite unlink_first_elem by done; intros [? _].
Qed.

Lemma put_list_spec (ll : list (list Z)) i f :
  0 <= i < Z.of_nat (length ll) ->
  exists l ll', rd ll i = Some l /\ put_list ll i f = Some ll' /\ length ll' = length ll /\ forall j, rd ll' j = if decide (i = j) then Some (f l) else rd ll j.
Proof.
  intros Hi. destruct (rd_in_range _ _ Hi) as (l & Hl). destruct (wr_exists ll i (f l) l Hl) as (ll' & Hw). exists l, ll'. unfold put_list. rewrite Hl. cbn [mbind option_bind].
  split_and!; try done; [by eapply wr_length|]. intros j. by eapply rd_wr.
Qed.

(** ** Adopting a node *)

Record can_adopt nodes (parent addr : Z) (n : NODE) : Prop := {
  ad_parent : exists p, nodes !! parent = Some p /\ is_dir p = true /\ folded (FullPath n) = node_comps p ++ [node_name n];
  ad_fresh : nodes !! addr = None;
  ad_type : in_tree n = true;
  ad_leaf : ChildrenList n = [];
  ad_bucket : TableBucketIndex n = NodeTableBucketIndexFor (FullPath n);
  ad_new : forall c, ~ child_named nodes parent (node_name n) c
}.


(** Nodes that agree but for their children. *)
Definition alike (x y : NODE) : Prop := exists l, x = with_ChildrenList y l.
Lemma node_alike_refl x : alike x x.
Proof. exists (ChildrenList x). by destruct x. Qed.

Section Adopting.
Context (nodes : gmap Z NODE) (ch ch' : list (list Z)) (parent addr : Z) (n p : NODE) (l : list Z).
Context (Ht : tree_ok nodes ch) (Had : can_adopt nodes parent addr n) (Hp : nodes !! parent = Some p).
Let n' : NODE := with_ParentDcb n parent.
Let p' : NODE := with_ChildrenList p (ChildrenList p ++ [addr]).
Let nodes' : gmap Z NODE := <[addr := n']> (<[parent := p']> nodes).
Context (Hl : rd ch (child_bucket n') = Some l) (Hlen : length ch' = length ch).
Context (Hrd : forall j, rd ch' j = if decide (child_bucket n' = j) then Some (addr :: l) else rd ch j).

Lemma adopted_at a : nodes' !! a = if decide (a = addr) then Some n' else if decide (a = parent) then Some p' else nodes !! a.
Proof using All.
  unfold nodes'. destruct (decide (a = addr)) as [->|]; [by rewrite lookup_insert_eq|]. rewrite lookup_insert_ne by done.
  destruct (decide (a = parent)) as [->|]; [by rewrite lookup_insert_eq|by rewrite lookup_insert_ne].
Qed.
Lemma adopted_new x : nodes' !! addr = Some x -> x = n'.
Proof using All. rewrite adopted_at, decide_True by done. by intros [= <-]. Qed.
Lemma adopted_self : nodes' !! addr = Some n'.
Proof using All. by rewrite adopted_at, decide_True. Qed.
Lemma adopted_old a x : nodes' !! a = Some x -> a <> addr -> exists y, nodes !! a = Some y /\ alike x y /\ (ChildrenList x = ChildrenList y \/ a = parent /\ ChildrenList x = ChildrenList y ++ [addr]).
Proof using All.
  rewrite adopted_at. intros Hx Hna. rewrite decide_False in Hx by done. destruct (decide (a = parent)) as [->|].
  - injection Hx as <-. exists p. split_and!; [done|by eexists|by right].
  - exists x. split_and!; [done|apply node_alike_refl|by left].
Qed.
Lemma adopted_keep a x : nodes !! a = Some x -> exists y, nodes' !! a = Some y /\ alike y x /\ (forall c, c ∈ ChildrenList x -> c ∈ ChildrenList y) /\ a <> addr.
Proof using All.
  intros Hx. rewrite adopted_at. destruct (decide (a = addr)) as [->|Hna]; [pose proof (ad_fresh _ _ _ _ Had); congruence|]. destruct (decide (a = parent)) as [->|].
  - rewrite Hp in Hx. injection Hx as <-. exists p'. split_and!; [done|by eexists|intros c Hc; apply elem_of_app; by left|done].
  - exists x. split_and!; [done|apply node_alike_refl|done|done].
Qed.

Lemma adopted_parent a x : nodes' !! a = Some x -> in_tree x = true ->
  exists q, nodes' !! ParentDcb x = Some q /\ is_dir q = true /\ a ∈ ChildrenList q /\ node_comps x = node_comps q ++ [node_name x].
Proof using All.
  intros Hx Hin. destruct (decide (a = addr)) as [->|Hna].
  - apply adopted_new in Hx as ->. destruct (ad_parent _ _ _ _ Had) as (q & Hq & Hd & Hc). rewrite Hp in Hq. injection Hq as <-. exists p'.
    destruct (adopted_keep _ _ Hp) as (_ & _ & _ & _ & Hne). cbn [n' with_ParentDcb ParentDcb]. rewrite adopted_at, decide_False, decide_True by done.
    split_and!; [done|done|apply elem_of_app; right; by apply list_elem_of_singleton|]. pose proof (ad_type _ _ _ _ Had) as Hty. unfold node_comps, node_name, in_tree in *. cbn. by destruct (NodeTypeCode n).
  - destruct (adopted_old _ _ Hx Hna) as (y & Hy & [lx ->] & _). destruct (t_parent _ _ Ht a y Hy Hin) as (q & Hq & Dq & Cq & Nq).
    destruct (adopted_keep _ _ Hq) as (q' & Hq' & [lq ->] & Cq' & _). eexists. split_and!; [exact Hq'|done|by apply Cq'|done].
Qed.

Lemma adopted_children a x c : nodes' !! a = Some x -> c ∈ ChildrenList x -> exists m, nodes' !! c = Some m /\ in_tree m = true /\ ParentDcb m = a.
Proof using All.
  intros Hx Hc. destruct (decide (a = addr)) as [->|Hna].
  { apply adopted_new in Hx as ->. cbn in Hc. rewrite (ad_leaf _ _ _ _ Had) in Hc. by apply elem_of_nil in Hc. }
  destruct (adopted_old _ _ Hx Hna) as (y & Hy & _ & Hxy). assert (c ∈ ChildrenList y \/ c = addr /\ a = parent) as [Hcy|[-> ->]].
  { destruct Hxy as [<-|[-> E]]; [by left|]. rewrite E in Hc. apply elem_of_app in Hc as [?|?%list_elem_of_singleton]; [by left|by right]. }
  - destruct (t_children _ _ Ht a y c Hy Hcy) as (z & Hz & Iz & Pz). destruct (adopted_keep _ _ Hz) as (z' & Hz' & [lz ->] & _). by eexists.
  - exists n'. split_and!; [apply adopted_self|apply (ad_type _ _ _ _ Had)|done].
Qed.

Lemma adopted_distinct a x : nodes' !! a = Some x -> NoDup (ChildrenList x).
Proof using All.
  intros Hx. destruct (decide (a = addr)) as [->|Hna]. { apply adopted_new in Hx as ->. cbn. rewrite (ad_leaf _ _ _ _ Had). constructor. }
  destruct (adopted_old _ _ Hx Hna) as (y & Hy & _ & Hxy). pose proof (t_distinct _ _ Ht a y Hy) as Hd. destruct Hxy as [->|[-> ->]]; [done|].
  apply NoDup_app. split_and!; [done| |apply NoDup_singleton]. intros c Hc ->%list_elem_of_singleton.
  destruct (t_children _ _ Ht _ _ _ Hy Hc) as (z & Hz & _). by destruct (adopted_keep _ _ Hz) as (_ & _ & _ & _ & ?).
Qed.

Lemma adopted_index a b lb : rd ch' b = Some lb -> a ∈ lb <-> exists x, nodes' !! a = Some x /\ in_tree x = true /\ child_bucket x = b.
Proof using All.
  rewrite Hrd. assert (Hiff : forall lb0, rd ch b = Some lb0 -> a <> addr -> a ∈ lb0 <-> exists x, nodes' !! a = Some x /\ in_tree x = true /\ child_bucket x = b).
  { intros lb0 Hlb0 Hna. rewrite (t_index _ _ Ht a b lb0 Hlb0). split; intros (x & Hx & Ix & Bx).
    - destruct (adopted_keep _ _ Hx) as (x' & Hx' & [lx ->] & _). by eexists.
    - destruct (adopted_old _ _ Hx Hna) as (y & Hy & [lx ->] & _). by exists y. }
  destruct (decide (child_bucket n' = b)) as [<-|Hb]; intros Hlb.
  - injection Hlb as <-. rewrite elem_of_cons. destruct (decide (a = addr)) as [->|Hna].
    + split; [|by left]. intros _. exists n'. split_and!; [apply adopted_self|apply (ad_type _ _ _ _ Had)|done].
    + rewrite <- (Hiff l Hl Hna). split; [intros [->|?]; done|by right].
  - destruct (decide (a = addr)) as [->|Hna]; [|by apply Hiff]. split.
    + intros Hin. apply (t_index _ _ Ht _ _ _ Hlb) in Hin as (x & Hx & _). by destruct (adopted_keep _ _ Hx) as (_ & _ & _ & _ & ?).
    + by intros (x & ->%adopted_new & _ & Bx).
Qed.

Lemma adopted_chains b lb : rd ch' b = Some lb -> NoDup lb.
Proof using All.
  rewrite Hrd. destruct (decide (child_bucket n' = b)) as [<-|]; [|apply (t_chains _ _ Ht)]. intros [= <-]. constructor; [|by eapply (t_chains _ _ Ht)].
  intros Hin. apply (t_index _ _ Ht _ _ _ Hl) in Hin as (x & Hx & _). by destruct (adopted_keep _ _ Hx) as (_ & _ & _ & _ & ?).
Qed.

Lemma adopted_names a b x y : nodes' !! a = Some x -> nodes' !! b = Some y -> in_tree x = true -> in_tree y = true -> ParentDcb x = ParentDcb y -> node_name x = node_name y -> a = b.
Proof using All.
  assert (Hnew : forall a x, nodes' !! a = Some x -> a <> addr -> in_tree x = true -> ParentDcb x = parent -> node_name x <> node_name n).
  { intros a0 x0 Hx Hna Ix Px Nx. destruct (adopted_old _ _ Hx Hna) as (z & Hz & [lz ->] & _). apply (ad_new _ _ _ _ Had a0). by exists z. }
  intros Hx Hy Ix Iy Pxy Nxy. destruct (decide (a = addr)) as [->|Hna], (decide (b = addr)) as [->|Hnb]; [done| | |].
  - apply adopted_new in Hx as ->. by destruct (Hnew _ _ Hy Hnb Iy (eq_sym Pxy) (eq_sym Nxy)).
  - apply adopted_new in Hy as ->. by destruct (Hnew _ _ Hx Hna Ix Pxy Nxy).
  - destruct (adopted_old _ _ Hx Hna) as (x0 & Hx0 & [lx ->] & _), (adopted_old _ _ Hy Hnb) as (y0 & Hy0 & [ly ->] & _). by eapply (t_names _ _ Ht a b x0 y0).
Qed.

Lemma adopted_tree : tree_ok nodes' ch'.
Proof using All.
  split.
  - destruct (t_root _ _ Ht) as (r & Hr & Tr). destruct (adopted_keep _ _ Hr) as (y & ? & [ly ->] & _). by eexists.
  - destruct (t_vcb _ _ Ht) as (r & Hr & Tr). destruct (adopted_keep _ _ Hr) as (y & ? & [ly ->] & _). by eexists.
  - intros a x Hx Hin. destruct (decide (a = addr)) as [->|Hna]. { apply adopted_new in Hx as ->. pose proof (ad_type _ _ _ _ Had). unfold in_tree in *. cbn in Hin. congruence. }
    destruct (adopted_old _ _ Hx Hna) as (y & Hy & [lx ->] & _). exact (t_only _ _ Ht a y Hy Hin).
  - apply adopted_parent.
  - apply adopted_children.
  - apply adopted_distinct.
  - intros a x Hx Hin. destruct (decide (a = addr)) as [->|Hna]. { apply adopted_new in Hx as ->. apply (ad_bucket _ _ _ _ Had). }
    destruct (adopted_old _ _ Hx Hna) as (y & Hy & [lx ->] & _). exact (t_bucket _ _ Ht a y Hy Hin).
  - apply adopted_index.
  - apply adopted_chains.
  - rewrite Hlen. apply (t_size _ _ Ht).
  - apply adopted_names.
Qed.
End Adopting.

(** The nodes after: the new one, the parent with one more child, and the rest
    as they were. *)
Lemma adopt_ok s parent addr n m pool :
  tree_ok (Nodes s) (NodeChildren s) -> can_adopt (Nodes s) parent addr n ->
  exists s' p, adopt s parent addr n m pool = Some s' /\ Nodes s !! parent = Some p /\ tree_ok (Nodes s') (NodeChildren s') /\
    Nodes s' = <[addr := with_ParentDcb n parent]> (<[parent := with_ChildrenList p (ChildrenList p ++ [addr])]> (Nodes s)) /\
    Counters s' = <[addr := counters_zero]> (Counters s) /\ NodeTable s' = NodeTable s /\ NodeReap s' = NodeReap s /\ Pool s' = pool.
Proof.
  intros Ht Had. pose proof (ad_parent _ _ _ _ Had) as (p & Hp & _). unfold adopt. rewrite Hp. cbn [mbind option_bind].
  set (n' := with_ParentDcb n parent). pose proof (child_bucket_range (ParentDcb n') (NodeGetLastComponent (FullPath n'))) as Hr. rewrite <- (t_size _ _ Ht) in Hr.
  destruct (put_list_spec (NodeChildren s) (child_bucket n') (cons addr) Hr) as (l & ch' & Hl & Hch & Hlen & Hrd). unfold NodeChildLink. rewrite Hch. cbn [mbind option_bind].
  eexists _, p. split; [done|]. split; [done|]. split; [|done]. exact (adopted_tree (Nodes s) (NodeChildren s) ch' parent addr n p l Ht Had Hp Hl Hlen Hrd).
Qed.

(** ** Freeing a node *)

Section Freeing.
Context (nodes : gmap Z NODE) (ch ch' : list (list Z)) (addr : Z) (n p : NODE) (l : list Z).
Context (Ht : tree_ok nodes ch) (Hn : nodes !! addr = Some n) (Hin : in_tree n = true) (Hleaf : ChildrenList n = []) (Hp : nodes !! ParentDcb n = Some p).
Let p' : NODE := with_ChildrenList p (unlink_first addr (ChildrenList p)).
Let nodes' : gmap Z NODE := delete addr (<[ParentDcb n := p']> nodes).
Context (Hl : rd ch (child_bucket n) = Some l) (Hlen : length ch' = length ch).
Context (Hrd : forall j, rd ch' j = if decide (child_bucket n = j) then Some (unlink_first addr l) else rd ch j).

Lemma freed_old a x : nodes' !! a = Some x -> a <> addr /\ exists y, nodes !! a = Some y /\ alike x y /\ (forall c, c ∈ ChildrenList x -> c ∈ ChildrenList y /\ c <> addr) /\ NoDup (ChildrenList x).
Proof using All.
  intros Hx. unfold nodes' in Hx. destruct (decide (a = addr)) as [->|Hna]; [by rewrite lookup_delete_eq in Hx|]. rewrite lookup_delete_ne in Hx by done. split; [done|].
  destruct (decide (a = ParentDcb n)) as [->|Hnp].
  - rewrite lookup_insert_eq in Hx. injection Hx as <-. pose proof (t_distinct _ _ Ht _ _ Hp) as Hd. exists p. split_and!; [done|by eexists| |by apply unlink_first_nodup].
    intros c Hc. by apply (unlink_first_elem addr (ChildrenList p) c Hd).
  - rewrite lookup_insert_ne in Hx by done. exists x. split_and!; [done|apply node_alike_refl| |by eapply (t_distinct _ _ Ht)].
    intros c Hc. split; [done|]. intros ->. destruct (t_children _ _ Ht a x addr Hx Hc) as (m & Hm & _ & Pm). congruence.
Qed.
Lemma freed_keep a x : nodes !! a = Some x -> a <> addr -> exists y, nodes' !! a = Some y /\ alike y x /\ (forall c, c ∈ ChildrenList x -> c <> addr -> c ∈ ChildrenList y).
Proof using All.
  intros Hx Hna. unfold nodes'. rewrite lookup_delete_ne by done. destruct (decide (a = ParentDcb n)) as [->|Hnp].
  - rewrite lookup_insert_eq. rewrite Hp in Hx. injection Hx as <-. pose proof (t_distinct _ _ Ht _ _ Hp) as Hd. exists p'. split_and!; [done|by eexists|].
    intros c Hc Hca. by apply (unlink_first_elem addr (ChildrenList p) c Hd).
  - rewrite lookup_insert_ne by done. exists x. split_and!; [done|apply node_alike_refl|done].
Qed.
Lemma freed_not_parent a x : nodes !! a = Some x -> in_tree x = true -> ParentDcb x <> addr.
Proof using All.
  intros Hx Ix E. destruct (t_parent _ _ Ht a x Hx Ix) as (q & Hq & _ & Hc & _). rewrite E, Hn in Hq. injection Hq as <-. rewrite Hleaf in Hc. by apply elem_of_nil in Hc.
Qed.

Lemma freed_index a b lb : rd ch' b = Some lb -> a ∈ lb <-> exists x, nodes' !! a = Some x /\ in_tree x = true /\ child_bucket x = b.
Proof using All.
  rewrite Hrd. assert (Hiff : forall lb0, rd ch b = Some lb0 -> (a ∈ lb0 /\ a <> addr) <-> exists x, nodes' !! a = Some x /\ in_tree x = true /\ child_bucket x = b).
  { intros lb0 Hlb0. rewrite (t_index _ _ Ht a b lb0 Hlb0). split.
    - intros [(x & Hx & Ix & Bx) Hna]. destruct (freed_keep _ _ Hx Hna) as (x' & Hx' & [lx ->] & _). by eexists.
    - intros (x & Hx & Ix & Bx). destruct (freed_old _ _ Hx) as (Hna & y & Hy & [lx ->] & _). split; [by exists y|done]. }
  destruct (decide (child_bucket n = b)) as [<-|Hb]; intros Hlb.
  - injection Hlb as <-. rewrite unlink_first_elem by (by eapply (t_chains _ _ Ht)). by apply Hiff.
  - rewrite <- (Hiff lb Hlb). split; [|tauto]. intros Ha. split; [done|]. intros ->. apply (t_index _ _ Ht _ _ _ Hlb) in Ha as (x & Hx & _ & Bx). congruence.
Qed.

Lemma freed_tree : tree_ok nodes' ch'.
Proof using All.
  assert (Hnt : forall a x, nodes !! a = Some x -> in_tree x = false -> a <> addr) by (intros a x Hx Ix ->; congruence).
  split.
  - destruct (t_root _ _ Ht) as (r & Hr & Tr). destruct (freed_keep _ _ Hr) as (y & ? & [ly ->] & _); [eapply Hnt; [done|]; unfold in_tree; by rewrite Tr|]. by eexists.
  - destruct (t_vcb _ _ Ht) as (r & Hr & Tr). destruct (freed_keep _ _ Hr) as (y & ? & [ly ->] & _); [eapply Hnt; [done|]; unfold in_tree; by rewrite Tr|]. by eexists.
  - intros a x Hx Ix. destruct (freed_old _ _ Hx) as (_ & y & Hy & [lx ->] & _). exact (t_only _ _ Ht a y Hy Ix).
  - intros a x Hx Ix. destruct (freed_old _ _ Hx) as (Hna & y & Hy & [lx ->] & _). destruct (t_parent _ _ Ht a y Hy Ix) as (q & Hq & Dq & Cq & Nq).
    destruct (freed_keep _ _ Hq (freed_not_parent _ _ Hy Ix)) as (q' & Hq' & [lq ->] & Cq'). eexists. split_and!; [exact Hq'|done|by apply Cq'|done].
  - intros a x c Hx Hc. destruct (freed_old _ _ Hx) as (Hna & y & Hy & _ & Hxy & _). apply Hxy in Hc as [Hc Hca]. destruct (t_children _ _ Ht a y c Hy Hc) as (z & Hz & Iz & Pz).
    destruct (freed_keep _ _ Hz Hca) as (z' & Hz' & [lz ->] & _). by eexists.
  - intros a x Hx. by destruct (freed_old _ _ Hx) as (_ & y & _ & _ & _ & ?).
  - intros a x Hx Ix. destruct (freed_old _ _ Hx) as (_ & y & Hy & [lx ->] & _). exact (t_bucket _ _ Ht a y Hy Ix).
  - apply freed_index.
  - intros b lb. rewrite Hrd. destruct (decide (child_bucket n = b)) as [<-|]; [|apply (t_chains _ _ Ht)]. intros [= <-]. apply unlink_first_nodup. by eapply (t_chains _ _ Ht).
  - rewrite Hlen. apply (t_size _ _ Ht).
  - intros a b x y Hx Hy Ix Iy Pxy Nxy. destruct (freed_old _ _ Hx) as (_ & x0 & Hx0 & [lx ->] & _), (freed_old _ _ Hy) as (_ & y0 & Hy0 & [ly ->] & _).
    by eapply (t_names _ _ Ht a b x0 y0).
Qed.
End Freeing.

Lemma free_ok s addr n :
  tree_ok (Nodes s) (NodeChildren s) -> Nodes s !! addr = Some n -> in_tree n = true -> ChildrenList n = [] ->
  exists s' p, BlorgFreeFileContext s addr = Some s' /\ Nodes s !! ParentDcb n = Some p /\ tree_ok (Nodes s') (NodeChildren s') /\
    Nodes s' = delete addr (<[ParentDcb n := with_ChildrenList p (unlink_first addr (ChildrenList p))]> (Nodes s)) /\
    Counters s' = delete addr (Counters s) /\ NodeTable s' = NodeTable s /\ NodeReap s' = NodeReap s /\
    Pool s' = pool_minus (Pool s) (node_pool (bool_decide (NodeTypeCode n = FcbSignature)) true).
Proof.
  intros Ht Hn Hin Hleaf. destruct (t_parent _ _ Ht addr n Hn Hin) as (p & Hp & _ & Hc & _).
  pose proof (child_bucket_range (ParentDcb n) (NodeGetLastComponent (FullPath n))) as Hr. rewrite <- (t_size _ _ Ht) in Hr.
  destruct (put_list_spec (NodeChildren s) (child_bucket n) (unlink_first addr) Hr) as (l & ch' & Hl & Hch & Hlen & Hrd).
  pose proof (freed_tree (Nodes s) (NodeChildren s) ch' addr n p l Ht Hn Hin Hleaf Hp Hl Hlen Hrd) as Hok.
  unfold BlorgFreeFileContext, NodeChildUnlink. rewrite Hn. cbn [mbind option_bind]. unfold in_tree in Hin.
  destruct (NodeTypeCode n) eqn:Et; try done; rewrite Hch; cbn [mbind option_bind]; rewrite Hp; cbn [mbind option_bind]; rewrite bool_decide_true by done;
    (eexists _, p; split; [done|]; split; [done|]; split; [exact Hok|done]).
Qed.
End Tree.
