(* ===== verification/Opens.v ===== *)
(** * Opens, closes and the reap worker (src/Create.c, src/Close.c,
      src/Cleanup.c, src/Structs.c)

    Every handler that touches resident nodes, as a program over the calls it
    makes on what the handlers share: the locks, the counts of a node, the
    node table, the tree, the reap list, the IRP queues.  A call is one
    interlocked operation, or what is done under one hold of a bucket lock or
    of the reap list's lock; programs running on several processors are
    interleaved call by call.  What the kernel, the path cache and the server
    answer is a question.  The counters of src/Statistics.c, the stamp
    an open clears for one of them and the debug prints are left out. *)

From S2P Require Import Prelude UnicodePath PathCache ClientText Nodes.

Definition STATUS_SHARING_VIOLATION : NTSTATUS := nt 0xC0000043.
Definition STATUS_OBJECT_NAME_INVALID : NTSTATUS := nt 0xC0000033.
Definition STATUS_NO_MEMORY : NTSTATUS := nt 0xC0000017.
Definition STATUS_FILE_IS_A_DIRECTORY : NTSTATUS := nt 0xC00000BA.
Definition STATUS_NOT_A_DIRECTORY : NTSTATUS := nt 0xC0000103.
Definition STATUS_DEVICE_REMOVED : NTSTATUS := nt 0xC00002B6.
Definition STATUS_CANCELLED : NTSTATUS := nt 0xC0000120.
Definition STATUS_INVALID_DEVICE_REQUEST : NTSTATUS := nt 0xC0000010.

Definition FILE_OPEN : Z := 1.
Definition FILE_OPEN_IF : Z := 3.
Definition FILE_DIRECTORY_FILE : Z := 0x1.
Definition FILE_NON_DIRECTORY_FILE : Z := 0x40.
Definition FILE_COMPLETE_IF_OPLOCKED : Z := 0x100.

(** ** Access *)

(** [DELETE | READ_CONTROL | WRITE_OWNER | WRITE_DAC | SYNCHRONIZE |
    ACCESS_SYSTEM_SECURITY | FILE_READ_DATA | FILE_READ_EA | FILE_WRITE_EA |
    FILE_READ_ATTRIBUTES | FILE_WRITE_ATTRIBUTES | FILE_EXECUTE |
    FILE_LIST_DIRECTORY | FILE_TRAVERSE | MAXIMUM_ALLOWED] *)
Definition BLORGFS_READ_ONLY_ACCESS : Z :=
  foldr Z.lor 0 [0x10000; 0x20000; 0x80000; 0x40000; 0x100000; 0x1000000; 0x1; 0x8; 0x10; 0x80; 0x100; 0x20; 0x1; 0x20; 0x2000000].
(** [FILE_ADD_SUBDIRECTORY | FILE_ADD_FILE | FILE_DELETE_CHILD] *)
Definition BLORGFS_DIRECTORY_CHILD_ACCESS : Z := foldr Z.lor 0 [0x4; 0x2; 0x40].

Definition CreateCheckFileAccess (desired : Z) : bool := Z.land desired (Z.lnot BLORGFS_READ_ONLY_ACCESS) =? 0.
Definition CreateCheckDirectoryAccess (desired : Z) : bool :=
  Z.land desired (Z.lnot (Z.lor BLORGFS_READ_ONLY_ACCESS BLORGFS_DIRECTORY_CHILD_ACCESS)) =? 0.

(** ** What an open is *)

(** What does not change while the IRP is with the driver; [c_Related] is the
    related file object, which stays open for as long. *)
Record CREATE_PARAMS := mkCreate {
  c_FileName : PATH;
  c_Related : option Z;
  c_Options : Z;
  c_DesiredAccess : Z
}.

Record CREATE_NET_RESULT := mkNetResult { nr_Ticket : PATH_CACHE_TICKET; nr_Meta : DIRECTORY_ENTRY_METADATA }.

(** The IRP's flags [NET_DONE] and [IN_FSP], and its stash. *)
Record CREATE_IRP := mkCreateIrp { ci_Id : Z; ci_NetDone : bool; ci_InFsp : bool; ci_Stash : option CREATE_NET_RESULT }.

Definition flag (c_options bit : Z) : bool := negb (Z.land c_options bit =? 0).

(** ** Paths *)

(** The path of a relative open: the parent's, a separator unless it ends with
    one, and the name. *)
Definition join_path (parent name : PATH) : PATH := parent ++ (if ends_with_sep parent then [] else [SEP]) ++ name.
Definition joined_length (parent name : PATH) : Z := path_bytes parent + (if ends_with_sep parent then 0 else 2) + path_bytes name.

(** One trailing separator is dropped, but for the root's. *)
Definition strip_separator (p : PATH) : PATH := if (4 <=? path_bytes p) && ends_with_sep p then take (length p - 1) p else p.
Definition is_root_path (p : PATH) : bool := bool_decide (p = [SEP]).

(** [None] is [FALSE]. *)
Definition CreateSplitPathLeaf (p : PATH) : option (PATH * PATH) :=
  if path_bytes p <? 2 then None
  else
    let chars := last_sep (length p) p in
    if (chars =? 0)%nat then Some ([], p)
    else if (chars =? length p)%nat then None
    else Some (take (chars - 1) p, drop chars p).

(** ** Calls *)

(** Asked of the path cache, the listings, the server and the kernel. *)
Inductive OPEN_QUESTION :=
  | AskTicket                                          (* BlorgPathCacheTakeTicket *)
  | AskTicketCurrent (t : PATH_CACHE_TICKET)           (* BlorgPathCacheTicketCurrent *)
  | AskPeek (p : PATH)                                 (* BlorgPathCachePeek *)
  | AskPathCache (p : PATH)                            (* BlorgPathCacheLookupDated *)
  | AskListing (parent leaf : PATH) (t : PATH_CACHE_TICKET) (* BlorgPathCacheLookupListing, CreateFindEntryByName *)
  | AskRemember (p : PATH) (m : option DIRECTORY_ENTRY_METADATA) (t : PATH_CACHE_TICKET). (* BlorgPathCacheInsertExists, ..NotFound *)
Definition open_reply (q : OPEN_QUESTION) : Type :=
  match q with
  | AskTicket => PATH_CACHE_TICKET
  | AskTicketCurrent _ => bool
  | AskPeek _ | AskPathCache _ => PATH_CACHE_RESULT
  | AskListing _ _ _ => option (option DIRECTORY_ENTRY_METADATA) * PATH_CACHE_TICKET
  | AskRemember _ _ _ => unit
  end.

(** Asked of the kernel about a node. *)
Inductive NODE_QUESTION :=
  | AskOpenCount                                       (* ShareAccess.OpenCount, without a lock *)
  | AskShareAccess (first : bool)                      (* CreateApplyShareAccess *)
  | AskPurge                                           (* OpenCount, MmFlushImageSection, CcPurgeCacheSection *)
  | AskSetSizes                                        (* CcIsFileCached, CcSetFileSizes *)
  | AskCleanup.                                        (* IoRemoveShareAccess, FsRtlFastUnlockAll, FsRtlCheckOplock *)
Definition node_reply (q : NODE_QUESTION) : Type :=
  match q with
  | AskOpenCount => Z
  | AskShareAccess _ => NTSTATUS
  | AskPurge => bool
  | AskSetSizes | AskCleanup => unit
  end.

Inductive OPEN_CALL :=
  | AskOpen (q : OPEN_QUESTION)
  | AskNode (n : Z) (q : NODE_QUESTION)
  | ReadNode (n : Z)                                   (* what never changes of a node *)
  | ReadRelated (fo : Z)                               (* the same, of the file object's node *)
  (* locks; the bucket lock is taken shared *)
  | AcquireVcb | ReleaseVcb
  | AcquireResource (n : Z) | ReleaseResource (n : Z)
  | AcquireBucket (b : Z) | ReleaseBucket (b : Z)
  (* counts *)
  | LookupPin (p : PATH)
  | DropPin (n : Z) | DropRef (n : Z) | CloseRef (n : Z)
  | OpenRef (n : Z) | UndoRef (n : Z)
  | ReadRefCount (n : Z) | ReadPinCount (n : Z)
  | MarkUnclean (n : Z) | UnmarkUnclean (n : Z)
  (* the reap list *)
  | ClaimReap (n : Z) | PushReap (n : Z) | KickReap | QueueReap | TakeReapList | ClearQueued
  (* under a bucket lock exclusive *)
  | RetireNode (n : Z) | PublishNode (n : Z) | JudgeNode (n : Z)
  (* the tree *)
  | SearchPath (p : PATH) | SearchName (d : Z) (name : PATH)
  | CreateFcbIn (d : Z) (p : PATH) (m : DIRECTORY_ENTRY_METADATA) | CreateDcbIn (d : Z) (p : PATH)
  | ChildrenEmpty (n : Z) | FreeNode (n : Z)
  (* what an FCB knows of its file *)
  | ReadMeta (n : Z) | WriteMeta (n : Z) (m : METADATA)
  (* memory *)
  | AllocateCcb | FreeCcb | AllocateBlock | FreeBlock | FreeStash (irp : CREATE_IRP)
  (* the IRP and its file object *)
  | CheckOplock (n : Z) (irp : CREATE_IRP)             (* FsRtlCheckOplock, FsRtlOplockBreakH *)
  | SetFileObject (irp : CREATE_IRP) (n : Z)
  | PostCreate (irp : CREATE_IRP)                      (* BlorgFsdPostRequest *)
  | RequeueCreate (irp : CREATE_IRP)                   (* BlorgFsdRequeueRequest *)
  | IssueLookup (irp : CREATE_IRP) (p : PATH) (t : PATH_CACHE_TICKET) (* BlorgHttpGetFileInformation *)
  | CompleteCreate (irp : CREATE_IRP) (st : NTSTATUS)
  | FinishCleanup (fo n : Z).                          (* completion of IRP_MJ_CLEANUP *)
Definition open_answer (c : OPEN_CALL) : Type :=
  match c with
  | AskOpen q => open_reply q
  | AskNode _ q => node_reply q
  | ReadNode _ | ReadRelated _ => NODE
  | LookupPin _ | SearchPath _ | SearchName _ _ => option Z
  | OpenRef _ | ReadRefCount _ | ReadPinCount _ => Z
  | ClaimReap _ | KickReap | ClearQueued | RetireNode _ | JudgeNode _ | ChildrenEmpty _ | AllocateBlock => bool
  | TakeReapList => list Z
  | CreateFcbIn _ _ _ | CreateDcbIn _ _ => NTSTATUS * Z
  | ReadMeta _ => METADATA
  | AllocateCcb | CheckOplock _ _ | PostCreate _ | RequeueCreate _ | IssueLookup _ _ _ => NTSTATUS
  | _ => unit
  end.

Inductive act (R : Type) : Type :=
  | Give (r : R)
  | Do (c : OPEN_CALL) (k : open_answer c -> act R).
Arguments Give {R} r.
Arguments Do {R} c k.

Fixpoint act_bind {A B} (f : A -> act B) (p : act A) : act B :=
  match p with
  | Give a => f a
  | Do c k => Do c (fun x => act_bind f (k x))
  end.
#[export] Instance act_mbind : MBind act := fun A B => @act_bind A B.
Definition make (c : OPEN_CALL) : act (open_answer c) := Do c Give.

(** ** The reap list and the counts (src/Structs.c) *)

Definition NodeReapKick : act () :=
  queue ← make KickReap;
  if queue : bool then make QueueReap else Give ().

Definition BlorgNodeDeferReap (n : Z) : act () :=
  claimed ← make (ClaimReap n);
  if claimed : bool then Give ()
  else make (PushReap n);; NodeReapKick.

Definition NodeDeferReapIfIdleLocked (n : Z) : act () :=
  refs ← make (ReadRefCount n);
  if negb (refs =? 0) then Give ()
  else
    pins ← make (ReadPinCount n);
    if negb (pins =? 0) then Give () else BlorgNodeDeferReap n.

Definition BlorgNodeDeferReapIfIdle (n : Z) : act () :=
  node ← make (ReadNode n);
  make (AcquireBucket (TableBucketIndex node));;
  NodeDeferReapIfIdleLocked n;;
  make (ReleaseBucket (TableBucketIndex node)).

Definition BlorgNodeUnpin (n : Z) : act () :=
  node ← make (ReadNode n);
  make (AcquireBucket (TableBucketIndex node));;
  make (DropPin n);;
  NodeDeferReapIfIdleLocked n;;
  make (ReleaseBucket (TableBucketIndex node)).

Definition BlorgNodeDereference (n : Z) : act () :=
  node ← make (ReadNode n);
  make (AcquireBucket (TableBucketIndex node));;
  make (DropRef n);;
  NodeDeferReapIfIdleLocked n;;
  make (ReleaseBucket (TableBucketIndex node)).

(** Each turn goes to the parent, so the number of components bounds them; the
    callers give the length of the path. *)
Fixpoint reap_ancestors (fuel : nat) (d : Z) : act () :=
  match fuel with
  | O => Give ()
  | S fuel =>
      node ← make (ReadNode d);
      if negb (bool_decide (NodeTypeCode node = DcbSignature)) then Give ()
      else
        empty ← make (ChildrenEmpty d);
        if negb empty then Give ()
        else
          retired ← make (RetireNode d);
          if negb retired then Give ()
          else
            make (FreeNode d);;
            reap_ancestors fuel (ParentDcb node)
  end.
Definition BlorgReapEmptyAncestorDcbs (d : Z) : act () :=
  node ← make (ReadNode d);
  reap_ancestors (S (S (length (FullPath node)))) d.

Fixpoint reap_batch (l : list Z) : act () :=
  match l with
  | [] => Give ()
  | n :: l =>
      node ← make (ReadNode n);
      freeNode ← make (JudgeNode n);
      (if freeNode : bool then
         make (FreeNode n);;
         BlorgReapEmptyAncestorDcbs (ParentDcb node)
       else Give ());;
      reap_batch l
  end.
Definition NodeReapWorker : act () :=
  l ← make TakeReapList;
  (if (length l =? 0)%nat then Give ()
   else
     make AcquireVcb;;
     reap_batch l;;
     make ReleaseVcb);;
  pending ← make ClearQueued;
  if pending : bool then NodeReapKick else Give ().

(** ** Inserting a path (src/Structs.c) *)

(** Every turn takes a component off the path; [path] is whole throughout, and
    what is created is given the prefix of it that it names. *)
Fixpoint insert_loop (fuel : nat) (path : PATH) (info : DIRECTORY_ENTRY_METADATA) (current : Z) (lastCreated : option Z) (remaining : PATH) : act (NTSTATUS * option Z) :=
  match fuel with
  | O => Give (STATUS_SUCCESS, lastCreated)
  | S fuel =>
      if (length remaining =? 0)%nat then Give (STATUS_SUCCESS, lastCreated)
      else
        let '(firstPart, remainingPart) := FsRtlDissectName remaining in
        let isLast := (length remainingPart =? 0)%nat in
        existing ← make (SearchName current firstPart);
        match existing with
        | Some existing =>
            if isLast then Give (STATUS_SUCCESS, lastCreated)
            else
              node ← make (ReadNode existing);
              match NodeTypeCode node with
              | DcbSignature | RootDcbSignature => insert_loop fuel path info existing lastCreated remainingPart
              | _ => BlorgReapEmptyAncestorDcbs current;; Give (STATUS_OBJECT_PATH_NOT_FOUND, None)
              end
        | None =>
            if isLast && negb (IsDirectory info) then
              '(st, n) ← make (CreateFcbIn current path info);
              if negb (NT_SUCCESS st) then BlorgReapEmptyAncestorDcbs current;; Give (st, None)
              else Give (STATUS_SUCCESS, Some n)
            else
              let partial := if isLast then path else take (length path - (length remainingPart + 1)) path in
              '(st, n) ← make (CreateDcbIn current partial);
              if negb (NT_SUCCESS st) then BlorgReapEmptyAncestorDcbs current;; Give (st, None)
              else if isLast then Give (STATUS_SUCCESS, Some n)
              else insert_loop fuel path info n (Some n) remainingPart
        end
  end.
Definition BlorgInsertByPath (root : Z) (path : PATH) (info : DIRECTORY_ENTRY_METADATA) : act (NTSTATUS * option Z) :=
  insert_loop (S (length path)) path info root None path.

(** ** Opening a node (src/Create.c) *)

Section Handlers.
Context (root vcb : Z) (params : Z -> CREATE_PARAMS).

Definition prm (irp : CREATE_IRP) : CREATE_PARAMS := params (ci_Id irp).

Definition CreateBreakHandleOplockOnSharingViolation (n : Z) (irp : CREATE_IRP) (shareStatus : NTSTATUS) : act NTSTATUS :=
  if negb (shareStatus =? STATUS_SHARING_VIOLATION) || flag (c_Options (prm irp)) FILE_COMPLETE_IF_OPLOCKED then Give shareStatus
  else
    breakStatus ← make (CheckOplock n irp);
    Give (if breakStatus =? STATUS_SUCCESS then shareStatus else breakStatus).

(** The three opens of a node with an oplock are the same but for the access
    they check and the count of unclean handles an FCB keeps.  The [ASSERT] on
    the pin or the VCB resource is what makes the calls on [n] defined. *)
Definition open_node (fcb : bool) (irp : CREATE_IRP) (n : Z) : act NTSTATUS :=
  if negb (if fcb then CreateCheckFileAccess (c_DesiredAccess (prm irp)) else CreateCheckDirectoryAccess (c_DesiredAccess (prm irp)))
  then Give STATUS_ACCESS_DENIED
  else
    make (AcquireResource n);;
    oplockStatus ← make (CheckOplock n irp);
    if negb (oplockStatus =? STATUS_SUCCESS) then make (ReleaseResource n);; Give oplockStatus
    else
      result ← make AllocateCcb;
      if negb (NT_SUCCESS result) then make (ReleaseResource n);; Give result
      else
        refs ← make (OpenRef n);
        result ← make (AskNode n (AskShareAccess (refs =? 1)));
        if negb (NT_SUCCESS result) then
          make (UndoRef n);;
          result ← CreateBreakHandleOplockOnSharingViolation n irp result;
          make (ReleaseResource n);;
          make FreeCcb;;
          Give result
        else
          (if fcb then make (MarkUnclean n) else Give ());;
          make (ReleaseResource n);;
          make (SetFileObject irp n);;
          Give STATUS_SUCCESS.
Definition CreateOpenExistingFcb : CREATE_IRP -> Z -> act NTSTATUS := open_node true.
Definition CreateOpenExistingDcb : CREATE_IRP -> Z -> act NTSTATUS := open_node false.
Definition CreateOpenRootDcb (irp : CREATE_IRP) : act NTSTATUS := open_node false irp root.

Definition CreateOpenVcb (irp : CREATE_IRP) : act NTSTATUS :=
  if negb (CreateCheckFileAccess (c_DesiredAccess (prm irp))) then Give STATUS_ACCESS_DENIED
  else
    make AcquireVcb;;
    refs ← make (OpenRef vcb);
    result ← make (AskNode vcb (AskShareAccess (refs =? 1)));
    if negb (NT_SUCCESS result) then
      make (UndoRef vcb);;
      make ReleaseVcb;;
      Give result
    else
      make ReleaseVcb;;
      make (SetFileObject irp vcb);;
      Give STATUS_SUCCESS.

Definition CreateFcbIsCurrent (n : Z) : act bool :=
  opens ← make (AskNode n AskOpenCount);
  if negb (opens =? 0) then Give true
  else
    m ← make (ReadMeta n);
    current ← make (AskOpen (AskTicketCurrent (MetaTicket m)));
    if current : bool then Give true
    else
      node ← make (ReadNode n);
      cached ← make (AskOpen (AskPeek (FullPath node)));
      match cached with
      | PathCacheExists cached _ =>
          m ← make (ReadMeta n);
          Give (negb (IsDirectory cached) && (s64 (MetaSize cached) =? FileSize m) && (LastModifiedTime cached =? NodeLastModifiedTime m))
      | _ => Give false
      end.

Definition with_ticket (m : METADATA) (t : PATH_CACHE_TICKET) : METADATA :=
  mkNodeMeta (FileSize m) (NodeCreationTime m) (NodeLastAccessedTime m) (NodeLastModifiedTime m) t.

(** [AskPurge] is whether no handle is open and both the image section and the
    cached pages could be dropped; [AskSetSizes] stands for pointing the file
    object at the file's sections and telling the cache manager the sizes
    (section pointers are between the kernel's managers and are not kept
    here). *)
Definition CreateFcbRefresh (n : Z) (info : DIRECTORY_ENTRY_METADATA) (t : PATH_CACHE_TICKET) : act () :=
  make (AcquireResource n);;
  m ← make (ReadMeta n);
  if (s64 (MetaSize info) =? FileSize m) && (LastModifiedTime info =? NodeLastModifiedTime m) then
    make (WriteMeta n (with_ticket m t));;
    make (ReleaseResource n)
  else
    purged ← make (AskNode n AskPurge);
    if negb purged then
      make (WriteMeta n (with_ticket m t));;
      make (ReleaseResource n)
    else
      make (WriteMeta n (mkNodeMeta (s64 (MetaSize info)) (CreationTime info) (LastAccessedTime info) (LastModifiedTime info) t));;
      make (AskNode n AskSetSizes);;
      make (ReleaseResource n).

(** ** IRP_MJ_CREATE *)

Definition MAXUSHORT : Z := 65535.

(** The block the joined path is in, if it has one. *)
Definition free_path (allocated : bool) : act () := if allocated then make FreeBlock else Give ().

(** The full path, and whether it was allocated; or the create's answer. *)
Inductive RESOLVED := PathIs (p : PATH) (allocated : bool) | VolumeItself | Refused (st : NTSTATUS).
Definition create_path (irp : CREATE_IRP) : act RESOLVED :=
  let name := c_FileName (prm irp) in
  match c_Related (prm irp) with
  | None => Give (if (length name =? 0)%nat then VolumeItself else PathIs name false)
  | Some related =>
      if bool_decide (head name = Some SEP) then Give (Refused STATUS_OBJECT_NAME_INVALID)
      else
        node ← make (ReadRelated related);
        match NodeTypeCode node with
        | DcbSignature | RootDcbSignature =>
            if MAXUSHORT <? joined_length (FullPath node) name then Give (Refused STATUS_OBJECT_NAME_INVALID)
            else
              allocated ← make AllocateBlock;
              Give (if negb allocated then Refused STATUS_NO_MEMORY else PathIs (join_path (FullPath node) name) true)
        | _ => Give (Refused STATUS_INVALID_PARAMETER)
        end
  end.

(** A resident node answers, unless it is an FCB whose metadata may be
    stale. *)
Definition create_warm (irp : CREATE_IRP) (path : PATH) : act (option NTSTATUS) :=
  found ← make (LookupPin path);
  match found with
  | None => Give None
  | Some n =>
      node ← make (ReadNode n);
      match NodeTypeCode node with
      | DcbSignature =>
          result ← (if flag (c_Options (prm irp)) FILE_NON_DIRECTORY_FILE then Give STATUS_FILE_IS_A_DIRECTORY else CreateOpenExistingDcb irp n);
          BlorgNodeUnpin n;;
          Give (Some result)
      | FcbSignature =>
          current ← CreateFcbIsCurrent n;
          if negb current then BlorgNodeUnpin n;; Give None
          else
            result ← (if flag (c_Options (prm irp)) FILE_DIRECTORY_FILE then Give STATUS_NOT_A_DIRECTORY else CreateOpenExistingFcb irp n);
            BlorgNodeUnpin n;;
            Give (Some result)
      | _ => Give None
      end
  end.

(** What the path names, from the path cache or the parent's listing: nothing,
    an answer, or metadata and the ticket it was read under. *)
Inductive LOOKED_UP := Unknown | Absent | Known (m : DIRECTORY_ENTRY_METADATA) (t : PATH_CACHE_TICKET).
Definition create_cached (path : PATH) : act LOOKED_UP :=
  _ ← make (AskOpen AskTicket);
  pc ← make (AskOpen (AskPathCache path));
  match pc with
  | PathCacheExists m t => Give (Known m t)
  | PathCacheNotFound => Give Absent
  | PathCacheMiss =>
      match CreateSplitPathLeaf path with
      | None => Give Unknown
      | Some (parent, leaf) =>
          parent ← (if (length parent =? 0)%nat then node ← make (ReadNode root); Give (FullPath node) else Give parent);
          ticket ← make (AskOpen AskTicket);
          '(listing, ticket) ← make (AskOpen (AskListing parent leaf ticket));
          match listing with
          | None => Give Unknown
          | Some (Some m) => make (AskOpen (AskRemember path (Some m) ticket));; Give (Known m ticket)
          | Some None => make (AskOpen (AskRemember path None ticket));; Give Absent
          end
      end
  end.

(** The lookup at the server: the completion owns a copy of the path in a
    context of its own. *)
Definition create_lookup (irp : CREATE_IRP) (path : PATH) (allocated : bool) : act NTSTATUS :=
  if negb (ci_InFsp irp) then
    free_path allocated;;
    make (PostCreate irp)
  else
    netCtx ← make AllocateBlock;
    if negb netCtx then free_path allocated;; Give STATUS_INSUFFICIENT_RESOURCES
    else
      copy ← make AllocateBlock;
      if negb copy then make FreeBlock;; free_path allocated;; Give STATUS_INSUFFICIENT_RESOURCES
      else
        ticket ← make (AskOpen AskTicket);
        issued ← make (IssueLookup irp path ticket);
        free_path allocated;;
        (if negb (issued =? STATUS_PENDING) then make FreeBlock;; make FreeBlock else Give ());;
        Give issued.

(** A node the tree had: opened, and published or left to the worker. *)
Definition open_resident (irp : CREATE_IRP) (n : Z) (fcb : bool) : act NTSTATUS :=
  result ← open_node fcb irp n;
  (if result =? STATUS_SUCCESS then make (PublishNode n) else BlorgNodeDeferReapIfIdle n);;
  Give result.

(** A node this open inserted: opened, and published or freed. *)
Definition open_inserted (irp : CREATE_IRP) (n parent : Z) (fcb : bool) : act NTSTATUS :=
  result ← open_node fcb irp n;
  (if result =? STATUS_SUCCESS then make (PublishNode n)
   else make (FreeNode n);; BlorgReapEmptyAncestorDcbs parent);;
  Give result.

(** [None] is the fall through to the break point at the end. *)
Definition create_insert (irp : CREATE_IRP) (path : PATH) (info : DIRECTORY_ENTRY_METADATA) (t : PATH_CACHE_TICKET) : act (option NTSTATUS) :=
  '(st, out) ← BlorgInsertByPath root path info;
  if negb (NT_SUCCESS st) then Give (Some st)
  else
    match out with
    | None => Give None
    | Some n =>
        node ← make (ReadNode n);
        match NodeTypeCode node with
        | DcbSignature => result ← open_inserted irp n (ParentDcb node) false; Give (Some result)
        | FcbSignature =>
            m ← make (ReadMeta n);
            make (WriteMeta n (with_ticket m t));;
            result ← open_inserted irp n (ParentDcb node) true;
            Give (Some result)
        | _ => Give None
        end
    end.

Definition create_cold (irp : CREATE_IRP) (path : PATH) (info : DIRECTORY_ENTRY_METADATA) (t : PATH_CACHE_TICKET) : act (option NTSTATUS) :=
  found ← make (SearchPath path);
  match found with
  | Some n =>
      node ← make (ReadNode n);
      match NodeTypeCode node with
      | DcbSignature =>
          if flag (c_Options (prm irp)) FILE_NON_DIRECTORY_FILE then Give (Some STATUS_FILE_IS_A_DIRECTORY)
          else result ← open_resident irp n false; Give (Some result)
      | FcbSignature =>
          if flag (c_Options (prm irp)) FILE_DIRECTORY_FILE then Give (Some STATUS_NOT_A_DIRECTORY)
          else
            CreateFcbRefresh n info t;;
            result ← open_resident irp n true;
            Give (Some result)
      | _ => create_insert irp path info t
      end
  | None => create_insert irp path info t
  end.

(** The break point and the status after it. *)
Definition create_tree (irp : CREATE_IRP) (path : PATH) (allocated : bool) (info : DIRECTORY_ENTRY_METADATA) (t : PATH_CACHE_TICKET) : act NTSTATUS :=
  if IsDirectory info && flag (c_Options (prm irp)) FILE_NON_DIRECTORY_FILE then free_path allocated;; Give STATUS_FILE_IS_A_DIRECTORY
  else if negb (IsDirectory info) && flag (c_Options (prm irp)) FILE_DIRECTORY_FILE then free_path allocated;; Give STATUS_NOT_A_DIRECTORY
  else
    make AcquireVcb;;
    result ← create_cold irp path info t;
    make ReleaseVcb;;
    free_path allocated;;
    Give (default STATUS_INVALID_DEVICE_REQUEST result).

(** The stash is consumed with its flag, and its ticket is not kept when the
    server said not to store. *)
Definition take_stash (irp : CREATE_IRP) : act (option (DIRECTORY_ENTRY_METADATA * PATH_CACHE_TICKET)) :=
  if negb (ci_NetDone irp) then Give None
  else
    match ci_Stash irp with
    | None => Give None
    | Some r => make (FreeStash irp);; Give (Some (nr_Meta r, if NoStore (nr_Meta r) then ticket_zero else nr_Ticket r))
    end.

Definition create_at (irp : CREATE_IRP) (stash : option (DIRECTORY_ENTRY_METADATA * PATH_CACHE_TICKET)) (path : PATH) (allocated : bool) : act NTSTATUS :=
  let path := strip_separator path in
  if is_root_path path then
    free_path allocated;;
    if flag (c_Options (prm irp)) FILE_NON_DIRECTORY_FILE then Give STATUS_FILE_IS_A_DIRECTORY else CreateOpenRootDcb irp
  else
    warm ← create_warm irp path;
    match warm with
    | Some result => free_path allocated;; Give result
    | None =>
        known ← match stash with Some (m, t) => Give (Known m t) | None => create_cached path end;
        match known with
        | Absent => free_path allocated;; Give STATUS_OBJECT_NAME_NOT_FOUND
        | Unknown => create_lookup irp path allocated
        | Known m t => create_tree irp path allocated m t
        end
    end.

Definition BlorgVolumeCreate (irp : CREATE_IRP) : act NTSTATUS :=
  stash ← take_stash irp;
  let irp := mkCreateIrp (ci_Id irp) false (ci_InFsp irp) None in
  let disposition := Z.land (Z.shiftr (c_Options (prm irp)) 24) 0xff in
  if negb (disposition =? FILE_OPEN) && negb (disposition =? FILE_OPEN_IF) then Give STATUS_ACCESS_DENIED
  else
    resolved ← create_path irp;
    match resolved with
    | Refused st => Give st
    | VolumeItself => CreateOpenVcb irp
    | PathIs path allocated => create_at irp stash path allocated
    end.

Inductive DEVICE := VolumeDevice | DiskDevice | FileSystemDevice | OtherDevice.

(** The disk and file system devices have no open of their own. *)
Definition BlorgCreate (device : DEVICE) (irp : CREATE_IRP) : act () :=
  match device with
  | VolumeDevice =>
      result ← BlorgVolumeCreate irp;
      if negb (result =? STATUS_PENDING) then make (CompleteCreate irp result) else Give ()
  | DiskDevice | FileSystemDevice => make (CompleteCreate irp STATUS_SUCCESS)
  | OtherDevice => make (CompleteCreate irp STATUS_INVALID_DEVICE_REQUEST)
  end.

(** [path] and [t] are the context's; its two blocks and the stash are
    freed. *)
Definition CreateComplete (irp : CREATE_IRP) (path : PATH) (t : PATH_CACHE_TICKET) (st : NTSTATUS) (info : DIRECTORY_ENTRY_METADATA) : act () :=
  if negb (NT_SUCCESS st) then
    (if st =? STATUS_OBJECT_NAME_NOT_FOUND then make (AskOpen (AskRemember path None t)) else Give ());;
    make FreeBlock;;
    make FreeBlock;;
    make (CompleteCreate irp st)
  else
    make (AskOpen (AskRemember path (Some info) t));;
    stash ← make AllocateBlock;
    if negb stash then
      make FreeBlock;;
      make FreeBlock;;
      make (CompleteCreate irp STATUS_INSUFFICIENT_RESOURCES)
    else
      requeue ← make (RequeueCreate (mkCreateIrp (ci_Id irp) true (ci_InFsp irp) (Some (mkNetResult t info))));
      make FreeBlock;;
      make FreeBlock;;
      if negb (requeue =? STATUS_PENDING) then
        make FreeBlock;;
        make (CompleteCreate irp requeue)
      else Give ().

(** ** The FSP (src/FspWorkQueue.c) *)

Definition FspDiscardPendingIrpContext (irp : CREATE_IRP) : act () := _ ← take_stash irp; Give ().

(** One turn of [BlorgFspDispatch] on a create. *)
Definition fsp_create (irp : CREATE_IRP) : act () :=
  result ← BlorgVolumeCreate (mkCreateIrp (ci_Id irp) (ci_NetDone irp) true (ci_Stash irp));
  if negb (result =? STATUS_PENDING) then make (CompleteCreate irp result) else Give ().

(** Cancelled in the queue, or drained by [BlorgDestroyWorkQueue]. *)
Definition FspCsqCompleteCanceledIrp (irp : CREATE_IRP) : act () :=
  FspDiscardPendingIrpContext irp;;
  make (CompleteCreate irp STATUS_CANCELLED).

(** [st] is the IRP's status when the oplock package gives it back. *)
Definition BlorgOplockComplete (irp : CREATE_IRP) (st : NTSTATUS) : act () :=
  queued ← (if st =? STATUS_SUCCESS then make (RequeueCreate irp) else Give STATUS_DEVICE_REMOVED);
  if queued =? STATUS_PENDING then Give ()
  else make (CompleteCreate irp (if NT_SUCCESS st then STATUS_DEVICE_REMOVED else st)).

(** ** IRP_MJ_CLEANUP and IRP_MJ_CLOSE *)

Definition CleanupVolume (fo n : Z) : act () :=
  node ← make (ReadNode n);
  (match NodeTypeCode node with
   | FcbSignature | DcbSignature | RootDcbSignature =>
       make (AcquireResource n);;
       (if bool_decide (NodeTypeCode node = FcbSignature) then make (UnmarkUnclean n) else Give ());;
       make (AskNode n AskCleanup);;
       make (ReleaseResource n)
   | VcbSignature =>
       make AcquireVcb;;
       make (AskNode n AskCleanup);;
       make ReleaseVcb
   end);;
  make (FinishCleanup fo n).

(** The file object's CCB and its reference. *)
Definition CloseVolume (n : Z) : act () :=
  node ← make (ReadNode n);
  match NodeTypeCode node with
  | RootDcbSignature => make FreeCcb;; make (CloseRef n)
  | DcbSignature | FcbSignature => make FreeCcb;; BlorgNodeDereference n
  | VcbSignature => make (CloseRef n)
  end.
End Handlers.
