(* ===== verification/OpensSystem.v ===== *)
(** * Opens, closes and the worker, interleaved

    What the handlers share ([WORLD]), one call on it ([open_step]), and the
    system of all handlers running at once. *)

From S2P Require Import Prelude UnicodePath PathCache ClientText Nodes NodesTree Opens.

(** A file object the I/O manager holds: its node, and whether its cleanup has
    been done. *)
Record HANDLE := mkHandle { hd_File : Z; hd_Node : Z; hd_Clean : bool }.

Record WORLD := mkWorld {
  w_Store : STORE;
  w_Vcb : bool;
  w_Resources : list Z;
  w_Buckets : list Z;
  w_Blocks : Z;
  w_Handles : list HANDLE;
  w_Opened : gmap Z Z;
  w_Posted : list CREATE_IRP;
  w_Looking : list (CREATE_IRP * PATH * PATH_CACHE_TICKET);
  w_Parked : list CREATE_IRP;
  w_Done : list (Z * NTSTATUS)
}.

Definition put_store (w : WORLD) (s : STORE) : WORLD :=
  mkWorld s (w_Vcb w) (w_Resources w) (w_Buckets w) (w_Blocks w) (w_Handles w) (w_Opened w) (w_Posted w) (w_Looking w) (w_Parked w) (w_Done w).
Definition put_vcb (w : WORLD) (b : bool) : WORLD :=
  mkWorld (w_Store w) b (w_Resources w) (w_Buckets w) (w_Blocks w) (w_Handles w) (w_Opened w) (w_Posted w) (w_Looking w) (w_Parked w) (w_Done w).
Definition put_resources (w : WORLD) (l : list Z) : WORLD :=
  mkWorld (w_Store w) (w_Vcb w) l (w_Buckets w) (w_Blocks w) (w_Handles w) (w_Opened w) (w_Posted w) (w_Looking w) (w_Parked w) (w_Done w).
Definition put_buckets (w : WORLD) (l : list Z) : WORLD :=
  mkWorld (w_Store w) (w_Vcb w) (w_Resources w) l (w_Blocks w) (w_Handles w) (w_Opened w) (w_Posted w) (w_Looking w) (w_Parked w) (w_Done w).
Definition put_blocks (w : WORLD) (n : Z) : WORLD :=
  mkWorld (w_Store w) (w_Vcb w) (w_Resources w) (w_Buckets w) n (w_Handles w) (w_Opened w) (w_Posted w) (w_Looking w) (w_Parked w) (w_Done w).
Definition put_handles (w : WORLD) (l : list HANDLE) (o : gmap Z Z) : WORLD :=
  mkWorld (w_Store w) (w_Vcb w) (w_Resources w) (w_Buckets w) (w_Blocks w) l o (w_Posted w) (w_Looking w) (w_Parked w) (w_Done w).
Definition put_posted (w : WORLD) (l : list CREATE_IRP) : WORLD :=
  mkWorld (w_Store w) (w_Vcb w) (w_Resources w) (w_Buckets w) (w_Blocks w) (w_Handles w) (w_Opened w) l (w_Looking w) (w_Parked w) (w_Done w).
Definition put_looking (w : WORLD) (l : list (CREATE_IRP * PATH * PATH_CACHE_TICKET)) : WORLD :=
  mkWorld (w_Store w) (w_Vcb w) (w_Resources w) (w_Buckets w) (w_Blocks w) (w_Handles w) (w_Opened w) (w_Posted w) l (w_Parked w) (w_Done w).
Definition put_parked (w : WORLD) (l : list CREATE_IRP) : WORLD :=
  mkWorld (w_Store w) (w_Vcb w) (w_Resources w) (w_Buckets w) (w_Blocks w) (w_Handles w) (w_Opened w) (w_Posted w) (w_Looking w) l (w_Done w).
Definition put_done (w : WORLD) (l : list (Z * NTSTATUS)) : WORLD :=
  mkWorld (w_Store w) (w_Vcb w) (w_Resources w) (w_Buckets w) (w_Blocks w) (w_Handles w) (w_Opened w) (w_Posted w) (w_Looking w) (w_Parked w) l.

(** What never changes of a node. *)
Definition view (n : NODE) : NODE := with_ChildrenList n [].

(** [IoSetShareAccess] cannot fail, and [IoCheckShareAccess] fails in one way. *)
Definition node_reply_ok (q : NODE_QUESTION) : node_reply q -> Prop :=
  match q with
  | AskShareAccess first => fun st => st = STATUS_SUCCESS \/ (first = false /\ st = STATUS_SHARING_VIOLATION)
  | _ => fun _ => True
  end.

Definition node_at (w : WORLD) (n : Z) : Prop := is_Some (Nodes (w_Store w) !! n).
Definition unheld (w : WORLD) (n : Z) : Prop := exists node, Nodes (w_Store w) !! n = Some node /\ TableBucketIndex node ∉ w_Buckets w.
Definition changes (w : WORLD) (o : option STORE) (w' : WORLD) : Prop := exists s, o = Some s /\ w' = put_store w s.

Section System.
Context {nls : Nls} (root vcb : Z) (params : Z -> CREATE_PARAMS).

(** What [BlorgCreateFCB] or [BlorgCreateDCB] made becomes a child of [d]. *)
Definition create_step (w : WORLD) (d : Z) (make_node : ALLOCATION -> POOL -> NTSTATUS * POOL * NODE * METADATA) (fill : METADATA -> METADATA) (a : NTSTATUS * Z) (w' : WORLD) : Prop :=
  exists al st pool n m, Nodes (w_Store w) !! al_Address al = None /\ make_node al (Pool (w_Store w)) = (st, pool, n, m) /\ a = (st, al_Address al) /\
    changes w (if NT_SUCCESS st then adopt (w_Store w) d (al_Address al) n (fill m) pool else Some (with_Pool (w_Store w) pool)) w'.
Definition fill_times (info : DIRECTORY_ENTRY_METADATA) (m : METADATA) : METADATA :=
  mkNodeMeta (FileSize m) (CreationTime info) (LastAccessedTime info) (LastModifiedTime info) (MetaTicket m).

Definition ccb_pool : POOL := mkPool 0 0 0 1 0 0.

(** One call, with its answer and what it leaves.  A call on a node that was
    freed has no step, nor has one that waits for a lock. *)
Definition open_step (w : WORLD) (c : OPEN_CALL) : open_answer c -> WORLD -> Prop :=
  let s := w_Store w in
  match c with
  | AskOpen q => fun _ w' => w' = w
  | AskNode n q => fun a w' => node_at w n /\ node_reply_ok q a /\ w' = w
  | ReadNode n => fun a w' => exists node, Nodes s !! n = Some node /\ a = view node /\ w' = w
  | ReadRelated fo => fun a w' => exists h node, h ∈ w_Handles w /\ hd_File h = fo /\ Nodes s !! hd_Node h = Some node /\ a = view node /\ w' = w
  | AcquireVcb => fun _ w' => w_Vcb w = false /\ w' = put_vcb w true
  | ReleaseVcb => fun _ w' => w_Vcb w = true /\ w' = put_vcb w false
  | AcquireResource n => fun _ w' => node_at w n /\ (n ∉ w_Resources w) /\ w' = put_resources w (n :: w_Resources w)
  | ReleaseResource n => fun _ w' => node_at w n /\ n ∈ w_Resources w /\ w' = put_resources w (unlink_first n (w_Resources w))
  | AcquireBucket b => fun _ w' => w' = put_buckets w (b :: w_Buckets w)
  | ReleaseBucket b => fun _ w' => b ∈ w_Buckets w /\ w' = put_buckets w (unlink_first b (w_Buckets w))
  | LookupPin p => fun a w' => exists s', BlorgNodeTableLookupPin s p = Some (a, s') /\ w' = put_store w s'
  | DropPin n => fun _ w' => changes w (adjust s n (add_pin (-1))) w'
  | DropRef n | CloseRef n | UndoRef n => fun _ w' => changes w (adjust s n (add_ref (-1))) w'
  | OpenRef n => fun a w' => changes w (adjust s n (add_ref 1)) w' /\ exists c, Counters s !! n = Some c /\ a = RefCount (add_ref 1 c)
  | ReadRefCount n => fun a w' => exists c, Counters s !! n = Some c /\ a = RefCount c /\ w' = w
  | ReadPinCount n => fun a w' => exists c, Counters s !! n = Some c /\ a = PinCount c /\ w' = w
  | MarkUnclean n => fun _ w' => changes w (adjust s n (add_unclean 1)) w'
  | UnmarkUnclean n => fun _ w' => changes w (adjust s n (add_unclean (-1))) w'
  | ClaimReap n => fun a w' => changes w (adjust s n (set_reap true)) w' /\ exists c, Counters s !! n = Some c /\ a = OnReapList c
  | PushReap n => fun _ w' => changes w (reap_push s n) w'
  | KickReap => fun a w' => let '(b, s') := reap_kick s in a = b /\ w' = put_store w s'
  | QueueReap => fun _ w' => w' = put_store w (reap_queue s 1)
  | TakeReapList => fun a w' => let '(l, s') := reap_take s in a = l /\ w' = put_store w s'
  | ClearQueued => fun a w' => let '(b, s') := reap_clear s in a = b /\ w' = put_store w s'
  | RetireNode n => fun a w' => unheld w n /\ exists s', NodeTableTryRetire s n = Some (a, s') /\ w' = put_store w s'
  | PublishNode n => fun _ w' => unheld w n /\ changes w (BlorgNodeTablePublish s n) w'
  | JudgeNode n => fun a w' => unheld w n /\ exists s', reap_judge s n = Some (a, s') /\ w' = put_store w s'
  | SearchPath p => fun a w' => BlorgSearchByPath s root p = Some a /\ w' = w
  | SearchName d name => fun a w' => NodeSearchByName s d name = Some a /\ w' = w
  | CreateFcbIn d p info => fun a w' => create_step w d (BlorgCreateFCB p (MetaSize info)) (fill_times info) a w'
  | CreateDcbIn d p => fun a w' => create_step w d (BlorgCreateDCB p) (fun m => m) a w'
  | ChildrenEmpty n => fun a w' => exists node, Nodes s !! n = Some node /\ a = (length (ChildrenList node) =? 0)%nat /\ w' = w
  | FreeNode n => fun _ w' => changes w (BlorgFreeFileContext s n) w'
  | ReadMeta n => fun a w' => node_at w n /\ a = default (mkNodeMeta 0 0 0 0 ticket_zero) (Metadata s !! n) /\ w' = w
  | WriteMeta n m => fun _ w' => node_at w n /\ w' = put_store w (with_Metadata s (<[n := m]> (Metadata s)))
  | AllocateCcb => fun a w' => (a = STATUS_SUCCESS /\ w' = put_store w (with_Pool s (pool_plus (Pool s) ccb_pool))) \/ (a = STATUS_INSUFFICIENT_RESOURCES /\ w' = w)
  | FreeCcb => fun _ w' => w' = put_store w (with_Pool s (pool_minus (Pool s) ccb_pool))
  | AllocateBlock => fun a w' => w' = if a : bool then put_blocks w (w_Blocks w + 1) else w
  | FreeBlock => fun _ w' => w' = put_blocks w (w_Blocks w - 1)
  | FreeStash _ => fun _ w' => w' = put_blocks w (w_Blocks w - 1)
  | CheckOplock n irp => fun a w' => node_at w n /\ w' = if a =? STATUS_PENDING then put_parked w (irp :: w_Parked w) else w
  | SetFileObject irp n => fun _ w' => node_at w n /\ w' = put_handles w (w_Handles w) (<[ci_Id irp := n]> (w_Opened w))
  | PostCreate irp => fun a w' => (a = STATUS_PENDING /\ w' = put_posted w (w_Posted w ++ [irp])) \/ (NT_SUCCESS a = false /\ w' = w)
  | RequeueCreate irp => fun a w' => (a = STATUS_PENDING /\ w' = put_posted w (w_Posted w ++ [irp])) \/ (a = STATUS_DEVICE_REMOVED /\ w' = w)
  | IssueLookup irp p t => fun a w' => (a = STATUS_PENDING /\ w' = put_looking w ((irp, p, t) :: w_Looking w)) \/ (NT_SUCCESS a = false /\ w' = w)
  | CompleteCreate irp st => fun _ w' =>
      let w := put_done w ((ci_Id irp, st) :: w_Done w) in
      w' = match w_Opened w !! ci_Id irp with
           | Some n => put_handles w (mkHandle (ci_Id irp) n false :: w_Handles w) (delete (ci_Id irp) (w_Opened w))
           | None => w
           end
  | FinishCleanup fo n => fun _ w' => w' = put_handles w (mkHandle fo n true :: w_Handles w) (w_Opened w)
  end.

(** Creates that came, and the handlers under way. *)
Record OPENS := mkOpens { os_World : WORLD; os_Threads : list (act ()); os_Arrived : list Z }.

Definition outstanding (w : WORLD) (arrived : list Z) (i : Z) : Prop := i ∈ arrived /\ i ∉ fst <$> w_Done w.

(** A file object the I/O manager may clean up or close: no open names it. *)
Definition unrelated (w : WORLD) (arrived : list Z) (fo : Z) : Prop := forall i, outstanding w arrived i -> c_Related (params i) <> Some fo.

(** The driver's own steps: a handler makes its next call; a work item, an FSP
    worker, an answer of the server or an IRP the oplock package gives back
    starts the handler for it. *)
Inductive opens_driver : OPENS -> OPENS -> Prop :=
  | opens_call w c k a w' l1 l2 arrived :
      open_step w c a w' -> opens_driver (mkOpens w (l1 ++ Do c k :: l2) arrived) (mkOpens w' (l1 ++ k a :: l2) arrived)
  | opens_exit w l1 l2 arrived : opens_driver (mkOpens w (l1 ++ Give () :: l2) arrived) (mkOpens w (l1 ++ l2) arrived)
  | opens_worker w threads arrived :
      0 < WorkItems (NodeReap (w_Store w)) -> opens_driver (mkOpens w threads arrived) (mkOpens (put_store w (reap_queue (w_Store w) (-1))) (NodeReapWorker :: threads) arrived)
  | opens_dispatch w l1 irp l2 threads arrived :
      w_Posted w = l1 ++ irp :: l2 -> opens_driver (mkOpens w threads arrived) (mkOpens (put_posted w (l1 ++ l2)) (fsp_create root vcb params irp :: threads) arrived)
  | opens_cancel w l1 irp l2 threads arrived :
      w_Posted w = l1 ++ irp :: l2 -> opens_driver (mkOpens w threads arrived) (mkOpens (put_posted w (l1 ++ l2)) (FspCsqCompleteCanceledIrp irp :: threads) arrived)
  | opens_looked w l1 irp p t l2 st info threads arrived :
      w_Looking w = l1 ++ (irp, p, t) :: l2 -> opens_driver (mkOpens w threads arrived) (mkOpens (put_looking w (l1 ++ l2)) (CreateComplete irp p t st info :: threads) arrived).

(** The rest of the system: an open arrives, naming no file object or one that
    is open; a file object is cleaned up, and then closed; the oplock package
    gives an IRP back. *)
Inductive opens_outside : OPENS -> OPENS -> Prop :=
  | opens_arrive w threads arrived i :
      i ∉ arrived -> (forall fo, c_Related (params i) = Some fo -> fo ∈ hd_File <$> w_Handles w) ->
      opens_outside (mkOpens w threads arrived) (mkOpens w (BlorgCreate root vcb params VolumeDevice (mkCreateIrp i false false None) :: threads) (i :: arrived))
  | opens_cleanup w l1 fo n l2 threads arrived :
      w_Handles w = l1 ++ mkHandle fo n false :: l2 -> unrelated w arrived fo ->
      opens_outside (mkOpens w threads arrived) (mkOpens (put_handles w (l1 ++ l2) (w_Opened w)) (CleanupVolume fo n :: threads) arrived)
  | opens_close w l1 fo n l2 threads arrived :
      w_Handles w = l1 ++ mkHandle fo n true :: l2 -> unrelated w arrived fo ->
      opens_outside (mkOpens w threads arrived) (mkOpens (put_handles w (l1 ++ l2) (w_Opened w)) (CloseVolume n :: threads) arrived)
  | opens_unpark w l1 irp l2 st threads arrived :
      w_Parked w = l1 ++ irp :: l2 -> opens_outside (mkOpens w threads arrived) (mkOpens (put_parked w (l1 ++ l2)) (BlorgOplockComplete irp st :: threads) arrived).

(** The counts of a node are 32 bits: a machine has fewer threads and file
    objects than that. *)
Definition within_limits (o : OPENS) : Prop := Z.of_nat (length (os_Threads o)) + Z.of_nat (length (w_Handles (os_World o))) < 2147483648.
Definition opens_step (o o' : OPENS) : Prop := (opens_driver o o' \/ opens_outside o o') /\ within_limits o'.

(** A volume with nothing open: the VCB and the root directory. *)
Definition root_node : NODE := mkNode RootDcbSignature [SEP] 0 (NodeTableBucketIndexFor [SEP]) [].
Definition vcb_node : NODE := mkNode VcbSignature [] 0 (NodeTableBucketIndexFor []) [].
Definition opens_initial : OPENS :=
  mkOpens
    (mkWorld
       (mkStore {[ root := root_node; vcb := vcb_node ]} {[ root := counters_zero; vcb := counters_zero ]} ∅
          (replicate (Z.to_nat NODE_TABLE_BUCKETS) []) (replicate (Z.to_nat NODE_CHILD_BUCKETS) [])
          (mkReap [] false false 0) (mkPool 2 1 1 0 1 4))
       false [] [] 0 [] ∅ [] [] [] [])
    [] [].
Definition opens_reachable (o : OPENS) : Prop := rtc opens_step opens_initial o.
End System.

(** * Running one handler at a time

    The calls as a function, for a kernel, a path cache and a server that
    answer as an [ORACLE] says: handlers that run one after the other, none
    waiting for another.  What it computes is a run of the system. *)
Record ORACLE := mkOracle {
  or_Open : forall q, open_reply q;
  or_Node : forall q, node_reply q;
  or_Oplock : NTSTATUS;
  or_Address : WORLD -> Z
}.

Section Exec.
Context {nls : Nls} (root vcb : Z) (params : Z -> CREATE_PARAMS) (oracle : ORACLE).

Definition changed (w : WORLD) (o : option STORE) : option (() * WORLD) := s ← o; Some ((), put_store w s).
Definition counted {A} (w : WORLD) (n : Z) (p : COUNTERS -> A) : option (A * WORLD) := c ← Counters (w_Store w) !! n; Some (p c, w).
Definition when (b : bool) {A} (o : option A) : option A := if b then o else None.
Definition resident (w : WORLD) (n : Z) : bool := bool_decide (is_Some (Nodes (w_Store w) !! n)).
Definition free_bucket (w : WORLD) (n : Z) : bool :=
  match Nodes (w_Store w) !! n with Some node => bool_decide (TableBucketIndex node ∉ w_Buckets w) | None => false end.
Definition node_reply_fine (q : NODE_QUESTION) : node_reply q -> bool :=
  match q with AskShareAccess first => fun st => (st =? STATUS_SUCCESS) || (negb first && (st =? STATUS_SHARING_VIOLATION)) | _ => fun _ => true end.

Definition exec_create (w : WORLD) (d : Z) (mk : ALLOCATION -> POOL -> NTSTATUS * POOL * NODE * METADATA) (fill : METADATA -> METADATA) : option ((NTSTATUS * Z) * WORLD) :=
  let al := mkAllocation true true true STATUS_SUCCESS STATUS_SUCCESS (or_Address oracle w) in
  let '(st, pool, n, m) := mk al (Pool (w_Store w)) in
  when (negb (resident w (al_Address al)) && NT_SUCCESS st)
    (s ← adopt (w_Store w) d (al_Address al) n (fill m) pool; Some ((st, al_Address al), put_store w s)).

Definition exec (w : WORLD) (c : OPEN_CALL) : option (open_answer c * WORLD) :=
  let s := w_Store w in
  match c return option (open_answer c * WORLD) with
  | AskOpen q => Some (or_Open oracle q, w)
  | AskNode n q => when (resident w n && node_reply_fine q (or_Node oracle q)) (Some (or_Node oracle q, w))
  | ReadNode n => node ← Nodes s !! n; Some (view node, w)
  | ReadRelated fo =>
      match list_find (fun h => hd_File h = fo) (w_Handles w) with
      | Some (_, h) => node ← Nodes s !! hd_Node h; Some (view node, w)
      | None => None
      end
  | AcquireVcb => when (negb (w_Vcb w)) (Some ((), put_vcb w true))
  | ReleaseVcb => when (w_Vcb w) (Some ((), put_vcb w false))
  | AcquireResource n => when (resident w n && bool_decide (n ∉ w_Resources w)) (Some ((), put_resources w (n :: w_Resources w)))
  | ReleaseResource n => when (resident w n && bool_decide (n ∈ w_Resources w)) (Some ((), put_resources w (unlink_first n (w_Resources w))))
  | AcquireBucket b => Some ((), put_buckets w (b :: w_Buckets w))
  | ReleaseBucket b => when (bool_decide (b ∈ w_Buckets w)) (Some ((), put_buckets w (unlink_first b (w_Buckets w))))
  | LookupPin p => '(a, s') ← BlorgNodeTableLookupPin s p; Some (a, put_store w s')
  | DropPin n => changed w (adjust s n (add_pin (-1)))
  | DropRef n => changed w (adjust s n (add_ref (-1)))
  | CloseRef n => changed w (adjust s n (add_ref (-1)))
  | UndoRef n => changed w (adjust s n (add_ref (-1)))
  | OpenRef n => c ← Counters s !! n; s' ← adjust s n (add_ref 1); Some (RefCount (add_ref 1 c), put_store w s')
  | ReadRefCount n => counted w n RefCount
  | ReadPinCount n => counted w n PinCount
  | MarkUnclean n => changed w (adjust s n (add_unclean 1))
  | UnmarkUnclean n => changed w (adjust s n (add_unclean (-1)))
  | ClaimReap n => c ← Counters s !! n; s' ← adjust s n (set_reap true); Some (OnReapList c, put_store w s')
  | PushReap n => changed w (reap_push s n)
  | KickReap => let '(b, s') := reap_kick s in Some (b, put_store w s')
  | QueueReap => Some ((), put_store w (reap_queue s 1))
  | TakeReapList => let '(l, s') := reap_take s in Some (l, put_store w s')
  | ClearQueued => let '(b, s') := reap_clear s in Some (b, put_store w s')
  | RetireNode n => when (free_bucket w n) ('(a, s') ← NodeTableTryRetire s n; Some (a, put_store w s'))
  | PublishNode n => when (free_bucket w n) (changed w (BlorgNodeTablePublish s n))
  | JudgeNode n => when (free_bucket w n) ('(a, s') ← reap_judge s n; Some (a, put_store w s'))
  | SearchPath p => a ← BlorgSearchByPath s root p; Some (a, w)
  | SearchName d name => a ← NodeSearchByName s d name; Some (a, w)
  | CreateFcbIn d p info => exec_create w d (BlorgCreateFCB p (MetaSize info)) (fill_times info)
  | CreateDcbIn d p => exec_create w d (BlorgCreateDCB p) (fun m => m)
  | ChildrenEmpty n => node ← Nodes s !! n; Some ((length (ChildrenList node) =? 0)%nat, w)
  | FreeNode n => changed w (BlorgFreeFileContext s n)
  | ReadMeta n => when (resident w n) (Some (default (mkNodeMeta 0 0 0 0 ticket_zero) (Metadata s !! n), w))
  | WriteMeta n m => when (resident w n) (Some ((), put_store w (with_Metadata s (<[n := m]> (Metadata s)))))
  | AllocateCcb => Some (STATUS_SUCCESS, put_store w (with_Pool s (pool_plus (Pool s) ccb_pool)))
  | FreeCcb => Some ((), put_store w (with_Pool s (pool_minus (Pool s) ccb_pool)))
  | AllocateBlock => Some (true, put_blocks w (w_Blocks w + 1))
  | FreeBlock => Some ((), put_blocks w (w_Blocks w - 1))
  | FreeStash _ => Some ((), put_blocks w (w_Blocks w - 1))
  | CheckOplock n irp => when (resident w n) (Some (or_Oplock oracle, if or_Oplock oracle =? STATUS_PENDING then put_parked w (irp :: w_Parked w) else w))
  | SetFileObject irp n => when (resident w n) (Some ((), put_handles w (w_Handles w) (<[ci_Id irp := n]> (w_Opened w))))
  | PostCreate irp => Some (STATUS_PENDING, put_posted w (w_Posted w ++ [irp]))
  | RequeueCreate irp => Some (STATUS_PENDING, put_posted w (w_Posted w ++ [irp]))
  | IssueLookup irp p t => Some (STATUS_PENDING, put_looking w ((irp, p, t) :: w_Looking w))
  | CompleteCreate irp st =>
      let w := put_done w ((ci_Id irp, st) :: w_Done w) in
      Some ((), match w_Opened w !! ci_Id irp with
                | Some n => put_handles w (mkHandle (ci_Id irp) n false :: w_Handles w) (delete (ci_Id irp) (w_Opened w))
                | None => w
                end)
  | FinishCleanup fo n => Some ((), put_handles w (mkHandle fo n true :: w_Handles w) (w_Opened w))
  end.

(** A handler alone, to its end or to the first call that [stop] picks. *)
Definition room (w : WORLD) : bool := Z.of_nat (length (w_Handles w)) + 1 <? 2147483648.
Fixpoint drive_to (stop : OPEN_CALL -> bool) (t : act ()) (w : WORLD) : option (act () * WORLD) :=
  match t with
  | Give _ => Some (t, w)
  | Do c k =>
      if stop c then Some (t, w)
      else
        match exec w c with
        | Some (a, w') => if room w' then drive_to stop (k a) w' else None
        | None => None
        end
  end.
Definition drive (t : act ()) (w : WORLD) : option WORLD := snd <$> drive_to (fun _ => false) t w.

Lemma when_some {A} b (o : option A) a : when b o = Some a -> b = true /\ o = Some a.
Proof. by destruct b. Qed.
Lemma resident_at w n : resident w n = true -> node_at w n.
Proof. apply bool_decide_eq_true. Qed.
Lemma free_bucket_unheld w n : free_bucket w n = true -> unheld w n.
Proof. unfold free_bucket, unheld. destruct (Nodes (w_Store w) !! n) as [node|]; [|done]. intros H%bool_decide_eq_true. by exists node. Qed.
Lemma node_reply_fine_ok q a : node_reply_fine q a = true -> node_reply_ok q a.
Proof.
  destruct q; cbn; try done. destruct first; cbn; rewrite ?orb_false_r, ?orb_true_iff, ?andb_true_iff, ?Z.eqb_eq; intros H; [by left|]. destruct H as [?|?]; [by left|by right].
Qed.
Lemma changed_changes w o a w' : changed w o = Some (a, w') -> changes w o w'.
Proof. unfold changed. destruct o as [s|]; [|done]. intros [= <- <-]. by exists s. Qed.
Lemma exec_create_step w d mk fill a w' : exec_create w d mk fill = Some (a, w') -> create_step w d mk fill a w'.
Proof.
  unfold exec_create, create_step. set (al := mkAllocation _ _ _ _ _ _). destruct (mk al _) as [[[st pool] n] m] eqn:E. intros [[Hr Hs]%andb_true_iff H]%when_some.
  exists al, st, pool, n, m. apply bind_Some in H as (s & Hs' & [= <- <-]). split_and!; [|done|done|rewrite Hs; by exists s].
  unfold resident in Hr. apply negb_true_iff, bool_decide_eq_false in Hr. by apply eq_None_not_Some.
Qed.

(** The function follows the steps. *)
Ltac unpack H :=
  repeat first
    [ match type of H with (when _ _ = Some _) => apply when_some in H as [? H] end
    | match type of H with (mbind _ _ = Some _) => let x := fresh "x" in let Hx := fresh "Hx" in apply bind_Some in H as (x & Hx & H) end
    | match type of H with (match ?x with _ => _ end = Some _) => destruct x eqn:?; try discriminate H end ].
Ltac split_tests :=
  repeat match goal with
    | H : _ && _ = true |- _ => apply andb_true_iff in H as [? ?]
    | H : bool_decide _ = true |- _ => apply bool_decide_eq_true in H
    | H : negb _ = true |- _ => apply negb_true_iff in H
    | H : resident _ _ = true |- _ => apply resident_at in H
    | H : free_bucket _ _ = true |- _ => apply free_bucket_unheld in H
    | H : node_reply_fine _ _ = true |- _ => apply node_reply_fine_ok in H
    end.
Ltac follows H :=
  lazymatch type of H with
  | changed _ _ = _ => first [exact (changed_changes _ _ _ _ H)|split; [assumption|exact (changed_changes _ _ _ _ H)]]
  | exec_create _ _ _ _ = _ => exact (exec_create_step _ _ _ _ _ _ H)
  | Some _ = _ => injection H as <- <-; repeat first [eassumption | done | left; by split | split | eexists]
  end.
Lemma exec_step w c a w' : exec w c = Some (a, w') -> open_step root w c a w'.
Proof.
  destruct c; cbn [exec open_step]; intros H; unfold counted in H; unpack H; split_tests; follows H.
  - apply list_find_Some in Heqo as (Hl & _). by eapply list_elem_of_lookup_2.
  - by apply list_find_Some in Heqo as (_ & Hf & _).
Qed.

Lemma drive_to_runs stop t arrived : forall w t' w', drive_to stop t w = Some (t', w') -> rtc (opens_step root vcb params) (mkOpens w [t] arrived) (mkOpens w' [t'] arrived).
Proof.
  induction t as [[]|c k IH]; intros w t' w' H; cbn [drive_to] in H; [by injection H as <- <-|]. destruct (stop c); [by injection H as <- <-|].
  destruct (exec w c) as [[a w1]|] eqn:E; [|done]. destruct (room w1) eqn:E1; [|done]. eapply rtc_l; [|by apply (IH a)].
  split; [left; apply (opens_call root vcb params w c k a w1 [] [] arrived); by apply exec_step|]. unfold room, within_limits in *. cbn. apply Z.ltb_lt in E1. lia.
Qed.
Lemma drive_to_end t : forall w t' w', drive_to (fun _ => false) t w = Some (t', w') -> t' = Give ().
Proof. induction t as [[]|c k IH]; intros w t' w' H; cbn [drive_to] in H; [by injection H|]. destruct (exec w c) as [[a w1]|]; [|done]. destruct (room w1); [by eapply IH|done]. Qed.
Lemma drive_to_room stop t : forall w t' w', room w = true -> drive_to stop t w = Some (t', w') -> room w' = true.
Proof.
  induction t as [[]|c k IH]; intros w t' w' Hr H; cbn [drive_to] in H; [by injection H as _ <-|]. destruct (stop c); [by injection H as _ <-|].
  destruct (exec w c) as [[a w1]|] eqn:E; [|done]. destruct (room w1) eqn:E1; [|done]. by eapply IH.
Qed.
Lemma drive_runs t arrived w w' : room w = true -> drive t w = Some w' -> rtc (opens_step root vcb params) (mkOpens w [t] arrived) (mkOpens w' [] arrived).
Proof.
  intros Hr. unfold drive. destruct (drive_to _ t w) as [[t' w1]|] eqn:E; [|done]. intros [= <-]. eapply rtc_r; [exact (drive_to_runs _ _ arrived _ _ _ E)|].
  rewrite (drive_to_end _ _ _ _ E). split; [left; exact (opens_exit root vcb params w1 [] [] arrived)|]. pose proof (drive_to_room _ _ _ _ _ Hr E) as H. unfold room, within_limits in *. cbn. apply Z.ltb_lt in H. lia.
Qed.

(** ** Whole histories *)

(** An open arrives and is handled; a file object is cleaned up, and closed; a
    work item runs; an answer to a lookup, or an IRP of the queue. *)
Definition do_create (i : Z) (w : WORLD) : option WORLD := drive (BlorgCreate root vcb params VolumeDevice (mkCreateIrp i false false None)) w.
Definition do_cleanup (w : WORLD) : option WORLD :=
  match w_Handles w with
  | h :: l => when (negb (hd_Clean h)) (drive (CleanupVolume (hd_File h) (hd_Node h)) (put_handles w l (w_Opened w)))
  | [] => None
  end.
Definition do_close (w : WORLD) : option WORLD :=
  match w_Handles w with
  | h :: l => when (hd_Clean h) (drive (CloseVolume (hd_Node h)) (put_handles w l (w_Opened w)))
  | [] => None
  end.
Definition do_worker (w : WORLD) : option WORLD := when (0 <? WorkItems (NodeReap (w_Store w))) (drive NodeReapWorker (put_store w (reap_queue (w_Store w) (-1)))).

Abbreviation reachable := (opens_reachable root vcb params).
Lemma start_room w w1 t arrived : room w = true -> w_Handles w1 = w_Handles w \/ (exists h, w_Handles w = h :: w_Handles w1) -> within_limits (mkOpens w1 [t] arrived) /\ room w1 = true.
Proof. unfold room, within_limits. cbn. rewrite !Z.ltb_lt. intros Hr [->|(h & E)]; [lia|]. rewrite E in Hr. cbn in Hr. lia. Qed.
Lemma run_create i w w' arrived : reachable (mkOpens w [] arrived) -> room w = true -> i ∉ arrived -> c_Related (params i) = None -> do_create i w = Some w' -> reachable (mkOpens w' [] (i :: arrived)).
Proof.
  intros Hr Hm Hi Hc Hd. unfold opens_reachable in *. etrans; [eapply rtc_r; [exact Hr|]|exact (drive_runs _ (i :: arrived) _ _ Hm Hd)]. split; [right; apply opens_arrive; [done|]; intros fo; by rewrite Hc|]. by apply (start_room w w); [|left].
Qed.
Lemma run_cleanup w w' arrived : reachable (mkOpens w [] arrived) -> room w = true -> (forall i, c_Related (params i) = None) -> do_cleanup w = Some w' -> reachable (mkOpens w' [] arrived).
Proof.
  intros Hr Hm Hc Hd. unfold do_cleanup in Hd. destruct (w_Handles w) as [|h l] eqn:Eh; [done|]. apply when_some in Hd as [Hf Hd]. apply negb_true_iff in Hf.
  destruct (start_room w (put_handles w l (w_Opened w)) (CleanupVolume (hd_File h) (hd_Node h)) arrived Hm) as [Hl Hm']; [right; by exists h|]. unfold opens_reachable in *. etrans; [eapply rtc_r; [exact Hr|]|exact (drive_runs _ arrived _ _ Hm' Hd)].
  split; [right|done]. apply (opens_cleanup root vcb params w [] (hd_File h) (hd_Node h) l); [rewrite Eh; destruct h; cbn in *; by subst|]. intros i _. by rewrite Hc.
Qed.
Lemma run_close w w' arrived : reachable (mkOpens w [] arrived) -> room w = true -> (forall i, c_Related (params i) = None) -> do_close w = Some w' -> reachable (mkOpens w' [] arrived).
Proof.
  intros Hr Hm Hc Hd. unfold do_close in Hd. destruct (w_Handles w) as [|h l] eqn:Eh; [done|]. apply when_some in Hd as [Hf Hd].
  destruct (start_room w (put_handles w l (w_Opened w)) (CloseVolume (hd_Node h)) arrived Hm) as [Hl Hm']; [right; by exists h|]. unfold opens_reachable in *. etrans; [eapply rtc_r; [exact Hr|]|exact (drive_runs _ arrived _ _ Hm' Hd)].
  split; [right|done]. apply (opens_close root vcb params w [] (hd_File h) (hd_Node h) l); [rewrite Eh; destruct h; cbn in *; by subst|]. intros i _. by rewrite Hc.
Qed.
Lemma run_reaper w w' arrived : reachable (mkOpens w [] arrived) -> room w = true -> do_worker w = Some w' -> reachable (mkOpens w' [] arrived).
Proof.
  intros Hr Hm Hd. unfold do_worker in Hd. apply when_some in Hd as [Hf Hd]. apply Z.ltb_lt in Hf. destruct (start_room w (put_store w (reap_queue (w_Store w) (-1))) NodeReapWorker arrived Hm) as [Hl Hm']; [by left|].
  unfold opens_reachable in *. etrans; [eapply rtc_r; [exact Hr|]|exact (drive_runs _ arrived _ _ Hm' Hd)]. split; [left; by apply opens_worker|done].
Qed.
End Exec.
