(* ===== verification/OpensTokens.v ===== *)
(** * What a handler holds

    A handler under way is described by what it holds: locks, a pin, a
    reference, a share of the reap list, the IRP, memory ([TOK]), and, while it
    has the VCB resource, what it knows of the tree and owes to it
    ([TREE_STATE]).  [call_pre] says what a call needs of that and what it makes
    of it, and [wp] runs a handler through its calls. *)

From S2P Require Import Prelude UnicodePath PathCache ClientText Nodes NodesTree Opens OpensSystem.

(** ** Tokens *)

(** A node is named with what never changes of it, its [view]. *)
Inductive TREE_STATE :=
  | VIdle
  | VSeen (n : Z) (v : NODE) (owed : bool)        (* found; [owed]: a reference was dropped and idleness not yet looked at *)
  | VAt (d : Z) (v : NODE) (rem : option PATH)    (* at a directory; nothing is at [rem] below it *)
  | VChild (d : Z) (v : NODE) (e : Z) (ve : NODE) (rem : PATH) (* the same of the child [e] of [d] *)
  | VVacant (d : Z) (v : NODE) (name : PATH)      (* [d] has no child of that name *)
  | VEmpty (d : Z) (v : NODE)                     (* [d] has no child *)
  | VFresh (n : Z) (v : NODE)                     (* created in this hold, seen by nobody else *)
  | VRetired (n : Z) (v : NODE).                  (* to be freed: out of the table, seen by nobody else *)

Inductive BUCKET_STATE := BPlain | BTest (n : Z) (v : NODE) | BClaimed (n : Z) (v : NODE).

(** [GWorker l next]: the reap worker, with the nodes it has taken off the
    list and the one it is looking at. *)
Inductive GATE := GKick | GQueue | GWorker (l : list Z) (next : option (Z * NODE)).

Record TOK := mkTok {
  k_Vcb : option TREE_STATE;
  k_Res : option Z;
  k_Bucket : option (Z * BUCKET_STATE);
  k_Pin : option (Z * NODE);
  k_Ref : option (Z * NODE * bool);   (* [true]: the IRP's file object has it *)
  k_Unclean : option Z;
  k_Ccb : bool;
  k_Blocks : nat;
  k_Irp : option (Z * option NODE);   (* with the related file object's node, once read *)
  k_Gate : option GATE
}.
Definition tok0 : TOK := mkTok None None None None None None false 0 None None.

Definition set_vcb (T : TOK) x : TOK := mkTok x (k_Res T) (k_Bucket T) (k_Pin T) (k_Ref T) (k_Unclean T) (k_Ccb T) (k_Blocks T) (k_Irp T) (k_Gate T).
Definition set_res (T : TOK) x : TOK := mkTok (k_Vcb T) x (k_Bucket T) (k_Pin T) (k_Ref T) (k_Unclean T) (k_Ccb T) (k_Blocks T) (k_Irp T) (k_Gate T).
Definition set_bucket (T : TOK) x : TOK := mkTok (k_Vcb T) (k_Res T) x (k_Pin T) (k_Ref T) (k_Unclean T) (k_Ccb T) (k_Blocks T) (k_Irp T) (k_Gate T).
Definition set_pin (T : TOK) x : TOK := mkTok (k_Vcb T) (k_Res T) (k_Bucket T) x (k_Ref T) (k_Unclean T) (k_Ccb T) (k_Blocks T) (k_Irp T) (k_Gate T).
Definition set_ref (T : TOK) x : TOK := mkTok (k_Vcb T) (k_Res T) (k_Bucket T) (k_Pin T) x (k_Unclean T) (k_Ccb T) (k_Blocks T) (k_Irp T) (k_Gate T).
Definition set_unclean (T : TOK) x : TOK := mkTok (k_Vcb T) (k_Res T) (k_Bucket T) (k_Pin T) (k_Ref T) x (k_Ccb T) (k_Blocks T) (k_Irp T) (k_Gate T).
Definition set_ccb (T : TOK) x : TOK := mkTok (k_Vcb T) (k_Res T) (k_Bucket T) (k_Pin T) (k_Ref T) (k_Unclean T) x (k_Blocks T) (k_Irp T) (k_Gate T).
Definition set_blocks (T : TOK) x : TOK := mkTok (k_Vcb T) (k_Res T) (k_Bucket T) (k_Pin T) (k_Ref T) (k_Unclean T) (k_Ccb T) x (k_Irp T) (k_Gate T).
Definition set_irp (T : TOK) x : TOK := mkTok (k_Vcb T) (k_Res T) (k_Bucket T) (k_Pin T) (k_Ref T) (k_Unclean T) (k_Ccb T) (k_Blocks T) x (k_Gate T).
Definition set_gate (T : TOK) x : TOK := mkTok (k_Vcb T) (k_Res T) (k_Bucket T) (k_Pin T) (k_Ref T) (k_Unclean T) (k_Ccb T) (k_Blocks T) (k_Irp T) x.

(** The nodes a handler may touch. *)
Definition tree_seen (st : TREE_STATE) : list (Z * NODE) :=
  match st with
  | VIdle => []
  | VSeen n v _ | VAt n v _ | VVacant n v _ | VEmpty n v | VFresh n v | VRetired n v => [(n, v)]
  | VChild d v e ve _ => [(d, v); (e, ve)]
  end.
Definition bucket_seen (b : Z * BUCKET_STATE) : list (Z * NODE) :=
  match b.2 with BPlain => [] | BTest n v | BClaimed n v => [(n, v)] end.
Definition gate_seen (g : GATE) : list (Z * NODE) :=
  match g with GWorker _ (Some nv) => [nv] | _ => [] end.
Definition from {A B} (f : A -> list B) (o : option A) : list B := match o with Some a => f a | None => [] end.
Definition seen (T : TOK) : list (Z * NODE) :=
  from tree_seen (k_Vcb T) ++ from bucket_seen (k_Bucket T) ++ from gate_seen (k_Gate T) ++ from (fun x => [x]) (k_Pin T) ++ from (fun x => [x.1]) (k_Ref T).

Section Wp.
Context {nls : Nls} (root vcb : Z) (params : Z -> CREATE_PARAMS).

Definition known (T : TOK) (n : Z) (v : NODE) : Prop := (n, v) ∈ (root, root_node) :: (vcb, vcb_node) :: seen T.

(** ** What an open asks for *)

(** The components of the path an open names, and the node that answers it. *)
Definition path_comps (p : PATH) : list PATH := let p := strip_separator p in if is_root_path p then [] else folded p.
Definition asked (i : Z) (related : option NODE) : option PATH :=
  match c_Related (params i), related with
  | None, _ => Some (c_FileName (params i))
  | Some _, Some vr => Some (join_path (FullPath vr) (c_FileName (params i)))
  | Some _, None => None
  end.
Definition may_open (i : Z) (v : NODE) : Prop :=
  let prm := params i in
  (flag (c_Options prm) FILE_NON_DIRECTORY_FILE = true -> is_dir v = false) /\
  (flag (c_Options prm) FILE_DIRECTORY_FILE = true -> is_dir v = true) /\
  (if is_dir v then CreateCheckDirectoryAccess (c_DesiredAccess prm) else CreateCheckFileAccess (c_DesiredAccess prm)) = true.
Definition wanted (i : Z) (related : option NODE) (v : NODE) : Prop :=
  if bool_decide (NodeTypeCode v = VcbSignature) then
    c_Related (params i) = None /\ c_FileName (params i) = [] /\ CreateCheckFileAccess (c_DesiredAccess (params i)) = true
  else exists p, asked i related = Some p /\ p <> [] /\ node_comps v = path_comps p /\ may_open i v.

(** ** Calls *)

Definition quiet (st : TREE_STATE) : bool :=
  match st with VIdle | VSeen _ _ false | VChild _ _ _ _ _ => true | VAt _ v _ => negb (in_tree v) | _ => false end.
(** At [d], below which nothing is at [rem]. *)
Definition at_dir (st : TREE_STATE) (d : Z) (v : NODE) (rem : PATH) : Prop :=
  rem <> [] /\ is_dir v = true /\
  match st with
  | VAt d' v' (Some rem') => d' = d /\ v' = v /\ rem' = rem
  | VChild _ _ e ve rem' => e = d /\ ve = v /\ rem' = rem
  | VFresh n v' => n = d /\ v' = v
  | _ => False
  end.
Definition stands (st : TREE_STATE) (d : Z) (v : NODE) : Prop :=
  match st with VAt d' v' _ | VChild d' v' _ _ _ => d' = d /\ v' = v | _ => False end.

(** What a create leaves in its IRP's stash. *)
Definition stash_blocks (irp : CREATE_IRP) : nat := match ci_Stash irp with Some _ => 1 | None => 0 end.
Definition irp_ok (irp : CREATE_IRP) : Prop := ci_NetDone irp = false -> ci_Stash irp = None.

Definition unlocked (T : TOK) : Prop := k_Vcb T = None /\ k_Res T = None /\ k_Bucket T = None.
Definition owns (T : TOK) (irp : CREATE_IRP) : Prop := exists related, k_Irp T = Some (ci_Id irp, related).
Definition attached (T : TOK) : bool := match k_Ref T with Some (_, _, true) => true | _ => false end.
Definition handed_over (T : TOK) (irp : CREATE_IRP) (paid : nat) : TOK := set_irp (set_blocks T (k_Blocks T - paid)%nat) None.

Definition call_pre (c : OPEN_CALL) (T : TOK) : (open_answer c -> TOK -> Prop) -> Prop :=
  match c return (open_answer c -> TOK -> Prop) -> Prop with
  | AskOpen q => fun K => forall a, K a T
  | AskNode n q => fun K => (exists v, known T n v) /\ forall a, node_reply_ok q a -> K a T
  | ReadNode n => fun K =>
      (exists v, known T n v /\ K v T) \/
      (exists l, k_Gate T = Some (GWorker (n :: l) None) /\ forall v, in_tree v = true -> K v (set_gate T (Some (GWorker l (Some (n, v))))))
  | ReadRelated fo => fun K =>
      exists i related, k_Irp T = Some (i, related) /\ c_Related (params i) = Some fo /\ attached T = false /\ forall v, K v (set_irp T (Some (i, Some v)))
  | AcquireVcb => fun K => unlocked T /\ K () (set_vcb T (Some VIdle))
  | ReleaseVcb => fun K => exists st, k_Vcb T = Some st /\ quiet st = true /\ K () (set_vcb T None)
  | AcquireResource n => fun K => k_Res T = None /\ k_Bucket T = None /\ (exists v, known T n v) /\ K () (set_res T (Some n))
  | ReleaseResource n => fun K => k_Res T = Some n /\ (exists v, known T n v) /\ K () (set_res T None)
  | AcquireBucket b => fun K =>
      k_Bucket T = None /\
      ((exists n v owed, k_Vcb T = Some (VSeen n v owed) /\ b = TableBucketIndex v /\ K () (set_bucket (set_vcb T (Some (VSeen n v false))) (Some (b, BTest n v)))) \/
       K () (set_bucket T (Some (b, BPlain))))
  | ReleaseBucket b => fun K => k_Bucket T = Some (b, BPlain) /\ K () (set_bucket T None)
  | LookupPin p => fun K =>
      k_Pin T = None /\ K None T /\
      forall n v, in_tree v = true -> fold_path (FullPath v) = fold_path p -> K (Some n) (set_pin T (Some (n, v)))
  | DropPin n => fun K =>
      exists v, k_Pin T = Some (n, v) /\ in_tree v = true /\ k_Bucket T = Some (TableBucketIndex v, BPlain) /\ K () (set_bucket (set_pin T None) (Some (TableBucketIndex v, BTest n v)))
  | DropRef n => fun K =>
      exists v, k_Ref T = Some (n, v, false) /\ in_tree v = true /\ k_Vcb T = None /\ k_Unclean T = None /\ k_Bucket T = Some (TableBucketIndex v, BPlain) /\
        K () (set_bucket (set_ref T None) (Some (TableBucketIndex v, BTest n v)))
  | CloseRef n => fun K => exists v, k_Ref T = Some (n, v, false) /\ in_tree v = false /\ k_Vcb T = None /\ k_Unclean T = None /\ K () (set_ref T None)
  | OpenRef n => fun K =>
      k_Ref T = None /\
      exists v, (in_tree v = false /\ known T n v \/ k_Pin T = Some (n, v) \/ (exists owed, k_Vcb T = Some (VSeen n v owed)) \/ k_Vcb T = Some (VFresh n v)) /\
        forall z, K z (set_ref T (Some (n, v, false)))
  | UndoRef n => fun K =>
      exists v, k_Ref T = Some (n, v, false) /\ k_Unclean T = None /\
        ((in_tree v = false \/ k_Pin T = Some (n, v) \/ k_Vcb T = Some (VFresh n v)) /\ K () (set_ref T None) \/
         (exists owed, k_Vcb T = Some (VSeen n v owed)) /\ K () (set_vcb (set_ref T None) (Some (VSeen n v true))))
  | ReadRefCount n | ReadPinCount n => fun K =>
      exists b v, k_Bucket T = Some (b, BTest n v) /\ K 0 T /\ forall z, z <> 0 -> K z (set_bucket T (Some (b, BPlain)))
  | MarkUnclean n => fun K => exists v, k_Ref T = Some (n, v, false) /\ k_Unclean T = None /\ K () (set_unclean T (Some n))
  | UnmarkUnclean n => fun K => k_Unclean T = Some n /\ (exists v, known T n v) /\ K () (set_unclean T None)
  | ClaimReap n => fun K =>
      exists b v, k_Bucket T = Some (b, BTest n v) /\ K true (set_bucket T (Some (b, BPlain))) /\ K false (set_bucket T (Some (b, BClaimed n v)))
  | PushReap n => fun K =>
      exists b v, k_Bucket T = Some (b, BClaimed n v) /\ k_Gate T = None /\ K () (set_gate (set_bucket T (Some (b, BPlain))) (Some GKick))
  | KickReap => fun K => k_Gate T = Some GKick /\ K true (set_gate T (Some GQueue)) /\ K false (set_gate T None)
  | QueueReap => fun K => k_Gate T = Some GQueue /\ K () (set_gate T None)
  | TakeReapList => fun K => k_Gate T = Some (GWorker [] None) /\ forall l, K l (set_gate T (Some (GWorker l None)))
  | ClearQueued => fun K => k_Gate T = Some (GWorker [] None) /\ K true (set_gate T (Some GKick)) /\ K false (set_gate T None)
  | RetireNode n => fun K =>
      exists v, k_Vcb T = Some (VEmpty n v) /\ k_Bucket T = None /\ K false (set_vcb T (Some VIdle)) /\ K true (set_vcb T (Some (VRetired n v)))
  | PublishNode n => fun K =>
      k_Bucket T = None /\ exists v, (k_Vcb T = Some (VSeen n v false) \/ k_Vcb T = Some (VFresh n v)) /\ k_Ref T = Some (n, v, true) /\ K () (set_vcb T (Some VIdle))
  | JudgeNode n => fun K =>
      k_Bucket T = None /\ exists st l v, k_Vcb T = Some st /\ quiet st = true /\ k_Gate T = Some (GWorker l (Some (n, v))) /\ in_tree v = true /\
        K false (set_gate (set_vcb T (Some VIdle)) (Some (GWorker l None))) /\ K true (set_gate (set_vcb T (Some (VRetired n v))) (Some (GWorker l None)))
  | SearchPath p => fun K =>
      k_Vcb T = Some VIdle /\ p <> [] /\
      (forall n v, in_tree v = true -> node_comps v = folded p -> K (Some n) (set_vcb T (Some (VSeen n v false)))) /\
      K None (set_vcb T (Some (VAt root root_node (Some p))))
  | SearchName d name => fun K =>
      exists st v rem, k_Vcb T = Some st /\ at_dir st d v rem /\ name = (FsRtlDissectName rem).1 /\
        K None (set_vcb T (Some (VVacant d v name))) /\
        let rest := (FsRtlDissectName rem).2 in
        (rest <> [] -> forall e ve, in_tree ve = true -> node_comps ve = node_comps v ++ [fold_path name] -> K (Some e) (set_vcb T (Some (VChild d v e ve rest))))
  | CreateFcbIn d p _ => fun K =>
      exists v name, k_Vcb T = Some (VVacant d v name) /\ p <> [] /\ folded p = node_comps v ++ [fold_path name] /\
        (forall n st, NT_SUCCESS st = false -> K (st, n) (set_vcb T (Some (VAt d v None)))) /\
        (forall n v', NodeTypeCode v' = FcbSignature -> FullPath v' = p -> ParentDcb v' = d -> K (STATUS_SUCCESS, n) (set_vcb T (Some (VFresh n v'))))
  | CreateDcbIn d p => fun K =>
      exists v name, k_Vcb T = Some (VVacant d v name) /\ p <> [] /\ folded p = node_comps v ++ [fold_path name] /\
        (forall n st, NT_SUCCESS st = false -> K (st, n) (set_vcb T (Some (VAt d v None)))) /\
        (forall n v', NodeTypeCode v' = DcbSignature -> FullPath v' = p -> ParentDcb v' = d -> K (STATUS_SUCCESS, n) (set_vcb T (Some (VFresh n v'))))
  | ChildrenEmpty n => fun K =>
      exists st v, k_Vcb T = Some st /\ stands st n v /\ in_tree v = true /\ K false (set_vcb T (Some VIdle)) /\ K true (set_vcb T (Some (VEmpty n v)))
  | FreeNode n => fun K =>
      exists v, (k_Vcb T = Some (VFresh n v) \/ k_Vcb T = Some (VRetired n v)) /\ k_Ref T = None /\ k_Bucket T = None /\ k_Res T = None /\
        forall pv, is_dir pv = true -> node_comps v = node_comps pv ++ [node_name v] -> K () (set_vcb T (Some (VAt (ParentDcb v) pv None)))
  | ReadMeta n => fun K => (exists v, known T n v) /\ forall m, K m T
  | WriteMeta n _ => fun K => (exists v, known T n v) /\ K () T
  | AllocateCcb => fun K => k_Ccb T = false /\ K STATUS_SUCCESS (set_ccb T true) /\ K STATUS_INSUFFICIENT_RESOURCES T
  | FreeCcb => fun K => k_Ccb T = true /\ K () (set_ccb T false)
  | AllocateBlock => fun K => K true (set_blocks T (S (k_Blocks T))) /\ K false T
  | FreeBlock | FreeStash _ => fun K => (1 <= k_Blocks T)%nat /\ K () (set_blocks T (k_Blocks T - 1)%nat)
  | CheckOplock n irp => fun K =>
      (exists v, known T n v) /\ owns T irp /\ attached T = false /\ ci_Stash irp = None /\ (forall a, a <> STATUS_PENDING -> K a T) /\ K STATUS_PENDING (set_irp T None)
  | SetFileObject irp n => fun K =>
      exists v related, k_Irp T = Some (ci_Id irp, related) /\ k_Ref T = Some (n, v, false) /\ wanted (ci_Id irp) related v /\
        k_Ccb T = negb (bool_decide (NodeTypeCode v = VcbSignature)) /\ k_Unclean T = (if bool_decide (NodeTypeCode v = FcbSignature) then Some n else None) /\
        K () (set_unclean (set_ccb (set_ref T (Some (n, v, true))) false) None)
  | PostCreate irp => fun K =>
      owns T irp /\ attached T = false /\ irp_ok irp /\ (stash_blocks irp <= k_Blocks T)%nat /\
      K STATUS_PENDING (handed_over T irp (stash_blocks irp)) /\ forall a, NT_SUCCESS a = false -> K a T
  | RequeueCreate irp => fun K =>
      owns T irp /\ attached T = false /\ irp_ok irp /\ (stash_blocks irp <= k_Blocks T)%nat /\
      K STATUS_PENDING (handed_over T irp (stash_blocks irp)) /\ K STATUS_DEVICE_REMOVED T
  | IssueLookup irp _ _ => fun K =>
      owns T irp /\ attached T = false /\ ci_Stash irp = None /\ (2 <= k_Blocks T)%nat /\
      K STATUS_PENDING (handed_over T irp 2) /\ forall a, NT_SUCCESS a = false -> K a T
  | CompleteCreate irp st => fun K => owns T irp /\ k_Vcb T = None /\ (st = STATUS_SUCCESS <-> attached T = true) /\ (attached T = true -> k_Ccb T = false /\ k_Unclean T = None) /\
      K () (set_irp (if attached T then set_ref T None else T) None)
  | FinishCleanup fo n => fun K =>
      exists v, k_Ref T = Some (n, v, false) /\ k_Irp T = None /\ k_Vcb T = None /\ k_Unclean T = None /\ k_Ccb T = negb (bool_decide (NodeTypeCode v = VcbSignature)) /\ K () (set_ccb (set_ref T None) false)
  end.

Fixpoint wp {R} (p : act R) (T : TOK) (Q : R -> TOK -> Prop) : Prop :=
  match p with
  | Give r => Q r T
  | Do c k => call_pre c T (fun a T => wp (k a) T Q)
  end.

(** Carries a hypothesis over to a goal of the same shape. *)
Ltac carry HK H :=
  lazymatch type of H with
  | ex _ => let x := fresh "x" in destruct H as [x H]; exists x; carry HK H
  | _ <-> _ => exact H
  | _ /\ _ => let H1 := fresh "H" in destruct H as [H1 H]; split; [carry HK H1|carry HK H]
  | _ \/ _ => destruct H as [H|H]; [left|right]; carry HK H
  | forall _, _ => first [exact H|let y := fresh "y" in intros y; specialize (H y); carry HK H]
  | _ => first [exact H|apply HK; exact H]
  end.
Lemma open_pre_mono c T (K K' : open_answer c -> TOK -> Prop) : (forall a T, K a T -> K' a T) -> call_pre c T K -> call_pre c T K'.
Proof. intros HK. destruct c; cbn [call_pre]; cbv zeta; intros H; carry HK H. Qed.

Lemma open_mono {R} (p : act R) : forall T (Q Q' : R -> TOK -> Prop), (forall r T, Q r T -> Q' r T) -> wp p T Q -> wp p T Q'.
Proof. induction p as [r|c k IH]; intros T Q Q' HQ; cbn [wp]; [apply HQ|]. apply open_pre_mono. intros a T'. by apply IH. Qed.

Lemma open_bind {A B} (p : act A) (f : A -> act B) : forall T Q, wp p T (fun a T => wp (f a) T Q) -> wp (p ≫= f) T Q.
Proof. unfold mbind, act_mbind. induction p as [r|c k IH]; intros T Q; cbn [wp act_bind]; [done|]. apply open_pre_mono. intros a T'. by apply IH. Qed.

Lemma open_make {B} c (f : open_answer c -> act B) T Q : call_pre c T (fun a T => wp (f a) T Q) -> wp (make c ≫= f) T Q.
Proof. intros H. apply open_bind. exact H. Qed.

(** A handler that is done holds nothing. *)
Definition ends (_ : ()) (T : TOK) : Prop := T = tok0.
End Wp.
