(* ===== verification/OpensInvariant.v ===== *)
(** * The invariant of the opens

    What holds between any two calls, of the world and of what the handlers
    under way hold ([F], one [TOK] each).  Every count is the number of those
    who are counted. *)

From S2P Require Import Prelude UnicodePath PathCache ClientText Nodes NodesTree Opens OpensSystem OpensTokens.

(** ** Counting *)

Definition hit (m n : Z) : nat := if m =? n then 1 else 0.
Abbreviation total := sum_list_with.
Definition cnt (n : Z) (l : list Z) : nat := total (fun m => hit m n) l.
Definition tally (p : COUNTERS -> Z) (n : Z) (cs : gmap Z COUNTERS) : Z := match cs !! n with Some c => p c | None => 0 end.
Definition on_reap (c : COUNTERS) : Z := if OnReapList c then 1 else 0.

Definition in_option {A} (f : A -> nat) (o : option A) : nat := match o with Some a => f a | None => 0 end.
Definition pin_at (n : Z) (T : TOK) : nat := in_option (fun x => hit x.1 n) (k_Pin T).
Definition ref_at (n : Z) (T : TOK) : nat := in_option (fun x => hit x.1.1 n) (k_Ref T).
Definition handle_at (n : Z) (h : HANDLE) : nat := hit (hd_Node h) n.
Definition unclean_at (n : Z) (T : TOK) : nat := in_option (fun m => hit m n) (k_Unclean T) + in_option (fun x => if x.2 : bool then hit x.1.1 n else 0%nat) (k_Ref T).
Definition unclean_handle (n : Z) (h : HANDLE) : nat := if hd_Clean h then 0%nat else hit (hd_Node h) n.
Definition test_at (n : Z) (T : TOK) : nat := in_option (fun b => match b.2 with BTest m _ => hit m n | _ => 0%nat end) (k_Bucket T).
Definition gate_claims (n : Z) (g : GATE) : nat := match g with GWorker l next => cnt n l + in_option (fun x => hit x.1 n) next | _ => 0%nat end.
Definition claim_at (n : Z) (T : TOK) : nat :=
  in_option (fun b => match b.2 with BClaimed m _ => hit m n | _ => 0%nat end) (k_Bucket T) +
  in_option (fun st => match st with VRetired m _ => hit m n | _ => 0%nat end) (k_Vcb T) +
  in_option (gate_claims n) (k_Gate T).
Definition vcb_at (T : TOK) : nat := in_option (fun _ => 1%nat) (k_Vcb T).
Definition res_at (n : Z) (T : TOK) : nat := in_option (fun m => hit m n) (k_Res T).
Definition bucket_at (b : Z) (T : TOK) : nat := in_option (fun x => hit x.1 b) (k_Bucket T).
Definition gate_at (T : TOK) : nat := in_option (fun g => match g with GKick => 0 | _ => 1 end%nat) (k_Gate T).
Definition irp_at (i : Z) (T : TOK) : nat := in_option (fun x => hit x.1 i) (k_Irp T).

(** A node nobody has to look at for idleness because this handler will. *)
Definition exempt (n : Z) (T : TOK) : Prop :=
  match k_Vcb T with
  | Some (VSeen m _ true) | Some (VAt m _ _) | Some (VVacant m _ _) | Some (VEmpty m _) | Some (VFresh m _) => m = n
  | _ => False
  end \/
  match k_Bucket T with Some (_, BTest m _) => m = n | _ => False end.

(** [Forall] and [Exists], by recursion. *)
Fixpoint all {A} (P : A -> Prop) (l : list A) : Prop := match l with [] => True | x :: l => P x /\ all P l end.
Fixpoint some {A} (P : A -> Prop) (l : list A) : Prop := match l with [] => False | x :: l => P x \/ some P l end.

Section Invariant.
Context {nls : Nls} (root vcb : Z) (params : Z -> CREATE_PARAMS).
Implicit Types (nodes : gmap Z NODE) (cs : gmap Z COUNTERS) (hs : list HANDLE) (F : list TOK) (n : Z) (v : NODE).

Definition ccb_at (T : TOK) : nat := (if k_Ccb T then 1 else 0) + in_option (fun x => if x.2 : bool then 1 - hit x.1.1 vcb else 0)%nat (k_Ref T).
Definition ccb_handle (h : HANDLE) : nat := 1 - hit (hd_Node h) vcb.

(** ** Nodes *)

Definition is_at nodes n v : Prop := view <$> nodes !! n = Some v.

Definition f_fixed nodes : Prop := is_at nodes root root_node /\ is_at nodes vcb vcb_node.
Definition f_dom nodes cs : Prop := forall n, is_Some (nodes !! n) <-> is_Some (cs !! n).
Definition f_pins cs F : Prop := forall n, tally PinCount n cs = Z.of_nat (total (pin_at n) F).
Definition f_refs cs hs F : Prop := forall n, tally RefCount n cs = Z.of_nat (total (ref_at n) F + total (handle_at n) hs).
Definition f_unclean nodes cs hs F : Prop :=
  forall n v, is_at nodes n v -> NodeTypeCode v = FcbSignature -> tally UncleanCount n cs = Z.of_nat (total (unclean_at n) F + total (unclean_handle n) hs).
Definition f_marked F : Prop := all (fun T => match k_Unclean T with Some n => match k_Ref T with Some x => x.1.1 = n | None => False end | None => True end) F.
Definition f_claims cs (l : list Z) F : Prop := forall n, tally on_reap n cs = Z.of_nat (cnt n l + total (claim_at n) F).
Definition f_reaped nodes cs : Prop := forall n v c, is_at nodes n v -> cs !! n = Some c -> OnReapList c = true -> in_tree v = true.
Definition f_seen nodes F : Prop := all (fun T => all (fun x => is_at nodes x.1 x.2) (seen T)) F.
Definition bucket_ok (x : Z * BUCKET_STATE) : Prop :=
  match x.2 with BTest _ v => x.1 = TableBucketIndex v /\ in_tree v = true | BClaimed _ v => in_tree v = true | BPlain => True end.
Definition f_tests F : Prop := all (fun T => match k_Bucket T with Some x => bucket_ok x | None => True end) F.

(** The table has the published nodes, each in its bucket. *)
Definition table_has nodes cs (b n : Z) : Prop := exists v c, is_at nodes n v /\ cs !! n = Some c /\ Published c = true /\ TableBucketIndex v = b.
Definition f_table nodes cs (table : list (list Z)) : Prop :=
  Z.of_nat (length table) = NODE_TABLE_BUCKETS /\
  (forall n v c, is_at nodes n v -> cs !! n = Some c -> Published c = true -> in_tree v = true) /\
  forall b l, rd table b = Some l -> NoDup l /\ forall n, n ∈ l <-> table_has nodes cs b n.

(** No idle leaf is forgotten. *)
Definition childless nodes n : Prop := exists node, nodes !! n = Some node /\ ChildrenList node = [].
Definition f_idle nodes cs F : Prop :=
  forall n v c, is_at nodes n v -> in_tree v = true -> childless nodes n -> cs !! n = Some c ->
    PinCount c = 0 -> RefCount c = 0 -> OnReapList c = false -> some (exempt n) F.

(** A node only this handler sees. *)
Definition alone nodes cs hs F (T : TOK) n v : Prop :=
  in_tree v = true /\ childless nodes n /\ (exists c, cs !! n = Some c /\ Published c = false) /\
  total (pin_at n) F = 0%nat /\ (total (ref_at n) F + total (handle_at n) hs)%nat = ref_at n T /\ total (test_at n) F = 0%nat.

Definition vacant_path nodes d (rem : PATH) : Prop := rem <> [] /\ forall a, ~ leads nodes d (folded rem) a.

Definition tree_state_ok nodes cs hs F (T : TOK) (st : TREE_STATE) : Prop :=
  match st with
  | VIdle => True
  | VSeen n v _ => in_tree v = true
  | VAt d v rem => is_dir v = true /\ match rem with Some rem => vacant_path nodes d rem | None => True end
  | VChild d v e ve rem => is_dir v = true /\ ParentDcb ve = d /\ in_tree ve = true /\ vacant_path nodes e rem
  | VVacant d v name => is_dir v = true /\ forall c, ~ child_named nodes d (fold_path name) c
  | VEmpty d v => in_tree v = true /\ childless nodes d
  | VFresh n v => alone nodes cs hs F T n v /\ (exists c, cs !! n = Some c /\ OnReapList c = false)
  | VRetired n v => alone nodes cs hs F T n v
  end.
Definition f_trees nodes cs hs F : Prop := all (fun T => match k_Vcb T with Some st => tree_state_ok nodes cs hs F T st | None => True end) F.

(** ** The reap list, the locks and the memory *)

Definition f_kick (r : NODE_REAP_STATE) F : Prop := ShuttingDown r = false /\ (ReapList r <> [] -> Queued r = true \/ some (fun T => k_Gate T = Some GKick) F).
Definition f_gate (r : NODE_REAP_STATE) F : Prop := 0 <= WorkItems r /\ Z.of_nat (total gate_at F) + WorkItems r = if Queued r then 1 else 0.

Definition f_vcb (held : bool) F : Prop := total vcb_at F = if held then 1%nat else 0%nat.
Definition f_resources (l : list Z) F : Prop := forall n, cnt n l = total (res_at n) F /\ (cnt n l <= 1)%nat.
Definition f_buckets (l : list Z) F : Prop := forall b, cnt b l = total (bucket_at b) F.

Definition pool_of_node v : POOL := node_pool (negb (is_dir v)) (negb (bool_decide (NodeTypeCode v = VcbSignature))).
Definition pool_of nodes : POOL := map_fold (fun _ v => pool_plus (pool_of_node v)) pool_zero nodes.
Definition f_pool (pool : POOL) nodes hs F : Prop := pool = pool_plus (pool_of nodes) (mkPool 0 0 0 (Z.of_nat (total ccb_at F + total ccb_handle hs)) 0 0).

Definition f_blocks (blocks : Z) (posted : list CREATE_IRP) (looking : list (CREATE_IRP * PATH * PATH_CACHE_TICKET)) F : Prop :=
  blocks = Z.of_nat (total k_Blocks F + total stash_blocks posted + 2 * length looking).

(** ** The creates *)

Definition looking_irp (x : CREATE_IRP * PATH * PATH_CACHE_TICKET) : CREATE_IRP := x.1.1.
Definition f_irps (posted : list CREATE_IRP) (looking : list (CREATE_IRP * PATH * PATH_CACHE_TICKET)) (parked : list CREATE_IRP) (done : list (Z * NTSTATUS)) (arrived : list Z) F : Prop :=
  forall i, (total (irp_at i) F + cnt i (ci_Id <$> posted) + cnt i (ci_Id ∘ looking_irp <$> looking) + cnt i (ci_Id <$> parked) + cnt i (done.*1))%nat = cnt i arrived /\ (cnt i arrived <= 1)%nat.
Definition f_queued (posted : list CREATE_IRP) (looking : list (CREATE_IRP * PATH * PATH_CACHE_TICKET)) (parked : list CREATE_IRP) : Prop :=
  Forall irp_ok posted /\ Forall (fun x => ci_Stash (looking_irp x) = None) looking /\ Forall (fun irp => ci_Stash irp = None) parked.

(** A file object that was set up, and the node the open asked for. *)
Definition attached_ok (opened : gmap Z Z) (T : TOK) : Prop :=
  match k_Ref T with
  | Some (n, v, true) => exists i related, k_Irp T = Some (i, related) /\ opened !! i = Some n /\ wanted params i related v
  | _ => True
  end.
Definition has_attached (i n : Z) (T : TOK) : Prop := exists v related, k_Irp T = Some (i, related) /\ k_Ref T = Some (n, v, true).
Definition f_opened (opened : gmap Z Z) F : Prop := all (attached_ok opened) F /\ forall i n, opened !! i = Some n -> some (has_attached i n) F.

Definition related_is nodes hs (i : Z) v : Prop := exists fo h, c_Related (params i) = Some fo /\ h ∈ hs /\ hd_File h = fo /\ is_at nodes (hd_Node h) v.
Definition f_related nodes hs F : Prop := all (fun T => match k_Irp T with Some (i, Some v) => related_is nodes hs i v | _ => True end) F.
Definition f_open hs (done : list (Z * NTSTATUS)) (arrived : list Z) : Prop :=
  forall i fo, i ∈ arrived -> i ∉ done.*1 -> c_Related (params i) = Some fo -> fo ∈ hd_File <$> hs.

Record inv (w : WORLD) (F : list TOK) (arrived : list Z) : Prop := {
  i_tree : tree_ok root vcb (Nodes (w_Store w)) (NodeChildren (w_Store w));
  i_fixed : f_fixed (Nodes (w_Store w));
  i_dom : f_dom (Nodes (w_Store w)) (Counters (w_Store w));
  i_pins : f_pins (Counters (w_Store w)) F;
  i_refs : f_refs (Counters (w_Store w)) (w_Handles w) F;
  i_unclean : f_unclean (Nodes (w_Store w)) (Counters (w_Store w)) (w_Handles w) F;
  i_marked : f_marked F;
  i_claims : f_claims (Counters (w_Store w)) (ReapList (NodeReap (w_Store w))) F;
  i_reaped : f_reaped (Nodes (w_Store w)) (Counters (w_Store w));
  i_seen : f_seen (Nodes (w_Store w)) F;
  i_tests : f_tests F;
  i_table : f_table (Nodes (w_Store w)) (Counters (w_Store w)) (NodeTable (w_Store w));
  i_idle : f_idle (Nodes (w_Store w)) (Counters (w_Store w)) F;
  i_trees : f_trees (Nodes (w_Store w)) (Counters (w_Store w)) (w_Handles w) F;
  i_kick : f_kick (NodeReap (w_Store w)) F;
  i_gate : f_gate (NodeReap (w_Store w)) F;
  i_vcb : f_vcb (w_Vcb w) F;
  i_resources : f_resources (w_Resources w) F;
  i_buckets : f_buckets (w_Buckets w) F;
  i_pool : f_pool (Pool (w_Store w)) (Nodes (w_Store w)) (w_Handles w) F;
  i_blocks : f_blocks (w_Blocks w) (w_Posted w) (w_Looking w) F;
  i_irps : f_irps (w_Posted w) (w_Looking w) (w_Parked w) (w_Done w) arrived F;
  i_queued : f_queued (w_Posted w) (w_Looking w) (w_Parked w);
  i_opened : f_opened (w_Opened w) F;
  i_related : f_related (Nodes (w_Store w)) (w_Handles w) F;
  i_open : f_open (w_Handles w) (w_Done w) arrived
}.
End Invariant.

(** ** Totals *)

Lemma hit_same n : hit n n = 1%nat.
Proof. unfold hit. by rewrite Z.eqb_refl. Qed.
Lemma hit_other m n : m <> n -> hit m n = 0%nat.
Proof. intros H. unfold hit. by destruct (Z.eqb_spec m n). Qed.
Lemma hit_le m n : (hit m n <= 1)%nat.
Proof. unfold hit. destruct (m =? n); lia. Qed.
Lemma hit_pos m n : (0 < hit m n)%nat -> m = n.
Proof. unfold hit. destruct (Z.eqb_spec m n); [done|lia]. Qed.

Lemma all_elem {A} (P : A -> Prop) l : all P l <-> forall x, x ∈ l -> P x.
Proof.
  induction l as [|x l IH]; cbn; [split; [intros _ x ?%elem_of_nil|]; done|]. rewrite IH. split.
  - intros [Hx Hl] y [->|Hy]%elem_of_cons; auto.
  - intros H. split; [apply H; left|intros y Hy; apply H; by right].
Qed.
Lemma some_elem {A} (P : A -> Prop) l : some P l <-> exists x, x ∈ l /\ P x.
Proof.
  induction l as [|x l IH]; cbn; [split; [done|intros (x & ?%elem_of_nil & _); done]|]. rewrite IH. split.
  - intros [Hx|(y & Hy & HP)]; [exists x; split; [left|done]|exists y; split; [by right|done]].
  - intros (y & [->|Hy]%elem_of_cons & HP); [by left|right; by exists y].
Qed.
Lemma all_mono {A} (P P' : A -> Prop) l : (forall x, x ∈ l -> P x -> P' x) -> all P l -> all P' l.
Proof. rewrite !all_elem. intros H Hl x Hx. apply H; auto. Qed.
Lemma some_mono {A} (P P' : A -> Prop) l : (forall x, x ∈ l -> P x -> P' x) -> some P l -> some P' l.
Proof. rewrite !some_elem. intros H (x & Hx & HP). exists x. auto. Qed.
Lemma all_app {A} (P : A -> Prop) l1 l2 : all P (l1 ++ l2) <-> all P l1 /\ all P l2.
Proof. induction l1 as [|x l1 IH]; cbn; [tauto|]. rewrite IH. tauto. Qed.

Lemma total_ones {A} (f : A -> nat) l : (forall x, (f x <= 1)%nat) -> (total f l <= length l)%nat.
Proof. intros Hf. induction l as [|x l IH]; cbn; [done|]. specialize (Hf x). lia. Qed.
Lemma total_zero {A} (f : A -> nat) l x : total f l = 0%nat -> x ∈ l -> f x = 0%nat.
Proof. intros Hz Hx. pose proof (sum_list_with_in x f l Hx). lia. Qed.
Lemma total_ext {A} (f g : A -> nat) l : (forall x, x ∈ l -> f x = g x) -> total f l = total g l.
Proof. induction l as [|x l IH]; intros H; cbn; [done|]. rewrite (H x) by left. by rewrite IH by (intros y Hy; apply H; by right). Qed.
Lemma total_all_zero {A} (f : A -> nat) l : (forall x, x ∈ l -> f x = 0%nat) -> total f l = 0%nat.
Proof. induction l as [|x l IH]; intros H; cbn; [done|]. rewrite (H x) by left. by rewrite IH by (intros y Hy; apply H; by right). Qed.
Lemma total_middle {A} (f : A -> nat) l1 x l2 : total f (l1 ++ x :: l2) = (f x + total f (l1 ++ l2))%nat.
Proof. rewrite !sum_list_with_app. cbn. lia. Qed.

Lemma cnt_cons n m l : cnt n (m :: l) = (hit m n + cnt n l)%nat.
Proof. done. Qed.
Lemma cnt_app n l1 l2 : cnt n (l1 ++ l2) = (cnt n l1 + cnt n l2)%nat.
Proof. apply sum_list_with_app. Qed.
Lemma cnt_elem n l : n ∈ l <-> (0 < cnt n l)%nat.
Proof.
  induction l as [|m l IH]; [cbn; split; [by intros ?%elem_of_nil|lia]|]. rewrite cnt_cons, elem_of_cons. split.
  - intros [->|H%IH]; [rewrite hit_same|]; lia.
  - destruct (Z.eq_dec m n) as [->|Hn]; [by left|]. rewrite hit_other by done. intros H. right. apply IH. lia.
Qed.
Lemma cnt_zero n l : n ∉ l <-> cnt n l = 0%nat.
Proof. rewrite cnt_elem. lia. Qed.
Lemma cnt_unlink n x l : x ∈ l -> cnt n l = (hit x n + cnt n (unlink_first x l))%nat.
Proof.
  induction l as [|m l IH]; [by intros ?%elem_of_nil|]. intros H. cbn [unlink_first]. destruct (Z.eqb_spec m x) as [->|Hm]; [done|].
  apply elem_of_cons in H as [?|H]; [done|]. rewrite !cnt_cons, IH by done. lia.
Qed.

Lemma pin_at_le n T : (pin_at n T <= 1)%nat.
Proof. unfold pin_at. destruct (k_Pin T) as [x|]; cbn; [apply hit_le|lia]. Qed.
Lemma ref_at_le n T : (ref_at n T <= 1)%nat.
Proof. unfold ref_at. destruct (k_Ref T) as [x|]; cbn; [apply hit_le|lia]. Qed.

(** ** The counts of one node *)

Lemma tally_insert p n m c cs : tally p m (<[n := c]> cs) = if decide (m = n) then p c else tally p m cs.
Proof. unfold tally. destruct (decide (m = n)) as [->|]; [by rewrite lookup_insert_eq|by rewrite lookup_insert_ne by done]. Qed.
Lemma tally_at p n c cs : cs !! n = Some c -> tally p n cs = p c.
Proof. unfold tally. by intros ->. Qed.

Section Facts.
Context {nls : Nls} (root vcb : Z) (params : Z -> CREATE_PARAMS).
Abbreviation inv := (inv root vcb params).

(** The handlers are in no order. *)
Lemma inv_perm w F F' arrived : F ≡ₚ F' -> inv w F arrived -> inv w F' arrived.
Proof.
  intros Hp [].
  assert (Ha : forall P : TOK -> Prop, all P F -> all P F') by (intros P; rewrite !all_elem; intros H T HT; apply H; by rewrite Hp).
  assert (Hs : forall f : TOK -> nat, total f F' = total f F) by (intros f; by rewrite Hp).
  assert (Hex : forall P : TOK -> Prop, some P F -> some P F') by (intros P; rewrite !some_elem; intros (T & HT & H); exists T; by rewrite <- Hp).
  split; unfold f_pins, f_refs, f_unclean, f_marked, f_claims, f_seen, f_tests, f_idle, f_trees, f_kick, f_gate, f_vcb, f_resources, f_buckets, f_pool, f_blocks, f_irps, f_opened, f_related in *;
    try done; try (intros ?; rewrite Hs; by auto); try (rewrite Hs; by auto); try (by apply Ha).
  - intros n v Hv Hf. rewrite Hs. by eapply i_unclean0.
  - intros n v c Hv Hi Hc Hn Hpc Hrc Ho. apply Hex. by eapply i_idle0.
  - apply Ha. eapply all_mono, i_trees0. intros T _. cbn. destruct (k_Vcb T) as [st|]; [|done]. destruct st; cbn; unfold alone; rewrite ?Hs; done.
  - destruct i_kick0 as [Hsd Hk]. split; [done|]. intros Hne. destruct (Hk Hne) as [?|?]; [by left|right; by apply Hex].
  - destruct i_opened0 as [H1 H2]. split; [by apply Ha|]. intros i n Hin. by apply Hex, H2.
Qed.
End Facts.
