(* ===== verification/OpensCalls.v ===== *)
(** * The calls keep the invariant: questions, locks, memory

    [sound c]: whatever a handler that may make the call [c] is answered, it
    then holds what [call_pre] says, and the invariant holds. *)

From S2P Require Import Prelude UnicodePath PathCache ClientText Nodes NodesTree Opens OpensSystem OpensTokens OpensInvariant.

(** Proves the fields of the invariant that did not change. *)
Ltac keep t := try exact t.
Ltac keeps H :=
  split;
  [ keep (i_tree _ _ _ _ _ _ H) | keep (i_fixed _ _ _ _ _ _ H) | keep (i_dom _ _ _ _ _ _ H) | keep (i_pins _ _ _ _ _ _ H) | keep (i_refs _ _ _ _ _ _ H)
  | keep (i_unclean _ _ _ _ _ _ H) | keep (i_marked _ _ _ _ _ _ H) | keep (i_claims _ _ _ _ _ _ H) | keep (i_reaped _ _ _ _ _ _ H) | keep (i_seen _ _ _ _ _ _ H) | keep (i_tests _ _ _ _ _ _ H)
  | keep (i_table _ _ _ _ _ _ H) | keep (i_idle _ _ _ _ _ _ H) | keep (i_trees _ _ _ _ _ _ H) | keep (i_kick _ _ _ _ _ _ H) | keep (i_gate _ _ _ _ _ _ H)
  | keep (i_vcb _ _ _ _ _ _ H) | keep (i_resources _ _ _ _ _ _ H) | keep (i_buckets _ _ _ _ _ _ H) | keep (i_pool _ _ _ _ _ _ H) | keep (i_blocks _ _ _ _ _ _ H)
  | keep (i_irps _ _ _ _ _ _ H) | keep (i_queued _ _ _ _ _ _ H) | keep (i_opened _ _ _ _ _ _ H) | keep (i_related _ _ _ _ _ _ H) | keep (i_open _ _ _ _ _ _ H) ].

(** Computes with the counts of a handler whose tokens are written out. *)
Ltac tok := unfold pin_at, ref_at, unclean_at, test_at, claim_at, vcb_at, res_at, bucket_at, gate_at, irp_at, ccb_at, handle_at, unclean_handle, ccb_handle in *; cbn in *.
(** Computes with a world that was changed in one place. *)
Ltac world :=
  cbn [put_store w_Store w_Handles w_Vcb w_Resources w_Buckets w_Blocks w_Opened w_Posted w_Looking w_Parked w_Done with_Counters with_Reap with_Table with_Pool with_Nodes
       Counters Nodes NodeTable NodeReap NodeChildren Pool Metadata].
(** A handler that has come to see less. *)
Lemma seen_change nodes T T' F : f_seen nodes (T :: F) -> (forall n v, (n, v) ∈ seen T' -> is_at nodes n v \/ (n, v) ∈ seen T) -> f_seen nodes (T' :: F).
Proof.
  intros [HT HF] H. split; [|done]. apply all_elem. intros [n v] Hx. destruct (H n v Hx) as [?|Hin]; [done|]. by apply (proj1 (all_elem _ _) HT (n, v)).
Qed.

Ltac seen_less Hi :=
  eapply seen_change; [exact (i_seen _ _ _ _ _ _ Hi)|];
  let m := fresh "m" in let u := fresh "u" in let Hx := fresh "Hx" in
  intros m u Hx; right; unfold seen in *;
  cbn [k_Vcb k_Bucket k_Gate k_Pin k_Ref set_vcb set_res set_bucket set_pin set_ref set_unclean set_ccb set_blocks set_irp set_gate] in *;
  rewrite !elem_of_app in *; destruct Hx as [Hx|[Hx|[Hx|[Hx|Hx]]]]; first [tauto|by apply elem_of_nil in Hx].

Section Calls.
Context {nls : Nls} (root vcb : Z) (params : Z -> CREATE_PARAMS).
Abbreviation inv := (inv root vcb params).
Abbreviation open_step := (open_step root).
Abbreviation call_pre := (call_pre root vcb params).

Definition limit (w : WORLD) (F : list TOK) : Prop := Z.of_nat (length F) + Z.of_nat (length (w_Handles w)) < 2147483648.
Definition sound (c : OPEN_CALL) : Prop :=
  forall w T F arrived a w' K, limit w (T :: F) -> inv w (T :: F) arrived -> call_pre c T K -> open_step w c a w' -> exists T', K a T' /\ inv w' (T' :: F) arrived.

Lemma sound_AskOpen q : sound (AskOpen q).
Proof. intros w T F arrived a w' K _ Hi Hp ->. by exists T. Qed.
Lemma sound_AskNode n q : sound (AskNode n q).
Proof. intros w T F arrived a w' K _ Hi [_ Hp] (_ & Ha & ->). exists T. auto. Qed.

(** A handler knows what it touches. *)
Lemma known_at w T F arrived n v : inv w (T :: F) arrived -> known root vcb T n v -> is_at (Nodes (w_Store w)) n v.
Proof.
  intros Hi Hk. unfold known in Hk. apply elem_of_cons in Hk as [[= -> ->]|Hk]; [apply (i_fixed _ _ _ _ _ _ Hi)|]. apply elem_of_cons in Hk as [[= -> ->]|Hk]; [apply (i_fixed _ _ _ _ _ _ Hi)|].
  destruct (i_seen _ _ _ _ _ _ Hi) as [Hs _]. by apply (proj1 (all_elem _ _) Hs (n, v)).
Qed.
Lemma is_at_view nodes n v node : is_at nodes n v -> nodes !! n = Some node -> view node = v.
Proof. unfold is_at. intros H Hn. rewrite Hn in H. by injection H. Qed.
Lemma is_at_node nodes n v : is_at nodes n v -> exists node, nodes !! n = Some node /\ view node = v.
Proof. unfold is_at. destruct (nodes !! n) as [node|]; [|done]. intros [= <-]. by exists node. Qed.
Lemma at_is nodes n node : nodes !! n = Some node -> is_at nodes n (view node).
Proof. unfold is_at. by intros ->. Qed.

Lemma sound_ReadNode n : sound (ReadNode n).
Proof.
  intros w T F arrived a w' K _ Hi Hp (node & Hn & -> & ->). destruct Hp as [(v & Hk & HK)|(l & Hg & HK)].
  - exists T. by rewrite (is_at_view _ _ _ _ (known_at _ _ _ _ _ _ Hi Hk) Hn).
  - assert (Hin : in_tree (view node) = true).
    { pose proof (i_claims _ _ _ _ _ _ Hi n) as Hc. cbn [sum_list_with] in Hc. unfold claim_at at 1 in Hc. rewrite Hg in Hc. cbn [in_option gate_claims] in Hc. rewrite cnt_cons, hit_same in Hc.
      unfold tally in Hc. destruct (Counters (w_Store w) !! n) as [c|] eqn:Ec; [|lia]. unfold on_reap in Hc. destruct (OnReapList c) eqn:Eo; [|lia].
      eapply (i_reaped _ _ _ _ _ _ Hi); [by apply at_is|done|done]. }
    eexists. split; [by apply HK|]. keeps Hi.
    + intros m. pose proof (i_claims _ _ _ _ _ _ Hi m) as Hc. cbn [sum_list_with] in *. unfold claim_at in *. cbn [set_gate k_Gate k_Bucket k_Vcb]. rewrite Hg in Hc.
      cbn [in_option gate_claims] in *. rewrite cnt_cons in Hc. cbn [fst]. lia.
    + destruct (i_seen _ _ _ _ _ _ Hi) as [Hs HF]. split; [|done]. revert Hs. unfold seen. cbn [set_gate k_Gate k_Bucket k_Vcb k_Pin k_Ref]. rewrite Hg, !all_app. cbn. intuition. by apply at_is.
    + destruct (i_kick _ _ _ _ _ _ Hi) as [Hsd Hk]. split; [done|]. intros Hne. destruct (Hk Hne) as [?|[He|He]]; [by left| |by right; right]. rewrite Hg in He. done.
    + destruct (i_gate _ _ _ _ _ _ Hi) as [Hw Hq]. split; [done|]. cbn [sum_list_with] in *. unfold gate_at at 1 in Hq. rewrite Hg in Hq. exact Hq.
Qed.

(** ** Changing one handler *)


Lemma opened_plain opened T T' F : attached T = false -> attached T' = false -> f_opened params opened (T :: F) -> f_opened params opened (T' :: F).
Proof.
  unfold attached. intros HT HT' [[_ HF] Ho]. split; [split; [|done]|].
  - unfold attached_ok. by destruct (k_Ref T') as [[[? ?] []]|].
  - intros i n Hin. destruct (Ho i n Hin) as [(v & related & _ & Hr)|H]; [|by right]. by rewrite Hr in HT.
Qed.

Lemma idle_change nodes cs T T' F :
  f_idle nodes cs (T :: F) ->
  (forall n v c, is_at nodes n v -> in_tree v = true -> childless nodes n -> cs !! n = Some c -> PinCount c = 0 -> RefCount c = 0 -> OnReapList c = false -> exempt n T -> exempt n T') ->
  f_idle nodes cs (T' :: F).
Proof. intros Hi H n v c Hv Ht Hc Hn Hp Hr Ho. destruct (Hi n v c Hv Ht Hc Hn Hp Hr Ho) as [He|He]; [left; by eapply H|by right]. Qed.

Lemma others_no_tree w T F arrived st : inv w (T :: F) arrived -> k_Vcb T = Some st -> forall T', T' ∈ F -> k_Vcb T' = None.
Proof.
  intros Hi HT T' Hin. pose proof (i_vcb _ _ _ _ _ _ Hi) as Hv. unfold f_vcb in Hv. cbn [sum_list_with] in Hv. unfold vcb_at at 1 in Hv. rewrite HT in Hv. cbn [in_option] in Hv.
  assert (Hz : total vcb_at F = 0%nat) by (destruct (w_Vcb w); lia). pose proof (total_zero _ _ _ Hz Hin) as H. unfold vcb_at in H. by destruct (k_Vcb T').
Qed.
Lemma trees_alone w T F arrived st nodes cs hs T' :
  inv w (T :: F) arrived -> k_Vcb T = Some st -> match k_Vcb T' with Some st' => tree_state_ok nodes cs hs (T' :: F) T' st' | None => True end -> f_trees nodes cs hs (T' :: F).
Proof. intros Hi HT Hst. split; [done|]. apply all_elem. intros U HU. by rewrite (others_no_tree _ _ _ _ _ Hi HT U HU). Qed.
Lemma tree_state w T F arrived st : inv w (T :: F) arrived -> k_Vcb T = Some st -> tree_state_ok (Nodes (w_Store w)) (Counters (w_Store w)) (w_Handles w) (T :: F) T st.
Proof. intros Hi HT. destruct (i_trees _ _ _ _ _ _ Hi) as [H _]. by rewrite HT in H. Qed.

(** ** Reading *)

Lemma sound_ReadRelated fo : sound (ReadRelated fo).
Proof.
  intros w T F arrived a w' K _ Hi (i & related & Hirp & Hrel & Hat & HK) (h & node & Hh & Hfo & Hn & -> & ->). eexists. split; [by apply HK|].
  destruct T; cbn in *; subst. keeps Hi.
  - by eapply opened_plain, (i_opened _ _ _ _ _ _ Hi).
  - destruct (i_related _ _ _ _ _ _ Hi) as [_ HF]. split; [|done]. cbn. eexists _, h. split_and!; [done|done|done|by apply at_is].
Qed.
Lemma sound_ReadMeta n : sound (ReadMeta n).
Proof. intros w T F arrived a w' K _ Hi (_ & HK) (_ & -> & ->). exists T. auto. Qed.
Lemma sound_WriteMeta n m : sound (WriteMeta n m).
Proof. intros w T F arrived a w' K _ Hi (_ & HK) (_ & ->). exists T. destruct a. split; [done|]. keeps Hi. Qed.

(** ** Locks *)

Lemma sound_AcquireVcb : sound AcquireVcb.
Proof.
  intros w T F arrived [] w' K _ Hi ((Hv & _) & HK) (Hw & ->). eexists. split; [done|]. destruct T; cbn in *; subst. keeps Hi.
  pose proof (i_vcb _ _ _ _ _ _ Hi) as H. unfold f_vcb in *. rewrite Hw in H. cbn in *. lia.
Qed.

(** What a quiet hold exempts from reaping is no node of the tree. *)
Lemma quiet_exempt w T F arrived st n v :
  inv w (T :: F) arrived -> k_Vcb T = Some st -> quiet st = true -> is_at (Nodes (w_Store w)) n v -> in_tree v = true -> exempt n T ->
  match k_Bucket T with Some (_, BTest m _) => m = n | _ => False end.
Proof.
  intros Hi HT Hq Hn Ht [He|He]; [|done]. exfalso. rewrite HT in He. destruct st as [|? ? []|d v' rem| | | | |]; cbn in *; try done. subst d.
  assert (Hk : known root vcb T n v') by (unfold known, seen; rewrite HT; do 2 right; left). pose proof (known_at _ _ _ _ _ _ Hi Hk) as Hn'. unfold is_at in *. rewrite Hn in Hn'. injection Hn' as <-. by rewrite Ht in Hq.
Qed.

Lemma sound_ReleaseVcb : sound ReleaseVcb.
Proof.
  intros w T F arrived [] w' K _ Hi (st & HT & Hq & HK) (Hw & ->). eexists. split; [done|]. keeps Hi.
  - intros n. pose proof (i_claims _ _ _ _ _ _ Hi n) as H. cbn [sum_list_with] in *. unfold claim_at in *. cbn [set_vcb k_Vcb k_Bucket k_Gate]. rewrite HT in H. by destruct st.
  - eapply seen_change; [exact (i_seen _ _ _ _ _ _ Hi)|]. intros n v Hin. right. unfold seen in *. cbn in Hin. rewrite elem_of_app. by right.
  - eapply idle_change; [exact (i_idle _ _ _ _ _ _ Hi)|]. intros n v c Hn Ht _ _ _ _ _ He. right. exact (quiet_exempt _ _ _ _ _ _ _ Hi HT Hq Hn Ht He).
  - by eapply trees_alone.
  - pose proof (i_vcb _ _ _ _ _ _ Hi) as H. unfold f_vcb in *. rewrite Hw in H. cbn [sum_list_with] in *. unfold vcb_at at 1 in H. rewrite HT in H. cbn in *. lia.
Qed.

Lemma sound_AcquireResource n : sound (AcquireResource n).
Proof.
  intros w T F arrived [] w' K _ Hi (Hr & _ & _ & HK) (_ & Hn & ->). eexists. split; [done|]. destruct T; cbn in *; subst. keeps Hi.
  intros m. pose proof (i_resources _ _ _ _ _ _ Hi m) as [H1 H2]. apply cnt_zero in Hn. cbn [put_resources w_Resources]. rewrite cnt_cons. destruct (Z.eq_dec n m) as [->|Hne].
  - rewrite hit_same. tok. rewrite hit_same. lia.
  - rewrite hit_other by done. tok. rewrite hit_other by done. lia.
Qed.
Lemma sound_ReleaseResource n : sound (ReleaseResource n).
Proof.
  intros w T F arrived [] w' K _ Hi (Hr & _ & HK) (_ & Hn & ->). eexists. split; [done|]. destruct T; cbn in *; subst. keeps Hi.
  intros m. pose proof (i_resources _ _ _ _ _ _ Hi m) as [H1 H2]. cbn [put_resources w_Resources]. rewrite (cnt_unlink m n) in * by done. tok. lia.
Qed.

Lemma sound_ReleaseBucket b : sound (ReleaseBucket b).
Proof.
  intros w T F arrived [] w' K _ Hi (Hb & HK) (Hn & ->). eexists. split; [done|]. destruct T; cbn in *; subst. keeps Hi.
  intros m. pose proof (i_buckets _ _ _ _ _ _ Hi m) as H. cbn [put_buckets w_Buckets]. rewrite (cnt_unlink m b) in * by done. tok. lia.
Qed.

Lemma sound_AcquireBucket b : sound (AcquireBucket b).
Proof.
  intros w T F arrived [] w' K _ Hi (Hb & HK) ->.
  assert (Hbuckets : forall st T', k_Bucket T' = Some (b, st) -> f_buckets (b :: w_Buckets w) (T' :: F)).
  { intros st T' HT' m. pose proof (i_buckets _ _ _ _ _ _ Hi m) as H. rewrite cnt_cons. cbn [sum_list_with] in *. unfold bucket_at at 1 in H. unfold bucket_at at 1. rewrite Hb in H. rewrite HT'. cbn in *. lia. }
  destruct HK as [(n & v & owed & HT & -> & HK)|HK]; (eexists; split; [done|]).
  - pose proof (tree_state _ _ _ _ _ Hi HT) as Hst. cbn in Hst. keeps Hi.
    + intros m. pose proof (i_claims _ _ _ _ _ _ Hi m) as H. cbn [sum_list_with] in *. unfold claim_at at 1 in H. rewrite HT, Hb in H. exact H.
    + eapply seen_change; [exact (i_seen _ _ _ _ _ _ Hi)|]. intros m u Hin. right. unfold seen in *. cbn in Hin. rewrite HT, Hb. cbn. rewrite !elem_of_cons in *. tauto.
    + split; [done|]. exact (proj2 (i_tests _ _ _ _ _ _ Hi)).
    + eapply idle_change; [exact (i_idle _ _ _ _ _ _ Hi)|]. intros m u c _ _ _ _ _ _ _ [He|He]; [|by rewrite Hb in He]. rewrite HT in He. right. cbn. by destruct owed.
    + by eapply trees_alone.
    + unfold f_vcb. cbn [sum_list_with]. pose proof (i_vcb _ _ _ _ _ _ Hi) as H. unfold f_vcb in H. cbn [sum_list_with] in H. unfold vcb_at at 1 in H. rewrite HT in H. exact H.
    + by eapply Hbuckets.
  - destruct T; cbn in *; subst. keeps Hi. by eapply Hbuckets.
Qed.

(** ** Memory *)

Lemma sound_AllocateBlock : sound AllocateBlock.
Proof.
  intros w T F arrived a w' K _ Hi (H1 & H2) ->. destruct a; (eexists; split; [done|]); [|done]. keeps Hi.
  pose proof (i_blocks _ _ _ _ _ _ Hi) as H. unfold f_blocks in *. cbn in *. lia.
Qed.
Lemma free_block_sound w T F arrived : inv w (T :: F) arrived -> (1 <= k_Blocks T)%nat -> inv (put_blocks w (w_Blocks w - 1)) (set_blocks T (k_Blocks T - 1)%nat :: F) arrived.
Proof. intros Hi Hb. keeps Hi. pose proof (i_blocks _ _ _ _ _ _ Hi) as H. unfold f_blocks in *. cbn in *. lia. Qed.
Lemma sound_FreeBlock : sound FreeBlock.
Proof. intros w T F arrived [] w' K _ Hi (Hb & HK) ->. eexists. split; [done|]. by apply free_block_sound. Qed.
Lemma sound_FreeStash irp : sound (FreeStash irp).
Proof. intros w T F arrived [] w' K _ Hi (Hb & HK) ->. eexists. split; [done|]. by apply free_block_sound. Qed.

Lemma pool_zero_r p q : pool_plus p q = pool_plus q p.
Proof. unfold pool_plus. f_equal; lia. Qed.
Lemma sound_AllocateCcb : sound AllocateCcb.
Proof.
  intros w T F arrived a w' K _ Hi (Hc & H1 & H2) [[-> ->]|[-> ->]]; (eexists; split; [done|]); [|done]. destruct T; cbn in *; subst. keeps Hi.
  pose proof (i_pool _ _ _ _ _ _ Hi) as H. unfold f_pool in *. cbn [put_store w_Store with_Pool Pool]. rewrite H. unfold pool_plus, ccb_pool. cbn. unfold ccb_at. cbn. f_equal; lia.
Qed.
Lemma sound_FreeCcb : sound FreeCcb.
Proof.
  intros w T F arrived [] w' K _ Hi (Hc & HK) ->. eexists. split; [done|]. destruct T; cbn in *; subst. keeps Hi.
  pose proof (i_pool _ _ _ _ _ _ Hi) as H. unfold f_pool in *. cbn [put_store w_Store with_Pool Pool]. rewrite H. unfold pool_plus, pool_minus, ccb_pool. cbn. unfold ccb_at. cbn. f_equal; lia.
Qed.

(** ** The worker *)

Lemma kick_change r r' T T' F :
  f_kick r (T :: F) -> k_Gate T <> Some GKick \/ k_Gate T' = Some GKick -> ShuttingDown r' = ShuttingDown r -> Queued r' = Queued r -> (ReapList r' <> [] -> ReapList r <> []) -> f_kick r' (T' :: F).
Proof.
  intros [Hsd Hk] Hg Es Eq Er. split; [by rewrite Es|]. intros Hne. rewrite Eq. destruct (Hk (Er Hne)) as [?|[He|He]]; [by left| |right; by right]. destruct Hg; [done|]. right. by left.
Qed.
Lemma sound_KickReap : sound KickReap.
Proof.
  intros w T F arrived a w' K _ Hi (Hg & H1 & H2) Hs. cbn in Hs. destruct (i_kick _ _ _ _ _ _ Hi) as [Hsd _]. unfold reap_kick in Hs. rewrite Hsd in Hs.
  pose proof (i_gate _ _ _ _ _ _ Hi) as [Hw Hq]. destruct (Queued (NodeReap (w_Store w))) eqn:Eq; destruct Hs as [-> ->]; (eexists; split; [done|]); destruct T; cbn in *; subst.
  - keeps Hi. split; [done|]. by left.
  - keeps Hi.
    + split; [done|]. by left.
    + split; [done|]. tok. lia.
Qed.
Lemma sound_QueueReap : sound QueueReap.
Proof.
  intros w T F arrived [] w' K _ Hi (Hg & HK) ->. eexists. split; [done|]. destruct T; cbn in *; subst. keeps Hi.
  - eapply kick_change; [exact (i_kick _ _ _ _ _ _ Hi)|by left|done..].
  - destruct (i_gate _ _ _ _ _ _ Hi) as [Hw Hq]. unfold f_gate. tok. lia.
Qed.
Lemma sound_TakeReapList : sound TakeReapList.
Proof.
  intros w T F arrived a w' K _ Hi (Hg & HK) Hs. cbn in Hs. destruct Hs as [-> ->]. eexists. split; [done|]. destruct T; cbn in *; subst. keeps Hi.
  - intros n. pose proof (i_claims _ _ _ _ _ _ Hi n) as H. cbn [sum_list_with] in *. unfold claim_at in *. cbn in *. lia.
  - destruct (i_kick _ _ _ _ _ _ Hi) as [Hsd Hk]. by split.
Qed.
Lemma sound_ClearQueued : sound ClearQueued.
Proof.
  intros w T F arrived a w' K _ Hi (Hg & H1 & H2) Hs. cbn in Hs. destruct Hs as [-> ->]. destruct (i_kick _ _ _ _ _ _ Hi) as [Hsd Hk]. destruct (i_gate _ _ _ _ _ _ Hi) as [Hw Hq].
  assert (HQ : Queued (NodeReap (w_Store w)) = true /\ total gate_at F = 0%nat /\ WorkItems (NodeReap (w_Store w)) = 0).
  { cbn [sum_list_with] in Hq. unfold gate_at at 1 in Hq. rewrite Hg in Hq. cbn in Hq. destruct (Queued _); [split_and!; [done|lia|lia]|lia]. }
  destruct HQ as (HQ & HF & HW). destruct (Nat.eqb_spec (length (ReapList (NodeReap (w_Store w)))) 0) as [E|E]; cbn [negb]; (eexists; split; [done|]); destruct T; cbn in *; subst.
  - keeps Hi.
    + split; [done|]. cbn. destruct (ReapList _); [done|done].
    + split; [done|]. tok. lia.
  - keeps Hi.
    + split; [done|]. intros _. right. by left.
    + split; [done|]. tok. lia.
Qed.
End Calls.

(** * The calls keep the invariant: IRPs and file objects *)
Section Calls.
Context {nls : Nls} (root vcb : Z) (params : Z -> CREATE_PARAMS).
Abbreviation inv := (inv root vcb params).
Abbreviation sound := (sound root vcb params).

Lemma irp_unique w T F arrived i related : inv w (T :: F) arrived -> k_Irp T = Some (i, related) -> forall T', T' ∈ F -> irp_at i T' = 0%nat.
Proof.
  intros Hi HT T' Hin. pose proof (i_irps _ _ _ _ _ _ Hi i) as [H1 H2]. cbn [sum_list_with] in H1. unfold irp_at at 1 in H1. rewrite HT in H1. cbn [in_option fst] in H1. rewrite hit_same in H1.
  pose proof (sum_list_with_in T' (irp_at i) F Hin). lia.
Qed.

(** ** Handing the IRP over *)

Lemma hand_over w T F arrived irp paid posted looking parked :
  inv w (T :: F) arrived -> owns T irp -> attached T = false ->
  (forall i, (cnt i (ci_Id <$> posted) + cnt i (ci_Id ∘ looking_irp <$> looking) + cnt i (ci_Id <$> parked))%nat =
    (hit (ci_Id irp) i + (cnt i (ci_Id <$> w_Posted w) + cnt i (ci_Id ∘ looking_irp <$> w_Looking w) + cnt i (ci_Id <$> w_Parked w)))%nat) ->
  f_queued posted looking parked ->
  (paid <= k_Blocks T /\ total stash_blocks posted + 2 * length looking = paid + (total stash_blocks (w_Posted w) + 2 * length (w_Looking w)))%nat ->
  inv (put_parked (put_looking (put_posted w posted) looking) parked) (handed_over T irp paid :: F) arrived.
Proof.
  intros Hi (related & HT) Ha Hc Hq [Hp Hb]. unfold handed_over. keeps Hi.
  - pose proof (i_blocks _ _ _ _ _ _ Hi) as H. unfold f_blocks in *. cbn in *. lia.
  - intros i. pose proof (i_irps _ _ _ _ _ _ Hi i) as [H1 H2]. split; [|done]. rewrite <- H1. specialize (Hc i). cbn [put_parked put_looking put_posted w_Posted w_Looking w_Parked w_Done].
    cbn [sum_list_with]. unfold irp_at at 1 3. rewrite HT. cbn. lia.
  - done.
  - by eapply opened_plain, (i_opened _ _ _ _ _ _ Hi).
  - split; [done|]. exact (proj2 (i_related _ _ _ _ _ _ Hi)).
Qed.

Lemma sound_CheckOplock n irp : sound (CheckOplock n irp).
Proof.
  intros w T F arrived a w' K _ Hi (_ & Ho & Ha & Hst & H1 & H2) (_ & ->). destruct (Z.eqb_spec a STATUS_PENDING) as [->|Hne]; [|exists T; auto].
  eexists. split; [exact H2|]. pose proof (i_queued _ _ _ _ _ _ Hi) as (Q1 & Q2 & Q3).
  assert (E : set_irp T None = handed_over T irp 0) by (unfold handed_over, set_blocks; rewrite Nat.sub_0_r; by destruct T). rewrite E.
  refine (hand_over w T F arrived irp 0 (w_Posted w) (w_Looking w) (irp :: w_Parked w) Hi Ho Ha _ _ _).
  - intros i. rewrite fmap_cons, cnt_cons. lia.
  - split_and!; [done|done|]. by constructor.
  - lia.
Qed.

Lemma posted_sound w T F arrived irp :
  inv w (T :: F) arrived -> owns T irp -> attached T = false -> irp_ok irp -> (stash_blocks irp <= k_Blocks T)%nat ->
  inv (put_posted w (w_Posted w ++ [irp])) (handed_over T irp (stash_blocks irp) :: F) arrived.
Proof.
  intros Hi Ho Ha Hok Hb. pose proof (i_queued _ _ _ _ _ _ Hi) as (Q1 & Q2 & Q3).
  refine (hand_over w T F arrived irp (stash_blocks irp) (w_Posted w ++ [irp]) (w_Looking w) (w_Parked w) Hi Ho Ha _ _ _).
  - intros i. rewrite fmap_app, cnt_app. cbn. lia.
  - split_and!; [|done|done]. apply Forall_app. split; [done|]. by constructor.
  - rewrite sum_list_with_app. cbn. lia.
Qed.
Lemma sound_PostCreate irp : sound (PostCreate irp).
Proof.
  intros w T F arrived a w' K _ Hi (Ho & Ha & Hok & Hb & H1 & H2) [[-> ->]|[Hf ->]]; [|exists T; auto]. eexists. split; [done|]. by apply posted_sound.
Qed.
Lemma sound_RequeueCreate irp : sound (RequeueCreate irp).
Proof.
  intros w T F arrived a w' K _ Hi (Ho & Ha & Hok & Hb & H1 & H2) [[-> ->]|[-> ->]]; [|exists T; auto]. eexists. split; [done|]. by apply posted_sound.
Qed.
Lemma sound_IssueLookup irp p t : sound (IssueLookup irp p t).
Proof.
  intros w T F arrived a w' K _ Hi (Ho & Ha & Hst & Hb & H1 & H2) [[-> ->]|[Hf ->]]; [|exists T; auto]. eexists. split; [done|]. pose proof (i_queued _ _ _ _ _ _ Hi) as (Q1 & Q2 & Q3).
  refine (hand_over w T F arrived irp 2 (w_Posted w) ((irp, p, t) :: w_Looking w) (w_Parked w) Hi Ho Ha _ _ _).
  - intros i. rewrite fmap_cons, cnt_cons. cbn. lia.
  - split_and!; [done| |done]. by constructor.
  - cbn. lia.
Qed.

(** ** File objects *)

(** The VCB is the one node of its kind. *)
Lemma vcb_type w F arrived n v : inv w F arrived -> is_at (Nodes (w_Store w)) n v -> (n =? vcb) = bool_decide (NodeTypeCode v = VcbSignature).
Proof.
  intros Hi Hv. destruct (i_fixed _ _ _ _ _ _ Hi) as [Hr Hvcb]. unfold is_at in *. case_bool_decide as E.
  - apply Z.eqb_eq. destruct (Nodes (w_Store w) !! n) as [node|] eqn:En; [|done]. injection Hv as <-. assert (Ht : in_tree node = false) by (unfold in_tree; cbn in E; by rewrite E). destruct (t_only _ _ _ _ (i_tree _ _ _ _ _ _ Hi) n node En Ht) as [->| ->]; [|done].
    rewrite En in Hr. apply (inj Some), (f_equal NodeTypeCode) in Hr. cbn in *. congruence.
  - apply Z.eqb_neq. intros ->. rewrite Hvcb in Hv. injection Hv as <-. by apply E.
Qed.

Lemma irp_at_self i T related : k_Irp T = Some (i, related) -> irp_at i T = 1%nat.
Proof. intros HT. unfold irp_at. rewrite HT. cbn. apply hit_same. Qed.
(** What the others have set up is under other IRPs. *)
Lemma others_opened w T F arrived i related : inv w (T :: F) arrived -> k_Irp T = Some (i, related) ->
  forall (opened : gmap Z Z), (forall j, j <> i -> opened !! j = w_Opened w !! j) -> all (attached_ok params (w_Opened w)) F -> all (attached_ok params opened) F.
Proof.
  intros Hi HT opened Ho. apply all_mono. intros U HU. unfold attached_ok. destruct (k_Ref U) as [[[n v] []]|]; [|done|done]. intros (j & rel & Hj & Hopen & Hw). exists j, rel. split_and!; [done| |done].
  rewrite Ho; [done|]. intros ->. pose proof (irp_unique _ _ _ _ _ _ Hi HT U HU) as Hz. by rewrite (irp_at_self _ _ _ Hj) in Hz.
Qed.

Lemma sound_SetFileObject irp n : sound (SetFileObject irp n).
Proof.
  intros w T F arrived [] w' K _ Hi (v & related & HT & HR & Hw & Hc & Hu & HK) (Hn & ->). eexists. split; [done|].
  pose proof (i_opened _ _ _ _ _ _ Hi) as [[HaT HaF] Ho].
  assert (Hv : is_at (Nodes (w_Store w)) n v).
  { eapply (known_at root vcb params); [exact Hi|]. unfold known, seen. rewrite HR, !elem_of_cons, !elem_of_app. cbn. rewrite list_elem_of_singleton. tauto. }
  rewrite <- (vcb_type _ _ _ _ _ Hi Hv) in Hc. destruct T; cbn in *; subst. keeps Hi.
  - intros m u Hm Hf. pose proof (i_unclean _ _ _ _ _ _ Hi m u Hm Hf) as H. cbn [put_handles w_Store w_Handles]. rewrite H. f_equal. cbn [sum_list_with]. unfold unclean_at at 1 3. cbn.
    case_bool_decide as E; cbn; [lia|]. rewrite hit_other; [done|]. intros ->. apply E. unfold is_at in *. cbn in Hm. rewrite Hm in Hv. by injection Hv as ->.
  - split; [done|]. exact (proj2 (i_marked _ _ _ _ _ _ Hi)).
  - pose proof (i_pool _ _ _ _ _ _ Hi) as H. unfold f_pool in *. cbn [put_handles w_Store w_Handles]. rewrite H. f_equal. f_equal. cbn [sum_list_with]. unfold ccb_at at 1 3. cbn. unfold hit.
    destruct (n =? vcb); cbn; lia.
  - split; [split|].
    + cbn. eexists _, related. split_and!; [done|exact (lookup_insert_eq _ _ _)|done].
    + eapply others_opened; [exact Hi|done| |exact HaF]. intros j Hj. exact (lookup_insert_ne _ _ _ _ (not_eq_sym Hj)).
    + intros i m Hi'. destruct (decide (i = ci_Id irp)) as [->|Hne].
      * cbn in Hi'. rewrite lookup_insert_eq in Hi'. injection Hi' as ->. left. by eexists _, _.
      * cbn in Hi'. rewrite lookup_insert_ne in Hi' by done. destruct (Ho i m Hi') as [(? & ? & _ & ?)|?]; [done|by right].
Qed.

(** The file object goes to the I/O manager, or the cleanup is done. *)
Lemma related_more nodes hs h i v : related_is params nodes hs i v -> related_is params nodes (h :: hs) i v.
Proof. intros (fo & h' & ? & ? & ? & ?). exists fo, h'. split_and!; [done|by right|done|done]. Qed.

(** Trees of the others, when the references to a node move without changing
    in number. *)
Lemma trees_moved w T F arrived T' hs' :
  inv w (T :: F) arrived -> k_Vcb T = None -> k_Vcb T' = None ->
  (forall n, pin_at n T' = pin_at n T /\ test_at n T' = test_at n T /\ ref_at n T' + total (handle_at n) hs' = ref_at n T + total (handle_at n) (w_Handles w))%nat ->
  f_trees (Nodes (w_Store w)) (Counters (w_Store w)) hs' (T' :: F).
Proof.
  intros Hi HT HT' Hsame. pose proof (i_trees _ _ _ _ _ _ Hi) as [_ HF]. split; [by rewrite HT'|]. eapply all_mono, HF. intros U _. cbn. destruct (k_Vcb U) as [st|]; [|done].
  assert (Ha : forall n v, alone (Nodes (w_Store w)) (Counters (w_Store w)) (w_Handles w) (T :: F) U n v -> alone (Nodes (w_Store w)) (Counters (w_Store w)) hs' (T' :: F) U n v).
  { intros n v (? & ? & ? & ? & ? & ?). destruct (Hsame n) as (E1 & E2 & E3). unfold alone. cbn [sum_list_with] in *. rewrite E1, E2. split_and!; try done; lia. }
  destruct st; cbn; try done; [intros [? ?]; split; [by apply Ha|done]|by apply Ha].
Qed.

Lemma complete_attached w T F arrived irp st n v related :
  inv w (T :: F) arrived -> k_Irp T = Some (ci_Id irp, related) -> k_Vcb T = None -> k_Ref T = Some (n, v, true) -> k_Ccb T = false -> k_Unclean T = None ->
  inv (put_handles (put_done w ((ci_Id irp, st) :: w_Done w)) (mkHandle (ci_Id irp) n false :: w_Handles w) (delete (ci_Id irp) (w_Opened w))) (set_irp (set_ref T None) None :: F) arrived.
Proof.
  intros Hi HT HV HR HC HU. pose proof (i_opened _ _ _ _ _ _ Hi) as [[HaT HaF] Ho]. pose proof Hi as Hi0. destruct T; cbn in *; subst. keeps Hi.
  - intros m. pose proof (i_refs _ _ _ _ _ _ Hi m) as H. tok. lia.
  - intros m u Hm Hf. pose proof (i_unclean _ _ _ _ _ _ Hi m u Hm Hf) as H. cbn [put_handles put_done w_Store w_Handles]. rewrite H. tok. lia.
  - seen_less Hi.
  - refine (trees_moved w _ _ arrived _ _ Hi _ _ _); [done|done|]. intros m. split_and!; [done|done|]. cbn. unfold ref_at, handle_at. cbn. lia.
  - pose proof (i_pool _ _ _ _ _ _ Hi) as H. unfold f_pool in *. cbn [put_handles put_done w_Store w_Handles]. rewrite H. f_equal. f_equal. tok. lia.
  - intros i. pose proof (i_irps _ _ _ _ _ _ Hi i) as [H1 H2]. split; [|done]. rewrite <- H1. unfold cnt. tok. lia.
  - split; [split; [done|]|].
    + eapply others_opened; [exact Hi|done| |exact HaF]. intros j Hj. cbn. by rewrite lookup_delete_ne.
    + intros i m Him. cbn in Him. apply lookup_delete_Some in Him as [Hne Him]. destruct (Ho i m Him) as [(? & ? & [=] & _)|?]; [done|by right].
  - destruct (i_related _ _ _ _ _ _ Hi) as [_ HF]. split; [done|]. eapply all_mono, HF. intros U _. cbn. destruct (k_Irp U) as [[i [u|]]|]; [apply related_more|done|done].
  - intros i fo Hin Hd Hr. cbn in Hd |- *. right. eapply (i_open _ _ _ _ _ _ Hi); [done| |done]. intros ?. apply Hd. by right.
Qed.

Lemma complete_detached w T F arrived irp st related :
  inv w (T :: F) arrived -> k_Irp T = Some (ci_Id irp, related) -> attached T = false ->
  w_Opened w !! ci_Id irp = None /\ inv (put_done w ((ci_Id irp, st) :: w_Done w)) (set_irp T None :: F) arrived.
Proof.
  intros Hi HT Ha. pose proof (i_opened _ _ _ _ _ _ Hi) as [[_ HaF] Ho]. split.
  - destruct (w_Opened w !! ci_Id irp) as [n|] eqn:E; [|done]. destruct (Ho _ _ E) as [(v & rel & _ & HR)|Hs]; [unfold attached in Ha; by rewrite HR in Ha|].
    apply some_elem in Hs as (U & HU & v & rel & HI & _). pose proof (irp_unique _ _ _ _ _ _ Hi HT U HU) as Hz. by rewrite (irp_at_self _ _ _ HI) in Hz.
  - keeps Hi.
    + intros i. pose proof (i_irps _ _ _ _ _ _ Hi i) as [H1 H2]. split; [|done]. rewrite <- H1. unfold cnt. tok. rewrite HT. cbn. lia.
    + by eapply opened_plain, (i_opened _ _ _ _ _ _ Hi).
    + split; [done|]. exact (proj2 (i_related _ _ _ _ _ _ Hi)).
    + intros i fo Hin Hd Hr. eapply (i_open _ _ _ _ _ _ Hi); [done| |done]. intros ?. apply Hd. by right.
Qed.

Lemma sound_CompleteCreate irp st : sound (CompleteCreate irp st).
Proof.
  intros w T F arrived [] w' K _ Hi ((related & HT) & HV & Hs & Hc & HK) ->. eexists. split; [exact HK|]. destruct (attached T) eqn:Ea.
  - destruct (Hc eq_refl) as [HC HU]. pose proof (i_opened _ _ _ _ _ _ Hi) as [[HaT _] _]. unfold attached, attached_ok in *. destruct (k_Ref T) as [[[n v] []]|] eqn:HR; try done.
    destruct HaT as (i & rel & HT' & Hopen & _). rewrite HT in HT'. injection HT' as <- <-. cbn [put_done w_Opened w_Handles]. rewrite Hopen. by eapply complete_attached.
  - destruct (complete_detached w T F arrived irp st related Hi HT Ea) as [E Hinv]. cbn [put_done w_Opened]. by rewrite E.
Qed.

Lemma sound_FinishCleanup fo n : sound (FinishCleanup fo n).
Proof.
  intros w T F arrived [] w' K _ Hi (v & HR & HI & HV & HU & HC & HK) ->. eexists. split; [done|]. pose proof (i_opened _ _ _ _ _ _ Hi) as Ho.
  assert (Hv : is_at (Nodes (w_Store w)) n v).
  { eapply (known_at root vcb params); [exact Hi|]. unfold known, seen. rewrite HR, !elem_of_cons, !elem_of_app. cbn. rewrite list_elem_of_singleton. tauto. }
  rewrite <- (vcb_type _ _ _ _ _ Hi Hv) in HC. destruct T; cbn in *; subst. keeps Hi.
  - intros m. pose proof (i_refs _ _ _ _ _ _ Hi m) as H. tok. lia.
  - seen_less Hi.
  - refine (trees_moved w _ _ arrived _ _ Hi _ _ _); [done|done|]. intros m. split_and!; [done|done|]. cbn. unfold ref_at, handle_at. cbn. lia.
  - pose proof (i_pool _ _ _ _ _ _ Hi) as H. unfold f_pool in *. cbn [put_handles w_Store w_Handles]. rewrite H. f_equal. f_equal. tok. unfold hit.
    destruct (n =? vcb); cbn; lia.
  - eapply opened_plain; [| |exact Ho]; done.
  - destruct (i_related _ _ _ _ _ _ Hi) as [_ HF]. split; [done|]. eapply all_mono, HF. intros U _. cbn. destruct (k_Irp U) as [[i [u|]]|]; [apply related_more|done|done].
  - intros i fo' Hin Hd Hr. cbn. right. by eapply (i_open _ _ _ _ _ _ Hi).
Qed.
End Calls.
