(* ===== verification/OpensCallsCounts.v ===== *)
(** * The calls keep the invariant: the counts of a node *)

From S2P Require Import Prelude UnicodePath PathCache ClientText Nodes NodesTree Opens OpensSystem OpensTokens OpensInvariant OpensCalls.

(** ** One node's counts change *)

Lemma tally_shift p n m c c' k cs : cs !! n = Some c -> p c' = p c + k -> tally p m (<[n := c']> cs) = tally p m cs + k * Z.of_nat (hit n m).
Proof.
  intros Hc Hp. rewrite tally_insert. destruct (decide (m = n)) as [->|Hne].
  - rewrite (tally_at _ _ _ _ Hc), hit_same, Hp. lia.
  - rewrite hit_other by done. lia.
Qed.
Lemma tally_same p n m c c' cs : cs !! n = Some c -> p c' = p c -> tally p m (<[n := c']> cs) = tally p m cs.
Proof. intros Hc Hp. rewrite (tally_shift p n m c c' 0 cs Hc) by lia. lia. Qed.

Lemma dom_insert (nodes : gmap Z NODE) (cs : gmap Z COUNTERS) (n : Z) c c' : cs !! n = Some c -> f_dom nodes cs -> f_dom nodes (<[n := c']> cs).
Proof.
  intros Hc Hd m. rewrite (Hd m). destruct (decide (m = n)) as [->|Hne]; [rewrite lookup_insert_eq, Hc|by rewrite lookup_insert_ne by done]. split; intros _; by eexists.
Qed.
Lemma reaped_insert (nodes : gmap Z NODE) (cs : gmap Z COUNTERS) (n : Z) c c' : cs !! n = Some c -> OnReapList c' = OnReapList c -> f_reaped nodes cs -> f_reaped nodes (<[n := c']> cs).
Proof.
  intros Hc E Hr m v d Hm Hd Ho. destruct (decide (m = n)) as [->|Hne].
  - rewrite lookup_insert_eq in Hd. injection Hd as <-. eapply Hr; [done|done|congruence].
  - rewrite lookup_insert_ne in Hd by done. by eapply Hr.
Qed.
Lemma table_insert (nodes : gmap Z NODE) (cs : gmap Z COUNTERS) (n : Z) c c' table : cs !! n = Some c -> Published c' = Published c -> f_table nodes cs table -> f_table nodes (<[n := c']> cs) table.
Proof.
  intros Hc E (Hlen & Hin & Ht).
  assert (Hp : forall m d, <[n := c']> cs !! m = Some d -> exists d', cs !! m = Some d' /\ Published d = Published d').
  { intros m d Hd. destruct (decide (m = n)) as [->|Hne]; [rewrite lookup_insert_eq in Hd; injection Hd as <-; by exists c|]. rewrite lookup_insert_ne in Hd by done. by exists d. }
  assert (Hq : forall m d, cs !! m = Some d -> exists d', <[n := c']> cs !! m = Some d' /\ Published d = Published d').
  { intros m d Hd. destruct (decide (m = n)) as [->|Hne]; [exists c'; rewrite lookup_insert_eq; split; [done|congruence]|]. exists d. by rewrite lookup_insert_ne by done. }
  split_and!; [done| |].
  - intros m v d Hm Hd Hpub. destruct (Hp m d Hd) as (d' & Hd' & E'). eapply Hin; [done|done|congruence].
  - intros b l Hl. destruct (Ht b l Hl) as [Hnd Hiff]. split; [done|]. intros m. rewrite (Hiff m). split; intros (v & d & Hm & Hd & Hpub & Hb).
    + destruct (Hq m d Hd) as (d' & Hd' & E'). exists v, d'. split_and!; [done|done|congruence|done].
    + destruct (Hp m d Hd) as (d' & Hd' & E'). exists v, d'. split_and!; [done|done|congruence|done].
Qed.

(** Proves the fields that the changed count is not part of. *)
Ltac same_tally Hi Hc :=
  first
    [ by eapply dom_insert, (i_dom _ _ _ _ _ _ Hi)
    | by eapply reaped_insert, (i_reaped _ _ _ _ _ _ Hi)
    | by eapply table_insert, (i_table _ _ _ _ _ _ Hi)
    | (let m := fresh "m" in intros m; world; rewrite (tally_same PinCount _ m _ _ _ Hc) by done; exact (i_pins _ _ _ _ _ _ Hi m))
    | (let m := fresh "m" in intros m; world; rewrite (tally_same RefCount _ m _ _ _ Hc) by done; exact (i_refs _ _ _ _ _ _ Hi m))
    | (let m := fresh "m" in intros m; world; rewrite (tally_same on_reap _ m _ _ _ Hc) by done; exact (i_claims _ _ _ _ _ _ Hi m))
    | (let m := fresh "m" in let u := fresh "u" in let Hm := fresh "Hm" in let Hf := fresh "Hf" in
       intros m u Hm Hf; world; rewrite (tally_same UncleanCount _ m _ _ _ Hc) by done; exact (i_unclean _ _ _ _ _ _ Hi m u Hm Hf)) ].

Section Counts.
Context {nls : Nls} (root vcb : Z) (params : Z -> CREATE_PARAMS).
Abbreviation inv := (inv root vcb params).
Abbreviation sound := (sound root vcb params).
Implicit Types (nodes : gmap Z NODE) (cs : gmap Z COUNTERS) (hs : list HANDLE) (F : list TOK) (n : Z) (v : NODE).

(** The others' idle nodes, and this one's. *)
Lemma idle_insert nodes cs n c' T T' F :
  f_idle nodes cs (T :: F) ->
  (forall m, m <> n -> exempt m T -> exempt m T') ->
  (forall v, is_at nodes n v -> in_tree v = true -> childless nodes n -> PinCount c' = 0 -> RefCount c' = 0 -> OnReapList c' = false -> some (exempt n) (T' :: F)) ->
  f_idle nodes (<[n := c']> cs) (T' :: F).
Proof.
  intros Hi Hm Hn m v d Hv Ht Hc Hd Hp Hr Ho. destruct (decide (m = n)) as [->|Hne].
  - rewrite lookup_insert_eq in Hd. injection Hd as <-. by eapply Hn.
  - rewrite lookup_insert_ne in Hd by done. destruct (Hi m v d Hv Ht Hc Hd Hp Hr Ho) as [He|He]; [left; by apply Hm|by right].
Qed.

(** A handler that has a node to itself keeps it when the counts of another
    node change. *)
Lemma alone_elsewhere nodes cs hs n c' T T' F U U' m v :
  m <> n -> (pin_at m T' = pin_at m T /\ ref_at m T' = ref_at m T /\ test_at m T' = test_at m T) -> ref_at m U' = ref_at m U ->
  alone nodes cs hs (T :: F) U m v -> alone nodes (<[n := c']> cs) hs (T' :: F) U' m v.
Proof.
  intros Hne (E1 & E2 & E3) EU (? & ? & (c & ? & ?) & ? & ? & ?). unfold alone. cbn [sum_list_with] in *. rewrite E1, E2, E3, EU. split_and!; try done. exists c. by rewrite lookup_insert_ne by done.
Qed.
Definition alone_in (st : TREE_STATE) n v : Prop := st = VFresh n v \/ st = VRetired n v.
Lemma trees_elsewhere nodes cs hs n c' T T' F :
  f_trees nodes cs hs (T :: F) -> k_Vcb T' = k_Vcb T ->
  (forall U m v st, U ∈ T :: F -> k_Vcb U = Some st -> alone_in st m v -> alone nodes cs hs (T :: F) U m v -> m <> n) ->
  (forall m, m <> n -> pin_at m T' = pin_at m T /\ ref_at m T' = ref_at m T /\ test_at m T' = test_at m T) ->
  f_trees nodes (<[n := c']> cs) hs (T' :: F).
Proof.
  intros [HT HF] EV Hne Hsame.
  assert (Hmove : forall U U' st, U ∈ T :: F -> k_Vcb U = Some st -> (forall m, m <> n -> ref_at m U' = ref_at m U) ->
    tree_state_ok nodes cs hs (T :: F) U st -> tree_state_ok nodes (<[n := c']> cs) hs (T' :: F) U' st).
  { intros U U' st HU Hst EU. destruct st; cbn; try done.
    - intros [Ha (c & Hc & Ho)]. pose proof (Hne U _ _ _ HU Hst (or_introl eq_refl) Ha) as Hn. split; [exact (alone_elsewhere _ _ _ _ _ _ _ _ _ _ _ _ Hn (Hsame _ Hn) (EU _ Hn) Ha)|]. exists c. by rewrite lookup_insert_ne by done.
    - intros Ha. pose proof (Hne U _ _ _ HU Hst (or_intror eq_refl) Ha) as Hn. exact (alone_elsewhere _ _ _ _ _ _ _ _ _ _ _ _ Hn (Hsame _ Hn) (EU _ Hn) Ha). }
  split.
  - rewrite EV. destruct (k_Vcb T) as [st|] eqn:E; [|done]. eapply Hmove; [left|done| |done]. intros m Hm. by apply Hsame.
  - eapply all_mono, HF. intros U HU. cbn. destruct (k_Vcb U) as [st|] eqn:E; [|done]. eapply Hmove; [by right|done|done].
Qed.

(** Who is not alone with [n]. *)
Lemma alone_not_pinned nodes cs hs F U m v n T : alone nodes cs hs F U m v -> T ∈ F -> (0 < pin_at n T)%nat -> m <> n.
Proof. intros (_ & _ & _ & Hz & _) HT Hp ->. pose proof (total_zero _ _ _ Hz HT). lia. Qed.
Lemma alone_not_tested nodes cs hs F U m v n T : alone nodes cs hs F U m v -> T ∈ F -> (0 < test_at n T)%nat -> m <> n.
Proof. intros (_ & _ & _ & _ & _ & Hz) HT Hp ->. pose proof (total_zero _ _ _ Hz HT). lia. Qed.
Lemma alone_not_referenced nodes cs hs F U m v n T : alone nodes cs hs (T :: F) U m v -> U ∈ F -> (0 < ref_at n T)%nat -> m <> n.
Proof. intros (_ & _ & _ & _ & Hz & _) HU Hp ->. cbn [sum_list_with] in Hz. pose proof (sum_list_with_in U (ref_at n) F HU). lia. Qed.
Lemma alone_not_published nodes cs hs F U m v n c : alone nodes cs hs F U m v -> cs !! n = Some c -> Published c = true -> m <> n.
Proof. intros (_ & _ & (d & Hd & Hpub) & _) Hc Hp ->. congruence. Qed.
Lemma alone_in_tree nodes cs hs F U m v u n : alone nodes cs hs F U m v -> is_at nodes m v -> is_at nodes n u -> in_tree u = false -> m <> n.
Proof. intros (Ht & _) Hm Hn Hu ->. unfold is_at in *. rewrite Hm in Hn. injection Hn as ->. congruence. Qed.

(** ** Bounds *)

Lemma pin_bound w T F arrived n c : inv w (T :: F) arrived -> limit w (T :: F) -> Counters (w_Store w) !! n = Some c -> 0 <= PinCount c <= Z.of_nat (pin_at n T) + Z.of_nat (length F) /\ Z.of_nat (length F) < 2147483647.
Proof.
  intros Hi Hl Hc. pose proof (i_pins _ _ _ _ _ _ Hi n) as H. rewrite (tally_at _ _ _ _ Hc) in H. cbn [sum_list_with] in H. pose proof (total_ones (pin_at n) F (pin_at_le n)). unfold limit in Hl. cbn [length] in Hl. lia.
Qed.
Lemma ref_bound w T F arrived n c : inv w (T :: F) arrived -> limit w (T :: F) -> Counters (w_Store w) !! n = Some c -> 0 <= RefCount c <= Z.of_nat (ref_at n T) + 2147483647.
Proof.
  intros Hi Hl Hc. pose proof (i_refs _ _ _ _ _ _ Hi n) as H. rewrite (tally_at _ _ _ _ Hc) in H. cbn [sum_list_with] in H. pose proof (total_ones (ref_at n) F (ref_at_le n)).
  pose proof (total_ones (handle_at n) (w_Handles w) ltac:(intros h; apply hit_le)). unfold limit in Hl. cbn [length] in Hl. lia.
Qed.

(** ** Pins *)

Lemma adjust_some s n f s' : adjust s n f = Some s' -> exists c, Counters s !! n = Some c /\ s' = with_Counters s (<[n := f c]> (Counters s)).
Proof. unfold adjust. destruct (Counters s !! n) as [c|]; cbn; [|done]. intros [= <-]. by exists c. Qed.

Lemma lookup_chain_found nodes p l n : lookup_chain nodes p l = Some (Some n) -> n ∈ l /\ exists node, nodes !! n = Some node /\ fold_path (FullPath node) = fold_path p.
Proof.
  induction l as [|m l IH]; [done|]. cbn [lookup_chain]. destruct (nodes !! m) as [node|] eqn:En; cbn; [|done]. destruct ((_ =? _) && _) eqn:E.
  - intros [= <-]. split; [left|]. exists node. split; [done|]. apply andb_true_iff in E as [_ E]. by apply bool_decide_eq_true in E.
  - intros H. destruct (IH H) as [? ?]. split; [by right|done].
Qed.

Lemma sound_LookupPin p : sound (LookupPin p).
Proof.
  intros w T F arrived a w' K Hl Hi (HP & H1 & H2) (s' & Hs & ->). unfold BlorgNodeTableLookupPin in Hs. destruct (rd _ _) as [l|] eqn:Hrd; cbn in Hs; [|done].
  destruct (lookup_chain _ _ l) as [[n|]|] eqn:Hch; cbn in Hs; [|injection Hs as <- <-; exists T; split; [done|by destruct w]|done]. destruct (adjust _ _ _) as [s1|] eqn:Had; cbn in Hs; [|done]. injection Hs as <- <-.
  apply adjust_some in Had as (c & Hc & ->). destruct (lookup_chain_found _ _ _ _ Hch) as [Hnl (node & Hn & Hp)].
  destruct (i_table _ _ _ _ _ _ Hi) as (_ & Hpub & Ht). destruct (Ht _ _ Hrd) as [_ Hiff]. apply Hiff in Hnl as (v & c' & Hv & Hc' & HP' & _). rewrite Hc in Hc'. injection Hc' as <-.
  pose proof (is_at_view _ _ _ _ Hv Hn) as Ev. pose proof (Hpub n v c Hv Hc HP') as Hin. destruct (pin_bound _ _ _ _ _ _ Hi Hl Hc) as [B1 B2].
  exists (set_pin T (Some (n, v))). split; [apply H2; [done|by rewrite <- Ev]|]. pose proof Hi as Hi0. destruct T; cbn in *; subst. clear H1 H2. tok.
  assert (Hs : s32 (PinCount c + 1) = PinCount c + 1) by (apply s32_id; lia). keeps Hi; try same_tally Hi Hc.
  - intros m. pose proof (i_pins _ _ _ _ _ _ Hi m) as H. world. rewrite (tally_shift PinCount n m c _ 1 _ Hc) by done. tok. lia.
  - eapply seen_change; [exact (i_seen _ _ _ _ _ _ Hi)|]. intros m u Hin'. unfold seen in *. cbn in *. rewrite !elem_of_app in *. cbn in *. rewrite elem_of_cons in Hin'. intuition. left. by simplify_eq.
  - eapply idle_insert; [exact (i_idle _ _ _ _ _ _ Hi)|done|]. intros u _ _ _ Hz. cbn in Hz. lia.
  - eapply trees_elsewhere; [exact (i_trees _ _ _ _ _ _ Hi)|done| |].
    + intros U m u st _ _ _ Ha. by eapply alone_not_published.
    + intros m Hm. unfold pin_at. cbn. by rewrite hit_other by done.
Qed.

Lemma pinned_at w T F arrived n v : inv w (T :: F) arrived -> k_Pin T = Some (n, v) -> is_at (Nodes (w_Store w)) n v.
Proof.
  intros Hi HP. eapply (known_at root vcb params); [exact Hi|]. unfold known, seen. rewrite HP, !elem_of_cons, !elem_of_app. cbn. rewrite list_elem_of_singleton. tauto.
Qed.
Lemma referenced_at w T F arrived n v b : inv w (T :: F) arrived -> k_Ref T = Some (n, v, b) -> is_at (Nodes (w_Store w)) n v.
Proof.
  intros Hi HP. eapply (known_at root vcb params); [exact Hi|]. unfold known, seen. rewrite HP, !elem_of_cons, !elem_of_app. cbn. rewrite list_elem_of_singleton. tauto.
Qed.

Lemma sound_DropPin n : sound (DropPin n).
Proof.
  intros w T F arrived [] w' K Hl Hi (v & HP & Hin & HB & HK) (s' & Hs & ->). apply adjust_some in Hs as (c & Hc & ->). eexists. split; [done|].
  pose proof (pinned_at _ _ _ _ _ _ Hi HP) as Hv. destruct (pin_bound _ _ _ _ _ _ Hi Hl Hc) as [B1 B2]. pose proof (i_pins _ _ _ _ _ _ Hi n) as Hn. rewrite (tally_at _ _ _ _ Hc) in Hn.
  destruct T; cbn in *; subst. unfold pin_at in Hn at 1. cbn in Hn. rewrite hit_same in Hn. unfold pin_at in B1. cbn in B1. rewrite hit_same in B1.
  assert (Hs : s32 (PinCount c + -1) = PinCount c + -1) by (apply s32_id; lia). keeps Hi; try same_tally Hi Hc.
  - intros m. pose proof (i_pins _ _ _ _ _ _ Hi m) as H. world. rewrite (tally_shift PinCount n m c _ (-1) _ Hc) by done. tok. lia.
  - eapply seen_change; [exact (i_seen _ _ _ _ _ _ Hi)|]. intros m u Hin'. right. unfold seen in *. cbn in *. rewrite !elem_of_app in *. cbn in *. rewrite ?elem_of_cons, ?elem_of_app in *. cbn in *. rewrite ?elem_of_nil in *. tauto.
  - split; [done|]. exact (proj2 (i_tests _ _ _ _ _ _ Hi)).
  - eapply idle_insert; [exact (i_idle _ _ _ _ _ _ Hi)| |].
    + intros m _ [He|He]; [by left|done].
    + intros u _ _ _ _ _ _. left. by right.
  - eapply trees_elsewhere; [exact (i_trees _ _ _ _ _ _ Hi)|done| |].
    + intros U m u st _ _ _ Ha. eapply alone_not_pinned; [exact Ha|left|]. unfold pin_at. cbn. rewrite hit_same. lia.
    + intros m Hm. unfold pin_at, test_at. cbn. by rewrite hit_other by done.
Qed.

(** ** References *)

Lemma ref_here w T F arrived n c : inv w (T :: F) arrived -> Counters (w_Store w) !! n = Some c -> ref_at n T = 1%nat -> 1 <= RefCount c.
Proof. intros Hi Hc HT. pose proof (i_refs _ _ _ _ _ _ Hi n) as H. rewrite (tally_at _ _ _ _ Hc) in H. cbn [sum_list_with] in H. lia. Qed.
Lemma ref_at_self n v b T : k_Ref T = Some (n, v, b) -> ref_at n T = 1%nat.
Proof. unfold ref_at. intros ->. cbn. apply hit_same. Qed.

(** Nobody is alone with a node that a handler without the VCB resource
    refers to. *)
Lemma referenced_not_alone w T F arrived n v b :
  inv w (T :: F) arrived -> k_Ref T = Some (n, v, b) -> k_Vcb T = None ->
  forall U m u st, U ∈ T :: F -> k_Vcb U = Some st -> alone_in st m u -> alone (Nodes (w_Store w)) (Counters (w_Store w)) (w_Handles w) (T :: F) U m u -> m <> n.
Proof.
  intros Hi HR HV U m u st [->|HU]%elem_of_cons Hst _ Ha; [congruence|]. eapply alone_not_referenced; [exact Ha|done|]. rewrite (ref_at_self _ _ _ _ HR). lia.
Qed.

Lemma sound_DropRef n : sound (DropRef n).
Proof.
  intros w T F arrived [] w' K Hl Hi (v & HR & Hin & HV & HU & HB & HK) (s' & Hs & ->). apply adjust_some in Hs as (c & Hc & ->). eexists. split; [done|].
  pose proof (referenced_at _ _ _ _ _ _ _ Hi HR) as Hv. pose proof (ref_bound _ _ _ _ _ _ Hi Hl Hc) as B1. pose proof (ref_here _ _ _ _ _ _ Hi Hc (ref_at_self _ _ _ _ HR)) as B2.
  rewrite (ref_at_self _ _ _ _ HR) in B1. pose proof (referenced_not_alone _ _ _ _ _ _ _ Hi HR HV) as Hna. pose proof (i_opened _ _ _ _ _ _ Hi) as Ho. destruct T; cbn in *; subst.
  assert (Hs : s64 (RefCount c + -1) = RefCount c + -1) by (apply s64_id; lia). keeps Hi; try same_tally Hi Hc.
  - intros m. pose proof (i_refs _ _ _ _ _ _ Hi m) as H. world. rewrite (tally_shift RefCount n m c _ (-1) _ Hc) by done. tok. lia.
  - eapply seen_change; [exact (i_seen _ _ _ _ _ _ Hi)|]. intros m u Hin'. right. unfold seen in *. cbn in *. rewrite ?elem_of_cons, ?elem_of_app in *. cbn in *. rewrite ?elem_of_cons, ?elem_of_nil in *. tauto.
  - split; [done|]. exact (proj2 (i_tests _ _ _ _ _ _ Hi)).
  - eapply idle_insert; [exact (i_idle _ _ _ _ _ _ Hi)| |].
    + intros m _ [He|He]; [by left|done].
    + intros u _ _ _ _ _ _. left. by right.
  - eapply trees_elsewhere; [exact (i_trees _ _ _ _ _ _ Hi)|done|exact Hna|]. intros m Hm. unfold ref_at, test_at. cbn. by rewrite hit_other by done.
  - eapply opened_plain; [| |exact Ho]; done.
Qed.

Lemma sound_CloseRef n : sound (CloseRef n).
Proof.
  intros w T F arrived [] w' K Hl Hi (v & HR & Hin & HV & HU & HK) (s' & Hs & ->). apply adjust_some in Hs as (c & Hc & ->). eexists. split; [done|].
  pose proof (referenced_at _ _ _ _ _ _ _ Hi HR) as Hv. pose proof (ref_bound _ _ _ _ _ _ Hi Hl Hc) as B1. pose proof (ref_here _ _ _ _ _ _ Hi Hc (ref_at_self _ _ _ _ HR)) as B2.
  rewrite (ref_at_self _ _ _ _ HR) in B1. pose proof (referenced_not_alone _ _ _ _ _ _ _ Hi HR HV) as Hna. pose proof (i_opened _ _ _ _ _ _ Hi) as Ho. destruct T; cbn in *; subst.
  assert (Hs : s64 (RefCount c + -1) = RefCount c + -1) by (apply s64_id; lia). keeps Hi; try same_tally Hi Hc.
  - intros m. pose proof (i_refs _ _ _ _ _ _ Hi m) as H. world. rewrite (tally_shift RefCount n m c _ (-1) _ Hc) by done. tok. lia.
  - eapply seen_change; [exact (i_seen _ _ _ _ _ _ Hi)|]. intros m u Hin'. right. unfold seen in *. cbn in *. rewrite ?elem_of_cons, ?elem_of_app in *. cbn in *. rewrite ?elem_of_cons, ?elem_of_nil in *. tauto.
  - eapply idle_insert; [exact (i_idle _ _ _ _ _ _ Hi)|done|]. intros u Hu Ht. cbn in Hu. unfold is_at in *. rewrite Hv in Hu. injection Hu as <-. congruence.
  - eapply trees_elsewhere; [exact (i_trees _ _ _ _ _ _ Hi)|done|exact Hna|]. intros m Hm. unfold ref_at, test_at. cbn. by rewrite hit_other by done.
  - eapply opened_plain; [| |exact Ho]; done.
Qed.

Lemma tree_seen_at w T F arrived st n v : inv w (T :: F) arrived -> k_Vcb T = Some st -> (n, v) ∈ tree_seen st -> is_at (Nodes (w_Store w)) n v.
Proof.
  intros Hi HT Hin. eapply (known_at root vcb params); [exact Hi|]. unfold known, seen. rewrite HT. do 2 right. apply elem_of_app. by left.
Qed.
Lemma alone_at w F arrived U st m u : inv w F arrived -> U ∈ F -> k_Vcb U = Some st -> alone_in st m u -> is_at (Nodes (w_Store w)) m u.
Proof.
  intros Hi HU Hst Ha. pose proof (proj1 (all_elem _ _) (i_seen _ _ _ _ _ _ Hi) U HU) as Hs. apply (proj1 (all_elem _ _) Hs (m, u)). unfold seen. rewrite Hst. apply elem_of_app. left.
  destruct Ha as [-> | ->]; left.
Qed.
(** Nor with the root, the VCB, or a node that is pinned. *)
Lemma outside_not_alone w T F arrived n v :
  inv w (T :: F) arrived -> is_at (Nodes (w_Store w)) n v -> in_tree v = false \/ k_Pin T = Some (n, v) ->
  forall U m u st, U ∈ T :: F -> k_Vcb U = Some st -> alone_in st m u -> alone (Nodes (w_Store w)) (Counters (w_Store w)) (w_Handles w) (T :: F) U m u -> m <> n.
Proof.
  intros Hi Hn Hc U m u st HU Hst Hin Ha. destruct Hc as [Ht|HP].
  - eapply alone_in_tree; [exact Ha|by eapply alone_at|exact Hn|done].
  - eapply alone_not_pinned; [exact Ha|left|]. unfold pin_at. rewrite HP. cbn. rewrite hit_same. lia.
Qed.

Lemma sound_OpenRef n : sound (OpenRef n).
Proof.
  intros w T F arrived a w' K Hl Hi (HR & v & Hk & HK) ((s' & Hs & ->) & _). apply adjust_some in Hs as (c & Hc & ->). eexists. split; [by apply HK|].
  assert (Hv : is_at (Nodes (w_Store w)) n v).
  { destruct Hk as [[_ Hk]|[Hk|[(owed & Hk)|Hk]]]; [by eapply known_at|by eapply pinned_at| |]; (eapply tree_seen_at; [exact Hi|exact Hk|]); left. }
  pose proof (ref_bound _ _ _ _ _ _ Hi Hl Hc) as B1. assert (E0 : forall m, ref_at m T = 0%nat) by (intros m; unfold ref_at; by rewrite HR). rewrite E0 in B1. assert (Hs : s64 (RefCount c + 1) = RefCount c + 1) by (apply s64_id; lia).
  keeps Hi; try same_tally Hi Hc.
  - intros m. pose proof (i_refs _ _ _ _ _ _ Hi m) as H. world. rewrite (tally_shift RefCount n m c _ 1 _ Hc) by done. cbn [sum_list_with] in *. rewrite E0 in H. unfold ref_at at 1. cbn. lia.
  - intros m u Hm Hf. pose proof (i_unclean _ _ _ _ _ _ Hi m u Hm Hf) as H. world. rewrite (tally_same UncleanCount _ m _ _ _ Hc) by done. cbn [sum_list_with] in *. unfold unclean_at at 1 in H. rewrite HR in H. exact H.
  - pose proof (i_marked _ _ _ _ _ _ Hi) as [H HF]. split; [|done]. cbn. rewrite HR in H. by destruct (k_Unclean T).
  - eapply seen_change; [exact (i_seen _ _ _ _ _ _ Hi)|]. intros m u Hin'. unfold seen in *. rewrite !elem_of_app in *. destruct Hin' as [?|[?|[?|[?|Hx%list_elem_of_singleton]]]]; [tauto..|]. cbn in Hx. left. by simplify_eq.
  - eapply idle_insert; [exact (i_idle _ _ _ _ _ _ Hi)|done|]. intros u _ _ _ _ Hz. cbn in Hz. lia.
  - assert (Hne : forall m, m <> n -> pin_at m (set_ref T (Some (n, v, false))) = pin_at m T /\ ref_at m (set_ref T (Some (n, v, false))) = ref_at m T /\ test_at m (set_ref T (Some (n, v, false))) = test_at m T).
    { intros m Hm. rewrite E0. unfold ref_at. cbn. by rewrite hit_other by done. }
    destruct Hk as [[Ht Hk]|[Hk|[(owed & Hk)|Hk]]].
    + eapply trees_elsewhere; [exact (i_trees _ _ _ _ _ _ Hi)|done|exact (outside_not_alone _ _ _ _ _ _ Hi Hv (or_introl Ht))|exact Hne].
    + eapply trees_elsewhere; [exact (i_trees _ _ _ _ _ _ Hi)|done|exact (outside_not_alone _ _ _ _ _ _ Hi Hv (or_intror Hk))|exact Hne].
    + refine (trees_alone _ _ _ w T F arrived _ _ _ _ _ Hi Hk _). cbn. rewrite Hk. exact (tree_state _ _ _ _ _ _ _ _ Hi Hk).
    + refine (trees_alone _ _ _ w T F arrived _ _ _ _ _ Hi Hk _). cbn. rewrite Hk. destruct (tree_state _ _ _ _ _ _ _ _ Hi Hk) as [(Ha1 & Ha2 & (c0 & Hc0 & Hp0) & Ha4 & Ha5 & Ha6) (c1 & Hc1 & Ho1)].
      rewrite Hc in Hc0, Hc1. injection Hc0 as <-. injection Hc1 as <-. split; [split_and!; try done|].
      * exists (add_ref 1 c). world. by rewrite lookup_insert_eq.
      * cbn [sum_list_with] in *. rewrite E0 in Ha5. rewrite (ref_at_self n v false) by done. lia.
      * exists (add_ref 1 c). world. by rewrite lookup_insert_eq.
  - pose proof (i_pool _ _ _ _ _ _ Hi) as H. unfold f_pool in *. cbn [sum_list_with] in *. unfold ccb_at at 1 in H. rewrite HR in H. exact H.
  - eapply opened_plain; [| |exact (i_opened _ _ _ _ _ _ Hi)]; [unfold attached; by rewrite HR|done].
Qed.

(** What dropping an unused reference leaves, whatever state the tree is in. *)
Lemma undo_sound w T F arrived n v c st' :
  limit w (T :: F) -> inv w (T :: F) arrived -> k_Ref T = Some (n, v, false) -> k_Unclean T = None -> Counters (w_Store w) !! n = Some c ->
  (st' = k_Vcb T /\ (in_tree v = false \/ k_Pin T = Some (n, v) \/ k_Vcb T = Some (VFresh n v)) \/ exists owed, k_Vcb T = Some (VSeen n v owed) /\ st' = Some (VSeen n v true)) ->
  inv (put_store w (with_Counters (w_Store w) (<[n := add_ref (-1) c]> (Counters (w_Store w))))) (set_vcb (set_ref T None) st' :: F) arrived.
Proof.
  intros Hl Hi HR HU Hc Hk. pose proof (referenced_at _ _ _ _ _ _ _ Hi HR) as Hv. pose proof (ref_bound _ _ _ _ _ _ Hi Hl Hc) as B1. pose proof (ref_here _ _ _ _ _ _ Hi Hc (ref_at_self _ _ _ _ HR)) as B2.
  rewrite (ref_at_self _ _ _ _ HR) in B1. assert (Hs : s64 (RefCount c + -1) = RefCount c + -1) by (apply s64_id; lia).
  assert (Hpc : k_Pin T = Some (n, v) -> PinCount c <> 0).
  { intros HP. pose proof (i_pins _ _ _ _ _ _ Hi n) as H. rewrite (tally_at _ _ _ _ Hc) in H. cbn [sum_list_with] in H. unfold pin_at at 1 in H. rewrite HP in H. cbn in H. rewrite hit_same in H. lia. }
  assert (Hst : match k_Vcb T with Some (VSeen _ _ _) | Some (VFresh _ _) | None => True | _ => st' = k_Vcb T end) by (destruct Hk as [[-> _]|(? & -> & _)]; [by repeat case_match|done]).
  assert (Eclaim : forall m, claim_at m (set_vcb (set_ref T None) st') = claim_at m T) by (intros m; destruct Hk as [[-> _]|(owed & Hk & ->)]; unfold claim_at; cbn; [done|by rewrite Hk]).
  assert (Evcb : vcb_at (set_vcb (set_ref T None) st') = vcb_at T) by (destruct Hk as [[-> _]|(owed & Hk & ->)]; unfold vcb_at; cbn; [done|by rewrite Hk]).
  assert (Hne : forall m, m <> n -> pin_at m (set_vcb (set_ref T None) st') = pin_at m T /\ ref_at m (set_vcb (set_ref T None) st') = ref_at m T /\ test_at m (set_vcb (set_ref T None) st') = test_at m T).
  { intros m Hm. unfold ref_at. rewrite HR. cbn. by rewrite hit_other by done. }
  keeps Hi; try same_tally Hi Hc.
  - intros m. pose proof (i_refs _ _ _ _ _ _ Hi m) as H. world. rewrite (tally_shift RefCount n m c _ (-1) _ Hc) by done. cbn [sum_list_with] in *. unfold ref_at at 1 in H. rewrite HR in H. cbn in *. lia.
  - intros m u Hm Hf. pose proof (i_unclean _ _ _ _ _ _ Hi m u Hm Hf) as H. world. rewrite (tally_same UncleanCount _ m _ _ _ Hc) by done. cbn [sum_list_with] in *. unfold unclean_at at 1 in H. rewrite HR in H. exact H.
  - split; [cbn; by rewrite HU|]. exact (proj2 (i_marked _ _ _ _ _ _ Hi)).
  - intros m. pose proof (i_claims _ _ _ _ _ _ Hi m) as H. world. rewrite (tally_same on_reap _ m _ _ _ Hc) by done. cbn [sum_list_with] in *. by rewrite Eclaim.
  - eapply seen_change; [exact (i_seen _ _ _ _ _ _ Hi)|]. intros m u Hin'. right. unfold seen in *. cbn [set_vcb set_ref k_Vcb k_Bucket k_Gate k_Pin k_Ref] in *.
    assert (E : from tree_seen st' = from tree_seen (k_Vcb T)) by (destruct Hk as [[-> _]|(owed & -> & ->)]; done). rewrite E in Hin'. rewrite !elem_of_app in *. cbn in Hin'. rewrite elem_of_nil in Hin'. tauto.
  - eapply idle_insert; [exact (i_idle _ _ _ _ _ _ Hi)| |].
    + intros m _ [He|He]; [left|by right]. destruct Hk as [[-> _]|(owed & Hk & ->)]; [done|]. rewrite Hk in He. cbn. by destruct owed.
    + intros u Hu Ht _ Hp _ _. destruct Hk as [[-> [Hf|[HP|Hfr]]]|(owed & Hk & ->)].
      * cbn in Hu. unfold is_at in *. rewrite Hv in Hu. injection Hu as <-. congruence.
      * by destruct (Hpc HP).
      * left. left. cbn. by rewrite Hfr.
      * left. by left.
  - destruct Hk as [[-> [Hf|[HP|Hfr]]]|(owed & Hk & ->)].
    + eapply trees_elsewhere; [exact (i_trees _ _ _ _ _ _ Hi)|done|exact (outside_not_alone _ _ _ _ _ _ Hi Hv (or_introl Hf))|exact Hne].
    + eapply trees_elsewhere; [exact (i_trees _ _ _ _ _ _ Hi)|done|exact (outside_not_alone _ _ _ _ _ _ Hi Hv (or_intror HP))|exact Hne].
    + refine (trees_alone _ _ _ w T F arrived _ _ _ _ _ Hi Hfr _). cbn. rewrite Hfr. destruct (tree_state _ _ _ _ _ _ _ _ Hi Hfr) as [(Ha1 & Ha2 & (c0 & Hc0 & Hp0) & Ha4 & Ha5 & Ha6) (c1 & Hc1 & Ho1)].
      rewrite Hc in Hc0, Hc1. injection Hc0 as <-. injection Hc1 as <-. split; [split_and!; try done|].
      * exists (add_ref (-1) c). world. by rewrite lookup_insert_eq.
      * cbn [sum_list_with] in *. rewrite (ref_at_self _ _ _ _ HR) in Ha5. unfold ref_at at 1 3. cbn. lia.
      * exists (add_ref (-1) c). world. by rewrite lookup_insert_eq.
    + refine (trees_alone _ _ _ w T F arrived _ _ _ _ _ Hi Hk _). exact (tree_state _ _ _ _ _ _ _ _ Hi Hk).
  - unfold f_vcb. world. cbn [sum_list_with]. rewrite Evcb. exact (i_vcb _ _ _ _ _ _ Hi).
  - pose proof (i_pool _ _ _ _ _ _ Hi) as H. unfold f_pool in *. cbn [sum_list_with] in *. unfold ccb_at at 1 in H. rewrite HR in H. exact H.
  - eapply opened_plain; [| |exact (i_opened _ _ _ _ _ _ Hi)]; [unfold attached; by rewrite HR|done].
Qed.
Lemma sound_UndoRef n : sound (UndoRef n).
Proof.
  intros w T F arrived [] w' K Hl Hi (v & HR & HU & Hk) (s' & Hs & ->). apply adjust_some in Hs as (c & Hc & ->). destruct Hk as [[Hk HK]|[(owed & Hk) HK]]; (eexists; split; [exact HK|]).
  - assert (E : set_ref T None = set_vcb (set_ref T None) (k_Vcb T)) by done. rewrite E. eapply undo_sound; [done|done|done|done|done|by left].
  - eapply undo_sound; [done|done|done|done|done|]. right. by exists owed.
Qed.

(** ** Looking whether a node is idle *)

Lemma trees_test_drop nodes cs hs T T' F :
  f_trees nodes cs hs (T :: F) -> k_Vcb T' = k_Vcb T -> (forall m, pin_at m T' = pin_at m T /\ ref_at m T' = ref_at m T /\ (test_at m T' <= test_at m T)%nat) -> f_trees nodes cs hs (T' :: F).
Proof.
  intros [HT HF] EV Hsame.
  assert (Hmove : forall U U' st, (forall m, ref_at m U' = ref_at m U) -> tree_state_ok nodes cs hs (T :: F) U st -> tree_state_ok nodes cs hs (T' :: F) U' st).
  { assert (Ha : forall U U' m v, ref_at m U' = ref_at m U -> alone nodes cs hs (T :: F) U m v -> alone nodes cs hs (T' :: F) U' m v).
    { intros U U' m v E (? & ? & ? & ? & ? & ?). destruct (Hsame m) as (E1 & E2 & E3). unfold alone. cbn [sum_list_with] in *. rewrite E1, E2, E. split_and!; try done. lia. }
    intros U U' st E. destruct st; cbn; try done; [intros [H1 H2]; split; [exact (Ha U U' _ _ (E _) H1)|done]|intros H1; exact (Ha U U' _ _ (E _) H1)]. }
  split.
  - rewrite EV. destruct (k_Vcb T) as [st|]; [|done]. eapply Hmove, HT. intros m. by apply Hsame.
  - eapply all_mono, HF. intros U HU. cbn. destruct (k_Vcb U) as [st|]; [|done]. by apply Hmove.
Qed.

Lemma tested_at w T F arrived b n v : inv w (T :: F) arrived -> k_Bucket T = Some (b, BTest n v) -> is_at (Nodes (w_Store w)) n v /\ b = TableBucketIndex v /\ in_tree v = true.
Proof.
  intros Hi HB. split.
  - eapply (known_at root vcb params); [exact Hi|]. unfold known, seen. rewrite HB. rewrite !elem_of_cons, !elem_of_app. cbn. rewrite list_elem_of_singleton. tauto.
  - destruct (i_tests _ _ _ _ _ _ Hi) as [H _]. rewrite HB in H. exact H.
Qed.

(** The node is in use: its next user will look. *)
Lemma test_passed w T F arrived b n v :
  inv w (T :: F) arrived -> k_Bucket T = Some (b, BTest n v) ->
  (forall c, Counters (w_Store w) !! n = Some c -> PinCount c <> 0 \/ RefCount c <> 0 \/ OnReapList c = true) ->
  inv w (set_bucket T (Some (b, BPlain)) :: F) arrived.
Proof.
  intros Hi HB Hbusy. pose proof Hi as Hi0. destruct T; cbn in *; subst. keeps Hi.
  - seen_less Hi.
  - split; [done|]. exact (proj2 (i_tests _ _ _ _ _ _ Hi)).
  - eapply idle_change; [exact (i_idle _ _ _ _ _ _ Hi)|]. intros m u c _ _ _ Hm Hp Hr Ho [He|He]; [by left|]. cbn in He. subst m. destruct (Hbusy c Hm) as [?|[?|?]]; congruence.
  - eapply trees_test_drop; [exact (i_trees _ _ _ _ _ _ Hi)|done|]. intros m. unfold test_at. cbn. split_and!; [done|done|lia].
Qed.
Lemma sound_ReadRefCount n : sound (ReadRefCount n).
Proof.
  intros w T F arrived a w' K _ Hi (b & v & HB & H0 & HK) (c & Hc & -> & ->). destruct (decide (RefCount c = 0)) as [E|E]; [exists T; by rewrite E|]. eexists. split; [by apply HK|].
  eapply test_passed; [done|done|]. intros d Hd. rewrite Hc in Hd. injection Hd as <-. by right; left.
Qed.
Lemma sound_ReadPinCount n : sound (ReadPinCount n).
Proof.
  intros w T F arrived a w' K _ Hi (b & v & HB & H0 & HK) (c & Hc & -> & ->). destruct (decide (PinCount c = 0)) as [E|E]; [exists T; by rewrite E|]. eexists. split; [by apply HK|].
  eapply test_passed; [done|done|]. intros d Hd. rewrite Hc in Hd. injection Hd as <-. by left.
Qed.

Lemma sound_ClaimReap n : sound (ClaimReap n).
Proof.
  intros w T F arrived a w' K _ Hi (b & v & HB & H1 & H2) ((s' & Hs & ->) & c & Hc & ->). apply adjust_some in Hs as (c' & Hc' & ->). rewrite Hc in Hc'. injection Hc' as <-.
  destruct (tested_at _ _ _ _ _ _ _ Hi HB) as (Hv & _ & Hin).
  assert (Hna : forall U m u st, U ∈ T :: F -> k_Vcb U = Some st -> alone_in st m u -> alone (Nodes (w_Store w)) (Counters (w_Store w)) (w_Handles w) (T :: F) U m u -> m <> n).
  { intros U m u st _ _ _ Ha. eapply alone_not_tested; [exact Ha|left|]. unfold test_at. rewrite HB. cbn. rewrite hit_same. lia. }
  assert (Hre : f_reaped (Nodes (w_Store w)) (<[n := set_reap true c]> (Counters (w_Store w)))).
  { intros m u d Hm Hd Ho. destruct (decide (m = n)) as [->|Hne]; [unfold is_at in *; rewrite Hv in Hm; by injection Hm as <-|]. rewrite lookup_insert_ne in Hd by done. by eapply (i_reaped _ _ _ _ _ _ Hi). }
  destruct (OnReapList c) eqn:Eo; (eexists; split; [done|]); destruct T; cbn in *; subst; keeps Hi; try same_tally Hi Hc; try exact Hre.
  - intros m. pose proof (i_claims _ _ _ _ _ _ Hi m) as H. world. rewrite (tally_same on_reap n m c _ _ Hc); [exact H|]. unfold on_reap. cbn. by rewrite Eo.
  - seen_less Hi.
  - split; [done|]. exact (proj2 (i_tests _ _ _ _ _ _ Hi)).
  - eapply idle_insert; [exact (i_idle _ _ _ _ _ _ Hi)| |intros u _ _ _ _ _ [=]]. intros m Hm [He|He]; [by left|]. cbn in He. congruence.
  - eapply trees_elsewhere; [exact (i_trees _ _ _ _ _ _ Hi)|done|exact Hna|]. intros m Hm. unfold test_at. cbn. by rewrite hit_other by done.
  - intros m. pose proof (i_claims _ _ _ _ _ _ Hi m) as H. world. rewrite (tally_shift on_reap n m c _ 1 _ Hc) by (unfold on_reap; cbn; by rewrite Eo). tok. lia.
  - split; [done|]. exact (proj2 (i_tests _ _ _ _ _ _ Hi)).
  - eapply idle_insert; [exact (i_idle _ _ _ _ _ _ Hi)| |intros u _ _ _ _ _ [=]]. intros m Hm [He|He]; [by left|]. cbn in He. congruence.
  - eapply trees_elsewhere; [exact (i_trees _ _ _ _ _ _ Hi)|done|exact Hna|]. intros m Hm. unfold test_at. cbn. by rewrite hit_other by done.
Qed.

Lemma sound_PushReap n : sound (PushReap n).
Proof.
  intros w T F arrived [] w' K _ Hi (b & v & HB & HG & HK) (s' & Hs & ->). unfold reap_push in Hs. destruct (Nodes (w_Store w) !! n); cbn in Hs; [|done]. injection Hs as <-. eexists. split; [done|].
  destruct T; cbn in *; subst. keeps Hi.
  - intros m. pose proof (i_claims _ _ _ _ _ _ Hi m) as H. tok. unfold cnt. cbn. fold (cnt m (ReapList (NodeReap (w_Store w)))). lia.
  - seen_less Hi.
  - split; [done|]. exact (proj2 (i_tests _ _ _ _ _ _ Hi)).
  - destruct (i_kick _ _ _ _ _ _ Hi) as [Hsd _]. split; [done|]. intros _. right. by left.
Qed.

(** ** Unclean handles *)

Lemma unclean_bound w T F arrived n c v : inv w (T :: F) arrived -> limit w (T :: F) -> Counters (w_Store w) !! n = Some c -> is_at (Nodes (w_Store w)) n v -> NodeTypeCode v = FcbSignature ->
  Z.of_nat (unclean_at n T) <= UncleanCount c < 4294967295 + Z.of_nat (unclean_at n T) - 1.
Proof.
  intros Hi Hl Hc Hv Hf. pose proof (i_unclean _ _ _ _ _ _ Hi n v Hv Hf) as H. rewrite (tally_at _ _ _ _ Hc) in H. cbn [sum_list_with] in H.
  assert (HF : (total (unclean_at n) F <= 2 * length F)%nat).
  { clear -F. induction F as [|U F IH]; cbn; [done|]. assert (unclean_at n U <= 2)%nat; [|lia]. unfold unclean_at. destruct (k_Unclean U) as [m|], (k_Ref U) as [[[k ?] []]|]; cbn; unfold hit; repeat case_match; lia. }
  pose proof (total_ones (unclean_handle n) (w_Handles w) ltac:(intros h; unfold unclean_handle; destruct (hd_Clean h); [lia|apply hit_le])). unfold limit in Hl. cbn [length] in Hl. lia.
Qed.

(** Only the count of unclean handles changes. *)
Lemma trees_flags nodes cs hs n c c' F :
  cs !! n = Some c -> Published c' = Published c -> OnReapList c' = OnReapList c -> f_trees nodes cs hs F -> f_trees nodes (<[n := c']> cs) hs F.
Proof.
  intros Hc EP EO. apply all_mono. intros U _. cbn.
  assert (H : forall (P : COUNTERS -> bool) m b, P c' = P c -> (exists d, cs !! m = Some d /\ P d = b) -> exists d, <[n := c']> cs !! m = Some d /\ P d = b).
  { intros P m b E (d & Hd & HP). destruct (decide (m = n)) as [->|Hne]; [exists c'; rewrite lookup_insert_eq; split; [done|congruence]|]. exists d. by rewrite lookup_insert_ne. }
  assert (Ha : forall m u, alone nodes cs hs F U m u -> alone nodes (<[n := c']> cs) hs F U m u) by (intros m u (? & ? & ? & ? & ? & ?); unfold alone; split_and!; try done; by apply H).
  destruct (k_Vcb U) as [[]|]; cbn; try done; [|apply Ha]. intros [? ?]. split; [by apply Ha|by apply H].
Qed.

Lemma unclean_sound w T F arrived n c d x :
  inv w (T :: F) arrived -> Counters (w_Store w) !! n = Some c -> match x with Some n => match k_Ref T with Some y => y.1.1 = n | None => False end | None => True end ->
  (forall v, is_at (Nodes (w_Store w)) n v -> NodeTypeCode v = FcbSignature -> UncleanCount (add_unclean d c) = UncleanCount c + d) ->
  (forall m, Z.of_nat (unclean_at m (set_unclean T x)) = Z.of_nat (unclean_at m T) + d * Z.of_nat (hit n m)) ->
  inv (put_store w (with_Counters (w_Store w) (<[n := add_unclean d c]> (Counters (w_Store w))))) (set_unclean T x :: F) arrived.
Proof.
  intros Hi Hc Hx Hd HT. keeps Hi; try same_tally Hi Hc.
  - intros m u Hm Hf. cbn in Hm. pose proof (i_unclean _ _ _ _ _ _ Hi m u Hm Hf) as H. specialize (HT m). world. cbn [sum_list_with] in *. destruct (decide (m = n)) as [->|Hne].
    + rewrite (tally_shift UncleanCount n n c _ d _ Hc) by (by eapply Hd). lia.
    + rewrite tally_insert, decide_False by done. rewrite hit_other in HT by done. lia.
  - exact (conj Hx (proj2 (i_marked _ _ _ _ _ _ Hi))).
  - intros m u e Hm Ht Hcl He Hp Hr Ho. destruct (decide (m = n)) as [->|Hne].
    + cbn in He. rewrite lookup_insert_eq in He. injection He as <-. by eapply (i_idle _ _ _ _ _ _ Hi n u c).
    + cbn in He. rewrite lookup_insert_ne in He by done. by eapply (i_idle _ _ _ _ _ _ Hi m u e).
  - eapply trees_flags; [exact Hc|done|done|]. exact (i_trees _ _ _ _ _ _ Hi).
Qed.

Lemma sound_MarkUnclean n : sound (MarkUnclean n).
Proof.
  intros w T F arrived [] w' K Hl Hi (v & HR & HU & HK) (s' & Hs & ->). apply adjust_some in Hs as (c & Hc & ->). eexists. split; [done|]. apply unclean_sound; [done|done|by rewrite ?HR| |].
  - intros u Hu Hf. pose proof (unclean_bound _ _ _ _ _ _ u Hi Hl Hc Hu Hf) as Hb. cbn. rewrite u32_id; [done|]. unfold unclean_at in Hb. rewrite HR, HU in Hb. cbn in Hb. lia.
  - intros m. unfold unclean_at. cbn. rewrite HU. cbn. lia.
Qed.
Lemma sound_UnmarkUnclean n : sound (UnmarkUnclean n).
Proof.
  intros w T F arrived [] w' K Hl Hi (HU & _ & HK) (s' & Hs & ->). apply adjust_some in Hs as (c & Hc & ->). eexists. split; [done|]. apply unclean_sound; [done|done|by rewrite ?HR| |].
  - intros u Hu Hf. pose proof (unclean_bound _ _ _ _ _ _ u Hi Hl Hc Hu Hf) as Hb. cbn. rewrite u32_id; [done|]. unfold unclean_at in Hb. rewrite HU in Hb. cbn in Hb. rewrite hit_same in Hb.
    assert (in_option (fun x : Z * NODE * bool => if x.2 then hit x.1.1 n else 0%nat) (k_Ref T) <= 1)%nat by (destruct (k_Ref T) as [[[? ?] []]|]; cbn; [apply hit_le|lia|lia]). lia.
  - intros m. unfold unclean_at. cbn. rewrite HU. cbn. lia.
Qed.
End Counts.
