(* ===== verification/OpensCallsTable.v ===== *)
(** * The calls keep the invariant: the tree *)

From S2P Require Import Prelude UnicodePath PathCache ClientText Nodes NodesTree Opens OpensSystem OpensTokens OpensInvariant OpensCalls OpensCallsCounts.

Section Tree.
Context {nls : Nls} (root vcb : Z) (params : Z -> CREATE_PARAMS).
Abbreviation inv := (inv root vcb params).
Abbreviation sound := (sound root vcb params).
Implicit Types (nodes : gmap Z NODE) (cs : gmap Z COUNTERS) (hs : list HANDLE) (F : list TOK) (n : Z) (v : NODE).

(** ** Learning about the tree *)

Definition retired_in (st : TREE_STATE) n : nat := match st with VRetired m _ => hit m n | _ => 0 end.

(** The holder of the VCB resource learns something, and nothing else
    changes. *)
Lemma tree_move w T F arrived st st' :
  inv w (T :: F) arrived -> k_Vcb T = Some st -> (forall m, retired_in st' m = retired_in st m) ->
  (forall m u, (m, u) ∈ tree_seen st' -> is_at (Nodes (w_Store w)) m u) ->
  (forall m u c, is_at (Nodes (w_Store w)) m u -> in_tree u = true -> childless (Nodes (w_Store w)) m -> Counters (w_Store w) !! m = Some c ->
    PinCount c = 0 -> RefCount c = 0 -> OnReapList c = false -> exempt m T -> exempt m (set_vcb T (Some st'))) ->
  tree_state_ok (Nodes (w_Store w)) (Counters (w_Store w)) (w_Handles w) (T :: F) T st' ->
  inv w (set_vcb T (Some st') :: F) arrived.
Proof.
  intros Hi HT Hre Hs He Hok. keeps Hi.
  - intros m. pose proof (i_claims _ _ _ _ _ _ Hi m) as H. specialize (Hre m). cbn [sum_list_with] in *. unfold claim_at at 1 in H. unfold claim_at at 1. cbn. rewrite HT in H. cbn in H. unfold retired_in in Hre. rewrite Hre. exact H.
  - eapply seen_change; [exact (i_seen _ _ _ _ _ _ Hi)|]. intros m u Hx. unfold seen in *. cbn in Hx. rewrite !elem_of_app in *. destruct Hx as [Hx|Hx]; [left; by apply Hs|right; by right].
  - eapply idle_change; [exact (i_idle _ _ _ _ _ _ Hi)|]. exact He.
  - refine (trees_alone _ _ _ w T F arrived _ _ _ _ _ Hi HT _). exact Hok.
  - pose proof (i_vcb _ _ _ _ _ _ Hi) as H. unfold f_vcb in *. cbn [sum_list_with] in *. unfold vcb_at at 1 in H. rewrite HT in H. exact H.
Qed.

Lemma is_at_same nodes n v v' : is_at nodes n v -> is_at nodes n v' -> v = v'.
Proof. unfold is_at. intros -> [= ->]. done. Qed.
Lemma in_tree_view node : in_tree (view node) = in_tree node. Proof. done. Qed.

(** What a child's name adds to the path of its parent. *)
Lemma child_comps nodes ch d v name c : tree_ok root vcb nodes ch -> is_at nodes d v -> child_named nodes d name c ->
  exists ve, is_at nodes c ve /\ in_tree ve = true /\ ParentDcb ve = d /\ node_comps ve = node_comps v ++ [name] /\ ~ childless nodes d.
Proof.
  intros Ht Hd (node & Hc & Hin & HP & Hnm). destruct (t_parent _ _ _ _ Ht c node Hc Hin) as (p & Hp & _ & Hch & Hco). rewrite HP in Hp. exists (view node). split_and!; [by apply at_is|done|done| |].
  - pose proof (is_at_view _ _ _ _ Hd Hp) as <-. change (node_comps (view p)) with (node_comps p). rewrite <- Hnm. exact Hco.
  - intros (p' & Hp' & He). rewrite Hp in Hp'. injection Hp' as <-. rewrite He in Hch. by apply elem_of_nil in Hch.
Qed.
Lemma leads_comps nodes ch d v (path : list PATH) a : tree_ok root vcb nodes ch -> is_at nodes d v -> leads nodes d path a -> exists u, is_at nodes a u /\ node_comps u = node_comps v ++ path /\ (path <> [] -> in_tree u = true).
Proof.
  intros Ht Hd Hl. revert v Hd. induction Hl as [d|d name c path a Hc Hl IH]; intros v Hd; [exists v; rewrite app_nil_r; by split_and!|].
  destruct (child_comps _ _ _ _ _ _ Ht Hd Hc) as (ve & Hve & Hin & _ & Hco & _). destruct (IH ve Hve) as (u & Hu & Hcu & Hiu). exists u. split_and!; [done|by rewrite Hcu, Hco, <- app_assoc|].
  intros _. destruct path as [|x path]; [|by apply Hiu]. inversion Hl; subst. by rewrite (is_at_same _ _ _ _ Hu Hve).
Qed.

Lemma sound_SearchPath p : sound (SearchPath p).
Proof.
  intros w T F arrived a w' K _ Hi (HT & Hp & H1 & H2) (Hs & ->). destruct (search_path_spec root vcb (w_Store w) root p (i_tree _ _ _ _ _ _ Hi)) as (r & Hr & Hspec). rewrite Hs in Hr. injection Hr as <-.
  destruct (i_fixed _ _ _ _ _ _ Hi) as [Hroot _]. assert (Hne : forall m, exempt m T -> match k_Bucket T with Some (_, BTest k _) => k = m | _ => False end) by (intros m [He|He]; [by rewrite HT in He|done]).
  destruct a as [n|].
  - destruct (leads_comps _ _ _ _ _ _ (i_tree _ _ _ _ _ _ Hi) Hroot Hspec) as (u & Hu & Hcu & Hin). assert (Hcs : folded p <> []) by (unfold folded; intros E%fmap_nil_inv; by apply comps_nonempty in E).
    specialize (Hin Hcs). eexists. split; [exact (H1 n u Hin Hcu)|]. eapply tree_move; [exact Hi|exact HT|done| | |done].
    + intros m x Hx%list_elem_of_singleton. by simplify_eq.
    + intros m x c _ _ _ _ _ _ _ He. right. by apply Hne.
  - eexists. split; [exact H2|]. eapply tree_move; [exact Hi|exact HT|done| | |].
    + intros m x Hx%list_elem_of_singleton. by simplify_eq.
    + intros m x c _ _ _ _ _ _ _ He. right. by apply Hne.
    + split; [done|]. by split.
Qed.

Lemma at_dir_vacant w T F arrived st d v rem : inv w (T :: F) arrived -> k_Vcb T = Some st -> at_dir st d v rem -> is_at (Nodes (w_Store w)) d v /\ is_dir v = true /\ vacant_path (Nodes (w_Store w)) d rem.
Proof.
  intros Hi HT (Hne & Hd & Hst). pose proof (tree_state _ _ _ _ _ _ _ _ Hi HT) as Hok. assert (Hs : forall m u, (m, u) ∈ tree_seen st -> is_at (Nodes (w_Store w)) m u) by (intros m u; by eapply tree_seen_at).
  destruct st as [| |d' v' [rem'|]|? ? e ve rem'| | |n v'|]; try done; cbn in Hst, Hok.
  - destruct Hst as (-> & -> & ->). destruct Hok as [_ Hvac]. split_and!; [apply Hs; left|done|done].
  - destruct Hst as (-> & -> & ->). destruct Hok as (_ & _ & _ & Hvac). split_and!; [apply Hs; right; left|done|done].
  - destruct Hst as (-> & ->). destruct Hok as [(_ & (node & Hn & Hl) & _) _]. split_and!; [apply Hs; left|done|]. split; [done|]. intros a Hle. unfold folded in Hle. rewrite comps_step in Hle by done. cbn in Hle. inversion Hle as [|? ? c ? ? Hc _]; subst.
    destruct (child_comps _ _ _ _ _ _ (i_tree _ _ _ _ _ _ Hi) (Hs d v ltac:(left)) Hc) as (_ & _ & _ & _ & _ & Hcl). apply Hcl. by exists node.
Qed.

Lemma sound_SearchName d name : sound (SearchName d name).
Proof.
  intros w T F arrived a w' K _ Hi (st & v & rem & HT & Hat & -> & H1 & H2) (Hs & ->). destruct (at_dir_vacant _ _ _ _ _ _ _ _ Hi HT Hat) as (Hd & Hdir & Hne & Hvac).
  destruct (search_name_spec root vcb (w_Store w) d (FsRtlDissectName rem).1 (i_tree _ _ _ _ _ _ Hi)) as (r & Hr & Hspec). rewrite Hs in Hr. injection Hr as <-.
  assert (Hst : forall m, retired_in st m = 0%nat) by (destruct Hat as (_ & _ & Hat); by destruct st). assert (Hex : forall m, exempt m T -> m = d \/ match k_Bucket T with Some (_, BTest k _) => k = m | _ => False end).
  { intros m [He|He]; [|by right]. rewrite HT in He. destruct Hat as (_ & _ & Hat). destruct st as [| |? ? []| | | | |]; try done; left; destruct Hat; congruence. }
  destruct a as [e|].
  - destruct (child_comps _ _ _ _ _ _ (i_tree _ _ _ _ _ _ Hi) Hd Hspec) as (ve & Hve & Hin & HP & Hco & Hcl).
    assert (Hrest : vacant_path (Nodes (w_Store w)) e (FsRtlDissectName rem).2).
    { unfold folded in Hvac. rewrite comps_step in Hvac by done. cbn in Hvac. split.
      - intros E. rewrite E in Hvac. apply (Hvac e). econstructor; [exact Hspec|constructor].
      - intros x Hx. apply (Hvac x). econstructor; [exact Hspec|exact Hx]. }
    eexists. split; [exact (H2 (proj1 Hrest) e ve Hin Hco)|]. eapply tree_move; [exact Hi|exact HT|done| | |].
    + intros m x Hx. cbn in Hx. rewrite elem_of_cons, list_elem_of_singleton in Hx. destruct Hx; by simplify_eq.
    + intros m x c _ _ Hm _ _ _ _ He. destruct (Hex m He) as [->|?]; [done|by right].
    + by split_and!.
  - eexists. split; [exact H1|]. eapply tree_move; [exact Hi|exact HT|done| | |].
    + intros m x Hx%list_elem_of_singleton. by simplify_eq.
    + intros m x c _ _ _ _ _ _ _ He. destruct (Hex m He) as [->|?]; [by left|by right].
    + by split.
Qed.

Lemma sound_ChildrenEmpty n : sound (ChildrenEmpty n).
Proof.
  intros w T F arrived a w' K _ Hi (st & v & HT & Hst & Hin & H1 & H2) (node & Hn & -> & ->).
  assert (Hre : forall m, retired_in st m = 0%nat) by (by destruct st). assert (Hs : is_at (Nodes (w_Store w)) n v) by (eapply tree_seen_at; [exact Hi|exact HT|]; destruct st; try done; destruct Hst as [-> ->]; left).
  assert (Hex : forall m, exempt m T -> m = n \/ match k_Bucket T with Some (_, BTest k _) => k = m | _ => False end).
  { intros m [He|He]; [|by right]. rewrite HT in He. destruct st; try done. destruct Hst as [-> _]. left. congruence. }
  destruct (Nat.eqb_spec (length (ChildrenList node)) 0) as [E|E]; (eexists; split; [done|]); (eapply tree_move; [exact Hi|exact HT|done| | |]).
  - intros m x Hx%list_elem_of_singleton. by simplify_eq.
  - intros m x c _ _ _ _ _ _ _ He. destruct (Hex m He) as [->|?]; [by left|by right].
  - split; [done|]. exists node. split; [done|]. by destruct (ChildrenList node).
  - intros m x Hx. by apply elem_of_nil in Hx.
  - intros m x c _ _ (node' & Hn' & Hc') _ _ _ _ He. destruct (Hex m He) as [->|?]; [|by right]. rewrite Hn in Hn'. injection Hn' as <-. by rewrite Hc' in E.
  - done.
Qed.
End Tree.

(** * The calls keep the invariant: the node table *)
Section Table.
Context {nls : Nls} (root vcb : Z) (params : Z -> CREATE_PARAMS).
Abbreviation inv := (inv root vcb params).
Abbreviation sound := (sound root vcb params).
Implicit Types (nodes : gmap Z NODE) (cs : gmap Z COUNTERS) (hs : list HANDLE) (F : list TOK) (n : Z) (v : NODE).

(** ** One node enters or leaves the table *)

Lemma table_bucket nodes ch cs table n node :
  tree_ok root vcb nodes ch -> f_table nodes cs table -> nodes !! n = Some node -> in_tree node = true -> 0 <= TableBucketIndex node < Z.of_nat (length table).
Proof. intros Ht (Hlen & _) Hn Hin. rewrite Hlen, (t_bucket _ _ _ _ Ht n node Hn Hin). apply table_bucket_range. Qed.

Lemma table_has_other nodes cs n c' b m : m <> n -> table_has nodes (<[n := c']> cs) b m <-> table_has nodes cs b m.
Proof. intros Hne. unfold table_has. by setoid_rewrite lookup_insert_ne; [|congruence]. Qed.
Lemma table_has_self nodes cs n v c' b : is_at nodes n v -> table_has nodes (<[n := c']> cs) b n <-> Published c' = true /\ TableBucketIndex v = b.
Proof.
  intros Hv. split.
  - intros (u & d & Hu & Hd & HP & Hb). rewrite lookup_insert_eq in Hd. injection Hd as <-. by rewrite (is_at_same _ _ _ _ Hv Hu).
  - intros [HP Hb]. exists v, c'. by rewrite lookup_insert_eq.
Qed.

(** Changing a node's flag and its bucket together. *)
Lemma table_change nodes cs table table' n v c c' f :
  f_table nodes cs table -> is_at nodes n v -> in_tree v = true -> cs !! n = Some c ->
  length table' = length table -> (forall b, rd table' b = if decide (TableBucketIndex v = b) then f <$> rd table b else rd table b) ->
  (forall l, NoDup l -> (n ∈ l <-> Published c = true) -> NoDup (f l) /\ (forall m, m <> n -> m ∈ f l <-> m ∈ l) /\ (n ∈ f l <-> Published c' = true)) ->
  f_table nodes (<[n := c']> cs) table'.
Proof.
  intros (Hlen & Hpub & Ht) Hv Hin Hc Hlen' Hrd Hf. split_and!; [by rewrite Hlen'| |].
  - intros m u d Hu Hd HP. destruct (decide (m = n)) as [->|Hne]; [by rewrite <- (is_at_same _ _ _ _ Hv Hu)|]. rewrite lookup_insert_ne in Hd by done. by eapply Hpub.
  - intros b l. rewrite Hrd. destruct (decide (TableBucketIndex v = b)) as [<-|Hb].
    + destruct (rd table (TableBucketIndex v)) as [l0|] eqn:El; cbn; [|done]. intros [= <-]. destruct (Ht _ _ El) as [Hnd Hiff].
      assert (Hn : n ∈ l0 <-> Published c = true).
      { rewrite (Hiff n). split; [intros (u & d & Hu & Hd & HP & _); congruence|]. intros HP. by exists v, c. }
      destruct (Hf l0 Hnd Hn) as (Hnd' & Hother & Hself). split; [done|]. intros m. destruct (decide (m = n)) as [->|Hne].
      * rewrite Hself, (table_has_self _ _ _ _ _ _ Hv). tauto.
      * by rewrite (Hother m Hne), (Hiff m), table_has_other.
    + intros El. destruct (Ht _ _ El) as [Hnd Hiff]. split; [done|]. intros m. destruct (decide (m = n)) as [->|Hne].
      * rewrite (Hiff n), (table_has_self _ _ _ _ _ _ Hv). split; [|tauto]. intros (u & d & Hu & _ & _ & Hb'). by rewrite (is_at_same _ _ _ _ Hv Hu) in Hb.
      * by rewrite (Hiff m), table_has_other.
Qed.

Definition retired_counters (c : COUNTERS) : COUNTERS := set_published false (set_reap true c).

(** The node is taken off the table, if it is in it. *)
Lemma table_unlink_spec s nodes n node c d s' :
  tree_ok root vcb nodes (NodeChildren s) -> f_table nodes (Counters s) (NodeTable s) -> nodes !! n = Some node -> in_tree node = true -> Counters s !! n = Some d -> Published d = Published c ->
  table_unlink s n node c = Some s' -> exists t, s' = with_Counters (with_Table s t) (<[n := set_published false d]> (Counters s)) /\ f_table nodes (<[n := set_published false d]> (Counters s)) t.
Proof.
  intros Ht Hf Hn Hin Hd HP. unfold table_unlink. destruct (Published c) eqn:Ec.
  - destruct (put_list_spec (NodeTable s) (TableBucketIndex node) (unlink_first n)) as (l & t & Hl & Hput & Hlen & Hrd); [by eapply table_bucket|]. rewrite Hput. cbn. intros Hs.
    apply adjust_some in Hs as (d' & Hd' & ->). cbn in Hd'. rewrite Hd in Hd'. injection Hd' as <-. exists t. split; [done|].
    eapply (table_change _ _ _ _ n (view node) d _ (unlink_first n)); [exact Hf|by apply at_is|done|done|done| |].
    + intros b. rewrite Hrd. destruct (decide (TableBucketIndex node = b)) as [<-|]; cbn; [|by rewrite decide_False]. rewrite decide_True by done. by rewrite Hl.
    + intros l0 Hnd Hin0. split_and!; [by apply unlink_first_nodup| |].
      * intros m Hm. rewrite unlink_first_elem by done. tauto.
      * rewrite unlink_first_elem by done. cbn. split; [tauto|done].
  - intros [= <-]. assert (Ed : set_published false d = d) by (destruct d; cbn in *; by rewrite HP). exists (NodeTable s). rewrite Ed, insert_id by done. by destruct s.
Qed.

(** ** Retiring a node *)

Lemma unheld_not_tested w F arrived n v : inv w F arrived -> is_at (Nodes (w_Store w)) n v -> unheld w n -> total (test_at n) F = 0%nat.
Proof.
  intros Hi Hv (node & Hn & Hb). apply total_all_zero. intros U HU. unfold test_at. destruct (k_Bucket U) as [[b [|m u|]]|] eqn:EB; cbn; try done. apply hit_other. intros ->.
  pose proof (proj1 (all_elem _ _) (i_tests _ _ _ _ _ _ Hi) U HU) as Ht. cbn in Ht. rewrite EB in Ht. unfold bucket_ok in Ht. cbn in Ht. destruct Ht as [-> _].
  assert (Hu : is_at (Nodes (w_Store w)) n u).
  { pose proof (proj1 (all_elem _ _) (i_seen _ _ _ _ _ _ Hi) U HU) as Hs. apply (proj1 (all_elem _ _) Hs (n, u)). unfold seen. rewrite EB, !elem_of_app. cbn. rewrite list_elem_of_singleton. tauto. }
  apply Hb. rewrite <- (is_at_view _ _ _ _ Hu Hn) in EB. apply cnt_elem. rewrite (i_buckets _ _ _ _ _ _ Hi). pose proof (sum_list_with_in U (bucket_at (TableBucketIndex node)) F HU) as Hle.
  unfold bucket_at at 1 in Hle. rewrite EB in Hle. cbn in Hle. rewrite hit_same in Hle. lia.
Qed.

Lemma retire_sound w T F arrived st n v c t g :
  inv w (T :: F) arrived -> k_Vcb T = Some st -> is_at (Nodes (w_Store w)) n v -> in_tree v = true -> childless (Nodes (w_Store w)) n ->
  Counters (w_Store w) !! n = Some c -> PinCount c = 0 -> RefCount c = 0 -> unheld w n -> f_table (Nodes (w_Store w)) (<[n := retired_counters c]> (Counters (w_Store w))) t ->
  (forall m, (in_option (gate_claims m) g + hit n m = in_option (gate_claims m) (k_Gate T) + (if OnReapList c then 0 else hit n m))%nat) ->
  (forall x, x ∈ from gate_seen g -> x ∈ from gate_seen (k_Gate T)) -> gate_at (set_gate T g) = gate_at T -> k_Gate T <> Some GKick \/ g = k_Gate T ->
  (forall m u, m <> n -> is_at (Nodes (w_Store w)) m u -> in_tree u = true -> exempt m T -> match k_Bucket T with Some (_, BTest k _) => k = m | _ => False end) ->
  (forall m, retired_in st m = 0%nat) ->
  inv (put_store w (with_Counters (with_Table (w_Store w) t) (<[n := retired_counters c]> (Counters (w_Store w))))) (set_gate (set_vcb T (Some (VRetired n v))) g :: F) arrived.
Proof.
  intros Hi HT Hv Hin Hch Hc HP HR Hun Htab Hcl Hsg Hga Hk Hex Hst. pose proof (unheld_not_tested _ _ _ _ _ Hi Hv Hun) as Htest. keeps Hi; try same_tally Hi Hc.
  - intros m. pose proof (i_claims _ _ _ _ _ _ Hi m) as H. specialize (Hcl m). world. rewrite (tally_shift on_reap n m c _ (if OnReapList c then 0 else 1) _ Hc) by (unfold on_reap; cbn; by destruct (OnReapList c)).
    cbn [sum_list_with] in *. unfold claim_at at 1 in H. unfold claim_at at 1. cbn. rewrite HT in H. cbn in H. assert (E : match st with VRetired k _ => hit k m | _ => 0%nat end = 0%nat) by exact (Hst m). rewrite E in H. destruct (OnReapList c); lia.
  - intros m u d Hm Hd Ho. destruct (decide (m = n)) as [->|Hne]; [by rewrite <- (is_at_same _ _ _ _ Hv Hm)|]. cbn in Hd. rewrite lookup_insert_ne in Hd by done. by eapply (i_reaped _ _ _ _ _ _ Hi).
  - eapply seen_change; [exact (i_seen _ _ _ _ _ _ Hi)|]. intros m u Hx. unfold seen in *. rewrite !elem_of_app in *. destruct Hx as [Hx%list_elem_of_singleton|[Hx|[Hx|Hx]]].
    + left. cbn in Hx. by simplify_eq.
    + right. right. by left.
    + right. right. right. left. by apply Hsg.
    + right. right. right. by right.
  - exact Htab.
  - intros m u d Hu Ht Hm Hd Hp Hr Ho. cbn in Hu, Hm, Hd. destruct (decide (m = n)) as [->|Hne]; [rewrite lookup_insert_eq in Hd; by injection Hd as <-|]. rewrite lookup_insert_ne in Hd by done.
    destruct (i_idle _ _ _ _ _ _ Hi m u d Hu Ht Hm Hd Hp Hr Ho) as [He|He]; [left; right|by right]. by eapply Hex.
  - refine (trees_alone _ _ _ w T F arrived _ _ _ _ _ Hi HT _). cbn. unfold alone. pose proof (i_pins _ _ _ _ _ _ Hi n) as H1. pose proof (i_refs _ _ _ _ _ _ Hi n) as H2. rewrite (tally_at _ _ _ _ Hc) in H1. rewrite (tally_at _ _ _ _ Hc) in H2.
    cbn [sum_list_with] in *. split_and!; [done|done| |unfold pin_at in *; cbn in *; lia| |exact Htest].
    + exists (retired_counters c). by rewrite lookup_insert_eq.
    + unfold ref_at in *. cbn in *. lia.
  - eapply kick_change; [exact (i_kick _ _ _ _ _ _ Hi)| |done..]. destruct Hk as [?| ->]; [by left|]. cbn. destruct (k_Gate T) as [[]|]; [by right|by left..].
  - destruct (i_gate _ _ _ _ _ _ Hi) as [Hw Hq]. split; [done|]. cbn [sum_list_with] in *. change (gate_at (set_gate (set_vcb T (Some (VRetired n v))) g)) with (gate_at (set_gate T g)). by rewrite Hga.
  - pose proof (i_vcb _ _ _ _ _ _ Hi) as H. unfold f_vcb in *. cbn [sum_list_with] in *. unfold vcb_at at 1 in H. rewrite HT in H. exact H.
Qed.

Lemma sound_RetireNode n : sound (RetireNode n).
Proof.
  intros w T F arrived a w' K _ Hi (v & HT & HB & H1 & H2) (Hun & s' & Hs & ->). pose proof (tree_seen_at _ _ _ _ _ _ _ _ n v Hi HT ltac:(left)) as Hv. destruct (tree_state _ _ _ _ _ _ _ _ Hi HT) as [Hin Hch].
  unfold NodeTableTryRetire in Hs. destruct (Nodes (w_Store w) !! n) as [node|] eqn:Hn; cbn in Hs; [|done]. destruct (Counters (w_Store w) !! n) as [c|] eqn:Hc; cbn in Hs; [|done].
  pose proof (is_at_view _ _ _ _ Hv Hn) as Ev. destruct (_ && _) eqn:E.
  - apply andb_true_iff in E as [[HR%Z.eqb_eq HP%Z.eqb_eq]%andb_true_iff HO%negb_true_iff]. destruct (adjust _ _ _) as [s1|] eqn:Had; cbn in Hs; [|done]. apply adjust_some in Had as (c' & Hc' & ->). rewrite Hc in Hc'. injection Hc' as <-.
    destruct (table_unlink _ _ _ _) as [s2|] eqn:Hul; cbn in Hs; [|done]. injection Hs as <- <-.
    destruct (table_unlink_spec (with_Counters (w_Store w) (<[n := set_reap true c]> (Counters (w_Store w)))) (Nodes (w_Store w)) n node c (set_reap true c) s2 (i_tree _ _ _ _ _ _ Hi) (table_insert _ _ n c (set_reap true c) _ Hc ltac:(done) (i_table _ _ _ _ _ _ Hi)) Hn ltac:(by rewrite <- Ev in Hin) ltac:(cbn; by rewrite lookup_insert_eq) ltac:(done) Hul) as (t & -> & Ht).
    cbn in Ht. rewrite insert_insert_eq in Ht. eexists. split; [exact H2|].
    assert (Es : with_Counters (with_Table (with_Counters (w_Store w) (<[n:=set_reap true c]> (Counters (w_Store w)))) t) (<[n:=set_published false (set_reap true c)]> (<[n:=set_reap true c]> (Counters (w_Store w)))) =
      with_Counters (with_Table (w_Store w) t) (<[n := retired_counters c]> (Counters (w_Store w)))) by (unfold with_Counters, with_Table; cbn; by rewrite insert_insert_eq).
    cbn. rewrite Es. refine (retire_sound w T F arrived _ n v c t (k_Gate T) Hi HT Hv Hin Hch Hc HP HR Hun Ht _ _ _ _ _ _).
    + intros m. by rewrite HO.
    + done.
    + done.
    + by right.
    + intros m u Hne Hm Hu [He|He]; [|done]. rewrite HT in He. congruence.
    + done.
  - injection Hs as <- <-. eexists. split; [exact H1|]. assert (Ew : put_store w (w_Store w) = w) by (by destruct w). rewrite Ew. eapply tree_move; [exact Hi|exact HT|done| | |done].
    + intros m x Hx. by apply elem_of_nil in Hx.
    + intros m x d _ _ _ Hd HP HR HO [He|He]; [|by right]. rewrite HT in He. subst m. rewrite Hc in Hd. injection Hd as <-. rewrite HP, HR, HO in E. done.
Qed.

Lemma sound_JudgeNode n : sound (JudgeNode n).
Proof.
  intros w T F arrived a w' K _ Hi (HB & st & l & v & HT & Hq & HG & Hin & H1 & H2) (Hun & s' & Hs & ->).
  assert (Hv : is_at (Nodes (w_Store w)) n v).
  { eapply (known_at root vcb params); [exact Hi|]. unfold known, seen. rewrite HG, !elem_of_cons, !elem_of_app. cbn. rewrite list_elem_of_singleton. tauto. }
  unfold reap_judge in Hs. destruct (Nodes (w_Store w) !! n) as [node|] eqn:Hn; cbn in Hs; [|done]. destruct (Counters (w_Store w) !! n) as [c|] eqn:Hc; cbn in Hs; [|done].
  pose proof (is_at_view _ _ _ _ Hv Hn) as Ev.
  assert (HO : OnReapList c = true).
  { pose proof (i_claims _ _ _ _ _ _ Hi n) as Hcl. rewrite (tally_at _ _ _ _ Hc) in Hcl. cbn [sum_list_with] in Hcl. unfold claim_at at 1 in Hcl. rewrite HG in Hcl. cbn in Hcl. rewrite hit_same in Hcl. unfold on_reap in Hcl. destruct (OnReapList c); [done|lia]. }
  assert (Hst : forall m, retired_in st m = 0%nat) by (by destruct st).
  assert (Hex : forall m u, is_at (Nodes (w_Store w)) m u -> in_tree u = true -> exempt m T -> match k_Bucket T with Some (_, BTest k _) => k = m | _ => False end).
  { intros m u Hm Hu He. exact (quiet_exempt _ _ _ _ _ _ _ _ _ _ Hi HT Hq Hm Hu He). }
  destruct (_ && _) eqn:E.
  - apply andb_true_iff in E as [[HR%Z.eqb_eq HP%Z.eqb_eq]%andb_true_iff HL]. destruct (table_unlink _ _ _ _) as [s2|] eqn:Hul; cbn in Hs; [|done]. injection Hs as <- <-.
    destruct (table_unlink_spec _ (Nodes (w_Store w)) _ _ _ c _ (i_tree _ _ _ _ _ _ Hi) (i_table _ _ _ _ _ _ Hi) Hn ltac:(by rewrite <- Ev in Hin) Hc ltac:(done) Hul) as (t & -> & Ht).
    assert (Ec : set_published false c = retired_counters c) by (destruct c; cbn in HO; by rewrite HO). rewrite Ec in Ht |- *. eexists. split; [exact H2|].
    refine (retire_sound w T F arrived st n v c t (Some (GWorker l None)) Hi HT Hv Hin _ Hc HP HR Hun Ht _ _ _ _ _ Hst).
    + exists node. split; [done|]. rewrite <- Ev in Hin. apply orb_true_iff in HL as [HL%negb_true_iff%bool_decide_eq_false|HL%Nat.eqb_eq]; [|by destruct (ChildrenList node)].
      eapply (dir_or_leaf root vcb); [exact (i_tree _ _ _ _ _ _ Hi)|exact Hn|]. unfold in_tree, is_dir in *. cbn in Hin. by destruct (NodeTypeCode node).
    + intros m. rewrite HO, HG. cbn. lia.
    + intros x Hx. by apply elem_of_nil in Hx.
    + unfold gate_at. cbn. by rewrite HG.
    + left. by rewrite HG.
    + intros m u _. by apply Hex.
  - destruct (adjust _ _ _) as [s1|] eqn:Had; cbn in Hs; [|done]. apply adjust_some in Had as (c' & Hc' & ->). rewrite Hc in Hc'. injection Hc' as <-. injection Hs as <- <-. eexists. split; [exact H1|].
    keeps Hi; try same_tally Hi Hc.
    + intros m. pose proof (i_claims _ _ _ _ _ _ Hi m) as H. world. rewrite (tally_shift on_reap n m c _ (-1) _ Hc) by (unfold on_reap; cbn; by rewrite HO).
      cbn [sum_list_with] in *. unfold claim_at at 1 in H. unfold claim_at at 1. cbn. rewrite HT, HG in H. cbn in H. specialize (Hst m). unfold retired_in in Hst. rewrite Hst in H. lia.
    + intros m u d Hm Hd Ho. cbn in Hd. destruct (decide (m = n)) as [->|Hne]; [rewrite lookup_insert_eq in Hd; by injection Hd as <-|]. rewrite lookup_insert_ne in Hd by done. by eapply (i_reaped _ _ _ _ _ _ Hi).
    + seen_less Hi.
    + intros m u d Hu Ht Hm Hd Hp Hr Ho. cbn in Hu, Hm, Hd. destruct (decide (m = n)) as [->|Hne].
      * exfalso. rewrite lookup_insert_eq in Hd. injection Hd as <-. cbn in Hp, Hr. rewrite Hp, Hr in E. destruct Hm as (node' & Hn' & Hl'). rewrite Hn in Hn'. injection Hn' as <-. rewrite Hl' in E. cbn in E. by rewrite orb_true_r in E.
      * rewrite lookup_insert_ne in Hd by done. destruct (i_idle _ _ _ _ _ _ Hi m u d Hu Ht Hm Hd Hp Hr Ho) as [He|He]; [left; right|by right]. by eapply Hex.
    + refine (trees_alone _ _ _ w T F arrived _ _ _ _ _ Hi HT _). done.
    + eapply kick_change; [exact (i_kick _ _ _ _ _ _ Hi)|left; by rewrite HG|done..].
    + destruct (i_gate _ _ _ _ _ _ Hi) as [Hw Hqq]. split; [done|]. cbn [sum_list_with] in *. unfold gate_at at 1 in Hqq. rewrite HG in Hqq. exact Hqq.
    + pose proof (i_vcb _ _ _ _ _ _ Hi) as H. unfold f_vcb in *. cbn [sum_list_with] in *. unfold vcb_at at 1 in H. rewrite HT in H. exact H.
Qed.

(** ** Publishing a node *)

Lemma sound_PublishNode n : sound (PublishNode n).
Proof.
  intros w T F arrived [] w' K _ Hi (HB & v & Hst & HR & HK) (Hun & s' & Hs & ->). eexists. split; [exact HK|].
  assert (Hin : in_tree v = true) by (destruct Hst as [HT|HT]; [exact (tree_state _ _ _ _ _ _ _ _ Hi HT)|apply (tree_state _ _ _ _ _ _ _ _ Hi HT)]).
  assert (exists st, k_Vcb T = Some st /\ (forall m, retired_in st m = 0%nat) /\ forall m, exempt m T -> m = n) as (st & HT & Hre & Hex).
  { destruct Hst as [HT|HT]; eexists; (split_and!; [exact HT|done|]); intros m [He|He]; rewrite ?HT, ?HB in He; done. }
  pose proof (referenced_at _ _ _ _ _ _ _ _ _ _ Hi HR) as Hv. unfold BlorgNodeTablePublish in Hs.
  destruct (Nodes (w_Store w) !! n) as [node|] eqn:Hn; cbn in Hs; [|done]. destruct (Counters (w_Store w) !! n) as [c|] eqn:Hc; cbn in Hs; [|done]. pose proof (is_at_view _ _ _ _ Hv Hn) as Ev.
  pose proof (ref_here _ _ _ _ _ _ _ _ _ Hi Hc (ref_at_self _ _ _ _ HR)) as HRc.
  assert (Hmove : inv w (set_vcb T (Some VIdle) :: F) arrived).
  { eapply tree_move; [exact Hi|exact HT|by intros m; rewrite Hre| | |done].
    - intros m x Hx. by apply elem_of_nil in Hx.
    - intros m x d _ _ _ Hd _ HR0 _ He. apply Hex in He as ->. rewrite Hc in Hd. injection Hd as <-. lia. }
  destruct (Published c) eqn:EP; [injection Hs as <-; by destruct w|].
  destruct (put_list_spec (NodeTable (w_Store w)) (TableBucketIndex node) (fun l => l ++ [n])) as (l & t & Hl & Hput & Hlen & Hrd).
  { eapply table_bucket; [exact (i_tree _ _ _ _ _ _ Hi)|exact (i_table _ _ _ _ _ _ Hi)|done|]. by rewrite <- Ev in Hin. }
  rewrite Hput in Hs. cbn in Hs. apply adjust_some in Hs as (c' & Hc' & ->). cbn in Hc'. rewrite Hc in Hc'. injection Hc' as <-. keeps Hmove; try same_tally Hmove Hc.
  - eapply (table_change _ _ _ _ n v c _ (fun l => l ++ [n])); [exact (i_table _ _ _ _ _ _ Hi)|done|done|done|done| |].
    + intros b. rewrite <- Ev. cbn. rewrite Hrd. destruct (decide (TableBucketIndex node = b)) as [<-|]; [by rewrite Hl|done].
    + intros l0 Hnd Hin0. split_and!.
      * apply NoDup_app. split_and!; [done| |apply NoDup_singleton]. intros x Hx ->%list_elem_of_singleton. apply Hin0 in Hx. congruence.
      * intros m Hm. rewrite elem_of_app, list_elem_of_singleton. tauto.
      * cbn. split; [done|]. intros _. apply elem_of_app. right. by apply list_elem_of_singleton.
  - eapply idle_insert; [exact (i_idle _ _ _ _ _ _ Hmove)|done|]. intros u _ _ _ _ HR0. cbn in HR0. lia.
  - refine (trees_alone _ _ _ w T F arrived _ _ _ _ _ Hi HT _). done.
Qed.
End Table.

(** * The calls keep the invariant: nodes made and freed *)
(** ** The pool *)

Lemma pool_plus_comm p q : pool_plus p q = pool_plus q p.
Proof. unfold pool_plus. f_equal; lia. Qed.
Lemma pool_plus_assoc p q r : pool_plus p (pool_plus q r) = pool_plus (pool_plus p q) r.
Proof. unfold pool_plus. cbn. f_equal; lia. Qed.
Lemma pool_minus_plus p q : pool_minus (pool_plus p q) q = p.
Proof. destruct p. unfold pool_plus, pool_minus. cbn. f_equal; lia. Qed.

(** Either all of a node is there or nothing is. *)
Lemma create_node_spec fcb named al pool : forall st pool', create_node fcb named al pool = (st, pool') ->
  (st = STATUS_SUCCESS /\ pool' = pool_plus pool (node_pool fcb named)) \/ (NT_SUCCESS st = false /\ pool' = pool).
Proof.
  intros st pool'. unfold create_node. destruct (al_NonPaged al); cbn [negb]; [|intros [= <- <-]; by right]. destruct (al_Node al); cbn [negb]; [|intros [= <- <-]; right; by rewrite pool_minus_plus].
  destruct (named && _); [intros [= <- <-]; right; by rewrite !pool_minus_plus|]. destruct (NT_SUCCESS (al_Resource al)) eqn:E1; cbn [negb]; [|intros [= <- <-]; right; by rewrite !pool_minus_plus].
  destruct (NT_SUCCESS (al_PagingIoResource al)) eqn:E2; cbn [negb]; intros [= <- <-]; [left|right; by rewrite !pool_minus_plus]. split; [done|].
  destruct pool. unfold pool_plus, node_pool, non_paged_pool, paged_pool, name_pool, resource_pool. cbn. destruct fcb, named; f_equal; lia.
Qed.

Lemma pool_fold_comm (x y z : POOL) : pool_plus x (pool_plus y z) = pool_plus y (pool_plus x z).
Proof. unfold pool_plus. cbn. f_equal; lia. Qed.
Lemma pool_of_insert nodes n v : nodes !! n = None -> pool_of (<[n := v]> nodes) = pool_plus (pool_of_node v) (pool_of nodes).
Proof. intros Hn. unfold pool_of. rewrite map_fold_insert_L; [done| |done]. intros. apply pool_fold_comm. Qed.
Lemma pool_of_delete nodes n v : nodes !! n = Some v -> pool_of nodes = pool_plus (pool_of_node v) (pool_of (delete n nodes)).
Proof. intros Hn. unfold pool_of. rewrite (map_fold_delete_L _ _ n v); [done| |done]. intros. apply pool_fold_comm. Qed.
Lemma pool_of_update nodes n v v' : nodes !! n = Some v -> pool_of_node v' = pool_of_node v -> pool_of (<[n := v']> nodes) = pool_of nodes.
Proof. intros Hn E. rewrite (pool_of_delete nodes n v Hn), <- insert_delete_eq, pool_of_insert by apply lookup_delete_eq. by rewrite E. Qed.

Section Nodes.
Context {nls : Nls} (root vcb : Z) (params : Z -> CREATE_PARAMS).
Abbreviation inv := (inv root vcb params).
Abbreviation sound := (sound root vcb params).
Implicit Types (nodes : gmap Z NODE) (cs : gmap Z COUNTERS) (hs : list HANDLE) (F : list TOK) (n : Z) (v : NODE).

(** ** Nobody has anything on an address with no node *)

Lemma unclean_at_ref T F n : f_marked (T :: F) -> total (ref_at n) (T :: F) = 0%nat -> total (unclean_at n) (T :: F) = 0%nat.
Proof.
  intros Hm Hr. apply total_all_zero. intros U HU. pose proof (total_zero _ _ _ Hr HU) as Hz. pose proof (proj1 (all_elem _ _) Hm U HU) as Hk. cbn in Hk. unfold unclean_at, ref_at in *.
  destruct (k_Ref U) as [[[m ?] b]|]; cbn in *; [|by destruct (k_Unclean U)]. rewrite Hz. destruct (k_Unclean U) as [k|]; cbn; [subst k; rewrite Hz|]; by destruct b.
Qed.
Lemma unclean_handles_ref hs n : total (handle_at n) hs = 0%nat -> total (unclean_handle n) hs = 0%nat.
Proof.
  intros Hr. apply total_all_zero. intros h Hh. pose proof (total_zero _ _ _ Hr Hh) as Hz. unfold unclean_handle. destruct (hd_Clean h); [done|exact Hz].
Qed.

Lemma dead_counts w T F arrived n : inv w (T :: F) arrived -> Nodes (w_Store w) !! n = None ->
  Counters (w_Store w) !! n = None /\ total (pin_at n) (T :: F) = 0%nat /\ total (ref_at n) (T :: F) = 0%nat /\ total (handle_at n) (w_Handles w) = 0%nat /\
  total (test_at n) (T :: F) = 0%nat /\ total (unclean_at n) (T :: F) = 0%nat /\ total (unclean_handle n) (w_Handles w) = 0%nat.
Proof.
  intros Hi Hn. assert (Hc : Counters (w_Store w) !! n = None).
  { destruct (Counters (w_Store w) !! n) as [c|] eqn:E; [|done]. destruct (proj2 (i_dom _ _ _ _ _ _ Hi n) ltac:(by eexists)) as [x Hx]. congruence. }
  pose proof (i_pins _ _ _ _ _ _ Hi n) as H1. pose proof (i_refs _ _ _ _ _ _ Hi n) as H2. unfold tally in *. rewrite Hc in H1, H2.
  assert (Hr : total (ref_at n) (T :: F) = 0%nat) by lia. split_and!; [done|lia|done|lia| |by apply unclean_at_ref; [exact (i_marked _ _ _ _ _ _ Hi)|]|apply unclean_handles_ref; lia].
  apply total_all_zero. intros U HU. unfold test_at. destruct (k_Bucket U) as [[b [|m u|]]|] eqn:EB; cbn; try done. apply hit_other. intros ->.
  pose proof (proj1 (all_elem _ _) (i_seen _ _ _ _ _ _ Hi) U HU) as Hs. assert (Hu : is_at (Nodes (w_Store w)) n u); [|unfold is_at in Hu; by rewrite Hn in Hu].
  apply (proj1 (all_elem _ _) Hs (n, u)). unfold seen. rewrite EB, !elem_of_app. cbn. rewrite list_elem_of_singleton. tauto.
Qed.

(** ** A node is made *)

Section Adopt.
Context (nodes : gmap Z NODE) (d addr : Z) (p node : NODE).
Context (Hp : nodes !! d = Some p) (Ha : nodes !! addr = None) (Hleaf : ChildrenList node = []).
Let nodes' : gmap Z NODE := <[addr := with_ParentDcb node d]> (<[d := with_ChildrenList p (ChildrenList p ++ [addr])]> nodes).

Lemma adopt_ne : d <> addr.
Proof using All. intros ->. congruence. Qed.
Lemma adopt_old m u : is_at nodes m u -> m <> addr /\ is_at nodes' m u.
Proof using All.
  intros Hm. pose proof adopt_ne as Hne. assert (m <> addr) as Hma by (intros ->; unfold is_at in Hm; by rewrite Ha in Hm). split; [done|]. unfold is_at, nodes' in *. rewrite lookup_insert_ne by done.
  destruct (decide (m = d)) as [->|]; [|by rewrite lookup_insert_ne by done]. rewrite lookup_insert_eq. rewrite Hp in Hm. exact Hm.
Qed.
Lemma adopt_new : is_at nodes' addr (view (with_ParentDcb node d)).
Proof using All. unfold is_at, nodes'. by rewrite lookup_insert_eq. Qed.
Lemma adopt_inv m u : is_at nodes' m u -> m = addr /\ u = view (with_ParentDcb node d) \/ m <> addr /\ is_at nodes m u.
Proof using All.
  intros Hm. destruct (decide (m = addr)) as [->|Hne]; [left; split; [done|]; by eapply is_at_same, adopt_new|right; split; [done|]]. unfold is_at, nodes' in *. rewrite lookup_insert_ne in Hm by done.
  destruct (decide (m = d)) as [->|]; [|by rewrite lookup_insert_ne in Hm by done]. rewrite lookup_insert_eq in Hm. rewrite Hp. exact Hm.
Qed.
Lemma adopt_childless m : childless nodes' m -> m = addr \/ m <> d /\ childless nodes m.
Proof using All.
  intros (x & Hx & Hl). unfold nodes' in Hx. destruct (decide (m = addr)) as [->|Hne]; [by left|right]. rewrite lookup_insert_ne in Hx by done. destruct (decide (m = d)) as [->|Hd].
  - rewrite lookup_insert_eq in Hx. injection Hx as <-. cbn in Hl. by destruct (ChildrenList p).
  - rewrite lookup_insert_ne in Hx by done. split; [done|]. by exists x.
Qed.
Lemma adopt_leaf : childless nodes' addr.
Proof using All. exists (with_ParentDcb node d). unfold nodes'. by rewrite lookup_insert_eq. Qed.
Lemma adopt_pool : pool_of nodes' = pool_plus (pool_of_node node) (pool_of nodes).
Proof using All.
  pose proof adopt_ne as Hne. unfold nodes'. rewrite pool_of_insert by (by rewrite lookup_insert_ne by done). f_equal. by apply pool_of_update with p.
Qed.
End Adopt.

(** Views that are kept. *)
Lemma seen_views nodes nodes' F : (forall m u, is_at nodes m u -> is_at nodes' m u) -> f_seen nodes F -> f_seen nodes' F.
Proof. intros H. apply all_mono. intros U _. apply all_mono. intros [m u] _. apply H. Qed.
Lemma related_views nodes nodes' hs F : (forall m u, is_at nodes m u -> is_at nodes' m u) -> f_related params nodes hs F -> f_related params nodes' hs F.
Proof. intros H. apply all_mono. intros U _. destruct (k_Irp U) as [[i [u|]]|]; [|done|done]. intros (fo & h & ? & ? & ? & ?). exists fo, h. split_and!; try done. by apply H. Qed.

(** Nothing was made. *)
Lemma vacant_failed w T F arrived d v name : inv w (T :: F) arrived -> k_Vcb T = Some (VVacant d v name) -> inv (put_store w (with_Pool (w_Store w) (Pool (w_Store w)))) (set_vcb T (Some (VAt d v None)) :: F) arrived.
Proof.
  intros Hi HT. assert (Ew : put_store w (with_Pool (w_Store w) (Pool (w_Store w))) = w) by (destruct w as [[]]; done). rewrite Ew. destruct (tree_state _ _ _ _ _ _ _ _ Hi HT) as [Hdir _]. eapply tree_move; [exact Hi|exact HT|done| | |done].
  - intros m u Hx%list_elem_of_singleton. simplify_eq. eapply tree_seen_at; [exact Hi|exact HT|left].
  - intros m u c _ _ _ _ _ _ _ [He|He]; [left|by right]. by rewrite HT in He.
Qed.

Lemma adopt_sound w T F arrived d v name addr node m pool s' :
  inv w (T :: F) arrived -> k_Vcb T = Some (VVacant d v name) -> FullPath node <> [] -> folded (FullPath node) = node_comps v ++ [fold_path name] -> in_tree node = true -> ChildrenList node = [] ->
  TableBucketIndex node = NodeTableBucketIndexFor (FullPath node) -> Nodes (w_Store w) !! addr = None -> pool = pool_plus (Pool (w_Store w)) (pool_of_node node) ->
  adopt (w_Store w) d addr node m pool = Some s' -> inv (put_store w s') (set_vcb T (Some (VFresh addr (view (with_ParentDcb node d)))) :: F) arrived.
Proof.
  intros Hi HT Hpath Hco Hin Hleaf Hbk Ha -> Had. pose proof (tree_seen_at _ _ _ _ _ _ _ _ d v Hi HT ltac:(left)) as Hd. destruct (tree_state _ _ _ _ _ _ _ _ Hi HT) as [Hdir Hvac].
  assert (Hnm : node_name node = fold_path name).
  { pose proof (last_component_comps (FullPath node) Hpath) as Hl. assert (E : last (folded (FullPath node)) = Some (node_name node)) by (unfold folded; rewrite fmap_last, Hl; done). rewrite Hco, last_snoc in E. by injection E. }
  destruct (is_at_node _ _ _ Hd) as (p0 & Hp0 & Ev0).
  assert (Hcan : can_adopt (Nodes (w_Store w)) d addr node).
  { split; try done; [|by rewrite Hnm]. exists p0. split_and!; [done|by rewrite <- Ev0 in Hdir|]. rewrite Hco, Hnm. by rewrite <- Ev0. }
  destruct (adopt_ok root vcb (w_Store w) d addr node m (pool_plus (Pool (w_Store w)) (pool_of_node node)) (i_tree _ _ _ _ _ _ Hi) Hcan) as (s1 & p & Had' & Hp & Htree & En & Ec & Et & Er & Ep). rewrite Had in Had'. injection Had' as <-.
  rewrite Hp0 in Hp. injection Hp as <-. destruct (dead_counts _ _ _ _ _ Hi Ha) as (Hc & Z1 & Z2 & Z3 & Z4 & Z5 & Z6).
  pose proof (adopt_old (Nodes (w_Store w)) d addr p0 node Hp0 Ha Hleaf) as Hold. pose proof (adopt_inv (Nodes (w_Store w)) d addr p0 node Hp0 Ha Hleaf) as Hinv.
  pose proof (adopt_new (Nodes (w_Store w)) d addr p0 node Hp0 Ha Hleaf) as Hnew. pose proof (adopt_childless (Nodes (w_Store w)) d addr p0 node Hp0 Ha Hleaf) as Hch. pose proof (adopt_leaf (Nodes (w_Store w)) d addr p0 node Hp0 Ha Hleaf) as Hlf. rewrite <- En in *.
  assert (Htal : forall q k, q counters_zero = 0 -> tally q k (<[addr := counters_zero]> (Counters (w_Store w))) = tally q k (Counters (w_Store w))).
  { intros q k Hq. rewrite tally_insert. destruct (decide (k = addr)) as [->|]; [|done]. unfold tally. by rewrite Hc. }
  keeps Hi; world; rewrite ?Ec, ?Et, ?Er, ?Ep.
  - exact Htree.
  - destruct (i_fixed _ _ _ _ _ _ Hi) as [H1 H2]. split; by apply Hold.
  - intros k. rewrite En. destruct (decide (k = addr)) as [->|Hne]; [rewrite !lookup_insert_eq; by split; eexists|]. rewrite !(lookup_insert_ne _ addr k) by done. rewrite <- (i_dom _ _ _ _ _ _ Hi k).
    destruct (decide (k = d)) as [->|]; [rewrite lookup_insert_eq, Hp0; by split; eexists|by rewrite lookup_insert_ne by done].
  - intros k. rewrite Htal by done. exact (i_pins _ _ _ _ _ _ Hi k).
  - intros k. rewrite Htal by done. exact (i_refs _ _ _ _ _ _ Hi k).
  - intros k u Hk Hf. rewrite Htal by done. destruct (Hinv k u Hk) as [[-> _]|[_ Hu]]; [|exact (i_unclean _ _ _ _ _ _ Hi k u Hu Hf)]. unfold tally. rewrite Hc, Z6. change (0 = Z.of_nat (total (unclean_at addr) (T :: F) + 0)). by rewrite Z5.
  - intros k. rewrite Htal by done. pose proof (i_claims _ _ _ _ _ _ Hi k) as H. cbn [sum_list_with] in *. unfold claim_at at 1 in H. rewrite HT in H. exact H.
  - intros k u c Hk Hkc Ho. destruct (Hinv k u Hk) as [[-> ->]|[Hne Hu]]; [done|]. rewrite lookup_insert_ne in Hkc by done. by eapply (i_reaped _ _ _ _ _ _ Hi).
  - eapply seen_change; [eapply seen_views; [|exact (i_seen _ _ _ _ _ _ Hi)]; intros; by apply Hold|]. intros k u Hx. unfold seen in *. rewrite !elem_of_app in *. destruct Hx as [Hx%list_elem_of_singleton|Hx]; [left; cbn in Hx; by simplify_eq|right; by right].
  - destruct (i_table _ _ _ _ _ _ Hi) as (Hlen & Hpub & Hlist). split_and!; [done| |].
    + intros k u c Hk Hkc HP. destruct (Hinv k u Hk) as [[-> ->]|[Hne Hu]]; [done|]. rewrite lookup_insert_ne in Hkc by done. by eapply Hpub.
    + intros b l Hl. destruct (Hlist b l Hl) as [Hnd Hiff]. split; [done|]. intros k. rewrite (Hiff k). split; intros (u & c & Hk & Hkc & HP & Hb).
      * destruct (Hold k u Hk) as [Hne Hk']. exists u, c. by rewrite lookup_insert_ne by done.
      * destruct (Hinv k u Hk) as [[-> ->]|[Hne Hu]]; [rewrite lookup_insert_eq in Hkc; by injection Hkc as <-|]. rewrite lookup_insert_ne in Hkc by done. by exists u, c.
  - intros k u c Hk Ht Hcl Hkc Hpc Hrc Ho. destruct (decide (k = addr)) as [->|Hne]; [left; by left|]. destruct (Hch k Hcl) as [?|[Hkd Hcl']]; [done|]. destruct (Hinv k u Hk) as [[? _]|[_ Hu]]; [done|].
    rewrite lookup_insert_ne in Hkc by done. destruct (i_idle _ _ _ _ _ _ Hi k u c Hu Ht Hcl' Hkc Hpc Hrc Ho) as [[He|He]|He]; [rewrite HT in He; congruence|left; by right|by right].
  - refine (trees_alone _ _ _ w T F arrived _ _ _ _ _ Hi HT _). cbn. split.
    + split_and!; [done|exact Hlf|exists counters_zero; by rewrite lookup_insert_eq|exact Z1| |exact Z4].
      change ((total (ref_at addr) (T :: F) + total (handle_at addr) (w_Handles w))%nat = ref_at addr T). rewrite Z2, Z3. symmetry. apply (total_zero _ _ _ Z2). left.
    + exists counters_zero. by rewrite lookup_insert_eq.
  - exact (i_kick _ _ _ _ _ _ Hi).
  - exact (i_gate _ _ _ _ _ _ Hi).
  - pose proof (i_vcb _ _ _ _ _ _ Hi) as H. unfold f_vcb in *. cbn [sum_list_with] in *. unfold vcb_at at 1 in H. rewrite HT in H. exact H.
  - pose proof (i_pool _ _ _ _ _ _ Hi) as H. unfold f_pool in *. rewrite En, (adopt_pool (Nodes (w_Store w)) d addr p0 node Hp0 Ha Hleaf), H, (pool_plus_comm (pool_of_node node)), <- !pool_plus_assoc. f_equal. apply pool_plus_comm.
  - eapply related_views; [|exact (i_related _ _ _ _ _ _ Hi)]. intros; by apply Hold.
Qed.

Lemma sound_CreateFcbIn d p info : sound (CreateFcbIn d p info).
Proof.
  intros w T F arrived a w' K _ Hi (v & name & HT & Hp & Hco & H1 & H2) (al & st & pool & n & m & Ha & Hmk & -> & s' & Hs & ->). unfold BlorgCreateFCB in Hmk.
  assert (E : (0 <? path_bytes p) = true) by (apply Z.ltb_lt; unfold path_bytes; destruct p; [done|cbn; lia]). rewrite E in Hmk. destruct (create_node true true al (Pool (w_Store w))) as [st0 pool0] eqn:Ecr. injection Hmk as -> -> <- <-.
  destruct (create_node_spec _ _ _ _ _ _ Ecr) as [[-> ->]|[Hf ->]].
  - eexists. split; [exact (H2 (al_Address al) (view (with_ParentDcb (mkNode FcbSignature p 0 (NodeTableBucketIndexFor p) []) d)) eq_refl eq_refl eq_refl)|]. by eapply adopt_sound; [exact Hi|exact HT|..|exact Hs].
  - rewrite Hf in Hs. injection Hs as <-. eexists. split; [by apply H1|]. eapply vacant_failed; [exact Hi|exact HT].
Qed.
Lemma sound_CreateDcbIn d p : sound (CreateDcbIn d p).
Proof.
  intros w T F arrived a w' K _ Hi (v & name & HT & Hp & Hco & H1 & H2) (al & st & pool & n & m & Ha & Hmk & -> & s' & Hs & ->). unfold BlorgCreateDCB in Hmk.
  destruct (create_node false true al (Pool (w_Store w))) as [st0 pool0] eqn:Ecr. injection Hmk as -> -> <- <-. destruct (create_node_spec _ _ _ _ _ _ Ecr) as [[-> ->]|[Hf ->]].
  - eexists. split; [exact (H2 (al_Address al) (view (with_ParentDcb (mkNode DcbSignature p 0 (NodeTableBucketIndexFor p) []) d)) eq_refl eq_refl eq_refl)|]. by eapply adopt_sound; [exact Hi|exact HT|..|exact Hs].
  - rewrite Hf in Hs. injection Hs as <-. eexists. split; [by apply H1|]. eapply vacant_failed; [exact Hi|exact HT].
Qed.

(** ** A node is freed *)

Section Free.
Context (nodes : gmap Z NODE) (n : Z) (p node : NODE).
Context (Hn : nodes !! n = Some node) (Hp : nodes !! ParentDcb node = Some p) (Hne : ParentDcb node <> n).
Let nodes' : gmap Z NODE := delete n (<[ParentDcb node := with_ChildrenList p (unlink_first n (ChildrenList p))]> nodes).

Lemma free_keep m u : is_at nodes m u -> m <> n -> is_at nodes' m u.
Proof using All.
  intros Hm Hmn. unfold is_at, nodes' in *. rewrite lookup_delete_ne by done. destruct (decide (m = ParentDcb node)) as [->|]; [|by rewrite lookup_insert_ne by done].
  rewrite lookup_insert_eq. rewrite Hp in Hm. exact Hm.
Qed.
Lemma free_inv m u : is_at nodes' m u -> m <> n /\ is_at nodes m u.
Proof using All.
  intros Hm. unfold is_at, nodes' in *. destruct (decide (m = n)) as [->|Hmn]; [by rewrite lookup_delete_eq in Hm|]. split; [done|]. rewrite lookup_delete_ne in Hm by done.
  destruct (decide (m = ParentDcb node)) as [->|]; [|by rewrite lookup_insert_ne in Hm by done]. rewrite lookup_insert_eq in Hm. rewrite Hp. exact Hm.
Qed.
Lemma free_childless m : childless nodes' m -> m = ParentDcb node \/ childless nodes m.
Proof using All.
  intros (x & Hx & Hl). unfold nodes' in Hx. destruct (decide (m = ParentDcb node)) as [->|Hd]; [by left|right]. apply lookup_delete_Some in Hx as [_ Hx]. rewrite lookup_insert_ne in Hx by done. by exists x.
Qed.
Lemma free_pool : pool_of nodes = pool_plus (pool_of_node node) (pool_of nodes').
Proof using All.
  rewrite <- (pool_of_update nodes (ParentDcb node) p (with_ChildrenList p (unlink_first n (ChildrenList p))) Hp) by done. apply pool_of_delete. by rewrite lookup_insert_ne by done.
Qed.
End Free.

(** The only handler that sees [n] is the one that frees it. *)
Lemma alone_unseen w T F arrived st n v u :
  inv w (T :: F) arrived -> k_Vcb T = Some st -> alone_in st n v -> k_Ref T = None -> k_Bucket T = None ->
  (forall U, U ∈ F -> (n, u) ∉ seen U) /\ (n, u) ∉ from gate_seen (k_Gate T) ++ from (fun x => [x]) (k_Pin T).
Proof.
  intros Hi HT Hst HR HB. pose proof (tree_state _ _ _ _ _ _ _ _ Hi HT) as Hok.
  assert (Ha : alone (Nodes (w_Store w)) (Counters (w_Store w)) (w_Handles w) (T :: F) T n v) by (destruct Hst as [-> | ->]; apply Hok).
  destruct Ha as (_ & _ & (c & Hc & HPub) & Z1 & Z2 & Z3). assert (E0 : ref_at n T = 0%nat) by (unfold ref_at; by rewrite HR). rewrite E0 in Z2.
  assert (Zc : total (claim_at n) F = 0%nat /\ in_option (gate_claims n) (k_Gate T) = 0%nat).
  { pose proof (i_claims _ _ _ _ _ _ Hi n) as H. rewrite (tally_at _ _ _ _ Hc) in H. cbn [sum_list_with] in H. unfold claim_at at 1 in H. rewrite HT, HB in H. cbn in H. unfold on_reap in H. destruct Hst as [-> | ->].
    - destruct Hok as [_ (c' & Hc' & Ho)]. rewrite Hc in Hc'. injection Hc' as <-. rewrite Ho in H. lia.
    - rewrite hit_same in H. destruct (OnReapList c); lia. }
  destruct Zc as [Zc Zg]. assert (Hgate : forall g, in_option (gate_claims n) g = 0%nat -> (n, u) ∉ from gate_seen g).
  { intros [[| |l [[m x]|]]|] Hz Hx; cbn in *; try by apply elem_of_nil in Hx. apply list_elem_of_singleton in Hx. injection Hx as <- <-. rewrite hit_same in Hz. lia. }
  assert (Hpin : forall U, pin_at n U = 0%nat -> (n, u) ∉ from (fun x => [x]) (k_Pin U)).
  { intros U Hz Hx. unfold pin_at in Hz. destruct (k_Pin U) as [[m x]|]; cbn in *; [|by apply elem_of_nil in Hx]. apply list_elem_of_singleton in Hx. injection Hx as <- <-. by rewrite hit_same in Hz. }
  split.
  - intros U HU. pose proof (total_zero _ _ U Zc HU) as Uc. unfold claim_at in Uc. unfold seen. rewrite !not_elem_of_app. split_and!.
    + rewrite (others_no_tree _ _ _ _ _ _ _ _ Hi HT U HU). apply not_elem_of_nil.
    + intros Hx. pose proof (total_zero _ _ U Z3 ltac:(by right)) as Ut. unfold test_at in Ut. destruct (k_Bucket U) as [[b [|m x|m x]]|]; cbn in *; try (by apply elem_of_nil in Hx); apply list_elem_of_singleton in Hx; injection Hx as <- <-; rewrite hit_same in *; lia.
    + apply Hgate. lia.
    + apply Hpin. apply (total_zero _ _ U Z1). by right.
    + intros Hx. assert (Ur : ref_at n U = 0%nat) by (cbn [sum_list_with] in Z2; eapply total_zero; [|exact HU]; lia). unfold ref_at in Ur. destruct (k_Ref U) as [[[m x] b]|]; cbn in *; [|by apply elem_of_nil in Hx]. apply list_elem_of_singleton in Hx. injection Hx as <- <-. by rewrite hit_same in Ur.
  - rewrite not_elem_of_app. split; [by apply Hgate|]. apply Hpin, (total_zero _ _ T Z1). left.
Qed.

Lemma sound_FreeNode n : sound (FreeNode n).
Proof.
  intros w T F arrived [] w' K _ Hi (v & Hst & HR & HB & HRes & HK) (s' & Hs & ->).
  assert (exists st, k_Vcb T = Some st /\ alone_in st n v) as (st & HT & Hal) by (destruct Hst as [HT|HT]; eexists; (split; [exact HT|]); [by left|by right]).
  pose proof (tree_state _ _ _ _ _ _ _ _ Hi HT) as Hok. assert (Ha : alone (Nodes (w_Store w)) (Counters (w_Store w)) (w_Handles w) (T :: F) T n v) by (destruct Hal as [-> | ->]; apply Hok).
  pose proof (tree_seen_at _ _ _ _ _ _ _ st n v Hi HT ltac:(destruct Hal as [-> | ->]; left)) as Hv. pose proof (fun u => alone_unseen _ _ _ _ _ _ _ u Hi HT Hal HR HB) as Hun.
  destruct Ha as (Hin & (node & Hn & Hleaf) & (c & Hc & HPub) & Z1 & Z2 & Z3). assert (E0 : ref_at n T = 0%nat) by (unfold ref_at; by rewrite HR). rewrite E0 in Z2. pose proof (is_at_view _ _ _ _ Hv Hn) as Ev.
  assert (Hin' : in_tree node = true) by (by rewrite <- Ev in Hin). destruct (free_ok root vcb (w_Store w) n node (i_tree _ _ _ _ _ _ Hi) Hn Hin' Hleaf) as (s1 & p & Hfree & Hp & Htree & En & Ec & Et & Er & Ep). rewrite Hs in Hfree. injection Hfree as <-.
  destruct (t_parent _ _ _ _ (i_tree _ _ _ _ _ _ Hi) n node Hn Hin') as (p0 & Hp0 & Hdir & _ & Hco). rewrite Hp in Hp0. injection Hp0 as <-. pose proof (parent_not_self root vcb _ _ _ _ (i_tree _ _ _ _ _ _ Hi) Hn Hin') as Hne.
  eexists. split; [apply (HK (view p)); [exact Hdir|by rewrite <- Ev]|].
  pose proof (free_keep (Nodes (w_Store w)) n p node Hn Hp Hne) as Hkeep. pose proof (free_inv (Nodes (w_Store w)) n p node Hn Hp Hne) as Hinv. pose proof (free_childless (Nodes (w_Store w)) n p node Hn Hp Hne) as Hch. rewrite <- En in *.
  assert (Etal : forall q k, k <> n -> tally q k (delete n (Counters (w_Store w))) = tally q k (Counters (w_Store w))) by (intros q k Hk; unfold tally; by rewrite lookup_delete_ne by done).
  assert (Etal0 : forall q, tally q n (delete n (Counters (w_Store w))) = 0) by (intros q; unfold tally; by rewrite lookup_delete_eq).
  assert (Hparent : ParentDcb v = ParentDcb node) by (by rewrite <- Ev). rewrite Hparent.
  assert (Hlive : forall k u, is_at (Nodes (w_Store w)) k u -> in_tree u = false -> k <> n) by (intros k u Hk Hu ->; rewrite (is_at_same _ _ _ _ Hk Hv) in Hu; congruence).
  keeps Hi; world; rewrite ?Ec, ?Et, ?Er, ?Ep.
  - exact Htree.
  - destruct (i_fixed _ _ _ _ _ _ Hi) as [H1 H2]. split; (apply Hkeep; [done|by eapply Hlive]).
  - intros k. rewrite En. destruct (decide (k = n)) as [->|Hk]; [rewrite !lookup_delete_eq; by split; intros [? ?]|]. rewrite !lookup_delete_ne by done. rewrite <- (i_dom _ _ _ _ _ _ Hi k).
    destruct (decide (k = ParentDcb node)) as [->|]; [rewrite lookup_insert_eq, Hp; by split; eexists|by rewrite lookup_insert_ne by done].
  - intros k. destruct (decide (k = n)) as [->|Hk]; [rewrite Etal0; change (0 = Z.of_nat (total (pin_at n) (T :: F))); by rewrite Z1|]. rewrite Etal by done. exact (i_pins _ _ _ _ _ _ Hi k).
  - intros k. destruct (decide (k = n)) as [->|Hk]; [rewrite Etal0; change (0 = Z.of_nat (total (ref_at n) (T :: F) + total (handle_at n) (w_Handles w))); by rewrite Z2|]. rewrite Etal by done. exact (i_refs _ _ _ _ _ _ Hi k).
  - intros k u Hk Hf. destruct (Hinv k u Hk) as [Hkn Hu]. rewrite Etal by done. exact (i_unclean _ _ _ _ _ _ Hi k u Hu Hf).
  - intros k. pose proof (i_claims _ _ _ _ _ _ Hi k) as H. cbn [sum_list_with] in *. unfold claim_at at 1 in H. unfold claim_at at 1. cbn. rewrite HT, HB in *. cbn in *. destruct (decide (k = n)) as [->|Hk].
    + rewrite Etal0. rewrite (tally_at _ _ _ _ Hc) in H. unfold on_reap in H. destruct Hal as [-> | ->].
      * destruct Hok as [_ (c' & Hc' & Ho)]. rewrite Hc in Hc'. injection Hc' as <-. rewrite Ho in H. lia.
      * rewrite hit_same in H. destruct (OnReapList c); lia.
    + rewrite Etal by done. rewrite H. destruct Hal as [-> | ->]; [done|]. rewrite hit_other by done. done.
  - intros k u d Hk Hd Ho. destruct (Hinv k u Hk) as [Hkn Hu]. rewrite lookup_delete_ne in Hd by done. by eapply (i_reaped _ _ _ _ _ _ Hi).
  - destruct (i_seen _ _ _ _ _ _ Hi) as [HsT HsF]. split.
    + apply all_elem. intros [k u] Hx. unfold seen in Hx. cbn in Hx. rewrite HB, HR in Hx. cbn in Hx. rewrite app_nil_r in Hx. apply elem_of_cons in Hx as [Hx|Hx].
      * injection Hx as -> ->. cbn. apply Hkeep; [by apply at_is|done].
      * cbn. apply Hkeep.
        -- apply (proj1 (all_elem _ _) HsT (k, u)). unfold seen. rewrite HB, HR. cbn. rewrite app_nil_r. apply elem_of_app. by right.
        -- intros ->. by apply (proj2 (Hun u)).
    + apply all_elem. intros U HU. apply all_elem. intros [k u] Hx. cbn. apply Hkeep; [by apply (proj1 (all_elem _ _) (proj1 (all_elem _ _) HsF U HU) (k, u))|]. intros ->. by apply (proj1 (Hun u) U HU).
  - destruct (i_table _ _ _ _ _ _ Hi) as (Hlen & Hpub & Hlist). split_and!; [done| |].
    + intros k u d Hk Hd HP. destruct (Hinv k u Hk) as [Hkn Hu]. rewrite lookup_delete_ne in Hd by done. by eapply Hpub.
    + intros b l Hl. destruct (Hlist b l Hl) as [Hnd Hiff]. split; [done|]. intros k. rewrite (Hiff k). split; intros (u & d & Hk & Hd & HP & Hb).
      * assert (k <> n) by (intros ->; congruence). exists u, d. split_and!; [by apply Hkeep|by rewrite lookup_delete_ne by done|done|done].
      * destruct (Hinv k u Hk) as [Hkn Hu]. rewrite lookup_delete_ne in Hd by done. by exists u, d.
  - intros k u d Hk Ht Hcl Hd Hpc Hrc Ho. destruct (Hinv k u Hk) as [Hkn Hu]. rewrite lookup_delete_ne in Hd by done. destruct (Hch k Hcl) as [->|Hcl']; [left; by left|].
    destruct (i_idle _ _ _ _ _ _ Hi k u d Hu Ht Hcl' Hd Hpc Hrc Ho) as [[He|He]|He]; [|by rewrite HB in He|by right]. rewrite HT in He. destruct Hal as [-> | ->]; [congruence|done].
  - refine (trees_alone _ _ _ w T F arrived _ _ _ _ _ Hi HT _). cbn. split; [exact Hdir|done].
  - exact (i_kick _ _ _ _ _ _ Hi).
  - exact (i_gate _ _ _ _ _ _ Hi).
  - pose proof (i_vcb _ _ _ _ _ _ Hi) as H. unfold f_vcb in *. cbn [sum_list_with] in *. unfold vcb_at at 1 in H. rewrite HT in H. exact H.
  - pose proof (i_pool _ _ _ _ _ _ Hi) as H. unfold f_pool in *. rewrite H. rewrite (free_pool (Nodes (w_Store w)) n p node Hn Hp Hne), <- En.
    assert (Epn : node_pool (bool_decide (NodeTypeCode node = FcbSignature)) true = pool_of_node node) by (unfold pool_of_node, in_tree, is_dir in *; by destruct (NodeTypeCode node)).
    rewrite Epn, <- pool_plus_assoc, pool_plus_comm. apply pool_minus_plus.
  - destruct (i_related _ _ _ _ _ _ Hi) as [HrT HrF]. assert (Hrel : forall i u, related_is params (Nodes (w_Store w)) (w_Handles w) i u -> related_is params (Nodes s') (w_Handles w) i u).
    { intros i u (fo & h & Hfo & Hh & Hfile & Hat). exists fo, h. split_and!; try done. apply Hkeep; [done|]. intros E. assert (Hz : total (handle_at n) (w_Handles w) = 0%nat) by lia. pose proof (total_zero _ _ h Hz Hh) as Hzh. unfold handle_at in Hzh. rewrite E, hit_same in Hzh. done. }
    split; [cbn; destruct (k_Irp T) as [[i [u|]]|]; [by apply Hrel|done|done]|]. eapply all_mono, HrF. intros U _. cbn. destruct (k_Irp U) as [[i [u|]]|]; [apply Hrel|done|done].
Qed.
End Nodes.
