(* ===== verification/OpensCreate.v ===== *)
(** * Every handler, call by call

    That each handler may make its calls in every state it can be in, holds
    nothing when it is done, and opens only what was asked for. *)

From S2P Require Import Prelude UnicodePath PathCache ClientText Nodes NodesTree Opens OpensSystem OpensTokens.

Ltac toks := cbv beta iota delta [set_vcb set_res set_bucket set_pin set_ref set_unclean set_ccb set_blocks set_irp set_gate handed_over k_Vcb k_Res k_Bucket k_Pin k_Ref k_Unclean k_Ccb k_Blocks k_Irp k_Gate]; cbn [Nat.sub].
Ltac step := apply open_make; cbn [call_pre]; toks.
Ltac final := unfold make; cbn [wp call_pre]; toks.
Ltac give := apply open_bind; cbn [wp].

Section Handlers.
Context {nls : Nls} (root vcb : Z) (params : Z -> CREATE_PARAMS).
Abbreviation wp := (wp root vcb params).
Abbreviation known := (known root vcb).

(** ** The reap list *)

Lemma wp_kick V R B P Rf U C k I Q : Q () (mkTok V R B P Rf U C k I None) -> wp NodeReapKick (mkTok V R B P Rf U C k I (Some GKick)) Q.
Proof. intros HQ. unfold NodeReapKick. step. split; [done|]. split; [|exact HQ]. final. done. Qed.

Lemma wp_defer V R b n v P Rf U C k I Q : Q () (mkTok V R (Some (b, BPlain)) P Rf U C k I None) -> wp (BlorgNodeDeferReap n) (mkTok V R (Some (b, BTest n v)) P Rf U C k I None) Q.
Proof.
  intros HQ. unfold BlorgNodeDeferReap. step. exists b, v. split; [done|]. split; [exact HQ|]. step. exists b, v. split; [done|]. split; [done|]. by apply wp_kick.
Qed.

Lemma wp_defer_if_idle_locked V R b n v P Rf U C k I Q :
  Q () (mkTok V R (Some (b, BPlain)) P Rf U C k I None) -> wp (NodeDeferReapIfIdleLocked n) (mkTok V R (Some (b, BTest n v)) P Rf U C k I None) Q.
Proof.
  intros HQ. unfold NodeDeferReapIfIdleLocked. step. exists b, v. split; [done|]. split.
  - rewrite Z.eqb_refl. cbn [negb]. step. exists b, v. split; [done|]. split; [by apply wp_defer|]. intros z Hz. apply Z.eqb_neq in Hz. by rewrite Hz.
  - intros z Hz. apply Z.eqb_neq in Hz. by rewrite Hz.
Qed.

Lemma wp_unpin n v V R Rf U C k I Q :
  in_tree v = true -> Q () (mkTok V R None None Rf U C k I None) -> wp (BlorgNodeUnpin n) (mkTok V R None (Some (n, v)) Rf U C k I None) Q.
Proof.
  intros Hin HQ. unfold BlorgNodeUnpin. step. left. exists v. split; [unfold known, seen; cbn; rewrite !elem_of_cons, !elem_of_app; cbn; rewrite !elem_of_cons, ?elem_of_app; cbn; tauto|]. step. split; [done|]. right.
  step. exists v. split_and!; [done|done|done|]. apply open_bind, wp_defer_if_idle_locked. final. by split.
Qed.

Lemma wp_dereference n v R P C k I Q :
  in_tree v = true -> Q () (mkTok None R None P None None C k I None) -> wp (BlorgNodeDereference n) (mkTok None R None P (Some (n, v, false)) None C k I None) Q.
Proof.
  intros Hin HQ. unfold BlorgNodeDereference. step. left. exists v. split; [unfold known, seen; cbn; rewrite !elem_of_cons, ?elem_of_app; cbn; rewrite ?elem_of_cons; tauto|]. step. split; [done|]. right.
  step. exists v. split_and!; [done|done|done|done|done|]. apply open_bind, wp_defer_if_idle_locked. final. by split.
Qed.

Lemma wp_defer_if_idle n v owed R P Rf U C k I Q :
  Q () (mkTok (Some (VSeen n v false)) R None P Rf U C k I None) -> wp (BlorgNodeDeferReapIfIdle n) (mkTok (Some (VSeen n v owed)) R None P Rf U C k I None) Q.
Proof.
  intros HQ. unfold BlorgNodeDeferReapIfIdle. step. left. exists v. split; [unfold known, seen; cbn; rewrite !elem_of_cons; tauto|]. step. split; [done|]. left. exists n, v, owed. split_and!; [done|done|].
  apply open_bind, wp_defer_if_idle_locked. final. by split.
Qed.

(** ** Reaping empty directories *)

Lemma wp_reap_ancestors fuel d v st P U C k I G Q :
  stands st d v -> is_dir v = true -> (depth v < fuel)%nat ->
  (forall st, quiet st = true -> Q () (mkTok (Some st) None None P None U C k I G)) -> wp (reap_ancestors fuel d) (mkTok (Some st) None None P None U C k I G) Q.
Proof.
  intros Hst Hd Hf HQ. revert d v st Hst Hd Hf. induction fuel as [|fuel IH]; intros d v st Hst Hd Hf; [lia|]. cbn [reap_ancestors].
  step. left. exists v. split; [unfold known, seen; cbn; destruct st; try done; destruct Hst as [-> ->]; cbn; rewrite !elem_of_cons; tauto|].
  assert (Hin : in_tree v = negb (bool_decide (NodeTypeCode v = RootDcbSignature))) by (unfold is_dir, in_tree in *; by destruct (NodeTypeCode v)).
  destruct (bool_decide (NodeTypeCode v = DcbSignature)) eqn:Et; cbn [negb].
  - apply bool_decide_eq_true in Et. assert (Hin' : in_tree v = true) by (unfold in_tree; by rewrite Et). step. exists st, v. split_and!; [done|done|done|by apply HQ|]. cbn [negb].
    step. exists v. split_and!; [done|done|by apply HQ|]. cbn [negb]. step. exists v. split_and!; [by right|done|done|done|]. intros pv Hpd Hco. apply (IH _ pv); [done|done|].
    assert (depth v = S (depth pv)) by (unfold depth; rewrite Hco, length_app; cbn; lia). lia.
  - cbn. destruct st as [| |d' v' rem|d' v' e ve rem| | | |]; try done; destruct Hst as [-> ->].
    + apply HQ. cbn. rewrite Hin. unfold is_dir in Hd. apply bool_decide_eq_false in Et. by destruct (NodeTypeCode v).
    + by apply HQ.
Qed.
Lemma wp_reap_empty_ancestors d v st P U C k I G Q :
  stands st d v -> is_dir v = true ->
  (forall st, quiet st = true -> Q () (mkTok (Some st) None None P None U C k I G)) -> wp (BlorgReapEmptyAncestorDcbs d) (mkTok (Some st) None None P None U C k I G) Q.
Proof.
  intros Hst Hd HQ. unfold BlorgReapEmptyAncestorDcbs. step. left. exists v. split; [unfold known, seen; cbn; destruct st; try done; destruct Hst as [-> ->]; cbn; rewrite !elem_of_cons; tauto|].
  eapply wp_reap_ancestors; [exact Hst|done| |exact HQ]. pose proof (depth_path v). lia.
Qed.

Lemma wp_reap_batch l st Q :
  quiet st = true -> (forall st, quiet st = true -> Q () (mkTok (Some st) None None None None None false 0 None (Some (GWorker [] None)))) ->
  wp (reap_batch l) (mkTok (Some st) None None None None None false 0 None (Some (GWorker l None))) Q.
Proof.
  intros Hq HQ. revert st Hq. induction l as [|n l IH]; intros st Hq; cbn [reap_batch]; [by apply HQ|]. step. right. exists l. split; [done|]. intros v Hin.
  step. split; [done|]. exists st, l, v. split_and!; [done|done|done|done|give; by apply IH|]. apply open_bind. step. exists v. split_and!; [by right|done|done|done|]. intros pv Hpd _.
  eapply wp_reap_empty_ancestors; [done|done|]. intros st' Hq'. by apply IH.
Qed.

Definition tok_worker : TOK := set_gate tok0 (Some (GWorker [] None)).
Lemma wp_worker : wp NodeReapWorker tok_worker ends.
Proof.
  unfold NodeReapWorker, tok_worker, tok0. toks. step. split; [done|]. intros l.
  assert (Hend : wp (pending ← make ClearQueued; if pending : bool then NodeReapKick else Give ()) (mkTok None None None None None None false 0 None (Some (GWorker [] None))) ends).
  { step. split; [done|]. split; [by apply wp_kick|done]. }
  destruct l as [|n l]; cbn [length Nat.eqb]; [give; exact Hend|]. apply open_bind. step. split; [done|]. apply open_bind, wp_reap_batch; [done|]. intros st Hq. final. exists st. by split_and!.
Qed.
End Handlers.

(** * Every handler, call by call: opens, cleanups and closes *)
Section Create.
Context {nls : Nls} (root vcb : Z) (params : Z -> CREATE_PARAMS).
Abbreviation wp := (wp root vcb params).
Abbreviation known := (known root vcb).
Abbreviation wanted := (wanted params).

(** ** Opening a node *)

(** How an open came to its node. *)
Definition reached (V : option TREE_STATE) (P : option (Z * NODE)) (n : Z) (v : NODE) : Prop :=
  (n = root /\ v = root_node) \/ P = Some (n, v) \/ (exists owed, V = Some (VSeen n v owed)) \/ V = Some (VFresh n v).
Lemma known_reached V R B P Rf U C k I G n v : reached V P n v -> known (mkTok V R B P Rf U C k I G) n v.
Proof.
  unfold known, seen. cbn. rewrite !elem_of_cons, !elem_of_app. intros [[-> ->]|[->|[(owed & ->)| ->]]]; cbn; rewrite ?elem_of_cons; tauto.
Qed.
(** Dropping a reference may leave the node to be looked at. *)
Definition loosened (V V' : option TREE_STATE) (n : Z) (v : NODE) : Prop := V' = V \/ exists owed, V = Some (VSeen n v owed) /\ V' = Some (VSeen n v true).

Definition opens_as (fcb : bool) (v : NODE) : Prop := fcb = bool_decide (NodeTypeCode v = FcbSignature) /\ NodeTypeCode v <> VcbSignature.
Definition access_ok (fcb : bool) (irp : CREATE_IRP) : bool :=
  if fcb then CreateCheckFileAccess (c_DesiredAccess (prm params irp)) else CreateCheckDirectoryAccess (c_DesiredAccess (prm params irp)).

Lemma wp_open_node fcb irp n v rel V P k Q :
  ci_Stash irp = None -> reached V P n v -> opens_as fcb v -> (access_ok fcb irp = true -> wanted (ci_Id irp) rel v) ->
  Q STATUS_SUCCESS (mkTok V None None P (Some (n, v, true)) None false k (Some (ci_Id irp, rel)) None) ->
  (forall st V', loosened V V' n v -> st <> STATUS_SUCCESS -> st <> STATUS_PENDING -> Q st (mkTok V' None None P None None false k (Some (ci_Id irp, rel)) None)) ->
  (forall V', loosened V V' n v -> Q STATUS_PENDING (mkTok V' None None P None None false k None None)) ->
  wp (open_node params fcb irp n) (mkTok V None None P None None false k (Some (ci_Id irp, rel)) None) Q.
Proof.
  intros Hst Hr [Hfcb Hnv] Hw HS HF HP. unfold open_node. fold (access_ok fcb irp). destruct (access_ok fcb irp); cbn [negb]; [specialize (Hw eq_refl)|apply HF; [by left|done|done]].
  assert (Hk : forall V R B Rf U C k I G, reached V P n v -> exists v, known (mkTok V R B P Rf U C k I G) n v) by (intros; exists v; by apply known_reached).
  step. split_and!; [done|done|by apply Hk|]. step. split; [by apply Hk|]. split; [by exists rel|]. split; [done|]. split; [done|]. split.
  2: { step. split_and!; [done|by apply Hk|]. apply HP. by left. }
  intros a Ha. destruct (Z.eqb_spec a STATUS_SUCCESS) as [->|Hne]; cbn [negb].
  2: { step. split_and!; [done|by apply Hk|]. apply HF; [by left|done|done]. }
  step. split; [done|]. split; [|cbn; step; split_and!; [done|by apply Hk|]; apply HF; [by left|done|done]]. cbn [negb].
  step. split; [done|]. exists v. split.
  { destruct Hr as [[-> ->]|[->|[Hr|Hr]]]; [left; split; [done|apply known_reached; by left]|right; by left|right; right; by left|right; right; by right]. }
  intros refs. step. split; [by apply Hk|]. intros a Ha'.
  assert (a = STATUS_SUCCESS \/ a = STATUS_SHARING_VIOLATION) as [->| ->] by (cbn in Ha'; tauto).
  - assert (Hset : wp (make (ReleaseResource n);; make (SetFileObject irp n);; Give STATUS_SUCCESS)
      (mkTok V (Some n) None P (Some (n, v, false)) (if fcb then Some n else None) true k (Some (ci_Id irp, rel)) None) Q).
    { step. split_and!; [done|by apply Hk|]. step. exists v, rel. split_and!; [done|done|done|by rewrite bool_decide_false|by rewrite <- Hfcb|exact HS]. }
    change (negb (NT_SUCCESS STATUS_SUCCESS)) with false. cbn match. apply open_bind. destruct fcb; [final|cbn; exact Hset]. exists v. split_and!; [done|done|exact Hset].
  - change (negb (NT_SUCCESS STATUS_SHARING_VIOLATION)) with true. cbn match.
    assert (Hrest : forall V', reached V' P n v -> loosened V V' n v -> wp (result ← CreateBreakHandleOplockOnSharingViolation params n irp STATUS_SHARING_VIOLATION;
        make (ReleaseResource n);; make FreeCcb;; Give result) (mkTok V' (Some n) None P None None true k (Some (ci_Id irp, rel)) None) Q).
    { intros V' Hr' Hl. assert (Hfin : forall st I, (I = Some (ci_Id irp, rel) /\ st <> STATUS_SUCCESS /\ st <> STATUS_PENDING) \/ (I = None /\ st = STATUS_PENDING) ->
        wp (make (ReleaseResource n);; make FreeCcb;; Give st) (mkTok V' (Some n) None P None None true k I None) Q).
      { intros st I Hc. step. split_and!; [done|by apply Hk|]. step. split; [done|]. cbn. destruct Hc as [(-> & ? & ?)|[-> ->]]; [by apply HF|by apply HP]. }
      apply open_bind. unfold CreateBreakHandleOplockOnSharingViolation. rewrite Z.eqb_refl. cbn [negb orb]. destruct (flag _ _); [cbn; apply Hfin; by left|].
      step. split; [by apply Hk|]. split; [by exists rel|]. split; [done|]. split; [done|]. split; [|apply Hfin; by right]. intros b Hb. cbn. destruct (Z.eqb_spec b STATUS_SUCCESS) as [->|Hbs]; apply Hfin; by left. }
    step. exists v. split; [done|]. split; [done|]. destruct Hr as [[-> ->]|[->|[(owed & ->)| ->]]].
    + left. split; [by left|]. apply Hrest; [by left|by left].
    + left. split; [right; by left|]. apply Hrest; [right; by left|by left].
    + right. split; [by exists owed|]. apply Hrest; [right; right; left; by exists true|right; by exists owed].
    + left. split; [right; by right|]. apply Hrest; [right; right; by right|by left].
Qed.

(** ** How an open may be answered *)

Definition bare (k : nat) (I : option (Z * option NODE)) : TOK := mkTok None None None None None None false k I None.
Definition under (st : TREE_STATE) (Rf : option (Z * NODE * bool)) (k : nat) (I : option (Z * option NODE)) : TOK := mkTok (Some st) None None None Rf None false k I None.

(** With [STATUS_SUCCESS] and a file object; not yet, the IRP being elsewhere;
    or with an error. *)
Definition answers_as (irp : CREATE_IRP) (st : NTSTATUS) (Rf : option (Z * NODE * bool)) (I : option (Z * option NODE)) : Prop :=
  (st = STATUS_SUCCESS /\ (exists n v, Rf = Some (n, v, true)) /\ (exists rel, I = Some (ci_Id irp, rel))) \/
  (st = STATUS_PENDING /\ Rf = None /\ I = None) \/
  (st <> STATUS_SUCCESS /\ st <> STATUS_PENDING /\ Rf = None /\ exists rel, I = Some (ci_Id irp, rel)).
Definition answered (irp : CREATE_IRP) (k : nat) (st : NTSTATUS) (T : TOK) : Prop := exists Rf I, answers_as irp st Rf I /\ T = mkTok None None None None Rf None false k I None.
Definition answered_in (irp : CREATE_IRP) (k : nat) (st : NTSTATUS) (T : TOK) : Prop := exists q Rf I, answers_as irp st Rf I /\ quiet q = true /\ T = under q Rf k I.

Lemma answer_in irp k st q Rf I : answers_as irp st Rf I -> quiet q = true -> answered_in irp k st (under q Rf k I).
Proof. intros H Hq. by exists q, Rf, I. Qed.
Lemma fails irp st rel : st <> STATUS_SUCCESS -> st <> STATUS_PENDING -> answers_as irp st None (Some (ci_Id irp, rel)).
Proof. intros H1 H2. right. right. split_and!; [done|done|done|]. by exists rel. Qed.
Lemma not_success st : NT_SUCCESS st = false -> st <> STATUS_SUCCESS /\ st <> STATUS_PENDING.
Proof. intros H. split; intros ->; done. Qed.
Lemma pending irp : answers_as irp STATUS_PENDING None None.
Proof. right. by left. Qed.
Lemma succeeds irp n v rel : answers_as irp STATUS_SUCCESS (Some (n, v, true)) (Some (ci_Id irp, rel)).
Proof. left. split_and!; [done|by eexists _, _|by eexists]. Qed.

Lemma wp_fail irp k rel st : NT_SUCCESS st = false -> wp (Give st) (bare k (Some (ci_Id irp, rel))) (answered irp k).
Proof. intros H. destruct (not_success st H). cbn. eexists _, _. split; [by apply fails|done]. Qed.

Lemma wp_open_vcb irp rel k :
  ci_Stash irp = None -> c_Related (prm params irp) = None -> c_FileName (prm params irp) = [] ->
  wp (CreateOpenVcb vcb params irp) (bare k (Some (ci_Id irp, rel))) (answered irp k).
Proof.
  intros Hst Hrel Hname. unfold CreateOpenVcb, bare. destruct (CreateCheckFileAccess _) eqn:Ea; cbn [negb]; [|by apply wp_fail].
  assert (Hk : forall V R B P Rf U C k I G, known (mkTok V R B P Rf U C k I G) vcb vcb_node) by (intros; right; left).
  step. split; [done|]. step. split; [done|]. exists vcb_node. split; [left; split; [done|apply Hk]|]. intros refs. step. split; [exists vcb_node; apply Hk|]. intros a Ha.
  assert (a = STATUS_SUCCESS \/ a = STATUS_SHARING_VIOLATION) as [->| ->] by (cbn in Ha; tauto).
  - change (negb (NT_SUCCESS STATUS_SUCCESS)) with false. cbn match. step. exists VIdle. split_and!; [done|done|]. step. exists vcb_node, rel. split_and!; [done|done|done|done|done|].
    cbn. eexists _, _. split; [apply succeeds|done].
  - change (negb (NT_SUCCESS STATUS_SHARING_VIOLATION)) with true. cbn match. step. exists vcb_node. split; [done|]. split; [done|]. left. split; [by left|]. step. exists VIdle. split_and!; [done|done|]. by apply wp_fail.
Qed.

(** ** What an FCB knows of its file *)

Lemma wp_is_current V P n v k I Q : reached V P n v -> (forall b, Q b (mkTok V None None P None None false k I None)) -> wp (CreateFcbIsCurrent n) (mkTok V None None P None None false k I None) Q.
Proof.
  intros Hr HQ. assert (Hk : exists v, known (mkTok V None None P None None false k I None) n v) by (exists v; by apply known_reached). unfold CreateFcbIsCurrent.
  step. split; [done|]. intros opens _. destruct (opens =? 0); cbn [negb]; [|by apply HQ]. step. split; [done|]. intros m. step. intros cur. destruct cur; [by apply HQ|]. step. left. exists v. split; [by apply known_reached|].
  step. intros cached. destruct cached; try apply HQ. step. split; [done|]. intros m'. apply HQ.
Qed.
Lemma wp_refresh V P n v info t k I Q : reached V P n v -> Q () (mkTok V None None P None None false k I None) -> wp (CreateFcbRefresh n info t) (mkTok V None None P None None false k I None) Q.
Proof.
  intros Hr HQ. assert (Hk : forall R, exists v, known (mkTok V R None P None None false k I None) n v) by (intros; exists v; by apply known_reached). unfold CreateFcbRefresh.
  assert (Hrel : wp (make (ReleaseResource n)) (mkTok V (Some n) None P None None false k I None) Q) by (final; split_and!; [done|apply Hk|done]).
  step. split_and!; [done|done|apply Hk|]. step. split; [apply Hk|]. intros m. destruct (_ && _); [step; split; [apply Hk|exact Hrel]|].
  step. split; [apply Hk|]. intros purged _. destruct purged; cbn [negb]; [|step; split; [apply Hk|exact Hrel]]. step. split; [apply Hk|]. step. split; [apply Hk|]. intros _ _. exact Hrel.
Qed.

(** ** Under the VCB resource *)

Lemma wp_open_resident fcb irp n v rel k Q :
  ci_Stash irp = None -> opens_as fcb v -> (access_ok fcb irp = true -> wanted (ci_Id irp) rel v) ->
  (forall st T, answered_in irp k st T -> Q st T) -> wp (open_resident params irp n fcb) (under (VSeen n v false) None k (Some (ci_Id irp, rel))) Q.
Proof.
  intros Hst Hfcb Hw HQ. unfold open_resident. apply open_bind, (wp_open_node fcb irp n v rel); [done|right; right; left; by eexists|done|done| | |].
  - rewrite Z.eqb_refl. apply open_bind. final. split; [done|]. exists v. split_and!; [by left|done|]. cbn. apply HQ. exact (answer_in irp k _ VIdle _ _ (succeeds irp n v rel) eq_refl).
  - intros st V' Hl Hs Hp. apply Z.eqb_neq in Hs as Hs'. rewrite Hs'. apply open_bind. assert (exists owed, V' = Some (VSeen n v owed)) as (owed & ->) by (destruct Hl as [->|(? & _ & ->)]; by eexists).
    apply wp_defer_if_idle. cbn. apply HQ. exact (answer_in irp k _ (VSeen n v false) _ _ (fails irp st rel Hs Hp) eq_refl).
  - intros V' Hl. change (STATUS_PENDING =? STATUS_SUCCESS) with false. apply open_bind. assert (exists owed, V' = Some (VSeen n v owed)) as (owed & ->) by (destruct Hl as [->|(? & _ & ->)]; by eexists).
    apply wp_defer_if_idle. cbn. apply HQ. exact (answer_in irp k _ (VSeen n v false) _ _ (pending irp) eq_refl).
Qed.

Lemma wp_open_inserted fcb irp n v rel k Q :
  ci_Stash irp = None -> opens_as fcb v -> (access_ok fcb irp = true -> wanted (ci_Id irp) rel v) ->
  (forall st T, answered_in irp k st T -> Q st T) -> wp (open_inserted params irp n (ParentDcb v) fcb) (under (VFresh n v) None k (Some (ci_Id irp, rel))) Q.
Proof.
  intros Hst Hfcb Hw HQ. unfold open_inserted.
  assert (Hfree : forall st I, answers_as irp st None I -> wp ((make (FreeNode n);; BlorgReapEmptyAncestorDcbs (ParentDcb v));; Give st) (under (VFresh n v) None k I) Q).
  { intros st I Ha. apply open_bind. step. exists v. split_and!; [by left|done|done|done|]. intros pv Hpd _. eapply wp_reap_empty_ancestors; [done|done|]. intros q Hq. cbn. apply HQ. exact (answer_in _ _ _ _ _ _ Ha Hq). }
  apply open_bind, (wp_open_node fcb irp n v rel); [done|right; right; by right|done|done| | |].
  - rewrite Z.eqb_refl. apply open_bind. final. split; [done|]. exists v. split_and!; [by right|done|]. cbn. apply HQ. exact (answer_in irp k _ VIdle _ _ (succeeds irp n v rel) eq_refl).
  - intros st V' Hl Hs Hp. apply Z.eqb_neq in Hs as Hs'. rewrite Hs'. assert (V' = Some (VFresh n v)) as -> by (destruct Hl as [->|(? & [=] & _)]; done). by apply Hfree, fails.
  - intros V' Hl. change (STATUS_PENDING =? STATUS_SUCCESS) with false. assert (V' = Some (VFresh n v)) as -> by (destruct Hl as [->|(? & [=] & _)]; done). apply Hfree, pending.
Qed.

(** A new node for every component that was missing; the last one is what the
    path names. *)
Definition inserted_as (path : PATH) (info : DIRECTORY_ENTRY_METADATA) (v : NODE) : Prop :=
  NodeTypeCode v = (if IsDirectory info then DcbSignature else FcbSignature) /\ node_comps v = folded path.
Definition insert_done (path : PATH) (info : DIRECTORY_ENTRY_METADATA) k I (r : NTSTATUS * option Z) (T : TOK) : Prop :=
  (NT_SUCCESS r.1 = false /\ exists q, quiet q = true /\ T = under q None k I) \/
  (r.1 = STATUS_SUCCESS /\ exists n v, r.2 = Some n /\ inserted_as path info v /\ T = under (VFresh n v) None k I).

Lemma wp_insert_loop fuel path info d v st created rem cs k I :
  path <> [] -> walked path cs rem -> node_comps v = fold_path <$> cs -> at_dir st d v rem -> (length rem < fuel)%nat ->
  wp (insert_loop fuel path info d created rem) (under st None k I) (insert_done path info k I).
Proof.
  intros Hpath. revert d v st created rem cs. induction fuel as [|fuel IH]; intros d v st created rem cs Hw Hco Hat Hf; [lia|]. cbn [insert_loop].
  pose proof Hat as (Hne & Hdir & _). destruct (Nat.eqb_spec (length rem) 0) as [E|_]; [by destruct rem|]. pose proof (walked_next path cs rem Hw Hne) as Hnext. pose proof (dissect_shorter rem Hne) as Hlt.
  destruct (FsRtlDissectName rem) as [f rest] eqn:Ed. cbn [snd] in Hlt. destruct Hnext as [Hmid Hlast].
  assert (Hfail : forall st', stands st' d v -> forall s, NT_SUCCESS s = false -> wp (BlorgReapEmptyAncestorDcbs d;; Give (s, None)) (under st' None k I) (insert_done path info k I)).
  { intros st' Hs s Hn. apply open_bind. eapply wp_reap_empty_ancestors; [exact Hs|done|]. intros q Hq. left. split; [done|]. by exists q. }
  step. exists st, v, rem. split; [done|]. split; [done|]. rewrite Ed. cbn [fst snd]. split; [done|]. split.
  - destruct (Nat.eqb_spec (length rest) 0) as [E|E].
    + destruct rest; [|done]. specialize (Hlast eq_refl). assert (Hfp : folded path = node_comps v ++ [fold_path f]) by (unfold folded; rewrite Hlast, fmap_app, Hco; done).
      destruct (IsDirectory info) eqn:Edir; cbn [andb negb].
      * step. exists v, f. split_and!; [done|done|done| |].
        -- intros n s Hs. rewrite Hs. cbn [negb]. by apply (Hfail (VAt d v None)).
        -- intros n v' Ht Hfu Hpa. right. split; [done|]. exists n, v'. split_and!; [done| |done]. split; [by rewrite Edir|]. unfold node_comps. by rewrite Ht, Hfu.
      * step. exists v, f. split_and!; [done|done|done| |].
        -- intros n s Hs. rewrite Hs. cbn [negb]. by apply (Hfail (VAt d v None)).
        -- intros n v' Ht Hfu Hpa. right. split; [done|]. exists n, v'. split_and!; [done| |done]. split; [by rewrite Edir|]. unfold node_comps. by rewrite Ht, Hfu.
    + cbn [andb]. assert (Hrest : rest <> []) by (by destruct rest). destruct (Hmid Hrest) as [Hw' Hpart]. set (partial := take _ path) in *.
      step. exists v, f. split_and!; [done| | | |].
      * intros Hz. rewrite Hz in Hpart. cbn in Hpart. by destruct cs.
      * unfold folded. by rewrite Hpart, fmap_app, Hco.
      * intros n s Hs. rewrite Hs. cbn [negb]. by apply (Hfail (VAt d v None)).
      * intros n v' Ht Hfu Hpa. change (negb (NT_SUCCESS STATUS_SUCCESS)) with false. cbn match. eapply (IH n v'); [exact Hw'| | |lia].
        -- unfold node_comps. rewrite Ht, Hfu. unfold folded. by rewrite Hpart.
        -- split; [done|]. split; [unfold is_dir; by rewrite Ht|done].
  - intros Hrest e ve Hin Hce. destruct (Hmid Hrest) as [Hw' _]. destruct (Nat.eqb_spec (length rest) 0) as [E|_]; [by destruct rest|].
    step. left. exists ve. split; [unfold known, seen; cbn; rewrite !elem_of_cons; tauto|]. unfold in_tree in Hin. destruct (NodeTypeCode ve) eqn:Et; try done.
    + by apply (Hfail (VChild d v e ve rest)).
    + eapply (IH e ve); [exact Hw'|by rewrite Hce, fmap_app, Hco| |lia]. split; [done|]. split; [unfold is_dir; by rewrite Et|done].
Qed.

(** What makes a node the one an open asked for. *)
Definition asks_for (irp : CREATE_IRP) (rel : option NODE) (path : PATH) : Prop :=
  exists p, asked params (ci_Id irp) rel = Some p /\ p <> [] /\ path = strip_separator p /\ is_root_path path = false.
Lemma asks_wanted irp rel path v :
  asks_for irp rel path -> in_tree v = true -> node_comps v = folded path ->
  (flag (c_Options (prm params irp)) FILE_NON_DIRECTORY_FILE = true -> is_dir v = false) -> (flag (c_Options (prm params irp)) FILE_DIRECTORY_FILE = true -> is_dir v = true) ->
  access_ok (negb (is_dir v)) irp = true -> wanted (ci_Id irp) rel v.
Proof.
  intros (p & Ha & Hp & -> & Hr) Hin Hco Hf Hd Hacc. unfold wanted. rewrite bool_decide_false by (unfold in_tree in Hin; by destruct (NodeTypeCode v)). exists p. split_and!; [done|done| |].
  - unfold path_comps. by rewrite Hr.
  - split_and!; [done|done|]. unfold access_ok in Hacc. by destruct (is_dir v).
Qed.
Lemma strip_nonempty p : p <> [] -> strip_separator p <> [].
Proof.
  intros Hp. unfold strip_separator. destruct (4 <=? path_bytes p) eqn:E; cbn; [|done]. destruct (ends_with_sep p); [|done]. apply Z.leb_le in E. unfold path_bytes in E. intros Hz. apply (f_equal length) in Hz. rewrite length_take in Hz. cbn in Hz. lia.
Qed.

Section Cold.
Context (irp : CREATE_IRP) (rel : option NODE) (path : PATH) (info : DIRECTORY_ENTRY_METADATA) (t : PATH_CACHE_TICKET) (k : nat).
Context (Hst : ci_Stash irp = None) (Hasks : asks_for irp rel path).
Context (Hfile : IsDirectory info = true -> flag (c_Options (prm params irp)) FILE_NON_DIRECTORY_FILE = false).
Context (Hdir : IsDirectory info = false -> flag (c_Options (prm params irp)) FILE_DIRECTORY_FILE = false).
Let answered_some (r : option NTSTATUS) (T : TOK) : Prop := exists st, r = Some st /\ answered_in irp k st T.

Lemma path_nonempty : path <> [].
Proof using Hasks. destruct Hasks as (p & _ & Hp & -> & _). by apply strip_nonempty. Qed.

Lemma wp_create_insert : wp (create_insert root params irp path info t) (under (VAt root root_node (Some path)) None k (Some (ci_Id irp, rel))) answered_some.
Proof using All.
  unfold create_insert, BlorgInsertByPath. apply open_bind. eapply open_mono; [|eapply (wp_insert_loop _ path info root root_node _ None path []); [apply path_nonempty|constructor|done| |lia]; split; [apply path_nonempty|done]].
  intros [st out] T [(Hn & q & Hq & ->)|(Hs & n & v & Ho & [Ht Hco] & ->)]; cbn [fst snd] in *.
  - rewrite Hn. cbn [negb]. destruct (not_success st Hn). exists st. split; [done|]. exact (answer_in irp k st q _ _ (fails irp st rel ltac:(done) ltac:(done)) Hq).
  - subst st out. change (negb (NT_SUCCESS STATUS_SUCCESS)) with false. cbn match. assert (Hin : in_tree v = true) by (unfold in_tree; rewrite Ht; by destruct (IsDirectory info)).
    step. left. exists v. split; [unfold known, seen; cbn; rewrite !elem_of_cons; tauto|]. rewrite Ht. destruct (IsDirectory info) eqn:Ed.
    + assert (Hd : is_dir v = true) by (unfold is_dir; by rewrite Ht). apply open_bind, wp_open_inserted; [done|split; [by rewrite Ht|by rewrite Ht]| |].
      * intros Hacc. eapply asks_wanted; [done|done|done| |done|by rewrite Hd]. rewrite Hfile by done. done.
      * intros st T Ha. by exists st.
    + assert (Hd : is_dir v = false) by (unfold is_dir; by rewrite Ht). assert (Hk : exists v, known (under (VFresh n v) None k (Some (ci_Id irp, rel))) n v) by (exists v; unfold known, seen; cbn; rewrite !elem_of_cons; tauto).
      step. split; [exists v; unfold known, seen; cbn; rewrite !elem_of_cons; tauto|]. intros m. step. split; [exists v; unfold known, seen; cbn; rewrite !elem_of_cons; tauto|]. apply open_bind, wp_open_inserted; [done|split; [by rewrite Ht|by rewrite Ht]| |].
      * intros Hacc. eapply asks_wanted; [done|done|done|done| |by rewrite Hd]. rewrite Hdir by done. done.
      * intros st T Ha. by exists st.
Qed.

Lemma wp_create_cold : wp (create_cold root params irp path info t) (under VIdle None k (Some (ci_Id irp, rel))) answered_some.
Proof using All.
  unfold create_cold. step. split; [done|]. split; [apply path_nonempty|]. split; [|apply wp_create_insert]. intros n v Hin Hco.
  assert (Hquiet : forall st, NT_SUCCESS st = false -> wp (Give (Some st)) (under (VSeen n v false) None k (Some (ci_Id irp, rel))) answered_some).
  { intros st Hn. destruct (not_success st Hn). exists st. split; [done|]. exact (answer_in irp k st (VSeen n v false) _ _ (fails irp st rel ltac:(done) ltac:(done)) eq_refl). }
  step. left. exists v. split; [unfold known, seen; cbn; rewrite !elem_of_cons; tauto|]. pose proof Hin as Hin'. unfold in_tree in Hin'. destruct (NodeTypeCode v) eqn:Et; try done.
  - destruct (flag _ FILE_DIRECTORY_FILE) eqn:Ef; [by apply Hquiet|]. apply open_bind, (wp_refresh _ _ n v); [right; right; left; by eexists|]. apply open_bind, wp_open_resident; [done|split; by rewrite Et| |].
    + intros Hacc. assert (Hd : is_dir v = false) by (unfold is_dir; by rewrite Et). eapply asks_wanted; [done|done|done|done| |by rewrite Hd]. by rewrite Ef.
    + intros st T Ha. by exists st.
  - destruct (flag _ FILE_NON_DIRECTORY_FILE) eqn:Ef; [by apply Hquiet|]. apply open_bind, wp_open_resident; [done|split; by rewrite Et| |].
    + intros Hacc. assert (Hd : is_dir v = true) by (unfold is_dir; by rewrite Et). eapply asks_wanted; [done|done|done| |done|by rewrite Hd]. by rewrite Ef.
    + intros st T Ha. by exists st.
Qed.
End Cold.

(** ** The rest of an open *)

Definition path_blocks (allocated : bool) : nat := if allocated then 1%nat else 0%nat.
Lemma wp_free_path allocated k Rf I Q : Q () (mkTok None None None None Rf None false k I None) -> wp (free_path allocated) (mkTok None None None None Rf None false (path_blocks allocated + k) I None) Q.
Proof. intros HQ. destruct allocated; cbn; [|done]. split; [lia|]. toks. by rewrite Nat.sub_0_r. Qed.
Lemma wp_free_fail allocated irp rel st : NT_SUCCESS st = false -> wp (free_path allocated;; Give st) (bare (path_blocks allocated) (Some (ci_Id irp, rel))) (answered irp 0).
Proof. intros Hs. apply open_bind. unfold bare. rewrite <- (Nat.add_0_r (path_blocks allocated)). apply wp_free_path. by apply wp_fail. Qed.
Lemma wp_free_answer allocated irp st T : answered irp (path_blocks allocated) st T -> wp (free_path allocated;; Give st) T (answered irp 0).
Proof. intros (Rf & I & Ha & ->). apply open_bind. rewrite <- (Nat.add_0_r (path_blocks allocated)). apply wp_free_path. cbn. by exists Rf, I. Qed.

Lemma wp_create_tree irp rel path allocated info t :
  ci_Stash irp = None -> asks_for irp rel path -> wp (create_tree root params irp path allocated info t) (bare (path_blocks allocated) (Some (ci_Id irp, rel))) (answered irp 0).
Proof.
  intros Hst Hasks. unfold create_tree. destruct (IsDirectory info && flag _ _) eqn:E1; [by apply wp_free_fail|]. destruct (negb (IsDirectory info) && flag _ _) eqn:E2; [by apply wp_free_fail|].
  step. split; [done|]. apply open_bind. eapply open_mono; [|apply (wp_create_cold irp rel path info t); [done|done| |]].
  - intros r T (st & -> & q & Rf & I & Ha & Hq & ->). step. exists q. split_and!; [done|done|]. apply (wp_free_answer allocated irp st). by exists Rf, I.
  - intros Hd. rewrite Hd in E1. exact E1.
  - intros Hd. rewrite Hd in E2. exact E2.
Qed.

Lemma wp_create_lookup irp rel path allocated :
  ci_Stash irp = None -> wp (create_lookup irp path allocated) (bare (path_blocks allocated) (Some (ci_Id irp, rel))) (answered irp 0).
Proof.
  intros Hst. assert (Hok : irp_ok irp) by (intros _; done). assert (Hpay : stash_blocks irp = 0%nat) by (unfold stash_blocks; by rewrite Hst). unfold create_lookup, bare. destruct (ci_InFsp irp); cbn [negb].
  - step. split; [|cbn [negb]; by apply wp_free_fail]. cbn [negb]. step. split; [|cbn [negb]; step; split; [lia|]; rewrite ?Nat.sub_0_r; by apply wp_free_fail].
    cbn [negb]. step. intros t. step. split; [by exists rel|]. split; [done|]. split; [done|]. split; [lia|]. split.
    + toks. rewrite ?Nat.sub_0_r. apply open_bind. replace (path_blocks allocated) with (path_blocks allocated + 0)%nat by lia. apply wp_free_path. rewrite Z.eqb_refl. cbn [negb]. give. eexists _, _. split; [apply pending|done].
    + toks. intros a Ha. destruct (not_success a Ha) as [H1 H2]. apply open_bind. replace (S (S (path_blocks allocated))) with (path_blocks allocated + 2)%nat by lia. apply wp_free_path. apply Z.eqb_neq in H2 as H2'. rewrite H2'. cbn [negb].
      apply open_bind. step. split; [lia|]. final. split; [lia|]. cbn. eexists _, _. split; [by apply (fails irp a rel)|done].
  - apply open_bind. replace (path_blocks allocated) with (path_blocks allocated + 0)%nat by lia. apply wp_free_path. final. split; [by exists rel|]. split; [done|]. split; [done|]. rewrite Hpay. split; [lia|]. split.
    + cbn. eexists _, _. split; [apply pending|done].
    + intros a Ha. destruct (not_success a Ha). cbn. eexists _, _. split; [by apply (fails irp a rel)|done].
Qed.

(** A resident node that was published. *)
Lemma wp_create_warm irp rel path k Q :
  ci_Stash irp = None -> asks_for irp rel path -> Q None (bare k (Some (ci_Id irp, rel))) -> (forall st T, answered irp k st T -> Q (Some st) T) ->
  wp (create_warm params irp path) (bare k (Some (ci_Id irp, rel))) Q.
Proof.
  intros Hst Hasks HN HS. unfold create_warm, bare. step. split; [done|]. split; [exact HN|]. intros n v Hin Hfo.
  assert (Hco : node_comps v = folded path) by (unfold node_comps, in_tree in *; destruct (NodeTypeCode v); try done; by apply folded_ext).
  assert (Hr : reached None (Some (n, v)) n v) by (right; by left).
  assert (Hun : forall st Rf I, answers_as irp st Rf I -> wp (BlorgNodeUnpin n;; Give (Some st)) (mkTok None None None (Some (n, v)) Rf None false k I None) Q).
  { intros st Rf I Ha. apply open_bind, wp_unpin; [done|]. cbn. apply HS. by exists Rf, I. }
  assert (Hfail : forall st, NT_SUCCESS st = false -> answers_as irp st None (Some (ci_Id irp, rel))) by (intros st Hs; destruct (not_success st Hs); by apply fails).
  assert (Hopen : forall fcb, opens_as fcb v -> (access_ok fcb irp = true -> wanted (ci_Id irp) rel v) -> wp (result ← open_node params fcb irp n; BlorgNodeUnpin n;; Give (Some result)) (mkTok None None None (Some (n, v)) None None false k (Some (ci_Id irp, rel)) None) Q).
  { intros fcb Hfcb Hw. apply open_bind, (wp_open_node fcb irp n v rel); [done|done|done|done| | |].
    - by eapply Hun, succeeds.
    - intros st V' Hl H1 H2. assert (V' = None) as -> by (destruct Hl as [->|(? & [=] & _)]; done). by apply Hun, fails.
    - intros V' Hl. assert (V' = None) as -> by (destruct Hl as [->|(? & [=] & _)]; done). apply Hun, pending. }
  step. left. exists v. split; [by apply known_reached|]. pose proof Hin as Hin'. unfold in_tree in Hin'. destruct (NodeTypeCode v) eqn:Et; try done.
  - apply open_bind, (wp_is_current _ _ n v); [done|]. intros current. destruct current; cbn [negb].
    + destruct (flag _ FILE_DIRECTORY_FILE) eqn:Ef; [give; by apply Hun, Hfail|]. apply Hopen; [split; by rewrite Et|]. intros Hacc. assert (Hd : is_dir v = false) by (unfold is_dir; by rewrite Et).
      eapply asks_wanted; [done|done|done|done| |by rewrite Hd]. by rewrite Ef.
    + apply open_bind, wp_unpin; [done|exact HN].
  - destruct (flag _ FILE_NON_DIRECTORY_FILE) eqn:Ef; [give; by apply Hun, Hfail|]. apply Hopen; [split; by rewrite Et|]. intros Hacc. assert (Hd : is_dir v = true) by (unfold is_dir; by rewrite Et).
    eapply asks_wanted; [done|done|done| |done|by rewrite Hd]. by rewrite Ef.
Qed.

Lemma wp_create_cached path T Q : (forall r, Q r T) -> wp (create_cached root path) T Q.
Proof.
  intros HQ. unfold create_cached. step. intros _. step. intros pc. destruct pc; try apply HQ. destruct (CreateSplitPathLeaf path) as [[parent leaf]|]; [|apply HQ]. apply open_bind.
  assert (Hrest : forall parent, wp (ticket ← make (AskOpen AskTicket); '(listing, ticket) ← make (AskOpen (AskListing parent leaf ticket));
      match listing with
      | None => Give Unknown
      | Some (Some m) => make (AskOpen (AskRemember path (Some m) ticket));; Give (Known m ticket)
      | Some None => make (AskOpen (AskRemember path None ticket));; Give Absent
      end) T Q).
  { intros parent'. step. intros ticket. step. intros [listing ticket']. destruct listing as [[m|]|]; [step; intros _; apply HQ|step; intros _; apply HQ|apply HQ]. }
  destruct (length parent =? 0)%nat; [|apply Hrest]. step. left. exists root_node. split; [left|]. apply Hrest.
Qed.

Lemma wp_create_path irp Q :
  (forall st rel, NT_SUCCESS st = false -> Q (Refused st) (bare 0 (Some (ci_Id irp, rel)))) ->
  (c_Related (prm params irp) = None -> c_FileName (prm params irp) = [] -> Q VolumeItself (bare 0 (Some (ci_Id irp, None)))) ->
  (forall p allocated rel, asked params (ci_Id irp) rel = Some p -> p <> [] -> Q (PathIs p allocated) (bare (path_blocks allocated) (Some (ci_Id irp, rel)))) ->
  wp (create_path params irp) (bare 0 (Some (ci_Id irp, None))) Q.
Proof.
  intros HR HV HP. unfold create_path. destruct (c_Related (prm params irp)) as [fo|] eqn:Er.
  - case_bool_decide; [by apply HR|]. unfold bare. step. exists (ci_Id irp), None. split_and!; [done|done|done|]. intros v. destruct (NodeTypeCode v) eqn:Et; try (by apply HR).
    + destruct (_ <? _); [by apply HR|]. step. split; [|by apply HR]. apply (HP _ true (Some v)); [unfold asked; fold (prm params irp); by rewrite Er|]. unfold join_path. intros Hz. destruct (ends_with_sep (FullPath v)) eqn:Ee; [|by destruct (FullPath v)]. destruct (FullPath v); [done|done].
    + destruct (_ <? _); [by apply HR|]. step. split; [|by apply HR]. apply (HP _ true (Some v)); [unfold asked; fold (prm params irp); by rewrite Er|]. unfold join_path. intros Hz. destruct (ends_with_sep (FullPath v)) eqn:Ee; [|by destruct (FullPath v)]. destruct (FullPath v); [done|done].
  - destruct (Nat.eqb_spec (length (c_FileName (prm params irp))) 0) as [E|E].
    + apply HV; [done|]. by destruct (c_FileName (prm params irp)).
    + apply (HP _ false None); [unfold asked; fold (prm params irp); by rewrite Er|]. intros Hz. by rewrite Hz in E.
Qed.

Lemma wp_create_at irp rel stash p allocated :
  ci_Stash irp = None -> asked params (ci_Id irp) rel = Some p -> p <> [] ->
  wp (create_at root params irp stash p allocated) (bare (path_blocks allocated) (Some (ci_Id irp, rel))) (answered irp 0).
Proof.
  intros Hst Ha Hp. unfold create_at. destruct (is_root_path (strip_separator p)) eqn:Er.
  - apply open_bind. unfold bare. rewrite <- (Nat.add_0_r (path_blocks allocated)). apply wp_free_path. destruct (flag _ FILE_NON_DIRECTORY_FILE) eqn:Ef; [by apply wp_fail|].
    apply (wp_open_node false irp root root_node rel); [done|by left|done| | | |].
    + intros Hacc. unfold wanted. rewrite bool_decide_false by done. exists p. split_and!; [done|done|unfold path_comps; by rewrite Er|]. split_and!; [by rewrite <- Ef; intros [=]|done|exact Hacc].
    + eexists _, _. split; [apply succeeds|done].
    + intros st V' Hl H1 H2. assert (V' = None) as -> by (destruct Hl as [->|(? & [=] & _)]; done). eexists _, _. split; [by apply (fails irp st rel)|done].
    + intros V' Hl. assert (V' = None) as -> by (destruct Hl as [->|(? & [=] & _)]; done). eexists _, _. split; [apply pending|done].
  - assert (Hasks : asks_for irp rel (strip_separator p)) by (exists p; by split_and!). apply open_bind, (wp_create_warm irp rel); [done|done| |intros st T; apply wp_free_answer].
    assert (Hk : forall known, wp match known with Absent => free_path allocated;; Give STATUS_OBJECT_NAME_NOT_FOUND | Unknown => create_lookup irp (strip_separator p) allocated | Known m t => create_tree root params irp (strip_separator p) allocated m t end
      (bare (path_blocks allocated) (Some (ci_Id irp, rel))) (answered irp 0)).
    { intros [| |m t]; [by apply wp_create_lookup|by apply wp_free_fail|by apply wp_create_tree]. }
    apply open_bind. destruct stash as [[m t]|]; [apply (Hk (Known m t))|]. apply wp_create_cached. exact Hk.
Qed.

(** [irp] as it was posted or arrived, with what its stash holds. *)
Definition tok_create (irp : CREATE_IRP) : TOK := bare (stash_blocks irp) (Some (ci_Id irp, None)).

Lemma wp_take_stash irp Q : irp_ok irp -> (forall r, Q r (bare 0 (Some (ci_Id irp, None)))) -> wp (take_stash irp) (tok_create irp) Q.
Proof.
  intros Hok HQ. unfold take_stash, tok_create, stash_blocks, irp_ok in *. destruct (ci_NetDone irp); cbn [negb].
  - destruct (ci_Stash irp); [|apply HQ]. unfold bare. step. split; [lia|]. apply HQ.
  - rewrite Hok by done. apply HQ.
Qed.

Lemma wp_volume_create irp : irp_ok irp -> wp (BlorgVolumeCreate root vcb params irp) (tok_create irp) (answered irp 0).
Proof.
  intros Hok. unfold BlorgVolumeCreate. apply open_bind, wp_take_stash; [done|]. intros stash. set (irp' := mkCreateIrp (ci_Id irp) false (ci_InFsp irp) None). destruct (_ && _); [by apply (wp_fail irp')|].
  apply open_bind, (wp_create_path irp').
  - intros st rel Hs. by apply (wp_fail irp').
  - intros Hr Hn. by apply (wp_open_vcb irp').
  - intros p allocated rel Ha Hp. by apply (wp_create_at irp').
Qed.

(** A create that is answered is completed, and one that is pending is not. *)
Lemma wp_create_finish irp irp' st T : ci_Id irp' = ci_Id irp -> answered irp 0 st T -> wp (if negb (st =? STATUS_PENDING) then make (CompleteCreate irp' st) else Give ()) T ends.
Proof.
  intros Hid (Rf & I & Ha & ->). destruct Ha as [(-> & (n & v & ->) & rel & ->)|[(-> & -> & ->)|(H1 & H2 & -> & rel & ->)]].
  - change (negb (STATUS_SUCCESS =? STATUS_PENDING)) with true. cbn match. final. split; [exists rel; by rewrite Hid|]. split; [done|]. split; [done|]. split; [done|]. done.
  - rewrite Z.eqb_refl. done.
  - apply Z.eqb_neq in H2 as H2'. rewrite H2'. cbn [negb]. final. split; [exists rel; by rewrite Hid|]. split; [done|]. split; [by split|]. by split.
Qed.

Lemma wp_create irp : irp_ok irp -> wp (BlorgCreate root vcb params VolumeDevice irp) (tok_create irp) ends.
Proof. intros Hok. unfold BlorgCreate. apply open_bind. eapply open_mono; [|by apply wp_volume_create]. intros st T. by apply wp_create_finish. Qed.
Lemma wp_fsp_create irp : irp_ok irp -> wp (fsp_create root vcb params irp) (tok_create irp) ends.
Proof. intros Hok. unfold fsp_create. apply open_bind. eapply open_mono; [|by apply (wp_volume_create (mkCreateIrp (ci_Id irp) (ci_NetDone irp) true (ci_Stash irp)))]. intros st T. by apply wp_create_finish. Qed.
Lemma wp_canceled irp : irp_ok irp -> wp (FspCsqCompleteCanceledIrp irp) (tok_create irp) ends.
Proof.
  intros Hok. unfold FspCsqCompleteCanceledIrp, FspDiscardPendingIrpContext. apply open_bind, open_bind, wp_take_stash; [done|]. intros stash. cbn. apply (wp_create_finish irp irp STATUS_CANCELLED); [done|]. eexists _, _. split; [by apply (fails irp _ None)|done].
Qed.
Lemma wp_oplock_complete irp st : ci_Stash irp = None -> wp (BlorgOplockComplete irp st) (bare 0 (Some (ci_Id irp, None))) ends.
Proof.
  intros Hst. unfold BlorgOplockComplete.
  assert (Hdone : forall s, s = STATUS_DEVICE_REMOVED \/ NT_SUCCESS s = false -> wp (make (CompleteCreate irp s)) (bare 0 (Some (ci_Id irp, None))) ends).
  { intros s Hs. assert (s <> STATUS_SUCCESS) by (destruct Hs as [->|Hs]; [done|]; by destruct (not_success s Hs)). unfold bare. final. split; [by exists None|]. split; [done|]. split; [by split|]. by split. }
  assert (Hend : wp (make (CompleteCreate irp (if NT_SUCCESS st then STATUS_DEVICE_REMOVED else st))) (bare 0 (Some (ci_Id irp, None))) ends) by (apply Hdone; destruct (NT_SUCCESS st) eqn:E; [by left|by right]).
  apply open_bind. destruct (st =? STATUS_SUCCESS); [|exact Hend]. unfold bare in *. final. split; [by exists None|]. split; [done|]. split; [intros _; done|]. unfold stash_blocks. rewrite Hst. split; [lia|]. split; [done|exact Hend].
Qed.
Lemma wp_create_complete irp path t st info : ci_Stash irp = None -> wp (CreateComplete irp path t st info) (bare 2 (Some (ci_Id irp, None))) ends.
Proof.
  intros Hst. unfold CreateComplete, bare.
  assert (Hdone : forall s, NT_SUCCESS s = false -> wp (make FreeBlock;; make FreeBlock;; make (CompleteCreate irp s)) (bare 2 (Some (ci_Id irp, None))) ends).
  { intros s Hs. destruct (not_success s Hs). unfold bare. step. split; [lia|]. step. split; [lia|]. final. split; [by exists None|]. split; [done|]. split; [by split|]. by split. }
  destruct (NT_SUCCESS st) eqn:E; cbn [negb].
  - step. intros _. step. split; [|cbn [negb]; by apply Hdone]. cbn [negb]. step. split; [by exists None|]. split; [done|]. split; [by intros [=]|]. split; [cbn; lia|]. split.
    + toks. cbn [stash_blocks ci_Stash Nat.sub]. step. split; [lia|]. step. split; [lia|]. cbn. done.
    + step. split; [lia|]. step. split; [lia|]. change (negb (STATUS_DEVICE_REMOVED =? STATUS_PENDING)) with true. cbn match. step. split; [lia|]. final. split; [by exists None|]. split; [done|]. split; [by split|]. by split.
  - apply open_bind. destruct (st =? STATUS_OBJECT_NAME_NOT_FOUND); [final; intros _|]; by apply Hdone.
Qed.

(** ** Cleanups and closes *)

Definition tok_cleanup (n : Z) (v : NODE) : TOK :=
  mkTok None None None None (Some (n, v, false)) (if bool_decide (NodeTypeCode v = FcbSignature) then Some n else None) (negb (bool_decide (NodeTypeCode v = VcbSignature))) 0 None None.
Definition tok_close (n : Z) (v : NODE) : TOK := mkTok None None None None (Some (n, v, false)) None (negb (bool_decide (NodeTypeCode v = VcbSignature))) 0 None None.

Lemma known_ref V R B P b U C k I G n v : known (mkTok V R B P (Some (n, v, b)) U C k I G) n v.
Proof. unfold known, seen. cbn. rewrite !elem_of_cons, !elem_of_app, !list_elem_of_singleton. tauto. Qed.

Lemma wp_cleanup_volume fo n v : wp (CleanupVolume fo n) (tok_cleanup n v) ends.
Proof.
  unfold CleanupVolume, tok_cleanup. step. left. exists v. split; [apply known_ref|]. apply open_bind.
  assert (Hfin : wp (make (FinishCleanup fo n)) (tok_close n v) ends) by (unfold tok_close; final; exists v; by split_and!).
  assert (Hres : wp (make (AskNode n AskCleanup);; make (ReleaseResource n)) (mkTok None (Some n) None None (Some (n, v, false)) None (negb (bool_decide (NodeTypeCode v = VcbSignature))) 0 None None) (fun _ T => wp (make (FinishCleanup fo n)) T ends)).
  { step. split; [exists v; apply known_ref|]. intros _ _. final. split_and!; [done|exists v; apply known_ref|exact Hfin]. }
  destruct (NodeTypeCode v) eqn:Et.
  - step. split_and!; [done|done|exists v; apply known_ref|]. apply open_bind. final. split_and!; [done|exists v; apply known_ref|]. exact Hres.
  - step. split_and!; [done|done|exists v; apply known_ref|]. give. exact Hres.
  - step. split_and!; [done|done|exists v; apply known_ref|]. give. exact Hres.
  - step. split; [done|]. step. split; [exists v; apply known_ref|]. intros _ _. final. exists VIdle. split_and!; [done|done|]. exists v. by rewrite Et.
Qed.
Lemma wp_close n v : wp (CloseVolume n) (tok_close n v) ends.
Proof.
  unfold CloseVolume, tok_close. step. left. exists v. split; [apply known_ref|]. destruct (NodeTypeCode v) eqn:Et.
  - step. split; [done|]. apply wp_dereference; [unfold in_tree; by rewrite Et|done].
  - step. split; [done|]. apply wp_dereference; [unfold in_tree; by rewrite Et|done].
  - step. split; [done|]. final. exists v. split_and!; [done|unfold in_tree; by rewrite Et|done|done|done].
  - final. exists v. split_and!; [done|unfold in_tree; by rewrite Et|done|done|done].
Qed.
End Create.
