(* ===== verification/OpensRun.v ===== *)
(** * The handlers together

    Every call keeps the invariant, a new handler starts with what its event
    hands it, and so the invariant holds in every reachable state. *)

From S2P Require Import Prelude UnicodePath PathCache ClientText Nodes NodesTree Opens OpensSystem OpensTokens OpensInvariant OpensCalls OpensCallsCounts OpensCallsTable OpensCreate.

Section Run.
Context {nls : Nls} (root vcb : Z) (params : Z -> CREATE_PARAMS).
Abbreviation inv := (inv root vcb params).
Abbreviation wp := (wp root vcb params).

Lemma call_sound c : sound root vcb params c.
Proof.
  destruct c; auto using sound_AskOpen, sound_AskNode, sound_ReadNode, sound_ReadRelated, sound_AcquireVcb, sound_ReleaseVcb, sound_AcquireResource, sound_ReleaseResource, sound_AcquireBucket,
    sound_ReleaseBucket, sound_LookupPin, sound_DropPin, sound_DropRef, sound_CloseRef, sound_OpenRef, sound_UndoRef, sound_ReadRefCount, sound_ReadPinCount, sound_MarkUnclean, sound_UnmarkUnclean,
    sound_ClaimReap, sound_PushReap, sound_KickReap, sound_QueueReap, sound_TakeReapList, sound_ClearQueued, sound_RetireNode, sound_PublishNode, sound_JudgeNode, sound_SearchPath, sound_SearchName,
    sound_CreateFcbIn, sound_CreateDcbIn, sound_ChildrenEmpty, sound_FreeNode, sound_ReadMeta, sound_WriteMeta, sound_AllocateCcb, sound_FreeCcb, sound_AllocateBlock, sound_FreeBlock, sound_FreeStash,
    sound_CheckOplock, sound_SetFileObject, sound_PostCreate, sound_RequeueCreate, sound_IssueLookup, sound_CompleteCreate, sound_FinishCleanup.
Qed.

(** ** A handler comes and goes *)

Lemma inv_exit w F arrived : inv w (tok0 :: F) arrived -> inv w F arrived.
Proof.
  intros Hi. keeps Hi.
  - exact (proj2 (i_marked _ _ _ _ _ _ Hi)).
  - exact (proj2 (i_seen _ _ _ _ _ _ Hi)).
  - exact (proj2 (i_tests _ _ _ _ _ _ Hi)).
  - intros n v c Hv Ht Hch Hc Hp Hr Ho. destruct (i_idle _ _ _ _ _ _ Hi n v c Hv Ht Hch Hc Hp Hr Ho) as [[[]|[]]|H]. exact H.
  - exact (proj2 (i_trees _ _ _ _ _ _ Hi)).
  - destruct (i_kick _ _ _ _ _ _ Hi) as [Hs Hk]. split; [done|]. intros Hne. destruct (Hk Hne) as [?|[[=]|?]]; [by left|by right].
  - destruct (i_opened _ _ _ _ _ _ Hi) as [[_ Ha] Ho]. split; [done|]. intros i n Hin. destruct (Ho i n Hin) as [(? & ? & [=] & _)|H]. exact H.
  - exact (proj2 (i_related _ _ _ _ _ _ Hi)).
Qed.
Lemma inv_enter w F arrived : inv w F arrived -> inv w (tok0 :: F) arrived.
Proof.
  intros Hi. keeps Hi.
  - split; [done|exact (i_marked _ _ _ _ _ _ Hi)].
  - split; [done|exact (i_seen _ _ _ _ _ _ Hi)].
  - split; [done|exact (i_tests _ _ _ _ _ _ Hi)].
  - intros n v c Hv Ht Hch Hc Hp Hr Ho. right. exact (i_idle _ _ _ _ _ _ Hi n v c Hv Ht Hch Hc Hp Hr Ho).
  - split; [done|exact (i_trees _ _ _ _ _ _ Hi)].
  - destruct (i_kick _ _ _ _ _ _ Hi) as [Hs Hk]. split; [done|]. intros Hne. destruct (Hk Hne) as [?|?]; [by left|right; by right].
  - destruct (i_opened _ _ _ _ _ _ Hi) as [Ha Ho]. split; [by split|]. intros i n Hin. right. by apply Ho.
  - split; [done|exact (i_related _ _ _ _ _ _ Hi)].
Qed.

Lemma start_worker w F arrived : inv w F arrived -> 0 < WorkItems (NodeReap (w_Store w)) -> inv (put_store w (reap_queue (w_Store w) (-1))) (tok_worker :: F) arrived.
Proof.
  intros Hi%inv_enter Hw. keeps Hi.
  - eapply kick_change; [exact (i_kick _ _ _ _ _ _ Hi)|by left|done..].
  - destruct (i_gate _ _ _ _ _ _ Hi) as [_ Hq]. split; [cbn; lia|]. cbn in *. lia.
Qed.

(** An IRP is taken up from where it was, with its blocks. *)
Lemma start_irp w F arrived arrived' i k posted looking parked :
  inv w F arrived ->
  (forall j, (cnt j (ci_Id <$> posted) + cnt j (ci_Id ∘ looking_irp <$> looking) + cnt j (ci_Id <$> parked) + hit i j + cnt j arrived)%nat =
    (cnt j (ci_Id <$> w_Posted w) + cnt j (ci_Id ∘ looking_irp <$> w_Looking w) + cnt j (ci_Id <$> w_Parked w) + cnt j arrived')%nat) ->
  (forall j, cnt j arrived' <= 1)%nat -> f_queued posted looking parked ->
  (total stash_blocks posted + 2 * length looking + k = total stash_blocks (w_Posted w) + 2 * length (w_Looking w))%nat ->
  f_open params (w_Handles w) (w_Done w) arrived' ->
  inv (put_parked (put_looking (put_posted w posted) looking) parked) (bare k (Some (i, None)) :: F) arrived'.
Proof.
  intros Hi%inv_enter Hc Hd Hq Hb Ho. keeps Hi; try done.
  - pose proof (i_blocks _ _ _ _ _ _ Hi) as H. unfold f_blocks in *. cbn in *. lia.
  - intros j. pose proof (i_irps _ _ _ _ _ _ Hi j) as [H1 _]. specialize (Hc j). split; [|apply Hd]. cbn [put_parked put_looking put_posted w_Posted w_Looking w_Parked w_Done]. cbn [sum_list_with] in *. unfold irp_at at 1 in H1. unfold irp_at at 1. cbn in *. lia.
  - destruct (i_opened _ _ _ _ _ _ Hi) as [[_ Ha] Hop]. split; [by split|]. intros j n Hin. destruct (Hop j n Hin) as [(? & ? & [=] & _)|H]. by right.
Qed.

(** ** A handle is cleaned up or closed *)

Lemma hit_le_one_irp w T F arrived U i rel : inv w (T :: F) arrived -> U ∈ T :: F -> k_Irp U = Some (i, rel) -> i ∈ arrived /\ i ∉ (w_Done w).*1.
Proof.
  intros Hi HU HI. pose proof (i_irps _ _ _ _ _ _ Hi i) as [H1 H2]. pose proof (sum_list_with_in U (irp_at i) (T :: F) HU) as H3. rewrite (irp_at_self _ _ _ HI) in H3. split; [apply cnt_elem; lia|]. rewrite cnt_elem. lia.
Qed.

Lemma start_handle w F arrived l1 h l2 v T :
  inv w F arrived -> w_Handles w = l1 ++ h :: l2 -> unrelated params w arrived (hd_File h) -> is_at (Nodes (w_Store w)) (hd_Node h) v ->
  T = (if hd_Clean h then tok_close (hd_Node h) v else tok_cleanup (hd_Node h) v) -> inv (put_handles w (l1 ++ l2) (w_Opened w)) (T :: F) arrived.
Proof.
  intros Hi%inv_enter Hh Hun Hv HT. assert (HR : k_Ref T = Some (hd_Node h, v, false)) by (rewrite HT; by destruct (hd_Clean h)). pose proof (vcb_type _ _ _ _ _ _ _ _ Hi Hv) as Hvt.
  assert (HC : k_Ccb T = negb (hd_Node h =? vcb)) by (rewrite HT, Hvt; by destruct (hd_Clean h)).
  assert (HU : k_Unclean T = if hd_Clean h then None else if bool_decide (NodeTypeCode v = FcbSignature) then Some (hd_Node h) else None) by (rewrite HT; by destruct (hd_Clean h)).
  assert (HV : k_Vcb T = None /\ k_Res T = None /\ k_Bucket T = None /\ k_Pin T = None /\ k_Blocks T = 0%nat /\ k_Irp T = None /\ k_Gate T = None) by (rewrite HT; by destruct (hd_Clean h)).
  clear HT. assert (Hkeep : forall h', h' ∈ w_Handles w -> hd_File h' <> hd_File h -> h' ∈ l1 ++ l2) by (intros h' Hin Hne; rewrite Hh, elem_of_app, elem_of_cons in Hin; rewrite elem_of_app; destruct Hin as [?|[->|?]]; tauto).
  destruct T; cbn in HR, HC, HU, HV. destruct HV as (-> & -> & -> & -> & -> & -> & ->). subst. keeps Hi.
  - intros m. pose proof (i_refs _ _ _ _ _ _ Hi m) as H. rewrite Hh, total_middle in H. tok. lia.
  - intros m u Hm Hf. cbn in Hm. pose proof (i_unclean _ _ _ _ _ _ Hi m u Hm Hf) as H. rewrite Hh, total_middle in H. tok. destruct (hd_Clean h); [exact H|]. destruct (bool_decide (NodeTypeCode v = FcbSignature)) eqn:Eb; cbn; [lia|]. apply bool_decide_eq_false in Eb.
    rewrite hit_other in H; [lia|]. intros E. subst m. by rewrite (is_at_same _ _ _ _ Hm Hv) in Hf.
  - split; [|exact (proj2 (i_marked _ _ _ _ _ _ Hi))]. cbn. destruct (hd_Clean h); [done|]. by destruct (bool_decide (NodeTypeCode v = FcbSignature)).
  - split; [|exact (proj2 (i_seen _ _ _ _ _ _ Hi))]. cbn. by split.
  - refine (trees_moved _ _ _ w tok0 _ arrived _ _ Hi _ _ _); [done|done|]. intros m. rewrite Hh, total_middle. split_and!; [done|done|]. unfold ref_at, handle_at. cbn. lia.
  - pose proof (i_pool _ _ _ _ _ _ Hi) as H. unfold f_pool in *. cbn [put_handles w_Store w_Handles]. rewrite H, Hh, total_middle. f_equal. f_equal. tok. unfold hit. destruct (hd_Node h =? vcb); cbn; lia.
  - eapply opened_plain; [| |exact (i_opened _ _ _ _ _ _ Hi)]; done.
  - destruct (i_related _ _ _ _ _ _ Hi) as [_ HF]. split; [done|]. eapply all_mono, HF. intros U HU'. cbn. destruct (k_Irp U) as [[i [u|]]|] eqn:EI; [|done|done]. intros (fo & h' & Hfo & Hin & Hfile & Hat).
    destruct (hit_le_one_irp _ _ _ _ U i _ Hi ltac:(by right) EI) as [Hia Hid]. exists fo, h'. split_and!; [done| |done|done]. apply Hkeep; [done|]. intros E. apply (Hun i); [by split|]. congruence.
  - intros i fo Hia Hid Hfo. cbn. pose proof (i_open _ _ _ _ _ _ Hi i fo Hia Hid Hfo) as Hin. apply list_elem_of_fmap in Hin as (h' & -> & Hin). apply list_elem_of_fmap. exists h'. split; [done|]. apply Hkeep; [done|]. intros E. apply (Hun i); [by split|]. congruence.
Qed.

(** ** The invariant of the system *)

Definition opens_inv (o : OPENS) : Prop := exists F, Forall2 (fun t T => wp t T ends) (os_Threads o) F /\ inv (os_World o) F (os_Arrived o).

Lemma handle_node w F arrived h : inv w F arrived -> h ∈ w_Handles w -> exists v, is_at (Nodes (w_Store w)) (hd_Node h) v.
Proof.
  intros Hi Hh. pose proof (i_refs _ _ _ _ _ _ Hi (hd_Node h)) as H. pose proof (sum_list_with_in h (handle_at (hd_Node h)) _ Hh) as H1. unfold handle_at at 1 in H1. rewrite hit_same in H1. unfold tally in H.
  destruct (Counters (w_Store w) !! hd_Node h) as [c|] eqn:Ec; [|lia]. destruct (proj2 (i_dom _ _ _ _ _ _ Hi (hd_Node h)) ltac:(by eexists)) as [node Hn]. exists (view node). by apply at_is.
Qed.

Lemma threads_middle l1 (t : act ()) l2 F :
  Forall2 (fun t T => wp t T ends) (l1 ++ t :: l2) F -> exists F1 T F2, F = F1 ++ T :: F2 /\ Forall2 (fun t T => wp t T ends) l1 F1 /\ wp t T ends /\ Forall2 (fun t T => wp t T ends) l2 F2.
Proof. intros (F1 & F2 & H1 & H2 & ->)%Forall2_app_inv_l. apply Forall2_cons_inv_l in H2 as (T & F2' & Ht & H2 & ->). by exists F1, T, F2'. Qed.
Lemma inv_middle w F1 T F2 arrived : inv w (F1 ++ T :: F2) arrived <-> inv w (T :: F1 ++ F2) arrived.
Proof. split; apply inv_perm; [symmetry|]; apply Permutation_middle. Qed.

Lemma driver_keeps o o' : within_limits o -> opens_inv o -> opens_driver root vcb params o o' -> opens_inv o'.
Proof.
  intros Hl (F & HF & Hi) Hs. destruct Hs as [w c k a w' l1 l2 arrived Hs|w l1 l2 arrived|w threads arrived Hw|w l1 irp l2 threads arrived Hp|w l1 irp l2 threads arrived Hp|w l1 irp p t l2 st info threads arrived Hp]; cbn in *.
  - apply threads_middle in HF as (F1 & T & F2 & -> & H1 & Ht & H2). apply inv_middle in Hi. assert (Hlim : limit w (T :: F1 ++ F2)).
    { unfold limit, within_limits in *. cbn in *. rewrite length_app in *. cbn in Hl. rewrite (Forall2_length _ _ _ H1), (Forall2_length _ _ _ H2) in Hl. lia. }
    destruct (call_sound c w T (F1 ++ F2) arrived a w' (fun a T => wp (k a) T ends) Hlim Hi Ht Hs) as (T' & HK & Hi').
    exists (F1 ++ T' :: F2). split; [apply Forall2_app; [done|by constructor]|]. by apply inv_middle.
  - apply threads_middle in HF as (F1 & T & F2 & -> & H1 & Ht & H2). apply inv_middle in Hi. cbn in Ht. unfold ends in Ht. subst T. exists (F1 ++ F2). split; [by apply Forall2_app|]. exact (inv_exit _ _ _ Hi).
  - exists (tok_worker :: F). split; [constructor; [apply wp_worker|done]|]. by apply start_worker.
  - destruct (i_queued _ _ _ _ _ _ Hi) as (Q1 & Q2 & Q3). rewrite Hp in Q1. apply Forall_app in Q1 as [Q1 Q1']. apply Forall_cons in Q1' as [Hok Q1']. exists (tok_create irp :: F). split; [constructor; [by apply wp_fsp_create|done]|].
    refine (start_irp w F arrived arrived _ _ (l1 ++ l2) (w_Looking w) (w_Parked w) Hi _ _ _ _ _).
    + intros j. rewrite Hp, !fmap_app, fmap_cons, !cnt_app, cnt_cons. lia.
    + intros j. apply (i_irps _ _ _ _ _ _ Hi j).
    + split_and!; [by apply Forall_app|done|done].
    + rewrite Hp, total_middle. lia.
    + exact (i_open _ _ _ _ _ _ Hi).
  - destruct (i_queued _ _ _ _ _ _ Hi) as (Q1 & Q2 & Q3). rewrite Hp in Q1. apply Forall_app in Q1 as [Q1 Q1']. apply Forall_cons in Q1' as [Hok Q1']. exists (tok_create irp :: F). split; [constructor; [by apply wp_canceled|done]|].
    refine (start_irp w F arrived arrived _ _ (l1 ++ l2) (w_Looking w) (w_Parked w) Hi _ _ _ _ _).
    + intros j. rewrite Hp, !fmap_app, fmap_cons, !cnt_app, cnt_cons. lia.
    + intros j. apply (i_irps _ _ _ _ _ _ Hi j).
    + split_and!; [by apply Forall_app|done|done].
    + rewrite Hp, total_middle. lia.
    + exact (i_open _ _ _ _ _ _ Hi).
  - destruct (i_queued _ _ _ _ _ _ Hi) as (Q1 & Q2 & Q3). rewrite Hp in Q2. apply Forall_app in Q2 as [Q2 Q2']. apply Forall_cons in Q2' as [Hst Q2']. exists (bare 2 (Some (ci_Id irp, None)) :: F). split; [constructor; [by apply wp_create_complete|done]|].
    refine (start_irp w F arrived arrived _ _ (w_Posted w) (l1 ++ l2) (w_Parked w) Hi _ _ _ _ _).
    + intros j. rewrite Hp, !fmap_app, fmap_cons, !cnt_app, cnt_cons. cbn. lia.
    + intros j. apply (i_irps _ _ _ _ _ _ Hi j).
    + split_and!; [done|by apply Forall_app|done].
    + rewrite Hp, !length_app. cbn. lia.
    + exact (i_open _ _ _ _ _ _ Hi).
Qed.

Lemma outside_keeps o o' : opens_inv o -> opens_outside root vcb params o o' -> opens_inv o'.
Proof.
  intros (F & HF & Hi) Hs. destruct Hs as [w threads arrived i Hni Hrel|w l1 fo n l2 threads arrived Hh Hun|w l1 fo n l2 threads arrived Hh Hun|w l1 irp l2 st threads arrived Hp]; cbn in *.
  - exists (bare 0 (Some (i, None)) :: F). split; [constructor; [by apply (wp_create root vcb params (mkCreateIrp i false false None))|done]|]. apply cnt_zero in Hni.
    assert (Ew : w = put_parked (put_looking (put_posted w (w_Posted w)) (w_Looking w)) (w_Parked w)) by (by destruct w). rewrite Ew.
    refine (start_irp w F arrived (i :: arrived) i 0 (w_Posted w) (w_Looking w) (w_Parked w) Hi _ _ _ _ _).
    + intros j. rewrite cnt_cons. lia.
    + intros j. pose proof (i_irps _ _ _ _ _ _ Hi j) as [_ H]. rewrite cnt_cons. destruct (decide (i = j)) as [<-|Hne]; [rewrite hit_same; lia|rewrite hit_other by done; lia].
    + exact (i_queued _ _ _ _ _ _ Hi).
    + lia.
    + intros j fo [->|Hj]%elem_of_cons Hd Hr; [by apply Hrel|]. by eapply (i_open _ _ _ _ _ _ Hi).
  - destruct (handle_node _ _ _ (mkHandle fo n false) Hi ltac:(rewrite Hh; apply elem_of_app; right; left)) as (v & Hv). exists (tok_cleanup n v :: F). split; [constructor; [apply wp_cleanup_volume|done]|]. by apply (start_handle w F arrived l1 (mkHandle fo n false) l2 v).
  - destruct (handle_node _ _ _ (mkHandle fo n true) Hi ltac:(rewrite Hh; apply elem_of_app; right; left)) as (v & Hv). exists (tok_close n v :: F). split; [constructor; [apply wp_close|done]|]. by apply (start_handle w F arrived l1 (mkHandle fo n true) l2 v).
  - destruct (i_queued _ _ _ _ _ _ Hi) as (Q1 & Q2 & Q3). rewrite Hp in Q3. apply Forall_app in Q3 as [Q3 Q3']. apply Forall_cons in Q3' as [Hst Q3']. exists (bare 0 (Some (ci_Id irp, None)) :: F). split; [constructor; [by apply wp_oplock_complete|done]|].
    refine (start_irp w F arrived arrived _ _ (w_Posted w) (w_Looking w) (l1 ++ l2) Hi _ _ _ _ _).
    + intros j. rewrite Hp, !fmap_app, fmap_cons, !cnt_app, cnt_cons. lia.
    + intros j. apply (i_irps _ _ _ _ _ _ Hi j).
    + split_and!; [done|done|by apply Forall_app].
    + lia.
    + exact (i_open _ _ _ _ _ _ Hi).
Qed.

(** ** The start *)

Lemma opens_initial_inv : root <> vcb -> opens_inv (opens_initial root vcb).
Proof.
  intros Hne. set (nodes0 := {[ root := root_node; vcb := vcb_node ]} : gmap Z NODE). set (cs0 := {[ root := counters_zero; vcb := counters_zero ]} : gmap Z COUNTERS).
  assert (Hnodes : forall n x, nodes0 !! n = Some x -> (n = root /\ x = root_node) \/ (n = vcb /\ x = vcb_node)).
  { intros n x Hx. unfold nodes0 in Hx. apply lookup_insert_Some in Hx as [[<- <-]|[_ Hx]]; [by left|]. apply lookup_singleton_Some in Hx as [<- <-]. by right. }
  assert (Hcs : forall n c, cs0 !! n = Some c -> c = counters_zero) by (intros n x Hx; unfold cs0 in Hx; apply lookup_insert_Some in Hx as [[<- <-]|[_ Hx]]; [done|]; by apply lookup_singleton_Some in Hx as [_ <-]).
  assert (Hroot : nodes0 !! root = Some root_node) by apply lookup_insert_eq. assert (Hvcb : nodes0 !! vcb = Some vcb_node) by (unfold nodes0; rewrite lookup_insert_ne by done; apply lookup_singleton_eq).
  assert (Hout : forall n x, nodes0 !! n = Some x -> in_tree x = false /\ ChildrenList x = []) by (intros n x [[_ ->]|[_ ->]]%Hnodes; done).
  assert (Hat : forall n v, is_at nodes0 n v -> in_tree v = false) by (intros n v (x & Hx & <-)%is_at_node; by apply (Hout n x)).
  assert (Htal : forall q n, q counters_zero = 0 -> tally q n cs0 = 0) by (intros q n Hq; unfold tally; destruct (cs0 !! n) as [c|] eqn:E; [by rewrite (Hcs n c E)|done]).
  exists []. split; [constructor|]. split; cbn [opens_initial os_World os_Arrived w_Store w_Handles w_Vcb w_Resources w_Buckets w_Blocks w_Opened w_Posted w_Looking w_Parked w_Done Nodes Counters NodeTable NodeChildren NodeReap Pool]; fold nodes0; fold cs0.
  - split.
    + by exists root_node.
    + by exists vcb_node.
    + intros a n Hn _. destruct (Hnodes a n Hn) as [[-> _]|[-> _]]; [by left|by right].
    + intros a n Hn Hin. destruct (Hout a n Hn). congruence.
    + intros a n c Hn Hc. destruct (Hout a n Hn) as [_ E]. rewrite E in Hc. by apply elem_of_nil in Hc.
    + intros a n Hn. destruct (Hout a n Hn) as [_ ->]. constructor.
    + intros a n Hn Hin. destruct (Hout a n Hn). congruence.
    + intros a b l ->%rd_replicate. split; [by intros ?%elem_of_nil|]. intros (n & Hn & Hin & _). destruct (Hout a n Hn). congruence.
    + intros b l ->%rd_replicate. constructor.
    + by rewrite length_replicate.
    + intros a b m n Hm Hn Hin. destruct (Hout a m Hm). congruence.
  - split; unfold is_at; by rewrite ?Hroot, ?Hvcb.
  - intros n. unfold nodes0, cs0. split; intros [x Hx]; apply lookup_insert_Some in Hx as [[<- _]|[Hx0 Hx]]; rewrite ?lookup_insert_eq; try (by eexists); apply lookup_singleton_Some in Hx as [<- _]; rewrite lookup_insert_ne by done; rewrite lookup_singleton_eq; by eexists.
  - intros n. by rewrite Htal.
  - intros n. by rewrite Htal.
  - intros n v Hv. apply Hat in Hv. intros Hf. unfold in_tree in Hv. by rewrite Hf in Hv.
  - done.
  - intros n. by rewrite Htal.
  - intros n v c _ ->%Hcs. done.
  - done.
  - done.
  - split_and!; [by rewrite length_replicate|intros n v c _ ->%Hcs; done|]. intros b l ->%rd_replicate. split; [constructor|]. intros n. split; [by intros ?%elem_of_nil|]. intros (v & c & _ & ->%Hcs & [=] & _).
  - intros n v c Hv Hin. apply Hat in Hv. congruence.
  - done.
  - by split.
  - by split.
  - done.
  - intros n. split; [done|]. cbn. lia.
  - done.
  - unfold f_pool, nodes0. rewrite pool_of_insert by (by apply lookup_singleton_ne). rewrite <- insert_empty, pool_of_insert by apply lookup_empty. unfold pool_of. rewrite map_fold_empty. done.
  - done.
  - intros i. split; [done|]. cbn. lia.
  - split_and!; constructor.
  - split; [done|]. intros i n Hin. by rewrite lookup_empty in Hin.
  - done.
  - intros i fo Hin. by apply elem_of_nil in Hin.
Qed.

Lemma opens_reachable_inv o : root <> vcb -> opens_reachable root vcb params o -> opens_inv o /\ within_limits o.
Proof.
  intros Hne. unfold opens_reachable. revert o. apply (rtc_ind_r (fun o => opens_inv o /\ within_limits o)); [by split; [apply opens_initial_inv|]|].
  intros o o' _ [Hs Hl] [IH Hlim]. split; [|done]. destruct Hs; [by eapply driver_keeps|by eapply outside_keeps].
Qed.
End Run.

(** * No handler touches what is gone, and none is stuck

    A handler whose next call has no step is waiting for a lock, and somebody
    else can move. *)
(** What a call may wait for. *)
Definition waits (w : WORLD) (c : OPEN_CALL) : Prop :=
  match c with
  | AcquireVcb => w_Vcb w = true
  | AcquireResource n => n ∈ w_Resources w
  | RetireNode n | PublishNode n | JudgeNode n => exists node, Nodes (w_Store w) !! n = Some node /\ TableBucketIndex node ∈ w_Buckets w
  | _ => False
  end.

Section Progress.
Context {nls : Nls} (root vcb : Z) (params : Z -> CREATE_PARAMS).
Abbreviation inv := (inv root vcb params).
Abbreviation open_step := (open_step root).
Abbreviation call_pre := (call_pre root vcb params).
Context (w : WORLD) (T : TOK) (F : list TOK) (arrived : list Z) (Hi : inv w (T :: F) arrived).

Definition enabled (c : OPEN_CALL) : Prop := exists a w', open_step w c a w'.

Lemma at_live n v : is_at (Nodes (w_Store w)) n v -> exists node c, Nodes (w_Store w) !! n = Some node /\ view node = v /\ Counters (w_Store w) !! n = Some c.
Proof using All.
  intros (node & Hn & Hv)%is_at_node. destruct (proj1 (i_dom _ _ _ _ _ _ Hi n) ltac:(by eexists)) as [c Hc]. by exists node, c.
Qed.
Lemma known_live n : (exists v, known root vcb T n v) -> node_at w n.
Proof using All. intros (v & Hk). destruct (at_live n v) as (node & _ & Hn & _); [by eapply known_at|]. by exists node. Qed.
Lemma at_node_at n v : is_at (Nodes (w_Store w)) n v -> node_at w n.
Proof using All. intros Hv. destruct (at_live n v Hv) as (node & _ & Hn & _). by exists node. Qed.
Lemma at_adjust n v f : is_at (Nodes (w_Store w)) n v -> exists s, adjust (w_Store w) n f = Some s.
Proof using All. intros Hv. destruct (at_live n v Hv) as (_ & c & _ & _ & Hc). unfold adjust. rewrite Hc. by eexists. Qed.
Lemma bucket_at_node b n v : k_Bucket T = Some (b, BTest n v) \/ k_Bucket T = Some (b, BClaimed n v) -> is_at (Nodes (w_Store w)) n v.
Proof using All.
  intros HB. eapply (known_at root vcb params); [exact Hi|]. unfold known, seen. destruct HB as [-> | ->]; rewrite !elem_of_cons, !elem_of_app; cbn; rewrite list_elem_of_singleton; tauto.
Qed.
Lemma gate_at_node l n v : k_Gate T = Some (GWorker l (Some (n, v))) -> is_at (Nodes (w_Store w)) n v.
Proof using All. intros HG. eapply (known_at root vcb params); [exact Hi|]. unfold known, seen. rewrite HG, !elem_of_cons, !elem_of_app. cbn. rewrite list_elem_of_singleton. tauto. Qed.

(** A lock that is held is in the list of the locks held. *)
Lemma held_resource n : k_Res T = Some n -> n ∈ w_Resources w.
Proof using All. intros HR. apply cnt_elem. destruct (i_resources _ _ _ _ _ _ Hi n) as [-> _]. cbn [sum_list_with]. unfold res_at at 1. rewrite HR. cbn. rewrite hit_same. lia. Qed.
Lemma held_bucket b st : k_Bucket T = Some (b, st) -> b ∈ w_Buckets w.
Proof using All. intros HR. apply cnt_elem. rewrite (i_buckets _ _ _ _ _ _ Hi b). cbn [sum_list_with]. unfold bucket_at at 1. rewrite HR. cbn. rewrite hit_same. lia. Qed.
Lemma held_vcb st : k_Vcb T = Some st -> w_Vcb w = true.
Proof using All. intros HV. pose proof (i_vcb _ _ _ _ _ _ Hi) as H. unfold f_vcb in H. cbn [sum_list_with] in H. unfold vcb_at at 1 in H. rewrite HV in H. cbn in H. destruct (w_Vcb w); [done|lia]. Qed.

(** ** The table *)

Lemma lookup_chain_total p l : (forall n, n ∈ l -> is_Some (Nodes (w_Store w) !! n)) -> exists r, lookup_chain (Nodes (w_Store w)) p l = Some r /\ forall n, r = Some n -> n ∈ l.
Proof.
  induction l as [|m l IH]; intros Hl; cbn [lookup_chain]; [by exists None|]. destruct (Hl m ltac:(left)) as [node ->]. cbn. destruct (_ && _); [exists (Some m); split; [done|]; intros n [= <-]; left|].
  destruct IH as (r & Hr & Hin); [intros n Hn; apply Hl; by right|]. exists r. split; [done|]. intros n Hn. right. by apply Hin.
Qed.
Lemma enabled_LookupPin p : enabled (LookupPin p).
Proof using All.
  destruct (i_table _ _ _ _ _ _ Hi) as (Hlen & _ & Ht). pose proof (table_bucket_range p) as Hb. rewrite <- Hlen in Hb. destruct (rd_in_range _ _ Hb) as (l & Hl). destruct (Ht _ _ Hl) as [_ Hiff].
  assert (Hlive : forall n, n ∈ l -> exists v, is_at (Nodes (w_Store w)) n v) by (intros n (v & _ & Hv & _)%Hiff; by exists v).
  destruct (lookup_chain_total p l) as (r & Hr & Hin); [intros n (v & Hv)%Hlive; destruct (at_live n v Hv) as (node & _ & -> & _); by eexists|].
  unfold enabled. cbn. unfold BlorgNodeTableLookupPin. rewrite Hl. cbn. rewrite Hr. cbn. destruct r as [n|]; [|by eexists None, _, _].
  destruct (Hlive n (Hin n eq_refl)) as (v & Hv). destruct (at_adjust n v (add_pin 1) Hv) as (s & Hs). rewrite Hs. cbn. by eexists (Some n), _, _.
Qed.
Lemma table_put n node f : Nodes (w_Store w) !! n = Some node -> in_tree node = true -> exists t, put_list (NodeTable (w_Store w)) (TableBucketIndex node) f = Some t.
Proof using All.
  intros Hn Hin. destruct (put_list_spec (NodeTable (w_Store w)) (TableBucketIndex node) f) as (l & t & _ & Hput & _); [|by exists t]. eapply table_bucket; [exact (i_tree _ _ _ _ _ _ Hi)|exact (i_table _ _ _ _ _ _ Hi)|done|done].
Qed.

(** A node whose bucket nobody holds may be taken off the table or put on it. *)
Lemma unheld_or_waits n node : Nodes (w_Store w) !! n = Some node -> (exists node, Nodes (w_Store w) !! n = Some node /\ TableBucketIndex node ∈ w_Buckets w) \/ unheld w n.
Proof. intros Hn. destruct (decide (TableBucketIndex node ∈ w_Buckets w)) as [Hb|Hb]; [left; by exists node|right; by exists node]. Qed.

Lemma unlink_total n node c d : Nodes (w_Store w) !! n = Some node -> in_tree node = true -> exists s, table_unlink (with_Counters (w_Store w) (<[n := d]> (Counters (w_Store w)))) n node c = Some s.
Proof using All.
  intros Hn Hin. unfold table_unlink. destruct (Published c); [|by eexists]. cbn. destruct (table_put n node (unlink_first n) Hn Hin) as (t & ->). cbn. unfold adjust. cbn. rewrite lookup_insert_eq. cbn. by eexists.
Qed.
Lemma progress_RetireNode n v : k_Vcb T = Some (VEmpty n v) -> waits w (RetireNode n) \/ enabled (RetireNode n).
Proof using All.
  intros HT. pose proof (tree_seen_at _ _ _ _ _ _ _ _ n v Hi HT ltac:(left)) as Hv. destruct (tree_state _ _ _ _ _ _ _ _ Hi HT) as [Hin _]. destruct (at_live n v Hv) as (node & c & Hn & Ev & Hc).
  destruct (unheld_or_waits n node Hn) as [?|Hu]; [by left|right]. unfold enabled. cbn. unfold NodeTableTryRetire. rewrite Hn. cbn. rewrite Hc. cbn. destruct (_ && _); [|eexists _, _; split; [exact Hu|]; by eexists].
  unfold adjust at 1. rewrite Hc. cbn. destruct (unlink_total n node c (set_reap true c) Hn) as (s & ->); [by rewrite <- Ev in Hin|]. cbn. eexists _, _. split; [exact Hu|]. by eexists.
Qed.
Lemma progress_JudgeNode n l v : k_Gate T = Some (GWorker l (Some (n, v))) -> in_tree v = true -> waits w (JudgeNode n) \/ enabled (JudgeNode n).
Proof using All.
  intros HG Hin. pose proof (gate_at_node _ _ _ HG) as Hv. destruct (at_live n v Hv) as (node & c & Hn & Ev & Hc). destruct (unheld_or_waits n node Hn) as [?|Hu]; [by left|right].
  unfold enabled. cbn. unfold reap_judge. rewrite Hn. cbn. rewrite Hc. cbn. destruct (_ && _).
  - destruct (unlink_total n node c c Hn) as (s & Hs); [by rewrite <- Ev in Hin|]. rewrite insert_id in Hs by done. assert (Es : with_Counters (w_Store w) (Counters (w_Store w)) = w_Store w) by (by destruct (w_Store w)). rewrite Es in Hs. rewrite Hs. cbn. eexists _, _. split; [exact Hu|]. by eexists.
  - unfold adjust. rewrite Hc. cbn. eexists _, _. split; [exact Hu|]. by eexists.
Qed.
Lemma progress_PublishNode n v : k_Ref T = Some (n, v, true) -> in_tree v = true -> waits w (PublishNode n) \/ enabled (PublishNode n).
Proof using All.
  intros HR Hin. pose proof (referenced_at _ _ _ _ _ _ _ _ _ _ Hi HR) as Hv. destruct (at_live n v Hv) as (node & c & Hn & Ev & Hc). destruct (unheld_or_waits n node Hn) as [?|Hu]; [by left|right].
  unfold enabled. cbn. unfold changes, BlorgNodeTablePublish. rewrite Hn. cbn. rewrite Hc. cbn. destruct (Published c); [eexists (), _; split; [exact Hu|]; by eexists|]. destruct (table_put n node (fun l => l ++ [n]) Hn) as (t & ->); [by rewrite <- Ev in Hin|]. cbn.
  unfold adjust. cbn. rewrite Hc. cbn. eexists (), _. split; [exact Hu|]. by eexists.
Qed.

(** ** The other calls *)

Lemma open_reply_exists q : exists a : open_reply q, True.
Proof. destruct q; cbn; [by exists ticket_zero|by exists true|by exists PathCacheMiss|by exists PathCacheMiss|by exists (None, ticket_zero)|by exists ()]. Qed.
Lemma node_reply_exists q : exists a : node_reply q, node_reply_ok q a.
Proof. destruct q as [|first| | |]; cbn; [by exists 0|exists STATUS_SUCCESS; by left|by exists true|by exists ()|by exists ()]. Qed.

Lemma enabled_ReadNode n : (exists v, known root vcb T n v) \/ (exists l, k_Gate T = Some (GWorker (n :: l) None)) -> enabled (ReadNode n).
Proof using All.
  intros H. assert (exists node, Nodes (w_Store w) !! n = Some node) as (node & Hn); [|by eexists (view node), w, node]. destruct H as [Hk|(l & HG)]; [apply (known_live n) in Hk as [node Hn]; by exists node|].
  pose proof (i_claims _ _ _ _ _ _ Hi n) as Hc. cbn [sum_list_with] in Hc. unfold claim_at at 1 in Hc. rewrite HG in Hc. cbn in Hc. rewrite hit_same in Hc. unfold tally in Hc.
  destruct (Counters (w_Store w) !! n) as [c|] eqn:Ec; [|lia]. destruct (proj2 (i_dom _ _ _ _ _ _ Hi n) ltac:(by eexists)) as [node Hn]. by exists node.
Qed.
Lemma enabled_ReadRelated fo i related : k_Irp T = Some (i, related) -> c_Related (params i) = Some fo -> enabled (ReadRelated fo).
Proof using All.
  intros HI Hr. destruct (hit_le_one_irp _ _ _ _ _ _ _ T i related Hi ltac:(left) HI) as [Ha Hd]. pose proof (i_open _ _ _ _ _ _ Hi i fo Ha Hd Hr) as Hin. apply list_elem_of_fmap in Hin as (h & -> & Hin).
  destruct (handle_node _ _ _ _ _ _ h Hi Hin) as (v & Hv). destruct (at_live _ _ Hv) as (node & _ & Hn & _). by eexists (view node), w, h, node.
Qed.
Lemma enabled_create d (mk : ALLOCATION -> POOL -> NTSTATUS * POOL * NODE * METADATA) fill fcb named :
  (forall al pool, (mk al pool).1.1 = create_node fcb named al pool) -> exists a w', create_step w d mk fill a w'.
Proof.
  intros Hmk. set (al := mkAllocation false false false 0 0 (fresh (dom (Nodes (w_Store w))))). pose proof (Hmk al (Pool (w_Store w))) as E. destruct (mk al (Pool (w_Store w))) as [[[st pool] n] m] eqn:Em. cbn in E.
  injection E as -> ->. eexists _, _, al, _, _, n, m. split; [apply not_elem_of_dom, is_fresh|]. split; [exact Em|]. split; [done|]. by eexists.
Qed.
Lemma enabled_FreeNode n v : k_Vcb T = Some (VFresh n v) \/ k_Vcb T = Some (VRetired n v) -> enabled (FreeNode n).
Proof using All.
  intros HT. assert (exists st, k_Vcb T = Some st /\ alone_in st n v) as (st & HT' & Hal) by (destruct HT as [HT|HT]; eexists; (split; [exact HT|]); [by left|by right]).
  pose proof (tree_state _ _ _ _ _ _ _ _ Hi HT') as Hok. assert (Ha : alone (Nodes (w_Store w)) (Counters (w_Store w)) (w_Handles w) (T :: F) T n v) by (destruct Hal as [-> | ->]; apply Hok).
  pose proof (tree_seen_at _ _ _ _ _ _ _ st n v Hi HT' ltac:(destruct Hal as [-> | ->]; left)) as Hv. destruct Ha as (Hin & (node & Hn & Hleaf) & _). rewrite <- (is_at_view _ _ _ _ Hv Hn) in Hin.
  destruct (free_ok root vcb (w_Store w) n node (i_tree _ _ _ _ _ _ Hi) Hn Hin Hleaf) as (s & _ & Hs & _). eexists (), _. by exists s.
Qed.
Lemma enabled_adjust n v f : is_at (Nodes (w_Store w)) n v -> exists w', changes w (adjust (w_Store w) n f) w'.
Proof using All. intros Hv. destruct (at_adjust n v f Hv) as (s & Hs). eexists. by exists s. Qed.
Lemma enabled_counts n v (p : COUNTERS -> Z) : is_at (Nodes (w_Store w)) n v -> exists a w', exists c, Counters (w_Store w) !! n = Some c /\ a = p c /\ w' = w.
Proof using All. intros Hv. destruct (at_live n v Hv) as (_ & c & _ & _ & Hc). by eexists _, _, c. Qed.
Lemma enabled_claim n v : is_at (Nodes (w_Store w)) n v -> enabled (ClaimReap n).
Proof using All. intros Hv. destruct (at_live n v Hv) as (_ & c & _ & _ & Hc). destruct (enabled_adjust n v (set_reap true) Hv) as (w' & Hw). eexists _, w'. split; [exact Hw|]. by exists c. Qed.
Lemma enabled_open n v : is_at (Nodes (w_Store w)) n v -> enabled (OpenRef n).
Proof using All. intros Hv. destruct (at_live n v Hv) as (_ & c & _ & _ & Hc). destruct (enabled_adjust n v (add_ref 1) Hv) as (w' & Hw). eexists _, w'. split; [exact Hw|]. by exists c. Qed.

Lemma progress c K : call_pre c T K -> waits w c \/ enabled c.
Proof using All.
  destruct c; cbn [call_pre waits]; intros H; try (right; unfold enabled; cbn; by eexists (), _).
  - right. destruct (open_reply_exists q) as (a & _). by exists a, w.
  - right. destruct H as [Hk _]. destruct (node_reply_exists q) as (a & Ha). exists a, w. split_and!; [exact (known_live _ Hk)|done|done].
  - right. apply enabled_ReadNode. destruct H as [(v & Hk & _)|(l & HG & _)]; [left; by exists v|right; by exists l].
  - right. destruct H as (i & related & HI & Hr & _). exact (enabled_ReadRelated _ _ _ HI Hr).
  - destruct (w_Vcb w) eqn:E; [by left|right]. by eexists (), _.
  - right. destruct H as (st & HT & _). eexists (), _. split; [exact (held_vcb _ HT)|done].
  - destruct (decide (n ∈ w_Resources w)) as [?|Hn]; [by left|right]. destruct H as (_ & _ & Hk & _). eexists (), _. split_and!; [exact (known_live _ Hk)|done|done].
  - right. destruct H as (HR & Hk & _). eexists (), _. split_and!; [exact (known_live _ Hk)|exact (held_resource _ HR)|done].
  - right. destruct H as (HB & _). eexists (), _. split; [exact (held_bucket _ _ HB)|done].
  - right. apply enabled_LookupPin.
  - right. destruct H as (v & HP & _). destruct (enabled_adjust n v (add_pin (-1))) as (w' & Hw); [exact (pinned_at _ _ _ _ _ _ _ _ _ Hi HP)|]. by exists (), w'.
  - right. destruct H as (v & HR & _). destruct (enabled_adjust n v (add_ref (-1))) as (w' & Hw); [exact (referenced_at _ _ _ _ _ _ _ _ _ _ Hi HR)|]. by exists (), w'.
  - right. destruct H as (v & HR & _). destruct (enabled_adjust n v (add_ref (-1))) as (w' & Hw); [exact (referenced_at _ _ _ _ _ _ _ _ _ _ Hi HR)|]. by exists (), w'.
  - right. destruct H as (_ & v & Hk & _). apply (enabled_open n v). destruct Hk as [[_ Hk]|[Hk|[(owed & Hk)|Hk]]]; [by eapply known_at|by eapply pinned_at| |]; (eapply tree_seen_at; [exact Hi|exact Hk|]); left.
  - right. destruct H as (v & HR & _). destruct (enabled_adjust n v (add_ref (-1))) as (w' & Hw); [exact (referenced_at _ _ _ _ _ _ _ _ _ _ Hi HR)|]. by exists (), w'.
  - right. destruct H as (b & v & HB & _). apply (enabled_counts n v RefCount). eapply bucket_at_node. by left.
  - right. destruct H as (b & v & HB & _). apply (enabled_counts n v PinCount). eapply bucket_at_node. by left.
  - right. destruct H as (v & HR & _). destruct (enabled_adjust n v (add_unclean 1)) as (w' & Hw); [exact (referenced_at _ _ _ _ _ _ _ _ _ _ Hi HR)|]. by exists (), w'.
  - right. destruct H as (_ & (v & Hk) & _). destruct (enabled_adjust n v (add_unclean (-1))) as (w' & Hw); [by eapply known_at|]. by exists (), w'.
  - right. destruct H as (b & v & HB & _). apply (enabled_claim n v). eapply bucket_at_node. by left.
  - right. destruct H as (b & v & HB & _). destruct (at_live n v) as (node & _ & Hn & _); [eapply bucket_at_node; by right|]. eexists (), _. eexists. unfold reap_push. rewrite Hn. by split.
  - right. unfold enabled. cbn. destruct (reap_kick (w_Store w)) as [b s]. by exists b, (put_store w s).
  - right. unfold enabled. cbn. by eexists (ReapList (NodeReap (w_Store w))), _.
  - right. unfold enabled. cbn. by eexists (negb _), _.
  - destruct H as (v & HT & _). exact (progress_RetireNode n v HT).
  - destruct H as (_ & v & Hst & HR & _). apply (progress_PublishNode n v HR). destruct Hst as [HT|HT]; [exact (tree_state _ _ _ _ _ _ _ _ Hi HT)|apply (tree_state _ _ _ _ _ _ _ _ Hi HT)].
  - destruct H as (_ & st & l & v & _ & _ & HG & Hin & _). exact (progress_JudgeNode n l v HG Hin).
  - right. destruct (search_path_spec root vcb (w_Store w) root p (i_tree _ _ _ _ _ _ Hi)) as (r & Hr & _). by exists r, w.
  - right. destruct (search_name_spec root vcb (w_Store w) d name (i_tree _ _ _ _ _ _ Hi)) as (r & Hr & _). by exists r, w.
  - right. apply (enabled_create _ _ _ true (0 <? path_bytes p)). intros al pool. unfold BlorgCreateFCB. by destruct (create_node _ _ _ _).
  - right. apply (enabled_create _ _ _ false true). intros al pool. unfold BlorgCreateDCB. by destruct (create_node _ _ _ _).
  - right. destruct H as (st & v & HT & Hs & _). destruct (at_live n v) as (node & _ & Hn & _); [eapply tree_seen_at; [exact Hi|exact HT|]; destruct st; try done; destruct Hs as [-> ->]; left|]. by eexists _, _, node.
  - right. destruct H as (v & HT & _). exact (enabled_FreeNode n v HT).
  - right. destruct H as [Hk _]. eexists _, _. split_and!; [exact (known_live _ Hk)|done|done].
  - right. destruct H as [Hk _]. eexists (), _. split; [exact (known_live _ Hk)|done].
  - right. eexists _, _. by right.
  - right. exists true. by eexists.
  - right. destruct H as [Hk _]. eexists STATUS_SUCCESS, _. split; [exact (known_live _ Hk)|done].
  - right. destruct H as (v & related & _ & HR & _). eexists (), _. split; [|done]. apply (at_node_at n v). exact (referenced_at _ _ _ _ _ _ _ _ _ _ Hi HR).
  - right. eexists STATUS_PENDING, _. by left.
  - right. eexists STATUS_PENDING, _. by left.
  - right. eexists STATUS_PENDING, _. by left.
Qed.
End Progress.
