(* ===== verification/OpensTheorems.v ===== *)
(** * Opens, closes and the worker: theorems

    Of every state the handlers of IRP_MJ_CREATE, IRP_MJ_CLEANUP and
    IRP_MJ_CLOSE, the FSP workers, the server's answers and the reap worker can
    reach, in any interleaving of their calls. *)

From S2P Require Import Prelude UnicodePath PathCache ClientText Nodes NodesTree Opens OpensSystem OpensTokens OpensInvariant OpensCalls OpensCallsCounts OpensCallsTable OpensCreate OpensRun.

Section Theorems.
Context {nls : Nls} (root vcb : Z) (params : Z -> CREATE_PARAMS).
Abbreviation inv := (inv root vcb params).
Abbreviation wp := (wp root vcb params).
Abbreviation reachable := (opens_reachable root vcb params).

(** ** Moving *)

(** A handler makes its next call, or is done. *)
Inductive opens_moves : OPENS -> OPENS -> Prop :=
  | moves_call w c k a w' l1 l2 arrived : open_step root w c a w' -> opens_moves (mkOpens w (l1 ++ Do c k :: l2) arrived) (mkOpens w' (l1 ++ k a :: l2) arrived)
  | moves_exit w l1 l2 arrived : opens_moves (mkOpens w (l1 ++ Give () :: l2) arrived) (mkOpens w (l1 ++ l2) arrived).

Lemma pick_thread threads F T : Forall2 (fun t T => wp t T ends) threads F -> T ∈ F -> exists l1 t l2 F', threads = l1 ++ t :: l2 /\ wp t T ends /\ F ≡ₚ T :: F'.
Proof.
  intros HF (F1 & F2 & ->)%list_elem_of_split. apply Forall2_app_inv_r in HF as (l1 & l2 & _ & H2 & ->). apply Forall2_cons_inv_r in H2 as (t & l2' & Ht & _ & ->).
  exists l1, t, l2', (F1 ++ F2). split_and!; [done|done|]. symmetry. apply Permutation_middle.
Qed.

(** A handler moves when what it would wait for is free. *)
Lemma picked_moves w threads F arrived T :
  Forall2 (fun t T => wp t T ends) threads F -> inv w F arrived -> T ∈ F ->
  (k_Bucket T = None -> forall b, b ∉ w_Buckets w) -> (k_Res T = None -> k_Bucket T = None -> forall n, n ∉ w_Resources w) -> (unlocked T -> w_Vcb w = false) ->
  exists o', opens_moves (mkOpens w threads arrived) o'.
Proof.
  intros HF Hi HT HB HR HV. destruct (pick_thread _ _ _ HF HT) as (l1 & t & l2 & F' & -> & Hwp & Hp). destruct t as [[]|c k]; [eexists; constructor|].
  apply (inv_perm root vcb params w F (T :: F') arrived Hp) in Hi. cbn in Hwp. destruct (progress root vcb params w T F' arrived Hi c _ Hwp) as [Hw|(a & w' & Hs)]; [|eexists; by constructor].
  exfalso. destruct c; cbn [waits call_pre] in *; try done.
  - destruct Hwp as [Hu _]. rewrite (HV Hu) in Hw. done.
  - destruct Hwp as (Hr & Hb & _). by apply (HR Hr Hb n).
  - destruct Hwp as (v & _ & Hb & _), Hw as (node & _ & Hin). by apply (HB Hb _ Hin).
  - destruct Hwp as (Hb & _), Hw as (node & _ & Hin). by apply (HB Hb _ Hin).
  - destruct Hwp as (Hb & _), Hw as (node & _ & Hin). by apply (HB Hb _ Hin).
Qed.

Lemma none_held {A} (p : TOK -> option A) (F : list TOK) : (exists T, T ∈ F /\ is_Some (p T)) \/ forall T, T ∈ F -> p T = None.
Proof.
  induction F as [|T F [(U & HU & Hp)|IH]]; [right; by intros T ?%elem_of_nil|left; exists U; split; [by right|done]|]. destruct (p T) as [a|] eqn:E; [left; exists T; split; [left|by eexists]|].
  right. intros U [->|HU]%elem_of_cons; [done|by apply IH].
Qed.

Lemma somebody_moves w threads F arrived : Forall2 (fun t T => wp t T ends) threads F -> inv w F arrived -> threads <> [] -> exists o', opens_moves (mkOpens w threads arrived) o'.
Proof.
  intros HF Hi Hne. destruct (none_held k_Bucket F) as [(T & HT & b & HB)|HB].
  { apply (picked_moves w threads F arrived T HF Hi HT); [congruence|congruence|]. intros (_ & _ & Hn). congruence. }
  assert (Hb : forall b, b ∉ w_Buckets w) by (intros b; apply cnt_zero; rewrite (i_buckets _ _ _ _ _ _ Hi b); apply total_all_zero; intros U HU; unfold bucket_at; by rewrite (HB U HU)).
  destruct (none_held k_Res F) as [(T & HT & r & HR)|HR]; [apply (picked_moves w threads F arrived T HF Hi HT); [done|congruence|intros (_ & Hn & _); congruence]|].
  assert (Hr : forall n, n ∉ w_Resources w) by (intros n; apply cnt_zero; destruct (i_resources _ _ _ _ _ _ Hi n) as [-> _]; apply total_all_zero; intros U HU; unfold res_at; by rewrite (HR U HU)).
  destruct (none_held k_Vcb F) as [(T & HT & st & HV)|HV]; [apply (picked_moves w threads F arrived T HF Hi HT); [done|done|intros (Hn & _); congruence]|].
  assert (Hv : w_Vcb w = false).
  { pose proof (i_vcb _ _ _ _ _ _ Hi) as H. unfold f_vcb in H. rewrite total_all_zero in H by (intros U HU; unfold vcb_at; by rewrite (HV U HU)). by destruct (w_Vcb w). }
  destruct threads as [|t threads]; [done|]. apply Forall2_cons_inv_l in HF as (T & F' & Ht & HF & ->). eapply (picked_moves w (t :: threads) (T :: F') arrived T); [by constructor|done|left|done|done|done].
Qed.

(** ** Termination *)

Inductive thread_moves : list (act ()) -> list (act ()) -> Prop :=
  | thread_call c k a l1 l2 : thread_moves (l1 ++ Do c k :: l2) (l1 ++ k a :: l2)
  | thread_exit l1 l2 : thread_moves (l1 ++ Give () :: l2) (l1 ++ l2).

Definition next_of (t : act ()) (l l' : list (act ())) : Prop :=
  match t with Do c k => exists a, l' = k a :: l | Give _ => l' = l end.
Lemma thread_moves_cons t l l' : thread_moves (t :: l) l' -> (exists l2, thread_moves l l2 /\ l' = t :: l2) \/ next_of t l l'.
Proof.
  intros H. remember (t :: l) as full eqn:E. destruct H as [c k a l1 l2|l1 l2]; destruct l1 as [|x l1]; cbn in E; injection E as <- <-; cbn.
  - right. by exists a.
  - left. eexists. split; [constructor|done].
  - by right.
  - left. eexists. split; [constructor|done].
Qed.
Lemma threads_run_out l : Acc (flip thread_moves) l.
Proof.
  induction l as [|t l IH]. { constructor. intros l' H. unfold flip in H. remember [] as full eqn:E. destruct H as [? ? ? l1 ?|l1 ?]; by destruct l1. }
  revert l IH. induction t as [[]|c k IHt]; intros l Hl; induction Hl as [l Hl IH]; constructor; intros l' [(l2 & Hm & ->)|Hn]%thread_moves_cons; try (by apply IH); cbn in Hn.
  - subst l'. by constructor.
  - destruct Hn as (a & ->). apply IHt. by constructor.
Qed.

Lemma moves_run_out o : Acc (flip opens_moves) o.
Proof.
  destruct o as [w threads arrived]. revert w. induction (threads_run_out threads) as [threads _ IH]. intros w. constructor. intros o' Hm. unfold flip in Hm.
  remember (mkOpens w threads arrived) as o eqn:E. destruct Hm as [w0 c k a w' l1 l2 ar Hs|w0 l1 l2 ar]; injection E as -> <- ->; apply IH; constructor.
Qed.

(** ** At rest *)

(** No handler is under way and no work item waits. *)
Definition at_rest (o : OPENS) : Prop := os_Threads o = [] /\ WorkItems (NodeReap (w_Store (os_World o))) = 0.

Lemma rest_inv o : root <> vcb -> reachable o -> at_rest o -> inv (os_World o) [] (os_Arrived o).
Proof. intros Hne Hr [Ht _]. destruct (opens_reachable_inv root vcb params o Hne Hr) as [(F & HF & Hi) _]. rewrite Ht in HF. by apply Forall2_nil_inv_l in HF as ->. Qed.
Lemma rest_reaped w arrived : inv w [] arrived -> WorkItems (NodeReap (w_Store w)) = 0 -> ReapList (NodeReap (w_Store w)) = [].
Proof.
  intros Hi Hw. destruct (i_kick _ _ _ _ _ _ Hi) as [_ Hk], (i_gate _ _ _ _ _ _ Hi) as [_ Hg]. rewrite Hw in Hg. destruct (ReapList (NodeReap (w_Store w))); [done|]. destruct Hk as [Hq|[]]; [done|]. by rewrite Hq in Hg.
Qed.

(** An idle leaf is on the reap list or somebody's business: at rest there is
    neither. *)
Lemma rest_leaf w arrived n node : inv w [] arrived -> WorkItems (NodeReap (w_Store w)) = 0 -> Nodes (w_Store w) !! n = Some node -> in_tree node = true -> ChildrenList node = [] ->
  exists h, h ∈ w_Handles w /\ hd_Node h = n.
Proof.
  intros Hi Hw Hn Hin Hl. destruct (proj1 (i_dom _ _ _ _ _ _ Hi n) ltac:(by eexists)) as [c Hc].
  pose proof (i_pins _ _ _ _ _ _ Hi n) as Hp. pose proof (i_refs _ _ _ _ _ _ Hi n) as Hr. pose proof (i_claims _ _ _ _ _ _ Hi n) as Hcl. rewrite (rest_reaped _ _ Hi Hw) in Hcl. rewrite (tally_at _ _ _ _ Hc) in Hp. rewrite (tally_at _ _ _ _ Hc) in Hr. rewrite (tally_at _ _ _ _ Hc) in Hcl. cbn in Hp, Hr, Hcl.
  destruct (decide (List.Exists (fun h => hd_Node h = n) (w_Handles w))) as [(h & Hh & E)%Exists_exists|Hno]; [by exists h|]. exfalso.
  rewrite (total_all_zero (handle_at n)) in Hr by (intros h Hh; apply hit_other; intros E; apply Hno, Exists_exists; by exists h).
  apply (i_idle _ _ _ _ _ _ Hi n (view node) c); [by apply at_is|done|by exists node|done|done|done|]. unfold on_reap in Hcl. by destruct (OnReapList c).
Qed.

Lemma depth_bounded (nodes : gmap Z NODE) : exists b, forall n node, nodes !! n = Some node -> (depth node <= b)%nat.
Proof.
  induction nodes as [|n node nodes Hn (b & IH)] using map_ind; [exists 0%nat; intros n node H; by rewrite lookup_empty in H|].
  exists (depth node + b)%nat. intros m x [[<- <-]|[_ Hm]]%lookup_insert_Some; [lia|]. apply IH in Hm. lia.
Qed.
Lemma rest_below w arrived b k : inv w [] arrived -> WorkItems (NodeReap (w_Store w)) = 0 -> (forall n node, Nodes (w_Store w) !! n = Some node -> (depth node <= b)%nat) ->
  forall n node, Nodes (w_Store w) !! n = Some node -> in_tree node = true -> (b < depth node + k)%nat -> exists h cs, h ∈ w_Handles w /\ leads (Nodes (w_Store w)) n cs (hd_Node h).
Proof.
  intros Hi Hw Hb. induction k as [|k IH]; intros n node Hn Hin Hk; [apply Hb in Hn; lia|].
  destruct (ChildrenList node) as [|c l] eqn:El; [destruct (rest_leaf _ _ _ _ Hi Hw Hn Hin El) as (h & Hh & <-); exists h, []; split; [done|constructor]|].
  pose proof (i_tree _ _ _ _ _ _ Hi) as Ht. destruct (t_children _ _ _ _ Ht n node c Hn ltac:(rewrite El; left)) as (m & Hm & Im & Pm).
  pose proof (parent_depth root vcb _ _ c m node Ht Hm Im ltac:(by rewrite Pm)) as Hd. destruct (IH c m Hm Im ltac:(lia)) as (h & cs & Hh & Hl). exists h, (node_name m :: cs). split; [done|]. econstructor; [|exact Hl]. by exists m.
Qed.

(** C13: Nothing is kept that nobody has open.  In a state at rest every
    resident FCB or DCB is the node of an open file object, or an ancestor of
    one. *)
Theorem resident_nodes_are_in_use o n node :
  root <> vcb -> reachable o -> at_rest o -> Nodes (w_Store (os_World o)) !! n = Some node -> in_tree node = true ->
  exists h cs, h ∈ w_Handles (os_World o) /\ leads (Nodes (w_Store (os_World o))) n cs (hd_Node h).
Proof.
  intros Hne Hr Ha Hn Hin. pose proof (rest_inv o Hne Hr Ha) as Hi. destruct Ha as [_ Hw]. destruct (depth_bounded (Nodes (w_Store (os_World o)))) as (b & Hb).
  apply (rest_below _ _ b (S b) Hi Hw Hb n node Hn Hin). lia.
Qed.

(** The files open on a node, and those not cleaned up. *)
Definition opens_of (w : WORLD) (n : Z) : nat := length (filter (fun h => hd_Node h = n) (w_Handles w)).
Definition unclean_of (w : WORLD) (n : Z) : nat := length (filter (fun h => hd_Node h = n /\ hd_Clean h = false) (w_Handles w)).
Lemma opens_total n l : total (handle_at n) l = length (filter (fun h => hd_Node h = n) l).
Proof. induction l as [|h l IH]; [done|]. cbn [sum_list_with]. rewrite filter_cons, IH. unfold handle_at, hit. destruct (Z.eqb_spec (hd_Node h) n) as [E|E]; [by rewrite decide_True|by rewrite decide_False]. Qed.
Lemma unclean_total n l : total (unclean_handle n) l = length (filter (fun h => hd_Node h = n /\ hd_Clean h = false) l).
Proof.
  induction l as [|h l IH]; [done|]. cbn [sum_list_with]. rewrite filter_cons, IH. unfold unclean_handle, hit. destruct (hd_Clean h) eqn:Ec; [rewrite decide_False by (intros [_ ?]; congruence); done|].
  destruct (Z.eqb_spec (hd_Node h) n) as [E|E]; [by rewrite decide_True|rewrite decide_False; [done|by intros [? _]]].
Qed.

(** C26: The counts are exact.  In a state at rest a node's [RefCount] is the
    number of file objects open on it, its [PinCount] is 0, and an FCB's count
    of unclean handles is the number of its file objects whose cleanup has not
    been done. *)
Theorem counts_are_exact o n node c :
  root <> vcb -> reachable o -> at_rest o -> Nodes (w_Store (os_World o)) !! n = Some node -> Counters (w_Store (os_World o)) !! n = Some c ->
  RefCount c = Z.of_nat (opens_of (os_World o) n) /\ PinCount c = 0 /\ OnReapList c = false /\
  (NodeTypeCode node = FcbSignature -> UncleanCount c = Z.of_nat (unclean_of (os_World o) n)).
Proof.
  intros Hne Hr Ha Hn Hc. pose proof (rest_inv o Hne Hr Ha) as Hi. pose proof (i_refs _ _ _ _ _ _ Hi n) as H1. pose proof (i_pins _ _ _ _ _ _ Hi n) as H2. pose proof (i_claims _ _ _ _ _ _ Hi n) as H3.
  rewrite (rest_reaped _ _ Hi (proj2 Ha)) in H3. rewrite (tally_at _ _ _ _ Hc) in H1. rewrite (tally_at _ _ _ _ Hc) in H2. rewrite (tally_at _ _ _ _ Hc) in H3. cbn in H1, H2, H3. rewrite opens_total in H1. split_and!; [exact H1|exact H2|unfold on_reap in H3; by destruct (OnReapList c)|].
  intros Hf. pose proof (i_unclean _ _ _ _ _ _ Hi n (view node) (at_is _ _ _ Hn) Hf) as H4. rewrite (tally_at _ _ _ _ Hc) in H4. cbn in H4. by rewrite unclean_total in H4.
Qed.

(** ** Nothing open *)

Lemma fixed_node nodes n v ch : is_at nodes n v -> ChildrenList v = [] -> tree_ok root vcb nodes ch -> (forall m node, nodes !! m = Some node -> in_tree node = false) -> nodes !! n = Some v.
Proof.
  intros (node & Hn & <-)%is_at_node _ Ht Hno. rewrite Hn. f_equal. destruct node as [ty fp pd tb [|c l]]; [done|].
  destruct (t_children _ _ _ _ Ht n _ c Hn ltac:(left)) as (m & Hm & Im & _). apply Hno in Hm. congruence.
Qed.
Lemma bare_nodes nodes ch : root <> vcb -> tree_ok root vcb nodes ch -> f_fixed root vcb nodes -> (forall m node, nodes !! m = Some node -> in_tree node = false) -> nodes = {[ root := root_node; vcb := vcb_node ]}.
Proof.
  intros Hne Ht [Hr Hv] Hno. apply (fixed_node _ _ _ ch) in Hr, Hv; [|done..]. apply map_eq. intros n. destruct (decide (n = root)) as [->|Hnr]; [by rewrite lookup_insert_eq|]. rewrite lookup_insert_ne by done.
  destruct (decide (n = vcb)) as [->|Hnv]; [by rewrite lookup_singleton_eq|]. rewrite lookup_singleton_ne by done. destruct (nodes !! n) as [x|] eqn:E; [|done]. destruct (t_only _ _ _ _ Ht n x E (Hno n x E)); done.
Qed.
Lemma empty_chain (t : list (list Z)) b l : rd t b = Some l -> (forall n, n ∈ l -> False) -> l = [].
Proof. intros _ H. destruct l as [|x l]; [done|]. exfalso. apply (H x). left. Qed.

(** C25: Everything comes back.  Once every file object is closed and the
    worker has run, the VCB and the root directory are the only nodes, the node
    table and the child index are empty, and every block, CCB, name buffer and
    resource of every node and handle that ever was has been given back: the
    pool is as it was at mount. *)
Theorem nothing_is_left o :
  root <> vcb -> reachable o -> at_rest o -> w_Handles (os_World o) = [] ->
  let s := w_Store (os_World o) in
  Nodes s = {[ root := root_node; vcb := vcb_node ]} /\ Pool s = Pool (w_Store (os_World (opens_initial root vcb))) /\
  (forall b l, rd (NodeTable s) b = Some l -> l = []) /\ (forall b l, rd (NodeChildren s) b = Some l -> l = []) /\
  w_Opened (os_World o) = ∅ /\ w_Resources (os_World o) = [] /\ w_Buckets (os_World o) = [] /\ w_Vcb (os_World o) = false /\
  w_Blocks (os_World o) = Z.of_nat (total stash_blocks (w_Posted (os_World o)) + 2 * length (w_Looking (os_World o))).
Proof.
  intros Hne Hr Ha Hh s. pose proof (rest_inv o Hne Hr Ha) as Hi. pose proof (i_tree _ _ _ _ _ _ Hi) as Ht. destruct Ha as [_ Hw]. destruct (depth_bounded (Nodes s)) as (b & Hb).
  assert (Hno : forall m node, Nodes s !! m = Some node -> in_tree node = false).
  { intros m node Hm. destruct (in_tree node) eqn:Ein; [|done]. destruct (rest_below _ _ b (S b) Hi Hw Hb m node Hm Ein ltac:(lia)) as (h & _ & Hin & _). rewrite Hh in Hin. by apply elem_of_nil in Hin. }
  pose proof (bare_nodes _ _ Hne Ht (i_fixed _ _ _ _ _ _ Hi) Hno) as HN. pose proof (i_pool _ _ _ _ _ _ Hi) as HP. destruct (i_table _ _ _ _ _ _ Hi) as (_ & Hpub & Htab).
  split_and!; [exact HN| | | | | | |pose proof (i_vcb _ _ _ _ _ _ Hi) as HV; unfold f_vcb in HV; by destruct (w_Vcb (os_World o))|exact (i_blocks _ _ _ _ _ _ Hi)].
  - unfold f_pool in HP. rewrite Hh in HP. rewrite HN in HP. rewrite pool_of_insert in HP by (by apply lookup_singleton_ne). rewrite <- insert_empty, pool_of_insert in HP by apply lookup_empty. unfold pool_of in HP. rewrite map_fold_empty in HP. exact HP.
  - intros b' l Hl. apply (empty_chain _ b' l Hl). intros n (v & c & Hv & Hc & Hp & _)%(Htab b' l Hl). pose proof (Hpub n v c Hv Hc Hp) as Hin. apply is_at_node in Hv as (node & Hn & <-). apply Hno in Hn. by rewrite in_tree_view in Hin; congruence.
  - intros b' l Hl. apply (empty_chain _ b' l Hl). intros n (node & Hn & Hin & _)%(t_index _ _ _ _ Ht n b' l Hl). apply Hno in Hn. congruence.
  - apply map_empty. intros i. destruct (w_Opened (os_World o) !! i) as [n|] eqn:E; [|done]. by destruct (proj2 (i_opened _ _ _ _ _ _ Hi) i n E).
  - destruct (w_Resources (os_World o)) as [|r l] eqn:E; [done|]. pose proof (i_resources _ _ _ _ _ _ Hi r) as [H _]. rewrite E, cnt_cons, hit_same in H. done.
  - destruct (w_Buckets (os_World o)) as [|r l] eqn:E; [done|]. pose proof (i_buckets _ _ _ _ _ _ Hi r) as H. rewrite E, cnt_cons, hit_same in H. done.
Qed.

(** ** Every call is defined *)

Definition proceeds (w : WORLD) (c : OPEN_CALL) : Prop := exists a w', open_step root w c a w'.

(** C10: No handler touches a node that was freed, releases a lock it does not
    hold, or finds a broken list: in any interleaving the next call of every
    handler has a step, unless it waits for a lock another handler holds. *)
Theorem opens_use_no_freed_node w l1 c k l2 arrived :
  root <> vcb -> reachable (mkOpens w (l1 ++ Do c k :: l2) arrived) -> proceeds w c \/ waits w c.
Proof.
  intros Hne Hr. destruct (opens_reachable_inv root vcb params _ Hne Hr) as [(F & HF & Hi) _]. cbn in HF, Hi. apply threads_middle in HF as (F1 & T & F2 & -> & _ & Hwp & _).
  apply inv_middle in Hi. destruct (progress root vcb params w T (F1 ++ F2) arrived Hi c _ Hwp); [by right|by left].
Qed.

(** C11: Nobody waits for ever.  The handlers cannot deadlock on the VCB
    resource, the resources of nodes and the bucket locks: in every reachable
    state in which a handler is under way some handler can move, and they can
    move only finitely often before all of them are done. *)
Theorem opens_never_deadlock o : root <> vcb -> reachable o -> Acc (flip opens_moves) o /\ (os_Threads o = [] \/ exists o', opens_moves o o').
Proof.
  intros Hne Hr. split; [apply moves_run_out|]. destruct (opens_reachable_inv root vcb params _ Hne Hr) as [(F & HF & Hi) _]. destruct o as [w [|t threads] arrived]; [by left|right]. by eapply somebody_moves.
Qed.

(** ** The IRPs *)

Lemma cnt_nodup (l : list Z) : (forall n, (cnt n l <= 1)%nat) <-> NoDup l.
Proof.
  split.
  - induction l as [|x l IH]; intros H; constructor.
    + pose proof (H x) as Hx. rewrite cnt_cons, hit_same in Hx. apply cnt_zero. lia.
    + apply IH. intros n. specialize (H n). rewrite cnt_cons in H. lia.
  - induction 1 as [|x l Hx Hl IH]; intros n; [cbn; lia|]. rewrite cnt_cons. apply cnt_zero in Hx. destruct (decide (x = n)) as [->|Hn]; [rewrite hit_same; lia|]. rewrite hit_other by done. apply IH.
Qed.

(** Where an open is that no handler has: posted, at the server, with the
    oplock package, or completed. *)
Definition places (w : WORLD) : list Z := (ci_Id <$> w_Posted w) ++ (ci_Id ∘ looking_irp <$> w_Looking w) ++ (ci_Id <$> w_Parked w) ++ (w_Done w).*1.

(** C27: No open is lost, completed twice, or in two places at once: the IRPs
    that are queued, at the server, with the oplock package or completed are
    different ones that arrived, and when no handler is under way they are all
    that arrived. *)
Theorem create_in_one_place o : root <> vcb -> reachable o -> NoDup (places (os_World o)) /\ places (os_World o) ⊆ os_Arrived o /\ (os_Threads o = [] -> places (os_World o) ≡ₚ os_Arrived o).
Proof.
  intros Hne Hr. destruct (opens_reachable_inv root vcb params _ Hne Hr) as [(F & HF & Hi) _]. pose proof (i_irps _ _ _ _ _ _ Hi) as H.
  assert (Hc : forall i, (cnt i (places (os_World o)) + total (irp_at i) F)%nat = cnt i (os_Arrived o)) by (intros i; destruct (H i) as [H1 _]; unfold places; rewrite !cnt_app; lia).
  assert (Hd : NoDup (places (os_World o))) by (apply cnt_nodup; intros i; specialize (Hc i); destruct (H i); lia).
  split_and!; [done|intros i Hin; rewrite cnt_elem in *; specialize (Hc i); lia|]. intros Ht. rewrite Ht in HF. apply Forall2_nil_inv_l in HF as ->. apply NoDup_Permutation; [done|apply cnt_nodup; intros i; apply H|].
  intros i. rewrite !cnt_elem. specialize (Hc i). cbn in Hc. lia.
Qed.

(** The path an open names: its own, or the related file object's and its
    own. *)
Definition full_path (w : WORLD) (i : Z) (p : PATH) : Prop :=
  match c_Related (params i) with
  | None => p = c_FileName (params i)
  | Some fo => exists h node, h ∈ w_Handles w /\ hd_File h = fo /\ Nodes (w_Store w) !! hd_Node h = Some node /\ p = join_path (FullPath node) (c_FileName (params i))
  end.
Definition answers_open (w : WORLD) (i : Z) (node : NODE) : Prop :=
  match NodeTypeCode node with
  | VcbSignature => c_Related (params i) = None /\ c_FileName (params i) = [] /\ CreateCheckFileAccess (c_DesiredAccess (params i)) = true
  | _ => exists p, full_path w i p /\ node_comps node = path_comps p /\ may_open params i node
  end.

Lemma wanted_answers w T F arrived i related node : inv w (T :: F) arrived -> k_Irp T = Some (i, related) -> wanted params i related (view node) -> answers_open w i node.
Proof.
  intros Hi HI Hw. unfold wanted, answers_open in *. cbn [view with_ChildrenList NodeTypeCode] in Hw. destruct (NodeTypeCode node) eqn:Et; cbn in Hw; try exact Hw; destruct Hw as (p & Hp & _ & Hn & Hm); exists p.
  all: split_and!; [|unfold node_comps in *; cbn in Hn; by rewrite Et in *|done]. all: unfold asked, full_path in *; destruct (c_Related (params i)) as [fo|] eqn:Er; [|by injection Hp].
  all: destruct related as [vr|]; [|done]. all: destruct (i_related _ _ _ _ _ _ Hi) as [H _]; rewrite HI in H; destruct H as (fo' & h & Hfo & Hh & Hf & (x & Hx & <-)%is_at_node); injection Hp as <-; exists h, x. all: rewrite Er in Hfo; injection Hfo as <-; done.
Qed.
Lemma not_attached_unopened w T F arrived i related : inv w (T :: F) arrived -> k_Irp T = Some (i, related) -> attached T = false -> w_Opened w !! i = None.
Proof.
  intros Hi HI Ha. destruct (w_Opened w !! i) as [n|] eqn:E; [|done]. exfalso. destruct (proj2 (i_opened _ _ _ _ _ _ Hi) i n E) as [(v & r & _ & HR)|(U & HU & v & r & HI' & HR)%some_elem]; [unfold attached in Ha; by rewrite HR in Ha|].
  pose proof (i_irps _ _ _ _ _ _ Hi i) as [H1 H2]. cbn [sum_list_with] in H1. rewrite (irp_at_self _ _ _ HI) in H1. pose proof (sum_list_with_in U (irp_at i) F HU) as H3. rewrite (irp_at_self _ _ _ HI') in H3. lia.
Qed.
Lemma completing w l1 irp st k l2 arrived : root <> vcb -> reachable (mkOpens w (l1 ++ Do (CompleteCreate irp st) k :: l2) arrived) ->
  exists T F related, inv w (T :: F) arrived /\ k_Irp T = Some (ci_Id irp, related) /\ (st = STATUS_SUCCESS <-> attached T = true).
Proof.
  intros Hne Hr. destruct (opens_reachable_inv root vcb params _ Hne Hr) as [(F & HF & Hi) _]. cbn in HF, Hi. apply threads_middle in HF as (F1 & T & F2 & -> & _ & Hwp & _). apply inv_middle in Hi. cbn in Hwp.
  destruct Hwp as ((related & HI) & _ & Hst & _). by exists T, (F1 ++ F2), related.
Qed.

(** C12: What a successful open opened is what it asked for.  Whenever a handler
    is about to complete an open with STATUS_SUCCESS, its file object was set up
    for a resident node whose path, component by component and without regard
    to case, is the one the open names, of the kind its options ask for, and
    with no access beyond what the volume grants. *)
Theorem create_opens_what_was_asked w l1 irp k l2 arrived :
  root <> vcb -> reachable (mkOpens w (l1 ++ Do (CompleteCreate irp STATUS_SUCCESS) k :: l2) arrived) ->
  exists n node, w_Opened w !! ci_Id irp = Some n /\ Nodes (w_Store w) !! n = Some node /\ answers_open w (ci_Id irp) node.
Proof.
  intros Hne Hr. destruct (completing _ _ _ _ _ _ _ Hne Hr) as (T & F & related & Hi & HI & Hst). assert (Ha : attached T = true) by (by apply Hst). pose proof (proj1 (proj1 (i_opened _ _ _ _ _ _ Hi))) as Ho.
  unfold attached, attached_ok in *. destruct (k_Ref T) as [[[n v] [|]]|] eqn:HR; try done. destruct Ho as (i & related' & HI' & Hop & Hw). rewrite HI in HI'. injection HI' as <- <-.
  pose proof (referenced_at _ _ _ _ _ _ _ _ _ _ Hi HR) as (node & Hn & <-)%is_at_node. exists n, node. split_and!; [done|done|]. by eapply wanted_answers.
Qed.

(** C29: An open that fails opens nothing.  Whenever a handler is about to
    complete an open with any other status, no file object was set up for it,
    and completing it leaves the nodes, their counts and every open file object
    as they are. *)
Theorem failed_create_opens_nothing w l1 irp st k l2 arrived a w' :
  root <> vcb -> reachable (mkOpens w (l1 ++ Do (CompleteCreate irp st) k :: l2) arrived) -> st <> STATUS_SUCCESS -> open_step root w (CompleteCreate irp st) a w' ->
  w_Opened w !! ci_Id irp = None /\ w' = put_done w ((ci_Id irp, st) :: w_Done w) /\ places w' ≡ₚ ci_Id irp :: places w.
Proof.
  intros Hne Hr Hn Hs. destruct (completing _ _ _ _ _ _ _ Hne Hr) as (T & F & related & Hi & HI & Hst). assert (Ha : attached T = false) by (destruct (attached T); [by destruct Hn; apply Hst|done]).
  pose proof (not_attached_unopened _ _ _ _ _ _ Hi HI Ha) as Ho. cbn in Hs. rewrite Ho in Hs. split_and!; [done|done|]. subst w'. unfold places. cbn. rewrite !app_assoc. symmetry. apply Permutation_middle.
Qed.

(** ** The table and the tree *)

Lemma lookup_chain_exact (nodes : gmap Z NODE) p l : (forall n, n ∈ l -> is_Some (nodes !! n)) ->
  exists r, lookup_chain nodes p l = Some r /\
    match r with
    | Some n => n ∈ l /\ exists node, nodes !! n = Some node /\ fold_path (FullPath node) = fold_path p
    | None => forall n node, n ∈ l -> nodes !! n = Some node -> fold_path (FullPath node) <> fold_path p
    end.
Proof.
  induction l as [|m l IH]; intros Hl; cbn [lookup_chain]; [exists None; split; [done|]; by intros n node ?%elem_of_nil|]. destruct (Hl m ltac:(left)) as [node Hm]. rewrite Hm. cbn [mbind option_bind].
  pose proof (components_equal (FullPath node) p) as E. unfold NodeArePathComponentsEqual in E. destruct (path_bytes (FullPath node) =? path_bytes p); cbn [negb andb] in *.
  all: try rewrite E. all: try case_bool_decide as Ef.
  all: try (exists (Some m); split; [done|]; split; [left|by exists node]).
  all: destruct IH as (r & Hr & Hok); [intros n Hn; apply Hl; by right|]; exists r; (split; [done|]); destruct r as [n|]; [destruct Hok; split; [by right|done]|].
  all: intros n x [->|Hn]%elem_of_cons Hx; [|by eapply Hok]; rewrite Hm in Hx; injection Hx as <-; try done.
Qed.

(** C28: The table agrees with the tree.  In every reachable state the node
    table resolves every path or none: a path it resolves is resolved by the
    walk from the root to the same node, whose pin count grows by one; and when
    it resolves none, no published node has that path and nothing changes. *)
Theorem lookup_agrees_with_search o p :
  root <> vcb -> reachable o -> let s := w_Store (os_World o) in
  exists r s', BlorgNodeTableLookupPin s p = Some (r, s') /\ Nodes s' = Nodes s /\
    match r with
    | Some n => BlorgSearchByPath s root p = Some (Some n) /\ exists c, Counters s !! n = Some c /\ Counters s' = <[n := add_pin 1 c]> (Counters s)
    | None => s' = s /\ forall n node c, Nodes s !! n = Some node -> Counters s !! n = Some c -> Published c = true -> fold_path (FullPath node) <> fold_path p
    end.
Proof.
  intros Hne Hr s. destruct (opens_reachable_inv root vcb params _ Hne Hr) as [(F & _ & Hi) _]. pose proof (i_tree _ _ _ _ _ _ Hi) as Ht. destruct (i_table _ _ _ _ _ _ Hi) as (Hlen & Hpub & Htab). fold s in Ht, Hlen, Hpub, Htab.
  pose proof (table_bucket_range p) as Hb. rewrite <- Hlen in Hb. destruct (rd_in_range _ _ Hb) as (l & Hl). destruct (Htab _ _ Hl) as [_ Hiff].
  destruct (lookup_chain_exact (Nodes s) p l) as (r & Hch & Hok); [intros n (v & c & (node & Hn & _)%is_at_node & _)%Hiff; by exists node|].
  unfold BlorgNodeTableLookupPin. rewrite Hl. cbn [mbind option_bind]. rewrite Hch. cbn [mbind option_bind]. destruct r as [n|].
  - destruct Hok as [Hnl (node & Hn & Hf)]. apply Hiff in Hnl as (v & c & Hv & Hc & Hp & _). pose proof (Hpub n v c Hv Hc Hp) as Hin. rewrite <- (is_at_view _ _ _ _ Hv Hn), in_tree_view in Hin.
    unfold adjust. rewrite Hc. cbn [mbind option_bind]. eexists _, _. split; [done|]. split; [done|]. split; [|by exists c].
    destruct (search_path_spec root vcb s root p Ht) as (r & -> & Hs). pose proof (node_leads root vcb _ _ n node Ht Hn Hin) as Hlead. assert (En : node_comps node = folded p) by (rewrite <- (folded_ext _ _ Hf); unfold node_comps, in_tree in *; by destruct (NodeTypeCode node)).
    rewrite En in Hlead. destruct r as [m|]; [by rewrite (leads_unique root vcb _ _ _ _ _ _ Ht Hs Hlead)|by destruct (Hs n)].
  - exists None, s. split_and!; [done|done|done|]. intros n node c Hn Hc Hp Hf. apply (Hok n node); [|done|done]. apply Hiff. exists (view node), c. pose proof (at_is _ _ _ Hn) as Hv. split_and!; [done|done|done|].
    pose proof (Hpub n _ c Hv Hc Hp) as Hin. cbn. rewrite (t_bucket _ _ _ _ Ht n node Hn Hin). by apply table_bucket_ext.
Qed.
End Theorems.

(** ** Runs *)

Section Demo.
#[local] Instance demo_nls : Nls := {| upcase := fun c => c; rtl_hash := fun _ => None; upcase_sep := fun c => iff_refl _; rtl_hash_upcase := fun _ _ _ => eq_refl |}.

Definition demo_root : Z := 0x1000.
Definition demo_vcb : Z := 0x2000.
(** 1 opens the file [\d\f], which the path cache has; 2 the root; 3 the file
    as a directory. *)
Definition demo_params (i : Z) : CREATE_PARAMS :=
  mkCreate (if i =? 2 then [SEP] else [SEP; 100; SEP; 102]) None (Z.shiftl FILE_OPEN 24 + (if i =? 3 then FILE_DIRECTORY_FILE else if i =? 2 then FILE_COMPLETE_IF_OPLOCKED else 0)) 1.
Definition demo_oracle (oplock : NTSTATUS) : ORACLE :=
  mkOracle
    (fun q => match q with
              | AskTicket => ticket_zero
              | AskTicketCurrent _ => true
              | AskPeek _ | AskPathCache _ => PathCacheExists (mkMeta 5 1 2 3 false false) ticket_zero
              | AskListing _ _ _ => (None, ticket_zero)
              | AskRemember _ _ _ => ()
              end)
    (fun q => match q with AskOpenCount => 0 | AskShareAccess _ => STATUS_SUCCESS | AskPurge => true | AskSetSizes | AskCleanup => () end)
    oplock (fun w => 0x1000 * (1 + Z.of_nat (size (Nodes (w_Store w))))).
Abbreviation demo_reachable := (opens_reachable demo_root demo_vcb demo_params).
Definition demo_start : WORLD := os_World (opens_initial demo_root demo_vcb).
Definition demo_create (i : Z) (w : WORLD) : option WORLD := do_create demo_root demo_vcb demo_params (demo_oracle STATUS_SUCCESS) i w.

(** Opened; and then cleaned up, closed and reaped. *)
Definition demo_opened : option WORLD := demo_create 1 demo_start.
Definition demo_emptied : option WORLD :=
  w ← demo_opened; w ← do_cleanup demo_root (demo_oracle STATUS_SUCCESS) w; w ← do_close demo_root (demo_oracle STATUS_SUCCESS) w; do_worker demo_root (demo_oracle STATUS_SUCCESS) w.

Lemma demo_opened_ok : exists w, demo_opened = Some w /\ demo_reachable (mkOpens w [] [1]) /\ room w = true /\ WorkItems (NodeReap (w_Store w)) = 0 /\ bool_decide (is_Some (Nodes (w_Store w) !! 0x3000)) = true /\ length (w_Handles w) = 1%nat.
Proof.
  assert (Hc : match demo_opened with Some w => room w && (WorkItems (NodeReap (w_Store w)) =? 0) && bool_decide (is_Some (Nodes (w_Store w) !! 0x3000)) && (length (w_Handles w) =? 1)%nat | None => false end = true) by (vm_compute; reflexivity).
  destruct demo_opened as [w|] eqn:E; [|done]. rewrite !andb_true_iff, Z.eqb_eq, Nat.eqb_eq in Hc. destruct Hc as [[[H1 H2] H3] H4]. exists w. split_and!; [done| |done|done|done|done].
  eapply run_create; [constructor|vm_compute; reflexivity|by intros ?%elem_of_nil|done|exact E].
Qed.
Lemma demo_emptied_ok : exists w, demo_reachable (mkOpens w [] [1]) /\ WorkItems (NodeReap (w_Store w)) = 0 /\ w_Handles w = [].
Proof.
  destruct demo_opened_ok as (w0 & E0 & Hr & Hm & _).
  assert (Hc : match w ← demo_opened; do_cleanup demo_root (demo_oracle STATUS_SUCCESS) w with Some w => room w | None => false end = true) by (vm_compute; reflexivity).
  assert (Hd : match w ← demo_opened; w ← do_cleanup demo_root (demo_oracle STATUS_SUCCESS) w; do_close demo_root (demo_oracle STATUS_SUCCESS) w with Some w => room w | None => false end = true) by (vm_compute; reflexivity).
  assert (He : match demo_emptied with Some w => (WorkItems (NodeReap (w_Store w)) =? 0) && (length (w_Handles w) =? 0)%nat | None => false end = true) by (vm_compute; reflexivity).
  unfold demo_emptied in He. rewrite E0 in Hc, Hd, He. cbn [mbind option_bind] in Hc, Hd, He.
  destruct (do_cleanup _ _ w0) as [w1|] eqn:E1; [|done]. cbn [mbind option_bind] in Hd, He. apply run_cleanup with (vcb := demo_vcb) (params := demo_params) (arrived := [1]) in E1; [|done|done|done].
  destruct (do_close _ _ w1) as [w2|] eqn:E2; [|done]. cbn [mbind option_bind] in He. apply run_close with (vcb := demo_vcb) (params := demo_params) (arrived := [1]) in E2; [|done|done|done].
  destruct (do_worker _ _ w2) as [w3|] eqn:E3; [|done]. apply run_reaper with (vcb := demo_vcb) (params := demo_params) (arrived := [1]) in E3; [|done|done].
  exists w3. rewrite andb_true_iff, Z.eqb_eq, Nat.eqb_eq in He. destruct He as [? ?%nil_length_inv]. by split_and!.
Qed.

(** The handler of an open, run up to its completion. *)
Definition completes (c : OPEN_CALL) : bool := match c with CompleteCreate _ _ => true | _ => false end.
Definition demo_completing (i : Z) (oplock : NTSTATUS) : option (act () * WORLD) :=
  drive_to demo_root (demo_oracle oplock) completes (BlorgCreate demo_root demo_vcb demo_params VolumeDevice (mkCreateIrp i false false None)) demo_start.
Definition completing_with (i : Z) (st : NTSTATUS) (r : option (act () * WORLD)) : bool :=
  match r with Some (Do (CompleteCreate irp st') _, _) => (ci_Id irp =? i) && (st' =? st) | _ => false end.
Lemma demo_completing_ok i oplock st : completing_with i st (demo_completing i oplock) = true ->
  exists irp k w, ci_Id irp = i /\ demo_reachable (mkOpens w ([] ++ Do (CompleteCreate irp st) k :: []) [i]).
Proof.
  intros H. destruct (demo_completing i oplock) as [[t w]|] eqn:E; [|done]. pose proof (drive_to_runs _ demo_vcb demo_params _ _ _ [i] _ _ _ E) as Hr. destruct t as [|c k]; [done|]. destruct c; try done.
  cbn in H. rewrite andb_true_iff, !Z.eqb_eq in H. destruct H as [Hi ->]. exists irp, k, w. split; [done|]. eapply rtc_l; [|exact Hr].
  split; [right; apply opens_arrive; [by intros ?%elem_of_nil|done]|]. by vm_compute.
Qed.

Lemma resident_nodes_are_in_use_witness : exists w node h cs, demo_reachable (mkOpens w [] [1]) /\ Nodes (w_Store w) !! 0x3000 = Some node /\ h ∈ w_Handles w /\ leads (Nodes (w_Store w)) 0x3000 cs (hd_Node h).
Proof.
  destruct demo_opened_ok as (w & _ & Hr & _ & Hw & [node Hn]%bool_decide_eq_true & _).
  assert (Hin : in_tree node = true).
  { destruct (in_tree node) eqn:E; [done|]. destruct (rest_inv demo_root demo_vcb demo_params _ ltac:(done) Hr ltac:(done)) as [Ht _]. by destruct (t_only _ _ _ _ Ht 0x3000 node Hn E). }
  destruct (resident_nodes_are_in_use demo_root demo_vcb demo_params (mkOpens w [] [1]) 0x3000 node ltac:(done) Hr ltac:(done) Hn Hin) as (h & cs & Hh & Hl). by exists w, node, h, cs.
Defined.
Lemma counts_are_exact_witness : exists w c, demo_reachable (mkOpens w [] [1]) /\ Counters (w_Store w) !! 0x3000 = Some c /\ RefCount c = Z.of_nat (opens_of w 0x3000) /\ PinCount c = 0.
Proof.
  destruct demo_opened_ok as (w & _ & Hr & _ & Hw & [node Hn]%bool_decide_eq_true & _).
  destruct (proj1 (i_dom _ _ _ _ _ _ (rest_inv demo_root demo_vcb demo_params _ ltac:(done) Hr ltac:(done)) 0x3000) ltac:(by eexists)) as [c Hc].
  destruct (counts_are_exact demo_root demo_vcb demo_params (mkOpens w [] [1]) 0x3000 node c ltac:(done) Hr ltac:(done) Hn Hc) as (H1 & H2 & _). by exists w, c.
Defined.
Lemma nothing_is_left_witness : exists w, demo_reachable (mkOpens w [] [1]) /\ Nodes (w_Store w) = {[ demo_root := root_node; demo_vcb := vcb_node ]}.
Proof.
  destruct demo_emptied_ok as (w & Hr & Hw & Hh). exists w. split; [exact Hr|]. exact (proj1 (nothing_is_left demo_root demo_vcb demo_params (mkOpens w [] [1]) ltac:(done) Hr ltac:(done) Hh)).
Defined.
Lemma opens_use_no_freed_node_witness : exists w irp, proceeds demo_root w (CompleteCreate irp STATUS_SUCCESS) \/ waits w (CompleteCreate irp STATUS_SUCCESS).
Proof.
  destruct (demo_completing_ok 1 STATUS_SUCCESS STATUS_SUCCESS) as (irp & k & w & _ & Hr); [vm_compute; reflexivity|]. exists w, irp. exact (opens_use_no_freed_node demo_root demo_vcb demo_params w [] _ k [] [1] ltac:(done) Hr).
Defined.
Lemma opens_never_deadlock_witness : exists o, os_Threads o <> [] /\ (os_Threads o = [] \/ exists o', opens_moves demo_root o o').
Proof.
  destruct (demo_completing_ok 1 STATUS_SUCCESS STATUS_SUCCESS) as (irp & k & w & _ & Hr); [vm_compute; reflexivity|]. eexists. split; [|exact (proj2 (opens_never_deadlock demo_root demo_vcb demo_params _ ltac:(done) Hr))]. done.
Defined.
Lemma create_in_one_place_witness : exists w, demo_reachable (mkOpens w [] [1]) /\ places w ≡ₚ [1].
Proof. destruct demo_opened_ok as (w & _ & Hr & _). exists w. split; [exact Hr|]. exact (proj2 (proj2 (create_in_one_place demo_root demo_vcb demo_params _ ltac:(done) Hr)) eq_refl). Defined.
Lemma create_opens_what_was_asked_witness : exists w n node, w_Opened w !! 1 = Some n /\ Nodes (w_Store w) !! n = Some node /\ answers_open demo_params w 1 node.
Proof.
  destruct (demo_completing_ok 1 STATUS_SUCCESS STATUS_SUCCESS) as (irp & k & w & <- & Hr); [vm_compute; reflexivity|]. exists w. exact (create_opens_what_was_asked demo_root demo_vcb demo_params w [] irp k [] [_] ltac:(done) Hr).
Defined.
Lemma failed_create_opens_nothing_witness : exists w, w_Opened w !! 3 = None.
Proof.
  destruct (demo_completing_ok 3 STATUS_SUCCESS STATUS_NOT_A_DIRECTORY) as (irp & k & w & <- & Hr); [vm_compute; reflexivity|]. exists w.
  exact (proj1 (failed_create_opens_nothing demo_root demo_vcb demo_params w [] irp _ k [] [_] () _ ltac:(done) Hr ltac:(done) eq_refl)).
Defined.
Lemma lookup_agrees_with_search_witness : exists w r s', demo_reachable (mkOpens w [] [1]) /\ BlorgNodeTableLookupPin (w_Store w) [SEP; 100; SEP; 102] = Some (r, s').
Proof.
  destruct demo_opened_ok as (w & _ & Hr & _). destruct (lookup_agrees_with_search demo_root demo_vcb demo_params (mkOpens w [] [1]) [SEP; 100; SEP; 102] ltac:(done) Hr) as (r & s' & H & _). by exists w, r, s'.
Defined.

(** The oplock package answers STATUS_OPLOCK_BREAK_IN_PROGRESS to an open with
    FILE_COMPLETE_IF_OPLOCKED, for the open to go ahead.  The driver returns
    that status, a success, with no file object set up. *)
Definition STATUS_OPLOCK_BREAK_IN_PROGRESS : NTSTATUS := 0x108.
Lemma oplock_break_opens_nothing : exists w irp k,
  demo_reachable (mkOpens w ([] ++ Do (CompleteCreate irp STATUS_OPLOCK_BREAK_IN_PROGRESS) k :: []) [2]) /\ NT_SUCCESS STATUS_OPLOCK_BREAK_IN_PROGRESS = true /\ w_Opened w !! ci_Id irp = None.
Proof.
  destruct (demo_completing_ok 2 STATUS_OPLOCK_BREAK_IN_PROGRESS STATUS_OPLOCK_BREAK_IN_PROGRESS) as (irp & k & w & _ & Hr); [vm_compute; reflexivity|]. exists w, irp, k. split_and!; [exact Hr|done|].
  destruct (completing demo_root demo_vcb demo_params _ _ _ _ _ _ _ ltac:(done) Hr) as (T & F & related & Hi & HI & Hst). apply (not_attached_unopened _ _ _ _ _ _ _ _ _ Hi HI). destruct (attached T); [by destruct Hst as [_ Hst]; specialize (Hst eq_refl)|done].
Qed.
End Demo.
