(* ===== verification/OpensTeardown.v ===== *)
(** * Mounting and tearing down the volume's nodes (src/Structs.c, src/Driver.c)

    The table and the reap list as they are set up, and what
    [DriverDeleteVolumeDeviceObject] does to the nodes: the reap list is
    latched and dropped, the VCB is freed, the tree is freed leaf by leaf, and
    then the root.  It runs when no handler is under way. *)

From S2P Require Import Prelude UnicodePath PathCache ClientText Nodes NodesTree Opens OpensSystem OpensTokens OpensInvariant OpensCalls OpensCallsCounts OpensCallsTable OpensCreate OpensRun OpensTheorems.

(** ** The code *)

(** Whether the work item could be allocated. *)
Definition BlorgNodeTableInit (s : STORE) (allocated : bool) : NTSTATUS * STORE :=
  (if allocated then STATUS_SUCCESS else STATUS_INSUFFICIENT_RESOURCES,
   with_Reap (with_Table s (replicate (Z.to_nat NODE_TABLE_BUCKETS) [])) (mkReap [] false false (WorkItems (NodeReap s)))).

(** The claims of what is still on the list are given up. *)
Fixpoint drop_claims (s : STORE) (l : list Z) : option STORE :=
  match l with
  | [] => Some s
  | n :: l => s ← adjust s n (set_reap false); drop_claims s l
  end.
(** [None] also while a pass of the worker is under way, for the end of which
    the loop waits. *)
Definition BlorgNodeTableTeardown (s : STORE) : option STORE :=
  let r := NodeReap s in
  if ShuttingDown r then Some s
  else if Queued r then None
  else
    s ← drop_claims (with_Reap s (mkReap [] false true (WorkItems r))) (ReapList r);
    Some (with_Table s (replicate (Z.to_nat NODE_TABLE_BUCKETS) [])).

(** The inner loop goes down, the outer one frees what it found. *)
Fixpoint leaf_most (fuel : nat) (nodes : gmap Z NODE) (n : Z) : option Z :=
  match fuel with
  | O => None
  | S fuel =>
      node ← nodes !! n;
      match NodeTypeCode node, ChildrenList node with
      | DcbSignature, c :: _ => leaf_most fuel nodes c
      | _, _ => Some n
      end
  end.

Section Teardown.
Context {nls : Nls} (root vcb : Z).

Fixpoint DriverFreeFileContextTree (fuel deep : nat) (s : STORE) : option STORE :=
  match fuel with
  | O => None
  | S fuel =>
      r ← Nodes s !! root;
      match ChildrenList r with
      | [] => Some s
      | c :: _ =>
          n ← leaf_most deep (Nodes s) c;
          s ← BlorgFreeFileContext s n;
          DriverFreeFileContextTree fuel deep s
      end
  end.

(** The part of [DriverDeleteVolumeDeviceObject] that frees nodes. *)
Definition delete_nodes (fuel deep : nat) (s : STORE) : option STORE :=
  s ← BlorgNodeTableTeardown s;
  s ← BlorgFreeFileContext s vcb;
  s ← DriverFreeFileContextTree fuel deep s;
  BlorgFreeFileContext s root.

(** ** The tree is freed *)

Lemma leaf_most_found nodes ch b : tree_ok root vcb nodes ch -> (forall n node, nodes !! n = Some node -> (depth node <= b)%nat) ->
  forall k n node, nodes !! n = Some node -> in_tree node = true -> (b < depth node + k)%nat ->
  exists m leaf, leaf_most k nodes n = Some m /\ nodes !! m = Some leaf /\ in_tree leaf = true /\ ChildrenList leaf = [].
Proof.
  intros Ht Hb. induction k as [|k IH]; intros n node Hn Hin Hk; [apply Hb in Hn; lia|]. cbn [leaf_most]. rewrite Hn. cbn [mbind option_bind].
  destruct (ChildrenList node) as [|c l] eqn:El; [exists n, node; split; [by destruct (NodeTypeCode node)|done]|].
  destruct (t_children _ _ _ _ Ht n node c Hn ltac:(rewrite El; left)) as (m & Hm & Im & Pm). pose proof (parent_depth root vcb _ _ c m node Ht Hm Im ltac:(by rewrite Pm)) as Hd.
  unfold in_tree in Hin. destruct (NodeTypeCode node) eqn:Et; try done; [|apply (IH c m Hm Im); lia].
  pose proof (dir_or_leaf root vcb _ _ n node Ht Hn ltac:(unfold is_dir; by rewrite Et)) as E. by rewrite El in E.
Qed.

(** What holds of the store while its nodes go: the tree, and the memory of
    those left beside [rest]; the table and the reap list are as they were. *)
Definition freeing (rest : POOL) (was s : STORE) : Prop := NodeTable s = NodeTable was /\ NodeReap s = NodeReap was /\ tree_ok root vcb (Nodes s) (NodeChildren s) /\ f_fixed root vcb (Nodes s) /\ Pool s = pool_plus (pool_of (Nodes s)) rest.

Lemma pool_cancel a b c : pool_minus (pool_plus (pool_plus a b) c) a = pool_plus b c.
Proof. destruct a, b, c. unfold pool_minus, pool_plus. cbn. f_equal; lia. Qed.
Lemma fixed_alike nodes n v nodes' : is_at nodes n v -> (forall x, nodes !! n = Some x -> exists y, nodes' !! n = Some y /\ alike y x) -> is_at nodes' n v.
Proof. intros (x & Hx & <-)%is_at_node Hk. destruct (Hk x Hx) as (y & Hy & [l ->]). unfold is_at. by rewrite Hy. Qed.

Lemma leaf_freed rest was s n node : freeing rest was s -> Nodes s !! n = Some node -> in_tree node = true -> ChildrenList node = [] ->
  exists s', BlorgFreeFileContext s n = Some s' /\ freeing rest was s' /\ (size (Nodes s') < size (Nodes s))%nat /\
    (forall m x, Nodes s' !! m = Some x -> exists y, Nodes s !! m = Some y /\ depth x = depth y).
Proof.
  intros (Ht1 & Hr1 & Ht & [Hfr Hfv] & Hp) Hn Hin Hl. destruct (free_ok root vcb s n node Ht Hn Hin Hl) as (s' & p & Hs & Hpn & Ht' & HN & _ & HT & HR & HP). exists s'. split; [done|].
  set (p' := with_ChildrenList p (unlink_first n (ChildrenList p))) in *. pose proof (parent_not_self root vcb _ _ n node Ht Hn Hin) as Hne.
  assert (Hn' : <[ParentDcb node := p']> (Nodes s) !! n = Some node) by (by rewrite lookup_insert_ne).
  assert (Hkeep : forall m x, Nodes s !! m = Some x -> m <> n -> exists y, Nodes s' !! m = Some y /\ alike y x).
  { intros m x Hx Hm. rewrite HN, lookup_delete_ne by done. destruct (decide (m = ParentDcb node)) as [->|Hd]; [rewrite lookup_insert_eq; exists p'; split; [done|]; rewrite Hpn in Hx; injection Hx as <-; by eexists|].
    rewrite lookup_insert_ne by done. exists x. split; [done|apply node_alike_refl]. }
  assert (Hout : forall v, is_at (Nodes s) n v -> in_tree v = true) by (intros v Hv; by rewrite <- (is_at_view _ _ _ _ Hv Hn)).
  split_and!.
  - split_and!; [congruence|congruence|done|split; (eapply fixed_alike; [eassumption|]); intros x Hx; apply Hkeep; try done; intros ->; [by apply Hout in Hfr|by apply Hout in Hfv]|].
    rewrite HP, Hp, HN. rewrite <- (pool_of_update (Nodes s) (ParentDcb node) p p' Hpn ltac:(done)), (pool_of_delete _ n node Hn').
    assert (E : pool_of_node node = node_pool (bool_decide (NodeTypeCode node = FcbSignature)) true) by (unfold pool_of_node, in_tree, is_dir in *; by destruct (NodeTypeCode node)). rewrite E. apply pool_cancel.
  - rewrite HN, map_size_delete_Some by (by eexists). rewrite map_size_insert_Some by (by eexists). pose proof (map_size_ne_0_lookup_2 (Nodes s) n ltac:(by eexists)). lia.
  - intros m x Hx. rewrite HN in Hx. apply lookup_delete_Some in Hx as [_ Hx]. apply lookup_insert_Some in Hx as [[<- <-]|[_ Hx]]; [by exists p|by exists x].
Qed.

Lemma leads_first nodes d cs a : leads nodes d cs a -> d = a \/ exists name c, child_named nodes d name c.
Proof. destruct 1 as [|d name c cs a Hc _]; [by left|right; by exists name, c]. Qed.
(** Nothing is in a tree whose root has no child. *)
Lemma bare_tree nodes ch r : tree_ok root vcb nodes ch -> nodes !! root = Some r -> ChildrenList r = [] -> forall m node, nodes !! m = Some node -> in_tree node = false.
Proof.
  intros Ht Hr Hl m node Hm. destruct (in_tree node) eqn:E; [|done]. destruct (leads_first _ _ _ _ (node_leads root vcb _ _ m node Ht Hm E)) as [Er|(name & c & x & Hx & Ix & Px & _)].
  - destruct (t_root _ _ _ _ Ht) as (r' & Hr' & Et). rewrite Er, Hm in Hr'. injection Hr' as ->. unfold in_tree in E. by rewrite Et in E.
  - destruct (t_parent _ _ _ _ Ht c x Hx Ix) as (q & Hq & _ & Hc & _). rewrite Px, Hr in Hq. injection Hq as <-. rewrite Hl in Hc. by apply elem_of_nil in Hc.
Qed.

Lemma tree_freed rest was b : forall fuel deep s, freeing rest was s -> (forall n node, Nodes s !! n = Some node -> (depth node <= b)%nat) -> (size (Nodes s) < fuel)%nat -> (b < deep)%nat ->
  exists s', DriverFreeFileContextTree fuel deep s = Some s' /\ freeing rest was s' /\ forall m node, Nodes s' !! m = Some node -> in_tree node = false.
Proof.
  induction fuel as [|fuel IH]; intros deep s Hf Hb Hk Hd; [lia|]. pose proof Hf as (_ & _ & Ht & _). destruct (t_root _ _ _ _ Ht) as (r & Hr & _). cbn [DriverFreeFileContextTree]. rewrite Hr. cbn [mbind option_bind].
  destruct (ChildrenList r) as [|c l] eqn:El; [exists s; split_and!; [done|done|exact (bare_tree _ _ r Ht Hr El)]|].
  destruct (t_children _ _ _ _ Ht root r c Hr ltac:(rewrite El; left)) as (m & Hm & Im & _). destruct (leaf_most_found _ _ b Ht Hb deep c m Hm Im ltac:(lia)) as (n & leaf & -> & Hn & Hin & Hleaf). cbn [mbind option_bind].
  destruct (leaf_freed rest was s n leaf Hf Hn Hin Hleaf) as (s1 & -> & Hf1 & Hs & Hdep). cbn [mbind option_bind]. apply IH; [done| |lia|done]. intros x node Hx. destruct (Hdep x node Hx) as (y & Hy & ->). by eapply Hb.
Qed.

(** ** The VCB goes first *)

(** The store without the VCB; the tree's nodes are freed alike in both. *)
Definition less_vcb (s : STORE) : STORE :=
  mkStore (delete vcb (Nodes s)) (delete vcb (Counters s)) (delete vcb (Metadata s)) (NodeTable s) (NodeChildren s) (NodeReap s) (pool_minus (Pool s) (node_pool true false)).

Lemma vcb_freed s node : Nodes s !! vcb = Some node -> NodeTypeCode node = VcbSignature -> BlorgFreeFileContext s vcb = Some (less_vcb s).
Proof. intros Hn Ht. unfold BlorgFreeFileContext. rewrite Hn. cbn [mbind option_bind]. by rewrite Ht. Qed.
Lemma pool_minus_comm p q r : pool_minus (pool_minus p q) r = pool_minus (pool_minus p r) q.
Proof. unfold pool_minus. cbn. f_equal; lia. Qed.

Lemma free_less_vcb s n node s' : Nodes s !! n = Some node -> in_tree node = true -> n <> vcb -> ParentDcb node <> vcb -> BlorgFreeFileContext s n = Some s' -> BlorgFreeFileContext (less_vcb s) n = Some (less_vcb s').
Proof.
  intros Hn Hin Hv Hp. unfold BlorgFreeFileContext. cbn [less_vcb Nodes NodeChildren]. rewrite lookup_delete_ne, Hn by done. cbn [mbind option_bind]. unfold in_tree in Hin.
  destruct (NodeTypeCode node); try done; (destruct (NodeChildUnlink _ _ _) as [ch|]; cbn [mbind option_bind]; [|done]); rewrite lookup_delete_ne by done;
    (destruct (Nodes s !! ParentDcb node) as [p|]; cbn [mbind option_bind]; [|done]); case_bool_decide; [|done| |done]; intros [= <-]; unfold less_vcb; cbn; do 2 f_equal;
    try apply pool_minus_comm; rewrite (delete_delete _ vcb n); try done; rewrite (delete_insert_ne _ vcb) by (by apply not_eq_sym); done.
Qed.

Lemma leaf_less_vcb nodes ch : root <> vcb -> tree_ok root vcb nodes ch -> forall k n node, nodes !! n = Some node -> in_tree node = true -> leaf_most k (delete vcb nodes) n = leaf_most k nodes n.
Proof.
  intros Hne Ht. assert (Hv : forall n node, nodes !! n = Some node -> in_tree node = true -> n <> vcb).
  { intros n node Hn Hin ->. destruct (t_vcb _ _ _ _ Ht) as (v & Hv & Et). rewrite Hn in Hv. injection Hv as ->. unfold in_tree in Hin. by rewrite Et in Hin. }
  induction k as [|k IH]; intros n node Hn Hin; [done|]. cbn [leaf_most]. rewrite lookup_delete_ne by (by eapply not_eq_sym, Hv). rewrite Hn. cbn [mbind option_bind]. destruct (NodeTypeCode node); try done. destruct (ChildrenList node) as [|c l] eqn:El; [done|].
  destruct (t_children _ _ _ _ Ht n node c Hn ltac:(rewrite El; left)) as (m & Hm & Im & _). by apply (IH c m).
Qed.

Lemma tree_less_vcb rest was b : root <> vcb -> forall fuel deep s s', freeing rest was s -> (forall n node, Nodes s !! n = Some node -> (depth node <= b)%nat) -> (b < deep)%nat ->
  DriverFreeFileContextTree fuel deep s = Some s' -> DriverFreeFileContextTree fuel deep (less_vcb s) = Some (less_vcb s').
Proof.
  intros Hne. induction fuel as [|fuel IH]; intros deep s s' Hf Hb Hd; [done|]. pose proof Hf as (_ & _ & Ht & _). destruct (t_root _ _ _ _ Ht) as (r & Hr & _), (t_vcb _ _ _ _ Ht) as (v & Hv & Tv).
  cbn [DriverFreeFileContextTree less_vcb Nodes]. rewrite lookup_delete_ne, Hr by done. cbn [mbind option_bind]. destruct (ChildrenList r) as [|c l] eqn:El; [by intros [= <-]|].
  destruct (t_children _ _ _ _ Ht root r c Hr ltac:(rewrite El; left)) as (m & Hm & Im & _). rewrite (leaf_less_vcb _ _ Hne Ht deep c m Hm Im).
  destruct (leaf_most_found _ _ b Ht Hb deep c m Hm Im ltac:(lia)) as (n & leaf & -> & Hn & Hin & Hleaf). cbn [mbind option_bind].
  destruct (leaf_freed rest was s n leaf Hf Hn Hin Hleaf) as (s1 & Hs1 & Hf1 & _ & Hdep). rewrite Hs1. cbn [mbind option_bind].
  assert (Hnv : n <> vcb) by (intros ->; rewrite Hn in Hv; injection Hv as ->; unfold in_tree in Hin; by rewrite Tv in Hin).
  assert (Hpv : ParentDcb leaf <> vcb) by (intros E; destruct (t_parent _ _ _ _ Ht n leaf Hn Hin) as (q & Hq & Dq & _); rewrite E, Hv in Hq; injection Hq as <-; unfold is_dir in Dq; by rewrite Tv in Dq).
  change (mkStore _ _ _ _ _ _ _) with (less_vcb s). rewrite (free_less_vcb s n leaf s1 Hn Hin Hnv Hpv Hs1). cbn [mbind option_bind]. apply IH; [done| |done]. intros x node Hx. destruct (Hdep x node Hx) as (y & Hy & ->). by eapply Hb.
Qed.

(** ** The whole teardown *)

Lemma pool_left c : root <> vcb -> pool_minus (pool_minus (pool_plus (pool_of {[ root := root_node; vcb := vcb_node ]}) (mkPool 0 0 0 c 0 0)) (node_pool true false)) (node_pool false true) = mkPool 0 0 0 c 0 0.
Proof.
  intros Hne. rewrite pool_of_insert by (by apply lookup_singleton_ne). rewrite <- insert_empty, pool_of_insert by apply lookup_empty. unfold pool_of. rewrite map_fold_empty. unfold pool_minus, pool_plus. cbn. f_equal; lia.
Qed.

Context (params : Z -> CREATE_PARAMS).

(** C30: Unloading gives every node back.  From every state at rest, whatever
    file objects are still open, the teardown ends: its outer loop given one
    turn more than there are nodes, and each descent to a leaf one turn more
    than the deepest node's path has names, it returns, with
    no node, an empty table and an empty child index, no claim on the reap list,
    and of all the memory and resources of nodes nothing: only the CCBs of the
    file objects still open. *)
Theorem teardown_frees_everything o fuel deep :
  root <> vcb -> opens_reachable root vcb params o -> at_rest o ->
  (size (Nodes (w_Store (os_World o))) < fuel)%nat -> (forall n node, Nodes (w_Store (os_World o)) !! n = Some node -> (depth node < deep)%nat) ->
    exists s, delete_nodes fuel deep (w_Store (os_World o)) = Some s /\ Nodes s = ∅ /\ (forall b l, rd (NodeTable s) b = Some l -> l = []) /\
      (forall b l, rd (NodeChildren s) b = Some l -> l = []) /\ ShuttingDown (NodeReap s) = true /\ ReapList (NodeReap s) = [] /\
      Pool s = mkPool 0 0 0 (Z.of_nat (total (ccb_handle vcb) (w_Handles (os_World o)))) 0 0.
Proof.
  intros Hne Hr Ha Hf Hd. pose proof (rest_inv root vcb params o Hne Hr Ha) as Hi. set (s0 := w_Store (os_World o)) in *. set (b := pred deep).
  assert (Hb : forall n node, Nodes s0 !! n = Some node -> (depth node <= b)%nat) by (intros n node Hn; specialize (Hd n node Hn); unfold b; lia).
  assert (Hbd : (b < deep)%nat) by (destruct (t_root _ _ _ _ (i_tree _ _ _ _ _ _ Hi)) as (r & Hroot & _); specialize (Hd _ _ Hroot); unfold b; lia).
  pose proof (rest_reaped root vcb params _ _ Hi (proj2 Ha)) as Hreap. destruct (i_kick _ _ _ _ _ _ Hi) as [Hsd _], (i_gate _ _ _ _ _ _ Hi) as [_ Hg]. rewrite (proj2 Ha) in Hg. fold s0 in Hsd, Hg, Hreap.
  assert (Hq : Queued (NodeReap s0) = false) by (by destruct (Queued (NodeReap s0))). unfold delete_nodes, BlorgNodeTableTeardown. rewrite Hsd, Hq, Hreap. cbn [drop_claims mbind option_bind].
  set (s1 := with_Table _ _). assert (Hfree : freeing (mkPool 0 0 0 (Z.of_nat (total (ccb_handle vcb) (w_Handles (os_World o)))) 0 0) s1 s1) by (split_and!; [done|done|exact (i_tree _ _ _ _ _ _ Hi)|exact (i_fixed _ _ _ _ _ _ Hi)|exact (i_pool _ _ _ _ _ _ Hi)]).
  destruct (t_vcb _ _ _ _ (i_tree _ _ _ _ _ _ Hi)) as (v & Hv & Tv). rewrite (vcb_freed s1 v Hv Tv). cbn [mbind option_bind].
  destruct (tree_freed _ s1 b fuel deep s1 Hfree Hb ltac:(cbn; fold s0; lia) ltac:(lia)) as (s2 & Hs2 & (HT2 & HR2 & Ht2 & Hx2 & Hp2) & Hno). rewrite (tree_less_vcb _ s1 b Hne fuel deep s1 s2 Hfree Hb ltac:(lia) Hs2). cbn [mbind option_bind].
  pose proof (bare_nodes root vcb _ _ Hne Ht2 Hx2 Hno) as HN. assert (Hroot : Nodes (less_vcb s2) !! root = Some root_node) by (cbn; rewrite HN, lookup_delete_ne by done; apply lookup_insert_eq).
  unfold BlorgFreeFileContext. rewrite Hroot. cbn [mbind option_bind NodeTypeCode root_node]. eexists. split; [done|]. cbn [Nodes NodeTable NodeChildren NodeReap Pool less_vcb]. split_and!.
  - rewrite HN. apply map_empty. intros n. destruct (decide (n = root)) as [->|Hn]; [apply lookup_delete_eq|]. rewrite lookup_delete_ne by done. destruct (decide (n = vcb)) as [->|Hv']; [apply lookup_delete_eq|]. rewrite lookup_delete_ne, lookup_insert_ne, lookup_singleton_ne by done. done.
  - rewrite HT2. intros b' l Hl. cbn in Hl. by apply rd_replicate in Hl.
  - intros b' l Hl. apply (empty_chain _ b' l Hl). intros n (node & Hn & Hin & _)%(t_index _ _ _ _ Ht2 n b' l Hl). apply Hno in Hn. congruence.
  - by rewrite HR2.
  - by rewrite HR2.
  - rewrite Hp2, HN. by apply pool_left.
Qed.
End Teardown.

(** One file is open; no path has more than two names. *)
Lemma demo_shallow w : demo_opened = Some w -> forall n node, Nodes (w_Store w) !! n = Some node -> (depth (nls := demo_nls) node < 3)%nat.
Proof.
  intros Hw. assert (E : match demo_opened with Some w => bool_decide (map_Forall (fun _ node => (depth (nls := demo_nls) node < 3)%nat) (Nodes (w_Store w))) | None => true end = true) by (vm_compute; reflexivity).
  rewrite Hw in E. by apply bool_decide_eq_true in E.
Qed.

Lemma teardown_frees_everything_witness : exists w s, opens_reachable (nls := demo_nls) demo_root demo_vcb demo_params (mkOpens w [] [1]) /\ length (w_Handles w) = 1%nat /\
  delete_nodes (nls := demo_nls) demo_root demo_vcb (S (size (Nodes (w_Store w)))) 3 (w_Store w) = Some s /\ Nodes s = ∅.
Proof.
  destruct demo_opened_ok as (w & Ew & Hr & _ & Hw & _ & Hl). pose proof (demo_shallow w Ew) as Hd. clear Ew.
  destruct (teardown_frees_everything (nls := demo_nls) demo_root demo_vcb demo_params (mkOpens w [] [1]) (S (size (Nodes (w_Store w)))) 3 ltac:(done) Hr ltac:(done) (Nat.lt_succ_diag_r _) Hd) as (s & Hs & Hn & _).
  by exists w, s.
Defined.
