(* ===== verification/ListingDecode.v ===== *)
(** * Decoding a listing (src/Client.c)

    A listing comes as a FlatBuffers table; [HttpDecodeListing] turns a
    verified one into a [DIRECTORY_INFO]: one pass sizes the names, one
    allocation, one pass converts them into the block one after another, and
    the name index is built.  The reader flatcc generates is what its
    accessors give ([FLAT_DIRECTORY]); the kernel's UTF-8 conversion is the
    class [Utf8].  Every [DIRECTORY_INFO] of the driver comes from here. *)

From S2P Require Import Prelude Buffers UnicodePath PathCache ListingIndex.

(** [RtlUTF8ToUnicodeN(.., maxBytes, .., utf8, length)]: the status and the
    UTF-16 units written.  No conversion writes more than [maxBytes], nor more
    units than there were UTF-8 bytes. *)
Class Utf8 := {
  RtlUTF8ToUnicodeN : Z -> BYTES -> NTSTATUS * list Z;
  utf8_max maxBytes s st u : RtlUTF8ToUnicodeN maxBytes s = (st, u) -> NT_SUCCESS st = true -> 2 * Z.of_nat (length u) <= maxBytes;
  utf8_shrinks maxBytes s st u : RtlUTF8ToUnicodeN maxBytes s = (st, u) -> NT_SUCCESS st = true -> (length u <= length s)%nat;
  utf8_units maxBytes s st u : RtlUTF8ToUnicodeN maxBytes s = (st, u) -> NT_SUCCESS st = true -> Forall (fun c => 0 <= c < 65536) u
}.

(** What the accessors of an entry give; a missing entry has no name. *)
Record FLAT_FILE := mkFlatFile { ff_Name : option BYTES; ff_Size : Z; ff_Created : Z; ff_Accessed : Z; ff_Modified : Z }.
Record FLAT_SUBDIR := mkFlatSubDir { fs_Name : option BYTES; fs_Created : Z; fs_Accessed : Z; fs_Modified : Z }.
(** A missing vector is empty. *)
Record FLAT_DIRECTORY := mkFlat { fd_Files : list FLAT_FILE; fd_SubDirs : list FLAT_SUBDIR }.

Definition HTTP_MIN_LISTING_ENTRY_WIRE_BYTES : Z := 4.
Definition HttpListingCountsAreCredible (subdirCount filesCount bodyLen : Z) : bool :=
  match HttpCheckedAddSizeT subdirCount filesCount with
  | None => false
  | Some totalCount => negb (bodyLen / HTTP_MIN_LISTING_ENTRY_WIRE_BYTES <? totalCount)
  end.

(** The first pass: the bytes all names need, [None] for a name that is
    missing or empty. *)
Fixpoint names_size (names : list (option BYTES)) (nameBytes : Z) : option Z :=
  match names with
  | [] => Some nameBytes
  | (None | Some []) :: _ => None
  | Some name :: names =>
      nameBytes ← HttpCheckedAddSizeT nameBytes (u64 (u64 (Z.of_nat (length name) + 1) * 2));
      names_size names nameBytes
  end.

(** A decoded listing: the model's [DIRECTORY_INFO], the block's layout, the
    names area as it is in the block (in characters), each entry's [Name] as
    an offset in it, files first, and the name index. *)
Record DECODED := mkDecoded {
  dc_Info : DIRECTORY_INFO;
  dc_Layout : LISTING_LAYOUT;
  dc_Names : list Z;
  dc_At : list Z;
  dc_Index : list Z * list Z
}.

Section Decode.
Context {nls : Nls} {utf8 : Utf8}.

(** The name's characters, the area with them written, and the cursor past the
    terminator; [None]: a write outside the block. *)
Definition HttpDecodeName (name : BYTES) (area : list Z) (cursor : Z) : option (NTSTATUS + list Z * list Z * Z) :=
  let '(st, units) := RtlUTF8ToUnicodeN ((MAX_NAME_LEN - 1) * 2) (take (Z.to_nat (u32 (Z.of_nat (length name)))) name) in
  if negb (NT_SUCCESS st) then Some (inl st)
  else area ← wr_list area cursor units; Some (inr (units, area, cursor + Z.of_nat (length units) + 1)).

Section Loop.
Context {A B : Type} (name_of : A -> BYTES) (build : A -> list Z -> B).

(** The entries of one kind: the area, the cursor, the entries and where their
    names are. *)
Fixpoint decode_loop (l : list A) (area : list Z) (cursor : Z) : option (NTSTATUS + list Z * Z * list B * list Z) :=
  match l with
  | [] => Some (inr (area, cursor, [], []))
  | a :: l =>
      r ← HttpDecodeName (name_of a) area cursor;
      match r with
      | inl st => Some (inl st)
      | inr (units, area, next) =>
          r ← decode_loop l area next;
          Some (match r with inl st => inl st | inr (area, final, bs, ats) => inr (area, final, build a units :: bs, cursor :: ats) end)
      end
  end.
End Loop.

Definition file_name (f : FLAT_FILE) : BYTES := default [] (ff_Name f).
Definition subdir_name (s : FLAT_SUBDIR) : BYTES := default [] (fs_Name s).
(** The fields are 64 bits wide. *)
Definition build_file (f : FLAT_FILE) (name : list Z) : DIRECTORY_FILE_METADATA := mkFile (u64 (ff_Size f)) (u64 (ff_Created f)) (u64 (ff_Accessed f)) (u64 (ff_Modified f)) name.
Definition build_subdir (s : FLAT_SUBDIR) (name : list Z) : DIRECTORY_SUBDIR_METADATA := mkSubDir (u64 (fs_Created s)) (u64 (fs_Accessed s)) (u64 (fs_Modified s)) name.

Definition HttpDecodeListing (flat : FLAT_DIRECTORY) (bodyLen : Z) (noStore allocOk : bool) : option (NTSTATUS + DECODED) :=
  let filesCount := Z.of_nat (length (fd_Files flat)) in
  let subdirCount := Z.of_nat (length (fd_SubDirs flat)) in
  if negb (HttpListingCountsAreCredible subdirCount filesCount bodyLen) then Some (inl STATUS_INVALID_PARAMETER)
  else
    match names_size ((ff_Name <$> fd_Files flat) ++ (fs_Name <$> fd_SubDirs flat)) 0 with
    | None => Some (inl STATUS_INVALID_PARAMETER)
    | Some nameBytes =>
        match BlorgAllocateDirectoryInfo filesCount subdirCount nameBytes allocOk with
        | None => Some (inl STATUS_INSUFFICIENT_RESOURCES)
        | Some lay =>
            r ← decode_loop file_name build_file (fd_Files flat) (replicate (Z.to_nat (nameBytes / 2)) 0) 0;
            match r with
            | inl st => Some (inl st)
            | inr (area, cursor, files, ats) =>
                r ← decode_loop subdir_name build_subdir (fd_SubDirs flat) area cursor;
                match r with
                | inl st => Some (inl st)
                | inr (area, _, subdirs, ats') =>
                    let info := mkListing files subdirs (LayoutBytes lay) noStore in
                    index ← BlorgIndexDirectoryInfo (IndexMask lay) (HttpListingEntryNames info);
                    Some (inr (mkDecoded info lay area (ats ++ ats') index))
                end
            end
        end
    end.
End Decode.

(** ** What a decode gives *)

(** A string up to its first NUL. *)
Fixpoint until_nul (l : list Z) : list Z := match l with [] => [] | c :: l => if c =? 0 then [] else c :: until_nul l end.

(** Names one after another, each with its terminator, and where each starts. *)
Definition laid (names : list (list Z)) : list Z := names ≫= (fun n => n ++ [0]).
Fixpoint offsets (at_ : Z) (names : list (list Z)) : list Z :=
  match names with [] => [] | n :: names => at_ :: offsets (at_ + Z.of_nat (length n) + 1) names end.

Lemma laid_cons n l : laid (n :: l) = n ++ 0 :: laid l.
Proof. unfold laid. cbn [mbind list_bind]. by rewrite <- app_assoc. Qed.
Lemma laid_app l l' : laid (l ++ l') = laid l ++ laid l'.
Proof. apply bind_app. Qed.
Lemma offsets_app l l' a : offsets a (l ++ l') = offsets a l ++ offsets (a + Z.of_nat (length (laid l))) l'.
Proof.
  revert a. induction l as [|n l IH]; intros a; cbn [app offsets]; [by rewrite Z.add_0_r|]. rewrite IH. f_equal. f_equal. f_equal. unfold laid. cbn [mbind list_bind]. rewrite !length_app. cbn [length]. lia.
Qed.

Lemma until_nul_stop n rest : until_nul (n ++ 0 :: rest) = until_nul n.
Proof. induction n as [|c n IH]; cbn [app until_nul]; [done|]. destruct (c =? 0); [done|]. by rewrite IH. Qed.

(** Read up to a NUL, a name of the area is what it is up to its own first NUL:
    the terminators stand. *)
Lemma laid_reads names rest pre i n p :
  names !! i = Some n -> offsets (Z.of_nat (length pre)) names !! i = Some p -> until_nul (drop (Z.to_nat p) (pre ++ laid names ++ rest)) = until_nul n.
Proof.
  revert pre i. induction names as [|m names IH]; intros pre i Hn Hp; [done|]. unfold laid. cbn [mbind list_bind]. fold (laid names). destruct i as [|i]; cbn [offsets lookup list_lookup] in Hn, Hp.
  - injection Hn as ->. injection Hp as <-. rewrite Nat2Z.id, drop_app_length. rewrite <- !app_assoc. apply until_nul_stop.
  - specialize (IH (pre ++ m ++ [0]) i Hn). rewrite !length_app in IH. cbn [length] in IH. replace (Z.of_nat (length pre) + Z.of_nat (length m) + 1) with (Z.of_nat (length pre + (length m + 1))) in Hp by lia.
    rewrite <- (IH Hp). by rewrite <- !app_assoc.
Qed.

(** What the allocation fixes. *)
Lemma layout_facts fileCount subDirCount nameBytes allocOk lay :
  0 <= fileCount <= MAXULONG64 -> 0 <= subDirCount <= MAXULONG64 -> 0 <= nameBytes <= MAXULONG64 ->
  BlorgAllocateDirectoryInfo fileCount subDirCount nameBytes allocOk = Some lay ->
  fileCount + subDirCount <= MAXULONG / 4 /\ LayoutBytes lay = NamesOffset lay + nameBytes /\ 0 <= IndexMask lay.
Proof.
  intros Hf Hs Hn E. destruct (listing_layout_fits fileCount subDirCount nameBytes allocOk lay Hf Hs Hn E) as (H1 & _ & _ & _ & H2 & _ & [k Hk] & _). pose proof (Z.pow_pos_nonneg 2 (Z.of_nat k)). split_and!; [done|done|lia].
Qed.

Section Facts.
Context {nls : Nls} {utf8 : Utf8}.

(** A name as the client keeps it. *)
Definition name_kept (n : list Z) : Prop := Z.of_nat (length n) < MAX_NAME_LEN /\ Forall (fun c => 0 <= c < 65536) n.

(** [n] is what the kernel makes of the UTF-8 [s]. *)
Definition converts (s : BYTES) (n : list Z) : Prop := exists st, RtlUTF8ToUnicodeN ((MAX_NAME_LEN - 1) * 2) s = (st, n) /\ NT_SUCCESS st = true.

Lemma converts_kept s n : converts s n -> name_kept n /\ (length n <= length s)%nat.
Proof.
  intros (st & E & Hs). pose proof (utf8_max _ _ _ _ E Hs). pose proof (utf8_shrinks _ _ _ _ E Hs). pose proof (utf8_units _ _ _ _ E Hs). unfold name_kept, MAX_NAME_LEN in *. split_and!; try done; lia.
Qed.

(** Characters the names of a list need at most. *)
Definition room_for (names : list BYTES) : nat := foldr (fun s n => (length s + 1 + n)%nat) 0%nat names.

Lemma decode_name_ok s pre m : Z.of_nat (length s) < 4294967296 -> (length s < m)%nat ->
  (exists st, HttpDecodeName s (pre ++ replicate m 0) (Z.of_nat (length pre)) = Some (inl st) /\ NT_SUCCESS st = false) \/
  exists n, converts s n /\ HttpDecodeName s (pre ++ replicate m 0) (Z.of_nat (length pre)) =
    Some (inr (n, (pre ++ n ++ [0]) ++ replicate (m - length n - 1) 0, Z.of_nat (length (pre ++ n ++ [0])))).
Proof.
  intros Hs Hm. unfold HttpDecodeName. rewrite u32_id, Nat2Z.id, take_ge by lia. destruct (RtlUTF8ToUnicodeN _ s) as [st n] eqn:E. destruct (NT_SUCCESS st) eqn:Est; cbn [negb]; [right|left; by exists st].
  assert (Hc : converts s n) by (by exists st). exists n. split; [done|]. pose proof (proj2 (converts_kept _ _ Hc)) as Hl.
  replace (replicate m 0) with (replicate (length n) 0 ++ [0] ++ replicate (m - length n - 1) 0) by (change [0] with (replicate 1 0); rewrite <- !replicate_add; f_equal; lia).
  rewrite wr_list_hole by (by rewrite ?length_replicate). cbn [mbind option_bind]. rewrite !length_app. cbn [length]. rewrite <- !app_assoc. do 3 f_equal. lia.
Qed.

Section Loop.
Context {A B : Type} (name_of : A -> BYTES) (build : A -> list Z -> B).

Lemma decode_loop_ok l : forall pre m, Forall (fun a => Z.of_nat (length (name_of a)) < 4294967296) l -> (room_for (name_of <$> l) <= m)%nat ->
  (exists st, decode_loop name_of build l (pre ++ replicate m 0) (Z.of_nat (length pre)) = Some (inl st) /\ NT_SUCCESS st = false) \/
  exists names, Forall2 (fun a n => converts (name_of a) n) l names /\ (length (laid names) <= room_for (name_of <$> l))%nat /\
    decode_loop name_of build l (pre ++ replicate m 0) (Z.of_nat (length pre)) =
    Some (inr (pre ++ laid names ++ replicate (m - length (laid names)) 0, Z.of_nat (length (pre ++ laid names)), zip_with build l names, offsets (Z.of_nat (length pre)) names)).
Proof.
  induction l as [|a l IH]; intros pre m Hl Hm; cbn [decode_loop].
  { right. exists []. cbn [laid mbind list_bind length app zip_with offsets]. rewrite app_nil_r, Nat.sub_0_r. split_and!; [constructor|lia|done]. }
  rewrite Forall_cons in Hl. destruct Hl as [Ha Hl]. cbn [fmap list_fmap room_for foldr] in Hm. fold (room_for (name_of <$> l)) in Hm.
  destruct (decode_name_ok (name_of a) pre m Ha ltac:(lia)) as [(st & -> & Hst)|(n & Hc & ->)]; [left; by exists st|]. cbn [mbind option_bind].
  pose proof (proj2 (converts_kept _ _ Hc)) as Hn. destruct (IH (pre ++ n ++ [0]) (m - length n - 1)%nat Hl ltac:(lia)) as [(st & -> & Hst)|(names & Hf & Hlen & ->)]; [left; by exists st|].
  right. exists (n :: names). cbn [mbind option_bind zip_with offsets]. rewrite !laid_cons, !length_app in *. cbn [length fmap list_fmap room_for foldr] in *. fold (room_for (name_of <$> l)).
  split_and!; [by constructor|lia|]. rewrite <- !app_assoc. cbn [app].
  replace (m - length n - 1 - length (laid names))%nat with (m - (length n + S (length (laid names))))%nat by lia.
  replace (length pre + (length n + 1) + length (laid names))%nat with (length pre + (length n + S (length (laid names))))%nat by lia.
  by replace (Z.of_nat (length pre + (length n + 1))) with (Z.of_nat (length pre) + Z.of_nat (length n) + 1) by lia.
Qed.
End Loop.

(** What flatcc's verifier and the request checked: the body is within
    HTTP_MAX_CONTENT_LENGTH, and its vectors and strings lie in it. *)
Record flat_verified (flat : FLAT_DIRECTORY) (bodyLen : Z) : Prop := {
  fv_body : 0 <= bodyLen <= 67108864;
  fv_files : Z.of_nat (length (fd_Files flat)) <= bodyLen;
  fv_subdirs : Z.of_nat (length (fd_SubDirs flat)) <= bodyLen;
  fv_file_names : Forall (fun f => Z.of_nat (length (file_name f)) <= bodyLen) (fd_Files flat);
  fv_subdir_names : Forall (fun s => Z.of_nat (length (subdir_name s)) <= bodyLen) (fd_SubDirs flat)
}.

Lemma names_size_exact names : forall n0 n, Forall (fun o => Z.of_nat (length (default [] o)) <= 67108864) names -> 0 <= n0 < 18446744073709551616 -> names_size names n0 = Some n ->
  n = n0 + 2 * Z.of_nat (room_for (default [] <$> names)) /\ n < 18446744073709551616.
Proof.
  induction names as [|o names IH]; intros n0 n Hl Hn0 E; cbn [names_size] in E; [injection E as <-; cbn; lia|]. rewrite Forall_cons in Hl. destruct Hl as [Ho Hl].
  destruct o as [[|c s]|]; try done. set (nm := c :: s) in *. change (Z.of_nat (length nm) <= 67108864) in Ho. assert (Hbyte : (1 <= length nm)%nat) by (cbn; lia). rewrite (u64_id (_ + 1)), u64_id, checked_add_spec in E by lia.
  destruct (Z.ltb_spec (n0 + (Z.of_nat (length nm) + 1) * 2) 18446744073709551616); [|done]. cbn [mbind option_bind] in E. destruct (fun H => IH _ _ Hl H E) as [-> Hlt]; [lia|].
  cbn [fmap list_fmap room_for foldr default id from_option]. fold (room_for (default [] <$> names)). lia.
Qed.

Lemma room_for_app l l' : room_for (l ++ l') = (room_for l + room_for l')%nat.
Proof. induction l as [|s l IH]; [done|]. cbn [app room_for foldr]. fold (room_for (l ++ l')) (room_for l). lia. Qed.

Record decoded_ok (flat : FLAT_DIRECTORY) (noStore : bool) (dec : DECODED) : Prop := {
  do_files : exists names, Forall2 (fun f n => converts (file_name f) n) (fd_Files flat) names /\ Files (dc_Info dec) = zip_with build_file (fd_Files flat) names;
  do_subdirs : exists names, Forall2 (fun s n => converts (subdir_name s) n) (fd_SubDirs flat) names /\ SubDirs (dc_Info dec) = zip_with build_subdir (fd_SubDirs flat) names;
  do_count : Z.of_nat (length (fd_Files flat)) + Z.of_nat (length (fd_SubDirs flat)) <= MAXULONG / 4;
  do_header : InfoBytes (dc_Info dec) = LayoutBytes (dc_Layout dec) /\ InfoNoStore (dc_Info dec) = noStore;
  do_block : NamesOffset (dc_Layout dec) + 2 * Z.of_nat (length (dc_Names dec)) = LayoutBytes (dc_Layout dec);
  do_at : length (dc_At dec) = length (HttpListingEntryNames (dc_Info dec));
  do_reads i n p : HttpListingEntryNames (dc_Info dec) !! i = Some n -> dc_At dec !! i = Some p -> until_nul (drop (Z.to_nat p) (dc_Names dec)) = until_nul n
}.

Lemma length_offsets a names : length (offsets a names) = length names.
Proof. revert a. induction names as [|n names IH]; intros a; [done|]. cbn. by rewrite IH. Qed.

Lemma built_names {A B} (build : A -> list Z -> B) (name : B -> list Z) (Hb : forall a n, name (build a n) = n) (l : list A) names :
  length l = length names -> name <$> zip_with build l names = names.
Proof. revert names. induction l as [|a l IH]; intros [|n names] Hl; try done. cbn in *. rewrite Hb, IH by lia. done. Qed.

(** A verified listing decodes to an answer: no name is written outside the
    block, and a failure is an error status; on success the entries are the
    table's, in order, with their names as the kernel converts them, the names
    area fills the block to its end, and read up to a NUL every [Name] gives
    its name up to its first NUL. *)
Theorem decode_listing_exact flat bodyLen noStore allocOk : flat_verified flat bodyLen ->
  exists r, HttpDecodeListing flat bodyLen noStore allocOk = Some r /\ match r with inl st => NT_SUCCESS st = false | inr dec => decoded_ok flat noStore dec end.
Proof.
  intros [Vb Vf Vs Vfn Vsn]. unfold HttpDecodeListing. destruct (HttpListingCountsAreCredible _ _ _); cbn [negb]; [|by exists (inl STATUS_INVALID_PARAMETER)].
  destruct (names_size _ 0) as [nameBytes|] eqn:En; [|by exists (inl STATUS_INVALID_PARAMETER)].
  apply names_size_exact in En as [-> Hlt]; [|apply Forall_app; split; apply Forall_fmap; [eapply Forall_impl; [exact Vfn|]|eapply Forall_impl; [exact Vsn|]]; unfold compose, file_name, subdir_name; lia|lia].
  rewrite fmap_app, <- !list_fmap_compose, room_for_app in *. change (default [] ∘ ff_Name) with file_name in *. change (default [] ∘ fs_Name) with subdir_name in *.
  set (rf := room_for (file_name <$> fd_Files flat)) in *. set (rs := room_for (subdir_name <$> fd_SubDirs flat)) in *.
  destruct (BlorgAllocateDirectoryInfo _ _ _ allocOk) as [lay|] eqn:Ea; [|by exists (inl STATUS_INSUFFICIENT_RESOURCES)].
  apply layout_facts in Ea as (Hcount & Hbytes & Hmask); [|unfold MAXULONG64; lia..].
  replace (Z.to_nat ((0 + 2 * Z.of_nat (rf + rs)) / 2)) with (rf + rs)%nat by (rewrite Z.add_0_l, Z.mul_comm, Z.div_mul by lia; lia).
  destruct (decode_loop_ok file_name build_file (fd_Files flat) [] (rf + rs)) as [(st & E1 & Hst)|(fn & Ff & Lf & E1)]; [eapply Forall_impl; [exact Vfn|]; cbn; lia|fold rf; lia| |].
  { change (Z.of_nat (length (@nil Z))) with 0 in E1. cbn [app] in E1. rewrite E1. cbn [mbind option_bind]. by exists (inl st). }
  change (Z.of_nat (length (@nil Z))) with 0 in E1. cbn [app] in E1. rewrite E1. cbn [mbind option_bind]. fold rf in Lf.
  destruct (decode_loop_ok subdir_name build_subdir (fd_SubDirs flat) (laid fn) (rf + rs - length (laid fn))) as [(st & E2 & Hst)|(sn & Fs & Ls & E2)]; [eapply Forall_impl; [exact Vsn|]; cbn; lia|fold rs; lia| |].
  { rewrite E2. cbn [mbind option_bind]. by exists (inl st). }
  rewrite E2. cbn [mbind option_bind]. fold rs in Ls. set (info := mkListing _ _ _ _). destruct (index_spec (IndexMask lay) (HttpListingEntryNames info) Hmask) as (ch & lk & -> & _). cbn [mbind option_bind].
  eexists. split; [done|]. pose proof (Forall2_length _ _ _ Ff) as Lff. pose proof (Forall2_length _ _ _ Fs) as Lss.
  assert (Hnames : HttpListingEntryNames info = fn ++ sn) by (unfold HttpListingEntryNames, info; cbn [Files SubDirs]; by rewrite !built_names).
  split; cbn [dc_Info dc_Layout dc_Names dc_At]; [by exists fn|by exists sn|exact Hcount|done| | |].
  - rewrite !length_app, length_replicate, Hbytes. lia.
  - by rewrite Hnames, !length_app, !length_offsets.
  - intros i n p Hn Hp. rewrite Hnames in Hn. rewrite app_assoc, <- laid_app. apply (laid_reads (fn ++ sn) _ [] i n p Hn). rewrite offsets_app. exact Hp.
Qed.
End Facts.
