(* ===== verification/DirCtrl.v ===== *)
(** * Directory queries (src/DirCtrl.c)

    A query fills the caller's buffer with records of one of three layouts,
    from the handle's snapshot of a listing.  Records are their bytes.  The
    wildcard matcher of the kernel, which may raise, is the class
    [NameExpressions]; a plain comparison and a copy to the caller's buffer may
    raise too, which [QUERY_FILL] says.  Counters and debug prints are left
    out. *)

From S2P Require Import Prelude Buffers UnicodePath PathCache ListingIndex ListingDecode.

(** [FsRtlIsNameInExpression(expression, name, TRUE, NULL)]; [None]: it raised. *)
Class NameExpressions := FsRtlIsNameInExpression : PATH -> PATH -> option bool.

Definition STATUS_BUFFER_OVERFLOW : NTSTATUS := nt 0x80000005.
Definition STATUS_NO_MORE_FILES : NTSTATUS := nt 0x80000006.
Definition STATUS_INVALID_INFO_CLASS : NTSTATUS := nt 0xC0000003.
Definition STATUS_NOT_IMPLEMENTED : NTSTATUS := nt 0xC0000002.
Definition STATUS_INVALID_DEVICE_REQUEST : NTSTATUS := nt 0xC0000010.

Definition FILE_ATTRIBUTE_DIRECTORY : Z := 0x10.
Definition FILE_ATTRIBUTE_NORMAL : Z := 0x80.
Definition CCB_FLAG_MATCH_ALL : Z := 1.
Definition DOS_STAR : Z := 60.
Definition DOS_QM : Z := 62.
Definition DOS_DOT : Z := 34.

(** ** Records

    FIELD_OFFSET(.., FileName) of the three layouts (ntifs.h). *)
Definition FILE_ID_BOTH_NAME : Z := 104.
Definition FILE_BOTH_NAME : Z := 94.
Definition FILE_FULL_NAME : Z := 68.

Definition DirCtrlAlignEntrySize (size : Z) : Z := Z.land (u32 (size + 7)) (Z.lnot 7).
Definition DIRCTRL_ENTRY_MAX_BYTES : Z := Z.land (FILE_ID_BOTH_NAME + (MAX_NAME_LEN - 1) * 2 + 7) (Z.lnot 7).

(** The [n] bytes of an integer, least significant first. *)
Fixpoint le (n : nat) (x : Z) : BYTES := match n with O => [] | S n => u8 x :: le n (Z.shiftr x 8) end.
Definition wide (name : PATH) : BYTES := name ≫= le 2.

(** What a record says of an entry. *)
Record ENTRY := mkDirEntry { d_Name : PATH; d_Creation : Z; d_Access : Z; d_Write : Z; d_Size : Z; d_Attributes : Z }.

(** The fields all three layouts have at the same offsets: NextEntryOffset 0,
    FileIndex 4, four times from 8, EndOfFile 40, AllocationSize 48,
    FileAttributes 56, EaSize 64. *)
Definition FILL_DIR_INFO_COMMON_FIELDS (out : BYTES) (alignedSize index : Z) (e : ENTRY) (returnSingle isLast : bool) : option BYTES :=
  out ← wr_list out 0 (replicate (Z.to_nat alignedSize) 0);
  out ← wr_list out 0 (le 4 (if returnSingle || isLast then 0 else alignedSize));
  out ← wr_list out 4 (le 4 index);
  out ← wr_list out 8 (le 8 (d_Creation e));
  out ← wr_list out 16 (le 8 (d_Access e));
  out ← wr_list out 24 (le 8 (d_Write e));
  out ← wr_list out 32 (le 8 (d_Write e));
  out ← wr_list out 40 (le 8 (d_Size e));
  out ← wr_list out 48 (le 8 (d_Size e));
  out ← wr_list out 56 (le 4 (d_Attributes e));
  wr_list out 64 (le 4 0).

(** The status, the scratch block and the bytes written. *)
Abbreviation FILLED := (option (NTSTATUS * BYTES * Z)).
Abbreviation FILL_ROUTINE := (BYTES -> Z -> Z -> ENTRY -> bool -> bool -> FILLED).

(** FileNameLength at 60, ShortNameLength at 68, FileId at 96. *)
Definition DirCtrlFillFileIdBothDirInfo : FILL_ROUTINE := fun out remainingLength index e returnSingle isLast =>
  let rawSize := u32 (FILE_ID_BOTH_NAME + path_bytes (d_Name e)) in
  let alignedSize := DirCtrlAlignEntrySize rawSize in
  if remainingLength <? alignedSize then Some (STATUS_BUFFER_OVERFLOW, out, 0)
  else
    out ← FILL_DIR_INFO_COMMON_FIELDS out alignedSize index e returnSingle isLast;
    out ← wr_list out 96 (le 8 0);
    out ← wr_list out 60 (le 4 (path_bytes (d_Name e)));
    out ← wr_list out 68 (le 1 0);
    out ← wr_list out FILE_ID_BOTH_NAME (wide (d_Name e));
    Some (STATUS_SUCCESS, out, alignedSize).

Definition DirCtrlFillFileFullDirInfo : FILL_ROUTINE := fun out remainingLength index e returnSingle isLast =>
  let rawSize := u32 (FILE_FULL_NAME + path_bytes (d_Name e)) in
  let alignedSize := DirCtrlAlignEntrySize rawSize in
  if remainingLength <? alignedSize then Some (STATUS_BUFFER_OVERFLOW, out, 0)
  else
    out ← FILL_DIR_INFO_COMMON_FIELDS out alignedSize index e returnSingle isLast;
    out ← wr_list out 60 (le 4 (path_bytes (d_Name e)));
    out ← wr_list out FILE_FULL_NAME (wide (d_Name e));
    Some (STATUS_SUCCESS, out, alignedSize).

Definition DirCtrlFillFileBothDirInfo : FILL_ROUTINE := fun out remainingLength index e returnSingle isLast =>
  let rawSize := u32 (FILE_BOTH_NAME + path_bytes (d_Name e)) in
  let alignedSize := DirCtrlAlignEntrySize rawSize in
  if remainingLength <? alignedSize then Some (STATUS_BUFFER_OVERFLOW, out, 0)
  else
    out ← FILL_DIR_INFO_COMMON_FIELDS out alignedSize index e returnSingle isLast;
    out ← wr_list out 60 (le 4 (path_bytes (d_Name e)));
    out ← wr_list out 68 (le 1 0);
    out ← wr_list out FILE_BOTH_NAME (wide (d_Name e));
    Some (STATUS_SUCCESS, out, alignedSize).

(** ** Enumeration *)

(** [RtlInitUnicodeString] on a NUL-terminated string: up to the NUL, and at
    most 32766 characters.  In the block a listing's name has a NUL after it
    ([decode_listing_exact]), and may have one inside. *)
Definition RtlInitUnicodeString (l : PATH) : PATH := take (Z.to_nat 32766) (until_nul l).

Definition BlorgGetFileEntry (d : DIRECTORY_INFO) (i : Z) : option DIRECTORY_FILE_METADATA := Files d !! Z.to_nat i.

Section Enumeration.
Context {nls : Nls} {expressions : NameExpressions}.

(** [fault]: what [FsRtlAreNamesEqual], which upcases both names, raises if it
    is called; nothing here catches it. *)
Definition DirCtrlMatchPattern (name : PATH) (pattern : option PATH) (flags : Z) (fault : option NTSTATUS) : NTSTATUS + bool :=
  if negb (Z.land flags CCB_FLAG_MATCH_ALL =? 0) then inr true
  else
    match pattern with
    | None | Some [] => inr false
    | Some pattern =>
        let containsWildCards := existsb (fun ch => (ch =? 42) || (ch =? 63) || (ch =? DOS_DOT) || (ch =? DOS_QM) || (ch =? DOS_STAR)) pattern in
        if containsWildCards then inr (default false (FsRtlIsNameInExpression pattern name))
        else match fault with Some st => inl st | None => inr (RtlEqualUnicodeString pattern name) end
    end.

(** The entry at an index: the files, then the subdirectories. *)
Definition listing_entry (d : DIRECTORY_INFO) (index : Z) : option ENTRY :=
  let fileCount := Z.of_nat (length (Files d)) in
  if fileCount <=? index then
    sub ← BlorgGetSubDirEntry d (index - fileCount);
    Some (mkDirEntry (RtlInitUnicodeString (SubDirName sub)) (SubDirCreationTime sub) (SubDirLastAccessedTime sub) (SubDirLastModifiedTime sub) 0 FILE_ATTRIBUTE_DIRECTORY)
  else
    file ← BlorgGetFileEntry d index;
    Some (mkDirEntry (RtlInitUnicodeString (FileName file)) (FileCreationTime file) (FileLastAccessedTime file) (FileLastModifiedTime file) (FileSize file) FILE_ATTRIBUTE_NORMAL).

Record QUERY_FILL := mkFill {
  f_Entries : DIRECTORY_INFO;
  f_TotalEntries : Z;
  f_Pattern : option PATH;
  f_Flags : Z;
  f_ReturnSingle : bool;
  f_FillFn : FILL_ROUTINE;
  f_CompareFaults : Z -> option NTSTATUS; (* comparing the entry at this index raises *)
  f_Faults : Z -> option (NTSTATUS * Z);  (* the copy to this offset raises, after so many bytes *)
  f_FaultLast : option NTSTATUS (* the last write raises *)
}.

(** The loop's variables; the cursor is an offset into the buffer. *)
Record ENUM := mkEnum {
  n_Index : Z;
  n_Remaining : Z;
  n_Cursor : Z;
  n_LastEntry : option Z;
  n_TotalWritten : Z;
  n_Found : bool;
  n_Out : BYTES;
  n_Scratch : BYTES
}.

Inductive TURN :=
  | Again (s : ENUM)
  | Stop (s : ENUM)                     (* break *)
  | Return (st : NTSTATUS) (index : Z) (out : BYTES)  (* nothing fits *)
  | Raise (st : NTSTATUS) (out : BYTES).

Definition enumerate_turn (q : QUERY_FILL) (s : ENUM) : option TURN :=
  if negb (n_Index s <? f_TotalEntries q) then Some (Stop s)
  else
    match listing_entry (f_Entries q) (n_Index s) with
    | None => Some (Stop s)
    | Some e =>
        match DirCtrlMatchPattern (d_Name e) (f_Pattern q) (f_Flags q) (f_CompareFaults q (n_Index s)) with
        | inl st => Some (Raise st (n_Out s))
        | inr false =>
            Some (Again (mkEnum (u32 (n_Index s + 1)) (n_Remaining s) (n_Cursor s) (n_LastEntry s) (n_TotalWritten s) (n_Found s) (n_Out s) (n_Scratch s)))
        | inr true =>
            let room := if n_Remaining s <? DIRCTRL_ENTRY_MAX_BYTES then n_Remaining s else DIRCTRL_ENTRY_MAX_BYTES in
            '(st, scratch, written) ← f_FillFn q (n_Scratch s) room (n_Index s) e (f_ReturnSingle q) (n_Index s =? u32 (f_TotalEntries q - 1));
            if negb (NT_SUCCESS st) then
              Some (if n_Found s then Stop (mkEnum (n_Index s) (n_Remaining s) (n_Cursor s) (n_LastEntry s) (n_TotalWritten s) (n_Found s) (n_Out s) scratch)
                    else Return st (n_Index s) (n_Out s))
            else
              record ← rd_list scratch 0 written;
              match f_Faults q (n_Cursor s) with
              | Some (st, copied) => out ← wr_list (n_Out s) (n_Cursor s) (take (Z.to_nat copied) record); Some (Raise st out)
              | None =>
                  out ← wr_list (n_Out s) (n_Cursor s) record;
                  let s := mkEnum (u32 (n_Index s + 1)) (u32 (n_Remaining s - written)) (n_Cursor s + written) (Some (n_Cursor s)) (n_TotalWritten s + written) true out scratch in
                  Some (if f_ReturnSingle q then Stop s else Again s)
              end
        end
    end.

Fixpoint enumerate_loop (fuel : nat) (q : QUERY_FILL) (s : ENUM) : option TURN :=
  match fuel with
  | O => None
  | S fuel => turn ← enumerate_turn q s; match turn with Again s => enumerate_loop fuel q s | _ => Some turn end
  end.

(** What a query gives: the status, BytesUsed, FinalIndex and the buffer, or
    what was raised and the buffer as it was then. *)
Inductive ENUMERATED := Enumerated (st : NTSTATUS) (bytesUsed finalIndex : Z) (out : BYTES) | EnumerationRaised (st : NTSTATUS) (out : BYTES).

Definition DirCtrlEnumerateDirectoryEntries (q : QUERY_FILL) (startIndex : Z) (out scratch : BYTES) : option ENUMERATED :=
  let fuel := S (Z.to_nat (f_TotalEntries q - startIndex)) in
  turn ← enumerate_loop fuel q (mkEnum startIndex (Z.of_nat (length out)) 0 None 0 false out scratch);
  match turn with
  | Again _ => None
  | Raise st out => Some (EnumerationRaised st out)
  | Return st index out => Some (Enumerated st 0 index out)
  | Stop s =>
      let st := if n_Found s then STATUS_SUCCESS else STATUS_NO_MORE_FILES in
      match n_LastEntry s with
      | None => Some (Enumerated st (n_TotalWritten s) (n_Index s) (n_Out s))
      | Some last =>
          match f_FaultLast q with
          | Some st => Some (EnumerationRaised st (n_Out s))
          | None => out ← wr_list (n_Out s) last (le 4 0); Some (Enumerated st (n_TotalWritten s) (n_Index s) out)
          end
      end
  end.
End Enumeration.

(** * The records a directory query writes

    The bytes of a record of each layout, that the fill routines write exactly
    them, and the caller's side: reading fields and following NextEntryOffset. *)
(** ** Little-endian integers *)

Lemma length_le n x : length (le n x) = n.
Proof. revert x. induction n; intros x; cbn; [done|]. by rewrite IHn. Qed.

Fixpoint of_le (l : BYTES) : Z := match l with [] => 0 | b :: l => b + 256 * of_le l end.

Lemma of_le_le n x : 0 <= x < 256 ^ Z.of_nat n -> of_le (le n x) = x.
Proof.
  revert x. induction n as [|n IH]; intros x Hx; [cbn in *; lia|]. cbn [le of_le]. rewrite Nat2Z.inj_succ, Z.pow_succ_r in Hx by lia.
  rewrite Z.shiftr_div_pow2 by lia. change (2 ^ 8) with 256. rewrite IH; [|split; [apply Z.div_pos; lia|apply Z.div_lt_upper_bound; lia]].
  unfold u8. pose proof (Z.div_mod x 256 ltac:(lia)). lia.
Qed.

Lemma length_wide name : length (wide name) = (2 * length name)%nat.
Proof. unfold wide. induction name as [|c name IH]; [done|]. cbn [mbind list_bind]. rewrite length_app, length_le, IH. cbn [length]. lia. Qed.

(** The characters of a name's bytes. *)
Fixpoint unwide (l : BYTES) : PATH := match l with a :: b :: l => of_le [a; b] :: unwide l | _ => [] end.
Lemma unwide_wide name : Forall (fun c => 0 <= c < 65536) name -> unwide (wide name) = name.
Proof.
  induction 1 as [|c name Hc _ IH]; [done|]. unfold wide in *. cbn [mbind list_bind]. change (le 2 c) with [u8 c; u8 (Z.shiftr c 8)]. cbn [app unwide].
  f_equal; [|done]. by apply (of_le_le 2).
Qed.

(** ** Writing a block of a concatenation *)

Lemma wr_block blocks i b x off :
  blocks !! i = Some b -> length x = length b -> off = Z.of_nat (length (concat (take i blocks))) ->
  wr_list (concat blocks) off x = Some (concat (<[i := x]> blocks)).
Proof.
  intros Hb Hl ->. pose proof (take_drop_middle _ _ _ Hb) as E. rewrite <- E at 1. rewrite concat_app. cbn [concat].
  rewrite wr_list_hole by done. f_equal. rewrite insert_take_drop by (by eapply lookup_lt_Some). by rewrite concat_app.
Qed.

(** ** Layouts *)

(** A fill routine and where it puts the name. *)
Inductive LAYOUT := LayoutIdBoth | LayoutBoth | LayoutFull.
Definition fill_of (l : LAYOUT) : FILL_ROUTINE :=
  match l with LayoutIdBoth => DirCtrlFillFileIdBothDirInfo | LayoutBoth => DirCtrlFillFileBothDirInfo | LayoutFull => DirCtrlFillFileFullDirInfo end.
Definition name_at (l : LAYOUT) : Z := match l with LayoutIdBoth => FILE_ID_BOTH_NAME | LayoutBoth => FILE_BOTH_NAME | LayoutFull => FILE_FULL_NAME end.

Definition record_size (l : LAYOUT) (e : ENTRY) : Z := DirCtrlAlignEntrySize (name_at l + path_bytes (d_Name e)).

(** The record, whose NextEntryOffset is [next]. *)
Definition encode (l : LAYOUT) (next index : Z) (e : ENTRY) : BYTES :=
  le 4 next ++ le 4 index ++ le 8 (d_Creation e) ++ le 8 (d_Access e) ++ le 8 (d_Write e) ++ le 8 (d_Write e) ++ le 8 (d_Size e) ++ le 8 (d_Size e) ++
  le 4 (d_Attributes e) ++ le 4 (path_bytes (d_Name e)) ++ le 4 0 ++ replicate (Z.to_nat (name_at l - 68)) 0 ++ wide (d_Name e) ++
  replicate (Z.to_nat (record_size l e - (name_at l + path_bytes (d_Name e)))) 0.

(** A name that fits a record: what a listing keeps, or the part of it before
    a NUL, which may be empty. *)
Definition name_ok (name : PATH) : Prop := Z.of_nat (length name) < MAX_NAME_LEN /\ Forall (fun c => 0 <= c < 65536) name.

Lemma name_at_bounds l : 68 <= name_at l <= 104.
Proof. by destruct l. Qed.

Lemma align_bounds x : 0 <= x < 4294967288 -> x <= DirCtrlAlignEntrySize x <= x + 7 /\ DirCtrlAlignEntrySize x mod 8 = 0.
Proof.
  intros Hx. unfold DirCtrlAlignEntrySize. rewrite u32_id by lia. split; [apply aligned_up|]. rewrite land_lnot_7. by apply Z.mod_mul.
Qed.

Lemma record_size_bounds l e : name_ok (d_Name e) -> name_at l + path_bytes (d_Name e) <= record_size l e <= DIRCTRL_ENTRY_MAX_BYTES /\ record_size l e mod 8 = 0.
Proof.
  intros (H2 & _). unfold record_size, path_bytes, MAX_NAME_LEN in *. pose proof (name_at_bounds l). destruct (align_bounds (name_at l + 2 * Z.of_nat (length (d_Name e)))) as [H3 H4]; [lia|].
  change DIRCTRL_ENTRY_MAX_BYTES with 624. split_and!; [lia| |done]. unfold DirCtrlAlignEntrySize in *. rewrite u32_id in * by lia. rewrite land_lnot_7 in *.
  assert ((name_at l + 2 * Z.of_nat (length (d_Name e)) + 7) / 8 < 79); [|lia]. apply Z.div_lt_upper_bound; lia.
Qed.

Lemma length_encode l next index e : name_ok (d_Name e) -> Z.of_nat (length (encode l next index e)) = record_size l e.
Proof.
  intros Hn. pose proof (record_size_bounds l e Hn). pose proof (name_at_bounds l). unfold encode. rewrite !length_app, !length_le, !length_replicate, length_wide. unfold path_bytes in *. lia.
Qed.

(** A write into the [i]th block. *)
Ltac put i := erewrite (wr_block _ i); [|reflexivity|rewrite ?length_le, ?length_replicate, ?length_wide; lia|cbn [take concat]; rewrite ?length_app, ?length_le, ?length_replicate, ?length_wide; cbn; lia]; cbn [mbind option_bind insert list_insert].

(** The common part of a record, over a scratch block that holds anything. *)
Lemma common_fields (out : BYTES) alignedSize index e returnSingle isLast :
  68 <= alignedSize <= Z.of_nat (length out) ->
  FILL_DIR_INFO_COMMON_FIELDS out alignedSize index e returnSingle isLast =
  Some (concat [le 4 (if returnSingle || isLast then 0 else alignedSize); le 4 index; le 8 (d_Creation e); le 8 (d_Access e); le 8 (d_Write e); le 8 (d_Write e); le 8 (d_Size e); le 8 (d_Size e);
                le 4 (d_Attributes e); replicate 4 0; le 4 0; replicate (Z.to_nat (alignedSize - 68)) 0; drop (Z.to_nat alignedSize) out]).
Proof.
  intros Ha. unfold FILL_DIR_INFO_COMMON_FIELDS.
  assert (Hz : wr_list out 0 (replicate (Z.to_nat alignedSize) 0) = Some (concat [replicate 4 0; replicate 4 0; replicate 8 0; replicate 8 0; replicate 8 0; replicate 8 0; replicate 8 0; replicate 8 0;
                replicate 4 0; replicate 4 0; replicate 4 0; replicate (Z.to_nat (alignedSize - 68)) 0; drop (Z.to_nat alignedSize) out])).
  { unfold wr_list. rewrite length_replicate. destruct (Z.leb_spec 0 0), (Z.leb_spec (0 + Z.of_nat (Z.to_nat alignedSize)) (Z.of_nat (length out))); try lia. cbn [andb Z.to_nat take app Nat.add]. f_equal.
    replace (Z.to_nat alignedSize) with (68 + Z.to_nat (alignedSize - 68))%nat at 1 by lia. rewrite replicate_add. cbn [concat]. by rewrite app_nil_r, <- !app_assoc. }
  rewrite Hz. cbn [mbind option_bind]. put 0%nat. put 1%nat. put 2%nat. put 3%nat. put 4%nat. put 5%nat. put 6%nat. put 7%nat. put 8%nat. put 10%nat. done.
Qed.

(** A block of zeros in smaller ones. *)
Lemma split_zeros (blocks : list BYTES) (i : nat) (sizes : list nat) (n : nat) :
  blocks !! i = Some (replicate n 0) -> foldr Nat.add 0%nat sizes = n -> concat blocks = concat (take i blocks ++ ((fun k => replicate k 0) <$> sizes) ++ drop (S i) blocks).
Proof.
  intros Hb <-. rewrite <- (take_drop_middle _ _ _ Hb) at 1. rewrite !concat_app. cbn [concat]. f_equal. f_equal. clear Hb. induction sizes as [|k sizes IH]; [done|]. cbn. by rewrite replicate_add, IH.
Qed.

(** Every routine writes its record at the head of the scratch block, or says
    that it does not fit. *)
Lemma fill_exact l scratch room index e returnSingle isLast :
  name_ok (d_Name e) -> DIRCTRL_ENTRY_MAX_BYTES <= Z.of_nat (length scratch) ->
  fill_of l scratch room index e returnSingle isLast =
  if room <? record_size l e then Some (STATUS_BUFFER_OVERFLOW, scratch, 0)
  else Some (STATUS_SUCCESS, encode l (if returnSingle || isLast then 0 else record_size l e) index e ++ drop (Z.to_nat (record_size l e)) scratch, record_size l e).
Proof.
  intros Hn Hs. pose proof (record_size_bounds l e Hn) as [Hb _]. pose proof Hn as (Hn2 & _). unfold MAX_NAME_LEN in Hn2.
  set (n := length (d_Name e)) in *. assert (Hp : path_bytes (d_Name e) = 2 * Z.of_nat n) by done.
  set (pad := Z.to_nat (record_size l e - (name_at l + path_bytes (d_Name e)))).
  assert (Hend : forall b, concat [le 4 (if returnSingle || isLast then 0 else record_size l e); le 4 index; le 8 (d_Creation e); le 8 (d_Access e); le 8 (d_Write e); le 8 (d_Write e); le 8 (d_Size e);
      le 8 (d_Size e); le 4 (d_Attributes e); le 4 (path_bytes (d_Name e)); le 4 0; replicate (Z.to_nat (name_at l - 68)) 0; wide (d_Name e); replicate pad 0; b] =
      encode l (if returnSingle || isLast then 0 else record_size l e) index e ++ b).
  { intros b. unfold encode. cbn [concat]. by rewrite app_nil_r, <- !app_assoc. }
  assert (Hraw : name_at l + path_bytes (d_Name e) < 4294967296) by (pose proof (name_at_bounds l); lia). pose proof (name_at_bounds l) as Ho.
  destruct l; cbn [fill_of name_at] in *; unfold DirCtrlFillFileIdBothDirInfo, DirCtrlFillFileBothDirInfo, DirCtrlFillFileFullDirInfo; rewrite u32_id by lia.
  all: change (DirCtrlAlignEntrySize (FILE_ID_BOTH_NAME + path_bytes (d_Name e))) with (record_size LayoutIdBoth e);
       change (DirCtrlAlignEntrySize (FILE_BOTH_NAME + path_bytes (d_Name e))) with (record_size LayoutBoth e);
       change (DirCtrlAlignEntrySize (FILE_FULL_NAME + path_bytes (d_Name e))) with (record_size LayoutFull e).
  all: destruct (room <? _); [done|]; change DIRCTRL_ENTRY_MAX_BYTES with 624 in *; rewrite common_fields by lia; cbn [mbind option_bind].
  - unfold FILE_ID_BOTH_NAME in *. erewrite (split_zeros _ 11 [1; 27; 8; (2 * n); pad]%nat); [|reflexivity|cbn; unfold pad; lia]. cbn [take drop app fmap list_fmap].
    put 13%nat. put 9%nat. put 11%nat. put 14%nat. do 3 f_equal. rewrite <- Hend. reflexivity.
  - unfold FILE_BOTH_NAME in *. erewrite (split_zeros _ 11 [1; 25; (2 * n); pad]%nat); [|reflexivity|cbn; unfold pad; lia]. cbn [take drop app fmap list_fmap].
    put 9%nat. put 11%nat. put 13%nat. do 3 f_equal. rewrite <- Hend. reflexivity.
  - unfold FILE_FULL_NAME in *. erewrite (split_zeros _ 11 [(2 * n); pad]%nat); [|reflexivity|cbn; unfold pad; lia]. cbn [take drop app fmap list_fmap].
    put 9%nat. put 11%nat. do 3 f_equal. rewrite <- Hend. reflexivity.
Qed.

(** ** The caller's side *)

Definition get_le (out : BYTES) (off n : Z) : option Z := of_le <$> rd_list out off n.

(** NextEntryOffset, and the FileIndex and the entry a record shows. *)
Definition read_record (l : LAYOUT) (out : BYTES) (off : Z) : option (Z * (Z * ENTRY)) :=
  next ← get_le out off 4;
  index ← get_le out (off + 4) 4;
  creation ← get_le out (off + 8) 8;
  access ← get_le out (off + 16) 8;
  write ← get_le out (off + 24) 8;
  size ← get_le out (off + 40) 8;
  attributes ← get_le out (off + 56) 4;
  len ← get_le out (off + 60) 4;
  name ← rd_list out (off + name_at l) len;
  Some (next, (index, mkDirEntry (unwide name) creation access write size attributes)).

(** Following NextEntryOffset until it is zero. *)
Fixpoint walk (fuel : nat) (l : LAYOUT) (out : BYTES) (off : Z) : option (list (Z * ENTRY)) :=
  match fuel with
  | O => None
  | S fuel => '(next, r) ← read_record l out off; if next =? 0 then Some [r] else cons r <$> walk fuel l out (off + next)
  end.

Record entry_ok (e : ENTRY) : Prop := {
  eo_name : name_ok (d_Name e);
  eo_times : 0 <= d_Creation e < 256 ^ 8 /\ 0 <= d_Access e < 256 ^ 8 /\ 0 <= d_Write e < 256 ^ 8;
  eo_size : 0 <= d_Size e < 256 ^ 8;
  eo_attributes : 0 <= d_Attributes e < 256 ^ 4
}.

Lemma get_le_at out off off' w n x : sits out off' (le n x) -> off = off' -> w = Z.of_nat n -> 0 <= x < 256 ^ w -> get_le out off w = Some x.
Proof. intros Hs -> -> Hx. unfold get_le. rewrite (sits_list _ _ _ _ Hs) by (by rewrite length_le). cbn. by rewrite of_le_le. Qed.

Lemma read_encode l out off next index e :
  sits out off (encode l next index e) -> entry_ok e -> 0 <= next < 256 ^ 4 -> 0 <= index < 256 ^ 4 -> read_record l out off = Some (next, (index, e)).
Proof.
  intros Hs [(Hn2 & Hn3) (T1 & T2 & T3) Hz Ha] Hnext Hindex. pose proof (name_at_bounds l) as Ho. unfold MAX_NAME_LEN in Hn2.
  unfold encode in Hs. repeat (apply sits_app in Hs as [? Hs]; rewrite ?length_le, ?length_replicate in Hs). clear Hs. unfold read_record.
  do 8 (match goal with H : sits out ?o' (le _ _) |- context [get_le out ?o ?w] => rewrite (get_le_at out o o' w _ _ H); [|lia|done|first [assumption|unfold path_bytes; lia]] end; cbn [mbind option_bind]).
  match goal with H : sits out ?o (wide _) |- _ => replace o with (off + name_at l) in H by lia; rewrite (sits_list _ _ _ _ H) by (rewrite length_wide; unfold path_bytes; lia) end.
  cbn [mbind option_bind]. rewrite unwide_wide by done. by destruct e.
Qed.

(** The records of a query, chained; the last one ends the chain. *)
Fixpoint chain (l : LAYOUT) (r : list (Z * ENTRY)) : BYTES :=
  match r with
  | [] => []
  | [(i, e)] => encode l 0 i e
  | (i, e) :: r => encode l (record_size l e) i e ++ chain l r
  end.

Lemma walk_chain l out off r :
  r <> [] -> sits out off (chain l r) -> Forall (fun p => entry_ok p.2 /\ 0 <= p.1 < 256 ^ 4) r -> walk (length r) l out off = Some r.
Proof.
  intros Hr Hs Hok. revert off Hr Hs. induction Hok as [|[i e] r [He Hi] Hok IH]; intros off Hr Hs; [done|]. cbn [length walk fst snd] in *.
  pose proof (record_size_bounds l e (eo_name _ He)) as [Hb _]. pose proof (name_at_bounds l). change DIRCTRL_ENTRY_MAX_BYTES with 624 in Hb. assert (0 <= path_bytes (d_Name e)) by (unfold path_bytes; lia).
  destruct r as [|p r]; cbn [chain] in Hs.
  - by rewrite (read_encode _ _ _ _ _ _ Hs He) by lia.
  - apply sits_app in Hs as [Hs1 Hs2]. rewrite (read_encode _ _ _ _ _ _ Hs1 He) by lia. cbn [mbind option_bind]. destruct (Z.eqb_spec (record_size l e) 0); [lia|].
    rewrite (length_encode l _ _ e (eo_name _ He)) in Hs2. by rewrite (IH (off + record_size l e)).
Qed.
