(* ===== verification/DirCtrlTheorems.v ===== *)
(** * Directory queries: what the caller sees

    The records of one query are, when the caller follows them, the next
    entries of the snapshot that match, as many as fit; queries that go on
    where the last one stopped give every matching entry once, in order.  The
    snapshot is whatever the client decoded; matching is specified apart from
    the code that does it. *)

From S2P Require Import Prelude Buffers UnicodePath PathCache ListingIndex ListingDecode DirCtrl.

(** ** The entries of a listing *)

(** What a query has to show of each entry.  A name ends at its first NUL: the
    client admits names with NULs inside, and the enumeration reads them as
    NUL-terminated. *)
Definition file_entry (f : DIRECTORY_FILE_METADATA) : ENTRY :=
  mkDirEntry (until_nul (FileName f)) (FileCreationTime f) (FileLastAccessedTime f) (FileLastModifiedTime f) (FileSize f) FILE_ATTRIBUTE_NORMAL.
Definition subdir_entry (s : DIRECTORY_SUBDIR_METADATA) : ENTRY :=
  mkDirEntry (until_nul (SubDirName s)) (SubDirCreationTime s) (SubDirLastAccessedTime s) (SubDirLastModifiedTime s) 0 FILE_ATTRIBUTE_DIRECTORY.
Definition entries (d : DIRECTORY_INFO) : list ENTRY := (file_entry <$> Files d) ++ (subdir_entry <$> SubDirs d).

(** A listing a query can show: names of at most 259 characters of 16 bits,
    fields of 64 bits, fewer than 2^32 entries.  Every listing the client
    decodes is one ([decoded_listing_ok]). *)
Record listing_ok (d : DIRECTORY_INFO) : Prop := {
  lo_entries : Forall entry_ok (entries d);
  lo_count : Z.of_nat (length (entries d)) < 4294967295
}.

Lemma until_nul_prefix name : until_nul name `prefix_of` name.
Proof. induction name as [|c name IH]; cbn [until_nul]; [done|]. destruct (c =? 0); [apply prefix_nil|by apply prefix_cons]. Qed.
Lemma until_nul_whole name : 0 ∉ name -> until_nul name = name.
Proof. induction name as [|c name IH]; cbn [until_nul]; [done|]. rewrite not_elem_of_cons. intros [Hc Hn]. rewrite (proj2 (Z.eqb_neq c 0)) by done. by rewrite IH. Qed.
Lemma until_nul_idem name : until_nul (until_nul name) = until_nul name.
Proof. induction name as [|c name IH]; cbn [until_nul]; [done|]. destruct (c =? 0) eqn:E; [done|]. cbn [until_nul]. by rewrite E, IH. Qed.

Lemma kept_shown name : name_kept name -> name_ok (until_nul name).
Proof. intros [Hl Hf]. destruct (until_nul_prefix name) as [rest E]. split; [rewrite E, length_app in Hl; lia|]. rewrite E, Forall_app in Hf. tauto. Qed.

Lemma built_elem {A B} (name_of : A -> BYTES) (build : A -> list Z -> B) {utf8 : Utf8} l names b :
  Forall2 (fun a n => converts (name_of a) n) l names -> b ∈ zip_with build l names -> exists a n, b = build a n /\ name_kept n.
Proof.
  induction 1 as [|a n l names Hc _ IH]; cbn [zip_with]; [by intros ?%elem_of_nil|]. intros [->|Hb]%elem_of_cons; [|by apply IH]. exists a, n. split; [done|]. by apply converts_kept in Hc as [? _].
Qed.

Lemma decoded_listing_ok {utf8 : Utf8} flat noStore dec : decoded_ok flat noStore dec -> listing_ok (dc_Info dec).
Proof.
  intros [(fn & Ff & Ef) (sn & Fs & Es) Hcount _ _ _ _]. pose proof (Forall2_length _ _ _ Ff). pose proof (Forall2_length _ _ _ Fs). split.
  - unfold entries. rewrite Ef, Es. apply Forall_app. split; apply Forall_fmap, Forall_forall; intros b Hb.
    + destruct (built_elem _ _ _ _ _ Ff Hb) as (a & n & -> & Hn). split; cbn; [by apply kept_shown|split_and!; apply u64_range..|done].
    + destruct (built_elem _ _ _ _ _ Fs Hb) as (a & n & -> & Hn). split; cbn; [by apply kept_shown|split_and!; apply u64_range|done|done].
  - unfold entries. rewrite length_app, !length_fmap, Ef, Es, !length_zip_with. change (MAXULONG / 4) with 1073741823 in Hcount. lia.
Qed.

Lemma init_name name : name_ok (until_nul name) -> RtlInitUnicodeString name = until_nul name.
Proof. intros (H1 & _). unfold MAX_NAME_LEN, RtlInitUnicodeString in *. apply take_ge. lia. Qed.

Lemma listing_entry_lookup d i : listing_ok d -> 0 <= i -> listing_entry d i = entries d !! Z.to_nat i.
Proof.
  intros [Hok _] Hi. unfold listing_entry, entries in *. rewrite Forall_app in Hok. destruct Hok as [Hf Hs].
  destruct (Z.leb_spec (Z.of_nat (length (Files d))) i).
  - rewrite lookup_app_r by (rewrite length_fmap; lia). rewrite length_fmap, list_lookup_fmap. unfold BlorgGetSubDirEntry.
    replace (Z.to_nat (i - Z.of_nat (length (Files d)))) with (Z.to_nat i - length (Files d))%nat by lia.
    destruct (SubDirs d !! _) as [s|] eqn:E; [|done]. cbn. rewrite init_name; [done|]. by apply (Forall_lookup_1 _ _ _ _ Hs (list_lookup_fmap_Some_2 _ _ _ _ E)).
  - rewrite lookup_app_l by (rewrite length_fmap; lia). rewrite list_lookup_fmap. unfold BlorgGetFileEntry.
    destruct (Files d !! _) as [s|] eqn:E; [|done]. cbn. rewrite init_name; [done|]. by apply (Forall_lookup_1 _ _ _ _ Hf (list_lookup_fmap_Some_2 _ _ _ _ E)).
Qed.

Section Query.
Context {nls : Nls} {expressions : NameExpressions}.

(** ** What matches *)

(** The characters that make a pattern an expression: * ? and the DOS forms
    that stand for them. *)
Definition wild (c : Z) : Prop := c ∈ [42; 63; DOS_DOT; DOS_QM; DOS_STAR].
#[export] Instance wild_dec c : Decision (wild c).
Proof. unfold wild. apply _. Defined.

(** A query shows a name when it asked for everything; or when its pattern, not
    empty, is an expression the name is in; or is no expression, and is the
    name, letter by letter, but for case. *)
Definition matches (pattern : option PATH) (flags : Z) (name : PATH) : Prop :=
  Z.testbit flags 0 = true \/
  match pattern with
  | None => False
  | Some p => p <> [] /\ ((List.Exists wild p /\ FsRtlIsNameInExpression p name = Some true) \/ (Forall (fun c => ~ wild c) p /\ Forall2 (fun a b => upcase a = upcase b) p name))
  end.
#[export] Instance matches_dec pattern flags name : Decision (matches pattern flags name).
Proof. unfold matches. destruct pattern; apply _. Defined.

Lemma wild_test c : (c =? 42) || (c =? 63) || (c =? DOS_DOT) || (c =? DOS_QM) || (c =? DOS_STAR) = true <-> wild c.
Proof. unfold wild. rewrite !orb_true_iff, !Z.eqb_eq, !elem_of_cons, elem_of_nil. tauto. Qed.

Lemma existsb_wild p : existsb (fun ch => (ch =? 42) || (ch =? 63) || (ch =? DOS_DOT) || (ch =? DOS_QM) || (ch =? DOS_STAR)) p = bool_decide (List.Exists wild p).
Proof.
  destruct (existsb _ p) eqn:E; symmetry; [apply bool_decide_eq_true|apply bool_decide_eq_false; intros H; rewrite <- not_true_iff_false in E; apply E]; rewrite ?existsb_exists, ?Exists_exists in *.
  - destruct E as (c & Hc & Hw%wild_test). exists c. by rewrite list_elem_of_In.
  - destruct H as (c & Hc & Hw%wild_test). exists c. by rewrite <- list_elem_of_In.
Qed.

Lemma same_name_spec p name : RtlEqualUnicodeString p name = bool_decide (Forall2 (fun a b => upcase a = upcase b) p name).
Proof. unfold RtlEqualUnicodeString, fold_path. apply bool_decide_ext. by rewrite list_eq_Forall2, Forall2_fmap. Qed.

Lemma flag_bit flags : (Z.land flags CCB_FLAG_MATCH_ALL =? 0) = negb (Z.testbit flags 0).
Proof. unfold CCB_FLAG_MATCH_ALL. change 1 with (Z.ones 1). rewrite Z.land_ones, Z.bit0_odd by lia. change (2 ^ 1) with 2. rewrite Zmod_odd. by destruct (Z.odd flags). Qed.

(** The code's test is that. *)
Lemma match_pattern_iff name pattern flags : exists b, DirCtrlMatchPattern name pattern flags None = inr b /\ (b = true <-> matches pattern flags name).
Proof.
  unfold DirCtrlMatchPattern, matches. rewrite flag_bit, negb_involutive. destruct (Z.testbit flags 0) eqn:Ef; [exists true; split; [done|]; split; [by left|done]|].
  destruct pattern as [[|c p]|]; [exists false; split; [done|]; split; [done|by intros [?|[? _]]]| |exists false; split; [done|]; split; [done|by intros [?|?]]].
  set (q := c :: p). rewrite existsb_wild, same_name_spec. destruct (bool_decide_reflect (List.Exists wild q)) as [Hw|Hw]; (eexists; split; [reflexivity|]).
  - split; [destruct (FsRtlIsNameInExpression q name) as [[]|] eqn:E; try done; intros _; right; split; [done|by left]|].
    intros [?|(_ & [[_ ->]|[Hn _]])]; try done. by apply Forall_not_Exists in Hn.
  - rewrite bool_decide_eq_true. split; [intros Hf; right; split; [done|right; split; [|done]]|intros [?|(_ & [[? _]|[_ ?]])]; done]. apply not_Exists_Forall in Hw; [done|apply _].
Qed.

Lemma match_pattern_spec name pattern flags : DirCtrlMatchPattern name pattern flags None = inr (bool_decide (matches pattern flags name)).
Proof. destruct (match_pattern_iff name pattern flags) as (b & -> & Hb). f_equal. symmetry. destruct b; [by apply bool_decide_eq_true, Hb|]. apply bool_decide_eq_false. intros ?%Hb. done. Qed.

(** ** What a query picks *)

Section Pick.
Context (l : LAYOUT) (pattern : option PATH) (flags : Z) (single : bool).

Definition wanted (e : ENTRY) : bool := bool_decide (matches pattern flags (d_Name e)).

(** The matching entries of a list whose first index is [i]. *)
Fixpoint wanted_from (i : Z) (es : list ENTRY) : list (Z * ENTRY) :=
  match es with
  | [] => []
  | e :: es => if wanted e then (i, e) :: wanted_from (i + 1) es else wanted_from (i + 1) es
  end.

(** Those that fit in [room], where the query stops, and whether it stopped
    for want of room. *)
Fixpoint pick (room i : Z) (es : list ENTRY) : list (Z * ENTRY) * Z * bool :=
  match es with
  | [] => ([], i, false)
  | e :: es =>
      if negb (wanted e) then pick room (i + 1) es
      else if room <? record_size l e then ([], i, true)
      else if single then ([(i, e)], i + 1, false)
      else let '(r, final, full) := pick (room - record_size l e) (i + 1) es in ((i, e) :: r, final, full)
  end.

Definition size_of (r : list (Z * ENTRY)) : Z := total (fun p => record_size l p.2) r.

Lemma size_of_cons i e r : size_of ((i, e) :: r) = record_size l e + size_of r.
Proof. done. Qed.

Lemma size_of_nonneg r : 0 <= size_of r.
Proof.
  apply total_nonneg. intros p _. unfold record_size, DirCtrlAlignEntrySize. rewrite land_lnot_7. pose proof (u32_range (name_at l + path_bytes (d_Name p.2) + 7)).
  pose proof (Z.div_pos (u32 (name_at l + path_bytes (d_Name p.2) + 7)) 8). lia.
Qed.
End Pick.

(** ** The loop *)

Section Loop.
Context (l : LAYOUT) (d : DIRECTORY_INFO) (pattern : option PATH) (flags : Z) (single : bool).
Context (Hd : listing_ok d).

(** A query in which nothing raises. *)
Definition query : QUERY_FILL := mkFill d (Z.of_nat (length (entries d))) pattern flags single (fill_of l) (fun _ => None) (fun _ => None) None.

Let N : Z := Z.of_nat (length (entries d)).
Abbreviation picked := (pick l pattern flags single).

(** The loop's state where the next entry is the [i]th and [pre] is written. *)
Definition at_entry (s : ENUM) (i : Z) (pre rest : BYTES) : Prop :=
  n_Index s = i /\ n_Remaining s = Z.of_nat (length rest) /\ n_Cursor s = Z.of_nat (length pre) /\ n_Out s = pre ++ rest /\ DIRCTRL_ENTRY_MAX_BYTES <= Z.of_nat (length (n_Scratch s)).

(** A state that differs from [s] in nothing the caller sees. *)
Definition stopped (s s' : ENUM) (final : Z) : Prop :=
  n_Index s' = final /\ n_Out s' = n_Out s /\ n_LastEntry s' = n_LastEntry s /\ n_TotalWritten s' = n_TotalWritten s /\ n_Found s' = n_Found s.

Lemma turn_end s i pre rest : at_entry s i pre rest -> N <= i -> enumerate_turn query s = Some (Stop s).
Proof. intros (E & _) Hi. unfold enumerate_turn. cbn [f_TotalEntries query]. rewrite E. fold N. by rewrite (proj2 (Z.ltb_ge _ _)). Qed.

Lemma turn_entry s i pre rest e es :
  at_entry s i pre rest -> drop (Z.to_nat i) (entries d) = e :: es -> 0 <= i -> Z.of_nat (length rest) < 4294967296 ->
  exists t, enumerate_turn query s = Some t /\ entry_ok e /\ i < N /\
    if negb (wanted pattern flags e) then exists s', t = Again s' /\ at_entry s' (i + 1) pre rest /\ stopped s s' (i + 1)
    else if Z.of_nat (length rest) <? record_size l e then t = (if n_Found s then Stop s else Return STATUS_BUFFER_OVERFLOW i (n_Out s))
    else exists s' rest' next, t = (if single then Stop s' else Again s') /\ at_entry s' (i + 1) (pre ++ encode l next i e) rest' /\
      rest' = drop (Z.to_nat (record_size l e)) rest /\ n_LastEntry s' = Some (Z.of_nat (length pre)) /\ n_Found s' = true /\
      n_TotalWritten s' = n_TotalWritten s + record_size l e /\ (single = false -> i + 1 < N -> next = record_size l e).
Proof.
  intros (Ei & Er & Ec & Eo & Es) Hdrop Hi Hrest. pose proof (lo_count _ Hd) as Hcount.
  assert (Hlook : entries d !! Z.to_nat i = Some e) by (rewrite <- (Nat.add_0_r (Z.to_nat i)), <- lookup_drop, Hdrop; done).
  assert (Hlt : i < N) by (apply lookup_lt_Some in Hlook; unfold N; lia). pose proof (Forall_lookup_1 _ _ _ _ (lo_entries _ Hd) Hlook) as He.
  pose proof (record_size_bounds l e (eo_name _ He)) as [Hb _]. pose proof (name_at_bounds l) as Ho. assert (0 <= path_bytes (d_Name e)) by (unfold path_bytes; lia).
  unfold enumerate_turn. cbn [f_TotalEntries f_Entries f_Pattern f_Flags f_ReturnSingle f_FillFn f_CompareFaults f_Faults query]. rewrite Ei. fold N.
  destruct (Z.ltb_spec i N); [|lia]. cbn [negb]. rewrite listing_entry_lookup, Hlook by done. rewrite match_pattern_spec. fold (wanted pattern flags e).
  rewrite u32_id by lia. destruct (wanted pattern flags e); cbn [negb].
  2: { eexists. split_and!; [done..|]. eexists. split_and!; done. }
  rewrite fill_exact by first [apply (eo_name _ He)|done]. rewrite Er. change DIRCTRL_ENTRY_MAX_BYTES with 624 in *.
  replace (if Z.of_nat (length rest) <? 624 then Z.of_nat (length rest) else 624) with (Z.min (Z.of_nat (length rest)) 624) by (destruct (Z.ltb_spec (Z.of_nat (length rest)) 624); lia).
  destruct (Z.ltb_spec (Z.of_nat (length rest)) (record_size l e)) as [Hno|Hfit].
  - rewrite (proj2 (Z.ltb_lt _ _)) by lia. cbn [mbind option_bind]. change (NT_SUCCESS STATUS_BUFFER_OVERFLOW) with false. cbn [negb].
    eexists. split_and!; [done..|]. destruct s as [? ? ? ? ? fnd ? ?]. cbn in *. subst. by destruct fnd.
  - rewrite (proj2 (Z.ltb_ge _ _)) by lia. cbn [mbind option_bind]. change (NT_SUCCESS STATUS_SUCCESS) with true. cbn [negb]. set (next := if single || _ then 0 else _).
    pose proof (length_encode l next i e (eo_name _ He)) as Hlen. rewrite rd_list_in_range by (rewrite ?length_app; lia). cbn [mbind option_bind].
    assert (Htake : take (Z.to_nat (record_size l e)) (drop (Z.to_nat 0) (encode l next i e ++ drop (Z.to_nat (record_size l e)) (n_Scratch s))) = encode l next i e).
    { change (Z.to_nat 0) with 0%nat. rewrite drop_0. rewrite take_app_le by lia. apply take_ge. lia. }
    rewrite Htake, Eo, Ec. replace (pre ++ rest) with (pre ++ take (Z.to_nat (record_size l e)) rest ++ drop (Z.to_nat (record_size l e)) rest) by (by rewrite take_drop). rewrite wr_list_hole by (rewrite ?length_take; lia). cbn [mbind option_bind]. rewrite u32_id by lia.
    eexists. split_and!; [done..|]. eexists _, (drop (Z.to_nat (record_size l e)) rest), next. split; [done|]. split_and!; try done.
    + unfold at_entry. change DIRCTRL_ENTRY_MAX_BYTES with 624. cbn [n_Index n_Remaining n_Cursor n_Out n_Scratch]. rewrite !length_app, !length_drop. split_and!; [done|lia|lia|by rewrite <- app_assoc|lia].
    + intros -> Hnext. unfold next. cbn [orb]. rewrite u32_id by lia. destruct (Z.eqb_spec i (N - 1)); [lia|done].
Qed.

(** Ending the chain at its last record. *)
Lemma close_record pre next i e rest : wr_list (pre ++ encode l next i e ++ rest) (Z.of_nat (length pre)) (le 4 0) = Some (pre ++ encode l 0 i e ++ rest).
Proof. unfold encode. rewrite <- !(app_assoc (le 4 _)). rewrite wr_list_hole; [done|done|by rewrite !length_le]. Qed.

(** What the loop comes to, from the [i]th entry on. *)
Definition loop_result (s : ENUM) (pre rest : BYTES) (p : list (Z * ENTRY) * Z * bool) (t : option TURN) : Prop :=
  match p with
  | ([], final, full) =>
      if full && negb (n_Found s) then t = Some (Return STATUS_BUFFER_OVERFLOW final (n_Out s)) else exists s', t = Some (Stop s') /\ stopped s s' final
  | (chosen, final, _) =>
      exists s' last, t = Some (Stop s') /\ n_Index s' = final /\ n_Found s' = true /\ n_TotalWritten s' = n_TotalWritten s + size_of l chosen /\
        n_LastEntry s' = Some last /\ wr_list (n_Out s') last (le 4 0) = Some (pre ++ chain l chosen ++ drop (Z.to_nat (size_of l chosen)) rest)
  end.

Lemma loop_result_stopped s s1 i pre rest p t : stopped s s1 i -> loop_result s1 pre rest p t -> loop_result s pre rest p t.
Proof.
  intros (E1 & E2 & E3 & E4 & E5). destruct p as [[[|c chosen] final] full]; cbn [loop_result]; rewrite ?E2, ?E4, ?E5; [|done].
  destruct (full && _); [done|]. intros (s' & -> & (F1 & F2 & F3 & F4 & F5)). exists s'. split; [done|]. unfold stopped. by rewrite F2, F3, F4, F5.
Qed.

Lemma loop_exact es fuel i s pre rest :
  drop (Z.to_nat i) (entries d) = es -> 0 <= i -> i + Z.of_nat (length es) = N -> at_entry s i pre rest -> Z.of_nat (length rest) < 4294967296 -> (length es < fuel)%nat ->
  loop_result s pre rest (picked (Z.of_nat (length rest)) i es) (enumerate_loop fuel query s).
Proof.
  revert fuel i s pre rest. induction es as [|e es IH]; intros fuel i s pre rest Hdrop Hi HN Hat Hrest Hfuel; (destruct fuel as [|fuel]; [cbn in Hfuel; lia|]); cbn [enumerate_loop].
  { rewrite (turn_end s i pre rest) by (done || cbn in HN; lia). cbn. exists s. split; [done|]. destruct Hat as (<- & _). by split_and!. }
  destruct (turn_entry s i pre rest e es Hat Hdrop Hi Hrest) as (t & -> & He & Hlt & Ht). cbn [mbind option_bind pick]. cbn [length] in HN, Hfuel.
  assert (Hdrop' : drop (Z.to_nat (i + 1)) (entries d) = es) by (replace (Z.to_nat (i + 1)) with (Z.to_nat i + 1)%nat by lia; by rewrite <- drop_drop, Hdrop).
  pose proof (record_size_bounds l e (eo_name _ He)) as [Hb _]. pose proof (name_at_bounds l) as Ho. assert (0 <= path_bytes (d_Name e)) by (unfold path_bytes; lia).
  destruct (negb (wanted pattern flags e)).
  { destruct Ht as (s' & -> & Hat' & Hst). eapply loop_result_stopped; [exact Hst|]. apply IH; try done; lia. }
  destruct (Z.ltb_spec (Z.of_nat (length rest)) (record_size l e)) as [|Hfit].
  { subst t. cbn [loop_result andb]. destruct (n_Found s); cbn [negb]; [|done]. exists s. split; [done|]. destruct Hat as (<- & _). by split_and!. }
  destruct Ht as (s' & rest' & next & -> & Hat' & Hrest' & El & Ef & Et & Hnext). pose proof Hat' as (A1 & A2 & A3 & A4 & A5).
  destruct single eqn:Hsingle.
  { cbn [loop_result]. exists s', (Z.of_nat (length pre)). rewrite size_of_cons. cbn [size_of total fold_right]. rewrite A4, Hrest', <- app_assoc, close_record. cbn [chain].
    rewrite Z.add_0_r. by split_and!. }
  assert (Hroom : Z.of_nat (length rest) - record_size l e = Z.of_nat (length rest')) by (rewrite Hrest', length_drop; lia).
  rewrite Hroom. specialize (IH fuel (i + 1) s' _ rest' Hdrop' ltac:(lia) ltac:(lia) Hat' ltac:(lia) ltac:(lia)).
  destruct (pick l pattern flags false (Z.of_nat (length rest')) (i + 1) es) as [[[|c r] final] full] eqn:Epick; cbn [loop_result] in IH |- *.
  - rewrite Ef, andb_false_r in IH. destruct IH as (s2 & -> & (S1 & S2 & S3 & S4 & S5)). exists s2, (Z.of_nat (length pre)). rewrite size_of_cons. cbn [size_of total fold_right].
    rewrite S2, A4, Hrest', <- app_assoc, close_record, Z.add_0_r. split_and!; try done; congruence.
  - destruct IH as (s2 & last & -> & S1 & S2 & S3 & S4 & S5). exists s2, last. rewrite S5, size_of_cons. split_and!; try done; [lia|].
    assert (i + 1 < N) by (destruct es; [done|cbn in HN; lia]). rewrite (Hnext eq_refl) by done. cbn [chain]. rewrite <- !app_assoc. do 4 f_equal.
    rewrite Hrest', drop_drop. f_equal. pose proof (size_of_nonneg l (c :: r)). lia.
Qed.

(** ** One query *)

(** The entries from index [start] on that match, with their indexes. *)
Definition matching (start : Z) : list (Z * ENTRY) := wanted_from pattern flags start (drop (Z.to_nat start) (entries d)).

Lemma pick_facts es room i chosen final full :
  picked room i es = (chosen, final, full) ->
  i <= final <= i + Z.of_nat (length es) /\ wanted_from pattern flags i es = chosen ++ wanted_from pattern flags final (drop (Z.to_nat (final - i)) es) /\
  Forall (fun p => p.2 ∈ es /\ i <= p.1 < i + Z.of_nat (length es)) chosen /\ size_of l chosen <= Z.max 0 room /\ (single = true -> (length chosen <= 1)%nat) /\
  (full = true -> exists p r, wanted_from pattern flags final (drop (Z.to_nat (final - i)) es) = p :: r /\ room - size_of l chosen < record_size l p.2) /\
  (full = false -> chosen = [] \/ single = false -> final = i + Z.of_nat (length es)).
Proof.
  revert room i chosen final full. induction es as [|e es IH]; intros room i chosen final full E; cbn [pick] in E.
  { injection E as <- <- <-. rewrite drop_nil. change (size_of l []) with 0. cbn [wanted_from length]. split_and!; try done; try lia; intros; lia. }
  assert (Hskip : forall f, i + 1 <= f -> drop (Z.to_nat (f - i)) (e :: es) = drop (Z.to_nat (f - (i + 1))) es).
  { intros f Hf. replace (Z.to_nat (f - i)) with (S (Z.to_nat (f - (i + 1)))) by lia. done. }
  cbn [wanted_from length] in *. destruct (wanted pattern flags e) eqn:Ew; cbn [negb] in E.
  2: { destruct (IH _ _ _ _ _ E) as (H1 & H2 & H3 & H4 & H5 & H6 & H7). rewrite Hskip by lia. split_and!; try done; [lia..| |intros; rewrite H7 by done; lia].
       eapply Forall_impl; [exact H3|]. intros p [? ?]. split; [by right|lia]. }
  destruct (Z.ltb_spec room (record_size l e)) as [|Hfit].
  { injection E as <- <- <-. rewrite Z.sub_diag. change (Z.to_nat 0) with 0%nat. rewrite drop_0. cbn [wanted_from]. rewrite Ew. change (size_of l []) with 0. split_and!; try done; try lia; intros _; [cbn; lia|]. eexists _, _. split; [done|]. cbn [snd]. lia. }
  pose proof (size_of_nonneg l [(i, e)]) as Hpos. cbn in Hpos. destruct single eqn:Es.
  { injection E as <- <- <-. rewrite Hskip by lia. replace (Z.to_nat (i + 1 - (i + 1))) with 0%nat by lia. rewrite drop_0. split_and!; try done; [lia..| |cbn; lia|by intros _ [?|?]].
    constructor; [|constructor]. split; [by left|cbn; lia]. }
  destruct (pick l pattern flags false (room - record_size l e) (i + 1) es) as [[r f] b] eqn:Ep. injection E as <- <- <-.
  destruct (IH _ _ _ _ _ Ep) as (H1 & H2 & H3 & H4 & H5 & H6 & H7). rewrite Hskip by lia. rewrite size_of_cons. split_and!; [lia..|by rewrite H2| |lia|done| |].
  - constructor; [split; [by left|cbn; lia]|]. eapply Forall_impl; [exact H3|]. intros p [? ?]. split; [by right|lia].
  - intros Hb. destruct (H6 Hb) as (p & r' & -> & ?). exists p, r'. split; [done|lia].
  - intros Hb _. rewrite H7 by (auto || done). lia.
Qed.

(** The picked entries as the loop's end leaves them in the buffer. *)
Lemma query_exact start out scratch :
  0 <= start < 4294967296 -> Z.of_nat (length out) < 4294967296 -> DIRCTRL_ENTRY_MAX_BYTES <= Z.of_nat (length scratch) ->
  exists chosen final full, picked (Z.of_nat (length out)) start (drop (Z.to_nat start) (entries d)) = (chosen, final, full) /\
    DirCtrlEnumerateDirectoryEntries query start out scratch =
    Some (match chosen with
          | [] => Enumerated (if full then STATUS_BUFFER_OVERFLOW else STATUS_NO_MORE_FILES) 0 final out
          | _ => Enumerated STATUS_SUCCESS (size_of l chosen) final (chain l chosen ++ drop (Z.to_nat (size_of l chosen)) out)
          end).
Proof.
  intros Hs Hout Hscr. unfold DirCtrlEnumerateDirectoryEntries. cbn [f_TotalEntries query]. fold N. set (s0 := mkEnum _ _ _ _ _ _ _ _).
  assert (Hat : at_entry s0 start [] out) by done. destruct (Z.lt_ge_cases N start) as [Hgt|Hle].
  { exists [], start, false. rewrite drop_ge by (unfold N in Hgt; lia). split; [done|]. cbn [enumerate_loop]. by rewrite (turn_end _ _ _ _ Hat) by lia. }
  set (es := drop (Z.to_nat start) (entries d)). assert (Hes : start + Z.of_nat (length es) = N) by (unfold es, N; rewrite length_drop; unfold N in Hle; lia).
  pose proof (loop_exact es (S (Z.to_nat (N - start))) start s0 [] out eq_refl ltac:(lia) Hes Hat Hout ltac:(lia)) as Hl. fold es.
  destruct (picked (Z.of_nat (length out)) start es) as [[[|c r] final] full] eqn:Ep; cbn [loop_result] in Hl; eexists _, _, _; (split; [reflexivity|]).
  - cbn [n_Found s0 negb] in Hl. rewrite andb_true_r in Hl. destruct full; [by rewrite Hl|]. destruct Hl as (s' & -> & (E1 & E2 & E3 & E4 & E5)). cbn [mbind option_bind].
    rewrite E1, E2, E3, E4, E5. done.
  - destruct Hl as (s' & last & -> & E1 & E2 & E3 & E4 & E5). cbn [mbind option_bind]. rewrite E4. cbn [f_FaultLast query]. rewrite E5, E1, E2, E3. cbn [mbind option_bind app]. done.
Qed.

Lemma entry_in_listing es e : es `suffix_of` entries d -> e ∈ es -> entry_ok e.
Proof. intros [pre E] He. pose proof (lo_entries _ Hd) as Hf. rewrite Forall_forall in Hf. apply Hf. rewrite E. apply elem_of_app. by right. Qed.

Lemma chosen_ok room start chosen final full :
  0 <= start -> picked room start (drop (Z.to_nat start) (entries d)) = (chosen, final, full) -> Forall (fun p => entry_ok p.2 /\ 0 <= p.1 < 256 ^ 4) chosen.
Proof.
  intros Hs Ep. destruct (pick_facts _ _ _ _ _ _ Ep) as (_ & _ & Hf & _). pose proof (lo_count _ Hd). eapply Forall_impl; [exact Hf|]. intros p [Hin Hi]. split.
  - eapply entry_in_listing; [|exact Hin]. exists (take (Z.to_nat start) (entries d)). by rewrite take_drop.
  - rewrite length_drop in Hi. change (256 ^ 4) with 4294967296. lia.
Qed.

Lemma matching_drop start final : 0 <= start <= final -> matching final = wanted_from pattern flags final (drop (Z.to_nat (final - start)) (drop (Z.to_nat start) (entries d))).
Proof. intros Hf. unfold matching. rewrite drop_drop. by replace (Z.to_nat start + Z.to_nat (final - start))%nat with (Z.to_nat final) by lia. Qed.

Lemma matching_end i : N <= i -> matching i = [].
Proof. intros Hi. unfold matching. by rewrite drop_ge by (unfold N in Hi; lia). Qed.

Lemma length_chain r : Forall (fun p => entry_ok p.2 /\ 0 <= p.1 < 256 ^ 4) r -> Z.of_nat (length (chain l r)) = size_of l r.
Proof.
  induction 1 as [|[i e] r [He _] _ IH]; [done|]. rewrite size_of_cons. destruct r as [|p r].
  - cbn [chain]. rewrite (length_encode l _ _ e (eo_name _ He)). change (size_of l []) with 0. lia.
  - change (chain l ((i, e) :: p :: r)) with (encode l (record_size l e) i e ++ chain l (p :: r)). rewrite length_app, Nat2Z.inj_add, (length_encode l _ _ e (eo_name _ He)), IH. done.
Qed.

(** What one query shows of the listing. *)
Record shows (start room : Z) (chosen : list (Z * ENTRY)) (st : NTSTATUS) (used final : Z) : Prop := {
  sh_next : matching start = chosen ++ matching final;
  sh_used : used = size_of l chosen /\ used <= room;
  sh_final : start <= final <= Z.max start (Z.of_nat (length (entries d)));
  sh_status : st = match chosen, matching start with [], [] => STATUS_NO_MORE_FILES | [], _ => STATUS_BUFFER_OVERFLOW | _, _ => STATUS_SUCCESS end;
  sh_single : single = true -> (length chosen <= 1)%nat;
  sh_maximal : single = false \/ chosen = [] -> match matching final with [] => True | p :: _ => room < used + record_size l p.2 end
}.

Lemma query_shows start out scratch :
  0 <= start < 4294967296 -> Z.of_nat (length out) < 4294967296 -> DIRCTRL_ENTRY_MAX_BYTES <= Z.of_nat (length scratch) ->
  exists st used final out' chosen, DirCtrlEnumerateDirectoryEntries query start out scratch = Some (Enumerated st used final out') /\
    shows start (Z.of_nat (length out)) chosen st used final /\ length out' = length out /\ drop (Z.to_nat used) out' = drop (Z.to_nat used) out /\
    (chosen = [] -> out' = out) /\ (chosen <> [] -> walk (length chosen) l out' 0 = Some chosen).
Proof.
  intros Hs Hout Hscr. destruct (query_exact start out scratch Hs Hout Hscr) as (chosen & final & full & Ep & ->).
  pose proof (chosen_ok _ start _ _ _ (proj1 Hs) Ep) as Hok. destruct (pick_facts _ _ _ _ _ _ Ep) as (F1 & F2 & _ & F4 & F5 & F6 & F7). rewrite <- matching_drop in F2, F6 by lia.
  change (wanted_from pattern flags start _) with (matching start) in F2. pose proof (size_of_nonneg l chosen) as Hpos.
  assert (Hshow : shows start (Z.of_nat (length out)) chosen (match chosen with [] => if full then STATUS_BUFFER_OVERFLOW else STATUS_NO_MORE_FILES | _ => STATUS_SUCCESS end) (size_of l chosen) final).
  { rewrite length_drop in F1. split; try done; [split; [done|lia]|lia| |].
    - destruct chosen as [|c r]; [|done]. cbn [app] in F2. rewrite F2. destruct full; [by destruct (F6 eq_refl) as (p & r & -> & _)|].
      rewrite (matching_end final); [done|]. rewrite F7 by auto. rewrite length_drop. unfold N. lia.
    - intros Hor. destruct full; [destruct (F6 eq_refl) as (p & r & -> & ?); lia|]. rewrite (matching_end final); [done|]. rewrite F7 by (by destruct Hor; auto). rewrite length_drop. unfold N. lia. }
  destruct chosen as [|c r].
  - eexists _, _, _, _, []. split; [reflexivity|]. split_and!; done.
  - eexists _, _, _, _, (c :: r). split; [reflexivity|]. pose proof (length_chain (c :: r) Hok) as Hlen. destruct (sh_used _ _ _ _ _ _ Hshow) as [_ Hroom]. split_and!; try done.
    + rewrite length_app, length_drop. lia.
    + rewrite drop_app_ge by lia. rewrite drop_drop. f_equal. lia.
    + intros _. apply walk_chain; [done| |done]. eexists [], _. split; [reflexivity|done].
Qed.

(** ** Query after query *)

(** A caller that asks again with the same buffer, from where the last query
    stopped, until it is told there is no more. *)
Fixpoint read_all (fuel : nat) (start : Z) (out scratch : BYTES) : option (list (Z * ENTRY)) :=
  match fuel with
  | O => None
  | S fuel =>
      match DirCtrlEnumerateDirectoryEntries query start out scratch with
      | Some (Enumerated st used final out) =>
          if st =? STATUS_NO_MORE_FILES then Some []
          else if negb (NT_SUCCESS st) then None
          else shown ← walk (length (entries d)) l out 0; rest ← read_all fuel final out scratch; Some (shown ++ rest)
      | _ => None
      end
  end.

Lemma walk_more n m out off r : walk n l out off = Some r -> (n <= m)%nat -> walk m l out off = Some r.
Proof.
  revert m off r. induction n as [|n IH]; intros m off r E Hm; [done|]. destruct m as [|m]; [lia|]. cbn [walk] in *. destruct (read_record l out off) as [[next p]|]; [|done]. cbn [mbind option_bind] in *.
  destruct (next =? 0); [done|]. destruct (walk n l out (off + next)) as [r'|] eqn:Ew; [|done]. by rewrite (IH m _ _ Ew) by lia.
Qed.

Lemma wanted_length i es : (length (wanted_from pattern flags i es) <= length es)%nat.
Proof. revert i. induction es as [|e es IH]; intros i; [done|]. cbn. specialize (IH (i + 1)). destruct (wanted pattern flags e); cbn; lia. Qed.
Lemma matching_length start : (length (matching start) <= length (entries d))%nat.
Proof. unfold matching. pose proof (wanted_length start (drop (Z.to_nat start) (entries d))). rewrite length_drop in *. lia. Qed.

Lemma matching_ok i : Forall (fun p => entry_ok p.2) (matching i).
Proof.
  unfold matching. set (es := drop _ _). assert (Hin : forall e, e ∈ es -> entry_ok e) by (intros e; apply entry_in_listing; exists (take (Z.to_nat i) (entries d)); unfold es; by rewrite take_drop).
  clearbody es. generalize i as k. induction es as [|e es IH]; intros k; cbn; [done|]. assert (Hrest : forall k, Forall (fun p => entry_ok p.2) (wanted_from pattern flags k es)) by (intros; apply IH; intros; apply Hin; by right).
  destruct (wanted _ _ e); [constructor; [apply Hin; by left|done]|done].
Qed.

Lemma read_all_exact fuel start out scratch :
  0 <= start <= N -> DIRCTRL_ENTRY_MAX_BYTES <= Z.of_nat (length out) < 4294967296 -> DIRCTRL_ENTRY_MAX_BYTES <= Z.of_nat (length scratch) ->
  (length (matching start) < fuel)%nat -> read_all fuel start out scratch = Some (matching start).
Proof.
  revert start out. induction fuel as [|fuel IH]; intros start out Hs Hout Hscr Hfuel; [lia|]. cbn [read_all]. pose proof (lo_count _ Hd) as Hcount. fold N in Hcount.
  destruct (query_shows start out scratch ltac:(lia) ltac:(lia) Hscr) as (st & used & final' & out' & chosen' & Eq' & [S1 [S2 S2'] S3 S4 S5 S6] & Hlen & _ & _ & Hwalk).
  rewrite Eq'. assert (Hfits : chosen' = [] -> matching start = []).
  { intros ->. cbn [app] in S1. specialize (S6 ltac:(by right)). pose proof (matching_ok final') as Hok. destruct (matching final') as [|p r]; [done|].
    apply Forall_cons in Hok as [Hp _]. pose proof (record_size_bounds l p.2 (eo_name _ Hp)). rewrite S2 in S6. change (size_of l []) with 0 in S6. lia. }
  destruct chosen' as [|c r].
  { rewrite (Hfits eq_refl) in *. by rewrite S4. }
  rewrite S4. change (STATUS_SUCCESS =? STATUS_NO_MORE_FILES) with false. change (NT_SUCCESS STATUS_SUCCESS) with true. cbn [negb].
  pose proof (matching_length start) as Hm. rewrite S1, length_app in Hm, Hfuel.
  rewrite (walk_more _ (length (entries d)) _ _ _ (Hwalk ltac:(done))) by lia. cbn [mbind option_bind].
  rewrite IH; [by rewrite S1|unfold N in *; lia|lia|done|cbn [length] in Hfuel; lia].
Qed.
End Loop.

(** ** The listings the client decodes *)

Section Decoded.
Context {utf8 : Utf8} (flat : FLAT_DIRECTORY) (bodyLen : Z) (noStore allocOk : bool) (dec : DECODED).
Context (Hflat : flat_verified flat bodyLen) (Hdec : HttpDecodeListing flat bodyLen noStore allocOk = Some (inr dec)).

Lemma listing_decoded : listing_ok (dc_Info dec).
Proof. destruct (decode_listing_exact flat bodyLen noStore allocOk Hflat) as (r & Hr & Hok). rewrite Hdec in Hr. injection Hr as <-. by eapply decoded_listing_ok. Qed.

(** C35: one directory query on any listing the client decoded from a verified
    body, whatever the buffer, when neither a copy to it nor the kernel's
    comparison of names raises: it ends, writes only the bytes it reports, and
    a caller that follows NextEntryOffset reads exactly the next entries of the
    listing that match the query ([matches]), each with its own index, times, size, attributes and name - the name up to its first NUL,
    which is all of it where it has none - as many as fit (one if one was asked
    for); what is left for later queries is exactly the rest.  With no entry
    shown the buffer is untouched and the status tells a full buffer from the
    end. *)
Theorem directory_query_shows_next l pattern flags single start out scratch :
  0 <= start < 4294967296 -> Z.of_nat (length out) < 4294967296 -> DIRCTRL_ENTRY_MAX_BYTES <= Z.of_nat (length scratch) ->
  exists st used final out' chosen, DirCtrlEnumerateDirectoryEntries (query l (dc_Info dec) pattern flags single) start out scratch = Some (Enumerated st used final out') /\
    shows l (dc_Info dec) pattern flags single start (Z.of_nat (length out)) chosen st used final /\ length out' = length out /\ drop (Z.to_nat used) out' = drop (Z.to_nat used) out /\
    (chosen = [] -> out' = out) /\ (chosen <> [] -> walk (length chosen) l out' 0 = Some chosen).
Proof. apply query_shows, listing_decoded. Qed.

(** C36: on any listing the client decoded from a verified body, a caller whose
    buffer holds the largest record and who asks until told there is no more,
    none of its queries meeting a fault, gets every entry of the listing that
    matches ([matches]) exactly once, in order, names up to their first NUL, in
    at most one query more than there are such entries. *)
Theorem enumeration_is_complete l pattern flags single out scratch :
  DIRCTRL_ENTRY_MAX_BYTES <= Z.of_nat (length out) < 4294967296 -> DIRCTRL_ENTRY_MAX_BYTES <= Z.of_nat (length scratch) ->
  read_all l (dc_Info dec) pattern flags single (S (length (matching (dc_Info dec) pattern flags 0))) 0 out scratch = Some (matching (dc_Info dec) pattern flags 0).
Proof. intros Hout Hscr. apply read_all_exact; try done; [apply listing_decoded|lia|lia]. Qed.
End Decoded.
End Query.

(** ** A listing

    Two files, the second with a NUL inside its name, and a subdirectory; the
    conversion takes ASCII as it is. *)

Section Demo.
#[local] Instance demo_nls : Nls := {| upcase := fun c => c; rtl_hash := fun _ => None; upcase_sep := fun c => iff_refl _; rtl_hash_upcase := fun _ _ _ => eq_refl |}.
#[local] Instance demo_expressions : NameExpressions := fun _ _ => None.
#[local] Instance demo_utf8 : Utf8.
Proof.
  refine {| RtlUTF8ToUnicodeN := fun maxBytes s => if 2 * Z.of_nat (length s) <=? maxBytes then (STATUS_SUCCESS, u8 <$> s) else (STATUS_INVALID_PARAMETER, []) |};
    intros maxBytes s st u; (destruct (Z.leb_spec (2 * Z.of_nat (length s)) maxBytes); intros [= <- <-]; [intros _|done]); rewrite ?length_fmap; try lia.
  apply Forall_fmap, Forall_forall. intros c _. unfold compose, u8. pose proof (Z.mod_pos_bound c 256). lia.
Defined.

Definition demo_flat : FLAT_DIRECTORY := mkFlat [mkFlatFile (Some [97; 98]) 7 1 2 3; mkFlatFile (Some [99; 0; 120]) 8 1 2 3] [mkFlatSubDir (Some [100]) 4 5 6].
Definition demo_decoded : DECODED :=
  match HttpDecodeListing demo_flat 100 false true with Some (inr dec) => dec | _ => mkDecoded (mkListing [] [] 0 false) (mkLayout 0 0 0 0 0) [] [] ([], []) end.
Lemma demo_decodes : HttpDecodeListing demo_flat 100 false true = Some (inr demo_decoded).
Proof. vm_compute. reflexivity. Qed.
Lemma demo_verified : flat_verified demo_flat 100.
Proof. split; [lia|done|done|..]; repeat (apply Forall_cons; split; [done|]); by apply Forall_nil. Qed.
Lemma demo_listing_ok : listing_ok (dc_Info demo_decoded).
Proof. exact (listing_decoded demo_flat 100 false true demo_decoded demo_verified demo_decodes). Qed.
Definition demo_block : BYTES := replicate 624 0.

(** The query for a name with a NUL inside is answered by what precedes it. *)
Lemma directory_query_shows_next_witness :
  matching (dc_Info demo_decoded) (Some [99]) 0 0 = [(1, mkDirEntry [99] 1 2 3 8 FILE_ATTRIBUTE_NORMAL)] /\
  exists st used final out' chosen, DirCtrlEnumerateDirectoryEntries (query LayoutBoth (dc_Info demo_decoded) (Some [99]) 0 false) 1 demo_block demo_block = Some (Enumerated st used final out') /\
    shows LayoutBoth (dc_Info demo_decoded) (Some [99]) 0 false 1 (Z.of_nat (length demo_block)) chosen st used final /\ length out' = length demo_block /\ drop (Z.to_nat used) out' = drop (Z.to_nat used) demo_block /\
    (chosen = [] -> out' = demo_block) /\ (chosen <> [] -> walk (length chosen) LayoutBoth out' 0 = Some chosen).
Proof.
  split; [vm_compute; reflexivity|]. apply (directory_query_shows_next demo_flat 100 false true demo_decoded demo_verified demo_decodes LayoutBoth (Some [99]) 0 false 1 demo_block demo_block); [lia|done|done].
Defined.

Lemma enumeration_is_complete_witness :
  length (matching (dc_Info demo_decoded) None CCB_FLAG_MATCH_ALL 0) = 3%nat /\
  read_all LayoutFull (dc_Info demo_decoded) None CCB_FLAG_MATCH_ALL true (S (length (matching (dc_Info demo_decoded) None CCB_FLAG_MATCH_ALL 0))) 0 demo_block demo_block = Some (matching (dc_Info demo_decoded) None CCB_FLAG_MATCH_ALL 0).
Proof.
  split; [vm_compute; reflexivity|]. apply (enumeration_is_complete demo_flat 100 false true demo_decoded demo_verified demo_decodes LayoutFull None CCB_FLAG_MATCH_ALL true demo_block demo_block); done.
Defined.
End Demo.
