(* ===== verification/DirCtrlQuery.v ===== *)
(** * Directory control: the handlers (src/DirCtrl.c)

    A query on a handle, the completion of the fetch it may issue, and the
    background refresh.  What a handler does to the directory's resource, to
    references on listings and to pool blocks is an [EFFECT]; what the kernel,
    the caches and other threads answer is [DIR_ANSWERS].  The contents of
    snapshots are immutable, so they are a function of the address. *)

From S2P Require Import Prelude Buffers UnicodePath PathCache DirCtrl.

Inductive INFORMATION_CLASS :=
  | FileIdBothDirectoryInformation | FileFullDirectoryInformation | FileBothDirectoryInformation
  | FileDirectoryInformation | FileIdFullDirectoryInformation | FileNamesInformation | OtherInformation.

(** The handle's part of the CCB; no pattern buffer is [None]. *)
Record DIR_CCB := mkDirCcb { c_Flags : Z; c_CurrentIndex : Z; c_SearchPattern : option PATH; c_Entries : option Z }.

Inductive DIR_EFFECT :=
  | AcquireResource (exclusive : bool)
  | ConvertToShared
  | ReleaseResource
  | Reference (listing : Z)     (* the cache gave one *)
  | Dereference (listing : Z)
  | AllocPattern
  | FreePattern
  | AllocScratch
  | FreeScratch
  | AllocFetch
  | FreeFetch
  | PostRequest (st : NTSTATUS) (* to the FSP queue, with its answer *)
  | IssueFetch                  (* its completion owns the IRP *)
  | RegisterNotify              (* the notify package owns the IRP *)
  | PublishListing (listing : Z)
  | IssueRefresh
  | CompleteIrp (st : NTSTATUS).

(** The IRP and its stack location. *)
Record DIR_QUERY := mkDirQuery {
  q_NodeIsDirectory : bool;
  q_RestartScan : bool;
  q_ReturnSingle : bool;
  q_IndexSpecified : bool;
  q_FileName : option PATH;
  q_Class : INFORMATION_CLASS;
  q_FileIndex : Z;
  q_Buffer : BYTES;
  q_NetDone : bool;
  q_InFsp : bool
}.

Record DIR_ANSWERS := mkDirAnswers {
  da_Acquire : bool;              (* the resource could be had *)
  da_Post : NTSTATUS;
  da_Upcase : NTSTATUS;
  da_Lookup : option Z;           (* BlorgPathCacheLookupListing, *)
  da_RefreshOwed : bool;          (* and what it says is owed *)
  da_Raced : option Z;            (* a snapshot another query installed meanwhile *)
  da_FetchMemory : bool;
  da_FetchIssue : NTSTATUS;
  da_Scratch : bool;
  da_Mapped : bool;
  da_CompareFaults : Z -> option NTSTATUS; (* what comparing an entry's name raises *)
  da_Faults : Z -> option (NTSTATUS * Z);  (* what a copy to the buffer raises, and after how many bytes *)
  da_FaultLast : option NTSTATUS;
  da_RefreshMemory : bool;
  da_RefreshPath : bool;
  da_RefreshIssue : NTSTATUS;
  da_Junk : BYTES                 (* what the scratch block holds *)
}.

Section Handlers.
Context {nls : Nls} {expressions : NameExpressions} (info : Z -> DIRECTORY_INFO).

(** [NULL] is released for free. *)
Definition release_listing (p : option Z) : list DIR_EFFECT := match p with Some p => [Dereference p] | None => [] end.

Definition DirCtrlFetch (a : DIR_ANSWERS) : list DIR_EFFECT * NTSTATUS :=
  if negb (da_FetchMemory a) then ([], STATUS_INSUFFICIENT_RESOURCES)
  else if da_FetchIssue a =? STATUS_PENDING then ([AllocFetch; IssueFetch], STATUS_PENDING)
  else ([AllocFetch; FreeFetch], da_FetchIssue a).

Definition DirCtrlRefresh (a : DIR_ANSWERS) : list DIR_EFFECT :=
  if negb (da_RefreshMemory a) then []
  else if negb (da_RefreshPath a) then [AllocFetch; FreeFetch]
  else if da_RefreshIssue a =? STATUS_PENDING then [AllocFetch; IssueRefresh]
  else [AllocFetch; FreeFetch].

(** A compare-exchange from NULL. *)
Definition DirCtrlInstallSnapshot (entries : option Z) (snapshot : Z) : option Z * list DIR_EFFECT :=
  match entries with Some p => (Some p, [Dereference snapshot]) | None => (Some snapshot, []) end.

Definition no_pattern (ccb : DIR_CCB) : bool := bool_decide (c_SearchPattern ccb = None) && (Z.land (c_Flags ccb) CCB_FLAG_MATCH_ALL =? 0).

(** How the resource is taken: [seen] is the CCB as first looked at, [ccb] as
    it is once the resource is held.  The result is whether it is held
    exclusive, whether this is an initial query, and the CCB. *)
Definition query_lock (seen ccb : DIR_CCB) (q : DIR_QUERY) : list DIR_EFFECT * (bool * bool * DIR_CCB) :=
  let restarted := mkDirCcb (c_Flags ccb) 0 (c_SearchPattern ccb) (c_Entries ccb) in
  if no_pattern seen then
    if negb (no_pattern ccb) then
      if q_RestartScan q then ([AcquireResource true], (true, false, restarted)) else ([AcquireResource true; ConvertToShared], (false, false, ccb))
    else ([AcquireResource true], (true, true, ccb))
  else if q_RestartScan q then ([AcquireResource true], (true, false, restarted))
  else ([AcquireResource false], (false, false, ccb)).

(** The pattern of an initial query or a restart. *)
Definition query_pattern (ccb : DIR_CCB) (q : DIR_QUERY) (a : DIR_ANSWERS) : list DIR_EFFECT * NTSTATUS * DIR_CCB :=
  let freed := match c_SearchPattern ccb with Some _ => [FreePattern] | None => [] end in
  match q_FileName q with
  | None | Some [] => (freed, STATUS_SUCCESS, mkDirCcb CCB_FLAG_MATCH_ALL (c_CurrentIndex ccb) None (c_Entries ccb))
  | Some pattern =>
      if negb (NT_SUCCESS (da_Upcase a)) then (freed, da_Upcase a, mkDirCcb 0 (c_CurrentIndex ccb) None (c_Entries ccb))
      else
        let pattern := fold_path pattern in
        let flags := if bool_decide (pattern = [42]) then CCB_FLAG_MATCH_ALL else 0 in
        (freed ++ [AllocPattern], STATUS_SUCCESS, mkDirCcb flags (c_CurrentIndex ccb) (Some pattern) (c_Entries ccb))
  end.

Definition fill_class (c : INFORMATION_CLASS) : NTSTATUS + FILL_ROUTINE :=
  match c with
  | FileIdBothDirectoryInformation => inr DirCtrlFillFileIdBothDirInfo
  | FileFullDirectoryInformation => inr DirCtrlFillFileFullDirInfo
  | FileBothDirectoryInformation => inr DirCtrlFillFileBothDirInfo
  | FileDirectoryInformation | FileIdFullDirectoryInformation | FileNamesInformation => inl STATUS_NOT_IMPLEMENTED
  | OtherInformation => inl STATUS_INVALID_INFO_CLASS
  end.

(** From the snapshot to the buffer: the status, IoStatus.Information and the
    buffer. *)
Definition query_fill (ccb : DIR_CCB) (entries : Z) (q : DIR_QUERY) (a : DIR_ANSWERS) : option (list DIR_EFFECT * NTSTATUS * DIR_CCB * Z * BYTES) :=
  let index := if q_IndexSpecified q then q_FileIndex q else u32 (c_CurrentIndex ccb) in
  let d := info entries in
  let totalEntries := u32 (Z.of_nat (length (Files d)) + Z.of_nat (length (SubDirs d))) in
  match fill_class (q_Class q) with
  | inl st => Some ([], st, ccb, 0, q_Buffer q)
  | inr fill =>
      if negb (da_Scratch a) then Some ([], STATUS_INSUFFICIENT_RESOURCES, ccb, 0, q_Buffer q)
      else if negb (da_Mapped a) then Some ([AllocScratch; FreeScratch], STATUS_INSUFFICIENT_RESOURCES, ccb, 0, q_Buffer q)
      else
        r ← DirCtrlEnumerateDirectoryEntries (mkFill d totalEntries (c_SearchPattern ccb) (c_Flags ccb) (q_ReturnSingle q) fill (da_CompareFaults a) (da_Faults a) (da_FaultLast a)) index (q_Buffer q) (da_Junk a);
        match r with
        | EnumerationRaised st out => Some ([AllocScratch; FreeScratch], st, ccb, 0, out)
        | Enumerated st used index out =>
            let ccb := if q_IndexSpecified q then ccb else mkDirCcb (c_Flags ccb) index (c_SearchPattern ccb) (c_Entries ccb) in
            Some ([AllocScratch; FreeScratch], st, ccb, if NT_SUCCESS st then used else 0, out)
        end
  end.

(** What a query leaves: the status, the CCB, Information and the buffer. *)
Record DIR_DONE := mkDirDone { r_Status : NTSTATUS; r_Ccb : DIR_CCB; r_Information : Z; r_Buffer : BYTES }.

(** From the snapshot on; the resource is held, [exclusive] or not. *)
Definition query_enumerate (ccb : DIR_CCB) (exclusive fresh : bool) (q : DIR_QUERY) (a : DIR_ANSWERS) : option (list DIR_EFFECT * DIR_DONE) :=
  if fresh && negb exclusive then None (* NT_ASSERT *)
  else
    let dropped := if fresh then release_listing (c_Entries ccb) else [] in
    let ccb := if fresh then mkDirCcb (c_Flags ccb) (c_CurrentIndex ccb) (c_SearchPattern ccb) None else ccb in
    match c_Entries ccb, da_Lookup a with
    | None, None =>
        if negb (q_InFsp q) then Some (dropped ++ [ReleaseResource; PostRequest (da_Post a)], mkDirDone (da_Post a) ccb 0 (q_Buffer q))
        else let '(fx, st) := DirCtrlFetch a in Some (dropped ++ [ReleaseResource] ++ fx, mkDirDone st ccb 0 (q_Buffer q))
    | None, Some snapshot =>
        let '(entries, fx) := DirCtrlInstallSnapshot (if exclusive then None else da_Raced a) snapshot in
        let ccb := mkDirCcb (c_Flags ccb) (c_CurrentIndex ccb) (c_SearchPattern ccb) entries in
        p ← entries;
        '(fx', st, ccb, information, out) ← query_fill ccb p q a;
        Some (dropped ++ [Reference snapshot] ++ fx ++ fx' ++ [ReleaseResource] ++ (if da_RefreshOwed a then DirCtrlRefresh a else []), mkDirDone st ccb information out)
    | Some p, _ =>
        '(fx', st, ccb, information, out) ← query_fill ccb p q a;
        Some (dropped ++ fx' ++ [ReleaseResource], mkDirDone st ccb information out)
    end.

(** IRP_MN_QUERY_DIRECTORY. *)
Definition query_directory (seen ccb : DIR_CCB) (q : DIR_QUERY) (a : DIR_ANSWERS) : option (list DIR_EFFECT * DIR_DONE) :=
  if negb (q_NodeIsDirectory q) then Some ([], mkDirDone STATUS_INVALID_PARAMETER ccb 0 (q_Buffer q))
  else if negb (da_Acquire a) then Some ([PostRequest (da_Post a)], mkDirDone (da_Post a) ccb 0 (q_Buffer q))
  else
    let '(locked, (exclusive, initialQuery, ccb)) := query_lock seen ccb q in
    let fresh := negb (q_NetDone q) && (initialQuery || q_RestartScan q) in
    let '(fx, st, ccb) := if fresh then query_pattern ccb q a else ([], STATUS_SUCCESS, ccb) in
    if negb (NT_SUCCESS st) then Some (locked ++ fx ++ [ReleaseResource], mkDirDone st ccb 0 (q_Buffer q))
    else
      '(fx', r) ← query_enumerate ccb exclusive fresh q a;
      Some (locked ++ fx ++ fx', r).

Inductive DIR_MINOR := IRP_MN_QUERY_DIRECTORY | IRP_MN_NOTIFY_CHANGE_DIRECTORY | OtherMinor.

Definition BlorgVolumeDirectoryControl (minor : DIR_MINOR) (seen ccb : option DIR_CCB) (q : DIR_QUERY) (a : DIR_ANSWERS) : option (list DIR_EFFECT * NTSTATUS * option DIR_DONE) :=
  match minor, seen, ccb with
  | IRP_MN_QUERY_DIRECTORY, Some seen, Some ccb => '(fx, r) ← query_directory seen ccb q a; Some (fx, r_Status r, Some r)
  | IRP_MN_QUERY_DIRECTORY, _, _ => Some ([], STATUS_INVALID_PARAMETER, None)
  | IRP_MN_NOTIFY_CHANGE_DIRECTORY, Some _, _ => if q_NodeIsDirectory q then Some ([RegisterNotify], STATUS_PENDING, None) else Some ([], STATUS_INVALID_PARAMETER, None)
  | IRP_MN_NOTIFY_CHANGE_DIRECTORY, None, _ => Some ([], STATUS_INVALID_PARAMETER, None)
  | OtherMinor, _, _ => Some ([], STATUS_INVALID_DEVICE_REQUEST, None)
  end.

(** [volume]: the device is the volume's. *)
Definition BlorgDirectoryControl (volume : bool) (minor : DIR_MINOR) (seen ccb : option DIR_CCB) (q : DIR_QUERY) (a : DIR_ANSWERS) : option (list DIR_EFFECT * NTSTATUS * option DIR_DONE) :=
  if negb volume then Some ([CompleteIrp STATUS_INVALID_DEVICE_REQUEST], STATUS_INVALID_DEVICE_REQUEST, None)
  else
    '(fx, st, r) ← BlorgVolumeDirectoryControl minor seen ccb q a;
    Some (if st =? STATUS_PENDING then fx else fx ++ [CompleteIrp st], st, r).

(** The fetch a query issued has ended; [listing] comes with one reference.
    [requeue]: BlorgFsdRequeueRequest's answer. *)
Definition DirCtrlComplete (st : NTSTATUS) (listing : Z) (ccb : DIR_CCB) (requeue : NTSTATUS) : list DIR_EFFECT * DIR_CCB :=
  if negb (NT_SUCCESS st) then ([FreeFetch; CompleteIrp st], ccb)
  else
    let '(entries, loser) := match c_Entries ccb with Some p => (Some p, [Dereference listing]) | None => (Some listing, []) end in
    ([PublishListing listing; FreeFetch; AcquireResource true; ReleaseResource] ++ loser ++
     (if requeue =? STATUS_PENDING then [PostRequest requeue] else [PostRequest requeue; CompleteIrp requeue]),
     mkDirCcb (c_Flags ccb) (c_CurrentIndex ccb) (c_SearchPattern ccb) entries).

Definition DirCtrlRefreshComplete (st : NTSTATUS) (listing : Z) : list DIR_EFFECT :=
  (if NT_SUCCESS st then [PublishListing listing; Dereference listing] else []) ++ [FreeFetch].
End Handlers.
