(* ===== verification/DirCtrlHandle.v ===== *)
(** * Directory control: every path gives back what it took

    Whatever a query meets - no memory, a fault in the caller's buffer, another
    query on the handle - the directory's resource, the references on
    listings, the blocks and the IRP are accounted for exactly once. *)

From S2P Require Import Prelude Buffers UnicodePath PathCache ListingIndex ListingDecode DirCtrl DirCtrlTheorems DirCtrlQuery.

(** ** Enumeration with faults *)

Section Faults.
Context {nls : Nls} {expressions : NameExpressions}.
Context (l : LAYOUT) (d : DIRECTORY_INFO) (pattern : option PATH) (flags : Z) (single : bool).
Context (compareFaults : Z -> option NTSTATUS) (faults : Z -> option (NTSTATUS * Z)) (faultLast : option NTSTATUS).

Definition faulty : QUERY_FILL := mkFill d (Z.of_nat (length (entries d))) pattern flags single (fill_of l) compareFaults faults faultLast.

(** What the environment can raise. *)
Definition raises (st : NTSTATUS) : Prop := faultLast = Some st \/ (exists i, compareFaults i = Some st) \/ exists off n, faults off = Some (st, n).

Lemma match_faulty name fault : DirCtrlMatchPattern name pattern flags fault = DirCtrlMatchPattern name pattern flags None \/ exists st, fault = Some st /\ DirCtrlMatchPattern name pattern flags fault = inl st.
Proof. unfold DirCtrlMatchPattern. destruct (negb _); [by left|]. destruct pattern as [[|c p]|]; try by left. destruct (existsb _ _); [by left|]. destruct fault as [st|]; [right; by exists st|by left]. Qed.

(** A shorter write fails only where the longer one does. *)
Lemma wr_list_take out off src k : wr_list out off (take k src) = None -> wr_list out off src = None.
Proof.
  unfold wr_list. destruct (Z.leb_spec 0 off); cbn [andb]; [|done]. destruct (Z.leb_spec (off + Z.of_nat (length (take k src))) (Z.of_nat (length out))); [done|]. intros _.
  rewrite length_take in *. destruct (Z.leb_spec (off + Z.of_nat (length src)) (Z.of_nat (length out))); [lia|done].
Qed.

Lemma turn_faulty s : enumerate_turn faulty s = enumerate_turn (query l d pattern flags single) s \/ exists st out, raises st /\ length out = length (n_Out s) /\ enumerate_turn faulty s = Some (Raise st out).
Proof.
  unfold enumerate_turn. cbn [f_TotalEntries f_Entries f_Pattern f_Flags f_ReturnSingle f_FillFn f_CompareFaults f_Faults query faulty]. destruct (negb _); [by left|]. destruct (listing_entry d _) as [e|]; [|by left].
  destruct (match_faulty (d_Name e) (compareFaults (n_Index s))) as [->|(st & Hf & ->)]; [|right; exists st, (n_Out s); split_and!; [right; left; by exists (n_Index s)|done|done]].
  destruct (DirCtrlMatchPattern _ _ _ _) as [?|[]]; [by left| |by left]. destruct (fill_of l _ _ _ _ _ _) as [[[st scratch] written]|]; [|by left]. cbn [mbind option_bind]. destruct (negb _); [by left|].
  destruct (rd_list scratch 0 written) as [record|]; [|by left]. cbn [mbind option_bind]. destruct (faults (n_Cursor s)) as [[st' copied]|] eqn:E; [|by left].
  destruct (wr_list (n_Out s) (n_Cursor s) (take (Z.to_nat copied) record)) as [out|] eqn:Ew; cbn [mbind option_bind]; [|left; by rewrite (wr_list_take _ _ _ _ Ew)].
  right. exists st', out. split_and!; [right; right; by exists (n_Cursor s), copied|by apply sits_written in Ew as [_ ?]|done].
Qed.

Lemma turn_length q s t : enumerate_turn q s = Some (Again t) -> length (n_Out t) = length (n_Out s).
Proof.
  unfold enumerate_turn. destruct (negb _); [done|]. destruct (listing_entry _ _); [|done]. destruct (DirCtrlMatchPattern _ _ _ _) as [|[]]; [done| |by intros [= <-]]. destruct (f_FillFn _ _ _ _ _ _ _) as [[[st scratch] written]|]; [|done]. cbn [mbind option_bind].
  destruct (negb _); [by destruct (n_Found s)|]. destruct (rd_list scratch 0 written) as [record|]; [|done]. cbn [mbind option_bind]. destruct (f_Faults _ _) as [[]|]; [by destruct (wr_list _ _ _)|]. destruct (wr_list _ _ _) as [out|] eqn:Ew; [|done]. cbn [mbind option_bind].
  destruct (f_ReturnSingle _); [done|]. intros [= <-]. cbn. by apply sits_written in Ew as [_ ?].
Qed.

Lemma loop_faulty fuel s :
  enumerate_loop fuel faulty s = enumerate_loop fuel (query l d pattern flags single) s \/ exists st out, raises st /\ length out = length (n_Out s) /\ enumerate_loop fuel faulty s = Some (Raise st out).
Proof.
  revert s. induction fuel as [|fuel IH]; intros s; [by left|]. cbn [enumerate_loop]. destruct (turn_faulty s) as [->|(st & out & Hf & Hl & ->)]; [|right; by exists st, out].
  destruct (enumerate_turn _ s) as [[t| | |]|] eqn:E; cbn [mbind option_bind]; auto. apply turn_length in E. destruct (IH t) as [->|(st & out & Hf & Hl & ->)]; [by left|right; exists st, out; split_and!; [done|congruence|done]].
Qed.

(** A fault ends the query with the code raised, the buffer the size it was;
    otherwise the query is as without faults. *)
Lemma enumerate_faulty start out scratch :
  DirCtrlEnumerateDirectoryEntries faulty start out scratch = DirCtrlEnumerateDirectoryEntries (query l d pattern flags single) start out scratch \/
  exists st out', raises st /\ DirCtrlEnumerateDirectoryEntries faulty start out scratch = Some (EnumerationRaised st out').
Proof.
  unfold DirCtrlEnumerateDirectoryEntries. cbn [f_TotalEntries query faulty]. set (s0 := mkEnum _ _ _ _ _ _ _ _).
  destruct (loop_faulty (S (Z.to_nat (Z.of_nat (length (entries d)) - start))) s0) as [->|(st & out' & Hf & _ & ->)]; [|right; by exists st, out'].
  destruct (enumerate_loop _ _ s0) as [[s'|s'| |]|]; cbn [mbind option_bind]; try by left. destruct (n_LastEntry s') as [lst|]; [|by left]. cbn [f_FaultLast query faulty]. unfold raises.
  destruct faultLast as [st|]; [right; exists st, (n_Out s'); auto|by left].
Qed.
End Faults.

(** ** Accounts *)

(** The directory's resource along a trace: [None] not held, [Some b] held,
    exclusive or not.  The IRP is only given away, and a fetch only issued,
    with the resource released. *)
Definition lock_step (held : option bool) (e : DIR_EFFECT) : option (option bool) :=
  match e, held with
  | AcquireResource exclusive, None => Some (Some exclusive)
  | ConvertToShared, Some true => Some (Some false)
  | ReleaseResource, Some _ => Some None
  | (AcquireResource _ | ConvertToShared | ReleaseResource), _ => None
  | (PostRequest _ | IssueFetch | RegisterNotify | IssueRefresh | CompleteIrp _ | PublishListing _), Some _ => None
  | _, _ => Some held
  end.
Fixpoint lock_run (held : option bool) (fx : list DIR_EFFECT) : option (option bool) :=
  match fx with [] => Some held | e :: fx => held ← lock_step held e; lock_run held fx end.

(** Who has the IRP in the end. *)
Definition irp_of (e : DIR_EFFECT) : Z :=
  match e with CompleteIrp _ | IssueFetch | RegisterNotify => 1 | PostRequest st => if st =? STATUS_PENDING then 1 else 0 | _ => 0 end.
Definition scratch_of (e : DIR_EFFECT) : Z := match e with AllocScratch => 1 | FreeScratch => -1 | _ => 0 end.
(** A fetch context is freed here, or by the completion of what was issued. *)
Definition fetch_of (e : DIR_EFFECT) : Z := match e with AllocFetch => 1 | FreeFetch | IssueFetch | IssueRefresh => -1 | _ => 0 end.
Definition pattern_of (e : DIR_EFFECT) : Z := match e with AllocPattern => 1 | FreePattern => -1 | _ => 0 end.
Definition reference_of (p : Z) (e : DIR_EFFECT) : Z :=
  match e with Reference x => if x =? p then 1 else 0 | Dereference x => if x =? p then -1 else 0 | _ => 0 end.
Definition held_at (p : Z) (o : option Z) : Z := match o with Some x => if x =? p then 1 else 0 | None => 0 end.
Definition patterns (o : option PATH) : Z := match o with Some _ => 1 | None => 0 end.

Lemma lock_run_app held fx fx' : lock_run held (fx ++ fx') = (held ← lock_run held fx; lock_run held fx').
Proof. revert held. induction fx as [|e fx IH]; intros held; [done|]. cbn. destruct (lock_step held e); cbn; [apply IH|done]. Qed.

(** What a part of a trace comes to. *)
Record accounted (before after : option bool) (fx : list DIR_EFFECT) (irp pattern : Z) (refs : Z -> Z) : Prop := {
  ac_lock : lock_run before fx = Some after;
  ac_irp : total irp_of fx = irp;
  ac_scratch : total scratch_of fx = 0;
  ac_fetch : total fetch_of fx = 0;
  ac_pattern : total pattern_of fx = pattern;
  ac_refs p : total (reference_of p) fx = refs p
}.

Lemma accounted_app h0 h1 h2 fx fx' i i' n n' r r' :
  accounted h0 h1 fx i n r -> accounted h1 h2 fx' i' n' r' -> accounted h0 h2 (fx ++ fx') (i + i') (n + n') (fun p => r p + r' p).
Proof.
  intros [L1 I1 S1 F1 N1 R1] [L2 I2 S2 F2 N2 R2]. split; intros; rewrite ?total_app, ?lock_run_app, ?R1, ?R2, ?L1; first [done|lia].
Qed.
Lemma accounted_is h0 h1 fx i i' n n' r r' : accounted h0 h1 fx i n r -> i' = i -> n' = n -> (forall p, r' p = r p) -> accounted h0 h1 fx i' n' r'.
Proof. intros [] -> -> Hr. split; try done. intros. by rewrite Hr. Qed.

Section Handle.
Context {nls : Nls} {expressions : NameExpressions} (info : Z -> DIRECTORY_INFO).
Context (Hinfo : forall p, listing_ok (info p)).

(** What is raised is an error, and the scratch block has its size. *)
Record dir_answers_ok (a : DIR_ANSWERS) : Prop := {
  dk_compare i st : da_CompareFaults a i = Some st -> NT_SUCCESS st = false;
  dk_faults off st n : da_Faults a off = Some (st, n) -> NT_SUCCESS st = false;
  dk_last st : da_FaultLast a = Some st -> NT_SUCCESS st = false;
  dk_scratch : DIRCTRL_ENTRY_MAX_BYTES <= Z.of_nat (length (da_Junk a))
}.
Record dir_query_ok (q : DIR_QUERY) : Prop := { dq_buffer : Z.of_nat (length (q_Buffer q)) < 4294967296; dq_index : 0 <= q_FileIndex q < 4294967296 }.

Lemma class_layout c : match fill_class c with inl st => st <> STATUS_PENDING | inr fill => exists l, fill = fill_of l end.
Proof. destruct c; cbn; try done; [by exists LayoutIdBoth|by exists LayoutFull|by exists LayoutBoth]. Qed.

Lemma failed_not_pending st : NT_SUCCESS st = false -> st <> STATUS_PENDING.
Proof. by intros ? ->. Qed.

Lemma fill_done ccb p q a :
  dir_answers_ok a -> dir_query_ok q ->
  exists fx st ccb' n out, query_fill info ccb p q a = Some (fx, st, ccb', n, out) /\ (fx = [] \/ fx = [AllocScratch; FreeScratch]) /\ st <> STATUS_PENDING /\
    c_Entries ccb' = c_Entries ccb /\ c_SearchPattern ccb' = c_SearchPattern ccb /\ 0 <= n <= Z.of_nat (length (q_Buffer q)).
Proof.
  intros [A0 A1 A2 A3] [Q1 Q2]. unfold query_fill. pose proof (class_layout (q_Class q)) as Hc. destruct (fill_class (q_Class q)) as [st|fill].
  { eexists _, _, _, _, _. split_and!; [done|by left|done|done|done|lia|lia]. }
  destruct Hc as [l ->]. destruct (da_Scratch a); cbn [negb]; [|eexists _, _, _, _, _; split_and!; [done|by left|done|done|done|lia|lia]].
  destruct (da_Mapped a); cbn [negb]; [|eexists _, _, _, _, _; split_and!; [done|by right|done|done|done|lia|lia]].
  set (index := if q_IndexSpecified q then _ else _). assert (Hi : 0 <= index < 4294967296) by (unfold index; destruct (q_IndexSpecified q); [done|apply u32_range]).
  pose proof (lo_count _ (Hinfo p)) as Hn. assert (Et : u32 (Z.of_nat (length (Files (info p))) + Z.of_nat (length (SubDirs (info p)))) = Z.of_nat (length (entries (info p)))).
  { unfold entries in *. rewrite length_app, !length_fmap in *. rewrite u32_id; lia. }
  rewrite Et. fold (faulty l (info p) (c_SearchPattern ccb) (c_Flags ccb) (q_ReturnSingle q) (da_CompareFaults a) (da_Faults a) (da_FaultLast a)).
  destruct (enumerate_faulty l (info p) (c_SearchPattern ccb) (c_Flags ccb) (q_ReturnSingle q) (da_CompareFaults a) (da_Faults a) (da_FaultLast a) index (q_Buffer q) (da_Junk a)) as [->|(st & out & Hf & ->)].
  - destruct (query_shows l (info p) (c_SearchPattern ccb) (c_Flags ccb) (q_ReturnSingle q) (Hinfo p) index (q_Buffer q) (da_Junk a) Hi Q1 A3) as (st & used & final & out & chosen & -> & Hsh & _).
    cbn [mbind option_bind]. eexists _, _, _, _, _. split; [reflexivity|]. destruct (sh_used _ _ _ _ _ _ _ _ _ _ _ Hsh) as [Hu1 Hu2]. pose proof (size_of_nonneg l chosen).
    split_and!; [by right| |by destruct (q_IndexSpecified q)..|destruct (NT_SUCCESS st); lia|destruct (NT_SUCCESS st); lia].
    rewrite (sh_status _ _ _ _ _ _ _ _ _ _ _ Hsh). destruct chosen; [by destruct (matching _ _ _ _)|done].
  - cbn [mbind option_bind]. eexists _, _, _, _, _. split_and!; [done|by right| |done|done|lia|lia]. apply failed_not_pending. destruct Hf as [Hf|[[i Hf]|(off & n & Hf)]]; eauto.
Qed.

Definition irp_away (st : NTSTATUS) : Z := if st =? STATUS_PENDING then 1 else 0.

Lemma fetch_accounted a : accounted None None (DirCtrlFetch a).1 (irp_away (DirCtrlFetch a).2) 0 (fun _ => 0).
Proof. unfold DirCtrlFetch, irp_away. destruct (da_FetchMemory a); cbn [negb]; [|by split]. destruct (da_FetchIssue a =? STATUS_PENDING) eqn:E; cbn [fst snd]; [by split|]. rewrite E. by split. Qed.

Lemma refresh_accounted a : accounted None None (DirCtrlRefresh a) 0 0 (fun _ => 0).
Proof. unfold DirCtrlRefresh. destruct (da_RefreshMemory a), (da_RefreshPath a), (da_RefreshIssue a =? STATUS_PENDING); by split. Qed.

Lemma owed_accounted (owed : bool) a : accounted None None (if owed then DirCtrlRefresh a else []) 0 0 (fun _ => 0).
Proof. destruct owed; [apply refresh_accounted|by split]. Qed.

Lemma release_accounted h o : accounted h h (release_listing o) 0 0 (fun p => - held_at p o).
Proof. destruct o as [x|]; [|by split]. split; try done. intros p. cbn. destruct (x =? p); done. Qed.

Lemma scratch_accounted h fx : fx = [] \/ fx = [AllocScratch; FreeScratch] -> accounted h h fx 0 0 (fun _ => 0).
Proof. by intros [-> | ->]; split; destruct h. Qed.

Lemma unlock_accounted b : accounted (Some b) None [ReleaseResource] 0 0 (fun _ => 0).
Proof. by split. Qed.
Lemma post_accounted b st : accounted (Some b) None [ReleaseResource; PostRequest st] (irp_away st) 0 (fun _ => 0).
Proof. split; try done. cbn. unfold irp_away. lia. Qed.

(** From the snapshot on. *)
Lemma enumerate_accounted ccb exclusive fresh q a :
  dir_answers_ok a -> dir_query_ok q -> (fresh = true -> exclusive = true) ->
  exists fx r other, query_enumerate info ccb exclusive fresh q a = Some (fx, r) /\
    accounted (Some exclusive) None fx (irp_away (r_Status r)) 0 (fun p => held_at p (c_Entries (r_Ccb r)) - held_at p (c_Entries ccb) - held_at p other) /\
    (other = None \/ exclusive = false /\ other = da_Raced a) /\ c_SearchPattern (r_Ccb r) = c_SearchPattern ccb /\
    (fresh = false -> is_Some (c_Entries ccb) -> c_Entries (r_Ccb r) = c_Entries ccb) /\ 0 <= r_Information r <= Z.of_nat (length (q_Buffer q)).
Proof.
  intros Ha Hq Hfresh. unfold query_enumerate. replace (fresh && negb exclusive) with false by (destruct fresh, exclusive; try done; by discriminate Hfresh).
  set (c1 := if fresh then mkDirCcb _ _ _ _ else ccb). set (dropped := if fresh then release_listing _ else []).
  assert (Hdrop : accounted (Some exclusive) (Some exclusive) dropped 0 0 (fun p => held_at p (c_Entries c1) - held_at p (c_Entries ccb))).
  { unfold dropped, c1. destruct fresh; [|split; try done; intros; cbn; lia]. eapply accounted_is; [apply release_accounted|done..|]. intros p. cbn. lia. }
  assert (Hc1 : c_SearchPattern c1 = c_SearchPattern ccb /\ (fresh = false -> c1 = ccb)) by (unfold c1; by destruct fresh). destruct Hc1 as [Ep Ec].
  assert (Hlen : 0 <= 0 <= Z.of_nat (length (q_Buffer q))) by lia.
  destruct (c_Entries c1) as [p1|] eqn:E1.
  - destruct (fill_done c1 p1 q a Ha Hq) as (fx & st & c2 & n & out & -> & Hfx & Hst & F1 & F2 & F3). cbn [mbind option_bind]. eexists _, _, None. split; [reflexivity|]. cbn [r_Status r_Ccb r_Information].
    split_and!; try done; [|by left|congruence|intros Hf _; by rewrite F1, (Ec Hf)|lia..].
    eapply accounted_is; [eapply accounted_app; [exact Hdrop|eapply accounted_app; [by apply scratch_accounted|apply unlock_accounted]]|..].
    + unfold irp_away. by destruct (Z.eqb_spec st STATUS_PENDING).
    + done.
    + intros p. rewrite F1, E1. change (held_at p None) with 0. lia.
  - destruct (da_Lookup a) as [snapshot|].
    + set (race := if exclusive then None else da_Raced a).
      assert (Hinst : exists e fx, DirCtrlInstallSnapshot race snapshot = (Some e, fx) /\ accounted (Some exclusive) (Some exclusive) ([Reference snapshot] ++ fx) 0 0 (fun p => held_at p (Some e) - held_at p race)).
      { unfold DirCtrlInstallSnapshot. destruct race as [x|]; eexists _, _; (split; [reflexivity|]); split; try done; intros p; cbn; repeat (destruct (_ =? p)); lia. }
      destruct Hinst as (e & fx1 & -> & Hinst). cbn [mbind option_bind]. set (c2 := mkDirCcb _ _ _ _).
      destruct (fill_done c2 e q a Ha Hq) as (fx & st & c3 & n & out & -> & Hfx & Hst & F1 & F2 & F3). cbn [mbind option_bind]. eexists _, _, race. split; [reflexivity|]. cbn [r_Status r_Ccb r_Information].
      split_and!; try done; [|by unfold race; destruct exclusive; auto|rewrite F2; done|intros Hf [x Hx]; rewrite (Ec Hf) in E1; congruence|lia..].
      change (dropped ++ [Reference snapshot] ++ fx1 ++ fx ++ [ReleaseResource] ++ (if da_RefreshOwed a then DirCtrlRefresh a else []))
        with (dropped ++ ([Reference snapshot] ++ fx1) ++ fx ++ [ReleaseResource] ++ (if da_RefreshOwed a then DirCtrlRefresh a else [])).
      eapply accounted_is; [eapply accounted_app; [exact Hdrop|eapply accounted_app; [exact Hinst|eapply accounted_app; [by apply scratch_accounted|eapply accounted_app; [apply unlock_accounted|apply owed_accounted]]]]|..].
      * unfold irp_away. by destruct (Z.eqb_spec st STATUS_PENDING).
      * done.
      * intros p. rewrite F1. cbn [c_Entries c2]. change (held_at p None) with 0. lia.
    + destruct (q_InFsp q); cbn [negb].
      * pose proof (fetch_accounted a) as Hf. destruct (DirCtrlFetch a) as [fx st]. cbn [fst snd] in Hf. eexists _, _, None. split; [reflexivity|]. cbn [r_Status r_Ccb r_Information].
        split_and!; try done; [|by left|intros Hf' [x Hx]; rewrite (Ec Hf') in E1; congruence|lia].
        eapply accounted_is; [eapply accounted_app; [exact Hdrop|eapply accounted_app; [apply unlock_accounted|exact Hf]]|lia|lia|]. intros p. rewrite E1. change (held_at p None) with 0. lia.
      * eexists _, _, None. split; [reflexivity|]. cbn [r_Status r_Ccb r_Information].
        split_and!; try done; [|by left|intros Hf' [x Hx]; rewrite (Ec Hf') in E1; congruence|lia].
        eapply accounted_is; [eapply accounted_app; [exact Hdrop|apply post_accounted]|lia|lia|]. intros p. rewrite E1. change (held_at p None) with 0. lia.
Qed.

Lemma lock_accounted seen ccb q :
  let '(fx, (exclusive, initial, ccb')) := query_lock seen ccb q in
  accounted None (Some exclusive) fx 0 0 (fun _ => 0) /\ c_SearchPattern ccb' = c_SearchPattern ccb /\ c_Entries ccb' = c_Entries ccb /\
  (initial || q_RestartScan q = true -> exclusive = true) /\ (initial = true -> no_pattern ccb = true).
Proof. unfold query_lock. destruct (no_pattern seen), (no_pattern ccb), (q_RestartScan q); cbn; split_and!; done || by split. Qed.

Lemma pattern_accounted ccb q a h :
  let '(fx, st, ccb') := query_pattern ccb q a in
  accounted h h fx 0 (patterns (c_SearchPattern ccb') - patterns (c_SearchPattern ccb)) (fun _ => 0) /\ c_Entries ccb' = c_Entries ccb /\ st <> STATUS_PENDING.
Proof.
  unfold query_pattern. destruct (q_FileName q) as [[|c pattern]|].
  all: try (destruct (NT_SUCCESS (da_Upcase a)) eqn:E; cbn [negb]).
  all: split_and!; try done; try by apply failed_not_pending.
  all: destruct (c_SearchPattern ccb); destruct h; by split.
Qed.

(** What a query does to the handle: its references, but for the one another
    query gave it; its pattern; and its snapshot, which only a query that
    starts the enumeration over may replace. *)
Definition handle_settled (ccb : DIR_CCB) (q : DIR_QUERY) (a : DIR_ANSWERS) (fx : list DIR_EFFECT) (r : DIR_DONE) : Prop :=
  total pattern_of fx = patterns (c_SearchPattern (r_Ccb r)) - patterns (c_SearchPattern ccb) /\
  (exists other, (other = None \/ other = da_Raced a) /\ forall p, total (reference_of p) fx + held_at p (c_Entries ccb) + held_at p other = held_at p (c_Entries (r_Ccb r))) /\
  (q_NetDone q = true \/ (q_RestartScan q = false /\ no_pattern ccb = false) -> is_Some (c_Entries ccb) -> c_Entries (r_Ccb r) = c_Entries ccb) /\
  0 <= r_Information r <= Z.of_nat (length (q_Buffer q)).

Lemma query_accounted seen ccb q a :
  dir_answers_ok a -> dir_query_ok q ->
  exists fx r, query_directory info seen ccb q a = Some (fx, r) /\
    lock_run None fx = Some None /\ total irp_of fx = irp_away (r_Status r) /\ total scratch_of fx = 0 /\ total fetch_of fx = 0 /\ handle_settled ccb q a fx r.
Proof.
  intros Ha Hq. unfold query_directory.
  assert (Hidle : forall fx st, total pattern_of fx = 0 -> (forall p, total (reference_of p) fx = 0) -> handle_settled ccb q a fx (mkDirDone st ccb 0 (q_Buffer q))).
  { intros fx st Hp Hr. unfold handle_settled. cbn [r_Ccb r_Information]. split_and!; try done; [lia| |lia]. exists None. split; [by left|]. intros p. rewrite Hr. cbn. lia. }
  destruct (q_NodeIsDirectory q); cbn [negb]; [|eexists _, _; split; [reflexivity|]; split_and!; try done; by apply Hidle].
  destruct (da_Acquire a); cbn [negb]; [|eexists _, _; split; [reflexivity|]; split_and!; try done; [cbn; unfold irp_away; lia|by apply Hidle]]. unfold handle_settled.
  pose proof (lock_accounted seen ccb q) as Hlock. destruct (query_lock seen ccb q) as [locked [[exclusive initial] c1]]. destruct Hlock as (Hlock & P1 & E1 & Hex & Hinit).
  set (fresh := negb (q_NetDone q) && (initial || q_RestartScan q)).
  assert (Hfresh : fresh = true -> exclusive = true) by (unfold fresh; intros [_ ?]%andb_true_iff; auto).
  assert (Hpat : let '(fx, st, c2) := if fresh then query_pattern c1 q a else ([], STATUS_SUCCESS, c1) in
            accounted (Some exclusive) (Some exclusive) fx 0 (patterns (c_SearchPattern c2) - patterns (c_SearchPattern c1)) (fun _ => 0) /\ c_Entries c2 = c_Entries c1 /\ st <> STATUS_PENDING).
  { destruct fresh; [apply pattern_accounted|]. split_and!; try done. split; try done. cbn. lia. }
  destruct (if fresh then query_pattern c1 q a else _) as [[fx st] c2]. destruct Hpat as (Hpat & E2 & Hst).
  assert (Hstable : q_NetDone q = true \/ (q_RestartScan q = false /\ no_pattern ccb = false) -> fresh = false).
  { unfold fresh. intros [->|[-> Hp]]; [done|]. destruct initial; [by rewrite Hinit in Hp|]. by rewrite andb_false_r. }
  destruct (NT_SUCCESS st) eqn:Est; cbn [negb].
  - destruct (enumerate_accounted c2 exclusive fresh q a Ha Hq Hfresh) as (fx' & r & other & -> & Hen & Ho & Er & Ekeep & Hinf). cbn [mbind option_bind]. eexists _, _. split; [reflexivity|].
    destruct (accounted_app _ _ _ _ _ _ _ _ _ _ _ Hlock (accounted_app _ _ _ _ _ _ _ _ _ _ _ Hpat Hen)) as [L I S F N R].
    split_and!; try done; try lia; [rewrite N, Er, P1; lia|exists other; split; [by destruct Ho as [?|[_ ?]]; auto|]; intros p; rewrite R, E2, E1; lia|].
    intros Hk Hsome. rewrite Ekeep; [congruence|by apply Hstable|by rewrite E2, E1].
  - eexists _, _. split; [reflexivity|]. destruct (accounted_app _ _ _ _ _ _ _ _ _ _ _ Hlock (accounted_app _ _ _ _ _ _ _ _ _ _ _ Hpat (unlock_accounted exclusive))) as [L I S F N R].
    cbn [r_Status r_Ccb r_Information]. split_and!; try done; try lia; [unfold irp_away; by rewrite I; destruct (Z.eqb_spec st STATUS_PENDING)|rewrite N, P1; lia| |intros; congruence].
    exists None. split; [by left|]. intros p. rewrite R, E2, E1. cbn. lia.
Qed.

Lemma irp_settled fx st : total irp_of fx = irp_away st -> total irp_of (if st =? STATUS_PENDING then fx else fx ++ [CompleteIrp st]) = 1.
Proof. unfold irp_away. intros E. destruct (st =? STATUS_PENDING); [done|]. rewrite total_app, E. done. Qed.

(** Completing the IRP changes no other account. *)
Lemma completed_same fx st (f : DIR_EFFECT -> Z) : (forall s, f (CompleteIrp s) = 0) -> total f (if st =? STATUS_PENDING then fx else fx ++ [CompleteIrp st]) = total f fx.
Proof. intros Hf. destruct (_ =? _); [done|]. rewrite total_app, total_cons, Hf. cbn. lia. Qed.
Lemma completed_lock fx st : lock_run None fx = Some None -> lock_run None (if st =? STATUS_PENDING then fx else fx ++ [CompleteIrp st]) = Some None.
Proof. intros Hl. destruct (_ =? _); [done|]. by rewrite lock_run_app, Hl. Qed.

(** C37: a directory request on listings as the client decodes them, whatever
    it meets, is answered without undefined
    behaviour, and gives back what it took: the directory's resource is taken
    and released once, and never held while the IRP or a fetch is given away;
    the IRP ends in exactly one place; scratch blocks and fetch contexts are
    freed or owned by what was issued; the handle's pattern and its one
    reference on a snapshot are accounted for, also against a query that
    installed its snapshot first; and only a query that starts over replaces
    the snapshot a handle enumerates. *)
Theorem directory_request_settles volume minor seen ccb q a :
  dir_answers_ok a -> dir_query_ok q ->
  exists fx st r, BlorgDirectoryControl info volume minor seen ccb q a = Some (fx, st, r) /\
    lock_run None fx = Some None /\ total irp_of fx = 1 /\ total scratch_of fx = 0 /\ total fetch_of fx = 0 /\
    match r, ccb with
    | Some r, Some ccb => handle_settled ccb q a fx r
    | _, _ => total pattern_of fx = 0 /\ forall p, total (reference_of p) fx = 0
    end.
Proof.
  intros Ha Hq. unfold BlorgDirectoryControl. destruct volume; cbn [negb]; [|by eexists _, _, None].
  destruct minor, seen as [seen|], ccb as [ccb|]; cbn [BlorgVolumeDirectoryControl mbind option_bind]; try (by eexists _, _, None); try (by destruct (q_NodeIsDirectory q); eexists _, _, None).
  destruct (query_accounted seen ccb q a Ha Hq) as (fx & r & -> & L & I & S & F & Hh1 & (other & Ho & Hh2) & Hh3). cbn [mbind option_bind]. eexists _, _, (Some r). split; [reflexivity|].
  rewrite completed_lock by done. rewrite irp_settled, !completed_same by done. split_and!; try done. unfold handle_settled. rewrite !completed_same by done. split; [done|]. split; [|done].
  exists other. split; [done|]. intros p. rewrite completed_same by done. apply Hh2.
Qed.

(** The completion of a query's fetch: the listing's one reference becomes the
    handle's or is dropped, and the IRP goes to the queue or is completed. *)
Lemma completion_settles st listing ccb requeue fx ccb' :
  DirCtrlComplete st listing ccb requeue = (fx, ccb') ->
  lock_run None fx = Some None /\ total irp_of fx = 1 /\ total fetch_of fx = -1 /\
  (forall p, total (reference_of p) fx + held_at p (if NT_SUCCESS st then Some listing else None) + held_at p (c_Entries ccb) = held_at p (c_Entries ccb')) /\
  (is_Some (c_Entries ccb) -> c_Entries ccb' = c_Entries ccb).
Proof.
  unfold DirCtrlComplete. destruct (NT_SUCCESS st); cbn [negb]; [|intros [= <- <-]; split_and!; try done; intros; cbn; lia].
  destruct (c_Entries ccb) as [x|] eqn:E; destruct (requeue =? STATUS_PENDING) eqn:Er; intros [= <- <-]; cbn [c_Entries]; split_and!; try done; try (cbn; rewrite ?Er; lia).
  all: intros p; cbn; repeat (destruct (_ =? p)); lia.
Qed.
End Handle.

(** ** A query on a directory of three entries *)

Section Demo.
#[local] Instance handle_nls : Nls := {| upcase := fun c => c; rtl_hash := fun _ => None; upcase_sep := fun c => iff_refl _; rtl_hash_upcase := fun _ _ _ => eq_refl |}.
#[local] Instance handle_expressions : NameExpressions := fun _ _ => None.
Definition handle_answers : DIR_ANSWERS := mkDirAnswers true STATUS_PENDING STATUS_SUCCESS (Some 5) false None true STATUS_PENDING true true (fun _ => None) (fun _ => None) None true true STATUS_PENDING demo_block.
Definition handle_query : DIR_QUERY := mkDirQuery true false false false None FileBothDirectoryInformation 0 demo_block false false.
Definition handle_ccb : DIR_CCB := mkDirCcb 0 0 None None.

Lemma directory_request_settles_witness :
  exists fx st r, BlorgDirectoryControl (fun _ => dc_Info demo_decoded) true IRP_MN_QUERY_DIRECTORY (Some handle_ccb) (Some handle_ccb) handle_query handle_answers = Some (fx, st, r) /\
    lock_run None fx = Some None /\ total irp_of fx = 1 /\ total scratch_of fx = 0 /\ total fetch_of fx = 0 /\
    match r, Some handle_ccb with
    | Some r, Some ccb => handle_settled ccb handle_query handle_answers fx r
    | _, _ => total pattern_of fx = 0 /\ forall p, total (reference_of p) fx = 0
    end.
Proof.
  apply (directory_request_settles (fun _ => dc_Info demo_decoded) (fun _ => demo_listing_ok) true IRP_MN_QUERY_DIRECTORY (Some handle_ccb) (Some handle_ccb) handle_query handle_answers).
  - by split.
  - by split.
Defined.
End Demo.
