(* ===== verification/Sockets.v ===== *)
(** * Sockets: the pool, the watchdogs and the pre-warm (src/Socket.c)

    Every handler as a program over the calls it makes on what the handlers
    share.  A call is what is done under one hold of the pool's spin lock, one
    interlocked operation, one allocation or one call of the kernel; handlers
    are interleaved call by call.  A loop that is not bounded by its data is a
    label, to which a program jumps.  What rides on a socket for TLS is part of
    the requests' model; it is freed with the socket.  Null pointers are not
    passed. *)

From S2P Require Import Prelude.

Definition STATUS_IO_TIMEOUT : NTSTATUS := nt 0xC00000B5.
Definition STATUS_CANCELLED : NTSTATUS := nt 0xC0000120.

Definition SocketMaxPoolSize : Z := 64.

(** ** Data *)

(** [sin_port] and [sin_addr]; the scope of an IPv6 address is not compared. *)
Inductive SOCKADDR := Inet (port addr : Z) | Inet6 (port : Z) (addr : list Z) (scope : Z) | OtherFamily (family : Z).

Definition SocketAddressEqual (a b : SOCKADDR) : bool :=
  match a, b with
  | Inet p x, Inet q y => (p =? q) && (x =? y)
  | Inet6 p x _, Inet6 q y _ => (p =? q) && bool_decide (x = y)
  | _, _ => false
  end.

(** A KSOCKET: where it is, and what it is connected to, which is set once. *)
Record CONNECTION := mkConnection { cn_Id : Z; cn_Address : SOCKADDR }.

(** Who is told: a request, or the pre-warm. *)
Inductive TARGET := ForClient (r : Z) | ForPrewarm.

(** A connect, with its new socket; or a send or receive on a socket. *)
Inductive OP_KIND := Connecting (s : Z) (a : SOCKADDR) (t : TARGET) | Transferring (c : CONNECTION) (r : Z).

(** What the work item is to run. *)
Inductive WORK := StepWorker | HandshakeWorker (c : CONNECTION).

Inductive SOCKET_CALL :=
  | AskAbovePassive | AskTls                      (* KeGetCurrentIrql, global.TlsEnabled *)
  | AllocateBlock | FreeBlock                     (* a context, an IRP or an MDL *)
  | AllocateSocket | FreeSocket (s : Z)           (* SocketFreeKSocket *)
  (* under the pool's lock *)
  | PopSocket | PushSocket (c : CONNECTION)
  | AdmitFill (count : Z) (a : SOCKADDR) | PublishPending | ClaimRunning | ConsumePending | RaiseInFlight | DropInFlight | ReleaseRunning | AccountStep | LatchShutdown
  | ReadInFlight | ReadPrewarmAddress             (* without it *)
  (* closing *)
  | IssueClose (c : CONNECTION) | WaitClose (c : CONNECTION)
  | LeakSocket (c : CONNECTION)                   (* no code: the socket is given up *)
  (* operations *)
  | ProbeMdl                                      (* MmProbeAndLockPages *)
  | ArmTimeout (k : OP_KIND) (mdl : bool)
  | IssueOp (o : Z)
  | CancelTimer (o : Z) | ReadTimedOut (o : Z) | SetTimedOut (o : Z) | CancelIrp (o : Z)
  | DropOpRef (o : Z) | FreeMdl (o : Z) | FreeOp (o : Z)
  (* the caller's callback, and the status a function returns *)
  | CallBack (r : Z) (st : NTSTATUS) (c : option CONNECTION) (reused : bool) | CallBackIo (r : Z) (st : NTSTATUS) (c : CONNECTION)
  | ReturnStatus (r : Z) (st : NTSTATUS) (c : option CONNECTION)
  (* the work item *)
  | ReadWorkItem | AllocateWorkItem | FreeWorkItem | QueueWork (w : WORK)
  | StartHandshake (c : CONNECTION)               (* BlorgTlsStartHandshakeAsync *)
  | LeaveControl (unloaded : bool).               (* no code: the driver's entry or unload routine ends *)

Definition socket_answer (c : SOCKET_CALL) : Type :=
  match c with
  | AskAbovePassive | AskTls | AllocateBlock | PushSocket _ | AdmitFill _ _ | ClaimRunning | ConsumePending | RaiseInFlight | ReleaseRunning | AccountStep
  | CancelTimer _ | ReadTimedOut _ | ReadWorkItem | AllocateWorkItem => bool
  | AllocateSocket => option Z
  | PopSocket => option CONNECTION
  | ReadPrewarmAddress => SOCKADDR
  | WaitClose _ | ProbeMdl => NTSTATUS
  | ReadInFlight | ArmTimeout _ _ | DropOpRef _ => Z
  | _ => unit
  end.

Inductive LABEL := PumpOuter | PumpInner | DrainPoll | CleanupNext.

Inductive prog (R : Type) : Type :=
  | Give (r : R)
  | Do (c : SOCKET_CALL) (k : socket_answer c -> prog R)
  | Jump (l : LABEL) (k : prog R).
Arguments Give {R} r.
Arguments Do {R} c k.
Arguments Jump {R} l k.

Fixpoint prog_bind {A B} (f : A -> prog B) (p : prog A) : prog B :=
  match p with
  | Give a => f a
  | Do c k => Do c (fun x => prog_bind f (k x))
  | Jump l k => Jump l (prog_bind f k)
  end.
#[export] Instance prog_mbind : MBind prog := fun A B => @prog_bind A B.
Definition make (c : SOCKET_CALL) : prog (socket_answer c) := Do c Give.
Definition jump (l : LABEL) : prog () := Jump l (Give ()).

(** ** Closing *)

(** [STATUS_PENDING], or the socket is leaked. *)
Definition BlorgCloseWskSocketAsync (c : CONNECTION) : prog NTSTATUS :=
  closeCtx ← make AllocateBlock;
  if negb closeCtx then make (LeakSocket c);; Give STATUS_INSUFFICIENT_RESOURCES
  else
    irp ← make AllocateBlock;
    if negb irp then make FreeBlock;; make (LeakSocket c);; Give STATUS_INSUFFICIENT_RESOURCES
    else make (IssueClose c);; Give STATUS_PENDING.

Definition SocketCloseAsyncCompletionRoutine (c : CONNECTION) : prog () :=
  make FreeBlock;;
  make (FreeSocket (cn_Id c));;
  make FreeBlock.

Definition SocketCloseWskSocket (c : CONNECTION) : prog NTSTATUS :=
  irp ← make AllocateBlock;
  if negb irp then make (FreeSocket (cn_Id c));; Give STATUS_INSUFFICIENT_RESOURCES
  else
    result ← make (WaitClose c);
    make FreeBlock;;
    make (FreeSocket (cn_Id c));;
    Give result.

(** ** The pool *)

Definition BlorgReleaseReusableWskSocket (c : CONNECTION) : prog NTSTATUS :=
  pooled ← make (PushSocket c);
  if pooled : bool then Give STATUS_SUCCESS else BlorgCloseWskSocketAsync c.

(** ** The pre-warm *)

Definition SocketPrewarmPump : prog () :=
  make PublishPending;;
  jump PumpOuter.

Definition SocketPrewarmStepAccount : prog () :=
  chain ← make AccountStep;
  if chain : bool then SocketPrewarmPump else Give ().
Definition SocketPrewarmStepWorker : prog () := SocketPrewarmStepAccount.

Definition SocketPrewarmStepFinish : prog () :=
  above ← make AskAbovePassive;
  if above : bool then make (QueueWork StepWorker) else SocketPrewarmStepAccount.

Definition SocketPrewarmHandshakeComplete (st : NTSTATUS) (c : CONNECTION) : prog () :=
  _ ← (if NT_SUCCESS st then BlorgReleaseReusableWskSocket c else BlorgCloseWskSocketAsync c);
  SocketPrewarmStepFinish.

Definition SocketPrewarmHandshakeWorker (c : CONNECTION) : prog () := make (StartHandshake c).

Definition SocketPrewarmStepComplete (st : NTSTATUS) (socket : option CONNECTION) : prog () :=
  match socket with
  | Some c =>
      if NT_SUCCESS st then
        tls ← make AskTls;
        if tls : bool then
          above ← make AskAbovePassive;
          if above : bool then make (QueueWork (HandshakeWorker c)) else make (StartHandshake c)
        else
          _ ← BlorgReleaseReusableWskSocket c;
          SocketPrewarmStepFinish
      else SocketPrewarmStepFinish
  | None => SocketPrewarmStepFinish
  end.

(** ** Watchdogs *)

Definition SocketDisarmTimeout (o : Z) (st : NTSTATUS) : prog NTSTATUS :=
  cancelled ← make (CancelTimer o);
  (if cancelled : bool then _ ← make (DropOpRef o); Give () else Give ());;
  timedOut ← make (ReadTimedOut o);
  Give (if timedOut && (st =? STATUS_CANCELLED) then STATUS_IO_TIMEOUT else st).

Definition SocketReleaseTimeoutRef (o : Z) : prog bool :=
  refs ← make (DropOpRef o);
  Give (refs =? 0).

(** Of a send or receive, and of a connect: they differ in where the context
    was allocated. *)
Definition timeout_dpc (o : Z) : prog () :=
  make (SetTimedOut o);;
  make (CancelIrp o);;
  last ← SocketReleaseTimeoutRef o;
  if last : bool then make (FreeOp o) else Give ().
Definition SocketAsyncTimeoutDpc : Z -> prog () := timeout_dpc.
Definition SocketConnectTimeoutDpc : Z -> prog () := timeout_dpc.

(** ** Sends and receives *)

Definition SocketAllocateAsyncContext : prog bool :=
  ctx ← make AllocateBlock;
  if negb ctx then Give false
  else
    irp ← make AllocateBlock;
    if negb irp then make FreeBlock;; Give false else Give true.

Definition BlorgReceiveWskAsyncMdl (c : CONNECTION) (r : Z) : prog NTSTATUS :=
  ctx ← SocketAllocateAsyncContext;
  if negb ctx then Give STATUS_INSUFFICIENT_RESOURCES
  else
    o ← make (ArmTimeout (Transferring c r) false);
    make (IssueOp o);;
    Give STATUS_PENDING.

Definition BlorgSendRecvWskAsync (c : CONNECTION) (r : Z) : prog NTSTATUS :=
  ctx ← SocketAllocateAsyncContext;
  if negb ctx then Give STATUS_INSUFFICIENT_RESOURCES
  else
    mdl ← make AllocateBlock;
    if negb mdl then make FreeBlock;; make FreeBlock;; Give STATUS_INSUFFICIENT_RESOURCES
    else
      probed ← make ProbeMdl;
      if negb (NT_SUCCESS probed) then make FreeBlock;; make FreeBlock;; make FreeBlock;; Give probed
      else
        o ← make (ArmTimeout (Transferring c r) true);
        make (IssueOp o);;
        Give STATUS_PENDING.

(** [st] is the IRP's status. *)
Definition SocketAsyncCompletionRoutine (o : Z) (c : CONNECTION) (r : Z) (mdl : bool) (st : NTSTATUS) : prog () :=
  status ← SocketDisarmTimeout o st;
  (if mdl then make (FreeMdl o) else Give ());;
  make (CallBackIo r status c);;
  last ← SocketReleaseTimeoutRef o;
  if last : bool then make (FreeOp o) else Give ().

(** ** Connects *)

Definition complete_acquire (t : TARGET) (st : NTSTATUS) (socket : option CONNECTION) (reused : bool) : prog () :=
  match t with
  | ForClient r => make (CallBack r st socket reused)
  | ForPrewarm => SocketPrewarmStepComplete st socket
  end.

Definition SocketConnectAsyncCompletionRoutine (o s : Z) (a : SOCKADDR) (t : TARGET) (st : NTSTATUS) : prog () :=
  status ← SocketDisarmTimeout o st;
  (if NT_SUCCESS status then complete_acquire t STATUS_SUCCESS (Some (mkConnection s a)) false
   else make (FreeSocket s);; complete_acquire t status None false);;
  last ← SocketReleaseTimeoutRef o;
  if last : bool then make (FreeOp o) else Give ().

(** The slow path: a new connect. *)
Definition connect_fresh (a : SOCKADDR) (t : TARGET) : prog NTSTATUS :=
  newSocket ← make AllocateSocket;
  match newSocket with
  | None => Give STATUS_INSUFFICIENT_RESOURCES
  | Some s =>
      connectCtx ← make AllocateBlock;
      if negb connectCtx then make (FreeSocket s);; Give STATUS_INSUFFICIENT_RESOURCES
      else
        irp ← make AllocateBlock;
        if negb irp then make FreeBlock;; make (FreeSocket s);; Give STATUS_INSUFFICIENT_RESOURCES
        else
          o ← make (ArmTimeout (Connecting s a t) false);
          make (IssueOp o);;
          Give STATUS_PENDING
  end.

Definition BlorgAcquireReusableWskSocketAsync (a : SOCKADDR) (forceFresh : bool) (t : TARGET) : prog NTSTATUS :=
  if forceFresh then connect_fresh a t
  else
    pooled ← make PopSocket;
    match pooled with
    | Some c =>
        if SocketAddressEqual (cn_Address c) a then
          complete_acquire t STATUS_SUCCESS (Some c) true;;
          Give STATUS_PENDING
        else
          _ ← BlorgCloseWskSocketAsync c;
          connect_fresh a t
    | None => connect_fresh a t
    end.

(** ** Filling and draining *)

Definition BlorgPrewarmSocketPool (a : SOCKADDR) (count : Z) : prog () :=
  if count =? 0 then Give ()
  else
    item ← make ReadWorkItem;
    ready ← (if item : bool then Give true else make AllocateWorkItem);
    if negb ready then Give ()
    else
      admitted ← make (AdmitFill count a);
      if admitted : bool then SocketPrewarmPump else Give ().

Definition BlorgDrainWskSocketPrewarm : prog () :=
  make LatchShutdown;;
  jump DrainPoll;;
  item ← make ReadWorkItem;
  if item : bool then make FreeWorkItem else Give ().

Definition BlorgCleanupWskSocketPool : prog () :=
  BlorgDrainWskSocketPrewarm;;
  jump CleanupNext.

(** The parts of [DriverEntry] and [BlorgDriverUnload]: the pool is filled; the
    pre-warm is drained before the devices go, and the pool with the client. *)
Definition load (a : SOCKADDR) (count : Z) : prog () :=
  BlorgPrewarmSocketPool a count;;
  make (LeaveControl false).
Definition unload : prog () :=
  BlorgDrainWskSocketPrewarm;;
  BlorgCleanupWskSocketPool;;
  make (LeaveControl true).

(** What a request's calls come to: the function's status, when it is not to be
    called back. *)
Definition client_acquire (a : SOCKADDR) (forceFresh : bool) (r : Z) : prog () :=
  st ← BlorgAcquireReusableWskSocketAsync a forceFresh (ForClient r);
  if st =? STATUS_PENDING then Give () else make (ReturnStatus r st None).
Definition client_transfer (mdl : bool) (c : CONNECTION) (r : Z) : prog () :=
  st ← (if mdl then BlorgReceiveWskAsyncMdl c r else BlorgSendRecvWskAsync c r);
  if st =? STATUS_PENDING then Give () else make (ReturnStatus r st (Some c)).
Definition client_release (c : CONNECTION) : prog () := _ ← BlorgReleaseReusableWskSocket c; Give ().
Definition client_close (c : CONNECTION) : prog () := _ ← BlorgCloseWskSocketAsync c; Give ().

(** What a jump runs. *)
Definition code (l : LABEL) : prog () :=
  match l with
  | PumpOuter =>
      run ← make ClaimRunning;
      if negb run then Give ()
      else
        jump PumpInner;;
        pending ← make ReleaseRunning;
        if negb pending then Give () else jump PumpOuter
  | PumpInner =>
      more ← make ConsumePending;
      if negb more then Give ()
      else
        latched ← make RaiseInFlight;
        if latched : bool then Give ()
        else
          a ← make ReadPrewarmAddress;
          status ← BlorgAcquireReusableWskSocketAsync a true ForPrewarm;
          if negb (status =? STATUS_PENDING) then make DropInFlight else jump PumpInner
  | DrainPoll =>
      n ← make ReadInFlight;
      if negb (n =? 0) then jump DrainPoll else Give ()
  | CleanupNext =>
      pooled ← make PopSocket;
      match pooled with
      | Some c => _ ← SocketCloseWskSocket c; jump CleanupNext
      | None => Give ()
      end
  end.

(** ** What the handlers share *)

(** Where the IRP of an operation is: not yet with the provider, with it, or
    given back. *)
Inductive IRP_STATE := Held | Issued | Completed.

(** An operation under way: its context.  [op_Armed] is whether the timer is
    set. *)
Record OP := mkOp { op_Kind : OP_KIND; op_Mdl : bool; op_RefCount : Z; op_TimedOut : bool; op_Armed : bool; op_Irp : IRP_STATE }.

(** Armed before the operation is issued; a reference each for the watchdog and
    the completion. *)
Definition SocketArmTimeout (k : OP_KIND) (mdl : bool) : OP := mkOp k mdl 2 false true Held.

(** What a request was told, by its callback or by a status. *)
Inductive REPLY := Acquired (r : Z) (st : NTSTATUS) (c : option CONNECTION) | Transferred (r : Z) (st : NTSTATUS) (c : CONNECTION).
Definition reply_request (a : REPLY) : Z := match a with Acquired r _ _ | Transferred r _ _ => r end.

(** [x_Sockets] are the KSOCKETs allocated, [x_Blocks] the contexts, IRPs and
    MDLs; [x_Owned] the sockets requests have.  [x_Control] is whether neither
    the entry nor the unload routine runs. *)
Record SOCKETS := mkSockets {
  x_List : list CONNECTION;
  x_Count : Z;
  x_Remaining : Z;
  x_InFlight : Z;
  x_ShuttingDown : bool;
  x_Running : bool;
  x_Pending : bool;
  x_Prewarm : SOCKADDR;
  x_WorkItem : bool;
  x_Queue : list WORK;
  x_Ops : gmap Z OP;
  x_Sockets : list Z;
  x_Blocks : nat;
  x_Closing : list CONNECTION;
  x_Handshakes : list CONNECTION;
  x_Owned : list CONNECTION;
  x_Leaked : list CONNECTION;
  x_Replies : list REPLY;
  x_Arrived : list Z;
  x_Control : bool;
  x_Unloaded : bool
}.

Definition set_pool (x : SOCKETS) v0 v1 : SOCKETS :=
  mkSockets v0 v1 (x_Remaining x) (x_InFlight x) (x_ShuttingDown x) (x_Running x) (x_Pending x) (x_Prewarm x) (x_WorkItem x) (x_Queue x) (x_Ops x) (x_Sockets x) (x_Blocks x) (x_Closing x) (x_Handshakes x) (x_Owned x) (x_Leaked x) (x_Replies x) (x_Arrived x) (x_Control x) (x_Unloaded x).
Definition set_remaining (x : SOCKETS) v0 : SOCKETS :=
  mkSockets (x_List x) (x_Count x) v0 (x_InFlight x) (x_ShuttingDown x) (x_Running x) (x_Pending x) (x_Prewarm x) (x_WorkItem x) (x_Queue x) (x_Ops x) (x_Sockets x) (x_Blocks x) (x_Closing x) (x_Handshakes x) (x_Owned x) (x_Leaked x) (x_Replies x) (x_Arrived x) (x_Control x) (x_Unloaded x).
Definition set_inflight (x : SOCKETS) v0 : SOCKETS :=
  mkSockets (x_List x) (x_Count x) (x_Remaining x) v0 (x_ShuttingDown x) (x_Running x) (x_Pending x) (x_Prewarm x) (x_WorkItem x) (x_Queue x) (x_Ops x) (x_Sockets x) (x_Blocks x) (x_Closing x) (x_Handshakes x) (x_Owned x) (x_Leaked x) (x_Replies x) (x_Arrived x) (x_Control x) (x_Unloaded x).
Definition set_shutdown (x : SOCKETS) v0 : SOCKETS :=
  mkSockets (x_List x) (x_Count x) (x_Remaining x) (x_InFlight x) v0 (x_Running x) (x_Pending x) (x_Prewarm x) (x_WorkItem x) (x_Queue x) (x_Ops x) (x_Sockets x) (x_Blocks x) (x_Closing x) (x_Handshakes x) (x_Owned x) (x_Leaked x) (x_Replies x) (x_Arrived x) (x_Control x) (x_Unloaded x).
Definition set_running (x : SOCKETS) v0 : SOCKETS :=
  mkSockets (x_List x) (x_Count x) (x_Remaining x) (x_InFlight x) (x_ShuttingDown x) v0 (x_Pending x) (x_Prewarm x) (x_WorkItem x) (x_Queue x) (x_Ops x) (x_Sockets x) (x_Blocks x) (x_Closing x) (x_Handshakes x) (x_Owned x) (x_Leaked x) (x_Replies x) (x_Arrived x) (x_Control x) (x_Unloaded x).
Definition set_pending (x : SOCKETS) v0 : SOCKETS :=
  mkSockets (x_List x) (x_Count x) (x_Remaining x) (x_InFlight x) (x_ShuttingDown x) (x_Running x) v0 (x_Prewarm x) (x_WorkItem x) (x_Queue x) (x_Ops x) (x_Sockets x) (x_Blocks x) (x_Closing x) (x_Handshakes x) (x_Owned x) (x_Leaked x) (x_Replies x) (x_Arrived x) (x_Control x) (x_Unloaded x).
Definition set_prewarm (x : SOCKETS) v0 : SOCKETS :=
  mkSockets (x_List x) (x_Count x) (x_Remaining x) (x_InFlight x) (x_ShuttingDown x) (x_Running x) (x_Pending x) v0 (x_WorkItem x) (x_Queue x) (x_Ops x) (x_Sockets x) (x_Blocks x) (x_Closing x) (x_Handshakes x) (x_Owned x) (x_Leaked x) (x_Replies x) (x_Arrived x) (x_Control x) (x_Unloaded x).
Definition set_item (x : SOCKETS) v0 : SOCKETS :=
  mkSockets (x_List x) (x_Count x) (x_Remaining x) (x_InFlight x) (x_ShuttingDown x) (x_Running x) (x_Pending x) (x_Prewarm x) v0 (x_Queue x) (x_Ops x) (x_Sockets x) (x_Blocks x) (x_Closing x) (x_Handshakes x) (x_Owned x) (x_Leaked x) (x_Replies x) (x_Arrived x) (x_Control x) (x_Unloaded x).
Definition set_queue (x : SOCKETS) v0 : SOCKETS :=
  mkSockets (x_List x) (x_Count x) (x_Remaining x) (x_InFlight x) (x_ShuttingDown x) (x_Running x) (x_Pending x) (x_Prewarm x) (x_WorkItem x) v0 (x_Ops x) (x_Sockets x) (x_Blocks x) (x_Closing x) (x_Handshakes x) (x_Owned x) (x_Leaked x) (x_Replies x) (x_Arrived x) (x_Control x) (x_Unloaded x).
Definition set_ops (x : SOCKETS) v0 : SOCKETS :=
  mkSockets (x_List x) (x_Count x) (x_Remaining x) (x_InFlight x) (x_ShuttingDown x) (x_Running x) (x_Pending x) (x_Prewarm x) (x_WorkItem x) (x_Queue x) v0 (x_Sockets x) (x_Blocks x) (x_Closing x) (x_Handshakes x) (x_Owned x) (x_Leaked x) (x_Replies x) (x_Arrived x) (x_Control x) (x_Unloaded x).
Definition set_sockets (x : SOCKETS) v0 : SOCKETS :=
  mkSockets (x_List x) (x_Count x) (x_Remaining x) (x_InFlight x) (x_ShuttingDown x) (x_Running x) (x_Pending x) (x_Prewarm x) (x_WorkItem x) (x_Queue x) (x_Ops x) v0 (x_Blocks x) (x_Closing x) (x_Handshakes x) (x_Owned x) (x_Leaked x) (x_Replies x) (x_Arrived x) (x_Control x) (x_Unloaded x).
Definition set_blocks (x : SOCKETS) v0 : SOCKETS :=
  mkSockets (x_List x) (x_Count x) (x_Remaining x) (x_InFlight x) (x_ShuttingDown x) (x_Running x) (x_Pending x) (x_Prewarm x) (x_WorkItem x) (x_Queue x) (x_Ops x) (x_Sockets x) v0 (x_Closing x) (x_Handshakes x) (x_Owned x) (x_Leaked x) (x_Replies x) (x_Arrived x) (x_Control x) (x_Unloaded x).
Definition set_closing (x : SOCKETS) v0 : SOCKETS :=
  mkSockets (x_List x) (x_Count x) (x_Remaining x) (x_InFlight x) (x_ShuttingDown x) (x_Running x) (x_Pending x) (x_Prewarm x) (x_WorkItem x) (x_Queue x) (x_Ops x) (x_Sockets x) (x_Blocks x) v0 (x_Handshakes x) (x_Owned x) (x_Leaked x) (x_Replies x) (x_Arrived x) (x_Control x) (x_Unloaded x).
Definition set_handshakes (x : SOCKETS) v0 : SOCKETS :=
  mkSockets (x_List x) (x_Count x) (x_Remaining x) (x_InFlight x) (x_ShuttingDown x) (x_Running x) (x_Pending x) (x_Prewarm x) (x_WorkItem x) (x_Queue x) (x_Ops x) (x_Sockets x) (x_Blocks x) (x_Closing x) v0 (x_Owned x) (x_Leaked x) (x_Replies x) (x_Arrived x) (x_Control x) (x_Unloaded x).
Definition set_owned (x : SOCKETS) v0 : SOCKETS :=
  mkSockets (x_List x) (x_Count x) (x_Remaining x) (x_InFlight x) (x_ShuttingDown x) (x_Running x) (x_Pending x) (x_Prewarm x) (x_WorkItem x) (x_Queue x) (x_Ops x) (x_Sockets x) (x_Blocks x) (x_Closing x) (x_Handshakes x) v0 (x_Leaked x) (x_Replies x) (x_Arrived x) (x_Control x) (x_Unloaded x).
Definition set_leaked (x : SOCKETS) v0 : SOCKETS :=
  mkSockets (x_List x) (x_Count x) (x_Remaining x) (x_InFlight x) (x_ShuttingDown x) (x_Running x) (x_Pending x) (x_Prewarm x) (x_WorkItem x) (x_Queue x) (x_Ops x) (x_Sockets x) (x_Blocks x) (x_Closing x) (x_Handshakes x) (x_Owned x) v0 (x_Replies x) (x_Arrived x) (x_Control x) (x_Unloaded x).
Definition set_replies (x : SOCKETS) v0 : SOCKETS :=
  mkSockets (x_List x) (x_Count x) (x_Remaining x) (x_InFlight x) (x_ShuttingDown x) (x_Running x) (x_Pending x) (x_Prewarm x) (x_WorkItem x) (x_Queue x) (x_Ops x) (x_Sockets x) (x_Blocks x) (x_Closing x) (x_Handshakes x) (x_Owned x) (x_Leaked x) v0 (x_Arrived x) (x_Control x) (x_Unloaded x).
Definition set_arrived (x : SOCKETS) v0 : SOCKETS :=
  mkSockets (x_List x) (x_Count x) (x_Remaining x) (x_InFlight x) (x_ShuttingDown x) (x_Running x) (x_Pending x) (x_Prewarm x) (x_WorkItem x) (x_Queue x) (x_Ops x) (x_Sockets x) (x_Blocks x) (x_Closing x) (x_Handshakes x) (x_Owned x) (x_Leaked x) (x_Replies x) v0 (x_Control x) (x_Unloaded x).
Definition set_control (x : SOCKETS) v0 v1 : SOCKETS :=
  mkSockets (x_List x) (x_Count x) (x_Remaining x) (x_InFlight x) (x_ShuttingDown x) (x_Running x) (x_Pending x) (x_Prewarm x) (x_WorkItem x) (x_Queue x) (x_Ops x) (x_Sockets x) (x_Blocks x) (x_Closing x) (x_Handshakes x) (x_Owned x) (x_Leaked x) (x_Replies x) (x_Arrived x) v0 v1.

(** What is not decided here: whether an allocation succeeds and where, the
    IRQL, the settings, the status of a close or of a probe. *)
Record CHOICE := mkChoice { ch_Yes : bool; ch_Id : Z; ch_Status : NTSTATUS }.

Fixpoint take_out (s : Z) (l : list Z) : option (list Z) :=
  match l with
  | [] => None
  | x :: l => if x =? s then Some l else r ← take_out s l; Some (x :: r)
  end.
Definition free_block (x : SOCKETS) : option SOCKETS := match x_Blocks x with O => None | S n => Some (set_blocks x n) end.
Definition on_op {A} (x : SOCKETS) (o : Z) (f : OP -> A * OP) : option (A * SOCKETS) :=
  op ← x_Ops x !! o;
  let '(a, op) := f op in Some (a, set_ops x (<[o := op]> (x_Ops x))).
Definition op_blocks (op : OP) : nat := 2 + if op_Mdl op then 1 else 0.
Definition back (c : option CONNECTION) (l : list CONNECTION) : list CONNECTION := match c with Some c => c :: l | None => l end.

Definition present (x : SOCKETS) (s : Z) : bool := bool_decide (s ∈ x_Sockets x).
Definition kind_socket (k : OP_KIND) : Z := match k with Connecting s _ _ => s | Transferring c _ => cn_Id c end.

(** One call: its answer and what it leaves.  [None] is a call on what was
    freed, a count below what is there, or a work item that is missing or
    already queued. *)
Definition socket_step (x : SOCKETS) (c : SOCKET_CALL) (ch : CHOICE) : option (socket_answer c * SOCKETS) :=
  match c return option (socket_answer c * SOCKETS) with
  | AskAbovePassive | AskTls => Some (ch_Yes ch, x)
  | AllocateBlock => Some (ch_Yes ch, if ch_Yes ch then set_blocks x (S (x_Blocks x)) else x)
  | FreeBlock => x ← free_block x; Some ((), x)
  | AllocateSocket =>
      if ch_Yes ch then if present x (ch_Id ch) then None else Some (Some (ch_Id ch), set_sockets x (ch_Id ch :: x_Sockets x)) else Some (None, x)
  | FreeSocket s => l ← take_out s (x_Sockets x); Some ((), set_sockets x l)
  | PopSocket =>
      match x_List x with
      | [] => Some (None, x)
      | c :: l => Some (Some c, set_pool x l (u32 (x_Count x - 1)))
      end
  | PushSocket c => if negb (present x (cn_Id c)) then None else if SocketMaxPoolSize <=? x_Count x then Some (false, x) else Some (true, set_pool x (c :: x_List x) (u32 (x_Count x + 1)))
  | AdmitFill count a =>
      if x_ShuttingDown x || negb (x_Remaining x =? 0) || negb (x_InFlight x =? 0) then Some (false, x)
      else Some (true, set_prewarm (set_remaining x (s32 count)) a)
  | PublishPending => Some ((), set_pending x true)
  | ClaimRunning => if x_Running x then Some (false, x) else Some (true, set_running x true)
  | ConsumePending => Some (x_Pending x, set_pending x false)
  | RaiseInFlight => if x_ShuttingDown x then Some (true, x) else Some (false, set_inflight x (s32 (x_InFlight x + 1)))
  | DropInFlight => Some ((), set_remaining (set_inflight x (s32 (x_InFlight x - 1))) 0)
  | ReleaseRunning => Some (x_Pending x, set_running x false)
  | AccountStep =>
      let x := set_inflight x (s32 (x_InFlight x - 1)) in
      if negb (x_ShuttingDown x) && (0 <? x_Remaining x) then
        let x := set_remaining x (s32 (x_Remaining x - 1)) in Some (0 <? x_Remaining x, x)
      else Some (false, x)
  | LatchShutdown => Some ((), set_remaining (set_shutdown x true) 0)
  | ReadInFlight => Some (x_InFlight x, x)
  | ReadPrewarmAddress => Some (x_Prewarm x, x)
  | IssueClose c => if negb (present x (cn_Id c)) then None else Some ((), set_closing x (c :: x_Closing x))
  | WaitClose c => if negb (present x (cn_Id c)) then None else Some (ch_Status ch, x)
  | LeakSocket c => Some ((), set_leaked x (c :: x_Leaked x))
  | ProbeMdl => Some (ch_Status ch, x)
  | ArmTimeout k mdl =>
      match x_Ops x !! ch_Id ch with
      | Some _ => None
      | None => Some (ch_Id ch, set_ops x (<[ch_Id ch := SocketArmTimeout k mdl]> (x_Ops x)))
      end
  | IssueOp o =>
      op ← x_Ops x !! o;
      if negb (present x (kind_socket (op_Kind op))) then None
      else on_op x o (fun op => ((), mkOp (op_Kind op) (op_Mdl op) (op_RefCount op) (op_TimedOut op) (op_Armed op) Issued))
  | CancelTimer o => on_op x o (fun op => (op_Armed op, mkOp (op_Kind op) (op_Mdl op) (op_RefCount op) (op_TimedOut op) false (op_Irp op)))
  | ReadTimedOut o => op ← x_Ops x !! o; Some (op_TimedOut op, x)
  | SetTimedOut o => on_op x o (fun op => ((), mkOp (op_Kind op) (op_Mdl op) (op_RefCount op) true (op_Armed op) (op_Irp op)))
  | CancelIrp o => op ← x_Ops x !! o; Some ((), x)
  | DropOpRef o => on_op x o (fun op => let n := s32 (op_RefCount op - 1) in (n, mkOp (op_Kind op) (op_Mdl op) n (op_TimedOut op) (op_Armed op) (op_Irp op)))
  | FreeMdl o =>
      op ← x_Ops x !! o;
      if op_Mdl op then x ← free_block x; Some ((), set_ops x (<[o := mkOp (op_Kind op) false (op_RefCount op) (op_TimedOut op) (op_Armed op) (op_Irp op)]> (x_Ops x)))
      else None
  | FreeOp o => op ← x_Ops x !! o; x ← free_block x; x ← free_block x; Some ((), set_ops x (delete o (x_Ops x)))
  | CallBack r st c reused => Some ((), set_replies (set_owned x (back c (x_Owned x))) (Acquired r st c :: x_Replies x))
  | CallBackIo r st c => Some ((), set_replies (set_owned x (c :: x_Owned x)) (Transferred r st c :: x_Replies x))
  | ReturnStatus r st c =>
      Some ((), set_replies (set_owned x (back c (x_Owned x))) (match c with Some c => Transferred r st c | None => Acquired r st None end :: x_Replies x))
  | ReadWorkItem => Some (x_WorkItem x, x)
  | AllocateWorkItem => Some (ch_Yes ch, if ch_Yes ch then set_item x true else x)
  | FreeWorkItem => if x_WorkItem x then Some ((), set_item x false) else None
  | QueueWork w => if x_WorkItem x && (length (x_Queue x) =? 0)%nat then Some ((), set_queue x [w]) else None
  | StartHandshake c => if negb (present x (cn_Id c)) then None else Some ((), set_handshakes x (c :: x_Handshakes x))
  | LeaveControl unloaded => Some ((), set_control x (negb unloaded) unloaded)
  end.

(** ** Handlers interleaved *)

Record POOLS := mkPools { ps_State : SOCKETS; ps_Threads : list (prog ()) }.

Definition work_program (w : WORK) : prog () := match w with StepWorker => SocketPrewarmStepWorker | HandshakeWorker c => SocketPrewarmHandshakeWorker c end.
Definition completion (o : Z) (op : OP) (st : NTSTATUS) : prog () :=
  match op_Kind op with
  | Connecting s a t => SocketConnectAsyncCompletionRoutine o s a t st
  | Transferring c r => SocketAsyncCompletionRoutine o c r (op_Mdl op) st
  end.

Section System.
Context (address : Z -> SOCKADDR).

(** A handler goes on; a timer expires; the provider completes an IRP; a close
    is done; the work item runs; a handshake is over. *)
Inductive pools_driver : POOLS -> POOLS -> Prop :=
  | pools_call x c k ch a x' l1 l2 : socket_step x c ch = Some (a, x') -> pools_driver (mkPools x (l1 ++ Do c k :: l2)) (mkPools x' (l1 ++ k a :: l2))
  | pools_jump x l k l1 l2 : pools_driver (mkPools x (l1 ++ Jump l k :: l2)) (mkPools x (l1 ++ (code l;; k) :: l2))
  | pools_exit x l1 l2 : pools_driver (mkPools x (l1 ++ Give () :: l2)) (mkPools x (l1 ++ l2))
  | pools_timeout x o op threads :
      x_Ops x !! o = Some op -> op_Armed op = true ->
      pools_driver (mkPools x threads) (mkPools (set_ops x (<[o := mkOp (op_Kind op) (op_Mdl op) (op_RefCount op) (op_TimedOut op) false (op_Irp op)]> (x_Ops x))) (timeout_dpc o :: threads))
  | pools_complete x o op st threads :
      x_Ops x !! o = Some op -> op_Irp op = Issued ->
      pools_driver (mkPools x threads) (mkPools (set_ops x (<[o := mkOp (op_Kind op) (op_Mdl op) (op_RefCount op) (op_TimedOut op) (op_Armed op) Completed]> (x_Ops x))) (completion o op st :: threads))
  | pools_closed x l1 c l2 threads : x_Closing x = l1 ++ c :: l2 -> pools_driver (mkPools x threads) (mkPools (set_closing x (l1 ++ l2)) (SocketCloseAsyncCompletionRoutine c :: threads))
  | pools_work x w threads : x_Queue x = [w] -> pools_driver (mkPools x threads) (mkPools (set_queue x []) (work_program w :: threads))
  | pools_handshake x l1 c l2 st threads :
      x_Handshakes x = l1 ++ c :: l2 -> pools_driver (mkPools x threads) (mkPools (set_handshakes x (l1 ++ l2)) (SocketPrewarmHandshakeComplete st c :: threads)).

(** The rest of the driver: a request asks for a socket, uses one it has, and
    gives it up; the driver is loaded and unloaded. *)
Inductive pools_outside : POOLS -> POOLS -> Prop :=
  | pools_acquire x r fresh threads :
      r ∉ x_Arrived x -> pools_outside (mkPools x threads) (mkPools (set_arrived x (r :: x_Arrived x)) (client_acquire (address r) fresh r :: threads))
  | pools_transfer x r mdl l1 c l2 threads :
      r ∉ x_Arrived x -> x_Owned x = l1 ++ c :: l2 ->
      pools_outside (mkPools x threads) (mkPools (set_arrived (set_owned x (l1 ++ l2)) (r :: x_Arrived x)) (client_transfer mdl c r :: threads))
  | pools_release x l1 c l2 threads : x_Owned x = l1 ++ c :: l2 -> pools_outside (mkPools x threads) (mkPools (set_owned x (l1 ++ l2)) (client_release c :: threads))
  | pools_close x l1 c l2 threads : x_Owned x = l1 ++ c :: l2 -> pools_outside (mkPools x threads) (mkPools (set_owned x (l1 ++ l2)) (client_close c :: threads))
  | pools_load x a count threads : x_Control x = true -> 0 <= count < 2147483648 -> pools_outside (mkPools x threads) (mkPools (set_control x false false) (load a count :: threads))
  | pools_unload x threads : x_Control x = true -> pools_outside (mkPools x threads) (mkPools (set_control x false false) (unload :: threads)).

Definition pools_step (p q : POOLS) : Prop := pools_driver p q \/ pools_outside p q.

(** After [BlorgInitialiseWskClient]. *)
Definition pools_initial : POOLS :=
  mkPools (mkSockets [] 0 0 0 false false false (OtherFamily 0) false [] ∅ [] 0 [] [] [] [] [] [] true false) [].
Definition pools_reachable (p : POOLS) : Prop := rtc pools_step pools_initial p.
End System.
