(* ===== verification/SocketsInvariant.v ===== *)
(** * Sockets: who holds what

    A handler holds resources ([RES]): a KSOCKET, a reference on an operation's
    context, a request to answer, the pre-warm step in flight, blocks of memory.
    The invariant [pools_inv] says that whatever exists is held exactly once, by
    a handler or by one of the lists; [call_pre] what a call takes and gives. *)

From S2P Require Import Prelude Sockets.

(** ** Resources *)

#[export] Instance sockaddr_eq : EqDecision SOCKADDR.
Proof. solve_decision. Defined.
#[export] Instance connection_eq : EqDecision CONNECTION.
Proof. solve_decision. Defined.
#[export] Instance target_eq : EqDecision TARGET.
Proof. solve_decision. Defined.
#[export] Instance op_kind_eq : EqDecision OP_KIND.
Proof. solve_decision. Defined.

(** [Ref o true] is the reference that has the operation's MDL to free, [Fresh]
    the one of an operation not yet issued; [Dead] stands for a context without
    references, [Control] for the entry and unload routines. *)
Inductive RES := Sock (s : Z) | Ref (o : Z) (mdl : bool) | Fresh (o : Z) (k : OP_KIND) (mdl : bool) | Dead (o : Z) | Req (r : Z) | Flight | Run | Block | Control.
#[export] Instance res_eq : EqDecision RES.
Proof. solve_decision. Defined.

Definition one (x r : RES) : nat := if decide (x = r) then 1 else 0.
Abbreviation total := sum_list_with.
Definition occ (r : RES) (l : list RES) : nat := total (fun x => one x r) l.

Definition socks (l : list CONNECTION) : list RES := (fun c => Sock (cn_Id c)) <$> l.
Definition target_res (t : TARGET) : list RES := match t with ForClient r => [Req r] | ForPrewarm => [Flight] end.
Definition kind_res (k : OP_KIND) : list RES := match k with Connecting s _ t => Sock s :: target_res t | Transferring c r => [Sock (cn_Id c); Req r] end.
Definition work_res (w : WORK) : list RES := match w with StepWorker => [Flight] | HandshakeWorker c => [Sock (cn_Id c); Flight] end.

Definition op_stock (o : Z) (op : OP) : list RES :=
  (match op_Irp op with Issued => Ref o (op_Mdl op) :: kind_res (op_Kind op) | _ => [] end) ++ (if op_Armed op then [Ref o false] else []) ++ replicate (op_blocks op) Block.
Definition main_ref (o : Z) (op : OP) : RES := match op_Irp op with Held => Fresh o (op_Kind op) (op_Mdl op) | _ => Ref o (op_Mdl op) end.
Definition op_minted (o : Z) (op : OP) : list RES :=
  match Z.to_nat (op_RefCount op) with O => [Dead o] | S n => main_ref o op :: replicate n (Ref o false) end.
Definition over (f : Z -> OP -> list RES) (m : gmap Z OP) : list RES := concat ((fun x => f x.1 x.2) <$> map_to_list m).

(** What the lists hold, and what there is. *)
Definition stock (x : SOCKETS) : list RES :=
  socks (x_List x) ++ over op_stock (x_Ops x) ++ concat (work_res <$> x_Queue x) ++ concat ((fun c => [Sock (cn_Id c); Block; Block]) <$> x_Closing x) ++
  concat ((fun c => [Sock (cn_Id c); Flight]) <$> x_Handshakes x) ++ socks (x_Owned x) ++ socks (x_Leaked x) ++ (Req ∘ reply_request <$> x_Replies x) ++
  (if x_Control x || x_Unloaded x then [Control] else []).
Definition minted (x : SOCKETS) : list RES :=
  (Sock <$> x_Sockets x) ++ over op_minted (x_Ops x) ++ replicate (x_Blocks x) Block ++ replicate (Z.to_nat (x_InFlight x)) Flight ++ (if x_Running x then [Run] else []) ++
  (Req <$> x_Arrived x) ++ [Control].

(** ** Handlers *)

(** What a handler holds; whether it owes the pump a step ([t_Step]) or a look
    at the flags ([t_Duty]); and what it knows: that the shutdown is latched,
    that then nothing was in flight, that the work item is there. *)
Record TOK := mkTok { t_Own : list RES; t_Step : bool; t_Duty : bool; t_Shut : bool; t_Quiet : bool; t_Item : bool }.
Definition put (T : TOK) l : TOK := mkTok l (t_Step T) (t_Duty T) (t_Shut T) (t_Quiet T) (t_Item T).
Definition set_step (T : TOK) b : TOK := mkTok (t_Own T) b (t_Duty T) (t_Shut T) (t_Quiet T) (t_Item T).
Definition set_duty (T : TOK) b : TOK := mkTok (t_Own T) (t_Step T) b (t_Shut T) (t_Quiet T) (t_Item T).
Definition set_shut (T : TOK) b : TOK := mkTok (t_Own T) (t_Step T) (t_Duty T) b (t_Quiet T) (t_Item T).
Definition set_quiet (T : TOK) b : TOK := mkTok (t_Own T) (t_Step T) (t_Duty T) (t_Shut T) b (t_Item T).
Definition set_known (T : TOK) b : TOK := mkTok (t_Own T) (t_Step T) (t_Duty T) (t_Shut T) (t_Quiet T) b.
Definition step_at (T : TOK) : nat := if t_Step T then 1 else 0.

Fixpoint all {A} (P : A -> Prop) (l : list A) : Prop := match l with [] => True | x :: l => P x /\ all P l end.
Fixpoint some {A} (P : A -> Prop) (l : list A) : Prop := match l with [] => False | x :: l => P x \/ some P l end.

Section Invariant.
Context (address : Z -> SOCKADDR).

(** The socket goes where the request asked. *)
Definition reaches (c : CONNECTION) (a : SOCKADDR) : Prop := cn_Address c = a \/ SocketAddressEqual (cn_Address c) a = true.
Definition kind_ok (k : OP_KIND) : Prop := match k with Connecting _ a (ForClient r) => a = address r | _ => True end.
Definition reply_ok (a : REPLY) : Prop :=
  match a with
  | Acquired r st (Some c) => st = STATUS_SUCCESS /\ reaches c (address r)
  | Acquired r st None => NT_SUCCESS st = false
  | Transferred _ _ _ => True
  end.
(** A connect has no MDL. *)
Definition mdl_ok (k : OP_KIND) (mdl : bool) : Prop := match k with Connecting _ _ _ => mdl = false | Transferring _ _ => True end.
Definition op_ok (op : OP) : Prop := 0 <= op_RefCount op <= 2 /\ kind_ok (op_Kind op) /\ mdl_ok (op_Kind op) (op_Mdl op) /\ (op_RefCount op = 0 -> op_Mdl op = false /\ op_Irp op = Completed).

Definition own_total (r : RES) (F : list TOK) : nat := total (fun T => occ r (t_Own T)) F.
Definition f_own (x : SOCKETS) (F : list TOK) : Prop := forall r, (occ r (stock x) + own_total r F)%nat = occ r (minted x).
Definition steps (x : SOCKETS) (F : list TOK) : Z := Z.of_nat (total step_at F + if x_Pending x then 1 else 0) + x_InFlight x.
Definition f_steps (x : SOCKETS) (F : list TOK) : Prop :=
  0 <= x_InFlight x /\ 0 <= x_Remaining x < 2147483648 /\ steps x F <= 1 /\
  (if x_ShuttingDown x then x_Remaining x = 0 else steps x F = if 0 <? x_Remaining x then 1 else 0).
Definition f_item (x : SOCKETS) : Prop := 0 < x_InFlight x \/ 0 < x_Remaining x -> x_WorkItem x = true.
Definition knows (x : SOCKETS) (T : TOK) : Prop :=
  (t_Shut T = true -> x_ShuttingDown x = true) /\ (t_Quiet T = true -> x_ShuttingDown x = true /\ x_InFlight x = 0) /\ (t_Item T = true -> x_WorkItem x = true /\ (1 <= occ Control (t_Own T))%nat).

Record pools_inv (x : SOCKETS) (F : list TOK) : Prop := {
  j_own : f_own x F;
  j_count : x_Count x = Z.of_nat (length (x_List x)) /\ x_Count x <= SocketMaxPoolSize;
  j_ops : forall o op, x_Ops x !! o = Some op -> op_ok op;
  j_steps : f_steps x F;
  j_duty : x_Pending x = true -> x_Running x = true \/ some (fun T => t_Duty T = true) F;
  j_item : f_item x;
  j_knows : all (knows x) F;
  j_distinct : NoDup (x_Sockets x) /\ NoDup (x_Arrived x);
  j_replies : Forall reply_ok (x_Replies x);
  j_unloaded : x_Unloaded x = true -> x_ShuttingDown x = true /\ x_InFlight x = 0
}.

(** ** Calls *)

Definition opt_sock (c : option CONNECTION) : list RES := match c with Some c => [Sock (cn_Id c)] | None => [] end.

Definition call_pre (c : SOCKET_CALL) (T : TOK) : (socket_answer c -> TOK -> Prop) -> Prop :=
  match c return (socket_answer c -> TOK -> Prop) -> Prop with
  | AskAbovePassive | AskTls => fun K => forall b, K b T
  | AllocateBlock => fun K => K true (put T (Block :: t_Own T)) /\ K false T
  | FreeBlock => fun K => exists l, t_Own T ≡ₚ Block :: l /\ K () (put T l)
  | AllocateSocket => fun K => (forall s, K (Some s) (put T (Sock s :: t_Own T))) /\ K None T
  | FreeSocket s => fun K => exists l, t_Own T ≡ₚ Sock s :: l /\ K () (put T l)
  | PopSocket => fun K => (forall c, K (Some c) (put T (Sock (cn_Id c) :: t_Own T))) /\ K None T
  | PushSocket c => fun K => exists l, t_Own T ≡ₚ Sock (cn_Id c) :: l /\ K true (put T l) /\ K false T
  | AdmitFill count _ => fun K => t_Item T = true /\ t_Step T = false /\ 0 < count < 2147483648 /\ K false T /\ K true (set_step T true)
  | PublishPending => fun K => t_Step T = true /\ K () (set_duty (set_step T false) true)
  | ClaimRunning => fun K => t_Duty T = true /\ K false (set_duty T false) /\ K true (put (set_duty T false) (Run :: t_Own T))
  | ConsumePending => fun K => t_Step T = false /\ K false T /\ K true (set_step T true)
  | RaiseInFlight => fun K => t_Step T = true /\ K true (set_step T false) /\ K false (put (set_step T false) (Flight :: t_Own T))
  | DropInFlight => fun K => exists l, t_Own T ≡ₚ Flight :: l /\ K () (put T l)
  | ReleaseRunning => fun K => exists l, t_Own T ≡ₚ Run :: l /\ t_Duty T = false /\ K false (put T l) /\ K true (set_duty (put T l) true)
  | AccountStep => fun K => exists l, t_Own T ≡ₚ Flight :: l /\ t_Step T = false /\ K false (put T l) /\ K true (set_step (put T l) true)
  | LatchShutdown => fun K => K () (set_shut T true)
  | ReadInFlight => fun K => t_Shut T = true /\ K 0 (set_quiet T true) /\ forall z, z <> 0 -> K z T
  | ReadPrewarmAddress => fun K => forall a, K a T
  | IssueClose c => fun K => exists l, t_Own T ≡ₚ Sock (cn_Id c) :: Block :: Block :: l /\ K () (put T l)
  | WaitClose c => fun K => (exists l, t_Own T ≡ₚ Sock (cn_Id c) :: l) /\ forall st, K st T
  | LeakSocket c => fun K => exists l, t_Own T ≡ₚ Sock (cn_Id c) :: l /\ K () (put T l)
  | ProbeMdl => fun K => forall st, K st T
  | ArmTimeout k mdl => fun K =>
      exists l, t_Own T ≡ₚ replicate (2 + if mdl then 1 else 0) Block ++ l /\ kind_ok k /\ mdl_ok k mdl /\ forall o, K o (put T (Fresh o k mdl :: l))
  | IssueOp o => fun K => exists k mdl l, t_Own T ≡ₚ Fresh o k mdl :: kind_res k ++ l /\ K () (put T l)
  | CancelTimer o => fun K => (exists m l, t_Own T ≡ₚ Ref o m :: l) /\ K false T /\ K true (put T (Ref o false :: t_Own T))
  | ReadTimedOut o => fun K => (exists m l, t_Own T ≡ₚ Ref o m :: l) /\ forall b, K b T
  | SetTimedOut o | CancelIrp o => fun K => (exists m l, t_Own T ≡ₚ Ref o m :: l) /\ K () T
  | DropOpRef o => fun K => exists l, t_Own T ≡ₚ Ref o false :: l /\ (forall z, z <> 0 -> K z (put T l)) /\ ((exists m l', l ≡ₚ Ref o m :: l') \/ K 0 (put T (Dead o :: l)))
  | FreeMdl o => fun K => exists l, t_Own T ≡ₚ Ref o true :: l /\ K () (put T (Ref o false :: l))
  | FreeOp o => fun K => exists l, t_Own T ≡ₚ Dead o :: l /\ K () (put T l)
  | CallBack r st c reused => fun K => exists l, t_Own T ≡ₚ opt_sock c ++ Req r :: l /\ reply_ok (Acquired r st c) /\ K () (put T l)
  | CallBackIo r st c => fun K => exists l, t_Own T ≡ₚ Sock (cn_Id c) :: Req r :: l /\ K () (put T l)
  | ReturnStatus r st c => fun K => exists l, t_Own T ≡ₚ opt_sock c ++ Req r :: l /\ NT_SUCCESS st = false /\ K () (put T l)
  | ReadWorkItem => fun K => (exists l, t_Own T ≡ₚ Control :: l) /\ K false T /\ K true (set_known T true)
  | AllocateWorkItem => fun K => (exists l, t_Own T ≡ₚ Control :: l) /\ K false T /\ K true (set_known T true)
  | FreeWorkItem => fun K => t_Item T = true /\ t_Quiet T = true /\ K () (set_known T false)
  | QueueWork w => fun K => exists l, t_Own T ≡ₚ work_res w ++ l /\ K () (put T l)
  | StartHandshake c => fun K => exists l, t_Own T ≡ₚ Sock (cn_Id c) :: Flight :: l /\ K () (put T l)
  | LeaveControl u => fun K => exists l, t_Own T ≡ₚ Control :: l /\ (u = true -> t_Quiet T = true) /\ K () (set_known (put T l) false)
  end.

(** What a jump needs, and what it leaves. *)
Definition label_pre (l : LABEL) (T : TOK) (K : TOK -> Prop) : Prop :=
  match l with
  | PumpOuter => t_Duty T = true /\ t_Step T = false /\ K (set_duty T false)
  | PumpInner => t_Duty T = false /\ t_Step T = false /\ K T
  | DrainPoll => t_Shut T = true /\ K (set_quiet T true)
  | CleanupNext => K T
  end.

Fixpoint wp {R} (p : prog R) (T : TOK) (Q : R -> TOK -> Prop) : Prop :=
  match p with
  | Give r => Q r T
  | Do c k => call_pre c T (fun a T => wp (k a) T Q)
  | Jump l k => label_pre l T (fun T => wp k T Q)
  end.

(** A handler that is done holds nothing and owes nothing. *)
Definition ends (_ : ()) (T : TOK) : Prop := t_Own T = [] /\ t_Step T = false /\ t_Duty T = false.
End Invariant.
