(* ===== verification/SocketsHandlers.v ===== *)
(** * Sockets: each call keeps the invariant, each handler makes its calls *)

From S2P Require Import Prelude Sockets SocketsInvariant.

(** ** Counting *)

Lemma occ_nil r : occ r [] = 0%nat.
Proof. done. Qed.
Lemma occ_cons r x l : occ r (x :: l) = (one x r + occ r l)%nat.
Proof. done. Qed.
Lemma occ_app r l l' : occ r (l ++ l') = (occ r l + occ r l')%nat.
Proof. apply sum_list_with_app. Qed.
Lemma occ_perm r l l' : l ≡ₚ l' -> occ r l = occ r l'.
Proof. intros H. unfold occ. by rewrite H. Qed.
Lemma occ_replicate r n x : occ r (replicate n x) = (n * one x r)%nat.
Proof. induction n as [|n IH]; [done|]. cbn [replicate]. rewrite occ_cons, IH. lia. Qed.
Lemma one_same x : one x x = 1%nat.
Proof. unfold one. by rewrite decide_True. Qed.
Lemma one_other x y : x <> y -> one x y = 0%nat.
Proof. intros H. unfold one. by rewrite decide_False. Qed.
Lemma one_le x y : (one x y <= 1)%nat.
Proof. unfold one. case_decide; lia. Qed.
Lemma occ_elem r l : (1 <= occ r l)%nat <-> r ∈ l.
Proof.
  induction l as [|x l IH]; [rewrite occ_nil; split; [lia|by intros ?%elem_of_nil]|]. rewrite occ_cons, elem_of_cons, <- IH. destruct (decide (x = r)) as [->|Hn]; [rewrite one_same; split; [by left|lia]|].
  rewrite one_other by done. split; [intros H; right; lia|intros [->|H]; [done|lia]].
Qed.

Lemma socks_cons c l : socks (c :: l) = Sock (cn_Id c) :: socks l.
Proof. done. Qed.
Lemma socks_app l l' : socks (l ++ l') = socks l ++ socks l'.
Proof. apply fmap_app. Qed.

Lemma over_perm f m o op : m !! o = Some op -> over f m ≡ₚ f o op ++ over f (delete o m).
Proof. intros H. unfold over. rewrite <- (insert_delete_id m o op H) at 1. rewrite map_to_list_insert by apply lookup_delete_eq. done. Qed.
Lemma occ_over r f m o op : m !! o = Some op -> occ r (over f m) = (occ r (f o op) + occ r (over f (delete o m)))%nat.
Proof. intros H. by rewrite (occ_perm _ _ _ (over_perm f m o op H)), occ_app. Qed.
Lemma occ_over_insert r f m o op : occ r (over f (<[o := op]> m)) = (occ r (f o op) + occ r (over f (delete o m)))%nat.
Proof. rewrite (occ_over r f _ o op) by apply lookup_insert_eq. by rewrite delete_insert_eq. Qed.
Lemma over_fresh r f m o : m !! o = None -> occ r (over f (delete o m)) = occ r (over f m).
Proof. intros H. by rewrite delete_id. Qed.

Lemma socket_all_mono {A} (P P' : A -> Prop) l : (forall x, P x -> P' x) -> all P l -> all P' l.
Proof. intros H. induction l as [|x l IH]; cbn; [done|]. intros [? ?]. auto. Qed.
Lemma own_total_cons r T F : own_total r (T :: F) = (occ r (t_Own T) + own_total r F)%nat.
Proof. done. Qed.

Lemma take_out_some s l : s ∈ l -> exists l', take_out s l = Some l'.
Proof. induction l as [|x l IH]; [by intros ?%elem_of_nil|]. intros H. cbn. destruct (Z.eqb_spec x s); [by eexists|]. apply elem_of_cons in H as [?|H]; [done|]. destruct (IH H) as (l' & ->). by eexists. Qed.
Lemma take_out_perm s l l' : take_out s l = Some l' -> l ≡ₚ s :: l'.
Proof.
  revert l'. induction l as [|x l IH]; intros l'; [done|]. cbn. destruct (Z.eqb_spec x s) as [->|]; [by intros [= <-]|]. destruct (take_out s l) as [r|] eqn:E; [|done]. intros [= <-]. rewrite (IH r eq_refl). constructor.
Qed.

Section Calls.
Context (address : Z -> SOCKADDR).
Abbreviation inv := (pools_inv address).
Abbreviation call_pre := (call_pre address).
Abbreviation wp := (wp address).

(** ** Programs *)

Ltac carry HK H :=
  lazymatch type of H with
  | ex _ => let x := fresh "x" in destruct H as [x H]; exists x; carry HK H
  | _ /\ _ => let H1 := fresh "H" in destruct H as [H1 H]; split; [carry HK H1|carry HK H]
  | _ \/ _ => destruct H as [H|H]; [left|right]; carry HK H
  | forall _, _ => first [exact H|let y := fresh "y" in intros y; specialize (H y); carry HK H]
  | _ => first [exact H|apply HK; exact H]
  end.
Lemma socket_pre_mono c T (K K' : socket_answer c -> TOK -> Prop) : (forall a T, K a T -> K' a T) -> call_pre c T K -> call_pre c T K'.
Proof. intros HK. destruct c; cbn [SocketsInvariant.call_pre]; cbv zeta; intros H; carry HK H. Qed.
Lemma label_mono l T (K K' : TOK -> Prop) : (forall T, K T -> K' T) -> label_pre l T K -> label_pre l T K'.
Proof. intros HK. destruct l; cbn; intros H; carry HK H. Qed.
Lemma socket_mono {R} (p : prog R) : forall T (Q Q' : R -> TOK -> Prop), (forall r T, Q r T -> Q' r T) -> wp p T Q -> wp p T Q'.
Proof. induction p as [r|c k IH|l k IH]; intros T Q Q' HQ; cbn [SocketsInvariant.wp]; [apply HQ| |]; [apply socket_pre_mono|apply label_mono]; intros; by eapply IH. Qed.
Lemma socket_bind {A B} (p : prog A) (f : A -> prog B) : forall T Q, wp p T (fun a T => wp (f a) T Q) -> wp (p ≫= f) T Q.
Proof. unfold mbind, prog_mbind. induction p as [r|c k IH|l k IH]; intros T Q; cbn [SocketsInvariant.wp prog_bind]; [done| |]; [apply socket_pre_mono|apply label_mono]; intros; by apply IH. Qed.

(** ** Soundness *)

Definition keeps_inv (c : SOCKET_CALL) : Prop :=
  forall x T F ch a x' K, inv x (T :: F) -> call_pre c T K -> socket_step x c ch = Some (a, x') -> exists T', K a T' /\ inv x' (T' :: F).

(** The counts, before and after. *)
Lemma occ_stock r x :
  occ r (stock x) =
  (occ r (socks (x_List x)) + occ r (over op_stock (x_Ops x)) + occ r (concat (work_res <$> x_Queue x)) + occ r (concat ((fun c => [Sock (cn_Id c); Block; Block]) <$> x_Closing x)) +
   occ r (concat ((fun c => [Sock (cn_Id c); Flight]) <$> x_Handshakes x)) + occ r (socks (x_Owned x)) + occ r (socks (x_Leaked x)) + occ r (Req ∘ reply_request <$> x_Replies x) +
   if x_Control x || x_Unloaded x then one Control r else 0)%nat.
Proof. unfold stock. rewrite !occ_app. destruct (_ || _); rewrite ?occ_cons, occ_nil; lia. Qed.
Lemma occ_minted r x :
  occ r (minted x) =
  (occ r (Sock <$> x_Sockets x) + occ r (over op_minted (x_Ops x)) + x_Blocks x * one Block r + Z.to_nat (x_InFlight x) * one Flight r + (if x_Running x then one Run r else 0) +
   occ r (Req <$> x_Arrived x) + one Control r)%nat.
Proof. unfold minted. rewrite !occ_app, !occ_replicate. destruct (x_Running x); rewrite ?occ_cons, ?occ_nil; lia. Qed.
Ltac parts :=
  cbn [set_pool set_remaining set_inflight set_shutdown set_running set_pending set_prewarm set_item set_queue set_ops set_sockets set_blocks set_closing set_handshakes set_owned set_leaked set_replies set_arrived set_control
       x_List x_Count x_Remaining x_InFlight x_ShuttingDown x_Running x_Pending x_Prewarm x_WorkItem x_Queue x_Ops x_Sockets x_Blocks x_Closing x_Handshakes x_Owned x_Leaked x_Replies x_Arrived x_Control x_Unloaded
       put set_step set_duty set_shut set_quiet set_known t_Own t_Step t_Duty t_Shut t_Quiet t_Item] in *.
Ltac counts := rewrite ?occ_stock, ?occ_minted, ?own_total_cons; parts; rewrite ?socks_cons, ?socks_app, ?fmap_app, ?fmap_cons, ?concat_cons, ?concat_app, ?occ_app, ?occ_cons, ?occ_replicate, ?occ_nil.

(** A call that moves resources and leaves the flags alone. *)
Definition same_flags (x x' : SOCKETS) : Prop :=
  x_Remaining x' = x_Remaining x /\ x_InFlight x' = x_InFlight x /\ x_ShuttingDown x' = x_ShuttingDown x /\ x_Running x' = x_Running x /\ x_Pending x' = x_Pending x /\ x_WorkItem x' = x_WorkItem x /\ x_Unloaded x' = x_Unloaded x.
Record same_rest (x x' : SOCKETS) : Prop := {
  sr_flags : same_flags x x';
  sr_count : x_Count x' = Z.of_nat (length (x_List x')) /\ x_Count x' <= SocketMaxPoolSize;
  sr_ops : forall o op, x_Ops x' !! o = Some op -> op_ok address op;
  sr_distinct : NoDup (x_Sockets x') /\ NoDup (x_Arrived x');
  sr_replies : Forall (reply_ok address) (x_Replies x')
}.
Lemma inv_own x x' T F l :
  inv x (T :: F) -> same_rest x x' -> occ Control l = occ Control (t_Own T) ->
  (forall r, occ r (stock x') + occ r l + occ r (minted x) = occ r (stock x) + occ r (t_Own T) + occ r (minted x'))%nat -> inv x' (put T l :: F).
Proof.
  intros Hi [(E1 & E2 & E3 & E4 & E5 & E6 & E7) Hc Ho Hd Hr] Hl Hdelta. destruct Hi. split; try done.
  - intros r. specialize (j_own r). specialize (Hdelta r). rewrite own_total_cons in *. cbn [put t_Own]. lia.
  - unfold f_steps, steps in *. rewrite E1, E2, E3, E5. exact j_steps.
  - rewrite E4, E5. exact j_duty.
  - unfold f_item in *. by rewrite E1, E2, E6.
  - destruct j_knows as [Hk HF]. split; [|eapply socket_all_mono, HF; intros U]; unfold knows; rewrite E2, E3, E6; [|done]. cbn [put t_Own t_Shut t_Quiet t_Item]. rewrite Hl. exact Hk.
  - by rewrite E2, E3, E7.
Qed.
Lemma same_rest_refl x F : inv x F -> same_rest x x.
Proof. intros []. by split. Qed.

(** [l] is what the handler holds afterwards; [Hl] what it held. *)
Ltac same_by Hi := destruct (same_rest_refl _ _ Hi) as [? ? ? ? ?]; split; parts; try done.
Ltac moved Hi T l := exists (put T l); split; [try done|]; eapply inv_own; [exact Hi|same_by Hi| |].
Ltac control := counts; rewrite ?one_other by done; try lia.
Ltac control_of Hl := rewrite (occ_perm Control _ _ Hl); control.
Ltac balance := intros r; counts; lia.
Ltac balance_of Hl := intros r; rewrite (occ_perm r _ _ Hl); counts; lia.
Ltac enter := intros x T F ch a x' K Hi; cbn [SocketsInvariant.call_pre socket_step socket_answer].

Lemma keeps_AllocateBlock : keeps_inv AllocateBlock.
Proof. enter. intros (Hy & Hn) [= <- <-]. destruct (ch_Yes ch); [|by exists T]. moved Hi T (Block :: t_Own T); [control|balance]. Qed.
Lemma keeps_FreeBlock : keeps_inv FreeBlock.
Proof.
  enter. unfold free_block. intros (l & Hl & HK) Hs. destruct (x_Blocks x) as [|n] eqn:En; [done|]. injection Hs as <- <-. moved Hi T l; [control_of Hl|].
  intros r. rewrite (occ_perm r _ _ Hl). counts. rewrite En. lia.
Qed.
Lemma keeps_AllocateSocket : keeps_inv AllocateSocket.
Proof.
  enter. intros (Hy & Hn) Hs. destruct (ch_Yes ch); [|injection Hs as <- <-; by exists T]. unfold present in Hs. case_bool_decide as Hf; [done|]. injection Hs as <- <-. moved Hi T (Sock (ch_Id ch) :: t_Own T); [|control|balance].
  destruct sr_distinct0. split; [by constructor|done].
Qed.
Lemma keeps_FreeSocket s : keeps_inv (FreeSocket s).
Proof.
  enter. intros (l & Hl & HK) Hs. destruct (take_out s (x_Sockets x)) as [l'|] eqn:Et; [|done]. injection Hs as <- <-. apply take_out_perm in Et. moved Hi T l; [|control_of Hl|].
  - destruct sr_distinct0 as [Hd ?]. split; [|done]. rewrite Et in Hd. by apply NoDup_cons in Hd as [_ ?].
  - intros r. rewrite (occ_perm r _ _ Hl). counts. rewrite (occ_perm r _ _ (fmap_Permutation Sock _ _ Et)), fmap_cons, occ_cons. lia.
Qed.
Lemma keeps_PopSocket : keeps_inv PopSocket.
Proof.
  enter. intros (Hs & Hn) H. destruct (x_List x) as [|c l] eqn:El; injection H as <- <-; [by exists T|]. moved Hi T (Sock (cn_Id c) :: t_Own T); [|control|].
  - destruct (j_count _ _ _ Hi) as [Hc Hm]. rewrite El in Hc. cbn [length] in Hc. unfold SocketMaxPoolSize in *. rewrite u32_id by lia. split; lia.
  - intros r. counts. rewrite El. counts. lia.
Qed.
Lemma keeps_PushSocket c : keeps_inv (PushSocket c).
Proof.
  enter. intros (l & Hl & Hy & Hn) H. destruct (present x (cn_Id c)); [|done]. destruct (Z.leb_spec SocketMaxPoolSize (x_Count x)); injection H as <- <-; [by exists T|]. moved Hi T l; [|control_of Hl|balance_of Hl].
  destruct (j_count _ _ _ Hi) as [Hc Hm]. cbn [length]. unfold SocketMaxPoolSize in *. rewrite u32_id by lia. split; lia.
Qed.
Lemma keeps_IssueClose c : keeps_inv (IssueClose c).
Proof. enter. intros (l & Hl & HK) H. destruct (present x (cn_Id c)); [|done]. injection H as <- <-. moved Hi T l; [control_of Hl|balance_of Hl]. Qed.
Lemma keeps_LeakSocket c : keeps_inv (LeakSocket c).
Proof. enter. intros (l & Hl & HK) [= <- <-]. moved Hi T l; [control_of Hl|balance_of Hl]. Qed.
Lemma keeps_CallBackIo r st c : keeps_inv (CallBackIo r st c).
Proof. enter. intros (l & Hl & HK) [= <- <-]. moved Hi T l; [by constructor|control_of Hl|]. intros r'. rewrite (occ_perm r' _ _ Hl). counts. cbn [reply_request compose]. lia. Qed.
Lemma keeps_CallBack r st c reused : keeps_inv (CallBack r st c reused).
Proof.
  enter. intros (l & Hl & Hr & HK) [= <- <-]. moved Hi T l; [by constructor|destruct c; cbn [opt_sock app] in Hl; control_of Hl|].
  intros r'. rewrite (occ_perm r' _ _ Hl). counts. destruct c; cbn [opt_sock app back compose reply_request]; counts; lia.
Qed.
Lemma keeps_ReturnStatus r st c : keeps_inv (ReturnStatus r st c).
Proof.
  enter. intros (l & Hl & Hr & HK) [= <- <-]. moved Hi T l; [constructor; [by destruct c|done]|destruct c; cbn [opt_sock app] in Hl; control_of Hl|].
  intros r'. rewrite (occ_perm r' _ _ Hl). counts. destruct c; cbn [opt_sock app back compose reply_request]; counts; lia.
Qed.
Lemma keeps_QueueWork w : keeps_inv (QueueWork w).
Proof.
  enter. intros (l & Hl & HK) H. destruct (x_WorkItem x); [|done]. destruct (x_Queue x) as [|] eqn:Eq; [|done]. injection H as <- <-. moved Hi T l; [destruct w; cbn [work_res app] in Hl; control_of Hl|].
  intros r. rewrite (occ_perm r _ _ Hl). counts. rewrite Eq. counts. lia.
Qed.
Lemma keeps_StartHandshake c : keeps_inv (StartHandshake c).
Proof. enter. intros (l & Hl & HK) H. destruct (present x (cn_Id c)); [|done]. injection H as <- <-. moved Hi T l; [control_of Hl|balance_of Hl]. Qed.
Lemma keeps_reads c : (exists b, c = AskAbovePassive \/ c = AskTls \/ c = ReadPrewarmAddress \/ c = ProbeMdl \/ c = WaitClose b) -> keeps_inv c.
Proof.
  intros (b & [->|[->|[->|[->| ->]]]]); enter; intros H Hs; [..|destruct (present x (cn_Id b)); [|done]]; injection Hs as <- <-; exists T; (split; [|done]); try apply H.
Qed.

(** ** Operations *)

(** A reference is minted by its own operation alone. *)
Lemma occ_over_none r f m : (forall o op, m !! o = Some op -> occ r (f o op) = 0%nat) -> occ r (over f m) = 0%nat.
Proof.
  induction m as [|o op m Ho IH] using map_ind; intros H; [done|]. rewrite occ_over_insert, (over_fresh _ _ _ _ Ho), IH, (H o op (lookup_insert_eq _ _ _)); [done|].
  intros o' op' H'. apply H. rewrite lookup_insert_ne; [done|]. by intros ->; rewrite Ho in H'.
Qed.
Definition key (r : RES) (o : Z) : Prop := match r with Ref o' _ | Fresh o' _ _ | Dead o' => o' = o | _ => False end.
Lemma occ_kind_key r o k : key r o -> occ r (kind_res k) = 0%nat.
Proof. destruct r; [done| | | |done..]; intros _; destruct k as [s a [q|]|c q]; cbn [kind_res target_res]; rewrite ?occ_cons, occ_nil, !one_other by done; done. Qed.
Lemma occ_minted_other r o o' op : key r o -> o <> o' -> occ r (op_minted o' op) = 0%nat.
Proof.
  intros Hk Hn. unfold op_minted, main_ref. destruct (Z.to_nat _); [|destruct (op_Irp op)]; rewrite ?occ_cons, ?occ_replicate, ?occ_nil, ?one_other by (destruct r; try done; cbn in Hk; congruence); lia.
Qed.
Lemma occ_stock_other r o o' op : key r o -> o <> o' -> occ r (op_stock o' op) = 0%nat.
Proof.
  intros Hk Hn. unfold op_stock. rewrite !occ_app, occ_replicate. rewrite (one_other Block r) by (by destruct r).
  destruct (op_Irp op), (op_Armed op); rewrite ?occ_cons, ?(occ_kind_key r o), ?occ_nil, ?one_other by first [done|destruct r; try done; cbn in Hk; congruence]; lia.
Qed.
Lemma occ_over_key r o f m : (forall o' op, o <> o' -> occ r (f o' op) = 0%nat) -> occ r (over f m) = match m !! o with Some op => occ r (f o op) | None => 0%nat end.
Proof.
  intros H. destruct (m !! o) as [op|] eqn:E.
  - rewrite (occ_over r f m o op E), (occ_over_none r f (delete o m)); [lia|]. intros o' op' [? ?]%lookup_delete_Some. by apply H.
  - apply occ_over_none. intros o' op' E'. apply H. congruence.
Qed.
Lemma occ_fmap_other {A} r (f : A -> RES) l : (forall x, f x <> r) -> occ r (f <$> l) = 0%nat.
Proof. intros H. induction l as [|x l IH]; [done|]. by rewrite fmap_cons, occ_cons, IH, one_other. Qed.
Lemma own_key x T F r o : inv x (T :: F) -> key r o -> (match x_Ops x !! o with Some op => occ r (op_stock o op) | None => 0 end + occ r (t_Own T) <= match x_Ops x !! o with Some op => occ r (op_minted o op) | None => 0 end)%nat.
Proof.
  intros Hi Hk. pose proof (j_own _ _ _ Hi r) as H. rewrite occ_stock, occ_minted, own_total_cons in H. rewrite !(occ_over_key r o) in H by (intros; first [by eapply occ_minted_other|by eapply occ_stock_other]).
  rewrite (occ_fmap_other r Sock), (occ_fmap_other r Req) in H by (by destruct r). rewrite !(one_other _ r) in H by (by destruct r). destruct (x_Running x); lia.
Qed.
Lemma own_op x T F r o : inv x (T :: F) -> key r o -> r ∈ t_Own T -> exists op, x_Ops x !! o = Some op /\ (occ r (op_stock o op) + occ r (t_Own T) <= occ r (op_minted o op))%nat.
Proof. intros Hi Hk Hr%occ_elem. pose proof (own_key _ _ _ _ _ Hi Hk) as H. destruct (x_Ops x !! o) as [op|]; [by exists op|lia]. Qed.
Lemma own_in x T F o op r : inv x (T :: F) -> x_Ops x !! o = Some op -> key r o -> (occ r (op_stock o op) + occ r (t_Own T) <= occ r (op_minted o op))%nat.
Proof. intros Hi Ho Hk. pose proof (own_key _ _ _ _ _ Hi Hk) as H. by rewrite Ho in H. Qed.

Lemma inv_op x T F o op op' l :
  inv x (T :: F) -> x_Ops x !! o = Some op -> op_ok address op' -> occ Control l = occ Control (t_Own T) ->
  (forall r, occ r (op_stock o op') + occ r l + occ r (op_minted o op) = occ r (op_stock o op) + occ r (t_Own T) + occ r (op_minted o op'))%nat -> inv (set_ops x (<[o := op']> (x_Ops x))) (put T l :: F).
Proof.
  intros Hi Ho Hok Hl Hb. eapply inv_own; [exact Hi| |exact Hl|].
  - same_by Hi. intros o' op''. destruct (decide (o = o')) as [->|]; [rewrite lookup_insert_eq; by intros [= <-]|]. rewrite lookup_insert_ne by done. apply sr_ops0.
  - intros r. counts. rewrite !occ_over_insert, !(occ_over r _ _ o op Ho). specialize (Hb r). lia.
Qed.

Lemma fresh_minted o k mdl op : (1 <= occ (Fresh o k mdl) (op_minted o op))%nat -> op_Irp op = Held /\ op_Kind op = k /\ op_Mdl op = mdl /\ exists n, Z.to_nat (op_RefCount op) = S n.
Proof.
  intros H%occ_elem. unfold op_minted in H. destruct (Z.to_nat _) as [|n]; [by apply list_elem_of_singleton in H|]. apply elem_of_cons in H as [H|[? _]%elem_of_replicate]; [|done].
  unfold main_ref in H. destruct (op_Irp op); [|done..]. injection H as <- <-. by eauto.
Qed.
Lemma ref_minted o m op : (1 <= occ (Ref o m) (op_minted o op))%nat -> exists n, Z.to_nat (op_RefCount op) = S n.
Proof. intros H%occ_elem. unfold op_minted in H. destruct (Z.to_nat _) as [|n]; [by apply list_elem_of_singleton in H|]. by eexists. Qed.
Lemma dead_minted o op : op_ok address op -> (1 <= occ (Dead o) (op_minted o op))%nat -> op_RefCount op = 0.
Proof.
  intros Hok H%occ_elem. unfold op_minted in H. destruct Hok as (? & _). destruct (Z.to_nat _) as [|n] eqn:E; [lia|]. apply elem_of_cons in H as [H|[? _]%elem_of_replicate]; [|done].
  unfold main_ref in H. by destruct (op_Irp op).
Qed.
Ltac op_parts := unfold op_stock, op_minted, main_ref, op_blocks; cbn [op_Kind op_Mdl op_RefCount op_TimedOut op_Armed op_Irp].
Ltac op_counts := rewrite ?occ_app, ?occ_cons, ?occ_app, ?occ_cons, ?occ_replicate, ?occ_nil.

Lemma keeps_IssueOp o : keeps_inv (IssueOp o).
Proof.
  enter. unfold on_op. intros (k & mdl & l & Hl & HK) H. destruct (own_op _ _ _ (Fresh o k mdl) o Hi) as (op & Ho & Hc); [done|rewrite Hl; left|].
  rewrite Ho in H. cbn [mbind option_bind] in H. destruct (present _ _); [|done]. injection H as <- <-. destruct (j_ops _ _ _ Hi _ _ Ho) as (H0 & H1 & Hm & H2). rewrite (occ_perm _ _ _ Hl), occ_cons, one_same in Hc.
  destruct (fresh_minted o k mdl op) as (Ei & Ek & Em & n & En); [lia|]. exists (put T l). split; [done|]. eapply inv_op; [exact Hi|exact Ho| | |].
  - split_and!; cbn; [lia..|done|done|lia].
  - rewrite (occ_perm _ _ _ Hl). op_counts. rewrite one_other by done. destruct k as [s' a' [q|]|c' q]; cbn [kind_res target_res]; op_counts; rewrite !one_other by done; lia.
  - intros r. rewrite (occ_perm _ _ _ Hl). op_parts. rewrite Ei, En, Em, Ek. op_counts. lia.
Qed.
Lemma keeps_CancelTimer o : keeps_inv (CancelTimer o).
Proof.
  enter. unfold on_op. intros ((m & l & Hl) & Hn & Hy) H. destruct (own_op _ _ _ (Ref o m) o Hi) as (op & Ho & _); [done|rewrite Hl; left|]. rewrite Ho in H. injection H as <- <-.
  destruct (op_Armed op) eqn:Ea; [exists (put T (Ref o false :: t_Own T))|exists (put T (t_Own T))]; (split; [by destruct T|]); (eapply inv_op; [exact Hi|exact Ho|by destruct (j_ops _ _ _ Hi _ _ Ho) as (? & ? & ? & ?)|control|]).
  all: intros r; op_parts; rewrite Ea; op_counts; lia.
Qed.
Lemma keeps_ReadTimedOut o : keeps_inv (ReadTimedOut o).
Proof. enter. intros (_ & HK) H. destruct (x_Ops x !! o) as [op|]; [|done]. injection H as <- <-. exists T. by split. Qed.
Lemma keeps_CancelIrp o : keeps_inv (CancelIrp o).
Proof. enter. intros (_ & HK) H. destruct (x_Ops x !! o) as [op|]; [|done]. injection H as <- <-. exists T. by split. Qed.
Lemma keeps_SetTimedOut o : keeps_inv (SetTimedOut o).
Proof.
  enter. unfold on_op. intros (_ & HK) H. destruct (x_Ops x !! o) as [op|] eqn:Ho; [|done]. injection H as <- <-. exists (put T (t_Own T)). split; [by destruct T|].
  eapply inv_op; [exact Hi|exact Ho|by destruct (j_ops _ _ _ Hi _ _ Ho) as (? & ? & ? & ?)|done|]. intros r. by op_parts.
Qed.
Lemma last_ref x T F o op : inv x (T :: F) -> x_Ops x !! o = Some op -> op_RefCount op = 1 -> Ref o false ∈ t_Own T -> op_Mdl op = false /\ op_Irp op = Completed /\ op_Armed op = false /\ occ (Ref o false) (t_Own T) = 1%nat /\ occ (Ref o true) (t_Own T) = 0%nat.
Proof.
  intros Hi Ho E1 Hr%occ_elem. pose proof (own_in _ _ _ _ _ (Ref o false) Hi Ho eq_refl) as Hf. pose proof (own_in _ _ _ _ _ (Ref o true) Hi Ho eq_refl) as Ht. revert Hf Ht. op_parts. rewrite E1. change (Z.to_nat 1) with 1%nat. cbn [replicate].
  destruct (op_Irp op), (op_Mdl op), (op_Armed op); op_counts; rewrite ?one_same, ?one_other by done; intros; split_and!; first [done|lia].
Qed.
Lemma keeps_DropOpRef o : keeps_inv (DropOpRef o).
Proof.
  enter. unfold on_op. intros (l & Hl & Hz & H0) H. assert (Hin : Ref o false ∈ t_Own T) by (rewrite Hl; left). destruct (own_op _ _ _ (Ref o false) o Hi) as (op & Ho & Hc); [done|done|].
  rewrite Ho in H. cbn zeta in H. injection H as <- <-. pose proof (j_ops _ _ _ Hi _ _ Ho) as (Hn & Hk & Hm & _). apply occ_elem in Hin as Hin'. destruct (ref_minted o false op) as (n & En); [lia|]. rewrite s32_id by lia.
  assert (op_RefCount op = 1 \/ op_RefCount op = 2) as [E|E] by lia; rewrite E.
  - destruct (last_ref _ _ _ _ _ Hi Ho E Hin) as (Em & Ei & Ea & O1 & O2). destruct H0 as [(m & l' & Hl')|H0].
    + rewrite (occ_perm _ _ _ Hl), occ_cons, (occ_perm _ _ _ Hl'), occ_cons, one_same in O1. rewrite (occ_perm _ _ _ Hl), occ_cons, (occ_perm _ _ _ Hl'), occ_cons in O2. destruct m; [rewrite one_same in O2|rewrite one_same in O1]; lia.
    + exists (put T (Dead o :: l)). split; [done|]. eapply inv_op; [exact Hi|exact Ho|split_and!; cbn; try lia; done|control_of Hl|]. intros r. rewrite (occ_perm _ _ _ Hl). op_parts. rewrite E, Em, Ei, Ea. change (Z.to_nat 1) with 1%nat. change (Z.to_nat (1 - 1)) with 0%nat. cbn [replicate]. op_counts. lia.
  - exists (put T l). split; [by apply Hz|]. eapply inv_op; [exact Hi|exact Ho|split_and!; cbn; try lia; done|control_of Hl|]. intros r. rewrite (occ_perm _ _ _ Hl). op_parts. rewrite E. change (Z.to_nat (2 - 1)) with 1%nat. change (Z.to_nat 2) with 2%nat. cbn [replicate]. op_counts. lia.
Qed.
Lemma keeps_ArmTimeout k mdl : keeps_inv (ArmTimeout k mdl).
Proof.
  enter. intros (l & Hl & Hk & Hm & HK) H. destruct (x_Ops x !! ch_Id ch) eqn:Ho; [done|]. injection H as <- <-. moved Hi T (Fresh (ch_Id ch) k mdl :: l).
  - intros o' op. destruct (decide (ch_Id ch = o')) as [->|]; [rewrite lookup_insert_eq; by intros [= <-]|]. rewrite lookup_insert_ne by done. apply sr_ops0.
  - rewrite (occ_perm _ _ _ Hl). op_counts. rewrite !one_other by done. lia.
  - intros r. rewrite (occ_perm _ _ _ Hl). counts. rewrite !occ_over_insert, !(over_fresh _ _ _ _ Ho). unfold SocketArmTimeout. op_parts. change (Z.to_nat 2) with 2%nat. cbn [replicate]. op_counts. lia.
Qed.
Lemma keeps_FreeMdl o : keeps_inv (FreeMdl o).
Proof.
  enter. unfold free_block. intros (l & Hl & HK) H. destruct (own_op _ _ _ (Ref o true) o Hi) as (op & Ho & Hc); [done|rewrite Hl; left|]. rewrite Ho in H. cbn in H. destruct (op_Mdl op) eqn:Em; [|done].
  destruct (x_Blocks x) as [|n] eqn:En; [done|]. injection H as <- <-. rewrite (occ_perm _ _ _ Hl), occ_cons, one_same in Hc. destruct (ref_minted o true op) as (n' & En'); [lia|].
  assert (Ei : op_Irp op = Completed). { revert Hc. op_parts. rewrite En', Em. destruct (op_Irp op); op_counts; rewrite ?one_same, ?one_other by done; intros; first [done|lia]. }
  destruct (j_ops _ _ _ Hi _ _ Ho) as (H0 & Hk & Hm & _). moved Hi T (Ref o false :: l).
  - intros o' op'. destruct (decide (o = o')) as [->|]; [|rewrite lookup_insert_ne by done; apply sr_ops0]. rewrite lookup_insert_eq. intros [= <-]. split_and!; cbn; [lia..|done| |lia]. destruct (op_Kind op); [done|done].
  - rewrite (occ_perm _ _ _ Hl). op_counts. rewrite !one_other by done. lia.
  - intros r. rewrite (occ_perm _ _ _ Hl). counts. rewrite !occ_over_insert, !(occ_over r _ _ o op Ho), En. op_parts. rewrite Ei, Em, En'. op_counts. lia.
Qed.
Lemma keeps_FreeOp o : keeps_inv (FreeOp o).
Proof.
  enter. unfold free_block. intros (l & Hl & HK) H. destruct (own_op _ _ _ (Dead o) o Hi) as (op & Ho & Hc); [done|rewrite Hl; left|]. rewrite Ho in H. cbn in H.
  destruct (x_Blocks x) as [|[|n]] eqn:En; [done|done|]. cbn in H. injection H as <- <-. rewrite (occ_perm _ _ _ Hl), occ_cons, one_same in Hc. pose proof (j_ops _ _ _ Hi _ _ Ho) as Hok.
  pose proof (dead_minted o op Hok ltac:(lia)) as E0. destruct Hok as (_ & _ & _ & H2). destruct (H2 E0) as [Em Ei].
  assert (Ea : op_Armed op = false). { pose proof (own_in _ _ _ _ _ (Ref o false) Hi Ho eq_refl) as Hf. revert Hf. op_parts. rewrite E0, Ei. change (Z.to_nat 0) with 0%nat. destruct (op_Armed op); op_counts; rewrite ?one_same, ?one_other by done; intros; first [done|lia]. }
  moved Hi T l.
  - intros o' op' [? ?]%lookup_delete_Some. by eapply sr_ops0.
  - rewrite (occ_perm _ _ _ Hl). op_counts. rewrite !one_other by done. lia.
  - intros r. rewrite (occ_perm _ _ _ Hl). counts. rewrite !(occ_over r _ _ o op Ho), En. op_parts. rewrite E0, Em, Ei, Ea. change (Z.to_nat 0) with 0%nat. op_counts. lia.
Qed.
(** ** Flags *)

Lemma occ_minted_plain r m : (forall o, ~ key r o) -> occ r (over op_minted m) = 0%nat.
Proof.
  intros H. apply occ_over_none. intros o op _. specialize (H o). unfold op_minted, main_ref. destruct (Z.to_nat _); [|destruct (op_Irp op)]; op_counts; rewrite ?one_other by (intros <-; by apply H); lia.
Qed.
Lemma flights x F : inv x F -> (occ Flight (stock x) + own_total Flight F = Z.to_nat (x_InFlight x))%nat.
Proof.
  intros Hi. rewrite (j_own _ _ _ Hi), occ_minted, occ_minted_plain, !occ_fmap_other, one_same, !one_other by (first [done|by intros ? ?]). destruct (x_Running x); lia.
Qed.
Lemma running_count x F : inv x F -> (occ Run (stock x) + own_total Run F = if x_Running x then 1 else 0)%nat.
Proof. intros Hi. rewrite (j_own _ _ _ Hi), occ_minted, occ_minted_plain, !occ_fmap_other, one_same, !one_other by (first [done|by intros ? ?]). destruct (x_Running x); lia. Qed.
Lemma controls x F : inv x F -> (occ Control (stock x) + own_total Control F = 1)%nat.
Proof. intros Hi. rewrite (j_own _ _ _ Hi), occ_minted, occ_minted_plain, !occ_fmap_other, one_same, !one_other by (first [done|by intros ? ?]). destruct (x_Running x); lia. Qed.
Lemma own_flight x T F : inv x (T :: F) -> Flight ∈ t_Own T -> x_InFlight x = 1.
Proof.
  intros Hi H%occ_elem. pose proof (flights _ _ Hi) as Hf. rewrite own_total_cons in Hf. destruct (j_steps _ _ _ Hi) as (? & ? & ? & _). unfold steps in *. lia.
Qed.
Lemma own_run x T F : inv x (T :: F) -> Run ∈ t_Own T -> x_Running x = true.
Proof. intros Hi H%occ_elem. pose proof (running_count _ _ Hi) as Hf. rewrite own_total_cons in Hf. destruct (x_Running x); [done|lia]. Qed.
Lemma own_control x T F : inv x (T :: F) -> (1 <= occ Control (t_Own T))%nat -> own_total Control F = 0%nat /\ occ Control (stock x) = 0%nat.
Proof. intros Hi H. pose proof (controls _ _ Hi) as Hf. rewrite own_total_cons in Hf. lia. Qed.
Lemma knows_none x F : own_total Control F = 0%nat -> all (knows x) F -> all (fun T => knows x T /\ t_Item T = false) F.
Proof.
  induction F as [|T F IH]; [done|]. rewrite own_total_cons. intros H [Hk Ha]. split; [|apply IH; [lia|done]]. split; [done|]. destruct Hk as (_ & _ & Hk). destruct (t_Item T); [|done]. destruct Hk as [_ ?]; [done|]. lia.
Qed.
(** A call that changes the flags. *)
Record same_lists (x x' : SOCKETS) : Prop := {
  sl_pool : x_List x' = x_List x /\ x_Count x' = x_Count x;
  sl_ops : x_Ops x' = x_Ops x;
  sl_memory : x_Sockets x' = x_Sockets x /\ x_Arrived x' = x_Arrived x /\ x_Replies x' = x_Replies x
}.
Lemma inv_flags x x' T T' F :
  inv x (T :: F) -> same_lists x x' ->
  (forall r, occ r (stock x') + occ r (t_Own T') + occ r (minted x) = occ r (stock x) + occ r (t_Own T) + occ r (minted x'))%nat ->
  f_steps x' (T' :: F) -> (x_Pending x' = true -> x_Running x' = true \/ t_Duty T' = true \/ some (fun T => t_Duty T = true) F) -> f_item x' ->
  knows x' T' -> all (knows x') F -> (x_Unloaded x' = true -> x_ShuttingDown x' = true /\ x_InFlight x' = 0) -> inv x' (T' :: F).
Proof.
  intros Hi [(E1 & E2) E3 (E4 & E5 & E6)] Hb Hs Hd Hw Hk Ha Hu. destruct Hi. split; rewrite ?E1, ?E2, ?E3, ?E4, ?E5, ?E6; try done. intros r. specialize (Hb r). specialize (j_own r). rewrite own_total_cons in *. lia.
Qed.
Lemma socket_total_cons {A} (f : A -> nat) x l : total f (x :: l) = (f x + total f l)%nat.
Proof. done. Qed.
Ltac step_parts := unfold f_steps, steps, f_item, step_at, knows in *; rewrite ?socket_total_cons in *; cbn [some all] in *; parts.
Ltac flags Hi T T' := exists T'; split; [try done|]; pose proof (j_steps _ _ _ Hi) as Hst; pose proof (j_duty _ _ _ Hi) as Hdu; pose proof (j_item _ _ _ Hi) as Hit; destruct (j_knows _ _ _ Hi) as [Hkt Hkf]; pose proof (j_unloaded _ _ _ Hi) as Hun; eapply (inv_flags _ _ T); [exact Hi|by split|..].

Lemma keeps_PublishPending : keeps_inv PublishPending.
Proof.
  enter. intros (Ht & HK) [= <- <-]. flags Hi T (set_duty (set_step T false) true); [balance|step_parts..]; [|tauto|done..].
  rewrite Ht in *. destruct (x_Pending x), (x_ShuttingDown x), (Z.ltb_spec 0 (x_Remaining x)); lia.
Qed.
Lemma knows_weaken x x' F : (x_ShuttingDown x = true -> x_ShuttingDown x' = true) -> (x_ShuttingDown x = true -> x_InFlight x = 0 -> x_InFlight x' = 0) -> (x_WorkItem x = true -> x_WorkItem x' = true) -> all (knows x) F -> all (knows x') F.
Proof. intros H1 H2 H3. apply socket_all_mono. intros U (K1 & K2 & K3). split_and!; intros E; [auto| |]; [destruct (K2 E)|destruct (K3 E)]; auto. Qed.
Ltac steps_lia Hst :=
  revert Hst; repeat match goal with
  | E : x_Pending _ = _ |- _ => rewrite E; clear E
  | E : x_ShuttingDown _ = _ |- _ => rewrite E; clear E
  | E : t_Step _ = _ |- _ => rewrite E; clear E
  end;
  repeat match goal with
  | |- context [Z.ltb ?a ?b] => destruct (Z.ltb_spec a b)
  | |- context [if ?b then _ else _] => is_var b; destruct b
  | |- context [if x_Pending ?x then _ else _] => destruct (x_Pending x)
  | |- context [if x_ShuttingDown ?x then _ else _] => destruct (x_ShuttingDown x)
  | |- context [if t_Step ?x then _ else _] => destruct (t_Step x)
  end; lia.
Ltac settle Hst :=
  lazymatch goal with
  | |- all _ _ => first [done|eapply knows_weaken; [| | |eassumption]; parts; first [done|congruence]|idtac]
  | _ => step_parts; first [done|by balance|tauto|by steps_lia Hst|idtac]
  end.

Lemma keeps_ClaimRunning : keeps_inv ClaimRunning.
Proof.
  enter. intros (Ht & Hn & Hy) H. destruct (x_Running x) eqn:Er; injection H as <- <-; [flags Hi T (set_duty T false)|flags Hi T (put (set_duty T false) (Run :: t_Own T))]; settle Hst.
  intros r. counts. rewrite Er. lia.
Qed.
Lemma keeps_ConsumePending : keeps_inv ConsumePending.
Proof. enter. intros (Ht & Hn & Hy) H. injection H as <- <-. destruct (x_Pending x) eqn:Ep; [flags Hi T (set_step T true)|flags Hi T T]; settle Hst. Qed.
Lemma step_held x T F : inv x (T :: F) -> t_Step T = true -> x_InFlight x = 0 /\ (x_ShuttingDown x = false -> 0 < x_Remaining x).
Proof.
  intros Hi Ht. destruct (j_steps _ _ _ Hi) as (H1 & H2 & H3 & H4). unfold steps, step_at in *. rewrite socket_total_cons, Ht in H3, H4. split; [lia|]. intros Hs. rewrite Hs in H4. destruct (Z.ltb_spec 0 (x_Remaining x)); lia.
Qed.
Lemma keeps_RaiseInFlight : keeps_inv RaiseInFlight.
Proof.
  enter. intros (Ht & Hn & Hy) H. destruct (step_held _ _ _ Hi Ht) as [E0 Hr]. destruct (x_ShuttingDown x) eqn:Es; injection H as <- <-; [flags Hi T (set_step T false)|flags Hi T (put (set_step T false) (Flight :: t_Own T))]; [settle Hst..| | | | | | |]; rewrite E0 in *; change (s32 (0 + 1)) with 1.
  - intros r. counts. rewrite E0. lia.
  - specialize (Hr eq_refl). settle Hst.
  - settle Hst.
  - intros _. apply Hit. auto.
  - settle Hst. destruct Hkt as (? & Hq & ?). split_and!; try done. intros Hq'. destruct (Hq Hq'). congruence.
  - revert Hkf. apply knows_weaken; parts; congruence.
  - settle Hst. intros Hu. destruct (Hun Hu). congruence.
Qed.
Lemma keeps_DropInFlight : keeps_inv DropInFlight.
Proof.
  enter. intros (l & Hl & HK) H. assert (Hf : x_InFlight x = 1) by (eapply own_flight; [exact Hi|rewrite Hl; left]). rewrite Hf in H. change (s32 (1 - 1)) with 0 in H. injection H as <- <-. flags Hi T (put T l); rewrite Hf in *.
  - intros r. rewrite (occ_perm _ _ _ Hl). counts. rewrite Hf. lia.
  - settle Hst.
  - settle Hst.
  - settle Hst.
  - revert Hkt. unfold knows. parts. rewrite Hf, (occ_perm _ _ _ Hl), occ_cons, one_other by done. intros (? & Hq & ?). split_and!; try done. intros Hq'. by destruct (Hq Hq').
  - revert Hkf. by apply knows_weaken; parts.
  - settle Hst.
Qed.
Lemma keeps_AccountStep : keeps_inv AccountStep.
Proof.
  enter. intros (l & Hl & Ht & Hn & Hy) H. assert (Hf : x_InFlight x = 1) by (eapply own_flight; [exact Hi|rewrite Hl; left]). cbn zeta in H. rewrite Hf in H. change (s32 (1 - 1)) with 0 in H. parts.
  assert (Hkn : forall y b, x_ShuttingDown y = x_ShuttingDown x -> x_InFlight y = 0 -> x_WorkItem y = x_WorkItem x -> knows y (set_step (put T l) b) /\ all (knows y) F).
  { intros y b E1 E2 E3. destruct (j_knows _ _ _ Hi) as [Hkt Hkf]. split; [|revert Hkf; apply knows_weaken; congruence]. revert Hkt. unfold knows. parts. rewrite E1, E2, E3, (occ_perm _ _ _ Hl), occ_cons, one_other by done. intros (? & ? & ?). split_and!; try done. tauto. }
  assert (Hb : forall y, stock y = stock x -> minted y = minted (set_inflight x 0) -> forall r, (occ r (stock y) + occ r l + occ r (minted x) = occ r (stock x) + occ r (t_Own T) + occ r (minted y))%nat).
  { intros y -> -> r. rewrite (occ_perm _ _ _ Hl). counts. rewrite Hf. lia. }
  pose proof (j_steps _ _ _ Hi) as Hst0. destruct (x_ShuttingDown x) eqn:Es; cbn [negb andb] in H.
  - injection H as <- <-. flags Hi T (put T l); try apply (Hkn _ (t_Step T)); try done; [by apply Hb|settle Hst..].
  - assert (Hr : 0 < x_Remaining x) by (revert Hst0; step_parts; rewrite Es, Ht; destruct (Z.ltb_spec 0 (x_Remaining x)); lia). replace (0 <? x_Remaining x) with true in H by (symmetry; apply Z.ltb_lt; lia). cbn zeta in H. parts. rewrite s32_id in H by (unfold f_steps in Hst0; lia). injection H as <- <-.
    destruct (Z.ltb_spec 0 (x_Remaining x - 1)) as [Hc|Hc]; [flags Hi T (set_step (put T l) true)|flags Hi T (put T l)].
    all: try (by apply Hb); try (by apply (Hkn _ true)); try (by apply (Hkn _ (t_Step T))).
    all: rewrite Hf in *; settle Hst.
Qed.
Lemma keeps_AdmitFill count to : keeps_inv (AdmitFill count to).
Proof.
  enter. intros (Hw & Ht & Hc & Hn & Hy) H. destruct (x_ShuttingDown x) eqn:Es; [injection H as <- <-; by exists T|]. destruct (Z.eqb_spec (x_Remaining x) 0) as [Er|]; [|injection H as <- <-; by exists T].
  destruct (Z.eqb_spec (x_InFlight x) 0) as [Ef|]; [|injection H as <- <-; by exists T]. cbn in H. rewrite s32_id in H by lia. injection H as <- <-. flags Hi T (set_step T true); rewrite ?Er, ?Ef in *; settle Hst.
Qed.
Lemma keeps_ReleaseRunning : keeps_inv ReleaseRunning.
Proof.
  enter. intros (l & Hl & Ht & Hn & Hy) [= <- <-]. assert (Er : x_Running x = true) by (eapply own_run; [exact Hi|rewrite Hl; left]).
  destruct (x_Pending x) eqn:Ep; [flags Hi T (set_duty (put T l) true)|flags Hi T (put T l)]; try done.
  all: try (intros r; rewrite (occ_perm _ _ _ Hl); counts; rewrite Er; lia).
  all: try (revert Hkt; unfold knows; parts; by rewrite (occ_perm _ _ _ Hl), occ_cons, one_other by done).
  all: settle Hst.
Qed.
Lemma keeps_LatchShutdown : keeps_inv LatchShutdown.
Proof.
  enter. intros HK [= <- <-]. flags Hi T (set_shut T true); settle Hst. intros [?|?]; [auto|lia].
Qed.
Lemma keeps_ReadInFlight : keeps_inv ReadInFlight.
Proof.
  enter. intros (Ht & H0 & Hz) [= <- <-]. destruct (Z.eq_dec (x_InFlight x) 0) as [E|E]; [|exists T; by split; [apply Hz|]]. rewrite E. flags Hi T (set_quiet T true); try done; settle Hst.
Qed.
Lemma keeps_ReadWorkItem : keeps_inv ReadWorkItem.
Proof.
  enter. intros ((l & Hl) & Hn & Hy) [= <- <-]. destruct (x_WorkItem x) eqn:Ew; [|by exists T]. flags Hi T (set_known T true); try done; settle Hst. rewrite (occ_perm _ _ _ Hl), occ_cons, one_same. split_and!; try tauto. intros _. split; [done|lia].
Qed.
Lemma keeps_AllocateWorkItem : keeps_inv AllocateWorkItem.
Proof.
  enter. intros ((l & Hl) & Hn & Hy) [= <- <-]. destruct (ch_Yes ch); [|by exists T]. flags Hi T (set_known T true); settle Hst.
  rewrite (occ_perm _ _ _ Hl), occ_cons, one_same. split_and!; try tauto. intros _. split; [done|lia].
Qed.
Lemma keeps_FreeWorkItem : keeps_inv FreeWorkItem.
Proof.
  enter. intros (Ht & Hq & HK) H. destruct (x_WorkItem x) eqn:Ew; [|done]. injection H as <- <-. destruct (j_knows _ _ _ Hi) as [(_ & Hq0 & Hw0) Hka]. destruct (Hq0 Hq) as [Es Ef]. destruct (Hw0 Ht) as [_ Hc]. flags Hi T (set_known T false); settle Hst.
  apply (knows_none x F) in Hka; [|by apply (own_control _ _ _ Hi)]. eapply socket_all_mono, Hka. intros U ((K1 & K2 & _) & Hi'). split_and!; [done|done|]. by rewrite Hi'.
Qed.
Lemma keeps_LeaveControl u : keeps_inv (LeaveControl u).
Proof.
  enter. intros (l & Hl & Hu & HK) [= <- <-]. assert (Hc : x_Control x || x_Unloaded x = false). { assert (H1 : (1 <= occ Control (t_Own T))%nat) by (rewrite (occ_perm _ _ _ Hl), occ_cons, one_same; lia). destruct (own_control _ _ _ Hi H1) as [_ H0]. rewrite occ_stock, one_same in H0. destruct (_ || _); [lia|done]. }
  flags Hi T (set_known (put T l) false); try done; [|settle Hst..].
  - intros r. rewrite (occ_perm _ _ _ Hl). counts. rewrite Hc. destruct u; cbn; lia.
  - split_and!; [tauto..|done].
Qed.

(** Every call keeps the invariant. *)
Lemma keeps c : keeps_inv c.
Proof.
  destruct c; first [apply keeps_AllocateBlock|apply keeps_FreeBlock|apply keeps_AllocateSocket|apply keeps_FreeSocket|apply keeps_PopSocket|apply keeps_PushSocket|apply keeps_IssueClose|apply keeps_LeakSocket|apply keeps_CallBackIo|apply keeps_CallBack
    |apply keeps_ReturnStatus|apply keeps_QueueWork|apply keeps_StartHandshake|apply keeps_IssueOp|apply keeps_CancelTimer|apply keeps_ReadTimedOut|apply keeps_CancelIrp|apply keeps_SetTimedOut|apply keeps_DropOpRef|apply keeps_ArmTimeout|apply keeps_FreeMdl|apply keeps_FreeOp
    |apply keeps_PublishPending|apply keeps_ClaimRunning|apply keeps_ConsumePending|apply keeps_RaiseInFlight|apply keeps_DropInFlight|apply keeps_AccountStep|apply keeps_AdmitFill|apply keeps_ReleaseRunning|apply keeps_LatchShutdown|apply keeps_ReadInFlight
    |apply keeps_ReadWorkItem|apply keeps_AllocateWorkItem|apply keeps_FreeWorkItem|apply keeps_LeaveControl|idtac].
  all: apply keeps_reads; first [by exists (mkConnection 0 (OtherFamily 0)); auto 6|by eexists; auto 6].
Qed.
(** ** Every call is defined *)

Definition unused (x : SOCKETS) (ch : CHOICE) : Prop := (ch_Id ch ∉ x_Sockets x) /\ x_Ops x !! ch_Id ch = None.
Lemma occ_fmap_elem {A} r (f : A -> RES) l : (1 <= occ r (f <$> l))%nat -> exists y, y ∈ l /\ f y = r.
Proof. intros (y & -> & ?)%occ_elem%list_elem_of_fmap. by exists y. Qed.
Lemma own_sock x T F s : inv x (T :: F) -> Sock s ∈ t_Own T -> s ∈ x_Sockets x.
Proof.
  intros Hi H%occ_elem. pose proof (j_own _ _ _ Hi (Sock s)) as Hs. rewrite own_total_cons, occ_minted, occ_minted_plain, (occ_fmap_other _ Req), !one_other in Hs by (first [done|by intros ? ?]). destruct (occ_fmap_elem (Sock s) Sock (x_Sockets x)) as (y & Hy & [= ->]); [|done]. destruct (x_Running x); lia.
Qed.
Lemma own_present x T F s : inv x (T :: F) -> Sock s ∈ t_Own T -> present x s = true.
Proof. intros Hi H. apply bool_decide_true. by eapply own_sock. Qed.
Lemma blocks x F : inv x F -> (occ Block (stock x) + own_total Block F = x_Blocks x)%nat.
Proof. intros Hi. rewrite (j_own _ _ _ Hi), occ_minted, occ_minted_plain, !occ_fmap_other, one_same, !one_other by (first [done|by intros ? ?]). destruct (x_Running x); lia. Qed.
Lemma op_blocks_in x F o op : inv x F -> x_Ops x !! o = Some op -> (op_blocks op <= x_Blocks x)%nat.
Proof. intros Hi Ho. pose proof (blocks _ _ Hi) as Hb. rewrite occ_stock, (occ_over _ _ _ _ _ Ho) in Hb. unfold op_stock in Hb at 1. rewrite !occ_app, occ_replicate, one_same in Hb. lia. Qed.
Lemma queue_empty x T F : inv x (T :: F) -> Flight ∈ t_Own T -> x_Queue x = [] /\ x_Handshakes x = [].
Proof.
  intros Hi Hf. pose proof (own_flight _ _ _ Hi Hf) as E. apply occ_elem in Hf. pose proof (flights _ _ Hi) as Hb. rewrite own_total_cons, E, occ_stock in Hb. change (Z.to_nat 1) with 1%nat in Hb.
  split; [destruct (x_Queue x) as [|w q]; [done|]|destruct (x_Handshakes x) as [|c q]; [done|]]; rewrite fmap_cons, concat_cons, occ_app in Hb; [destruct w|]; cbn [work_res] in Hb; rewrite ?occ_cons, one_same in Hb; lia.
Qed.
Lemma has_flight w l : Flight ∈ work_res w ++ l.
Proof. apply elem_of_app. left. destruct w; cbn; set_solver. Qed.

Lemma mdl_minted o op : (1 <= occ (Ref o true) (op_minted o op))%nat -> op_Mdl op = true.
Proof.
  intros H%occ_elem. unfold op_minted in H. destruct (Z.to_nat _); [by apply list_elem_of_singleton in H|]. apply elem_of_cons in H as [H|[? _]%elem_of_replicate]; [|done]. unfold main_ref in H. destruct (op_Irp op); [done|by injection H..].
Qed.
Ltac op_of Hi r o Hl op Ho Hc := destruct (own_op _ _ _ r o Hi) as (op & Ho & Hc); [done|rewrite Hl; left|]; rewrite Ho; cbn [mbind option_bind].
Lemma defined x T F c ch K : inv x (T :: F) -> call_pre c T K -> unused x ch -> is_Some (socket_step x c ch).
Proof.
  intros Hi Hp [Hu1 Hu2]. destruct c; cbn [socket_step]; try (by eexists); cbn [SocketsInvariant.call_pre] in Hp; unfold on_op.
  - destruct Hp as (l & Hl & _). pose proof (blocks _ _ Hi) as Hb. rewrite own_total_cons, (occ_perm _ _ _ Hl), occ_cons, one_same in Hb. unfold free_block. destruct (x_Blocks x); [lia|by eexists].
  - destruct (ch_Yes ch); [|by eexists]. unfold present. rewrite bool_decide_false by done. by eexists.
  - destruct Hp as (l & Hl & _). destruct (take_out_some s (x_Sockets x)) as (l' & ->); [|by eexists]. eapply own_sock; [exact Hi|rewrite Hl; left].
  - destruct (x_List x); by eexists.
  - destruct Hp as (l & Hl & _). rewrite (own_present _ _ _ (cn_Id c) Hi) by (rewrite Hl; left). cbn [negb]. destruct (_ <=? _); by eexists.
  - destruct (_ || _); by eexists.
  - destruct (x_Running x); by eexists.
  - destruct (x_ShuttingDown x); by eexists.
  - destruct (_ && _); by eexists.
  - destruct Hp as (l & Hl & _). rewrite (own_present _ _ _ (cn_Id c) Hi) by (rewrite Hl; left). by eexists.
  - destruct Hp as ((l & Hl) & _). rewrite (own_present _ _ _ (cn_Id c) Hi) by (rewrite Hl; left). by eexists.
  - rewrite Hu2. by eexists.
  - destruct Hp as (k & mdl & l & Hl & _). op_of Hi (Fresh o k mdl) o Hl op Ho Hc. rewrite (occ_perm _ _ _ Hl), occ_cons, one_same in Hc. destruct (fresh_minted o k mdl op) as (_ & -> & _); [lia|].
    rewrite (own_present _ _ _ (kind_socket k) Hi); [by eexists|]. rewrite Hl. right. apply elem_of_app. left. destruct k; left.
  - destruct Hp as ((m & l & Hl) & _). op_of Hi (Ref o m) o Hl op Ho Hc. by eexists.
  - destruct Hp as ((m & l & Hl) & _). op_of Hi (Ref o m) o Hl op Ho Hc. by eexists.
  - destruct Hp as ((m & l & Hl) & _). op_of Hi (Ref o m) o Hl op Ho Hc. by eexists.
  - destruct Hp as ((m & l & Hl) & _). op_of Hi (Ref o m) o Hl op Ho Hc. by eexists.
  - destruct Hp as (l & Hl & _). op_of Hi (Ref o false) o Hl op Ho Hc. by eexists.
  - destruct Hp as (l & Hl & _). op_of Hi (Ref o true) o Hl op Ho Hc. pose proof (op_blocks_in _ _ _ _ Hi Ho) as Hb. rewrite (occ_perm _ _ _ Hl), occ_cons, one_same in Hc. rewrite (mdl_minted o op) by lia.
    unfold free_block, op_blocks in *. destruct (x_Blocks x); [lia|by eexists].
  - destruct Hp as (l & Hl & _). op_of Hi (Dead o) o Hl op Ho Hc. pose proof (op_blocks_in _ _ _ _ Hi Ho) as Hb. unfold free_block, op_blocks in *. destruct (x_Blocks x) as [|[|n]]; [lia..|by eexists].
  - destruct Hp as (Ht & _). destruct (j_knows _ _ _ Hi) as [(_ & _ & Hw) _]. destruct (Hw Ht) as [-> _]. by eexists.
  - destruct Hp as (l & Hl & _). assert (Hf : Flight ∈ t_Own T) by (rewrite Hl; apply has_flight). destruct (queue_empty _ _ _ Hi Hf) as [-> _]. rewrite (j_item _ _ _ Hi); [by eexists|]. rewrite (own_flight _ _ _ Hi Hf). lia.
  - destruct Hp as (l & Hl & _). rewrite (own_present _ _ _ (cn_Id c) Hi) by (rewrite Hl; left). by eexists.
Qed.
End Calls.
