(* ===== verification/SocketsSystem.v ===== *)
(** * Sockets: each handler makes its calls *)

From S2P Require Import Prelude Sockets SocketsInvariant SocketsHandlers.

Lemma perm_occ l l' : (forall r, occ r l = occ r l') -> l ≡ₚ l'.
Proof.
  revert l'. induction l as [|x l IH]; intros l' H.
  - destruct l' as [|x l']; [done|]. specialize (H x). rewrite occ_cons, one_same in H. cbn in H. lia.
  - assert (Hx : x ∈ l') by (apply occ_elem; rewrite <- H, occ_cons, one_same; lia). apply elem_of_Permutation in Hx as (k & Hk). rewrite Hk. constructor. apply IH. intros r. specialize (H r). rewrite (occ_perm _ _ _ Hk), !occ_cons in H. lia.
Qed.
Ltac perm_counts := cbn [Nat.add cn_Id app opt_sock work_res target_res kind_res replicate]; rewrite ?occ_app, ?occ_cons, ?occ_app, ?occ_cons, ?occ_nil.
Ltac perm :=
  apply perm_occ; let r := fresh "r" in intros r; cbn [t_Own put set_step set_duty set_shut set_quiet set_known]; perm_counts;
  repeat match goal with H : t_Own ?T ≡ₚ _ |- context [occ r (t_Own ?T)] => rewrite (occ_perm r _ _ H) end; perm_counts; lia.

(** Owes the pump nothing. *)
Definition idle (T : TOK) : Prop := t_Step T = false /\ t_Duty T = false.

Section Programs.
Context (address : Z -> SOCKADDR).
Abbreviation wp := (wp address).
Abbreviation call_pre := (call_pre address).

Lemma wp_make c T Q : call_pre c T Q -> wp (make c) T Q.
Proof. done. Qed.
Lemma put_own T : put T (t_Own T) = T.
Proof. by destruct T. Qed.
Lemma idle_pumped T : idle T -> set_duty (set_step T false) false = T.
Proof. destruct T. intros [? ?]. cbn in *. by subst. Qed.

(** ** Closing *)

Ltac call := cbn [SocketsInvariant.wp SocketsInvariant.call_pre mbind prog_mbind prog_bind make jump negb].
Ltac own l := exists l; split; [perm|].

Lemma wp_close_async c T l Q : t_Own T ≡ₚ Sock (cn_Id c) :: l -> (forall st, Q st (put T l)) -> wp (BlorgCloseWskSocketAsync c) T Q.
Proof.
  intros Hl HQ. unfold BlorgCloseWskSocketAsync. call. split; [split|].
  - own l. apply HQ.
  - own (t_Own T). own l. apply HQ.
  - own l. apply HQ.
Qed.
Lemma wp_closed c T l Q : t_Own T ≡ₚ Sock (cn_Id c) :: Block :: Block :: l -> Q () (put T l) -> wp (SocketCloseAsyncCompletionRoutine c) T Q.
Proof. intros Hl HQ. unfold SocketCloseAsyncCompletionRoutine. call. own (Sock (cn_Id c) :: Block :: l). own (Block :: l). own l. done. Qed.
Lemma wp_close_wait c T l Q : t_Own T ≡ₚ Sock (cn_Id c) :: l -> (forall st, Q st (put T l)) -> wp (SocketCloseWskSocket c) T Q.
Proof.
  intros Hl HQ. unfold SocketCloseWskSocket. call. split.
  - split; [exists (Block :: l); perm|]. intros st. own (t_Own T). own l. apply HQ.
  - own l. apply HQ.
Qed.
Lemma wp_release c T l Q : t_Own T ≡ₚ Sock (cn_Id c) :: l -> (forall st, Q st (put T l)) -> wp (BlorgReleaseReusableWskSocket c) T Q.
Proof. intros Hl HQ. unfold BlorgReleaseReusableWskSocket. call. own l. split; [apply HQ|]. by apply (wp_close_async c T l). Qed.
(** ** The pre-warm *)

Lemma wp_pump T Q : t_Step T = true -> Q () (set_duty (set_step T false) false) -> wp SocketPrewarmPump T Q.
Proof. intros Ht HQ. unfold SocketPrewarmPump. call. split; [done|]. by split. Qed.
Lemma wp_account T l Q : t_Own T ≡ₚ Flight :: l -> idle T -> Q () (put T l) -> wp SocketPrewarmStepAccount T Q.
Proof.
  intros Hl Hi HQ. unfold SocketPrewarmStepAccount. call. own l. split; [apply Hi|]. split; [done|]. apply wp_pump; [done|]. rewrite <- (idle_pumped (put T l) Hi) in HQ. exact HQ.
Qed.
Lemma wp_step_finish T l Q : t_Own T ≡ₚ Flight :: l -> idle T -> Q () (put T l) -> wp SocketPrewarmStepFinish T Q.
Proof. intros Hl Hi HQ. unfold SocketPrewarmStepFinish. call. intros [|]; [|by apply (wp_account T l)]. own l. done. Qed.
Lemma wp_handshake_complete st c T l Q : t_Own T ≡ₚ Sock (cn_Id c) :: Flight :: l -> idle T -> Q () (put T l) -> wp (SocketPrewarmHandshakeComplete st c) T Q.
Proof.
  intros Hl Hi HQ. unfold SocketPrewarmHandshakeComplete. apply socket_bind.
  assert (Hf : wp SocketPrewarmStepFinish (put T (Flight :: l)) Q) by (by apply (wp_step_finish _ l); [perm| |]).
  destruct (NT_SUCCESS st); [apply (wp_release c T (Flight :: l))|apply (wp_close_async c T (Flight :: l))]; done.
Qed.
Lemma wp_step_complete st c T l Q : t_Own T ≡ₚ opt_sock c ++ Flight :: l -> (c = None \/ NT_SUCCESS st = true) -> idle T -> Q () (put T l) -> wp (SocketPrewarmStepComplete st c) T Q.
Proof.
  intros Hl Hc Hi HQ. unfold SocketPrewarmStepComplete. destruct c as [c|]; [|by apply (wp_step_finish T l)]. destruct Hc as [?| ->]; [done|]. call. intros [|].
  - intros [|]; own l; done.
  - apply socket_bind, (wp_release c T (Flight :: l)); [done|]. intros _. by apply (wp_step_finish _ l); [perm| |].
Qed.

(** ** Watchdogs *)

Lemma wp_disarm o m st T l Q : t_Own T ≡ₚ Ref o m :: l -> (forall st', Q st' T) -> wp (SocketDisarmTimeout o st) T Q.
Proof.
  intros Hl HQ. unfold SocketDisarmTimeout. call. split; [by exists m, l|]. split.
  - split; [by exists m, l|]. intros b. apply HQ.
  - own (t_Own T). split; [intros z _|left; by exists m, l]. change (put (put T (Ref o false :: t_Own T)) (t_Own T)) with (put T (t_Own T)). rewrite put_own. call. split; [by exists m, l|]. intros b. apply HQ.
Qed.
(** The last of the two, the watchdog or the completion, frees the context. *)
Lemma wp_last_ref o T l Q : t_Own T ≡ₚ Ref o false :: l -> Q () (put T l) -> wp (last ← SocketReleaseTimeoutRef o; if last : bool then make (FreeOp o) else Give ()) T Q.
Proof.
  intros Hl HQ. unfold SocketReleaseTimeoutRef. call. own l. split.
  - intros z Hz. destruct (Z.eqb_spec z 0); done.
  - right. cbn. own l. done.
Qed.
Lemma wp_timeout o T l Q : t_Own T ≡ₚ Ref o false :: l -> Q () (put T l) -> wp (timeout_dpc o) T Q.
Proof. intros Hl HQ. unfold timeout_dpc. call. split; [by exists false, l|]. split; [by exists false, l|]. by apply (wp_last_ref o T l). Qed.
(** ** Sends and receives *)

(** Pending, and what was handed over is gone; or refused, and it is not. *)
Definition handed (T : TOK) (l : list RES) (Q : NTSTATUS -> TOK -> Prop) : Prop := Q STATUS_PENDING (put T l) /\ forall st, NT_SUCCESS st = false -> Q st T.
Lemma refused T l Q st l' : handed T l Q -> NT_SUCCESS st = false -> l' = t_Own T -> Q st (put T l').
Proof. intros [_ H] Hs ->. rewrite put_own. by apply H. Qed.

Lemma wp_context T Q : Q true (put T (Block :: Block :: t_Own T)) -> Q false T -> wp SocketAllocateAsyncContext T Q.
Proof. intros Hy Hn. unfold SocketAllocateAsyncContext. call. split; [split; [done|]|done]. own (t_Own T). rewrite <- (put_own T) in Hn. exact Hn. Qed.
Lemma wp_receive c r T l Q : t_Own T ≡ₚ Sock (cn_Id c) :: Req r :: l -> handed T l Q -> wp (BlorgReceiveWskAsyncMdl c r) T Q.
Proof.
  intros Hl HQ. unfold BlorgReceiveWskAsyncMdl. apply socket_bind, wp_context; [|by apply HQ]. call. own (t_Own T). split; [done|]. split; [done|]. intros o. exists (Transferring c r), false, l. split; [perm|]. apply HQ.
Qed.
Lemma wp_send c r T l Q : t_Own T ≡ₚ Sock (cn_Id c) :: Req r :: l -> handed T l Q -> wp (BlorgSendRecvWskAsync c r) T Q.
Proof.
  intros Hl HQ. unfold BlorgSendRecvWskAsync. apply socket_bind, wp_context; [|by apply HQ]. call. split.
  - intros st. destruct (NT_SUCCESS st) eqn:Es; call.
    + own (t_Own T). split; [done|]. split; [done|]. intros o. exists (Transferring c r), true, l. split; [perm|]. apply HQ.
    + own (Block :: Block :: t_Own T). own (Block :: t_Own T). own (t_Own T). by apply (refused T l Q).
  - own (Block :: t_Own T). own (t_Own T). by apply (refused T l Q).
Qed.
Lemma wp_transfer mdl c r T l Q : t_Own T ≡ₚ Sock (cn_Id c) :: Req r :: l -> Q () (put T l) -> wp (client_transfer mdl c r) T Q.
Proof.
  intros Hl HQ. unfold client_transfer. apply socket_bind.
  assert (Hd : handed T l (fun st T => wp (if st =? STATUS_PENDING then Give () else make (ReturnStatus r st (Some c))) T Q)).
  { split; [done|]. intros st Hs. destruct (Z.eqb_spec st STATUS_PENDING) as [->|]; [done|]. call. own l. done. }
  destruct mdl; [by apply (wp_receive c r T l)|by apply (wp_send c r T l)].
Qed.
Lemma wp_transferred o c r mdl st T l Q : t_Own T ≡ₚ Ref o mdl :: Sock (cn_Id c) :: Req r :: l -> Q () (put T l) -> wp (SocketAsyncCompletionRoutine o c r mdl st) T Q.
Proof.
  intros Hl HQ. unfold SocketAsyncCompletionRoutine. apply socket_bind, (wp_disarm o mdl st T _ _ Hl). intros st'.
  assert (Hr : forall T', t_Own T' ≡ₚ Ref o false :: Sock (cn_Id c) :: Req r :: l -> put T' l = put T l -> wp (make (CallBackIo r st' c);; last ← SocketReleaseTimeoutRef o; if last : bool then make (FreeOp o) else Give ()) T' Q).
  { intros T' Hl' E. call. own (Ref o false :: l). apply (wp_last_ref o _ l); [perm|]. change (Q () (put T' l)). by rewrite E. }
  destruct mdl; [|by apply Hr]. call. own (Sock (cn_Id c) :: Req r :: l). apply Hr; [perm|done].
Qed.
(** ** Connects *)

Definition told (t : TARGET) (st : NTSTATUS) (c : option CONNECTION) : Prop := match t with ForClient r => reply_ok address (Acquired r st c) | ForPrewarm => c = None \/ NT_SUCCESS st = true end.
Lemma wp_complete_acquire t st c b T l Q : t_Own T ≡ₚ opt_sock c ++ target_res t ++ l -> told t st c -> idle T -> Q () (put T l) -> wp (complete_acquire t st c b) T Q.
Proof. intros Hl Ht Hi HQ. destruct t as [r|]; [|by apply (wp_step_complete st c T l)]. cbn [complete_acquire]. call. own l. done. Qed.
Lemma wp_connected o s a t st T l Q :
  t_Own T ≡ₚ Ref o false :: Sock s :: target_res t ++ l -> kind_ok address (Connecting s a t) -> idle T -> Q () (put T l) -> wp (SocketConnectAsyncCompletionRoutine o s a t st) T Q.
Proof.
  intros Hl Hk Hi HQ. unfold SocketConnectAsyncCompletionRoutine. apply socket_bind, (wp_disarm o false st T _ _ Hl). intros st'. apply socket_bind.
  assert (Hr : wp (last ← SocketReleaseTimeoutRef o; if last : bool then make (FreeOp o) else Give ()) (put T (Ref o false :: l)) Q) by (by apply (wp_last_ref o _ l); [perm|]).
  destruct (NT_SUCCESS st') eqn:Es.
  - apply (wp_complete_acquire t _ _ _ T (Ref o false :: l)); [perm| |done..]. destruct t as [r|]; [|by right]. split; [done|]. left. apply Hk.
  - call. own (Ref o false :: target_res t ++ l). apply (wp_complete_acquire t _ _ _ _ (Ref o false :: l)); [perm| |done..]. destruct t as [r|]; [done|by left].
Qed.
Lemma wp_connect_fresh a t T l Q : t_Own T ≡ₚ target_res t ++ l -> (forall s, kind_ok address (Connecting s a t)) -> handed T l Q -> wp (connect_fresh a t) T Q.
Proof.
  intros Hl Hk HQ. unfold connect_fresh. call. split; [|by apply HQ]. intros s. call. split; [split|].
  - own (Sock s :: t_Own T). split; [apply Hk|]. split; [done|]. intros o. exists (Connecting s a t), false, l. split; [perm|]. apply HQ.
  - own (Sock s :: t_Own T). own (t_Own T). by apply (refused T l Q).
  - own (t_Own T). by apply (refused T l Q).
Qed.
Lemma wp_acquire a b t T l Q : t_Own T ≡ₚ target_res t ++ l -> (forall s, kind_ok address (Connecting s a t)) -> idle T -> handed T l Q -> wp (BlorgAcquireReusableWskSocketAsync a b t) T Q.
Proof.
  intros Hl Hk Hi HQ. unfold BlorgAcquireReusableWskSocketAsync. destruct b; [by apply (wp_connect_fresh a t T l)|]. call. split; [|by apply (wp_connect_fresh a t T l)]. intros c.
  destruct (SocketAddressEqual (cn_Address c) a) eqn:Ea; apply socket_bind.
  - apply (wp_complete_acquire t _ _ _ _ l); [perm| |done|apply HQ]. destruct t as [r|]; [|by right]. split; [done|]. right. pose proof (Hk 0) as E. cbn in E. by rewrite <- E.
  - apply (wp_close_async c _ (t_Own T)); [perm|]. intros _. change (put (put T (Sock (cn_Id c) :: t_Own T)) (t_Own T)) with (put T (t_Own T)). rewrite put_own. by apply (wp_connect_fresh a t T l).
Qed.
Lemma wp_client_acquire b r T l Q : t_Own T ≡ₚ Req r :: l -> idle T -> Q () (put T l) -> wp (client_acquire (address r) b r) T Q.
Proof.
  intros Hl Hi HQ. unfold client_acquire. apply socket_bind, (wp_acquire _ _ _ T l); [done|done|done|]. split; [done|]. intros st Hs. destruct (Z.eqb_spec st STATUS_PENDING) as [->|]; [done|]. call. own l. done.
Qed.

(** ** Filling and draining *)

Lemma wp_fill a count T l Q : t_Own T ≡ₚ Control :: l -> 0 <= count < 2147483648 -> idle T -> Q () T -> (forall b, Q () (set_known T b)) -> wp (BlorgPrewarmSocketPool a count) T Q.
Proof.
  intros Hl Hc Hi HQ Hk. unfold BlorgPrewarmSocketPool. destruct (Z.eqb_spec count 0); [done|]. call. split; [by exists l|].
  assert (Hr : wp (admitted ← make (AdmitFill count a); if admitted : bool then SocketPrewarmPump else Give ()) (set_known T true) Q).
  { call. split; [done|]. split; [apply Hi|]. split; [lia|]. split; [apply Hk|]. apply wp_pump; [done|]. specialize (Hk true). rewrite <- (idle_pumped (set_known T true) Hi) in Hk. exact Hk. }
  split; [|exact Hr]. split; [by exists l|]. split; [done|exact Hr].
Qed.
Lemma wp_drain T l Q : t_Own T ≡ₚ Control :: l -> (forall b, Q () (set_known (set_quiet (set_shut T true) true) b)) -> wp BlorgDrainWskSocketPrewarm T Q.
Proof.
  intros Hl HQ. unfold BlorgDrainWskSocketPrewarm. call. split; [done|]. split; [by exists l|]. split; [|split_and!; try done; apply (HQ false)]. apply (HQ (t_Item T)).
Qed.
Lemma wp_load a count T l Q : t_Own T ≡ₚ Control :: l -> 0 <= count < 2147483648 -> idle T -> Q () (set_known (put T l) false) -> wp (load a count) T Q.
Proof. intros Hl Hc Hi HQ. unfold load. apply socket_bind, (wp_fill a count T l); [done..| |]; [|intros b]; call; own l; (split; [done|exact HQ]). Qed.
Lemma wp_unload T l Q : t_Own T ≡ₚ Control :: l -> Q () (set_known (put (set_quiet (set_shut T true) true) l) false) -> wp unload T Q.
Proof.
  intros Hl HQ. unfold unload, BlorgCleanupWskSocketPool. apply socket_bind, (wp_drain T l); [done|]. intros b. apply socket_bind, socket_bind, (wp_drain _ l); [done|]. intros b'. call. own l. split; [done|exact HQ].
Qed.
(** ** Loops *)

Lemma code_ok l T K : label_pre l T K -> wp (code l) T (fun _ T => K T).
Proof.
  destruct T as [own st du sh qu it]. destruct l; cbn [label_pre code]; cbn [t_Own t_Step t_Duty t_Shut t_Quiet t_Item].
  - intros (-> & -> & HK). call. split; [done|]. split; [exact HK|]. split; [done|]. split; [done|]. own own. split; [done|]. split; [exact HK|]. split; [done|]. split; [done|exact HK].
  - intros (-> & -> & HK). call. split; [done|]. split; [exact HK|]. split; [done|]. split; [exact HK|]. intros a. apply socket_bind, (wp_acquire _ _ _ _ own); [perm|done|done|]. split; [by split|]. intros s Hs. destruct (Z.eqb_spec s STATUS_PENDING) as [->|]; [done|]. call. own own. exact HK.
  - intros (-> & HK). call. split; [done|]. split; [exact HK|]. intros z Hz. destruct (Z.eqb_spec z 0); [done|]. by split.
  - intros HK. call. split; [|exact HK]. intros c. apply socket_bind, (wp_close_wait c _ own); [perm|]. intros _. exact HK.
Qed.
End Programs.

(** * Sockets: what holds of every interleaving *)
Section Reachable.
Context (address : Z -> SOCKADDR).
Abbreviation inv := (pools_inv address).
Abbreviation wp := (wp address).

(** ** Handlers come and go *)

Lemma all_Forall {A} (P : A -> Prop) l : all P l <-> Forall P l.
Proof. induction l as [|x l IH]; cbn; [by split|]. by rewrite Forall_cons, IH. Qed.
Lemma some_Exists {A} (P : A -> Prop) l : some P l <-> Exists P l.
Proof. induction l as [|x l IH]; cbn; [by rewrite Exists_nil|]. by rewrite Exists_cons, IH. Qed.
Lemma pools_inv_perm x F F' : F ≡ₚ F' -> inv x F -> inv x F'.
Proof.
  intros Hp []. assert (Ht : forall f : TOK -> nat, total f F = total f F') by (intros f; by rewrite Hp). split; try done.
  - intros r. unfold own_total. rewrite <- Ht. apply j_own.
  - unfold f_steps, steps. by rewrite <- Ht.
  - intros H. destruct (j_duty H) as [?|Hs]; [by left|right]. apply some_Exists. rewrite <- Hp. by apply some_Exists.
  - apply all_Forall. rewrite <- Hp. by apply all_Forall.
Qed.
Definition tok0 : TOK := mkTok [] false false false false false.
Lemma inv_spawn x F : inv x F -> inv x (tok0 :: F).
Proof. intros []. split; try done. intros H. destruct (j_duty H); [by left|by right; right]. Qed.
Lemma pools_inv_exit x T F : ends () T -> inv x (T :: F) -> inv x F.
Proof.
  intros (Eo & Es & Ed) []. split; try done.
  - intros r. rewrite <- j_own, own_total_cons, Eo. done.
  - revert j_steps. unfold f_steps, steps, step_at at 1 3. rewrite !socket_total_cons. unfold step_at at 1 3. by rewrite Es.
  - intros H. destruct (j_duty H) as [?|[?|?]]; [by left|congruence|by right].
  - by destruct j_knows.
Qed.

(** What a reachable state is like. *)
Definition pools_ok (p : POOLS) : Prop := exists F, inv (ps_State p) F /\ Forall2 (fun pr T => wp pr T ends) (ps_Threads p) F.
Lemma pools_spawn x' l F pr threads : Forall2 (fun pr T => wp pr T ends) threads F -> (forall Q, Q () tok0 -> wp pr (put tok0 l) Q) -> inv x' (put tok0 l :: F) -> pools_ok (mkPools x' (pr :: threads)).
Proof. intros HF Hp Hi. exists (put tok0 l :: F). split; [done|]. constructor; [|done]. by apply Hp. Qed.

(** A handler that takes [l] out of the lists. *)
Lemma inv_taken x x' F l : inv x F -> same_rest address x x' -> occ Control l = 0%nat -> (forall r, occ r (stock x') + occ r l + occ r (minted x) = occ r (stock x) + occ r (minted x'))%nat -> inv x' (put tok0 l :: F).
Proof. intros Hi Hs Hc Hb. eapply inv_own; [by apply inv_spawn|done|done|]. intros r. specialize (Hb r). cbn [t_Own tok0]. rewrite occ_nil. lia. Qed.
Lemma inv_op_taken x F o op op' l :
  inv x F -> x_Ops x !! o = Some op -> op_ok address op' -> occ Control l = 0%nat -> (forall r, occ r (op_stock o op') + occ r l + occ r (op_minted o op) = occ r (op_stock o op) + occ r (op_minted o op'))%nat ->
  inv (set_ops x (<[o := op']> (x_Ops x))) (put tok0 l :: F).
Proof. intros Hi Ho Hk Hc Hb. eapply inv_op; [by apply inv_spawn|done|done|done|]. intros r. specialize (Hb r). cbn [t_Own tok0]. rewrite occ_nil. lia. Qed.

Ltac parts :=
  cbn [set_pool set_remaining set_inflight set_shutdown set_running set_pending set_prewarm set_item set_queue set_ops set_sockets set_blocks set_closing set_handshakes set_owned set_leaked set_replies set_arrived set_control
       x_List x_Count x_Remaining x_InFlight x_ShuttingDown x_Running x_Pending x_Prewarm x_WorkItem x_Queue x_Ops x_Sockets x_Blocks x_Closing x_Handshakes x_Owned x_Leaked x_Replies x_Arrived x_Control x_Unloaded] in *.
Ltac counts := rewrite ?occ_stock, ?occ_minted; parts; rewrite ?socks_app, ?socks_cons, ?fmap_app, ?fmap_cons, ?concat_app, ?concat_cons, ?occ_app, ?occ_cons, ?occ_app, ?occ_cons, ?occ_nil.
Ltac op_parts := unfold op_stock, op_minted, main_ref, op_blocks; cbn [op_Kind op_Mdl op_RefCount op_TimedOut op_Armed op_Irp]; rewrite ?occ_app, ?occ_cons, ?occ_app, ?occ_cons, ?occ_nil.
Ltac taken Hi E := eapply inv_taken; [exact Hi|destruct (same_rest_refl _ _ _ Hi); by split|by cbn|intros r; counts; rewrite ?E; counts; lia].

(** The entry or unload routine begins. *)
Lemma inv_entered x F : inv x F -> x_Control x = true -> inv (set_control x false false) (put tok0 [Control] :: F).
Proof.
  intros Hi Hc. apply inv_spawn in Hi. eapply (inv_flags _ _ _ tok0); [exact Hi|by split| |apply Hi|apply Hi|apply Hi|done|by apply Hi|done]. intros r. counts. cbn [put tok0 t_Own]. rewrite Hc, occ_cons, occ_nil. cbn [orb]. lia.
Qed.

Lemma ok_driver p q : pools_ok p -> pools_driver p q -> pools_ok q.
Proof.
  intros (F & Hi & HF) Hstep. destruct Hstep; cbn [ps_State ps_Threads] in *.
  - apply Forall2_app_inv_l in HF as (F1 & F2 & H1 & H2 & ->). apply Forall2_cons_inv_l in H2 as (T & F2' & Hp & H2 & ->). apply (pools_inv_perm _ _ (T :: F1 ++ F2')) in Hi; [|by rewrite Permutation_middle].
    destruct (keeps _ c x T _ ch a x' _ Hi Hp H) as (T' & Hk & Hi'). exists (F1 ++ T' :: F2'). split; [eapply pools_inv_perm, Hi'; by rewrite Permutation_middle|]. apply Forall2_app; [done|]. by constructor.
  - apply Forall2_app_inv_l in HF as (F1 & F2 & H1 & H2 & ->). apply Forall2_cons_inv_l in H2 as (T & F2' & Hp & H2 & ->). exists (F1 ++ T :: F2'). split; [done|]. apply Forall2_app; [done|]. constructor; [|done]. by apply socket_bind, code_ok.
  - apply Forall2_app_inv_l in HF as (F1 & F2 & H1 & H2 & ->). apply Forall2_cons_inv_l in H2 as (T & F2' & Hp & H2 & ->). exists (F1 ++ F2'). split; [|by apply Forall2_app]. apply (pools_inv_exit _ T); [done|]. eapply pools_inv_perm, Hi. by rewrite Permutation_middle.
  - apply (pools_spawn _ [Ref o false] F); [done|intros Q HQ; by apply (wp_timeout _ o _ [])|]. apply (inv_op_taken _ _ _ op); [done|done|by destruct (j_ops _ _ _ Hi _ _ H) as (? & ? & ? & ?)|done|]. intros r. op_parts. rewrite H0. op_parts. lia.
  - pose proof (j_ops _ _ _ Hi _ _ H) as (Hn & Hk & Hm & H2). apply (pools_spawn _ (Ref o (op_Mdl op) :: kind_res (op_Kind op)) F); [done| |].
    + intros Q HQ. unfold completion. destruct (op_Kind op) as [s a t|c r]; [|by apply (wp_transferred _ o c r (op_Mdl op) st _ [])]. cbn in Hm. rewrite Hm. apply (wp_connected _ o s a t st _ []); try done. cbn [put t_Own kind_res]. by rewrite app_nil_r.
    + apply (inv_op_taken _ _ _ op); [done|done| | |].
      * split; [exact Hn|]. split_and!; try done. intros E. by destruct (H2 E).
      * destruct (op_Kind op) as [? ? []|]; done.
      * intros r. op_parts. rewrite H0. op_parts. lia.
  - apply (pools_spawn _ [Sock (cn_Id c); Block; Block] F); [done|intros Q HQ; by apply (wp_closed _ c _ [])|]. taken Hi H.
  - apply (pools_spawn _ (work_res w) F); [done| |].
    + intros Q HQ. destruct w as [|c]; [by apply (wp_account _ _ [])|]. cbn. by exists [].
    + eapply inv_taken; [exact Hi|destruct (same_rest_refl _ _ _ Hi); by split|by destruct w|]. intros r. counts. rewrite H. counts. lia.
  - apply (pools_spawn _ [Sock (cn_Id c); Flight] F); [done|intros Q HQ; by apply (wp_handshake_complete _ st c _ [])|]. taken Hi H.
Qed.
Lemma ok_outside p q : pools_ok p -> pools_outside address p q -> pools_ok q.
Proof.
  intros (F & Hi & HF) Hstep. destruct Hstep; cbn [ps_State ps_Threads] in *.
  - apply (pools_spawn _ [Req r] F); [done|intros Q HQ; by apply (wp_client_acquire _ _ _ _ [])|]. eapply inv_taken; [exact Hi| |done|intros r'; counts; lia].
    destruct (same_rest_refl _ _ _ Hi) as [? ? ? [? ?] ?]. split; parts; try done. split; [done|by constructor].
  - apply (pools_spawn _ [Sock (cn_Id c); Req r] F); [done|intros Q HQ; by apply (wp_transfer _ _ _ _ _ [])|]. eapply inv_taken; [exact Hi| |done|intros r'; counts; rewrite H0; counts; lia].
    destruct (same_rest_refl _ _ _ Hi) as [? ? ? [? ?] ?]. split; parts; try done. split; [done|by constructor].
  - apply (pools_spawn _ [Sock (cn_Id c)] F); [done|intros Q HQ; by apply socket_bind, (wp_release _ c _ [])|]. taken Hi H.
  - apply (pools_spawn _ [Sock (cn_Id c)] F); [done|intros Q HQ; by apply socket_bind, (wp_close_async _ c _ [])|]. taken Hi H.
  - apply (pools_spawn _ [Control] F); [done|intros Q HQ; by apply (wp_load _ _ _ _ [])|]. by apply inv_entered.
  - exists (put tok0 [Control] :: F). split; [by apply inv_entered|]. constructor; [|done]. by apply (wp_unload _ _ []).
Qed.
Lemma ok_initial : pools_ok pools_initial.
Proof.
  exists []. split; [|done]. split; try done.
  - intros r. rewrite occ_stock, occ_minted. unfold over. cbn. rewrite map_to_list_empty. cbn. lia.
  - by intros [?|?].
  - by split; constructor.
Qed.
Lemma ok_reachable p : pools_reachable address p -> pools_ok p.
Proof. unfold pools_reachable. revert p. apply (rtc_ind_r pools_ok); [apply ok_initial|]. intros p q _ [H|H] Hp; [by eapply ok_driver|by eapply ok_outside]. Qed.

(** ** A runner *)

Inductive EVENT :=
  | Go (i : nat) (ch : CHOICE) | Expire (o : Z) | Complete (o : Z) (st : NTSTATUS) | CloseDone (i : nat) | RunWork | HandshakeDone (i : nat) (st : NTSTATUS)
  | AskSocket (r : Z) (fresh : bool) | UseSocket (r : Z) (mdl : bool) (i : nat) | GiveBack (i : nat) | Discard (i : nat) | Load (a : SOCKADDR) (count : Z) | Unload.

Definition without {A} (i : nat) (l : list A) : list A := take i l ++ drop (S i) l.
Definition next (p : POOLS) (ev : EVENT) : option POOLS :=
  let '(mkPools x threads) := p in
  match ev with
  | Go i ch =>
      pr ← threads !! i;
      match pr with
      | Give _ => Some (mkPools x (without i threads))
      | Do c k => r ← socket_step x c ch; Some (mkPools (snd r) (take i threads ++ k (fst r) :: drop (S i) threads))
      | Jump l k => Some (mkPools x (take i threads ++ (code l;; k) :: drop (S i) threads))
      end
  | Expire o =>
      op ← x_Ops x !! o;
      if op_Armed op then Some (mkPools (set_ops x (<[o := mkOp (op_Kind op) (op_Mdl op) (op_RefCount op) (op_TimedOut op) false (op_Irp op)]> (x_Ops x))) (timeout_dpc o :: threads)) else None
  | Complete o st =>
      op ← x_Ops x !! o;
      match op_Irp op with
      | Issued => Some (mkPools (set_ops x (<[o := mkOp (op_Kind op) (op_Mdl op) (op_RefCount op) (op_TimedOut op) (op_Armed op) Completed]> (x_Ops x))) (completion o op st :: threads))
      | _ => None
      end
  | CloseDone i => c ← x_Closing x !! i; Some (mkPools (set_closing x (without i (x_Closing x))) (SocketCloseAsyncCompletionRoutine c :: threads))
  | RunWork => match x_Queue x with [w] => Some (mkPools (set_queue x []) (work_program w :: threads)) | _ => None end
  | HandshakeDone i st => c ← x_Handshakes x !! i; Some (mkPools (set_handshakes x (without i (x_Handshakes x))) (SocketPrewarmHandshakeComplete st c :: threads))
  | AskSocket r fresh => if bool_decide (r ∈ x_Arrived x) then None else Some (mkPools (set_arrived x (r :: x_Arrived x)) (client_acquire (address r) fresh r :: threads))
  | UseSocket r mdl i =>
      if bool_decide (r ∈ x_Arrived x) then None
      else c ← x_Owned x !! i; Some (mkPools (set_arrived (set_owned x (without i (x_Owned x))) (r :: x_Arrived x)) (client_transfer mdl c r :: threads))
  | GiveBack i => c ← x_Owned x !! i; Some (mkPools (set_owned x (without i (x_Owned x))) (client_release c :: threads))
  | Discard i => c ← x_Owned x !! i; Some (mkPools (set_owned x (without i (x_Owned x))) (client_close c :: threads))
  | Load a count => if x_Control x && (0 <=? count) && (count <? 2147483648) then Some (mkPools (set_control x false false) (load a count :: threads)) else None
  | Unload => if x_Control x then Some (mkPools (set_control x false false) (unload :: threads)) else None
  end.
(** An event that cannot happen is left out. *)
Definition play (evs : list EVENT) : POOLS := foldl (fun p ev => default p (next p ev)) pools_initial evs.

Ltac some_step H := repeat match type of H with
  | context [?m ≫= _] => let E := fresh "E" in destruct m eqn:E; cbn [mbind option_bind] in H; [|done]
  | context [if bool_decide _ then _ else _] => case_bool_decide; [done|]
  | context [match ?m with _ => _ end] => let E := fresh "E" in destruct m eqn:E; try done
  end.
Lemma next_sound p ev q : next p ev = Some q -> pools_step address p q.
Proof.
  destruct p as [x threads]. destruct ev; cbn [next]; intros H.
  - destruct (threads !! i) as [pr|] eqn:E; [|done]. cbn in H. rewrite <- (take_drop_middle threads i pr E) at 1. destruct pr as [[]|c k|l k]; [injection H as <-; left; constructor| |injection H as <-; left; constructor].
    destruct (socket_step x c ch) as [[a x']|] eqn:Es; [|done]. injection H as <-. left. by econstructor.
  - some_step H. injection H as <-. left. by econstructor.
  - some_step H. injection H as <-. left. by econstructor.
  - some_step H. injection H as <-. left. econstructor. by rewrite take_drop_middle.
  - some_step H. injection H as <-. left. by econstructor.
  - some_step H. injection H as <-. left. econstructor. by rewrite take_drop_middle.
  - some_step H. injection H as <-. right. by econstructor.
  - some_step H. injection H as <-. right. econstructor; [done|]. by rewrite take_drop_middle.
  - some_step H. injection H as <-. right. econstructor. by rewrite take_drop_middle.
  - some_step H. injection H as <-. right. econstructor. by rewrite take_drop_middle.
  - destruct (x_Control x) eqn:Ec, (Z.leb_spec 0 count), (Z.ltb_spec count 2147483648); cbn in H; try done. injection H as <-. right. by econstructor.
  - some_step H. injection H as <-. right. by econstructor.
Qed.
Lemma play_reachable evs : pools_reachable address (play evs).
Proof.
  unfold play, pools_reachable. assert (H : forall p, rtc (pools_step address) p (foldl (fun p ev => default p (next p ev)) p evs)); [|apply H]. induction evs as [|ev evs IH]; intros p; cbn; [done|].
  destruct (next p ev) as [q|] eqn:E; cbn; [|apply IH]. eapply rtc_l; [by eapply next_sound|apply IH].
Qed.
End Reachable.
