(* ===== verification/SocketsTheorems.v ===== *)
(** * Sockets: what a request and the driver can rely on *)

From S2P Require Import Prelude Sockets SocketsInvariant SocketsHandlers SocketsSystem.

(** ** Counting by constructor *)

Section By.
Context (f : Z -> RES) (Hf : forall a b, f a = f b -> a = b).

Lemma occ_by_elem z l : (1 <= occ (f z) (f <$> l))%nat <-> z ∈ l.
Proof. rewrite occ_elem, list_elem_of_fmap. split; [|intros H; by exists z]. intros (y & E & Hy). apply Hf in E. by subst. Qed.
Lemma occ_by_cons z y l : occ (f z) (f <$> (y :: l)) = ((if decide (y = z) then 1 else 0) + occ (f z) (f <$> l))%nat.
Proof. rewrite fmap_cons, occ_cons. unfold one. destruct (decide (y = z)) as [E|E]; [by rewrite E, decide_True|]. rewrite decide_False; [done|]. auto. Qed.
Lemma occ_by_NoDup l : NoDup l <-> forall z, (occ (f z) (f <$> l) <= 1)%nat.
Proof.
  induction l as [|y l IH]; [split; [cbn; intros; lia|constructor]|]. rewrite NoDup_cons, IH. split.
  - intros [Hy H] z. rewrite occ_by_cons. case_decide as E; [subst|apply H]. specialize (H z). rewrite <- occ_by_elem in Hy. lia.
  - intros H. split; [|intros z; specialize (H z); rewrite occ_by_cons in H; lia]. rewrite <- occ_by_elem. specialize (H y). rewrite occ_by_cons, decide_True in H by done. lia.
Qed.
Lemma occ_by_perm l l' : (forall z, occ (f z) (f <$> l) = occ (f z) (f <$> l')) -> l ≡ₚ l'.
Proof.
  revert l'. induction l as [|y l IH]; intros l' H.
  - destruct l' as [|y l']; [done|]. specialize (H y). rewrite occ_by_cons, decide_True in H by done. cbn in H. lia.
  - assert (Hy : y ∈ l') by (apply occ_by_elem; rewrite <- H, occ_by_cons, decide_True by done; lia). apply elem_of_Permutation in Hy as (k & Hk). rewrite Hk. constructor. apply IH. intros z. specialize (H z).
    rewrite (occ_perm _ _ _ (fmap_Permutation f _ _ Hk)), !occ_by_cons in H. lia.
Qed.
End By.

(** Where the sockets are: pooled, with a request, being closed, in a handshake
    of the pre-warm, given up; under a connect, send or receive with the provider. *)
Definition placed_sockets (x : SOCKETS) : list Z := cn_Id <$> (x_List x ++ x_Owned x ++ x_Closing x ++ x_Handshakes x ++ x_Leaked x).
Definition issued_sockets (x : SOCKETS) : list Z := omap (fun p => match op_Irp p.2 with Issued => Some (kind_socket (op_Kind p.2)) | _ => None end) (map_to_list (x_Ops x)).

Lemma sock_inj a b : Sock a = Sock b -> a = b.
Proof. by intros [= ->]. Qed.
Lemma req_inj a b : Req a = Req b -> a = b.
Proof. by intros [= ->]. Qed.
Lemma occ_socks s l : occ (Sock s) (socks l) = occ (Sock s) (Sock <$> (cn_Id <$> l)).
Proof. unfold socks. by rewrite <- list_fmap_compose. Qed.
Lemma occ_issued s x : (occ (Sock s) (Sock <$> issued_sockets x) <= occ (Sock s) (over op_stock (x_Ops x)))%nat.
Proof.
  unfold issued_sockets, over. induction (map_to_list (x_Ops x)) as [|[o op] l IH]; [done|]. rewrite fmap_cons, concat_cons, occ_app. cbn [omap list_omap fst snd]. unfold op_stock at 1. destruct (op_Irp op); try lia. rewrite fmap_cons, occ_cons, !occ_app.
  rewrite occ_cons, (one_other (Ref _ _)) by done. destruct (op_Kind op); cbn [kind_res kind_socket]; rewrite !occ_cons; cbn [omap list_omap] in IH; lia.
Qed.
Lemma occ_paired s l l' : occ (Sock s) (concat ((fun c => Sock (cn_Id c) :: l') <$> l)) = (occ (Sock s) (socks l) + length l * occ (Sock s) l')%nat.
Proof. induction l as [|c l IH]; [done|]. rewrite fmap_cons, concat_cons, socks_cons, occ_app, !occ_cons, IH. cbn. lia. Qed.
Lemma occ_placed s x : (occ (Sock s) (Sock <$> (placed_sockets x ++ issued_sockets x)) <= occ (Sock s) (stock x))%nat.
Proof.
  rewrite occ_stock, fmap_app, occ_app. pose proof (occ_issued s x). unfold placed_sockets. rewrite !fmap_app, !occ_app, <- !occ_socks, !occ_paired, (one_other Control) by done. destruct (x_Control x || x_Unloaded x); lia.
Qed.

Section Theorems.
Context (address : Z -> SOCKADDR).
Abbreviation inv := (pools_inv address).
Abbreviation reachable := (pools_reachable address).

Lemma occ_minted_by (f : Z -> RES) z x : (forall o, ~ key (f z) o) -> occ (f z) (minted x) = (occ (f z) (Sock <$> x_Sockets x) + x_Blocks x * one Block (f z) + Z.to_nat (x_InFlight x) * one Flight (f z) + (if x_Running x then one Run (f z) else 0) + occ (f z) (Req <$> x_Arrived x) + one Control (f z))%nat.
Proof. intros H. rewrite occ_minted, occ_minted_plain by done. lia. Qed.
Lemma minted_sock s x : occ (Sock s) (minted x) = occ (Sock s) (Sock <$> x_Sockets x).
Proof. rewrite occ_minted_by by (by intros ? ?). rewrite (occ_fmap_other _ Req), !one_other by done. destruct (x_Running x); lia. Qed.
Lemma minted_req r x : occ (Req r) (minted x) = occ (Req r) (Req <$> x_Arrived x).
Proof. rewrite (occ_minted_by Req) by (by intros ? ?). rewrite (occ_fmap_other _ Sock), !one_other by done. destruct (x_Running x); lia. Qed.
Lemma pools_reachable_inv p : reachable p -> exists F, inv (ps_State p) F /\ (ps_Threads p = [] -> F = []).
Proof. intros (F & Hi & HF)%ok_reachable. exists F. split; [done|]. intros E. rewrite E in HF. by apply Forall2_nil_inv_l in HF. Qed.

(** ** Safety *)

(** The call is made on what is there. *)
Definition goes_through (x : SOCKETS) (c : SOCKET_CALL) : Prop := forall ch, unused x ch -> is_Some (socket_step x c ch).

(** C20: Whatever handlers run and however they are interleaved, the next call of
    each goes through: no socket, operation, IRP, MDL or work item is used after
    it was freed or freed twice, and the work item is never queued while queued.
    New allocations are at addresses not in use. *)
Theorem socket_calls_go_through p c k l1 l2 : reachable p -> ps_Threads p = l1 ++ Do c k :: l2 -> goes_through (ps_State p) c.
Proof.
  intros (F & Hi & HF)%ok_reachable Ht ch Hu. rewrite Ht in HF. apply Forall2_app_inv_l in HF as (F1 & F2 & _ & H2 & ->). apply Forall2_cons_inv_l in H2 as (T & F2' & Hp & _ & ->).
  apply (pools_inv_perm _ _ _ (T :: F1 ++ F2')) in Hi; [|by rewrite Permutation_middle]. by eapply defined.
Qed.

(** C21: A socket is in at most one place: pooled, with one request, being closed,
    in a handshake, given up, or under one operation; all of these are allocated,
    and the pool counts its sockets, of which there are at most 64. *)
Theorem sockets_in_one_place p :
  reachable p ->
  let x := ps_State p in
  NoDup (placed_sockets x ++ issued_sockets x) /\ (forall s, s ∈ placed_sockets x ++ issued_sockets x -> s ∈ x_Sockets x) /\
  x_Count x = Z.of_nat (length (x_List x)) /\ (length (x_List x) <= 64)%nat.
Proof.
  intros (F & Hi & _)%pools_reachable_inv x. destruct (j_count _ _ _ Hi) as [Hc Hm].
  assert (Ho : forall s, (occ (Sock s) (Sock <$> (placed_sockets x ++ issued_sockets x)) <= occ (Sock s) (Sock <$> x_Sockets x))%nat).
  { intros s. rewrite <- minted_sock, <- (j_own _ _ _ Hi). pose proof (occ_placed s x). unfold x in *. lia. }
  split; [|split; [|unfold x, SocketMaxPoolSize in *; lia]].
  - apply (occ_by_NoDup Sock sock_inj). intros s. specialize (Ho s). destruct (j_distinct _ _ _ Hi) as [Hd _]. rewrite (occ_by_NoDup Sock sock_inj) in Hd. specialize (Hd s). unfold x in *. lia.
  - intros s Hs. apply (occ_by_elem Sock sock_inj) in Hs. apply (occ_by_elem Sock sock_inj). specialize (Ho s). lia.
Qed.

(** ** Requests *)

Definition answered (x : SOCKETS) : list Z := reply_request <$> x_Replies x.
(** A request that asked for a socket has one connected where it asked, with
    success; or none, with an error. *)
Definition answer_right (a : REPLY) : Prop :=
  match a with
  | Acquired r st (Some c) => st = STATUS_SUCCESS /\ (cn_Address c = address r \/ SocketAddressEqual (cn_Address c) (address r) = true)
  | Acquired r st None => NT_SUCCESS st = false
  | Transferred r st c => True
  end.
(** C22: A request is answered at most once, by its callback or by the status of
    the call and never by both, only after it arrived; and an acquire that
    succeeds brings a socket connected to the address it was asked for. *)
Theorem requests_answered_once p : reachable p -> NoDup (answered (ps_State p)) /\ (forall r, r ∈ answered (ps_State p) -> r ∈ x_Arrived (ps_State p)) /\ Forall answer_right (x_Replies (ps_State p)).
Proof.
  intros (F & Hi & _)%pools_reachable_inv. destruct (j_distinct _ _ _ Hi) as [_ Hd]. rewrite (occ_by_NoDup Req req_inj) in Hd.
  assert (Ho : forall r, (occ (Req r) (Req <$> answered (ps_State p)) <= occ (Req r) (Req <$> x_Arrived (ps_State p)))%nat).
  { intros r. rewrite <- minted_req, <- (j_own _ _ _ Hi), occ_stock. unfold answered. rewrite <- list_fmap_compose. lia. }
  split_and!; [apply (occ_by_NoDup Req req_inj); intros r; specialize (Ho r); specialize (Hd r); lia| |exact (j_replies _ _ _ Hi)].
  intros r Hr. apply (occ_by_elem Req req_inj) in Hr. apply (occ_by_elem Req req_inj). specialize (Ho r). lia.
Qed.

(** ** At rest *)

(** No handler runs and the provider, the timers, the work queue and the
    handshakes have nothing left. *)
Definition pools_at_rest (p : POOLS) : Prop := ps_Threads p = [] /\ x_Ops (ps_State p) = ∅ /\ x_Queue (ps_State p) = [] /\ x_Closing (ps_State p) = [] /\ x_Handshakes (ps_State p) = [].
Lemma rest_counts p r : reachable p -> pools_at_rest p -> let x := ps_State p in
  (occ r (socks (x_List x)) + occ r (socks (x_Owned x)) + occ r (socks (x_Leaked x)) + occ r (Req ∘ reply_request <$> x_Replies x) + (if x_Control x || x_Unloaded x then one Control r else 0) =
   occ r (Sock <$> x_Sockets x) + x_Blocks x * one Block r + Z.to_nat (x_InFlight x) * one Flight r + (if x_Running x then one Run r else 0) + occ r (Req <$> x_Arrived x) + one Control r)%nat.
Proof.
  intros (F & Hi & HF)%pools_reachable_inv (Ht & Eo & Eq & Ec & Eh) x. rewrite (HF Ht) in Hi. pose proof (j_own _ _ _ Hi r) as H. rewrite occ_stock, occ_minted, Eo, Eq, Ec, Eh in H. unfold over in H. rewrite map_to_list_empty in H. unfold x. cbn in H. lia.
Qed.
Lemma occ_socks_other r l : (forall s, Sock s <> r) -> occ r (socks l) = 0%nat.
Proof. intros H. apply occ_fmap_other. intros c. apply H. Qed.

(** C23: When everything has come to rest, every request that arrived was answered,
    exactly once; the memory of every operation and close was given back; and the
    sockets allocated are the pooled ones, those requests have, and those given up
    when a close found no memory. *)
Theorem nothing_is_lost_at_rest p :
  reachable p -> pools_at_rest p ->
  answered (ps_State p) ≡ₚ x_Arrived (ps_State p) /\ x_Blocks (ps_State p) = 0%nat /\ x_Sockets (ps_State p) ≡ₚ cn_Id <$> (x_List (ps_State p) ++ x_Owned (ps_State p) ++ x_Leaked (ps_State p)).
Proof.
  intros Hr Hq. pose proof (fun r => rest_counts p r Hr Hq) as H. cbv zeta in H. split_and!.
  - apply (occ_by_perm Req req_inj). intros r. specialize (H (Req r)). rewrite !occ_socks_other, (occ_fmap_other _ Sock), !one_other in H by done. unfold answered. rewrite <- list_fmap_compose. destruct (x_Running _), (_ || _); lia.
  - specialize (H Block). rewrite !occ_socks_other, !occ_fmap_other, one_same, !one_other in H by done. destruct (x_Running _), (_ || _); lia.
  - apply (occ_by_perm Sock sock_inj). intros s. specialize (H (Sock s)). rewrite (occ_fmap_other _ Req), (occ_fmap_other _ (Req ∘ reply_request)), !one_other in H by done. rewrite !fmap_app, !occ_app, <- !occ_socks. destruct (x_Running _), (_ || _); lia.
Qed.

(** ** The pre-warm *)

(** One step at a time, and none is forgotten. *)
Definition fill_over (x : SOCKETS) : Prop := x_Remaining x = 0 /\ x_InFlight x = 0 /\ x_Pending x = false /\ x_Running x = false.
Lemma fill_ends p : reachable p -> 0 <= x_InFlight (ps_State p) <= 1 /\ (pools_at_rest p -> fill_over (ps_State p)).
Proof.
  intros Hr. destruct (pools_reachable_inv p Hr) as (F & Hi & HF). destruct (j_steps _ _ _ Hi) as (H0 & H1 & H2 & H3). unfold steps in *. split; [lia|]. intros Hq.
  pose proof (rest_counts p Flight Hr Hq) as Hf. pose proof (rest_counts p Run Hr Hq) as Hu. cbv zeta in Hf, Hu. rewrite !occ_socks_other, !occ_fmap_other, one_same, !one_other in Hf, Hu by done.
  assert (Ef : x_InFlight (ps_State p) = 0) by (destruct (x_Running _), (_ || _); lia). assert (Eu : x_Running (ps_State p) = false) by (destruct (x_Running _); [destruct (_ || _); lia|done]).
  destruct Hq as (Ht & _). rewrite (HF Ht) in *. assert (Ep : x_Pending (ps_State p) = false). { destruct (x_Pending (ps_State p)) eqn:E; [|done]. destruct (j_duty _ _ _ Hi E) as [?|[]]. congruence. }
  rewrite Ep, Ef in *. split; [|done]. destruct (x_ShuttingDown (ps_State p)); [done|]. destruct (Z.ltb_spec 0 (x_Remaining (ps_State p))); cbn in H3; lia.
Qed.

(** No connect, handshake or work of the pre-warm is under way. *)
Definition prewarm_gone (x : SOCKETS) : Prop :=
  x_InFlight x = 0 /\ x_Remaining x = 0 /\ x_Queue x = [] /\ x_Handshakes x = [] /\ forall o op s a, x_Ops x !! o = Some op -> op_Irp op = Issued -> op_Kind op <> Connecting s a ForPrewarm.
Lemma flights_none x F : inv x F -> x_ShuttingDown x = true -> x_InFlight x = 0 -> prewarm_gone x.
Proof.
  intros Hi Hs E. pose proof (flights _ _ _ Hi) as Hf. rewrite E, occ_stock in Hf. change (Z.to_nat 0) with 0%nat in Hf. destruct (j_steps _ _ _ Hi) as (_ & _ & _ & Hr). rewrite Hs in Hr. split_and!; [done|done| | |].
  - destruct (x_Queue x) as [|w l]; [done|]. rewrite fmap_cons, concat_cons, occ_app in Hf. destruct w; cbn [work_res] in Hf; rewrite ?occ_cons, one_same in Hf; lia.
  - destruct (x_Handshakes x) as [|c l]; [done|]. rewrite fmap_cons, concat_cons, occ_app, !occ_cons, one_same in Hf. lia.
  - intros o op s a Ho Ei Ek. rewrite (occ_over _ _ _ _ _ Ho) in Hf. unfold op_stock in Hf at 1. rewrite Ei, Ek in Hf. cbn [kind_res target_res app] in Hf. rewrite !occ_cons, one_same in Hf. lia.
Qed.
Lemma call_shut x c ch a x' : socket_step x c ch = Some (a, x') -> x_ShuttingDown x = true -> x_InFlight x = 0 -> x_ShuttingDown x' = true /\ (x_InFlight x' = 0 \/ x_InFlight x' = -1).
Proof.
  intros H Hs E. destruct c; cbn [socket_step] in H; unfold on_op, free_block in H; cbv zeta in H; rewrite ?Hs in H;
  repeat match type of H with
  | context [match ?m with _ => _ end] => destruct m; cbn [mbind option_bind] in H; try done
  | context [?m ≫= _] => destruct m; cbn [mbind option_bind] in H; try done
  end; injection H as _ <-; cbn; rewrite ?E; auto.
Qed.
Lemma step_shut p q : pools_step address p q -> x_ShuttingDown (ps_State p) = true -> x_InFlight (ps_State p) = 0 -> x_ShuttingDown (ps_State q) = true /\ (x_InFlight (ps_State q) = 0 \/ x_InFlight (ps_State q) = -1).
Proof. intros [H|H] Hs E; destruct H; cbn [ps_State] in *; try (by eapply call_shut); cbn; auto. Qed.

(** What the drain waits for; the unload routine has waited for it. *)
Definition drained (x : SOCKETS) : Prop := x_Unloaded x = true \/ x_ShuttingDown x = true /\ x_InFlight x = 0.
Lemma drained_for_good p q : reachable p -> drained (ps_State p) -> rtc (pools_step address) p q -> prewarm_gone (ps_State q).
Proof.
  intros Hp Hd Hpq. assert (x_ShuttingDown (ps_State p) = true /\ x_InFlight (ps_State p) = 0) as [Hs E]. { destruct Hd as [Hd|Hd]; [|done]. destruct (pools_reachable_inv p Hp) as (F & Hi & _). by apply (j_unloaded _ _ _ Hi). } cut (reachable q /\ x_ShuttingDown (ps_State q) = true /\ x_InFlight (ps_State q) = 0).
  { intros (Hq & Hs' & E'). destruct (pools_reachable_inv q Hq) as (F & Hi & _). by eapply flights_none. }
  revert q Hpq. apply (rtc_ind_r (fun q => reachable q /\ x_ShuttingDown (ps_State q) = true /\ x_InFlight (ps_State q) = 0)); [done|]. intros q q' _ Hstep (Hq & Hs' & E').
  assert (Hq' : reachable q') by (by eapply rtc_r). destruct (step_shut q q' Hstep Hs' E') as [? [?|Hn]]; [done|]. destruct (pools_reachable_inv q' Hq') as (F & Hi & _). destruct (j_steps _ _ _ Hi). lia.
Qed.

(** C24: The pre-warm connects one socket at a time, however its steps complete
    and whoever pumps; at rest a fill that was admitted has run to its end, or was
    given up at a connect that could not be issued or at the shutdown: nothing
    remains of it, no step is in flight or pending, and the pump is not running.
    Once the shutdown is latched and nothing is in flight, which is what the drain
    waits for, it is over for good: in every later state nothing of it is with the
    provider, in a handshake or queued, so its work item and the devices can go. *)
Theorem prewarm_ends p :
  reachable p ->
  0 <= x_InFlight (ps_State p) <= 1 /\ (pools_at_rest p -> fill_over (ps_State p)) /\ (drained (ps_State p) -> forall q, rtc (pools_step address) p q -> prewarm_gone (ps_State q)).
Proof. intros Hp. destruct (fill_ends p Hp). split_and!; try done; try lia. intros Hd q. by apply drained_for_good. Qed.
End Theorems.

(** ** Runs *)

Definition one_peer (_ : Z) : SOCKADDR := Inet 80 1.
Definition go (n : nat) (yes : bool) (id : Z) : list EVENT := replicate n (Go 0 (mkChoice yes id 0)).
(** Two sockets are pre-warmed, one after the other. *)
Definition filled : list EVENT := [Load (Inet 80 1) 2] ++ go 40 true 1 ++ [Complete 1 0] ++ go 12 false 2 ++ go 40 true 2 ++ [Complete 2 0] ++ go 60 false 3.
(** A request takes one and sends; the timer expires while the provider gives the
    IRP back. *)
Definition raced : list EVENT := filled ++ [AskSocket 7 false] ++ go 20 true 3 ++ [UseSocket 8 false 0] ++ go 20 true 4 ++ [Expire 4; Complete 4 STATUS_CANCELLED].
(** Both run; the socket is pooled again and the driver unloaded. *)
Definition unloaded : list EVENT := raced ++ replicate 20 (Go 1 (mkChoice true 5 0)) ++ go 20 true 5 ++ [GiveBack 0] ++ go 20 true 6 ++ [Unload] ++ go 80 true 7.

Lemma socket_calls_go_through_witness : goes_through (ps_State (play one_peer raced)) (CancelTimer 4).
Proof. eapply (socket_calls_go_through one_peer (play one_peer raced) (CancelTimer 4) _ [] _); [apply play_reachable|]. vm_compute. reflexivity. Defined.
Lemma sockets_in_one_place_witness : placed_sockets (ps_State (play one_peer raced)) = [1] /\ (length (x_List (ps_State (play one_peer raced))) <= 64)%nat.
Proof. split; [by vm_compute|]. destruct (sockets_in_one_place one_peer (play one_peer raced) (play_reachable _ _)) as (_ & _ & _ & H). exact H. Defined.
Lemma requests_answered_once_witness : answered (ps_State (play one_peer unloaded)) = [8; 7] /\ NoDup (answered (ps_State (play one_peer unloaded))).
Proof. split; [by vm_compute|]. apply (requests_answered_once one_peer (play one_peer unloaded) (play_reachable _ _)). Defined.
Lemma nothing_is_lost_at_rest_witness : pools_at_rest (play one_peer unloaded) /\ x_Blocks (ps_State (play one_peer unloaded)) = 0%nat.
Proof.
  assert (H : pools_at_rest (play one_peer unloaded)) by (by vm_compute). split; [exact H|]. apply (nothing_is_lost_at_rest one_peer (play one_peer unloaded) (play_reachable _ _) H).
Defined.
Lemma prewarm_ends_witness : length (x_List (ps_State (play one_peer filled))) = 2%nat /\ fill_over (ps_State (play one_peer filled)) /\ prewarm_gone (ps_State (play one_peer unloaded)).
Proof.
  split_and!; [by vm_compute| |].
  - destruct (prewarm_ends one_peer (play one_peer filled) (play_reachable _ _)) as (_ & H & _). apply H. by vm_compute.
  - destruct (prewarm_ends one_peer (play one_peer unloaded) (play_reachable _ _)) as (_ & _ & H). apply (H ltac:(left; by vm_compute)), rtc_refl.
Defined.
